(* ===== verification/_CoqProject ===== *)
-Q . S2P
Prelude.v
Buddy.v
BuddyInv.v
BuddyOps.v
BuddyFree.v
BuddyAlloc.v
BuddyRange.v
BuddyTrim.v
BuddyTop.v
BuddyInit.v
BuddyProps.v
Suballoc.v
SuballocInv.v
SuballocNew.v
SuballocProps.v
Rdma.v
RdmaInv.v
RdmaProps.v
Fixpt.v
FixptProps.v
Vector.v
Vmid.v
KfdEvents.v
KfdEventsInv.v
KfdEventsOps.v
KfdEventsWait.v
KfdEventsReach.v
KfdEventsProps.v
Gtt.v
Bytes.v
Eeprom.v
RasEeprom.v
RasEepromInv.v
RasEepromOps.v
RasEepromHdr.v
RasEepromTop.v
RasEepromApi.v
RasUpgrade.v
RasEepromProps.v
Hdcp.v
HdcpIo.v
HdcpPsp.v
Hdcp1.v
Hdcp2.v
HdcpTop.v
HdcpFrame.v
HdcpInv.v
HdcpReach.v
HdcpEnc.v
HdcpSafe.v
HdcpProps.v
Spsc.v
SpscProps.v
Sched.v
SchedOps.v
SchedInv.v
SchedStep.v
SchedRq.v
SchedRun.v
SchedFree.v
SchedRecover.v
SchedReach.v
SchedFair.v
SchedProps.v
