(* ===== verification/Prelude.v ===== *)
(** * Verification library of the amdgpu driver tree

    The repository is the amdgpu kernel driver as a DKMS tree
    (src/src-tree), with a compatibility layer, TTM, the GPU scheduler and a
    local extension that bounds the VRAM pinned for RDMA peers. This library
    models the parts that decide who owns which memory, the scheduler that decides
    which job runs next, the events the compute driver and its processes
    synchronise with, the table of bad pages that
    survives a reboot, the content protection of display links, and the arithmetic
    other parts are programmed with; each
    model is a translation of the C code into executable definitions, and the
    theorems are about those definitions.

    ** The parts and how they interact

    - The buddy allocator (drm_buddy.c) manages the address space of VRAM. The
      VRAM manager asks it for blocks; what it hands out becomes the memory of a
      buffer object.
    - The range suballocator (amd/amdkcl/kcl_drm_suballoc.c) cuts one buffer
      object into short-lived ranges for command submission, each guarded by a
      fence. The GTT suballocator (kfd_gtt_sa_* of amd/amdkfd/kfd_device.c) does the
      same for the compute driver, with a bitmap of chunks.
    - The GPU scheduler (scheduler, include/drm/gpu_scheduler.h): clients push jobs to
      entities, whose queue is the lock-free list of include/drm/spsc_queue.h; a worker
      selects an entity, waits for the dependencies of its job and hands the job to the
      hardware within a budget of credits; hardware fences complete jobs, a timeout
      stops the scheduler, resets and restarts it, and an entity that ends has its jobs
      killed.
    - KFD events (amd/amdkfd/kfd_events.c): a process creates events, the GPU sets
      their slots in a shared page and raises an interrupt, threads wait for them;
      faults and resets arrive as events too.
    - RDMA pin accounting (amd/amdgpu/amdgpu_kfd_rdma_v155.c, the pin and unpin
      functions of amdgpu_amdkfd_gpuvm.c and amdgpu_object.c) bounds how much VRAM
      peers may pin, and reclaims pins of buffers that were freed meanwhile.
    - The RAS table (amd/amdgpu/amdgpu_ras_eeprom.c, with amdgpu_ras_save_bad_pages)
      is a ring of records of bad pages on an EEPROM, with a header, a health block
      and a checksum. It reads and writes through amdgpu_eeprom.c, which cuts the
      transfers at the chip's pages and the adapter's limits.
    - The HDCP module (amd/display/modules/hdcp) authenticates the receivers behind a
      display link and turns encryption on. The display manager adds and removes
      displays and forwards events; the module runs one state machine per link for
      HDCP 1 or 2, HDMI or DisplayPort. It talks to the receiver over the display
      data channel and to a trusted application in the secure processor, which owns
      the keys and gives the verdicts.
    - The display core computes scaler, colour and bandwidth settings in fixed
      point (amd/display/include/fixed31_32.h, dc/basics) and keeps small tables:
      a growable vector (dc/basics/vector.c) and the VMID table
      (modules/vmid/vmid.c).

    ** Files

    - [Prelude]: integers at their width ([wrap], [swrap]), the error values of
      the kernel, a state monad [stM] in which [None] is a crash (a NULL or freed
      pointer, a BUG_ON, a division by zero, fuel exhausted), its weakest
      preconditions [wp] (and [wlp], which permits a crash), powers of two, lists,
      sums over lists and maps. [Bytes]: little-endian integers and byte sums.
    - [Buddy]: every function of drm_buddy.c but the printing ones. A block is a
      key of a heap, so the pointers of the tree alias as in C. [BuddyInv]: the
      invariant [wf] and the elementary state changes. [BuddyOps], [BuddyFree],
      [BuddyAlloc], [BuddyRange], [BuddyTrim], [BuddyTop], [BuddyInit]: each group
      of functions run on well-formed states. [BuddyProps]: the properties.
    - [Suballoc], [SuballocInv], [SuballocNew], [SuballocProps]: the same for the
      suballocator; fences are counted references, and every wait is an argument
      that says what other threads did meanwhile. [Gtt]: the GTT suballocator, model
      and properties in one file.
    - [Spsc]: the two threads of the lock-free queue as a small-step machine, its
      refinement of a FIFO queue by an invariant. [SpscProps]: the properties, and the
      producer and the worker of the scheduler that wake each other through the queue,
      with the dependency of the entity, the credits and the jobs in flight; other
      entities, fences and the ends of jobs are actions of the environment.
    - [Sched]: every operation of sched_main.c, sched_entity.c and sched_fence.c; jobs,
      entities, schedulers and fences are keys of heaps, signalling a fence runs its
      callbacks, the queue of an entity is the list [Spsc] shows it to be. [SchedOps]:
      the operations that reach a scheduler from outside, in any order. [SchedInv]: the
      invariant of credits, queues and callbacks, and the tactics that frame a
      computation. [SchedStep], [SchedRq], [SchedRun], [SchedFree], [SchedRecover]: the
      elementary changes, run queues, the worker that runs jobs, freeing and killing,
      stop, resubmission and start. [SchedReach]: submission and the reachable states.
      [SchedFair]: the order of the run queues. [SchedProps]: the properties.
    - [KfdEvents]: every function of kfd_events.c. Events and waiters are keys of
      two heaps, an event's queue lists its waiters, a waiter points to its event;
      waking a sleeping task takes its waiter off the queue, as autoremove does, and
      which tasks sleep is an argument. A wait takes a list of rounds, each with what
      the other threads do while it sleeps. [KfdEventsInv]: the invariant.
      [KfdEventsOps], [KfdEventsWait], [KfdEventsReach]: the operations, the waits
      and the reachable states. [KfdEventsProps]: the properties.
    - [Eeprom]: amdgpu_eeprom.c. [I2cBus] is the adapter, [At24] what a chip promises
      about one transaction, [EepromDevSpec] what the transfer functions promise to
      their clients; [eeprom_dev_spec] proves the second from the first.
    - [RasEeprom]: amdgpu_ras_eeprom.c over any [EepromDev]. [RasEepromInv]: encodings
      and the ring of records as a bounded log. [RasEepromOps], [RasEepromHdr],
      [RasEepromTop], [RasEepromApi]: writing records, header and checksum, updating
      and reading, the entry points. [RasUpgrade]: a version 1 table formatted as
      version 3. [RasEepromProps]: the properties, and a concrete chip that runs them.
    - [Hdcp]: the data of mod_hdcp.h and the helpers of hdcp.h. [HdcpIo]: hdcp_ddc.c,
      and the class [HdcpWorld] of what is outside (data channel, secure processor).
      [HdcpPsp]: hdcp_psp.c. [Hdcp1], [Hdcp2]: what each state executes and which state
      it enters (hdcp1_execution.c, hdcp1_transition.c and their HDCP 2 counterparts).
      [HdcpTop]: hdcp.c, the events and the operations. [HdcpFrame]: what an execution
      may change. [HdcpInv]: the verdicts required in every state. [HdcpReach]: the
      invariant of the reachable links and the number of attempts. [HdcpEnc]: when a
      display is marked as encrypted. [HdcpSafe]: no access outside a message.
      [HdcpProps]: the properties, with simulated receivers.
    - [Rdma], [RdmaInv], [RdmaProps]: the pin quota. The compare-and-exchange loops
      take the values other CPUs leave in the counter as an argument.
    - [Fixpt], [FixptProps]: the fixed-point formats. [Vector], [Vmid]: model and
      properties in one file.

    ** What the theorems show

    - Buddy (C1-C5): as long as the slab cache does not fail and requests are good
      ([good_request]), in every reachable state the blocks handed out are aligned,
      inside the space and disjoint, and [avail] is the rest; allocation (from the
      free lists, inside a range, contiguous inside a range) and trimming do what they
      promise or return an error with the allocated blocks and [avail] as they were;
      freeing undoes allocating.
      [BuddyProps] also has initialisation, requests for an exact range and forced
      merging. Contiguous requests without a range, which may fall back to
      [__alloc_contig_try_harder], are modelled but outside these theorems. C5 proves a defect: a request whose rounded size exceeds the
      largest order runs into a BUG_ON; a theorem of [BuddyProps] another: a slab
      failure in the middle of a split corrupts a free list.
    - Scheduler (C6-C18): in every state reached by submitting, running, completing,
      killing, timing out and resetting in any order, the credit counter is the sum of
      the credits on the hardware and within the limit (C6), and queues, pending lists
      and callbacks name live jobs, each in one place (C7); the entity chosen is the
      one the priority and the policy name (C8), round robin serves every ready entity
      once per round while the run queue's list does not change (C9), FIFO the one that has waited longest (C10). The lock-free
      queue is a FIFO queue under every interleaving (C11), and a pop returns
      ([SpscProps]); a queued job always has someone who will look at it - the worker,
      the first push, the callback of its dependency, a job in flight that holds the
      credits - as long as the worker does not read the counter in the window of a push
      and no scheduled fence is signaled by a kill (C12), but in that window it has not
      (C13). C14: a job whose dependency was killed is never run. A job depends on the latest fence of
      each context (C15), the least loaded scheduler is picked (C16). C17 and C18 prove
      two more defects: arming a job when no scheduler is ready dereferences NULL, a
      failed reservation dependency drops a reference twice.
    - HDCP (C19-C24): an authenticated state has every verdict behind it (C19) and a
      display is reported as encrypted only behind a validated receiver (C20); every
      operation returns, without an access outside a message (C21); a link that keeps
      failing is given up after at most four attempts with each protocol (C22). C23 and C24 prove two
      defects: commands the trusted application does not execute pass as successful
      validations, an HDMI repeater can announce a list longer than the array it is
      read into. [HdcpProps] has a third, verdicts on an old receiver ID list taken for
      those on a new one, and shows that C20 fails when a session is not destroyed.
    - Events (C25-C29, C35): the invariant of every process state reached by operations
      that respect [op_ok] (no lost wake-ups, every slot has its event); the two searches
      of an interrupt agree, and it signals exactly the events whose slot is set (C35); a
      wait touches no freed memory as long as the other threads respect [op_ok] too, and
      reports what its waiters showed; waits end.
      C29 proves a defect: in every reachable process, a use after free when an event is
      destroyed under a woken waiter (which [op_ok] therefore excludes by letting a woken
      waiter return before its event goes). [KfdEventsProps] also has creation and setting
      on every branch and two more defects: a signal consumed by a wait
      that ends with -ETIME, an unchecked slot index on restore.
    - RAS table (C30-C34): the table refines a log of the most recent records (C30); after
      a reset that keeps the layout of its version, header, health block and checksum on
      the chip stay consistent through appends, saves, checks and reloads (C31); encodings
      round-trip (C32); loading a table (C33), which reads a wrapped ring back rotated.
      C34: formatting a version 1 table as version 3 loses the records that are saved,
      on every device and whatever the records are. [RasEepromProps] also shows that transfers cut at pages and limits
      deliver every byte, the check of a loaded table and two more defects: a freshly
      created table accepts no records until the next boot, a failed write counts its
      records.
    - Suballocators (C36-C38): live ranges never overlap, each pending range holds
      one fence reference; allocation terminates, with exactly the size (not rounded, as a
      comment says) and the alignment asked for, or with an error. The GTT allocator is first fit; [Gtt] also shows that its bitmap marks
      exactly the live objects.
    - RDMA (C39-C40): the quota counter is the sum of the charged buffer objects and
      within its limit in every reachable state; the reaper takes the expired orphans
      off its list and drops pins and charge of those it can reserve, so that a later
      unpin is a no-op; the others stay pinned and charged. [RdmaProps] also shows that a failed pin changes
      nothing and that the lock-free charge is atomic, the balance of pin and unpin, the
      bounded wait, and two defects: the wait polls while it holds the lock every unpin
      needs, and the reaper gives [vram_pinned] back once instead of once per pin.
    - Display: in [FixptProps] division rounds to nearest, multiplication is within one
      unit, register formats and matrices round-trip, fractions are reduced, and three
      defects: products of fractions are rounded up even when exact, the exponential of
      numbers below about -21.5 is negative or divides by zero, negative matrix elements
      are encoded and decoded in different formats. [Vmid] has the assignment of VMIDs,
      [Vector] the vector against lists.

    ** Fuel and other bounds

    Structural recursion follows the C loops where the bound is explicit (orders,
    list walks). The buddy allocator's depth-first walks take a [fuel] that the
    theorems require to be at least the number of blocks the tree can have
    ([fuel_ok]); its page loop and merge loop have theorems that the fuel computed
    by the model is enough. The suballocator's hole search is shown to end within
    [2 * n + 2] rounds, the GTT search within one more round than it has chunks. An
    EEPROM transfer of [n] bytes gets [n + 1] rounds, and the theorems show that it
    ends. An HDCP transfer gets one round more than its array has bytes ([io_fuel]; each
    round moves a byte or leaves the array, and C21 shows that the fuel never runs out).
    The dependency loop of the scheduler gets one round more than there are fences to wait
    for. The search for a partial event id gets as many rounds as there are slots.
    Euclid's loop gets its argument as fuel. The logarithm's Newton iteration has no
    bound in the code and takes its fuel as an argument.

    ** What is assumed of code outside

    What [run_job] and [prepare_job] of a driver return, memory allocation,
    [ttm_bo_validate], reservations, fence waits, user copies and
    the time are arguments; the hypotheses about them are named: [pin_env_ok] (errors
    are nonzero, a pinned buffer is not moved), [env_ok] (other threads keep the
    suballocator's invariant), [slab_ok], [IdrAllocSpec] (an id table hands out unused
    ids of the range, or an error), [op_ok] and [rounds_ok] (what the callers of an
    event operation guarantee, and the other threads during a wait), [At24] (what a transaction does to the chip's
    bytes), [quirks_ok] (an adapter's limits fit their fields), [thr_ok] (the threshold
    of bad pages is positive when it is used), [dev_bytes] (a device reads bytes),
    [TaDestroys] (the trusted application destroys a session it is asked to destroy),
    [HdcpPeers] (a receiver ID list and a stream management message fit the sizes the
    HDCP specification gives them).

    ** What is not modelled, and the plan

    Locks are not modelled: each operation runs alone, except where interference is
    an argument. Of the RDMA path, dma-buf and peer callbacks, logging and sysfs are
    left out; [amdgpu_kfd_reaper_stop] is modelled but not a step of the reachable
    system, since it drops pins without their accounting at device teardown. Of the
    RAS table, the debugfs output and the messages to the power firmware are left
    out. The printing functions, the hardware-specific code (ASIC blocks, power
    management, display hardware sequencing, dml), PSP, the rest of RAS and the
    generated register headers are not modelled. Of HDCP, the traces and the work
    queues of the display manager are left out; the two unions of messages and verdicts
    are kept apart, since every field is cleared before the other protocol reads its
    bytes. Of the scheduler, deadlines, timestamps and the release of fences are left out,
    and its operations run one after the other; only the queue of an entity is shown to
    be correct under interleaving, with sequentially consistent memory. Next in the plan:
    the ring and fence sequence numbers, the reservation object of the compatibility layer, the way bad pages are loaded in
    amdgpu_ras.c, and a round trip of checkpoint and restore for events. *)

From stdpp Require Import gmap list sorting.
From Stdlib Require Import ZArith Lia.

#[global] Open Scope Z_scope.

(** ** Machine integers

    A C integer of width [w] is a [Z]; every operation that may leave the
    width is wrapped explicitly. *)

Definition wrap (w x : Z) : Z := x mod 2 ^ w.
Abbreviation u64 := (wrap 64).
Abbreviation u32 := (wrap 32).

(** The value of a two's complement word of width [w]. *)
Definition swrap (w x : Z) : Z := (x + 2 ^ (w - 1)) mod 2 ^ w - 2 ^ (w - 1).
Abbreviation s64 := (swrap 64).
Abbreviation s32 := (swrap 32).

(** [~x] on 64 bits. *)
Definition lnot64 (x : Z) : Z := 2 ^ 64 - 1 - x.

Lemma wrap_small w x : 0 <= x < 2 ^ w -> wrap w x = x.
Proof. intros. by apply Z.mod_small. Qed.

Lemma wrap_range w x : 0 <= w -> 0 <= wrap w x < 2 ^ w.
Proof. intros. apply Z.mod_pos_bound. lia. Qed.

Lemma swrap_small w x :
  0 < w -> - 2 ^ (w - 1) <= x < 2 ^ (w - 1) -> swrap w x = x.
Proof.
  intros Hw Hx. unfold swrap.
  assert (2 ^ w = 2 * 2 ^ (w - 1)) as Hp.
  { rewrite <- Z.pow_succ_r by lia. f_equal. lia. }
  rewrite Z.mod_small; lia.
Qed.

Lemma swrap_wrap w x : swrap w (wrap w x) = swrap w x.
Proof. unfold swrap, wrap. by rewrite Zplus_mod_idemp_l. Qed.

(** An addition that wrapped is undone by the subtraction. *)
Lemma swrap_add_sub w x y :
  0 < w -> - 2 ^ (w - 1) <= x < 2 ^ (w - 1) -> swrap w (swrap w (x + y) - y) = x.
Proof.
  intros Hw Hx. assert (2 ^ w = 2 * 2 ^ (w - 1)) as E by (rewrite <- Z.pow_succ_r by lia; f_equal; lia).
  unfold swrap. set (h := 2 ^ (w - 1)) in *.
  replace ((x + y + h) mod 2 ^ w - h - y + h) with ((x + y + h) mod 2 ^ w - y) by lia.
  rewrite Zminus_mod_idemp_l. replace (x + y + h - y) with (x + h) by lia. rewrite Z.mod_small by lia. lia.
Qed.

Lemma swrap_add_l w a b : swrap w (swrap w a + b) = swrap w (a + b).
Proof.
  unfold swrap. set (h := 2 ^ (w - 1)).
  replace ((a + h) mod 2 ^ w - h + b + h) with ((a + h) mod 2 ^ w + b) by lia.
  rewrite Zplus_mod_idemp_l. do 2 f_equal. lia.
Qed.

Lemma swrap_range w x :
  0 < w -> - 2 ^ (w - 1) <= swrap w x < 2 ^ (w - 1).
Proof.
  intros Hw. unfold swrap.
  assert (2 ^ w = 2 * 2 ^ (w - 1)) as Hp.
  { rewrite <- Z.pow_succ_r by lia. f_equal. lia. }
  pose proof (Z.mod_pos_bound (x + 2 ^ (w - 1)) (2 ^ w)). lia.
Qed.

(** ** Error numbers of the kernel, as the positive constants of errno.h *)

Definition EPERM : Z := 1.
Definition ENOENT : Z := 2.
Definition EINTR : Z := 4.
Definition EIO : Z := 5.
Definition ENOMEM : Z := 12.
Definition EFAULT : Z := 14.
Definition EBUSY : Z := 16.
Definition EINVAL : Z := 22.
Definition ENOSPC : Z := 28.
Definition ETIME : Z := 62.
Definition ETIMEDOUT : Z := 110.
Definition ERESTARTSYS : Z := 512.

(** A pointer-or-error result ([ERR_PTR], [IS_ERR], [PTR_ERR]). *)
Inductive errptr (A : Type) : Type :=
| PTR (a : A)
| ERR_PTR (err : Z).
Arguments PTR {A} a.
Arguments ERR_PTR {A} err.

(** ** Arithmetic helpers of the kernel's own C library *)

Definition is_power_of_2 (n : Z) : bool :=
  negb (n =? 0) && (Z.land n (n - 1) =? 0).
Definition ilog2 (n : Z) : Z := Z.log2 n.
(** [fls] takes an [unsigned int]: a wider argument is truncated. *)
Definition fls (x : Z) : Z := let x := u32 x in if x =? 0 then 0 else Z.log2 x + 1.
Definition round_up (x y : Z) : Z := u64 (Z.lor (u64 (x - 1)) (y - 1) + 1).
Definition round_down (x y : Z) : Z := Z.land x (lnot64 (y - 1)).
Definition IS_ALIGNED (x a : Z) : bool := Z.land x (a - 1) =? 0.
Definition roundup_pow_of_two (n : Z) : Z := u64 (2 ^ Z.log2_up n).
Definition rounddown_pow_of_two (n : Z) : Z := 2 ^ Z.log2 n.

(** Rounding and alignment at a power of two. *)
Section PowersOfTwo.
Context (k : Z).
Hypothesis Hk : 0 <= k <= 64.

Lemma lnot64_pow2 : lnot64 (2 ^ k - 1) = Z.shiftl (Z.ones (64 - k)) k.
Proof using Hk.
  unfold lnot64. rewrite Z.shiftl_mul_pow2, Z.ones_equiv by lia.
  replace (2 ^ 64) with (2 ^ (64 - k) * 2 ^ k) by (rewrite <- Z.pow_add_r by lia; f_equal; lia).
  lia.
Qed.

Lemma round_down_pow2 x : 0 <= x < 2 ^ 64 -> round_down x (2 ^ k) = x - x mod 2 ^ k.
Proof using Hk.
  intros Hx. unfold round_down. rewrite lnot64_pow2.
  transitivity (Z.shiftl (Z.shiftr x k) k).
  - apply Z.bits_inj'. intros i Hi. rewrite Z.land_spec, !Z.shiftl_spec by lia.
    destruct (Z.ltb_spec i k).
    + rewrite !(Z.testbit_neg_r _ (i - k)) by lia. apply andb_false_r.
    + rewrite Z.shiftr_spec, Z.testbit_ones by lia. replace (i - k + k) with i by lia.
      destruct (Z.ltb_spec i 64).
      * replace (_ && _) with (Z.testbit x i && true) by (f_equal; symmetry; apply andb_true_iff; split; lia).
        apply andb_true_r.
      * rewrite (Z.bits_above_log2 x i); [apply andb_false_l|lia|].
        destruct (Z.eq_dec x 0) as [->|]; [simpl; lia|].
        apply Z.log2_lt_pow2; [lia|]. apply Z.lt_le_trans with (2 ^ 64); [lia|].
        apply Z.pow_le_mono_r; lia.
  - rewrite Z.shiftl_mul_pow2, Z.shiftr_div_pow2 by lia.
    pose proof (Z.div_mod x (2 ^ k)). lia.
Qed.

Lemma lor_ones x : Z.lor x (2 ^ k - 1) = x - x mod 2 ^ k + (2 ^ k - 1).
Proof using Hk.
  replace (2 ^ k - 1) with (Z.ones k) by (rewrite Z.ones_equiv; lia).
  pose proof (Z.add_lor_land x (Z.ones k)) as E. rewrite Z.land_ones in E by lia. lia.
Qed.

Lemma round_up_pow2 x :
  0 < x < 2 ^ 64 -> round_up x (2 ^ k) = u64 (((x - 1) / 2 ^ k + 1) * 2 ^ k).
Proof using Hk.
  intros Hx. unfold round_up. rewrite (wrap_small 64 (x - 1)) by lia. rewrite lor_ones.
  f_equal. pose proof (Z.div_mod (x - 1) (2 ^ k)). lia.
Qed.

Lemma round_up_0 : round_up 0 (2 ^ k) = 0.
Proof using Hk.
  unfold round_up. rewrite lor_ones. unfold wrap.
  change ((0 - 1) mod 2 ^ 64) with (2 ^ 64 - 1).
  replace (2 ^ 64) with (2 ^ (64 - k) * 2 ^ k) by (rewrite <- Z.pow_add_r by lia; f_equal; lia).
  assert (0 < 2 ^ k) by (apply Z.pow_pos_nonneg; lia).
  replace (2 ^ (64 - k) * 2 ^ k - 1) with (2 ^ k - 1 + (2 ^ (64 - k) - 1) * 2 ^ k) by lia.
  rewrite Z.mod_add, (Z.mod_small (2 ^ k - 1)) by lia.
  match goal with |- ?a mod ?b = 0 => replace a with b by lia end. apply Z.mod_same.
  assert (0 < 2 ^ (64 - k)) by (apply Z.pow_pos_nonneg; lia). nia.
Qed.

Lemma IS_ALIGNED_pow2 x : IS_ALIGNED x (2 ^ k) = (x mod 2 ^ k =? 0).
Proof using Hk.
  unfold IS_ALIGNED. replace (2 ^ k - 1) with (Z.ones k) by (rewrite Z.ones_equiv; lia).
  by rewrite Z.land_ones by lia.
Qed.
End PowersOfTwo.

Lemma is_power_of_2_inv n : is_power_of_2 n = true -> 0 < n -> n = 2 ^ Z.log2 n.
Proof.
  unfold is_power_of_2. intros H Hn. apply andb_true_iff in H as [_ H%Z.eqb_eq].
  destruct (Z.log2_spec n Hn) as [Hl Hu]. destruct (Z.eq_dec n (2 ^ Z.log2 n)); [done|].
  assert (Z.log2 (n - 1) = Z.log2 n) as E by (apply Z.log2_unique; [apply Z.log2_nonneg|lia]).
  assert (0 < 2 ^ Z.log2 n) by (apply Z.pow_pos_nonneg; [lia|apply Z.log2_nonneg]).
  assert (Z.testbit (Z.land n (n - 1)) (Z.log2 n) = true) as T.
  { rewrite Z.land_spec, Z.bit_log2 by lia. rewrite <- E. apply Z.bit_log2. lia. }
  rewrite H, Z.testbit_0_l in T. done.
Qed.

Fixpoint hweight_pos (p : positive) : Z :=
  match p with
  | xH => 1
  | xO p => hweight_pos p
  | xI p => 1 + hweight_pos p
  end.
Definition hweight64 (n : Z) : Z :=
  match n with Zpos p => hweight_pos p | _ => 0 end.

(** ** A state monad with a crash outcome

    [None] is a [BUG_ON] that fires, a dereference of a freed or NULL pointer,
    a corrupted list, or a loop that exhausts its fuel: a [None]-free run is a
    run of the C code that stays within its defined behaviour. *)

Definition stM (S A : Type) : Type := S -> option (A * S).

Section StateMonad.
Context {S : Type}.

Definition st_ret {A} (a : A) : stM S A := fun s => Some (a, s).
Definition st_bind {A B} (m : stM S A) (k : A -> stM S B) : stM S B :=
  fun s => match m s with Some (a, s') => k a s' | None => None end.
Definition st_bug {A} : stM S A := fun _ => None.
Definition st_get : stM S S := fun s => Some (s, s).
Definition st_gets {A} (f : S -> A) : stM S A := fun s => Some (f s, s).
Definition st_mod (f : S -> S) : stM S unit := fun s => Some (tt, f s).
(** [BUG_ON(c)] *)
Definition BUG_ON (c : bool) : stM S unit := if c then st_bug else st_ret tt.
Definition st_of_option {A} (o : option A) : stM S A :=
  match o with Some a => st_ret a | None => st_bug end.
Definition st_when (c : bool) (m : stM S unit) : stM S unit :=
  if c then m else st_ret tt.

(** Total-correctness triples: the run does not crash. *)
Definition triple {A} (P : S -> Prop) (m : stM S A) (Q : A -> S -> Prop) : Prop :=
  forall s, P s -> exists a s', m s = Some (a, s') /\ Q a s'.

Lemma triple_ret {A} (a : A) (Q : A -> S -> Prop) : triple (Q a) (st_ret a) Q.
Proof. intros s H. exists a, s. done. Qed.

Lemma triple_bind {A B} P (m : stM S A) R (k : A -> stM S B) Q :
  triple P m R -> (forall a, triple (R a) (k a) Q) -> triple P (st_bind m k) Q.
Proof.
  intros Hm Hk s Hs. destruct (Hm s Hs) as (a & s' & E & HR).
  destruct (Hk a s' HR) as (b & s'' & E' & HQ).
  exists b, s''. unfold st_bind. by rewrite E.
Qed.

Lemma triple_conseq {A} (P P' : S -> Prop) (m : stM S A) (Q Q' : A -> S -> Prop) :
  triple P' m Q' -> (forall s, P s -> P' s) -> (forall a s, Q' a s -> Q a s) ->
  triple P m Q.
Proof.
  intros H HP HQ s Hs. destruct (H s (HP s Hs)) as (a & s' & E & HQ').
  eauto.
Qed.

(** Running a bound computation when its first half is known. *)
Lemma st_bind_run {A B} (m : stM S A) (k : A -> stM S B) s a s' :
  m s = Some (a, s') -> st_bind m k s = k a s'.
Proof. intros E. unfold st_bind. by rewrite E. Qed.
End StateMonad.

(** ** Computations whose runs stay within a preorder on states *)

Section Respects.
Context {S : Type} (R : S -> S -> Prop) `{!PreOrder R}.

Definition respects {A} (m : stM S A) : Prop := forall s a s', m s = Some (a, s') -> R s s'.

Lemma respects_bug {A} : respects (st_bug : stM S A).
Proof. intros s x s' [=]. Qed.
Lemma respects_mod f : (forall s, R s (f s)) -> respects (st_mod f).
Proof. intros Hf s x s' [= _ <-]. apply Hf. Qed.
Lemma respects_ret {A} (a : A) : respects (st_ret a).
Proof using Type*. intros s x s' [= _ <-]. reflexivity. Qed.
Lemma respects_get : respects st_get.
Proof using Type*. intros s x s' [= _ <-]. reflexivity. Qed.
Lemma respects_gets {A} (f : S -> A) : respects (st_gets f).
Proof using Type*. intros s x s' [= _ <-]. reflexivity. Qed.
Lemma respects_bind {A B} (m : stM S A) (k : A -> stM S B) :
  respects m -> (forall a, respects (k a)) -> respects (st_bind m k).
Proof using Type*.
  intros Hm Hk s b s'. unfold st_bind. destruct (m s) as [[a s1]|] eqn:E; [|done]. intros E'.
  etrans; [by eapply Hm|by eapply Hk].
Qed.
Lemma respects_when c m : respects m -> respects (st_when c m).
Proof using Type*. intros H. destruct c; [done|apply respects_ret]. Qed.
End Respects.

(** ** Weakest preconditions

    [wp m Q s]: the run of [m] from [s] does not crash and ends in [Q]. The lemmas
    below execute a computation symbolically, one binding at a time. *)
Section Wp.
Context {S : Type}.

Definition wp {A} (m : stM S A) (Q : A -> S -> Prop) (s : S) : Prop :=
  match m s with Some (a, s') => Q a s' | None => False end.

Lemma wp_bind {A B} (m : stM S A) (k : A -> stM S B) Q s :
  wp m (fun a => wp (k a) Q) s -> wp (st_bind m k) Q s.
Proof. unfold wp, st_bind. by destruct (m s) as [[a s']|]. Qed.

Lemma wp_ret {A} (a : A) Q s : Q a s -> wp (st_ret a) Q s.
Proof. done. Qed.
Lemma wp_mod f Q s : Q tt (f s) -> wp (st_mod f) Q s.
Proof. done. Qed.
Lemma wp_gets {A} (f : S -> A) Q s : Q (f s) s -> wp (st_gets f) Q s.
Proof. done. Qed.
Lemma wp_get Q s : Q s s -> wp st_get Q s.
Proof. done. Qed.

Lemma wp_mono {A} (m : stM S A) (Q Q' : A -> S -> Prop) s :
  wp m Q s -> (forall a s', Q a s' -> Q' a s') -> wp m Q' s.
Proof. unfold wp. destruct (m s) as [[a s']|]; [intros ? H; by apply H|done]. Qed.

Lemma wp_run {A} (m : stM S A) Q s :
  wp m Q s <-> exists a s', m s = Some (a, s') /\ Q a s'.
Proof.
  unfold wp. destruct (m s) as [[a s']|]; split.
  - intros H. by exists a, s'.
  - by intros (? & ? & [= -> ->] & ?).
  - done.
  - by intros (? & ? & ? & ?).
Qed.

Lemma wp_of_option {A} (o : option A) a Q s : o = Some a -> Q a s -> wp (st_of_option o) Q s.
Proof. by intros ->. Qed.

Lemma wp_when (c : bool) (m : stM S unit) Q s :
  (c = true -> wp m Q s) -> (c = false -> Q tt s) -> wp (st_when c m) Q s.
Proof. destruct c; simpl; intros H1 H2; [by apply H1|by apply H2]. Qed.

(** [wlp m Q s]: if the run of [m] from [s] does not crash, it ends in [Q]. *)
Definition wlp {A} (m : stM S A) (Q : A -> S -> Prop) (s : S) : Prop :=
  forall a s', m s = Some (a, s') -> Q a s'.

Lemma wlp_wp {A} (m : stM S A) Q s : wp m Q s -> wlp m Q s.
Proof. intros H a s' E. unfold wp in H. by rewrite E in H. Qed.
Lemma wlp_bind {A B} (m : stM S A) (k : A -> stM S B) Q s :
  wlp m (fun a => wlp (k a) Q) s -> wlp (st_bind m k) Q s.
Proof. intros H b s'. unfold st_bind. destruct (m s) as [[a s1]|] eqn:E; [|done]. by apply H. Qed.
Lemma wlp_mono {A} (m : stM S A) (Q Q' : A -> S -> Prop) s :
  wlp m Q s -> (forall a s', Q a s' -> Q' a s') -> wlp m Q' s.
Proof. intros H HQ a s' E. by apply HQ, H. Qed.

Lemma wp_from_triple {A} P (m : stM S A) Q s : triple P m Q -> P s -> wp m Q s.
Proof. intros H HP. apply wp_run. by apply H. Qed.
End Wp.

Declare Scope st_scope.
Delimit Scope st_scope with st.
Notation "x <- m ;; k" := (st_bind m (fun x => k))
  (at level 100, m at next level, right associativity) : st_scope.
Notation "m ;; k" := (st_bind m (fun _ => k))
  (at level 100, right associativity) : st_scope.

(** ** Tactics and hint databases of the development *)

Create HintDb s2v.

(** Splits a chain of conjunctions and existentials in the context. *)
Ltac dest := repeat match goal with
  | H : _ /\ _ |- _ => destruct H
  | H : exists _, _ |- _ => destruct H
  end.

(** One step of symbolic execution of the goal's [wp]. *)
Ltac wp_step :=
  lazymatch goal with
  | |- wp (st_bind _ _) _ _ => apply wp_bind
  | |- wp (st_ret _) _ _ => apply wp_ret
  | |- wp (st_mod _) _ _ => apply wp_mod
  | |- wp (st_gets _) _ _ => apply wp_gets
  | |- wp st_get _ _ => apply wp_get
  end; cbv beta.
Ltac wp_steps := repeat wp_step.
Ltac wlp_step :=
  lazymatch goal with
  | |- wlp (st_bind _ _) _ _ => apply wlp_bind
  | |- wlp (st_ret _) _ _ => apply wlp_wp, wp_ret
  | |- wlp (st_mod _) _ _ => apply wlp_wp, wp_mod
  | |- wlp (st_gets _) _ _ => apply wlp_wp, wp_gets
  end; cbv beta.

Ltac head_of t := lazymatch t with ?f _ => head_of f | _ => t end.

(** One step of the frame of a computation; [leaf] closes what is neither control flow
    nor a definition to unfold. *)
Ltac frame_step leaf :=
  lazymatch goal with
  | |- respects ?R ?m =>
    lazymatch m with
    | st_bind _ _ => apply (respects_bind R); [|intros ?]
    | st_when _ _ => apply (respects_when R)
    | st_ret _ => apply (respects_ret R)
    | st_bug => apply respects_bug
    | st_get => apply (respects_get R)
    | st_gets _ => apply (respects_gets R)
    | match ?x with _ => _ end => destruct x
    | _ => first [leaf | let h := head_of m in unfold h]
    end
  end.

(** Case analysis on the boolean comparisons of the goal or a hypothesis. *)
Ltac zbool := repeat match goal with
  | H : context [?a =? ?b] |- _ => destruct (Z.eqb_spec a b)
  | H : context [?a <? ?b] |- _ => destruct (Z.ltb_spec a b)
  | H : context [?a <=? ?b] |- _ => destruct (Z.leb_spec a b)
  | |- context [?a =? ?b] => destruct (Z.eqb_spec a b)
  | |- context [?a <? ?b] => destruct (Z.ltb_spec a b)
  | |- context [?a <=? ?b] => destruct (Z.leb_spec a b)
  end.

(** ** Intrusive lists

    A [struct list_head] list is the [list] of the nodes on it. [list_del] of a
    node that is not linked, and [list_add] of a node that already is, corrupt
    the list: both are crashes. *)

Section Lists.
Context {A : Type} `{!EqDecision A}.

Definition list_del (x : A) (l : list A) : option (list A) :=
  if decide (x ∈ l) then Some (filter (fun y => y <> x) l) else None.

Lemma elem_of_list_del x y (l : list A) :
  y ∈ filter (fun z => z <> x) l <-> y <> x /\ y ∈ l.
Proof. by rewrite list_elem_of_filter. Qed.

Lemma NoDup_list_del x (l : list A) :
  NoDup l -> NoDup (filter (fun z => z <> x) l).
Proof. apply NoDup_filter. Qed.

Lemma filter_ne_id x (l : list A) :
  x ∉ l -> filter (fun z => z <> x) l = l.
Proof.
  induction l as [|y l IH]; intros Hx; [done|].
  rewrite filter_cons. destruct (decide (y <> x)) as [|Hn].
  - f_equal. apply IH. set_solver.
  - exfalso. set_solver.
Qed.

Lemma StronglySorted_filter (R : A -> A -> Prop) (P : A -> Prop)
    `{!forall x, Decision (P x)} (l : list A) :
  StronglySorted R l -> StronglySorted R (filter P l).
Proof.
  induction 1 as [|x l Hs IH Hf]; [constructor|].
  rewrite filter_cons. destruct (decide (P x)); [|done].
  constructor; [done|]. rewrite Forall_forall in Hf |- *.
  intros y Hy. apply list_elem_of_filter in Hy. apply Hf. tauto.
Qed.
End Lists.

(** Insertion before the first node the predicate accepts, at the tail when
    there is none: the shape of a [list_for_each_entry] loop that breaks and
    then links the node in front of the cursor. *)
Fixpoint insert_before {A} (p : A -> bool) (x : A) (l : list A) : list A :=
  match l with
  | [] => [x]
  | y :: l' => if p y then x :: y :: l' else y :: insert_before p x l'
  end.

Lemma elem_of_insert_before {A} p (x y : A) l :
  y ∈ insert_before p x l <-> y = x \/ y ∈ l.
Proof.
  induction l as [|z l IH]; simpl; [set_solver|].
  destruct (p z); rewrite ?elem_of_cons, ?IH; set_solver.
Qed.

Lemma NoDup_insert_before {A} p (x : A) l :
  x ∉ l -> NoDup l -> NoDup (insert_before p x l).
Proof.
  induction l as [|z l IH]; simpl; intros Hx Hn; [by apply NoDup_singleton|].
  destruct (p z); [by constructor|].
  inversion Hn; subst. constructor.
  - rewrite elem_of_insert_before. set_solver.
  - apply IH; set_solver.
Qed.

Lemma StronglySorted_insert_before {A} (R : A -> A -> Prop) `{!Transitive R} p (x : A) l :
  (forall y, y ∈ l -> p y = true -> R x y) ->
  (forall y, y ∈ l -> p y = false -> R y x) ->
  StronglySorted R l -> StronglySorted R (insert_before p x l).
Proof.
  induction l as [|z l IH]; simpl; intros H1 H2 Hs; [by repeat constructor|].
  inversion Hs as [|? ? Hs' Hf]; subst. destruct (p z) eqn:E.
  - constructor; [done|]. constructor; [apply H1; set_solver|].
    rewrite Forall_forall in Hf |- *. intros y Hy.
    transitivity z; [apply H1; set_solver|by apply Hf].
  - constructor.
    + apply IH; [| |done]; intros y Hy; [apply H1|apply H2]; set_solver.
    + rewrite Forall_forall in Hf |- *. intros y Hy.
      apply elem_of_insert_before in Hy as [->|Hy]; [apply H2; set_solver|by apply Hf].
Qed.

(** ** Sums over lists and finite maps *)

Definition sumZ {A} (f : A -> Z) (l : list A) : Z := foldr (fun x acc => f x + acc) 0 l.

Lemma sumZ_cons {A} (f : A -> Z) x l : sumZ f (x :: l) = f x + sumZ f l.
Proof. done. Qed.

Lemma sumZ_app {A} (f : A -> Z) l1 l2 : sumZ f (l1 ++ l2) = sumZ f l1 + sumZ f l2.
Proof. induction l1 as [|x l IH]; simpl; [lia|]. rewrite IH. lia. Qed.

Lemma sumZ_ext {A} (f g : A -> Z) l :
  (forall x, x ∈ l -> f x = g x) -> sumZ f l = sumZ g l.
Proof.
  induction l as [|x l IH]; simpl; intros H; [done|].
  rewrite H, IH; [done| |set_solver]. intros; apply H; set_solver.
Qed.

Lemma sumZ_nonneg {A} (f : A -> Z) l : (forall x, x ∈ l -> 0 <= f x) -> 0 <= sumZ f l.
Proof.
  induction l as [|x l IH]; simpl; intros H; [lia|].
  specialize (IH ltac:(intros; apply H; set_solver)).
  specialize (H x ltac:(set_solver)). lia.
Qed.

(** Disjoint intervals inside [s, e) are together no longer than it. *)
Lemma disjoint_intervals_sum {A} (lo hi : A -> Z) (l : list A) s e :
  s <= e -> NoDup l ->
  (forall x, x ∈ l -> s <= lo x /\ lo x < hi x /\ hi x <= e) ->
  (forall x y, x ∈ l -> y ∈ l -> x <> y -> hi x <= lo y \/ hi y <= lo x) ->
  sumZ (fun x => hi x - lo x) l <= e - s.
Proof.
  remember (length l) as n eqn:En. revert l s e En.
  induction n as [n IH] using lt_wf_ind. intros l s e En Hse Hnd Hin Hdis.
  destruct l as [|x l]; [simpl; lia|]. apply NoDup_cons in Hnd as [Hx Hnd].
  destruct (Hin x ltac:(set_solver)) as (H1 & H2 & H3).
  set (low := filter (fun y => hi y <= lo x) l). set (high := filter (fun y => ~ hi y <= lo x) l).
  assert (sumZ (fun y => hi y - lo y) l
    = sumZ (fun y => hi y - lo y) low + sumZ (fun y => hi y - lo y) high) as Esplit.
  { subst low high. clear. induction l as [|y l IHl]; [done|]. rewrite !filter_cons. simpl.
    destruct (decide (hi y <= lo x)), (decide (~ hi y <= lo x)); try lia; simpl; lia. }
  assert (length low <= length l /\ length high <= length l)%nat as [L1 L2]
    by (split; apply length_filter).
  simpl in En |- *. rewrite Esplit.
  assert (sumZ (fun y => hi y - lo y) low <= lo x - s).
  { apply (IH (length low)); [lia|done|lia|by apply NoDup_filter|..].
    - intros y [Hy1 Hy2]%list_elem_of_filter. destruct (Hin y); [set_solver|]. lia.
    - intros y z [_ Hy]%list_elem_of_filter [_ Hz]%list_elem_of_filter. apply Hdis; set_solver. }
  assert (sumZ (fun y => hi y - lo y) high <= e - hi x).
  { apply (IH (length high)); [lia|done|lia|by apply NoDup_filter|..].
    - intros y [Hy1 Hy2]%list_elem_of_filter. destruct (Hin y) as (? & ? & ?); [set_solver|].
      destruct (Hdis x y) as [?|?]; [set_solver|set_solver|by intros ->|lia|lia].
    - intros y z [_ Hy]%list_elem_of_filter [_ Hz]%list_elem_of_filter. apply Hdis; set_solver. }
  lia.
Qed.

Section MapSum.
Context {V : Type}.
Implicit Types (f g : positive -> V -> Z) (m : gmap positive V).

Definition msum f m : Z := map_fold (fun k v acc => f k v + acc) 0 m.

Lemma msum_empty f : msum f ∅ = 0.
Proof. apply map_fold_empty. Qed.

Lemma msum_insert f m k v : m !! k = None -> msum f (<[k:=v]> m) = f k v + msum f m.
Proof.
  intros H. unfold msum. rewrite map_fold_insert_L; [done| |done].
  intros. lia.
Qed.

Lemma msum_delete f m k v : m !! k = Some v -> msum f (delete k m) = msum f m - f k v.
Proof.
  intros H. rewrite <- (insert_delete_id m k v) at 2 by done.
  rewrite msum_insert by apply lookup_delete_eq. lia.
Qed.

Lemma msum_update f m k v v' :
  m !! k = Some v -> msum f (<[k:=v']> m) = msum f m - f k v + f k v'.
Proof.
  intros H. rewrite <- insert_delete_eq, msum_insert by apply lookup_delete_eq.
  rewrite (msum_delete f m k v) by done. lia.
Qed.

Lemma msum_ext f g m :
  (forall k v, m !! k = Some v -> f k v = g k v) -> msum f m = msum g m.
Proof.
  induction m as [|k v m Hk IH] using map_ind; intros H; [by rewrite !msum_empty|].
  rewrite !msum_insert by done. rewrite H by apply lookup_insert_eq.
  rewrite IH; [done|]. intros k' v' Hl. apply H.
  rewrite lookup_insert_ne; [done|]. intros ->. congruence.
Qed.

(** Two weights that differ at one key only. *)
Lemma msum_change f g m k v :
  m !! k = Some v ->
  (forall k' v', k' <> k -> m !! k' = Some v' -> f k' v' = g k' v') ->
  msum g m = msum f m - f k v + g k v.
Proof.
  intros Hk H. rewrite <- (insert_delete_id m k v) by done.
  rewrite !msum_insert by apply lookup_delete_eq.
  rewrite (msum_ext f g (delete k m)); [lia|].
  intros k' v' Hl. apply lookup_delete_Some in Hl as [? ?]. apply H; congruence.
Qed.

Lemma msum_nonneg f m : (forall k v, m !! k = Some v -> 0 <= f k v) -> 0 <= msum f m.
Proof.
  induction m as [|k v m Hk IH] using map_ind; intros H; [by rewrite msum_empty|].
  rewrite msum_insert by done.
  assert (0 <= f k v) by (apply (H k); apply lookup_insert_eq).
  assert (0 <= msum f m); [|lia]. apply IH. intros k' v' Hl.
  apply (H k'). rewrite lookup_insert_ne; [done|]. intros ->. congruence.
Qed.

Lemma msum_ge f m k v :
  (forall k v, m !! k = Some v -> 0 <= f k v) -> m !! k = Some v -> f k v <= msum f m.
Proof.
  intros H Hk. pose proof (msum_delete f m k v Hk).
  assert (0 <= msum f (delete k m)); [|lia]. apply msum_nonneg.
  intros k' v' Hl. apply lookup_delete_Some in Hl as [_ Hl]. eauto.
Qed.

Lemma msum_le f g m :
  (forall k v, m !! k = Some v -> f k v <= g k v) -> msum f m <= msum g m.
Proof.
  induction m as [|k v m Hk IH] using map_ind; intros H; [by rewrite !msum_empty|].
  rewrite !msum_insert by done.
  assert (f k v <= g k v) by (apply H; apply lookup_insert_eq).
  assert (msum f m <= msum g m); [|lia]. apply IH. intros k' v' Hl.
  apply H. rewrite lookup_insert_ne; [done|]. intros ->. congruence.
Qed.
End MapSum.

Lemma msum_omap {V W} (g : positive -> W -> Z) (h : V -> option W) (m : gmap positive V) :
  msum g (omap h m) = msum (fun k v => from_option (g k) 0 (h v)) m.
Proof.
  induction m as [|k v m Hk IH] using map_ind; [by rewrite omap_empty, !msum_empty|].
  rewrite msum_insert by done. rewrite omap_insert. destruct (h v) as [w|] eqn:E; simpl.
  - rewrite msum_insert by (rewrite lookup_omap, Hk; done). lia.
  - rewrite delete_id by (rewrite lookup_omap, Hk; done). lia.
Qed.

Lemma msum_add {V} (f g : positive -> V -> Z) (m : gmap positive V) :
  msum (fun k v => f k v + g k v) m = msum f m + msum g m.
Proof.
  induction m as [|k v m Hk IH] using map_ind; [by rewrite !msum_empty|].
  rewrite !msum_insert by done. lia.
Qed.
