(* ===== verification/Buddy.v ===== *)
(** * The DRM buddy allocator: data and operations

    A translation of src/src-tree/drm_buddy.c and of the inline functions of
    src/src-tree/include/drm/drm_buddy.h.

    Blocks live in a heap [gmap positive drm_buddy_block]: a C pointer to a
    block is its key, so that the tree's parent and child pointers alias the
    way they do in the code and a use of a freed block is visible (it crashes,
    see [stM] in Prelude). A block's [link] is membership in the list that
    holds it: [free_list[order]] or one of the lists of allocated blocks the
    operations take and return; the [tmp_link] list is the [dfs] argument of
    the two range walks. [slab_ok n] says whether the n-th allocation from the
    slab cache succeeds. *)

From S2P Require Import Prelude.
From stdpp Require Import gmap list sorting.
From Stdlib Require Import ZArith Lia.

Local Open Scope Z_scope.
Local Open Scope st_scope.

Abbreviation bid := positive.

(** ** Data *)

Definition DRM_BUDDY_RANGE_ALLOCATION : Z := 1.
Definition DRM_BUDDY_TOPDOWN_ALLOCATION : Z := 2.
Definition DRM_BUDDY_CONTIGUOUS_ALLOCATION : Z := 4.
Definition DRM_BUDDY_CLEAR_ALLOCATION : Z := 8.
Definition DRM_BUDDY_CLEARED : Z := 16.
Definition DRM_BUDDY_TRIM_DISABLE : Z := 32.

Definition DRM_BUDDY_HEADER_OFFSET : Z := Z.shiftl (Z.ones 52) 12.
Definition DRM_BUDDY_HEADER_STATE : Z := Z.shiftl (Z.ones 2) 10.
Definition DRM_BUDDY_ALLOCATED : Z := Z.shiftl 1 10.
Definition DRM_BUDDY_FREE : Z := Z.shiftl 2 10.
Definition DRM_BUDDY_SPLIT : Z := Z.shiftl 3 10.
Definition DRM_BUDDY_HEADER_CLEAR : Z := Z.shiftl 1 9.
Definition DRM_BUDDY_HEADER_UNUSED : Z := Z.shiftl (Z.ones 3) 6.
Definition DRM_BUDDY_HEADER_ORDER : Z := Z.ones 6.
Definition DRM_BUDDY_MAX_ORDER : Z := 63 - 12.
Definition SZ_4K : Z := 4096.

Definition has_flag (flags bit : Z) : bool := negb (Z.land flags bit =? 0).

(** struct drm_buddy_block *)
Record drm_buddy_block := mkBlock {
  header : Z;
  b_left : option bid;
  b_right : option bid;
  b_parent : option bid
}.

(** struct drm_buddy, with the slab cache the blocks come from *)
Record drm_buddy := mkBuddy {
  heap : gmap positive drm_buddy_block;
  next_block : bid;
  free_list : list (list bid);
  roots : list bid;
  n_roots : Z;
  max_order : Z;
  chunk_size : Z;
  mm_size : Z;
  avail : Z;
  clear_avail : Z
}.

Definition set_heap (h : gmap positive drm_buddy_block) (mm : drm_buddy) : drm_buddy :=
  mkBuddy h (next_block mm) (free_list mm) (roots mm) (n_roots mm) (max_order mm)
    (chunk_size mm) (mm_size mm) (avail mm) (clear_avail mm).
Definition set_next (n : bid) (mm : drm_buddy) : drm_buddy :=
  mkBuddy (heap mm) n (free_list mm) (roots mm) (n_roots mm) (max_order mm)
    (chunk_size mm) (mm_size mm) (avail mm) (clear_avail mm).
Definition set_free_list (fl : list (list bid)) (mm : drm_buddy) : drm_buddy :=
  mkBuddy (heap mm) (next_block mm) fl (roots mm) (n_roots mm) (max_order mm)
    (chunk_size mm) (mm_size mm) (avail mm) (clear_avail mm).
Definition set_roots (r : list bid) (mm : drm_buddy) : drm_buddy :=
  mkBuddy (heap mm) (next_block mm) (free_list mm) r (n_roots mm) (max_order mm)
    (chunk_size mm) (mm_size mm) (avail mm) (clear_avail mm).
Definition set_avail (a : Z) (mm : drm_buddy) : drm_buddy :=
  mkBuddy (heap mm) (next_block mm) (free_list mm) (roots mm) (n_roots mm) (max_order mm)
    (chunk_size mm) (mm_size mm) a (clear_avail mm).
Definition set_clear_avail (a : Z) (mm : drm_buddy) : drm_buddy :=
  mkBuddy (heap mm) (next_block mm) (free_list mm) (roots mm) (n_roots mm) (max_order mm)
    (chunk_size mm) (mm_size mm) (avail mm) a.

Definition set_header (h : Z) (b : drm_buddy_block) : drm_buddy_block :=
  mkBlock h (b_left b) (b_right b) (b_parent b).
Definition set_left (l : option bid) (b : drm_buddy_block) : drm_buddy_block :=
  mkBlock (header b) l (b_right b) (b_parent b).
Definition set_right (r : option bid) (b : drm_buddy_block) : drm_buddy_block :=
  mkBlock (header b) (b_left b) r (b_parent b).
Definition set_parent (p : option bid) (b : drm_buddy_block) : drm_buddy_block :=
  mkBlock (header b) (b_left b) (b_right b) p.

(** ** drm_buddy.h: accessors *)

Definition drm_buddy_block_offset (b : drm_buddy_block) : Z :=
  Z.land (header b) DRM_BUDDY_HEADER_OFFSET.
Definition drm_buddy_block_order (b : drm_buddy_block) : Z :=
  Z.land (header b) DRM_BUDDY_HEADER_ORDER.
Definition drm_buddy_block_state (b : drm_buddy_block) : Z :=
  Z.land (header b) DRM_BUDDY_HEADER_STATE.
Definition drm_buddy_block_is_allocated (b : drm_buddy_block) : bool :=
  drm_buddy_block_state b =? DRM_BUDDY_ALLOCATED.
Definition drm_buddy_block_is_clear (b : drm_buddy_block) : bool :=
  negb (Z.land (header b) DRM_BUDDY_HEADER_CLEAR =? 0).
Definition drm_buddy_block_is_free (b : drm_buddy_block) : bool :=
  drm_buddy_block_state b =? DRM_BUDDY_FREE.
Definition drm_buddy_block_is_split (b : drm_buddy_block) : bool :=
  drm_buddy_block_state b =? DRM_BUDDY_SPLIT.
Definition drm_buddy_block_size (mm : drm_buddy) (b : drm_buddy_block) : Z :=
  u64 (Z.shiftl (chunk_size mm) (drm_buddy_block_order b)).

(** [range_overflows(start, size, max)] *)
Definition range_overflows (start size max : Z) : bool :=
  (max <=? start) || (u64 (max - start) <? size).

(** ** drm_buddy.c *)

Abbreviation BM := (stM drm_buddy).

(** Dereference of a block pointer, and of a possibly NULL one. *)
Definition get_block (b : bid) : BM drm_buddy_block :=
  fun mm => match heap mm !! b with Some B => Some (B, mm) | None => None end.
Definition deref (p : option bid) : BM bid := st_of_option p.
Definition put_block (b : bid) (B : drm_buddy_block) : BM unit :=
  fun mm => match heap mm !! b with
            | Some _ => Some (tt, set_heap (<[b := B]> (heap mm)) mm)
            | None => None
            end.
Definition block_size (b : bid) : BM Z :=
  fun mm => match heap mm !! b with
            | Some B => Some (drm_buddy_block_size mm B, mm)
            | None => None
            end.

(** [mm->avail] and [mm->clear_avail] are u64 counters. *)
Definition avail_add (d : Z) : BM unit := st_mod (fun mm => set_avail (u64 (avail mm + d)) mm).
Definition clear_avail_add (d : Z) : BM unit :=
  st_mod (fun mm => set_clear_avail (u64 (clear_avail mm + d)) mm).

Section Buddy.
Variable slab_ok : positive -> bool.

Definition drm_block_alloc (parent : option bid) (order offset : Z) : BM (option bid) :=
  BUG_ON (DRM_BUDDY_MAX_ORDER <? order) ;;
  mm <- st_get ;;
  let block := next_block mm in
  st_mod (set_next (Pos.succ block)) ;;
  if slab_ok block then
    let hdr := Z.lor offset order in
    st_mod (fun mm => set_heap (<[block := mkBlock hdr None None parent]> (heap mm)) mm) ;;
    BUG_ON (negb (Z.land hdr DRM_BUDDY_HEADER_UNUSED =? 0)) ;;
    st_ret (Some block)
  else st_ret None.

Definition drm_block_free (block : bid) : BM unit :=
  get_block block ;;
  st_mod (fun mm => set_heap (delete block (heap mm)) mm).

(** [&mm->free_list[order]]: reading or writing past the array crashes. *)
Definition get_free_list (order : Z) : BM (list bid) :=
  fun mm => match free_list mm !! Z.to_nat order with
            | Some l => Some (l, mm)
            | None => None
            end.
Definition put_free_list (order : Z) (l : list bid) : BM unit :=
  st_mod (fun mm => set_free_list (<[Z.to_nat order := l]> (free_list mm)) mm).

(** The offset of a list node, for the walks that compare offsets. *)
Definition offset_of (mm : drm_buddy) (b : bid) : Z :=
  match heap mm !! b with Some B => drm_buddy_block_offset B | None => 0 end.

Definition list_insert_sorted (block : bid) : BM unit :=
  B <- get_block block ;;
  head <- get_free_list (drm_buddy_block_order B) ;;
  BUG_ON (bool_decide (block ∈ head)) ;;
  mm <- st_get ;;
  put_free_list (drm_buddy_block_order B)
    (insert_before (fun node => drm_buddy_block_offset B <? offset_of mm node) block head).

(** [list_del(&block->link)] of a block on its free list. *)
Definition list_del_free (block : bid) : BM unit :=
  B <- get_block block ;;
  head <- get_free_list (drm_buddy_block_order B) ;;
  head' <- st_of_option (list_del block head) ;;
  put_free_list (drm_buddy_block_order B) head'.

Definition with_state (st : Z) (B : drm_buddy_block) : drm_buddy_block :=
  set_header (Z.lor (Z.land (header B) (lnot64 DRM_BUDDY_HEADER_STATE)) st) B.

Definition clear_reset (block : bid) : BM unit :=
  B <- get_block block ;;
  put_block block (set_header (Z.land (header B) (lnot64 DRM_BUDDY_HEADER_CLEAR)) B).

Definition mark_cleared (block : bid) : BM unit :=
  B <- get_block block ;;
  put_block block (set_header (Z.lor (header B) DRM_BUDDY_HEADER_CLEAR) B).

Definition mark_allocated (block : bid) : BM unit :=
  B <- get_block block ;;
  put_block block (with_state DRM_BUDDY_ALLOCATED B) ;;
  list_del_free block.

Definition mark_free (block : bid) : BM unit :=
  B <- get_block block ;;
  put_block block (with_state DRM_BUDDY_FREE B) ;;
  list_insert_sorted block.

Definition mark_split (block : bid) : BM unit :=
  B <- get_block block ;;
  put_block block (with_state DRM_BUDDY_SPLIT B) ;;
  list_del_free block.

Definition overlaps (s1 e1 s2 e2 : Z) : bool := (s1 <=? e2) && (s2 <=? e1).
Definition contains (s1 e1 s2 e2 : Z) : bool := (s1 <=? s2) && (e2 <=? e1).

Definition __get_buddy (block : bid) : BM (option bid) :=
  B <- get_block block ;;
  match b_parent B with
  | None => st_ret None
  | Some parent =>
      P <- get_block parent ;;
      if bool_decide (b_left P = Some block) then st_ret (b_right P)
      else st_ret (b_left P)
  end.

(** The merge loop of [__drm_buddy_free]: returns the block it stops at. *)
Fixpoint __drm_buddy_free_loop (fuel : nat) (block : bid) (force_merge : bool) : BM bid :=
  match fuel with
  | O => st_bug
  | S fuel =>
      B <- get_block block ;;
      match b_parent B with
      | None => st_ret block
      | Some parent =>
          buddy <- __get_buddy block ;;
          buddy <- deref buddy ;;
          BB <- get_block buddy ;;
          if negb (drm_buddy_block_is_free BB) then st_ret block
          else if negb force_merge
                  && negb (eqb (drm_buddy_block_is_clear B) (drm_buddy_block_is_clear BB))
          then st_ret block
          else
            st_when (negb force_merge && drm_buddy_block_is_clear B) (mark_cleared parent) ;;
            list_del_free buddy ;;
            sz <- block_size buddy ;;
            st_when (force_merge && drm_buddy_block_is_clear BB) (clear_avail_add (- sz)) ;;
            drm_block_free block ;;
            drm_block_free buddy ;;
            __drm_buddy_free_loop fuel parent force_merge
      end
  end.

(** A block's order is at most [DRM_BUDDY_MAX_ORDER] and each merge raises it
    by one: the loop body runs at most this often. *)
Definition merge_fuel : nat := Z.to_nat DRM_BUDDY_MAX_ORDER + 2.

Definition __drm_buddy_free (block : bid) (force_merge : bool) : BM Z :=
  block <- __drm_buddy_free_loop merge_fuel block force_merge ;;
  B <- get_block block ;;
  mark_free block ;;
  st_ret (drm_buddy_block_order B).

(** One order of [__force_merge]: the walk of [free_list[i]] from its tail,
    [todo] being the nodes from the cursor backwards. [Some tt] is the early
    [return 0]. *)
Fixpoint __force_merge_list (start end_ min_order : Z) (todo : list bid) : BM (option unit) :=
  match todo with
  | [] => st_ret None
  | block :: prev =>
      B <- get_block block ;;
      match b_parent B with
      | None => __force_merge_list start end_ min_order prev
      | Some _ =>
          sz <- block_size block ;;
          let block_start := drm_buddy_block_offset B in
          let block_end := u64 (block_start + sz - 1) in
          if negb (contains start end_ block_start block_end)
          then __force_merge_list start end_ min_order prev
          else
            buddy <- __get_buddy block ;;
            buddy <- deref buddy ;;
            BB <- get_block buddy ;;
            if negb (drm_buddy_block_is_free BB)
            then __force_merge_list start end_ min_order prev
            else
              list_del_free block ;;
              st_when (drm_buddy_block_is_clear B) (clear_avail_add (- sz)) ;;
              order <- __drm_buddy_free block true ;;
              if min_order <=? order then st_ret (Some tt)
              else match prev with
                   | p :: prev' =>
                       if bool_decide (p = buddy)
                       then __force_merge_list start end_ min_order prev'
                       else __force_merge_list start end_ min_order prev
                   | [] => st_ret None
                   end
      end
  end.

(** The loop [for (i = min_order - 1; i >= 0; i--)], [n] being [i + 1]. *)
Fixpoint __force_merge_orders (start end_ min_order : Z) (n : nat) : BM Z :=
  match n with
  | O => st_ret (- ENOMEM)
  | S i =>
      l <- get_free_list (Z.of_nat i) ;;
      r <- __force_merge_list start end_ min_order (rev l) ;;
      match r with
      | Some _ => st_ret 0
      | None => __force_merge_orders start end_ min_order i
      end
  end.

Definition __force_merge (start end_ min_order : Z) : BM Z :=
  if min_order =? 0 then st_ret (- ENOMEM)
  else
    mo <- st_gets max_order ;;
    if mo <? min_order then st_ret (- EINVAL)
    else __force_merge_orders start end_ min_order (Z.to_nat min_order).

(** The do-while of [drm_buddy_init] that cuts [size] into power-of-two roots. *)
Fixpoint drm_buddy_init_roots (fuel : nat) (size offset i : Z) : BM Z :=
  match fuel with
  | O => st_bug
  | S fuel =>
      cs <- st_gets chunk_size ;;
      let order := ilog2 size - ilog2 cs in
      let root_size := u64 (Z.shiftl cs order) in
      root <- drm_block_alloc None order offset ;;
      match root with
      | None =>
          (* out_free_roots *)
          rs <- st_gets roots ;;
          foldr (fun r k => drm_block_free r ;; k) (st_ret (- ENOMEM)) (rev rs)
      | Some root =>
          mark_free root ;;
          mo <- st_gets max_order ;;
          BUG_ON (mo <? i) ;;
          sz <- block_size root ;;
          BUG_ON (sz <? cs) ;;
          rs <- st_gets roots ;;
          st_mod (set_roots (rs ++ [root])) ;;
          let size := u64 (size - root_size) in
          if size =? 0 then st_ret 0
          else drm_buddy_init_roots fuel size (u64 (offset + root_size)) (i + 1)
      end
  end.

(** [kmalloc_ok] is the outcome of the two array allocations. A u64 has at most
    64 bits, so at most 64 roots are cut. *)
Definition drm_buddy_init (kmalloc_ok : bool * bool) (size chunk : Z) : BM Z :=
  if size <? chunk then st_ret (- EINVAL)
  else if chunk <? SZ_4K then st_ret (- EINVAL)
  else if negb (is_power_of_2 chunk) then st_ret (- EINVAL)
  else
    let size := round_down size chunk in
    let mo := ilog2 size - ilog2 chunk in
    BUG_ON (DRM_BUDDY_MAX_ORDER <? mo) ;;
    st_mod (fun mm => mkBuddy (heap mm) (next_block mm) [] [] 0 mo chunk size size 0) ;;
    if negb (fst kmalloc_ok) then st_ret (- ENOMEM)
    else
      st_mod (set_free_list (replicate (Z.to_nat (mo + 1)) [])) ;;
      st_mod (fun mm => mkBuddy (heap mm) (next_block mm) (free_list mm) [] (hweight64 size)
                          mo chunk size size 0) ;;
      if negb (snd kmalloc_ok) then st_ret (- ENOMEM)
      else drm_buddy_init_roots 64 size 0 0.

(** [drm_buddy_fini]: the loop over the roots. *)
Fixpoint drm_buddy_fini_roots (size : Z) (rs : list bid) : BM unit :=
  match rs with
  | [] => st_ret tt
  | root :: rs =>
      cs <- st_gets chunk_size ;;
      let order := ilog2 size - ilog2 cs in
      B <- get_block root ;;
      let start := drm_buddy_block_offset B in
      __force_merge start (u64 (start + size)) order ;;
      drm_block_free root ;;
      drm_buddy_fini_roots (u64 (size - u64 (Z.shiftl cs order))) rs
  end.

Definition drm_buddy_fini : BM unit :=
  size <- st_gets mm_size ;;
  rs <- st_gets roots ;;
  drm_buddy_fini_roots size rs.

Definition split_block (block : bid) : BM Z :=
  B <- get_block block ;;
  cs <- st_gets chunk_size ;;
  let block_order := u32 (drm_buddy_block_order B - 1) in
  let offset := drm_buddy_block_offset B in
  BUG_ON (negb (drm_buddy_block_is_free B)) ;;
  BUG_ON (drm_buddy_block_order B =? 0) ;;
  l <- drm_block_alloc (Some block) block_order offset ;;
  B <- get_block block ;;
  put_block block (set_left l B) ;;
  match l with
  | None => st_ret (- ENOMEM)
  | Some l =>
      r <- drm_block_alloc (Some block) block_order
             (u64 (offset + u64 (Z.shiftl cs block_order))) ;;
      B <- get_block block ;;
      put_block block (set_right r B) ;;
      match r with
      | None => drm_block_free l ;; st_ret (- ENOMEM)
      | Some r =>
          mark_free l ;;
          mark_free r ;;
          B <- get_block block ;;
          st_when (drm_buddy_block_is_clear B)
            (mark_cleared l ;; mark_cleared r ;; clear_reset block) ;;
          mark_split block ;;
          st_ret 0
      end
  end.

Definition drm_get_buddy (block : bid) : BM (option bid) := __get_buddy block.

Definition drm_buddy_free_block (block : bid) : BM unit :=
  B <- get_block block ;;
  BUG_ON (negb (drm_buddy_block_is_allocated B)) ;;
  sz <- block_size block ;;
  avail_add sz ;;
  st_when (drm_buddy_block_is_clear B) (clear_avail_add sz) ;;
  __drm_buddy_free block false ;;
  st_ret tt.

(** [__drm_buddy_free_list]; the caller's list is empty afterwards. *)
Fixpoint __drm_buddy_free_list (objects : list bid) (mark_clear mark_dirty : bool) : BM unit :=
  match objects with
  | [] => st_ret tt
  | block :: objects =>
      (if mark_clear then mark_cleared block
       else if mark_dirty then clear_reset block
       else st_ret tt) ;;
      drm_buddy_free_block block ;;
      __drm_buddy_free_list objects mark_clear mark_dirty
  end.

Definition drm_buddy_free_list_internal (objects : list bid) : BM unit :=
  __drm_buddy_free_list objects false false.

Definition drm_buddy_free_list (objects : list bid) (flags : Z) : BM unit :=
  let mark_clear := has_flag flags DRM_BUDDY_CLEARED in
  __drm_buddy_free_list objects mark_clear (negb mark_clear).

Definition block_incompatible (B : drm_buddy_block) (flags : Z) : bool :=
  negb (eqb (has_flag flags DRM_BUDDY_CLEAR_ALLOCATION) (drm_buddy_block_is_clear B)).

(** The [err_undo] label of the two range walks. *)
Definition range_err_undo (block : bid) : BM unit :=
  buddy <- __get_buddy block ;;
  match buddy with
  | None => st_ret tt
  | Some buddy =>
      B <- get_block block ;;
      BB <- get_block buddy ;;
      st_when (drm_buddy_block_is_free B && drm_buddy_block_is_free BB)
        (__drm_buddy_free block false ;; st_ret tt)
  end.

(** The loop of [__alloc_range_bias]; [end_] is already decremented. *)
Fixpoint __alloc_range_bias_loop (fuel : nat) (start end_ order flags : Z) (fallback : bool)
    (dfs : list bid) : BM (errptr bid) :=
  match fuel with
  | O => st_bug
  | S fuel =>
      match dfs with
      | [] => st_ret (ERR_PTR (- ENOSPC))
      | block :: dfs =>
          let continue := __alloc_range_bias_loop fuel start end_ order flags fallback dfs in
          B <- get_block block ;;
          cs <- st_gets chunk_size ;;
          let req_size := u64 (Z.shiftl cs order) in
          if drm_buddy_block_order B <? order then continue else
          sz <- block_size block ;;
          let block_start := drm_buddy_block_offset B in
          let block_end := u64 (block_start + sz - 1) in
          if negb (overlaps start end_ block_start block_end) then continue else
          if drm_buddy_block_is_allocated B then continue else
          let adjusted_start := Z.max block_start start in
          let adjusted_end := Z.min block_end end_ in
          if ((block_start <? start) || (end_ <? block_end))
             && (round_down (u64 (adjusted_end + 1)) req_size
                 <=? round_up adjusted_start req_size)
          then continue else
          if negb fallback && block_incompatible B flags then continue else
          if contains start end_ block_start block_end && (order =? drm_buddy_block_order B)
          then (if drm_buddy_block_is_free B then st_ret (PTR block) else continue)
          else
            err <- (if negb (drm_buddy_block_is_split B) then split_block block
                    else st_ret 0) ;;
            if negb (err =? 0) then range_err_undo block ;; st_ret (ERR_PTR err)
            else
              B <- get_block block ;;
              l <- deref (b_left B) ;;
              r <- deref (b_right B) ;;
              __alloc_range_bias_loop fuel start end_ order flags fallback (l :: r :: dfs)
      end
  end.

Definition __alloc_range_bias (fuel : nat) (start end_ order flags : Z) (fallback : bool)
    : BM (errptr bid) :=
  dfs <- st_gets roots ;;
  __alloc_range_bias_loop fuel start (u64 (end_ - 1)) order flags fallback dfs.

Definition __drm_buddy_alloc_range_bias (fuel : nat) (start end_ order flags : Z)
    : BM (errptr bid) :=
  block <- __alloc_range_bias fuel start end_ order flags false ;;
  match block with
  | ERR_PTR _ => __alloc_range_bias fuel start end_ order flags true
  | PTR block => st_ret (PTR block)
  end.

(** [list_for_each_entry_reverse] with the compatibility filter: the last
    compatible block of a free list. *)
Fixpoint last_compatible (l : list bid) (flags : Z) : BM (option bid) :=
  match l with
  | [] => st_ret None
  | b :: l =>
      r <- last_compatible l flags ;;
      match r with
      | Some b' => st_ret (Some b')
      | None =>
          B <- get_block b ;;
          if block_incompatible B flags then st_ret None else st_ret (Some b)
      end
  end.

(** [get_maxblock]: [n] orders remain, from [i] on; [block] keeps its value
    from one order to the next, as in the code. *)
Fixpoint get_maxblock_loop (n : nat) (i flags : Z) (block max_block : option bid)
    : BM (option bid) :=
  match n with
  | O => st_ret max_block
  | S n =>
      l <- get_free_list i ;;
      found <- last_compatible l flags ;;
      let block := match found with Some b => Some b | None => block end in
      match block with
      | None => get_maxblock_loop n (i + 1) flags None max_block
      | Some b =>
          match max_block with
          | None => get_maxblock_loop n (i + 1) flags block block
          | Some m =>
              B <- get_block b ;;
              MB <- get_block m ;;
              get_maxblock_loop n (i + 1) flags block
                (if drm_buddy_block_offset MB <? drm_buddy_block_offset B
                 then block else max_block)
          end
      end
  end.

Definition get_maxblock (order flags : Z) : BM (option bid) :=
  mo <- st_gets max_order ;;
  get_maxblock_loop (Z.to_nat (mo - order + 1)) order flags None None.

(** The bottom-up scan [for (tmp = order; tmp <= max_order; ++tmp)]: the block
    found and the order of its list. *)
Fixpoint find_compatible (n : nat) (tmp flags : Z) : BM (option (bid * Z)) :=
  match n with
  | O => st_ret None
  | S n =>
      l <- get_free_list tmp ;;
      found <- last_compatible l flags ;;
      match found with
      | Some b => st_ret (Some (b, tmp))
      | None => find_compatible n (tmp + 1) flags
      end
  end.

(** The fallback scan: the last block of the first non-empty list. *)
Fixpoint find_any (n : nat) (tmp : Z) : BM (option (bid * Z)) :=
  match n with
  | O => st_ret None
  | S n =>
      l <- get_free_list tmp ;;
      match last l with
      | Some b => st_ret (Some (b, tmp))
      | None => find_any n (tmp + 1)
      end
  end.

(** The loop [while (tmp != order)] that splits down, [n] being [tmp - order]. *)
Fixpoint split_down (n : nat) (block : bid) : BM (errptr bid) :=
  match n with
  | O => st_ret (PTR block)
  | S n =>
      err <- split_block block ;;
      if negb (err =? 0) then
        (* err_undo, with tmp != order *)
        __drm_buddy_free block false ;;
        st_ret (ERR_PTR err)
      else
        B <- get_block block ;;
        r <- deref (b_right B) ;;
        split_down n r
  end.

Definition alloc_from_freelist (order flags : Z) : BM (errptr bid) :=
  mo <- st_gets max_order ;;
  let n := Z.to_nat (mo - order + 1) in
  found <- (if has_flag flags DRM_BUDDY_TOPDOWN_ALLOCATION then
              block <- get_maxblock order flags ;;
              match block with
              | None => st_ret None
              | Some b => B <- get_block b ;; st_ret (Some (b, drm_buddy_block_order B))
              end
            else find_compatible n order flags) ;;
  found <- (match found with
            | Some bt => st_ret (Some bt)
            | None => find_any n order
            end) ;;
  match found with
  | None => st_ret (ERR_PTR (- ENOSPC))
  | Some (block, tmp) =>
      B <- get_block block ;;
      BUG_ON (negb (drm_buddy_block_is_free B)) ;;
      split_down (Z.to_nat (tmp - order)) block
  end.

(** The accounting of a block that leaves the free lists. *)
Definition take_block (block : bid) : BM Z :=
  mark_allocated block ;;
  sz <- block_size block ;;
  avail_add (- sz) ;;
  B <- get_block block ;;
  st_when (drm_buddy_block_is_clear B) (clear_avail_add (- sz)) ;;
  st_ret sz.

(** The result of [__alloc_range]: the error, the blocks it adds to the
    caller's list and the value of [*total_allocated_on_err] when written. *)
Record range_result := mkRange { rr_err : Z; rr_blocks : list bid; rr_filled : option Z }.

(** The labels [err_free] (and what precedes the return) of [__alloc_range]. *)
Definition alloc_range_err (err total : Z) (allocated : list bid) (want_total : bool)
    : BM range_result :=
  if (err =? - ENOSPC) && want_total
  then st_ret (mkRange err allocated (Some total))
  else drm_buddy_free_list_internal allocated ;; st_ret (mkRange err [] None).

Fixpoint __alloc_range_loop (fuel : nat) (start size end_ : Z) (want_total : bool)
    (dfs : list bid) (total : Z) (allocated : list bid) : BM range_result :=
  match fuel with
  | O => st_bug
  | S fuel =>
      match dfs with
      | [] =>
          if total <? size then alloc_range_err (- ENOSPC) total allocated want_total
          else st_ret (mkRange 0 allocated None)
      | block :: dfs =>
          B <- get_block block ;;
          sz <- block_size block ;;
          let block_start := drm_buddy_block_offset B in
          let block_end := u64 (block_start + sz - 1) in
          if negb (overlaps start end_ block_start block_end)
          then __alloc_range_loop fuel start size end_ want_total dfs total allocated
          else if drm_buddy_block_is_allocated B
          then alloc_range_err (- ENOSPC) total allocated want_total
          else if contains start end_ block_start block_end && drm_buddy_block_is_free B
          then
            sz <- take_block block ;;
            __alloc_range_loop fuel start size end_ want_total dfs (u64 (total + sz))
              (allocated ++ [block])
          else
            ca <- st_gets clear_avail ;;
            if contains start end_ block_start block_end && (ca =? 0)
            then alloc_range_err (- ENOSPC) total allocated want_total
            else
              err <- (if negb (drm_buddy_block_is_split B) then split_block block
                      else st_ret 0) ;;
              if negb (err =? 0) then
                range_err_undo block ;; alloc_range_err err total allocated want_total
              else
                B <- get_block block ;;
                l <- deref (b_left B) ;;
                r <- deref (b_right B) ;;
                __alloc_range_loop fuel start size end_ want_total (l :: r :: dfs)
                  total allocated
      end
  end.

Definition __alloc_range (fuel : nat) (dfs : list bid) (start size : Z) (want_total : bool)
    : BM range_result :=
  __alloc_range_loop fuel start size (u64 (start + size - 1)) want_total dfs 0 [].

Definition __drm_buddy_alloc_range (fuel : nat) (start size : Z) (want_total : bool)
    : BM range_result :=
  dfs <- st_gets roots ;;
  __alloc_range fuel dfs start size want_total.

(** The node before [b] on a list ([b->link.prev]), [None] for the head. *)
Fixpoint list_prev (b : bid) (l : list bid) : option bid :=
  match l with
  | [] => None
  | x :: l' =>
      match l' with
      | [] => None
      | y :: _ => if decide (y = b) then Some x else list_prev b l'
      end
  end.

(** The reverse walk of [__alloc_contig_try_harder] over [free_list[order]]:
    the error and the caller's list afterwards. The two error exits free the
    whole caller's list. *)
Fixpoint try_harder_loop (lfuel fuel : nat) (size min_block_size order : Z)
    (cursor : option bid) (blocks : list bid) : BM (Z * list bid) :=
  match lfuel with
  | O => st_bug
  | S lfuel =>
      match cursor with
      | None => st_ret (- ENOSPC, blocks)
      | Some block =>
          B <- get_block block ;;
          rhs <- __drm_buddy_alloc_range fuel (drm_buddy_block_offset B) size true ;;
          let blocks := blocks ++ rr_blocks rhs in
          if negb (rr_err rhs =? - ENOSPC) then st_ret (rr_err rhs, blocks)
          else
            filled <- st_of_option (rr_filled rhs) ;;
            let lhs_size := Z.max (u64 (size - filled)) min_block_size in
            let lhs_size := if IS_ALIGNED lhs_size min_block_size then lhs_size
                            else round_up lhs_size min_block_size in
            B <- get_block block ;;
            let lhs_offset := u64 (drm_buddy_block_offset B - lhs_size) in
            lhs <- __drm_buddy_alloc_range fuel lhs_offset lhs_size false ;;
            if rr_err lhs =? 0 then st_ret (0, rr_blocks lhs ++ blocks)
            else
              drm_buddy_free_list_internal blocks ;;
              if negb (rr_err lhs =? - ENOSPC) then st_ret (rr_err lhs, [])
              else
                l <- get_free_list order ;;
                BUG_ON (negb (bool_decide (block ∈ l))) ;;
                try_harder_loop lfuel fuel size min_block_size order (list_prev block l) []
      end
  end.

(** [lfuel] bounds the nodes of the walked list, [fuel] each range walk. *)
Definition __alloc_contig_try_harder (lfuel fuel : nat) (size min_block_size : Z)
    (blocks : list bid) : BM (Z * list bid) :=
  cs <- st_gets chunk_size ;;
  let modify_size := rounddown_pow_of_two size in
  let pages := Z.shiftr modify_size (ilog2 cs) in
  let order := fls pages - 1 in
  if order =? 0 then st_ret (- ENOSPC, blocks)
  else
    l <- get_free_list order ;;
    try_harder_loop lfuel fuel size min_block_size order (last l) blocks.

(** [drm_buddy_block_trim]: the error and the caller's list afterwards. *)
Definition drm_buddy_block_trim (fuel : nat) (start : option Z) (new_size : Z)
    (blocks : list bid) : BM (Z * list bid) :=
  match blocks with
  | [block] =>
      B <- get_block block ;;
      sz <- block_size block ;;
      cs <- st_gets chunk_size ;;
      let block_start := drm_buddy_block_offset B in
      let block_end := u64 (block_start + sz) in
      if negb (drm_buddy_block_is_allocated B) then st_ret (- EINVAL, blocks)
      else if sz <? new_size then st_ret (- EINVAL, blocks)
      else if (new_size =? 0) || negb (IS_ALIGNED new_size cs) then st_ret (- EINVAL, blocks)
      else if new_size =? sz then st_ret (0, blocks)
      else if match start with
              | Some new_start => (new_start <? block_start)
                                  || negb (IS_ALIGNED new_start cs)
                                  || range_overflows new_start new_size block_end
              | None => false
              end
      then st_ret (- EINVAL, blocks)
      else
        let new_start := match start with Some s => s | None => block_start end in
        mark_free block ;;
        avail_add sz ;;
        st_when (drm_buddy_block_is_clear B) (clear_avail_add sz) ;;
        B <- get_block block ;;
        let parent := b_parent B in
        put_block block (set_parent None B) ;;
        rr <- __alloc_range fuel [block] new_start new_size false ;;
        res <- (if negb (rr_err rr =? 0) then
                  take_block block ;; st_ret (rr_err rr, [block])
                else st_ret (0, rr_blocks rr)) ;;
        B <- get_block block ;;
        put_block block (set_parent parent B) ;;
        st_ret res
  | _ => st_ret (- EINVAL, blocks)
  end.

Definition __drm_buddy_alloc_blocks (fuel : nat) (start end_ order flags : Z)
    : BM (errptr bid) :=
  if has_flag flags DRM_BUDDY_RANGE_ALLOCATION
  then __drm_buddy_alloc_range_bias fuel start end_ order flags
  else alloc_from_freelist order flags.

(** What the inner do-while of [drm_buddy_alloc_blocks] ends with. *)
Inductive pick_result :=
| Picked (block : bid) (order : Z)
| TryHarder
| NoSpace.

(** The inner do-while, [n] being [order - min_order]. *)
Fixpoint pick_block (n : nat) (fuel : nat) (start end_ min_order flags : Z) : BM pick_result :=
  let order := min_order + Z.of_nat n in
  block <- __drm_buddy_alloc_blocks fuel start end_ order flags ;;
  match block with
  | PTR b => st_ret (Picked b order)
  | ERR_PTR _ =>
      match n with
      | S n => pick_block n fuel start end_ min_order flags
      | O =>
          ca <- st_gets clear_avail ;;
          merged <- (if negb (ca =? 0) then
                       r <- __force_merge start end_ min_order ;; st_ret (r =? 0)
                     else st_ret false) ;;
          block <- (if (merged : bool) then
                      __drm_buddy_alloc_blocks fuel start end_ min_order flags
                    else st_ret (ERR_PTR (- ENOSPC))) ;;
          match block with
          | PTR b => st_ret (Picked b min_order)
          | ERR_PTR _ =>
              if has_flag flags DRM_BUDDY_CONTIGUOUS_ALLOCATION
                 && negb (has_flag flags DRM_BUDDY_RANGE_ALLOCATION)
              then st_ret TryHarder
              else st_ret NoSpace
          end
      end
  end.

(** How the outer do-while ends: with the allocated blocks, through the
    try-harder return, or at [err_free]. *)
Inductive pages_result :=
| PagesDone (allocated : list bid)
| PagesReturn (ret : Z * list bid)
| PagesFail (allocated : list bid).

(** The outer do-while: at least one page is taken by each round, so that
    [pfuel = pages] rounds are enough. *)
Fixpoint alloc_pages (pfuel fuel : nat) (start end_ order min_order pages flags : Z)
    (original_size original_min_size : Z) (blocks allocated : list bid) : BM pages_result :=
  match pfuel with
  | O => st_bug
  | S pfuel =>
      mo <- st_gets max_order ;;
      let order := Z.min order (fls pages - 1) in
      BUG_ON (mo <? order) ;;
      BUG_ON (order <? min_order) ;;
      r <- pick_block (Z.to_nat (order - min_order)) fuel start end_ min_order flags ;;
      match r with
      | Picked block order =>
          take_block block ;;
          let allocated := allocated ++ [block] in
          let pages := u64 (pages - 2 ^ order) in
          if pages =? 0 then st_ret (PagesDone allocated)
          else alloc_pages pfuel fuel start end_ order min_order pages flags
                 original_size original_min_size blocks allocated
      | TryHarder =>
          ret <- __alloc_contig_try_harder fuel fuel original_size original_min_size blocks ;;
          st_ret (PagesReturn ret)
      | NoSpace => st_ret (PagesFail allocated)
      end
  end.

(** The trimming step: the list of allocated blocks afterwards. *)
Definition trim_allocated (fuel : nat) (original_size size : Z) (allocated : list bid)
    : BM (list bid) :=
  match allocated with
  | [block] =>
      r <- drm_buddy_block_trim fuel None original_size [block] ;;
      st_ret (snd r)
  | _ =>
      block <- st_of_option (last allocated) ;;
      sz <- block_size block ;;
      r <- drm_buddy_block_trim fuel None (u64 (sz - u64 (size - original_size))) [block] ;;
      st_ret (removelast allocated ++ snd r)
  end.

(** [drm_buddy_alloc_blocks]: the error and the caller's list afterwards. *)
Definition drm_buddy_alloc_blocks (fuel : nat) (start end_ size min_block_size : Z)
    (blocks : list bid) (flags : Z) : BM (Z * list bid) :=
  cs <- st_gets chunk_size ;;
  msz <- st_gets mm_size ;;
  if size <? cs then st_ret (- EINVAL, blocks)
  else if min_block_size <? cs then st_ret (- EINVAL, blocks)
  else if negb (is_power_of_2 min_block_size) then st_ret (- EINVAL, blocks)
  else if negb (IS_ALIGNED (Z.lor (Z.lor start end_) size) cs) then st_ret (- EINVAL, blocks)
  else if msz <? end_ then st_ret (- EINVAL, blocks)
  else if range_overflows start size msz then st_ret (- EINVAL, blocks)
  else if u64 (start + size) =? end_ then
    if negb (IS_ALIGNED (Z.lor start end_) min_block_size) then st_ret (- EINVAL, blocks)
    else
      rr <- __drm_buddy_alloc_range fuel start size false ;;
      st_ret (rr_err rr, blocks ++ rr_blocks rr)
  else
    let original_size := size in
    let original_min_size := min_block_size in
    let contiguous := has_flag flags DRM_BUDDY_CONTIGUOUS_ALLOCATION in
    let size := if contiguous then roundup_pow_of_two size
                else if negb (IS_ALIGNED size min_block_size) then round_up size min_block_size
                else size in
    let min_block_size := if contiguous then size else min_block_size in
    let pages := Z.shiftr size (ilog2 cs) in
    let order := fls pages - 1 in
    let min_order := ilog2 min_block_size - ilog2 cs in
    r <- alloc_pages (Z.to_nat pages) fuel start end_ order min_order pages flags
           original_size original_min_size blocks [] ;;
    match r with
    | PagesReturn ret => st_ret ret
    | PagesFail allocated =>
        drm_buddy_free_list_internal allocated ;;
        st_ret (- ENOSPC, blocks)
    | PagesDone allocated =>
        allocated <- (if negb (has_flag flags DRM_BUDDY_TRIM_DISABLE)
                         && negb (original_size =? size)
                      then trim_allocated fuel original_size size allocated
                      else st_ret allocated) ;;
        st_ret (0, blocks ++ allocated)
    end.

End Buddy.
