(* ===== verification/BuddyInv.v ===== *)
(** * The DRM buddy allocator: well-formedness

    The invariant [wf] of the allocator state and the elementary state changes
    that preserve it: taking a free block, splitting, merging two buddies,
    returning a block to its free list. Every operation of Buddy is a sequence
    of those. *)

From S2P Require Import Prelude Buddy.
From stdpp Require Import gmap list sorting.
From Stdlib Require Import ZArith Lia.

Local Open Scope Z_scope.

Create HintDb buddy.

(** ** Header words *)

Abbreviation off := drm_buddy_block_offset.
Abbreviation ord := drm_buddy_block_order.
Abbreviation is_alloc := drm_buddy_block_is_allocated.
Abbreviation is_free := drm_buddy_block_is_free.
Abbreviation is_split := drm_buddy_block_is_split.
Abbreviation is_clear := drm_buddy_block_is_clear.

(** A field of the header is untouched by writing bits outside its mask. *)
Lemma land_update h n v mask :
  Z.land n mask = mask -> Z.land v mask = 0 ->
  Z.land (Z.lor (Z.land h n) v) mask = Z.land h mask.
Proof.
  intros Hn Hv. rewrite Z.land_lor_distr_l, <- Z.land_assoc, Hn, Hv. apply Z.lor_0_r.
Qed.

Lemma land_write h n v mask :
  Z.land n mask = 0 -> Z.land v mask = v ->
  Z.land (Z.lor (Z.land h n) v) mask = v.
Proof.
  intros Hn Hv. rewrite Z.land_lor_distr_l, <- Z.land_assoc, Hn, Hv.
  by rewrite Z.land_0_r.
Qed.

Lemma off_with_state st B :
  Z.land st DRM_BUDDY_HEADER_OFFSET = 0 -> off (with_state st B) = off B.
Proof. intros. apply land_update; [reflexivity|done]. Qed.

Lemma ord_with_state st B :
  Z.land st DRM_BUDDY_HEADER_ORDER = 0 -> ord (with_state st B) = ord B.
Proof. intros. apply land_update; [reflexivity|done]. Qed.

Lemma clear_with_state st B :
  Z.land st DRM_BUDDY_HEADER_CLEAR = 0 -> is_clear (with_state st B) = is_clear B.
Proof.
  intros. unfold is_clear. simpl. rewrite land_update; [done|reflexivity|done].
Qed.

Lemma state_with_state st B :
  Z.land st DRM_BUDDY_HEADER_STATE = st -> drm_buddy_block_state (with_state st B) = st.
Proof. intros. apply land_write; [reflexivity|done]. Qed.

(** [mark_cleared] and [clear_reset] on a header. *)
Definition clear_on (B : drm_buddy_block) : drm_buddy_block :=
  set_header (Z.lor (header B) DRM_BUDDY_HEADER_CLEAR) B.
Definition clear_off (B : drm_buddy_block) : drm_buddy_block :=
  set_header (Z.land (header B) (lnot64 DRM_BUDDY_HEADER_CLEAR)) B.

Lemma land_lor_out h v mask : Z.land v mask = 0 -> Z.land (Z.lor h v) mask = Z.land h mask.
Proof. intros Hv. rewrite Z.land_lor_distr_l, Hv. apply Z.lor_0_r. Qed.

Lemma clear_on_facts B :
  off (clear_on B) = off B /\ ord (clear_on B) = ord B /\
  drm_buddy_block_state (clear_on B) = drm_buddy_block_state B /\
  is_clear (clear_on B) = true.
Proof.
  repeat split; try (apply land_lor_out; reflexivity).
  unfold is_clear. simpl. apply negb_true_iff, Z.eqb_neq. intros H.
  rewrite Z.land_lor_distr_l in H. apply Z.lor_eq_0_iff in H as [_ H]. discriminate.
Qed.

Lemma clear_off_facts B :
  off (clear_off B) = off B /\ ord (clear_off B) = ord B /\
  drm_buddy_block_state (clear_off B) = drm_buddy_block_state B /\
  is_clear (clear_off B) = false.
Proof.
  unfold off, ord, drm_buddy_block_state, is_clear. simpl.
  rewrite <- !Z.land_assoc. repeat split; try reflexivity.
  change (Z.land (lnot64 DRM_BUDDY_HEADER_CLEAR) DRM_BUDDY_HEADER_CLEAR) with 0.
  by rewrite Z.land_0_r.
Qed.

(** The header [drm_block_alloc] writes. *)
Lemma fresh_header_facts o f l r p :
  0 <= o < 64 -> 0 <= f < 2 ^ 64 -> f mod 4096 = 0 ->
  let B := mkBlock (Z.lor f o) l r p in
  off B = f /\ ord B = o /\ drm_buddy_block_state B = 0 /\ is_clear B = false /\
  Z.land (Z.lor f o) DRM_BUDDY_HEADER_UNUSED = 0.
Proof.
  intros Ho Hf Hm B.
  assert (Z.land o (Z.ones 6) = o) as Eo by (rewrite Z.land_ones by lia; apply Z.mod_small; lia).
  assert (Z.land f DRM_BUDDY_HEADER_OFFSET = f) as Ef.
  { assert (f = Z.shiftl (f / 4096) 12) as ->.
    { rewrite Z.shiftl_mul_pow2 by lia. change (2 ^ 12) with 4096.
      pose proof (Z.div_mod f 4096). lia. }
    unfold DRM_BUDDY_HEADER_OFFSET.
    rewrite <- Z.shiftl_land. f_equal. rewrite Z.land_ones by lia.
    apply Z.mod_small. split; [apply Z.div_pos; lia|].
    apply Z.div_lt_upper_bound; lia. }
  assert (forall mask, Z.land (Z.ones 6) mask = 0 -> Z.land o mask = 0) as Hout.
  { intros mask E. rewrite <- Eo, <- Z.land_assoc, E. apply Z.land_0_r. }
  assert (forall mask, Z.land DRM_BUDDY_HEADER_OFFSET mask = 0 -> Z.land f mask = 0) as Hof.
  { intros mask E. rewrite <- Ef, <- Z.land_assoc, E. apply Z.land_0_r. }
  unfold off, ord, drm_buddy_block_state, is_clear. simpl header.
  rewrite !Z.land_lor_distr_l, Ef.
  rewrite !(Hof DRM_BUDDY_HEADER_ORDER), !(Hof DRM_BUDDY_HEADER_STATE),
    !(Hof DRM_BUDDY_HEADER_CLEAR), !(Hof DRM_BUDDY_HEADER_UNUSED) by reflexivity.
  rewrite !(Hout DRM_BUDDY_HEADER_OFFSET), !(Hout DRM_BUDDY_HEADER_STATE),
    !(Hout DRM_BUDDY_HEADER_CLEAR), !(Hout DRM_BUDDY_HEADER_UNUSED) by reflexivity.
  rewrite !Z.lor_0_l, !Z.lor_0_r. unfold DRM_BUDDY_HEADER_ORDER. rewrite Eo.
  repeat split; reflexivity.
Qed.

(** ** The invariant

    [det] is a block whose parent pointer [drm_buddy_block_trim] has cleared,
    with that parent; [tr] is a block between its removal from the lists and
    its return to a free list, with a flag saying whether [clear_avail] counts
    it. Both are [None] between operations. *)

Inductive bstate := SNone | SAlloc | SFree | SSplit | STrans.
#[export] Instance bstate_eq_dec : EqDecision bstate.
Proof. solve_decision. Defined.

Section Inv.
Context (det : option (bid * bid)) (tr : option (bid * bool)).

Definition bst (b : bid) (B : drm_buddy_block) : bstate :=
  if decide (fst <$> tr = Some b) then STrans
  else if is_alloc B then SAlloc
  else if is_free B then SFree
  else if is_split B then SSplit
  else SNone.

Definition par (b : bid) (B : drm_buddy_block) : option bid :=
  match det with
  | Some (d, p) => if decide (d = b) then Some p else b_parent B
  | None => b_parent B
  end.

(** Sizes in bytes without wrap-around. *)
Definition bsz (cs : Z) (B : drm_buddy_block) : Z := cs * 2 ^ ord B.
Definition fsz (cs : Z) (b : bid) (B : drm_buddy_block) : Z :=
  match bst b B with SFree | STrans => bsz cs B | _ => 0 end.
Definition csz (cs : Z) (b : bid) (B : drm_buddy_block) : Z :=
  match bst b B with
  | SFree => if is_clear B then bsz cs B else 0
  | STrans => if is_clear B && from_option snd false tr then bsz cs B else 0
  | _ => 0
  end.
Definition lsz (cs : Z) (b : bid) (B : drm_buddy_block) : Z :=
  match bst b B with SSplit => 0 | _ => bsz cs B end.

(** A block's own fields. *)
Record blk_ok (mm : drm_buddy) (b : bid) (B : drm_buddy_block) : Prop := {
  bk_ord : 0 <= ord B <= max_order mm;
  bk_off : 0 <= off B /\ off B + bsz (chunk_size mm) B <= mm_size mm;
  bk_align : off B mod bsz (chunk_size mm) B = 0;
  bk_state : bst b B <> SNone;
  bk_clear : bst b B = SSplit -> is_clear B = false
}.

(** The halves of a split block. *)
Definition halves (mm : drm_buddy) (p : bid) (P : drm_buddy_block) : Prop :=
  exists l r L R,
    b_left P = Some l /\ b_right P = Some r /\
    heap mm !! l = Some L /\ heap mm !! r = Some R /\
    par l L = Some p /\ par r R = Some p /\
    ord L = ord P - 1 /\ ord R = ord P - 1 /\
    off L = off P /\ off R = off P + bsz (chunk_size mm) L.

(** A free list: the free blocks of its order, each once, by offset. *)
Definition free_of_order (mm : drm_buddy) (o : nat) (b : bid) : Prop :=
  exists B, heap mm !! b = Some B /\ bst b B = SFree /\ ord B = Z.of_nat o.
Definition fl_ok (mm : drm_buddy) (o : nat) (l : list bid) : Prop :=
  NoDup l /\ StronglySorted (fun a b => offset_of mm a <= offset_of mm b) l /\
  forall b, b ∈ l <-> free_of_order mm o b.

Definition disjoint_blocks (cs : Z) (A B : drm_buddy_block) : Prop :=
  off A + bsz cs A <= off B \/ off B + bsz cs B <= off A.

Record wf (mm : drm_buddy) : Prop := {
  wf_chunk : exists c, 12 <= c /\ chunk_size mm = 2 ^ c;
  wf_size : 0 <= mm_size mm < 2 ^ 64;
  wf_maxo : 0 <= max_order mm <= DRM_BUDDY_MAX_ORDER;
  wf_fresh : forall b B, heap mm !! b = Some B -> (b < next_block mm)%positive;
  wf_blk : forall b B, heap mm !! b = Some B -> blk_ok mm b B;
  wf_split : forall p P, heap mm !! p = Some P -> bst p P = SSplit -> halves mm p P;
  wf_parent : forall b B p, heap mm !! b = Some B -> par b B = Some p ->
    exists P, heap mm !! p = Some P /\ bst p P = SSplit /\
              (b_left P = Some b \/ b_right P = Some b);
  wf_roots : forall b, b ∈ roots mm <-> exists B, heap mm !! b = Some B /\ par b B = None;
  wf_roots_nodup : NoDup (roots mm);
  wf_fl_len : length (free_list mm) = Z.to_nat (max_order mm + 1);
  wf_fl : forall o l, free_list mm !! o = Some l -> fl_ok mm o l;
  wf_disj : forall a b A B, a <> b -> heap mm !! a = Some A -> heap mm !! b = Some B ->
    bst a A <> SSplit -> bst b B <> SSplit -> disjoint_blocks (chunk_size mm) A B;
  wf_det : forall d p, det = Some (d, p) -> exists D, heap mm !! d = Some D /\ b_parent D = None;
  wf_avail : avail mm = msum (fsz (chunk_size mm)) (heap mm);
  wf_clear_avail : clear_avail mm = msum (csz (chunk_size mm)) (heap mm);
  wf_cover : msum (lsz (chunk_size mm)) (heap mm) = mm_size mm
}.
End Inv.

(** The blocks handed out, as the address ranges they stand for: what the
    allocator's clients see of its state. *)
Definition allocs (mm : drm_buddy) : gmap positive (Z * Z) :=
  omap (fun B => if is_alloc B then Some (off B, ord B) else None) (heap mm).

(** ** Consequences of the invariant *)

Section Facts.
Context {det : option (bid * bid)} {tr : option (bid * bool)}.
Implicit Types (mm : drm_buddy) (B : drm_buddy_block).

Lemma wf_chunk_pos mm : wf det tr mm -> 4096 <= chunk_size mm.
Proof.
  intros H. destruct (wf_chunk _ _ _ H) as (c & Hc & ->).
  change 4096 with (2 ^ 12). apply Z.pow_le_mono_r; lia.
Qed.

Lemma bsz_pos mm b B : wf det tr mm -> heap mm !! b = Some B -> 4096 <= bsz (chunk_size mm) B.
Proof.
  intros H Hb. pose proof (wf_chunk_pos mm H).
  pose proof (bk_ord _ _ _ _ (wf_blk _ _ _ H _ _ Hb)).
  pose proof (Z.pow_pos_nonneg 2 (ord B)). unfold bsz. nia.
Qed.

Lemma block_size_bsz mm b B :
  wf det tr mm -> heap mm !! b = Some B ->
  drm_buddy_block_size mm B = bsz (chunk_size mm) B.
Proof.
  intros H Hb. pose proof (bsz_pos mm b B H Hb) as Hp.
  destruct (wf_blk _ _ _ H _ _ Hb) as [Ho Hf _ _ _].
  pose proof (wf_size _ _ _ H). unfold drm_buddy_block_size.
  rewrite Z.shiftl_mul_pow2 by lia. apply wrap_small. unfold bsz in *. lia.
Qed.

Lemma fsz_le_lsz cs b B : 0 <= cs -> 0 <= ord B -> 0 <= fsz tr cs b B <= lsz tr cs b B.
Proof.
  intros Hc Ho. unfold fsz, lsz, bsz. pose proof (Z.pow_pos_nonneg 2 (ord B)).
  destruct (bst _ _ _); nia.
Qed.

Lemma csz_le_fsz cs b B : 0 <= cs -> 0 <= ord B -> 0 <= csz tr cs b B <= fsz tr cs b B.
Proof.
  intros Hc Ho. unfold csz, fsz, bsz. pose proof (Z.pow_pos_nonneg 2 (ord B)).
  destruct (bst _ _ _); try nia; [destruct (is_clear B)|destruct (is_clear B && _)]; nia.
Qed.

(** The two counters never exceed what they are counters of. *)
Lemma wf_avail_bounds mm :
  wf det tr mm -> 0 <= clear_avail mm <= avail mm /\ avail mm <= mm_size mm.
Proof.
  intros H. pose proof (wf_chunk_pos mm H).
  assert (forall b B, heap mm !! b = Some B -> 0 <= ord B) as Ho
    by (intros b B Hb; apply (bk_ord _ _ _ _ (wf_blk _ _ _ H _ _ Hb))).
  rewrite (wf_avail _ _ _ H), (wf_clear_avail _ _ _ H), <- (wf_cover _ _ _ H).
  split; [split|].
  - apply msum_nonneg. intros b B Hb.
    pose proof (csz_le_fsz (chunk_size mm) b B ltac:(lia) (Ho _ _ Hb)). lia.
  - apply msum_le. intros b B Hb. apply csz_le_fsz; [lia|eauto].
  - apply msum_le. intros b B Hb. apply fsz_le_lsz; [lia|eauto].
Qed.

Lemma wf_free_list mm o :
  wf det tr mm -> 0 <= o <= max_order mm ->
  exists l, free_list mm !! Z.to_nat o = Some l /\ fl_ok tr mm (Z.to_nat o) l.
Proof.
  intros H Ho. destruct (free_list mm !! Z.to_nat o) as [l|] eqn:E.
  - exists l. split; [done|]. apply (wf_fl _ _ _ H _ _ E).
  - apply lookup_ge_None in E. rewrite (wf_fl_len _ _ _ H) in E. lia.
Qed.

Lemma wf_on_free_list mm b B :
  wf det tr mm -> heap mm !! b = Some B -> bst tr b B = SFree ->
  exists l, free_list mm !! Z.to_nat (ord B) = Some l /\ fl_ok tr mm (Z.to_nat (ord B)) l /\ b ∈ l.
Proof.
  intros H Hb Hs. pose proof (bk_ord _ _ _ _ (wf_blk _ _ _ H _ _ Hb)) as Ho.
  destruct (wf_free_list mm (ord B) H Ho) as (l & El & Hl).
  exists l. split_and!; [done..|]. apply Hl. exists B. split_and!; [done..|lia].
Qed.

(** A block is on no free list but that of its order, and only when free. *)
Lemma fl_ok_not_elem mm o l b B :
  fl_ok tr mm o l -> heap mm !! b = Some B -> bst tr b B <> SFree -> b ∉ l.
Proof.
  intros Hl Hb Hs Hin. apply Hl in Hin as (B' & HB' & ? & ?). congruence.
Qed.

Lemma bst_free_inv b B : bst tr b B = SFree -> is_free B = true.
Proof. unfold bst. case_decide; [done|]. destruct (is_alloc B), (is_free B), (is_split B); done. Qed.

End Facts.

(** Equality of the fields no operation changes. *)
Record same_geometry (mm mm' : drm_buddy) : Prop := {
  sg_roots : roots mm' = roots mm;
  sg_maxo : max_order mm' = max_order mm;
  sg_chunk : chunk_size mm' = chunk_size mm;
  sg_size : mm_size mm' = mm_size mm
}.

#[export] Instance same_geometry_refl : Reflexive same_geometry.
Proof. by constructor. Qed.
#[export] Instance same_geometry_trans : Transitive same_geometry.
Proof. intros ??? [] []. constructor; congruence. Qed.

(** ** Retagging: a change of one block's state that is not a split or a merge *)

(** [tr] is about no block but [b]. *)
Definition tr_at (b : bid) (tr : option (bid * bool)) : Prop :=
  forall k c, tr = Some (k, c) -> k = b.

Lemma tr_at_none b : tr_at b None.
Proof. by intros ??. Qed.
Lemma tr_at_some b c : tr_at b (Some (b, c)).
Proof. intros ???. congruence. Qed.
#[export] Hint Resolve tr_at_none tr_at_some : buddy.

Lemma bst_other b tr tr' k K : tr_at b tr -> tr_at b tr' -> k <> b -> bst tr k K = bst tr' k K.
Proof.
  intros H H' Hk. unfold bst.
  assert (forall t, tr_at b t -> fst <$> t <> Some k) as Hn.
  { intros t Ht E. destruct t as [[k' c]|]; [|done]. simpl in E.
    specialize (Ht k' c eq_refl). congruence. }
  rewrite !decide_False by (by apply Hn). done.
Qed.

Lemma sizes_other b tr tr' cs k K :
  tr_at b tr -> tr_at b tr' -> k <> b ->
  fsz tr cs k K = fsz tr' cs k K /\ csz tr cs k K = csz tr' cs k K /\
  lsz tr cs k K = lsz tr' cs k K.
Proof.
  intros H H' Hk. unfold fsz, csz, lsz. rewrite <- (bst_other b tr tr' k K) by done.
  destruct (bst tr k K) eqn:E; try done. split_and!; [done| |done].
  unfold bst in E. case_decide as D; [|by destruct (is_alloc K), (is_free K), (is_split K)].
  destruct tr as [[k' c]|]; [|done]. simpl in D. specialize (H k' c eq_refl). congruence.
Qed.

Section Retag.
Context (det : option (bid * bid)) (tr tr' : option (bid * bool)).
Context (mm mm' : drm_buddy) (b : bid) (B B' : drm_buddy_block).
Hypothesis (Hwf : wf det tr mm) (Hb : heap mm !! b = Some B).
Hypothesis (Htr : tr_at b tr) (Htr' : tr_at b tr').
Hypothesis (Hheap : heap mm' = <[b := B']> (heap mm)).
Hypothesis (Hgeo : same_geometry mm mm') (Hnext : next_block mm' = next_block mm).
Hypothesis (Hoff : off B' = off B) (Hord : ord B' = ord B) (Hpar : b_parent B' = b_parent B).
Hypothesis (Hleaf : bst tr b B <> SSplit) (Hleaf' : bst tr' b B' <> SSplit).
Hypothesis (Hnone : bst tr' b B' <> SNone).
Hypothesis (Hlen : length (free_list mm') = length (free_list mm)).
Hypothesis (Hfl : forall o l, free_list mm' !! o = Some l -> fl_ok tr' mm' o l).
Hypothesis (Hav : avail mm' = avail mm - fsz tr (chunk_size mm) b B + fsz tr' (chunk_size mm) b B').
Hypothesis (Hcav : clear_avail mm' =
  clear_avail mm - csz tr (chunk_size mm) b B + csz tr' (chunk_size mm) b B').

Let retag_lookup k K : heap mm' !! k = Some K ->
  (k = b /\ K = B') \/ (k <> b /\ heap mm !! k = Some K).
Proof.
  rewrite Hheap. destruct (decide (k = b)) as [->|Hk].
  - rewrite lookup_insert_eq. intros [= <-]. by left.
  - rewrite lookup_insert_ne by done. by right.
Qed.

(** What the old state knows of a block of the new one. *)
Let retag_old k K : heap mm' !! k = Some K ->
  exists K0, heap mm !! k = Some K0 /\ off K0 = off K /\ ord K0 = ord K /\
    par det k K0 = par det k K /\
    (bst tr' k K = SSplit -> bst tr k K = SSplit /\ K0 = K) /\
    (bst tr' k K <> SSplit -> bst tr k K0 <> SSplit).
Proof.
  intros [[-> ->]|[Hk HK]]%retag_lookup.
  - exists B. split_and!; try done. unfold par. rewrite Hpar. done.
  - exists K. split_and!; [done..| |]; rewrite (bst_other b tr tr') by done; done.
Qed.

Let retag_split k K : heap mm !! k = Some K -> bst tr k K = SSplit ->
  heap mm' !! k = Some K /\ bst tr' k K = SSplit.
Proof.
  intros HK Hs. assert (k <> b) as Hk by (intros ->; congruence).
  rewrite Hheap, lookup_insert_ne by done. rewrite <- (bst_other b tr tr') by done. done.
Qed.

Let retag_any k K : heap mm !! k = Some K ->
  exists K', heap mm' !! k = Some K' /\ off K' = off K /\ ord K' = ord K /\
    par det k K' = par det k K.
Proof.
  intros HK. rewrite Hheap. destruct (decide (k = b)) as [->|Hk].
  - rewrite lookup_insert_eq. assert (K = B) as -> by congruence.
    exists B'. split_and!; try done. unfold par. rewrite Hpar. done.
  - rewrite lookup_insert_ne by done. exists K. done.
Qed.

Let retag_bsz K K0 : ord K0 = ord K -> bsz (chunk_size mm) K0 = bsz (chunk_size mm) K.
Proof. unfold bsz. by intros ->. Qed.

Lemma wf_retag : wf det tr' mm'.
Proof.
  destruct Hgeo as [Gr Go Gc Gs]. split; rewrite ?Gr, ?Go, ?Gc, ?Gs.
  - apply Hwf.
  - apply Hwf.
  - apply Hwf.
  - intros k K (K0 & HK0 & _)%retag_old. rewrite Hnext. apply (wf_fresh _ _ _ Hwf _ _ HK0).
  - intros k K HK. destruct (retag_old k K HK) as (K0 & HK0 & Eo & Er & _ & Hs & _).
    destruct (wf_blk _ _ _ Hwf _ _ HK0) as [? ? ? ? ?].
    pose proof (retag_bsz K K0 Er) as Eb.
    split; rewrite ?Go, ?Gc, ?Gs, <- ?Eo, <- ?Er, <- ?Eb; try done.
    + apply retag_lookup in HK as [[-> ->]|[Hk HK]]; [done|].
      rewrite <- (bst_other b tr tr') by done. congruence.
    + intros E. destruct (Hs E) as [E' ->]. auto.
  - intros p P HP HS. destruct (retag_old p P HP) as (P0 & HP0 & _ & _ & _ & Hs & _).
    destruct (Hs HS) as [HS0 ->].
    destruct (wf_split _ _ _ Hwf _ _ HP0 HS0) as (l & r & L & R & El & Er & HL & HR & ?).
    destruct (retag_any l L HL) as (L' & HL' & EL1 & EL2 & EL3).
    destruct (retag_any r R HR) as (R' & HR' & ER1 & ER2 & ER3).
    exists l, r, L', R'. rewrite Gc, EL1, EL2, EL3, ER1, ER2, ER3, (retag_bsz L L') by done.
    tauto.
  - intros k K p HK Hp. destruct (retag_old k K HK) as (K0 & HK0 & _ & _ & Ep & _).
    rewrite <- Ep in Hp. destruct (wf_parent _ _ _ Hwf _ _ _ HK0 Hp) as (P & HP & HS & Hc).
    destruct (retag_split p P HP HS). eauto.
  - intros k. rewrite (wf_roots _ _ _ Hwf). split.
    + intros (K & HK & Hp). destruct (retag_any k K HK) as (K' & HK' & _ & _ & Ep).
      exists K'. rewrite Ep. done.
    + intros (K & HK & Hp). destruct (retag_old k K HK) as (K0 & HK0 & _ & _ & Ep & _).
      exists K0. rewrite Ep. done.
  - apply Hwf.
  - rewrite Hlen. apply Hwf.
  - done.
  - intros a c A C Hac HA HC HSA HSC.
    destruct (retag_old a A HA) as (A0 & HA0 & EA1 & EA2 & _ & _ & SA).
    destruct (retag_old c C HC) as (C0 & HC0 & EC1 & EC2 & _ & _ & SC).
    pose proof (wf_disj _ _ _ Hwf a c A0 C0 Hac HA0 HC0 (SA HSA) (SC HSC)) as D.
    unfold disjoint_blocks in *.
    rewrite (retag_bsz A A0), (retag_bsz C C0) in D by done. rewrite <- EA1, <- EC1. done.
  - intros d p E. destruct (wf_det _ _ _ Hwf d p E) as (D & HD & HDp).
    rewrite Hheap. destruct (decide (d = b)) as [->|Hd].
    + rewrite lookup_insert_eq. exists B'. split; [done|]. congruence.
    + rewrite lookup_insert_ne by done. eauto.
  - rewrite Hav, Hheap, (wf_avail _ _ _ Hwf).
    rewrite (msum_update _ _ _ B) by done.
    rewrite (msum_change (fsz tr (chunk_size mm)) (fsz tr' (chunk_size mm)) _ b B); [lia|done|].
    intros. symmetry. by apply (sizes_other b tr' tr).
  - rewrite Hcav, Hheap, (wf_clear_avail _ _ _ Hwf).
    rewrite (msum_update _ _ _ B) by done.
    rewrite (msum_change (csz tr (chunk_size mm)) (csz tr' (chunk_size mm)) _ b B); [lia|done|].
    intros. symmetry. by apply (sizes_other b tr' tr).
  - rewrite Hheap, <- (wf_cover _ _ _ Hwf).
    rewrite (msum_update _ _ _ B) by done.
    rewrite (msum_change (lsz tr (chunk_size mm)) (lsz tr' (chunk_size mm)) _ b B); [|done|].
    + assert (lsz tr (chunk_size mm) b B = bsz (chunk_size mm) B) as ->
        by (unfold lsz; by destruct (bst tr b B)).
      assert (lsz tr' (chunk_size mm) b B' = bsz (chunk_size mm) B') as ->
        by (unfold lsz; by destruct (bst tr' b B')).
      rewrite (retag_bsz B B') by done. lia.
    + intros. symmetry. by apply (sizes_other b tr' tr).
Qed.
End Retag.

(** ** Free lists *)

Section FreeListSteps.
Context (tr tr' : option (bid * bool)) (mm mm' : drm_buddy) (o : nat) (l : list bid).
Hypothesis (Hl : fl_ok tr mm o l).
Hypothesis (Hoffs : forall k, k ∈ l -> offset_of mm' k = offset_of mm k).

Let sorted_same :
  StronglySorted (fun x y => offset_of mm' x <= offset_of mm' y) l.
Proof.
  destruct Hl as (_ & Hs & _). clear Hl.
  induction Hs as [|x l Hs IH Hf]; constructor.
  - apply IH. intros; apply Hoffs; set_solver.
  - rewrite Forall_forall in Hf |- *. intros y Hy. rewrite !Hoffs by set_solver. by apply Hf.
Qed.

Lemma fl_ok_ext :
  (forall k, free_of_order tr' mm' o k <-> free_of_order tr mm o k) -> fl_ok tr' mm' o l.
Proof.
  intros H. destruct Hl as (Hn & _ & Hm). split_and!; [done|done|].
  intros k. rewrite H. apply Hm.
Qed.

Lemma fl_ok_del x :
  (forall k, free_of_order tr' mm' o k <-> free_of_order tr mm o k /\ k <> x) ->
  fl_ok tr' mm' o (filter (fun y => y <> x) l).
Proof.
  intros H. destruct Hl as (Hn & _ & Hm).
  split_and!; [by apply NoDup_filter|by apply StronglySorted_filter|].
  intros k. rewrite elem_of_list_del, H, Hm. tauto.
Qed.

Lemma fl_ok_ins x f :
  x ∉ l ->
  (forall k, free_of_order tr' mm' o k <-> free_of_order tr mm o k \/ k = x) ->
  (forall k, k ∈ l -> f k = (offset_of mm' x <? offset_of mm' k)) ->
  fl_ok tr' mm' o (insert_before f x l).
Proof.
  intros Hx H Hf. destruct Hl as (Hn & _ & Hm).
  split_and!; [by apply NoDup_insert_before| |].
  - apply StronglySorted_insert_before; [intros ???; lia| | |done];
      intros y Hy; rewrite Hf by done; zbool; intros; try done; lia.
  - intros k. rewrite elem_of_insert_before, H, Hm. tauto.
Qed.
End FreeListSteps.

(** The free lists of a state in which one block is retagged. *)
Section FreeLists.
Context (det : option (bid * bid)) (tr tr' : option (bid * bool)).
Context (mm mm' : drm_buddy) (b : bid) (B B' : drm_buddy_block).
Hypothesis (Hwf : wf det tr mm) (Hb : heap mm !! b = Some B).
Hypothesis (Htr : tr_at b tr) (Htr' : tr_at b tr').
Hypothesis (Hheap : heap mm' = <[b := B']> (heap mm)).
Hypothesis (Hoff : off B' = off B) (Hord : ord B' = ord B).

Let fl_offset k : offset_of mm' k = offset_of mm k.
Proof.
  unfold offset_of. rewrite Hheap. destruct (decide (k = b)) as [->|Hk].
  - rewrite lookup_insert_eq, Hb. done.
  - by rewrite lookup_insert_ne.
Qed.

Let fl_other o k : k <> b -> free_of_order tr' mm' o k <-> free_of_order tr mm o k.
Proof.
  intros Hk. unfold free_of_order. rewrite Hheap, lookup_insert_ne by done.
  split; intros (K & ? & Hs & ?); exists K; split_and!; try done; rewrite <- Hs;
    by apply (bst_other b).
Qed.

Let fl_self o : free_of_order tr' mm' o b <-> bst tr' b B' = SFree /\ ord B = Z.of_nat o.
Proof. unfold free_of_order. rewrite Hheap, lookup_insert_eq, <- Hord. naive_solver. Qed.

Let fl_self_old o : free_of_order tr mm o b <-> bst tr b B = SFree /\ ord B = Z.of_nat o.
Proof. unfold free_of_order. rewrite Hb. naive_solver. Qed.

Let fl_at o : o = Z.to_nat (ord B) <-> ord B = Z.of_nat o.
Proof. pose proof (bk_ord _ _ _ _ (wf_blk _ _ _ Hwf _ _ Hb)). lia. Qed.

(** The lists other than that of the block's order. *)
Let fl_elsewhere o l :
  free_list mm !! o = Some l -> (ord B = Z.of_nat o -> bst tr b B <> SFree /\ bst tr' b B' <> SFree) ->
  fl_ok tr' mm' o l.
Proof.
  intros Hl H. apply (fl_ok_ext tr tr' mm mm'); [by apply (wf_fl _ _ _ Hwf)|auto|].
  intros k. destruct (decide (k = b)) as [->|Hk]; [|by apply fl_other].
  rewrite fl_self, fl_self_old. naive_solver.
Qed.

Lemma fl_same :
  bst tr b B <> SFree -> bst tr' b B' <> SFree -> free_list mm' = free_list mm ->
  forall o l, free_list mm' !! o = Some l -> fl_ok tr' mm' o l.
Proof. intros Hs Hs' Ef o l Hl. rewrite Ef in Hl. by apply fl_elsewhere. Qed.

Lemma fl_remove l :
  bst tr b B = SFree -> bst tr' b B' <> SFree ->
  free_list mm !! Z.to_nat (ord B) = Some l ->
  free_list mm' = <[Z.to_nat (ord B) := filter (fun y => y <> b) l]> (free_list mm) ->
  forall o l, free_list mm' !! o = Some l -> fl_ok tr' mm' o l.
Proof.
  intros Hs Hs' El Ef o l' Hl. rewrite Ef in Hl.
  destruct (decide (o = Z.to_nat (ord B))) as [Eo|Hne].
  - subst o. rewrite list_lookup_insert_eq in Hl by (apply lookup_lt_is_Some; eauto).
    injection Hl as <-. apply (fl_ok_del tr tr' mm mm'); [by apply (wf_fl _ _ _ Hwf)|auto|].
    intros k. destruct (decide (k = b)) as [->|Hk].
    + rewrite fl_self. naive_solver.
    + rewrite fl_other by done. naive_solver.
  - rewrite list_lookup_insert_ne in Hl by done. apply fl_elsewhere; [done|].
    intros E%fl_at. done.
Qed.

Lemma fl_insert l f :
  bst tr b B <> SFree -> bst tr' b B' = SFree ->
  free_list mm !! Z.to_nat (ord B) = Some l ->
  (forall k, k ∈ l -> f k = (off B <? offset_of mm k)) ->
  free_list mm' = <[Z.to_nat (ord B) := insert_before f b l]> (free_list mm) ->
  forall o l, free_list mm' !! o = Some l -> fl_ok tr' mm' o l.
Proof.
  intros Hs Hs' El Hf Ef o l' Hl. rewrite Ef in Hl.
  assert (offset_of mm b = off B) as Eb by (unfold offset_of; by rewrite Hb).
  destruct (decide (o = Z.to_nat (ord B))) as [Eo|Hne].
  - subst o. rewrite list_lookup_insert_eq in Hl by (apply lookup_lt_is_Some; eauto).
    injection Hl as <-. pose proof (wf_fl _ _ _ Hwf _ _ El) as Hok.
    apply (fl_ok_ins tr tr' mm mm'); [done|auto| | |].
    + by apply (fl_ok_not_elem mm _ l b B Hok).
    + intros k. destruct (decide (k = b)) as [->|Hk].
      * rewrite fl_self. pose proof (proj1 (fl_at _) eq_refl). naive_solver.
      * rewrite fl_other by done. naive_solver.
    + intros k Hk. rewrite !fl_offset, Eb. auto.
  - rewrite list_lookup_insert_ne in Hl by done. apply fl_elsewhere; [done|].
    intros E%fl_at. done.
Qed.
End FreeLists.

(** ** Splitting *)

Section Split.
Context (det : option (bid * bid)) (mm mm' : drm_buddy).
Context (b l r : bid) (B B' L R : drm_buddy_block).
Hypothesis (Hwf : wf det None mm) (Hb : heap mm !! b = Some B).
Hypothesis (Hs : bst None b B = SFree) (Hordb : 0 < ord B).
Hypothesis (Hl : (next_block mm <= l)%positive) (Hr : (next_block mm <= r)%positive).
Hypothesis (Hl' : (l < next_block mm')%positive) (Hr' : (r < next_block mm')%positive).
Hypothesis (Hlr : l <> r) (Hmono : (next_block mm <= next_block mm')%positive).
Hypothesis (Hheap : heap mm' = <[b := B']> (<[r := R]> (<[l := L]> (heap mm)))).
Hypothesis (Hgeo : same_geometry mm mm').
Hypothesis (HB' : off B' = off B /\ ord B' = ord B /\ b_parent B' = b_parent B /\
  b_left B' = Some l /\ b_right B' = Some r /\ bst None b B' = SSplit /\ is_clear B' = false).
Hypothesis (HL : off L = off B /\ ord L = ord B - 1 /\ b_parent L = Some b /\
  bst None l L = SFree /\ is_clear L = is_clear B).
Hypothesis (HR : off R = off B + bsz (chunk_size mm) L /\ ord R = ord B - 1 /\
  b_parent R = Some b /\ bst None r R = SFree /\ is_clear R = is_clear B).
Hypothesis (Hlen : length (free_list mm') = length (free_list mm)).
Hypothesis (Hfl : forall o l, free_list mm' !! o = Some l -> fl_ok None mm' o l).
Hypothesis (Hav : avail mm' = avail mm) (Hcav : clear_avail mm' = clear_avail mm).

Let split_fresh k K : heap mm !! k = Some K -> k <> l /\ k <> r.
Proof. intros HK%(wf_fresh _ _ _ Hwf). lia. Qed.

Let split_bne : b <> l /\ b <> r.
Proof. by apply (split_fresh b B). Qed.

Let split_none : heap mm !! l = None /\ heap mm !! r = None.
Proof.
  split; apply eq_None_not_Some; intros [K HK]; by destruct (split_fresh _ _ HK).
Qed.

Let split_cases k K : heap mm' !! k = Some K ->
  (k = b /\ K = B') \/ (k = l /\ K = L) \/ (k = r /\ K = R) \/
  (k <> b /\ k <> l /\ k <> r /\ heap mm !! k = Some K).
Proof.
  rewrite Hheap. destruct (decide (k = b)) as [->|Hkb].
  { rewrite lookup_insert_eq. intros [= <-]. by left. }
  rewrite lookup_insert_ne by done. destruct (decide (k = r)) as [->|Hkr].
  { rewrite lookup_insert_eq. intros [= <-]. auto. }
  rewrite lookup_insert_ne by done. destruct (decide (k = l)) as [->|Hkl].
  { rewrite lookup_insert_eq. intros [= <-]. auto. }
  rewrite lookup_insert_ne by done. auto 10.
Qed.

Let split_at_b : heap mm' !! b = Some B'.
Proof. rewrite Hheap. apply lookup_insert_eq. Qed.
Let split_at_l : heap mm' !! l = Some L.
Proof.
  destruct split_bne as [H1 H2]. rewrite Hheap, !lookup_insert_ne by congruence.
  apply lookup_insert_eq.
Qed.
Let split_at_r : heap mm' !! r = Some R.
Proof.
  destruct split_bne as [H1 H2]. rewrite Hheap, lookup_insert_ne by congruence.
  apply lookup_insert_eq.
Qed.
Let split_old k K : k <> b -> heap mm !! k = Some K -> heap mm' !! k = Some K.
Proof.
  intros Hk HK. destruct (split_fresh k K HK). rewrite Hheap, !lookup_insert_ne by done. done.
Qed.

Let split_par k K : heap mm !! k = Some K -> par det k (if decide (k = b) then B' else K) = par det k K.
Proof.
  intros HK. case_decide as E; [|done]. subst. assert (K = B) as -> by congruence.
  unfold par. destruct HB' as (_ & _ & -> & _). done.
Qed.

Let split_par_new k K : (k = l \/ k = r) -> b_parent K = Some b -> par det k K = Some b.
Proof.
  intros Hk HK. unfold par. destruct det as [[d p]|]; [|done].
  rewrite decide_False; [done|]. intros ->.
  destruct (wf_det _ _ _ Hwf k p eq_refl) as (D & HD & _). destruct (split_fresh k D HD).
  destruct Hk; congruence.
Qed.

(** A surviving block and what replaces it. *)
Let split_any k K : heap mm !! k = Some K ->
  exists K', heap mm' !! k = Some K' /\ off K' = off K /\ ord K' = ord K /\
    par det k K' = par det k K /\ (bst None k K = SSplit -> K' = K).
Proof.
  intros HK. exists (if decide (k = b) then B' else K). rewrite split_par by done.
  case_decide as E.
  - subst. assert (K = B) as -> by congruence. destruct HB' as (? & ? & _).
    split_and!; try done. intros. congruence.
  - split_and!; try done. by apply split_old.
Qed.

Let split_half : bsz (chunk_size mm) B = 2 * bsz (chunk_size mm) L /\
  bsz (chunk_size mm) R = bsz (chunk_size mm) L /\ 4096 <= bsz (chunk_size mm) L.
Proof.
  destruct HL as (_ & EL & _), HR as (_ & ER & _). unfold bsz. rewrite EL, ER.
  assert (2 ^ ord B = 2 * 2 ^ (ord B - 1)) as -> by (rewrite <- Z.pow_succ_r by lia; f_equal; lia).
  pose proof (wf_chunk_pos mm Hwf). pose proof (Z.pow_pos_nonneg 2 (ord B - 1)).
  split_and!; nia.
Qed.

Let split_blk k K : heap mm' !! k = Some K -> blk_ok None mm' k K.
Proof.
  destruct Hgeo as [Gr Go Gc Gs]. destruct split_half as (E1 & E2 & E3).
  destruct (wf_blk _ _ _ Hwf _ _ Hb) as [Ob Fb Ab _ _].
  destruct HB' as (B1 & B2 & B3 & B4 & B5 & B6 & B7).
  destruct HL as (L1 & L2 & L3 & L4 & L5), HR as (R1 & R2 & R3 & R4 & R5).
  intros [[-> ->]|[[-> ->]|[[-> ->]|(_ & _ & _ & HK)]]]%split_cases.
  4:{ destruct (wf_blk _ _ _ Hwf _ _ HK). split; by rewrite ?Go, ?Gc, ?Gs. }
  all: split; rewrite ?Go, ?Gc, ?Gs; try (intros; congruence).
  - unfold bsz. rewrite B1, B2. exact Fb.
  - unfold bsz. rewrite B1, B2. exact Ab.
  - rewrite L2. lia.
  - rewrite L1. lia.
  - rewrite L1. rewrite E1 in Ab.
    apply Z.mod_divide; [lia|]. apply Z.mod_divide in Ab; [|lia].
    etransitivity; [|exact Ab]. by exists 2.
  - rewrite R2. lia.
  - rewrite R1, E2. lia.
  - rewrite R1, E2. rewrite E1 in Ab.
    apply Z.mod_divide; [lia|]. apply Z.mod_divide in Ab; [|lia].
    apply Z.divide_add_r; [|done]. etransitivity; [|exact Ab]. by exists 2.
Qed.

(** The leaves of the new state lie in leaves of the old one. *)
Let split_leaf k K : heap mm' !! k = Some K -> bst None k K <> SSplit ->
  exists k0 K0, heap mm !! k0 = Some K0 /\ bst None k0 K0 <> SSplit /\
    off K0 <= off K /\ off K + bsz (chunk_size mm) K <= off K0 + bsz (chunk_size mm) K0 /\
    ((k = l \/ k = r) /\ k0 = b \/ k0 = k /\ k <> l /\ k <> r).
Proof.
  destruct split_half as (E1 & E2 & E3). destruct HL as (L1 & _), HR as (R1 & _).
  intros [[-> ->]|[[-> ->]|[[-> ->]|(? & ? & ? & HK)]]]%split_cases HS.
  - destruct HB' as (_ & _ & _ & _ & _ & ? & _). congruence.
  - exists b, B. rewrite Hs. split_and!; try done; try lia; auto.
  - exists b, B. rewrite Hs. split_and!; try done; try lia; auto.
  - exists k, K. split_and!; try done; try lia; auto.
Qed.

Let split_disj a c A C : a <> c -> heap mm' !! a = Some A -> heap mm' !! c = Some C ->
  bst None a A <> SSplit -> bst None c C <> SSplit -> disjoint_blocks (chunk_size mm) A C.
Proof.
  intros Hac HA HC SA SC.
  destruct (split_leaf a A HA SA) as (a0 & A0 & HA0 & SA0 & A1 & A2 & Ca).
  destruct (split_leaf c C HC SC) as (c0 & C0 & HC0 & SC0 & C1 & C2 & Cc).
  destruct (decide (a0 = c0)) as [->|Hne].
  - destruct split_half as (E1 & E2 & E3). destruct HL as (L1 & _), HR as (R1 & _).
    unfold disjoint_blocks.
    destruct HB' as (_ & _ & _ & _ & _ & HBs & _).
    assert (forall x X, heap mm' !! x = Some X -> bst None x X <> SSplit -> x <> b) as Hnb
      by (intros x X HX HSX ->; congruence).
    pose proof (Hnb a A HA SA). pose proof (Hnb c C HC SC).
    destruct Ca as [[Ha Eb]|(Ea & _)], Cc as [[Hc Eb']|(Ec & _)]; try congruence.
    destruct Ha as [->| ->], Hc as [->| ->]; try congruence;
      rewrite ?split_at_l, ?split_at_r in *; simplify_eq; lia.
  - pose proof (wf_disj _ _ _ Hwf a0 c0 A0 C0 Hne HA0 HC0 SA0 SC0) as D.
    unfold disjoint_blocks in *. lia.
Qed.

(** Sums over the new heap. *)
Let split_msum f : msum f (heap mm') = msum f (heap mm) - f b B + f b B' + f l L + f r R.
Proof.
  destruct split_none as [Nl Nr], split_bne as [? ?]. rewrite Hheap.
  rewrite (msum_update _ _ _ B) by (rewrite !lookup_insert_ne by done; done).
  rewrite msum_insert by (rewrite lookup_insert_ne by done; done).
  rewrite msum_insert by done. lia.
Qed.

Lemma wf_split_step : wf det None mm'.
Proof.
  destruct Hgeo as [Gr Go Gc Gs]. split; rewrite ?Gr, ?Go, ?Gc, ?Gs.
  - apply Hwf.
  - apply Hwf.
  - apply Hwf.
  - intros k K [[-> ->]|[[-> ->]|[[-> ->]|(? & ? & ? & HK)]]]%split_cases; [|done..|].
    + pose proof (wf_fresh _ _ _ Hwf _ _ Hb). lia.
    + pose proof (wf_fresh _ _ _ Hwf _ _ HK). lia.
  - apply split_blk.
  - intros p P HP HS. apply split_cases in HP as [[-> ->]|[[-> ->]|[[-> ->]|(? & ? & ? & HP)]]].
    + destruct HB' as (B1 & B2 & _ & B4 & B5 & _). exists l, r, L, R.
      destruct HL as (L1 & L2 & L3 & _), HR as (R1 & R2 & R3 & _).
      rewrite Gc, B1, B2. split_and!; auto.
    + destruct HL as (_ & _ & _ & ? & _). congruence.
    + destruct HR as (_ & _ & _ & ? & _). congruence.
    + destruct (wf_split _ _ _ Hwf _ _ HP HS) as (x & y & X & Y & ? & ? & HX & HY & ? & ? & EX & EY & OX & OY).
      destruct (split_any x X HX) as (X' & HX' & X1 & X2 & X3 & _).
      destruct (split_any y Y HY) as (Y' & HY' & Y1 & Y2 & Y3 & _).
      exists x, y, X', Y'. rewrite Gc, X1, X2, X3, Y1, Y2, Y3. unfold bsz. rewrite X2. auto 10.
  - intros k K p HK Hp.
    apply split_cases in HK as [[-> ->]|[[-> ->]|[[-> ->]|(? & ? & ? & HK)]]].
    + pose proof (split_par b B Hb) as E. rewrite decide_True in E by done. rewrite E in Hp.
      destruct (wf_parent _ _ _ Hwf _ _ _ Hb Hp) as (P & HP & HS & Hc).
      destruct (split_any p P HP) as (P' & HP' & _ & _ & _ & EP). rewrite EP in HP' by done. eauto.
    + destruct HL as (_ & _ & L3 & _). rewrite (split_par_new l L) in Hp by auto.
      injection Hp as <-. exists B'. destruct HB' as (_ & _ & _ & ? & ? & ? & _). auto.
    + destruct HR as (_ & _ & R3 & _). rewrite (split_par_new r R) in Hp by auto.
      injection Hp as <-. exists B'. destruct HB' as (_ & _ & _ & ? & ? & ? & _). auto.
    + destruct (wf_parent _ _ _ Hwf _ _ _ HK Hp) as (P & HP & HS & Hc).
      destruct (split_any p P HP) as (P' & HP' & _ & _ & _ & EP). rewrite EP in HP' by done. eauto.
  - intros k. rewrite (wf_roots _ _ _ Hwf). split.
    + intros (K & HK & Hp). destruct (split_any k K HK) as (K' & HK' & _ & _ & E & _).
      exists K'. by rewrite E.
    + intros (K & HK & Hp).
      apply split_cases in HK as [[-> ->]|[[-> ->]|[[-> ->]|(? & ? & ? & HK)]]].
      * exists B. pose proof (split_par b B Hb) as E. rewrite decide_True in E by done.
        by rewrite <- E.
      * destruct HL as (_ & _ & L3 & _). rewrite (split_par_new l L) in Hp by auto. done.
      * destruct HR as (_ & _ & R3 & _). rewrite (split_par_new r R) in Hp by auto. done.
      * eauto.
  - apply Hwf.
  - rewrite Hlen. apply Hwf.
  - done.
  - apply split_disj.
  - intros d p E. destruct (wf_det _ _ _ Hwf d p E) as (D & HD & HDp).
    destruct (decide (d = b)) as [->|Hd].
    + exists B'. assert (D = B) as -> by congruence. destruct HB' as (_ & _ & -> & _). done.
    + exists D. split; [by apply split_old|done].
  - rewrite split_msum, Hav, (wf_avail _ _ _ Hwf). unfold fsz.
    destruct HB' as (_ & _ & _ & _ & _ & -> & _), HL as (_ & _ & _ & -> & _), HR as (_ & _ & _ & -> & _).
    rewrite Hs. destruct split_half as (-> & -> & _). lia.
  - rewrite split_msum, Hcav, (wf_clear_avail _ _ _ Hwf). unfold csz.
    destruct HB' as (_ & _ & _ & _ & _ & -> & _), HL as (_ & _ & _ & -> & ->), HR as (_ & _ & _ & -> & ->).
    rewrite Hs. destruct split_half as (-> & -> & _). destruct (is_clear B); lia.
  - rewrite split_msum, (wf_cover _ _ _ Hwf). unfold lsz.
    destruct HB' as (_ & _ & _ & _ & _ & -> & _), HL as (_ & _ & _ & -> & _), HR as (_ & _ & _ & -> & _).
    rewrite Hs. destruct split_half as (-> & -> & _). lia.
Qed.
End Split.

(** ** Merging two buddies *)

Section Merge.
Context (c c' : bool) (mm mm' : drm_buddy).
Context (x y p : bid) (X Y P P' : drm_buddy_block).
Abbreviation tr := (Some (x, c)).
Abbreviation tr' := (Some (p, c')).
Hypothesis (Hwf : wf None tr mm).
Hypothesis (Hx : heap mm !! x = Some X) (Hy : heap mm !! y = Some Y) (Hp : heap mm !! p = Some P).
Hypothesis (Hpar : b_parent X = Some p) (HsP : bst tr p P = SSplit) (HsY : bst tr y Y = SFree).
Hypothesis (Hkids : (b_left P = Some x /\ b_right P = Some y) \/
                    (b_left P = Some y /\ b_right P = Some x)).
Hypothesis (Hheap : heap mm' = delete y (delete x (<[p := P']> (heap mm)))).
Hypothesis (HP' : off P' = off P /\ ord P' = ord P /\ b_parent P' = b_parent P).
Hypothesis (Hgeo : same_geometry mm mm') (Hnext : next_block mm' = next_block mm).
Hypothesis (Hlen : length (free_list mm') = length (free_list mm)).
Hypothesis (Hfl : forall o l, free_list mm' !! o = Some l -> fl_ok tr' mm' o l).
Hypothesis (Hav : avail mm' = avail mm).
Hypothesis (Hcav : clear_avail mm' = clear_avail mm - csz tr (chunk_size mm) x X
  - csz tr (chunk_size mm) y Y + csz tr' (chunk_size mm) p P').

Let merge_sX : bst tr x X = STrans.
Proof. unfold bst. by rewrite decide_True. Qed.

Lemma merge_ne : x <> p /\ y <> p /\ x <> y.
Proof. split_and!; intros E; subst; congruence. Qed.

(** The geometry of the two halves. *)
Lemma merge_halves :
  ord X = ord P - 1 /\ ord Y = ord P - 1 /\ b_parent Y = Some p /\
  bsz (chunk_size mm) P = 2 * bsz (chunk_size mm) X /\
  bsz (chunk_size mm) Y = bsz (chunk_size mm) X /\
  ((off X = off P /\ off Y = off P + bsz (chunk_size mm) X) \/
   (off Y = off P /\ off X = off P + bsz (chunk_size mm) X)).
Proof using Hwf Hx Hy Hp HsP Hkids.
  clear -Hwf Hx Hy Hp HsP Hkids.
  destruct (wf_split _ _ _ Hwf p P Hp HsP) as
    (l & r & L & R & El & Er & HL & HR & PL & PR & OL & OR & FL & FR).
  unfold par in PL, PR. destruct (wf_blk _ _ _ Hwf _ _ Hx) as [OX _ _ _ _].
  assert (forall K, ord K = ord P - 1 -> 0 <= ord K -> bsz (chunk_size mm) P = 2 * bsz (chunk_size mm) K) as Hh.
  { intros K EK H0. unfold bsz. replace (ord P) with (Z.succ (ord K)) by lia.
    rewrite Z.pow_succ_r by lia. lia. }
  destruct Hkids as [[K1 K2]|[K1 K2]]; simplify_eq.
  - split_and!; try done; [by apply Hh; lia|unfold bsz; congruence|by left].
  - split_and!; try done; [by apply Hh; lia|unfold bsz; congruence|right].
    split; [done|]. rewrite FR. unfold bsz. congruence.
Qed.

Let merge_bst k K : k <> x -> k <> p -> bst tr' k K = bst tr k K.
Proof. intros Hk1 Hk2. unfold bst. simpl. rewrite !decide_False by congruence. done. Qed.

Let merge_cases k K : heap mm' !! k = Some K ->
  (k = p /\ K = P') \/ (k <> p /\ k <> x /\ k <> y /\ heap mm !! k = Some K).
Proof.
  rewrite Hheap. intros [Ky HK]%lookup_delete_Some. apply lookup_delete_Some in HK as [Kx HK].
  destruct (decide (k = p)) as [->|Hk].
  - rewrite lookup_insert_eq in HK. left. split; congruence.
  - rewrite lookup_insert_ne in HK by done. auto.
Qed.

Let merge_at_p : heap mm' !! p = Some P'.
Proof.
  destruct merge_ne as (? & ? & _).
  rewrite Hheap, !lookup_delete_ne by congruence. apply lookup_insert_eq.
Qed.

Let merge_old k K : k <> p -> k <> x -> k <> y -> heap mm !! k = Some K -> heap mm' !! k = Some K.
Proof. intros. rewrite Hheap, !lookup_delete_ne, lookup_insert_ne by congruence. done. Qed.

(** What a surviving block of the old heap becomes. *)
Let merge_any k K : k <> x -> k <> y -> heap mm !! k = Some K ->
  exists K', heap mm' !! k = Some K' /\ off K' = off K /\ ord K' = ord K /\ b_parent K' = b_parent K.
Proof.
  intros. destruct (decide (k = p)) as [->|].
  - exists P'. assert (K = P) as -> by congruence. destruct HP' as (? & ? & ?). auto.
  - exists K. split_and!; auto.
Qed.

(** No block but the two halves has [p] as its parent, and none hangs off a
    half. *)
Let merge_parent k K q : heap mm !! k = Some K -> k <> x -> k <> y -> b_parent K = Some q ->
  exists Q, q <> p /\ q <> x /\ q <> y /\ heap mm !! q = Some Q /\ bst tr q Q = SSplit /\
    (b_left Q = Some k \/ b_right Q = Some k).
Proof.
  intros HK Kx Ky Hq. destruct (wf_parent _ _ _ Hwf k K q HK Hq) as (Q & HQ & HS & Hc).
  exists Q. split_and!; try done.
  - intros ->. assert (Q = P) as -> by congruence. destruct Hkids as [[? ?]|[? ?]], Hc; congruence.
  - intros ->. congruence.
  - intros ->. congruence.
Qed.

Let merge_blk k K : heap mm' !! k = Some K -> blk_ok tr' mm' k K.
Proof.
  destruct Hgeo as [Gr Go Gc Gs]. destruct HP' as (P1 & P2 & P3).
  intros [[-> ->]|(Kp & Kx & Ky & HK)]%merge_cases.
  - assert (bst tr' p P' = STrans) as E by (unfold bst; by rewrite decide_True).
    destruct (wf_blk _ _ _ Hwf _ _ Hp). unfold bsz in *.
    split; rewrite ?Go, ?Gc, ?Gs; unfold bsz; rewrite ?P1, ?P2, ?E; done.
  - destruct (wf_blk _ _ _ Hwf _ _ HK). split; rewrite ?Go, ?Gc, ?Gs, ?merge_bst; done.
Qed.

Let merge_disj a b A B : a <> b -> heap mm' !! a = Some A -> heap mm' !! b = Some B ->
  bst tr' a A <> SSplit -> bst tr' b B <> SSplit -> disjoint_blocks (chunk_size mm) A B.
Proof.
  destruct merge_halves as (_ & _ & _ & EP & EY & Hoffs). destruct HP' as (P1 & P2 & _).
  assert (bsz (chunk_size mm) P' = bsz (chunk_size mm) P) as EP' by (unfold bsz; congruence).
  assert (forall k K, k <> p -> k <> x -> k <> y -> heap mm !! k = Some K ->
    bst tr k K <> SSplit -> disjoint_blocks (chunk_size mm) P' K) as Hkey.
  { intros k K Kp Kx Ky HK HS.
    pose proof (bsz_pos mm k K Hwf HK).
    pose proof (wf_disj _ _ _ Hwf x k X K (not_eq_sym Kx) Hx HK ltac:(congruence) HS) as D1.
    pose proof (wf_disj _ _ _ Hwf y k Y K (not_eq_sym Ky) Hy HK ltac:(congruence) HS) as D2.
    unfold disjoint_blocks in *. rewrite EP', P1. lia. }
  intros Hab HA HB SA SB.
  apply merge_cases in HA as [[-> ->]|(Ap & Ax & Ay & HA)],
    HB as [[-> ->]|(Bp & Bx & By & HB)]; try done.
  - rewrite merge_bst in SB by done. by apply (Hkey b).
  - rewrite merge_bst in SA by done. unfold disjoint_blocks.
    destruct (Hkey a A Ap Ax Ay HA SA); [by right|by left].
  - rewrite merge_bst in SA, SB by done. by apply (wf_disj _ _ _ Hwf a b).
Qed.

Let merge_msum f g :
  (forall k K, k <> x -> k <> y -> k <> p -> f k K = g k K) ->
  msum g (heap mm') = msum f (heap mm) - f x X - f y Y - f p P + g p P'.
Proof.
  intros Hfg. destruct merge_ne as (Nx & Ny & Nxy). rewrite Hheap.
  rewrite (msum_delete g _ y Y) by (rewrite lookup_delete_ne, lookup_insert_ne by congruence; done).
  rewrite (msum_delete g _ x X) by (rewrite lookup_insert_ne by congruence; done).
  rewrite (msum_update g _ p P) by done.
  set (f1 k K := if decide (k = x) then g k K else f k K).
  set (f2 k K := if decide (k = y) then g k K else f1 k K).
  rewrite (msum_change f2 g _ p P); [|done|].
  2:{ intros k K Hk _. unfold f2, f1. repeat case_decide; auto. }
  rewrite (msum_change f1 f2 _ y Y); [|done|].
  2:{ intros k K Hk _. unfold f2. by rewrite decide_False. }
  rewrite (msum_change f f1 _ x X); [|done|].
  2:{ intros k K Hk _. unfold f1. by rewrite decide_False. }
  unfold f2, f1. repeat first [rewrite decide_True by done | rewrite decide_False by congruence]. lia.
Qed.

Let merge_sizes k K : k <> x -> k <> y -> k <> p ->
  fsz tr (chunk_size mm) k K = fsz tr' (chunk_size mm) k K /\
  csz tr (chunk_size mm) k K = csz tr' (chunk_size mm) k K /\
  lsz tr (chunk_size mm) k K = lsz tr' (chunk_size mm) k K.
Proof.
  intros Kx Ky Kp. unfold fsz, csz, lsz. rewrite merge_bst by done.
  destruct (bst tr k K) eqn:E; try done. unfold bst in E. rewrite decide_False in E by (simpl; congruence).
  by destruct (is_alloc K), (is_free K), (is_split K).
Qed.

Lemma wf_merge_step : wf None tr' mm'.
Proof.
  destruct Hgeo as [Gr Go Gc Gs]. destruct merge_ne as (Nx & Ny & Nxy).
  destruct merge_halves as (OX & OY & PY & EP & EY & Hoffs). destruct HP' as (P1 & P2 & P3).
  split; rewrite ?Gr, ?Go, ?Gc, ?Gs.
  - apply Hwf.
  - apply Hwf.
  - apply Hwf.
  - intros k K HK. rewrite Hnext. apply merge_cases in HK as [[-> _]|(_ & _ & _ & HK)];
      eapply (wf_fresh _ _ _ Hwf); eassumption.
  - apply merge_blk.
  - intros q Q HQ HS. apply merge_cases in HQ as [[-> ->]|(Qp & Qx & Qy & HQ)].
    { unfold bst in HS. by rewrite decide_True in HS. }
    rewrite merge_bst in HS by done.
    destruct (wf_split _ _ _ Hwf q Q HQ HS) as (l & r & L & R & El & Er & HL & HR & PL & PR & ?).
    unfold par in PL, PR.
    destruct (merge_any l L) as (L' & HL' & L1 & L2 & L3); [congruence|congruence|done|].
    destruct (merge_any r R) as (R' & HR' & R1 & R2 & R3); [congruence|congruence|done|].
    exists l, r, L', R'. unfold par. rewrite Gc, L1, L2, L3, R1, R2, R3. unfold bsz. rewrite L2. auto 10.
  - intros k K q HK Hq. unfold par in Hq.
    assert (exists K0, heap mm !! k = Some K0 /\ k <> x /\ k <> y /\ b_parent K0 = Some q)
      as (K0 & HK0 & Kx & Ky & Hq0).
    { apply merge_cases in HK as [[-> ->]|(_ & ? & ? & HK)]; [|eauto].
      exists P. split_and!; congruence. }
    destruct (merge_parent k K0 q HK0 Kx Ky Hq0) as (Q & Qp & Qx & Qy & HQ & HS & Hc).
    exists Q. rewrite merge_bst by done. auto.
  - intros k. rewrite (wf_roots _ _ _ Hwf). unfold par. split.
    + intros (K & HK & Hk). destruct (merge_any k K) as (K' & HK' & _ & _ & E);
        [congruence|congruence|done|]. exists K'. by rewrite E.
    + intros (K & HK & Hk). apply merge_cases in HK as [[-> ->]|(_ & _ & _ & HK)]; [|eauto].
      exists P. split; congruence.
  - apply Hwf.
  - rewrite Hlen. apply Hwf.
  - done.
  - apply merge_disj.
  - done.
  - rewrite Hav, (wf_avail _ _ _ Hwf), (merge_msum (fsz tr (chunk_size mm))).
    2:{ intros. by apply merge_sizes. }
    unfold fsz. rewrite merge_sX, HsY, HsP.
    unfold bst. rewrite decide_True by done.
    assert (bsz (chunk_size mm) P' = bsz (chunk_size mm) P) as -> by (unfold bsz; congruence). lia.
  - rewrite Hcav, (wf_clear_avail _ _ _ Hwf), (merge_msum (csz tr (chunk_size mm))).
    2:{ intros. by apply merge_sizes. }
    assert (csz tr (chunk_size mm) p P = 0) as -> by (unfold csz; by rewrite HsP). lia.
  - rewrite <- (wf_cover _ _ _ Hwf), (merge_msum (lsz tr (chunk_size mm))).
    2:{ intros. by apply merge_sizes. }
    unfold lsz. rewrite merge_sX, HsY, HsP.
    unfold bst. rewrite decide_True by done.
    assert (bsz (chunk_size mm) P' = bsz (chunk_size mm) P) as -> by (unfold bsz; congruence). lia.
Qed.
End Merge.
