(* ===== verification/BuddyOps.v ===== *)
(** * The DRM buddy allocator: the elementary operations

    Each operation of Buddy that moves one block is run on a well-formed state:
    it does not crash, its result state is well formed and described. *)

From S2P Require Import Prelude Buddy BuddyInv.
From stdpp Require Import gmap list sorting.
From Stdlib Require Import ZArith Lia.

Local Open Scope Z_scope.

(** ** Running the monad *)

(** One step of the run of a bound computation. *)
Ltac st_step := match goal with
  | |- context [st_bind ?m ?k ?s] => rewrite (st_bind_run m k s _ _ ltac:(eassumption || reflexivity))
  end.

Lemma get_block_run mm b B : heap mm !! b = Some B -> get_block b mm = Some (B, mm).
Proof. intros E. unfold get_block. by rewrite E. Qed.

Lemma put_block_run mm b B B' :
  heap mm !! b = Some B -> put_block b B' mm = Some (tt, set_heap (<[b := B']> (heap mm)) mm).
Proof. intros E. unfold put_block. by rewrite E. Qed.

Lemma block_size_run mm b B :
  heap mm !! b = Some B -> block_size b mm = Some (drm_buddy_block_size mm B, mm).
Proof. intros E. unfold block_size. by rewrite E. Qed.

Lemma list_del_free_run mm b B l :
  heap mm !! b = Some B -> free_list mm !! Z.to_nat (ord B) = Some l -> b ∈ l ->
  list_del_free b mm =
  Some (tt, set_free_list (<[Z.to_nat (ord B) := filter (fun y => y <> b) l]> (free_list mm)) mm).
Proof.
  intros HB Hl Hin. unfold list_del_free, st_bind. rewrite (get_block_run _ _ _ HB).
  unfold get_free_list. rewrite Hl. unfold list_del. rewrite decide_True by done. done.
Qed.

Lemma list_insert_sorted_run mm b B l :
  heap mm !! b = Some B -> free_list mm !! Z.to_nat (ord B) = Some l -> b ∉ l ->
  list_insert_sorted b mm =
  Some (tt, set_free_list
              (<[Z.to_nat (ord B) :=
                   insert_before (fun node => off B <? offset_of mm node) b l]>
                 (free_list mm)) mm).
Proof.
  intros HB Hl Hin. unfold list_insert_sorted, st_bind. rewrite (get_block_run _ _ _ HB).
  unfold get_free_list. rewrite Hl. rewrite bool_decide_eq_false_2 by done. done.
Qed.

(** The same through a change of the block's state bits. *)
Lemma mark_free_run mm b B l :
  heap mm !! b = Some B -> free_list mm !! Z.to_nat (ord B) = Some l -> b ∉ l ->
  mark_free b mm =
  Some (tt, set_free_list
              (<[Z.to_nat (ord B) :=
                   insert_before (fun node => off B <? offset_of
                     (set_heap (<[b := with_state DRM_BUDDY_FREE B]> (heap mm)) mm) node) b l]>
                 (free_list mm))
              (set_heap (<[b := with_state DRM_BUDDY_FREE B]> (heap mm)) mm)).
Proof.
  intros HB Hl Hin. unfold mark_free, st_bind.
  rewrite (get_block_run _ _ _ HB), (put_block_run _ _ _ _ HB).
  erewrite (list_insert_sorted_run _ b (with_state DRM_BUDDY_FREE B) l).
  - rewrite off_with_state, ord_with_state by reflexivity. done.
  - simpl. apply lookup_insert_eq.
  - rewrite ord_with_state by reflexivity. done.
  - done.
Qed.

Lemma mark_state_del_run st mm b B l :
  Z.land st DRM_BUDDY_HEADER_ORDER = 0 ->
  heap mm !! b = Some B -> free_list mm !! Z.to_nat (ord B) = Some l -> b ∈ l ->
  st_bind (get_block b) (fun B => st_bind (put_block b (with_state st B))
                                    (fun _ => list_del_free b)) mm =
  Some (tt, set_free_list (<[Z.to_nat (ord B) := filter (fun y => y <> b) l]> (free_list mm))
              (set_heap (<[b := with_state st B]> (heap mm)) mm)).
Proof.
  intros Hst HB Hl Hin. unfold st_bind.
  rewrite (get_block_run _ _ _ HB), (put_block_run _ _ _ _ HB).
  rewrite (list_del_free_run _ b (with_state st B) l).
  - rewrite ord_with_state by done. done.
  - simpl. apply lookup_insert_eq.
  - rewrite ord_with_state by done. done.
  - done.
Qed.

(** ** States of blocks *)

Lemma bst_none_free b B : is_free B = true -> bst None b B = SFree.
Proof.
  unfold bst, is_free, is_alloc. simpl. intros E%Z.eqb_eq. rewrite E. done.
Qed.
Lemma bst_none_alloc b B : is_alloc B = true -> bst None b B = SAlloc.
Proof. unfold bst. simpl. by intros ->. Qed.
Lemma bst_none_split b B : is_split B = true -> bst None b B = SSplit.
Proof.
  unfold bst, is_split, is_free, is_alloc. simpl. intros E%Z.eqb_eq. rewrite E. done.
Qed.
Lemma bst_none_inv b B :
  match bst None b B with
  | SAlloc => is_alloc B = true /\ is_free B = false /\ is_split B = false
  | SFree => is_alloc B = false /\ is_free B = true /\ is_split B = false
  | SSplit => is_alloc B = false /\ is_free B = false /\ is_split B = true
  | SNone => is_alloc B = false /\ is_free B = false /\ is_split B = false
  | STrans => False
  end.
Proof.
  unfold bst, is_alloc, is_free, is_split. simpl.
  destruct (Z.eqb_spec (drm_buddy_block_state B) DRM_BUDDY_ALLOCATED) as [->|]; [done|].
  destruct (Z.eqb_spec (drm_buddy_block_state B) DRM_BUDDY_FREE) as [->|]; [done|].
  by destruct (Z.eqb_spec (drm_buddy_block_state B) DRM_BUDDY_SPLIT).
Qed.
Lemma bst_trans b c B : bst (Some (b, c)) b B = STrans.
Proof. unfold bst. by rewrite decide_True. Qed.

Lemma state_alloc B : is_alloc (with_state DRM_BUDDY_ALLOCATED B) = true.
Proof. unfold is_alloc. by rewrite state_with_state. Qed.
Lemma state_free B : is_free (with_state DRM_BUDDY_FREE B) = true.
Proof. unfold is_free. by rewrite state_with_state. Qed.
Lemma state_split B : is_split (with_state DRM_BUDDY_SPLIT B) = true.
Proof. unfold is_split. by rewrite state_with_state. Qed.
#[export] Hint Resolve bst_none_free bst_none_alloc bst_none_split state_alloc state_free
  state_split : buddy.

Lemma bsz_with_state cs st B :
  Z.land st DRM_BUDDY_HEADER_ORDER = 0 -> bsz cs (with_state st B) = bsz cs B.
Proof. intros. unfold bsz. by rewrite ord_with_state. Qed.

(** The blocks handed out, under a change of one block. *)
Lemma allocs_insert_alloc mm mm' b B' :
  heap mm' = <[b := B']> (heap mm) -> is_alloc B' = true ->
  allocs mm' = <[b := (off B', ord B')]> (allocs mm).
Proof. intros Eh E. unfold allocs. rewrite Eh, omap_insert, E. done. Qed.

Lemma allocs_insert_other mm mm' b B' :
  heap mm' = <[b := B']> (heap mm) -> is_alloc B' = false ->
  allocs mm' = delete b (allocs mm).
Proof. intros Eh E. unfold allocs. rewrite Eh, omap_insert, E. done. Qed.

Lemma allocs_lookup mm b B :
  heap mm !! b = Some B ->
  allocs mm !! b = if is_alloc B then Some (off B, ord B) else None.
Proof. intros E. unfold allocs. rewrite lookup_omap, E. done. Qed.

(** ** Taking a free block *)

Lemma take_block_spec det mm b B :
  wf det None mm -> heap mm !! b = Some B -> is_free B = true ->
  exists mm', take_block b mm = Some (bsz (chunk_size mm) B, mm') /\
    wf det None mm' /\ same_geometry mm mm' /\
    heap mm' = <[b := with_state DRM_BUDDY_ALLOCATED B]> (heap mm) /\
    avail mm' = avail mm - bsz (chunk_size mm) B.
Proof.
  intros Hwf Hb Hfree. pose proof (bst_none_free b B Hfree) as Hs.
  destruct (wf_on_free_list mm b B Hwf Hb Hs) as (l & El & Hl & Hin).
  pose proof (block_size_bsz mm b B Hwf Hb) as Esz.
  pose proof (bsz_pos mm b B Hwf Hb) as Hpos.
  pose proof (wf_avail_bounds mm Hwf) as Hbnd. pose proof (wf_size _ _ _ Hwf) as Hsz.
  set (cs := chunk_size mm) in *.
  set (B' := with_state DRM_BUDDY_ALLOCATED B).
  set (d := if is_clear B then bsz cs B else 0).
  assert (bsz cs B <= avail mm /\ d <= clear_avail mm) as [Ha Hc].
  { rewrite (wf_avail _ _ _ Hwf), (wf_clear_avail _ _ _ Hwf). fold cs.
    assert (forall k K, heap mm !! k = Some K -> 0 <= ord K) as Ho
      by (intros k K HK; apply (bk_ord _ _ _ _ (wf_blk _ _ _ Hwf _ _ HK))).
    pose proof (wf_chunk_pos mm Hwf). split.
    - assert (bsz cs B = fsz None cs b B) as -> by (unfold fsz; by rewrite Hs).
      apply (msum_ge (fsz None cs)); [|done]. intros k K HK.
      apply fsz_le_lsz; [lia|eauto].
    - assert (d = csz None cs b B) as -> by (unfold csz; by rewrite Hs).
      apply (msum_ge (csz None cs)); [|done]. intros k K HK.
      apply csz_le_fsz; [lia|eauto]. }
  set (mm' := mkBuddy (<[b := B']> (heap mm)) (next_block mm)
     (<[Z.to_nat (ord B) := filter (fun y => y <> b) l]> (free_list mm))
     (roots mm) (n_roots mm) (max_order mm) cs (mm_size mm)
     (avail mm - bsz cs B) (clear_avail mm - d)).
  exists mm'. split_and!; [| |by constructor|done|done].
  - unfold take_block, mark_allocated, st_bind at 1.
    rewrite (mark_state_del_run _ mm b B l) by done.
    unfold st_bind, block_size, avail_add, get_block, clear_avail_add, st_when, st_mod, st_ret.
    cbn [heap set_free_list set_heap set_avail set_clear_avail]. fold B'.
    rewrite lookup_insert_eq. cbn [heap set_free_list set_heap set_avail].
    rewrite lookup_insert_eq.
    assert (is_clear B' = is_clear B) as -> by (by apply clear_with_state).
    assert (drm_buddy_block_size mm B' = bsz cs B) as EB'.
    { unfold drm_buddy_block_size, B'. rewrite ord_with_state by reflexivity. exact Esz. }
    unfold drm_buddy_block_size in EB' |- *. cbn [chunk_size set_free_list set_heap].
    rewrite EB'. unfold set_avail, set_clear_avail, set_heap, set_free_list, mm', d.
    cbn [avail clear_avail]. rewrite (wrap_small 64) by lia.
    unfold d in Hc. destruct (is_clear B); cbn [avail clear_avail heap next_block free_list roots
      n_roots max_order chunk_size mm_size]; do 3 f_equal; [rewrite wrap_small by lia|]; lia.
  - assert (bst None b B' = SAlloc) as Hs' by (apply bst_none_alloc, state_alloc).
    apply (wf_retag det None None mm mm' b B B'); auto with buddy; try done;
      try (by rewrite Hs'); try (by rewrite Hs).
    + by apply off_with_state.
    + by apply ord_with_state.
    + simpl. by rewrite length_insert.
    + apply (fl_remove det None None mm mm' b B B') with l; auto with buddy; try done.
      * by apply off_with_state.
      * by apply ord_with_state.
      * by rewrite Hs'.
    + simpl. unfold fsz. rewrite Hs, Hs'. fold cs. lia.
    + simpl. unfold csz, d. rewrite Hs, Hs'. fold cs. lia.
Qed.

(** ** Splitting a free block *)

(** Closes a lookup in a chain of heap updates whose keys are known to differ. *)
Ltac hlook := cbn [heap set_heap set_next set_free_list set_avail set_clear_avail set_roots
    free_list roots max_order chunk_size mm_size next_block avail clear_avail];
  repeat first [ rewrite lookup_insert_eq | rewrite lookup_insert_ne by congruence ];
  first [ done | eassumption ].

Ltac hmap := repeat first [ rewrite lookup_insert_eq | rewrite lookup_insert_ne by congruence ].

(** What a successful [split_block] of [b] does. *)
Record split_of (mm : drm_buddy) (b : bid) (B : drm_buddy_block) (mm' : drm_buddy)
    (l r : bid) : Prop := {
  so_parent : exists B', heap mm' !! b = Some B' /\ is_split B' = true /\
    b_left B' = Some l /\ b_right B' = Some r /\ off B' = off B /\ ord B' = ord B;
  so_left : exists L, heap mm' !! l = Some L /\ is_free L = true /\
    off L = off B /\ ord L = ord B - 1 /\ is_clear L = is_clear B /\ b_parent L = Some b;
  so_right : exists R, heap mm' !! r = Some R /\ is_free R = true /\
    off R = off B + chunk_size mm * 2 ^ (ord B - 1) /\ ord R = ord B - 1 /\
    is_clear R = is_clear B /\ b_parent R = Some b;
  so_other : forall k, k <> b -> k <> l -> k <> r -> heap mm' !! k = heap mm !! k;
  so_fresh : heap mm !! l = None /\ heap mm !! r = None /\ l <> r;
  so_geometry : same_geometry mm mm';
  so_avail : avail mm' = avail mm;
  so_clear_avail : clear_avail mm' = clear_avail mm
}.

Section SplitRun.
Context (slab_ok : positive -> bool).
Hypothesis slab_total : forall n, slab_ok n = true.

Lemma drm_block_alloc_run mm p o f :
  0 <= o <= DRM_BUDDY_MAX_ORDER -> 0 <= f < 2 ^ 64 -> f mod 4096 = 0 ->
  drm_block_alloc slab_ok p o f mm =
  Some (Some (next_block mm),
        set_heap (<[next_block mm := mkBlock (Z.lor f o) None None p]> (heap mm))
          (set_next (Pos.succ (next_block mm)) mm)).
Proof.
  unfold DRM_BUDDY_MAX_ORDER. intros Ho Hf Hm. unfold drm_block_alloc, st_bind, BUG_ON.
  assert ((63 - 12 <? o) = false) as E by (apply Z.ltb_ge; lia).
  unfold DRM_BUDDY_MAX_ORDER. rewrite E. cbn [st_ret st_get st_mod set_next next_block].
  rewrite slab_total. cbn [st_mod heap set_heap].
  destruct (fresh_header_facts o f None None p) as (_ & _ & _ & _ & ->); [lia|done|done|].
  done.
Qed.

Context (det : option (bid * bid)) (mm : drm_buddy) (b : bid) (B : drm_buddy_block).
Hypothesis (Hwf : wf det None mm) (Hb : heap mm !! b = Some B).
Hypothesis (Hfree : is_free B = true) (Hord : 0 < ord B).

Let o' := ord B - 1.
Let half := chunk_size mm * 2 ^ o'.
Let l := next_block mm.
Let r := Pos.succ (next_block mm).
Let child (f : Z) : drm_buddy_block := mkBlock (Z.lor f o') None None (Some b).
Let tagged (K : drm_buddy_block) : drm_buddy_block :=
  if is_clear B then clear_on (with_state DRM_BUDDY_FREE K)
  else with_state DRM_BUDDY_FREE K.
Let L := tagged (child (off B)).
Let R := tagged (child (off B + half)).
Let B1 := set_right (Some r) (set_left (Some l) B).
Let B' := with_state DRM_BUDDY_SPLIT (if is_clear B then clear_off B1 else B1).

Let geometry : 0 <= o' <= DRM_BUDDY_MAX_ORDER /\ bsz (chunk_size mm) B = 2 * half /\
  4096 <= half /\ 0 <= off B /\ off B + 2 * half < 2 ^ 64 /\
  off B mod 4096 = 0 /\ half mod 4096 = 0 /\ o' <= max_order mm - 1.
Proof.
  destruct (wf_blk _ _ _ Hwf _ _ Hb) as [Ho Hf Ha _ _].
  pose proof (wf_maxo _ _ _ Hwf). pose proof (wf_size _ _ _ Hwf).
  destruct (wf_chunk _ _ _ Hwf) as (c & Hc & Ec).
  pose proof (Z.pow_pos_nonneg 2 o' ltac:(lia) ltac:(lia)).
  assert (bsz (chunk_size mm) B = 2 * half) as E.
  { unfold bsz, half, o'. replace (ord B) with (Z.succ (ord B - 1)) at 1 by lia.
    rewrite Z.pow_succ_r by lia. lia. }
  assert (Hd : (4096 | half)).
  { unfold half. rewrite Ec. apply Z.divide_mul_l. exists (2 ^ (c - 12)).
    change 4096 with (2 ^ 12). rewrite <- Z.pow_add_r by lia. f_equal. lia. }
  assert (half mod 4096 = 0) by (apply Z.mod_divide; [lia|done]).
  assert (4096 <= half).
  { apply Z.divide_pos_le; [|done]. unfold half. rewrite Ec.
    pose proof (Z.pow_pos_nonneg 2 c). nia. }
  assert (off B mod 4096 = 0).
  { apply Z.mod_divide; [lia|]. rewrite E in Ha. apply Z.mod_divide in Ha; [|lia].
    etransitivity; [|exact Ha]. by apply Z.divide_mul_r. }
  unfold o'. split_and!; try done; lia.
Qed.

Let child_facts f : 0 <= f < 2 ^ 64 -> f mod 4096 = 0 ->
  off (tagged (child f)) = f /\ ord (tagged (child f)) = o' /\
  b_parent (tagged (child f)) = Some b /\ is_free (tagged (child f)) = true /\
  is_clear (tagged (child f)) = is_clear B.
Proof.
  intros Hf Hm. destruct geometry as (Ho & _). unfold DRM_BUDDY_MAX_ORDER in Ho.
  destruct (fresh_header_facts o' f None None (Some b) ltac:(lia) Hf Hm) as (E1 & E2 & _ & E4 & _).
  fold (child f) in E1, E2, E4. unfold tagged. destruct (is_clear B) eqn:Ec.
  - destruct (clear_on_facts (with_state DRM_BUDDY_FREE (child f))) as (-> & -> & Es & ->).
    rewrite off_with_state, ord_with_state by reflexivity.
    unfold is_free. rewrite Es, state_with_state by reflexivity. done.
  - rewrite off_with_state, ord_with_state, clear_with_state by reflexivity.
    unfold is_free. rewrite state_with_state by reflexivity. done.
Qed.

Let split_B' : off B' = off B /\ ord B' = ord B /\ b_parent B' = b_parent B /\
  b_left B' = Some l /\ b_right B' = Some r /\ is_split B' = true /\ is_clear B' = false.
Proof.
  unfold B'. rewrite off_with_state, ord_with_state, clear_with_state by reflexivity.
  assert (is_split (with_state DRM_BUDDY_SPLIT (if is_clear B then clear_off B1 else B1)) = true)
    by apply state_split.
  destruct (is_clear B) eqn:Ec; [|split_and!; done].
  destruct (clear_off_facts B1) as (-> & -> & _ & ->). split_and!; done.
Qed.

Let split_ne : b <> l /\ b <> r /\ l <> r.
Proof. pose proof (wf_fresh _ _ _ Hwf _ _ Hb). unfold l, r. lia. Qed.

(** The free lists [split_block] leaves. *)
Definition split_lists (f1 f2 : bid -> bool) (l0 l1 : list bid) : list (list bid) :=
  <[Z.to_nat (ord B) := filter (fun y => y <> b) l1]>
    (<[Z.to_nat o' := insert_before f2 r (insert_before f1 l l0)]> (free_list mm)).

Let split_fl mm' f1 f2 l0 l1 :
  heap mm' = <[b := B']> (<[r := R]> (<[l := L]> (heap mm))) ->
  free_list mm !! Z.to_nat o' = Some l0 -> free_list mm !! Z.to_nat (ord B) = Some l1 ->
  free_list mm' = split_lists f1 f2 l0 l1 ->
  (forall k, k ∈ l0 -> f1 k = (off B <? offset_of mm k)) ->
  (forall k, k ∈ l :: l0 -> f2 k = (off B + half <? offset_of mm' k)) ->
  forall o ls, free_list mm' !! o = Some ls -> fl_ok None mm' o ls.
Proof.
  intros Hh E0 E1 Ef Hf1 Hf2 o ls Hls.
  destruct geometry as (Ho & _ & _ & Hoff & Hoff2 & Hm & Hm2 & Hmax).
  destruct (child_facts (off B)) as (L1 & L2 & L3 & L4 & L5); [lia|done|]. fold L in L1, L2, L3, L4, L5.
  destruct (child_facts (off B + half)) as (R1 & R2 & R3 & R4 & R5); [lia|by rewrite Z.add_mod, Hm, Hm2|].
  fold R in R1, R2, R3, R4, R5.
  destruct split_B' as (B1' & B2' & _ & _ & _ & B3' & _).
  destruct split_ne as (N1 & N2 & N3).
  assert (forall k K, heap mm !! k = Some K -> k <> l /\ k <> r) as Hfr.
  { intros k K HK%(wf_fresh _ _ _ Hwf). unfold l, r. lia. }
  assert (heap mm !! l = None /\ heap mm !! r = None) as [Nl Nr].
  { split; apply eq_None_not_Some; intros [K HK]; by destruct (Hfr _ _ HK). }
  set (mid := set_heap (<[l := L]> (heap mm)) mm).
  assert (forall k, k <> l -> offset_of mid k = offset_of mm k) as Omid.
  { intros k Hk. unfold offset_of, mid. simpl. by rewrite lookup_insert_ne. }
  assert (forall k, is_Some (heap mm !! k) -> offset_of mm' k = offset_of mm k) as Omm.
  { intros k [K HK]. destruct (Hfr k K HK). unfold offset_of. rewrite Hh, HK.
    destruct (decide (k = b)) as [->|]; [|by rewrite !lookup_insert_ne, HK by congruence].
    rewrite lookup_insert_eq. congruence. }
  assert (forall o k, free_of_order None mid o k <-> free_of_order None mm o k \/ (k = l /\ o = Z.to_nat o')) as Fmid.
  { intros q k. unfold free_of_order, mid. simpl. destruct (decide (k = l)) as [->|Hk].
    - rewrite lookup_insert_eq, Nl. split.
      + intros (K & [= <-] & _ & E). right. split; [done|lia].
      + intros [(K & ? & _)|[_ ->]]; [done|]. exists L. split_and!; [done|by apply bst_none_free|lia].
    - rewrite lookup_insert_ne by done. naive_solver. }
  assert (forall o k, free_of_order None mm' o k <->
    (free_of_order None mid o k \/ (k = r /\ o = Z.to_nat o')) /\ k <> b) as Fmm.
  { intros q k. unfold free_of_order, mid. rewrite Hh. simpl.
    destruct (decide (k = b)) as [->|Hk].
    - rewrite lookup_insert_eq. split; [|naive_solver]. intros (K & [= <-] & E & _).
      rewrite bst_none_split in E; done.
    - rewrite lookup_insert_ne by done. destruct (decide (k = r)) as [->|Hkr].
      + rewrite lookup_insert_eq. rewrite lookup_insert_ne by congruence. rewrite Nr. split.
        * intros (K & [= <-] & _ & E). split; [right; split; [done|lia]|done].
        * intros [[(K & ? & _)|[_ ->]] _]; [done|].
          exists R. split_and!; [done|by apply bst_none_free|lia].
      + rewrite (lookup_insert_ne _ r) by done. naive_solver. }
  assert (free_of_order None mm (Z.to_nat (ord B)) b) as Fb.
  { exists B. split_and!; [done|by apply bst_none_free|lia]. }
  assert (forall q, free_of_order None mm q b -> q = Z.to_nat (ord B)) as Fb'.
  { intros q (K & HK & _ & E). assert (K = B) as -> by congruence. lia. }
  assert (Hin : forall q ls, free_list mm !! q = Some ls -> forall k, k ∈ ls ->
    is_Some (heap mm !! k)).
  { intros q ls' Hq k Hk. apply (wf_fl _ _ _ Hwf _ _ Hq) in Hk as (K & HK & _). eauto. }
  rewrite Ef in Hls. unfold split_lists in Hls.
  destruct (decide (o = Z.to_nat (ord B))) as [->|Hne].
  { rewrite list_lookup_insert_eq in Hls by (rewrite length_insert; apply lookup_lt_is_Some; eauto).
    injection Hls as <-. apply (fl_ok_del None None mm mm'); [by apply (wf_fl _ _ _ Hwf)| |].
    - intros k Hk. apply Omm. eauto.
    - intros k. rewrite Fmm, Fmid. assert (Z.to_nat (ord B) <> Z.to_nat o') by (unfold o'; lia).
      naive_solver. }
  rewrite list_lookup_insert_ne in Hls by done.
  destruct (decide (o = Z.to_nat o')) as [->|Hne'].
  - rewrite list_lookup_insert_eq in Hls by (apply lookup_lt_is_Some; eauto).
    injection Hls as <-.
    assert ((r ∉ l0) /\ (l ∉ l0)) as [Hr0 Hl0].
    { split; intros Hk; apply (Hin _ _ E0) in Hk as [K HK]; congruence. }
    assert (forall k, k ∈ l0 -> k <> l) as Hkl by (intros k Hk ->; done).
    apply (fl_ok_ins None None mid mm').
    + apply (fl_ok_ins None None mm mid); [by apply (wf_fl _ _ _ Hwf)| |done| |].
      * intros k Hk. apply Omid. auto.
      * intros k. rewrite Fmid. naive_solver.
      * intros k Hk. rewrite Hf1 by done. rewrite (Omid k) by auto.
        f_equal. unfold offset_of, mid. simpl. by rewrite lookup_insert_eq.
    + intros k [->|Hk]%elem_of_insert_before.
      * unfold offset_of, mid. rewrite Hh. simpl.
        rewrite !lookup_insert_ne, !lookup_insert_eq by congruence. done.
      * rewrite Omid by auto. apply Omm. eauto.
    + rewrite elem_of_insert_before. naive_solver.
    + intros k. rewrite Fmm. assert (free_of_order None mid (Z.to_nat o') k -> k <> b).
      { rewrite Fmid. intros [H|[-> _]]; [|done]. intros ->. apply Fb' in H. unfold o' in H. lia. }
      naive_solver.
    + intros k Hk. rewrite elem_of_insert_before in Hk. rewrite Hf2 by set_solver.
      f_equal. unfold offset_of. rewrite Hh, lookup_insert_ne, lookup_insert_eq by congruence.
      done.
  - rewrite list_lookup_insert_ne in Hls by done.
    apply (fl_ok_ext None None mm mm'); [by apply (wf_fl _ _ _ Hwf)| |].
    + intros k Hk. apply Omm. eauto.
    + intros k. rewrite Fmm, Fmid. assert (free_of_order None mm o k -> k <> b)
        by (intros H ->; by apply Fb' in H). naive_solver.
Qed.

Lemma clear_step K mm0 k :
  heap mm0 !! k = Some K ->
  mark_cleared k mm0 = Some (tt, set_heap (<[k := clear_on K]> (heap mm0)) mm0).
Proof. intros E. unfold mark_cleared, st_bind. by rewrite (get_block_run _ _ _ E), (put_block_run _ _ _ _ E). Qed.

Lemma clear_reset_step K mm0 k :
  heap mm0 !! k = Some K ->
  clear_reset k mm0 = Some (tt, set_heap (<[k := clear_off K]> (heap mm0)) mm0).
Proof. intros E. unfold clear_reset, st_bind. by rewrite (get_block_run _ _ _ E), (put_block_run _ _ _ _ E). Qed.

(** The state just before the clear bits are inherited. *)
Let split_run_alloc l0 :
  free_list mm !! Z.to_nat o' = Some l0 ->
  exists s f1 f2,
    split_block slab_ok b mm =
      st_bind (st_when (is_clear B1)
                 (st_bind (mark_cleared l) (fun _ => st_bind (mark_cleared r) (fun _ => clear_reset b))))
        (fun _ => st_bind (mark_split b) (fun _ => st_ret 0)) s /\
    heap s = <[r := with_state DRM_BUDDY_FREE (child (off B + half))]>
      (<[l := with_state DRM_BUDDY_FREE (child (off B))]> (<[b := B1]> (heap mm))) /\
    free_list s = <[Z.to_nat o' := insert_before f2 r (insert_before f1 l l0)]> (free_list mm) /\
    (forall k, k ∈ l0 -> f1 k = (off B <? offset_of mm k)) /\
    (forall k, k ∈ l :: l0 -> f2 k = (off B + half <? offset_of s k)) /\
    same_geometry mm s /\ avail s = avail mm /\ clear_avail s = clear_avail mm /\
    next_block s = Pos.succ r.
Proof.
  intros E0. destruct geometry as (Ho & _ & Hh & Hoff & Hoff2 & Hm & Hm2 & Hmax).
  destruct split_ne as (N1 & N2 & N3).
  assert (u32 (ord B - 1) = o') as Eo by (apply wrap_small; unfold DRM_BUDDY_MAX_ORDER in Ho; unfold o' in *; lia).
  assert (Hl0 : forall k, k ∈ l0 -> k <> l /\ k <> r /\ is_Some (heap mm !! k)).
  { intros k Hk. apply (wf_fl _ _ _ Hwf _ _ E0) in Hk as (K & HK & _).
    pose proof (wf_fresh _ _ _ Hwf _ _ HK). unfold l, r. split_and!; [lia|lia|eauto]. }
  destruct (child_facts (off B)) as (_ & _ & _ & _ & _); [lia|done|].
  assert (ord (child (off B)) = o' /\ off (child (off B)) = off B) as [OL FL].
  { destruct (fresh_header_facts o' (off B) None None (Some b)) as (? & ? & _); [unfold DRM_BUDDY_MAX_ORDER in Ho; lia|lia|done|done]. }
  assert (ord (child (off B + half)) = o' /\ off (child (off B + half)) = off B + half) as [OR FR].
  { destruct (fresh_header_facts o' (off B + half) None None (Some b)) as (? & ? & _);
      [unfold DRM_BUDDY_MAX_ORDER in Ho; lia|lia|by rewrite Z.add_mod, Hm, Hm2|done]. }
  assert (0 <= off B < 2 ^ 64 /\ 0 <= off B + half < 2 ^ 64) as [Q1 Q2] by lia.
  assert ((off B + half) mod 4096 = 0) as Q3 by (by rewrite Z.add_mod, Hm, Hm2).
  eexists _, _, _. split.
  - unfold split_block. rewrite (st_bind_run _ _ _ _ _ (get_block_run _ _ _ Hb)).
    rewrite (st_bind_run _ _ _ (chunk_size mm) mm) by done.
    rewrite Hfree, Eo. rewrite (st_bind_run _ _ _ tt mm) by done.
    assert ((ord B =? 0) = false) as Eob by (apply Z.eqb_neq; lia).
    rewrite (st_bind_run _ _ _ tt mm) by (by rewrite Eob).
    rewrite (st_bind_run _ _ _ _ _ (drm_block_alloc_run _ _ _ _ Ho Q1 Hm)). fold l.
    rewrite (st_bind_run _ _ _ B _) by (apply get_block_run; hlook).
    rewrite (st_bind_run _ _ _ tt _) by (eapply put_block_run; hlook).
    cbn [heap set_heap set_next].
    assert (u64 (off B + u64 (Z.shiftl (chunk_size mm) o')) = off B + half) as Er.
    { rewrite Z.shiftl_mul_pow2 by lia. fold half. rewrite (wrap_small 64 half) by lia.
      apply wrap_small. lia. }
    rewrite Er.
    rewrite (st_bind_run _ _ _ _ _ (drm_block_alloc_run _ _ _ _ Ho Q2 Q3)). cbn [next_block set_heap set_next heap].
    change (Pos.succ l) with r.
    rewrite (st_bind_run _ _ _ (set_left (Some l) B) _) by (apply get_block_run; hlook).
    rewrite (st_bind_run _ _ _ tt _) by (eapply put_block_run; hlook).
    cbn [heap set_heap set_next]. fold B1.
    erewrite (st_bind_run (mark_free l)).
    2:{ apply (mark_free_run _ l (child (off B)) l0); [hlook|rewrite OL; hlook|intros H; by destruct (Hl0 _ H)]. }
    cbn [heap set_heap set_next set_free_list free_list].
    erewrite (st_bind_run (mark_free r)).
    2:{ eapply (mark_free_run _ r (child (off B + half))); [hlook| |].
        - rewrite OR, OL. cbn [heap set_heap set_next set_free_list free_list].
          rewrite list_lookup_insert_eq by (apply lookup_lt_is_Some; eauto). done.
        - rewrite elem_of_insert_before. intros [?|H]; [congruence|by destruct (Hl0 _ H) as (_ & ? & _)]. }
    cbn [heap set_heap set_next set_free_list free_list].
    rewrite (st_bind_run (get_block b) _ _ B1 _) by (apply get_block_run; hlook).
    reflexivity.
  - cbn [heap set_heap set_next set_free_list free_list avail clear_avail next_block].
    rewrite OL, OR, FL, FR, list_insert_insert_eq. fold l r.
    split_and!; [|done| | |by constructor|done|done|done].
    + apply map_eq. intros k.
      destruct (decide (k = r)) as [->|]; [by hmap|].
      destruct (decide (k = l)) as [->|]; [by hmap|].
      destruct (decide (k = b)) as [->|]; by hmap.
    + intros k Hk. destruct (Hl0 k Hk) as (K1 & K2 & [K HK]). f_equal.
      unfold offset_of. cbn [heap set_heap set_next].
      rewrite (lookup_insert_ne _ l), HK by done.
      destruct (decide (k = b)) as [->|].
      * rewrite lookup_insert_eq. assert (K = B) as -> by congruence. done.
      * rewrite !lookup_insert_ne by done. by rewrite HK.
    + intros k Hk. f_equal.
Qed.

(** The state after the inheritance of the clear bits and [mark_split]. *)
Let split_run_finish s l0 l1 f1 f2 :
  free_list mm !! Z.to_nat (ord B) = Some l1 -> b ∈ l1 ->
  heap s = <[r := with_state DRM_BUDDY_FREE (child (off B + half))]>
      (<[l := with_state DRM_BUDDY_FREE (child (off B))]> (<[b := B1]> (heap mm))) ->
  free_list s = <[Z.to_nat o' := insert_before f2 r (insert_before f1 l l0)]> (free_list mm) ->
  same_geometry mm s ->
  exists s',
    st_bind (st_when (is_clear B1)
               (st_bind (mark_cleared l) (fun _ => st_bind (mark_cleared r) (fun _ => clear_reset b))))
      (fun _ => st_bind (mark_split b) (fun _ => st_ret 0)) s = Some (0, s') /\
    heap s' = <[b := B']> (<[r := R]> (<[l := L]> (heap mm))) /\
    free_list s' = split_lists f1 f2 l0 l1 /\
    same_geometry mm s' /\ avail s' = avail s /\ clear_avail s' = clear_avail s /\
    next_block s' = next_block s /\
    (forall k, k <> l -> k <> r -> k <> b -> heap s' !! k = heap s !! k).
Proof.
  intros E1 Hb1 Hh Hf Hg. destruct split_ne as (N1 & N2 & N3).
  destruct geometry as (Ho & _).
  set (B2 := if is_clear B then clear_off B1 else B1).
  set (s1 := set_heap (<[b := B2]> (<[r := R]> (<[l := L]> (heap s)))) s).
  assert (heap s !! l = Some (with_state DRM_BUDDY_FREE (child (off B)))) as Sl
    by (rewrite Hh; by hmap).
  assert (heap s !! r = Some (with_state DRM_BUDDY_FREE (child (off B + half)))) as Sr
    by (rewrite Hh; by hmap).
  assert (heap s !! b = Some B1) as Sb by (rewrite Hh; by hmap).
  assert (st_when (is_clear B1)
    (st_bind (mark_cleared l) (fun _ => st_bind (mark_cleared r) (fun _ => clear_reset b))) s
    = Some (tt, s1)) as Erun.
  { unfold st_when, s1, B2, L, R, tagged. change (is_clear B1) with (is_clear B).
    destruct (is_clear B).
    - rewrite (st_bind_run _ _ _ _ _ (clear_step _ _ _ Sl)).
      erewrite (st_bind_run (mark_cleared r)) by (apply clear_step; hlook).
      erewrite clear_reset_step by hlook. done.
    - rewrite (insert_id (heap s) l), (insert_id (heap s) r), (insert_id (heap s) b) by done.
      unfold st_ret. by destruct s. }
  rewrite (st_bind_run _ _ _ _ _ Erun).
  assert (ord B2 = ord B) as EB2.
  { unfold B2. destruct (is_clear B); [|done]. destruct (clear_off_facts B1) as (_ & -> & _). done. }
  assert (Z.to_nat (ord B) <> Z.to_nat o') as Hne by (unfold o' in *; lia).
  erewrite (st_bind_run (mark_split b)).
  2:{ apply (mark_state_del_run _ s1 b B2 l1); [done|unfold s1; hlook| |done].
      rewrite EB2. unfold s1. cbn [free_list set_heap]. rewrite Hf, list_lookup_insert_ne by done. done. }
  rewrite EB2. eexists. split; [reflexivity|].
  unfold s1. cbn [heap set_heap set_free_list free_list avail clear_avail next_block].
  split_and!; try done.
  - rewrite Hh. apply map_eq. intros k.
    destruct (decide (k = r)) as [->|]; [by hmap|].
    destruct (decide (k = l)) as [->|]; [by hmap|].
    destruct (decide (k = b)) as [->|]; by hmap.
  - by rewrite Hf.
  - destruct Hg. by constructor.
  - intros k Hk1 Hk2 Hk3. by hmap.
Qed.

Lemma split_block_spec :
  exists mm', split_block slab_ok b mm = Some (0, mm') /\ wf det None mm' /\
    split_of mm b B mm' l r.
Proof.
  destruct geometry as (Ho & Esz & Hh & Hoff & Hoff2 & Hm & Hm2 & Hmax).
  destruct split_ne as (N1 & N2 & N3). destruct split_B' as (B1' & B2' & B3' & B4' & B5' & B6' & B7').
  destruct (wf_free_list mm o' Hwf ltac:(lia)) as (l0 & E0 & Hl0).
  destruct (wf_on_free_list mm b B Hwf Hb (bst_none_free b B Hfree)) as (l1 & E1 & Hl1 & Hin).
  destruct (split_run_alloc l0 E0) as (s & f1 & f2 & -> & Eh & Ef & Hf1 & Hf2 & Hg & Ea & Ec & En).
  destruct (split_run_finish s l0 l1 f1 f2 E1 Hin Eh Ef Hg) as
    (mm' & -> & Eh' & Ef' & Hg' & Ea' & Ec' & En' & Hsame).
  destruct (child_facts (off B)) as (L1 & L2 & L3 & L4 & L5); [lia|done|]. fold L in L1, L2, L3, L4, L5.
  destruct (child_facts (off B + half)) as (R1 & R2 & R3 & R4 & R5); [lia|by rewrite Z.add_mod, Hm, Hm2|].
  fold R in R1, R2, R3, R4, R5.
  assert (heap mm' !! b = Some B' /\ heap mm' !! l = Some L /\ heap mm' !! r = Some R) as (Hb' & Hl' & Hr')
    by (rewrite Eh'; split_and!; by hmap).
  assert (forall k, (next_block mm <= k)%positive -> heap mm !! k = None) as Hnone.
  { intros k Hk. apply eq_None_not_Some. intros [K HK%(wf_fresh _ _ _ Hwf)]. lia. }
  assert (forall k, k ∈ l :: l0 -> f2 k = (off B + half <? offset_of mm' k)) as Hf2'.
  { intros k Hk. rewrite Hf2 by done. f_equal. apply elem_of_cons in Hk as [->|Hk].
    - unfold offset_of. rewrite Hl', Eh. hmap. rewrite off_with_state, L1 by done.
      destruct (fresh_header_facts o' (off B) None None (Some b)) as (? & _);
        [unfold DRM_BUDDY_MAX_ORDER in Ho; lia|lia|done|done].
    - apply Hl0 in Hk as (K & HK & _). pose proof (wf_fresh _ _ _ Hwf _ _ HK).
      unfold offset_of. destruct (decide (k = b)) as [->|].
      + rewrite Hb', Eh. hmap. done.
      + rewrite Hsame; [done|unfold l; lia|unfold r; lia|done]. }
  exists mm'. split; [done|]. split.
  - apply (wf_split_step det mm mm' b l r B B' L R); auto using bst_none_free; try congruence;
      try (unfold l, r in *; rewrite ?En', ?En; unfold r; lia).
    + split_and!; try done. by apply bst_none_split.
    + split_and!; try done. by apply bst_none_free.
    + split_and!; try done; [|by apply bst_none_free]. rewrite R1. unfold bsz. by rewrite L2.
    + rewrite Ef'. unfold split_lists. by rewrite !length_insert.
    + by apply (split_fl mm' f1 f2 l0 l1).
  - split; [| | | |split_and!; try (apply Hnone; unfold l, r; lia); done|done|congruence|congruence].
    + eauto 10.
    + exists L. auto 10.
    + exists R. split_and!; auto.
    + intros k Hkb Hkl Hkr. rewrite Eh'. by hmap.
Qed.
End SplitRun.

(** ** Returning a block: the merge loop *)

Lemma bst_other_free x c y Y : y <> x -> is_free Y = true -> bst (Some (x, c)) y Y = SFree.
Proof.
  intros Hne Hf. rewrite <- (bst_none_free y Y Hf).
  by apply (bst_other x); auto with buddy.
Qed.
Lemma bst_other_inv x c y Y :
  bst (Some (x, c)) y Y = SFree \/ bst (Some (x, c)) y Y = SSplit -> y <> x.
Proof. intros H ->. rewrite bst_trans in H. by destruct H. Qed.

(** Whether a block in transit is counted as clear only matters if it is. *)
Lemma wf_tr_flag mm x X c c' :
  wf None (Some (x, c)) mm -> heap mm !! x = Some X -> is_clear X = false ->
  wf None (Some (x, c')) mm.
Proof.
  intros Hwf Hx Hc.
  apply (wf_retag None (Some (x, c)) (Some (x, c')) mm mm x X X); rewrite ?bst_trans;
    auto with buddy; try done.
  - by rewrite insert_id.
  - intros o l Hl. eapply (fl_same None (Some (x, c)) (Some (x, c')) mm mm x X X);
      rewrite ?bst_trans; auto with buddy; try done. by rewrite insert_id.
  - unfold fsz. rewrite !bst_trans. lia.
  - unfold csz. rewrite !bst_trans, Hc. simpl. lia.
Qed.

Section FreeStep.
Context (force c : bool) (mm : drm_buddy) (x p : bid) (X : drm_buddy_block).
Hypothesis (Hwf : wf None (Some (x, c)) mm) (Hx : heap mm !! x = Some X).
Hypothesis (Hp : b_parent X = Some p) (Hnf : force = false -> c = true).
Hypothesis (Hf : force = true -> c = false \/ is_clear X = false).

(** The parent and the buddy the loop finds. *)
Lemma free_step_buddy :
  exists y Y P, __get_buddy x mm = Some (Some y, mm) /\ heap mm !! y = Some Y /\
    heap mm !! p = Some P /\ bst (Some (x, c)) p P = SSplit /\ y <> x /\
    ((b_left P = Some x /\ b_right P = Some y) \/ (b_left P = Some y /\ b_right P = Some x)).
Proof using Hwf Hx Hp.
  clear -Hwf Hx Hp.
  destruct (wf_parent _ _ _ Hwf x X p Hx Hp) as (P & HP & HS & Hc).
  destruct (wf_split _ _ _ Hwf p P HP HS) as (l & r & L & R & El & Er & HL & HR & PL & PR & OL & OR & FL & FR).
  assert (l <> r) as Hlr.
  { intros ->. assert (L = R) as -> by congruence. pose proof (bsz_pos mm r R Hwf HR). lia. }
  unfold __get_buddy, st_bind. rewrite (get_block_run _ _ _ Hx), Hp, (get_block_run _ _ _ HP).
  destruct (decide (l = x)) as [->|Hne].
  - exists r, R, P. rewrite bool_decide_eq_true_2, Er by done. split_and!; auto.
  - exists l, L, P. rewrite bool_decide_eq_false_2, El by congruence.
    split_and!; auto. right. split; [done|]. destruct Hc; congruence.
Qed.

Context (y : bid) (Y P : drm_buddy_block).
Hypothesis (Hy : heap mm !! y = Some Y) (HP : heap mm !! p = Some P).
Hypothesis (HsP : bst (Some (x, c)) p P = SSplit) (Hyx : y <> x).
Hypothesis (Hkids : (b_left P = Some x /\ b_right P = Some y) \/
                    (b_left P = Some y /\ b_right P = Some x)).
Hypothesis (Hfree : is_free Y = true) (Hclear : force = false -> is_clear X = is_clear Y).

Let P' := if negb force && is_clear X then clear_on P else P.
Let d := if force && is_clear Y then bsz (chunk_size mm) Y else 0.

Let free_P' : off P' = off P /\ ord P' = ord P /\ b_parent P' = b_parent P /\
  drm_buddy_block_state P' = drm_buddy_block_state P /\
  is_clear P' = negb force && is_clear X.
Proof.
  unfold P'. destruct (negb force && is_clear X) eqn:E.
  - destruct (clear_on_facts P) as (-> & -> & -> & ->). done.
  - pose proof (bk_clear _ _ _ _ (wf_blk _ _ _ Hwf _ _ HP) HsP). done.
Qed.

Let free_ne : x <> p /\ y <> p.
Proof.
  pose proof (bst_other_free x c y Y Hyx Hfree). split; intros E; subst.
  - rewrite bst_trans in HsP. done.
  - congruence.
Qed.

(** The state after the loop body, and the run that reaches it. *)
Definition free_step_state (l : list bid) : drm_buddy :=
  mkBuddy (delete y (delete x (<[p := P']> (heap mm)))) (next_block mm)
    (<[Z.to_nat (ord Y) := filter (fun k => k <> y) l]> (free_list mm))
    (roots mm) (n_roots mm) (max_order mm) (chunk_size mm) (mm_size mm)
    (avail mm) (clear_avail mm - d).

Lemma free_step_run {A} (k : stM drm_buddy A) l :
  free_list mm !! Z.to_nat (ord Y) = Some l -> y ∈ l -> d <= clear_avail mm ->
  st_bind (st_when (negb force && is_clear X) (mark_cleared p)) (fun _ =>
  st_bind (list_del_free y) (fun _ =>
  st_bind (block_size y) (fun sz =>
  st_bind (st_when (force && is_clear Y) (clear_avail_add (- sz))) (fun _ =>
  st_bind (drm_block_free x) (fun _ =>
  st_bind (drm_block_free y) (fun _ => k)))))) mm = k (free_step_state l).
Proof.
  intros El Hin Hd. destruct free_ne as [Nx Ny].
  pose proof (block_size_bsz mm y Y Hwf Hy) as Esz. pose proof (wf_avail_bounds mm Hwf).
  pose proof (wf_size _ _ _ Hwf). pose proof (bsz_pos mm y Y Hwf Hy).
  rewrite (st_bind_run _ _ mm tt (set_heap (<[p := P']> (heap mm)) mm)).
  2:{ unfold P', st_when. destruct (negb force && is_clear X).
      - by apply clear_step.
      - rewrite insert_id by done. unfold st_ret. by destruct mm. }
  erewrite (st_bind_run (list_del_free y)) by (eapply list_del_free_run; [hlook|exact El|done]).
  erewrite (st_bind_run (block_size y)) by (apply block_size_run; hlook).
  change (drm_buddy_block_size _ Y) with (drm_buddy_block_size mm Y). rewrite Esz.
  erewrite (st_bind_run (st_when _ _) _ _ tt).
  2:{ instantiate (1 := mkBuddy (<[p := P']> (heap mm)) (next_block mm)
        (<[Z.to_nat (ord Y) := filter (fun k => k <> y) l]> (free_list mm))
        (roots mm) (n_roots mm) (max_order mm) (chunk_size mm) (mm_size mm)
        (avail mm) (clear_avail mm - d)).
      unfold st_when, clear_avail_add, st_mod, st_ret, set_clear_avail, d.
      destruct (force && is_clear Y); cbn [clear_avail heap set_heap set_free_list next_block
        free_list roots n_roots max_order chunk_size mm_size avail].
      - rewrite wrap_small by (unfold d in Hd; lia). do 3 f_equal.
      - rewrite Z.sub_0_r. reflexivity. }
  unfold drm_block_free, st_bind, st_mod. rewrite (get_block_run _ x X) by hlook.
  cbn [heap set_heap set_free_list]. erewrite (get_block_run _ y Y).
  - reflexivity.
  - cbn [heap set_heap]. rewrite lookup_delete_ne, lookup_insert_ne by congruence. done.
Qed.

Lemma free_step_wf :
  exists l, free_list mm !! Z.to_nat (ord Y) = Some l /\ y ∈ l /\ d <= clear_avail mm /\
    wf None (Some (p, true)) (free_step_state l).
Proof.
  destruct free_ne as [Nx Ny]. destruct free_P' as (P1 & P2 & P3 & P4 & P5).
  pose proof (bst_other_free x c y Y Hyx Hfree) as HsY.
  destruct (wf_on_free_list mm y Y Hwf Hy HsY) as (l & El & Hl & Hin).
  exists l. split; [done|]. split; [done|].
  destruct (merge_halves c mm x y p X Y P Hwf Hx Hy HP HsP Hkids) as (OX & OY & PY & EP & EY & Hoffs).
  assert (csz (Some (x, c)) (chunk_size mm) y Y = if is_clear Y then bsz (chunk_size mm) Y else 0) as CY
    by (unfold csz; by rewrite HsY).
  assert (csz (Some (x, c)) (chunk_size mm) x X = if is_clear X && c then bsz (chunk_size mm) X else 0) as CX
    by (unfold csz; by rewrite bst_trans).
  split.
  { rewrite (wf_clear_avail _ _ _ Hwf). pose proof (wf_chunk_pos mm Hwf).
    transitivity (csz (Some (x, c)) (chunk_size mm) y Y).
    - rewrite CY. unfold d. pose proof (bsz_pos mm y Y Hwf Hy). destruct force, (is_clear Y); simpl; lia.
    - apply (msum_ge (csz (Some (x, c)) (chunk_size mm))); [|done]. intros k K HK.
      pose proof (bk_ord _ _ _ _ (wf_blk _ _ _ Hwf _ _ HK)).
      pose proof (csz_le_fsz (tr := Some (x, c)) (chunk_size mm) k K). lia. }
  eapply (wf_merge_step c true mm (free_step_state l) x y p X Y P P'); try done.
  - simpl. by rewrite length_insert.
  - intros o ls Hls. simpl in Hls.
    assert (forall k, k <> x -> k <> y -> offset_of (free_step_state l) k = offset_of mm k) as Hoff.
    { intros k Kx Ky. unfold offset_of. simpl. rewrite !lookup_delete_ne by congruence.
      destruct (decide (k = p)) as [->|]; [by rewrite lookup_insert_eq, HP|].
      by rewrite lookup_insert_ne. }
    assert (forall q k, free_of_order (Some (p, true)) (free_step_state l) q k <->
      free_of_order (Some (x, c)) mm q k /\ k <> y) as Hfree'.
    { intros q k. unfold free_of_order. simpl. destruct (decide (k = y)) as [->|Ky].
      { rewrite lookup_delete_eq. naive_solver. }
      rewrite lookup_delete_ne by congruence. destruct (decide (k = x)) as [->|Kx].
      { rewrite lookup_delete_eq, Hx. split; [naive_solver|]. intros [(K & [= <-] & E & _) _].
        by rewrite bst_trans in E. }
      rewrite lookup_delete_ne by congruence. destruct (decide (k = p)) as [->|Kp].
      { rewrite lookup_insert_eq, HP. split.
        - intros (K & [= <-] & E & _). by rewrite bst_trans in E.
        - intros [(K & [= <-] & E & _) _]. congruence. }
      rewrite lookup_insert_ne by done.
      assert (forall K, bst (Some (p, true)) k K = bst (Some (x, c)) k K) as E.
      { intros K. unfold bst. simpl. by rewrite !decide_False by congruence. }
      setoid_rewrite E. naive_solver. }
    assert (forall q ls', free_list mm !! q = Some ls' -> forall k, k ∈ ls' -> k <> x) as Hnx.
    { intros q ls' Hq k Hk ->. apply (wf_fl _ _ _ Hwf _ _ Hq) in Hk as (K & _ & E & _).
      by rewrite bst_trans in E. }
    destruct (decide (o = Z.to_nat (ord Y))) as [->|Ho].
    + rewrite list_lookup_insert_eq in Hls by (apply lookup_lt_is_Some; eauto).
      injection Hls as <-.
      assert (forall k, offset_of (free_step_state l) k = offset_of mm k \/ k = x \/ k = y) as Hoff'.
      { intros k. destruct (decide (k = x)); [auto|]. destruct (decide (k = y)); auto. }
      split_and!.
      * by apply NoDup_filter, Hl.
      * destruct Hl as (_ & Hso & _). apply (StronglySorted_filter _ (fun k => k <> y)) in Hso.
        assert (forall k, k ∈ filter (fun k => k <> y) l -> k <> x /\ k <> y) as Hno.
        { intros k [? ?]%elem_of_list_del. eauto. }
        clear -Hso Hno Hoff. induction Hso as [|k ls Hs IH HF]; constructor.
        -- apply IH. intros; apply Hno; set_solver.
        -- rewrite Forall_forall in HF |- *. intros j Hj.
           destruct (Hno k ltac:(set_solver)), (Hno j ltac:(set_solver)).
           rewrite !Hoff by done. by apply HF.
      * intros k. rewrite elem_of_list_del, Hfree'. destruct Hl as (_ & _ & ->). tauto.
    + rewrite list_lookup_insert_ne in Hls by done.
      assert (y ∉ ls) as Hyn.
      { intros Hk. apply (wf_fl _ _ _ Hwf _ _ Hls) in Hk as (K & HK & _ & E).
        assert (K = Y) as -> by congruence. lia. }
      apply (fl_ok_ext (Some (x, c)) (Some (p, true)) mm); [by apply (wf_fl _ _ _ Hwf)| |].
      * intros k Hk. apply Hoff; [by eapply Hnx|]. congruence.
      * intros k. rewrite Hfree'. split; [tauto|]. intros Hk. split; [done|]. intros ->.
        destruct Hk as (K & HK & _ & E). assert (K = Y) as -> by congruence. lia.
  - simpl. rewrite CX, CY. unfold csz at 1. rewrite bst_trans. simpl. rewrite P5.
    assert (bsz (chunk_size mm) P' = bsz (chunk_size mm) P) as -> by (unfold bsz; congruence).
    unfold d. rewrite EP, EY. destruct force; simpl.
    + destruct (Hf eq_refl) as [->| ->]; rewrite ?andb_false_r; simpl; destruct (is_clear Y); lia.
    + rewrite (Hnf eq_refl), <- (Hclear eq_refl). destruct (is_clear X); simpl; lia.
Qed.

Lemma free_step_result l :
  heap (free_step_state l) !! p = Some P' /\ ord P' = ord X + 1 /\
  (force = true -> is_clear P' = false) /\
  same_geometry mm (free_step_state l) /\ avail (free_step_state l) = avail mm /\
  allocs (free_step_state l) = delete x (allocs mm) /\ allocs mm !! p = None /\
  allocs (free_step_state l) !! p = None.
Proof.
  destruct free_ne as [Nx Ny]. destruct free_P' as (P1 & P2 & P3 & P4 & P5).
  destruct (merge_halves c mm x y p X Y P Hwf Hx Hy HP HsP Hkids) as (OX & _).
  assert (is_alloc P = false /\ is_alloc P' = false /\ is_alloc Y = false) as (A1 & A2 & A3).
  { assert (is_alloc P' = is_alloc P) as -> by (unfold is_alloc; congruence).
    assert (bst None p P = SSplit) as E.
    { rewrite <- HsP. apply (bst_other x); auto with buddy. }
    pose proof (bst_none_inv p P) as E1. rewrite E in E1.
    pose proof (bst_none_inv y Y) as E2. rewrite (bst_none_free y Y Hfree) in E2. tauto. }
  assert (heap (free_step_state l) !! p = Some P') as Hp'.
  { simpl. rewrite !lookup_delete_ne by congruence. apply lookup_insert_eq. }
  split_and!; try done.
  - lia.
  - intros E. by rewrite P5, E.
  - apply map_eq. intros k. unfold allocs. simpl. rewrite !lookup_omap.
    destruct (decide (k = x)) as [->|Kx].
    { rewrite lookup_delete_eq. destruct (decide (x = y)) as [->|]; [done|].
      by rewrite lookup_delete_ne, lookup_delete_eq by congruence. }
    rewrite (lookup_delete_ne _ x), lookup_omap by congruence.
    destruct (decide (k = y)) as [->|Ky].
    { rewrite lookup_delete_eq, Hy. simpl. by rewrite A3. }
    rewrite !lookup_delete_ne by congruence. destruct (decide (k = p)) as [->|].
    { rewrite lookup_insert_eq, HP. simpl. by rewrite A1, A2. }
    by rewrite lookup_insert_ne by done.
  - rewrite (allocs_lookup _ _ _ HP). by rewrite A1.
  - rewrite (allocs_lookup _ _ _ Hp'). by rewrite A2.
Qed.
End FreeStep.
