(* ===== verification/BuddyFree.v ===== *)
(** * The DRM buddy allocator: freeing

    Correctness of [__drm_buddy_free], [drm_buddy_free_block], the free-list
    walk and [__force_merge]: run on a well-formed state they return, keep it
    well formed and drop exactly the freed blocks from what is handed out. *)

From S2P Require Import Prelude Buddy BuddyInv BuddyOps.
From stdpp Require Import gmap list sorting.
From Stdlib Require Import ZArith Lia.

Local Open Scope Z_scope.

(** ** The merge loop *)

Section FreeLoop.
Context (force : bool).

Lemma free_loop_unfold fuel x X p mm y Y :
  heap mm !! x = Some X -> b_parent X = Some p ->
  __get_buddy x mm = Some (Some y, mm) -> heap mm !! y = Some Y ->
  __drm_buddy_free_loop (S fuel) x force mm =
  if negb (is_free Y) then Some (x, mm)
  else if negb force && negb (eqb (is_clear X) (is_clear Y)) then Some (x, mm)
  else st_bind (st_when (negb force && is_clear X) (mark_cleared p)) (fun _ =>
       st_bind (list_del_free y) (fun _ =>
       st_bind (block_size y) (fun sz =>
       st_bind (st_when (force && is_clear Y) (clear_avail_add (- sz))) (fun _ =>
       st_bind (drm_block_free x) (fun _ =>
       st_bind (drm_block_free y) (fun _ => __drm_buddy_free_loop fuel p force)))))) mm.
Proof.
  intros Hx Hp Hg Hy. cbn [__drm_buddy_free_loop].
  rewrite (st_bind_run _ _ _ _ _ (get_block_run _ _ _ Hx)), Hp.
  rewrite (st_bind_run _ _ _ _ _ Hg).
  rewrite (st_bind_run _ _ mm y mm) by done.
  rewrite (st_bind_run _ _ _ _ _ (get_block_run _ _ _ Hy)).
  destruct (is_free Y); [|done]. cbn [negb].
  by destruct (negb force && negb (eqb (is_clear X) (is_clear Y))).
Qed.

(** What the loop guarantees when it ends at [z]. *)
Definition loop_post (mm : drm_buddy) (x : bid) (X : drm_buddy_block) (z : bid)
    (mm' : drm_buddy) : Prop :=
  wf None (Some (z, true)) mm' /\
  (exists Zb, heap mm' !! z = Some Zb /\ ord X <= ord Zb) /\
  same_geometry mm mm' /\ avail mm' = avail mm /\
  delete z (allocs mm') = delete x (allocs mm) /\
  (forall k K, heap mm !! k = Some K -> ord K < ord X -> heap mm' !! k = Some K).

(** One merge, when the loop takes it. *)
Lemma free_loop_merge fuel x X p y Y P c mm :
  wf None (Some (x, c)) mm -> heap mm !! x = Some X -> b_parent X = Some p ->
  (force = false -> c = true) -> (force = true -> c = false \/ is_clear X = false) ->
  heap mm !! y = Some Y -> heap mm !! p = Some P -> bst (Some (x, c)) p P = SSplit -> y <> x ->
  (b_left P = Some x /\ b_right P = Some y) \/ (b_left P = Some y /\ b_right P = Some x) ->
  __get_buddy x mm = Some (Some y, mm) ->
  is_free Y = true -> (force = false -> is_clear X = is_clear Y) ->
  exists mm1 P',
    __drm_buddy_free_loop (S fuel) x force mm = __drm_buddy_free_loop fuel p force mm1 /\
    wf None (Some (p, true)) mm1 /\ heap mm1 !! p = Some P' /\ ord P' = ord X + 1 /\
    (force = true -> is_clear P' = false) /\ same_geometry mm mm1 /\ avail mm1 = avail mm /\
    allocs mm1 = delete x (allocs mm) /\ allocs mm1 !! p = None /\
    (forall k K, heap mm !! k = Some K -> k <> x -> k <> y -> ord K <= ord X ->
                 heap mm1 !! k = Some K).
Proof.
  intros Hwf Hx Hp Hnf Hf Hy HP HsP Hyx Hkids Hg Hfree Hclear.
  destruct (free_step_wf force c mm x p X Hwf Hx Hp Hnf Hf y Y P Hy HP HsP Hyx Hkids Hfree Hclear)
    as (l & El & Hin & Hd & Hwf').
  destruct (free_step_result force c mm x p X Hwf Hx y Y P Hy HP HsP Hyx Hkids Hfree l)
    as (Hp' & Ho' & Hc' & Hgeo & Hav & Hal & _ & Hal').
  assert (forall k K, heap mm !! k = Some K -> k <> x -> k <> y -> ord K <= ord X ->
    heap (free_step_state force mm x p X y Y P l) !! k = Some K) as Hframe.
  { intros k K HK Kx Ky Ho. simpl. rewrite !lookup_delete_ne by congruence.
    destruct (decide (k = p)) as [->|]; [|by rewrite lookup_insert_ne].
    assert (K = P) as -> by congruence.
    destruct (merge_halves c mm x y p X Y P Hwf Hx Hy HP HsP Hkids) as (? & _). lia. }
  eexists _, _. split; [|split_and!; eauto].
  rewrite (free_loop_unfold fuel x X p mm y Y) by done. rewrite Hfree. cbn [negb].
  assert (negb force && negb (eqb (is_clear X) (is_clear Y)) = false) as ->.
  { destruct force; [done|]. rewrite (Hclear eq_refl). by rewrite eqb_reflx. }
  by apply (free_step_run force c mm x p X Hwf Hx y Y P).
Qed.

Lemma free_loop_spec fuel x X c mm :
  wf None (Some (x, c)) mm -> heap mm !! x = Some X ->
  (Z.to_nat (max_order mm - ord X) < fuel)%nat ->
  (force = false -> c = true) -> (force = true -> is_clear X = false) ->
  exists z mm', __drm_buddy_free_loop fuel x force mm = Some (z, mm') /\ loop_post mm x X z mm'.
Proof.
  revert x X c mm. induction fuel as [|fuel IH]; intros x X c mm Hwf Hx Hfuel Hnf Hf; [lia|].
  assert (loop_post mm x X x mm) as Hstop.
  { split_and!; [|by exists X; split; [|lia]|done|done|done|done].
    destruct force; [eapply wf_tr_flag; eauto|]. by rewrite (Hnf eq_refl) in Hwf. }
  destruct (b_parent X) as [p|] eqn:Hp.
  2:{ exists x, mm. split; [|done]. cbn [__drm_buddy_free_loop].
      by rewrite (st_bind_run _ _ _ _ _ (get_block_run _ _ _ Hx)), Hp. }
  destruct (free_step_buddy c mm x p X Hwf Hx Hp) as (y & Y & P & Hg & Hy & HP & HsP & Hyx & Hkids).
  destruct (is_free Y && (force || eqb (is_clear X) (is_clear Y))) eqn:E.
  - apply andb_true_iff in E as [Hfree Hcl].
    destruct (free_loop_merge fuel x X p y Y P c mm) as
      (mm1 & P' & -> & Hwf1 & Hp1 & Ho1 & Hc1 & Hg1 & Ha1 & Hal1 & Hal1' & Hfr1); auto.
    { intros ->. by apply eqb_prop. }
    assert (ord P' <= max_order mm1) as Hmax by apply (bk_ord _ _ _ _ (wf_blk _ _ _ Hwf1 _ _ Hp1)).
    destruct Hg1 as [R1 R2 R3 R4].
    destruct (IH p P' true mm1) as (z & mm' & Erun & Hw & (Zb & Hz & Hoz) & Hg' & Ha' & Hd' & Hfr'); auto.
    { rewrite R2 in *. lia. }
    exists z, mm'. split; [done|]. split_and!; auto; [| |congruence| |].
    + exists Zb. split; [done|lia].
    + by transitivity mm1.
    + rewrite Hd', delete_id, Hal1 by done. done.
    + intros k K HK Ho. apply Hfr'; [|lia]. apply Hfr1; try done; try lia.
      * intros ->. assert (K = X) as -> by congruence. lia.
      * intros ->. assert (K = Y) as -> by congruence.
        destruct (merge_halves c mm x y p X Y P Hwf Hx Hy HP HsP Hkids) as (? & ? & _). lia.
  - exists x, mm. split; [|done]. rewrite (free_loop_unfold fuel x X p mm y Y) by done.
    destruct (is_free Y); [|done]. simpl in *. destruct force; [done|]. simpl in *. by rewrite E.
Qed.
End FreeLoop.

(** ** [__drm_buddy_free] *)

Lemma finish_free mm x X :
  wf None (Some (x, true)) mm -> heap mm !! x = Some X ->
  exists mm', mark_free x mm = Some (tt, mm') /\ wf None None mm' /\ same_geometry mm mm' /\
    avail mm' = avail mm /\ allocs mm' = delete x (allocs mm) /\
    (forall k, k <> x -> heap mm' !! k = heap mm !! k).
Proof.
  intros Hwf Hx. pose proof (bk_ord _ _ _ _ (wf_blk _ _ _ Hwf _ _ Hx)) as Ho.
  destruct (wf_free_list mm (ord X) Hwf Ho) as (l & El & Hl).
  assert (x ∉ l) as Hn by (eapply fl_ok_not_elem; eauto; by rewrite bst_trans).
  eexists. split; [by apply mark_free_run|].
  set (X' := with_state DRM_BUDDY_FREE X).
  assert (bst None x X' = SFree) as Hs by (apply bst_none_free, state_free).
  assert (off X' = off X /\ ord X' = ord X /\ is_clear X' = is_clear X) as (F1 & F2 & F3).
  { unfold X'. by rewrite off_with_state, ord_with_state, clear_with_state. }
  split_and!; [|done|done| |by intros k Hk; simpl; rewrite lookup_insert_ne].
  2:{ eapply allocs_insert_other; [reflexivity|].
      pose proof (bst_none_inv x X') as E. rewrite Hs in E. tauto. }
  eapply (wf_retag None (Some (x, true)) None mm _ x X X'); rewrite ?bst_trans, ?Hs;
    auto with buddy; try done.
  - simpl. by rewrite length_insert.
  - intros o ls. eapply (fl_insert None (Some (x, true)) None mm _ x X X') with (l := l)
      (f := fun node => off X <? offset_of (set_heap (<[x := X']> (heap mm)) mm) node);
      rewrite ?bst_trans, ?Hs; auto with buddy; try done.
    intros k Hk. unfold offset_of. cbn [heap set_heap]. fold X'.
    rewrite lookup_insert_ne by congruence. reflexivity.
  - simpl. unfold fsz. rewrite bst_trans, Hs. unfold bsz. rewrite F2. lia.
  - simpl. unfold csz. rewrite bst_trans, Hs, F3. simpl. rewrite andb_true_r.
    unfold bsz. rewrite F2. lia.
Qed.

(** What freeing [x] guarantees. *)
Definition free_post (mm : drm_buddy) (x : bid) (o : Z) (mm' : drm_buddy) : Prop :=
  wf None None mm' /\ same_geometry mm mm' /\ avail mm' = avail mm /\
  allocs mm' = delete x (allocs mm) /\ 0 <= o <= max_order mm.

(** The blocks of an order below [o] are not touched. *)
Definition low_frame (mm : drm_buddy) (o : Z) (mm' : drm_buddy) : Prop :=
  forall k K, heap mm !! k = Some K -> ord K < o -> heap mm' !! k = Some K.

Lemma buddy_free_finish fuel mm x X force z mm1 :
  __drm_buddy_free_loop fuel x force mm = Some (z, mm1) -> fuel = merge_fuel ->
  loop_post mm x X z mm1 ->
  exists o mm', __drm_buddy_free x force mm = Some (o, mm') /\ free_post mm x o mm' /\ ord X <= o /\
    low_frame mm (ord X) mm'.
Proof.
  intros Hrun -> (Hw & (Zb & Hz & Hoz) & Hg & Ha & Hd & Hfr).
  destruct (finish_free mm1 z Zb Hw Hz) as (mm' & Em & Hw' & Hg' & Ha' & Hal' & Hfr').
  exists (ord Zb), mm'. split.
  - unfold __drm_buddy_free. rewrite (st_bind_run _ _ _ _ _ Hrun).
    rewrite (st_bind_run _ _ _ _ _ (get_block_run _ _ _ Hz)).
    by rewrite (st_bind_run _ _ _ _ _ Em).
  - pose proof (bk_ord _ _ _ _ (wf_blk _ _ _ Hw _ _ Hz)) as Ho. destruct Hg as [? Eo ? ?].
    split; [|split; [done|]].
    + split_and!; [done| |congruence|congruence|lia|lia]. destruct Hg'. constructor; congruence.
    + intros k K HK HoK. rewrite Hfr' by (intros ->; pose proof (Hfr z K HK HoK); simplify_eq; lia).
      by apply Hfr.
Qed.

Lemma buddy_fuel_enough det tr mm b B :
  wf det tr mm -> heap mm !! b = Some B -> (Z.to_nat (max_order mm - ord B) < merge_fuel)%nat.
Proof.
  intros Hwf Hb. pose proof (wf_maxo _ _ _ Hwf).
  pose proof (bk_ord _ _ _ _ (wf_blk _ _ _ Hwf _ _ Hb)). unfold merge_fuel. lia.
Qed.

Lemma drm_buddy_free_ok mm x X :
  wf None (Some (x, true)) mm -> heap mm !! x = Some X ->
  exists o mm', __drm_buddy_free x false mm = Some (o, mm') /\ free_post mm x o mm'.
Proof.
  intros Hwf Hx.
  destruct (free_loop_spec false merge_fuel x X true mm) as (z & mm1 & Hrun & Hpost); auto;
    [by eapply buddy_fuel_enough|done|].
  destruct (buddy_free_finish _ mm x X false z mm1 Hrun eq_refl Hpost) as (o & mm' & ? & ? & _ & _).
  eauto.
Qed.

(** The forced variant, entered with a free buddy. *)
Lemma drm_buddy_free_force_ok mm x X y Y :
  wf None (Some (x, false)) mm -> heap mm !! x = Some X -> b_parent X <> None ->
  __get_buddy x mm = Some (Some y, mm) -> heap mm !! y = Some Y -> is_free Y = true ->
  exists o mm', __drm_buddy_free x true mm = Some (o, mm') /\ free_post mm x o mm' /\ ord X < o /\
    (forall k K, heap mm !! k = Some K -> k <> x -> k <> y -> ord K <= ord X ->
                 heap mm' !! k = Some K).
Proof.
  intros Hwf Hx Hpn Hg Hy Hfree. destruct (b_parent X) as [p|] eqn:Hp; [|done].
  destruct (free_step_buddy false mm x p X Hwf Hx Hp) as (y' & Y' & P & Hg' & Hy' & HP & HsP & Hyx & Hkids).
  assert (y' = y) as -> by congruence. assert (Y' = Y) as -> by congruence.
  destruct (free_loop_merge true (Z.to_nat DRM_BUDDY_MAX_ORDER + 1) x X p y Y P false mm) as
      (mm1 & P' & Erun & Hwf1 & Hp1 & Ho1 & Hc1 & Hg1 & Ha1 & Hal1 & Hal1' & Hfr1); auto; try done.
  destruct Hg1 as [R1 R2 R3 R4].
  destruct (free_loop_spec true (Z.to_nat DRM_BUDDY_MAX_ORDER + 1) p P' true mm1)
    as (z & mm2 & Hrun & Hw & (Zb & Hz & Hoz) & Hg2 & Ha2 & Hd2 & Hfr2); auto; try done.
  { pose proof (bk_ord _ _ _ _ (wf_blk _ _ _ Hwf _ _ Hx)). pose proof (wf_maxo _ _ _ Hwf1).
    rewrite Ho1. lia. }
  assert (loop_post mm1 p P' z mm2) as Hpost1 by (split_and!; eauto).
  assert (loop_post mm x X z mm2) as Hpost.
  { split_and!; [done| | |congruence| |].
    - exists Zb. split; [done|lia].
    - destruct Hg2. constructor; congruence.
    - rewrite Hd2, delete_id by done. done.
    - intros k K HK Ho. apply Hfr2; [|lia]. apply Hfr1; [done| | |lia]; intros ->.
      + assert (K = X) as -> by congruence. lia.
      + assert (K = Y) as -> by congruence.
        destruct (merge_halves false mm x y p X Y P Hwf Hx Hy HP HsP Hkids) as (? & ? & _). lia. }
  assert (Hrun' : __drm_buddy_free_loop merge_fuel x true mm = Some (z, mm2)).
  { unfold merge_fuel. replace (Z.to_nat DRM_BUDDY_MAX_ORDER + 2)%nat
      with (S (Z.to_nat DRM_BUDDY_MAX_ORDER + 1)) by lia. by rewrite Erun. }
  destruct (finish_free mm2 z Zb Hw Hz) as (mm' & Em & _ & _ & _ & _ & Hfr').
  destruct (buddy_free_finish merge_fuel mm x X true z mm2 Hrun' eq_refl Hpost)
    as (o & mm'' & Erun'' & Hp'' & _ & _).
  assert (o = ord Zb /\ mm'' = mm') as [-> ->].
  { revert Erun''. unfold __drm_buddy_free. rewrite (st_bind_run _ _ _ _ _ Hrun').
    rewrite (st_bind_run _ _ _ _ _ (get_block_run _ _ _ Hz)).
    rewrite (st_bind_run _ _ _ _ _ Em). intros [= <- <-]. done. }
  exists (ord Zb), mm'. split_and!; [done|done|lia|].
  intros k K HK Kx Ky Ho. rewrite Hfr'.
  - apply Hfr2; [by apply Hfr1|lia].
  - intros ->. pose proof (Hfr2 z K (Hfr1 z K HK Kx Ky Ho) ltac:(lia)) as E.
    rewrite Hz in E. injection E as ->. lia.
Qed.

(** ** [drm_buddy_free_block] *)

Lemma begin_free mm b B :
  wf None None mm -> heap mm !! b = Some B -> is_alloc B = true ->
  let sz := bsz (chunk_size mm) B in
  let d := if is_clear B then sz else 0 in
  avail mm + sz <= mm_size mm /\ clear_avail mm + d <= mm_size mm /\
  wf None (Some (b, true)) (set_clear_avail (clear_avail mm + d) (set_avail (avail mm + sz) mm)).
Proof.
  intros Hwf Hb Ha sz d. pose proof (bst_none_alloc b B Ha) as Hs.
  set (mm1 := set_clear_avail (clear_avail mm + d) (set_avail (avail mm + sz) mm)).
  assert (wf None (Some (b, true)) mm1) as Hw.
  { apply (wf_retag None None (Some (b, true)) mm mm1 b B B); rewrite ?bst_trans, ?Hs;
      auto with buddy; try done.
    - by rewrite insert_id.
    - intros o l. apply (fl_same None None (Some (b, true)) mm mm1 b B B);
        rewrite ?bst_trans, ?Hs; auto with buddy; try done. by rewrite insert_id.
    - simpl. unfold fsz. rewrite bst_trans, Hs. unfold sz. lia.
    - simpl. unfold csz. rewrite bst_trans, Hs. simpl. rewrite andb_true_r. unfold d, sz. lia. }
  pose proof (wf_avail_bounds mm1 Hw) as Hbnd. simpl in Hbnd. split_and!; [lia|lia|done].
Qed.

Lemma drm_buddy_free_block_ok mm b B :
  wf None None mm -> heap mm !! b = Some B -> is_alloc B = true ->
  exists mm', drm_buddy_free_block b mm = Some (tt, mm') /\ wf None None mm' /\
    same_geometry mm mm' /\ avail mm' = avail mm + bsz (chunk_size mm) B /\
    allocs mm' = delete b (allocs mm).
Proof.
  intros Hwf Hb Ha. destruct (begin_free mm b B Hwf Hb Ha) as (H1 & H2 & Hw).
  pose proof (wf_avail_bounds mm Hwf). pose proof (wf_size _ _ _ Hwf).
  pose proof (bsz_pos mm b B Hwf Hb).
  set (d := if is_clear B then bsz (chunk_size mm) B else 0) in *.
  set (mm1 := set_clear_avail (clear_avail mm + d) (set_avail (avail mm + bsz (chunk_size mm) B) mm)) in *.
  destruct (drm_buddy_free_ok mm1 b B Hw Hb) as (o & mm' & Erun & Hw' & Hg & Hav & Hal & _).
  exists mm'. split_and!; auto.
  - unfold drm_buddy_free_block. rewrite (st_bind_run _ _ _ _ _ (get_block_run _ _ _ Hb)), Ha.
    rewrite (st_bind_run _ _ mm tt mm) by done.
    rewrite (st_bind_run _ _ _ _ _ (block_size_run _ _ _ Hb)), (block_size_bsz mm b B Hwf Hb).
    unfold avail_add, clear_avail_add, st_when.
    erewrite (st_bind_run (st_mod _)) by reflexivity. cbn [avail]. rewrite (wrap_small 64) by lia.
    rewrite (st_bind_run _ _ _ tt mm1).
    2:{ unfold mm1, d, st_mod, st_ret. destruct (is_clear B).
        - cbn [clear_avail set_avail]. rewrite wrap_small by (unfold d in *; lia). done.
        - rewrite Z.add_0_r. by destruct mm. }
    rewrite (st_bind_run _ _ _ _ _ Erun). done.
  - destruct Hg. by constructor.
Qed.

(** ** Lists of blocks *)

(** The size of a handed-out block, as its entry of [allocs] records it. *)
Definition asz (cs : Z) (v : Z * Z) : Z := cs * 2 ^ snd v.
Definition held (mm : drm_buddy) (b : bid) : Z := from_option (asz (chunk_size mm)) 0 (allocs mm !! b).

(** A map without the keys of a list. *)
Definition drop_keys {V} (m : gmap positive V) (l : list positive) : gmap positive V :=
  foldl (fun m b => delete b m) m l.

Lemma drop_keys_lookup {V} (m : gmap positive V) l k :
  drop_keys m l !! k = if decide (k ∈ l) then None else m !! k.
Proof.
  revert m. induction l as [|b l IH]; intros m; [done|].
  change (drop_keys m (b :: l)) with (drop_keys (delete b m) l).
  rewrite IH, lookup_delete. repeat case_decide; set_solver.
Qed.

Lemma allocs_inv mm b v :
  allocs mm !! b = Some v ->
  exists B, heap mm !! b = Some B /\ is_alloc B = true /\ v = (off B, ord B).
Proof.
  unfold allocs. rewrite lookup_omap. destruct (heap mm !! b) as [B|]; [|done]. simpl.
  destruct (is_alloc B) eqn:E; [|done]. intros [= <-]. eauto.
Qed.

(** Writing the clear bit of a handed-out block. *)
Lemma retag_clear_ok mm b B B' :
  wf None None mm -> heap mm !! b = Some B -> is_alloc B = true ->
  B' = clear_on B \/ B' = clear_off B ->
  wf None None (set_heap (<[b := B']> (heap mm)) mm) /\
  allocs (set_heap (<[b := B']> (heap mm)) mm) = allocs mm /\ is_alloc B' = true /\ ord B' = ord B.
Proof.
  intros Hwf Hb Ha HB'.
  assert (off B' = off B /\ ord B' = ord B /\ drm_buddy_block_state B' = drm_buddy_block_state B /\
    b_parent B' = b_parent B) as (F1 & F2 & F3 & F4).
  { destruct HB' as [->| ->]; [destruct (clear_on_facts B) as (? & ? & ? & _)|
      destruct (clear_off_facts B) as (? & ? & ? & _)]; done. }
  assert (is_alloc B' = true) as Ha' by (unfold is_alloc; by rewrite F3).
  pose proof (bst_none_alloc b B Ha) as Hs. pose proof (bst_none_alloc b B' Ha') as Hs'.
  split_and!; auto.
  - apply (wf_retag None None None mm _ b B B'); rewrite ?Hs, ?Hs'; auto with buddy; try done.
    + intros o l. apply (fl_same None None None mm _ b B B'); rewrite ?Hs, ?Hs'; auto with buddy; done.
    + simpl. unfold fsz. rewrite Hs, Hs'. lia.
    + simpl. unfold csz. rewrite Hs, Hs'. lia.
  - rewrite (allocs_insert_alloc mm _ b B') by done. rewrite F1, F2. apply insert_id.
    rewrite (allocs_lookup _ _ _ Hb), Ha. done.
Qed.

Lemma free_list_mark_ok mm b (mc md : bool) :
  wf None None mm -> is_Some (allocs mm !! b) ->
  exists mm1, (if mc then mark_cleared b else if md then clear_reset b else st_ret tt) mm = Some (tt, mm1) /\
    wf None None mm1 /\ allocs mm1 = allocs mm /\ same_geometry mm mm1 /\ avail mm1 = avail mm.
Proof.
  intros Hwf [v Hv]. destruct (allocs_inv mm b v Hv) as (B & Hb & Ha & _).
  destruct mc; [|destruct md].
  - destruct (retag_clear_ok mm b B (clear_on B) Hwf Hb Ha) as (? & ? & _); [by left|].
    eexists. split; [by apply clear_step|]. split_and!; done.
  - destruct (retag_clear_ok mm b B (clear_off B) Hwf Hb Ha) as (? & ? & _); [by right|].
    eexists. split; [by apply clear_reset_step|]. split_and!; done.
  - exists mm. done.
Qed.

Lemma drm_buddy_free_list_ok mm objects mc md :
  wf None None mm -> NoDup objects -> (forall b, b ∈ objects -> is_Some (allocs mm !! b)) ->
  exists mm', __drm_buddy_free_list objects mc md mm = Some (tt, mm') /\ wf None None mm' /\
    same_geometry mm mm' /\ avail mm' = avail mm + sumZ (held mm) objects /\
    allocs mm' = drop_keys (allocs mm) objects.
Proof.
  revert mm. induction objects as [|b bs IH]; intros mm Hwf Hnd Hall.
  { exists mm. split_and!; try done. simpl. lia. }
  apply NoDup_cons in Hnd as [Hb Hnd].
  destruct (free_list_mark_ok mm b mc md Hwf (Hall b ltac:(set_solver)))
    as (mm1 & E1 & Hw1 & Hal1 & Hg1 & Ha1).
  destruct (Hall b ltac:(set_solver)) as [v Hv].
  destruct (allocs_inv mm1 b v ltac:(congruence)) as (B & HB & HaB & Ev).
  destruct (drm_buddy_free_block_ok mm1 b B Hw1 HB HaB) as (mm2 & E2 & Hw2 & Hg2 & Ha2 & Hal2).
  assert (forall k, k ∈ bs -> allocs mm2 !! k = allocs mm !! k) as Hsame.
  { intros k Hk. rewrite Hal2, Hal1. apply lookup_delete_ne. congruence. }
  destruct (IH mm2) as (mm3 & E3 & Hw3 & Hg3 & Ha3 & Hal3); auto.
  { intros k Hk. rewrite Hsame by done. apply Hall. set_solver. }
  exists mm3. split_and!; auto.
  - cbn [__drm_buddy_free_list]. rewrite (st_bind_run _ _ _ _ _ E1).
    by rewrite (st_bind_run _ _ _ _ _ E2).
  - by transitivity mm2; [transitivity mm1|].
  - assert (chunk_size mm2 = chunk_size mm) as Ec by (destruct Hg1, Hg2; congruence).
    rewrite Ha3, Ha2, Ha1. simpl. unfold held at 2. rewrite Hv, Ev. simpl.
    rewrite (sumZ_ext (held mm2) (held mm)).
    + unfold asz, bsz. simpl. destruct Hg1 as [_ _ -> _]. lia.
    + intros k Hk. unfold held. by rewrite Hsame, Ec.
  - rewrite Hal3, Hal2, Hal1. done.
Qed.

(** ** [__force_merge] *)

(** Nothing a client sees changes. *)
Definition keeps (mm mm' : drm_buddy) : Prop :=
  wf None None mm' /\ same_geometry mm mm' /\ avail mm' = avail mm /\ allocs mm' = allocs mm.

Lemma keeps_refl mm : wf None None mm -> keeps mm mm.
Proof. intros. unfold keeps. by split_and!. Qed.
Lemma keeps_trans mm1 mm2 mm3 : keeps mm1 mm2 -> keeps mm2 mm3 -> keeps mm1 mm3.
Proof.
  intros (W1 & G1 & A1 & L1) (W2 & G2 & A2 & L2). split_and!; [done| |congruence|congruence].
  by transitivity mm2.
Qed.

Lemma get_buddy_heap mm mm' x r :
  heap mm' = heap mm -> __get_buddy x mm = Some (r, mm) -> __get_buddy x mm' = Some (r, mm').
Proof.
  intros E. unfold __get_buddy, st_bind, get_block. rewrite E.
  destruct (heap mm !! x) as [X|]; [|done]. destruct (b_parent X) as [p|].
  - rewrite E. destruct (heap mm !! p) as [P|]; [|done].
    case_bool_decide; unfold st_ret; congruence.
  - unfold st_ret. congruence.
Qed.

(** The block taken off its list, ready for a forced merge. *)
Lemma begin_force mm b B :
  wf None None mm -> heap mm !! b = Some B -> is_free B = true ->
  exists mm2, wf None (Some (b, false)) mm2 /\ heap mm2 = heap mm /\ same_geometry mm mm2 /\
    avail mm2 = avail mm /\
    forall A (k : stM drm_buddy A),
      st_bind (list_del_free b) (fun _ => st_bind
        (st_when (is_clear B) (clear_avail_add (- bsz (chunk_size mm) B))) (fun _ => k)) mm = k mm2.
Proof.
  intros Hwf Hb Hfree. pose proof (bst_none_free b B Hfree) as Hs.
  destruct (wf_on_free_list mm b B Hwf Hb Hs) as (l & El & Hl & Hin).
  pose proof (wf_avail_bounds mm Hwf) as Hbnd. pose proof (wf_size _ _ _ Hwf).
  set (d := if is_clear B then bsz (chunk_size mm) B else 0).
  assert (d <= clear_avail mm) as Hd.
  { rewrite (wf_clear_avail _ _ _ Hwf). pose proof (wf_chunk_pos mm Hwf).
    assert (d = csz None (chunk_size mm) b B) as -> by (unfold csz; by rewrite Hs).
    apply (msum_ge (csz None (chunk_size mm))); [|done]. intros k K HK.
    pose proof (bk_ord _ _ _ _ (wf_blk _ _ _ Hwf _ _ HK)).
    apply csz_le_fsz; lia. }
  assert (0 <= d) as Hd0.
  { unfold d. pose proof (bsz_pos mm b B Hwf Hb). destruct (is_clear B); lia. }
  set (mm2 := set_clear_avail (clear_avail mm - d)
     (set_free_list (<[Z.to_nat (ord B) := filter (fun y => y <> b) l]> (free_list mm)) mm)).
  exists mm2. split_and!; try done.
  - apply (wf_retag None None (Some (b, false)) mm mm2 b B B); rewrite ?bst_trans, ?Hs;
      auto with buddy; try done.
    + by rewrite insert_id.
    + simpl. by rewrite length_insert.
    + intros o ls. eapply (fl_remove None None (Some (b, false)) mm mm2 b B B);
        rewrite ?bst_trans, ?Hs; auto with buddy; try done. by rewrite insert_id.
    + simpl. unfold fsz. rewrite bst_trans, Hs. lia.
    + simpl. unfold csz. rewrite bst_trans, Hs. simpl. rewrite andb_false_r. unfold d. lia.
  - intros A k. rewrite (st_bind_run _ _ _ _ _ (list_del_free_run mm b B l Hb El Hin)).
    rewrite (st_bind_run _ _ _ tt mm2); [done|].
    unfold st_when, clear_avail_add, st_mod, st_ret, mm2, d in *. destruct (is_clear B).
    + cbn [clear_avail set_free_list]. rewrite wrap_small by lia. done.
    + rewrite Z.sub_0_r. by destruct mm.
Qed.

(** Buddies are neighbours on their free list. *)
Lemma buddy_adjacent mm i x y p0 rest X Y P p :
  wf None None mm -> heap mm !! x = Some X -> heap mm !! y = Some Y -> is_free Y = true ->
  is_free X = true -> x <> y -> heap mm !! p = Some P -> is_split P = true ->
  (b_left P = Some x /\ b_right P = Some y) \/ (b_left P = Some y /\ b_right P = Some x) ->
  NoDup (x :: p0 :: rest) ->
  StronglySorted (fun a b => offset_of mm b <= offset_of mm a) (x :: p0 :: rest) ->
  (forall b, b ∈ x :: p0 :: rest -> free_of_order None mm i b) ->
  y ∉ rest.
Proof.
  intros Hwf Hx Hy HfY HfX Hxy Hp HsP Hkids Hnd Hso Hall Hin.
  destruct (Hall p0 ltac:(set_solver)) as (P0 & HP0 & S0 & O0).
  destruct (Hall x ltac:(set_solver)) as (X' & HX' & _ & OX). assert (X' = X) as -> by congruence.
  destruct (wf_split _ _ _ Hwf p P Hp (bst_none_split p P HsP)) as
    (l & r & L & R & El & Er & HL & HR & _ & _ & OL & OR & FL & FR).
  apply NoDup_cons in Hnd as [N1 Hnd]. apply NoDup_cons in Hnd as [N2 _].
  assert (x <> p0 /\ y <> p0) as [N3 N4] by (split; intros ->; set_solver).
  pose proof (wf_disj _ _ _ Hwf x p0 X P0 N3 Hx HP0
    ltac:(by rewrite bst_none_free) ltac:(congruence)) as D1.
  pose proof (wf_disj _ _ _ Hwf y p0 Y P0 N4 Hy HP0
    ltac:(by rewrite bst_none_free) ltac:(congruence)) as D2.
  inversion Hso as [|? ? Hso' F1]; subst. inversion Hso' as [|? ? _ F2]; subst.
  rewrite Forall_forall in F1, F2.
  pose proof (F1 p0 ltac:(set_solver)) as I1. pose proof (F2 y Hin) as I2.
  unfold offset_of in I1, I2. rewrite Hx, HP0 in I1. rewrite HP0, Hy in I2.
  pose proof (bsz_pos mm p0 P0 Hwf HP0) as Hpos.
  assert (bsz (chunk_size mm) X = bsz (chunk_size mm) P0) as E1 by (unfold bsz; congruence).
  unfold disjoint_blocks in *.
  destruct Hkids as [[K1 K2]|[K1 K2]]; simplify_eq.
  - lia.
  - assert (bsz (chunk_size mm) Y = bsz (chunk_size mm) P0) as E2 by (unfold bsz; congruence). lia.
Qed.

Lemma force_merge_list_ok start end_ min_order i n todo mm :
  (length todo <= n)%nat -> wf None None mm -> NoDup todo ->
  StronglySorted (fun a b => offset_of mm b <= offset_of mm a) todo ->
  (forall b, b ∈ todo -> free_of_order None mm i b) ->
  exists r mm', __force_merge_list start end_ min_order todo mm = Some (r, mm') /\ keeps mm mm'.
Proof.
  revert todo mm. induction n as [|n IH]; intros todo mm Hlen Hwf Hnd Hso Hall.
  { destruct todo; [|simpl in Hlen; lia]. exists None, mm. split; [done|by apply keeps_refl]. }
  destruct todo as [|x prev].
  { exists None, mm. split; [done|by apply keeps_refl]. }
  simpl in Hlen. destruct (Hall x ltac:(set_solver)) as (X & Hx & HsX & OX).
  pose proof (bst_free_inv x X HsX) as HfX.
  assert (exists r mm', __force_merge_list start end_ min_order prev mm = Some (r, mm') /\ keeps mm mm')
    as Hskip.
  { apply IH; [lia|done|by inversion Hnd|by inversion Hso|]. intros; apply Hall; set_solver. }
  cbn [__force_merge_list]. rewrite (st_bind_run _ _ _ _ _ (get_block_run _ _ _ Hx)).
  destruct (b_parent X) as [p|] eqn:Hp; [|done].
  rewrite (st_bind_run _ _ _ _ _ (block_size_run _ _ _ Hx)), (block_size_bsz mm x X Hwf Hx).
  destruct (contains _ _ _ _); [|done]. cbn [negb].
  destruct (begin_force mm x X Hwf Hx HfX) as (mm2 & Hw2 & Hh2 & Hg2 & Ha2 & Hrun).
  destruct (free_step_buddy false mm2 x p X Hw2 ltac:(congruence) Hp) as
    (y & Y & P & Hg & Hy & HP & HsP & Hyx & Hkids).
  pose proof (get_buddy_heap mm2 mm x _ (eq_sym Hh2) Hg) as Hg'.
  rewrite Hh2 in Hy, HP.
  rewrite (st_bind_run _ _ _ _ _ Hg'), (st_bind_run _ _ mm y mm) by done.
  rewrite (st_bind_run _ _ _ _ _ (get_block_run _ _ _ Hy)).
  destruct (is_free Y) eqn:HfY; [|done]. cbn [negb]. rewrite Hrun.
  destruct (drm_buddy_free_force_ok mm2 x X y Y) as (o & mm3 & E3 & (Hw3 & Hg3 & Ha3 & Hal3 & _) & Ho & Hfr);
    try congruence.
  rewrite (st_bind_run _ _ _ _ _ E3).
  assert (keeps mm mm3) as Hk.
  { split_and!; [done|by transitivity mm2|congruence|].
    rewrite Hal3, delete_id.
    - unfold allocs. by rewrite Hh2.
    - rewrite (allocs_lookup mm2 x X) by congruence.
      pose proof (bst_none_inv x X) as E. rewrite HsX in E. destruct E as (-> & _). done. }
  destruct (min_order <=? o); [by exists (Some tt), mm3|].
  assert (forall rest, (length rest <= n)%nat -> NoDup rest -> x ∉ rest -> y ∉ rest ->
    StronglySorted (fun a b => offset_of mm b <= offset_of mm a) rest ->
    (forall b, b ∈ rest -> free_of_order None mm i b) ->
    exists r mm', __force_merge_list start end_ min_order rest mm3 = Some (r, mm') /\ keeps mm mm') as Hrest.
  { intros rest Hl Hn Hxr Hyr Hs Ha.
    assert (forall k, k ∈ rest -> heap mm3 !! k = heap mm !! k) as Hsame.
    { intros k Hk'. destruct (Ha k Hk') as (K & HK & _ & OK). rewrite HK. apply Hfr; try congruence. lia. }
    destruct (IH rest mm3) as (r & mm' & E & Hk'); auto.
    - clear -Hs Hsame. induction Hs as [|a l Hs IHs HF]; constructor.
      + apply IHs. intros; apply Hsame; set_solver.
      + rewrite Forall_forall in HF |- *. intros c Hc. unfold offset_of.
        rewrite !Hsame by set_solver. by apply HF.
    - intros k Hk'. destruct (Ha k Hk') as (K & HK & ?). exists K. by rewrite Hsame.
    - exists r, mm'. split; [done|by eapply keeps_trans]. }
  destruct prev as [|p0 rest]; [by exists None, mm3|].
  assert (is_split P = true) as HsP'.
  { pose proof (bst_none_inv p P) as E. rewrite <- (bst_other x (Some (x, false)) None p P), HsP in E;
      auto with buddy; [tauto|]. by eapply bst_other_inv; right. }
  pose proof (buddy_adjacent mm i x y p0 rest X Y P p Hwf Hx Hy HfY HfX (not_eq_sym Hyx) HP HsP' Hkids Hnd Hso Hall) as Hadj.
  apply NoDup_cons in Hnd as [N1 Hnd]. inversion Hso as [|? ? Hso' _]; subst.
  simpl in Hlen. case_bool_decide as Ep.
  - apply Hrest; [lia|by inversion Hnd|set_solver|done|by inversion Hso'|].
    intros; apply Hall; set_solver.
  - apply Hrest; [simpl; lia|done|done| |done|].
    + set_solver.
    + intros; apply Hall; set_solver.
Qed.

Lemma StronglySorted_rev {A} (R : A -> A -> Prop) (l : list A) :
  StronglySorted R l -> StronglySorted (fun a b => R b a) (rev l).
Proof.
  induction 1 as [|x l Hs IH HF]; [constructor|]. simpl.
  assert (forall l' y, StronglySorted (fun a b => R b a) l' -> Forall (fun a => R y a) l' ->
    StronglySorted (fun a b => R b a) (l' ++ [y])) as Happ.
  { clear. induction 1 as [|a l' Hs IH HF]; intros Hy; simpl; [repeat constructor|].
    inversion Hy; subst. constructor; [by apply IH|].
    apply Forall_app. split; [done|]. by constructor. }
  apply Happ; [done|]. by apply Forall_rev.
Qed.

Lemma force_merge_orders_ok start end_ min_order n mm :
  wf None None mm -> Z.of_nat n <= max_order mm + 1 ->
  exists r mm', __force_merge_orders start end_ min_order n mm = Some (r, mm') /\ keeps mm mm'.
Proof.
  revert mm. induction n as [|i IH]; intros mm Hwf Hn.
  { exists (- ENOMEM), mm. split; [done|by apply keeps_refl]. }
  destruct (wf_free_list mm (Z.of_nat i) Hwf ltac:(lia)) as (l & El & Hl).
  rewrite Nat2Z.id in Hl. cbn [__force_merge_orders].
  rewrite (st_bind_run _ _ mm l mm) by (unfold get_free_list; by rewrite El).
  destruct (force_merge_list_ok start end_ min_order i (length (rev l)) (rev l) mm)
    as (r & mm1 & E1 & Hk); auto.
  - rewrite rev_alt, <- rev_alt. apply NoDup_ListNoDup, NoDup_rev, NoDup_ListNoDup, Hl.
  - apply StronglySorted_rev. apply Hl.
  - intros b Hb. apply Hl. rewrite list_elem_of_In in *. by apply in_rev.
  - rewrite (st_bind_run _ _ _ _ _ E1). destruct r; [by exists 0, mm1|].
    destruct Hk as (Hw & Hg & Hrest). destruct (IH mm1 Hw) as (r & mm2 & E2 & Hk2).
    + destruct Hg as [_ -> _ _]. lia.
    + exists r, mm2. split; [done|]. by eapply keeps_trans.
Qed.

Lemma force_merge_ok start end_ min_order mm :
  wf None None mm -> 0 <= min_order ->
  exists r mm', __force_merge start end_ min_order mm = Some (r, mm') /\ keeps mm mm'.
Proof.
  intros Hwf Hm. unfold __force_merge.
  destruct (Z.eqb_spec min_order 0).
  { exists (- ENOMEM), mm. split; [done|by apply keeps_refl]. }
  rewrite (st_bind_run _ _ mm (max_order mm) mm) by done.
  destruct (Z.ltb_spec (max_order mm) min_order).
  { exists (- EINVAL), mm. split; [done|by apply keeps_refl]. }
  apply force_merge_orders_ok; [done|lia].
Qed.
