(* ===== verification/BuddyAlloc.v ===== *)
(** * The DRM buddy allocator: allocation from the free lists

    [alloc_from_freelist] and the scans it is built from: on a well-formed
    state they find a block exactly when one of sufficient order is free, and
    split it down to the order asked for. *)

From S2P Require Import Prelude Buddy BuddyInv BuddyOps BuddyFree.
From stdpp Require Import gmap list sorting.
From Stdlib Require Import ZArith Lia.

Local Open Scope Z_scope.

(** What the clients see does not change; [det] as in [wf]. *)
Definition keepsd (det : option (bid * bid)) (mm mm' : drm_buddy) : Prop :=
  wf det None mm' /\ same_geometry mm mm' /\ avail mm' = avail mm /\ allocs mm' = allocs mm.

Lemma keepsd_refl det mm : wf det None mm -> keepsd det mm mm.
Proof. intros. unfold keepsd. by split_and!. Qed.
Lemma keepsd_trans det mm1 mm2 mm3 : keepsd det mm1 mm2 -> keepsd det mm2 mm3 -> keepsd det mm1 mm3.
Proof.
  intros (W1 & G1 & A1 & L1) (W2 & G2 & A2 & L2). split_and!; [done| |congruence|congruence].
  by transitivity mm2.
Qed.

(** A free block of a given order. *)
Definition free_block (mm : drm_buddy) (b : bid) (o : Z) : Prop :=
  exists B, heap mm !! b = Some B /\ is_free B = true /\ ord B = o.

Lemma free_of_order_block mm o b : free_of_order None mm o b <-> free_block mm b (Z.of_nat o).
Proof.
  split; intros (B & HB & HS & HO); exists B; split_and!; try done.
  - by apply (bst_free_inv (tr := None) b).
  - by apply bst_none_free.
Qed.

(** ** Scans of the free lists *)

Section Scans.
Context (det : option (bid * bid)) (mm : drm_buddy).
Hypothesis Hwf : wf det None mm.

Lemma last_compatible_ok l flags :
  (forall b, b ∈ l -> is_Some (heap mm !! b)) ->
  exists r, last_compatible l flags mm = Some (r, mm) /\
    match r with
    | Some b => b ∈ l /\ exists B, heap mm !! b = Some B /\ block_incompatible B flags = false
    | None => True
    end.
Proof.
  induction l as [|b l IH]; intros Hl; [by exists None|].
  destruct IH as (r & E & Hr); [intros; apply Hl; set_solver|].
  cbn [last_compatible]. rewrite (st_bind_run _ _ _ _ _ E). destruct r as [b'|].
  - exists (Some b'). split; [done|]. destruct Hr. set_solver.
  - destruct (Hl b ltac:(set_solver)) as [B HB].
    rewrite (st_bind_run _ _ _ _ _ (get_block_run _ _ _ HB)).
    destruct (block_incompatible B flags) eqn:Ei; [by exists None|].
    exists (Some b). split; [done|]. split; [set_solver|eauto].
Qed.

(** A free list of the state: what is on it is a free block of its order. *)
Lemma free_list_ok o : 0 <= o <= max_order mm ->
  exists l, get_free_list o mm = Some (l, mm) /\ (forall b, b ∈ l <-> free_block mm b o).
Proof.
  intros Ho. destruct (wf_free_list mm o Hwf Ho) as (l & El & Hl).
  exists l. split; [unfold get_free_list; by rewrite El|].
  intros b. destruct Hl as (_ & _ & ->). rewrite free_of_order_block, Z2Nat.id by lia. done.
Qed.

Lemma free_block_in_heap b o : free_block mm b o -> is_Some (heap mm !! b).
Proof. intros (B & ? & _). eauto. Qed.

Lemma find_compatible_ok n tmp flags :
  0 <= tmp -> tmp + Z.of_nat n <= max_order mm + 1 ->
  exists r, find_compatible n tmp flags mm = Some (r, mm) /\
    match r with
    | Some (b, t) => free_block mm b t /\ tmp <= t <= max_order mm
    | None => True
    end.
Proof.
  revert tmp. induction n as [|n IH]; intros tmp H0 Hn; [by exists None|].
  destruct (free_list_ok tmp ltac:(lia)) as (l & El & Hl).
  cbn [find_compatible]. rewrite (st_bind_run _ _ _ _ _ El).
  destruct (last_compatible_ok l flags) as (r & Er & Hr).
  { intros b Hb%Hl. by eapply free_block_in_heap. }
  rewrite (st_bind_run _ _ _ _ _ Er). destruct r as [b|].
  - exists (Some (b, tmp)). split; [done|]. destruct Hr as [Hb _]. apply Hl in Hb. split; [done|lia].
  - destruct (IH (tmp + 1) ltac:(lia) ltac:(lia)) as (r & E & Hr'). exists r. split; [done|].
    destruct r as [[b t]|]; [|done]. destruct Hr'. split; [done|lia].
Qed.

Lemma find_any_ok n tmp :
  0 <= tmp -> tmp + Z.of_nat n <= max_order mm + 1 ->
  exists r, find_any n tmp mm = Some (r, mm) /\
    match r with
    | Some (b, t) => free_block mm b t /\ tmp <= t <= max_order mm
    | None => forall b o, tmp <= o < tmp + Z.of_nat n -> ~ free_block mm b o
    end.
Proof.
  revert tmp. induction n as [|n IH]; intros tmp H0 Hn.
  { exists None. split; [done|]. intros b o Ho. lia. }
  destruct (free_list_ok tmp ltac:(lia)) as (l & El & Hl).
  cbn [find_any]. rewrite (st_bind_run _ _ _ _ _ El).
  destruct (last l) as [b|] eqn:Elast.
  - exists (Some (b, tmp)). split; [done|]. apply last_Some_elem_of, Hl in Elast. split; [done|lia].
  - apply last_None in Elast as ->.
    destruct (IH (tmp + 1) ltac:(lia) ltac:(lia)) as (r & E & Hr'). exists r. split; [done|].
    destruct r as [[b t]|]; [destruct Hr'; split; [done|lia]|].
    intros b o Ho Hf. destruct (decide (o = tmp)) as [->|].
    + apply Hl in Hf. set_solver.
    + apply (Hr' b o); [lia|done].
Qed.

Lemma get_maxblock_loop_ok n i flags blk mx :
  0 <= i -> i + Z.of_nat n <= max_order mm + 1 ->
  (forall b, blk = Some b \/ mx = Some b -> exists o, free_block mm b o /\ 0 <= o <= max_order mm) ->
  exists r, get_maxblock_loop n i flags blk mx mm = Some (r, mm) /\
    forall b, r = Some b -> exists o, free_block mm b o /\
      (blk = Some b \/ mx = Some b \/ i <= o <= max_order mm).
Proof.
  revert i blk mx. induction n as [|n IH]; intros i blk mx H0 Hn Hbm.
  { exists mx. split; [done|]. intros b ->. destruct (Hbm b) as (o & ? & ?); [by right|]. eauto. }
  destruct (free_list_ok i ltac:(lia)) as (l & El & Hl).
  cbn [get_maxblock_loop]. rewrite (st_bind_run _ _ _ _ _ El).
  destruct (last_compatible_ok l flags) as (found & Ef & Hf).
  { intros b Hb%Hl. by eapply free_block_in_heap. }
  rewrite (st_bind_run _ _ _ _ _ Ef).
  set (blk' := match found with Some b => Some b | None => blk end).
  assert (forall b, blk' = Some b -> exists o, free_block mm b o /\ 0 <= o <= max_order mm /\
    (blk = Some b \/ o = i)) as Hblk'.
  { unfold blk'. intros b. destruct found as [b'|].
    - intros [= <-]. destruct Hf as [Hb _]. apply Hl in Hb. exists i. split_and!; [done|lia|lia|by right].
    - intros ->. destruct (Hbm b) as (o & ? & ?); [by left|]. exists o. auto. }
  assert (forall mx', (forall b, mx' = Some b -> blk' = Some b \/ mx = Some b) ->
    exists r, get_maxblock_loop n (i + 1) flags blk' mx' mm = Some (r, mm) /\
    forall b, r = Some b -> exists o, free_block mm b o /\
      (blk = Some b \/ mx = Some b \/ i <= o <= max_order mm)) as Hgo.
  { intros mx' Hmx'. destruct (IH (i + 1) blk' mx') as (r & E & Hr); [lia|lia| |].
    - intros b [Hb|Hb]; [destruct (Hblk' b Hb) as (o & ? & ? & _); eauto|].
      destruct (Hmx' b Hb) as [Hb'|Hb']; [destruct (Hblk' b Hb') as (o & ? & ? & _); eauto|].
      apply Hbm. by right.
    - exists r. split; [done|]. intros b Hb. destruct (Hr b Hb) as (o & Ho & Hc).
      assert (blk' = Some b -> exists o, free_block mm b o /\ (blk = Some b \/ mx = Some b \/ i <= o <= max_order mm)) as Hvia.
      { intros E'. destruct (Hblk' b E') as (o' & ? & ? & [?|?]); exists o'; split; auto. right. right. lia. }
      destruct Hc as [Hc|[Hc|Hc]]; [by apply Hvia| |exists o; split; [done|right; right; lia]].
      destruct (Hmx' b Hc) as [Hc'|Hc']; [by apply Hvia|]. exists o. auto. }
  destruct blk' as [b|] eqn:Eb.
  2:{ apply Hgo. auto. }
  destruct mx as [m|].
  - destruct (Hblk' b eq_refl) as (o1 & (B & HB & _) & _).
    destruct (Hbm m) as (o2 & (M & HM & _) & _); [by right|].
    rewrite (st_bind_run _ _ _ _ _ (get_block_run _ _ _ HB)).
    rewrite (st_bind_run _ _ _ _ _ (get_block_run _ _ _ HM)).
    apply Hgo. intros b'. destruct (_ <? _); auto.
  - apply Hgo. auto.
Qed.
End Scans.

(** ** Splitting down to an order *)

Section SplitDown.
Context (slab_ok : positive -> bool).
Hypothesis slab_total : forall n, slab_ok n = true.

Lemma split_of_allocs det mm b B mm' l r :
  wf det None mm -> heap mm !! b = Some B -> is_free B = true ->
  split_of mm b B mm' l r -> allocs mm' = allocs mm.
Proof.
  intros Hwf Hb Hf [(B' & Hb' & HsB & _) (L & HL & HfL & _) (R & HR & HfR & _) Ho (Nl & Nr & Hlr) _ _ _].
  assert (forall (k : bid) (K : drm_buddy_block), is_free K = true \/ is_split K = true -> is_alloc K = false) as Hna.
  { intros k K H. pose proof (bst_none_inv k K) as E. destruct (bst None k K); try tauto;
      destruct E as (E1 & E2 & E3); rewrite E2, E3 in H; destruct H; done. }
  apply map_eq. intros k. unfold allocs. rewrite !lookup_omap.
  destruct (decide (k = b)) as [->|Kb].
  { rewrite Hb', Hb. simpl. rewrite (Hna b B), (Hna b B') by auto. done. }
  destruct (decide (k = l)) as [->|Kl].
  { rewrite HL, Nl. simpl. by rewrite (Hna l L) by auto. }
  destruct (decide (k = r)) as [->|Kr].
  { rewrite HR, Nr. simpl. by rewrite (Hna r R) by auto. }
  by rewrite Ho by done.
Qed.

Lemma split_keepsd det mm b B :
  wf det None mm -> heap mm !! b = Some B -> is_free B = true -> 0 < ord B ->
  exists mm' l r, split_block slab_ok b mm = Some (0, mm') /\ keepsd det mm mm' /\
    split_of mm b B mm' l r.
Proof.
  intros Hwf Hb Hf Ho.
  destruct (split_block_spec slab_ok slab_total det mm b B Hwf Hb Hf Ho) as (mm' & E & Hw & Hs).
  eexists mm', _, _. split; [done|]. split; [|exact Hs].
  split_and!; [done| | |by eapply split_of_allocs].
  - by eapply so_geometry.
  - by eapply so_avail.
Qed.

Lemma split_down_ok det n b B mm :
  wf det None mm -> heap mm !! b = Some B -> is_free B = true -> Z.of_nat n <= ord B ->
  exists b' mm', split_down slab_ok n b mm = Some (PTR b', mm') /\ keepsd det mm mm' /\
    free_block mm' b' (ord B - Z.of_nat n).
Proof.
  revert b B mm. induction n as [|n IH]; intros b B mm Hwf Hb Hf Hn.
  { exists b, mm. split; [done|]. split; [by apply keepsd_refl|].
    exists B. split_and!; try done. lia. }
  destruct (split_keepsd det mm b B Hwf Hb Hf ltac:(lia)) as (mm1 & l & r & E & Hk & Hs).
  destruct (so_parent _ _ _ _ _ _ Hs) as (B' & Hb' & _ & _ & Er & _).
  destruct (so_right _ _ _ _ _ _ Hs) as (R & HR & HfR & _ & OR & _).
  cbn [split_down]. rewrite (st_bind_run _ _ _ _ _ E). cbn [Z.eqb negb].
  rewrite (st_bind_run _ _ _ _ _ (get_block_run _ _ _ Hb')), Er.
  rewrite (st_bind_run _ _ mm1 r mm1) by done.
  destruct (IH r R mm1) as (b' & mm' & E' & Hk' & Hf'); [apply Hk|done|done|lia|].
  exists b', mm'. split; [done|]. split; [by eapply keepsd_trans|].
  replace (ord B - Z.of_nat (S n)) with (ord R - Z.of_nat n) by lia. done.
Qed.

(** [alloc_from_freelist] either returns a free block of the order asked for,
    or fails with -ENOSPC without touching anything, and then only because no
    block of that order or above is free. *)
Lemma alloc_from_freelist_ok mm order flags :
  wf None None mm -> 0 <= order <= max_order mm ->
  exists r mm', alloc_from_freelist slab_ok order flags mm = Some (r, mm') /\ keepsd None mm mm' /\
    match r with
    | PTR b => free_block mm' b order
    | ERR_PTR e => e = - ENOSPC /\ mm' = mm /\ forall b o, order <= o -> ~ free_block mm b o
    end.
Proof.
  intros Hwf Ho. unfold alloc_from_freelist. rewrite (st_bind_run _ _ mm (max_order mm) mm) by done.
  set (n := Z.to_nat (max_order mm - order + 1)).
  assert (exists found, (if has_flag flags DRM_BUDDY_TOPDOWN_ALLOCATION then
              st_bind (get_maxblock order flags) (fun block =>
              match block with
              | None => st_ret None
              | Some b => st_bind (get_block b) (fun B => st_ret (Some (b, drm_buddy_block_order B)))
              end)
            else find_compatible n order flags) mm = Some (found, mm) /\
    forall b t, found = Some (b, t) -> free_block mm b t /\ order <= t <= max_order mm) as (found & E1 & H1).
  { destruct (has_flag flags DRM_BUDDY_TOPDOWN_ALLOCATION).
    - destruct (get_maxblock_loop_ok None mm Hwf n order flags None None) as (r & E & Hr);
        [lia|unfold n; lia|by intros b [?|?]|].
      assert (get_maxblock order flags mm = Some (r, mm)) as Em.
      { unfold get_maxblock. by rewrite (st_bind_run _ _ mm (max_order mm) mm). }
      rewrite (st_bind_run _ _ _ _ _ Em). destruct r as [b|]; [|exists None; split; [done|done]].
      destruct (Hr b eq_refl) as (o & (B & HB & HfB & OB) & [?|[?|?]]); [done|done|].
      rewrite (st_bind_run _ _ _ _ _ (get_block_run _ _ _ HB)).
      eexists. split; [done|]. intros b' t [= <- <-]. rewrite OB. split; [by exists B|done].
    - destruct (find_compatible_ok None mm Hwf n order flags) as (r & E & Hr); [lia|unfold n; lia|].
      exists r. split; [done|]. intros b t ->. done. }
  rewrite (st_bind_run _ _ _ _ _ E1).
  assert (exists found', (match found with Some bt => st_ret (Some bt) | None => find_any n order end) mm
      = Some (found', mm) /\
    match found' with
    | Some (b, t) => free_block mm b t /\ order <= t <= max_order mm
    | None => forall b o, order <= o -> ~ free_block mm b o
    end) as (found' & E2 & H2).
  { destruct found as [[b t]|]; [exists (Some (b, t)); split; [done|by apply H1]|].
    destruct (find_any_ok None mm Hwf n order) as (r & E & Hr); [lia|unfold n; lia|].
    exists r. split; [done|]. destruct r as [[b t]|]; [done|].
    intros b o Hoo Hf. apply (Hr b o); [|done].
    destruct Hf as (B & HB & _ & <-). pose proof (bk_ord _ _ _ _ (wf_blk _ _ _ Hwf _ _ HB)).
    unfold n. lia. }
  rewrite (st_bind_run _ _ _ _ _ E2). destruct found' as [[b t]|].
  - destruct H2 as [(B & HB & HfB & OB) Ht].
    rewrite (st_bind_run _ _ _ _ _ (get_block_run _ _ _ HB)), HfB.
    rewrite (st_bind_run _ _ mm tt mm) by done.
    destruct (split_down_ok None (Z.to_nat (t - order)) b B mm Hwf HB HfB) as (b' & mm' & E & Hk & Hf);
      [lia|].
    exists (PTR b'), mm'. split; [done|]. split; [done|].
    replace order with (ord B - Z.of_nat (Z.to_nat (t - order))) by lia. done.
  - exists (ERR_PTR (- ENOSPC)), mm. split; [done|]. split; [by apply keepsd_refl|]. done.
Qed.
End SplitDown.

(** ** Blocks taken by an operation

    [grab det mm mm' new]: going from [mm] to [mm'], the blocks [new] were
    handed out and nothing else a client sees changed. *)

Record grab (det : option (bid * bid)) (mm mm' : drm_buddy) (new : list bid) : Prop := {
  gr_wf : wf det None mm';
  gr_geometry : same_geometry mm mm';
  gr_nodup : NoDup new;
  gr_new : forall b, b ∈ new -> is_Some (allocs mm' !! b) /\ allocs mm !! b = None;
  gr_old : drop_keys (allocs mm') new = allocs mm;
  gr_avail : avail mm' = avail mm - sumZ (held mm') new
}.

Lemma grab_nil det mm : wf det None mm -> grab det mm mm [].
Proof. intros. constructor; try done; [constructor|set_solver|simpl; lia]. Qed.

Lemma grab_keeps det mm mm1 mm2 new : grab det mm mm1 new -> keepsd det mm1 mm2 -> grab det mm mm2 new.
Proof.
  intros [? ? ? ? ? Ha] (? & Hg & Hav & Hal). constructor; rewrite ?Hal; try done.
  - by etransitivity.
  - rewrite Hav, Ha. f_equal. apply sumZ_ext. intros b _. unfold held. rewrite Hal.
    by destruct Hg as [_ _ -> _].
Qed.

Lemma grab_take det mm mm1 new b o :
  grab det mm mm1 new -> free_block mm1 b o ->
  exists mm2, take_block b mm1 = Some (chunk_size mm1 * 2 ^ o, mm2) /\
    grab det mm mm2 (new ++ [b]) /\
    (forall B, heap mm1 !! b = Some B -> allocs mm2 !! b = Some (off B, o)) /\
    (forall k, k ∈ new -> allocs mm2 !! k = allocs mm1 !! k) /\
    (forall k K, k <> b -> heap mm1 !! k = Some K -> heap mm2 !! k = Some K) /\
    same_geometry mm1 mm2 /\
    sumZ (held mm2) (new ++ [b]) = sumZ (held mm1) new + chunk_size mm * 2 ^ o.
Proof.
  intros [Hw Hg Hnd Hnew Hold Hav] (B & HB & Hf & Ho).
  destruct (take_block_spec det mm1 b B Hw HB Hf) as (mm2 & E & Hw2 & Hg2 & Hh & Ha).
  assert (is_alloc B = false) as Hna.
  { pose proof (bst_none_inv b B) as Hi. rewrite (bst_none_free b B Hf) in Hi. tauto. }
  assert (allocs mm1 !! b = None) as Hb1 by (by rewrite (allocs_lookup _ _ _ HB), Hna).
  assert (b ∉ new) as Hbn.
  { intros Hin. destruct (Hnew b Hin) as [[v Hv] _]. congruence. }
  assert (allocs mm2 = <[b := (off B, ord B)]> (allocs mm1)) as Hal.
  { rewrite (allocs_insert_alloc _ _ _ _ Hh (state_alloc B)).
    by rewrite off_with_state, ord_with_state by done. }
  assert (allocs mm !! b = None) as Hb0.
  { rewrite <- Hold, drop_keys_lookup. by case_decide. }
  assert (forall k, k ∈ new -> allocs mm2 !! k = allocs mm1 !! k) as Hsame.
  { intros k Hk. rewrite Hal. apply lookup_insert_ne. congruence. }
  assert (sumZ (held mm2) (new ++ [b]) = sumZ (held mm1) new + chunk_size mm * 2 ^ o) as Hsum.
  { rewrite sumZ_app. simpl. unfold held at 2. rewrite Hal, lookup_insert_eq. simpl. unfold asz. simpl.
    destruct Hg as [_ _ Ec _], Hg2 as [_ _ Ec2 _]. rewrite Ec2, Ec, Ho, Z.add_0_r. f_equal.
    apply sumZ_ext. intros k Hk. unfold held. rewrite Hsame, Ec2 by done. done. }
  exists mm2. split; [unfold bsz in E; by rewrite Ho in E|].
  split; [|split; [|split_and!; try done]].
  - constructor; try done.
    + by etransitivity.
    + apply NoDup_app. split_and!; [done| |apply NoDup_singleton]. set_solver.
    + intros k Hk. apply elem_of_app in Hk as [Hk|Hk%list_elem_of_singleton].
      * rewrite Hsame by done. by apply Hnew.
      * subst k. rewrite Hal, lookup_insert_eq. eauto.
    + apply map_eq. intros k. rewrite drop_keys_lookup, <- Hold, drop_keys_lookup, Hal.
      destruct (decide (k = b)) as [->|].
      * rewrite decide_True, decide_False by set_solver. done.
      * rewrite lookup_insert_ne by done. repeat case_decide; set_solver.
    + rewrite Hsum, Ha, Hav. unfold bsz. rewrite Ho. destruct Hg as [_ _ -> _]. lia.
  - intros B' HB'. rewrite Hal, lookup_insert_eq. congruence.
  - intros k K Hk HK. rewrite Hh, lookup_insert_ne; done.
Qed.

(** Handing everything back restores what was there. *)
Lemma grab_free mm mm1 new :
  grab None mm mm1 new ->
  exists mm2, drm_buddy_free_list_internal new mm1 = Some (tt, mm2) /\ keepsd None mm mm2.
Proof.
  intros [Hw Hg Hnd Hnew Hold Hav].
  destruct (drm_buddy_free_list_ok mm1 new false false Hw Hnd) as (mm2 & E & Hw2 & Hg2 & Ha2 & Hal2).
  { intros b Hb. by apply Hnew. }
  exists mm2. split; [done|]. split_and!; [done|by etransitivity|lia|congruence].
Qed.

Lemma grab_total det mm mm' new :
  wf det None mm -> grab det mm mm' new -> 0 <= sumZ (held mm') new <= mm_size mm.
Proof.
  intros Hwf [Hw _ _ Hnew _ Hav]. pose proof (wf_avail_bounds mm Hwf). pose proof (wf_avail_bounds mm' Hw).
  split; [|lia]. apply sumZ_nonneg. intros b Hb. destruct (Hnew b Hb) as [[v Hv] _].
  unfold held. rewrite Hv. simpl. unfold asz. destruct (allocs_inv _ _ _ Hv) as (B & HB & _ & ->).
  pose proof (wf_chunk_pos mm' Hw). simpl. assert (0 <= 2 ^ ord B) by (apply Z.pow_nonneg; lia). nia.
Qed.
