(* ===== verification/BuddyRange.v ===== *)
(** * The DRM buddy allocator: the depth-first range walks

    [__alloc_range_bias] looks for one free block of a given order inside an
    address range, [__alloc_range] takes every block of a range. Both walk the
    block trees depth first and split what straddles the range. *)

From S2P Require Import Prelude Buddy BuddyInv BuddyOps BuddyFree BuddyAlloc.
From stdpp Require Import gmap list sorting.
From Stdlib Require Import ZArith Lia.

Local Open Scope Z_scope.

(** ** The cost of a walk

    A block of order [o] stands for a tree of at most [2 ^ (o + 1) - 1] nodes. *)

Definition node_cost (mm : drm_buddy) (b : bid) : Z :=
  match heap mm !! b with Some B => 2 ^ (ord B + 1) - 1 | None => 0 end.
Definition walk_cost (mm : drm_buddy) (dfs : list bid) : Z := sumZ (node_cost mm) dfs.

Lemma node_cost_some mm b B : heap mm !! b = Some B -> node_cost mm b = 2 ^ (ord B + 1) - 1.
Proof. unfold node_cost. by intros ->. Qed.

Lemma node_cost_pos det mm b B :
  wf det None mm -> heap mm !! b = Some B -> 1 <= node_cost mm b.
Proof.
  intros Hwf HB. rewrite (node_cost_some _ _ _ HB).
  pose proof (bk_ord _ _ _ _ (wf_blk _ _ _ Hwf _ _ HB)).
  assert (2 ^ 1 <= 2 ^ (ord B + 1)) by (apply Z.pow_le_mono_r; lia). lia.
Qed.

(** A walk only ever splits blocks: those it already knew keep their place. *)
Definition same_place (mm mm' : drm_buddy) : Prop :=
  forall k K, heap mm !! k = Some K ->
    exists K', heap mm' !! k = Some K' /\ off K' = off K /\ ord K' = ord K.

Lemma walk_cost_same mm mm' dfs :
  same_place mm mm' -> (forall b, b ∈ dfs -> is_Some (heap mm !! b)) ->
  walk_cost mm' dfs = walk_cost mm dfs.
Proof.
  intros Hs Hd. apply sumZ_ext. intros b Hb. destruct (Hd b Hb) as [B HB].
  destruct (Hs b B HB) as (B' & HB' & _ & E).
  by rewrite (node_cost_some _ _ _ HB), (node_cost_some _ _ _ HB'), E.
Qed.

(** ** Opening a node of a walk: its two halves, split off if need be *)

Section Walk.
Context (slab_ok : positive -> bool).
Hypothesis slab_total : forall n, slab_ok n = true.

Record opened (mm : drm_buddy) (b : bid) (B : drm_buddy_block) (mm' : drm_buddy) (l r : bid)
    : Prop := {
  op_node : exists B', heap mm' !! b = Some B' /\ b_left B' = Some l /\ b_right B' = Some r;
  op_left : exists L, heap mm' !! l = Some L /\ off L = off B /\ ord L = ord B - 1 /\
    (is_free B = true -> is_free L = true);
  op_right : exists R, heap mm' !! r = Some R /\ off R = off B + chunk_size mm * 2 ^ (ord B - 1) /\
    ord R = ord B - 1 /\ (is_free B = true -> is_free R = true);
  op_place : same_place mm mm';
  op_other : forall k K, k <> b -> heap mm !! k = Some K -> heap mm' !! k = Some K;
  op_fresh : is_free B = true -> heap mm !! l = None /\ heap mm !! r = None /\ l <> r
}.

Lemma open_split det mm b B :
  wf det None mm -> heap mm !! b = Some B -> is_split B = true ->
  exists l r, opened mm b B mm l r.
Proof.
  intros Hwf HB Hs. pose proof (bst_none_split b B Hs) as Hst.
  destruct (wf_split _ _ _ Hwf b B HB Hst) as (l & r & L & R & El & Er & HL & HR & _ & _ & OL & OR & FL & FR).
  assert (is_free B = false) as Hf.
  { destruct (is_free B) eqn:E; [|done]. rewrite (bst_none_free b B E) in Hst. done. }
  exists l, r. constructor.
  - eauto.
  - exists L. split_and!; [done..|congruence].
  - exists R. split_and!; [done| |done|congruence]. rewrite FR. unfold bsz. by rewrite OL.
  - intros k K HK. eauto.
  - done.
  - congruence.
Qed.

Lemma open_free det mm b B :
  wf det None mm -> heap mm !! b = Some B -> is_free B = true -> 0 < ord B ->
  exists mm' l r, split_block slab_ok b mm = Some (0, mm') /\ keepsd det mm mm' /\
    opened mm b B mm' l r /\ clear_avail mm' = clear_avail mm.
Proof.
  intros Hwf HB Hf Ho. destruct (split_keepsd slab_ok slab_total det mm b B Hwf HB Hf Ho)
    as (mm' & l & r & E & Hk & Hs).
  exists mm', l, r. split; [done|]. split; [done|]. split; [|by eapply so_clear_avail].
  destruct Hs as [(B' & Hb' & _ & El & Er & FB & OB) (L & HL & HfL & FL & OL & _)
    (R & HR & HfR & FR & OR & _) Hoth (Nl & Nr & Nlr) _ _ _].
  constructor.
  - eauto.
  - exists L. by split_and!.
  - exists R. by split_and!.
  - intros k K HK. destruct (decide (k = b)) as [->|].
    + exists B'. rewrite HB in HK. injection HK as <-. done.
    + exists K. rewrite Hoth; [done|done|congruence|congruence].
  - intros k K Hkb HK. rewrite Hoth; [done|done|congruence|congruence].
  - done.
Qed.

Lemma open_node det mm b B :
  wf det None mm -> heap mm !! b = Some B -> is_alloc B = false ->
  (is_free B = true -> 0 < ord B) ->
  exists mm' l r,
    (if negb (is_split B) then split_block slab_ok b else st_ret 0) mm = Some (0, mm') /\
    keepsd det mm mm' /\ opened mm b B mm' l r /\ clear_avail mm' = clear_avail mm.
Proof.
  intros Hwf HB Ha Ho. pose proof (bst_none_inv b B) as Hinv.
  pose proof (bk_state _ _ _ _ (wf_blk _ _ _ Hwf _ _ HB)) as Hst.
  destruct (bst None b B); try done; destruct Hinv as (E1 & E2 & E3); [congruence|..].
  - rewrite E3. simpl. apply (open_free det mm b B); auto.
  - rewrite E3. simpl. destruct (open_split det mm b B) as (l & r & H); [done..|].
    exists mm, l, r. split; [done|]. split; [by apply keepsd_refl|]. done.
Qed.

(** The code both walks share for a node they descend into. *)
Lemma open_run det mm b B :
  wf det None mm -> heap mm !! b = Some B -> is_alloc B = false ->
  (is_free B = true -> 0 < ord B) ->
  exists mm' l r, keepsd det mm mm' /\ opened mm b B mm' l r /\
    forall A (undo : Z -> stM drm_buddy A) (k : bid -> bid -> stM drm_buddy A),
    st_bind (if negb (is_split B) then split_block slab_ok b else st_ret 0) (fun err =>
      if negb (err =? 0) then undo err
      else st_bind (get_block b) (fun B =>
           st_bind (deref (b_left B)) (fun l => st_bind (deref (b_right B)) (fun r => k l r)))) mm
    = k l r mm'.
Proof using slab_total.
  intros Hwf HB Ha Ho. destruct (open_node det mm b B Hwf HB Ha Ho) as (mm1 & l & r & E1 & Hk1 & Hop & _).
  exists mm1, l, r. split; [done|]. split; [done|]. intros A undo k.
  rewrite (st_bind_run _ _ _ _ _ E1). cbn [Z.eqb negb].
  destruct (op_node _ _ _ _ _ _ Hop) as (B' & HB' & El & Er).
  rewrite (st_bind_run _ _ _ _ _ (get_block_run _ _ _ HB')), El, Er. unfold deref, st_of_option.
  by rewrite !(st_bind_run _ _ mm1 _ mm1 eq_refl).
Qed.

Lemma opened_ord det mm b B mm' l r : wf det None mm' -> opened mm b B mm' l r -> 1 <= ord B.
Proof.
  intros Hw H. destruct (op_left _ _ _ _ _ _ H) as (L & HL & _ & OL & _).
  pose proof (bk_ord _ _ _ _ (wf_blk _ _ _ Hw _ _ HL)). lia.
Qed.

Lemma opened_cost det mm b B mm' l r dfs :
  wf det None mm' -> heap mm !! b = Some B -> opened mm b B mm' l r ->
  (forall k, k ∈ dfs -> is_Some (heap mm !! k)) ->
  walk_cost mm' (l :: r :: dfs) = walk_cost mm (b :: dfs) - 1.
Proof.
  intros Hwf HB H Hd. pose proof (opened_ord _ _ _ _ _ _ _ Hwf H).
  destruct H as [_ (L & HL & _ & OL & _) (R & HR & _ & OR & _) Hp _ _].
  unfold walk_cost. cbn [sumZ foldr]. fold (sumZ (node_cost mm') dfs) (sumZ (node_cost mm) dfs).
  fold (walk_cost mm' dfs) (walk_cost mm dfs). rewrite (walk_cost_same mm mm' dfs Hp Hd).
  rewrite (node_cost_some _ _ _ HL), (node_cost_some _ _ _ HR), (node_cost_some _ _ _ HB), OL, OR.
  replace (ord B + 1) with (Z.succ (ord B - 1 + 1)) by lia. rewrite Z.pow_succ_r by lia. lia.
Qed.

Lemma opened_dom mm b B mm' l r dfs :
  opened mm b B mm' l r -> (forall k, k ∈ dfs -> is_Some (heap mm !! k)) ->
  forall k, k ∈ l :: r :: dfs -> is_Some (heap mm' !! k).
Proof.
  intros [_ (L & HL & _) (R & HR & _) Hp _ _] Hd k.
  rewrite !elem_of_cons. intros [->|[->|Hk]]; [eauto..|].
  destruct (Hd k Hk) as [K HK]. destruct (Hp k K HK) as (K' & -> & _). eauto.
Qed.

(** ** [__alloc_range_bias] *)

(** A block of the order asked for that straddles the range is passed over: the
    aligned part of the overlap is empty. *)
Lemma bias_no_split k bs start end_ :
  0 <= k <= 64 -> 0 <= bs -> bs mod 2 ^ k = 0 -> bs + 2 ^ k < 2 ^ 64 ->
  0 <= start -> 0 <= end_ ->
  overlaps start end_ bs (bs + 2 ^ k - 1) = true ->
  (bs <? start) || (end_ <? bs + 2 ^ k - 1) = true ->
  round_down (u64 (Z.min (bs + 2 ^ k - 1) end_ + 1)) (2 ^ k) <= round_up (Z.max bs start) (2 ^ k).
Proof using.
  clear slab_total slab_ok. intros Hk Hbs Hal Htop Hst Hend Hov Hpart.
  unfold overlaps in Hov. apply andb_true_iff in Hov as [O1%Z.leb_le O2%Z.leb_le].
  assert (0 < 2 ^ k) by (apply Z.pow_pos_nonneg; lia).
  apply Z.mod_divide in Hal as [q ->]; [|lia].
  rewrite wrap_small by lia. rewrite round_down_pow2 by lia.
  destruct (Z.ltb_spec (q * 2 ^ k) start) as [Hs|Hs].
  - (* the lower end is cut: the overlap ends where the aligned part would start *)
    rewrite Z.max_r, round_up_pow2 by lia.
    assert ((start - 1) / 2 ^ k = q) as ->.
    { symmetry. apply (Z.div_unique _ _ q (start - 1 - q * 2 ^ k)); lia. }
    rewrite wrap_small by nia.
    pose proof (Z.mod_pos_bound (Z.min (q * 2 ^ k + 2 ^ k - 1) end_ + 1) (2 ^ k)). nia.
  - (* only the upper end is cut *)
    simpl in Hpart. apply Z.ltb_lt in Hpart. rewrite Z.max_l, Z.min_r by lia.
    assert (round_up (q * 2 ^ k) (2 ^ k) = q * 2 ^ k) as ->.
    { destruct (Z.eq_dec q 0) as [->|]; [by apply round_up_0|].
      rewrite round_up_pow2 by nia.
      assert ((q * 2 ^ k - 1) / 2 ^ k = q - 1) as ->.
      { symmetry. apply (Z.div_unique _ _ (q - 1) (2 ^ k - 1)); lia. }
      rewrite wrap_small by nia. lia. }
    replace (end_ + 1) with (end_ + 1 - q * 2 ^ k + q * 2 ^ k) at 2 by lia.
    rewrite Z.mod_add, Z.mod_small by lia. lia.
Qed.

(** What a successful search returns. *)
Definition block_in (mm : drm_buddy) (b : bid) (order start end_ : Z) : Prop :=
  exists B, heap mm !! b = Some B /\ is_free B = true /\ ord B = order /\
    start <= off B /\ off B + bsz (chunk_size mm) B - 1 <= end_.

Definition bias_post (mm mm' : drm_buddy) (order start end_ : Z) (r : errptr bid) : Prop :=
  keepsd None mm mm' /\
  match r with
  | PTR b => block_in mm' b order start end_
  | ERR_PTR e => e = - ENOSPC
  end.

Lemma bias_post_trans mm mm1 mm2 order start end_ r :
  keepsd None mm mm1 -> bias_post mm1 mm2 order start end_ r -> bias_post mm mm2 order start end_ r.
Proof using. intros H [H1 H2]. split; [by eapply keepsd_trans|done]. Qed.

(** Sizes and ends of a block do not wrap. *)
Lemma block_end_nowrap det mm b B :
  wf det None mm -> heap mm !! b = Some B ->
  drm_buddy_block_size mm B = bsz (chunk_size mm) B /\
  u64 (off B + bsz (chunk_size mm) B - 1) = off B + bsz (chunk_size mm) B - 1.
Proof using.
  clear slab_total slab_ok. intros Hwf HB. split; [by apply (block_size_bsz mm b B Hwf)|].
  pose proof (bsz_pos mm b B Hwf HB). pose proof (wf_size _ _ _ Hwf).
  destruct (bk_off _ _ _ _ (wf_blk _ _ _ Hwf _ _ HB)). rewrite wrap_small; lia.
Qed.

Lemma bias_order_split det mm b B order start end_ :
  wf det None mm -> heap mm !! b = Some B -> 0 <= start -> 0 <= end_ ->
  overlaps start end_ (off B) (off B + bsz (chunk_size mm) B - 1) = true ->
  ((off B <? start) || (end_ <? off B + bsz (chunk_size mm) B - 1)) &&
  (round_down (u64 (Z.min (off B + bsz (chunk_size mm) B - 1) end_ + 1)) (u64 (Z.shiftl (chunk_size mm) order))
    <=? round_up (Z.max (off B) start) (u64 (Z.shiftl (chunk_size mm) order))) = false ->
  ord B = order ->
  contains start end_ (off B) (off B + bsz (chunk_size mm) B - 1) = true.
Proof using.
  clear slab_total slab_ok. intros Hwf HB Hst Hend Hov Hc <-.
  pose proof (block_end_nowrap _ _ _ _ Hwf HB) as [Esz _]. unfold drm_buddy_block_size in Esz.
  fold (ord B) in Esz. rewrite Esz in Hc.
  destruct (wf_chunk _ _ _ Hwf) as (c & Hc12 & Ec). pose proof (bk_ord _ _ _ _ (wf_blk _ _ _ Hwf _ _ HB)).
  pose proof (wf_size _ _ _ Hwf). destruct (bk_off _ _ _ _ (wf_blk _ _ _ Hwf _ _ HB)) as [Ho1 Ho2].
  pose proof (bk_align _ _ _ _ (wf_blk _ _ _ Hwf _ _ HB)) as Hal.
  assert (bsz (chunk_size mm) B = 2 ^ (c + ord B)) as E by (unfold bsz; rewrite Ec, Z.pow_add_r; lia).
  rewrite E in *.
  destruct ((off B <? start) || (end_ <? off B + 2 ^ (c + ord B) - 1)) eqn:Ep.
  - exfalso. simpl in Hc. apply Z.leb_gt in Hc.
    assert (c + ord B <= 64) by (apply (Z.pow_le_mono_r_iff 2); lia).
    assert (0 <= c + ord B) by lia.
    pose proof (bias_no_split (c + ord B) (off B) start end_ ltac:(lia) Ho1 Hal ltac:(lia) Hst Hend Hov Ep). lia.
  - apply orb_false_iff in Ep as [E1%Z.ltb_ge E2%Z.ltb_ge]. unfold contains.
    apply andb_true_iff. split; apply Z.leb_le; lia.
Qed.

Lemma range_bias_loop_ok fuel start end_ order flags fallback dfs mm :
  wf None None mm -> 0 <= start -> 0 <= end_ -> 0 <= order ->
  (forall b, b ∈ dfs -> is_Some (heap mm !! b)) -> walk_cost mm dfs < Z.of_nat fuel ->
  exists r mm', __alloc_range_bias_loop slab_ok fuel start end_ order flags fallback dfs mm = Some (r, mm') /\
    bias_post mm mm' order start end_ r.
Proof using slab_total.
  intros Hwf Hst Hend Hor. revert dfs mm Hwf.
  induction fuel as [|fuel IH]; intros dfs mm Hwf Hdom Hcost.
  { assert (0 <= walk_cost mm dfs); [|lia]. apply sumZ_nonneg. intros b Hb.
    destruct (Hdom b Hb) as [B HB]. pose proof (node_cost_pos _ _ _ _ Hwf HB). lia. }
  destruct dfs as [|b dfs].
  { exists (ERR_PTR (- ENOSPC)), mm. split; [done|]. split; [by apply keepsd_refl|done]. }
  destruct (Hdom b ltac:(set_solver)) as [B HB].
  assert (forall k, k ∈ dfs -> is_Some (heap mm !! k)) as Hdom' by (intros; apply Hdom; set_solver).
  pose proof (node_cost_pos _ _ _ _ Hwf HB) as Hc1.
  assert (walk_cost mm (b :: dfs) = node_cost mm b + walk_cost mm dfs) as Ecost by done.
  destruct (IH dfs mm Hwf Hdom' ltac:(lia)) as (r0 & mm0 & E0 & H0).
  assert (exists r mm', __alloc_range_bias_loop slab_ok fuel start end_ order flags fallback dfs mm
    = Some (r, mm') /\ bias_post mm mm' order start end_ r) as Hcont by eauto.
  cbn [__alloc_range_bias_loop]. rewrite (st_bind_run _ _ _ _ _ (get_block_run _ _ _ HB)).
  rewrite (st_bind_run _ _ mm (chunk_size mm) mm) by done. fold (ord B).
  destruct (ord B <? order) eqn:Hlt; [exact Hcont|]. apply Z.ltb_ge in Hlt.
  rewrite (st_bind_run _ _ _ _ _ (block_size_run _ _ _ HB)).
  destruct (block_end_nowrap _ _ _ _ Hwf HB) as [-> ->]. fold (off B).
  destruct (overlaps start end_ (off B) _) eqn:Hov; [|exact Hcont]. cbn [negb].
  fold (is_alloc B). destruct (is_alloc B) eqn:Hal; [exact Hcont|].
  match goal with |- context [if ?c then _ else _] => destruct c eqn:Hcut end; [exact Hcont|].
  destruct (negb fallback && block_incompatible B flags); [exact Hcont|].
  pose proof (bias_order_split _ _ _ _ order start end_ Hwf HB Hst Hend Hov Hcut) as Hsame.
  match goal with |- context [if ?c then _ else _] => destruct c eqn:Hin end.
  { fold (is_free B). destruct (is_free B) eqn:Hf; [|exact Hcont].
    exists (PTR b), mm. split; [done|]. split; [by apply keepsd_refl|].
    unfold contains in Hin. rewrite !andb_true_iff, !Z.leb_le, Z.eqb_eq in Hin.
    exists B. split_and!; try done; lia. }
  assert (ord B <> order) as Hne.
  { intros E. rewrite (Hsame E) in Hin. apply Z.eqb_neq in Hin. lia. }
  fold (is_split B). destruct (open_run None mm b B) as (mm1 & l & r & Hk1 & Hop & E1);
    [done..|lia|rewrite E1; clear E1].
  destruct (IH (l :: r :: dfs) mm1) as (r2 & mm2 & E2 & H2).
  - apply Hk1.
  - by eapply opened_dom.
  - rewrite (opened_cost None mm b B mm1 l r dfs); [lia|apply Hk1|done..].
  - exists r2, mm2. split; [done|]. by eapply bias_post_trans.
Qed.

(** The walk starts at the roots; [end_ - 1] is the last byte of the range. *)
Lemma alloc_range_bias_ok fuel start end_ order flags fallback mm :
  wf None None mm -> 0 <= start -> 0 <= order -> walk_cost mm (roots mm) < Z.of_nat fuel ->
  exists r mm', __alloc_range_bias slab_ok fuel start end_ order flags fallback mm = Some (r, mm') /\
    bias_post mm mm' order start (u64 (end_ - 1)) r.
Proof using slab_total.
  intros Hwf Hst Hor Hf. unfold __alloc_range_bias.
  rewrite (st_bind_run _ _ mm (roots mm) mm) by done.
  apply range_bias_loop_ok; try done.
  - apply wrap_range. lia.
  - intros b Hb. apply (wf_roots _ _ _ Hwf) in Hb as (B & -> & _). eauto.
Qed.
End Walk.

(** ** [__alloc_range] *)

(** How much of the range a node covers. *)
Definition overlap (mm : drm_buddy) (s e : Z) (b : bid) : Z :=
  match heap mm !! b with
  | Some B => Z.max 0 (Z.min e (off B + bsz (chunk_size mm) B) - Z.max s (off B))
  | None => 0
  end.

(** The nodes still to visit are free and cover what is missing: the situation
    of [drm_buddy_block_trim], in which the walk cannot fail. *)
Definition tiles (mm : drm_buddy) (s e total : Z) (dfs : list bid) : Prop :=
  NoDup dfs /\ (forall b, b ∈ dfs -> exists o, free_block mm b o) /\
  e - s <= total + sumZ (overlap mm s e) dfs.

Lemma overlap_frame mm mm' s e dfs :
  chunk_size mm' = chunk_size mm ->
  (forall b, b ∈ dfs -> exists B B', heap mm !! b = Some B /\ heap mm' !! b = Some B' /\
     off B' = off B /\ ord B' = ord B) ->
  sumZ (overlap mm' s e) dfs = sumZ (overlap mm s e) dfs.
Proof.
  intros Ec H. apply sumZ_ext. intros b Hb. destruct (H b Hb) as (B & B' & HB & HB' & F & O).
  unfold overlap, bsz. by rewrite HB, HB', F, O, Ec.
Qed.

Lemma tiles_skip mm s e total b B dfs :
  heap mm !! b = Some B -> 0 <= bsz (chunk_size mm) B ->
  overlaps s (e - 1) (off B) (off B + bsz (chunk_size mm) B - 1) = false ->
  tiles mm s e total (b :: dfs) -> tiles mm s e total dfs.
Proof.
  intros HB Hpos Hov (Hnd & Hf & Hc). apply NoDup_cons in Hnd as [_ Hnd].
  split_and!; [done|intros; apply Hf; set_solver|]. simpl in Hc.
  assert (overlap mm s e b = 0) as E; [|lia]. unfold overlap. rewrite HB.
  unfold overlaps in Hov. apply andb_false_iff in Hov. rewrite !Z.leb_gt in Hov. lia.
Qed.

Lemma tiles_take mm mm2 s e total b B o dfs :
  heap mm !! b = Some B -> ord B = o -> 0 <= bsz (chunk_size mm) B -> chunk_size mm2 = chunk_size mm ->
  (forall k K, k <> b -> heap mm !! k = Some K -> heap mm2 !! k = Some K) ->
  contains s (e - 1) (off B) (off B + bsz (chunk_size mm) B - 1) = true ->
  tiles mm s e total (b :: dfs) -> tiles mm2 s e (total + chunk_size mm * 2 ^ o) dfs.
Proof.
  intros HB Ho Hpos Ec Hfr Hin (Hnd & Hf & Hc). apply NoDup_cons in Hnd as [Hbd Hnd].
  assert (forall k, k ∈ dfs -> exists K, heap mm !! k = Some K /\ heap mm2 !! k = Some K) as Hs.
  { intros k Hk. destruct (Hf k ltac:(set_solver)) as (o' & K & HK & _). exists K.
    split; [done|]. apply Hfr; [congruence|done]. }
  split_and!; [done| |].
  - intros k Hk. destruct (Hs k Hk) as (K & HK & HK2).
    destruct (Hf k ltac:(set_solver)) as (o' & K' & HK' & ? & ?). exists o', K'. split_and!; [congruence|done..].
  - rewrite (overlap_frame mm mm2); [|done|].
    + simpl in Hc. assert (overlap mm s e b <= chunk_size mm * 2 ^ o); [|lia].
      unfold overlap. rewrite HB. unfold contains in Hin. rewrite andb_true_iff, !Z.leb_le in Hin.
      unfold bsz in *. rewrite Ho in *. lia.
    + intros k Hk. destruct (Hs k Hk) as (K & ? & ?). eauto 6.
Qed.

Lemma tiles_open det mm mm2 s e total b B l r dfs :
  wf det None mm2 -> heap mm !! b = Some B -> chunk_size mm2 = chunk_size mm ->
  opened mm b B mm2 l r ->
  tiles mm s e total (b :: dfs) -> tiles mm2 s e total (l :: r :: dfs).
Proof.
  intros Hw HB Ec Hop (Hnd & Hf & Hc). apply NoDup_cons in Hnd as [Hbd Hnd].
  pose proof (opened_ord _ _ _ _ _ _ _ Hw Hop) as Ho.
  assert (is_free B = true) as HfB.
  { destruct (Hf b ltac:(set_solver)) as (o & B0 & HB0 & ? & _). congruence. }
  destruct Hop as [_ (L & HL & FL & OL & HfL) (R & HR & FR & OR & HfR) _ Hoth Hfresh].
  destruct (Hfresh HfB) as (Nl & Nr & Nlr).
  assert (forall k, k ∈ dfs -> exists K, heap mm !! k = Some K /\ heap mm2 !! k = Some K /\ is_free K = true) as Hs.
  { intros k Hk. destruct (Hf k ltac:(set_solver)) as (o' & K & HK & ? & _). exists K.
    split_and!; [done| |done]. apply Hoth; [congruence|done]. }
  split_and!.
  - assert ((l ∉ dfs) /\ (r ∉ dfs)) as [].
    { split; intros Hin; destruct (Hs _ Hin) as (K & ? & _); congruence. }
    constructor; [set_solver|]. by constructor.
  - intros k. rewrite !elem_of_cons. intros [->|[->|Hk]].
    + exists (ord L), L. auto.
    + exists (ord R), R. auto.
    + destruct (Hs k Hk) as (K & _ & ? & ?). exists (ord K), K. auto.
  - simpl. rewrite (overlap_frame mm mm2); [|done|intros k Hk; destruct (Hs k Hk) as (K & ? & ? & _); eauto 6].
    simpl in Hc. assert (overlap mm s e b <= overlap mm2 s e l + overlap mm2 s e r); [|lia].
    unfold overlap. rewrite HB, HL, HR. unfold bsz. rewrite OL, OR, FL, FR, Ec.
    replace (2 ^ ord B) with (2 * 2 ^ (ord B - 1)) by (rewrite <- Z.pow_succ_r by lia; f_equal; lia).
    assert (0 <= chunk_size mm * 2 ^ (ord B - 1)).
    { rewrite <- Ec. pose proof (wf_chunk_pos mm2 Hw). assert (0 <= 2 ^ (ord B - 1)) by (apply Z.pow_nonneg; lia). nia. }
    lia.
Qed.

(** The blocks taken lie inside the range, and never exceed it together. *)
Definition within (mm : drm_buddy) (s e : Z) (l : list bid) : Prop :=
  forall b, b ∈ l -> exists f o, allocs mm !! b = Some (f, o) /\ s <= f /\ f + chunk_size mm * 2 ^ o <= e.

Lemma within_sum det mm s e l :
  wf det None mm -> s <= e -> NoDup l -> within mm s e l -> sumZ (held mm) l <= e - s.
Proof.
  intros Hwf Hse Hnd Hin.
  set (lo b := match heap mm !! b with Some B => off B | None => 0 end).
  set (hi b := match heap mm !! b with Some B => off B + bsz (chunk_size mm) B | None => 0 end).
  assert (forall b, b ∈ l -> exists B, heap mm !! b = Some B /\ is_alloc B = true /\ s <= off B /\
    off B + bsz (chunk_size mm) B <= e) as Hl.
  { intros b Hb. destruct (Hin b Hb) as (f & o & Ha & ? & ?).
    destruct (allocs_inv _ _ _ Ha) as (B & HB & ? & [= -> ->]). by exists B. }
  rewrite (sumZ_ext _ (fun b => hi b - lo b)).
  - apply disjoint_intervals_sum; [done..| |].
    + intros b Hb. destruct (Hl b Hb) as (B & HB & _ & ? & ?). pose proof (bsz_pos mm b B Hwf HB).
      unfold lo, hi. rewrite HB. lia.
    + intros x y Hx Hy Hne. destruct (Hl x Hx) as (X & HX & Ax & _). destruct (Hl y Hy) as (Y & HY & Ay & _).
      unfold lo, hi. rewrite HX, HY.
      destruct (wf_disj _ _ _ Hwf x y X Y Hne HX HY); [|by rewrite bst_none_alloc|auto..].
      by rewrite bst_none_alloc.
  - intros b Hb. destruct (Hl b Hb) as (B & HB & Ha & _). unfold held, lo, hi.
    rewrite (allocs_lookup _ _ _ HB), Ha, HB. simpl. unfold asz, bsz. simpl. lia.
Qed.

Lemma within_frame mm mm' s e l :
  chunk_size mm' = chunk_size mm -> (forall b, b ∈ l -> allocs mm' !! b = allocs mm !! b) ->
  within mm s e l -> within mm' s e l.
Proof. intros Ec Ha H b Hb. rewrite Ha, Ec by done. by apply H. Qed.

(** A free block that straddles a chunk-aligned range can be split. *)
Lemma straddle_order det mm b B s e :
  wf det None mm -> heap mm !! b = Some B ->
  s mod chunk_size mm = 0 -> e mod chunk_size mm = 0 ->
  overlaps s (e - 1) (off B) (off B + bsz (chunk_size mm) B - 1) = true ->
  contains s (e - 1) (off B) (off B + bsz (chunk_size mm) B - 1) = false -> 0 < ord B.
Proof.
  intros Hwf HB Hs He Hov Hc. pose proof (bk_ord _ _ _ _ (wf_blk _ _ _ Hwf _ _ HB)).
  pose proof (bk_align _ _ _ _ (wf_blk _ _ _ Hwf _ _ HB)) as Hal.
  pose proof (wf_chunk_pos mm Hwf) as Hcs.
  destruct (Z.eq_dec (ord B) 0) as [E|]; [exfalso|lia].
  unfold bsz in *. rewrite E in *. change (2 ^ 0) with 1 in *. rewrite Z.mul_1_r in *.
  unfold overlaps in Hov. unfold contains in Hc.
  rewrite andb_true_iff, !Z.leb_le in Hov. rewrite andb_false_iff, !Z.leb_gt in Hc.
  apply Z.mod_divide in Hs as [x ->], He as [y ->], Hal as [z Ez]; [|lia..]. rewrite Ez in *.
  destruct Hc; [assert (z + 1 <= x) by nia|assert (y <= z) by nia]; nia.
Qed.

Definition range_post (fallible : bool) (det : option (bid * bid)) (mm mm' : drm_buddy) (s e : Z) (want : bool)
    (r : range_result) : Prop :=
  (rr_err r = 0 /\ grab det mm mm' (rr_blocks r) /\ within mm' s e (rr_blocks r) /\
     sumZ (held mm') (rr_blocks r) = e - s) \/
  (fallible = true /\ det = None /\ rr_err r = - ENOSPC /\
     if want then grab det mm mm' (rr_blocks r) /\ within mm' s e (rr_blocks r) /\
                  rr_filled r = Some (sumZ (held mm') (rr_blocks r))
     else keepsd det mm mm' /\ rr_blocks r = []).

Lemma alloc_range_err_ok mm0 mm s e want allocated :
  grab None mm0 mm allocated -> within mm s e allocated ->
  exists r mm', alloc_range_err (- ENOSPC) (sumZ (held mm) allocated) allocated want mm = Some (r, mm') /\
    range_post true None mm0 mm' s e want r.
Proof.
  intros Hg Hw. unfold alloc_range_err. destruct want; simpl.
  - eexists _, mm. split; [done|]. right. by split_and!.
  - destruct (grab_free _ _ _ Hg) as (mm' & E & Hk). rewrite (st_bind_run _ _ _ _ _ E).
    eexists _, mm'. split; [done|]. right. by split_and!.
Qed.

Section RangeLoop.
Context (slab_ok : positive -> bool).
Hypothesis slab_total : forall n, slab_ok n = true.
Context (fallible : bool) (det : option (bid * bid)) (mm0 : drm_buddy) (s e : Z) (want : bool).
Hypothesis wf0 : wf det None mm0.
Hypothesis Hs : 0 <= s <= e.
Hypothesis He : e < 2 ^ 64.
Hypothesis Has : s mod chunk_size mm0 = 0.
Hypothesis Hae : e mod chunk_size mm0 = 0.

(** The state of the walk. *)
Record walking (mm : drm_buddy) (dfs : list bid) (total : Z) (allocated : list bid) : Prop := {
  wk_grab : grab det mm0 mm allocated;
  wk_within : within mm s e allocated;
  wk_total : total = sumZ (held mm) allocated;
  wk_dom : forall b, b ∈ dfs -> is_Some (heap mm !! b);
  wk_det : (fallible = true /\ det = None) \/ tiles mm s e total dfs
}.

Lemma walking_end mm total allocated :
  walking mm [] total allocated ->
  exists r mm', (if total <? e - s then alloc_range_err (- ENOSPC) total allocated want
                 else st_ret (mkRange 0 allocated None)) mm = Some (r, mm') /\
    range_post fallible det mm0 mm' s e want r.
Proof using Hs.
  intros [Hg Hw -> _ Hdet]. clear -Hs Hg Hw Hdet. destruct (Z.ltb_spec (sumZ (held mm) allocated) (e - s)).
  - destruct Hdet as [[-> ->]|(_ & _ & Hc)]; [by apply alloc_range_err_ok|simpl in Hc; lia].
  - eexists _, mm. split; [done|]. left. split_and!; try done. simpl.
    pose proof (within_sum det mm s e allocated (gr_wf _ _ _ _ Hg)
      ltac:(lia) (gr_nodup _ _ _ _ Hg) Hw). lia.
Qed.

(** The walk cannot fail on a free node. *)
Lemma walking_err mm b dfs total allocated B :
  walking mm (b :: dfs) total allocated -> heap mm !! b = Some B -> is_free B = false ->
  exists r mm', alloc_range_err (- ENOSPC) total allocated want mm = Some (r, mm') /\
    range_post fallible det mm0 mm' s e want r.
Proof using.
  clear. intros [Hg Hw -> _ Hdet] HB Hf. destruct Hdet as [[-> ->]|(_ & Hfr & _)].
  - by apply alloc_range_err_ok.
  - destruct (Hfr b ltac:(set_solver)) as (o & B' & HB' & ? & _). congruence.
Qed.

Lemma walking_take mm b dfs total allocated B :
  walking mm (b :: dfs) total allocated -> heap mm !! b = Some B -> is_free B = true ->
  contains s (e - 1) (off B) (off B + bsz (chunk_size mm) B - 1) = true ->
  exists sz mm', take_block b mm = Some (sz, mm') /\ same_place mm mm' /\
    walking mm' dfs (u64 (total + sz)) (allocated ++ [b]).
Proof using wf0.
  clear -wf0. intros [Hg Hw Ht Hd Hdet] HB Hf Hc.
  destruct (grab_take det mm0 mm allocated b (ord B) Hg) as
    (mm2 & E & Hg2 & Hb2 & Hold & Hfr & Hgeo & Hsum); [by exists B|].
  assert (chunk_size mm2 = chunk_size mm /\ chunk_size mm = chunk_size mm0) as [Ec Ec0]
    by (destruct Hgeo, (gr_geometry _ _ _ _ Hg); done).
  pose proof (bsz_pos mm b B (gr_wf _ _ _ _ Hg) HB) as Hpos.
  pose proof (grab_total _ _ _ _ wf0 Hg2) as Hbnd. pose proof (wf_size _ _ _ wf0).
  assert (u64 (total + chunk_size mm * 2 ^ ord B) = sumZ (held mm2) (allocated ++ [b])) as Eu.
  { rewrite Ht, Ec0, <- Hsum. apply wrap_small. lia. }
  assert (exists B2, heap mm2 !! b = Some B2 /\ off B2 = off B /\ ord B2 = ord B) as (B2 & HB2 & FB2 & OB2).
  { destruct (allocs_inv _ _ _ (Hb2 B HB)) as (B2 & ? & _ & [= ? ?]). by exists B2. }
  eexists _, mm2. split; [exact E|]. split.
  { intros k K HK. destruct (decide (k = b)) as [->|].
    - exists B2. by replace K with B by congruence.
    - exists K. split; [by apply Hfr|done]. }
  constructor; try done.
  - intros k Hk. apply elem_of_app in Hk as [Hk|Hk%list_elem_of_singleton].
    + rewrite Hold, Ec by done. by apply Hw.
    + subst k. exists (off B), (ord B). split; [by apply Hb2|].
      unfold contains in Hc. rewrite andb_true_iff, !Z.leb_le in Hc. unfold bsz in Hc. rewrite Ec. lia.
  - intros k Hk. destruct (Hd k ltac:(set_solver)) as [K HK]. destruct (decide (k = b)) as [->|]; [eauto|].
    rewrite (Hfr k K); eauto.
  - destruct Hdet as [?|Htl]; [by left|right]. rewrite Eu, Hsum, <- Ht, <- Ec0.
    apply (tiles_take mm mm2 s e total b B (ord B)); auto. lia.
Qed.

Lemma walking_open mm b dfs total allocated B mm' l r :
  walking mm (b :: dfs) total allocated -> heap mm !! b = Some B ->
  keepsd det mm mm' -> opened mm b B mm' l r ->
  walking mm' (l :: r :: dfs) total allocated.
Proof using.
  clear. intros [Hg Hw Ht Hd Hdet] HB Hk Hop. pose proof Hk as (Hw' & [_ _ Ec _] & _ & Hal).
  constructor.
  - by eapply grab_keeps.
  - eapply within_frame; [done| |done]. intros. by rewrite Hal.
  - rewrite Ht. apply sumZ_ext. intros k _. unfold held. by rewrite Hal, Ec.
  - eapply opened_dom; [done|]. intros. apply Hd. set_solver.
  - destruct Hdet as [?|?]; [by left|right]. by eapply tiles_open.
Qed.

Lemma range_loop_ok fuel dfs mm total allocated :
  walking mm dfs total allocated -> walk_cost mm dfs < Z.of_nat fuel ->
  exists r mm', __alloc_range_loop slab_ok fuel s (e - s) (e - 1) want dfs total allocated mm = Some (r, mm') /\
    range_post fallible det mm0 mm' s e want r.
Proof using slab_total wf0 Hs He Has Hae.
  revert dfs mm total allocated. induction fuel as [|fuel IH]; intros dfs mm total allocated Hwk Hcost.
  { assert (0 <= walk_cost mm dfs); [|lia]. apply sumZ_nonneg. intros b Hb.
    destruct (wk_dom _ _ _ _ Hwk b Hb) as [B HB].
    pose proof (node_cost_pos _ _ _ _ (gr_wf _ _ _ _ (wk_grab _ _ _ _ Hwk)) HB). lia. }
  destruct dfs as [|b dfs]; [by apply walking_end|].
  destruct (wk_dom _ _ _ _ Hwk b ltac:(set_solver)) as [B HB].
  pose proof (gr_wf _ _ _ _ (wk_grab _ _ _ _ Hwk)) as Hwf.
  assert (chunk_size mm = chunk_size mm0) as Ec
    by (destruct (gr_geometry _ _ _ _ (wk_grab _ _ _ _ Hwk)); done).
  assert (forall k, k ∈ dfs -> is_Some (heap mm !! k)) as Hd
    by (intros; apply (wk_dom _ _ _ _ Hwk); set_solver).
  pose proof (node_cost_pos _ _ _ _ Hwf HB) as Hc1. pose proof (bsz_pos mm b B Hwf HB) as Hpos.
  assert (walk_cost mm (b :: dfs) = node_cost mm b + walk_cost mm dfs) as Ecost by done.
  cbn [__alloc_range_loop]. rewrite (st_bind_run _ _ _ _ _ (get_block_run _ _ _ HB)).
  rewrite (st_bind_run _ _ _ _ _ (block_size_run _ _ _ HB)).
  destruct (block_end_nowrap _ _ _ _ Hwf HB) as [-> ->]. fold (off B) (is_alloc B) (is_free B) (is_split B).
  destruct (overlaps s (e - 1) (off B) _) eqn:Hov; cbn [negb].
  2:{ apply IH; [|lia]. destruct Hwk as [? ? ? _ Hdet]. constructor; try done.
      destruct Hdet as [?|?]; [by left|right]. eapply tiles_skip; eauto; lia. }
  pose proof (bst_none_inv b B) as Hinv.
  destruct (is_alloc B) eqn:Hal.
  { apply (walking_err mm b dfs total allocated B); auto.
    rewrite (bst_none_alloc b B Hal) in Hinv. tauto. }
  destruct (contains s (e - 1) (off B) _) eqn:Hcn; cbn [andb].
  - destruct (is_free B) eqn:Hf.
    { destruct (walking_take mm b dfs total allocated B) as (sz & mm2 & E & Hp & Hwk2); auto.
      rewrite (st_bind_run _ _ _ _ _ E). apply IH; [done|]. rewrite (walk_cost_same mm mm2); [lia|done..]. }
    rewrite (st_bind_run _ _ mm (clear_avail mm) mm) by done.
    destruct (clear_avail mm =? 0); [by apply (walking_err mm b dfs total allocated B)|].
    destruct (open_run slab_ok slab_total det mm b B) as (mm1 & l & r & Hk1 & Hop & E1);
      [done..|congruence|rewrite E1; clear E1].
    apply IH; [by eapply walking_open|]. rewrite (opened_cost det mm b B mm1 l r dfs); [lia|apply Hk1|done..].
  - rewrite (st_bind_run _ _ mm (clear_avail mm) mm) by done.
    destruct (open_run slab_ok slab_total det mm b B) as (mm1 & l & r & Hk1 & Hop & E1);
      [done..|intros _; apply (straddle_order det mm b B s e); congruence|rewrite E1; clear E1].
    apply IH; [by eapply walking_open|]. rewrite (opened_cost det mm b B mm1 l r dfs); [lia|apply Hk1|done..].
Qed.

Lemma alloc_range_ok fuel dfs :
  0 < e -> (forall b, b ∈ dfs -> is_Some (heap mm0 !! b)) -> walk_cost mm0 dfs < Z.of_nat fuel ->
  (fallible = true /\ det = None) \/ tiles mm0 s e 0 dfs ->
  exists r mm', __alloc_range slab_ok fuel dfs s (e - s) want mm0 = Some (r, mm') /\
    range_post fallible det mm0 mm' s e want r.
Proof using slab_total wf0 Hs He Has Hae.
  intros H0 Hd Hc Hdet. unfold __alloc_range. replace (u64 (s + (e - s) - 1)) with (e - 1).
  - apply range_loop_ok; [|done]. constructor; try done; [by apply grab_nil|]. intros b Hb. set_solver.
  - rewrite wrap_small; lia.
Qed.
End RangeLoop.
