(* ===== verification/BuddyTrim.v ===== *)
(** * The DRM buddy allocator: [drm_buddy_block_trim]

    Trimming gives the block back, hides its parent so that nothing merges
    above it, takes the wanted range again and restores the parent. *)

From S2P Require Import Prelude Buddy BuddyInv BuddyOps BuddyFree BuddyAlloc BuddyRange.
From stdpp Require Import gmap list sorting.
From Stdlib Require Import ZArith Lia.

Local Open Scope Z_scope.
Local Open Scope st_scope.

(** ** Hiding and restoring a parent pointer *)

Section Reparent.
Context (det det' : option (bid * bid)) (mm : drm_buddy) (b : bid) (B : drm_buddy_block) (q : option bid).
Hypothesis Hwf : wf det None mm.
Hypothesis Hb : heap mm !! b = Some B.
Hypothesis Hpar : par det' b (set_parent q B) = par det b B.
Hypothesis Hother : forall k K, k <> b -> par det' k K = par det k K.
Hypothesis Hdet : forall d p, det' = Some (d, p) -> d = b /\ q = None.

Let mm' := set_heap (<[b := set_parent q B]> (heap mm)) mm.

(** The two heaps differ in nothing [wf] reads but the parent pointer. *)
Definition alike (K K' : drm_buddy_block) : Prop :=
  header K' = header K /\ b_left K' = b_left K /\ b_right K' = b_right K.

Lemma reparent_old k K' : heap mm' !! k = Some K' ->
  exists K, heap mm !! k = Some K /\ alike K K' /\ par det' k K' = par det k K.
Proof using Hb Hpar Hother.
  simpl. destruct (decide (k = b)) as [->|Hk].
  - rewrite lookup_insert_eq. intros [= <-]. by exists B.
  - rewrite lookup_insert_ne by done. intros HK. exists K'. split_and!; auto. done.
Qed.

Lemma reparent_new k K : heap mm !! k = Some K ->
  exists K', heap mm' !! k = Some K' /\ alike K K' /\ par det' k K' = par det k K.
Proof using Hb Hpar Hother.
  simpl. destruct (decide (k = b)) as [->|Hk].
  - rewrite lookup_insert_eq. intros HK. assert (K = B) as -> by congruence.
    eexists. split_and!; done.
  - rewrite lookup_insert_ne by done. intros HK. exists K. split_and!; auto. done.
Qed.

Lemma alike_facts K K' tr k cs : alike K K' ->
  off K' = off K /\ ord K' = ord K /\ bst tr k K' = bst tr k K /\ is_clear K' = is_clear K /\
  is_alloc K' = is_alloc K /\ bsz cs K' = bsz cs K.
Proof using.
  clear. intros (E & _ & _). destruct K, K'. simpl in E. subst. done.
Qed.

Lemma reparent_fl o l : fl_ok None mm o l -> fl_ok None mm' o l.
Proof using Hb Hpar Hother.
  intros (Hn & Hs & Hin). assert (forall k, offset_of mm' k = offset_of mm k) as Eo.
  { intros k. unfold offset_of. simpl. destruct (decide (k = b)) as [->|].
    - by rewrite lookup_insert_eq, Hb.
    - by rewrite lookup_insert_ne by done. }
  split_and!; [done| |].
  - clear -Hs Eo. induction Hs as [|x l Hs IH Hf]; constructor; [done|].
    rewrite Forall_forall in Hf |- *. intros y Hy. rewrite !Eo. by apply Hf.
  - intros k. rewrite Hin. split; intros (K & HK & HS & HO).
    + destruct (reparent_new k K HK) as (K' & HK' & Ha & _).
      destruct (alike_facts K K' None k 0 Ha) as (_ & E1 & E2 & _). exists K'. by rewrite E1, E2.
    + destruct (reparent_old k K HK) as (K0 & HK0 & Ha & _).
      destruct (alike_facts K0 K None k 0 Ha) as (_ & E1 & E2 & _). exists K0. by rewrite <- E1, <- E2.
Qed.

Lemma wf_reparent : wf det' None mm'.
Proof using Hwf Hb Hpar Hother Hdet.
  assert (forall f : bid -> drm_buddy_block -> Z, f b (set_parent q B) = f b B -> msum f (heap mm') = msum f (heap mm)) as Hsum.
  { intros f E. simpl. rewrite (msum_update f (heap mm) b B) by done. lia. }
  split; try apply Hwf.
  - intros k K (K0 & HK0 & _)%reparent_old. apply (wf_fresh _ _ _ Hwf _ _ HK0).
  - intros k K (K0 & HK0 & Ha & _)%reparent_old.
    destruct (alike_facts K0 K None k (chunk_size mm) Ha) as (E1 & E2 & E3 & E4 & _ & E6).
    destruct (wf_blk _ _ _ Hwf _ _ HK0). split; simpl; rewrite ?E1, ?E2, ?E3, ?E4, ?E6; done.
  - intros p P (P0 & HP0 & Ha & _)%reparent_old.
    destruct (alike_facts P0 P None p (chunk_size mm) Ha) as (E1 & E2 & E3 & _). rewrite E3. intros HS.
    destruct (wf_split _ _ _ Hwf _ _ HP0 HS) as (l & r & L & R & El & Er & HL & HR & PL & PR & OL & OR & FL & FR).
    destruct (reparent_new l L HL) as (L' & HL' & AL & PL').
    destruct (reparent_new r R HR) as (R' & HR' & AR & PR').
    destruct (alike_facts L L' None l (chunk_size mm) AL) as (L1 & L2 & _ & _ & _ & L6).
    destruct (alike_facts R R' None r (chunk_size mm) AR) as (R1 & R2 & _).
    destruct Ha as (_ & Hl0 & Hr0).
    exists l, r, L', R'. simpl chunk_size. rewrite L6. split_and!; congruence.
  - intros k K p (K0 & HK0 & Ha & ->)%reparent_old HP.
    destruct (wf_parent _ _ _ Hwf _ _ _ HK0 HP) as (P & HPp & HS & Hch).
    destruct (reparent_new p P HPp) as (P' & HP' & AP & _).
    destruct (alike_facts P P' None p 0 AP) as (_ & _ & E3 & _). destruct AP as (_ & El & Er).
    exists P'. rewrite E3, El, Er. done.
  - intros k. simpl roots. rewrite (wf_roots _ _ _ Hwf). split.
    + intros (K & HK & HP). destruct (reparent_new k K HK) as (K' & ? & _ & E). exists K'. by rewrite E.
    + intros (K' & HK' & HP). destruct (reparent_old k K' HK') as (K & ? & _ & E). exists K. by rewrite <- E.
  - intros o l Hl. apply reparent_fl. by apply (wf_fl _ _ _ Hwf).
  - intros x y X Y Hne (X0 & HX0 & AX & _)%reparent_old (Y0 & HY0 & AY & _)%reparent_old.
    destruct (alike_facts X0 X None x (chunk_size mm) AX) as (E1 & _ & E3 & _ & _ & E6).
    destruct (alike_facts Y0 Y None y (chunk_size mm) AY) as (F1 & _ & F3 & _ & _ & F6).
    rewrite E3, F3. unfold disjoint_blocks. simpl. rewrite E1, E6, F1, F6.
    by apply (wf_disj _ _ _ Hwf x y).
  - intros d p E. destruct (Hdet d p E) as [-> ->]. exists (set_parent None B).
    split; [simpl; by rewrite lookup_insert_eq|done].
  - rewrite Hsum by done. apply Hwf.
  - rewrite Hsum by done. apply Hwf.
  - rewrite Hsum by done. apply Hwf.
Qed.

Lemma reparent_allocs : allocs mm' = allocs mm.
Proof using Hb.
  apply map_eq. intros k. unfold allocs. rewrite !lookup_omap. simpl.
  destruct (decide (k = b)) as [->|].
  - by rewrite lookup_insert_eq, Hb.
  - by rewrite lookup_insert_ne by done.
Qed.
End Reparent.

(** ** Giving the block back in place *)

Lemma release_run mm b B :
  wf None None mm -> heap mm !! b = Some B -> is_alloc B = true ->
  exists mm1 B1,
    (forall A (k : stM drm_buddy A),
       (mark_free b ;; avail_add (bsz (chunk_size mm) B) ;;
        st_when (drm_buddy_block_is_clear B) (clear_avail_add (bsz (chunk_size mm) B)) ;; k) mm = k mm1) /\
    wf None None mm1 /\ same_geometry mm mm1 /\ avail mm1 = avail mm + bsz (chunk_size mm) B /\
    allocs mm1 = delete b (allocs mm) /\ heap mm1 !! b = Some B1 /\ is_free B1 = true /\
    off B1 = off B /\ ord B1 = ord B /\ b_parent B1 = b_parent B.
Proof.
  intros Hwf Hb Ha. destruct (begin_free mm b B Hwf Hb Ha) as (Ba & Bc & Hw).
  set (mm0 := set_clear_avail _ _) in Hw.
  pose proof (bk_ord _ _ _ _ (wf_blk _ _ _ Hwf _ _ Hb)) as Ho.
  destruct (wf_free_list mm (ord B) Hwf Ho) as (l & El & Hl).
  assert (b ∉ l) as Hn by (eapply fl_ok_not_elem; eauto; by rewrite bst_none_alloc).
  destruct (finish_free mm0 b B Hw Hb) as (mm1 & E & Hw1 & Hg & Hav & Hal & Hfr).
  rewrite (mark_free_run mm0 b B l Hb El Hn) in E. injection E as E.
  exists mm1, (with_state DRM_BUDDY_FREE B). pose proof (wf_avail_bounds mm Hwf) as Hbnd.
  pose proof (wf_size _ _ _ Hwf). pose proof (bsz_pos mm b B Hwf Hb).
  split_and!; auto.
  - intros A k. rewrite (st_bind_run _ _ _ _ _ (mark_free_run mm b B l Hb El Hn)). subst mm1.
    set (sz := bsz (chunk_size mm) B) in *.
    unfold st_bind, avail_add, clear_avail_add, st_when, st_mod, st_ret, set_avail, set_clear_avail, set_heap,
      set_free_list, mm0. fold (is_clear B).
    cbn [heap next_block free_list roots n_roots max_order chunk_size mm_size avail clear_avail].
    rewrite (wrap_small 64 (avail mm + sz)) by lia.
    destruct (is_clear B); [|by rewrite Z.add_0_r].
    cbn [heap next_block free_list roots n_roots max_order chunk_size mm_size avail clear_avail].
    by rewrite (wrap_small 64 (clear_avail mm + sz)) by lia.
  - destruct Hg. by constructor.
  - subst mm1. simpl. by rewrite lookup_insert_eq.
  - apply state_free.
  - by apply off_with_state.
  - by apply ord_with_state.
Qed.

(** ** [drm_buddy_block_trim] *)

Section Trim.
Context (slab_ok : positive -> bool).
Hypothesis slab_total : forall n, slab_ok n = true.

(** The block is still there after the walk, its parent still hidden. *)
Lemma trim_node_after det mm1 mm2 b B l :
  det = match b_parent B with Some p => Some (b, p) | None => None end ->
  wf det None mm1 -> heap mm1 !! b = Some (set_parent None B) -> grab det mm1 mm2 l ->
  exists B2, heap mm2 !! b = Some B2 /\ b_parent B2 = None.
Proof using.
  clear. intros Edet Hw1 Hb1 [Hw2 [Hr _ _ _] _ _ _ _]. destruct (b_parent B) as [p|].
  - by apply (wf_det _ _ _ Hw2 b p).
  - subst det. assert (b ∈ roots mm2) as Hin.
    { rewrite Hr. apply (wf_roots _ _ _ Hw1). eauto. }
    apply (wf_roots _ _ _ Hw2) in Hin. done.
Qed.

(** The walk under the hidden parent: it takes exactly the wanted range, and
    the parent pointer is back afterwards. *)
Lemma trim_walk fuel mm b B s e :
  wf None None mm -> heap mm !! b = Some B -> is_free B = true ->
  off B <= s -> s < e -> e <= off B + bsz (chunk_size mm) B ->
  s mod chunk_size mm = 0 -> e mod chunk_size mm = 0 -> 2 ^ (ord B + 1) <= Z.of_nat fuel ->
  exists l mm',
    (put_block b (set_parent None B) ;;
     rr <- __alloc_range slab_ok fuel [b] s (e - s) false ;;
     res <- (if negb (rr_err rr =? 0) then take_block b ;; st_ret (rr_err rr, [b])
             else st_ret (0, rr_blocks rr)) ;;
     B' <- get_block b ;;
     put_block b (set_parent (b_parent B) B') ;;
     st_ret res) mm = Some ((0, l), mm') /\
    grab None mm mm' l /\ within mm' s e l /\ sumZ (held mm') l = e - s.
Proof using slab_total.
  intros Hwf Hb Hf H1 H2 H3 As Ae Hfuel.
  destruct (bk_off _ _ _ _ (wf_blk _ _ _ Hwf _ _ Hb)) as [Ho1 Ho2]. pose proof (wf_size _ _ _ Hwf).
  set (det := match b_parent B with Some p => Some (b, p) | None => None end).
  assert (forall k K, k <> b -> par det k K = par None k K) as Hoth.
  { intros k K Hk. unfold par, det. destruct (b_parent B); [|done]. by rewrite decide_False. }
  assert (wf det None (set_heap (<[b := set_parent None B]> (heap mm)) mm)) as Hw1.
  { apply (wf_reparent None det mm b B None Hwf Hb); auto.
    - unfold par, det. destruct (b_parent B); [by rewrite decide_True|done].
    - intros d p. unfold det. destruct (b_parent B); [|done]. by intros [= -> ->]. }
  pose proof (reparent_allocs mm b B None Hb) as Ha1.
  rewrite (st_bind_run _ _ _ _ _ (put_block_run _ _ _ _ Hb)).
  set (mm1 := set_heap _ mm) in *.
  assert (heap mm1 !! b = Some (set_parent None B)) as Hb1 by (simpl; by rewrite lookup_insert_eq).
  destruct (alloc_range_ok slab_ok slab_total false det mm1 s e false) with (fuel := fuel) (dfs := [b])
    as (rr & mm2 & E & Hpost); auto; try lia.
  { intros k ->%list_elem_of_singleton. eauto. }
  { unfold walk_cost. simpl. rewrite (node_cost_some _ _ _ Hb1). unfold ord in *. simpl in *. lia. }
  { right. split_and!; [apply NoDup_singleton| |].
    - intros k ->%list_elem_of_singleton. by eexists _, _.
    - simpl. unfold overlap. rewrite Hb1. unfold off, bsz, ord in *. simpl in *. lia. }
  rewrite (st_bind_run _ _ _ _ _ E).
  destruct Hpost as [(Herr & Hg & Hw & Hsum)|[? _]]; [|done]. rewrite Herr. cbn [Z.eqb negb].
  rewrite (st_bind_run _ _ mm2 (0, rr_blocks rr) mm2) by done.
  destruct (trim_node_after det mm1 mm2 b B (rr_blocks rr)) as (B2 & HB2 & HP2); [done..|].
  rewrite (st_bind_run _ _ _ _ _ (get_block_run _ _ _ HB2)).
  rewrite (st_bind_run _ _ _ _ _ (put_block_run _ _ _ _ HB2)).
  pose proof (reparent_allocs mm2 b B2 (b_parent B) HB2) as Ha3.
  eexists (rr_blocks rr), _. split; [done|]. set (mm3 := set_heap _ mm2) in *.
  assert (forall k, held mm3 k = held mm2 k) as Hheld by (intros k; unfold held; by rewrite Ha3).
  destruct Hg as [Hw2 Hgeo Hnd Hnew Hold Hav]. split_and!.
  - constructor; rewrite ?Ha3, <- ?Ha1; auto.
    + apply (wf_reparent det None mm2 b B2 (b_parent B) Hw2 HB2); [|by intros; rewrite Hoth|done].
      unfold par, det. destruct (b_parent B); [by rewrite decide_True|done].
    + destruct Hgeo. by constructor.
    + rewrite (sumZ_ext _ (held mm2)); auto.
  - apply (within_frame mm2 mm3); [done| |done]. intros. by rewrite Ha3.
  - rewrite (sumZ_ext _ (held mm2)); auto.
Qed.

(** What trimming a handed-out block does: the caller's list is left alone on
    -EINVAL, and holds the blocks of the kept range otherwise. *)
Definition trim_args_bad (mm : drm_buddy) (f o : Z) (start : option Z) (new_size : Z) : Prop :=
  let sz := chunk_size mm * 2 ^ o in
  sz < new_size \/ new_size = 0 \/ new_size mod chunk_size mm <> 0 \/
  (new_size <> sz /\ exists st, start = Some st /\
     (st < f \/ st mod chunk_size mm <> 0 \/ f + sz < st + new_size)).

Definition kept_start (f : Z) (start : option Z) : Z := from_option id f start.

Record trimmed (mm mm' : drm_buddy) (b : bid) (s e : Z) (l : list bid) : Prop := {
  tm_wf : wf None None mm';
  tm_geometry : same_geometry mm mm';
  tm_nodup : NoDup l;
  tm_within : within mm' s e l;
  tm_sum : sumZ (held mm') l = e - s;
  tm_rest : drop_keys (allocs mm') l = delete b (allocs mm);
  tm_avail : avail mm' = avail mm + held mm b - (e - s)
}.

(** The guard on a caller's start address. *)
Definition start_bad (cs f sz new_size : Z) (start : option Z) : bool :=
  match start with
  | Some st => (st <? f) || negb (IS_ALIGNED st cs) || range_overflows st new_size (u64 (f + sz))
  | None => false
  end.

Lemma start_bad_spec c f sz new_size start :
  0 <= c <= 64 -> 0 <= f -> 0 < new_size -> 0 <= sz -> f + sz < 2 ^ 64 ->
  start_bad (2 ^ c) f sz new_size start = true <->
  exists st, start = Some st /\ (st < f \/ st mod 2 ^ c <> 0 \/ f + sz < st + new_size).
Proof using.
  clear. intros Hc Hf Hn Hsz Htop. unfold start_bad. destruct start as [st|].
  2:{ split; [done|]. intros (? & [=] & _). }
  rewrite IS_ALIGNED_pow2, (wrap_small 64 (f + sz)) by lia. unfold range_overflows.
  rewrite !orb_true_iff, negb_true_iff, Z.eqb_neq, !Z.ltb_lt, Z.leb_le. split.
  - intros H. exists st. split; [done|]. destruct (Z.lt_ge_cases st f); [auto|].
    destruct (Z.le_gt_cases (f + sz) st); [lia|]. rewrite wrap_small in H by lia. lia.
  - intros (? & [= <-] & H). destruct (Z.lt_ge_cases st f); [auto|].
    destruct (Z.le_gt_cases (f + sz) st); [auto|]. rewrite wrap_small by lia. lia.
Qed.

Lemma trimmed_whole mm b f o :
  wf None None mm -> allocs mm !! b = Some (f, o) ->
  trimmed mm mm b f (f + chunk_size mm * 2 ^ o) [b].
Proof using.
  clear. intros Hwf Ha. assert (held mm b = chunk_size mm * 2 ^ o) as Eh by (unfold held; by rewrite Ha).
  constructor; try done; simpl; [apply NoDup_singleton| |lia|lia].
  intros k ->%list_elem_of_singleton. exists f, o. split_and!; [done|lia|lia].
Qed.

Lemma chunk_exponent mm b B :
  wf None None mm -> heap mm !! b = Some B -> exists c, 0 <= c <= 64 /\ chunk_size mm = 2 ^ c.
Proof using.
  clear. intros Hwf HB. destruct (wf_chunk _ _ _ Hwf) as (c & Hc & Ec). exists c. split; [|done].
  split; [lia|]. apply (Z.pow_le_mono_r_iff 2); [lia..|].
  destruct (bk_off _ _ _ _ (wf_blk _ _ _ Hwf _ _ HB)) as [Ho1 Ho2]. pose proof (wf_size _ _ _ Hwf).
  pose proof (bk_ord _ _ _ _ (wf_blk _ _ _ Hwf _ _ HB)).
  unfold bsz in Ho2. rewrite <- Ec. pose proof (wf_chunk_pos mm Hwf).
  assert (0 < 2 ^ ord B) by (apply Z.pow_pos_nonneg; lia). nia.
Qed.

(** The accepted case. *)
Lemma trim_main fuel mm b B start new_size :
  wf None None mm -> heap mm !! b = Some B -> is_alloc B = true ->
  0 < new_size -> new_size mod chunk_size mm = 0 -> new_size <= bsz (chunk_size mm) B ->
  (~ exists st, start = Some st /\
     (st < off B \/ st mod chunk_size mm <> 0 \/ off B + bsz (chunk_size mm) B < st + new_size)) ->
  2 ^ (max_order mm + 1) <= Z.of_nat fuel ->
  exists l mm',
    (mark_free b ;; avail_add (bsz (chunk_size mm) B) ;;
     st_when (drm_buddy_block_is_clear B) (clear_avail_add (bsz (chunk_size mm) B)) ;;
     B' <- get_block b ;;
     put_block b (set_parent None B') ;;
     rr <- __alloc_range slab_ok fuel [b] (kept_start (off B) start) new_size false ;;
     res <- (if negb (rr_err rr =? 0) then take_block b ;; st_ret (rr_err rr, [b])
             else st_ret (0, rr_blocks rr)) ;;
     B'' <- get_block b ;;
     put_block b (set_parent (b_parent B') B'') ;;
     st_ret res) mm = Some ((0, l), mm') /\
    trimmed mm mm' b (kept_start (off B) start) (kept_start (off B) start + new_size) l.
Proof using slab_total.
  intros Hwf HB HaB Hn Hal Hle Hst Hfuel.
  destruct (release_run mm b B Hwf HB HaB) as
    (mm1 & B1 & Erun & Hw1 & Hg1 & Ha1 & Hal1 & Hb1 & Hf1 & F1 & O1 & P1).
  rewrite Erun, (st_bind_run _ _ _ _ _ (get_block_run _ _ _ Hb1)).
  pose proof (bk_ord _ _ _ _ (wf_blk _ _ _ Hwf _ _ HB)) as Hord.
  pose proof (bk_align _ _ _ _ (wf_blk _ _ _ Hwf _ _ HB)) as Hbal. pose proof (wf_chunk_pos mm Hwf).
  assert (chunk_size mm1 = chunk_size mm) as Ec by (destruct Hg1; done).
  assert (off B mod chunk_size mm = 0) as Hoff.
  { apply Z.mod_divide; [lia|]. apply Z.mod_divide in Hbal; [|pose proof (bsz_pos mm b B Hwf HB); lia].
    destruct Hbal as [z ->]. unfold bsz. exists (z * 2 ^ ord B). lia. }
  set (st := kept_start (off B) start).
  assert (off B <= st /\ st mod chunk_size mm = 0 /\ st + new_size <= off B + bsz (chunk_size mm) B)
    as (S1 & S2 & S3).
  { unfold st, kept_start. destruct start as [st'|]; simpl; [|split_and!; [lia|done|lia]].
    destruct (Z.eq_dec (st' mod chunk_size mm) 0); [|destruct Hst; eauto].
    split_and!; [|done|]; apply Z.nlt_ge; intros ?; apply Hst; eauto. }
  destruct (trim_walk fuel mm1 b B1 st (st + new_size)) as (l & mm' & E & [Hw' Hg' Hnd Hnew Hold Hav] & Hwi & Hsum);
    rewrite ?Ec, ?F1; try done; try lia.
  { unfold bsz in *. by rewrite O1. }
  { rewrite <- Z.add_mod_idemp_l, S2 by lia. done. }
  { rewrite O1. transitivity (2 ^ (max_order mm + 1)); [apply Z.pow_le_mono_r; lia|done]. }
  rewrite Z.add_simpl_l in E. exists l, mm'. split; [exact E|].
  constructor; try done.
  - by etransitivity.
  - congruence.
  - rewrite Hav, Hsum, Ha1. unfold held. rewrite (allocs_lookup _ _ _ HB), HaB. simpl.
    unfold asz, bsz. simpl. lia.
Qed.

Lemma block_trim_ok fuel mm b f o start new_size :
  wf None None mm -> allocs mm !! b = Some (f, o) -> 0 <= new_size < 2 ^ 64 ->
  (forall st, start = Some st -> 0 <= st < 2 ^ 64) -> 2 ^ (max_order mm + 1) <= Z.of_nat fuel ->
  exists r l mm', drm_buddy_block_trim slab_ok fuel start new_size [b] mm = Some ((r, l), mm') /\
    ((r = - EINVAL /\ trim_args_bad mm f o start new_size /\ l = [b] /\ mm' = mm) \/
     (r = 0 /\ ~ trim_args_bad mm f o start new_size /\
      exists s, (new_size = chunk_size mm * 2 ^ o -> s = f) /\
        (new_size <> chunk_size mm * 2 ^ o -> s = kept_start f start) /\
        trimmed mm mm' b s (s + new_size) l)).
Proof using slab_total.
  intros Hwf Ha Hn Hst Hfuel. pose proof (trimmed_whole mm b f o Hwf Ha) as Hwhole.
  destruct (allocs_inv _ _ _ Ha) as (B & HB & HaB & [= -> ->]).
  pose proof (bsz_pos mm b B Hwf HB) as Hpos. pose proof (wf_size _ _ _ Hwf) as Hsz.
  destruct (bk_off _ _ _ _ (wf_blk _ _ _ Hwf _ _ HB)) as [Ho1 Ho2].
  pose proof (bk_ord _ _ _ _ (wf_blk _ _ _ Hwf _ _ HB)) as Hord.
  destruct (chunk_exponent mm b B Hwf HB) as (c & Hc & Ec).
  unfold drm_buddy_block_trim. rewrite (st_bind_run _ _ _ _ _ (get_block_run _ _ _ HB)).
  rewrite (st_bind_run _ _ _ _ _ (block_size_run _ _ _ HB)).
  destruct (block_end_nowrap _ _ _ _ Hwf HB) as [-> _].
  rewrite (st_bind_run _ _ mm (chunk_size mm) mm) by done. fold (is_alloc B) (off B). rewrite HaB. cbn [negb].
  unfold trim_args_bad. fold (bsz (chunk_size mm) B). fold (bsz (chunk_size mm) B) in Hwhole.
  set (sz := bsz (chunk_size mm) B) in *.
  assert (forall m : Prop, m -> exists r l mm', @st_ret drm_buddy (Z * list bid) (- EINVAL, [b]) mm = Some ((r, l), mm') /\
    ((r = - EINVAL /\ m /\ l = [b] /\ mm' = mm) \/
     (r = 0 /\ ~ m /\ exists s, (new_size = sz -> s = off B) /\
        (new_size <> sz -> s = kept_start (off B) start) /\ trimmed mm mm' b s (s + new_size) l))) as Hbad.
  { intros m Hm. eexists _, _, _. split; [done|]. left. done. }
  destruct (Z.ltb_spec sz new_size); [apply Hbad; auto|].
  destruct ((new_size =? 0) || _) eqn:Hal.
  { apply Hbad. rewrite orb_true_iff, Ec, IS_ALIGNED_pow2, negb_true_iff, Z.eqb_neq, Z.eqb_eq in Hal by lia.
    rewrite Ec. tauto. }
  rewrite orb_false_iff, Ec, IS_ALIGNED_pow2, negb_false_iff, Z.eqb_neq, Z.eqb_eq in Hal by lia.
  destruct Hal as [Hn0 Hal].
  destruct (Z.eqb_spec new_size sz) as [->|Hne].
  { eexists _, _, _. split; [done|]. right. split; [done|]. split; [rewrite Ec; lia|].
    exists (off B). split_and!; [done|done|]. exact Hwhole. }
  change (match start with Some _ => _ | None => false end) with
    (start_bad (chunk_size mm) (off B) sz new_size start).
  pose proof (start_bad_spec c (off B) sz new_size start Hc Ho1 ltac:(lia) ltac:(lia) ltac:(lia)) as Hsb.
  rewrite <- Ec in Hsb. destruct (start_bad _ _ _ _ _) eqn:Hbs.
  { apply Hbad. right. right. right. split; [done|]. by apply Hsb. }
  assert (~ exists st, start = Some st /\ (st < off B \/ st mod chunk_size mm <> 0 \/ off B + sz < st + new_size)) as Hgood.
  { rewrite <- Hsb. done. }
  destruct (trim_main fuel mm b B start new_size) as (l & mm' & E & Ht); auto; [lia|by rewrite Ec|].
  exists 0, l, mm'. split; [exact E|]. right. split; [done|].
  split; [intros [?|[?|[Hx|[_ ?]]]]; [lia|lia|rewrite Ec in Hx; lia|done]|].
  exists (kept_start (off B) start). done.
Qed.
End Trim.
