(* ===== verification/BuddyTop.v ===== *)
(** * The DRM buddy allocator: [drm_buddy_alloc_blocks]

    The page loop, the trimming of its last block and the exact-range request,
    put together from the searches, the walks and the accounting lemmas. *)

From S2P Require Import Prelude Buddy BuddyInv BuddyOps BuddyFree BuddyAlloc BuddyRange BuddyTrim.
From stdpp Require Import gmap list sorting.
From Stdlib Require Import ZArith Lia.

Local Open Scope Z_scope.
Local Open Scope st_scope.

(** Enough fuel for any walk: one more tree than there are roots, each with at
    most [2 ^ (max_order + 1)] nodes. *)
Definition fuel_ok (mm : drm_buddy) (fuel : nat) : Prop :=
  (Z.of_nat (length (roots mm)) + 1) * 2 ^ (max_order mm + 1) <= Z.of_nat fuel.

Lemma fuel_ok_geometry mm mm' fuel : same_geometry mm mm' -> fuel_ok mm fuel -> fuel_ok mm' fuel.
Proof. intros [Hr Hm _ _]. unfold fuel_ok. by rewrite Hr, Hm. Qed.

Lemma fuel_ok_tree mm fuel : fuel_ok mm fuel -> 2 ^ (max_order mm + 1) <= Z.of_nat fuel.
Proof. unfold fuel_ok. assert (0 <= 2 ^ (max_order mm + 1)) by (apply Z.pow_nonneg; lia). nia. Qed.

Lemma fuel_ok_roots mm fuel :
  wf None None mm -> fuel_ok mm fuel -> walk_cost mm (roots mm) < Z.of_nat fuel.
Proof.
  intros Hwf Hf. unfold fuel_ok in Hf. pose proof (wf_maxo _ _ _ Hwf).
  assert (0 < 2 ^ (max_order mm + 1)) by (apply Z.pow_pos_nonneg; lia).
  assert (forall l, (forall b, b ∈ l -> b ∈ roots mm) ->
    walk_cost mm l <= Z.of_nat (length l) * 2 ^ (max_order mm + 1)) as Hc.
  { induction l as [|b l IH]; intros Hl; [simpl; lia|].
    assert (node_cost mm b <= 2 ^ (max_order mm + 1)).
    { unfold node_cost. destruct (heap mm !! b) as [B|] eqn:HB; [|lia].
      pose proof (bk_ord _ _ _ _ (wf_blk _ _ _ Hwf _ _ HB)).
      assert (2 ^ (ord B + 1) <= 2 ^ (max_order mm + 1)) by (apply Z.pow_le_mono_r; lia). lia. }
    specialize (IH ltac:(intros; apply Hl; set_solver)).
    change (walk_cost mm (b :: l)) with (node_cost mm b + walk_cost mm l). simpl length. nia. }
  specialize (Hc (roots mm) ltac:(auto)). lia.
Qed.

Section Top.
Context (slab_ok : positive -> bool).
Hypothesis slab_total : forall n, slab_ok n = true.

(** ** One block *)

Section Pages.
Context (fuel : nat) (start end_ min_order flags : Z).
Hypothesis Hstart : 0 <= start.
Hypothesis Hmin : 0 <= min_order.
Hypothesis Hno_harder :
  has_flag flags DRM_BUDDY_CONTIGUOUS_ALLOCATION && negb (has_flag flags DRM_BUDDY_RANGE_ALLOCATION) = false.

(** A candidate: a free block of the order, inside the range when one was asked for. *)
Definition candidate (mm : drm_buddy) (b : bid) (order : Z) : Prop :=
  exists B, heap mm !! b = Some B /\ is_free B = true /\ ord B = order /\
    (has_flag flags DRM_BUDDY_RANGE_ALLOCATION = true ->
     start <= off B /\ off B + bsz (chunk_size mm) B - 1 <= u64 (end_ - 1)).

Lemma alloc_one_ok order mm :
  wf None None mm -> fuel_ok mm fuel -> 0 <= order <= max_order mm ->
  exists r mm', __drm_buddy_alloc_blocks slab_ok fuel start end_ order flags mm = Some (r, mm') /\
    keepsd None mm mm' /\ match r with PTR b => candidate mm' b order | ERR_PTR e => e = - ENOSPC end.
Proof using slab_total Hstart.
  clear Hno_harder. intros Hwf Hf Ho. unfold __drm_buddy_alloc_blocks, candidate.
  destruct (has_flag flags DRM_BUDDY_RANGE_ALLOCATION).
  - unfold __drm_buddy_alloc_range_bias.
    destruct (alloc_range_bias_ok slab_ok slab_total fuel start end_ order flags false mm)
      as (r & mm1 & E & Hk & Hr); [done|lia|lia|by apply fuel_ok_roots|].
    rewrite (st_bind_run _ _ _ _ _ E). destruct r as [b|e].
    + destruct Hr as (B & ? & ? & ? & ? & ?). exists (PTR b), mm1. split; [done|]. split; [done|]. eauto 10.
    + pose proof Hk as (Hw1 & Hg1 & _).
      destruct (alloc_range_bias_ok slab_ok slab_total fuel start end_ order flags true mm1)
        as (r & mm2 & E2 & Hk2 & Hr2); [done|lia|lia|apply fuel_ok_roots; [done|by eapply fuel_ok_geometry]|].
      exists r, mm2. split; [done|]. split; [by eapply keepsd_trans|].
      destruct r; [|done]. destruct Hr2 as (B & ? & ? & ? & ? & ?). eauto 10.
  - destruct (alloc_from_freelist_ok slab_ok slab_total mm order flags Hwf Ho) as (r & mm' & E & Hk & Hr).
    exists r, mm'. split; [done|]. split; [done|]. destruct r as [b|e]; [|tauto].
    destruct Hr as (B & ? & ? & ?). exists B. split_and!; done.
Qed.

Definition pick_post (mm mm' : drm_buddy) (top : Z) (r : pick_result) : Prop :=
  keepsd None mm mm' /\
  match r with
  | Picked b o => min_order <= o <= top /\ candidate mm' b o
  | TryHarder => False
  | NoSpace => True
  end.

Lemma pick_block_last mm :
  wf None None mm -> fuel_ok mm fuel -> min_order <= max_order mm ->
  exists r mm', pick_block slab_ok 0 fuel start end_ min_order flags mm = Some (r, mm') /\
    pick_post mm mm' min_order r.
Proof using slab_total Hstart Hmin Hno_harder.
  intros Hwf Hf Hn. cbn [pick_block]. rewrite Z.add_0_r.
  destruct (alloc_one_ok min_order mm Hwf Hf ltac:(lia)) as (r & mm1 & E & Hk & Hr).
  rewrite (st_bind_run _ _ _ _ _ E). destruct r as [b|e].
  { eexists _, mm1. split; [done|]. split; [done|]. split; [lia|done]. }
  pose proof Hk as (Hw1 & Hg1 & _). pose proof (fuel_ok_geometry _ _ _ Hg1 Hf) as Hf1.
  assert (max_order mm1 = max_order mm) as Em by (by destruct Hg1).
  rewrite (st_bind_run _ _ mm1 (clear_avail mm1) mm1) by done.
  assert (exists m mm2, (if negb (clear_avail mm1 =? 0) then
            r <- __force_merge start end_ min_order ;; st_ret (r =? 0) else st_ret false) mm1 = Some (m, mm2) /\
    keepsd None mm1 mm2) as (m & mm2 & E2 & Hk2).
  { destruct (clear_avail mm1 =? 0); cbn [negb];
      [exists false, mm1; split; [done|by apply keepsd_refl]|].
    destruct (force_merge_ok start end_ min_order mm1 Hw1 Hmin) as (r & mm2 & E2 & Hk2).
    rewrite (st_bind_run _ _ _ _ _ E2). eexists _, mm2. split; [done|exact Hk2]. }
  rewrite (st_bind_run _ _ _ _ _ E2). pose proof Hk2 as (Hw2 & Hg2 & _).
  assert (exists r mm3, (if m then __drm_buddy_alloc_blocks slab_ok fuel start end_ min_order flags
                         else st_ret (ERR_PTR (- ENOSPC))) mm2 = Some (r, mm3) /\ keepsd None mm2 mm3 /\
    match r with PTR b => candidate mm3 b min_order | ERR_PTR e => True end) as (r & mm3 & E3 & Hk3 & Hr3).
  { destruct m; [|eexists _, mm2; split; [done|split; [by apply keepsd_refl|done]]].
    destruct (alloc_one_ok min_order mm2 Hw2) as (r & mm3 & E3 & Hk3 & Hr3);
      [by eapply fuel_ok_geometry|destruct Hg2; lia|].
    exists r, mm3. split; [done|]. split; [done|]. by destruct r. }
  rewrite (st_bind_run _ _ _ _ _ E3).
  assert (keepsd None mm mm3) as Hk13 by (eapply keepsd_trans; [done|by eapply keepsd_trans]).
  destruct r as [b|e']; [|rewrite Hno_harder]; eexists _, mm3; (split; [done|]); (split; [done|]); [|done].
  split; [lia|done].
Qed.

Lemma pick_block_ok n mm :
  wf None None mm -> fuel_ok mm fuel -> min_order + Z.of_nat n <= max_order mm ->
  exists r mm', pick_block slab_ok n fuel start end_ min_order flags mm = Some (r, mm') /\
    pick_post mm mm' (min_order + Z.of_nat n) r.
Proof using slab_total Hstart Hmin Hno_harder.
  revert mm. induction n as [|n IH]; intros mm Hwf Hf Hn.
  { destruct (pick_block_last mm Hwf Hf ltac:(lia)) as (r & mm' & E & H). exists r, mm'. by rewrite Z.add_0_r. }
  cbn [pick_block].
  destruct (alloc_one_ok (min_order + Z.of_nat (S n)) mm Hwf Hf ltac:(lia)) as (r & mm1 & E & Hk & Hr).
  rewrite (st_bind_run _ _ _ _ _ E). destruct r as [b|e].
  { eexists _, mm1. split; [done|]. split; [done|]. split; [lia|done]. }
  pose proof Hk as (Hw1 & Hg1 & _).
  destruct (IH mm1 Hw1 (fuel_ok_geometry _ _ _ Hg1 Hf)) as (r & mm2 & E2 & Hk2 & Hr2); [destruct Hg1; lia|].
  exists r, mm2. split; [done|]. split; [by eapply keepsd_trans|]. destruct r; try done.
  destruct Hr2. split; [lia|done].
Qed.

(** ** The page loop *)

(** What every block handed out satisfies. *)
Definition fits (mm : drm_buddy) (l : list bid) : Prop :=
  forall b, b ∈ l -> exists f o, allocs mm !! b = Some (f, o) /\ min_order <= o /\
    (has_flag flags DRM_BUDDY_RANGE_ALLOCATION = true ->
     start <= f /\ f + chunk_size mm * 2 ^ o - 1 <= u64 (end_ - 1)).

Lemma fits_frame mm mm' l :
  chunk_size mm' = chunk_size mm -> (forall b, b ∈ l -> allocs mm' !! b = allocs mm !! b) ->
  fits mm l -> fits mm' l.
Proof using. intros Ec Ha H b Hb. rewrite Ha, Ec by done. by apply H. Qed.

Lemma fls_log2 pages : 0 < pages < 2 ^ 32 -> fls pages - 1 = Z.log2 pages.
Proof using.
  clear. intros H. unfold fls. rewrite wrap_small by lia. destruct (Z.eqb_spec pages 0); lia.
Qed.

Lemma pages_left o pages :
  0 <= min_order <= o -> o <= Z.log2 pages -> 0 < pages -> (2 ^ min_order | pages) ->
  0 <= pages - 2 ^ o < pages /\ (2 ^ min_order | pages - 2 ^ o).
Proof using.
  clear. intros Ho Hl Hp Hd. assert (0 < 2 ^ o) by (apply Z.pow_pos_nonneg; lia).
  assert (2 ^ o <= pages).
  { transitivity (2 ^ Z.log2 pages); [apply Z.pow_le_mono_r; lia|]. apply Z.log2_spec. lia. }
  split; [lia|]. apply Z.divide_sub_r; [done|].
  exists (2 ^ (o - min_order)). rewrite <- Z.pow_add_r by lia. f_equal. lia.
Qed.

Lemma log2_ge_min pages : 0 < pages -> (2 ^ min_order | pages) -> min_order <= Z.log2 pages.
Proof using Hmin.
  clear -Hmin. intros Hp Hd. rewrite <- (Z.log2_pow2 min_order) by lia. apply Z.log2_le_mono.
  by apply Z.divide_pos_le.
Qed.

Definition pages_post (mm0 mm' : drm_buddy) (amount : Z) (r : pages_result) : Prop :=
  match r with
  | PagesDone l => grab None mm0 mm' l /\ fits mm' l /\ sumZ (held mm') l = amount
  | PagesReturn _ => False
  | PagesFail l => grab None mm0 mm' l
  end.

(** Taking the picked block. *)
Lemma take_candidate mm0 mm allocated b o :
  min_order <= o -> grab None mm0 mm allocated -> fits mm allocated -> candidate mm b o ->
  exists sz mm', take_block b mm = Some (sz, mm') /\ grab None mm0 mm' (allocated ++ [b]) /\
    fits mm' (allocated ++ [b]) /\ same_geometry mm mm' /\
    sumZ (held mm') (allocated ++ [b]) = sumZ (held mm) allocated + chunk_size mm0 * 2 ^ o.
Proof using.
  clear. intros Ho Hg Hfi (B & HB & Hf & Eo & Hr).
  destruct (grab_take None mm0 mm allocated b o Hg) as (mm2 & E & Hg2 & Hb2 & Hold & _ & Hgeo & Hsum);
    [by exists B|].
  assert (chunk_size mm2 = chunk_size mm) as Ec by (by destruct Hgeo).
  eexists _, mm2. split_and!; try done. intros k Hk.
  apply elem_of_app in Hk as [Hk|Hk%list_elem_of_singleton].
  - rewrite Hold, Ec by done. by apply Hfi.
  - subst k. exists (off B), o. split; [by apply Hb2|]. split; [done|]. intros F.
    specialize (Hr F). unfold bsz in Hr. rewrite Ec. by rewrite Eo in Hr.
Qed.

Lemma alloc_pages_ok osz omin blocks mm0 pfuel order pages allocated mm :
  wf None None mm0 -> grab None mm0 mm allocated -> fits mm allocated -> fuel_ok mm0 fuel ->
  0 < pages < 2 ^ 32 -> (2 ^ min_order | pages) -> min_order <= order ->
  Z.min order (Z.log2 pages) <= max_order mm0 -> pages <= Z.of_nat pfuel ->
  exists r mm', alloc_pages slab_ok pfuel fuel start end_ order min_order pages flags osz omin blocks allocated mm
      = Some (r, mm') /\
    pages_post mm0 mm' (sumZ (held mm) allocated + chunk_size mm0 * pages) r.
Proof using slab_total Hstart Hmin Hno_harder.
  intros Hwf0. revert order pages allocated mm.
  induction pfuel as [|pfuel IH]; intros order pages allocated mm Hg Hfi Hf Hp Hd Ho Hmax Hpf; [lia|].
  pose proof (log2_ge_min pages ltac:(lia) Hd) as Hlog.
  pose proof (gr_wf _ _ _ _ Hg) as Hwf. pose proof (gr_geometry _ _ _ _ Hg) as Hgeo.
  cbn [alloc_pages]. rewrite (st_bind_run _ _ mm (max_order mm) mm) by done. rewrite fls_log2 by done.
  assert (max_order mm = max_order mm0) as Em by (by destruct Hgeo).
  destruct (Z.ltb_spec (max_order mm) (Z.min order (Z.log2 pages))); [lia|].
  destruct (Z.ltb_spec (Z.min order (Z.log2 pages)) min_order); [lia|].
  rewrite !(st_bind_run _ _ mm tt mm) by done.
  destruct (pick_block_ok (Z.to_nat (Z.min order (Z.log2 pages) - min_order)) mm Hwf) as (r & mm1 & E & Hk & Hr);
    [by eapply fuel_ok_geometry|lia|].
  rewrite (st_bind_run _ _ _ _ _ E). pose proof (grab_keeps _ _ _ _ _ Hg Hk) as Hg1.
  pose proof Hk as (_ & Hgk & _ & Halk).
  assert (fits mm1 allocated) as Hfi1 by (eapply fits_frame; [by destruct Hgk| |done]; intros; by rewrite Halk).
  assert (sumZ (held mm1) allocated = sumZ (held mm) allocated) as Es.
  { apply sumZ_ext. intros k _. unfold held. destruct Hgk as [_ _ -> _]. by rewrite Halk. }
  destruct r as [b o| |]; [|done|by exists (PagesFail allocated), mm1].
  destruct Hr as [Hob Hc].
  destruct (take_candidate mm0 mm1 allocated b o) as (sz & mm2 & E2 & Hg2 & Hfi2 & Hgeo2 & Hsum); [lia|done..|].
  rewrite (st_bind_run _ _ _ _ _ E2).
  destruct (pages_left o pages) as [Hl Hdl]; [lia..|done|].
  rewrite (wrap_small 64) by lia. destruct (Z.eqb_spec (pages - 2 ^ o) 0).
  - eexists _, mm2. split; [done|]. split_and!; [done|done|]. rewrite Hsum, Es. f_equal. lia.
  - destruct (IH o (pages - 2 ^ o) (allocated ++ [b]) mm2) as (r & mm3 & E3 & Hr3); try done; try lia.
    exists r, mm3. split; [done|]. rewrite Hsum, Es in Hr3.
    replace (_ + chunk_size mm0 * pages) with
      (sumZ (held mm) allocated + chunk_size mm0 * 2 ^ o + chunk_size mm0 * (pages - 2 ^ o)) by lia. done.
Qed.
End Pages.

(** ** Trimming what the rounding added *)

Lemma grab_trim mm0 mm mm' l0 b s e l :
  grab None mm0 mm (l0 ++ [b]) -> trimmed mm mm' b s e l ->
  grab None mm0 mm' (l0 ++ l) /\ sumZ (held mm') (l0 ++ l) = sumZ (held mm) l0 + (e - s) /\
  (forall k, k ∈ l0 -> allocs mm' !! k = allocs mm !! k).
Proof using.
  clear. intros [Hw Hg Hnd Hnew Hold Hav] [Hw' Hg' Hnd' Hin' Hsum' Hrest' Hav'].
  apply NoDup_app in Hnd as (Hnd0 & Hb0 & _).
  assert (forall k, allocs mm' !! k = if decide (k ∈ l) then allocs mm' !! k
                                      else delete b (allocs mm) !! k) as Hlook.
  { intros k. rewrite <- Hrest', drop_keys_lookup. by case_decide. }
  assert (forall k, k ∈ l0 -> (k ∉ l) /\ allocs mm' !! k = allocs mm !! k) as Hl0.
  { intros k Hk. assert (k <> b) as Hkb by (intros ->; apply (Hb0 b Hk); set_solver).
    assert (k ∉ l) as Hkl.
    { intros Hkl. assert (delete b (allocs mm) !! k = None) as E
        by (rewrite <- Hrest', drop_keys_lookup; by case_decide).
      rewrite lookup_delete_ne in E by done.
      destruct (Hnew k ltac:(set_solver)) as [[v Hv] _]. congruence. }
    split; [done|]. rewrite Hlook. case_decide; [done|]. by rewrite lookup_delete_ne. }
  assert (sumZ (held mm') (l0 ++ l) = sumZ (held mm) l0 + (e - s)) as Hsum.
  { rewrite sumZ_app, Hsum'. f_equal. apply sumZ_ext. intros k Hk. unfold held.
    destruct (Hl0 k Hk) as [_ ->]. by destruct Hg' as [_ _ -> _]. }
  split; [|split; [done|intros k Hk; by apply Hl0]]. constructor; auto.
  - by etransitivity.
  - apply NoDup_app. split_and!; [done| |done]. intros k Hk. by apply Hl0.
  - intros k [Hk|Hk]%elem_of_app.
    + destruct (Hl0 k Hk) as [_ ->]. apply Hnew. set_solver.
    + destruct (Hin' k Hk) as (f & o & -> & _). split; [eauto|].
      assert (delete b (allocs mm) !! k = None) as E
        by (rewrite <- Hrest', drop_keys_lookup; by case_decide).
      destruct (decide (k = b)) as [->|]; [apply Hnew; set_solver|].
      rewrite lookup_delete_ne in E by done. rewrite <- Hold, drop_keys_lookup. by case_decide.
  - rewrite <- Hold. apply map_eq. intros k. rewrite !drop_keys_lookup.
    destruct (decide (k = b)) as [->|Hkb].
    + rewrite (decide_True (P := b ∈ l0 ++ [b])) by set_solver. case_decide as Hc; [done|].
      rewrite Hlook, decide_False by set_solver. by rewrite lookup_delete_eq.
    + destruct (decide (k ∈ l0 ++ l)) as [Hc|Hc].
      * case_decide as Hc2; [done|]. assert (k ∈ l) as Hkl by set_solver.
        assert (delete b (allocs mm) !! k = None) as E
          by (rewrite <- Hrest', drop_keys_lookup; by case_decide).
        by rewrite lookup_delete_ne in E.
      * rewrite decide_False by set_solver. rewrite Hlook, decide_False by set_solver.
        by rewrite lookup_delete_ne.
  - rewrite Hsum, Hav', Hav, sumZ_app. simpl. lia.
Qed.

(** Trimming the last block of a list down by [d] bytes. *)
Lemma trim_last_ok fuel mm0 mm l0 b d :
  grab None mm0 mm (l0 ++ [b]) -> fuel_ok mm fuel -> 0 < d < held mm b -> d mod chunk_size mm = 0 ->
  exists l r mm', drm_buddy_block_trim slab_ok fuel None (held mm b - d) [b] mm = Some ((r, l), mm') /\
    grab None mm0 mm' (l0 ++ l) /\ sumZ (held mm') (l0 ++ l) = sumZ (held mm) (l0 ++ [b]) - d /\
    (forall lo hi, within mm lo hi (l0 ++ [b]) -> within mm' lo hi (l0 ++ l)).
Proof using slab_total.
  intros Hg Hf Hd Hal. pose proof (gr_wf _ _ _ _ Hg) as Hwf. pose proof (wf_chunk_pos mm Hwf).
  destruct (gr_new _ _ _ _ Hg b ltac:(set_solver)) as [[[f o] Hv] _].
  assert (held mm b = chunk_size mm * 2 ^ o) as Eh by (unfold held; by rewrite Hv).
  destruct (allocs_inv _ _ _ Hv) as (B & HB & HaB & [= EfB EoB]).
  pose proof (bk_ord _ _ _ _ (wf_blk _ _ _ Hwf _ _ HB)) as Hord.
  destruct (bk_off _ _ _ _ (wf_blk _ _ _ Hwf _ _ HB)) as [Ho1 Ho2]. pose proof (wf_size _ _ _ Hwf).
  assert (held mm b <= mm_size mm) by (unfold bsz in Ho2; rewrite <- EoB in Ho2; lia).
  assert ((held mm b - d) mod chunk_size mm = 0) as Ham.
  { rewrite Eh. apply Z.mod_divide in Hal as [q ->]; [|lia]. apply Z.mod_divide; [lia|].
    exists (2 ^ o - q). lia. }
  destruct (block_trim_ok slab_ok slab_total fuel mm b f o None (held mm b - d)) as (r & l & mm' & E & Hr);
    [done..|lia|done|by apply fuel_ok_tree|].
  destruct Hr as [(_ & Hbad & _)|(-> & _ & s & _ & Hs & Ht)].
  { exfalso. unfold trim_args_bad in Hbad. destruct Hbad as [?|[?|[?|(_ & ? & [=] & _)]]]; lia. }
  specialize (Hs ltac:(lia)). simpl in Hs. subst s.
  destruct (grab_trim _ _ _ _ _ _ _ _ Hg Ht) as (Hg' & Hsum & Hkeep).
  exists l, 0, mm'. split_and!; [done|done| |].
  - rewrite Hsum, sumZ_app. simpl. lia.
  - intros lo hi Hin k [Hk|Hk]%elem_of_app.
    + rewrite Hkeep by done. destruct (tm_geometry _ _ _ _ _ _ Ht) as [_ _ -> _]. apply Hin. set_solver.
    + destruct (tm_within _ _ _ _ _ _ Ht k Hk) as (f' & o' & Ha' & ? & ?). exists f', o'. split; [done|].
      destruct (Hin b ltac:(set_solver)) as (fb & ob & Hab & ? & ?). rewrite Hv in Hab. injection Hab as <- <-. lia.
Qed.

Lemma sumZ_held_nonneg mm l : wf None None mm -> 0 <= sumZ (held mm) l.
Proof using.
  clear. intros Hwf. pose proof (wf_chunk_pos mm Hwf). apply sumZ_nonneg. intros k _. unfold held.
  destruct (allocs mm !! k) as [[f o]|]; simpl; [|lia]. unfold asz. simpl.
  assert (0 <= 2 ^ o) by (apply Z.pow_nonneg; lia). nia.
Qed.

Lemma trim_allocated_ok fuel mm0 mm osz size l :
  grab None mm0 mm l -> fuel_ok mm fuel -> sumZ (held mm) l = size -> 0 < osz < size -> size < 2 ^ 64 ->
  (forall b, b ∈ l -> size - osz < held mm b) -> osz mod chunk_size mm = 0 -> size mod chunk_size mm = 0 ->
  exists l' mm', trim_allocated slab_ok fuel osz size l mm = Some (l', mm') /\
    grab None mm0 mm' l' /\ sumZ (held mm') l' = osz /\
    (forall lo hi, within mm lo hi l -> within mm' lo hi l').
Proof using slab_total.
  intros Hg Hf Hsum Ho Hsz Hbig A1 A2. pose proof (gr_wf _ _ _ _ Hg) as Hwf.
  pose proof (wf_chunk_pos mm Hwf).
  assert ((size - osz) mod chunk_size mm = 0) as A3.
  { apply Z.mod_divide in A1 as [x ->], A2 as [y Ey]; [|lia..]. rewrite Ey. apply Z.mod_divide; [lia|].
    exists (y - x). lia. }
  destruct l as [|x l _] using rev_ind; [simpl in Hsum; lia|].
  destruct (trim_last_ok fuel mm0 mm l x (size - osz)) as (l' & r & mm' & E & Hg' & Hs' & Hw'); try done.
  { split; [lia|]. apply Hbig. set_solver. }
  exists (l ++ l'), mm'. split_and!; [|done|lia|done].
  assert (st_bind (block_size x) (fun sz => st_bind (drm_buddy_block_trim slab_ok fuel None
            (u64 (sz - u64 (size - osz))) [x]) (fun r => st_ret (l ++ snd r))) mm = Some (l ++ l', mm')) as Egen.
  { destruct (gr_new _ _ _ _ Hg x ltac:(set_solver)) as [[v Hv] _].
    destruct (allocs_inv _ _ _ Hv) as (B & HB & HaB & Ev).
    rewrite (st_bind_run _ _ _ _ _ (block_size_run _ _ _ HB)).
    destruct (block_end_nowrap _ _ _ _ Hwf HB) as [-> _].
    assert (bsz (chunk_size mm) B = held mm x) as -> by (unfold held; by rewrite Hv, Ev).
    pose proof (Hbig x ltac:(set_solver)) as Hx. pose proof (sumZ_held_nonneg mm l Hwf) as Hnn.
    rewrite sumZ_app in Hsum. simpl in Hsum. rewrite (wrap_small 64 (size - osz)), wrap_small by lia.
    by rewrite (st_bind_run _ _ _ _ _ E). }
  unfold trim_allocated. destruct l as [|y l].
  - change ([] ++ [x]) with [x]. cbn beta iota. simpl in Hsum. replace (held mm x - (size - osz)) with osz in E by lia.
    by rewrite (st_bind_run _ _ _ _ _ E).
  - destruct ((y :: l) ++ [x]) as [|z [|z' w]] eqn:El; [done|by destruct l|].
    rewrite <- El, last_snoc, removelast_last. unfold st_of_option.
    by rewrite (st_bind_run _ _ mm x mm).
Qed.

(** ** The request *)

Definition alloc_args_ok (mm : drm_buddy) (start end_ size min_block_size : Z) : bool :=
  negb (size <? chunk_size mm) && negb (min_block_size <? chunk_size mm) &&
  is_power_of_2 min_block_size && IS_ALIGNED (Z.lor (Z.lor start end_) size) (chunk_size mm) &&
  negb (mm_size mm <? end_) && negb (range_overflows start size (mm_size mm)).

(** The size the request is rounded up to, and the unit of the rounding. *)
Definition rounded_size (size min_block_size flags : Z) : Z :=
  if has_flag flags DRM_BUDDY_CONTIGUOUS_ALLOCATION then roundup_pow_of_two size
  else if negb (IS_ALIGNED size min_block_size) then round_up size min_block_size
  else size.
Definition rounded_min (size min_block_size flags : Z) : Z :=
  if has_flag flags DRM_BUDDY_CONTIGUOUS_ALLOCATION then rounded_size size min_block_size flags
  else min_block_size.

(** Rounding is to a multiple of a power of two less than one unit away. *)
Lemma rounded_facts size mbs flags :
  0 < size < 2 ^ 64 -> 0 < mbs < 2 ^ 64 -> is_power_of_2 mbs = true -> 0 < rounded_size size mbs flags ->
  exists k, 0 <= k /\ rounded_min size mbs flags = 2 ^ k /\
    (2 ^ k | rounded_size size mbs flags) /\
    size <= rounded_size size mbs flags < size + 2 ^ k /\ rounded_size size mbs flags < 2 ^ 64 /\
    (has_flag flags DRM_BUDDY_CONTIGUOUS_ALLOCATION = false -> k = Z.log2 mbs).
Proof using.
  clear. unfold rounded_min, rounded_size. intros Hs Hm Hp.
  pose proof (is_power_of_2_inv mbs Hp ltac:(lia)) as Ek. set (k := Z.log2 mbs) in *.
  assert (0 <= k < 64) as Hk. { split; [apply Z.log2_nonneg|]. apply Z.log2_lt_pow2; lia. }
  destruct (has_flag flags DRM_BUDDY_CONTIGUOUS_ALLOCATION).
  - unfold roundup_pow_of_two. intros Hr. exists (Z.log2_up size).
    pose proof (Z.log2_up_nonneg size) as H0. pose proof (Z.log2_up_le_pow2 size (Z.log2_up size)) as Hle.
    assert (Z.log2_up size <= 64) as H64.
    { apply Z.log2_up_le_pow2; lia. }
    assert (Z.log2_up size <> 64) as Hne.
    { intros E. rewrite E in Hr. unfold wrap in Hr. rewrite Z.mod_same in Hr by lia. lia. }
    assert (2 ^ Z.log2_up size <= 2 ^ 63) by (apply Z.pow_le_mono_r; lia).
    rewrite wrap_small by (split; [apply Z.pow_nonneg; lia|lia]).
    split_and!; [done|done|reflexivity|apply Hle; lia|lia|lia|done].
  - intros Hr. exists k. rewrite Ek in Hr |- *. rewrite IS_ALIGNED_pow2 in Hr |- * by lia.
    assert (0 < 2 ^ k) by (apply Z.pow_pos_nonneg; lia).
    destruct (Z.eqb_spec (size mod 2 ^ k) 0) as [E|E]; cbn [negb] in Hr |- *.
    + split_and!; try lia; try done. by apply Z.mod_divide; lia.
    + rewrite round_up_pow2 in Hr |- * by lia.
      pose proof (Z.div_mod (size - 1) (2 ^ k) ltac:(lia)) as Hdm.
      pose proof (Z.mod_pos_bound (size - 1) (2 ^ k) ltac:(lia)) as Hmb.
      set (q := (size - 1) / 2 ^ k) in *.
      assert ((q + 1) * 2 ^ k < 2 ^ 64) as Hlt.
      { assert (2 ^ 64 = 2 ^ (64 - k) * 2 ^ k) as E64 by (rewrite <- Z.pow_add_r by lia; f_equal; lia).
        assert (0 <= q) by (apply Z.div_pos; lia).
        assert (q < 2 ^ (64 - k)) by nia.
        destruct (Z.eq_dec (q + 1) (2 ^ (64 - k))) as [Eq|]; [|nia].
        unfold wrap in Hr. rewrite Eq, <- E64, Z.mod_same in Hr by lia. lia. }
      assert (0 <= (q + 1) * 2 ^ k) by (assert (0 <= q) by (apply Z.div_pos; lia); nia).
      rewrite wrap_small in Hr |- * by lia.
      split_and!; try lia. exists (q + 1). lia.
Qed.

Lemma alloc_args_inv mm start end_ size mbs :
  alloc_args_ok mm start end_ size mbs = true -> wf None None mm -> 0 <= start -> 0 <= end_ -> 0 <= size ->
  chunk_size mm <= size /\ chunk_size mm <= mbs /\ is_power_of_2 mbs = true /\
  start mod chunk_size mm = 0 /\ end_ mod chunk_size mm = 0 /\ size mod chunk_size mm = 0 /\
  end_ <= mm_size mm /\ start + size <= mm_size mm.
Proof using.
  clear. intros H Hwf H0 H1 H2. unfold alloc_args_ok in H.
  rewrite !andb_true_iff, !negb_true_iff, !Z.ltb_ge in H.
  destruct H as (((((Hs & Hm) & Hp) & Ha) & He) & Hr).
  unfold range_overflows in Hr. apply orb_false_iff in Hr as [R1%Z.leb_gt R2%Z.ltb_ge].
  pose proof (wf_size _ _ _ Hwf). rewrite wrap_small in R2 by lia.
  destruct (wf_chunk _ _ _ Hwf) as (c & Hc & Ec). unfold IS_ALIGNED in Ha. apply Z.eqb_eq in Ha.
  rewrite Ec in *. replace (2 ^ c - 1) with (Z.ones c) in Ha by (rewrite Z.ones_equiv; lia).
  rewrite !Z.land_lor_distr_l in Ha. apply Z.lor_eq_0_iff in Ha as [Ha A3].
  apply Z.lor_eq_0_iff in Ha as [A1 A2]. rewrite Z.land_ones in A1, A2, A3 by lia.
  split_and!; try done; lia.
Qed.

Lemma alloc_args_run fuel start end_ size mbs blocks flags mm :
  alloc_args_ok mm start end_ size mbs = true -> u64 (start + size) <> end_ ->
  drm_buddy_alloc_blocks slab_ok fuel start end_ size mbs blocks flags mm =
  (let R := rounded_size size mbs flags in
   let pages := Z.shiftr R (ilog2 (chunk_size mm)) in
   r <- alloc_pages slab_ok (Z.to_nat pages) fuel start end_ (fls pages - 1)
          (ilog2 (rounded_min size mbs flags) - ilog2 (chunk_size mm)) pages flags size mbs blocks [] ;;
   match r with
   | PagesReturn ret => st_ret ret
   | PagesFail allocated => drm_buddy_free_list_internal allocated ;; st_ret (- ENOSPC, blocks)
   | PagesDone allocated =>
       allocated <- (if negb (has_flag flags DRM_BUDDY_TRIM_DISABLE) && negb (size =? R)
                     then trim_allocated slab_ok fuel size R allocated else st_ret allocated) ;;
       st_ret (0, blocks ++ allocated)
   end) mm.
Proof using.
  clear slab_total. intros H Hne. unfold alloc_args_ok in H. rewrite !andb_true_iff, !negb_true_iff in H.
  destruct H as (((((Hs & Hm) & Hp) & Ha) & He) & Hr). apply Z.eqb_neq in Hne.
  unfold drm_buddy_alloc_blocks.
  rewrite (st_bind_run _ _ mm (chunk_size mm) mm), (st_bind_run _ _ mm (mm_size mm) mm) by done.
  rewrite Hs, Hm, Hp, Ha, He, Hr, Hne. cbn [negb]. unfold rounded_min, rounded_size.
  by destruct (has_flag flags DRM_BUDDY_CONTIGUOUS_ALLOCATION).
Qed.

(** What a request ends with. [amount] is what is handed out in all. *)
Definition request_post (mm mm' : drm_buddy) (amount lo hi : Z) (ranged : bool) (r : Z) (l : list bid) : Prop :=
  (r = 0 /\ grab None mm mm' l /\ sumZ (held mm') l = amount /\ (ranged = true -> within mm' lo hi l)) \/
  (r = - ENOSPC /\ keepsd None mm mm' /\ l = []).

Lemma alloc_blocks_ok fuel start end_ size mbs blocks flags mm :
  wf None None mm -> fuel_ok mm fuel ->
  0 <= start -> 0 <= end_ -> 0 <= size < 2 ^ 64 -> 0 <= mbs < 2 ^ 64 ->
  has_flag flags DRM_BUDDY_CONTIGUOUS_ALLOCATION && negb (has_flag flags DRM_BUDDY_RANGE_ALLOCATION) = false ->
  alloc_args_ok mm start end_ size mbs = true -> start + size <> end_ ->
  let R := rounded_size size mbs flags in
  let pages := R / chunk_size mm in
  0 < pages < 2 ^ 32 -> Z.log2 pages <= max_order mm ->
  exists r l mm', drm_buddy_alloc_blocks slab_ok fuel start end_ size mbs blocks flags mm = Some ((r, blocks ++ l), mm') /\
    request_post mm mm' (if has_flag flags DRM_BUDDY_TRIM_DISABLE then R else size)
      start (u64 (end_ - 1) + 1) (has_flag flags DRM_BUDDY_RANGE_ALLOCATION) r l.
Proof using slab_total.
  intros Hwf Hf Hst Hen Hsz Hmb Hnh Hok Hne R pages Hpg Hmax.
  destruct (alloc_args_inv _ _ _ _ _ Hok Hwf Hst Hen ltac:(lia)) as (S1 & S2 & S3 & A1 & A2 & A3 & S4 & S5).
  pose proof (wf_chunk_pos mm Hwf) as Hcs. pose proof (wf_size _ _ _ Hwf) as Hms.
  destruct (wf_chunk _ _ _ Hwf) as (c & Hc & Ec).
  assert (0 < R) as HR.
  { apply Z.nle_gt. intros Hle. pose proof (Z.div_le_mono R 0 (chunk_size mm) ltac:(lia) Hle) as Hd.
    rewrite Z.div_0_l in Hd by lia. fold pages in Hd. lia. }
  destruct (rounded_facts size mbs flags) as (k & Hk & Emin & Hdiv & HRs & HR64 & Hkm); [lia..|done|done|].
  fold R in Hdiv, HRs, HR64.
  rewrite alloc_args_run; [|done|rewrite wrap_small; lia]. fold R. cbv zeta.
  rewrite Emin. unfold ilog2. rewrite Ec, !Z.log2_pow2, Z.shiftr_div_pow2, <- Ec by lia. fold pages.
  assert (c <= k /\ R = chunk_size mm * pages /\ (2 ^ (k - c) | pages)) as (Hck & ER & Hdp).
  { assert (2 ^ c <= 2 ^ k) as Hle.
    { rewrite <- Emin, <- Ec. unfold rounded_min. destruct (has_flag flags DRM_BUDDY_CONTIGUOUS_ALLOCATION); lia. }
    apply Z.pow_le_mono_r_iff in Hle; [|lia..]. destruct Hdiv as [q Eq].
    assert (2 ^ k = 2 ^ (k - c) * 2 ^ c) as Ekc by (rewrite <- Z.pow_add_r by lia; f_equal; lia).
    assert (pages = q * 2 ^ (k - c)) as Ep.
    { unfold pages. rewrite Eq, Ec, Ekc, Z.mul_assoc. apply Z.div_mul. lia. }
    split_and!; [done|rewrite Ep, Ec, Eq, Ekc; lia|by exists q]. }
  destruct (alloc_pages_ok fuel start end_ (k - c) flags Hst ltac:(lia) Hnh size mbs blocks mm (Z.to_nat pages)
    (fls pages - 1) pages [] mm) as (r & mm1 & E & Hr); try done; try lia.
  { by apply grab_nil. } { intros b Hb. set_solver. }
  { rewrite fls_log2 by done. apply log2_ge_min; [lia|lia|done]. }
  rewrite (st_bind_run _ _ _ _ _ E). simpl in Hr. rewrite Z.add_0_l, <- ER in Hr.
  destruct r as [l| |l]; [|done|].
  2:{ destruct (grab_free _ _ _ Hr) as (mm2 & E2 & Hk2). rewrite (st_bind_run _ _ _ _ _ E2).
      exists (- ENOSPC), [], mm2. rewrite app_nil_r. split; [done|]. right. done. }
  destruct Hr as (Hg & Hfit & Hsum).
  assert (has_flag flags DRM_BUDDY_RANGE_ALLOCATION = true -> within mm1 start (u64 (end_ - 1) + 1) l) as Hwi.
  { intros F b Hb. destruct (Hfit b Hb) as (f & o & Ha & _ & Hin). exists f, o. split; [done|].
    specialize (Hin F). lia. }
  destruct (negb (has_flag flags DRM_BUDDY_TRIM_DISABLE) && negb (size =? R)) eqn:Etrim.
  2:{ rewrite (st_bind_run _ _ mm1 l mm1) by done. exists 0, l, mm1. split; [done|]. left.
      split_and!; [done|done| |done]. rewrite Hsum.
      destruct (has_flag flags DRM_BUDDY_TRIM_DISABLE); [done|]. simpl in Etrim.
      apply negb_false_iff, Z.eqb_eq in Etrim. done. }
  apply andb_true_iff in Etrim as [T1%negb_true_iff T2%negb_true_iff%Z.eqb_neq].
  assert (chunk_size mm1 = chunk_size mm) as Ec1 by (by destruct (gr_geometry _ _ _ _ Hg)).
  destruct (trim_allocated_ok fuel mm mm1 size R l) as (l' & mm2 & E2 & Hg2 & Hsum2 & Hwi2);
    rewrite ?Ec1; try done; try lia.
  { eapply fuel_ok_geometry; [apply Hg|done]. }
  { intros b Hb. destruct (Hfit b Hb) as (f & o & Ha & Hmo & _). unfold held. rewrite Ha, Ec1. simpl. unfold asz. simpl.
    assert (2 ^ k <= chunk_size mm * 2 ^ o); [|lia]. rewrite Ec, <- Z.pow_add_r by lia. apply Z.pow_le_mono_r; lia. }
  { rewrite ER, Z.mul_comm. apply Z.mod_mul. lia. }
  rewrite (st_bind_run _ _ _ _ _ E2). exists 0, l', mm2. split; [done|]. left. rewrite T1. split_and!; auto.
Qed.

(** A request for exactly the bytes from [start] to [end_]. *)
Lemma alloc_exact_ok fuel start end_ size mbs blocks flags mm :
  wf None None mm -> fuel_ok mm fuel ->
  0 <= start -> 0 <= end_ -> 0 <= size < 2 ^ 64 -> 0 <= mbs < 2 ^ 64 ->
  alloc_args_ok mm start end_ size mbs = true -> start + size = end_ ->
  exists r l mm', drm_buddy_alloc_blocks slab_ok fuel start end_ size mbs blocks flags mm = Some ((r, blocks ++ l), mm') /\
    if IS_ALIGNED (Z.lor start end_) mbs then request_post mm mm' size start end_ true r l
    else r = - EINVAL /\ l = [] /\ mm' = mm.
Proof using slab_total.
  intros Hwf Hf Hst Hen Hsz Hmb Hok He.
  destruct (alloc_args_inv _ _ _ _ _ Hok Hwf Hst Hen ltac:(lia)) as (S1 & S2 & S3 & A1 & A2 & A3 & S4 & S5).
  pose proof (wf_chunk_pos mm Hwf) as Hcs. pose proof (wf_size _ _ _ Hwf) as Hms.
  unfold alloc_args_ok in Hok. rewrite !andb_true_iff, !negb_true_iff in Hok.
  destruct Hok as (((((G1 & G2) & G3) & G4) & G5) & G6).
  unfold drm_buddy_alloc_blocks.
  rewrite (st_bind_run _ _ mm (chunk_size mm) mm), (st_bind_run _ _ mm (mm_size mm) mm) by done.
  rewrite G1, G2, G3, G4, G5, G6, wrap_small, He, Z.eqb_refl by lia. cbn [negb].
  destruct (IS_ALIGNED (Z.lor start end_) mbs); cbn [negb].
  2:{ exists (- EINVAL), [], mm. rewrite app_nil_r. done. }
  destruct (alloc_range_ok slab_ok slab_total true None mm start end_ false) with (fuel := fuel) (dfs := roots mm)
    as (r & mm' & E & Hpost); try done; try lia.
  { intros b Hb. apply (wf_roots _ _ _ Hwf) in Hb as (B & -> & _). eauto. }
  { by apply fuel_ok_roots. } { by left. }
  replace (end_ - start) with size in E by lia. 
  assert (__drm_buddy_alloc_range slab_ok fuel start size false mm = Some (r, mm')) as E' by exact E.
  rewrite (st_bind_run _ _ mm r mm' E').
  exists (rr_err r), (rr_blocks r), mm'. split; [done|]. unfold request_post.
  destruct Hpost as [(-> & Hg & Hw & Hsum)|(_ & _ & -> & Hk & ->)]; [left|right]; [|done].
  split_and!; try done. lia.
Qed.
End Top.
