(* ===== verification/BuddyInit.v ===== *)
(** * The DRM buddy allocator: [drm_buddy_init]

    The manager starts as a row of free power-of-two roots that covers the
    rounded size exactly, one per bit of it. *)

From S2P Require Import Prelude Buddy BuddyInv BuddyOps BuddyFree.
From stdpp Require Import gmap list sorting.
From Stdlib Require Import ZArith Lia.

Local Open Scope Z_scope.
Local Open Scope st_scope.

(** ** Bit counting *)

Lemma hweight_top n : 0 < n -> hweight64 n = 1 + hweight64 (n - 2 ^ Z.log2 n).
Proof.
  destruct n as [|p|p]; try lia. intros _. simpl hweight64 at 1.
  induction p as [p IH|p IH|]; [| |done]; simpl hweight_pos; rewrite IH.
  - change (Z.pos p~1) with (2 * Z.pos p + 1). rewrite Z.log2_succ_double by lia.
    rewrite Z.pow_succ_r by apply Z.log2_nonneg.
    replace (2 * Z.pos p + 1 - 2 * 2 ^ Z.log2 (Z.pos p)) with (2 * (Z.pos p - 2 ^ Z.log2 (Z.pos p)) + 1) by lia.
    pose proof (proj1 (Z.log2_spec (Z.pos p) ltac:(lia))).
    destruct (Z.pos p - 2 ^ Z.log2 (Z.pos p)) eqn:E; [done|done|lia].
  - change (Z.pos p~0) with (2 * Z.pos p). rewrite Z.log2_double by lia.
    rewrite Z.pow_succ_r by apply Z.log2_nonneg. rewrite <- Z.mul_sub_distr_l.
    pose proof (proj1 (Z.log2_spec (Z.pos p) ltac:(lia))).
    destruct (Z.pos p - 2 ^ Z.log2 (Z.pos p)) eqn:E; [done|done|lia].
Qed.

(** ** Adding a root behind the space covered so far *)

Section AddRoot.
Context (mm mm' : drm_buddy) (n : bid) (N : drm_buddy_block).
Hypothesis Hwf : wf None None mm.
Hypothesis Hn : (next_block mm <= n)%positive.
Hypothesis Hn' : (n < next_block mm')%positive.
Hypothesis Hmono : (next_block mm <= next_block mm')%positive.
Hypothesis Hheap : heap mm' = <[n := N]> (heap mm).
Hypothesis Hord : 0 <= ord N <= max_order mm.
Hypothesis Hoff : off N = mm_size mm.
Hypothesis Halign : mm_size mm mod bsz (chunk_size mm) N = 0.
Hypothesis Hfree : is_free N = true.
Hypothesis Hclear : is_clear N = false.
Hypothesis Hpar : b_parent N = None.
Hypothesis Hchunk : chunk_size mm' = chunk_size mm.
Hypothesis Hmaxo : max_order mm' = max_order mm.
Hypothesis Hroots : roots mm' = roots mm ++ [n].
Hypothesis Hsize : mm_size mm' = mm_size mm + bsz (chunk_size mm) N.
Hypothesis Htop : mm_size mm' < 2 ^ 64.
Hypothesis Hav : avail mm' = avail mm + bsz (chunk_size mm) N.
Hypothesis Hcav : clear_avail mm' = clear_avail mm.
Hypothesis Hfl : exists l f, free_list mm !! Z.to_nat (ord N) = Some l /\
  (forall k, k ∈ l -> f k = (offset_of mm' n <? offset_of mm' k)) /\
  free_list mm' = <[Z.to_nat (ord N) := insert_before f n l]> (free_list mm).

Lemma root_fresh : heap mm !! n = None.
Proof.
  apply eq_None_not_Some. intros [K HK]. pose proof (wf_fresh _ _ _ Hwf _ _ HK). lia.
Qed.

Lemma root_cases k K : heap mm' !! k = Some K -> (k = n /\ K = N) \/ (k <> n /\ heap mm !! k = Some K).
Proof.
  rewrite Hheap. destruct (decide (k = n)) as [->|]; [rewrite lookup_insert_eq|rewrite lookup_insert_ne by done].
  - intros [= <-]. auto.
  - auto.
Qed.

Lemma root_old k K : heap mm !! k = Some K -> heap mm' !! k = Some K.
Proof.
  intros HK. rewrite Hheap, lookup_insert_ne; [done|]. intros <-. by rewrite root_fresh in HK.
Qed.

Lemma root_state : bst None n N = SFree.
Proof. by apply bst_none_free. Qed.

Lemma root_size : 4096 <= bsz (chunk_size mm) N.
Proof.
  unfold bsz. pose proof (wf_chunk_pos mm Hwf). assert (0 < 2 ^ ord N) by (apply Z.pow_pos_nonneg; lia). nia.
Qed.

Lemma root_free_of o k :
  free_of_order None mm' o k <-> free_of_order None mm o k \/ (k = n /\ ord N = Z.of_nat o).
Proof.
  split.
  - intros (K & HK & HS & HO). apply root_cases in HK as [[-> ->]|[Hk HK]]; [by right|left; by exists K].
  - intros [(K & HK & HS & HO)|[-> HO]].
    + exists K. split_and!; [by apply root_old|done..].
    + exists N. split_and!; [by rewrite Hheap, lookup_insert_eq|apply root_state|done].
Qed.

Lemma root_lists o l : free_list mm' !! o = Some l -> fl_ok None mm' o l.
Proof.
  destruct Hfl as (l0 & f & El & Hf & Ef). rewrite Ef. intros Hl.
  assert (forall k, k <> n -> offset_of mm' k = offset_of mm k) as Hoffs.
  { intros k Hk. unfold offset_of. by rewrite Hheap, lookup_insert_ne. }
  assert (forall o l, free_list mm !! o = Some l -> n ∉ l) as Hnl.
  { intros o1 l1 Hl1 Hin. apply (wf_fl _ _ _ Hwf _ _ Hl1) in Hin as (K & HK & _).
    by rewrite root_fresh in HK. }
  destruct (decide (o = Z.to_nat (ord N))) as [->|Hne].
  - rewrite list_lookup_insert_eq in Hl by (apply lookup_lt_is_Some; eauto). injection Hl as <-.
    apply (fl_ok_ins None None mm mm'); [by apply (wf_fl _ _ _ Hwf)| |by eapply Hnl| |done].
    + intros k Hk. apply Hoffs. intros ->. by eapply Hnl.
    + intros k. rewrite root_free_of. rewrite Z2Nat.id by lia. tauto.
  - rewrite list_lookup_insert_ne in Hl by done.
    apply (fl_ok_ext None None mm mm'); [by apply (wf_fl _ _ _ Hwf)| |].
    + intros k Hk. apply Hoffs. intros ->. by eapply Hnl.
    + intros k. rewrite root_free_of. split; [intros [?|[_ E]]; [done|]|tauto].
      exfalso. apply Hne. lia.
Qed.

Lemma wf_add_root : wf None None mm'.
Proof.
  pose proof root_size as Hsz. pose proof (wf_size _ _ _ Hwf) as Hs0.
  pose proof root_state as HsN.
  assert (forall f : bid -> drm_buddy_block -> Z, msum f (heap mm') = f n N + msum f (heap mm)) as Hsum.
  { intros f. rewrite Hheap. apply msum_insert, root_fresh. }
  split; rewrite ?Hchunk, ?Hmaxo.
  - apply Hwf.
  - lia.
  - apply Hwf.
  - intros k K [[-> ->]|[_ HK]]%root_cases; [done|]. pose proof (wf_fresh _ _ _ Hwf _ _ HK). lia.
  - intros k K [[-> ->]|[_ HK]]%root_cases.
    + split; rewrite ?Hchunk, ?Hmaxo, ?HsN, ?Hoff; auto; try done; lia.
    + destruct (wf_blk _ _ _ Hwf _ _ HK) as [? [? ?] ? ? ?].
      split; rewrite ?Hchunk, ?Hmaxo; auto. split; [done|lia].
  - intros p P [[-> ->]|[_ HP]]%root_cases HS; [congruence|].
    destruct (wf_split _ _ _ Hwf _ _ HP HS) as (l & r & L & R & ? & ? & HL & HR & Hrest).
    exists l, r, L, R. rewrite Hchunk. split_and!; try done; try apply Hrest; by apply root_old.
  - intros k K p [[-> ->]|[_ HK]]%root_cases HP.
    + simpl in HP. congruence.
    + destruct (wf_parent _ _ _ Hwf _ _ _ HK HP) as (P & HPp & ? & ?). exists P.
      split; [by apply root_old|done].
  - intros k. rewrite Hroots, elem_of_app, list_elem_of_singleton, (wf_roots _ _ _ Hwf). split.
    + intros [(K & HK & HP)| ->].
      * exists K. split; [by apply root_old|done].
      * exists N. by rewrite Hheap, lookup_insert_eq.
    + intros (K & HK & HP). apply root_cases in HK as [[-> ->]|[_ HK]]; eauto.
  - rewrite Hroots. apply NoDup_app. split_and!; [apply Hwf| |apply NoDup_singleton].
    intros k Hk ->%list_elem_of_singleton. apply (wf_roots _ _ _ Hwf) in Hk as (K & HK & _).
    by rewrite root_fresh in HK.
  - destruct Hfl as (l & f & _ & _ & ->). rewrite length_insert. apply Hwf.
  - apply root_lists.
  - assert (forall b B, heap mm !! b = Some B -> disjoint_blocks (chunk_size mm) B N) as Hd.
    { intros b B HB. destruct (bk_off _ _ _ _ (wf_blk _ _ _ Hwf _ _ HB)). left. lia. }
    intros x y X Y Hxy [[-> ->]|[_ HX]]%root_cases [[-> ->]|[_ HY]]%root_cases S1 S2; [done| | |].
    + destruct (Hd y Y HY); [by right|by left].
    + by apply (Hd x X).
    + by apply (wf_disj _ _ _ Hwf x y).
  - done.
  - rewrite Hsum, Hav, (wf_avail _ _ _ Hwf). unfold fsz at 2. rewrite HsN. lia.
  - rewrite Hsum, Hcav, (wf_clear_avail _ _ _ Hwf). unfold csz at 2. rewrite HsN, Hclear. lia.
  - rewrite Hsum, (wf_cover _ _ _ Hwf), Hsize. unfold lsz. rewrite HsN. lia.
Qed.
End AddRoot.

(** ** The loop over the roots *)

(** The manager as if it ended at [offset]. *)
Definition prefix (offset : Z) (mm : drm_buddy) : drm_buddy :=
  mkBuddy (heap mm) (next_block mm) (free_list mm) (roots mm) (n_roots mm) (max_order mm)
    (chunk_size mm) offset offset (clear_avail mm).

(** What the loop leaves alone. *)
Record init_frame (mm mm' : drm_buddy) : Prop := {
  if_maxo : max_order mm' = max_order mm;
  if_chunk : chunk_size mm' = chunk_size mm;
  if_size : mm_size mm' = mm_size mm;
  if_nroots : n_roots mm' = n_roots mm;
  if_avail : avail mm' = avail mm;
  if_clear : clear_avail mm' = clear_avail mm;
  if_allocs : allocs mm' = allocs mm
}.

Lemma init_frame_trans mm1 mm2 mm3 : init_frame mm1 mm2 -> init_frame mm2 mm3 -> init_frame mm1 mm3.
Proof. intros [] []. constructor; congruence. Qed.

Section InitRoots.
Context (slab_ok : positive -> bool).
Hypothesis slab_total : forall n, slab_ok n = true.

(** One round: a root of order [o] at [offset]. *)
Lemma init_root_ok mm offset o :
  wf None None (prefix offset mm) -> 0 <= o <= max_order mm ->
  offset mod (chunk_size mm * 2 ^ o) = 0 -> offset + chunk_size mm * 2 ^ o < 2 ^ 64 ->
  exists n mm1,
    drm_block_alloc slab_ok None o offset mm = Some (Some n, set_heap (<[n := mkBlock (Z.lor offset o) None None None]> (heap mm))
          (set_next (Pos.succ (next_block mm)) mm)) /\
    mark_free n (set_heap (<[n := mkBlock (Z.lor offset o) None None None]> (heap mm))
          (set_next (Pos.succ (next_block mm)) mm)) = Some (tt, mm1) /\
    roots mm1 = roots mm /\ init_frame mm mm1 /\
    (exists N, heap mm1 !! n = Some N /\ ord N = o) /\
    wf None None (prefix (offset + chunk_size mm * 2 ^ o) (set_roots (roots mm ++ [n]) mm1)).
Proof using slab_total.
  intros Hwf Ho Hal Htop. pose proof (wf_maxo _ _ _ Hwf) as Hmo. pose proof (wf_size _ _ _ Hwf) as Hs.
  pose proof (wf_chunk_pos _ Hwf) as Hcs. simpl in Hmo, Hs, Hcs.
  assert (0 < 2 ^ o) as Hpo by (apply Z.pow_pos_nonneg; lia).
  assert (offset mod 4096 = 0) as H4k.
  { destruct (wf_chunk _ _ _ Hwf) as (c & Hc & Ec). simpl in Ec.
    apply Z.mod_divide in Hal as [q ->]; [|nia]. rewrite Ec.
    replace c with (c - 12 + 12) by lia. rewrite Z.pow_add_r by lia.
    replace (q * (2 ^ (c - 12) * 2 ^ 12 * 2 ^ o)) with (q * 2 ^ (c - 12) * 2 ^ o * 4096) by lia.
    apply Z.mod_mul. lia. }
  set (n := next_block mm). set (N0 := mkBlock (Z.lor offset o) None None None).
  destruct (fresh_header_facts o offset None None None) as (F1 & F2 & F3 & F4 & _);
    [unfold DRM_BUDDY_MAX_ORDER in Hmo; lia|lia|done|]. fold N0 in F1, F2, F3, F4.
  pose proof (drm_block_alloc_run slab_ok slab_total mm None o offset ltac:(lia) ltac:(lia) H4k) as E1.
  fold n N0 in E1. set (mm0 := set_heap _ _) in E1.
  destruct (wf_free_list (prefix offset mm) o Hwf Ho) as (l & El & Hl). simpl in El.
  assert (n ∉ l) as Hnl.
  { intros Hin. destruct Hl as (_ & _ & Hm). apply Hm in Hin as (K & HK & _).
    pose proof (wf_fresh _ _ _ Hwf _ _ HK). simpl in *. unfold n in *. lia. }
  assert (heap mm0 !! n = Some N0) as Hn0 by (simpl; by rewrite lookup_insert_eq).
  pose proof (mark_free_run mm0 n N0 l Hn0) as E2. rewrite F2 in E2. specialize (E2 El Hnl).
  set (N := with_state DRM_BUDDY_FREE N0) in E2. set (mm1 := set_free_list _ _) in E2.
  exists n, mm1. split; [exact E1|split; [exact E2|split; [done|]]].
  assert (off N = offset /\ ord N = o /\ is_clear N = false /\ is_free N = true) as (G1 & G2 & G3 & G4).
  { unfold N. rewrite off_with_state, ord_with_state, clear_with_state by done. rewrite F1, F2, F4.
    split_and!; try done. apply state_free. }
  assert (heap mm1 = <[n := N]> (heap mm)) as Eh by (simpl; apply insert_insert_eq).
  split; [|split].
  - constructor; try done. unfold allocs. rewrite Eh, omap_insert.
    assert (is_alloc N = false) as ->.
    { pose proof (bst_none_inv n N) as Hi. rewrite (bst_none_free n N G4) in Hi. tauto. }
    apply delete_id. rewrite lookup_omap.
    assert (heap mm !! n = None) as ->; [|done]. apply eq_None_not_Some. intros [K HK].
    pose proof (wf_fresh _ _ _ Hwf n K HK). simpl in *. unfold n in *. lia.
  - exists N. by rewrite Eh, lookup_insert_eq.
  - apply (wf_add_root (prefix offset mm) _ n N); auto; unfold bsz; simpl chunk_size; rewrite ?G2; try done;
      simpl; try (unfold n; lia).
    exists l, (fun node => off N0 <? offset_of (set_heap (<[n := N]> (heap mm0)) mm0) node).
    split; [done|]. split; [|done]. intros k Hk. unfold offset_of. simpl. rewrite insert_insert_eq.
    rewrite lookup_insert_eq. fold (off N). rewrite G1, F1. done.
Qed.

Lemma init_roots_ok fuel c mm size offset i :
  wf None None (prefix offset mm) -> chunk_size mm = 2 ^ c -> 12 <= c ->
  0 < size -> (2 ^ c | size) -> offset + size < 2 ^ 64 ->
  (exists m, 0 <= m /\ size < 2 ^ m /\ (2 ^ m | offset)) ->
  0 <= i -> Z.log2 size + i <= c + max_order mm -> Z.log2 size - c < Z.of_nat fuel ->
  exists mm', drm_buddy_init_roots slab_ok fuel size offset i mm = Some (0, mm') /\
    wf None None (prefix (offset + size) mm') /\ init_frame mm mm' /\
    Z.of_nat (length (roots mm')) = Z.of_nat (length (roots mm)) + hweight64 size.
Proof using slab_total.
  revert mm size offset i. induction fuel as [|fuel IH]; intros mm size offset i Hwf Ec Hc Hs Hds Htop Hm Hi Hb Hf.
  { assert (c <= Z.log2 size); [|lia]. rewrite <- (Z.log2_pow2 c) by lia. apply Z.log2_le_mono.
    by apply Z.divide_pos_le. }
  assert (c <= Z.log2 size) as Hcl.
  { rewrite <- (Z.log2_pow2 c) by lia. apply Z.log2_le_mono. by apply Z.divide_pos_le. }
  pose proof (Z.log2_spec size Hs) as [Hlo Hhi]. set (t := Z.log2 size) in *.
  assert (chunk_size mm * 2 ^ (t - c) = 2 ^ t) as Esz by (rewrite Ec, <- Z.pow_add_r by lia; f_equal; lia).
  assert (0 <= offset) as H0 by (pose proof (wf_size _ _ _ Hwf) as H; simpl in H; lia).
  assert ((2 ^ t | offset)) as Hdo.
  { destruct Hm as (m & Hm0 & Hm1 & Hm2). transitivity (2 ^ m); [|done]. exists (2 ^ (m - t)).
    assert (t < m) by (apply Z.log2_lt_pow2; lia). rewrite <- Z.pow_add_r by lia. f_equal. lia. }
  assert (0 < 2 ^ t) as Hpt by (apply Z.pow_pos_nonneg; lia).
  destruct (init_root_ok mm offset (t - c) Hwf) as (n & mm1 & E1 & E2 & Er & Hfr & (N & HN & ON) & Hw1).
  { lia. } { rewrite Esz. by apply Z.mod_divide; [lia|]. } { lia. }
  cbn [drm_buddy_init_roots]. rewrite (st_bind_run _ _ mm (chunk_size mm) mm) by done.
  unfold ilog2. rewrite Ec, Z.log2_pow2 by lia. fold t.
  rewrite (st_bind_run _ _ _ _ _ E1), (st_bind_run _ _ _ _ _ E2).
  rewrite (st_bind_run _ _ mm1 (max_order mm1) mm1) by done. rewrite (if_maxo _ _ Hfr).
  destruct (Z.ltb_spec (max_order mm) i); [lia|]. rewrite (st_bind_run _ _ mm1 tt mm1) by done.
  rewrite (st_bind_run _ _ _ _ _ (block_size_run _ _ _ HN)).
  assert (drm_buddy_block_size mm1 N = 2 ^ t) as ->.
  { unfold drm_buddy_block_size. fold (ord N). rewrite ON, (if_chunk _ _ Hfr), Z.shiftl_mul_pow2, Esz by lia.
    apply wrap_small. lia. }
  rewrite Z.shiftl_mul_pow2, <- Ec, Esz, Ec by lia.
  assert (2 ^ c <= 2 ^ t) by (apply Z.pow_le_mono_r; lia).
  destruct (Z.ltb_spec (2 ^ t) (2 ^ c)); [lia|]. rewrite (st_bind_run _ _ mm1 tt mm1) by done.
  rewrite (st_bind_run _ _ mm1 (roots mm1) mm1) by done. rewrite Er.
  rewrite (st_bind_run _ _ mm1 tt (set_roots (roots mm ++ [n]) mm1)) by done.
  rewrite (wrap_small 64 (2 ^ t)), (wrap_small 64 (size - 2 ^ t)), (wrap_small 64 (offset + 2 ^ t)) by lia.
  assert (hweight64 size = 1 + hweight64 (size - 2 ^ t)) as Ehw by (by apply hweight_top).
  assert (init_frame mm (set_roots (roots mm ++ [n]) mm1)) as Hfr' by (destruct Hfr; by constructor).
  rewrite Esz in Hw1. destruct (Z.eqb_spec (size - 2 ^ t) 0) as [Ez|Hnz].
  - eexists. split; [done|]. replace (offset + size) with (offset + 2 ^ t) by lia. split_and!; [done|done|].
    simpl. rewrite length_app. simpl. rewrite Ehw, Ez. simpl. lia.
  - assert (Z.log2 (size - 2 ^ t) < t) as Hlt.
    { apply Z.log2_lt_pow2; [lia|]. rewrite Z.pow_succ_r in Hhi by lia. lia. }
    destruct (IH (set_roots (roots mm ++ [n]) mm1) (size - 2 ^ t) (offset + 2 ^ t) (i + 1))
      as (mm' & E & Hw & Hf' & Hlen); simpl; try done; try lia.
    + by rewrite (if_chunk _ _ Hfr).
    + apply Z.divide_sub_r; [done|]. exists (2 ^ (t - c)). rewrite <- Z.pow_add_r by lia. f_equal. lia.
    + exists t. split_and!; [lia|rewrite Z.pow_succ_r in Hhi by lia; lia|].
      apply Z.divide_add_r; [done|reflexivity].
    + rewrite (if_maxo _ _ Hfr). lia.
    + exists mm'. split; [exact E|]. replace (offset + size) with (offset + 2 ^ t + (size - 2 ^ t)) by lia.
      split_and!; [done|by eapply init_frame_trans|]. rewrite Hlen. simpl. rewrite length_app. simpl. lia.
Qed.

(** ** [drm_buddy_init] *)

Lemma wf_nothing next mo chunk c :
  12 <= c -> chunk = 2 ^ c -> 0 <= mo <= DRM_BUDDY_MAX_ORDER ->
  forall nr, wf None None (mkBuddy ∅ next (replicate (Z.to_nat (mo + 1)) []) [] nr mo chunk 0 0 0).
Proof using.
  clear. intros Hc Ec Hmo nr. split; simpl; try done.
  - by exists c.
  - intros b. split; [set_solver|]. by intros (B & HB & _).
  - constructor.
  - apply length_replicate.
  - intros o l Hl. apply lookup_replicate in Hl as [-> _]. split_and!; [constructor|constructor|].
    intros b. split; [set_solver|]. by intros (B & HB & _).
Qed.

Lemma drm_buddy_init_ok size chunk mm :
  heap mm = ∅ -> 0 <= size < 2 ^ 64 -> 0 <= chunk < 2 ^ 64 ->
  exists r mm', drm_buddy_init slab_ok (true, true) size chunk mm = Some (r, mm') /\
    if (chunk <=? size) && (4096 <=? chunk) && is_power_of_2 chunk then
      r = 0 /\ wf None None mm' /\ allocs mm' = ∅ /\
      mm_size mm' = size - size mod chunk /\ avail mm' = mm_size mm' /\ clear_avail mm' = 0 /\
      chunk_size mm' = chunk /\ max_order mm' = Z.log2 (mm_size mm') - Z.log2 chunk /\
      Z.of_nat (length (roots mm')) = n_roots mm' /\ n_roots mm' = hweight64 (mm_size mm')
    else r = - EINVAL /\ mm' = mm.
Proof using slab_total.
  intros Hh Hs Hch. unfold drm_buddy_init, SZ_4K.
  rewrite (Z.leb_antisym size chunk), (Z.leb_antisym chunk 4096).
  destruct (size <? chunk) eqn:G1; [by eexists _, mm|].
  destruct (chunk <? 4096) eqn:G2; [by eexists _, mm|].
  destruct (is_power_of_2 chunk) eqn:G3; [|by eexists _, mm]. cbn [negb andb fst snd].
  apply Z.ltb_ge in G1, G2. pose proof (is_power_of_2_inv chunk G3 ltac:(lia)) as Ec.
  set (c := Z.log2 chunk) in *.
  assert (12 <= c < 64) as Hc.
  { split; [|apply Z.log2_lt_pow2; lia]. change 12 with (Z.log2 4096). by apply Z.log2_le_mono. }
  pose proof (Z.mod_pos_bound size chunk ltac:(lia)) as Hmod.
  assert (round_down size chunk = size - size mod chunk) as -> by (rewrite Ec; apply round_down_pow2; lia).
  set (R := size - size mod chunk).
  assert ((2 ^ c | R)) as Hdiv.
  { rewrite <- Ec. exists (size / chunk). unfold R. pose proof (Z.div_mod size chunk ltac:(lia)). lia. }
  assert (0 < R < 2 ^ 64) as HR by (unfold R; split; [|lia];
    pose proof (Z.mod_le size chunk ltac:(lia) ltac:(lia));
    destruct (Z.eq_dec (size mod chunk) size); [pose proof (Z.mod_pos_bound size chunk ltac:(lia)); lia|lia]).
  assert (c <= Z.log2 R < 64) as HlR.
  { split; [|apply Z.log2_lt_pow2; lia]. rewrite <- (Z.log2_pow2 c) by lia. apply Z.log2_le_mono.
    apply Z.divide_pos_le; [lia|done]. }
  unfold ilog2. fold c. set (mo := Z.log2 R - c).
  assert (0 <= mo <= DRM_BUDDY_MAX_ORDER) as Hmo by (unfold DRM_BUDDY_MAX_ORDER, mo; lia).
  destruct (Z.ltb_spec DRM_BUDDY_MAX_ORDER mo); [lia|]. rewrite (st_bind_run _ _ mm tt mm) by done.
  unfold st_bind at 1, st_mod at 1. unfold st_bind at 1, st_mod at 1. unfold st_bind at 1, st_mod at 1.
  cbn [heap next_block set_free_list free_list roots n_roots max_order chunk_size mm_size avail clear_avail].
  set (mm0 := mkBuddy _ _ _ _ _ _ _ _ _ _).
  destruct (init_roots_ok 64 c mm0 R 0 0) as (mm' & E & Hw & Hfr & Hlen);
    [|exact Ec|lia|lia|exact Hdiv|lia| |lia| |change (Z.of_nat 64) with 64; lia|].
  - unfold prefix, mm0. simpl. rewrite Hh. apply (wf_nothing _ mo chunk c); [lia|done|done].
  - exists 64. split_and!; [lia|lia|apply Z.divide_0_r].
  - unfold mm0, mo. simpl. lia.
  - exists 0, mm'. split; [exact E|]. clear E. destruct Hfr as [F1 F2 F3 F4 F5 F6 F7].
    cbn [max_order chunk_size mm_size n_roots avail clear_avail roots mm0 length] in F1, F2, F3, F4, F5, F6, Hlen.
    split; [done|]. rewrite Z.add_0_l in Hw.
    assert (prefix R mm' = mm') as Ep. { clear -F3 F5. unfold prefix. rewrite <- F3 at 1. rewrite <- F5 at 1. by destruct mm'. }
    rewrite Ep in Hw. split_and!; try done; try congruence.
    + rewrite F7. unfold allocs, mm0. simpl. rewrite Hh. apply omap_empty.
    + rewrite F1, F3. done.
    + rewrite Hlen, F4. simpl. lia.
Qed.
End InitRoots.
