(* ===== verification/BuddyProps.v ===== *)
(** * The DRM buddy allocator: what it guarantees

    The theorems about the allocator's entry points, for any state satisfying
    the invariant [wf], and the invariant of every state they reach. *)

From S2P Require Import Prelude Buddy BuddyInv BuddyOps BuddyFree BuddyAlloc BuddyRange BuddyTrim BuddyTop BuddyInit.
From stdpp Require Import gmap list sorting.
From Stdlib Require Import ZArith Lia.

Local Open Scope Z_scope.

(** ** What the invariant says to a client *)

(** Handed-out ranges are aligned to their size, inside the managed space and
    pairwise disjoint; what is not handed out is available. *)
Record client_safe (mm : drm_buddy) : Prop := {
  cs_bounds : forall b f o, allocs mm !! b = Some (f, o) ->
    0 <= f /\ f + chunk_size mm * 2 ^ o <= mm_size mm /\ f mod (chunk_size mm * 2 ^ o) = 0;
  cs_disjoint : forall a b f o g p, a <> b -> allocs mm !! a = Some (f, o) -> allocs mm !! b = Some (g, p) ->
    f + chunk_size mm * 2 ^ o <= g \/ g + chunk_size mm * 2 ^ p <= f;
  cs_account : avail mm + msum (fun _ v => asz (chunk_size mm) v) (allocs mm) = mm_size mm;
  cs_clear : 0 <= clear_avail mm <= avail mm
}.

Lemma wf_client_safe mm : wf None None mm -> client_safe mm.
Proof.
  intros Hwf. split.
  - intros b f o (B & HB & Ha & [= -> ->])%allocs_inv. fold (bsz (chunk_size mm) B).
    destruct (wf_blk _ _ _ Hwf _ _ HB) as [_ [? ?] ? _ _]. done.
  - intros a b f o g p Hne (A & HA & Aa & [= -> ->])%allocs_inv (B & HB & Ab & [= -> ->])%allocs_inv.
    destruct (wf_disj _ _ _ Hwf a b A B Hne HA HB); rewrite ?bst_none_alloc by done; auto.
  - rewrite (wf_avail _ _ _ Hwf), <- (wf_cover _ _ _ Hwf). unfold allocs. rewrite msum_omap, <- msum_add.
    apply msum_ext. intros b B HB. pose proof (bst_none_inv b B) as Hi.
    pose proof (bk_state _ _ _ _ (wf_blk _ _ _ Hwf _ _ HB)) as Hs. unfold fsz, lsz.
    destruct (bst None b B); try done; destruct Hi as (-> & _); simpl; unfold asz, bsz; simpl; lia.
  - apply (wf_avail_bounds mm Hwf).
Qed.

(** ** The states the entry points reach *)

Section Reach.
Context (slab_ok : positive -> bool).

(** A request the allocator is meant to serve: valid arguments whose rounded
    size still has an order of the manager. Contiguous requests come with a range;
    without one they may fall back to [__alloc_contig_try_harder]. *)
Record good_request (mm : drm_buddy) (fuel : nat) (start end_ size mbs flags : Z) : Prop := {
  gq_fuel : fuel_ok mm fuel;
  gq_start : 0 <= start;
  gq_end : 0 <= end_;
  gq_size : 0 <= size < 2 ^ 64;
  gq_min : 0 <= mbs < 2 ^ 64;
  gq_flags : has_flag flags DRM_BUDDY_CONTIGUOUS_ALLOCATION
             && negb (has_flag flags DRM_BUDDY_RANGE_ALLOCATION) = false;
  gq_args : alloc_args_ok mm start end_ size mbs = true;
  gq_pages : 0 < rounded_size size mbs flags / chunk_size mm < 2 ^ 32;
  gq_order : Z.log2 (rounded_size size mbs flags / chunk_size mm) <= max_order mm
}.

Inductive buddy_step : drm_buddy -> drm_buddy -> Prop :=
| step_alloc fuel start end_ size mbs blocks flags mm r mm' :
    good_request mm fuel start end_ size mbs flags ->
    drm_buddy_alloc_blocks slab_ok fuel start end_ size mbs blocks flags mm = Some (r, mm') ->
    buddy_step mm mm'
| step_free objects flags mm mm' :
    NoDup objects -> (forall b, b ∈ objects -> is_Some (allocs mm !! b)) ->
    drm_buddy_free_list objects flags mm = Some (tt, mm') -> buddy_step mm mm'
| step_trim fuel start new_size b f o mm r mm' :
    allocs mm !! b = Some (f, o) -> 0 <= new_size < 2 ^ 64 ->
    (forall st, start = Some st -> 0 <= st < 2 ^ 64) -> 2 ^ (max_order mm + 1) <= Z.of_nat fuel ->
    drm_buddy_block_trim slab_ok fuel start new_size [b] mm = Some (r, mm') -> buddy_step mm mm'.

(** States between operations on a manager set up by [drm_buddy_init]. *)
Inductive buddy_reach (size chunk : Z) : drm_buddy -> Prop :=
| reach_init mm mm' :
    heap mm = ∅ -> drm_buddy_init slab_ok (true, true) size chunk mm = Some (0, mm') ->
    buddy_reach size chunk mm'
| reach_step mm mm' :
    buddy_reach size chunk mm -> buddy_step mm mm' -> buddy_reach size chunk mm'.

Hypothesis slab_total : forall n, slab_ok n = true.

Lemma request_wf fuel start end_ size mbs blocks flags mm :
  wf None None mm -> good_request mm fuel start end_ size mbs flags ->
  exists r mm', drm_buddy_alloc_blocks slab_ok fuel start end_ size mbs blocks flags mm = Some (r, mm') /\
    wf None None mm'.
Proof using slab_total.
  intros Hwf [H1 H2 H3 H4 H5 H6 H7 H8 H9]. destruct (Z.eq_dec (start + size) end_) as [E|E].
  - destruct (alloc_exact_ok slab_ok slab_total fuel start end_ size mbs blocks flags mm)
      as (r & l & mm' & Er & Hp); try done.
    eexists _, mm'. split; [done|]. destruct (IS_ALIGNED _ _); [|by destruct Hp as (_ & _ & ->)].
    destruct Hp as [(_ & [] & _)|(_ & [] & _)]; done.
  - destruct (alloc_blocks_ok slab_ok slab_total fuel start end_ size mbs blocks flags mm)
      as (r & l & mm' & Er & Hp); try done.
    eexists _, mm'. split; [done|]. destruct Hp as [(_ & [] & _)|(_ & [] & _)]; done.
Qed.

Lemma step_wf mm mm' : wf None None mm -> buddy_step mm mm' -> wf None None mm'.
Proof using slab_total.
  intros Hwf Hst. destruct Hst as [fuel start end_ size mbs blocks flags mm r mm' Hq E
    |objects flags mm mm' Hnd Hal E|fuel start new_size b f o mm r mm' Ha Hn Hs Hf E].
  - destruct (request_wf fuel start end_ size mbs blocks flags mm Hwf Hq) as (r0 & mm0 & E0 & H0). congruence.
  - destruct (drm_buddy_free_list_ok mm objects (has_flag flags DRM_BUDDY_CLEARED)
      (negb (has_flag flags DRM_BUDDY_CLEARED)) Hwf Hnd Hal) as (mm0 & E0 & H0 & _).
    unfold drm_buddy_free_list in E. congruence.
  - destruct (block_trim_ok slab_ok slab_total fuel mm b f o start new_size Hwf Ha Hn Hs Hf)
      as (r0 & l0 & mm0 & E0 & [(_ & _ & _ & ->)|(_ & _ & s & _ & _ & Ht)]).
    + congruence.
    + assert (mm' = mm0) as -> by congruence. apply (tm_wf _ _ _ _ _ _ Ht).
Qed.

Lemma reach_wf size chunk mm :
  0 <= size < 2 ^ 64 -> 0 <= chunk < 2 ^ 64 -> buddy_reach size chunk mm -> wf None None mm.
Proof using slab_total.
  intros Hs Hc. induction 1 as [mm mm' Hh E|mm mm' _ IH Hst]; [|by eapply step_wf].
  destruct (drm_buddy_init_ok slab_ok slab_total size chunk mm Hh Hs Hc) as (r & mm0 & E0 & H0).
  rewrite E in E0. injection E0 as <- <-. destruct (_ && is_power_of_2 chunk).
  - apply H0.
  - by destruct H0.
Qed.
End Reach.

(** ** A concrete manager: ten pages and a few bytes *)

Definition every_slab (_ : positive) : bool := true.
Definition blank_mm : drm_buddy := mkBuddy ∅ 1 [] [] 0 0 0 0 0 0.
Definition run_state {A} (r : option (A * drm_buddy)) : drm_buddy :=
  match r with Some (_, mm) => mm | None => blank_mm end.
Definition ten_pages : drm_buddy :=
  Eval vm_compute in run_state (drm_buddy_init every_slab (true, true) 40965 4096 blank_mm).
Definition three_taken : drm_buddy :=
  Eval vm_compute in run_state
    (drm_buddy_alloc_blocks every_slab 48 0 40960 12288 4096 [] 0 ten_pages).

Lemma ten_pages_init : drm_buddy_init every_slab (true, true) 40965 4096 blank_mm = Some (0, ten_pages).
Proof. vm_compute. reflexivity. Qed.

Lemma three_taken_alloc :
  drm_buddy_alloc_blocks every_slab 48 0 40960 12288 4096 [] 0 ten_pages
  = Some ((0, [2%positive; 8%positive]), three_taken).
Proof. vm_compute. reflexivity. Qed.

Lemma every_slab_ok n : every_slab n = true.
Proof. done. Qed.

Lemma ten_pages_wf : wf None None ten_pages.
Proof.
  destruct (drm_buddy_init_ok every_slab every_slab_ok 40965 4096 blank_mm) as (r & mm & E & H); [done|lia|lia|].
  rewrite ten_pages_init in E. injection E as <- <-. apply H.
Qed.

Lemma three_pages_good : good_request ten_pages 48 0 40960 12288 4096 0.
Proof. constructor; try lia; try (vm_compute; split; congruence); vm_compute; congruence. Qed.

Lemma ten_pages_reach : buddy_reach every_slab 40965 4096 ten_pages.
Proof. apply (reach_init _ _ _ blank_mm); [done|apply ten_pages_init]. Qed.

Lemma three_taken_reach : buddy_reach every_slab 40965 4096 three_taken.
Proof.
  eapply reach_step; [apply ten_pages_reach|]. eapply step_alloc; [apply three_pages_good|].
  apply three_taken_alloc.
Qed.

Lemma three_taken_wf : wf None None three_taken.
Proof.
  destruct (request_wf every_slab every_slab_ok 48 0 40960 12288 4096 [] 0 ten_pages ten_pages_wf three_pages_good)
    as (r & mm & E & H). rewrite three_taken_alloc in E. injection E as _ <-. done.
Qed.

(** ** Properties *)

(** C1: provided the slab cache never fails, in every state reached from a successful
    [drm_buddy_init] by good requests ([good_request]: accepted arguments, a rounded
    size within [max_order] and 2^32 pages, contiguous only inside a range), by freeing
    distinct allocated blocks and by trimming single allocated blocks, the blocks
    handed out are aligned, lie inside the managed space and do not overlap, and
    [avail] is the rest of the space. When the slab fails in the middle of a split,
    a free list can be corrupted ([alloc_enomem_undo_bug]). *)
Theorem buddy_reachable_safe slab_ok size chunk mm :
  (forall n, slab_ok n = true) -> 0 <= size < 2 ^ 64 -> 0 <= chunk < 2 ^ 64 ->
  buddy_reach slab_ok size chunk mm -> client_safe mm.
Proof. intros Ht Hs Hc Hr. apply wf_client_safe. exact (reach_wf slab_ok Ht size chunk mm Hs Hc Hr). Qed.

Lemma buddy_reachable_safe_witness : client_safe three_taken.
Proof.
  apply (buddy_reachable_safe every_slab 40965 4096 three_taken).
  - intros n. reflexivity.
  - lia.
  - lia.
  - apply three_taken_reach.
Defined.

(** [drm_buddy_init] rejects a size below one chunk, a chunk below 4 KiB and
    a chunk that is not a power of two; otherwise it leaves a well-formed
    manager of the rounded-down size in which everything is available, with
    exactly [n_roots = hweight64(size)] roots, the length of the array it
    allocated for them. *)
Theorem drm_buddy_init_correct slab_ok size chunk mm :
  (forall n, slab_ok n = true) -> heap mm = ∅ -> 0 <= size < 2 ^ 64 -> 0 <= chunk < 2 ^ 64 ->
  exists r mm', drm_buddy_init slab_ok (true, true) size chunk mm = Some (r, mm') /\
    if (chunk <=? size) && (4096 <=? chunk) && is_power_of_2 chunk then
      r = 0 /\ wf None None mm' /\ allocs mm' = ∅ /\
      mm_size mm' = size - size mod chunk /\ avail mm' = mm_size mm' /\ clear_avail mm' = 0 /\
      chunk_size mm' = chunk /\ max_order mm' = Z.log2 (mm_size mm') - Z.log2 chunk /\
      Z.of_nat (length (roots mm')) = n_roots mm' /\ n_roots mm' = hweight64 (mm_size mm')
    else r = - EINVAL /\ mm' = mm.
Proof. intros. by apply drm_buddy_init_ok. Qed.

Lemma drm_buddy_init_correct_witness :
  exists r mm', drm_buddy_init every_slab (true, true) 40965 4096 blank_mm = Some (r, mm') /\ r = 0 /\
    mm_size mm' = 40960 /\ Z.of_nat (length (roots mm')) = 2.
Proof.
  destruct (drm_buddy_init_correct every_slab 40965 4096 blank_mm) as (r & mm' & E & H);
    [intros n; reflexivity|reflexivity|lia|lia|].
  exists r, mm'. split; [exact E|]. simpl in H. destruct H as (H1 & _ & _ & H4 & _ & _ & _ & _ & H9 & H10).
  split; [exact H1|]. split; [rewrite H4; reflexivity|]. rewrite H9, H10, H4. reflexivity.
Defined.

(** C2: provided the slab cache never fails, [drm_buddy_alloc_blocks] on a good request
    ([good_request]; a rounded size above [max_order] crashes, C5) that is not for one
    exact range (start + size differs from end) never crashes. It either succeeds with
    fresh, distinct blocks whose sizes add up to the request (to its rounded size when
    trimming is disabled), inside [start, end) for a range request, all other allocated
    blocks untouched; or returns -ENOSPC with nothing handed out, and geometry,
    allocated blocks and [avail] as they were (free blocks may be merged). *)
Theorem drm_buddy_alloc_blocks_correct slab_ok fuel start end_ size mbs blocks flags mm :
  (forall n, slab_ok n = true) -> wf None None mm -> good_request mm fuel start end_ size mbs flags ->
  start + size <> end_ ->
  exists r l mm', drm_buddy_alloc_blocks slab_ok fuel start end_ size mbs blocks flags mm
      = Some ((r, blocks ++ l), mm') /\
    request_post mm mm'
      (if has_flag flags DRM_BUDDY_TRIM_DISABLE then rounded_size size mbs flags else size)
      start (u64 (end_ - 1) + 1) (has_flag flags DRM_BUDDY_RANGE_ALLOCATION) r l.
Proof. intros Ht Hwf [] Hne. by apply alloc_blocks_ok. Qed.

Lemma drm_buddy_alloc_blocks_correct_witness :
  exists l mm', drm_buddy_alloc_blocks every_slab 48 0 40960 12288 4096 [] 0 ten_pages = Some ((0, l), mm') /\
    sumZ (held mm') l = 12288 /\ avail mm' = 28672.
Proof.
  destruct (drm_buddy_alloc_blocks_correct every_slab 48 0 40960 12288 4096 [] 0 ten_pages)
    as (r & l & mm' & E & H); [intros n; reflexivity|apply ten_pages_wf|apply three_pages_good|lia|].
  rewrite three_taken_alloc in E. injection E as Er El Em.
  exists [2%positive; 8%positive], three_taken. split; [apply three_taken_alloc|].
  destruct H as [(_ & Hg & Hs & _)|(Hr & _)]; [|exfalso; subst r; discriminate].
  subst l mm'. split; [exact Hs|]. rewrite (gr_avail _ _ _ _ Hg), Hs. reflexivity.
Defined.

(** A request for exactly the bytes [start, end) hands out blocks that lie
    inside the range and together have its size, or fails with -ENOSPC leaving
    everything as it was; it is refused with -EINVAL when an end is not aligned
    to the minimum block size. *)
Theorem drm_buddy_alloc_exact_correct slab_ok fuel start end_ size mbs blocks flags mm :
  (forall n, slab_ok n = true) -> wf None None mm -> fuel_ok mm fuel ->
  0 <= start -> 0 <= end_ -> 0 <= size < 2 ^ 64 -> 0 <= mbs < 2 ^ 64 ->
  alloc_args_ok mm start end_ size mbs = true -> start + size = end_ ->
  exists r l mm', drm_buddy_alloc_blocks slab_ok fuel start end_ size mbs blocks flags mm
      = Some ((r, blocks ++ l), mm') /\
    if IS_ALIGNED (Z.lor start end_) mbs then request_post mm mm' size start end_ true r l
    else r = - EINVAL /\ l = [] /\ mm' = mm.
Proof. intros. by apply alloc_exact_ok. Qed.

Lemma drm_buddy_alloc_exact_correct_witness :
  exists r l mm', drm_buddy_alloc_blocks every_slab 48 12288 28672 16384 4096 [] 0 ten_pages
      = Some ((r, l), mm') /\ request_post ten_pages mm' 16384 12288 28672 true r l.
Proof.
  destruct (drm_buddy_alloc_exact_correct every_slab 48 12288 28672 16384 4096 [] 0 ten_pages)
    as (r & l & mm' & E & H);
    [intros n; reflexivity|apply ten_pages_wf|vm_compute; congruence|lia|lia|lia|lia|reflexivity|reflexivity|].
  exists r, l, mm'. split; [exact E|exact H].
Defined.

(** C3: provided the slab cache never fails, what [drm_buddy_alloc_blocks] handed out on
    a good request (so a contiguous one only inside a range), [drm_buddy_free_list] takes
    back: afterwards the manager holds exactly the blocks it held before the request and
    has as much available, whatever the clear flag says. *)
Theorem drm_buddy_alloc_free_roundtrip slab_ok fuel start end_ size mbs flags fflags mm l mm1 :
  (forall n, slab_ok n = true) -> wf None None mm -> good_request mm fuel start end_ size mbs flags ->
  drm_buddy_alloc_blocks slab_ok fuel start end_ size mbs [] flags mm = Some ((0, l), mm1) ->
  exists mm2, drm_buddy_free_list l fflags mm1 = Some (tt, mm2) /\ wf None None mm2 /\
    allocs mm2 = allocs mm /\ avail mm2 = avail mm.
Proof.
  intros Ht Hwf [H1 H2 H3 H4 H5 H6 H7 H8 H9] E.
  assert (grab None mm mm1 l) as [Hw1 Hg Hnd Hnew Hold Hav].
  { destruct (Z.eq_dec (start + size) end_) as [Ee|Ee].
    - destruct (alloc_exact_ok slab_ok Ht fuel start end_ size mbs [] flags mm)
        as (r & l0 & mm' & Er & Hp); try done. rewrite E in Er. injection Er as <- <- <-.
      destruct (IS_ALIGNED _ _); [|by destruct Hp as [? _]]. by destruct Hp as [(_ & ? & _)|(? & _)].
    - destruct (alloc_blocks_ok slab_ok Ht fuel start end_ size mbs [] flags mm)
        as (r & l0 & mm' & Er & Hp); try done. rewrite E in Er. injection Er as <- <- <-.
      by destruct Hp as [(_ & ? & _)|(? & _)]. }
  destruct (drm_buddy_free_list_ok mm1 l (has_flag fflags DRM_BUDDY_CLEARED)
    (negb (has_flag fflags DRM_BUDDY_CLEARED)) Hw1 Hnd) as (mm2 & E2 & Hw2 & _ & Ha2 & Hal2).
  { intros b Hb. by apply Hnew. }
  exists mm2. split_and!; [done|done|congruence|lia].
Qed.

Lemma drm_buddy_alloc_free_roundtrip_witness :
  exists mm2, drm_buddy_free_list [2%positive; 8%positive] 0 three_taken = Some (tt, mm2) /\
    wf None None mm2 /\ allocs mm2 = allocs ten_pages /\ avail mm2 = avail ten_pages.
Proof.
  apply (drm_buddy_alloc_free_roundtrip every_slab 48 0 40960 12288 4096 0 0 ten_pages).
  - intros n. reflexivity.
  - apply ten_pages_wf.
  - apply three_pages_good.
  - apply three_taken_alloc.
Defined.

(** C4: when every slab allocation succeeds (the -ENOMEM path is not covered),
    [drm_buddy_block_trim] of a handed-out block refuses exactly the sizes and start
    addresses its guards name, leaving everything alone; otherwise it keeps exactly the
    wanted bytes, as blocks inside the kept range, gives the rest back and touches no
    other block. *)
Theorem drm_buddy_block_trim_correct slab_ok fuel mm b f o start new_size :
  (forall n, slab_ok n = true) -> wf None None mm -> allocs mm !! b = Some (f, o) ->
  0 <= new_size < 2 ^ 64 -> (forall st, start = Some st -> 0 <= st < 2 ^ 64) ->
  2 ^ (max_order mm + 1) <= Z.of_nat fuel ->
  exists r l mm', drm_buddy_block_trim slab_ok fuel start new_size [b] mm = Some ((r, l), mm') /\
    ((r = - EINVAL /\ trim_args_bad mm f o start new_size /\ l = [b] /\ mm' = mm) \/
     (r = 0 /\ ~ trim_args_bad mm f o start new_size /\
      exists s, (new_size = chunk_size mm * 2 ^ o -> s = f) /\
        (new_size <> chunk_size mm * 2 ^ o -> s = kept_start f start) /\
        trimmed mm mm' b s (s + new_size) l)).
Proof. intros. by apply block_trim_ok. Qed.

Lemma drm_buddy_block_trim_correct_witness :
  exists r l mm', drm_buddy_block_trim every_slab 16 (Some 36864) 4096 [2%positive] three_taken = Some ((r, l), mm') /\
    r = 0 /\ within mm' 36864 40960 l /\ avail mm' = 32768.
Proof.
  destruct (drm_buddy_block_trim_correct every_slab 16 three_taken 2 32768 1 (Some 36864) 4096)
    as (r & l & mm' & E & H);
    [intros n; reflexivity|apply three_taken_wf|reflexivity|lia|intros st [= <-]; lia|vm_compute; congruence|].
  exists r, l, mm'. split; [exact E|]. destruct H as [(_ & Hb & _)|(Hr & _ & s & _ & Hs & Ht)].
  - exfalso. destruct Hb as [Hb|[Hb|[Hb|(_ & st & Est & Hb)]]]; [vm_compute in Hb; discriminate|discriminate|
      apply Hb; reflexivity|].
    injection Est as <-. destruct Hb as [Hb|[Hb|Hb]]; [vm_compute in Hb; discriminate|apply Hb; reflexivity|
      vm_compute in Hb; discriminate].
  - split; [exact Hr|]. assert (s = 36864) as -> by (apply Hs; vm_compute; discriminate).
    split; [exact (tm_within _ _ _ _ _ _ Ht)|]. rewrite (tm_avail _ _ _ _ _ _ Ht). reflexivity.
Defined.

(** [drm_buddy_free_list] of distinct handed-out blocks never crashes, hands
    back exactly those blocks and adds their sizes to [avail]. *)
Theorem drm_buddy_free_list_correct mm objects flags :
  wf None None mm -> NoDup objects -> (forall b, b ∈ objects -> is_Some (allocs mm !! b)) ->
  exists mm', drm_buddy_free_list objects flags mm = Some (tt, mm') /\ wf None None mm' /\
    avail mm' = avail mm + sumZ (held mm) objects /\ allocs mm' = drop_keys (allocs mm) objects.
Proof.
  intros Hwf Hnd Hal. destruct (drm_buddy_free_list_ok mm objects (has_flag flags DRM_BUDDY_CLEARED)
    (negb (has_flag flags DRM_BUDDY_CLEARED)) Hwf Hnd Hal) as (mm' & E & ? & _ & ? & ?).
  by exists mm'.
Qed.

Lemma drm_buddy_free_list_correct_witness :
  exists mm', drm_buddy_free_list [8%positive] 16 three_taken = Some (tt, mm') /\ wf None None mm' /\
    avail mm' = avail three_taken + sumZ (held three_taken) [8%positive] /\
    allocs mm' = drop_keys (allocs three_taken) [8%positive].
Proof.
  apply (drm_buddy_free_list_correct three_taken [8%positive] 16).
  - apply three_taken_wf.
  - apply NoDup_singleton.
  - intros b Hb. apply list_elem_of_singleton in Hb. subst b. eexists. reflexivity.
Defined.

(** [__force_merge] changes nothing a client can see, whatever range and
    order it is asked for, and terminates. *)
Theorem force_merge_transparent mm start end_ min_order :
  wf None None mm -> 0 <= min_order ->
  exists r mm', __force_merge start end_ min_order mm = Some (r, mm') /\ wf None None mm' /\
    allocs mm' = allocs mm /\ avail mm' = avail mm.
Proof.
  intros Hwf Hm. destruct (force_merge_ok start end_ min_order mm Hwf Hm) as (r & mm' & E & ? & _ & ? & ?).
  by exists r, mm'.
Qed.

Lemma force_merge_transparent_witness :
  exists r mm', __force_merge 0 40960 3 three_taken = Some (r, mm') /\ wf None None mm' /\
    allocs mm' = allocs three_taken /\ avail mm' = avail three_taken.
Proof. apply (force_merge_transparent three_taken 0 40960 3); [apply three_taken_wf|lia]. Defined.

(** [alloc_from_freelist] finds a block whenever one of the order asked for
    or larger is free: it returns a free block of exactly that order, or
    -ENOSPC with the state untouched and no free block of sufficient order. *)
Theorem alloc_from_freelist_complete slab_ok mm order flags :
  (forall n, slab_ok n = true) -> wf None None mm -> 0 <= order <= max_order mm ->
  exists r mm', alloc_from_freelist slab_ok order flags mm = Some (r, mm') /\
    wf None None mm' /\ allocs mm' = allocs mm /\ avail mm' = avail mm /\
    match r with
    | PTR b => free_block mm' b order
    | ERR_PTR e => e = - ENOSPC /\ mm' = mm /\ forall b o, order <= o -> ~ free_block mm b o
    end.
Proof.
  intros Ht Hwf Ho. destruct (alloc_from_freelist_ok slab_ok Ht mm order flags Hwf Ho)
    as (r & mm' & E & (? & _ & ? & ?) & Hr). by exists r, mm'.
Qed.

Lemma alloc_from_freelist_complete_witness :
  exists r mm', alloc_from_freelist every_slab 2 DRM_BUDDY_TOPDOWN_ALLOCATION three_taken = Some (r, mm') /\
    wf None None mm'.
Proof.
  destruct (alloc_from_freelist_complete every_slab three_taken 2 DRM_BUDDY_TOPDOWN_ALLOCATION)
    as (r & mm' & E & H & _); [intros n; reflexivity|apply three_taken_wf|vm_compute; split; congruence|].
  exists r, mm'. split; [exact E|exact H].
Defined.

(** C5: a valid request whose rounded-up size needs an order above [max_order]
    is not refused: it runs into [BUG_ON(order > mm->max_order)]. *)
Theorem alloc_blocks_order_bug slab_ok fuel start end_ size mbs blocks flags mm :
  wf None None mm -> 0 <= start -> 0 <= size -> alloc_args_ok mm start end_ size mbs = true ->
  start + size <> end_ ->
  0 < rounded_size size mbs flags / chunk_size mm < 2 ^ 32 ->
  max_order mm < Z.log2 (rounded_size size mbs flags / chunk_size mm) ->
  drm_buddy_alloc_blocks slab_ok fuel start end_ size mbs blocks flags mm = None.
Proof.
  intros Hwf Hst Hsz Hok Hne Hp Hmax. pose proof (wf_size _ _ _ Hwf).
  assert (start + size <= mm_size mm) as Hle.
  { unfold alloc_args_ok in Hok. rewrite !andb_true_iff, !negb_true_iff in Hok. destruct Hok as [_ Hr].
    unfold range_overflows in Hr. apply orb_false_iff in Hr as [R1%Z.leb_gt R2%Z.ltb_ge].
    rewrite wrap_small in R2 by lia. lia. }
  rewrite alloc_args_run; [|done|rewrite wrap_small; lia]. cbv zeta.
  destruct (wf_chunk _ _ _ Hwf) as (c & Hc & Ec).
  assert (Z.shiftr (rounded_size size mbs flags) (ilog2 (chunk_size mm))
    = rounded_size size mbs flags / chunk_size mm) as ->.
  { unfold ilog2. rewrite Ec, Z.log2_pow2, Z.shiftr_div_pow2 by lia. done. }
  set (pages := rounded_size size mbs flags / chunk_size mm) in *.
  destruct (Z.to_nat pages) as [|pf] eqn:Epf; [lia|]. cbn [alloc_pages]. unfold st_bind, st_gets.
  rewrite fls_log2, Z.min_id by done. destruct (Z.ltb_spec (max_order mm) (Z.log2 pages)); [done|lia].
Qed.

Lemma alloc_blocks_order_bug_witness :
  drm_buddy_alloc_blocks every_slab 48 0 40960 36864 4096 [] DRM_BUDDY_CONTIGUOUS_ALLOCATION ten_pages = None.
Proof.
  apply (alloc_blocks_order_bug every_slab 48 0 40960 36864 4096 [] DRM_BUDDY_CONTIGUOUS_ALLOCATION ten_pages);
    [apply ten_pages_wf|lia|lia|reflexivity|lia|vm_compute; split; congruence|reflexivity].
Defined.

(** When the slab cache fails in the middle of a split, the undo path of
    [alloc_from_freelist] frees a block that is still linked on its free list:
    a request on a well-formed manager ends in list corruption. *)
Theorem alloc_enomem_undo_bug fuel :
  wf None None ten_pages /\
  drm_buddy_alloc_blocks (fun n => Pos.ltb n 3) fuel 0 40960 12288 4096 [] 0 ten_pages = None.
Proof. split; [apply ten_pages_wf|]. vm_compute. reflexivity. Qed.
