(* ===== verification/Suballoc.v ===== *)
(** * The range suballocator: data and operations

    A translation of src/src-tree/amd/amdkcl/kcl_drm_suballoc.c and of
    include/kcl/kcl_drm_suballoc.h. A suballocation is a key of [sas]; the
    manager's [olist] is the list of the linked suballocations in address
    order, [hole] the list position it points at ([None] is the list head
    [&olist] itself), and [flist] the array of queues of freed but still fenced
    suballocations.

    A fence is a key too: [signaled] holds those whose
    [dma_fence_is_signaled] is true, [frefs] the references the manager holds,
    and [fence_context] gives each fence's context. Each function runs under
    the manager's lock; [drm_suballoc_new] drops it while it waits, and what
    the other threads do meanwhile is an argument of the model. *)

From S2P Require Import Prelude.
From stdpp Require Import gmap list sorting.
From Stdlib Require Import ZArith Lia.

Local Open Scope Z_scope.
Local Open Scope st_scope.

Abbreviation sid := positive.
Abbreviation fid := positive.

Definition DRM_SUBALLOC_MAX_QUEUES : Z := 32.

(** struct drm_suballoc *)
Record drm_suballoc := mkSa {
  soffset : Z;
  eoffset : Z;
  sa_fence : option fid
}.

Definition drm_suballoc_soffset (sa : drm_suballoc) : Z := soffset sa.
Definition drm_suballoc_eoffset (sa : drm_suballoc) : Z := eoffset sa.
Definition drm_suballoc_size (sa : drm_suballoc) : Z := u64 (eoffset sa - soffset sa).

(** struct drm_suballoc_manager, with the heap of suballocations and what it
    sees of the fences *)
Record drm_suballoc_manager := mkMgr {
  sas : gmap positive drm_suballoc;
  next_sa : sid;
  hole : option sid;
  olist : list sid;
  flist : list (list sid);
  sm_size : Z;
  sm_align : Z;
  frefs : gmap positive Z;
  signaled : gset positive
}.

Abbreviation SM := (stM drm_suballoc_manager).

Definition set_sas (h : gmap positive drm_suballoc) (m : drm_suballoc_manager) :=
  mkMgr h (next_sa m) (hole m) (olist m) (flist m) (sm_size m) (sm_align m) (frefs m) (signaled m).
Definition set_next_sa (n : sid) (m : drm_suballoc_manager) :=
  mkMgr (sas m) n (hole m) (olist m) (flist m) (sm_size m) (sm_align m) (frefs m) (signaled m).
Definition set_hole (h : option sid) (m : drm_suballoc_manager) :=
  mkMgr (sas m) (next_sa m) h (olist m) (flist m) (sm_size m) (sm_align m) (frefs m) (signaled m).
Definition set_olist (l : list sid) (m : drm_suballoc_manager) :=
  mkMgr (sas m) (next_sa m) (hole m) l (flist m) (sm_size m) (sm_align m) (frefs m) (signaled m).
Definition set_flist (q : list (list sid)) (m : drm_suballoc_manager) :=
  mkMgr (sas m) (next_sa m) (hole m) (olist m) q (sm_size m) (sm_align m) (frefs m) (signaled m).
Definition set_sm_size (s : Z) (m : drm_suballoc_manager) :=
  mkMgr (sas m) (next_sa m) (hole m) (olist m) (flist m) s (sm_align m) (frefs m) (signaled m).
Definition set_frefs (r : gmap positive Z) (m : drm_suballoc_manager) :=
  mkMgr (sas m) (next_sa m) (hole m) (olist m) (flist m) (sm_size m) (sm_align m) r (signaled m).

Definition get_sa (s : sid) : SM drm_suballoc :=
  fun m => match sas m !! s with Some sa => Some (sa, m) | None => None end.
Definition put_sa (s : sid) (sa : drm_suballoc) : SM unit :=
  fun m => match sas m !! s with
           | Some _ => Some (tt, set_sas (<[s := sa]> (sas m)) m)
           | None => None
           end.

(** References of the manager on a fence. *)
Definition fence_refs (m : drm_suballoc_manager) (f : fid) : Z := default 0 (frefs m !! f).
Definition fence_ref_add (d : Z) (f : fid) : SM unit :=
  st_mod (fun m => set_frefs (<[f := fence_refs m f + d]> (frefs m)) m).
Definition dma_fence_get (f : fid) : SM unit := fence_ref_add 1 f.
Definition dma_fence_put (f : option fid) : SM unit :=
  match f with Some f => fence_ref_add (-1) f | None => st_ret tt end.
Definition dma_fence_is_signaled (f : fid) : SM bool :=
  st_gets (fun m => bool_decide (f ∈ signaled m)).

(** ** Positions on the list *)

(** The node after [h] ([h->next]); [None] is the list head. *)
Fixpoint list_after (h : sid) (l : list sid) : list sid :=
  match l with
  | [] => []
  | x :: l => if decide (x = h) then l else list_after h l
  end.
Definition nodes_after (h : option sid) (l : list sid) : list sid :=
  match h with None => l | Some h => list_after h l end.

(** The node before [s] ([s->prev]); [None] is the list head. *)
Fixpoint node_before (prev : option sid) (s : sid) (l : list sid) : option sid :=
  match l with
  | [] => prev
  | x :: l => if decide (x = s) then prev else node_before (Some x) s l
  end.

(** [list_add(s, h)]: link [s] right behind [h]. *)
Fixpoint list_add_behind (h s : sid) (l : list sid) : list sid :=
  match l with
  | [] => []
  | x :: l => if decide (x = h) then x :: s :: l else x :: list_add_behind h s l
  end.
Definition list_add (h : option sid) (s : sid) (l : list sid) : list sid :=
  match h with None => s :: l | Some h => list_add_behind h s l end.

(** The hole must be linked, or the pointer dangles. *)
Definition hole_next : SM (list sid) :=
  fun m => if match hole m with Some h => bool_decide (h ∈ olist m) | None => true end
           then Some (nodes_after (hole m) (olist m), m) else None.

Section Suballoc.
Variable fence_context : fid -> Z.

Definition drm_suballoc_manager_init (size align : Z) (m : drm_suballoc_manager) : drm_suballoc_manager :=
  let align := if align =? 0 then 1 else align in
  let align := if negb (Z.land align (align - 1) =? 0) then roundup_pow_of_two align else align in
  mkMgr (sas m) (next_sa m) None [] (replicate (Z.to_nat DRM_SUBALLOC_MAX_QUEUES) []) size align
    (frefs m) (signaled m).

Definition drm_suballoc_remove_locked (s : sid) : SM unit :=
  sa <- get_sa s ;;
  m <- st_get ;;
  st_when (bool_decide (hole m = Some s)) (st_mod (set_hole (node_before None s (olist m)))) ;;
  l <- st_of_option (list_del s (olist m)) ;;
  st_mod (set_olist l) ;;
  st_mod (fun m => set_flist (map (filter (fun x => x <> s)) (flist m)) m) ;;
  dma_fence_put (sa_fence sa) ;;
  st_mod (fun m => set_sas (delete s (sas m)) m).

(** The walk of [drm_suballoc_try_free] over the nodes behind the hole. *)
Fixpoint try_free_walk (l : list sid) : SM unit :=
  match l with
  | [] => st_ret tt
  | s :: l =>
      sa <- get_sa s ;;
      match sa_fence sa with
      | None => st_ret tt
      | Some f =>
          sig <- dma_fence_is_signaled f ;;
          if negb sig then st_ret tt
          else drm_suballoc_remove_locked s ;; try_free_walk l
      end
  end.

Definition drm_suballoc_try_free : SM unit :=
  l <- hole_next ;;
  match l with
  | [] => st_ret tt
  | _ => try_free_walk l
  end.

(** The clearing loop of [drm_suballoc_manager_fini]. *)
Fixpoint remove_all (l : list sid) : SM unit :=
  match l with
  | [] => st_ret tt
  | s :: l => drm_suballoc_remove_locked s ;; remove_all l
  end.

Definition drm_suballoc_manager_fini : SM unit :=
  size <- st_gets sm_size ;;
  if size =? 0 then st_ret tt
  else
    l <- st_gets olist ;;
    (match l with
     | [] => st_ret tt
     | _ => st_mod (set_hole None) ;; drm_suballoc_try_free
     end) ;;
    l <- st_gets olist ;;
    remove_all l ;;
    st_mod (set_sm_size 0).

Definition drm_suballoc_hole_soffset : SM Z :=
  h <- st_gets hole ;;
  match h with
  | Some h => sa <- get_sa h ;; st_ret (eoffset sa)
  | None => st_ret 0
  end.

Definition drm_suballoc_hole_eoffset : SM Z :=
  l <- hole_next ;;
  match l with
  | s :: _ => sa <- get_sa s ;; st_ret (soffset sa)
  | [] => st_gets sm_size
  end.

Definition drm_suballoc_try_alloc (s : sid) (size align : Z) : SM bool :=
  soff <- drm_suballoc_hole_soffset ;;
  eoff <- drm_suballoc_hole_eoffset ;;
  let wasted := u64 (round_up soff align - soff) in
  if u64 (size + wasted) <=? u64 (eoff - soff) then
    let soff := u64 (soff + wasted) in
    sa <- get_sa s ;;
    put_sa s (mkSa soff (u64 (soff + size)) (sa_fence sa)) ;;
    st_mod (fun m => set_olist (list_add (hole m) s (olist m)) m) ;;
    st_mod (set_hole (Some s)) ;;
    st_ret true
  else st_ret false.

Definition __drm_suballoc_event (size align : Z) : SM bool :=
  q <- st_gets flist ;;
  if existsb (fun l => match l with [] => false | _ => true end) q then st_ret true
  else
    soff <- drm_suballoc_hole_soffset ;;
    eoff <- drm_suballoc_hole_eoffset ;;
    let wasted := u64 (round_up soff align - soff) in
    st_ret (u64 (size + wasted) <=? u64 (eoff - soff)).

Definition drm_suballoc_event (size align : Z) : SM bool := __drm_suballoc_event size align.

(** The loop of [drm_suballoc_next_hole] over the queues from the [i]-th on:
    the fences to wait for, and the closest signaled suballocation. *)
Fixpoint next_hole_scan (soff size : Z) (qs : list (list sid)) (tries : list Z) (i : nat)
    (best : Z) (best_bo : option (nat * sid)) : SM (list (option fid) * option (nat * sid)) :=
  match qs with
  | [] => st_ret ([], best_bo)
  | [] :: qs =>
      r <- next_hole_scan soff size qs tries (S i) best best_bo ;;
      st_ret (None :: fst r, snd r)
  | (s :: _) :: qs =>
      sa <- get_sa s ;;
      f <- st_of_option (sa_fence sa) ;;
      sig <- dma_fence_is_signaled f ;;
      if negb sig then
        r <- next_hole_scan soff size qs tries (S i) best best_bo ;;
        st_ret (Some f :: fst r, snd r)
      else if 2 <? nth i tries 0 then
        r <- next_hole_scan soff size qs tries (S i) best best_bo ;;
        st_ret (None :: fst r, snd r)
      else
        let tmp := soffset sa in
        let tmp := if tmp <? soff then u64 (tmp + size) else tmp in
        let tmp := u64 (tmp - soff) in
        r <- (if tmp <? best then next_hole_scan soff size qs tries (S i) tmp (Some (i, s))
              else next_hole_scan soff size qs tries (S i) best best_bo) ;;
        st_ret (None :: fst r, snd r)
  end.

(** [drm_suballoc_next_hole]: the return value and the arrays afterwards. *)
Definition drm_suballoc_next_hole (fences : list (option fid)) (tries : list Z)
    : SM (bool * list (option fid) * list Z) :=
  l <- hole_next ;;
  match l with
  | [] => st_mod (set_hole None) ;; st_ret (true, fences, tries)
  | _ =>
      soff <- drm_suballoc_hole_soffset ;;
      size <- st_gets sm_size ;;
      qs <- st_gets flist ;;
      r <- next_hole_scan soff size qs tries 0 (u64 (size * 2)) None ;;
      match snd r with
      | Some (i, s) =>
          m <- st_get ;;
          st_mod (set_hole (node_before None s (olist m))) ;;
          drm_suballoc_remove_locked s ;;
          st_ret (true, fst r, <[i := nth i tries 0 + 1]> tries)
      | None => st_ret (false, fst r, tries)
      end
  end.

(** The inner do-while of [drm_suballoc_new]: [None] when the allocation
    succeeded, the fences of the last [drm_suballoc_next_hole] otherwise. *)
Fixpoint hole_loop (fuel : nat) (s : sid) (size align : Z) (fences : list (option fid))
    (tries : list Z) : SM (option (list (option fid))) :=
  match fuel with
  | O => st_bug
  | S fuel =>
      drm_suballoc_try_free ;;
      ok <- drm_suballoc_try_alloc s size align ;;
      if (ok : bool) then st_ret None
      else
        r <- drm_suballoc_next_hole fences tries ;;
        let '(again, fences, tries) := r in
        if (again : bool) then hole_loop fuel s size align fences tries
        else st_ret (Some fences)
  end.

(** The bound every wait uses. *)
Definition wait_ms (suballoc_timeout_ms : Z) : Z :=
  if suballoc_timeout_ms <=? 0 then 4000
  else if suballoc_timeout_ms <? 100 then 100
  else suballoc_timeout_ms.

(** What happens while the lock is dropped: the module parameter read before,
    the effect of the other threads and the value the wait returns. *)
Record wait_outcome := mkWait {
  w_param : Z;
  w_env : drm_suballoc_manager -> drm_suballoc_manager;
  w_t : Z
}.

Fixpoint fence_gets (fs : list fid) : SM unit :=
  match fs with [] => st_ret tt | f :: fs => dma_fence_get f ;; fence_gets fs end.
Fixpoint fence_puts (fs : list fid) : SM unit :=
  match fs with [] => st_ret tt | f :: fs => dma_fence_put (Some f) ;; fence_puts fs end.

(** The three waits: the value of the [int r]. *)
Definition wait_result (have_fences intr : bool) (t : Z) : Z :=
  if have_fences then (if t =? 0 then - ETIME else if 0 <? t then 0 else s32 t)
  else if intr then (if t =? 0 then - ETIME else if t <? 0 then s32 t else 0)
  else (if t =? 0 then - ETIME else 0).

(** The outer do-while: the outcome and the bounds, in ms, of the waits made.
    [hfuel] bounds the inner loop. *)
Fixpoint suballoc_loop (waits : list wait_outcome) (s : sid) (size align : Z) (intr : bool)
    (trace : list Z) : SM (Z * list Z) :=
  m <- st_get ;;
  r <- hole_loop (2 * length (olist m) + 2) s size align
         (replicate (Z.to_nat DRM_SUBALLOC_MAX_QUEUES) None)
         (replicate (Z.to_nat DRM_SUBALLOC_MAX_QUEUES) 0) ;;
  match r with
  | None => st_ret (0, trace)
  | Some fences =>
      match waits with
      | [] => st_bug
      | w :: waits =>
          let fs := omap id fences in
          fence_gets fs ;;
          st_mod (w_env w) ;;
          fence_puts fs ;;
          let r := wait_result (match fs with [] => false | _ => true end) intr (w_t w) in
          let trace := trace ++ [wait_ms (w_param w)] in
          if r =? 0 then suballoc_loop waits s size align intr trace
          else st_ret (r, trace)
      end
  end.

Definition drm_suballoc_new (kmalloc_ok : bool) (waits : list wait_outcome) (size : Z)
    (intr : bool) (align : Z) : SM (errptr sid * list Z) :=
  m <- st_get ;;
  if sm_align m <? align then st_ret (ERR_PTR (- EINVAL), [])
  else if (sm_size m <? size) || (size =? 0) then st_ret (ERR_PTR (- EINVAL), [])
  else
    let align := if align =? 0 then sm_align m else align in
    if negb kmalloc_ok then st_ret (ERR_PTR (- ENOMEM), [])
    else
      let s := next_sa m in
      st_mod (set_next_sa (Pos.succ s)) ;;
      st_mod (fun m => set_sas (<[s := mkSa 0 0 None]> (sas m)) m) ;;
      r <- suballoc_loop waits s size align intr [] ;;
      if fst r =? 0 then st_ret (PTR s, snd r)
      else
        st_mod (fun m => set_sas (delete s (sas m)) m) ;;
        st_ret (ERR_PTR (fst r), snd r).

Definition fence_queue (f : fid) : nat :=
  Z.to_nat (Z.land (fence_context f) (DRM_SUBALLOC_MAX_QUEUES - 1)).

Definition drm_suballoc_free (suballoc : option sid) (fence : option fid) : SM unit :=
  match suballoc with
  | None => st_ret tt
  | Some s =>
      sa <- get_sa s ;;
      pending <- (match fence with
                  | None => st_ret false
                  | Some f => sig <- dma_fence_is_signaled f ;; st_ret (negb sig)
                  end) ;;
      match fence, (pending : bool) with
      | Some f, true =>
          dma_fence_get f ;;
          put_sa s (mkSa (soffset sa) (eoffset sa) (Some f)) ;;
          st_mod (fun m => set_flist (alter (fun q => q ++ [s]) (fence_queue f) (flist m)) m)
      | _, _ => drm_suballoc_remove_locked s
      end
  end.
End Suballoc.
