(* ===== verification/SuballocInv.v ===== *)
(** * The range suballocator: invariant and operations

    The linked suballocations are disjoint and in address order, the hole is a
    position on their list, each queue holds exactly the fenced ones of its
    contexts, and the manager holds one fence reference per fenced one. *)

From S2P Require Import Prelude Suballoc.
From stdpp Require Import gmap list sorting.
From Stdlib Require Import ZArith Lia.

Local Open Scope Z_scope.
Local Open Scope st_scope.

(** ** Lists split at a node *)

Lemma list_split_at (h : sid) (l : list sid) :
  h ∈ l -> exists pre post, l = pre ++ h :: post /\ h ∉ pre.
Proof.
  induction l as [|x l IH]; [set_solver|]. intros Hin. destruct (decide (x = h)) as [->|Hx].
  - exists [], l. split; [done|set_solver].
  - destruct IH as (pre & post & -> & Hp); [set_solver|]. exists (x :: pre), post. split; [done|set_solver].
Qed.

Lemma list_after_split h pre post : h ∉ pre -> list_after h (pre ++ h :: post) = post.
Proof.
  induction pre as [|x pre IH]; simpl; intros H; [by rewrite decide_True|].
  rewrite decide_False by set_solver. apply IH. set_solver.
Qed.

Lemma list_add_behind_split h s pre post :
  h ∉ pre -> list_add_behind h s (pre ++ h :: post) = pre ++ h :: s :: post.
Proof.
  induction pre as [|x pre IH]; simpl; intros H; [by rewrite decide_True|].
  rewrite decide_False by set_solver. f_equal. apply IH. set_solver.
Qed.

Lemma node_before_split p s pre post :
  s ∉ pre -> node_before p s (pre ++ s :: post) = from_option Some p (last pre).
Proof.
  revert p. induction pre as [|x pre IH]; intros p H; simpl; [by rewrite decide_True|].
  rewrite decide_False by set_solver. rewrite IH by set_solver.
  destruct pre as [|y pre]; [done|]. rewrite last_cons_cons.
  destruct (last (y :: pre)) eqn:E; [done|]. by apply last_None in E.
Qed.

Lemma filter_ne_split (s : sid) pre post :
  s ∉ pre -> s ∉ post -> filter (fun x => x <> s) (pre ++ s :: post) = pre ++ post.
Proof.
  intros H1 H2. rewrite filter_app, filter_cons, decide_False by auto. by rewrite !filter_ne_id.
Qed.

Lemma last_app_None {A} (l1 l2 : list A) x : last (l1 ++ x :: l2) = Some (from_option id x (last l2)).
Proof.
  rewrite last_app. simpl. destruct l2 as [|y l2]; [done|]. rewrite last_cons_cons.
  destruct (last (y :: l2)) eqn:E; [done|]. by apply last_None in E.
Qed.

(** ** The invariant *)

Definition so (m : drm_suballoc_manager) (s : sid) : Z := from_option soffset 0 (sas m !! s).
Definition eo (m : drm_suballoc_manager) (s : sid) : Z := from_option eoffset 0 (sas m !! s).
Definition fence_of (m : drm_suballoc_manager) (s : sid) : option fid := sas m !! s ≫= sa_fence.
Definition counts (m : drm_suballoc_manager) (f : fid) (s : sid) : Z :=
  if decide (fence_of m s = Some f) then 1 else 0.
Definition extra_refs (fs : list fid) (f : fid) : Z := sumZ (fun g => if decide (g = f) then 1 else 0) fs.

Section Inv.
Variable fence_context : fid -> Z.

(** [held] are the references some threads hold across a wait. *)
Record sa_wf (held : list fid) (m : drm_suballoc_manager) : Prop := {
  sw_size : 0 <= sm_size m < 2 ^ 63;
  sw_align : exists k, 0 <= k <= 62 /\ sm_align m = 2 ^ k;
  sw_nodup : NoDup (olist m);
  sw_in : forall s, s ∈ olist m -> is_Some (sas m !! s);
  sw_range : forall s, s ∈ olist m -> 0 <= so m s /\ so m s < eo m s /\ eo m s <= sm_size m;
  sw_sorted : StronglySorted (fun a b => eo m a <= so m b) (olist m);
  sw_hole : forall h, hole m = Some h -> h ∈ olist m;
  sw_queues : length (flist m) = Z.to_nat DRM_SUBALLOC_MAX_QUEUES;
  sw_queue : forall i q, flist m !! i = Some q -> NoDup q /\
    forall s, s ∈ q <-> s ∈ olist m /\ exists f, fence_of m s = Some f /\ fence_queue fence_context f = i;
  sw_fresh : forall s, is_Some (sas m !! s) -> (s < next_sa m)%positive;
  sw_refs : forall f, fence_refs m f = sumZ (counts m f) (olist m) + extra_refs held f
}.

(** The list seen from the hole. *)
Definition at_hole (m : drm_suballoc_manager) (pre post : list sid) : Prop :=
  olist m = pre ++ post /\ hole m = last pre.

Lemma wf_at_hole held m : sa_wf held m -> exists pre post, at_hole m pre post /\ hole_next m = Some (post, m).
Proof.
  intros Hwf. unfold at_hole, hole_next. destruct (hole m) as [h|] eqn:Eh.
  - pose proof (sw_hole _ _ Hwf h Eh) as Hin. destruct (list_split_at h (olist m) Hin) as (pre & post & E & Hp).
    exists (pre ++ [h]), post. rewrite bool_decide_true by done. simpl. rewrite E, list_after_split by done.
    rewrite last_snoc, <- app_assoc. done.
  - exists [], (olist m). done.
Qed.

(** The heap decides what the accessors say. *)
Lemma acc_ext m m' s : sas m' !! s = sas m !! s -> so m' s = so m s /\ eo m' s = eo m s /\ fence_of m' s = fence_of m s.
Proof. unfold so, eo, fence_of. by intros ->. Qed.

Lemma StronglySorted_ext {A} (R R' : A -> A -> Prop) (l : list A) :
  (forall x y, x ∈ l -> y ∈ l -> R x y -> R' x y) -> StronglySorted R l -> StronglySorted R' l.
Proof.
  intros H Hs. induction Hs as [|x l Hs IH Hf]; [constructor|]. constructor.
  - apply IH. intros y z Hy Hz. apply H; set_solver.
  - rewrite Forall_forall in Hf |- *. intros y Hy. apply H; [set_solver..|by apply Hf].
Qed.

Lemma sumZ_filter_ne (g : sid -> Z) s l :
  NoDup l -> s ∈ l -> sumZ g (filter (fun x => x <> s) l) = sumZ g l - g s.
Proof.
  intros Hnd Hin. destruct (list_split_at s l Hin) as (pre & post & -> & Hp).
  apply NoDup_app in Hnd as (_ & _ & Hn2). apply NoDup_cons in Hn2 as [Hn2 _].
  rewrite filter_ne_split by done. rewrite !sumZ_app. simpl. lia.
Qed.

Lemma fence_queue_lt f : (fence_queue fence_context f < Z.to_nat DRM_SUBALLOC_MAX_QUEUES)%nat.
Proof.
  unfold fence_queue, DRM_SUBALLOC_MAX_QUEUES. change (32 - 1) with (Z.ones 5). rewrite Z.land_ones by lia.
  pose proof (Z.mod_pos_bound (fence_context f) (2 ^ 5)). lia.
Qed.

(** ** Removal *)

(** What a manager loses: fenced suballocations whose fence has signaled. *)
Record shrinks (m m' : drm_suballoc_manager) : Prop := {
  sh_size : sm_size m' = sm_size m;
  sh_align : sm_align m' = sm_align m;
  sh_next : next_sa m' = next_sa m;
  sh_signaled : signaled m' = signaled m;
  sh_sas : forall s, sas m' !! s = sas m !! s \/
    (sas m' !! s = None /\ s ∈ olist m /\ exists f, fence_of m s = Some f /\ f ∈ signaled m);
  sh_olist : forall s, s ∈ olist m' <-> s ∈ olist m /\ is_Some (sas m' !! s)
}.

Lemma shrinks_refl held m : sa_wf held m -> shrinks m m.
Proof.
  intros Hwf. constructor; auto. intros s. split; [|tauto].
  intros Hs. split; [done|]. by apply (sw_in _ _ Hwf).
Qed.

Lemma shrinks_trans m1 m2 m3 : shrinks m1 m2 -> shrinks m2 m3 -> shrinks m1 m3.
Proof.
  intros H1 H2. constructor; try (destruct H1, H2; congruence).
  - intros s. destruct (sh_sas _ _ H2 s) as [E2|(E2 & Hin & f & Hf & Hsig)].
    + rewrite E2. apply (sh_sas _ _ H1).
    + right. apply (sh_olist _ _ H1) in Hin as [Hin [S HS]].
      assert (sas m2 !! s = sas m1 !! s) as E1.
      { destruct (sh_sas _ _ H1 s) as [?|(E & _)]; [done|congruence]. }
      split_and!; [done|done|]. exists f. rewrite <- (sh_signaled _ _ H1).
      destruct (acc_ext _ _ _ E1) as (_ & _ & <-). done.
  - intros s. rewrite (sh_olist _ _ H2), (sh_olist _ _ H1). split; [tauto|].
    intros [H [S HS]]. split_and!; [done| |eauto].
    destruct (sh_sas _ _ H2 s) as [E|(E & _)]; [rewrite <- E; eauto|congruence].
Qed.

(** [drm_suballoc_remove_locked] of a linked suballocation. *)
Definition removed (s : sid) (m : drm_suballoc_manager) : drm_suballoc_manager :=
  mkMgr (delete s (sas m)) (next_sa m)
    (if decide (hole m = Some s) then node_before None s (olist m) else hole m)
    (filter (fun x => x <> s) (olist m)) (map (filter (fun x => x <> s)) (flist m))
    (sm_size m) (sm_align m)
    (match fence_of m s with Some f => <[f := fence_refs m f - 1]> (frefs m) | None => frefs m end)
    (signaled m).

Lemma remove_locked_run m s :
  is_Some (sas m !! s) -> s ∈ olist m -> drm_suballoc_remove_locked s m = Some (tt, removed s m).
Proof.
  intros [S HS] Hin. unfold drm_suballoc_remove_locked, st_bind, get_sa, st_get, st_when, st_mod, st_of_option, list_del.
  rewrite HS. unfold removed, fence_of. rewrite HS. simpl. rewrite (decide_True (P := s ∈ olist m)) by done.
  destruct (decide (hole m = Some s)) as [E|E];
    [rewrite bool_decide_true by done|rewrite bool_decide_false by done]; cbn; destruct (sa_fence S); done.
Qed.

Lemma removed_acc s m x : x <> s ->
  so (removed s m) x = so m x /\ eo (removed s m) x = eo m x /\ fence_of (removed s m) x = fence_of m x.
Proof. intros Hx. apply acc_ext. simpl. by rewrite lookup_delete_ne. Qed.

Lemma removed_wf held s m : sa_wf held m -> s ∈ olist m -> sa_wf held (removed s m).
Proof.
  intros Hwf Hin. assert (forall x, x ∈ olist (removed s m) <-> x <> s /\ x ∈ olist m) as Hol
    by (intros x; simpl; apply elem_of_list_del).
  split; try apply Hwf.
  - simpl. by apply NoDup_filter, Hwf.
  - intros x [Hx Hx']%Hol. simpl. rewrite lookup_delete_ne by done. by apply (sw_in _ _ Hwf).
  - intros x [Hx Hx']%Hol. destruct (removed_acc s m x Hx) as (-> & -> & _). by apply (sw_range _ _ Hwf).
  - simpl. eapply StronglySorted_ext; [|apply StronglySorted_filter, (sw_sorted _ _ Hwf)].
    intros x y [Hx _]%elem_of_list_del [Hy _]%elem_of_list_del.
    destruct (removed_acc s m x Hx) as (_ & -> & _). by destruct (removed_acc s m y Hy) as (-> & _).
  - intros h Hh. apply Hol. simpl in Hh. destruct (decide (hole m = Some s)) as [E|E].
    + destruct (list_split_at s (olist m) Hin) as (pre & post & Eo & Hp). rewrite Eo, node_before_split in Hh by done.
      destruct (last pre) as [z|] eqn:El; [|done]. simpl in Hh. injection Hh as ->.
      apply last_Some in El as [pre' ->]. rewrite Eo. set_solver.
    + split; [congruence|]. by apply (sw_hole _ _ Hwf).
  - simpl. rewrite length_map. apply Hwf.
  - intros i q. simpl. rewrite list_lookup_fmap. intros Hq.
    destruct (flist m !! i) as [q0|] eqn:E; [|done]. simpl in Hq. injection Hq as <-.
    destruct (sw_queue _ _ Hwf i q0 E) as [Hn Hq]. split; [by apply NoDup_filter|].
    intros x. rewrite elem_of_list_del, Hq. fold (olist (removed s m)). rewrite Hol. split.
    + intros (Hx & ? & f & ? & ?). destruct (removed_acc s m x Hx) as (_ & _ & ->). eauto 6.
    + intros ([Hx ?] & f & Hf & ?). destruct (removed_acc s m x Hx) as (_ & _ & E1). rewrite E1 in Hf. eauto 6.
  - intros x Hx. simpl in Hx. rewrite lookup_delete_is_Some in Hx. apply (sw_fresh _ _ Hwf). tauto.
  - intros f. simpl olist. rewrite (sumZ_ext _ (counts m f)).
    2:{ intros x [Hx _]%elem_of_list_del. unfold counts. by destruct (removed_acc s m x Hx) as (_ & _ & ->). }
    rewrite sumZ_filter_ne by (done || apply Hwf). pose proof (sw_refs _ _ Hwf f) as Hr.
    unfold fence_refs at 1. cbn [frefs removed].
    assert (counts m f s = if decide (fence_of m s = Some f) then 1 else 0) as -> by done.
    destruct (fence_of m s) as [g|] eqn:Eg; [|rewrite decide_False by done; fold (fence_refs m f); lia].
    destruct (decide (f = g)) as [->|Hfg].
    + rewrite lookup_insert_eq, decide_True by done. simpl. lia.
    + rewrite lookup_insert_ne by done. rewrite decide_False by congruence. fold (fence_refs m f). lia.
Qed.

Lemma removed_shrinks held s m f :
  sa_wf held m -> s ∈ olist m -> fence_of m s = Some f -> f ∈ signaled m -> shrinks m (removed s m).
Proof.
  intros Hwf Hin Hf Hsig. constructor; try done.
  - intros x. simpl. destruct (decide (x = s)) as [->|]; [right|left; by rewrite lookup_delete_ne].
    rewrite lookup_delete_eq. eauto.
  - intros x. simpl. rewrite elem_of_list_del, lookup_delete_is_Some. split.
    + intros []. split_and!; auto. by apply (sw_in _ _ Hwf).
    + intros (? & ? & ?). auto.
Qed.

(** ** Freeing behind the hole *)

Lemma try_free_walk_ok held l m :
  sa_wf held m -> NoDup l -> (forall s, s ∈ l -> s ∈ olist m) ->
  exists m', try_free_walk l m = Some (tt, m') /\ sa_wf held m' /\ shrinks m m' /\
    (m' = m \/ (length (olist m') < length (olist m))%nat).
Proof.
  revert m. induction l as [|s l IH]; intros m Hwf Hnd Hl.
  { exists m. split_and!; auto. by eapply shrinks_refl. }
  apply NoDup_cons in Hnd as [Hs Hnd]. assert (s ∈ olist m) as Hin by (apply Hl; set_solver).
  destruct (sw_in _ _ Hwf s Hin) as [S HS].
  assert (exists m', Some (tt, m) = Some (tt, m') /\ sa_wf held m' /\ shrinks m m' /\
    (m' = m \/ (length (olist m') < length (olist m))%nat)) as Hstop.
  { exists m. split_and!; auto. by eapply shrinks_refl. }
  cbn [try_free_walk]. unfold st_bind at 1, get_sa. rewrite HS.
  destruct (sa_fence S) as [f|] eqn:Ef; [|exact Hstop].
  unfold st_bind at 1, dma_fence_is_signaled, st_gets.
  destruct (decide (f ∈ signaled m)) as [Hsig|Hsig];
    [rewrite bool_decide_true by done|rewrite bool_decide_false by done; exact Hstop]. cbn [negb].
  assert (fence_of m s = Some f) as Hf by (unfold fence_of; by rewrite HS).
  rewrite (st_bind_run _ _ _ _ _ (remove_locked_run m s ltac:(eauto) Hin)).
  destruct (IH (removed s m)) as (m' & E & Hw & Hsh & Hlen); [by apply removed_wf|done| |].
  { intros x Hx. simpl. apply elem_of_list_del. split; [congruence|]. apply Hl. set_solver. }
  exists m'. split_and!; [done|done|eapply shrinks_trans; [by eapply removed_shrinks|done]|].
  right. apply Nat.le_lt_trans with (length (olist (removed s m))).
  - destruct Hlen as [->|?]; lia.
  - simpl. by apply (length_filter_lt _ _ s); [|auto].
Qed.

Lemma try_free_ok held m :
  sa_wf held m ->
  exists m', drm_suballoc_try_free m = Some (tt, m') /\ sa_wf held m' /\ shrinks m m' /\
    (m' = m \/ (length (olist m') < length (olist m))%nat).
Proof.
  intros Hwf. destruct (wf_at_hole _ _ Hwf) as (pre & post & [Eo Eh] & En).
  unfold drm_suballoc_try_free. rewrite (st_bind_run _ _ _ _ _ En).
  destruct post as [|s post].
  { exists m. split_and!; auto. by eapply shrinks_refl. }
  apply try_free_walk_ok; auto.
  - pose proof (sw_nodup _ _ Hwf) as Hn. rewrite Eo in Hn. by apply NoDup_app in Hn as (_ & _ & ?).
  - intros x Hx. rewrite Eo. set_solver.
Qed.

(** ** Allocation at the hole *)

(** A suballocation that is not linked yet. *)
Definition pending (m : drm_suballoc_manager) (s : sid) : Prop :=
  (exists a b, sas m !! s = Some (mkSa a b None)) /\ s ∉ olist m.

(** [m'] is [m] with [s] linked at [start, start + size). *)
Record placed (m m' : drm_suballoc_manager) (s : sid) (start size align : Z) : Prop := {
  pl_sas : sas m' = <[s := mkSa start (start + size) None]> (sas m);
  pl_olist : forall x, x ∈ olist m' <-> x = s \/ x ∈ olist m;
  pl_hole : hole m' = Some s;
  pl_start : 0 <= start /\ start + size <= sm_size m /\ start mod align = 0;
  pl_size : sm_size m' = sm_size m;
  pl_align : sm_align m' = sm_align m;
  pl_next : next_sa m' = next_sa m;
  pl_signaled : signaled m' = signaled m
}.

Lemma hole_soffset_run held m pre post :
  sa_wf held m -> at_hole m pre post ->
  drm_suballoc_hole_soffset m = Some (from_option (eo m) 0 (last pre), m).
Proof.
  intros Hwf [Eo Eh]. unfold drm_suballoc_hole_soffset, st_bind, st_gets. rewrite Eh.
  destruct (last pre) as [h|] eqn:El; [|done]. simpl. unfold get_sa, eo.
  destruct (sw_in _ _ Hwf h) as [S HS].
  { apply (sw_hole _ _ Hwf). by rewrite Eh. }
  by rewrite HS.
Qed.

Lemma hole_eoffset_run held m pre post :
  sa_wf held m -> at_hole m pre post -> hole_next m = Some (post, m) ->
  drm_suballoc_hole_eoffset m = Some (from_option (so m) (sm_size m) (head post), m).
Proof.
  intros Hwf [Eo Eh] En. unfold drm_suballoc_hole_eoffset. rewrite (st_bind_run _ _ _ _ _ En).
  destruct post as [|s post]; [done|]. unfold st_bind, get_sa, so. simpl.
  destruct (sw_in _ _ Hwf s) as [S HS]; [rewrite Eo; set_solver|]. by rewrite HS.
Qed.

(** The free space at the hole. *)
Lemma hole_bounds held m pre post :
  sa_wf held m -> at_hole m pre post ->
  0 <= from_option (eo m) 0 (last pre) <= from_option (so m) (sm_size m) (head post) /\
  from_option (so m) (sm_size m) (head post) <= sm_size m /\
  (forall x, x ∈ pre -> eo m x <= from_option (eo m) 0 (last pre)) /\
  (forall x, x ∈ post -> from_option (so m) (sm_size m) (head post) <= so m x).
Proof.
  intros Hwf [Eo Eh]. pose proof (sw_sorted _ _ Hwf) as Hs. rewrite Eo in Hs.
  pose proof (sw_size _ _ Hwf) as Hsz.
  assert (forall x, x ∈ pre \/ x ∈ post -> 0 <= so m x /\ so m x < eo m x /\ eo m x <= sm_size m) as Hr.
  { intros x Hx. apply (sw_range _ _ Hwf). rewrite Eo. set_solver. }
  assert (forall x y, x ∈ pre -> y ∈ post -> eo m x <= so m y) as Hpp.
  { clear -Hs. induction pre as [|a pre IH]; [set_solver|]. inversion Hs as [|? ? Hs' Hf]; subst.
    intros x y [->|Hx]%elem_of_cons Hy.
    - rewrite Forall_forall in Hf. apply Hf. set_solver.
    - by apply IH. }
  assert (forall x, x ∈ pre -> eo m x <= from_option (eo m) 0 (last pre)) as Hlast.
  { destruct pre as [|z pre _] using rev_ind; [set_solver|]. rewrite last_snoc. simpl.
    intros x [Hx|Hx%list_elem_of_singleton]%elem_of_app; [|by subst].
    destruct (Hr z) as (_ & ? & _); [set_solver|]. assert (eo m x <= so m z); [|lia].
    clear -Hs Hx. rewrite <- app_assoc in Hs. revert Hx. induction pre as [|a pre IH]; [set_solver|].
    inversion Hs as [|? ? Hs' Hf]; subst. intros [->|Hx]%elem_of_cons; [|by apply IH].
    rewrite Forall_forall in Hf. apply Hf. set_solver. }
  assert (forall x, x ∈ post -> from_option (so m) (sm_size m) (head post) <= so m x) as Hhead.
  { destruct post as [|z post]; [set_solver|]. simpl. intros x [->|Hx]%elem_of_cons; [done|].
    destruct (Hr z) as (_ & ? & _); [set_solver|].
    assert (eo m z <= so m x); [|lia]. clear -Hs Hx. induction pre as [|a pre IH].
    - inversion Hs as [|? ? Hs' Hf]; subst. rewrite Forall_forall in Hf. apply Hf. done.
    - inversion Hs; subst. by apply IH. }
  split_and!; [| | |done|done].
  - destruct (last pre) as [h|] eqn:El; simpl; [|lia]. apply last_Some in El as [p' ->].
    destruct (Hr h) as (? & ? & _); [set_solver|]. lia.
  - destruct (last pre) as [h|] eqn:El; simpl.
    + apply last_Some in El as [p' ->]. destruct post as [|z post]; simpl.
      * destruct (Hr h) as (_ & _ & ?); [set_solver|done].
      * apply Hpp; set_solver.
    + destruct post as [|z post]; simpl; [lia|]. destruct (Hr z) as (? & _); [set_solver|done].
  - destruct post as [|z post]; simpl; [lia|]. destruct (Hr z) as (_ & ? & ?); [set_solver|]. lia.
Qed.

Lemma StronglySorted_insert_mid {A} (R : A -> A -> Prop) pre (x : A) post :
  StronglySorted R (pre ++ post) -> (forall y, y ∈ pre -> R y x) -> (forall y, y ∈ post -> R x y) ->
  StronglySorted R (pre ++ x :: post).
Proof.
  induction pre as [|a pre IH]; simpl; intros Hs H1 H2.
  - constructor; [done|]. by rewrite Forall_forall.
  - inversion Hs as [|? ? Hs' Hf]; subst. constructor; [apply IH; auto; set_solver|].
    rewrite Forall_forall in Hf |- *. intros y Hy. apply elem_of_app in Hy as [Hy|[->|Hy]%elem_of_cons].
    + apply Hf. set_solver.
    + apply H1. set_solver.
    + apply Hf. set_solver.
Qed.

Lemma list_add_at pre (s : sid) post :
  NoDup (pre ++ post) -> list_add (last pre) s (pre ++ post) = pre ++ s :: post.
Proof.
  intros Hn. destruct pre as [|h pre _] using rev_ind; [done|]. rewrite last_snoc. simpl.
  rewrite <- !app_assoc. simpl. apply list_add_behind_split.
  apply NoDup_app in Hn as (Hn & _). apply NoDup_app in Hn as (_ & Hn & _). intros Hin. apply (Hn h Hin). set_solver.
Qed.

Definition linked (s : sid) (start size : Z) (m : drm_suballoc_manager) : drm_suballoc_manager :=
  mkMgr (<[s := mkSa start (start + size) None]> (sas m)) (next_sa m) (Some s)
    (list_add (hole m) s (olist m)) (flist m) (sm_size m) (sm_align m) (frefs m) (signaled m).

Section Link.
Context (held : list fid) (m : drm_suballoc_manager) (s : sid) (start size : Z) (pre post : list sid).
Hypothesis Hwf : sa_wf held m.
Hypothesis Hat : at_hole m pre post.
Hypothesis Hpend : pending m s.
Hypothesis Hsize : 0 < size.
Hypothesis Hlo : from_option (eo m) 0 (last pre) <= start.
Hypothesis Hhi : start + size <= from_option (so m) (sm_size m) (head post).

Lemma linked_olist : olist (linked s start size m) = pre ++ s :: post.
Proof.
  destruct Hat as [Eo Eh]. simpl. rewrite Eh, Eo. apply list_add_at.
  rewrite <- Eo. apply Hwf.
Qed.

Lemma linked_acc x : x <> s ->
  so (linked s start size m) x = so m x /\ eo (linked s start size m) x = eo m x /\
  fence_of (linked s start size m) x = fence_of m x.
Proof. intros Hx. apply acc_ext. simpl. by rewrite lookup_insert_ne. Qed.

Lemma linked_self :
  so (linked s start size m) s = start /\ eo (linked s start size m) s = start + size /\
  fence_of (linked s start size m) s = None.
Proof. unfold so, eo, fence_of. simpl. rewrite lookup_insert_eq. done. Qed.

Lemma linked_wf : sa_wf held (linked s start size m).
Proof.
  pose proof linked_olist as El. destruct Hat as [Eo Eh]. destruct linked_self as (Ss & Es & Fs).
  destruct (hole_bounds held m pre post Hwf Hat) as (B1 & B2 & B3 & B4).
  pose proof (proj2 Hpend) as Hns.
  assert (forall x, x ∈ olist (linked s start size m) <-> x = s \/ x ∈ olist m) as Hol.
  { intros x. rewrite El, Eo. set_solver. }
  assert (forall x, x ∈ olist m -> x <> s) as Hne by (intros x Hx ->; done).
  split; try apply Hwf.
  - rewrite El. apply NoDup_app. pose proof (sw_nodup _ _ Hwf) as Hn. rewrite Eo in Hn, Hns.
    apply NoDup_app in Hn as (N1 & N2 & N3). split_and!; [done| |constructor; [set_solver|done]].
    intros x Hx [->|Hx']%elem_of_cons; [set_solver|by apply (N2 x)].
  - intros x Hx. simpl. destruct (decide (x = s)) as [->|]; [rewrite lookup_insert_eq; eauto|].
    rewrite lookup_insert_ne by done. apply (sw_in _ _ Hwf). apply Hol in Hx as [?|?]; done.
  - intros x [->|Hx]%Hol; [rewrite Ss, Es; simpl; lia|].
    destruct (linked_acc x (Hne x Hx)) as (-> & -> & _). by apply (sw_range _ _ Hwf).
  - rewrite El. apply StronglySorted_insert_mid.
    + eapply StronglySorted_ext; [|rewrite <- Eo; apply (sw_sorted _ _ Hwf)].
      intros x y Hx Hy. rewrite <- Eo in Hx, Hy. destruct (linked_acc x (Hne x Hx)) as (_ & -> & _).
      by destruct (linked_acc y (Hne y Hy)) as (-> & _).
    + intros y Hy. rewrite Ss. destruct (linked_acc y) as (_ & -> & _); [apply Hne; rewrite Eo; set_solver|].
      specialize (B3 y Hy). lia.
    + intros y Hy. rewrite Es. destruct (linked_acc y) as (-> & _); [apply Hne; rewrite Eo; set_solver|].
      specialize (B4 y Hy). lia.
  - intros h [= <-]. apply Hol. auto.
  - intros i q Hq. destruct (sw_queue _ _ Hwf i q Hq) as [Hn Hm]. split; [done|].
    intros x. rewrite Hm, Hol. split.
    + intros (Hx & f & Hf & Ef). split; [auto|]. exists f. by destruct (linked_acc x (Hne x Hx)) as (_ & _ & ->).
    + intros ([->|Hx] & f & Hf & Ef); [congruence|]. split; [done|]. exists f.
      by destruct (linked_acc x (Hne x Hx)) as (_ & _ & <-).
  - intros x Hx. simpl in Hx |- *. apply (sw_fresh _ _ Hwf). destruct (decide (x = s)) as [->|].
    + destruct Hpend as [(a & b & ->) _]. eauto.
    + by rewrite lookup_insert_ne in Hx.
  - intros f. rewrite El. pose proof (sw_refs _ _ Hwf f) as Hr. rewrite Eo in Hr.
    rewrite sumZ_app in Hr |- *. simpl. assert (counts (linked s start size m) f s = 0) as -> by (unfold counts; by rewrite Fs).
    rewrite !(sumZ_ext (counts (linked s start size m) f) (counts m f)); [exact Hr|..];
      intros x Hx; unfold counts; destruct (linked_acc x) as (_ & _ & ->); try done; apply Hne; rewrite Eo; set_solver.
Qed.
End Link.

Lemma align_up k x : 0 <= k <= 62 -> 0 <= x < 2 ^ 63 ->
  round_up x (2 ^ k) mod 2 ^ k = 0 /\ x <= round_up x (2 ^ k) < x + 2 ^ k.
Proof.
  clear fence_context. intros Hk Hx. assert (0 < 2 ^ k) by (apply Z.pow_pos_nonneg; lia).
  assert (2 ^ k <= 2 ^ 62) by (apply Z.pow_le_mono_r; lia).
  destruct (Z.eq_dec x 0) as [->|].
  { rewrite round_up_0 by lia. split; [by rewrite Z.mod_0_l by lia|lia]. }
  rewrite round_up_pow2 by lia. pose proof (Z.div_mod (x - 1) (2 ^ k) ltac:(lia)).
  pose proof (Z.mod_pos_bound (x - 1) (2 ^ k) ltac:(lia)).
  assert (0 <= (x - 1) / 2 ^ k) by (apply Z.div_pos; lia).
  rewrite wrap_small by nia. split; [apply Z.mod_mul; lia|nia].
Qed.

(** The test both [drm_suballoc_try_alloc] and [__drm_suballoc_event] make. *)
Definition room (soff eoff size align : Z) : bool := size + (round_up soff align - soff) <=? eoff - soff.

Lemma room_test k soff eoff size :
  0 <= k <= 62 -> 0 <= soff <= eoff -> eoff < 2 ^ 63 -> 0 <= size < 2 ^ 63 ->
  (u64 (size + u64 (round_up soff (2 ^ k) - soff)) <=? u64 (eoff - soff)) = room soff eoff size (2 ^ k).
Proof.
  clear fence_context. intros Hk Hs He Hz. destruct (align_up k soff Hk ltac:(lia)) as [_ Ha].
  assert (2 ^ k <= 2 ^ 62) by (apply Z.pow_le_mono_r; lia). unfold room.
  rewrite (wrap_small 64 (_ - soff)), !wrap_small by lia. done.
Qed.

Lemma try_alloc_ok held m s size k :
  sa_wf held m -> pending m s -> 0 < size <= sm_size m -> 0 <= k <= 62 ->
  exists r m', drm_suballoc_try_alloc s size (2 ^ k) m = Some (r, m') /\
    if r : bool then sa_wf held m' /\ exists start, placed m m' s start size (2 ^ k)
    else m' = m /\ olist m <> [].
Proof.
  intros Hwf Hp Hs Hk. destruct (wf_at_hole _ _ Hwf) as (pre & post & Hat & En).
  destruct (hole_bounds held m pre post Hwf Hat) as (B1 & B2 & _ & _). pose proof (sw_size _ _ Hwf) as Hsz.
  unfold drm_suballoc_try_alloc.
  rewrite (st_bind_run _ _ _ _ _ (hole_soffset_run held m pre post Hwf Hat)).
  rewrite (st_bind_run _ _ _ _ _ (hole_eoffset_run held m pre post Hwf Hat En)).
  pose proof (linked_wf held m s) as Hl. specialize (Hl (round_up (from_option (eo m) 0 (last pre)) (2 ^ k)) size pre post Hwf Hat Hp).
  pose proof (linked_olist held m s (round_up (from_option (eo m) 0 (last pre)) (2 ^ k)) size pre post Hwf Hat) as Hlo.
  set (soff := from_option (eo m) 0 (last pre)) in *. set (eoff := from_option (so m) (sm_size m) (head post)) in *.
  rewrite (room_test k) by lia. destruct (align_up k soff Hk ltac:(lia)) as [Hm Ha].
  assert (2 ^ k <= 2 ^ 62) by (apply Z.pow_le_mono_r; lia).
  unfold room. destruct (Z.leb_spec (size + (round_up soff (2 ^ k) - soff)) (eoff - soff)) as [Hr|Hr].
  - rewrite (wrap_small 64 (_ - soff)), (wrap_small 64 (soff + _)) by lia.
    rewrite (wrap_small 64) by lia. set (start := round_up soff (2 ^ k)) in *.
    replace (soff + (start - soff)) with start by lia.
    destruct Hp as [(a & b & HS) Hns]. unfold st_bind, get_sa, put_sa, st_mod. rewrite HS. simpl. rewrite HS.
    eexists true, (linked s start size m). split; [done|]. split; [apply Hl; lia|].
    exists start. constructor; try done; [|lia]. intros x. rewrite Hlo, (proj1 Hat). set_solver.
  - exists false, m. split; [done|]. split; [done|]. intros Ee. destruct Hat as [Eo _]. rewrite Ee in Eo.
    symmetry in Eo. apply app_nil in Eo as [-> ->]. unfold soff, eoff in Hr. simpl in Hr.
    rewrite round_up_0 in Hr by lia. lia.
Qed.
End Inv.
