(* ===== verification/SuballocNew.v ===== *)
(** * The range suballocator: [drm_suballoc_new] and [drm_suballoc_free] *)

From S2P Require Import Prelude Suballoc SuballocInv.
From stdpp Require Import gmap list sorting.
From Stdlib Require Import ZArith Lia.

Local Open Scope Z_scope.
Local Open Scope st_scope.

Section New.
Variable fence_context : fid -> Z.
Abbreviation wf := (sa_wf fence_context).

(** ** The next hole *)

(** What the scan over the queues yields. *)
Definition scan_post (m : drm_suballoc_manager) (fences : list (option fid)) (bo : option (nat * sid)) : Prop :=
  (forall f, Some f ∈ fences -> (f ∉ signaled m) /\ exists s, s ∈ olist m /\ fence_of m s = Some f) /\
  (forall i s, bo = Some (i, s) -> s ∈ olist m /\ exists f, fence_of m s = Some f /\ f ∈ signaled m).

Lemma next_hole_scan_ok held m soff size qs tries i best bo :
  wf held m ->
  (forall q s, q ∈ qs -> s ∈ q -> s ∈ olist m /\ is_Some (fence_of m s)) -> scan_post m [] bo ->
  exists fences bo', next_hole_scan soff size qs tries i best bo m = Some ((fences, bo'), m) /\
    length fences = length qs /\ scan_post m fences bo'.
Proof.
  intros Hwf. revert i best bo. induction qs as [|q qs IH]; intros i best bo Hq [_ Hbo].
  { exists [], bo. split; [done|]. split; [done|]. split; [set_solver|done]. }
  assert (forall q s, q ∈ qs -> s ∈ q -> s ∈ olist m /\ is_Some (fence_of m s)) as Hq'
    by (intros q0 s0 H0; apply Hq; set_solver).
  assert (forall g best bo, scan_post m [] bo ->
    (forall f, g = Some f -> (f ∉ signaled m) /\ exists s, s ∈ olist m /\ fence_of m s = Some f) ->
    exists fences bo', st_bind (next_hole_scan soff size qs tries (S i) best bo)
        (fun r => st_ret (g :: fst r, snd r)) m = Some ((fences, bo'), m) /\
      length fences = S (length qs) /\ scan_post m fences bo') as Hgo.
  { intros g best0 bo0 Hb0 Hg. destruct (IH (S i) best0 bo0 Hq' Hb0) as (fs & bo' & E & Hl & Hp1 & Hp2).
    rewrite (st_bind_run _ _ _ _ _ E). exists (g :: fs), bo'. split; [done|]. split; [simpl; lia|].
    split; [|done]. intros f [Hf|Hf]%elem_of_cons; [by apply Hg|by apply Hp1]. }
  assert (scan_post m [] bo) as Hbo0 by (split; [set_solver|done]).
  destruct q as [|s q]; [by apply Hgo|]. cbn [next_hole_scan].
  destruct (Hq (s :: q) s) as [Hin [f Hf]]; [set_solver..|].
  destruct (sw_in _ _ _ Hwf s Hin) as [sa HS]. unfold fence_of in Hf. rewrite HS in Hf. simpl in Hf.
  rewrite (st_bind_run _ _ m sa m) by (unfold get_sa; by rewrite HS).
  rewrite (st_bind_run _ _ m f m) by (unfold st_of_option; by rewrite Hf).
  assert (fence_of m s = Some f) as Hfs by (unfold fence_of; by rewrite HS).
  rewrite (st_bind_run _ _ m (bool_decide (f ∈ signaled m)) m) by done.
  destruct (decide (f ∈ signaled m)) as [Hsig|Hsig];
    [rewrite bool_decide_true by done|rewrite bool_decide_false by done]; cbn [negb].
  2:{ apply Hgo; [done|]. intros g [= <-]. eauto. }
  destruct (2 <? nth i tries 0); [by apply Hgo|].
  match goal with |- context [if ?c then next_hole_scan _ _ _ _ _ _ _ else _] => destruct c end;
    apply Hgo; try done. split; [set_solver|]. intros j x [= <- <-]. eauto.
Qed.

Definition hole_measure (m : drm_suballoc_manager) : nat :=
  2 * length (olist m) + (if bool_decide (nodes_after (hole m) (olist m) = []) then 1 else 0).

Lemma next_hole_ok held m fences tries :
  wf held m -> olist m <> [] ->
  exists r fs' tries' m', drm_suballoc_next_hole fences tries m = Some ((r, fs', tries'), m') /\
    wf held m' /\ shrinks m m' /\
    if r : bool then (hole_measure m' < hole_measure m)%nat
    else scan_post m' fs' None.
Proof.
  intros Hwf Hne. destruct (wf_at_hole _ _ _ Hwf) as (pre & post & Hat & En).
  assert (nodes_after (hole m) (olist m) = post) as Ena.
  { unfold hole_next in En. 
    match type of En with context [if ?c then _ else _] => destruct c; [by injection En|done] end. }
  unfold drm_suballoc_next_hole. rewrite (st_bind_run _ _ _ _ _ En). destruct post as [|z post].
  { unfold st_bind, st_mod, st_ret. eexists true, fences, tries, (set_hole None m). split; [done|].
    split; [|split].
    - destruct Hwf. by constructor.
    - constructor; auto. intros s. simpl. split; [|tauto]. intros Hs. split; [done|]. by apply (sw_in _ _ _ Hwf).
    - unfold hole_measure. rewrite Ena, (bool_decide_true (@nil _ = [])) by done. simpl.
      rewrite bool_decide_false by done. lia. }
  rewrite (st_bind_run _ _ _ _ _ (hole_soffset_run _ _ _ _ _ Hwf Hat)).
  rewrite (st_bind_run _ _ m (sm_size m) m), (st_bind_run _ _ m (flist m) m) by done.
  destruct (next_hole_scan_ok held m (from_option (eo m) 0 (last pre)) (sm_size m) (flist m) tries 0
    (u64 (sm_size m * 2)) None Hwf) as (fs' & bo & E & Hl & Hf & Hb).
  { intros q s Hq Hs. apply list_elem_of_lookup in Hq as [i Hq]. destruct (sw_queue _ _ _ Hwf i q Hq) as [_ Hm].
    apply Hm in Hs as (? & f & -> & _). eauto. }
  { split; [set_solver|done]. }
  rewrite (st_bind_run _ _ _ _ _ E). cbn [fst snd]. destruct bo as [[i s]|].
  - destruct (Hb i s eq_refl) as (Hin & f & Hfs & Hsig). destruct (sw_in _ _ _ Hwf s Hin) as [sa HS].
    unfold st_bind at 1, st_get. unfold st_bind at 1, st_mod.
    set (m1 := set_hole (node_before None s (olist m)) m).
    assert (wf held m1) as Hw1.
    { destruct Hwf. constructor; try done. intros h Hh. unfold m1 in Hh. simpl in Hh.
      destruct (list_split_at s (olist m) Hin) as (p1 & p2 & Eo & Hp). rewrite Eo, node_before_split in Hh by done.
      destruct (last p1) as [y|] eqn:El; [|done]. simpl in Hh. injection Hh as ->.
      apply last_Some in El as [p' ->]. simpl. rewrite Eo. set_solver. }
    rewrite (st_bind_run _ _ _ _ _ (remove_locked_run m1 s ltac:(eauto) Hin)).
    eexists true, fs', _, (removed s m1). split; [done|].
    split; [by apply removed_wf|]. split.
    + destruct (removed_shrinks _ held s m1 f Hw1 Hin Hfs Hsig). by constructor.
    + unfold hole_measure at 2. rewrite Ena, bool_decide_false by done.
      unfold hole_measure. pose proof (length_filter_lt (fun x => x <> s) (olist m) s Hin ltac:(auto)).
      simpl olist. destruct (bool_decide _); lia.
  - eexists false, fs', tries, m. split; [done|]. split; [done|]. split; [by eapply shrinks_refl|]. by split.
Qed.

(** ** The inner loop *)

Lemma shrinks_pending held m m' s : wf held m -> shrinks m m' -> pending m s -> pending m' s.
Proof.
  intros Hwf Hsh [(a & b & HS) Hns]. split.
  - exists a, b. destruct (sh_sas _ _ Hsh s) as [E|(_ & Hin & _)]; [congruence|done].
  - intros Hin. apply (sh_olist _ _ Hsh) in Hin as [Hin _]. done.
Qed.

Definition loop_post (held : list fid) (m m' : drm_suballoc_manager) (s : sid) (size align : Z)
    (r : option (list (option fid))) : Prop :=
  wf held m' /\
  match r with
  | None => exists m1 start, shrinks m m1 /\ placed m1 m' s start size align
  | Some fences => shrinks m m' /\ scan_post m' fences None
  end.

Lemma loop_post_trans held m m1 m2 s size align r :
  shrinks m m1 -> loop_post held m1 m2 s size align r -> loop_post held m m2 s size align r.
Proof.
  intros H1 [Hw H]. split; [done|]. destruct r.
  - destruct H as [H ?]. split; [by eapply shrinks_trans|done].
  - destruct H as (m0 & start & H & ?). exists m0, start. split; [by eapply shrinks_trans|done].
Qed.

Lemma hole_loop_ok fuel held m s size k fences tries :
  wf held m -> pending m s -> 0 < size <= sm_size m -> 0 <= k <= 62 -> (hole_measure m < fuel)%nat ->
  exists r m', hole_loop fuel s size (2 ^ k) fences tries m = Some (r, m') /\
    loop_post held m m' s size (2 ^ k) r.
Proof.
  revert m fences tries. induction fuel as [|fuel IH]; intros m fences tries Hwf Hp Hs Hk Hf; [lia|].
  cbn [hole_loop]. destruct (try_free_ok _ _ _ Hwf) as (m1 & E1 & Hw1 & Hsh1 & Hlen).
  rewrite (st_bind_run _ _ _ _ _ E1).
  assert (hole_measure m1 <= hole_measure m)%nat as Hm1.
  { destruct Hlen as [->|?]; [done|]. unfold hole_measure. repeat destruct (bool_decide _); lia. }
  pose proof (shrinks_pending _ _ _ _ Hwf Hsh1 Hp) as Hp1.
  assert (0 < size <= sm_size m1) as Hs1 by (rewrite (sh_size _ _ Hsh1); done).
  destruct (try_alloc_ok _ held m1 s size k Hw1 Hp1 Hs1 Hk) as (ok & m2 & E2 & H2).
  rewrite (st_bind_run _ _ _ _ _ E2). destruct ok.
  { destruct H2 as [Hw2 (start & Hpl)]. exists None, m2. split; [done|]. split; [done|]. by exists m1, start. }
  destruct H2 as [-> Hne].
  destruct (next_hole_ok held m1 fences tries Hw1 Hne) as (again & fs' & tr' & m3 & E3 & Hw3 & Hsh3 & Hr).
  rewrite (st_bind_run _ _ _ _ _ E3). destruct again.
  - destruct (IH m3 fs' tr' Hw3) as (r & m4 & E4 & H4);
      [by apply (shrinks_pending held m1)|by rewrite (sh_size _ _ Hsh3)|done|lia|].
    exists r, m4. split; [done|]. eapply loop_post_trans; [|done]. by eapply shrinks_trans.
  - exists (Some fs'), m3. split; [done|]. split; [done|]. split; [by eapply shrinks_trans|done].
Qed.

(** ** References held across a wait *)

Lemma wf_refs held held' m r :
  wf held m ->
  (forall f, default 0 (r !! f) = fence_refs m f + extra_refs held' f - extra_refs held f) ->
  wf held' (set_frefs r m).
Proof.
  intros Hwf Hr. destruct Hwf. constructor; try done. intros f. unfold fence_refs at 1. simpl.
  rewrite Hr, sw_refs. change (counts (set_frefs r m)) with (counts m). lia.
Qed.

Lemma fence_ref_add_ok held held' d f m :
  wf held m -> (forall g, extra_refs held' g = extra_refs held g + if decide (f = g) then d else 0) ->
  exists r, fence_ref_add d f m = Some (tt, set_frefs r m) /\ wf held' (set_frefs r m).
Proof.
  intros Hwf Hh. eexists. split; [done|]. eapply wf_refs; [done|]. intros g. rewrite Hh.
  destruct (decide (f = g)) as [->|Hfg].
  - rewrite lookup_insert_eq. simpl. lia.
  - rewrite lookup_insert_ne by done. fold (fence_refs m g). lia.
Qed.

Lemma fence_gets_ok fs held m :
  wf held m -> exists r, fence_gets fs m = Some (tt, set_frefs r m) /\ wf (fs ++ held) (set_frefs r m).
Proof.
  revert held m. induction fs as [|f fs IH]; intros held m Hwf.
  { exists (frefs m). destruct m; done. }
  cbn [fence_gets]. destruct (fence_ref_add_ok held (f :: held) 1 f m Hwf) as (r & E & Hw).
  { intros g. unfold extra_refs. simpl. case_decide; lia. }
  rewrite (st_bind_run _ _ _ _ _ E). destruct (IH (f :: held) _ Hw) as (r2 & E2 & Hw2).
  exists r2. split; [exact E2|]. apply (wf_refs (fs ++ f :: held) _ (set_frefs r2 m) r2 Hw2).
  intros g. unfold fence_refs. simpl frefs. unfold extra_refs.
  rewrite !sumZ_app, !sumZ_cons. lia.
Qed.

Lemma fence_puts_ok fs held m :
  wf (fs ++ held) m -> exists r, fence_puts fs m = Some (tt, set_frefs r m) /\ wf held (set_frefs r m).
Proof.
  revert m. induction fs as [|f fs IH]; intros m Hwf.
  { exists (frefs m). destruct m; done. }
  cbn [fence_puts]. destruct (fence_ref_add_ok (f :: fs ++ held) (fs ++ held) (-1) f m Hwf) as (r & E & Hw).
  { intros g. unfold extra_refs. simpl. case_decide; lia. }
  rewrite (st_bind_run _ _ _ _ _ E). destruct (IH _ Hw) as (r2 & E2 & Hw2). exists r2. split; [exact E2|exact Hw2].
Qed.

(** ** The outer loop *)

(** What the other threads may do while the lock is dropped: use the manager
    as this file does, and leave the unpublished suballocation alone. *)
Definition env_ok (s : sid) (env : drm_suballoc_manager -> drm_suballoc_manager) : Prop :=
  forall held m, wf held m -> pending m s ->
    wf held (env m) /\ pending (env m) s /\ sm_size (env m) = sm_size m /\ sm_align (env m) = sm_align m.

(** Where a successful call put the suballocation. *)
Definition granted (m : drm_suballoc_manager) (s : sid) (size align : Z) : Prop :=
  exists start, sas m !! s = Some (mkSa start (start + size) None) /\ s ∈ olist m /\
    0 <= start /\ start + size <= sm_size m /\ start mod align = 0.

Lemma wait_result_zero have_fences intr : wait_result have_fences intr 0 = - ETIME.
Proof. by destruct have_fences, intr. Qed.

Lemma suballoc_loop_ok waits m s size k intr trace held :
  wf held m -> pending m s -> 0 < size <= sm_size m -> 0 <= k <= 62 ->
  (forall w, w ∈ waits -> env_ok s (w_env w)) -> (exists w, w ∈ waits /\ w_t w = 0) ->
  exists r waited m', suballoc_loop waits s size (2 ^ k) intr trace m
      = Some ((r, trace ++ map (fun w => wait_ms (w_param w)) waited), m') /\
    waited `prefix_of` waits /\ wf held m' /\
    (if r =? 0 then granted m' s size (2 ^ k)
     else pending m' s /\ exists w, last waited = Some w /\
          (r = - ETIME /\ w_t w = 0 \/ r = s32 (w_t w) /\ w_t w < 0)).
Proof.
  revert m trace. induction waits as [|w waits IH]; intros m trace Hwf Hp Hs Hk Henv [w0 [Hin0 Ht0]]; [set_solver|].
  cbn [suballoc_loop]. unfold st_bind at 1, st_get.
  destruct (hole_loop_ok (2 * length (olist m) + 2) held m s size k
    (replicate (Z.to_nat DRM_SUBALLOC_MAX_QUEUES) None) (replicate (Z.to_nat DRM_SUBALLOC_MAX_QUEUES) 0) Hwf Hp Hs Hk)
    as (r & m1 & E & Hw1 & Hr).
  { unfold hole_measure. destruct (bool_decide _); lia. }
  rewrite (st_bind_run _ _ _ _ _ E). destruct r as [fences|].
  2:{ destruct Hr as (m0 & start & Hsh & [P1 P2 _ P4 P5 _ _ _]). exists 0, [], m1. simpl. rewrite app_nil_r.
      split_and!; [done|apply prefix_nil|done|]. exists start. rewrite P1, lookup_insert_eq, P5.
      split_and!; try apply P4; [done|]. apply P2. auto. }
  destruct Hr as [Hsh _]. pose proof (shrinks_pending held m m1 s Hwf Hsh Hp) as Hp1.
  set (fs := omap id fences).
  destruct (fence_gets_ok fs held m1 Hw1) as (r1 & E1 & Hw2). rewrite (st_bind_run _ _ _ _ _ E1).
  unfold st_bind at 1, st_mod at 1.
  destruct (Henv w ltac:(set_solver) (fs ++ held) (set_frefs r1 m1) Hw2 Hp1) as (Hw3 & Hp3 & Es3 & Ea3).
  destruct (fence_puts_ok fs held _ Hw3) as (r2 & E2 & Hw4). rewrite (st_bind_run _ _ _ _ _ E2).
  set (m4 := set_frefs r2 _) in *. set (hf := match fs with [] => false | _ => true end).
  assert (pending m4 s) as Hp4 by exact Hp3.
  destruct (Z.eqb_spec (wait_result hf intr (w_t w)) 0) as [Ez|Hnz].
  - destruct (IH m4 (trace ++ [wait_ms (w_param w)])) as (r & waited & m5 & E5 & Hpre & Hw5 & H5); auto.
    { change (sm_size m4) with (sm_size (w_env w (set_frefs r1 m1))). rewrite Es3. simpl.
      by rewrite (sh_size _ _ Hsh). }
    { intros w' Hw'. apply Henv. set_solver. }
    { apply elem_of_cons in Hin0 as [->|Hin0]; [|eauto]. rewrite Ht0, wait_result_zero in Ez. done. }
    exists r, (w :: waited), m5. rewrite E5, <- app_assoc. split_and!; [done|by apply prefix_cons|done|].
    destruct (r =? 0); [done|]. destruct H5 as [? (w1 & El & ?)]. split; [done|]. exists w1. split; [|done].
    destruct waited; [done|]. exact El.
  - eexists _, [w], m4. split; [done|]. split_and!; [apply prefix_cons, prefix_nil|done|].
    destruct (Z.eqb_spec (wait_result hf intr (w_t w)) 0); [done|]. split; [done|]. exists w. split; [done|].
    unfold wait_result in *. destruct hf, intr; destruct (Z.eqb_spec (w_t w) 0); auto; right;
      repeat match goal with |- context [?a <? ?b] => destruct (Z.ltb_spec a b) end; try lia; done.
Qed.

(** ** [drm_suballoc_new] *)

Definition new_post (m m' : drm_suballoc_manager) (size align : Z) (r : errptr sid) (trace : list Z) : Prop :=
  (forall ms, ms ∈ trace -> 100 <= ms) /\
  match r with
  | PTR s => s = next_sa m /\ granted m' s size align
  | ERR_PTR e => sas m' !! next_sa m = None /\ (e = - ETIME \/ e < 0)
  end.

Lemma wait_ms_floor p : 100 <= wait_ms p.
Proof. unfold wait_ms. destruct (Z.leb_spec p 0), (Z.ltb_spec p 100); lia. Qed.

(** Only the linked suballocations matter. *)
Lemma wf_sas_frame held m h n :
  wf held m -> (forall x, x ∈ olist m -> h !! x = sas m !! x) ->
  (forall x, is_Some (h !! x) -> (x < n)%positive) -> wf held (set_sas h (set_next_sa n m)).
Proof.
  intros Hwf Hsame Hfresh. set (m1 := set_sas _ _).
  assert (forall x, x ∈ olist m -> so m1 x = so m x /\ eo m1 x = eo m x /\ fence_of m1 x = fence_of m x) as Hacc.
  { intros x Hx. by apply acc_ext, Hsame. }
  split; try apply Hwf.
  - intros x Hx. simpl. rewrite Hsame by done. by apply (sw_in _ _ _ Hwf).
  - intros x Hx. destruct (Hacc x Hx) as (-> & -> & _). by apply (sw_range _ _ _ Hwf).
  - eapply StronglySorted_ext; [|apply (sw_sorted _ _ _ Hwf)]. intros x y Hx Hy.
    destruct (Hacc x Hx) as (_ & -> & _). by destruct (Hacc y Hy) as (-> & _).
  - intros i q Hq. destruct (sw_queue _ _ _ Hwf i q Hq) as [Hn Hm]. split; [done|]. intros x. rewrite Hm.
    split; intros [Hx (f & Hf & Ef)]; (split; [done|]); exists f; (split; [|done]);
      destruct (Hacc x Hx) as (_ & _ & E); congruence.
  - done.
  - intros f. change (fence_refs m1 f) with (fence_refs m f). rewrite (sw_refs _ _ _ Hwf). f_equal.
    apply sumZ_ext. intros x Hx. unfold counts. by destruct (Hacc x Hx) as (_ & _ & ->).
Qed.

Lemma wf_kmalloc held m :
  wf held m ->
  let m1 := set_sas (<[next_sa m := mkSa 0 0 None]> (sas m)) (set_next_sa (Pos.succ (next_sa m)) m) in
  wf held m1 /\ pending m1 (next_sa m).
Proof.
  intros Hwf m1. set (s := next_sa m).
  assert (forall x, x ∈ olist m -> x <> s) as Hne.
  { intros x Hx ->. pose proof (sw_fresh _ _ _ Hwf s (sw_in _ _ _ Hwf s Hx)). unfold s in *. lia. }
  split.
  - apply wf_sas_frame; [done| |].
    + intros x Hx. rewrite lookup_insert_ne; [done|]. intros E. by apply (Hne x Hx).
    + intros x Hx. destruct (decide (x = s)) as [->|]; [unfold s; lia|].
      rewrite lookup_insert_ne in Hx by done. pose proof (sw_fresh _ _ _ Hwf x Hx). lia.
  - split; [simpl; rewrite lookup_insert_eq; eauto|]. intros Hin. by apply (Hne s).
Qed.

(** Freeing the struct of a call that failed. *)
Lemma wf_kfree held m s : wf held m -> pending m s -> wf held (set_sas (delete s (sas m)) m).
Proof.
  intros Hwf [_ Hns]. apply (wf_sas_frame held m _ (next_sa m)); [done| |].
  - intros x Hx. rewrite lookup_delete_ne; [done|]. congruence.
  - intros x Hx. rewrite lookup_delete_is_Some in Hx. apply (sw_fresh _ _ _ Hwf). tauto.
Qed.

Lemma suballoc_new_ok held m waits size intr align :
  wf held m -> 0 <= size -> 0 <= align ->
  (align = 0 \/ is_power_of_2 align = true) ->
  (forall w, w ∈ waits -> env_ok (next_sa m) (w_env w) /\ - 2 ^ 31 <= w_t w) ->
  (exists w, w ∈ waits /\ w_t w = 0) ->
  exists r trace m', drm_suballoc_new true waits size intr align m = Some ((r, trace), m') /\ wf held m' /\
    if (sm_align m <? align) || (sm_size m <? size) || (size =? 0)
    then r = ERR_PTR (- EINVAL) /\ trace = [] /\ m' = m
    else new_post m m' size (if align =? 0 then sm_align m else align) r trace.
Proof.
  intros Hwf Hs0 Ha0 Hpow Henv Hto. unfold drm_suballoc_new. unfold st_bind at 1, st_get.
  destruct (Z.ltb_spec (sm_align m) align) as [|Ha]; [by eexists _, [], m|].
  destruct (Z.ltb_spec (sm_size m) size) as [|Hs]; [by eexists _, [], m|].
  destruct (Z.eqb_spec size 0) as [|Hnz]; [by eexists _, [], m|]. cbn [orb negb].
  destruct (wf_kmalloc held m Hwf) as [Hw1 Hp1].
  set (al := if align =? 0 then sm_align m else align).
  assert (exists k, 0 <= k <= 62 /\ al = 2 ^ k) as (k & Hk & Ek).
  { destruct (sw_align _ _ _ Hwf) as (k0 & Hk0 & E0). unfold al.
    destruct (Z.eqb_spec align 0) as [|Hne]; [eauto|]. destruct Hpow as [|Hpow]; [done|].
    pose proof (is_power_of_2_inv align Hpow ltac:(lia)) as El. exists (Z.log2 align). split; [|done].
    split; [apply Z.log2_nonneg|]. transitivity k0; [|lia]. rewrite <- (Z.log2_pow2 k0) by lia.
    apply Z.log2_le_mono. lia. }
  unfold st_bind at 1, st_mod at 1. unfold st_bind at 1, st_mod at 1.
  change (sas (set_next_sa (Pos.succ (next_sa m)) m)) with (sas m). set (m1 := set_sas _ _) in *.
  rewrite Ek. destruct (suballoc_loop_ok waits m1 (next_sa m) size k intr [] held) as (r & waited & m2 & E & Hpre & Hw2 & H2);
    auto; [simpl; lia|intros w Hw; by apply Henv|].
  rewrite (st_bind_run _ _ _ _ _ E). cbn [fst snd app].
  assert (forall ms, ms ∈ map (fun w => wait_ms (w_param w)) waited -> 100 <= ms) as Hfl.
  { intros ms (w & -> & _)%list_elem_of_fmap. apply wait_ms_floor. }
  destruct (Z.eqb_spec r 0) as [->|Hr].
  - exists (PTR (next_sa m)), (map (fun w => wait_ms (w_param w)) waited), m2.
    split_and!; [done|done|]. split; [done|]. split; [done|]. exact H2.
  - destruct H2 as [Hp2 (w & El & Hc)].
    eexists (ERR_PTR r), (map (fun w => wait_ms (w_param w)) waited), (set_sas (delete (next_sa m) (sas m2)) m2).
    split_and!; [done|by apply wf_kfree|]. split; [done|]. split; [simpl; apply lookup_delete_eq|].
    destruct Hc as [[-> _]|[-> Hneg]]; [by left|right].
    assert (w ∈ waits) as Hin.
    { apply last_Some in El as [l' ->]. destruct Hpre as [l2 ->]. set_solver. }
    destruct (Henv w Hin) as [_ Hlow]. rewrite swrap_small; lia.
Qed.

(** ** [drm_suballoc_free] *)

Definition fenced (s : sid) (f : fid) (m : drm_suballoc_manager) : drm_suballoc_manager :=
  mkMgr (<[s := mkSa (so m s) (eo m s) (Some f)]> (sas m)) (next_sa m) (hole m) (olist m)
    (alter (fun q => q ++ [s]) (fence_queue fence_context f) (flist m)) (sm_size m) (sm_align m)
    (<[f := fence_refs m f + 1]> (frefs m)) (signaled m).

Lemma fenced_acc s f m x : x <> s ->
  so (fenced s f m) x = so m x /\ eo (fenced s f m) x = eo m x /\ fence_of (fenced s f m) x = fence_of m x.
Proof. intros Hx. apply acc_ext. simpl. by rewrite lookup_insert_ne. Qed.

Lemma fenced_self s f m :
  so (fenced s f m) s = so m s /\ eo (fenced s f m) s = eo m s /\ fence_of (fenced s f m) s = Some f.
Proof. unfold so, eo, fence_of. simpl. by rewrite lookup_insert_eq. Qed.

Lemma fenced_wf held s f m :
  wf held m -> s ∈ olist m -> fence_of m s = None -> wf held (fenced s f m).
Proof.
  intros Hwf Hin Hnf. destruct (fenced_self s f m) as (Es & Ee & Ef).
  assert (forall x, so (fenced s f m) x = so m x /\ eo (fenced s f m) x = eo m x) as Hacc.
  { intros x. destruct (decide (x = s)) as [->|Hx]; [done|]. by destruct (fenced_acc s f m x Hx) as (-> & -> & _). }
  split; try apply Hwf.
  - intros x Hx. simpl. destruct (decide (x = s)) as [->|]; [rewrite lookup_insert_eq; eauto|].
    rewrite lookup_insert_ne by done. by apply (sw_in _ _ _ Hwf).
  - intros x Hx. destruct (Hacc x) as [-> ->]. by apply (sw_range _ _ _ Hwf).
  - eapply StronglySorted_ext; [|apply (sw_sorted _ _ _ Hwf)]. intros x y _ _.
    destruct (Hacc x) as [_ ->]. by destruct (Hacc y) as [-> _].
  - simpl. rewrite length_alter. apply Hwf.
  - intros i q. simpl flist. intros Hq. destruct (decide (i = fence_queue fence_context f)) as [->|Hi].
    + rewrite list_lookup_alter_eq in Hq. destruct (flist m !! _) as [q0|] eqn:E; [|done]. simpl in Hq. injection Hq as <-.
      destruct (sw_queue _ _ _ Hwf _ _ E) as [Hn Hm].
      assert (s ∉ q0) as Hs by (rewrite Hm, Hnf; intros (_ & g & [=] & _)).
      split; [apply NoDup_app; split_and!; [done|set_solver|apply NoDup_singleton]|].
      intros x. rewrite elem_of_app, list_elem_of_singleton, Hm.
      destruct (decide (x = s)) as [->|Hx]; [rewrite Ef; split; [eauto 6|auto]|].
      destruct (fenced_acc s f m x Hx) as (_ & _ & ->). simpl olist. tauto.
    + rewrite list_lookup_alter_ne in Hq by done. destruct (sw_queue _ _ _ Hwf _ _ Hq) as [Hn Hm]. split; [done|].
      intros x. rewrite Hm. destruct (decide (x = s)) as [->|Hx].
      * rewrite Hnf, Ef. split; [intros (_ & g & [=] & _)|]. intros (_ & g & [= <-] & Eg). congruence.
      * by destruct (fenced_acc s f m x Hx) as (_ & _ & ->).
  - intros x Hx. simpl in Hx. apply (sw_fresh _ _ _ Hwf). destruct (decide (x = s)) as [->|]; [by apply (sw_in _ _ _ Hwf)|].
    by rewrite lookup_insert_ne in Hx.
  - intros g. simpl olist. assert (sumZ (counts (fenced s f m) g) (olist m)
      = sumZ (counts m g) (olist m) + if decide (f = g) then 1 else 0) as ->.
    { destruct (list_split_at s (olist m) Hin) as (pre & post & Eo & Hp). pose proof (sw_nodup _ _ _ Hwf) as Hn.
      rewrite Eo in Hn |- *. apply NoDup_app in Hn as (_ & _ & Hn). apply NoDup_cons in Hn as [Hn _].
      rewrite !sumZ_app, !sumZ_cons.
      rewrite !(sumZ_ext (counts (fenced s f m) g) (counts m g)).
      - unfold counts at 2 5. rewrite Ef, Hnf. rewrite (decide_False (P := None = Some g)) by done.
        destruct (decide (f = g)) as [->|Hfg]; [rewrite decide_True by done|rewrite decide_False by congruence]; lia.
      - intros x Hx. unfold counts. destruct (fenced_acc s f m x) as (_ & _ & ->); [congruence|done].
      - intros x Hx. unfold counts. destruct (fenced_acc s f m x) as (_ & _ & ->); [congruence|done]. }
    pose proof (sw_refs _ _ _ Hwf g) as Hr. unfold fence_refs at 1. cbn [frefs fenced].
    destruct (decide (f = g)) as [->|Hfg].
    + rewrite lookup_insert_eq. simpl. lia.
    + rewrite lookup_insert_ne by done. fold (fence_refs m g). lia.
Qed.

(** A live suballocation is either kept until its fence signals or removed. *)
Lemma suballoc_free_ok held m s fence :
  wf held m -> s ∈ olist m -> fence_of m s = None ->
  exists m', drm_suballoc_free fence_context (Some s) fence m = Some (tt, m') /\ wf held m' /\
    match fence with
    | Some f => if bool_decide (f ∈ signaled m) then m' = removed s m else m' = fenced s f m
    | None => m' = removed s m
    end.
Proof.
  intros Hwf Hin Hnf. destruct (sw_in _ _ _ Hwf s Hin) as [sa HS].
  unfold drm_suballoc_free. rewrite (st_bind_run _ _ m sa m) by (unfold get_sa; by rewrite HS).
  pose proof (remove_locked_run m s ltac:(eauto) Hin) as Er.
  assert (wf held (removed s m)) as Hwr by (by apply removed_wf).
  destruct fence as [f|].
  - rewrite (st_bind_run _ _ m (negb (bool_decide (f ∈ signaled m))) m) by done.
    destruct (bool_decide (f ∈ signaled m)); cbn [negb]; [by exists (removed s m)|].
    exists (fenced s f m). split; [|split; [by apply fenced_wf|done]].
    unfold dma_fence_get, fence_ref_add, st_bind, st_mod, put_sa. simpl. rewrite HS.
    unfold fenced, so, eo. rewrite HS. done.
  - rewrite (st_bind_run _ _ m false m) by done. by exists (removed s m).
Qed.
End New.
