(* ===== verification/SuballocProps.v ===== *)
(** * The range suballocator: what it guarantees *)

From S2P Require Import Prelude Suballoc SuballocInv SuballocNew.
From stdpp Require Import gmap list sorting.
From Stdlib Require Import ZArith Lia.

Local Open Scope Z_scope.
Local Open Scope st_scope.

(** ** Set-up and clean-up *)

Section Manager.
Variable fence_context : fid -> Z.

Lemma manager_init_wf size align m :
  0 <= size < 2 ^ 63 -> 0 <= align <= 2 ^ 62 -> sas m = ∅ -> frefs m = ∅ ->
  sa_wf fence_context [] (drm_suballoc_manager_init size align m).
Proof.
  intros Hs Ha Hsas Hfr. unfold drm_suballoc_manager_init.
  split; cbn [sas next_sa hole olist flist sm_size sm_align frefs signaled]; rewrite ?Hsas; try done.
  - set (a := if align =? 0 then 1 else align). assert (0 < a <= 2 ^ 62) as Hb.
    { unfold a. destruct (Z.eqb_spec align 0); lia. }
    destruct (Z.eqb_spec (Z.land a (a - 1)) 0) as [E|E]; cbn [negb].
    + exists (Z.log2 a). split.
      * split; [apply Z.log2_nonneg|]. rewrite <- (Z.log2_pow2 62) by lia. apply Z.log2_le_mono. lia.
      * apply is_power_of_2_inv; [|lia]. unfold is_power_of_2. rewrite E. destruct (Z.eqb_spec a 0); [lia|done].
    + assert (0 <= Z.log2_up a <= 62) as Hl.
      { split; [apply Z.log2_up_nonneg|]. apply Z.log2_up_le_pow2; lia. }
      exists (Z.log2_up a). split; [done|]. apply wrap_small. split; [apply Z.pow_nonneg; lia|].
      apply Z.pow_lt_mono_r; lia.
  - constructor.
  - set_solver.
  - set_solver.
  - constructor.
  - intros i q Hq. apply lookup_replicate in Hq as [-> _]. split; [constructor|]. set_solver.
  - intros s. rewrite lookup_empty. by intros [? [=]].
  - intros f. unfold fence_refs. cbn [frefs]. rewrite Hfr, lookup_empty. done.
Qed.

Lemma remove_all_ok held l m :
  sa_wf fence_context held m -> NoDup l -> (forall s, s ∈ l -> s ∈ olist m) ->
  exists m', remove_all l m = Some (tt, m') /\ sa_wf fence_context held m' /\
    (forall s, s ∈ olist m' <-> s ∈ olist m /\ s ∉ l).
Proof.
  revert m. induction l as [|s l IH]; intros m Hwf Hnd Hl.
  { exists m. split_and!; [done|done|]. set_solver. }
  apply NoDup_cons in Hnd as [Hs Hnd]. assert (s ∈ olist m) as Hin by (apply Hl; set_solver).
  cbn [remove_all].
  rewrite (st_bind_run _ _ _ _ _ (remove_locked_run m s (sw_in _ _ _ Hwf s Hin) Hin)).
  assert (forall x, x ∈ olist (removed s m) <-> x <> s /\ x ∈ olist m) as Hol
    by (intros x; simpl; apply elem_of_list_del).
  destruct (IH (removed s m)) as (m' & E & Hw & Ho); [by apply removed_wf|done| |].
  { intros x Hx. apply Hol. split; [congruence|]. apply Hl. set_solver. }
  exists m'. split_and!; [done|done|]. intros x. rewrite Ho, Hol. set_solver.
Qed.

Lemma manager_fini_ok held m :
  sa_wf fence_context held m ->
  exists m', drm_suballoc_manager_fini m = Some (tt, m') /\
    (sm_size m = 0 /\ m' = m \/
     sm_size m' = 0 /\ olist m' = [] /\ forall f, fence_refs m' f = extra_refs held f).
Proof.
  intros Hwf. unfold drm_suballoc_manager_fini. rewrite (st_bind_run _ _ m (sm_size m) m) by done.
  destruct (Z.eqb_spec (sm_size m) 0) as [E0|_]; [exists m; auto|].
  rewrite (st_bind_run _ _ m (olist m) m) by done.
  assert (exists m1, (match olist m with [] => st_ret tt | _ => st_mod (set_hole None) ;; drm_suballoc_try_free end) m
    = Some (tt, m1) /\ sa_wf fence_context held m1) as (m1 & E1 & Hw1).
  { destruct (olist m) as [|z l] eqn:El; [by exists m|].
    assert (sa_wf fence_context held (set_hole None m)) as Hw0 by (destruct Hwf; by constructor).
    rewrite (st_bind_run _ _ m tt (set_hole None m)) by done.
    destruct (try_free_ok _ _ _ Hw0) as (m1 & E1 & Hw1 & _). eauto. }
  rewrite (st_bind_run _ _ _ _ _ E1), (st_bind_run _ _ m1 (olist m1) m1) by done.
  destruct (remove_all_ok held (olist m1) m1 Hw1 (sw_nodup _ _ _ Hw1) ltac:(auto)) as (m2 & E2 & Hw2 & Ho2).
  rewrite (st_bind_run _ _ _ _ _ E2). exists (set_sm_size 0 m2). split; [done|]. right.
  assert (olist m2 = []) as En.
  { destruct (olist m2) as [|x l] eqn:El; [done|]. destruct (proj1 (Ho2 x) ltac:(set_solver)). done. }
  split_and!; [done|done|]. intros f. change (fence_refs (set_sm_size 0 m2) f) with (fence_refs m2 f).
  rewrite (sw_refs _ _ _ Hw2), En. done.
Qed.

(** ** Reachable states *)

Definition signal (f : fid) (m : drm_suballoc_manager) : drm_suballoc_manager :=
  mkMgr (sas m) (next_sa m) (hole m) (olist m) (flist m) (sm_size m) (sm_align m) (frefs m) ({[f]} ∪ signaled m).

Inductive sa_step : drm_suballoc_manager -> drm_suballoc_manager -> Prop :=
| sa_new waits size intr align m r m' :
    0 <= size -> 0 <= align -> (align = 0 \/ is_power_of_2 align = true) ->
    (forall w, w ∈ waits -> env_ok fence_context (next_sa m) (w_env w) /\ - 2 ^ 31 <= w_t w) ->
    (exists w, w ∈ waits /\ w_t w = 0) ->
    drm_suballoc_new true waits size intr align m = Some (r, m') -> sa_step m m'
| sa_free s fence m m' :
    s ∈ olist m -> fence_of m s = None ->
    drm_suballoc_free fence_context (Some s) fence m = Some (tt, m') -> sa_step m m'
| sa_signal f m : sa_step m (signal f m).

Inductive sa_reach (size align : Z) : drm_suballoc_manager -> Prop :=
| sa_reach_init m : sas m = ∅ -> frefs m = ∅ -> sa_reach size align (drm_suballoc_manager_init size align m)
| sa_reach_step m m' : sa_reach size align m -> sa_step m m' -> sa_reach size align m'.

Lemma signal_wf held f m : sa_wf fence_context held m -> sa_wf fence_context held (signal f m).
Proof. intros []. by constructor. Qed.

Lemma signal_env_ok f s : env_ok fence_context s (signal f).
Proof. intros held m Hwf Hp. split_and!; [by apply signal_wf|done|done|done]. Qed.

Lemma id_env_ok s : env_ok fence_context s (fun m => m).
Proof. intros held m Hwf Hp. done. Qed.

Lemma sa_reach_wf size align m :
  0 <= size < 2 ^ 63 -> 0 <= align <= 2 ^ 62 -> sa_reach size align m -> sa_wf fence_context [] m.
Proof.
  intros Hs Ha. induction 1 as [m Hm Hf|m m' _ IH Hst]; [by apply manager_init_wf|].
  destruct Hst as [waits sz intr al m r m' H1 H2 H3 H4 H5 E|s fence m m' Hin Hn E|f m].
  - destruct (suballoc_new_ok _ [] m waits sz intr al IH H1 H2 H3 H4 H5) as (r0 & tr & m0 & E0 & Hw & _). congruence.
  - destruct (suballoc_free_ok _ [] m s fence IH Hin Hn) as (m0 & E0 & Hw & _). congruence.
  - by apply signal_wf.
Qed.

Lemma wf_disjoint held m a b :
  sa_wf fence_context held m -> a ∈ olist m -> b ∈ olist m -> a <> b -> eo m a <= so m b \/ eo m b <= so m a.
Proof.
  intros Hwf Ha Hb Hne. pose proof (sw_sorted _ _ _ Hwf) as Hs. clear Hwf.
  induction Hs as [|x l Hs IH Hf]; [set_solver|]. rewrite Forall_forall in Hf.
  apply elem_of_cons in Ha as [->|Ha], Hb as [->|Hb]; auto. done.
Qed.
End Manager.

(** ** A concrete manager of 100 bytes, 4-byte aligned *)

Definition ctx_id (f : fid) : Z := Z.pos f.
Definition blank_sm : drm_suballoc_manager := mkMgr ∅ 1 None [] [] 0 0 ∅ ∅.
Definition sm0 : drm_suballoc_manager := Eval vm_compute in drm_suballoc_manager_init 100 4 blank_sm.
Definition sm_run {A} (r : option (A * drm_suballoc_manager)) : drm_suballoc_manager :=
  match r with Some (_, m) => m | None => blank_sm end.
Definition times_out : wait_outcome := mkWait 0 (fun m => m) 0.
Definition fence7_fires : wait_outcome := mkWait 50 (signal 7) 1.
Definition sm1 : drm_suballoc_manager :=
  Eval vm_compute in sm_run (drm_suballoc_new true [times_out] 30 true 0 sm0).
Definition sm2 : drm_suballoc_manager :=
  Eval vm_compute in sm_run (drm_suballoc_new true [times_out] 41 true 0 sm1).
(** The first suballocation is freed behind fence 7. *)
Definition sm3 : drm_suballoc_manager :=
  Eval vm_compute in sm_run (drm_suballoc_free ctx_id (Some 1%positive) (Some 7%positive) sm2).

Lemma times_out_ok n w : w ∈ [times_out] -> env_ok ctx_id n (w_env w) /\ - 2 ^ 31 <= w_t w.
Proof. intros ->%list_elem_of_singleton. split; [apply id_env_ok|done]. Qed.

Lemma sm_new_step m size m' :
  0 <= size -> sm_run (drm_suballoc_new true [times_out] size true 0 m) = m' ->
  (exists r, drm_suballoc_new true [times_out] size true 0 m = Some (r, sm_run (drm_suballoc_new true [times_out] size true 0 m))) ->
  sa_step ctx_id m m'.
Proof.
  intros Hs <- [r E]. eapply (sa_new _ [times_out] size true 0 m r); auto; [lia| |].
  - apply times_out_ok.
  - exists times_out. split; [set_solver|done].
Qed.

Lemma sm3_reach : sa_reach ctx_id 100 4 sm3.
Proof.
  apply (sa_reach_step _ _ _ sm2); [apply (sa_reach_step _ _ _ sm1); [apply (sa_reach_step _ _ _ sm0)|]|].
  - replace sm0 with (drm_suballoc_manager_init 100 4 blank_sm) by (vm_compute; reflexivity).
    by apply sa_reach_init.
  - apply (sm_new_step sm0 30); [lia|vm_compute; reflexivity|eexists; vm_compute; reflexivity].
  - apply (sm_new_step sm1 41); [lia|vm_compute; reflexivity|eexists; vm_compute; reflexivity].
  - apply (sa_free _ 1%positive (Some 7%positive)); [set_solver|reflexivity|vm_compute; reflexivity].
Qed.

Lemma sm3_wf : sa_wf ctx_id [] sm3.
Proof. apply (sa_reach_wf ctx_id 100 4); [lia|lia|apply sm3_reach]. Qed.

Lemma sm3_linked : 1%positive ∈ olist sm3 /\ 2%positive ∈ olist sm3.
Proof. split; simpl; set_solver. Qed.

(** ** Properties *)

(** C36: in every state reached from [drm_suballoc_manager_init] by allocating,
    freeing and fences signaling, the linked suballocations lie inside the
    buffer and do not overlap, and the manager holds exactly one reference on a
    fence for each suballocation waiting for it. *)
Theorem suballoc_reachable_safe fence_context size align m :
  0 <= size < 2 ^ 63 -> 0 <= align <= 2 ^ 62 -> sa_reach fence_context size align m ->
  (forall s, s ∈ olist m -> 0 <= so m s /\ so m s < eo m s /\ eo m s <= sm_size m) /\
  (forall a b, a ∈ olist m -> b ∈ olist m -> a <> b -> eo m a <= so m b \/ eo m b <= so m a) /\
  (forall f, fence_refs m f = sumZ (counts m f) (olist m)).
Proof.
  intros Hs Ha Hr. pose proof (sa_reach_wf _ _ _ _ Hs Ha Hr) as Hwf. split_and!.
  - apply (sw_range _ _ _ Hwf).
  - intros a b. by apply (wf_disjoint _ _ _ _ _ Hwf).
  - intros f. rewrite (sw_refs _ _ _ Hwf). apply Z.add_0_r.
Qed.

Lemma suballoc_reachable_safe_witness :
  eo sm3 1 <= so sm3 2 \/ eo sm3 2 <= so sm3 1.
Proof.
  apply (suballoc_reachable_safe ctx_id 100 4 sm3);
    [lia|lia|apply sm3_reach|apply sm3_linked|apply sm3_linked|discriminate].
Defined.

(** C37: [drm_suballoc_new] for an alignment of zero or a power of two, when one of its
    waits may time out, always returns. It refuses bad arguments with -EINVAL and returns
    -ENOMEM without its struct, both leaving the manager alone; otherwise it returns a
    suballocation of exactly the size asked for (which the code does not round up to the
    manager's alignment, whatever its comment says), aligned and inside the buffer, or an
    error with its struct freed again. Every wait it makes is bounded by at least 100 ms,
    and whatever the other threads do meanwhile, the invariant holds. *)
Theorem drm_suballoc_new_correct fence_context held m kmalloc_ok waits size intr align :
  sa_wf fence_context held m -> 0 <= size -> 0 <= align ->
  (align = 0 \/ is_power_of_2 align = true) ->
  (forall w, w ∈ waits -> env_ok fence_context (next_sa m) (w_env w) /\ - 2 ^ 31 <= w_t w) ->
  (exists w, w ∈ waits /\ w_t w = 0) ->
  exists r trace m', drm_suballoc_new kmalloc_ok waits size intr align m = Some ((r, trace), m') /\
    sa_wf fence_context held m' /\
    if (sm_align m <? align) || (sm_size m <? size) || (size =? 0)
    then r = ERR_PTR (- EINVAL) /\ trace = [] /\ m' = m
    else if kmalloc_ok then new_post m m' size (if align =? 0 then sm_align m else align) r trace
    else r = ERR_PTR (- ENOMEM) /\ trace = [] /\ m' = m.
Proof.
  intros Hwf Hs Ha Hp Henv Hto. destruct kmalloc_ok; [by apply suballoc_new_ok|].
  unfold drm_suballoc_new, st_bind, st_get, st_ret. rewrite <- orb_assoc.
  destruct (sm_align m <? align); [by eexists _, [], m|]. destruct (_ || _); by eexists _, [], m.
Qed.

Lemma drm_suballoc_new_correct_witness :
  exists r trace m', drm_suballoc_new true [fence7_fires; times_out] 30 false 0 sm3 = Some ((r, trace), m') /\
    sa_wf ctx_id [] m' /\ new_post sm3 m' 30 4 r trace.
Proof.
  destruct (drm_suballoc_new_correct ctx_id [] sm3 true [fence7_fires; times_out] 30 false 0)
    as (r & trace & m' & E & Hw & H).
  - apply sm3_wf.
  - lia.
  - lia.
  - left. reflexivity.
  - intros w Hw. apply elem_of_cons in Hw as [->|Hw]; [split; [apply signal_env_ok|vm_compute; discriminate]|].
    apply list_elem_of_singleton in Hw as ->. split; [apply id_env_ok|vm_compute; discriminate].
  - exists times_out. split; [set_solver|reflexivity].
  - exists r, trace, m'. split; [exact E|]. split; [exact Hw|exact H].
Defined.

(** One pass of [drm_suballoc_new] over the holes terminates within
    [2 * n + 2] rounds for [n] linked suballocations, and takes away only
    suballocations whose fence has signaled: all others keep their place. *)
Theorem drm_suballoc_pass_keeps_live fence_context held m s size k fences tries :
  sa_wf fence_context held m -> pending m s -> 0 < size <= sm_size m -> 0 <= k <= 62 ->
  exists r m', hole_loop (2 * length (olist m) + 2) s size (2 ^ k) fences tries m = Some (r, m') /\
    sa_wf fence_context held m' /\
    forall x, x ∈ olist m -> (forall f, fence_of m x = Some f -> f ∉ signaled m) ->
      sas m' !! x = sas m !! x /\ x ∈ olist m'.
Proof.
  intros Hwf Hp Hs Hk.
  destruct (hole_loop_ok fence_context (2 * length (olist m) + 2) held m s size k fences tries Hwf Hp Hs Hk)
    as (r & m' & E & Hw & Hr); [unfold hole_measure; destruct (bool_decide _); lia|].
  exists r, m'. split_and!; [done|done|]. intros x Hx Hlive.
  assert (forall m1, shrinks m m1 -> sas m1 !! x = sas m !! x /\ x ∈ olist m1) as Hkeep.
  { intros m1 Hsh. assert (sas m1 !! x = sas m !! x) as Ex.
    { destruct (sh_sas _ _ Hsh x) as [?|(_ & _ & f & Hf & Hsig)]; [done|]. by destruct (Hlive f Hf). }
    split; [done|]. apply (sh_olist _ _ Hsh). rewrite Ex. split; [done|]. by apply (sw_in _ _ _ Hwf). }
  destruct r as [fs|].
  - apply Hkeep, Hr.
  - destruct Hr as (m1 & start & Hsh & Hpl). destruct (Hkeep m1 Hsh) as [E1 Hin1].
    rewrite (pl_sas _ _ _ _ _ _ Hpl), lookup_insert_ne.
    + split; [done|]. apply (pl_olist _ _ _ _ _ _ Hpl). auto.
    + intros <-. by apply (proj2 Hp).
Qed.

Lemma drm_suballoc_pass_keeps_live_witness :
  let m := set_sas (<[3%positive := mkSa 0 0 None]> (sas sm3)) (set_next_sa 4 sm3) in
  exists r m', hole_loop 6 3 30 4 [] [] m = Some (r, m') /\ sa_wf ctx_id [] m' /\
    (sas m' !! 2%positive = sas m !! 2%positive /\ 2%positive ∈ olist m').
Proof.
  intros m. destruct (wf_kmalloc ctx_id [] sm3 sm3_wf) as [Hw Hp].
  destruct (drm_suballoc_pass_keeps_live ctx_id [] m 3 30 2 [] []) as (r & m' & E & Hw' & H);
    [exact Hw|exact Hp|vm_compute; split; [reflexivity|discriminate]|lia|].
  exists r, m'. split; [exact E|]. split; [exact Hw'|]. apply H; [apply (proj2 sm3_linked)|].
  intros f Hf. vm_compute in Hf. discriminate.
Defined.

(** [drm_suballoc_free] of a live suballocation behind a fence that has not
    signaled keeps its range reserved, queued under the fence's context with one
    more reference on the fence; without such a fence the range is free at once
    and the struct is gone. *)
Theorem drm_suballoc_free_correct fence_context held m s fence :
  sa_wf fence_context held m -> s ∈ olist m -> fence_of m s = None ->
  exists m', drm_suballoc_free fence_context (Some s) fence m = Some (tt, m') /\ sa_wf fence_context held m' /\
    match fence with
    | Some f =>
        if bool_decide (f ∈ signaled m) then sas m' = delete s (sas m) /\ s ∉ olist m'
        else olist m' = olist m /\ so m' s = so m s /\ eo m' s = eo m s /\ fence_of m' s = Some f /\
             fence_refs m' f = fence_refs m f + 1 /\
             exists q, flist m' !! fence_queue fence_context f = Some (q ++ [s])
    | None => sas m' = delete s (sas m) /\ s ∉ olist m'
    end.
Proof.
  intros Hwf Hin Hn. destruct (suballoc_free_ok fence_context held m s fence Hwf Hin Hn) as (m' & E & Hw & Hm).
  exists m'. split_and!; [done|done|].
  assert (m' = removed s m -> sas m' = delete s (sas m) /\ s ∉ olist m') as Hrem.
  { intros ->. split; [done|]. simpl. rewrite elem_of_list_del. tauto. }
  destruct fence as [f|]; [|auto]. destruct (bool_decide (f ∈ signaled m)); [auto|]. subst m'.
  destruct (fenced_self fence_context s f m) as (E1 & E2 & E3). split_and!; try done.
  - unfold fence_refs at 1. simpl. by rewrite lookup_insert_eq.
  - simpl. rewrite list_lookup_alter_eq. destruct (flist m !! fence_queue fence_context f) as [q|] eqn:Eq; [by exists q|].
    apply lookup_ge_None in Eq. pose proof (fence_queue_lt fence_context f). rewrite (sw_queues _ _ _ Hwf) in Eq. lia.
Qed.

Lemma drm_suballoc_free_correct_witness :
  exists m', drm_suballoc_free ctx_id (Some 2%positive) (Some 9%positive) sm3 = Some (tt, m') /\ eo m' 2 = 73.
Proof.
  destruct (drm_suballoc_free_correct ctx_id [] sm3 2 (Some 9%positive)) as (m' & E & _ & H);
    [apply sm3_wf|apply sm3_linked|reflexivity|].
  exists m'. split; [exact E|]. change (bool_decide (9%positive ∈ signaled sm3)) with false in H.
  destruct H as (_ & _ & H & _). rewrite H. reflexivity.
Defined.

(** [drm_suballoc_manager_fini] empties the manager: nothing stays linked
    and no fence reference is left behind. *)
Theorem drm_suballoc_manager_fini_correct fence_context m :
  sa_wf fence_context [] m -> sm_size m <> 0 ->
  exists m', drm_suballoc_manager_fini m = Some (tt, m') /\ sm_size m' = 0 /\ olist m' = [] /\
    forall f, fence_refs m' f = 0.
Proof.
  intros Hwf Hs. destruct (manager_fini_ok fence_context [] m Hwf) as (m' & E & [[? _]|(H1 & H2 & H3)]); [done|].
  exists m'. split_and!; [done|done|done|]. intros f. by rewrite H3.
Qed.

Lemma drm_suballoc_manager_fini_correct_witness :
  exists m', drm_suballoc_manager_fini sm3 = Some (tt, m') /\ sm_size m' = 0 /\ olist m' = [] /\
    forall f, fence_refs m' f = 0.
Proof. apply (drm_suballoc_manager_fini_correct ctx_id sm3); [apply sm3_wf|discriminate]. Defined.

(** The size of a suballocation is not rounded up to the manager's
    alignment, although the comment on [drm_suballoc_new] says so: a request for
    30 bytes from a manager aligned to 4 is granted exactly 30. *)
Theorem drm_suballoc_new_not_rounded :
  exists m', drm_suballoc_new true [] 30 true 0 sm0 = Some ((PTR 1%positive, []), m') /\
    option_map drm_suballoc_size (sas m' !! 1%positive) = Some 30 /\ sm_align sm0 = 4.
Proof. eexists. split; [vm_compute; reflexivity|]. split; reflexivity. Qed.
