(* ===== verification/Rdma.v ===== *)
(** * RDMA pin accounting: data and operations

    The quota on VRAM pinned for RDMA peers and its helpers: a translation of
    src/src-tree/amd/amdgpu/amdgpu_kfd_rdma_v155.c, of the pin and unpin
    functions of amdgpu_amdkfd_gpuvm.c and of amdgpu_bo_pin/amdgpu_bo_unpin of
    amdgpu_object.c.

    Buffer objects are keys of [bos]; the counters of one device are the fields
    of [kfd_dev]. What other code decides is an argument: the result of
    [ttm_bo_validate], of [amdgpu_bo_reserve] and of the fence waits, the
    allocation of an orphan entry, and the conversion of milliseconds to
    jiffies. *)

From S2P Require Import Prelude.
From stdpp Require Import gmap list.
From Stdlib Require Import ZArith Lia.

Local Open Scope Z_scope.
Local Open Scope st_scope.

Definition AMDGPU_GEM_DOMAIN_CPU : Z := 1.
Definition AMDGPU_GEM_DOMAIN_GTT : Z := 2.
Definition AMDGPU_GEM_DOMAIN_VRAM : Z := 4.
Definition AMDGPU_GEM_DOMAIN_GDS : Z := 8.
Definition AMDGPU_GEM_DOMAIN_GWS : Z := 16.
Definition AMDGPU_GEM_DOMAIN_OA : Z := 32.
Definition AMDGPU_GEM_DOMAIN_DOORBELL : Z := 64.
Definition AMDGPU_GEM_DOMAIN_DGMA : Z := 1024.
Definition AMDGPU_GEM_DOMAIN_DGMA_IMPORT : Z := 2048.
Definition AMDGPU_GEM_CREATE_CPU_ACCESS_REQUIRED : Z := 1.
Definition AMDGPU_GEM_CREATE_NO_CPU_ACCESS : Z := 2.
Definition AMDGPU_GEM_CREATE_VRAM_CONTIGUOUS : Z := 32.
Definition TTM_PL_SYSTEM : Z := 0.
Definition TTM_PL_TT : Z := 1.
Definition TTM_PL_VRAM : Z := 2.
Definition TTM_PL_PRIV : Z := 3.
Definition TTM_PL_FLAG_CONTIGUOUS : Z := 1.

Definition bit (flags b : Z) : bool := negb (Z.land flags b =? 0).

Definition amdgpu_mem_type_to_domain (mem_type : Z) : Z :=
  if mem_type =? TTM_PL_VRAM then AMDGPU_GEM_DOMAIN_VRAM
  else if mem_type =? TTM_PL_TT then AMDGPU_GEM_DOMAIN_GTT
  else if mem_type =? TTM_PL_SYSTEM then AMDGPU_GEM_DOMAIN_CPU
  else if mem_type =? TTM_PL_PRIV + 0 then AMDGPU_GEM_DOMAIN_GDS
  else if mem_type =? TTM_PL_PRIV + 1 then AMDGPU_GEM_DOMAIN_GWS
  else if mem_type =? TTM_PL_PRIV + 2 then AMDGPU_GEM_DOMAIN_OA
  else if mem_type =? TTM_PL_PRIV + 4 then AMDGPU_GEM_DOMAIN_DOORBELL
  else if mem_type =? TTM_PL_PRIV + 7 then AMDGPU_GEM_DOMAIN_DGMA
  else if mem_type =? TTM_PL_PRIV + 8 then AMDGPU_GEM_DOMAIN_DGMA_IMPORT
  else 0.

(** The quota fields of struct kgd_mem. *)
Record kgd_mem := mkKgd {
  rdma_quota_pin_count : Z;
  rdma_quota_bytes : Z;
  rdma_quota_charged : bool
}.

(** What the accounting reads of struct amdgpu_bo and struct ttm_buffer_object. *)
Record amdgpu_bo := mkBo {
  bo_size : Z;
  bo_visible_size : Z;
  bo_flags : Z;
  preferred_domains : Z;
  is_usermm : bool;
  is_imported : bool;
  pin_count : Z;
  mem_type : Z;
  res_placement : Z;
  kfd_bo : option kgd_mem;
  bo_refs : Z
}.

Definition set_pin_count (n : Z) (b : amdgpu_bo) : amdgpu_bo :=
  mkBo (bo_size b) (bo_visible_size b) (bo_flags b) (preferred_domains b) (is_usermm b) (is_imported b)
    n (mem_type b) (res_placement b) (kfd_bo b) (bo_refs b).
Definition set_resource (mt pl : Z) (b : amdgpu_bo) : amdgpu_bo :=
  mkBo (bo_size b) (bo_visible_size b) (bo_flags b) (preferred_domains b) (is_usermm b) (is_imported b)
    (pin_count b) mt pl (kfd_bo b) (bo_refs b).
Definition set_flags (f : Z) (b : amdgpu_bo) : amdgpu_bo :=
  mkBo (bo_size b) (bo_visible_size b) f (preferred_domains b) (is_usermm b) (is_imported b)
    (pin_count b) (mem_type b) (res_placement b) (kfd_bo b) (bo_refs b).
Definition set_kfd_bo (k : option kgd_mem) (b : amdgpu_bo) : amdgpu_bo :=
  mkBo (bo_size b) (bo_visible_size b) (bo_flags b) (preferred_domains b) (is_usermm b) (is_imported b)
    (pin_count b) (mem_type b) (res_placement b) k (bo_refs b).
Definition set_bo_refs (n : Z) (b : amdgpu_bo) : amdgpu_bo :=
  mkBo (bo_size b) (bo_visible_size b) (bo_flags b) (preferred_domains b) (is_usermm b) (is_imported b)
    (pin_count b) (mem_type b) (res_placement b) (kfd_bo b) n.

(** struct kfd_orphan_pin *)
Record kfd_orphan_pin := mkOrphan {
  op_bo : positive;
  queued_at_jiffies : Z;
  op_bytes : Z;
  owner_pid : Z
}.

(** The accounting fields of struct amdgpu_kfd_dev and of struct amdgpu_device. *)
Record kfd_dev := mkDev {
  vram_pinned : Z;
  rdma_pinned_bytes : Z;
  rdma_pin_reject_quota : Z;
  rdma_pin_reject_killsw : Z;
  rdma_pin_accounting_underflow : Z;
  rdma_pin_accounting_clamp : Z;
  rdma_pin_warn_latched : Z;
  rdma_pin_critical_latched : Z;
  rdma_pin_watermark_peak : Z;
  orphan_list : list kfd_orphan_pin;
  rdma_pin_orphans_queued : Z;
  rdma_pin_orphans_reaped : Z;
  free_wait_pinned_count : Z;
  free_wait_pinned_timeout : Z;
  unpin_drain_timeouts : Z;
  reaper_started : bool;
  reaper_scheduled : option Z;
  vram_pin_size : Z;
  visible_pin_size : Z;
  gart_pin_size : Z
}.

(** The module parameters. *)
Record pin_params := mkParams {
  dmabuf_pin_max_mb : Z;
  dmabuf_pin_warn_mb : Z;
  dmabuf_pin_critical_mb : Z;
  dmabuf_reject_new_pins : Z;
  pin_orphan_timeout_ms : Z;
  pin_reaper_interval_ms : Z;
  kfd_free_wait_ms : Z;
  kfd_free_on_pinned : Z;
  kfd_unpin_drain_ms : Z
}.

Record rdma_state := mkRdma { dev : kfd_dev; bos : gmap positive amdgpu_bo }.
Abbreviation RM := (stM rdma_state).

Definition upd_dev (f : kfd_dev -> kfd_dev) : RM unit :=
  st_mod (fun s => mkRdma (f (dev s)) (bos s)).
Definition get_bo (b : positive) : RM amdgpu_bo :=
  fun s => match bos s !! b with Some B => Some (B, s) | None => None end.
Definition upd_bo (b : positive) (f : amdgpu_bo -> amdgpu_bo) : RM unit :=
  fun s => match bos s !! b with
           | Some B => Some (tt, mkRdma (dev s) (<[b := f B]> (bos s)))
           | None => None
           end.

Definition set_vram_pinned (x : Z) (d : kfd_dev) : kfd_dev :=
  mkDev x (rdma_pinned_bytes d) (rdma_pin_reject_quota d) (rdma_pin_reject_killsw d)
    (rdma_pin_accounting_underflow d) (rdma_pin_accounting_clamp d) (rdma_pin_warn_latched d)
    (rdma_pin_critical_latched d) (rdma_pin_watermark_peak d) (orphan_list d) (rdma_pin_orphans_queued d)
    (rdma_pin_orphans_reaped d) (free_wait_pinned_count d) (free_wait_pinned_timeout d)
    (unpin_drain_timeouts d) (reaper_started d) (reaper_scheduled d) (vram_pin_size d) (visible_pin_size d)
    (gart_pin_size d).
Definition set_pinned_bytes (x : Z) (d : kfd_dev) : kfd_dev :=
  mkDev (vram_pinned d) x (rdma_pin_reject_quota d) (rdma_pin_reject_killsw d)
    (rdma_pin_accounting_underflow d) (rdma_pin_accounting_clamp d) (rdma_pin_warn_latched d)
    (rdma_pin_critical_latched d) (rdma_pin_watermark_peak d) (orphan_list d) (rdma_pin_orphans_queued d)
    (rdma_pin_orphans_reaped d) (free_wait_pinned_count d) (free_wait_pinned_timeout d)
    (unpin_drain_timeouts d) (reaper_started d) (reaper_scheduled d) (vram_pin_size d) (visible_pin_size d)
    (gart_pin_size d).
Definition set_rejects (quota killsw : Z) (d : kfd_dev) : kfd_dev :=
  mkDev (vram_pinned d) (rdma_pinned_bytes d) quota killsw
    (rdma_pin_accounting_underflow d) (rdma_pin_accounting_clamp d) (rdma_pin_warn_latched d)
    (rdma_pin_critical_latched d) (rdma_pin_watermark_peak d) (orphan_list d) (rdma_pin_orphans_queued d)
    (rdma_pin_orphans_reaped d) (free_wait_pinned_count d) (free_wait_pinned_timeout d)
    (unpin_drain_timeouts d) (reaper_started d) (reaper_scheduled d) (vram_pin_size d) (visible_pin_size d)
    (gart_pin_size d).
Definition set_clamps (underflow clamp : Z) (d : kfd_dev) : kfd_dev :=
  mkDev (vram_pinned d) (rdma_pinned_bytes d) (rdma_pin_reject_quota d) (rdma_pin_reject_killsw d)
    underflow clamp (rdma_pin_warn_latched d)
    (rdma_pin_critical_latched d) (rdma_pin_watermark_peak d) (orphan_list d) (rdma_pin_orphans_queued d)
    (rdma_pin_orphans_reaped d) (free_wait_pinned_count d) (free_wait_pinned_timeout d)
    (unpin_drain_timeouts d) (reaper_started d) (reaper_scheduled d) (vram_pin_size d) (visible_pin_size d)
    (gart_pin_size d).
Definition set_watermark (warn crit peak : Z) (d : kfd_dev) : kfd_dev :=
  mkDev (vram_pinned d) (rdma_pinned_bytes d) (rdma_pin_reject_quota d) (rdma_pin_reject_killsw d)
    (rdma_pin_accounting_underflow d) (rdma_pin_accounting_clamp d) warn crit peak
    (orphan_list d) (rdma_pin_orphans_queued d)
    (rdma_pin_orphans_reaped d) (free_wait_pinned_count d) (free_wait_pinned_timeout d)
    (unpin_drain_timeouts d) (reaper_started d) (reaper_scheduled d) (vram_pin_size d) (visible_pin_size d)
    (gart_pin_size d).
Definition set_orphans (l : list kfd_orphan_pin) (queued reaped : Z) (d : kfd_dev) : kfd_dev :=
  mkDev (vram_pinned d) (rdma_pinned_bytes d) (rdma_pin_reject_quota d) (rdma_pin_reject_killsw d)
    (rdma_pin_accounting_underflow d) (rdma_pin_accounting_clamp d) (rdma_pin_warn_latched d)
    (rdma_pin_critical_latched d) (rdma_pin_watermark_peak d) l queued reaped
    (free_wait_pinned_count d) (free_wait_pinned_timeout d)
    (unpin_drain_timeouts d) (reaper_started d) (reaper_scheduled d) (vram_pin_size d) (visible_pin_size d)
    (gart_pin_size d).
Definition set_waits (count timeout drains : Z) (d : kfd_dev) : kfd_dev :=
  mkDev (vram_pinned d) (rdma_pinned_bytes d) (rdma_pin_reject_quota d) (rdma_pin_reject_killsw d)
    (rdma_pin_accounting_underflow d) (rdma_pin_accounting_clamp d) (rdma_pin_warn_latched d)
    (rdma_pin_critical_latched d) (rdma_pin_watermark_peak d) (orphan_list d) (rdma_pin_orphans_queued d)
    (rdma_pin_orphans_reaped d) count timeout drains
    (reaper_started d) (reaper_scheduled d) (vram_pin_size d) (visible_pin_size d)
    (gart_pin_size d).
Definition set_reaper (started : bool) (sched : option Z) (d : kfd_dev) : kfd_dev :=
  mkDev (vram_pinned d) (rdma_pinned_bytes d) (rdma_pin_reject_quota d) (rdma_pin_reject_killsw d)
    (rdma_pin_accounting_underflow d) (rdma_pin_accounting_clamp d) (rdma_pin_warn_latched d)
    (rdma_pin_critical_latched d) (rdma_pin_watermark_peak d) (orphan_list d) (rdma_pin_orphans_queued d)
    (rdma_pin_orphans_reaped d) (free_wait_pinned_count d) (free_wait_pinned_timeout d)
    (unpin_drain_timeouts d) started sched (vram_pin_size d) (visible_pin_size d)
    (gart_pin_size d).
Definition set_pin_sizes (vram visible gart : Z) (d : kfd_dev) : kfd_dev :=
  mkDev (vram_pinned d) (rdma_pinned_bytes d) (rdma_pin_reject_quota d) (rdma_pin_reject_killsw d)
    (rdma_pin_accounting_underflow d) (rdma_pin_accounting_clamp d) (rdma_pin_warn_latched d)
    (rdma_pin_critical_latched d) (rdma_pin_watermark_peak d) (orphan_list d) (rdma_pin_orphans_queued d)
    (rdma_pin_orphans_reaped d) (free_wait_pinned_count d) (free_wait_pinned_timeout d)
    (unpin_drain_timeouts d) (reaper_started d) (reaper_scheduled d) vram visible gart.

(** ** Thresholds *)

Definition pin_max_bytes (p : pin_params) : Z := u64 (Z.shiftl (dmabuf_pin_max_mb p) 20).

Definition amdgpu_kfd_pin_warn_bytes (p : pin_params) : Z :=
  let max_bytes := pin_max_bytes p in
  if max_bytes =? 0 then 0
  else
    let warn_bytes := if negb (dmabuf_pin_warn_mb p =? 0) then u64 (Z.shiftl (dmabuf_pin_warn_mb p) 20)
                      else u64 (max_bytes / 4 * 3) in
    if max_bytes <=? warn_bytes then u64 (max_bytes - Z.shiftr max_bytes 4) else warn_bytes.

Definition amdgpu_kfd_pin_critical_bytes (p : pin_params) : Z :=
  let max_bytes := pin_max_bytes p in
  if max_bytes =? 0 then 0
  else
    let crit_bytes := if negb (dmabuf_pin_critical_mb p =? 0) then u64 (Z.shiftl (dmabuf_pin_critical_mb p) 20)
                      else u64 (max_bytes / 10 * 9) in
    if max_bytes <=? crit_bytes then u64 (max_bytes - Z.shiftr max_bytes 5) else crit_bytes.

(** ** The compare-and-exchange loops

    Each round reads the counter and then exchanges it; [others] lists the
    values other CPUs leave in the counter between the read and the exchange of
    each contended round. *)

(** [amdgpu_kfd_rdma_quota_drop] and [..._drop_saturated]: the counter
    afterwards and whether it was clamped. *)
Fixpoint quota_drop_loop (others : list Z) (bytes cur : Z) : Z * bool :=
  let old_s := cur in
  let cur := match others with o :: _ => o | [] => cur end in
  let fin := if (old_s <=? 0) || (u64 old_s <? bytes) then (0, true) else (s64 (old_s - s64 bytes), false) in
  match others with
  | [] => fin
  | _ :: others => if cur =? old_s then fin else quota_drop_loop others bytes cur
  end.

(** [amdgpu_kfd_rdma_quota_try_charge]: the counter, how often a negative value
    was clamped on the way, and the new total ([None] when refused). The clamp
    itself is taken to win its exchange. *)
Fixpoint quota_charge_loop (others : list Z) (limit size cur : Z) (clamps : Z) : Z * Z * option Z :=
  let old_s := if cur <? 0 then 0 else cur in
  let clamps := if cur <? 0 then clamps + 1 else clamps in
  let cur := match others with o :: _ => o | [] => old_s end in
  let refused := (limit <? u64 old_s) || (u64 (limit - u64 old_s) <? size) in
  match others with
  | [] => if refused then (old_s, clamps, None)
          else (s64 (u64 (old_s + size)), clamps, Some (u64 (old_s + size)))
  | _ :: others =>
      if refused then (cur, clamps, None)
      else if cur =? old_s then (s64 (u64 (old_s + size)), clamps, Some (u64 (old_s + size)))
      else quota_charge_loop others limit size cur clamps
  end.

Section Rdma.
Variable p : pin_params.
Variable msecs_to_jiffies : Z -> Z.

(** ** Quota operations on the device (no other CPU in between) *)

Definition amdgpu_kfd_rdma_quota_drop (bytes : Z) : RM unit :=
  if (dmabuf_pin_max_mb p =? 0) || (bytes =? 0) then st_ret tt
  else
    upd_dev (fun d =>
      let r := quota_drop_loop [] bytes (rdma_pinned_bytes d) in
      let d := set_pinned_bytes (fst r) d in
      if (snd r : bool) then set_clamps (s64 (rdma_pin_accounting_underflow d + 1)) (s64 (rdma_pin_accounting_clamp d + 1)) d
      else d).

Definition amdgpu_kfd_rdma_quota_drop_saturated (bytes : Z) : RM unit := amdgpu_kfd_rdma_quota_drop bytes.

Definition amdgpu_kfd_rdma_accounting_read_clamped : RM Z :=
  s <- st_get ;;
  let cur := rdma_pinned_bytes (dev s) in
  if 0 <=? cur then st_ret cur
  else
    upd_dev (fun d => set_clamps (s64 (rdma_pin_accounting_underflow d + 1)) (s64 (rdma_pin_accounting_clamp d + 1))
                        (set_pinned_bytes 0 d)) ;;
    st_ret 0.

Definition amdgpu_kfd_rdma_quota_try_charge (size : Z) : RM (option Z) :=
  let limit := pin_max_bytes p in
  if limit =? 0 then st_ret (Some 0)
  else
    s <- st_get ;;
    let r := quota_charge_loop [] limit size (rdma_pinned_bytes (dev s)) 0 in
    upd_dev (fun d =>
      let d := set_pinned_bytes (fst (fst r)) d in
      let d := set_clamps (s64 (rdma_pin_accounting_underflow d + snd (fst r)))
                 (s64 (rdma_pin_accounting_clamp d + snd (fst r))) d in
      match snd r with
      | None => set_rejects (s64 (rdma_pin_reject_quota d + 1)) (rdma_pin_reject_killsw d) d
      | Some _ => d
      end) ;;
    st_ret (snd r).

(** The latches after a check: set at the threshold, released 12.5% below. *)
Definition latch (threshold new_total old : Z) : Z :=
  if negb (threshold =? 0) && (threshold <=? new_total) then 1
  else if negb (threshold =? 0) && (new_total <? u64 (threshold - Z.shiftr threshold 3)) then 0
  else old.

Definition amdgpu_kfd_pin_watermark_check (new_total : Z) : RM unit :=
  let warn_b := amdgpu_kfd_pin_warn_bytes p in
  let crit_b := amdgpu_kfd_pin_critical_bytes p in
  if dmabuf_pin_max_mb p =? 0 then st_ret tt
  else
    upd_dev (fun d =>
      let peak := if u64 (rdma_pin_watermark_peak d) <? new_total then s64 new_total else rdma_pin_watermark_peak d in
      set_watermark (latch warn_b new_total (rdma_pin_warn_latched d))
        (latch crit_b new_total (rdma_pin_critical_latched d)) peak d).

(** ** Waits *)

(** [left] is what [dma_resv_wait_timeout] returns for the given timeout. *)
Definition amdgpu_kfd_unpin_drain (timeout_ms : Z) (left : Z) : RM Z :=
  if timeout_ms <=? 0 then st_ret 0
  else if left =? 0 then
    upd_dev (fun d => set_waits (free_wait_pinned_count d) (free_wait_pinned_timeout d)
                        (s64 (unpin_drain_timeouts d + 1)) d) ;;
    st_ret (- ETIME)
  else if left <? 0 then st_ret (s32 left)
  else st_ret 0.

Definition time_before (a b : Z) : bool := s64 (a - b) <? 0.
Definition time_after_eq (a b : Z) : bool := 0 <=? s64 (a - b).

(** The sleep of the [n]-th round, in microseconds. *)
Definition backoff_us (n : Z) : Z := Z.min 5000 (Z.shiftl 100 (Z.min (n / 5) 6)).

(** The polling loop: each observation is the [jiffies] read by the loop test
    and the [pin_count] read after the sleep. The result and the sleeps made;
    [None] when the observations end before the loop does. *)
Fixpoint wait_pin_drop_loop (obs : list (Z * Z)) (deadline slept_us : Z) (sleeps : list Z)
    : option (Z * list Z) :=
  match obs with
  | [] => None
  | (now, count) :: obs =>
      if time_before now deadline then
        let us := backoff_us slept_us in
        if count =? 0 then Some (0, sleeps ++ [us])
        else wait_pin_drop_loop obs deadline (slept_us + 1) (sleeps ++ [us])
      else Some (- EBUSY, sleeps)
  end.

(** [amdgpu_kfd_wait_pin_drop] of a BO whose pin count is [count] at [now]. *)
Definition amdgpu_kfd_wait_pin_drop (timeout_ms count now : Z) (obs : list (Z * Z)) : option (Z * list Z) :=
  if timeout_ms <=? 0 then Some (if negb (count =? 0) then - EBUSY else 0, [])
  else if count =? 0 then Some (0, [])
  else wait_pin_drop_loop obs (u64 (now + msecs_to_jiffies timeout_ms)) 0 [].

(** ** amdgpu_object.c *)

(** [validate] is the outcome of [ttm_bo_validate] on the placements of the
    domain: its error, or the memory type and placement flags of the new
    resource. *)
Definition amdgpu_bo_pin (b : positive) (domain : Z) (validate : Z + Z * Z) : RM Z :=
  B <- get_bo b ;;
  if is_usermm B then st_ret (- EPERM)
  else
    let domain := if bit (preferred_domains B) domain then Z.land (preferred_domains B) domain else domain in
    if is_imported B && negb (bit domain AMDGPU_GEM_DOMAIN_GTT) then st_ret (- EINVAL)
    else
      let domain := if is_imported B then AMDGPU_GEM_DOMAIN_GTT else domain in
      if negb (pin_count B =? 0) then
        if negb (bit domain (amdgpu_mem_type_to_domain (mem_type B))) then st_ret (- EINVAL)
        else if (mem_type B =? TTM_PL_VRAM) && bit (bo_flags B) AMDGPU_GEM_CREATE_VRAM_CONTIGUOUS
                && negb (bit (res_placement B) TTM_PL_FLAG_CONTIGUOUS)
        then st_ret (- EINVAL)
        else upd_bo b (fun B => set_pin_count (u32 (pin_count B + 1)) B) ;; st_ret 0
      else
        upd_bo b (fun B => set_flags
          (if bit (bo_flags B) AMDGPU_GEM_CREATE_NO_CPU_ACCESS then bo_flags B
           else Z.lor (bo_flags B) AMDGPU_GEM_CREATE_CPU_ACCESS_REQUIRED) B) ;;
        match validate with
        | inl r => st_ret r
        | inr (mt, pl) =>
            upd_bo b (set_resource mt pl) ;;
            upd_bo b (fun B => set_pin_count (u32 (pin_count B + 1)) B) ;;
            upd_dev (fun d =>
              if mt =? TTM_PL_VRAM then
                set_pin_sizes (s64 (vram_pin_size d + bo_size B))
                  (s64 (visible_pin_size d + bo_visible_size B)) (gart_pin_size d) d
              else if mt =? TTM_PL_TT then
                set_pin_sizes (vram_pin_size d) (visible_pin_size d) (s64 (gart_pin_size d + bo_size B)) d
              else d) ;;
            st_ret 0
        end.

(** [ttm_bo_unpin] refuses to go below zero. *)
Definition amdgpu_bo_unpin (b : positive) : RM unit :=
  B <- get_bo b ;;
  let n := if pin_count B =? 0 then 0 else pin_count B - 1 in
  upd_bo b (set_pin_count n) ;;
  if negb (n =? 0) then st_ret tt
  else
    upd_dev (fun d =>
      if mem_type B =? TTM_PL_VRAM then
        set_pin_sizes (s64 (vram_pin_size d - bo_size B))
          (s64 (visible_pin_size d - bo_visible_size B)) (gart_pin_size d) d
      else if mem_type B =? TTM_PL_TT then
        set_pin_sizes (vram_pin_size d) (visible_pin_size d) (s64 (gart_pin_size d - bo_size B)) d
      else d).

(** ** amdgpu_amdkfd_gpuvm.c *)

(** What the pin path gets from elsewhere: the result of [amdgpu_bo_reserve],
    of the move to GTT that precedes a contiguous pin, and of the pin's own
    [ttm_bo_validate]. *)
Record pin_env := mkPinEnv {
  pe_reserve : Z;
  pe_move_gtt : Z + Z * Z;
  pe_validate : Z + Z * Z
}.

Definition set_quota (charged : bool) (count bytes : Z) : amdgpu_bo -> amdgpu_bo :=
  fun B => set_kfd_bo (match kfd_bo B with
                       | Some _ => Some (mkKgd count bytes charged)
                       | None => None
                       end) B.

(** The charge at the head of the pin path: whether it was refused, whether it
    was made ([rdma_accounted]), and whether the BO was charged before
    ([rdma_existing_bo]). *)
Definition pin_charge (B : amdgpu_bo) (domain : Z) : RM (bool * bool * bool) :=
  match kfd_bo B with
  | Some k =>
      if negb (dmabuf_pin_max_mb p =? 0) && bit domain AMDGPU_GEM_DOMAIN_VRAM then
        if negb (rdma_quota_charged k) then
          r <- amdgpu_kfd_rdma_quota_try_charge (bo_size B) ;;
          match r with
          | None => st_ret (true, false, false)
          | Some new_total => amdgpu_kfd_pin_watermark_check new_total ;; st_ret (false, true, false)
          end
        else st_ret (false, false, true)
      else st_ret (false, false, false)
  | None => st_ret (false, false, false)
  end.

(** The label [err_accounting]. *)
Definition pin_err (accounted : bool) (size ret : Z) : RM Z :=
  st_when accounted (amdgpu_kfd_rdma_quota_drop size) ;; st_ret ret.

(** What follows a successful [amdgpu_bo_pin]. *)
Definition pin_account (b : positive) (domain : Z) (accounted existing : bool) : RM unit :=
  B <- get_bo b ;;
  let vram := mem_type B =? TTM_PL_VRAM in
  st_when vram (upd_dev (fun d => set_vram_pinned (s64 (vram_pinned d + bo_size B)) d)) ;;
  let has_kgd := match kfd_bo B with Some _ => true | None => false end in
  if has_kgd && negb (dmabuf_pin_max_mb p =? 0) && bit domain AMDGPU_GEM_DOMAIN_VRAM && vram then
    if accounted then upd_bo b (set_quota true 1 (bo_size B))
    else if existing then
      upd_bo b (fun B => set_kfd_bo (match kfd_bo B with
        | Some k => Some (mkKgd (u32 (rdma_quota_pin_count k + 1)) (rdma_quota_bytes k) (rdma_quota_charged k))
        | None => None
        end) B)
    else st_ret tt
  else if accounted && negb vram then amdgpu_kfd_rdma_quota_drop (bo_size B)
  else st_ret tt.

(** The move to GTT that precedes a contiguous pin. *)
Definition pin_move (env : pin_env) (b : positive) (B : amdgpu_bo) : RM Z :=
  if bit (bo_flags B) AMDGPU_GEM_CREATE_VRAM_CONTIGUOUS && negb (bit (res_placement B) TTM_PL_FLAG_CONTIGUOUS) then
    match pe_move_gtt env with
    | inl r => st_ret r
    | inr (mt, pl) => upd_bo b (set_resource mt pl) ;; st_ret 0
    end
  else st_ret 0.

Definition amdgpu_amdkfd_gpuvm_pin_bo (env : pin_env) (b : positive) (domain : Z) : RM Z :=
  B <- get_bo b ;;
  if negb (dmabuf_reject_new_pins p =? 0) then
    upd_dev (fun d => set_rejects (rdma_pin_reject_quota d) (s64 (rdma_pin_reject_killsw d + 1)) d) ;;
    st_ret (- ENOSPC)
  else if negb (pe_reserve env =? 0) then st_ret (pe_reserve env)
  else
    c <- pin_charge B domain ;;
    let '(refused, accounted, existing) := c in
    if (refused : bool) then st_ret (- ENOSPC)
    else
      mv <- pin_move env b B ;;
      if negb (mv =? 0) then pin_err accounted (bo_size B) mv
      else
        ret <- amdgpu_bo_pin b domain (pe_validate env) ;;
        if negb (ret =? 0) then pin_err accounted (bo_size B) ret
        else pin_account b domain accounted existing ;; st_ret 0.

(** The quota part of the unpin path: the bytes to drop. *)
Definition unpin_quota (b : positive) : RM (option Z) :=
  B <- get_bo b ;;
  match kfd_bo B with
  | Some k =>
      if negb (dmabuf_pin_max_mb p =? 0) && rdma_quota_charged k then
        let n := if rdma_quota_pin_count k =? 0 then 0 else rdma_quota_pin_count k - 1 in
        if n =? 0 then
          upd_bo b (set_quota false 0 0) ;; st_ret (Some (rdma_quota_bytes k))
        else upd_bo b (set_quota true n (rdma_quota_bytes k)) ;; st_ret None
      else st_ret None
  | None => st_ret None
  end.

(** [reserve] and [drain] are the results of [amdgpu_bo_reserve] and of the
    drain's fence wait. *)
Definition amdgpu_amdkfd_gpuvm_unpin_bo (reserve drain : Z) (b : positive) : RM unit :=
  if negb (reserve =? 0) then st_ret tt
  else
    B <- get_bo b ;;
    if pin_count B =? 0 then st_ret tt
    else
      amdgpu_kfd_unpin_drain (kfd_unpin_drain_ms p) drain ;;
      amdgpu_bo_unpin b ;;
      drop <- unpin_quota b ;;
      if mem_type B =? TTM_PL_VRAM then
        upd_dev (fun d => set_vram_pinned (s64 (vram_pinned d - bo_size B)) d) ;;
        (match drop with Some bytes => amdgpu_kfd_rdma_quota_drop bytes | None => st_ret tt end) ;;
        st_when (negb (dmabuf_pin_max_mb p =? 0))
          (t <- amdgpu_kfd_rdma_accounting_read_clamped ;; amdgpu_kfd_pin_watermark_check (u64 t))
      else st_ret tt.

(** ** The orphan list *)

(** [alloc_ok] is the outcome of [kzalloc], [now] the value of [jiffies]. *)
Definition amdgpu_kfd_orphan_queue (alloc_ok : bool) (now pid : Z) (b : option positive) (bytes : Z) : RM Z :=
  match b with
  | None => st_ret (- EINVAL)
  | Some b =>
      if negb alloc_ok then st_ret (- ENOMEM)
      else
        upd_bo b (fun B => set_bo_refs (bo_refs B + 1) B) ;;
        upd_dev (fun d =>
          let d := set_orphans (orphan_list d ++ [mkOrphan b now bytes pid])
                     (s64 (rdma_pin_orphans_queued d + 1)) (rdma_pin_orphans_reaped d) d in
          if reaper_started d then set_reaper true (Some 0) d else d) ;;
        st_ret 0
  end.

(** The loop [while (bo->tbo.pin_count > 0) amdgpu_bo_unpin(bo)]. *)
Fixpoint unpin_all (n : nat) (b : positive) : RM unit :=
  B <- get_bo b ;;
  if 0 <? pin_count B then
    match n with
    | O => st_bug
    | S n => amdgpu_bo_unpin b ;; unpin_all n b
    end
  else st_ret tt.

Definition unpin_all_of (b : positive) : RM unit :=
  B <- get_bo b ;; unpin_all (Z.to_nat (pin_count B)) b.

(** The orphans old enough to reap are a prefix of the list. *)
Fixpoint reap_split (cutoff : Z) (l : list kfd_orphan_pin) : list kfd_orphan_pin * list kfd_orphan_pin :=
  match l with
  | [] => ([], [])
  | op :: l' =>
      if time_after_eq (queued_at_jiffies op) cutoff then ([], l)
      else let '(now, later) := reap_split cutoff l' in (op :: now, later)
  end.

(** The body of the reaper for a BO it could reserve: it takes over the quota,
    drops every pin and then the accounting. *)
Definition reap_unpin (drain : Z) (b : positive) : RM unit :=
  amdgpu_kfd_unpin_drain (kfd_unpin_drain_ms p) drain ;;
  B <- get_bo b ;;
  let charged := match kfd_bo B with
                 | Some k => negb (dmabuf_pin_max_mb p =? 0) && rdma_quota_charged k
                 | None => false
                 end in
  let reap_rdma_bytes := match kfd_bo B with
                         | Some k => if charged then rdma_quota_bytes k else 0
                         | None => 0
                         end in
  st_when charged (upd_bo b (set_quota false 0 0)) ;;
  unpin_all_of b ;;
  B <- get_bo b ;;
  st_when (mem_type B =? TTM_PL_VRAM)
    (upd_dev (fun d => set_vram_pinned (s64 (vram_pinned d - bo_size B)) d) ;;
     st_when (negb (dmabuf_pin_max_mb p =? 0) && negb (reap_rdma_bytes =? 0))
       (amdgpu_kfd_rdma_quota_drop_saturated reap_rdma_bytes)).

Definition reap_one (reserve drain : Z) (op : kfd_orphan_pin) : RM unit :=
  st_when (reserve =? 0) (reap_unpin drain (op_bo op)) ;;
  upd_bo (op_bo op) (fun B => set_bo_refs (bo_refs B - 1) B) ;;
  upd_dev (fun d => set_orphans (orphan_list d) (rdma_pin_orphans_queued d) (s64 (rdma_pin_orphans_reaped d + 1)) d).

(** [outcomes] gives the reserve result and drain result for each reaped BO. *)
Fixpoint reap_all (outcomes : list (Z * Z)) (l : list kfd_orphan_pin) : RM unit :=
  match l with
  | [] => st_ret tt
  | op :: l => let '(r, d) := hd (0, 1) outcomes in reap_one r d op ;; reap_all (tl outcomes) l
  end.

Definition reaper_reschedule : RM unit :=
  upd_dev (fun d => if reaper_started d && (0 <? pin_reaper_interval_ms p)
                    then set_reaper true (Some (msecs_to_jiffies (pin_reaper_interval_ms p))) d else d).

Definition amdgpu_kfd_reaper_fn (now : Z) (outcomes : list (Z * Z)) : RM unit :=
  (if pin_orphan_timeout_ms p <=? 0 then st_ret tt
   else
     let cutoff := u64 (now - msecs_to_jiffies (pin_orphan_timeout_ms p)) in
     s <- st_get ;;
     let '(reap_now, later) := reap_split cutoff (orphan_list (dev s)) in
     upd_dev (fun d => set_orphans later (rdma_pin_orphans_queued d) (rdma_pin_orphans_reaped d) d) ;;
     reap_all outcomes reap_now) ;;
  reaper_reschedule.

Definition amdgpu_kfd_reaper_start : RM unit :=
  s <- st_get ;;
  if reaper_started (dev s) then st_ret tt
  else
    upd_dev (fun d => set_reaper true (reaper_scheduled d)
      (set_watermark 0 0 0 (set_clamps 0 0 (set_waits 0 0 0 (set_orphans [] 0 0 d))))) ;;
    st_when (0 <? pin_reaper_interval_ms p)
      (upd_dev (fun d => set_reaper true (Some (msecs_to_jiffies (pin_reaper_interval_ms p))) d)).

(** [amdgpu_kfd_reaper_stop]: the drain of what is left on the list. *)
Fixpoint stop_all (reserves : list Z) (l : list kfd_orphan_pin) : RM unit :=
  match l with
  | [] => st_ret tt
  | op :: l =>
      st_when (hd 0 reserves =? 0) (unpin_all_of (op_bo op)) ;;
      upd_bo (op_bo op) (fun B => set_bo_refs (bo_refs B - 1) B) ;;
      stop_all (tl reserves) l
  end.

Definition amdgpu_kfd_reaper_stop (reserves : list Z) : RM unit :=
  s <- st_get ;;
  if negb (reaper_started (dev s)) then st_ret tt
  else
    upd_dev (set_reaper false None) ;;
    upd_dev (fun d => set_orphans [] (rdma_pin_orphans_queued d) (rdma_pin_orphans_reaped d) d) ;;
    stop_all reserves (orphan_list (dev s)).

(** The part of [amdgpu_amdkfd_gpuvm_free_memory_of_gpu] that deals with a BO
    that is still pinned; [obs] as in [amdgpu_kfd_wait_pin_drop]. *)
Definition free_pinned (reserve : Z) (obs : list (Z * Z)) (alloc_ok : bool) (now pid : Z) (b : positive) : RM unit :=
  B <- get_bo b ;;
  if negb (0 <? pin_count B) then st_ret tt
  else
    upd_dev (fun d => set_waits (s64 (free_wait_pinned_count d + 1)) (free_wait_pinned_timeout d)
                        (unpin_drain_timeouts d) d) ;;
    let waits := (1 <=? kfd_free_on_pinned p) && (0 <? kfd_free_wait_ms p) in
    wait_rc <- (if waits && (reserve =? 0) then
                  r <- st_of_option (amdgpu_kfd_wait_pin_drop (kfd_free_wait_ms p) (pin_count B) now obs) ;;
                  st_ret (fst r)
                else st_ret (- EBUSY)) ;;
    if wait_rc =? - EBUSY then
      st_when waits (upd_dev (fun d => set_waits (free_wait_pinned_count d) (s64 (free_wait_pinned_timeout d + 1))
                                       (unpin_drain_timeouts d) d)) ;;
      amdgpu_kfd_orphan_queue alloc_ok now pid (Some b) (bo_size B) ;;
      st_ret tt
    else st_ret tt.
End Rdma.
