(* ===== verification/RdmaInv.v ===== *)
(** * RDMA pin accounting: the invariant

    [quota_wf]: the quota counter is exactly the sum of the sizes of the charged
    buffer objects and never exceeds the configured limit. Every pin, unpin and
    reap preserves it; the lock-free loops behave like one atomic update; every
    operation on pins leaves the orphan list and the references alone. *)

From S2P Require Import Prelude Rdma.
From stdpp Require Import gmap list.
From Stdlib Require Import ZArith Lia.

Local Open Scope Z_scope.
Local Open Scope st_scope.

(** ** The lock-free loops are atomic updates *)

Lemma quota_drop_loop_linear others bytes cur :
  exists v, v ∈ cur :: others /\ quota_drop_loop others bytes cur = quota_drop_loop [] bytes v.
Proof.
  revert cur. induction others as [|o others IH]; intros cur; [exists cur; split; [set_solver|done]|].
  cbn [quota_drop_loop]. destruct (Z.eqb_spec o cur) as [->|Hne].
  - exists cur. split; [set_solver|]. done.
  - destruct (IH o) as (v & Hv & E). exists v. split; [set_solver|]. exact E.
Qed.

(** A charge that succeeds does so on a value the counter really had; one that
    is refused leaves the counter to the others. *)
Lemma quota_charge_loop_linear others limit size cur clamps :
  exists v c, v ∈ cur :: others /\
    snd (quota_charge_loop others limit size cur clamps) = snd (quota_charge_loop [] limit size v c) /\
    (snd (quota_charge_loop others limit size cur clamps) <> None ->
     fst (fst (quota_charge_loop others limit size cur clamps)) = fst (fst (quota_charge_loop [] limit size v c))).
Proof.
  revert cur clamps. induction others as [|o others IH]; intros cur clamps.
  { exists cur, clamps. split; [set_solver|done]. }
  cbn [quota_charge_loop]. set (old := if cur <? 0 then 0 else cur). set (cl := if cur <? 0 then clamps + 1 else clamps).
  destruct ((limit <? u64 old) || (u64 (limit - u64 old) <? size)) eqn:Er.
  - exists cur, clamps. split; [set_solver|]. simpl. fold old. rewrite Er. done.
  - destruct (Z.eqb_spec o old) as [->|Hne].
    + exists cur, clamps. split; [set_solver|]. simpl. fold old. rewrite Er. done.
    + destruct (IH o cl) as (v & c & Hv & E1 & E2). exists v, c. split; [set_solver|done].
Qed.

(** ** Thresholds *)

Lemma pin_max_bytes_val p : 0 < dmabuf_pin_max_mb p < 2 ^ 32 -> pin_max_bytes p = dmabuf_pin_max_mb p * 2 ^ 20.
Proof. intros H. unfold pin_max_bytes. rewrite Z.shiftl_mul_pow2 by lia. apply wrap_small. lia. Qed.

Lemma warn_below_max p :
  0 < dmabuf_pin_max_mb p < 2 ^ 32 -> 0 <= dmabuf_pin_warn_mb p < 2 ^ 32 ->
  0 < amdgpu_kfd_pin_warn_bytes p < pin_max_bytes p.
Proof.
  intros Hm Hw. unfold amdgpu_kfd_pin_warn_bytes. rewrite pin_max_bytes_val by done.
  set (m := dmabuf_pin_max_mb p * 2 ^ 20). assert (2 ^ 20 <= m < 2 ^ 52) as Hb by (unfold m; lia).
  destruct (Z.eqb_spec m 0); [lia|]. rewrite Z.shiftr_div_pow2 by lia.
  pose proof (Z.div_mod m (2 ^ 4) ltac:(lia)). pose proof (Z.mod_pos_bound m (2 ^ 4) ltac:(lia)).
  pose proof (Z.div_mod m 4 ltac:(lia)). pose proof (Z.mod_pos_bound m 4 ltac:(lia)).
  set (w := if negb (dmabuf_pin_warn_mb p =? 0) then u64 (Z.shiftl (dmabuf_pin_warn_mb p) 20) else u64 (m / 4 * 3)).
  assert (0 < w) as Hw0.
  { unfold w. destruct (Z.eqb_spec (dmabuf_pin_warn_mb p) 0); cbn [negb].
    - rewrite wrap_small by lia. lia.
    - rewrite Z.shiftl_mul_pow2, wrap_small by lia. lia. }
  destruct (Z.leb_spec m w); [|lia]. rewrite wrap_small by lia. lia.
Qed.

Lemma critical_below_max p :
  0 < dmabuf_pin_max_mb p < 2 ^ 32 -> 0 <= dmabuf_pin_critical_mb p < 2 ^ 32 ->
  0 < amdgpu_kfd_pin_critical_bytes p < pin_max_bytes p.
Proof.
  intros Hm Hw. unfold amdgpu_kfd_pin_critical_bytes. rewrite pin_max_bytes_val by done.
  set (m := dmabuf_pin_max_mb p * 2 ^ 20). assert (2 ^ 20 <= m < 2 ^ 52) as Hb by (unfold m; lia).
  destruct (Z.eqb_spec m 0); [lia|]. rewrite Z.shiftr_div_pow2 by lia.
  pose proof (Z.div_mod m (2 ^ 5) ltac:(lia)). pose proof (Z.mod_pos_bound m (2 ^ 5) ltac:(lia)).
  pose proof (Z.div_mod m 10 ltac:(lia)). pose proof (Z.mod_pos_bound m 10 ltac:(lia)).
  set (w := if negb (dmabuf_pin_critical_mb p =? 0) then u64 (Z.shiftl (dmabuf_pin_critical_mb p) 20) else u64 (m / 10 * 9)).
  assert (0 < w) as Hw0.
  { unfold w. destruct (Z.eqb_spec (dmabuf_pin_critical_mb p) 0); cbn [negb].
    - rewrite wrap_small by lia. lia.
    - rewrite Z.shiftl_mul_pow2, wrap_small by lia. lia. }
  destruct (Z.leb_spec m w); [|lia]. rewrite wrap_small by lia. lia.
Qed.

(** ** The accounting invariant *)

Definition charge_of (B : amdgpu_bo) : Z :=
  match kfd_bo B with Some k => if rdma_quota_charged k then rdma_quota_bytes k else 0 | None => 0 end.

Record bo_ok (B : amdgpu_bo) : Prop := {
  bo_size_ok : 0 <= bo_size B < 2 ^ 63;
  bo_pin_ok : 0 <= pin_count B < 2 ^ 32;
  bo_quota_ok : match kfd_bo B with
    | Some k =>
        if rdma_quota_charged k
        then 0 < rdma_quota_pin_count k <= pin_count B /\ rdma_quota_bytes k = bo_size B /\ mem_type B = TTM_PL_VRAM
        else rdma_quota_pin_count k = 0 /\ rdma_quota_bytes k = 0
    | None => True
    end
}.

Record quota_wf (p : pin_params) (s : rdma_state) : Prop := {
  qw_bo : forall b B, bos s !! b = Some B -> bo_ok B;
  qw_sum : rdma_pinned_bytes (dev s) = msum (fun _ B => charge_of B) (bos s);
  qw_limit : 0 <= rdma_pinned_bytes (dev s) <= pin_max_bytes p
}.

Section Accounting.
Context (p : pin_params).
Hypothesis Hmax : 0 < dmabuf_pin_max_mb p < 2 ^ 32.

Lemma max_nonzero : (dmabuf_pin_max_mb p =? 0) = false.
Proof using Hmax. apply Z.eqb_neq. lia. Qed.

Lemma pin_max_range : 2 ^ 20 <= pin_max_bytes p < 2 ^ 52.
Proof using Hmax. rewrite pin_max_bytes_val by done. lia. Qed.

(** States that differ in no BO and not in the counter. *)
Lemma quota_wf_dev s d : quota_wf p s -> rdma_pinned_bytes d = rdma_pinned_bytes (dev s) -> quota_wf p (mkRdma d (bos s)).
Proof using. intros [] E. by constructor; simpl; rewrite ?E. Qed.

(** One BO and the counter change together. *)
Lemma quota_wf_bo s b B B' d :
  quota_wf p s -> bos s !! b = Some B -> bo_ok B' ->
  rdma_pinned_bytes d = rdma_pinned_bytes (dev s) - charge_of B + charge_of B' ->
  0 <= rdma_pinned_bytes d <= pin_max_bytes p ->
  quota_wf p (mkRdma d (<[b := B']> (bos s))).
Proof using.
  intros [Hbo Hsum Hlim] HB Hok Hd Hl. constructor; simpl; [|rewrite (msum_update _ _ b B) by done; lia|done].
  intros k K. destruct (decide (k = b)) as [->|Hk].
  - rewrite lookup_insert_eq. by intros [= <-].
  - rewrite lookup_insert_ne by done. apply Hbo.
Qed.

Lemma quota_wf_create s b B :
  quota_wf p s -> bos s !! b = None -> bo_ok B -> charge_of B = 0 -> quota_wf p (mkRdma (dev s) (<[b := B]> (bos s))).
Proof using.
  intros [Hbo Hsum Hlim] HB Hok Hc. constructor; cbn [bos dev]; [|rewrite msum_insert by done; lia|done].
  intros k K. destruct (decide (k = b)) as [->|Hk].
  - rewrite lookup_insert_eq. by intros [= <-].
  - rewrite lookup_insert_ne by done. apply Hbo.
Qed.

Lemma quota_wf_destroy s b B :
  quota_wf p s -> bos s !! b = Some B -> pin_count B = 0 -> quota_wf p (mkRdma (dev s) (delete b (bos s))).
Proof using.
  clear Hmax. intros [Hbo Hsum Hlim] HB Hpc. destruct (Hbo b B HB) as [_ _ Hq].
  assert (charge_of B = 0) as Hc.
  { unfold charge_of. destruct (kfd_bo B) as [k|]; [|done]. destruct (rdma_quota_charged k); [lia|done]. }
  constructor; cbn [bos dev]; [intros k K HK; apply (Hbo k)|rewrite Hsum, (msum_delete _ _ b B HB), Hc; lia|done].
  by apply lookup_delete_Some in HK as [_ HK].
Qed.

Lemma charge_bounds s b B : quota_wf p s -> bos s !! b = Some B -> 0 <= charge_of B <= rdma_pinned_bytes (dev s).
Proof using.
  intros Hwf HB.
  assert (forall k K, bos s !! k = Some K -> 0 <= charge_of K) as Hnn.
  { intros k K HK. destruct (qw_bo _ _ Hwf k K HK) as [Hs _ Hq]. unfold charge_of.
    destruct (kfd_bo K) as [g|]; [|lia]. destruct (rdma_quota_charged g); [|lia]. destruct Hq as (_ & -> & _). lia. }
  split; [by eapply Hnn|]. rewrite (qw_sum _ _ Hwf). by apply (msum_ge (fun _ B => charge_of B) (bos s) b B).
Qed.

(** ** The quota operations *)

Lemma try_charge_ok s size :
  0 <= rdma_pinned_bytes (dev s) <= pin_max_bytes p -> 0 <= size < 2 ^ 63 ->
  exists r d, amdgpu_kfd_rdma_quota_try_charge p size s = Some (r, mkRdma d (bos s)) /\ vram_pinned d = vram_pinned (dev s) /\
    match r with
    | Some total => rdma_pinned_bytes d = rdma_pinned_bytes (dev s) + size /\ total = rdma_pinned_bytes d /\
                    rdma_pinned_bytes d <= pin_max_bytes p
    | None => rdma_pinned_bytes d = rdma_pinned_bytes (dev s) /\ pin_max_bytes p < rdma_pinned_bytes (dev s) + size
    end.
Proof using Hmax.
  intros Hl Hs. pose proof pin_max_range as Hr. unfold amdgpu_kfd_rdma_quota_try_charge.
  destruct (Z.eqb_spec (pin_max_bytes p) 0); [lia|]. unfold st_bind at 1, st_get.
  set (cur := rdma_pinned_bytes (dev s)) in *. cbn [quota_charge_loop].
  destruct (Z.ltb_spec cur 0); [lia|]. rewrite (wrap_small 64 cur), (wrap_small 64 (pin_max_bytes p - cur)) by lia.
  destruct (Z.ltb_spec (pin_max_bytes p) cur); [lia|]. simpl orb.
  destruct (Z.ltb_spec (pin_max_bytes p - cur) size).
  - eexists None, _. split; [reflexivity|]. split; [done|]. cbn. lia.
  - rewrite wrap_small by lia. rewrite swrap_small by lia.
    eexists (Some (cur + size)), _. split; [reflexivity|]. split; [done|]. cbn. lia.
Qed.

Lemma drop_ok s bytes :
  0 <= bytes <= rdma_pinned_bytes (dev s) -> rdma_pinned_bytes (dev s) < 2 ^ 63 ->
  exists d, amdgpu_kfd_rdma_quota_drop p bytes s = Some (tt, mkRdma d (bos s)) /\ vram_pinned d = vram_pinned (dev s) /\
    rdma_pinned_bytes d = rdma_pinned_bytes (dev s) - bytes.
Proof using Hmax.
  intros Hb Hc. unfold amdgpu_kfd_rdma_quota_drop. rewrite max_nonzero. simpl orb.
  destruct (Z.eqb_spec bytes 0) as [->|Hnz].
  { exists (dev s). split; [by destruct s|]. split; [done|lia]. }
  cbn [orb]. unfold upd_dev, st_mod. cbv beta zeta. cbn [quota_drop_loop].
  destruct (Z.leb_spec (rdma_pinned_bytes (dev s)) 0); [lia|]. rewrite (wrap_small 64) by lia.
  destruct (Z.ltb_spec (rdma_pinned_bytes (dev s)) bytes); [lia|]. simpl orb.
  eexists. split; [reflexivity|]. split; [done|]. cbn. rewrite (swrap_small 64 bytes), swrap_small by lia. done.
Qed.

Lemma watermark_run t s :
  exists d, amdgpu_kfd_pin_watermark_check p t s = Some (tt, mkRdma d (bos s)) /\
    rdma_pinned_bytes d = rdma_pinned_bytes (dev s) /\ vram_pinned d = vram_pinned (dev s).
Proof using.
  unfold amdgpu_kfd_pin_watermark_check. destruct (dmabuf_pin_max_mb p =? 0).
  - exists (dev s). by destruct s.
  - eexists. split; [reflexivity|done].
Qed.

(** ** Pinning *)

(** What the charge at the head of the pin path decides. *)
Definition charge_post (s : rdma_state) (B : amdgpu_bo) (domain : Z) (refused accounted existing : bool) (d : kfd_dev)
    : Prop :=
  vram_pinned d = vram_pinned (dev s) /\
  (if refused then rdma_pinned_bytes d = rdma_pinned_bytes (dev s) /\ accounted = false /\
                   pin_max_bytes p < rdma_pinned_bytes (dev s) + bo_size B
   else rdma_pinned_bytes d = rdma_pinned_bytes (dev s) + (if accounted then bo_size B else 0) /\
        rdma_pinned_bytes d <= pin_max_bytes p) /\
  (accounted = true -> existing = false /\ charge_of B = 0 /\ bit domain AMDGPU_GEM_DOMAIN_VRAM = true /\
                       exists k, kfd_bo B = Some k /\ rdma_quota_charged k = false) /\
  (existing = true -> bit domain AMDGPU_GEM_DOMAIN_VRAM = true /\
                      exists k, kfd_bo B = Some k /\ rdma_quota_charged k = true) /\
  (refused = false -> accounted = false -> existing = false ->
   bit domain AMDGPU_GEM_DOMAIN_VRAM = true -> kfd_bo B = None).

Lemma pin_charge_ok s b B domain :
  quota_wf p s -> bos s !! b = Some B ->
  exists refused accounted existing d,
    pin_charge p B domain s = Some ((refused, accounted, existing), mkRdma d (bos s)) /\
    charge_post s B domain refused accounted existing d.
Proof using Hmax.
  intros Hwf HB. pose proof (qw_limit _ _ Hwf) as Hl. destruct (qw_bo _ _ Hwf b B HB) as [Hs _ _].
  assert (forall e, (e = true -> bit domain AMDGPU_GEM_DOMAIN_VRAM = true /\ exists k, kfd_bo B = Some k /\ rdma_quota_charged k = true) ->
    (e = false -> bit domain AMDGPU_GEM_DOMAIN_VRAM = true -> kfd_bo B = None) ->
    exists refused accounted existing d,
      Some ((false, false, e), s) = Some ((refused, accounted, existing), mkRdma d (bos s)) /\
      charge_post s B domain refused accounted existing d) as Hnone.
  { intros e He He'. exists false, false, e, (dev s). split; [by destruct s|].
    unfold charge_post. split_and!; try done; try lia; auto. }
  unfold pin_charge. destruct (kfd_bo B) as [k|] eqn:Ek; [|by apply Hnone].
  rewrite max_nonzero. simpl negb. simpl andb.
  destruct (bit domain AMDGPU_GEM_DOMAIN_VRAM) eqn:Eb; [|by apply Hnone].
  destruct (rdma_quota_charged k) eqn:Ec; cbn [negb andb]; [apply Hnone; [eauto|done]|].
  destruct (try_charge_ok s (bo_size B) Hl Hs) as (r & d & E & Hv & Hr). rewrite (st_bind_run _ _ _ _ _ E).
  destruct r as [t|].
  - destruct (watermark_run t (mkRdma d (bos s))) as (d2 & E2 & R2 & V2). rewrite (st_bind_run _ _ _ _ _ E2).
    exists false, true, false, d2. split; [done|]. simpl in R2, V2. unfold charge_post.
    split_and!; try done; try lia; try congruence.
    intros _. split_and!; [done|unfold charge_of; by rewrite Ek, Ec|done|eauto].
  - exists true, false, false, d. split; [done|]. unfold charge_post. split_and!; try done; lia.
Qed.

(** [amdgpu_bo_pin] touches neither the quota nor the KFD counter. *)
Lemma bo_pin_run s b B domain validate :
  bos s !! b = Some B -> 0 <= pin_count B -> pin_count B + 1 < 2 ^ 32 -> (forall r, validate = inl r -> r <> 0) ->
  exists r B' d, amdgpu_bo_pin b domain validate s = Some (r, mkRdma d (<[b := B']> (bos s))) /\
    rdma_pinned_bytes d = rdma_pinned_bytes (dev s) /\ vram_pinned d = vram_pinned (dev s) /\
    bo_size B' = bo_size B /\ kfd_bo B' = kfd_bo B /\
    pin_count B' = (if r =? 0 then pin_count B + 1 else pin_count B) /\
    (pin_count B <> 0 -> mem_type B' = mem_type B) /\ (r <> 0 -> mem_type B' = mem_type B).
Proof using.
  clear Hmax. intros HB H0 H1 Hv.
  assert (forall r, r <> 0 -> exists r' B' d, Some (r, s) = Some (r', mkRdma d (<[b := B']> (bos s))) /\
    rdma_pinned_bytes d = rdma_pinned_bytes (dev s) /\ vram_pinned d = vram_pinned (dev s) /\
    bo_size B' = bo_size B /\ kfd_bo B' = kfd_bo B /\
    pin_count B' = (if r' =? 0 then pin_count B + 1 else pin_count B) /\
    (pin_count B <> 0 -> mem_type B' = mem_type B) /\ (r' <> 0 -> mem_type B' = mem_type B)) as Herr.
  { intros r Hr. exists r, B, (dev s). split; [rewrite insert_id by done; by destruct s|].
    split_and!; try done. destruct (Z.eqb_spec r 0); done. }
  unfold amdgpu_bo_pin. unfold st_bind at 1, get_bo. rewrite HB.
  destruct (is_usermm B); [by apply Herr|]. destruct (is_imported B && _); [by apply Herr|].
  set (dom := if is_imported B then _ else _). destruct (Z.eqb_spec (pin_count B) 0) as [Hz|Hz]; cbn [negb].
  - unfold st_bind at 1, upd_bo. rewrite HB. destruct validate as [r|[mt pl]].
    + eexists r, _, (dev s). split; [reflexivity|]. pose proof (Hv r eq_refl).
      split_and!; try done. simpl. by destruct (Z.eqb_spec r 0).
    + unfold st_bind. cbn [bos dev]. rewrite lookup_insert_eq. cbn [bos dev]. rewrite lookup_insert_eq.
      cbn [bos dev]. rewrite !insert_insert_eq. unfold upd_dev, st_mod, st_ret. cbn [bos dev].
      eexists 0, _, _. split; [reflexivity|]. simpl. rewrite wrap_small by lia.
      split_and!; try done; destruct (mt =? TTM_PL_VRAM), (mt =? TTM_PL_TT); done.
  - destruct (negb (bit dom _)); [by apply Herr|]. destruct (_ && negb (bit (res_placement B) _)); [by apply Herr|].
    unfold st_bind, upd_bo. rewrite HB. eexists 0, _, (dev s). split; [reflexivity|]. simpl.
    rewrite wrap_small by lia. done.
Qed.

(** What a successful pin leaves in the BO, and in the KFD counter. *)
Definition pin_charged (B : amdgpu_bo) (domain mt : Z) : Z :=
  match kfd_bo B with
  | Some k => if rdma_quota_charged k then rdma_quota_bytes k
              else if bit domain AMDGPU_GEM_DOMAIN_VRAM && (mt =? TTM_PL_VRAM) then bo_size B else 0
  | None => 0
  end.

(** The quota fields after a successful pin. *)
Definition pin_quota (B : amdgpu_bo) (domain mt : Z) : option kgd_mem :=
  match kfd_bo B with
  | Some k => if negb (bit domain AMDGPU_GEM_DOMAIN_VRAM) then Some k
              else if rdma_quota_charged k then Some (mkKgd (rdma_quota_pin_count k + 1) (rdma_quota_bytes k) true)
              else if mt =? TTM_PL_VRAM then Some (mkKgd 1 (bo_size B) true) else Some k
  | None => None
  end.

(** The state after a pin of [b] that ended in memory type [mt]. *)
Record pin_post (s : rdma_state) (b : positive) (B : amdgpu_bo) (domain mt : Z) (d : kfd_dev) (B' : amdgpu_bo) : Prop := {
  pp_wf : quota_wf p (mkRdma d (<[b := B']> (bos s)));
  pp_size : bo_size B' = bo_size B;
  pp_count : pin_count B' = pin_count B + 1;
  pp_type : mem_type B' = mt;
  pp_quota : kfd_bo B' = pin_quota B domain mt;
  pp_charge : charge_of B' = pin_charged B domain mt;
  pp_total : rdma_pinned_bytes d = rdma_pinned_bytes (dev s) - charge_of B + pin_charged B domain mt;
  pp_vram : vram_pinned d = (if mt =? TTM_PL_VRAM then s64 (vram_pinned (dev s) + bo_size B)
                             else vram_pinned (dev s))
}.

Section PinAccount.
Context (s : rdma_state) (b : positive) (B B1 : amdgpu_bo) (d : kfd_dev) (domain : Z).
Hypothesis Hwf : quota_wf p s.
Hypothesis HB : bos s !! b = Some B.
Hypothesis Hpc : pin_count B + 1 < 2 ^ 32.
Hypothesis Es : bo_size B1 = bo_size B.
Hypothesis Ek : kfd_bo B1 = kfd_bo B.
Hypothesis Ep : pin_count B1 = pin_count B + 1.
Hypothesis Em : pin_count B <> 0 -> mem_type B1 = mem_type B.
Hypothesis Hv : vram_pinned d = (if mem_type B1 =? TTM_PL_VRAM then s64 (vram_pinned (dev s) + bo_size B)
                                 else vram_pinned (dev s)).

Let st := mkRdma d (<[b := B1]> (bos s)).

Lemma pin_post_intro d2 B2 :
  bo_ok B2 -> bo_size B2 = bo_size B -> pin_count B2 = pin_count B + 1 -> mem_type B2 = mem_type B1 ->
  kfd_bo B2 = pin_quota B domain (mem_type B1) ->
  charge_of B2 = pin_charged B domain (mem_type B1) ->
  rdma_pinned_bytes d2 = rdma_pinned_bytes (dev s) - charge_of B + charge_of B2 ->
  0 <= rdma_pinned_bytes d2 <= pin_max_bytes p -> vram_pinned d2 = vram_pinned d ->
  pin_post s b B domain (mem_type B1) d2 B2.
Proof using Hwf HB Hv.
  intros Hok H1 H2 H3 H3' H4 H5 H6 H7. constructor; try done; [by eapply quota_wf_bo|lia|congruence].
Qed.

(** The BO was charged by this pin: it keeps the charge if it is in VRAM. *)
Lemma pin_account_new k :
  kfd_bo B = Some k -> rdma_quota_charged k = false -> bit domain AMDGPU_GEM_DOMAIN_VRAM = true ->
  rdma_pinned_bytes d = rdma_pinned_bytes (dev s) + bo_size B -> rdma_pinned_bytes d <= pin_max_bytes p ->
  exists d2 B2, (if mem_type B1 =? TTM_PL_VRAM then upd_bo b (set_quota true 1 (bo_size B))
                 else amdgpu_kfd_rdma_quota_drop p (bo_size B)) st = Some (tt, mkRdma d2 (<[b := B2]> (bos s))) /\
    pin_post s b B domain (mem_type B1) d2 B2.
Proof using Hmax Hwf HB Hpc Es Ek Ep Hv.
  intros Hk Hkc Hb Hr Hle. destruct (qw_bo _ _ Hwf b B HB) as [HBs HBp HBq].
  pose proof (qw_limit _ _ Hwf) as Hl. pose proof pin_max_range as Hmr. rewrite Hk, Hkc in HBq.
  assert (charge_of B = 0) as Hc0 by (unfold charge_of; by rewrite Hk, Hkc).
  case (Z.eqb_spec (mem_type B1) TTM_PL_VRAM); intros Hm.
  - unfold upd_bo, st. cbn [bos dev]. rewrite lookup_insert_eq, insert_insert_eq.
    assert (charge_of (set_quota true 1 (bo_size B) B1) = bo_size B) as Hch.
    { unfold charge_of, set_quota. simpl. by rewrite Ek, Hk. }
    eexists _, _. split; [done|]. apply pin_post_intro; try done; try (rewrite ?Hch; lia).
    + constructor; simpl; [lia|lia|]. rewrite Ek, Hk. simpl. lia.
    + unfold pin_quota. simpl. by rewrite Ek, Hk, Hkc, Hb, Hm.
    + rewrite Hch. unfold pin_charged. by rewrite Hk, Hkc, Hb, Hm.
  - destruct (drop_ok st (bo_size B)) as (d2 & E & V & R); unfold st in *; cbn [dev] in *; [lia|lia|].
    rewrite E. assert (charge_of B1 = 0) as Hch by (unfold charge_of; by rewrite Ek, Hk, Hkc).
    eexists _, _. split; [done|]. apply pin_post_intro; try done; try (rewrite ?Hch; lia).
    + constructor; [lia|lia|]. rewrite Ek, Hk, Hkc. done.
    + unfold pin_quota. rewrite Ek, Hk, Hkc, Hb. by destruct (Z.eqb_spec (mem_type B1) TTM_PL_VRAM).
    + rewrite Hch. unfold pin_charged. rewrite Hk, Hkc, Hb. by destruct (Z.eqb_spec (mem_type B1) TTM_PL_VRAM).
Qed.

(** The BO was charged before: its quota count follows the pin count. *)
Lemma pin_account_again k :
  kfd_bo B = Some k -> rdma_quota_charged k = true -> bit domain AMDGPU_GEM_DOMAIN_VRAM = true ->
  rdma_pinned_bytes d = rdma_pinned_bytes (dev s) ->
  mem_type B1 = TTM_PL_VRAM /\
  exists B2, upd_bo b (fun B => set_kfd_bo (match kfd_bo B with
        | Some k => Some (mkKgd (u32 (rdma_quota_pin_count k + 1)) (rdma_quota_bytes k) (rdma_quota_charged k))
        | None => None
        end) B) st = Some (tt, mkRdma d (<[b := B2]> (bos s))) /\
    pin_post s b B domain (mem_type B1) d B2.
Proof using Hwf HB Hpc Es Ek Ep Em Hv.
  clear Hmax. intros Hk Hkc Hb Hr. destruct (qw_bo _ _ Hwf b B HB) as [HBs HBp HBq].
  pose proof (qw_limit _ _ Hwf) as Hl. rewrite Hk, Hkc in HBq. destruct HBq as (Hq1 & Hq2 & Hq3).
  assert (mem_type B1 = TTM_PL_VRAM) as Hm by (rewrite Em; lia). split; [done|].
  unfold upd_bo, st. cbn [bos dev]. rewrite lookup_insert_eq, insert_insert_eq. set (B2 := set_kfd_bo _ B1).
  assert (charge_of B2 = charge_of B /\ charge_of B = bo_size B) as [Hch Hch'].
  { unfold charge_of, B2. simpl. rewrite Ek, Hk. simpl. by rewrite Hkc. }
  eexists. split; [done|]. apply pin_post_intro; try done; try (rewrite ?Hch; lia).
  - constructor; simpl; [lia|lia|]. rewrite Ek, Hk. simpl. rewrite Hkc, wrap_small by lia. lia.
  - unfold pin_quota. simpl. rewrite Ek, Hk, Hkc, Hb, wrap_small by lia. done.
  - rewrite Hch, Hch'. unfold pin_charged. by rewrite Hk, Hkc.
Qed.

(** No quota is involved. *)
Lemma pin_account_none :
  (bit domain AMDGPU_GEM_DOMAIN_VRAM = true -> kfd_bo B = None) ->
  rdma_pinned_bytes d = rdma_pinned_bytes (dev s) -> pin_post s b B domain (mem_type B1) d B1.
Proof using Hwf HB Hpc Es Ek Ep Em Hv.
  clear Hmax. intros Hno Hr. destruct (qw_bo _ _ Hwf b B HB) as [HBs HBp HBq]. pose proof (qw_limit _ _ Hwf) as Hl.
  assert (charge_of B1 = charge_of B) as Hch by (unfold charge_of; by rewrite Ek).
  apply pin_post_intro; try done; try (rewrite ?Hch; lia).
  - constructor; [lia|lia|]. rewrite Ek. destruct (kfd_bo B) as [k|]; [|done].
    destruct (rdma_quota_charged k); [|done]. destruct HBq as (? & ? & ?).
    split; [lia|]. split; [lia|]. rewrite Em; lia.
  - rewrite Ek. unfold pin_quota. destruct (kfd_bo B); [|done]. destruct (bit domain _); [|done]. by specialize (Hno eq_refl).
  - rewrite Hch. unfold pin_charged, charge_of. destruct (kfd_bo B) as [k|] eqn:Hk; [|done].
    destruct (rdma_quota_charged k); [done|]. destruct (bit domain _) eqn:Hb; [|done]. by specialize (Hno eq_refl).
Qed.
End PinAccount.

Lemma pin_account_ok s b B B1 d1 domain accounted existing :
  quota_wf p s -> bos s !! b = Some B -> pin_count B + 1 < 2 ^ 32 ->
  bo_size B1 = bo_size B -> kfd_bo B1 = kfd_bo B -> pin_count B1 = pin_count B + 1 ->
  (pin_count B <> 0 -> mem_type B1 = mem_type B) -> charge_post s B domain false accounted existing d1 ->
  exists d2 B2,
    pin_account p b domain accounted existing (mkRdma d1 (<[b := B1]> (bos s))) =
      Some (tt, mkRdma d2 (<[b := B2]> (bos s))) /\
    pin_post s b B domain (mem_type B1) d2 B2.
Proof using Hmax.
  intros Hwf HB Hpc Es Ek Ep Em (Hv & (Hr & Hle) & Hacc & Hex & Hno).
  unfold pin_account. unfold st_bind at 1, get_bo. cbn [bos]. rewrite lookup_insert_eq, Ek, max_nonzero, Es.
  set (d := if mem_type B1 =? TTM_PL_VRAM then set_vram_pinned (s64 (vram_pinned d1 + bo_size B)) d1 else d1).
  assert (forall f : RM unit, st_bind (st_when (mem_type B1 =? TTM_PL_VRAM)
      (upd_dev (fun d => set_vram_pinned (s64 (vram_pinned d + bo_size B)) d))) (fun _ : unit => f)
      (mkRdma d1 (<[b := B1]> (bos s))) = f (mkRdma d (<[b := B1]> (bos s)))) as ->.
  { intros f. unfold d. by destruct (mem_type B1 =? TTM_PL_VRAM). }
  assert (rdma_pinned_bytes d = rdma_pinned_bytes d1 /\ vram_pinned d = (if mem_type B1 =? TTM_PL_VRAM
    then s64 (vram_pinned (dev s) + bo_size B) else vram_pinned (dev s))) as [Hr' Hv'].
  { unfold d. rewrite <- Hv. by destruct (mem_type B1 =? TTM_PL_VRAM). }
  clearbody d. destruct accounted; [|rewrite Bool.andb_false_l, Z.add_0_r in *; destruct existing].
  - destruct (Hacc eq_refl) as (-> & Hc0 & Hb & k & Hk & Hkc). rewrite Hk, Hb. cbn [negb andb].
    destruct (pin_account_new s b B B1 d domain Hwf HB Hpc Es Ek Ep Hv' k) as (d2 & B2 & E & Hp); try done; [lia|lia|].
    exists d2, B2. split; [|done]. rewrite <- E. by destruct (mem_type B1 =? TTM_PL_VRAM).
  - destruct (Hex eq_refl) as (Hb & k & Hk & Hkc). rewrite Hk, Hb. cbn [negb andb].
    destruct (pin_account_again s b B B1 d domain Hwf HB Hpc Es Ek Ep Em Hv' k) as (Hm & B2 & E & Hp); try done; [lia|].
    exists d, B2. split; [|done]. rewrite <- E, Hm. done.
  - exists d, B1. split; [by destruct (_ && _)|]. apply pin_account_none; auto. lia.
Qed.
(** What [ttm_bo_validate] promises the pin path: errors are nonzero and a
    pinned BO is not moved. *)
Record pin_env_ok (env : pin_env) (B : amdgpu_bo) : Prop := {
  pv_move : forall r, pe_move_gtt env = inl r -> r <> 0;
  pv_validate : forall r, pe_validate env = inl r -> r <> 0;
  pv_pinned : pin_count B <> 0 -> exists r, pe_move_gtt env = inl r
}.

(** The state after a pin that failed: nothing is accounted. *)
Record pin_failed (s : rdma_state) (b : positive) (B : amdgpu_bo) (d : kfd_dev) (B' : amdgpu_bo) : Prop := {
  pf_wf : quota_wf p (mkRdma d (<[b := B']> (bos s)));
  pf_total : rdma_pinned_bytes d = rdma_pinned_bytes (dev s);
  pf_vram : vram_pinned d = vram_pinned (dev s);
  pf_size : bo_size B' = bo_size B;
  pf_count : pin_count B' = pin_count B;
  pf_quota : kfd_bo B' = kfd_bo B
}.

Lemma pin_failed_intro s b B d B' :
  quota_wf p s -> bos s !! b = Some B -> rdma_pinned_bytes d = rdma_pinned_bytes (dev s) ->
  vram_pinned d = vram_pinned (dev s) -> bo_size B' = bo_size B -> pin_count B' = pin_count B ->
  kfd_bo B' = kfd_bo B -> (pin_count B <> 0 -> mem_type B' = mem_type B) -> pin_failed s b B d B'.
Proof using.
  clear Hmax. intros Hwf HB Hr Hv Hs Hc Hk Hm. constructor; try done.
  destruct (qw_bo _ _ Hwf b B HB) as [HBs HBp HBq]. pose proof (qw_limit _ _ Hwf) as Hl.
  assert (charge_of B' = charge_of B) as Hch by (unfold charge_of; by rewrite Hk).
  eapply quota_wf_bo; try done; [|lia|lia]. constructor; [lia|lia|]. rewrite Hk, Hs, Hc.
  destruct (kfd_bo B) as [k|]; [|done]. destruct (rdma_quota_charged k); [|done].
  destruct HBq as (? & ? & ?). split; [lia|]. split; [lia|]. rewrite Hm; lia.
Qed.

Lemma pin_err_ok s b B B' d accounted existing domain r :
  quota_wf p s -> bos s !! b = Some B -> charge_post s B domain false accounted existing d ->
  bo_size B' = bo_size B -> pin_count B' = pin_count B -> kfd_bo B' = kfd_bo B ->
  (pin_count B <> 0 -> mem_type B' = mem_type B) ->
  exists d2, pin_err p accounted (bo_size B) r (mkRdma d (<[b := B']> (bos s))) =
      Some (r, mkRdma d2 (<[b := B']> (bos s))) /\ pin_failed s b B d2 B'.
Proof using Hmax.
  intros Hwf HB (Hv & (Hr & Hle) & _) Hs Hc Hk Hm. destruct (qw_bo _ _ Hwf b B HB) as [HBs _ _].
  pose proof (qw_limit _ _ Hwf) as Hl. pose proof pin_max_range as Hmr. unfold pin_err. destruct accounted.
  - destruct (drop_ok (mkRdma d (<[b := B']> (bos s))) (bo_size B)) as (d2 & E & V & R); cbn [dev] in *; [lia|lia|].
    cbn [st_when]. rewrite (st_bind_run _ _ _ _ _ E). exists d2. split; [done|].
    apply pin_failed_intro; try done; [lia|congruence].
  - exists d. split; [done|]. apply pin_failed_intro; try done; lia.
Qed.

Lemma pin_move_ok env s b B d :
  bos s !! b = Some B -> pin_env_ok env B ->
  exists r B', pin_move env b B (mkRdma d (bos s)) = Some (r, mkRdma d (<[b := B']> (bos s))) /\
    bo_size B' = bo_size B /\ pin_count B' = pin_count B /\ kfd_bo B' = kfd_bo B /\
    (pin_count B <> 0 -> mem_type B' = mem_type B).
Proof using.
  clear Hmax. intros HB [_ _ Hp].
  assert (forall r : Z, exists r' B', Some (r, mkRdma d (bos s)) = Some (r', mkRdma d (<[b := B']> (bos s))) /\
    bo_size B' = bo_size B /\ pin_count B' = pin_count B /\ kfd_bo B' = kfd_bo B /\
    (pin_count B <> 0 -> mem_type B' = mem_type B)) as Hsame.
  { intros r. exists r, B. by rewrite insert_id. }
  unfold pin_move. destruct (_ && _); [|apply Hsame]. destruct (pe_move_gtt env) as [r|[mt pl]] eqn:Em; [apply Hsame|].
  unfold st_bind, upd_bo. cbn [bos dev]. rewrite HB. eexists 0, _. split; [reflexivity|]. simpl.
  split_and!; try done. intros H. destruct (Hp H). congruence.
Qed.

Lemma pin_bo_ok env s b B domain :
  quota_wf p s -> bos s !! b = Some B -> pin_count B + 1 < 2 ^ 32 -> pin_env_ok env B ->
  exists r d B', amdgpu_amdkfd_gpuvm_pin_bo p env b domain s = Some (r, mkRdma d (<[b := B']> (bos s))) /\
    (if r =? 0 then pin_post s b B domain (mem_type B') d B' else pin_failed s b B d B').
Proof using Hmax.
  intros Hwf HB Hpc Henv. destruct (qw_bo _ _ Hwf b B HB) as [_ HBp _].
  assert (forall r d, r <> 0 -> rdma_pinned_bytes d = rdma_pinned_bytes (dev s) -> vram_pinned d = vram_pinned (dev s) ->
    exists r' d' B', Some (r, mkRdma d (bos s)) = Some (r', mkRdma d' (<[b := B']> (bos s))) /\
    (if r' =? 0 then pin_post s b B domain (mem_type B') d' B' else pin_failed s b B d' B')) as Herr.
  { intros r d Hr H1 H2. exists r, d, B. rewrite insert_id by done. split; [done|].
    destruct (Z.eqb_spec r 0); [done|]. by apply pin_failed_intro. }
  unfold amdgpu_amdkfd_gpuvm_pin_bo. unfold st_bind at 1, get_bo. rewrite HB.
  destruct (negb (dmabuf_reject_new_pins p =? 0)); [by apply Herr|].
  destruct (Z.eqb_spec (pe_reserve env) 0) as [_|Hres]; cbn [negb].
  2: { destruct s as [d m]. by apply (Herr _ d). }
  destruct (pin_charge_ok s b B domain Hwf HB) as (refused & accounted & existing & d & E & Hc).
  rewrite (st_bind_run _ _ _ _ _ E). destruct refused; [destruct Hc as (? & (? & ?) & _); by apply Herr|].
  destruct (pin_move_ok env s b B d HB Henv) as (mv & B1 & E1 & S1 & C1 & K1 & M1).
  rewrite (st_bind_run _ _ _ _ _ E1). destruct (Z.eqb_spec mv 0) as [->|Hmv]; cbn [negb].
  2: { destruct (pin_err_ok s b B B1 d accounted existing domain mv) as (d2 & E2 & Hf); try done.
    exists mv, d2, B1. split; [done|]. by destruct (Z.eqb_spec mv 0). }
  destruct (bo_pin_run (mkRdma d (<[b := B1]> (bos s))) b B1 domain (pe_validate env))
    as (r & B2 & d2 & E2 & R2 & V2 & S2 & K2 & C2 & M2 & _); [apply lookup_insert_eq|lia|lia|apply Henv|].
  cbn [bos dev] in *. rewrite insert_insert_eq in E2. rewrite (st_bind_run _ _ _ _ _ E2).
  assert (charge_post s B domain false accounted existing d2) as Hc2.
  { destruct Hc as (? & (? & ?) & ? & ? & ?). unfold charge_post. split_and!; try done; try lia; congruence. }
  assert (pin_count B <> 0 -> mem_type B2 = mem_type B) as HM2 by (intros; rewrite M2, M1; lia).
  destruct (Z.eqb_spec r 0) as [->|Hr]; cbn [negb].
  - destruct (pin_account_ok s b B B2 d2 domain accounted existing) as (d3 & B3 & E3 & Hp); try done; try congruence; try lia.
    rewrite (st_bind_run _ _ _ _ _ E3). exists 0, d3, B3. split; [done|]. simpl. by rewrite (pp_type _ _ _ _ _ _ _ Hp).
  - destruct (pin_err_ok s b B B2 d2 accounted existing domain r) as (d3 & E3 & Hf); try done; try congruence.
    exists r, d3, B2. split; [done|]. by destruct (Z.eqb_spec r 0).
Qed.

(** ** Unpinning *)

Lemma drain_run timeout left s :
  exists r d, amdgpu_kfd_unpin_drain timeout left s = Some (r, mkRdma d (bos s)) /\
    rdma_pinned_bytes d = rdma_pinned_bytes (dev s) /\ vram_pinned d = vram_pinned (dev s).
Proof using.
  unfold amdgpu_kfd_unpin_drain. destruct (timeout <=? 0); [eexists _, (dev s); by destruct s|].
  destruct (left =? 0); [by eexists _, _|]. destruct (left <? 0); eexists _, (dev s); by destruct s.
Qed.

Lemma bo_unpin_run s b B :
  bos s !! b = Some B -> 0 < pin_count B ->
  exists d, amdgpu_bo_unpin b s = Some (tt, mkRdma d (<[b := set_pin_count (pin_count B - 1) B]> (bos s))) /\
    rdma_pinned_bytes d = rdma_pinned_bytes (dev s) /\ vram_pinned d = vram_pinned (dev s).
Proof using.
  clear Hmax. intros HB Hp. unfold amdgpu_bo_unpin. unfold st_bind at 1, get_bo. rewrite HB.
  destruct (Z.eqb_spec (pin_count B) 0); [lia|]. unfold st_bind, upd_bo. rewrite HB.
  destruct (negb _); [by eexists|]. unfold upd_dev, st_mod. cbn [dev bos].
  eexists. split; [reflexivity|]. by destruct (mem_type B =? TTM_PL_VRAM), (mem_type B =? TTM_PL_TT).
Qed.

(** The charge that is left after one unpin. *)
Definition unpin_charged (B : amdgpu_bo) : Z :=
  match kfd_bo B with
  | Some k => if rdma_quota_charged k && (1 <? rdma_quota_pin_count k) then rdma_quota_bytes k else 0
  | None => 0
  end.

Record unpin_post (s : rdma_state) (b : positive) (B : amdgpu_bo) (d : kfd_dev) (B' : amdgpu_bo) : Prop := {
  up_wf : quota_wf p (mkRdma d (<[b := B']> (bos s)));
  up_size : bo_size B' = bo_size B;
  up_count : pin_count B' = pin_count B - 1;
  up_type : mem_type B' = mem_type B;
  up_charge : charge_of B' = unpin_charged B;
  up_total : rdma_pinned_bytes d = rdma_pinned_bytes (dev s) - charge_of B + unpin_charged B;
  up_vram : vram_pinned d = (if mem_type B =? TTM_PL_VRAM then s64 (vram_pinned (dev s) - bo_size B)
                             else vram_pinned (dev s))
}.

Lemma unpin_quota_run s b B :
  bos s !! b = Some B -> 0 < pin_count B -> bo_ok B ->
  let B1 := set_pin_count (pin_count B - 1) B in
  forall d, exists drop B2,
    unpin_quota p b (mkRdma d (<[b := B1]> (bos s))) = Some (drop, mkRdma d (<[b := B2]> (bos s))) /\
    bo_ok B2 /\ bo_size B2 = bo_size B /\ pin_count B2 = pin_count B - 1 /\ mem_type B2 = mem_type B /\
    charge_of B2 = unpin_charged B /\
    match drop with Some bytes => bytes = charge_of B /\ charge_of B2 = 0 | None => charge_of B2 = charge_of B end.
Proof using Hmax.
  intros HB Hp [HBs HBp HBq] B1 d. unfold unpin_quota. unfold st_bind at 1, get_bo. cbn [bos].
  rewrite lookup_insert_eq, max_nonzero. unfold B1. cbn [kfd_bo set_pin_count negb].
  unfold unpin_charged, charge_of. destruct (kfd_bo B) as [k|] eqn:Ek.
  2: { eexists None, _. split; [done|]. split_and!; try done; simpl; [constructor; simpl; try lia; by rewrite Ek|by rewrite Ek..]. }
  destruct (rdma_quota_charged k) eqn:Ec; cbn [andb].
  2: { eexists None, _. split; [done|]. split_and!; try done; simpl;
         [constructor; simpl; try lia; by rewrite Ek, Ec|by rewrite Ek, Ec..]. }
  destruct HBq as (Hq1 & Hq2 & Hq3). destruct (Z.eqb_spec (rdma_quota_pin_count k) 0); [lia|].
  destruct (Z.eqb_spec (rdma_quota_pin_count k - 1) 0); destruct (Z.ltb_spec 1 (rdma_quota_pin_count k)); try lia;
    unfold st_bind, upd_bo; cbn [bos dev]; rewrite lookup_insert_eq, insert_insert_eq.
  - eexists (Some _), _. split; [done|]. simpl. rewrite Ek. split_and!; try done. constructor; simpl; try lia. by rewrite Ek.
  - eexists None, _. split; [done|]. simpl. rewrite Ek. split_and!; try done. constructor; simpl; try lia. rewrite Ek. simpl. lia.
Qed.

Lemma read_clamped_run s :
  0 <= rdma_pinned_bytes (dev s) -> amdgpu_kfd_rdma_accounting_read_clamped s = Some (rdma_pinned_bytes (dev s), s).
Proof using.
  intros H. unfold amdgpu_kfd_rdma_accounting_read_clamped, st_bind, st_get.
  by destruct (Z.leb_spec 0 (rdma_pinned_bytes (dev s))); [|lia].
Qed.

(** The counters after the unpin of a BO in VRAM. *)
Lemma unpin_tail drop size s :
  0 <= match drop with Some bytes => bytes | None => 0 end <= rdma_pinned_bytes (dev s) ->
  rdma_pinned_bytes (dev s) < 2 ^ 63 ->
  exists d, (upd_dev (fun d => set_vram_pinned (s64 (vram_pinned d - size)) d) ;;
    (match drop with Some bytes => amdgpu_kfd_rdma_quota_drop p bytes | None => st_ret tt end) ;;
    st_when (negb (dmabuf_pin_max_mb p =? 0))
      (t <- amdgpu_kfd_rdma_accounting_read_clamped ;; amdgpu_kfd_pin_watermark_check p (u64 t))) s =
    Some (tt, mkRdma d (bos s)) /\
    rdma_pinned_bytes d = rdma_pinned_bytes (dev s) - match drop with Some bytes => bytes | None => 0 end /\
    vram_pinned d = s64 (vram_pinned (dev s) - size).
Proof using Hmax.
  intros Hd Hlt. rewrite max_nonzero. cbn [negb st_when]. unfold st_bind at 1, upd_dev, st_mod.
  set (s1 := mkRdma (set_vram_pinned _ (dev s)) (bos s)).
  assert (exists d, (match drop with Some bytes => amdgpu_kfd_rdma_quota_drop p bytes | None => st_ret tt end) s1 =
    Some (tt, mkRdma d (bos s)) /\ vram_pinned d = vram_pinned (dev s1) /\
    rdma_pinned_bytes d = rdma_pinned_bytes (dev s) - match drop with Some bytes => bytes | None => 0 end)
    as (d1 & E1 & V1 & R1).
  { destruct drop as [bytes|].
    - destruct (drop_ok s1 bytes) as (d & E & V & R); [exact Hd|exact Hlt|]. by exists d.
    - exists (dev s1). simpl. split; [done|]. split; [done|lia]. }
  rewrite (st_bind_run _ _ _ _ _ E1), (st_bind_run _ _ _ _ _ (read_clamped_run (mkRdma d1 (bos s)) ltac:(cbn [dev]; lia))).
  destruct (watermark_run (u64 (rdma_pinned_bytes d1)) (mkRdma d1 (bos s))) as (d2 & E2 & R2 & V2). cbn [dev bos] in *.
  exists d2. split; [exact E2|]. split; [lia|]. rewrite V2, V1. done.
Qed.

Lemma unpin_bo_ok reserve drain s b B :
  quota_wf p s -> bos s !! b = Some B ->
  exists d B', amdgpu_amdkfd_gpuvm_unpin_bo p reserve drain b s = Some (tt, mkRdma d (<[b := B']> (bos s))) /\
    if (reserve =? 0) && (0 <? pin_count B) then unpin_post s b B d B' else d = dev s /\ B' = B.
Proof using Hmax.
  intros Hwf HB. pose proof (qw_bo _ _ Hwf b B HB) as Hok. pose proof (charge_bounds _ _ _ Hwf HB) as Hcb.
  pose proof (qw_limit _ _ Hwf) as Hl. pose proof pin_max_range as Hmr.
  assert (exists d B', Some (tt, s) = Some (tt, mkRdma d (<[b := B']> (bos s))) /\ d = dev s /\ B' = B) as Hskip.
  { exists (dev s), B. rewrite insert_id by done. by destruct s. }
  unfold amdgpu_amdkfd_gpuvm_unpin_bo. destruct (Z.eqb_spec reserve 0) as [_|Hr]; cbn [negb andb]; [|exact Hskip].
  unfold st_bind at 1, get_bo. rewrite HB. pose proof (bo_pin_ok _ Hok) as Hpc.
  destruct (Z.eqb_spec (pin_count B) 0) as [Hz|Hz]; destruct (Z.ltb_spec 0 (pin_count B)) as [Hp|Hp]; try lia; [exact Hskip|].
  destruct (drain_run (kfd_unpin_drain_ms p) drain s) as (r0 & d0 & E0 & R0 & V0). rewrite (st_bind_run _ _ _ _ _ E0).
  destruct (bo_unpin_run (mkRdma d0 (bos s)) b B HB Hp) as (d1 & E1 & R1 & V1). rewrite (st_bind_run _ _ _ _ _ E1).
  destruct (unpin_quota_run s b B HB Hp Hok d1) as (drop & B2 & E2 & Hok2 & S2 & C2 & M2 & Q2 & D2).
  cbn [bos dev] in *. rewrite (st_bind_run _ _ _ _ _ E2).
  destruct (Z.eqb_spec (mem_type B) TTM_PL_VRAM) as [Hm|Hm].
  2: { exists d1, B2. split; [done|].
    assert (charge_of B = 0 /\ unpin_charged B = 0) as [HcB HuB].
    { destruct Hok as [_ _ Hq]. unfold charge_of, unpin_charged. destruct (kfd_bo B) as [k|]; [|done].
      destruct (rdma_quota_charged k); [|done]. by destruct Hq as (_ & _ & ?). }
    constructor; try done; [eapply quota_wf_bo; try done; lia|lia|]. destruct (Z.eqb_spec (mem_type B) TTM_PL_VRAM); congruence. }
  assert (0 <= match drop with Some bytes => bytes | None => 0 end <= rdma_pinned_bytes d1) as Hd by (destruct drop; lia).
  destruct (unpin_tail drop (bo_size B) (mkRdma d1 (<[b := B2]> (bos s))) Hd) as (d2 & E3 & R3 & V3);
    cbn [dev bos] in *; [lia|].
  exists d2, B2. split; [exact E3|]. constructor; try done.
  - eapply quota_wf_bo; try done; destruct drop; lia.
  - destruct drop; lia.
  - by rewrite V3, V1, V0, Hm.
Qed.

(** ** The reaper *)

Lemma unpin_all_run n s b B :
  bos s !! b = Some B -> 0 <= pin_count B <= Z.of_nat n ->
  exists d, unpin_all n b s = Some (tt, mkRdma d (<[b := set_pin_count 0 B]> (bos s))) /\
    rdma_pinned_bytes d = rdma_pinned_bytes (dev s) /\ vram_pinned d = vram_pinned (dev s).
Proof using.
  clear Hmax. revert s B. induction n as [|n IH]; intros s B HB Hn;
    cbn [unpin_all]; unfold st_bind at 1, get_bo; rewrite HB; destruct (Z.ltb_spec 0 (pin_count B)); try lia.
  1, 3: assert (set_pin_count 0 B = B) as -> by (destruct B; unfold set_pin_count; simpl in *; f_equal; lia);
    exists (dev s); rewrite insert_id by done; by destruct s.
  destruct (bo_unpin_run s b B HB) as (d & E & R & V); [lia|]. rewrite (st_bind_run _ _ _ _ _ E).
  destruct (IH (mkRdma d (<[b := set_pin_count (pin_count B - 1) B]> (bos s))) (set_pin_count (pin_count B - 1) B))
    as (d2 & E2 & R2 & V2); [apply lookup_insert_eq|simpl; lia|]. cbn [bos dev] in *. rewrite insert_insert_eq in E2.
  exists d2. split; [exact E2|]. split; congruence.
Qed.

Lemma unpin_all_of_run s b B :
  bos s !! b = Some B -> 0 <= pin_count B ->
  exists d, unpin_all_of b s = Some (tt, mkRdma d (<[b := set_pin_count 0 B]> (bos s))) /\
    rdma_pinned_bytes d = rdma_pinned_bytes (dev s) /\ vram_pinned d = vram_pinned (dev s).
Proof using.
  clear Hmax. intros HB Hp. unfold unpin_all_of, st_bind, get_bo. rewrite HB. apply unpin_all_run; [done|lia].
Qed.

(** Reaping a BO that could be reserved takes all its pins and its charge. *)
Record reap_post (s : rdma_state) (b : positive) (B : amdgpu_bo) (reserved : bool) (d : kfd_dev) (B' : amdgpu_bo) : Prop := {
  rp_wf : quota_wf p (mkRdma d (<[b := B']> (bos s)));
  rp_refs : bo_refs B' = bo_refs B - 1;
  rp_count : pin_count B' = (if reserved then 0 else pin_count B);
  rp_charge : charge_of B' = (if reserved then 0 else charge_of B);
  rp_total : rdma_pinned_bytes d = rdma_pinned_bytes (dev s) - (if reserved then charge_of B else 0);
  rp_vram : vram_pinned d = (if reserved && (mem_type B =? TTM_PL_VRAM) then s64 (vram_pinned (dev s) - bo_size B)
                             else vram_pinned (dev s))
}.

Lemma reap_unpin_run drain b s B :
  quota_wf p s -> bos s !! b = Some B ->
  exists d B', reap_unpin p drain b s = Some (tt, mkRdma d (<[b := B']> (bos s))) /\
    bo_ok B' /\ bo_refs B' = bo_refs B /\ pin_count B' = 0 /\ charge_of B' = 0 /\
    rdma_pinned_bytes d = rdma_pinned_bytes (dev s) - charge_of B /\
    vram_pinned d = (if mem_type B =? TTM_PL_VRAM then s64 (vram_pinned (dev s) - bo_size B) else vram_pinned (dev s)).
Proof using Hmax.
  intros Hwf HB. pose proof (charge_bounds _ _ _ Hwf HB) as Hcb. pose proof (qw_limit _ _ Hwf) as Hl.
  pose proof pin_max_range as Hmr. destruct (qw_bo _ _ Hwf _ B HB) as [HBs HBp HBq]. unfold reap_unpin.
  destruct (drain_run (kfd_unpin_drain_ms p) drain s) as (r0 & d0 & E0 & R0 & V0). rewrite (st_bind_run _ _ _ _ _ E0).
  unfold st_bind at 1, get_bo at 1. cbn [bos]. rewrite HB. cbv zeta. rewrite max_nonzero. cbn [negb andb].
  set (charged := match kfd_bo B with Some k => rdma_quota_charged k | None => false end).
  set (bytes := match kfd_bo B with Some _ => _ | None => 0 end).
  assert (bytes = charge_of B) as -> by (unfold bytes, charge_of, charged; by destruct (kfd_bo B)).
  set (B1 := if charged then set_quota false 0 0 B else B).
  assert (st_when charged (upd_bo b (set_quota false 0 0)) (mkRdma d0 (bos s)) =
    Some (tt, mkRdma d0 (<[b := B1]> (bos s)))) as E1.
  { unfold B1. destruct charged; cbn [st_when]; [unfold upd_bo; cbn [bos]; by rewrite HB|by rewrite insert_id]. }
  rewrite (st_bind_run _ _ _ _ _ E1).
  assert (pin_count B1 = pin_count B /\ bo_size B1 = bo_size B /\ mem_type B1 = mem_type B /\ bo_refs B1 = bo_refs B)
    as (C1 & S1 & M1 & F1) by (unfold B1; by destruct charged).
  assert (match kfd_bo B1 with Some k => rdma_quota_charged k = false /\ rdma_quota_pin_count k = 0 /\ rdma_quota_bytes k = 0
          | None => True end) as Hk1.
  { unfold B1, charged. destruct (kfd_bo B) as [k|] eqn:Ek; [|by rewrite Ek].
    destruct (rdma_quota_charged k) eqn:Ec; [simpl; by rewrite Ek|by rewrite Ek]. }
  clearbody B1.
  destruct (unpin_all_of_run (mkRdma d0 (<[b := B1]> (bos s))) b B1) as (d2 & E2 & R2 & V2);
    [apply lookup_insert_eq|lia|]. cbn [bos dev] in *. rewrite insert_insert_eq in E2.
  rewrite (st_bind_run _ _ _ _ _ E2). unfold st_bind at 1, get_bo at 1. cbn [bos]. rewrite lookup_insert_eq.
  cbn [set_pin_count mem_type bo_size]. rewrite M1, S1.
  assert (bo_ok (set_pin_count 0 B1) /\ charge_of (set_pin_count 0 B1) = 0) as [Hok1 Hc1].
  { unfold charge_of. simpl. split; [constructor; simpl; [lia|lia|]|];
      (destruct (kfd_bo B1) as [k|]; [destruct Hk1 as (-> & ? & ?)|]; done). }
  destruct (Z.eqb_spec (mem_type B) TTM_PL_VRAM) as [Hm|Hm]; cbn [st_when].
  - unfold st_bind at 1, upd_dev, st_mod. cbn [dev bos].
    destruct (Z.eqb_spec (charge_of B) 0) as [Hz|Hz]; cbn [negb st_when].
    + eexists _, _. split; [reflexivity|]. split_and!; try done; simpl; [lia|congruence].
    + destruct (drop_ok (mkRdma (set_vram_pinned (s64 (vram_pinned d2 - bo_size B)) d2)
        (<[b := set_pin_count 0 B1]> (bos s))) (charge_of B)) as (d3 & E3 & V3 & R3); cbn in *; [lia|lia|].
      eexists _, _. split; [exact E3|]. split_and!; try done; simpl; [lia|congruence].
  - assert (charge_of B = 0) as Hz.
    { unfold charge_of. destruct (kfd_bo B) as [k|]; [|done]. destruct (rdma_quota_charged k); [|done]. tauto. }
    eexists _, _. split; [reflexivity|]. split_and!; try done; simpl; [lia|congruence].
Qed.

Lemma reap_one_ok reserve drain op s B :
  quota_wf p s -> bos s !! op_bo op = Some B ->
  exists d B', reap_one p reserve drain op s = Some (tt, mkRdma d (<[op_bo op := B']> (bos s))) /\
    reap_post s (op_bo op) B (reserve =? 0) d B'.
Proof using Hmax.
  intros Hwf HB. set (b := op_bo op) in *. pose proof (charge_bounds _ _ _ Hwf HB) as Hcb. pose proof (qw_limit _ _ Hwf) as Hl.
  assert (exists d1 B1, st_when (reserve =? 0) (reap_unpin p drain b) s = Some (tt, mkRdma d1 (<[b := B1]> (bos s))) /\
    reap_post s b B (reserve =? 0) d1 (set_bo_refs (bo_refs B1 - 1) B1)) as (d1 & B1 & E1 & []).
  { destruct (reserve =? 0); cbn [st_when].
    - destruct (reap_unpin_run drain b s B Hwf HB) as (d & B' & E & Hok & F & C & Q & R & V).
      exists d, B'. split; [done|]. constructor; try done; [|simpl; lia].
      eapply quota_wf_bo; try done; [by destruct Hok|change (charge_of (set_bo_refs _ B')) with (charge_of B'); lia|lia].
    - exists (dev s), B. split; [rewrite insert_id by done; by destruct s|]. constructor; try done; [|lia].
      pose proof (qw_bo _ _ Hwf _ _ HB) as []. eapply quota_wf_bo; try done.
      change (charge_of (set_bo_refs _ B)) with (charge_of B). lia. }
  unfold reap_one. fold b. rewrite (st_bind_run _ _ _ _ _ E1). unfold st_bind, upd_bo. cbn [bos dev].
  rewrite lookup_insert_eq, insert_insert_eq. unfold upd_dev, st_mod. cbn [bos dev].
  eexists _, _. split; [reflexivity|]. constructor; try done. exact (quota_wf_dev _ (set_orphans _ _ _ d1) rp_wf0 eq_refl).
Qed.
End Accounting.

(** ** Orphans and references *)

(** What every operation on pins leaves alone: the orphan list and the reference
    counts. *)
Definition same_refs (s s' : rdma_state) : Prop :=
  orphan_list (dev s') = orphan_list (dev s) /\
  forall b, match bos s !! b, bos s' !! b with
            | Some B, Some B' => bo_refs B' = bo_refs B
            | None, None => True
            | _, _ => False
            end.

Global Instance same_refs_preorder : PreOrder same_refs.
Proof.
  split.
  - intros s. split; [done|]. intros b. by destruct (bos s !! b).
  - intros s1 s2 s3 [O1 R1] [O2 R2]. split; [congruence|]. intros b. specialize (R1 b). specialize (R2 b).
    destruct (bos s1 !! b), (bos s2 !! b), (bos s3 !! b); try done. congruence.
Qed.

Abbreviation keeps := (respects same_refs).

Lemma keeps_get_bo b : keeps (get_bo b).
Proof. intros s x s'. unfold get_bo. destruct (bos s !! b); [|done]. intros [= <- <-]. reflexivity. Qed.
Lemma keeps_upd_dev f : (forall d, orphan_list (f d) = orphan_list d) -> keeps (upd_dev f).
Proof. intros Hf s x s' [= <- <-]. split; [apply Hf|]. intros b. cbn [bos]. by destruct (bos s !! b). Qed.
Lemma keeps_upd_bo b f : (forall B, bo_refs (f B) = bo_refs B) -> keeps (upd_bo b f).
Proof.
  intros Hf s x s'. unfold upd_bo. destruct (bos s !! b) as [B|] eqn:E; [|done]. intros [= <- <-].
  split; [done|]. intros c. cbn [bos]. destruct (decide (c = b)) as [->|].
  - rewrite E, lookup_insert_eq. apply Hf.
  - rewrite lookup_insert_ne by done. by destruct (bos s !! c).
Qed.

Create HintDb rdma_keeps.
#[export] Hint Resolve keeps_get_bo : rdma_keeps.

(** Follows the structure of an operation. *)
Ltac keeps_step :=
  match goal with
  | |- forall _, _ => intros ?
  | |- keeps (st_bind _ _) => apply (respects_bind same_refs)
  | |- keeps (st_when _ _) => apply (respects_when same_refs)
  | |- keeps (st_ret _) => apply (respects_ret same_refs)
  | |- keeps st_bug => apply respects_bug
  | |- keeps st_get => apply (respects_get same_refs)
  | |- keeps (upd_dev _) => apply keeps_upd_dev; intros ?; cbv zeta; repeat case_match; done
  | |- keeps (upd_bo _ _) => apply keeps_upd_bo; intros ?; unfold set_quota; repeat case_match; done
  | |- keeps (match ?x with _ => _ end) => destruct x
  | |- _ => solve [eauto with rdma_keeps]
  end.
Ltac keeps := repeat (cbv zeta; keeps_step).

Section Keeps.
Context (p : pin_params).

Lemma keeps_drop bytes : keeps (amdgpu_kfd_rdma_quota_drop p bytes).
Proof. unfold amdgpu_kfd_rdma_quota_drop. keeps. Qed.
Lemma keeps_charge size : keeps (amdgpu_kfd_rdma_quota_try_charge p size).
Proof. unfold amdgpu_kfd_rdma_quota_try_charge. keeps. Qed.
Lemma keeps_watermark t : keeps (amdgpu_kfd_pin_watermark_check p t).
Proof. unfold amdgpu_kfd_pin_watermark_check. keeps. Qed.
Lemma keeps_read : keeps amdgpu_kfd_rdma_accounting_read_clamped.
Proof. unfold amdgpu_kfd_rdma_accounting_read_clamped. keeps. Qed.
Lemma keeps_drain t l : keeps (amdgpu_kfd_unpin_drain t l).
Proof. unfold amdgpu_kfd_unpin_drain. keeps. Qed.
Lemma keeps_bo_pin b domain v : keeps (amdgpu_bo_pin b domain v).
Proof. unfold amdgpu_bo_pin. keeps. Qed.
Lemma keeps_bo_unpin b : keeps (amdgpu_bo_unpin b).
Proof. unfold amdgpu_bo_unpin. keeps. Qed.
#[local] Hint Resolve keeps_drop keeps_charge keeps_watermark keeps_read keeps_drain keeps_bo_pin keeps_bo_unpin : rdma_keeps.

Lemma keeps_pin env b domain : keeps (amdgpu_amdkfd_gpuvm_pin_bo p env b domain).
Proof. unfold amdgpu_amdkfd_gpuvm_pin_bo, pin_charge, pin_move, pin_err, pin_account. keeps. Qed.

Lemma keeps_unpin reserve drain b : keeps (amdgpu_amdkfd_gpuvm_unpin_bo p reserve drain b).
Proof. unfold amdgpu_amdkfd_gpuvm_unpin_bo, unpin_quota. keeps. Qed.

Lemma keeps_unpin_all n b : keeps (unpin_all n b).
Proof. induction n as [|n IH]; cbn [unpin_all]; keeps. Qed.
#[local] Hint Resolve keeps_unpin_all : rdma_keeps.

Lemma keeps_reap_unpin drain b : keeps (reap_unpin p drain b).
Proof. unfold reap_unpin, unpin_all_of, amdgpu_kfd_rdma_quota_drop_saturated. keeps. Qed.
End Keeps.
