(* ===== verification/RdmaProps.v ===== *)
(** * RDMA pin accounting: what it guarantees

    The operations as steps of a system of buffer objects, pins and orphans, the
    quota in every state that can be reached, and what each operation does on
    each of its branches. *)

From S2P Require Import Prelude Rdma RdmaInv.
From stdpp Require Import gmap list relations.
From Stdlib Require Import ZArith Lia.

Local Open Scope Z_scope.
Local Open Scope st_scope.

(** ** References held by the orphan list *)

Definition orphan_refs (b : positive) (l : list kfd_orphan_pin) : Z :=
  Z.of_nat (length (filter (fun op => op_bo op = b) l)).

Lemma orphan_refs_app b l l' : orphan_refs b (l ++ l') = orphan_refs b l + orphan_refs b l'.
Proof. unfold orphan_refs. rewrite filter_app, length_app. lia. Qed.

Lemma orphan_refs_cons b op l : orphan_refs b (op :: l) = (if decide (op_bo op = b) then 1 else 0) + orphan_refs b l.
Proof. unfold orphan_refs. rewrite filter_cons. destruct (decide _); simpl length; lia. Qed.

Lemma orphan_refs_nonneg b l : 0 <= orphan_refs b l.
Proof. unfold orphan_refs. lia. Qed.

(** Every entry of the list, and of [pending], holds a reference of its own. *)
Definition refs_ok (pending : list kfd_orphan_pin) (s : rdma_state) : Prop :=
  forall b, match bos s !! b with
            | Some B => orphan_refs b pending + orphan_refs b (orphan_list (dev s)) <= bo_refs B
            | None => orphan_refs b pending + orphan_refs b (orphan_list (dev s)) = 0
            end.

Lemma refs_ok_same pending s s' : same_refs s s' -> refs_ok pending s -> refs_ok pending s'.
Proof.
  intros [O R] H b. specialize (H b). specialize (R b). rewrite O.
  destruct (bos s !! b), (bos s' !! b); try done. lia.
Qed.

Lemma refs_ok_alive op pending s : refs_ok (op :: pending) s -> exists B, bos s !! op_bo op = Some B.
Proof.
  intros H. specialize (H (op_bo op)). destruct (bos s !! op_bo op) as [B|]; [by exists B|].
  rewrite orphan_refs_cons, decide_True in H by done. pose proof (orphan_refs_nonneg (op_bo op) pending).
  pose proof (orphan_refs_nonneg (op_bo op) (orphan_list (dev s))). lia.
Qed.

Section Props.
Context (p : pin_params) (msecs_to_jiffies : Z -> Z).
Hypothesis Hmax : 0 < dmabuf_pin_max_mb p < 2 ^ 32.

(** ** The reaper *)

Lemma reap_one_orphans reserve drain op s s' :
  reap_one p reserve drain op s = Some (tt, s') -> orphan_list (dev s') = orphan_list (dev s).
Proof using.
  unfold reap_one, st_bind. destruct (st_when _ _ s) as [[[] s1]|] eqn:E; [|done].
  apply (respects_when same_refs _ _ (keeps_reap_unpin p drain (op_bo op))) in E as [O _].
  unfold upd_bo. destruct (bos s1 !! op_bo op); [|done]. intros [= <-]. exact O.
Qed.

Lemma reap_one_refs reserve drain op l s :
  quota_wf p s -> refs_ok (op :: l) s ->
  exists s' B B', reap_one p reserve drain op s = Some (tt, s') /\ quota_wf p s' /\ refs_ok l s' /\
    orphan_list (dev s') = orphan_list (dev s) /\
    bos s !! op_bo op = Some B /\ bos s' = <[op_bo op := B']> (bos s) /\
    reap_post p s (op_bo op) B (reserve =? 0) (dev s') B'.
Proof using Hmax.
  intros Hwf Hr. destruct (refs_ok_alive _ _ _ Hr) as [B HB].
  destruct (reap_one_ok p Hmax reserve drain op s B Hwf HB) as (d & B' & E & Hp).
  pose proof (reap_one_orphans _ _ _ _ _ E) as O. exists (mkRdma d (<[op_bo op := B']> (bos s))), B, B'.
  split_and!; try done; [apply Hp|]. cbn [dev] in O. intros b. specialize (Hr b). cbn [bos dev]. rewrite O, orphan_refs_cons in *.
  destruct (decide (op_bo op = b)) as [<-|Hb].
  - rewrite lookup_insert_eq, HB, (rp_refs _ _ _ _ _ _ _ Hp) in *. lia.
  - rewrite lookup_insert_ne by done. destruct (bos s !! b); lia.
Qed.

(** The BOs of the entries of [l] whose reservation succeeds. *)
Fixpoint reserved_bos (outcomes : list (Z * Z)) (l : list kfd_orphan_pin) : list positive :=
  match l with
  | [] => []
  | op :: l =>
      let rest := reserved_bos (tl outcomes) l in
      if fst (hd (0, 1) outcomes) =? 0 then op_bo op :: rest else rest
  end.

(** The BOs [freed] lose all their pins and their charge, all others keep both; each entry
    of [l] gives up its reference. *)
Definition reaps (freed : list positive) (l : list kfd_orphan_pin) (s s' : rdma_state) : Prop :=
  forall b, match bos s !! b, bos s' !! b with
            | Some B, Some B' =>
                bo_refs B' = bo_refs B - orphan_refs b l /\
                pin_count B' = (if decide (b ∈ freed) then 0 else pin_count B) /\
                charge_of B' = (if decide (b ∈ freed) then 0 else charge_of B)
            | None, None => True
            | _, _ => False
            end.

Lemma reaps_bos freed l s1 s2 s1' s2' :
  bos s1' = bos s1 -> bos s2' = bos s2 -> reaps freed l s1 s2 -> reaps freed l s1' s2'.
Proof using. intros E1 E2 H b. rewrite E1, E2. apply H. Qed.

Lemma reap_all_ok outcomes l s :
  quota_wf p s -> refs_ok l s ->
  exists s', reap_all p outcomes l s = Some (tt, s') /\ quota_wf p s' /\ refs_ok [] s' /\
    orphan_list (dev s') = orphan_list (dev s) /\ reaps (reserved_bos outcomes l) l s s'.
Proof using Hmax.
  revert outcomes s. induction l as [|op l IH]; intros outcomes s Hwf Hr.
  { exists s. split_and!; try done. intros b. destruct (bos s !! b); [|done]. cbn [reserved_bos].
    rewrite !decide_False by apply not_elem_of_nil. change (orphan_refs b []) with 0. split; [lia|done]. }
  cbn [reap_all reserved_bos]. destruct (hd (0, 1) outcomes) as [r dr] eqn:Eh. cbn [fst].
  destruct (reap_one_refs r dr op l s Hwf Hr) as (s1 & B & B' & E1 & W1 & R1 & O1 & HB & M1 & [_ F C Q _ _]).
  destruct (IH (tl outcomes) s1 W1 R1) as (s2 & E2 & W2 & R2 & O2 & K2).
  rewrite (st_bind_run _ _ _ _ _ E1). exists s2. split_and!; try done; [congruence|].
  intros b. specialize (K2 b). rewrite M1, orphan_refs_cons in *. set (freed := reserved_bos (tl outcomes) l) in *.
  destruct (decide (op_bo op = b)) as [<-|Hb].
  - rewrite HB. rewrite lookup_insert_eq in K2. destruct (bos s2 !! op_bo op) as [B2|]; [|done]. destruct K2 as (-> & -> & ->).
    rewrite C, Q, F. split; [lia|]. destruct (r =? 0); [|done].
    rewrite !(decide_True (P := op_bo op ∈ op_bo op :: freed)) by left. by destruct (decide (op_bo op ∈ freed)).
  - rewrite lookup_insert_ne in K2 by done. destruct (bos s !! b), (bos s2 !! b); try done.
    destruct K2 as (-> & -> & ->). split; [lia|]. destruct (r =? 0); [|done].
    split; (destruct (decide (b ∈ freed)); [by rewrite decide_True by by right|by rewrite decide_False by by intros [->|?]%elem_of_cons]).
Qed.

Lemma reap_split_spec cutoff l :
  let '(now, later) := reap_split cutoff l in
  l = now ++ later /\ Forall (fun op => time_after_eq (queued_at_jiffies op) cutoff = false) now /\
  match later with op :: _ => time_after_eq (queued_at_jiffies op) cutoff = true | [] => True end.
Proof using.
  clear Hmax. induction l as [|op l IH]; simpl; [done|]. destruct (time_after_eq _ cutoff) eqn:E; [done|].
  destruct (reap_split cutoff l) as [now later]. destruct IH as (-> & Hn & Hl). split_and!; [done|by constructor|done].
Qed.

Lemma reschedule_run s :
  exists d, reaper_reschedule p msecs_to_jiffies s = Some (tt, mkRdma d (bos s)) /\
    orphan_list d = orphan_list (dev s) /\ rdma_pinned_bytes d = rdma_pinned_bytes (dev s).
Proof using. unfold reaper_reschedule, upd_dev, st_mod. eexists. split; [done|]. by case_match. Qed.

Lemma refs_ok_bos pending s s' :
  bos s' = bos s -> orphan_list (dev s') = orphan_list (dev s) -> refs_ok pending s -> refs_ok pending s'.
Proof using. intros E1 E2 H b. rewrite E1, E2. apply H. Qed.

Lemma reaper_fn_ok now outcomes s :
  quota_wf p s -> refs_ok [] s ->
  exists s', amdgpu_kfd_reaper_fn p msecs_to_jiffies now outcomes s = Some (tt, s') /\ quota_wf p s' /\ refs_ok [] s' /\
    (0 < pin_orphan_timeout_ms p ->
     let '(reap_now, later) := reap_split (u64 (now - msecs_to_jiffies (pin_orphan_timeout_ms p))) (orphan_list (dev s)) in
     orphan_list (dev s') = later /\ reaps (reserved_bos outcomes reap_now) reap_now s s').
Proof using Hmax.
  intros Hwf Hr. unfold amdgpu_kfd_reaper_fn. destruct (Z.leb_spec (pin_orphan_timeout_ms p) 0).
  { destruct (reschedule_run s) as (d & E & O & R). exists (mkRdma d (bos s)).
    rewrite (st_bind_run _ _ _ tt s) by done. split; [done|]. split; [by apply quota_wf_dev|].
    split; [by apply (refs_ok_bos _ s)|lia]. }
  pose proof (reap_split_spec (u64 (now - msecs_to_jiffies (pin_orphan_timeout_ms p))) (orphan_list (dev s))) as Hs.
  destruct (reap_split _ _) as [reap_now later] eqn:Es. destruct Hs as (Hs & _ & _).
  set (d1 := set_orphans later (rdma_pin_orphans_queued (dev s)) (rdma_pin_orphans_reaped (dev s)) (dev s)).
  destruct (reap_all_ok outcomes reap_now (mkRdma d1 (bos s))) as (s2 & E2 & W2 & R2 & O2 & Q2).
  { by apply quota_wf_dev. }
  { intros b. specialize (Hr b). rewrite Hs, orphan_refs_app in Hr. cbn [bos dev orphan_list set_orphans d1].
    destruct (bos s !! b); change (orphan_refs b []) with 0 in Hr; lia. }
  destruct (reschedule_run s2) as (d3 & E3 & O3 & R3). exists (mkRdma d3 (bos s2)).
  erewrite st_bind_run; [|unfold st_bind, st_get, upd_dev, st_mod; rewrite Es; exact E2].
  split; [done|]. split; [by apply quota_wf_dev|]. split; [by apply (refs_ok_bos _ s2)|].
  intros _. cbn [dev]. rewrite O3, O2. split; [done|]. by apply (reaps_bos _ _ (mkRdma d1 (bos s)) s2).
Qed.

(** ** Freeing a pinned BO *)

Record rdma_inv (s : rdma_state) : Prop := {
  ri_quota : quota_wf p s;
  ri_refs : refs_ok [] s
}.

Lemma rdma_inv_dev s d :
  rdma_inv s -> rdma_pinned_bytes d = rdma_pinned_bytes (dev s) -> orphan_list d = orphan_list (dev s) ->
  rdma_inv (mkRdma d (bos s)).
Proof using. intros [Hq Hr] E O. split; [by apply quota_wf_dev|by apply (refs_ok_bos _ s)]. Qed.

Lemma orphan_queue_ok alloc_ok now pid b bytes s B :
  rdma_inv s -> bos s !! b = Some B ->
  exists s', amdgpu_kfd_orphan_queue alloc_ok now pid (Some b) bytes s = Some (if alloc_ok then 0 else - ENOMEM, s') /\
    rdma_inv s' /\
    orphan_list (dev s') = orphan_list (dev s) ++ (if alloc_ok then [mkOrphan b now bytes pid] else []) /\
    rdma_pinned_bytes (dev s') = rdma_pinned_bytes (dev s) /\
    bos s' = (if alloc_ok then <[b := set_bo_refs (bo_refs B + 1) B]> (bos s) else bos s).
Proof using.
  clear Hmax. intros [Hwf Hr] HB. unfold amdgpu_kfd_orphan_queue. destruct alloc_ok; cbn [negb].
  2: { exists s. split_and!; try done. by rewrite app_nil_r. }
  unfold st_bind, upd_bo. rewrite HB. unfold upd_dev, st_mod, st_ret. cbn [dev bos]. eexists. split; [reflexivity|].
  cbv zeta. match goal with |- rdma_inv (mkRdma ?d _) /\ _ => set (d1 := d) end.
  assert (orphan_list d1 = orphan_list (dev s) ++ [mkOrphan b now bytes pid] /\
          rdma_pinned_bytes d1 = rdma_pinned_bytes (dev s)) as [O1 P1] by (unfold d1; by case_match).
  split; [|done]. split.
  - destruct (qw_bo _ _ Hwf b B HB). pose proof (qw_limit _ _ Hwf). eapply quota_wf_bo; try done; [|lia].
    change (charge_of (set_bo_refs _ B)) with (charge_of B). lia.
  - intros c. specialize (Hr c). cbn [bos dev]. rewrite O1, orphan_refs_app, orphan_refs_cons. cbn [op_bo].
    change (orphan_refs c []) with 0 in *. destruct (decide (b = c)) as [<-|Hc].
    + rewrite lookup_insert_eq, HB in *. simpl. lia.
    + rewrite lookup_insert_ne by done. destruct (bos s !! c); lia.
Qed.

(** The free path, given the outcome [rc] of its wait: a pinned BO whose pins
    did not go away is queued as an orphan. *)
Lemma free_pinned_ok reserve obs alloc_ok now pid b s B rc sleeps :
  rdma_inv s -> bos s !! b = Some B ->
  amdgpu_kfd_wait_pin_drop msecs_to_jiffies (kfd_free_wait_ms p) (pin_count B) now obs = Some (rc, sleeps) ->
  let waits := (1 <=? kfd_free_on_pinned p) && (0 <? kfd_free_wait_ms p) && (reserve =? 0) in
  exists s', free_pinned p msecs_to_jiffies reserve obs alloc_ok now pid b s = Some (tt, s') /\ rdma_inv s' /\
    rdma_pinned_bytes (dev s') = rdma_pinned_bytes (dev s) /\
    orphan_list (dev s') = orphan_list (dev s) ++
      (if (0 <? pin_count B) && (negb waits || (rc =? - EBUSY)) && alloc_ok
       then [mkOrphan b now (bo_size B) pid] else []).
Proof using.
  clear Hmax. intros Hinv HB Hw waits. unfold free_pinned. unfold st_bind at 1, get_bo. rewrite HB.
  destruct (Z.ltb_spec 0 (pin_count B)) as [Hp|Hp]; cbn [negb andb].
  2: { exists s. split_and!; try done. by rewrite app_nil_r. }
  unfold st_bind at 1, upd_dev at 1, st_mod. set (d1 := set_waits _ _ _ (dev s)).
  assert (rdma_inv (mkRdma d1 (bos s))) as Hinv1 by by apply rdma_inv_dev.
  set (w := (1 <=? kfd_free_on_pinned p) && (0 <? kfd_free_wait_ms p)) in *.
  set (rc' := if negb waits then - EBUSY else rc).
  rewrite (st_bind_run _ _ _ rc' (mkRdma d1 (bos s))).
  2: { unfold rc', waits. destruct (w && (reserve =? 0)); cbn [negb]; [|done].
    unfold st_bind, st_of_option. by rewrite Hw. }
  assert ((rc' =? - EBUSY) = negb waits || (rc =? - EBUSY)) as Hrc by (unfold rc'; by destruct waits).
  rewrite Hrc. destruct (negb waits || (rc =? - EBUSY)); cbn [andb].
  2: { eexists. split; [reflexivity|]. split_and!; try done. by rewrite app_nil_r. }
  set (d2 := if w then set_waits (free_wait_pinned_count d1) (s64 (free_wait_pinned_timeout d1 + 1)) (unpin_drain_timeouts d1) d1 else d1).
  assert (rdma_inv (mkRdma d2 (bos s)) /\ orphan_list d2 = orphan_list (dev s) /\ rdma_pinned_bytes d2 = rdma_pinned_bytes (dev s))
    as (Hinv2 & O2 & P2) by (unfold d2; destruct w; [split; [by apply (rdma_inv_dev (mkRdma d1 (bos s)))|done]|done]).
  rewrite (st_bind_run _ _ _ tt (mkRdma d2 (bos s))) by (unfold d2; by destruct w).
  destruct (orphan_queue_ok alloc_ok now pid b (bo_size B) (mkRdma d2 (bos s)) B Hinv2 HB) as (s' & E & I & O & P & _).
  rewrite (st_bind_run _ _ _ _ _ E). exists s'. split_and!; try done; cbn [dev] in *; [lia|by rewrite O, O2].
Qed.

(** ** The system *)

(** Operations by the drivers of the accounting, and the life of a BO around
    them: it is created without pins; a holder other than the orphan list gives
    up a reference; it is destroyed when no reference is left and it is not
    pinned. *)
Inductive rdma_step (s : rdma_state) : rdma_state -> Prop :=
| step_pin env b B domain r s' :
    bos s !! b = Some B -> pin_count B + 1 < 2 ^ 32 -> pin_env_ok env B ->
    amdgpu_amdkfd_gpuvm_pin_bo p env b domain s = Some (r, s') -> rdma_step s s'
| step_unpin reserve drain b B s' :
    bos s !! b = Some B -> amdgpu_amdkfd_gpuvm_unpin_bo p reserve drain b s = Some (tt, s') -> rdma_step s s'
| step_free reserve obs alloc_ok now pid b B r s' :
    bos s !! b = Some B ->
    amdgpu_kfd_wait_pin_drop msecs_to_jiffies (kfd_free_wait_ms p) (pin_count B) now obs = Some r ->
    free_pinned p msecs_to_jiffies reserve obs alloc_ok now pid b s = Some (tt, s') -> rdma_step s s'
| step_reap now outcomes s' :
    amdgpu_kfd_reaper_fn p msecs_to_jiffies now outcomes s = Some (tt, s') -> rdma_step s s'
| step_create b B :
    bos s !! b = None -> bo_ok B -> charge_of B = 0 -> 0 <= bo_refs B ->
    rdma_step s (mkRdma (dev s) (<[b := B]> (bos s)))
| step_put b B :
    bos s !! b = Some B -> orphan_refs b (orphan_list (dev s)) < bo_refs B ->
    rdma_step s (mkRdma (dev s) (<[b := set_bo_refs (bo_refs B - 1) B]> (bos s)))
| step_destroy b B :
    bos s !! b = Some B -> bo_refs B = 0 -> pin_count B = 0 ->
    rdma_step s (mkRdma (dev s) (delete b (bos s))).

Lemma rdma_step_inv s s' : rdma_inv s -> rdma_step s s' -> rdma_inv s'.
Proof using Hmax.
  intros Hinv Hstep. pose proof Hinv as [Hwf Hr]. destruct Hstep as
    [env b B domain r s' HB Hpc Henv E|reserve drain b B s' HB E|reserve obs alloc_ok now pid b B [rc sl] s' HB Hw E
    |now outcomes s' E|b B HB Hok Hc0 Hrefs|b B HB Hrefs|b B HB Hrefs Hpc].
  - destruct (pin_bo_ok p Hmax env s b B domain Hwf HB Hpc Henv) as (r' & d & B' & E' & Hp).
    split; [|by apply (refs_ok_same _ s), Hr; eapply keeps_pin].
    rewrite E' in E. injection E as <- <-. destruct (r' =? 0); apply Hp.
  - destruct (unpin_bo_ok p Hmax reserve drain s b B Hwf HB) as (d & B' & E' & Hp).
    split; [|by apply (refs_ok_same _ s), Hr; eapply keeps_unpin].
    rewrite E' in E. injection E as <-. destruct (_ && _); [apply Hp|]. destruct Hp as [-> ->].
    rewrite insert_id by done. by destruct s.
  - destruct (free_pinned_ok reserve obs alloc_ok now pid b s B rc sl Hinv HB Hw) as (s2 & E2 & I2 & _). congruence.
  - destruct (reaper_fn_ok now outcomes s Hwf Hr) as (s2 & E2 & W2 & R2 & _). rewrite E2 in E. injection E as <-. done.
  - split; [by apply quota_wf_create|]. intros c. specialize (Hr c). cbn [bos dev]. destruct (decide (b = c)) as [<-|].
    + rewrite lookup_insert_eq, HB in *. lia.
    + by rewrite lookup_insert_ne.
  - destruct (qw_bo _ _ Hwf b B HB). pose proof (qw_limit _ _ Hwf). split.
    + eapply quota_wf_bo; try done. change (charge_of (set_bo_refs _ B)) with (charge_of B). lia.
    + intros c. specialize (Hr c). cbn [bos dev]. destruct (decide (b = c)) as [<-|].
      * rewrite lookup_insert_eq, HB in *. change (orphan_refs b []) with 0 in *. simpl. lia.
      * by rewrite lookup_insert_ne.
  - split; [by eapply quota_wf_destroy|]. intros c. specialize (Hr c). cbn [bos dev]. destruct (decide (b = c)) as [<-|].
    + rewrite lookup_delete_eq, HB in *. pose proof (orphan_refs_nonneg b []). pose proof (orphan_refs_nonneg b (orphan_list (dev s))). lia.
    + by rewrite lookup_delete_ne.
Qed.
End Props.

(** ** The polling loop *)

Lemma backoff_us_bounds n : 0 <= n -> 100 <= backoff_us n <= 5000.
Proof.
  intros Hn. pose proof (Z.div_pos n 5 Hn ltac:(lia)). unfold backoff_us. rewrite Z.shiftl_mul_pow2 by lia.
  assert (2 ^ 0 <= 2 ^ Z.min (n / 5) 6) by (apply Z.pow_le_mono_r; lia). lia.
Qed.

(** A poll that neither ends the wait nor finds the deadline passed. *)
Definition poll_on (deadline : Z) (o : Z * Z) : Prop := time_before (fst o) deadline = true /\ snd o <> 0.

Definition backoffs (from : Z) (n : nat) : list Z := (fun i => backoff_us (from + Z.of_nat i)) <$> seq 0 n.

Lemma backoffs_cons from n : backoffs from (S n) = backoff_us from :: backoffs (from + 1) n.
Proof.
  unfold backoffs. cbn [seq fmap list_fmap]. f_equal; [f_equal; lia|]. rewrite <- seq_shift, <- list_fmap_compose.
  apply list_fmap_ext. intros i x _. unfold compose. f_equal. lia.
Qed.

Lemma wait_loop_run pre o post deadline from sleeps :
  Forall (poll_on deadline) pre -> ~ poll_on deadline o ->
  wait_pin_drop_loop (pre ++ o :: post) deadline from sleeps =
    Some (if time_before (fst o) deadline then (0, sleeps ++ backoffs from (S (length pre)))
          else (- EBUSY, sleeps ++ backoffs from (length pre))).
Proof.
  intros Hpre Ho. revert from sleeps. induction Hpre as [|[now c] pre [Ht Hc] _ IH]; intros from sleeps; cbn [app wait_pin_drop_loop].
  - destruct o as [now c]. unfold poll_on in Ho. simpl in *. destruct (time_before now deadline); [|by rewrite app_nil_r].
    destruct (Z.eqb_spec c 0); [|tauto]. rewrite backoffs_cons. done.
  - simpl in Ht, Hc. rewrite Ht. destruct (Z.eqb_spec c 0); [done|]. rewrite IH. cbn [length].
    rewrite !(backoffs_cons from), <- !app_assoc. done.
Qed.

Lemma backoffs_bounds from n : 0 <= from -> Forall (fun us => 100 <= us <= 5000) (backoffs from n).
Proof.
  intros Hf. unfold backoffs. apply Forall_fmap, Forall_forall. intros i _. apply backoff_us_bounds. lia.
Qed.

(** ** The properties *)

(** C39: RDMA pin quota safety. From a device without pins, whatever pins,
    unpins, frees, reaper runs, creations and releases follow, the counter
    [rdma_pinned_bytes] is exactly the sum of the sizes of the charged buffer
    objects and stays within dmabuf_pin_max_mb; every buffer object on the orphan
    list is alive and referenced, so a reaper run never touches a released one
    and always completes. *)
Theorem rdma_reachable_quota p msecs_to_jiffies d s :
  0 < dmabuf_pin_max_mb p < 2 ^ 32 ->
  rdma_pinned_bytes d = 0 -> orphan_list d = [] ->
  rtc (rdma_step p msecs_to_jiffies) (mkRdma d ∅) s ->
  rdma_pinned_bytes (dev s) = msum (fun _ B => charge_of B) (bos s) /\
  0 <= rdma_pinned_bytes (dev s) <= pin_max_bytes p /\
  (forall op, op ∈ orphan_list (dev s) -> exists B, bos s !! op_bo op = Some B /\ 0 < bo_refs B) /\
  (forall now outcomes, exists s', amdgpu_kfd_reaper_fn p msecs_to_jiffies now outcomes s = Some (tt, s')).
Proof.
  intros Hmax Hd Ho Hreach.
  assert (rdma_inv p (mkRdma d ∅)) as Hinv.
  { pose proof (pin_max_range p Hmax). split; [constructor; cbn [dev bos]; [done|by rewrite msum_empty|lia]|].
    intros b. cbn [dev bos]. rewrite lookup_empty, Ho. done. }
  assert (rdma_inv p s) as [Hwf Hr] by (induction Hreach; eauto using rdma_step_inv).
  split; [apply Hwf|]. split; [apply Hwf|]. split.
  - intros op (l1 & l2 & E)%list_elem_of_split. specialize (Hr (op_bo op)). rewrite E in Hr.
    rewrite orphan_refs_app, orphan_refs_cons, decide_True in Hr by done.
    pose proof (orphan_refs_nonneg (op_bo op) []). pose proof (orphan_refs_nonneg (op_bo op) l1).
    pose proof (orphan_refs_nonneg (op_bo op) l2). destruct (bos s !! op_bo op) as [B|]; [exists B; split; [done|lia]|lia].
  - intros now outcomes. destruct (reaper_fn_ok p msecs_to_jiffies Hmax now outcomes s Hwf Hr) as (s' & E & _). by exists s'.
Qed.

Definition dev0 : kfd_dev := mkDev 0 0 0 0 0 0 0 0 0 [] 0 0 0 0 0 true None 0 0 0.
Definition params0 : pin_params := mkParams 64 0 0 0 1000 500 0 1 100.
Definition env0 : pin_env := mkPinEnv 0 (inl (- EINVAL)) (inr (TTM_PL_VRAM, 0)).
Definition bo0 : amdgpu_bo :=
  mkBo 4096 4096 0 AMDGPU_GEM_DOMAIN_VRAM false false 0 TTM_PL_VRAM 0 (Some (mkKgd 0 0 false)) 1.
Definition rdma0 : rdma_state := mkRdma dev0 {[ 1%positive := bo0 ]}.

Lemma env0_ok B : pin_env_ok env0 B.
Proof. constructor; simpl; [intros r [= <-]; done|done|]. intros _. by exists (- EINVAL). Qed.

Lemma bo0_ok : bo_ok bo0.
Proof. constructor; simpl; [lia|lia|done]. Qed.

Lemma rdma0_inv : rdma_inv params0 rdma0.
Proof.
  split.
  - constructor; [|vm_compute; done..]. intros b B HB. cbn [bos rdma0] in HB. apply lookup_singleton_Some in HB as [_ <-]. apply bo0_ok.
  - intros b. unfold rdma0. cbn [bos dev]. destruct (decide (1%positive = b)) as [<-|].
    + by rewrite lookup_singleton_eq.
    + by rewrite lookup_singleton_ne.
Qed.

Lemma rdma_reachable_quota_witness :
  exists s, rtc (rdma_step params0 id) (mkRdma dev0 ∅) s /\ rdma_pinned_bytes (dev s) = 4096 /\
    rdma_pinned_bytes (dev s) = msum (fun _ B => charge_of B) (bos s).
Proof.
  set (o := amdgpu_amdkfd_gpuvm_pin_bo params0 env0 1%positive AMDGPU_GEM_DOMAIN_VRAM rdma0).
  assert (exists s, o = Some (0, s) /\ rdma_pinned_bytes (dev s) = 4096) as (s & E & H4)
    by (eexists; split; vm_compute; reflexivity).
  assert (rtc (rdma_step params0 id) (mkRdma dev0 ∅) s) as Hr.
  { eapply rtc_l; [apply (step_create _ _ _ 1%positive bo0); [done|apply bo0_ok|done|done]|].
    apply rtc_once. cbn [dev bos]. apply (step_pin _ _ _ env0 1%positive bo0 AMDGPU_GEM_DOMAIN_VRAM 0);
      [apply lookup_insert_eq|done|apply env0_ok|exact E]. }
  exists s. split; [exact Hr|]. split; [exact H4|].
  refine (proj1 (rdma_reachable_quota params0 id dev0 s _ _ _ Hr)); [simpl; lia|reflexivity|reflexivity].
Defined.

(** A pin either succeeds or changes no accounting. On success the pin
    count grows by one, the BO is charged exactly once (the first VRAM pin that
    ended in VRAM; later pins keep the charge) and [vram_pinned] grows by its size
    when it is in VRAM; on any error the quota, [vram_pinned], the pin count and
    the BO's quota fields are what they were. The accounting stays consistent. *)
Theorem gpuvm_pin_bo_correct p env s b B domain :
  0 < dmabuf_pin_max_mb p < 2 ^ 32 -> quota_wf p s -> bos s !! b = Some B ->
  pin_count B + 1 < 2 ^ 32 -> pin_env_ok env B ->
  exists r d B', amdgpu_amdkfd_gpuvm_pin_bo p env b domain s = Some (r, mkRdma d (<[b := B']> (bos s))) /\
    quota_wf p (mkRdma d (<[b := B']> (bos s))) /\
    (r = 0 -> pin_count B' = pin_count B + 1 /\
       charge_of B' = pin_charged B domain (mem_type B') /\
       rdma_pinned_bytes d = rdma_pinned_bytes (dev s) - charge_of B + pin_charged B domain (mem_type B') /\
       vram_pinned d = (if mem_type B' =? TTM_PL_VRAM then s64 (vram_pinned (dev s) + bo_size B) else vram_pinned (dev s))) /\
    (r <> 0 -> pin_count B' = pin_count B /\ kfd_bo B' = kfd_bo B /\
       rdma_pinned_bytes d = rdma_pinned_bytes (dev s) /\ vram_pinned d = vram_pinned (dev s)).
Proof.
  intros Hmax Hwf HB Hpc Henv. destruct (pin_bo_ok p Hmax env s b B domain Hwf HB Hpc Henv) as (r & d & B' & E & Hp).
  exists r, d, B'. split; [done|]. destruct (Z.eqb_spec r 0) as [->|Hr]; destruct Hp; split_and!; (done || (intros _; split_and!; done)).
Qed.

Lemma gpuvm_pin_bo_correct_witness :
  exists d B', amdgpu_amdkfd_gpuvm_pin_bo params0 env0 1%positive AMDGPU_GEM_DOMAIN_VRAM rdma0 =
      Some (0, mkRdma d (<[1%positive := B']> (bos rdma0))) /\ charge_of B' = 4096 /\ rdma_pinned_bytes d = 4096.
Proof.
  destruct (gpuvm_pin_bo_correct params0 env0 rdma0 1%positive bo0 AMDGPU_GEM_DOMAIN_VRAM) as (r & d & B' & E & _ & H0 & H1).
  - simpl; lia.
  - apply rdma0_inv.
  - reflexivity.
  - simpl; lia.
  - apply env0_ok.
  - pose proof E as E'. vm_compute in E'. injection E' as <- _ _. exists d, B'. split; [exact E|].
    destruct (H0 eq_refl) as (_ & Hc & Hr & _).
    assert (mem_type B' = TTM_PL_VRAM) as Hm.
    { apply (f_equal (option_map (fun x => mem_type <$> bos (snd x) !! 1%positive))) in E.
      cbn [option_map snd bos] in E. rewrite lookup_insert_eq in E. vm_compute in E. by injection E. }
    rewrite Hm in Hc, Hr. split; [exact Hc|exact Hr].
Defined.

(** The hard cap. A first VRAM pin that would take the counter over
    dmabuf_pin_max_mb is refused with -ENOSPC before anything is pinned, and the
    kill switch refuses every pin the same way. *)
Theorem gpuvm_pin_bo_refused p env s b B domain k :
  0 < dmabuf_pin_max_mb p < 2 ^ 32 -> quota_wf p s -> bos s !! b = Some B ->
  dmabuf_reject_new_pins p <> 0 \/
  (pe_reserve env = 0 /\ kfd_bo B = Some k /\ rdma_quota_charged k = false /\
   bit domain AMDGPU_GEM_DOMAIN_VRAM = true /\ pin_max_bytes p < rdma_pinned_bytes (dev s) + bo_size B) ->
  exists d, amdgpu_amdkfd_gpuvm_pin_bo p env b domain s = Some (- ENOSPC, mkRdma d (bos s)) /\
    rdma_pinned_bytes d = rdma_pinned_bytes (dev s) /\ vram_pinned d = vram_pinned (dev s).
Proof.
  intros Hmax Hwf HB Hcase. unfold amdgpu_amdkfd_gpuvm_pin_bo. unfold st_bind at 1, get_bo. rewrite HB.
  destruct (Z.eqb_spec (dmabuf_reject_new_pins p) 0) as [Hz|_]; cbn [negb]; [|by eexists].
  destruct Hcase as [|(Hres & Hk & Hkc & Hb & Hover)]; [done|]. rewrite Hres. cbn [Z.eqb negb].
  destruct (pin_charge_ok p Hmax s b B domain Hwf HB) as (refused & accounted & existing & d & E & Hv & Hr & Ha & He & Hn).
  rewrite (st_bind_run _ _ _ _ _ E). destruct refused; [exists d; split; [done|tauto]|]. exfalso.
  destruct accounted; [lia|]. destruct existing.
  - destruct (He eq_refl) as (_ & k' & Hk' & Hkc'). congruence.
  - specialize (Hn eq_refl eq_refl eq_refl Hb). congruence.
Qed.

Lemma gpuvm_pin_bo_refused_witness :
  exists d, amdgpu_amdkfd_gpuvm_pin_bo params0 env0 1%positive AMDGPU_GEM_DOMAIN_VRAM
      (mkRdma dev0 {[ 1%positive := mkBo (2 ^ 27) 0 0 4 false false 0 TTM_PL_VRAM 0 (Some (mkKgd 0 0 false)) 1 ]}) =
    Some (- ENOSPC, mkRdma d {[ 1%positive := mkBo (2 ^ 27) 0 0 4 false false 0 TTM_PL_VRAM 0 (Some (mkKgd 0 0 false)) 1 ]}) /\
    rdma_pinned_bytes d = 0.
Proof.
  destruct (gpuvm_pin_bo_refused params0 env0
    (mkRdma dev0 {[ 1%positive := mkBo (2 ^ 27) 0 0 4 false false 0 TTM_PL_VRAM 0 (Some (mkKgd 0 0 false)) 1 ]})
    1%positive (mkBo (2 ^ 27) 0 0 4 false false 0 TTM_PL_VRAM 0 (Some (mkKgd 0 0 false)) 1) AMDGPU_GEM_DOMAIN_VRAM
    (mkKgd 0 0 false)) as (d & E & R & _).
  - simpl; lia.
  - constructor; [|vm_compute; done..]. intros b B HB. cbn [bos rdma0] in HB. apply lookup_singleton_Some in HB as [_ <-]. constructor; simpl; [lia|lia|done].
  - reflexivity.
  - right. vm_compute. done.
  - exists d. split; [exact E|exact R].
Defined.

(** An unpin takes one pin. A BO that could not be reserved or is not pinned
    is left alone; otherwise its pin count drops by one, [vram_pinned] by its size
    when it is in VRAM, and the last unpin of a charged BO gives its charge back. *)
Theorem gpuvm_unpin_bo_correct p reserve drain s b B :
  0 < dmabuf_pin_max_mb p < 2 ^ 32 -> quota_wf p s -> bos s !! b = Some B ->
  exists d B', amdgpu_amdkfd_gpuvm_unpin_bo p reserve drain b s = Some (tt, mkRdma d (<[b := B']> (bos s))) /\
    quota_wf p (mkRdma d (<[b := B']> (bos s))) /\
    (reserve <> 0 \/ pin_count B = 0 -> d = dev s /\ B' = B) /\
    (reserve = 0 -> pin_count B <> 0 -> pin_count B' = pin_count B - 1 /\ charge_of B' = unpin_charged B /\
       rdma_pinned_bytes d = rdma_pinned_bytes (dev s) - charge_of B + unpin_charged B /\
       vram_pinned d = (if mem_type B =? TTM_PL_VRAM then s64 (vram_pinned (dev s) - bo_size B) else vram_pinned (dev s))).
Proof.
  intros Hmax Hwf HB. destruct (unpin_bo_ok p Hmax reserve drain s b B Hwf HB) as (d & B' & E & Hp).
  destruct (qw_bo _ _ Hwf b B HB) as [_ Hpc _]. exists d, B'. split; [done|].
  destruct (Z.eqb_spec reserve 0) as [->|Hr]; destruct (Z.ltb_spec 0 (pin_count B)); cbn [andb] in Hp.
  1: destruct Hp; split_and!; try done; lia.
  all: destruct Hp as [-> ->]; split_and!; try done; try lia; rewrite insert_id by done; by destruct s.
Qed.

Lemma gpuvm_unpin_bo_correct_witness :
  exists d B', amdgpu_amdkfd_gpuvm_unpin_bo params0 0 1 1%positive rdma0 = Some (tt, mkRdma d (<[1%positive := B']> (bos rdma0))) /\
    d = dev0 /\ B' = bo0.
Proof.
  destruct (gpuvm_unpin_bo_correct params0 0 1 rdma0 1%positive bo0) as (d & B' & E & _ & H & _).
  - simpl; lia.
  - apply rdma0_inv.
  - reflexivity.
  - exists d, B'. split; [exact E|]. apply H. right. reflexivity.
Defined.

(** Pin and unpin balance. A successful VRAM pin followed by an unpin leaves
    the quota counter, [vram_pinned], the pin count and the charge of the BO as
    they were before the pin, whether or not the BO was charged already. *)
Theorem pin_unpin_roundtrip p env s b B domain drain s1 :
  0 < dmabuf_pin_max_mb p < 2 ^ 32 -> quota_wf p s -> bos s !! b = Some B ->
  pin_count B + 1 < 2 ^ 32 -> pin_env_ok env B -> - 2 ^ 63 <= vram_pinned (dev s) < 2 ^ 63 ->
  bit domain AMDGPU_GEM_DOMAIN_VRAM = true ->
  amdgpu_amdkfd_gpuvm_pin_bo p env b domain s = Some (0, s1) ->
  exists s2 B2, amdgpu_amdkfd_gpuvm_unpin_bo p 0 drain b s1 = Some (tt, s2) /\ bos s2 = <[b := B2]> (bos s) /\
    pin_count B2 = pin_count B /\ charge_of B2 = charge_of B /\
    rdma_pinned_bytes (dev s2) = rdma_pinned_bytes (dev s) /\ vram_pinned (dev s2) = vram_pinned (dev s).
Proof.
  intros Hmax Hwf HB Hpc Henv Hv Hb E. destruct (pin_bo_ok p Hmax env s b B domain Hwf HB Hpc Henv) as (r & d & B1 & E1 & Hp).
  rewrite E1 in E. injection E as -> <-. destruct Hp as [W1 S1 C1 _ Q1 H1 T1 V1].
  destruct (qw_bo _ _ Hwf b B HB) as [_ Hp0 Hq].
  destruct (unpin_bo_ok p Hmax 0 drain _ b B1 W1 (lookup_insert_eq _ _ _)) as (d2 & B2 & E2 & Hp).
  cbn [Z.eqb andb] in Hp. destruct (Z.ltb_spec 0 (pin_count B1)); [|lia]. destruct Hp as [_ S2 C2 _ H2 T2 V2].
  cbn [bos dev] in *. rewrite insert_insert_eq in E2. exists (mkRdma d2 (<[b := B2]> (bos s))), B2. cbn [bos dev].
  assert (unpin_charged B1 = charge_of B) as Hu.
  { unfold unpin_charged, charge_of. rewrite Q1. unfold pin_quota. destruct (kfd_bo B) as [k|]; [|done]. rewrite Hb. cbn [negb].
    destruct (rdma_quota_charged k) eqn:Ek; cbn [rdma_quota_charged rdma_quota_pin_count rdma_quota_bytes andb].
    - destruct (Z.ltb_spec 1 (rdma_quota_pin_count k + 1)); [done|lia].
    - destruct (_ =? _); [done|by rewrite Ek]. }
  split_and!; try done; [lia|lia|lia|]. rewrite V2, V1, S1. destruct (_ =? _); [|done]. by apply swrap_add_sub.
Qed.

Lemma pin_unpin_roundtrip_witness :
  exists s1 s2 B2, amdgpu_amdkfd_gpuvm_pin_bo params0 env0 1%positive AMDGPU_GEM_DOMAIN_VRAM rdma0 = Some (0, s1) /\
    amdgpu_amdkfd_gpuvm_unpin_bo params0 0 1 1%positive s1 = Some (tt, s2) /\
    bos s2 = <[1%positive := B2]> (bos rdma0) /\ rdma_pinned_bytes (dev s2) = 0.
Proof.
  assert (exists s1, amdgpu_amdkfd_gpuvm_pin_bo params0 env0 1%positive AMDGPU_GEM_DOMAIN_VRAM rdma0 = Some (0, s1))
    as [s1 E] by (eexists; vm_compute; reflexivity).
  destruct (pin_unpin_roundtrip params0 env0 rdma0 1%positive bo0 AMDGPU_GEM_DOMAIN_VRAM 1 s1) as (s2 & B2 & E2 & M & _ & _ & R & _).
  - simpl; lia.
  - apply rdma0_inv.
  - reflexivity.
  - simpl; lia.
  - apply env0_ok.
  - simpl; lia.
  - reflexivity.
  - exact E.
  - exists s1, s2, B2. split; [exact E|]. split; [exact E2|]. split; [exact M|exact R].
Defined.

(** C40: the orphan reaper. One run takes exactly the leading entries older than the
    orphan timeout off the list, each giving up its reference. A BO of one of them that
    could be reserved ends without pins and without charge, and a late unpin of it by the
    peer changes nothing; every other BO, also one whose reservation failed, keeps its pins
    and its charge although its entry is gone. The quota counter stays the sum of the
    charges. *)
Theorem reaper_correct p msecs_to_jiffies now outcomes s :
  0 < dmabuf_pin_max_mb p < 2 ^ 32 -> 0 < pin_orphan_timeout_ms p -> rdma_inv p s ->
  exists s' reaped, amdgpu_kfd_reaper_fn p msecs_to_jiffies now outcomes s = Some (tt, s') /\ rdma_inv p s' /\
    orphan_list (dev s) = reaped ++ orphan_list (dev s') /\
    Forall (fun op => time_after_eq (queued_at_jiffies op) (u64 (now - msecs_to_jiffies (pin_orphan_timeout_ms p))) = false) reaped /\
    match orphan_list (dev s') with
    | op :: _ => time_after_eq (queued_at_jiffies op) (u64 (now - msecs_to_jiffies (pin_orphan_timeout_ms p))) = true
    | [] => True
    end /\
    reaps (reserved_bos outcomes reaped) reaped s s' /\
    forall b reserve drain, b ∈ reserved_bos outcomes reaped -> is_Some (bos s !! b) ->
      amdgpu_amdkfd_gpuvm_unpin_bo p reserve drain b s' = Some (tt, s').
Proof.
  intros Hmax Ht [Hwf Hr].
  destruct (reaper_fn_ok p msecs_to_jiffies Hmax now outcomes s Hwf Hr) as (s' & E & W & R & Hs). specialize (Hs Ht).
  pose proof (reap_split_spec (u64 (now - msecs_to_jiffies (pin_orphan_timeout_ms p))) (orphan_list (dev s))) as Hsp.
  destruct (reap_split _ _) as [reaped later]. destruct Hs as [<- Hrel], Hsp as (Hl & Hold & Hnew).
  exists s', reaped. split_and!; try done. intros b reserve drain Hin [B0 HB0]. specialize (Hrel b). rewrite HB0 in Hrel.
  destruct (bos s' !! b) as [B|] eqn:HB; [|done]. destruct Hrel as (_ & Hz & _). rewrite decide_True in Hz by done.
  destruct (unpin_bo_ok p Hmax reserve drain s' b B W HB) as (d & B' & E' & Hp).
  rewrite Hz, Bool.andb_false_r in Hp. destruct Hp as [-> ->]. rewrite E', insert_id by done. by destruct s'.
Qed.

Definition orphan0 : rdma_state :=
  mkRdma (mkDev 4096 4096 0 0 0 0 0 0 0 [mkOrphan 1%positive 0 4096 1] 1 0 0 0 0 true None 4096 4096 0)
    {[ 1%positive := mkBo 4096 4096 0 4 false false 1 TTM_PL_VRAM 0 (Some (mkKgd 1 4096 true)) 1 ]}.

Lemma orphan0_inv : rdma_inv params0 orphan0.
Proof.
  split.
  - constructor; [|vm_compute; done..]. intros b B HB. cbn [bos orphan0] in HB. apply lookup_singleton_Some in HB as [_ <-].
    constructor; simpl; [lia|lia|]. split; [lia|done].
  - intros b. unfold orphan0. cbn [bos dev]. destruct (decide (1%positive = b)) as [<-|Hb].
    + rewrite lookup_singleton_eq. vm_compute. done.
    + rewrite lookup_singleton_ne by done. cbn [orphan_list]. rewrite orphan_refs_cons. cbn [op_bo]. by rewrite decide_False.
Qed.

Lemma reaper_correct_witness :
  exists s1 s2, amdgpu_kfd_reaper_fn params0 id 5000 [(0, 1)] orphan0 = Some (tt, s1) /\ rdma_inv params0 s1 /\
    rdma_pinned_bytes (dev s1) = 0 /\
    amdgpu_kfd_reaper_fn params0 id 5000 [(-16, 1)] orphan0 = Some (tt, s2) /\ rdma_inv params0 s2 /\
    orphan_list (dev s2) = [] /\ rdma_pinned_bytes (dev s2) = 4096.
Proof.
  destruct (reaper_correct params0 id 5000 [(0, 1)] orphan0) as (s1 & l1 & E1 & I1 & _);
    [simpl; lia|simpl; lia|apply orphan0_inv|].
  destruct (reaper_correct params0 id 5000 [(-16, 1)] orphan0) as (s2 & l2 & E2 & I2 & _);
    [simpl; lia|simpl; lia|apply orphan0_inv|].
  exists s1, s2. split; [exact E1|]. split; [exact I1|].
  split; [vm_compute in E1; injection E1 as <-; reflexivity|]. split; [exact E2|]. split; [exact I2|].
  vm_compute in E2. injection E2 as <-. split; reflexivity.
Defined.

(** The lock-free charge. Whatever values [others] the other CPUs leave in
    the counter between the reads and the exchanges, a charge that succeeds adds
    exactly [size] to a value the counter had (a negative one counting as zero) and
    stays within the limit; one that is refused saw a value that left no room. *)
Theorem quota_charge_atomic others limit size cur :
  0 < limit < 2 ^ 63 -> 0 <= size < 2 ^ 63 -> Forall (fun v => - 2 ^ 63 <= v < 2 ^ 63) (cur :: others) ->
  exists v, v ∈ cur :: others /\
    match quota_charge_loop others limit size cur 0 with
    | (counter, _, Some total) => total = Z.max v 0 + size /\ total <= limit /\ counter = total
    | (_, _, None) => limit < Z.max v 0 + size
    end.
Proof.
  intros Hl Hs Hf. destruct (quota_charge_loop_linear others limit size cur 0) as (v & c & Hin & E1 & E2).
  exists v. split; [done|]. rewrite Forall_forall in Hf. specialize (Hf v Hin).
  destruct (quota_charge_loop others limit size cur 0) as [[counter cl] r]. cbn [fst snd] in *.
  cbn [quota_charge_loop] in *. set (old := if v <? 0 then 0 else v) in *.
  assert (old = Z.max v 0) as Ho by (unfold old; destruct (Z.ltb_spec v 0); lia). rewrite <- Ho.
  rewrite (wrap_small 64 old) in * by lia. destruct (Z.ltb_spec limit old) as [Hlt|Hge]; cbn [orb snd fst] in *; [subst r; lia|].
  rewrite (wrap_small 64 (limit - old)) in * by lia.
  destruct (Z.ltb_spec (limit - old) size); cbn [snd fst] in *; [subst r; lia|].
  rewrite (wrap_small 64 (old + size)) in * by lia. rewrite swrap_small in * by lia. subst r. specialize (E2 ltac:(done)). lia.
Qed.

Lemma quota_charge_atomic_witness :
  exists v, v ∈ [0; 100; -5] /\
    match quota_charge_loop [100; -5] 1000 50 0 0 with
    | (counter, _, Some total) => total = Z.max v 0 + 50 /\ total <= 1000 /\ counter = total
    | (_, _, None) => 1000 < Z.max v 0 + 50
    end.
Proof.
  apply (quota_charge_atomic [100; -5] 1000 50 0); [lia|lia|]. repeat constructor; lia.
Defined.

(** The lock-free drop, in both its copies. Under the same interference the
    counter ends at [v - bytes] for a value [v] it had, or at zero, reported as a
    clamp, exactly when that would be negative or [v] was not positive; it never
    becomes negative. *)
Theorem quota_drop_atomic others bytes cur :
  0 < bytes < 2 ^ 63 -> Forall (fun v => - 2 ^ 63 <= v < 2 ^ 63) (cur :: others) ->
  exists v, v ∈ cur :: others /\ quota_drop_loop others bytes cur = (Z.max (v - bytes) 0, v <? bytes).
Proof.
  intros Hb Hf. destruct (quota_drop_loop_linear others bytes cur) as (v & Hin & ->). exists v. split; [done|].
  rewrite Forall_forall in Hf. specialize (Hf v Hin). cbn [quota_drop_loop].
  destruct (Z.leb_spec v 0); cbn [orb]; [destruct (Z.ltb_spec v bytes); [f_equal; lia|lia]|].
  rewrite (wrap_small 64) by lia. destruct (Z.ltb_spec v bytes); f_equal; [lia|].
  rewrite (swrap_small 64 bytes), swrap_small by lia. lia.
Qed.

Lemma quota_drop_atomic_witness :
  exists v, v ∈ [10; 100] /\ quota_drop_loop [100] 50 10 = (Z.max (v - 50) 0, v <? 50).
Proof. apply (quota_drop_atomic [100] 50 10); [lia|]. repeat constructor; lia. Defined.

Lemma latch_spec threshold new_total old :
  0 < threshold < 2 ^ 63 -> 0 <= new_total ->
  latch threshold new_total old =
    if threshold <=? new_total then 1 else if new_total <? threshold - threshold / 8 then 0 else old.
Proof.
  intros Ht Hn. unfold latch. destruct (Z.eqb_spec threshold 0); [lia|]. cbn [negb andb].
  rewrite Z.shiftr_div_pow2 by lia. change (2 ^ 3) with 8.
  pose proof (Z.div_pos threshold 8). pose proof (Z.div_le_upper_bound threshold 8 threshold).
  rewrite wrap_small by lia. done.
Qed.

(** The watermarks. Both thresholds lie strictly below the hard cap for every
    setting of the parameters; a check latches a warning at its threshold, keeps it
    down to 12.5% below and releases it under that, and the peak is the largest
    total seen. *)
Theorem pin_watermark_check_correct p s new_total :
  0 < dmabuf_pin_max_mb p < 2 ^ 32 -> 0 <= dmabuf_pin_warn_mb p < 2 ^ 32 -> 0 <= dmabuf_pin_critical_mb p < 2 ^ 32 ->
  0 <= new_total < 2 ^ 63 -> 0 <= rdma_pin_watermark_peak (dev s) < 2 ^ 63 ->
  let warn := amdgpu_kfd_pin_warn_bytes p in
  let crit := amdgpu_kfd_pin_critical_bytes p in
  0 < warn < pin_max_bytes p /\ 0 < crit < pin_max_bytes p /\
  exists d, amdgpu_kfd_pin_watermark_check p new_total s = Some (tt, mkRdma d (bos s)) /\
    rdma_pin_watermark_peak d = Z.max (rdma_pin_watermark_peak (dev s)) new_total /\
    rdma_pin_warn_latched d =
      (if warn <=? new_total then 1 else if new_total <? warn - warn / 8 then 0 else rdma_pin_warn_latched (dev s)) /\
    rdma_pin_critical_latched d =
      (if crit <=? new_total then 1 else if new_total <? crit - crit / 8 then 0 else rdma_pin_critical_latched (dev s)).
Proof.
  intros Hm Hw Hc Ht Hk warn crit. pose proof (pin_max_range p Hm) as Hr.
  pose proof (warn_below_max p Hm Hw) as HW. pose proof (critical_below_max p Hm Hc) as HC. split_and!; try apply HW; try apply HC.
  unfold amdgpu_kfd_pin_watermark_check. rewrite max_nonzero by done. eexists. split; [reflexivity|].
  cbn [set_watermark rdma_pin_watermark_peak rdma_pin_warn_latched rdma_pin_critical_latched].
  rewrite !latch_spec by lia. split; [|done]. rewrite wrap_small by lia.
  destruct (Z.ltb_spec (rdma_pin_watermark_peak (dev s)) new_total); [rewrite swrap_small by lia|]; lia.
Qed.

Lemma pin_watermark_check_correct_witness :
  exists d, amdgpu_kfd_pin_watermark_check params0 (50 * 2 ^ 20) rdma0 = Some (tt, mkRdma d (bos rdma0)) /\
    rdma_pin_watermark_peak d = 50 * 2 ^ 20 /\ rdma_pin_warn_latched d = 1 /\ rdma_pin_critical_latched d = 0.
Proof.
  destruct (pin_watermark_check_correct params0 rdma0 (50 * 2 ^ 20)) as (_ & _ & d & E & P & W & C); [simpl; lia..|].
  exists d. split; [exact E|]. split; [exact P|]. split; [exact W|exact C].
Defined.

(** The bounded wait of the free path. The wait ends at the first poll that
    finds no pin or the deadline passed: with 0 when the pins went away in time and
    with -EBUSY at the deadline; it slept once per poll, between 100 and 5000
    microseconds, by the back-off of the round. *)
Theorem wait_pin_drop_correct msecs_to_jiffies timeout_ms count now pre o post :
  0 < timeout_ms -> count <> 0 ->
  let deadline := u64 (now + msecs_to_jiffies timeout_ms) in
  Forall (poll_on deadline) pre -> ~ poll_on deadline o ->
  exists sleeps,
    amdgpu_kfd_wait_pin_drop msecs_to_jiffies timeout_ms count now (pre ++ o :: post) =
      Some (if time_before (fst o) deadline then 0 else - EBUSY, sleeps) /\
    sleeps = backoffs 0 (length pre + if time_before (fst o) deadline then 1 else 0) /\
    Forall (fun us => 100 <= us <= 5000) sleeps.
Proof.
  intros Ht Hc deadline Hpre Ho. unfold amdgpu_kfd_wait_pin_drop. destruct (Z.leb_spec timeout_ms 0); [lia|].
  destruct (Z.eqb_spec count 0); [done|]. fold deadline. rewrite (wait_loop_run pre o post deadline 0 [] Hpre Ho).
  destruct (time_before (fst o) deadline); rewrite ?Nat.add_1_r, ?Nat.add_0_r;
    (eexists; split; [reflexivity|]; split; [done|by apply backoffs_bounds]).
Qed.

Lemma wait_pin_drop_correct_witness :
  exists sleeps, amdgpu_kfd_wait_pin_drop id 100 1 0 [(1, 1); (2, 1); (3, 0)] = Some (0, sleeps) /\ length sleeps = 3%nat.
Proof.
  destruct (wait_pin_drop_correct id 100 1 0 [(1, 1); (2, 1)] (3, 0) []) as (sleeps & E & H & _).
  - lia.
  - lia.
  - repeat constructor; vm_compute; done.
  - intros [_ H]. simpl in H. lia.
  - exists sleeps. split; [exact E|]. rewrite H. reflexivity.
Defined.

(** Freeing a BO that is still pinned. The free path never fails; it queues
    the BO as an orphan, with a reference of its own, exactly when the BO is pinned
    and the policy does not wait, the reservation failed or the wait ended in -EBUSY
    (and memory for the entry can be had); the accounting is untouched. *)
Theorem free_pinned_correct p msecs_to_jiffies reserve obs alloc_ok now pid b s B rc sleeps :
  rdma_inv p s -> bos s !! b = Some B ->
  amdgpu_kfd_wait_pin_drop msecs_to_jiffies (kfd_free_wait_ms p) (pin_count B) now obs = Some (rc, sleeps) ->
  let waits := (1 <=? kfd_free_on_pinned p) && (0 <? kfd_free_wait_ms p) && (reserve =? 0) in
  exists s', free_pinned p msecs_to_jiffies reserve obs alloc_ok now pid b s = Some (tt, s') /\ rdma_inv p s' /\
    rdma_pinned_bytes (dev s') = rdma_pinned_bytes (dev s) /\
    orphan_list (dev s') = orphan_list (dev s) ++
      (if (0 <? pin_count B) && (negb waits || (rc =? - EBUSY)) && alloc_ok
       then [mkOrphan b now (bo_size B) pid] else []).
Proof. apply free_pinned_ok. Qed.

Lemma free_pinned_correct_witness :
  exists s', free_pinned params0 id 0 [] true 7 1 1%positive orphan0 = Some (tt, s') /\
    orphan_list (dev s') = [mkOrphan 1%positive 0 4096 1; mkOrphan 1%positive 7 4096 1].
Proof.
  destruct (free_pinned_correct params0 id 0 [] true 7 1 1%positive orphan0
    (mkBo 4096 4096 0 4 false false 1 TTM_PL_VRAM 0 (Some (mkKgd 1 4096 true)) 1) (- EBUSY) []) as (s' & E & _ & _ & O).
  - apply orphan0_inv.
  - reflexivity.
  - reflexivity.
  - exists s'. split; [exact E|exact O].
Defined.

(** The wait cannot succeed under the reservation. Every unpin reserves the BO
    first, and the free path polls with the reservation held, so the pin count it
    reads stays what it was: the wait then always runs to its deadline and answers
    -EBUSY, and the BO is queued as an orphan however long the wait is. *)
Theorem wait_pin_drop_reserved_bug msecs_to_jiffies timeout_ms count now obs late :
  count <> 0 -> 0 < timeout_ms -> Forall (fun o => snd o = count) (obs ++ [late]) ->
  time_before (fst late) (u64 (now + msecs_to_jiffies timeout_ms)) = false ->
  exists sleeps, amdgpu_kfd_wait_pin_drop msecs_to_jiffies timeout_ms count now (obs ++ [late]) = Some (- EBUSY, sleeps).
Proof.
  intros Hc Ht Hf Hl. unfold amdgpu_kfd_wait_pin_drop. destruct (Z.leb_spec timeout_ms 0); [lia|].
  destruct (Z.eqb_spec count 0); [done|]. set (deadline := u64 _) in *. generalize 0, (@nil Z) as sleeps.
  induction obs as [|[t c] obs IH]; intros n0 sleeps; cbn [app wait_pin_drop_loop] in *.
  - destruct late as [t c]. cbn [fst] in Hl. rewrite Hl. by eexists.
  - apply Forall_cons in Hf as [Hh Hf]. cbn [snd] in Hh. subst c. destruct (time_before t deadline); [|by eexists].
    destruct (Z.eqb_spec count 0); [done|]. by apply IH.
Qed.

Lemma wait_pin_drop_reserved_bug_witness :
  exists sleeps, amdgpu_kfd_wait_pin_drop id 3 1 0 ([(0, 1); (1, 1)] ++ [(4, 1)]) = Some (- EBUSY, sleeps).
Proof.
  apply (wait_pin_drop_reserved_bug id 3 1 0 [(0, 1); (1, 1)] (4, 1)); [lia|lia|repeat constructor|vm_compute; reflexivity].
Defined.

(** The reaper gives [vram_pinned] back once per BO, not once per pin. A BO
    pinned twice and then reaped leaves its size in [vram_pinned] although nothing
    is pinned any more; the same two pins undone by two unpins leave zero. *)
Theorem reaper_vram_pinned_bug :
  let pin := amdgpu_amdkfd_gpuvm_pin_bo params0 env0 1%positive AMDGPU_GEM_DOMAIN_VRAM in
  let unpin := amdgpu_amdkfd_gpuvm_unpin_bo params0 0 1 1%positive in
  let vram (m : RM unit) := option_map (fun x => (vram_pinned (dev (snd x)), pin_count <$> bos (snd x) !! 1%positive)) (m rdma0) in
  vram (pin ;; pin ;; reap_unpin params0 1 1%positive) = Some (4096, Some 0) /\
  vram (pin ;; pin ;; unpin ;; unpin) = Some (0, Some 0).
Proof. split; vm_compute; reflexivity. Qed.
