(* ===== verification/Fixpt.v ===== *)
(** * Fixed-point arithmetic of the display core: definitions

    A translation of src/src-tree/amd/display/include/fixed31_32.h,
    dc/basics/fixpt31_32.c, dc/inc/bw_fixed.h, dc/basics/bw_fixed.c,
    dc/basics/custom_float.c and dc/basics/conversion.c.

    A fixed-point number is its [value], a signed 64-bit integer; every
    operation wraps at the width of the C type it is computed in (the kernel is
    built with wrapping signed arithmetic). ASSERT only warns and has no effect on
    the result. A function that can divide by zero, or shift by the width of its
    operand or more, returns an option: [None] is that fault. Loops whose number
    of rounds depends on the data run on fuel; [None] then also means that the
    fuel ran out. *)

From S2P Require Import Prelude.
From stdpp Require Import list option.
From Stdlib Require Import ZArith Lia.

Local Open Scope Z_scope.

Abbreviation u16 := (wrap 16).
Abbreviation u8 := (wrap 8).

(** ** Constants (fixed31_32.h, fixpt31_32.c) *)

Definition FIXED31_32_BITS_PER_FRACTIONAL_PART : Z := 32.
Definition dc_fixpt_zero : Z := 0.
Definition dc_fixpt_epsilon : Z := 1.
Definition dc_fixpt_half : Z := 0x80000000.
Definition dc_fixpt_one : Z := 0x100000000.
Definition dc_fixpt_two_pi : Z := 26986075409.
Definition dc_fixpt_ln2 : Z := 2977044471.
Definition dc_fixpt_ln2_div_2 : Z := 1488522236.

(** ** The arithmetic both formats share

    fixpt31_32.c and bw_fixed.c spell out the same division and multiplication
    for 32 and for 24 fractional bits. *)

(** One bit of the quotient per round: remainder and quotient. *)
Fixpoint fraction_loop (i : nat) (arg2_value remainder res_value : Z) : Z * Z :=
  match i with
  | O => (remainder, res_value)
  | S i =>
      let remainder := u64 (Z.shiftl remainder 1) in
      let res_value := u64 (Z.shiftl res_value 1) in
      if arg2_value <=? remainder
      then fraction_loop i arg2_value (u64 (remainder - arg2_value)) (Z.lor res_value 1)
      else fraction_loop i arg2_value remainder res_value
  end.

(** The magnitude of a signed word. *)
Definition magnitude (x : Z) : Z := u64 (if x <? 0 then s64 (- x) else x).

Definition fraction (bits : nat) (numerator denominator : Z) : option Z :=
  let arg1_value := magnitude numerator in
  let arg2_value := magnitude denominator in
  if arg2_value =? 0 then None
  else
    let '(remainder, res_value) :=
      fraction_loop bits arg2_value (arg1_value mod arg2_value) (arg1_value / arg2_value) in
    let summand := if arg2_value <=? u64 (Z.shiftl remainder 1) then 1 else 0 in
    let value := s64 (u64 (res_value + summand)) in
    Some (if xorb (numerator <? 0) (denominator <? 0) then s64 (- value) else value).

Definition GET_INTEGER_PART (bits x : Z) : Z := Z.shiftr x bits.
Definition GET_FRACTIONAL_PART (bits x : Z) : Z := Z.land (2 ^ bits - 1) x.

(** The sum of the three partial products, rounded. *)
Definition mul_magnitude (bits half arg1_value arg2_value : Z) : Z :=
  let arg1_int := GET_INTEGER_PART bits arg1_value in
  let arg2_int := GET_INTEGER_PART bits arg2_value in
  let arg1_fra := GET_FRACTIONAL_PART bits arg1_value in
  let arg2_fra := GET_FRACTIONAL_PART bits arg2_value in
  let res := s64 (u64 (arg1_int * arg2_int)) in
  let res := s64 (Z.shiftl res bits) in
  let res := s64 (res + u64 (arg1_int * arg2_fra)) in
  let res := s64 (res + u64 (arg2_int * arg1_fra)) in
  let tmp := u64 (arg1_fra * arg2_fra) in
  let tmp := u64 (Z.shiftr tmp bits + if half <=? tmp then 1 else 0) in
  s64 (res + tmp).

Definition fixed_mul (bits half arg1 arg2 : Z) : Z :=
  let res := mul_magnitude bits half (magnitude arg1) (magnitude arg2) in
  if xorb (arg1 <? 0) (arg2 <? 0) then s64 (- res) else res.

(** ** fixed31_32.h *)

Definition dc_fixpt_from_int (arg : Z) : Z := s64 (Z.shiftl arg FIXED31_32_BITS_PER_FRACTIONAL_PART).
Definition dc_fixpt_neg (arg : Z) : Z := s64 (- arg).
Definition dc_fixpt_abs (arg : Z) : Z := if arg <? 0 then dc_fixpt_neg arg else arg.
Definition dc_fixpt_lt (arg1 arg2 : Z) : bool := arg1 <? arg2.
Definition dc_fixpt_le (arg1 arg2 : Z) : bool := arg1 <=? arg2.
Definition dc_fixpt_eq (arg1 arg2 : Z) : bool := arg1 =? arg2.
Definition dc_fixpt_min (arg1 arg2 : Z) : Z := if arg1 <=? arg2 then arg1 else arg2.
Definition dc_fixpt_max (arg1 arg2 : Z) : Z := if arg1 <=? arg2 then arg2 else arg1.
Definition dc_fixpt_clamp (arg min_value max_value : Z) : Z :=
  if dc_fixpt_le arg min_value then min_value
  else if dc_fixpt_le max_value arg then max_value
  else arg.
Definition dc_fixpt_shl (arg shift : Z) : Z := s64 (Z.shiftl arg shift).
Definition dc_fixpt_shr (arg shift : Z) : Z :=
  let negative := arg <? 0 in
  let arg := if negative then s64 (- arg) else arg in
  let arg := Z.shiftr arg shift in
  if negative then s64 (- arg) else arg.
Definition dc_fixpt_add (arg1 arg2 : Z) : Z := s64 (arg1 + arg2).
Definition dc_fixpt_add_int (arg1 arg2 : Z) : Z := dc_fixpt_add arg1 (dc_fixpt_from_int arg2).
Definition dc_fixpt_sub (arg1 arg2 : Z) : Z := s64 (arg1 - arg2).
Definition dc_fixpt_sub_int (arg1 arg2 : Z) : Z := dc_fixpt_sub arg1 (dc_fixpt_from_int arg2).

Definition dc_fixpt_floor (arg : Z) : Z :=
  let arg_value := u64 (if 0 <? arg then arg else s64 (- arg)) in
  let v := s32 (Z.shiftr arg_value FIXED31_32_BITS_PER_FRACTIONAL_PART) in
  if 0 <=? arg then v else s32 (- v).
Definition dc_fixpt_round (arg : Z) : Z :=
  let arg_value := u64 (if 0 <? arg then arg else s64 (- arg)) in
  let arg_value := u64 (arg_value + dc_fixpt_half) in
  let v := s32 (Z.shiftr arg_value FIXED31_32_BITS_PER_FRACTIONAL_PART) in
  if 0 <=? arg then v else s32 (- v).
Definition dc_fixpt_ceil (arg : Z) : Z :=
  let arg_value := u64 (if 0 <? arg then arg else s64 (- arg)) in
  let arg_value := u64 (arg_value + (dc_fixpt_one - dc_fixpt_epsilon)) in
  let v := s32 (Z.shiftr arg_value FIXED31_32_BITS_PER_FRACTIONAL_PART) in
  if 0 <=? arg then v else s32 (- v).
Definition dc_fixpt_truncate (arg frac_bits : Z) : Z :=
  if FIXED31_32_BITS_PER_FRACTIONAL_PART <=? frac_bits then arg
  else
    let negative := arg <? 0 in
    let arg := if negative then s64 (- arg) else arg in
    let arg := s64 (Z.land (u64 arg) (u64 (Z.shiftl (2 ^ 64 - 1) (FIXED31_32_BITS_PER_FRACTIONAL_PART - frac_bits)))) in
    if negative then s64 (- arg) else arg.

(** ** fixpt31_32.c *)

Definition abs_i64 (arg : Z) : Z := u64 (if 0 <? arg then arg else s64 (- arg)).

Definition dc_fixpt_from_fraction (numerator denominator : Z) : option Z := fraction 32 numerator denominator.
Definition dc_fixpt_mul (arg1 arg2 : Z) : Z := fixed_mul 32 dc_fixpt_half arg1 arg2.
Definition dc_fixpt_mul_int (arg1 arg2 : Z) : Z := dc_fixpt_mul arg1 (dc_fixpt_from_int arg2).
Definition dc_fixpt_div_int (arg1 arg2 : Z) : option Z := dc_fixpt_from_fraction arg1 (dc_fixpt_from_int (s32 arg2)).
Definition dc_fixpt_div (arg1 arg2 : Z) : option Z := dc_fixpt_from_fraction arg1 arg2.

Definition dc_fixpt_sqr (arg : Z) : Z :=
  let arg_value := abs_i64 arg in
  let arg_int := GET_INTEGER_PART 32 arg_value in
  let arg_fra := GET_FRACTIONAL_PART 32 arg_value in
  let res := s64 (u64 (arg_int * arg_int)) in
  let res := s64 (Z.shiftl res 32) in
  let tmp := u64 (arg_int * arg_fra) in
  let res := s64 (res + tmp) in
  let res := s64 (res + tmp) in
  let tmp := u64 (arg_fra * arg_fra) in
  let tmp := u64 (Z.shiftr tmp 32 + if dc_fixpt_half <=? tmp then 1 else 0) in
  s64 (res + tmp).

Definition dc_fixpt_recip (arg : Z) : option Z := dc_fixpt_from_fraction dc_fixpt_one arg.

(** The rounds [res = 1 - square * res / (n * (n - 1))] of the two series. *)
Fixpoint series_loop (ns : list Z) (square res : Z) : option Z :=
  match ns with
  | [] => Some res
  | n :: ns =>
      q ← dc_fixpt_div_int (dc_fixpt_mul square res) (n * (n - 1));
      series_loop ns square (dc_fixpt_sub dc_fixpt_one q)
  end.

Definition dc_fixpt_sinc (arg : Z) : option Z :=
  let arg_norm :=
    if dc_fixpt_le dc_fixpt_two_pi (dc_fixpt_abs arg)
    then dc_fixpt_sub arg (dc_fixpt_mul_int dc_fixpt_two_pi (s32 (Z.quot arg dc_fixpt_two_pi)))
    else arg in
  let square := dc_fixpt_sqr arg_norm in
  res ← series_loop [27; 25; 23; 21; 19; 17; 15; 13; 11; 9; 7; 5; 3] square dc_fixpt_one;
  if negb (arg =? arg_norm) then dc_fixpt_div (dc_fixpt_mul res arg_norm) arg else Some res.

Definition dc_fixpt_sin (arg : Z) : option Z := s ← dc_fixpt_sinc arg; Some (dc_fixpt_mul arg s).

Definition dc_fixpt_cos (arg : Z) : option Z :=
  series_loop [26; 24; 22; 20; 18; 16; 14; 12; 10; 8; 6; 4; 2] (dc_fixpt_sqr arg) dc_fixpt_one.

(** The rounds [res = 1 + arg * res / n]. *)
Fixpoint taylor_loop (ns : list Z) (arg res : Z) : option Z :=
  match ns with
  | [] => Some res
  | n :: ns =>
      q ← dc_fixpt_div_int (dc_fixpt_mul arg res) n;
      taylor_loop ns arg (dc_fixpt_add dc_fixpt_one q)
  end.

Definition fixed31_32_exp_from_taylor_series (arg : Z) : option Z :=
  res ← dc_fixpt_from_fraction (9 + 2) (9 + 1);
  res ← taylor_loop [9; 8; 7; 6; 5; 4; 3; 2] arg res;
  Some (dc_fixpt_add dc_fixpt_one (dc_fixpt_mul arg res)).

Definition dc_fixpt_exp (arg : Z) : option Z :=
  if dc_fixpt_le dc_fixpt_ln2_div_2 (dc_fixpt_abs arg) then
    q ← dc_fixpt_div arg dc_fixpt_ln2;
    let m := dc_fixpt_round q in
    let r := dc_fixpt_sub arg (dc_fixpt_mul_int dc_fixpt_ln2 m) in
    e ← fixed31_32_exp_from_taylor_series r;
    if 0 <? m then
      if 64 <=? u8 m then None else Some (dc_fixpt_shl e (u8 m))
    else
      if 64 <=? s32 (- m) then None else dc_fixpt_div_int e (s64 (Z.shiftl 1 (s32 (- m))))
  else if negb (arg =? 0) then fixed31_32_exp_from_taylor_series arg
  else Some dc_fixpt_one.

Fixpoint log_loop (fuel : nat) (arg res : Z) : option Z :=
  match fuel with
  | O => None
  | S fuel =>
      e ← dc_fixpt_exp res;
      q ← dc_fixpt_div arg e;
      let res1 := dc_fixpt_add (dc_fixpt_sub res dc_fixpt_one) q in
      let error := dc_fixpt_sub res res1 in
      if 100 <? abs_i64 error then log_loop fuel arg res1 else Some res1
  end.

Definition dc_fixpt_log (fuel : nat) (arg : Z) : option Z := log_loop fuel arg (dc_fixpt_neg dc_fixpt_one).

Definition dc_fixpt_pow (fuel : nat) (arg1 arg2 : Z) : option Z :=
  if arg1 =? 0 then Some (if arg2 =? 0 then dc_fixpt_one else dc_fixpt_zero)
  else l ← dc_fixpt_log fuel arg1; dc_fixpt_exp (dc_fixpt_mul l arg2).

(** [value] is a [long long]; the masks and the result are 32 bits wide. *)
Definition ux_dy (value integer_bits fractional_bits : Z) : Z :=
  let result := u32 (Z.shiftl 1 integer_bits - 1) in
  let fractional_part := u32 (Z.land (2 ^ 32 - 1) (u64 value)) in
  let result := u32 (Z.land result (u64 (Z.shiftr value 32))) in
  let result := u32 (Z.shiftl result fractional_bits) in
  let fractional_part := Z.shiftr fractional_part (32 - fractional_bits) in
  Z.lor result fractional_part.

Definition clamp_ux_dy (value integer_bits fractional_bits min_clamp : Z) : Z :=
  let truncated_val := ux_dy value integer_bits fractional_bits in
  if Z.shiftl 1 (integer_bits + 32) <=? value then u32 (Z.shiftl 1 (integer_bits + fractional_bits) - 1)
  else if min_clamp <? truncated_val then truncated_val
  else min_clamp.

Definition dc_fixpt_u4d19 (arg : Z) : Z := ux_dy arg 4 19.
Definition dc_fixpt_u3d19 (arg : Z) : Z := ux_dy arg 3 19.
Definition dc_fixpt_u2d19 (arg : Z) : Z := ux_dy arg 2 19.
Definition dc_fixpt_u0d19 (arg : Z) : Z := ux_dy arg 0 19.
Definition dc_fixpt_clamp_u0d14 (arg : Z) : Z := clamp_ux_dy arg 0 14 1.
Definition dc_fixpt_clamp_u0d10 (arg : Z) : Z := clamp_ux_dy arg 0 10 1.
Definition dc_fixpt_s4d19 (arg : Z) : Z :=
  if arg <? 0 then s32 (- s32 (ux_dy (dc_fixpt_abs arg) 4 19)) else s32 (ux_dy arg 4 19).

Definition dc_fixpt_from_ux_dy (value integer_bits fractional_bits : Z) : Z :=
  let frac_mask := s64 (Z.shiftl 1 integer_bits - 1) in
  let fixpt_value := s64 (Z.shiftl value (32 - fractional_bits)) in
  let frac_mask := s64 (Z.shiftl frac_mask fractional_bits) in
  let fixpt_int_value := Z.land value frac_mask in
  let fixpt_int_value := s64 (Z.shiftl fixpt_int_value (32 - fractional_bits)) in
  Z.lor fixpt_value fixpt_int_value.

Definition dc_fixpt_from_int_dy (int_value frac_value integer_bits fractional_bits : Z) : Z :=
  Z.lor (dc_fixpt_from_int (s32 int_value)) (s64 (Z.shiftl frac_value (32 - fractional_bits))).

(** ** bw_fixed.h, bw_fixed.c *)

Definition BW_FIXED_BITS_PER_FRACTIONAL_PART : Z := 24.

Definition bw_abs_i64 (arg : Z) : Z := u64 (if 0 <=? arg then arg else s64 (- arg)).
Definition bw_int_to_fixed (value : Z) : Z := s64 (Z.shiftl value BW_FIXED_BITS_PER_FRACTIONAL_PART).
Definition bw_fixed_to_int (value : Z) : Z := s32 (GET_INTEGER_PART BW_FIXED_BITS_PER_FRACTIONAL_PART value).
Definition fixed31_32_to_bw_fixed (raw : Z) : Z :=
  if raw <? 0 then s64 (- Z.shiftr (s64 (- raw)) (32 - BW_FIXED_BITS_PER_FRACTIONAL_PART))
  else Z.shiftr raw (32 - BW_FIXED_BITS_PER_FRACTIONAL_PART).
Definition bw_min2 (arg1 arg2 : Z) : Z := if arg1 <=? arg2 then arg1 else arg2.
Definition bw_max2 (arg1 arg2 : Z) : Z := if arg2 <=? arg1 then arg1 else arg2.
Definition bw_min3 (v1 v2 v3 : Z) : Z := bw_min2 (bw_min2 v1 v2) v3.
Definition bw_max3 (v1 v2 v3 : Z) : Z := bw_max2 (bw_max2 v1 v2) v3.
Definition bw_add (arg1 arg2 : Z) : Z := s64 (arg1 + arg2).
Definition bw_sub (arg1 arg2 : Z) : Z := s64 (arg1 - arg2).

Definition bw_frc_to_fixed (numerator denominator : Z) : option Z := fraction 24 numerator denominator.
Definition bw_div (arg1 arg2 : Z) : option Z := bw_frc_to_fixed arg1 arg2.
Definition bw_mul (arg1 arg2 : Z) : Z := fixed_mul 24 (2 ^ 23) arg1 arg2.

(** [div64_s64] by the magnitude of the significance, taken as signed. *)
Definition bw_multiplicand (arg significance : Z) : option Z :=
  let d := s64 (bw_abs_i64 significance) in
  if d =? 0 then None else Some (s64 (Z.quot arg d)).
Definition bw_floor2 (arg significance : Z) : option Z :=
  m ← bw_multiplicand arg significance; Some (s64 (u64 (bw_abs_i64 significance * m))).
Definition bw_ceil2 (arg significance : Z) : option Z :=
  m ← bw_multiplicand arg significance;
  let result := s64 (u64 (bw_abs_i64 significance * m)) in
  Some (if bw_abs_i64 result <? bw_abs_i64 arg
        then if arg <? 0 then s64 (result - bw_abs_i64 significance) else s64 (result + bw_abs_i64 significance)
        else result).

(** ** custom_float.c *)

Record custom_float_format := mkFormat { mantissa_bits : Z; exponenta_bits : Z; format_sign : bool }.

(** Doubles the value until it is at least one: the value and the counter. *)
Fixpoint float_up (fuel : nat) (value i : Z) : option (Z * Z) :=
  match fuel with
  | O => None
  | S fuel =>
      let value := dc_fixpt_shl value 1 in
      let i := u32 (i + 1) in
      if dc_fixpt_lt value dc_fixpt_one then float_up fuel value i else Some (value, i)
  end.

(** Halves the value until it is at most [limit]. *)
Fixpoint float_down (fuel : nat) (limit value i : Z) : option (Z * Z) :=
  match fuel with
  | O => None
  | S fuel =>
      let value := dc_fixpt_shr value 1 in
      let i := u32 (i + 1) in
      if dc_fixpt_lt limit value then float_down fuel limit value i else Some (value, i)
  end.

(** The mantissa field of a normalised value. *)
Definition float_mantissa (format : custom_float_format) (value : Z) : Z :=
  let mantiss := dc_fixpt_sub value dc_fixpt_one in
  let mantiss := if dc_fixpt_lt mantiss dc_fixpt_zero || dc_fixpt_lt dc_fixpt_one mantiss then dc_fixpt_zero
                 else dc_fixpt_shl mantiss (mantissa_bits format) in
  u32 (dc_fixpt_floor mantiss).

(** [(negative, mantissa, exponenta)]; 64 rounds cover every value but the most
    negative one, for which the C loop does not end. *)
Definition build_custom_float (value : Z) (format : custom_float_format) : option (bool * Z * Z) :=
  let exp_offset := u32 (Z.shiftl 1 (exponenta_bits format - 1) - 1) in
  limit ← dc_fixpt_from_fraction (s64 (Z.shiftl 1 (mantissa_bits format + 1) - 1)) (s64 (Z.shiftl 1 (mantissa_bits format)));
  if dc_fixpt_eq value dc_fixpt_zero then Some (false, 0, 0)
  else
    let negative := if dc_fixpt_lt value dc_fixpt_zero then format_sign format else false in
    let value := if dc_fixpt_lt value dc_fixpt_zero then dc_fixpt_neg value else value in
    if dc_fixpt_lt value dc_fixpt_one then
      vi ← float_up 64 value 1;
      let i := u32 (snd vi - 1) in
      if exp_offset <=? i then Some (negative, 0, 0)
      else Some (negative, float_mantissa format (fst vi), u32 (exp_offset - i))
    else if dc_fixpt_le limit value then
      vi ← float_down 64 limit value 1;
      Some (negative, float_mantissa format (fst vi), u32 (exp_offset + snd vi - 1))
    else Some (negative, float_mantissa format value, exp_offset).

(** Copies [n] bits of [field], from bit [i] on, to [value] at [pos + i]. *)
Fixpoint copy_bits (n : nat) (i pos field value : Z) : Z :=
  match n with
  | O => value
  | S n =>
      let mask := u32 (Z.shiftl 1 i) in
      copy_bits n (i + 1) pos field
        (if negb (Z.land field mask =? 0) then Z.lor value (u32 (Z.shiftl mask pos)) else value)
  end.

Definition setup_custom_float (format : custom_float_format) (negative : bool) (mantissa exponenta : Z) : Z :=
  let mantissa_mask := u32 (Z.shiftl 1 (mantissa_bits format + 1) - 1) in
  let exponenta_mask := u32 (Z.shiftl 1 (exponenta_bits format + 1) - 1) in
  let mantissa := if negb (Z.land mantissa (2 ^ 32 - 1 - mantissa_mask) =? 0) then mantissa_mask else mantissa in
  let exponenta := if negb (Z.land exponenta (2 ^ 32 - 1 - exponenta_mask) =? 0) then exponenta_mask else exponenta in
  let value := copy_bits (Z.to_nat (mantissa_bits format)) 0 0 mantissa 0 in
  let value := copy_bits (Z.to_nat (exponenta_bits format)) 0 (mantissa_bits format) exponenta value in
  if negative && format_sign format
  then Z.lor value (u32 (Z.shiftl 1 (mantissa_bits format + exponenta_bits format))) else value.

Definition convert_to_custom_float_format (value : Z) (format : custom_float_format) : option Z :=
  b ← build_custom_float value format;
  let '(negative, mantissa, exponenta) := b in
  Some (setup_custom_float format negative mantissa exponenta).

(** ** conversion.c *)

Definition fixed_point_to_int_frac (arg integer_bits fractional_bits : Z) : option Z :=
  let divisor := s32 (Z.shiftl 1 fractional_bits) in
  let d := u16 (dc_fixpt_floor (dc_fixpt_abs arg)) in
  if u16 divisor =? 0 then None
  else
    numerator ←
      (if d <=? u16 (Z.shiftl 1 integer_bits) - 1 / u16 divisor
       then Some (u16 (dc_fixpt_round (dc_fixpt_mul_int arg divisor)))
       else
         r ← dc_fixpt_recip (dc_fixpt_from_int divisor);
         Some (dc_fixpt_floor (dc_fixpt_sub (dc_fixpt_from_int (s32 (Z.shiftl 1 integer_bits))) r)));
    let result :=
      if 0 <=? numerator then u16 numerator
      else u16 (Z.shiftl 1 (integer_bits + fractional_bits + 1) + numerator) in
    Some (if negb (result =? 0) && dc_fixpt_lt arg dc_fixpt_zero
          then Z.lor result (u16 (Z.shiftl 1 (integer_bits + fractional_bits))) else result).

Definition DIVIDER : Z := 10000.

Definition convert_float_matrix (flt : list Z) : option (list Z) :=
  min_2_13 ← dc_fixpt_from_fraction (-3 * DIVIDER) DIVIDER;
  max_2_13 ← dc_fixpt_from_fraction (3 * DIVIDER) DIVIDER;
  mapM (fun f => v ← fixed_point_to_int_frac (dc_fixpt_clamp f min_2_13 max_2_13) 2 13; Some (u16 v)) flt.

Definition int_frac_to_fixed_point (arg integer_bits fractional_bits : Z) : Z :=
  let sign_mask := u16 (Z.shiftl 1 (fractional_bits + integer_bits)) in
  let value_mask := u16 (sign_mask - 1) in
  let result := s64 (Z.shiftl (Z.land arg value_mask) (32 - fractional_bits)) in
  if negb (Z.land arg sign_mask =? 0) then dc_fixpt_neg result else result.

Definition convert_hw_matrix (reg : list Z) : list Z := map (fun r => int_frac_to_fixed_point r 2 13) reg.

(** Euclid's loop; the remainder shrinks, so [b + 1] rounds are enough. *)
Fixpoint gcd_loop (fuel : nat) (a b : Z) : option Z :=
  if b =? 0 then Some a
  else match fuel with
       | O => None
       | S fuel => gcd_loop fuel b (a mod b)
       end.
Definition find_gcd (a b : Z) : option Z := gcd_loop (Z.to_nat b) a b.

Definition reduce_fraction (num den : Z) : option (Z * Z) :=
  gcd ← find_gcd num den;
  if gcd =? 0 then None else Some (num / gcd, den / gcd).
