(* ===== verification/FixptProps.v ===== *)
(** * Fixed-point arithmetic of the display core: correctness

    Division rounds to nearest, multiplication is within one unit in the last
    place, the register formats round-trip where they should, and the places where
    the code departs from its documentation. *)

From S2P Require Import Prelude Fixpt.
From stdpp Require Import list option.
From Stdlib Require Import ZArith Lia.

Local Open Scope Z_scope.

(** Decides the comparisons of the goal. *)
Ltac zcases :=
  repeat match goal with
  | |- context [?a <=? ?b] => destruct (Z.leb_spec a b)
  | |- context [?a <? ?b] => destruct (Z.ltb_spec a b)
  end; try lia.

(** ** Magnitudes *)

Definition i64 (x : Z) : Prop := - 2 ^ 63 <= x < 2 ^ 63.

Lemma swrap_neg_min : s64 (2 ^ 63) = - 2 ^ 63.
Proof. reflexivity. Qed.

Lemma magnitude_abs x : i64 x -> magnitude x = Z.abs x.
Proof.
  unfold i64, magnitude. intros Hx. destruct (Z.ltb_spec x 0); [|rewrite wrap_small; lia].
  destruct (decide (x = - 2 ^ 63)) as [->|]; [reflexivity|]. rewrite swrap_small, wrap_small by lia. lia.
Qed.

Lemma abs_i64_abs x : i64 x -> abs_i64 x = Z.abs x.
Proof.
  intros Hx. rewrite <- magnitude_abs by done. unfold abs_i64, magnitude.
  destruct (Z.ltb_spec 0 x), (Z.ltb_spec x 0); try done; try lia. assert (x = 0) as -> by lia. reflexivity.
Qed.

(** The sign the code gives a result computed on magnitudes. *)
Lemma sign_of a b v :
  0 <= v < 2 ^ 63 -> (a = 0 \/ b = 0 -> v = 0) ->
  (if xorb (a <? 0) (b <? 0) then s64 (- v) else v) = Z.sgn a * Z.sgn b * v.
Proof.
  intros Hv H0. destruct (Z.ltb_spec a 0), (Z.ltb_spec b 0); cbn [xorb]; rewrite ?swrap_small by lia.
  all: destruct (Z.sgn_spec a) as [[? ->]|[[? ->]|[? ->]]], (Z.sgn_spec b) as [[? ->]|[[? ->]|[? ->]]]; lia.
Qed.

(** ** Division *)

Lemma lor_even_1 x : 0 <= x -> Z.lor (2 * x) 1 = 2 * x + 1.
Proof. intros. destruct x; [done|done|lia]. Qed.

Lemma fraction_loop_spec i d r v :
  0 < d <= 2 ^ 63 -> 0 <= r < d -> 0 <= v -> (v * d + r) * 2 ^ Z.of_nat i < d * 2 ^ 64 ->
  let '(r', v') := fraction_loop i d r v in
  0 <= r' < d /\ 0 <= v' /\ v' * d + r' = (v * d + r) * 2 ^ Z.of_nat i.
Proof.
  revert r v. induction i as [|i IH]; intros r v Hd Hr Hv Hov; cbn [fraction_loop].
  { change (2 ^ Z.of_nat 0) with 1. lia. }
  rewrite Nat2Z.inj_succ, Z.pow_succ_r in * by lia. pose proof (Z.pow_pos_nonneg 2 (Z.of_nat i)).
  assert (v < 2 ^ 63) as Hv63.
  { assert (v * d + r <= (v * d + r) * 2 ^ Z.of_nat i) 
      by (assert (0 <= v * d + r) as HK by nia; revert HK; generalize (v * d + r); nia).
    apply (Z.mul_lt_mono_pos_r d); [lia|]. change (2 ^ 64) with (2 * 2 ^ 63) in Hov. lia. }
  rewrite !Z.shiftl_mul_pow2, !(Z.mul_comm _ (2 ^ 1)) by lia. change (2 ^ 1) with 2.
  rewrite (wrap_small 64 (2 * r)), (wrap_small 64 (2 * v)) by lia.
  destruct (Z.leb_spec d (2 * r)).
  - rewrite wrap_small, lor_even_1 by lia. specialize (IH (2 * r - d) (2 * v + 1)).
    destruct (fraction_loop _ _ _ _). destruct IH as (? & ? & E); [lia|lia|lia|nia|]. split_and!; nia.
  - specialize (IH (2 * r) (2 * v)). destruct (fraction_loop _ _ _ _). destruct IH as (? & ? & E); [lia|lia|lia|nia|].
    split_and!; nia.
Qed.

(** The quotient rounded to nearest, halves away from zero. *)
Definition round_div (n d : Z) : Z := (2 * n + d) / (2 * d).

Lemma round_div_step q r d :
  0 < d -> 0 <= r < d -> round_div (q * d + r) d = q + if d <=? 2 * r then 1 else 0.
Proof.
  intros Hd Hr. unfold round_div. destruct (Z.leb_spec d (2 * r)).
  - symmetry. apply (Z.div_unique _ _ _ (2 * r - d)); lia.
  - symmetry. apply (Z.div_unique _ _ _ (2 * r + d)); lia.
Qed.

Lemma fraction_correct bits n d :
  i64 n -> i64 d -> d <> 0 -> round_div (Z.abs n * 2 ^ Z.of_nat bits) (Z.abs d) < 2 ^ 63 ->
  fraction bits n d = Some (Z.sgn n * Z.sgn d * round_div (Z.abs n * 2 ^ Z.of_nat bits) (Z.abs d)).
Proof.
  intros Hn Hd Hd0 Hfit. unfold fraction. rewrite !magnitude_abs by done.
  destruct (Z.eqb_spec (Z.abs d) 0); [lia|]. unfold i64 in *. set (D := Z.abs d) in *. set (N := Z.abs n) in *.
  assert (0 < D <= 2 ^ 63 /\ 0 <= N) as [HD HN] by lia. pose proof (Z.pow_pos_nonneg 2 (Z.of_nat bits)).
  pose proof (Z.div_mod N D ltac:(lia)) as EN. pose proof (Z.mod_pos_bound N D ltac:(lia)). pose proof (Z.div_pos N D).
  pose proof (fraction_loop_spec bits D (N mod D) (N / D)) as Hl.
  assert (round_div (N * 2 ^ Z.of_nat bits) D * (2 * D) <= 2 * (N * 2 ^ Z.of_nat bits) + D <
          (round_div (N * 2 ^ Z.of_nat bits) D + 1) * (2 * D)) as Hrd.
  { unfold round_div. pose proof (Z.div_mod (2 * (N * 2 ^ Z.of_nat bits) + D) (2 * D)).
    pose proof (Z.mod_pos_bound (2 * (N * 2 ^ Z.of_nat bits) + D) (2 * D)). lia. }
  assert (N * 2 ^ Z.of_nat bits < D * 2 ^ 64) as Hov.
  { assert ((round_div (N * 2 ^ Z.of_nat bits) D + 1) * (2 * D) <= 2 ^ 63 * (2 * D)) by (apply Z.mul_le_mono_nonneg_r; lia). lia. }
  destruct (fraction_loop _ _ _ _) as [r v]. replace (N / D * D + N mod D) with N in Hl by lia.
  destruct Hl as (Hr & Hv & E); [done|done|apply H1; lia|done|]. rewrite <- E in Hfit |- *. rewrite round_div_step in * by lia.
  rewrite Z.shiftl_mul_pow2, (Z.mul_comm r) by lia. change (2 ^ 1) with 2. rewrite (wrap_small 64 (2 * r)) by lia.
  set (q := v + if D <=? 2 * r then 1 else 0) in *. assert (0 <= q) by (unfold q; case_match; lia).
  assert (q = v + if D <=? 2 * r then 1 else 0) as Hq by done. clearbody q.
  rewrite (wrap_small 64 q), (swrap_small 64 q) by lia. f_equal. apply sign_of; [lia|].
  intros [->| ->]; [|done]. rewrite Hq. unfold N in E. cbn in E. assert (v = 0 /\ r = 0) as [-> ->] by nia.
  destruct (Z.leb_spec D (2 * 0)); lia.
Qed.

(** ** Multiplication *)

(** The rounding the code applies: one, as soon as the product of the fractional
    parts reaches one half of the result's unit scaled by the fraction. *)
Definition mul_carry (bits half x y : Z) : Z := if half <=? (x mod 2 ^ bits) * (y mod 2 ^ bits) then 1 else 0.

Lemma parts bits x :
  0 <= bits -> GET_INTEGER_PART bits x = x / 2 ^ bits /\ GET_FRACTIONAL_PART bits x = x mod 2 ^ bits.
Proof.
  intros Hb. unfold GET_INTEGER_PART, GET_FRACTIONAL_PART. split; [by rewrite Z.shiftr_div_pow2|].
  rewrite Z.land_comm, Z.sub_1_r, <- Z.ones_equiv. by apply Z.land_ones.
Qed.

Lemma mul_magnitude_correct bits half x y :
  0 <= bits <= 32 -> 0 <= x -> 0 <= y -> x * y / 2 ^ bits + mul_carry bits half x y < 2 ^ 63 ->
  mul_magnitude bits half x y = x * y / 2 ^ bits + mul_carry bits half x y.
Proof.
  intros Hb Hx Hy Hfit. unfold mul_magnitude. cbv zeta.
  destruct (parts bits x ltac:(lia)) as [Ix Fx], (parts bits y ltac:(lia)) as [Iy Fy]. rewrite Ix, Fx, Iy, Fy. clear Ix Fx Iy Fy.
  unfold mul_carry in *. set (P := 2 ^ bits) in *. assert (1 <= P <= 2 ^ 32) as HP.
  { unfold P. change 1 with (2 ^ 0). split; apply Z.pow_le_mono_r; lia. }
  pose proof (Z.div_mod x P ltac:(lia)) as Ex. pose proof (Z.mod_pos_bound x P ltac:(lia)) as Rx. pose proof (Z.div_pos x P ltac:(lia) ltac:(lia)) as Dx.
  pose proof (Z.div_mod y P ltac:(lia)) as Ey. pose proof (Z.mod_pos_bound y P ltac:(lia)) as Ry. pose proof (Z.div_pos y P ltac:(lia) ltac:(lia)) as Dy.
  set (xi := x / P) in *. set (xf := x mod P) in *. set (yi := y / P) in *. set (yf := y mod P) in *. clearbody xi xf yi yf.
  assert (x * y / P = xi * yi * P + xi * yf + yi * xf + xf * yf / P) as E.
  { rewrite Ex, Ey. replace ((P * xi + xf) * (P * yi + yf)) with (xf * yf + (xi * yi * P + xi * yf + yi * xf) * P) by ring.
    rewrite Z.div_add by lia. lia. }
  rewrite E in Hfit |- *. assert (0 <= xf * yf < 2 ^ 64) as Hff by nia.
  assert (0 <= xf * yf / P) as Hq by (apply Z.div_pos; lia).
  assert (0 <= xi * yi) by nia. assert (xi * yi <= xi * yi * P) by nia. assert (0 <= xi * yf) by nia. assert (0 <= yi * xf) by nia.
  rewrite (wrap_small 64 (xf * yf)) by lia. rewrite Z.shiftr_div_pow2, Z.shiftl_mul_pow2 by lia. fold P.
  set (c := if half <=? xf * yf then 1 else 0) in *. assert (0 <= c <= 1) as Hc by (unfold c; case_match; lia). clearbody c P.
  rewrite (wrap_small 64 (xi * yi)), (swrap_small 64 (xi * yi)) by lia. rewrite (swrap_small 64 (xi * yi * P)) by lia.
  rewrite (wrap_small 64 (xi * yf)) by lia. rewrite (swrap_small 64 (xi * yi * P + xi * yf)) by lia.
  rewrite (wrap_small 64 (yi * xf)) by lia. rewrite (swrap_small 64 (xi * yi * P + xi * yf + yi * xf)) by lia.
  rewrite wrap_small by lia. rewrite swrap_small by lia. lia.
Qed.

Lemma fixed_mul_correct bits half a b :
  0 <= bits <= 32 -> 0 < half -> i64 a -> i64 b -> Z.abs a * Z.abs b / 2 ^ bits < 2 ^ 63 - 1 ->
  fixed_mul bits half a b = Z.sgn a * Z.sgn b * (Z.abs a * Z.abs b / 2 ^ bits + mul_carry bits half (Z.abs a) (Z.abs b)).
Proof.
  intros Hb Hh Ha Hbb Hfit. unfold fixed_mul. rewrite !magnitude_abs by done.
  pose proof (Z.pow_pos_nonneg 2 bits ltac:(lia) ltac:(lia)).
  assert (0 <= Z.abs a * Z.abs b / 2 ^ bits) as Hq by (apply Z.div_pos; [apply Z.mul_nonneg_nonneg; lia|lia]).
  assert (0 <= mul_carry bits half (Z.abs a) (Z.abs b) <= 1) as Hc by (unfold mul_carry; case_match; lia).
  rewrite mul_magnitude_correct by lia. apply sign_of; [lia|].
  intros [->| ->]; unfold mul_carry; cbn [Z.abs]; rewrite ?Z.mul_0_r, ?Z.mul_0_l, ?Zmod_0_l, ?Zdiv_0_l, ?Z.mul_0_r, ?Z.mul_0_l;
    (destruct (Z.leb_spec half 0); [lia|done]).
Qed.

Lemma mul_sgn_abs a b : a * b = Z.sgn a * Z.sgn b * (Z.abs a * Z.abs b).
Proof. rewrite <- (Z.abs_sgn a) at 1. rewrite <- (Z.abs_sgn b) at 1. ring. Qed.

Lemma mul_error bits half a b :
  0 <= bits -> let q := Z.abs a * Z.abs b / 2 ^ bits + mul_carry bits half (Z.abs a) (Z.abs b) in
  Z.abs (Z.sgn a * Z.sgn b * q * 2 ^ bits - a * b) <= 2 ^ bits.
Proof.
  intros Hb q. pose proof (Z.pow_pos_nonneg 2 bits ltac:(lia) ltac:(lia)).
  assert (a * b = Z.sgn a * Z.sgn b * (Z.abs a * Z.abs b)) as Eab.
  { apply mul_sgn_abs. }
  assert (- 2 ^ bits <= q * 2 ^ bits - Z.abs a * Z.abs b <= 2 ^ bits) as Hq.
  { unfold q. pose proof (Z.div_mod (Z.abs a * Z.abs b) (2 ^ bits) ltac:(lia)).
    pose proof (Z.mod_pos_bound (Z.abs a * Z.abs b) (2 ^ bits) ltac:(lia)).
    unfold mul_carry. destruct (half <=? _); lia. }
  rewrite Eab. replace (Z.sgn a * Z.sgn b * q * 2 ^ bits - Z.sgn a * Z.sgn b * (Z.abs a * Z.abs b))
    with (Z.sgn a * Z.sgn b * (q * 2 ^ bits - Z.abs a * Z.abs b)) by ring.
  revert Hq. generalize (q * 2 ^ bits - Z.abs a * Z.abs b). intros e He.
  destruct (Z.sgn_spec a) as [[? ->]|[[? ->]|[? ->]]], (Z.sgn_spec b) as [[? ->]|[[? ->]|[? ->]]]; lia.
Qed.

(** A product with an integer is exact. *)
Lemma mul_int_exact a n :
  i64 a -> - 2 ^ 31 <= n < 2 ^ 31 -> Z.abs (a * n) < 2 ^ 63 - 1 -> dc_fixpt_mul_int a n = a * n.
Proof.
  intros Ha Hn Hfit. unfold dc_fixpt_mul_int, dc_fixpt_mul, dc_fixpt_from_int. change FIXED31_32_BITS_PER_FRACTIONAL_PART with 32.
  rewrite Z.shiftl_mul_pow2 by lia. rewrite swrap_small by lia.
  assert (Z.abs a * Z.abs (n * 2 ^ 32) / 2 ^ 32 = Z.abs (a * n)) as E.
  { rewrite (Z.abs_mul n), Z.mul_assoc. change (Z.abs (2 ^ 32)) with (2 ^ 32). rewrite Z.div_mul by lia. by rewrite Z.abs_mul. }
  rewrite fixed_mul_correct; [|lia|done|done|unfold i64; lia|lia]. rewrite E. unfold mul_carry.
  rewrite (Z.abs_mul n). change (Z.abs (2 ^ 32)) with (2 ^ 32). rewrite Z.mod_mul, Z.mul_0_r by lia. cbn [Z.leb dc_fixpt_half Z.compare].
  rewrite Z.sgn_mul, Z.abs_mul, Z.add_0_r. change (Z.sgn (2 ^ 32)) with 1.
  rewrite (mul_sgn_abs a n). ring.
Qed.

(** ** Register formats *)

Lemma ux_dy_val value ib fb :
  0 <= value < 2 ^ 63 -> 0 <= ib <= 31 -> 0 < fb -> ib + fb <= 32 ->
  ux_dy value ib fb = (value / 2 ^ (32 - fb)) mod 2 ^ (ib + fb).
Proof.
  intros Hv Hi Hf Hs. unfold ux_dy.
  assert (1 <= 2 ^ ib <= 2 ^ 31) as Hpi by (change 1 with (2 ^ 0); split; apply Z.pow_le_mono_r; lia).
  rewrite !Z.shiftl_1_l, Z.sub_1_r, <- Z.ones_equiv, (wrap_small 32 (Z.ones ib)) by (rewrite Z.ones_equiv; lia).
  change (2 ^ 32 - 1) with (Z.ones 32). rewrite !(Z.land_comm (Z.ones _)), !Z.land_ones by lia.
  rewrite (wrap_small 64 value), Z.shiftr_div_pow2 by lia.
  rewrite (wrap_small 32 (value mod 2 ^ 32)) by (apply Z.mod_pos_bound; lia).
  assert (0 <= value / 2 ^ 32 < 2 ^ 64) by (split; [apply Z.div_pos; lia|apply Z.div_lt_upper_bound; lia]).
  rewrite (wrap_small 64 (value / 2 ^ 32)) by lia.
  pose proof (Z.mod_pos_bound (value / 2 ^ 32) (2 ^ ib) ltac:(lia)) as Hm. rewrite (wrap_small 32 ((value / 2 ^ 32) mod 2 ^ ib)) by lia.
  rewrite Z.shiftl_mul_pow2, Z.shiftr_div_pow2 by lia.
  assert (2 ^ ib * 2 ^ fb <= 2 ^ 32) as Hp by (rewrite <- Z.pow_add_r by lia; apply Z.pow_le_mono_r; lia).
  pose proof (Z.pow_pos_nonneg 2 fb ltac:(lia) ltac:(lia)) as Hpf.
  rewrite (wrap_small 32) by nia.
  assert (2 ^ 32 = 2 ^ (32 - fb) * 2 ^ fb) as E32 by (rewrite <- Z.pow_add_r by lia; f_equal; lia).
  pose proof (Z.pow_pos_nonneg 2 (32 - fb) ltac:(lia) ltac:(lia)) as Hpc.
  assert (value mod 2 ^ 32 / 2 ^ (32 - fb) = (value / 2 ^ (32 - fb)) mod 2 ^ fb) as ->.
  { rewrite E32, Z.rem_mul_r by lia. rewrite Z.add_comm, Z.mul_comm, Z.div_add_l by lia.
    rewrite (Z.div_small (value mod _)) by (apply Z.mod_pos_bound; lia). lia. }
  rewrite E32, <- Z.div_div by lia. set (w := value / 2 ^ (32 - fb)).
  rewrite <- Z.shiftl_mul_pow2 by lia. rewrite <- (Z.land_ones w fb) by lia.
  rewrite <- Z.shiftr_div_pow2 by lia. rewrite <- (Z.land_ones (Z.shiftr w fb) ib), <- Z.land_ones by lia.
  apply Z.bits_inj'. intros k Hk.
  rewrite Z.lor_spec, Z.shiftl_spec, !Z.land_spec, (Z.testbit_ones_nonneg fb), (Z.testbit_ones_nonneg (ib + fb)) by lia.
  destruct (Z.ltb_spec k fb).
  - rewrite (Z.testbit_neg_r _ (k - fb)) by lia. destruct (Z.ltb_spec k (ib + fb)); [done|lia].
  - rewrite Bool.andb_false_r, Bool.orb_false_r, Z.shiftr_spec by lia. replace (k - fb + fb) with k by lia.
    f_equal. destruct (Z.ltb_spec k (ib + fb)).
    + rewrite Z.ones_spec_low by lia. done.
    + rewrite Z.ones_spec_high by lia. done.
Qed.

Lemma from_ux_dy_val value ib fb :
  0 <= ib <= 31 -> 0 < fb -> ib + fb <= 32 -> 0 <= value < 2 ^ (ib + fb) ->
  dc_fixpt_from_ux_dy value ib fb = value * 2 ^ (32 - fb) /\ 0 <= value * 2 ^ (32 - fb) < 2 ^ 63.
Proof.
  intros Hi Hf Hs Hv.
  assert (2 ^ (ib + fb) * 2 ^ (32 - fb) <= 2 ^ 63) as Hp by (rewrite <- Z.pow_add_r by lia; apply Z.pow_le_mono_r; lia).
  pose proof (Z.pow_pos_nonneg 2 (32 - fb) ltac:(lia) ltac:(lia)) as Hpc. assert (0 <= value * 2 ^ (32 - fb) < 2 ^ 63) as Hr.
  { split; [apply Z.mul_nonneg_nonneg; lia|]. apply (Z.lt_le_trans _ (2 ^ (ib + fb) * 2 ^ (32 - fb))); [apply Z.mul_lt_mono_pos_r; lia|lia]. }
  split; [|done]. unfold dc_fixpt_from_ux_dy. cbv zeta.
  assert (forall m, 0 <= Z.land value m * 2 ^ (32 - fb) < 2 ^ 63) as Hland.
  { intros m. assert (0 <= Z.land value m) by (apply Z.land_nonneg; lia).
    assert (Z.land (Z.ldiff value m) (Z.land value m) = 0) as Hd.
    { apply Z.bits_inj'. intros k Hk. rewrite !Z.land_spec, Z.ldiff_spec, Z.bits_0. by destruct (Z.testbit value k), (Z.testbit m k). }
    pose proof (Z.add_nocarry_lxor _ _ Hd) as Ha. rewrite (Z.lxor_lor _ _ Hd), Z.lor_ldiff_and in Ha.
    assert (0 <= Z.ldiff value m) by (apply Z.ldiff_nonneg; lia).
    nia. }
  rewrite !Z.shiftl_mul_pow2 by lia. rewrite (swrap_small 64 (value * _)) by lia. 
  match goal with |- context [Z.land value ?x] => set (m := x) end. specialize (Hland m).
  rewrite (swrap_small 64) by lia. rewrite <- !Z.shiftl_mul_pow2 by lia. apply Z.bits_inj'. intros k Hk.
  rewrite Z.lor_spec, !Z.shiftl_spec, Z.land_spec by lia. by destruct (Z.testbit value _), (Z.testbit m _).
Qed.

(** ** Euclid's algorithm *)

Lemma gcd_loop_correct fuel a b : 0 <= a -> 0 <= b <= Z.of_nat fuel -> gcd_loop fuel a b = Some (Z.gcd a b).
Proof.
  revert a b. induction fuel as [|fuel IH]; intros a b Ha Hb; cbn [gcd_loop]; destruct (Z.eqb_spec b 0) as [->|Hz];
    rewrite ?Z.gcd_0_r, ?Z.abs_eq by lia; try done; [lia|].
  pose proof (Z.mod_pos_bound a b ltac:(lia)). rewrite IH by lia. f_equal.
  rewrite (Z.gcd_comm b), Z.gcd_mod by lia. apply Z.gcd_comm.
Qed.

(** ** Custom floats *)

Lemma lor_shiftl k x y : 0 <= k -> 0 <= x < 2 ^ k -> 0 <= y -> Z.lor x (Z.shiftl y k) = x + y * 2 ^ k.
Proof.
  intros Hk Hx Hy. assert (Z.land x (Z.shiftl y k) = 0) as Hd.
  { apply Z.bits_inj'. intros j Hj. rewrite Z.land_spec, Z.shiftl_spec, Z.bits_0 by lia. destruct (Z.ltb_spec j k).
    - by rewrite (Z.testbit_neg_r _ (j - k)), Bool.andb_false_r by lia.
    - rewrite (Z.testbit_eqb x) by lia. rewrite Z.div_small; [done|]. assert (2 ^ k <= 2 ^ j) by (apply Z.pow_le_mono_r; lia). lia. }
  rewrite <- Z.lxor_lor, <- Z.add_nocarry_lxor, Z.shiftl_mul_pow2 by done. done.
Qed.

(** A field that fits passes the check of [setup_custom_float]. *)
Lemma mask_clear k x : 0 <= k < 32 -> 0 <= x < 2 ^ k -> Z.land x (2 ^ 32 - 1 - u32 (2 ^ (k + 1) - 1)) = 0.
Proof.
  intros Hk Hx. assert (1 <= 2 ^ (k + 1) <= 2 ^ 32) by (change 1 with (2 ^ 0); split; apply Z.pow_le_mono_r; lia).
  rewrite wrap_small by lia. replace (2 ^ 32 - 1 - (2 ^ (k + 1) - 1)) with (Z.shiftl (2 ^ (31 - k) - 1) (k + 1)).
  2: { rewrite Z.shiftl_mul_pow2, Z.mul_sub_distr_r, <- Z.pow_add_r by lia. replace (31 - k + (k + 1)) with 32 by lia. lia. }
  apply Z.bits_inj'. intros j Hj. rewrite Z.land_spec, Z.shiftl_spec, Z.bits_0 by lia. destruct (Z.ltb_spec j k).
  - by rewrite (Z.testbit_neg_r _ (j - (k + 1))), Bool.andb_false_r by lia.
  - rewrite (Z.testbit_eqb x) by lia. rewrite Z.div_small; [done|]. assert (2 ^ k <= 2 ^ j) by (apply Z.pow_le_mono_r; lia). lia.
Qed.

Lemma copy_bits_spec n i pos field value :
  0 <= i -> 0 <= pos -> 0 <= field -> i + pos + Z.of_nat n <= 32 ->
  copy_bits n i pos field value = Z.lor value (Z.shiftl (Z.land field (Z.shiftl (Z.ones (Z.of_nat n)) i)) pos).
Proof.
  revert i value. induction n as [|n IH]; intros i value Hi Hp Hf Hn; cbn [copy_bits].
  { change (Z.ones (Z.of_nat 0)) with 0. by rewrite Z.shiftl_0_l, Z.land_0_r, Z.shiftl_0_l, Z.lor_0_r. }
  rewrite Nat2Z.inj_succ in *.
  assert (1 <= 2 ^ i /\ 2 ^ (i + pos) < 2 ^ 32) as [Hlo Hhi].
  { change 1 with (2 ^ 0). split; [apply Z.pow_le_mono_r; lia|apply Z.pow_lt_mono_r; lia]. }
  assert (2 ^ i <= 2 ^ (i + pos)) by (apply Z.pow_le_mono_r; lia).
  rewrite Z.shiftl_1_l, (wrap_small 32 (2 ^ i)), Z.shiftl_mul_pow2, <- Z.pow_add_r, (wrap_small 32 (2 ^ (i + pos))) by lia.
  rewrite IH by lia. apply Z.bits_inj'. intros k Hk.
  assert (negb (Z.land field (2 ^ i) =? 0) = Z.testbit field i) as ->.
  { destruct (Z.testbit field i) eqn:Eb.
    - destruct (Z.eqb_spec (Z.land field (2 ^ i)) 0) as [E|]; [|done]. apply (f_equal (fun z => Z.testbit z i)) in E.
      rewrite Z.land_spec, Z.pow2_bits_true, Eb, Z.bits_0 in E by lia. done.
    - destruct (Z.eqb_spec (Z.land field (2 ^ i)) 0) as [|E]; [done|]. exfalso. apply E, Z.bits_inj'. intros j Hj.
      rewrite Z.land_spec, Z.bits_0, Z.pow2_bits_eqb by lia. destruct (Z.eqb_spec i j) as [->|]; [by rewrite Eb|by rewrite Bool.andb_false_r]. }
  rewrite !Z.lor_spec, !Z.shiftl_spec by lia.
  replace (Z.testbit (if Z.testbit field i then Z.lor value (2 ^ (i + pos)) else value) k)
    with (Z.testbit value k || (Z.testbit field i && (i + pos =? k)))
    by (destruct (Z.testbit field i); [by rewrite Z.lor_spec, Z.pow2_bits_eqb by lia|by rewrite Bool.orb_false_r]).
  rewrite <- Bool.orb_assoc. f_equal. destruct (Z.ltb_spec (k - pos) 0).
  { rewrite !(Z.testbit_neg_r _ (k - pos)) by lia. destruct (Z.eqb_spec (i + pos) k); [lia|]. by rewrite Bool.andb_false_r. }
  rewrite !Z.land_spec, !Z.shiftl_spec, !Z.testbit_ones by lia.
  destruct (Z.eqb_spec (i + pos) k) as [<-|Hne].
  - replace (i + pos - pos) with i by lia. zcases; by destruct (Z.testbit field i).
  - rewrite Bool.andb_false_r. zcases; done.
Qed.

(** ** The properties *)

(** Fixed-point division. For both formats (31.32 and the bandwidth format
    with 24 fractional bits) the quotient of any two 64-bit numbers, whenever it
    fits, is the exact quotient rounded to the nearest representable value, halves
    away from zero, with the sign of the exact quotient; only a zero divisor
    faults. *)
Theorem fixed_division_correct n d :
  i64 n -> i64 d ->
  (d = 0 -> dc_fixpt_from_fraction n d = None /\ bw_frc_to_fixed n d = None) /\
  (d <> 0 -> round_div (Z.abs n * 2 ^ 32) (Z.abs d) < 2 ^ 63 ->
     dc_fixpt_from_fraction n d = Some (Z.sgn n * Z.sgn d * round_div (Z.abs n * 2 ^ 32) (Z.abs d))) /\
  (d <> 0 -> round_div (Z.abs n * 2 ^ 24) (Z.abs d) < 2 ^ 63 ->
     bw_frc_to_fixed n d = Some (Z.sgn n * Z.sgn d * round_div (Z.abs n * 2 ^ 24) (Z.abs d))).
Proof.
  intros Hn Hd. split_and!; [intros ->; done| |]; intros Hd0 Hfit; by apply fraction_correct.
Qed.

Lemma fixed_division_correct_witness :
  dc_fixpt_from_fraction (-2) 3 = Some (- (2863311531)) /\ bw_frc_to_fixed (-2) 3 = Some (- (11184811)).
Proof.
  destruct (fixed_division_correct (-2) 3) as (_ & H1 & H2); [unfold i64; lia|unfold i64; lia|].
  split; [apply H1; [done|vm_compute; reflexivity]|apply H2; [done|vm_compute; reflexivity]].
Defined.

(** Fixed-point multiplication. Whenever the product fits, the result of
    either format differs from the exact product by at most one unit in the last
    place, and a product with an integer is exact. *)
Theorem fixed_multiplication_correct a b :
  i64 a -> i64 b ->
  (Z.abs a * Z.abs b / 2 ^ 32 < 2 ^ 63 - 1 -> Z.abs (dc_fixpt_mul a b * 2 ^ 32 - a * b) <= 2 ^ 32) /\
  (Z.abs a * Z.abs b / 2 ^ 24 < 2 ^ 63 - 1 -> Z.abs (bw_mul a b * 2 ^ 24 - a * b) <= 2 ^ 24) /\
  (- 2 ^ 31 <= b < 2 ^ 31 -> Z.abs (a * b) < 2 ^ 63 - 1 -> dc_fixpt_mul_int a b = a * b).
Proof.
  intros Ha Hb. split_and!.
  - intros Hfit. unfold dc_fixpt_mul. rewrite fixed_mul_correct by done. by apply mul_error.
  - intros Hfit. unfold bw_mul. rewrite fixed_mul_correct by done. by apply mul_error.
  - intros Hr Hfit. by apply mul_int_exact.
Qed.

Lemma fixed_multiplication_correct_witness :
  Z.abs (dc_fixpt_mul (3 * 2 ^ 31) (- (5 * 2 ^ 30)) * 2 ^ 32 - (3 * 2 ^ 31) * (- (5 * 2 ^ 30))) <= 2 ^ 32.
Proof.
  apply (fixed_multiplication_correct (3 * 2 ^ 31) (- (5 * 2 ^ 30))); [unfold i64; lia|unfold i64; lia|vm_compute; reflexivity].
Defined.

(** Register encoding of fixed-point numbers. Decoding a register value of
    [integer_bits] + [fractional_bits] bits and encoding the result again gives the
    value back, and encoding keeps exactly those bits of any non-negative number. *)
Theorem ux_dy_roundtrip value integer_bits fractional_bits :
  0 <= integer_bits <= 31 -> 0 < fractional_bits -> integer_bits + fractional_bits <= 32 ->
  (0 <= value < 2 ^ (integer_bits + fractional_bits) ->
   ux_dy (dc_fixpt_from_ux_dy value integer_bits fractional_bits) integer_bits fractional_bits = value) /\
  (0 <= value < 2 ^ 63 ->
   ux_dy value integer_bits fractional_bits =
     (value / 2 ^ (32 - fractional_bits)) mod 2 ^ (integer_bits + fractional_bits)).
Proof.
  intros Hi Hf Hs. split; [|intros; by apply ux_dy_val]. intros Hv.
  destruct (from_ux_dy_val value integer_bits fractional_bits Hi Hf Hs Hv) as [-> Hr].
  rewrite ux_dy_val by done. rewrite Z.div_mul by (apply Z.pow_nonzero; lia). by apply Z.mod_small.
Qed.

Lemma ux_dy_roundtrip_witness : ux_dy (dc_fixpt_from_ux_dy 786432 2 19) 2 19 = 786432.
Proof. apply (ux_dy_roundtrip 786432 2 19); [lia|lia|lia|split; [lia|reflexivity]]. Defined.

(** The matrix element of a non-negative register value. *)
Lemma int_frac_decode r : 0 <= r < 2 ^ 15 -> int_frac_to_fixed_point r 2 13 = r * 2 ^ 19.
Proof.
  intros Hr. unfold int_frac_to_fixed_point. change (u16 (Z.shiftl 1 (13 + 2))) with (2 ^ 15).
  change (u16 (2 ^ 15 - 1)) with (Z.ones 15). rewrite Z.land_ones, Z.mod_small, Z.shiftl_mul_pow2 by lia.
  change (32 - 13) with 19. rewrite swrap_small by lia.
  assert (Z.land r (2 ^ 15) = 0) as ->; [|done]. apply Z.bits_inj'. intros k Hk.
  rewrite Z.land_spec, Z.bits_0, Z.pow2_bits_eqb by lia. destruct (Z.eqb_spec 15 k) as [<-|]; [|by rewrite Bool.andb_false_r].
  rewrite Z.testbit_eqb, Z.div_small by lia. done.
Qed.

Lemma int_frac_encode r : 0 <= r <= 3 * 2 ^ 13 -> fixed_point_to_int_frac (r * 2 ^ 19) 2 13 = Some r.
Proof.
  intros Hr. unfold fixed_point_to_int_frac. change (s32 (Z.shiftl 1 13)) with 8192.
  unfold dc_fixpt_abs. destruct (Z.ltb_spec (r * 2 ^ 19) 0); [lia|].
  unfold dc_fixpt_lt, dc_fixpt_zero. destruct (Z.ltb_spec (r * 2 ^ 19) 0); [lia|].
  assert (dc_fixpt_floor (r * 2 ^ 19) = r / 2 ^ 13) as ->.
  { unfold dc_fixpt_floor. change FIXED31_32_BITS_PER_FRACTIONAL_PART with 32.
    assert (u64 (if 0 <? r * 2 ^ 19 then r * 2 ^ 19 else s64 (- (r * 2 ^ 19))) = r * 2 ^ 19) as ->.
    { zcases; [apply wrap_small; lia|]. assert (r = 0) as -> by lia. reflexivity. }
    rewrite Z.shiftr_div_pow2 by lia. replace (r * 2 ^ 19 / 2 ^ 32) with (r / 2 ^ 13)
      by (change (2 ^ 32) with (2 ^ 13 * 2 ^ 19); rewrite Z.div_mul_cancel_r; lia).
    pose proof (Z.div_pos r (2 ^ 13)). pose proof (Z.div_le_upper_bound r (2 ^ 13) 3). rewrite swrap_small by lia. by zcases. }
  pose proof (Z.div_pos r (2 ^ 13)). pose proof (Z.div_le_upper_bound r (2 ^ 13) 3). rewrite (wrap_small 16 (r / 2 ^ 13)) by lia.
  change (u16 8192) with 8192. change (8192 =? 0) with false. cbv iota.
  change (u16 (Z.shiftl 1 2) - 1 / 8192) with 4. destruct (Z.leb_spec (r / 2 ^ 13) 4); [|lia].
  rewrite mul_int_exact by (unfold i64; lia).
  assert (dc_fixpt_round (r * 2 ^ 19 * 8192) = r) as ->.
  { unfold dc_fixpt_round. change FIXED31_32_BITS_PER_FRACTIONAL_PART with 32. replace (r * 2 ^ 19 * 8192) with (r * 2 ^ 32) by lia.
    assert (u64 (if 0 <? r * 2 ^ 32 then r * 2 ^ 32 else s64 (- (r * 2 ^ 32))) = r * 2 ^ 32) as ->.
    { zcases; [apply wrap_small; lia|]. assert (r = 0) as -> by lia. reflexivity. }
    rewrite wrap_small by (unfold dc_fixpt_half; lia). rewrite Z.shiftr_div_pow2, Z.add_comm, Z.div_add by lia.
    change (dc_fixpt_half / 2 ^ 32) with 0. rewrite swrap_small by lia. by zcases. }
  cbn [mbind option_bind]. rewrite !(wrap_small 16 r), Bool.andb_false_r by lia. destruct (Z.leb_spec 0 r); [done|lia].
Qed.

(** Colour matrices. Reading a matrix of non-negative S2D13 registers (up to
    3.0, the largest value the encoder accepts) and writing it back gives the same
    registers. *)
Theorem convert_matrix_roundtrip reg :
  Forall (fun r => 0 <= r <= 3 * 2 ^ 13) reg -> convert_float_matrix (convert_hw_matrix reg) = Some reg.
Proof.
  intros Hf. unfold convert_float_matrix.
  change (dc_fixpt_from_fraction (-3 * DIVIDER) DIVIDER) with (Some (- 3 * 2 ^ 32)).
  change (dc_fixpt_from_fraction (3 * DIVIDER) DIVIDER) with (Some (3 * 2 ^ 32)). cbn [mbind option_bind].
  induction Hf as [|r reg Hr _ IH]; [done|]. cbn [convert_hw_matrix map mapM].
  rewrite int_frac_decode by lia.
  assert (dc_fixpt_clamp (r * 2 ^ 19) (-3 * 2 ^ 32) (3 * 2 ^ 32) = r * 2 ^ 19) as ->.
  { unfold dc_fixpt_clamp, dc_fixpt_le. zcases; done. }
  rewrite int_frac_encode by done. cbn [mbind option_bind]. rewrite wrap_small by lia.
  fold (convert_hw_matrix reg). rewrite IH. done.
Qed.

Lemma convert_matrix_roundtrip_witness : convert_float_matrix (convert_hw_matrix [8192; 0; 24576; 1]) = Some [8192; 0; 24576; 1].
Proof. apply (convert_matrix_roundtrip [8192; 0; 24576; 1]). repeat constructor; lia. Defined.

Lemma bw_abs_i64_abs x : i64 x -> bw_abs_i64 x = Z.abs x.
Proof.
  intros Hx. rewrite <- magnitude_abs by done. unfold bw_abs_i64, magnitude. zcases; done.
Qed.

(** Rounding to a multiple. For any significance, [bw_floor2] gives the
    multiple of it nearest to the argument towards zero and [bw_ceil2] the nearest
    one away from zero; both leave multiples alone. *)
Theorem bw_floor2_ceil2_correct arg significance :
  i64 arg -> i64 significance -> significance <> 0 -> Z.abs arg + Z.abs significance < 2 ^ 63 ->
  let s := Z.abs significance in
  exists lo hi, bw_floor2 arg significance = Some lo /\ bw_ceil2 arg significance = Some hi /\
    (s | lo) /\ (s | hi) /\ Z.abs lo <= Z.abs arg < Z.abs lo + s /\ Z.abs arg <= Z.abs hi < Z.abs arg + s /\
    0 <= lo * arg /\ 0 <= hi * arg.
Proof.
  intros Ha Hs Hs0 Hfit s. unfold bw_floor2, bw_ceil2, bw_multiplicand. rewrite !(bw_abs_i64_abs significance) by done. fold s.
  unfold i64 in *. assert (0 < s < 2 ^ 63) as Hsr by (unfold s; lia). rewrite (swrap_small 64 s) by lia.
  destruct (Z.eqb_spec s 0); [lia|]. cbn [mbind option_bind].
  rewrite !swrap_wrap. set (a := Z.abs arg) in *. set (M := s * (a / s)).
  pose proof (Z.div_mod a s ltac:(lia)) as Ea. pose proof (Z.mod_pos_bound a s ltac:(lia)) as Hm.
  pose proof (Z.div_pos a s ltac:(unfold a; lia) ltac:(lia)) as Hq.
  assert (a / s <= M) as HqM by (unfold M; nia). assert (M <= a < M + s) as HM by (unfold M; lia).
  assert (s | M) as Hdiv by (unfold M; apply Z.divide_factor_l).
  destruct (Z.ltb_spec arg 0) as [Hneg|Hpos].
  - assert (Z.quot arg s = - (a / s)) as ->.
    { replace arg with (- a) by (unfold a; lia). rewrite Z.quot_opp_l, Z.quot_div_nonneg by (unfold a; lia). done. }
    assert (arg = - a) as Earg by (unfold a; lia). clearbody a. subst arg.
    rewrite (swrap_small 64 (- (a / s))) by lia. rewrite Z.mul_opp_r. fold M. rewrite (swrap_small 64 (- M)) by lia.
    rewrite !bw_abs_i64_abs, !Z.abs_opp, !Z.abs_eq by (unfold i64; lia). clearbody M.
    exists (- M). eexists. split; [done|]. split; [done|]. destruct (Z.ltb_spec M a).
    + rewrite swrap_small by lia. split_and!; try lia; try nia; [by apply Z.divide_opp_r|].
      apply Z.divide_sub_r; [by apply Z.divide_opp_r|apply Z.divide_refl].
    + split_and!; try lia; try nia; by apply Z.divide_opp_r.
  - assert (Z.quot arg s = a / s) as -> by (unfold a; rewrite Z.abs_eq by lia; apply Z.quot_div_nonneg; lia).
    assert (arg = a) as Earg by (unfold a; lia). clearbody a. subst arg.
    rewrite (swrap_small 64 (a / s)) by lia. fold M. rewrite (swrap_small 64 M) by lia.
    rewrite !bw_abs_i64_abs, !Z.abs_eq by (unfold i64; lia). clearbody M.
    exists M. eexists. split; [done|]. split; [done|]. destruct (Z.ltb_spec M a).
    + rewrite swrap_small by lia. split_and!; try lia; try nia; [done|]. apply Z.divide_add_r; [done|apply Z.divide_refl].
    + split_and!; try lia; try nia; done.
Qed.

Lemma bw_floor2_ceil2_correct_witness :
  exists lo hi, bw_floor2 (- (5 * 2 ^ 24)) (2 * 2 ^ 24) = Some lo /\ bw_ceil2 (- (5 * 2 ^ 24)) (2 * 2 ^ 24) = Some hi /\
    Z.abs lo <= 5 * 2 ^ 24 /\ 5 * 2 ^ 24 <= Z.abs hi.
Proof.
  destruct (bw_floor2_ceil2_correct (- (5 * 2 ^ 24)) (2 * 2 ^ 24)) as (lo & hi & E1 & E2 & _ & _ & H1 & H2 & _);
    [unfold i64; lia|unfold i64; lia|lia|vm_compute; reflexivity|].
  exists lo, hi. split; [exact E1|]. split; [exact E2|]. split; [apply H1|apply H2].
Defined.

(** Reducing a fraction. For any 32-bit numerator and denominator that are not
    both zero Euclid's loop ends within the rounds its argument allows, and the
    result is the same ratio in lowest terms; two zeros divide by zero. *)
Theorem reduce_fraction_correct num den :
  0 <= num < 2 ^ 32 -> 0 <= den < 2 ^ 32 ->
  (num = 0 /\ den = 0 -> reduce_fraction num den = None) /\
  (num <> 0 \/ den <> 0 ->
   exists n d, reduce_fraction num den = Some (n, d) /\ num = Z.gcd num den * n /\ den = Z.gcd num den * d /\
     num * d = den * n /\ Z.gcd n d = 1).
Proof.
  intros Hn Hd. unfold reduce_fraction, find_gcd. rewrite gcd_loop_correct by lia. cbn [mbind option_bind].
  split; [intros [-> ->]; done|]. intros Hnz. pose proof (Z.gcd_nonneg num den). set (g := Z.gcd num den) in *.
  assert (g <> 0) as Hg by (unfold g; rewrite Z.gcd_eq_0; lia). destruct (Z.eqb_spec g 0) as [|_]; [done|].
  destruct (Z.gcd_divide_l num den) as [n En], (Z.gcd_divide_r num den) as [d Ed]. fold g in En, Ed.
  exists n, d. rewrite En, Ed at 1. rewrite !Z.div_mul by done. split_and!; [done|lia|lia|rewrite En, Ed at 1; ring|].
  assert (g * Z.gcd n d = g * 1) as E; [|by apply Z.mul_cancel_l in E].
  rewrite <- Z.gcd_mul_mono_l_nonneg by lia. rewrite (Z.mul_comm g n), (Z.mul_comm g d), <- En, <- Ed. fold g. lia.
Qed.

Lemma reduce_fraction_correct_witness : exists n d, reduce_fraction 12 18 = Some (n, d) /\ Z.gcd n d = 1.
Proof.
  destruct (reduce_fraction_correct 12 18) as [_ H]; [lia|lia|].
  destruct H as (n & d & E & _ & _ & _ & G); [lia|]. exists n, d. split; [exact E|exact G].
Defined.

(** The rounding of a product. [dc_fixpt_mul] compares the whole product of the
    fractional parts with one half, not the part that is cut off, so it rounds up
    products that are exact: one half times one half is a quarter plus one unit. *)
Theorem dc_fixpt_mul_rounding_bug :
  dc_fixpt_half * dc_fixpt_half = dc_fixpt_one / 4 * 2 ^ 32 /\
  dc_fixpt_mul dc_fixpt_half dc_fixpt_half = dc_fixpt_one / 4 + 1 /\
  dc_fixpt_sqr dc_fixpt_half = dc_fixpt_one / 4 + 1.
Proof. split_and!; reflexivity. Qed.

(** The exponential of a small number. Beyond 2^-31 the divisor [1LL << -m]
    is cut to an int: [dc_fixpt_exp] of -21.5 is negative and that of -22 divides by
    zero, although the true results round to a small positive number and to zero. *)
Theorem dc_fixpt_exp_small_bug :
  (exists v, dc_fixpt_exp (- (43 * 2 ^ 31)) = Some v /\ v < 0) /\ dc_fixpt_exp (dc_fixpt_from_int (- 22)) = None.
Proof. split; [eexists; split; [vm_compute; reflexivity|reflexivity]|vm_compute; reflexivity]. Qed.

(** Signs of colour matrices. Negative elements are written in two's
    complement and read back as sign and magnitude: a matrix holding -1.0 is read
    back as -3.0. *)
Theorem convert_matrix_sign_bug :
  exists reg, convert_float_matrix [dc_fixpt_from_int (- 1)] = Some reg /\
    convert_hw_matrix reg = [dc_fixpt_from_int (- 3)].
Proof. eexists. split; [vm_compute; reflexivity|vm_compute; reflexivity]. Qed.

(** The custom float fields. For a mantissa and an exponent that fit their
    fields, the assembled word is the mantissa, the exponent above it and the sign
    bit on top (when the format has one), so each field can be read back. *)
Theorem setup_custom_float_layout format negative mantissa exponenta :
  0 <= mantissa_bits format -> 0 <= exponenta_bits format -> mantissa_bits format + exponenta_bits format < 32 ->
  0 <= mantissa < 2 ^ mantissa_bits format -> 0 <= exponenta < 2 ^ exponenta_bits format ->
  setup_custom_float format negative mantissa exponenta =
    mantissa + exponenta * 2 ^ mantissa_bits format +
    (if negative && format_sign format then 2 ^ (mantissa_bits format + exponenta_bits format) else 0).
Proof.
  intros Hm He Hs Hmr Her. unfold setup_custom_float. set (mb := mantissa_bits format) in *. set (eb := exponenta_bits format) in *.
  rewrite !Z.shiftl_1_l, !mask_clear by lia. cbn [Z.eqb negb]. rewrite !copy_bits_spec, !Z2Nat.id by lia.
  rewrite !Z.shiftl_0_r, !Z.lor_0_l, !Z.land_ones, !Z.mod_small, lor_shiftl by lia. clearbody mb eb.
  destruct (negative && format_sign format); [|lia].
  assert (2 ^ (mb + eb) < 2 ^ 32) by (apply Z.pow_lt_mono_r; lia). pose proof (Z.pow_pos_nonneg 2 (mb + eb) ltac:(lia) ltac:(lia)).
  rewrite wrap_small by lia. rewrite <- (Z.shiftl_1_l (mb + eb)) at 1.
  rewrite lor_shiftl; [lia|lia| |lia]. rewrite Z.pow_add_r by lia. nia.
Qed.
