(* ===== verification/Vector.v ===== *)
(** * The growable vector of the display core

    A translation of src/src-tree/amd/display/dc/basics/vector.c. The container is
    the allocated memory, byte by byte; an element is [struct_size] bytes of it.
    Offsets are computed in 32 bits as in the code. A [memmove] that leaves the
    allocation has no result ([None]). [kcalloc]/[kzalloc]/[krealloc] succeed or
    fail by a boolean argument; memory gained by [krealloc] holds the bytes
    [fresh]. *)

From S2P Require Import Prelude.
From stdpp Require Import list option.
From Stdlib Require Import ZArith Lia.

Local Open Scope Z_scope.

Record vector := mkVector {
  container : option (list Z);
  struct_size : Z;
  count : Z;
  capacity : Z
}.

Definition set_count (n : Z) (v : vector) : vector := mkVector (container v) (struct_size v) n (capacity v).
Definition set_container (c : option (list Z)) (v : vector) : vector := mkVector c (struct_size v) (count v) (capacity v).

Definition zeros (n : Z) : list Z := replicate (Z.to_nat n) 0.

(** Overwrites memory at [dst]. *)
Definition mem_write (mem : list Z) (dst : Z) (bytes : list Z) : option (list Z) :=
  if dst + Z.of_nat (length bytes) <=? Z.of_nat (length mem)
  then Some (take (Z.to_nat dst) mem ++ bytes ++ drop (Z.to_nat dst + length bytes) mem)
  else None.

Definition mem_read (mem : list Z) (src n : Z) : option (list Z) :=
  if src + n <=? Z.of_nat (length mem) then Some (take (Z.to_nat n) (drop (Z.to_nat src) mem)) else None.

Definition memmove (mem : list Z) (dst src n : Z) : option (list Z) :=
  bytes ← mem_read mem src n; mem_write mem dst bytes.

Definition dal_vector_construct (alloc_ok : bool) (capacity struct_size : Z) : option vector :=
  if (struct_size =? 0) || (capacity =? 0) then None
  else if negb alloc_ok then None
  else Some (mkVector (Some (zeros (capacity * struct_size))) struct_size 0 capacity).

(** The copies of the initial value. *)
Fixpoint presize_fill (n : nat) (i struct_size : Z) (initial_value : list Z) (mem : list Z) : option (list Z) :=
  match n with
  | O => Some mem
  | S n =>
      mem ← mem_write mem (u32 (i * struct_size)) initial_value;
      presize_fill n (u32 (i + 1)) struct_size initial_value mem
  end.

Definition dal_vector_presized_costruct (alloc_ok : bool) (count : Z) (initial_value : option (list Z)) (struct_size : Z)
    : option vector :=
  if (struct_size =? 0) || (count =? 0) then None
  else if negb alloc_ok then None
  else
    let mem := zeros (count * struct_size) in
    mem ← (match initial_value with
           | Some iv => presize_fill (Z.to_nat count) 0 struct_size iv mem
           | None => Some mem
           end);
    Some (mkVector (Some mem) struct_size count count).

Definition dal_vector_presized_create (alloc_ok : bool * bool) (size : Z) (initial_value : option (list Z)) (struct_size : Z)
    : option vector :=
  if negb (fst alloc_ok) then None else dal_vector_presized_costruct (snd alloc_ok) size initial_value struct_size.

Definition dal_vector_create (alloc_ok : bool * bool) (capacity struct_size : Z) : option vector :=
  if negb (fst alloc_ok) then None else dal_vector_construct (snd alloc_ok) capacity struct_size.

Definition dal_vector_destruct (v : vector) : vector := mkVector (container v) (struct_size v) 0 0.

(** [*vector] afterwards. *)
Definition dal_vector_destroy (v : option vector) : option vector := None.

Definition dal_vector_get_count (v : vector) : Z := count v.

(** The offset of the element in the container. *)
Definition dal_vector_at_index (v : vector) (index : Z) : option Z :=
  match container v with
  | None => None
  | Some _ => if count v <=? index then None else Some (u32 (index * struct_size v))
  end.

(** The outer option is a memory fault. *)
Definition dal_vector_remove_at_index (v : vector) (index : Z) : option (bool * vector) :=
  if count v <=? index then Some (false, v)
  else
    mem ← container v;
    mem ← (if negb (index =? u32 (count v - 1))
           then memmove mem (u32 (index * struct_size v)) (u32 (u32 (index + 1) * struct_size v))
                  (u32 (u32 (count v - index - 1) * struct_size v))
           else Some mem);
    Some (true, set_count (u32 (count v - 1)) (set_container (Some mem) v)).

Definition dal_vector_set_at_index (v : vector) (what : list Z) (index : Z) : option vector :=
  match dal_vector_at_index v index with
  | None => Some v
  | Some where_ => mem ← container v; mem ← mem_write mem where_ what; Some (set_container (Some mem) v)
  end.

Definition calc_increased_capacity (old_capacity : Z) : Z := u32 (old_capacity * 2).

Definition dal_vector_reserve (alloc_ok : bool) (fresh : list Z) (v : vector) (new_capacity : Z) : bool * vector :=
  if new_capacity <=? capacity v then (true, v)
  else if negb alloc_ok then (false, v)
  else
    let bytes := Z.to_nat (u32 (new_capacity * struct_size v)) in
    (true, mkVector (Some (take bytes (default [] (container v) ++ fresh))) (struct_size v) (count v) new_capacity).

(** The insertion, once there is room. *)
Definition insert_into (v : vector) (what : list Z) (position : Z) : option (bool * vector) :=
  mem ← container v;
  let insert_address := u32 (struct_size v * position) in
  mem ← (if negb (count v =? 0) && (position <? count v)
         then memmove mem (insert_address + struct_size v) insert_address
                (u32 (struct_size v * u32 (count v - position)))
         else Some mem);
  mem ← mem_write mem insert_address what;
  Some (true, set_count (u32 (count v + 1)) (set_container (Some mem) v)).

Definition dal_vector_insert_at (alloc_ok : bool) (fresh : list Z) (v : vector) (what : list Z) (position : Z)
    : option (bool * vector) :=
  let '(ok, v) := if count v =? capacity v
                  then dal_vector_reserve alloc_ok fresh v (calc_increased_capacity (capacity v))
                  else (true, v) in
  if negb ok then Some (false, v) else insert_into v what position.

Definition dal_vector_append (alloc_ok : bool) (fresh : list Z) (v : vector) (item : list Z) : option (bool * vector) :=
  dal_vector_insert_at alloc_ok fresh v item (count v).

(** The outer option is a memory fault, the inner one a failed allocation. *)
Definition dal_vector_clone (alloc_ok : bool * bool) (v : vector) : option (option vector) :=
  let n := dal_vector_get_count v in
  match (if n =? 0 then dal_vector_create alloc_ok (capacity v) (struct_size v)
         else dal_vector_presized_create alloc_ok n None (struct_size v)) with
  | None => Some None
  | Some c =>
      src ← container v;
      dst ← container c;
      bytes ← mem_read src 0 (u32 (struct_size c * capacity c));
      mem ← mem_write dst 0 bytes;
      Some (Some (set_container (Some mem) c))
  end.

Definition dal_vector_capacity (v : vector) : Z := capacity v.
Definition dal_vector_clear (v : vector) : vector := set_count 0 v.

(** ** Correctness *)

(** The bytes of the elements. *)
Definition contents (v : vector) : list Z := take (Z.to_nat (count v * struct_size v)) (default [] (container v)).

Record vector_ok (v : vector) : Prop := {
  vo_size : 0 < struct_size v;
  vo_count : 0 <= count v <= capacity v;
  vo_bytes : capacity v * struct_size v < 2 ^ 32;
  vo_mem : exists mem, container v = Some mem /\ Z.of_nat (length mem) = capacity v * struct_size v
}.

Lemma mem_write_at mem dst bytes :
  (dst + length bytes <= length mem)%nat ->
  mem_write mem (Z.of_nat dst) bytes = Some (take dst mem ++ bytes ++ drop (dst + length bytes) mem).
Proof. intros H. unfold mem_write. destruct (Z.leb_spec (Z.of_nat dst + Z.of_nat (length bytes)) (Z.of_nat (length mem))); [|lia]. by rewrite Nat2Z.id. Qed.

Lemma mem_read_at mem src n :
  (src + n <= length mem)%nat -> mem_read mem (Z.of_nat src) (Z.of_nat n) = Some (take n (drop src mem)).
Proof. intros H. unfold mem_read. destruct (Z.leb_spec (Z.of_nat src + Z.of_nat n) (Z.of_nat (length mem))); [|lia]. by rewrite !Nat2Z.id. Qed.

(** Opening a gap of [k] bytes at [p] and filling it is inserting at [p]. *)
Lemma open_gap mem p c k what :
  (p <= c)%nat -> (c + k <= length mem)%nat -> length what = k ->
  exists mem', (m ← memmove mem (Z.of_nat (p + k)) (Z.of_nat p) (Z.of_nat (c - p)); mem_write m (Z.of_nat p) what) = Some mem' /\
    take (c + k) mem' = take p mem ++ what ++ take (c - p) (drop p mem) /\ length mem' = length mem.
Proof.
  intros Hp Hc Hk. unfold memmove. rewrite mem_read_at by lia. cbn [mbind option_bind].
  assert (length (take (c - p) (drop p mem)) = (c - p)%nat) as Hl by (rewrite length_take, length_drop; lia).
  rewrite mem_write_at by lia. cbn [mbind option_bind]. rewrite Hl.
  set (m1 := take (p + k) mem ++ take (c - p) (drop p mem) ++ drop (p + k + (c - p)) mem).
  assert (length m1 = length mem) as Hm1 by (unfold m1; rewrite !length_app, Hl, length_take, length_drop; lia).
  rewrite mem_write_at by lia. eexists. split; [done|]. rewrite Hk. split.
  - assert (take p m1 = take p mem) as ->.
    { unfold m1. rewrite take_app_le by (rewrite length_take; lia). rewrite take_take. f_equal. lia. }
    rewrite take_app_ge, length_take by (rewrite length_take; lia). f_equal.
    rewrite take_app_ge by lia. rewrite Hk. f_equal.
    assert (drop (p + k) m1 = take (c - p) (drop p mem) ++ drop (p + k + (c - p)) mem) as ->
      by (unfold m1; rewrite drop_app_ge, length_take, Nat.min_l, Nat.sub_diag by (rewrite ?length_take; lia); done).
    rewrite take_app_le by lia. apply take_ge. lia.
  - rewrite !length_app, length_take, length_drop. lia.
Qed.

Lemma insert_into_ok v what position :
  vector_ok v -> count v < capacity v -> Z.of_nat (length what) = struct_size v -> 0 <= position <= count v ->
  let b := Z.to_nat (position * struct_size v) in
  exists v', insert_into v what position = Some (true, v') /\ vector_ok v' /\
    count v' = count v + 1 /\ contents v' = take b (contents v) ++ what ++ drop b (contents v).
Proof.
  intros [Hss Hc Hb (mem & Hmem & Hlen)] Hlt Hw Hp b. unfold insert_into. rewrite Hmem. cbn [mbind option_bind].
  set (k := length what). set (c := Z.to_nat (count v * struct_size v)).
  assert (capacity v <= capacity v * struct_size v) by nia. assert (0 <= position * struct_size v <= count v * struct_size v) as Hpos by nia.
  assert (count v * struct_size v + struct_size v <= capacity v * struct_size v) as Hroom by nia.
  assert (Z.of_nat b = position * struct_size v /\ Z.of_nat c = count v * struct_size v) as [Eb Ec] by (unfold b, c; lia).
  rewrite (Z.mul_comm _ position), (wrap_small 32 (position * struct_size v)) by lia. rewrite (wrap_small 32 (count v + 1)) by lia.
  assert (exists mem', (m ← (if negb (count v =? 0) && (position <? count v)
           then memmove mem (position * struct_size v + struct_size v) (position * struct_size v)
                  (u32 (struct_size v * u32 (count v - position))) else Some mem);
         mem_write m (position * struct_size v) what) = Some mem' /\
         take (c + k) mem' = take b mem ++ what ++ take (c - b) (drop b mem) /\ length mem' = length mem)
    as (mem' & E & Ht & Hl).
  { destruct (Z.ltb_spec position (count v)) as [Hlt'|Hge].
    - destruct (Z.eqb_spec (count v) 0); [lia|]. cbn [negb andb]. rewrite (wrap_small 32 (count v - position)) by lia.
      rewrite (wrap_small 32) by nia. replace (struct_size v * (count v - position)) with (Z.of_nat (c - b)) by nia.
      replace (position * struct_size v + struct_size v) with (Z.of_nat (b + k)) by (unfold k; lia). rewrite <- Eb.
      apply open_gap; lia.
    - rewrite Bool.andb_false_r. cbn [mbind option_bind]. assert (b = c) as <- by (unfold b, c; f_equal; nia).
      rewrite <- Eb, mem_write_at by lia. eexists. split; [done|]. rewrite Nat.sub_diag, take_0, app_nil_r. fold k. split.
      + rewrite app_assoc, take_app_le by (rewrite length_app, length_take; lia). apply take_ge. rewrite length_app, length_take. lia.
      + rewrite !length_app, length_take, length_drop. lia. }
  destruct (if negb (count v =? 0) && (position <? count v) then _ else _) as [m|]; [|done]. cbn [mbind option_bind] in *.
  rewrite E. cbn [mbind option_bind]. eexists. split; [done|]. split_and!; [|done|].
  - constructor; cbn [set_count set_container struct_size count capacity container]; [done|lia|done|].
    exists mem'. split; [done|]. lia.
  - unfold contents. cbn [set_count set_container struct_size count capacity container from_option id].
    replace (Z.to_nat ((count v + 1) * struct_size v)) with (c + k)%nat by (unfold k; lia). rewrite Ht, Hmem. cbn [from_option id]. fold c.
    rewrite take_take, Nat.min_l by lia. by rewrite skipn_firstn_comm.
Qed.

Lemma reserve_ok fresh v :
  vector_ok v -> 2 * capacity v * struct_size v < 2 ^ 32 -> 0 < capacity v -> capacity v * struct_size v <= Z.of_nat (length fresh) ->
  exists v', dal_vector_reserve true fresh v (calc_increased_capacity (capacity v)) = (true, v') /\ vector_ok v' /\
    count v' = count v /\ struct_size v' = struct_size v /\ capacity v' = 2 * capacity v /\ contents v' = contents v.
Proof.
  intros [Hss Hc Hb (mem & Hmem & Hlen)] H2 Hcap Hf. unfold dal_vector_reserve, calc_increased_capacity.
  assert (2 * capacity v <= 2 * capacity v * struct_size v) by nia. assert (count v * struct_size v <= capacity v * struct_size v) by nia.
  rewrite (wrap_small 32 (capacity v * 2)) by lia. rewrite (wrap_small 32) by lia.
  destruct (Z.leb_spec (capacity v * 2) (capacity v)); [lia|]. cbn [negb]. rewrite Hmem. cbn [from_option id].
  eexists. split; [done|]. split_and!; cbn [count struct_size capacity]; try done; [|lia|].
  - constructor; cbn [count struct_size capacity container]; [done|lia|lia|]. eexists. split; [done|].
    rewrite length_take, length_app. lia.
  - unfold contents. cbn [count struct_size container from_option id]. rewrite Hmem. cbn [from_option id].
    rewrite take_take, Nat.min_l by nia. apply take_app_le. lia.
Qed.

(** Inserting into a vector inserts the element's bytes, after growing the
    container when it is full; it fails only when memory does. *)
Theorem dal_vector_insert_at_correct alloc_ok fresh v what position :
  vector_ok v -> 2 * capacity v * struct_size v < 2 ^ 32 -> 0 < capacity v ->
  Z.of_nat (length what) = struct_size v -> 0 <= position <= count v ->
  capacity v * struct_size v <= Z.of_nat (length fresh) ->
  let b := Z.to_nat (position * struct_size v) in
  if (count v =? capacity v) && negb alloc_ok then dal_vector_insert_at alloc_ok fresh v what position = Some (false, v)
  else exists v', dal_vector_insert_at alloc_ok fresh v what position = Some (true, v') /\ vector_ok v' /\
    count v' = count v + 1 /\ contents v' = take b (contents v) ++ what ++ drop b (contents v).
Proof.
  intros Hok H2 Hcap Hw Hp Hf b. pose proof Hok as [Hss Hc Hb _]. unfold dal_vector_insert_at.
  destruct (Z.eqb_spec (count v) (capacity v)) as [Hfull|Hroom]; cbn [andb].
  2: { cbn [negb]. apply insert_into_ok; [done|lia|done|done]. }
  destruct alloc_ok; cbn [negb].
  - destruct (reserve_ok fresh v Hok H2 Hcap Hf) as (v1 & E & Hok1 & C1 & S1 & P1 & K1). rewrite E. cbn [negb].
    destruct (insert_into_ok v1 what position Hok1) as (v2 & E2 & Hok2 & C2 & K2); [lia|lia|lia|].
    exists v2. split_and!; [done|done|lia|]. by rewrite K2, K1, S1.
  - unfold dal_vector_reserve, calc_increased_capacity. assert (2 * capacity v <= 2 * capacity v * struct_size v) by nia.
    rewrite wrap_small by lia. destruct (Z.leb_spec (capacity v * 2) (capacity v)); [lia|done].
Qed.

(** At 2^31 elements the doubled capacity wraps to zero, the container is not
    grown and the insertion writes past its end. *)
Theorem dal_vector_grow_wraps : calc_increased_capacity (2 ^ 31) = 0.
Proof. reflexivity. Qed.
