(* ===== verification/Vmid.v ===== *)
(** * VMID assignment of the display module

    A translation of src/src-tree/amd/display/modules/vmid/vmid.c: the table that
    assigns page-table bases to the VMIDs of the display hardware. What
    [dc_get_vmid_use_vector] reports is the argument [ord]; [kzalloc] succeeds or
    fails by a boolean. An access outside the table of MAX_VMID entries has no
    result. *)

From S2P Require Import Prelude.
From stdpp Require Import sets list option.
From Stdlib Require Import ZArith Lia.

Local Open Scope Z_scope.

Definition MAX_VMID : nat := 16.

Record core_vmid := mkVmid {
  num_vmid : Z;
  num_vmids_available : Z;
  ptb_assigned_to_vmid : list Z
}.

Definition add_ptb_to_table (c : core_vmid) (vmid : nat) (ptb : Z) : core_vmid :=
  if (vmid <? MAX_VMID)%nat
  then mkVmid (num_vmid c) (u32 (num_vmids_available c - 1)) (<[vmid := ptb]> (ptb_assigned_to_vmid c))
  else c.

Definition clear_entry_from_vmid_table (c : core_vmid) (vmid : nat) : core_vmid :=
  if (vmid <? MAX_VMID)%nat
  then mkVmid (num_vmid c) (u32 (num_vmids_available c + 1)) (<[vmid := 0]> (ptb_assigned_to_vmid c))
  else c.

(** The loop over the VMIDs [i], [i + 1], ... ([n] of them). *)
Fixpoint evict_loop (n i : nat) (ord : Z) (c : core_vmid) : core_vmid :=
  match n with
  | O => c
  | S n =>
      let c := if Z.land ord (u32 (Z.shiftl 1 (Z.of_nat i))) =? 0 then clear_entry_from_vmid_table c i else c in
      evict_loop n (S i) ord c
  end.

Definition evict_vmids (ord : Z) (c : core_vmid) : core_vmid := evict_loop (Z.to_nat (num_vmid c) - 1) 1 ord c.

(** The first of [n] entries from [i] on that holds [ptb]; -1 when there is none. *)
Fixpoint find_loop (n i : nat) (ptb : Z) (table : list Z) : option Z :=
  match n with
  | O => Some (-1)
  | S n =>
      e ← table !! i;
      if e =? ptb then Some (Z.of_nat i) else find_loop n (S i) ptb table
  end.

Definition get_existing_vmid_for_ptb (c : core_vmid) (ptb : Z) : option Z :=
  find_loop (Z.to_nat (num_vmid c)) 0 ptb (ptb_assigned_to_vmid c).
Definition get_next_available_vmid (c : core_vmid) : option Z :=
  find_loop (Z.to_nat (num_vmid c) - 1) 1 0 (ptb_assigned_to_vmid c).

(** The VMID, as the uint8_t that is returned, the table, and the VMID whose
    context is set up for [ptb], if any. *)
Definition mod_vmid_get_for_ptb (ord ptb : Z) (c : core_vmid) : option (Z * core_vmid * option Z) :=
  if ptb =? 0 then Some (0, c, None)
  else
    vmid ← get_existing_vmid_for_ptb c ptb;
    if negb (vmid =? -1) then Some (wrap 8 vmid, c, None)
    else
      let c := if num_vmids_available c =? 0 then evict_vmids ord c else c in
      vmid ← get_next_available_vmid c;
      if negb (vmid =? -1) then Some (wrap 8 vmid, add_ptb_to_table c (Z.to_nat vmid) ptb, Some vmid)
      else Some (wrap 8 vmid, c, None).

Definition mod_vmid_reset (c : core_vmid) : core_vmid :=
  mkVmid (num_vmid c) (u32 (num_vmid c - 1)) (replicate MAX_VMID 0).

Definition mod_vmid_create (dc_ok alloc_ok : bool) (num_vmid : Z) : option core_vmid :=
  if num_vmid <=? 1 then None
  else if negb dc_ok then None
  else if negb alloc_ok then None
  else Some (mkVmid num_vmid (u32 (num_vmid - 1)) (replicate MAX_VMID 0)).

(** ** Correctness *)

Definition in_use (ord : Z) (i : nat) : bool := negb (Z.land ord (u32 (Z.shiftl 1 (Z.of_nat i))) =? 0).

Definition entry (c : core_vmid) (i : nat) : Z := ptb_assigned_to_vmid c !!! i.
Definition vmids (c : core_vmid) : list nat := seq 1 (Z.to_nat (num_vmid c) - 1).
Definition is_zero (x : Z) : Z := if x =? 0 then 1 else 0.

(** The counter counts the free VMIDs and no page table has two VMIDs. *)
Record vmid_ok (c : core_vmid) : Prop := {
  vk_num : 1 < num_vmid c <= Z.of_nat MAX_VMID;
  vk_len : length (ptb_assigned_to_vmid c) = MAX_VMID;
  vk_zero : entry c 0 = 0;
  vk_avail : num_vmids_available c = sumZ (fun i => is_zero (entry c i)) (vmids c);
  vk_unique : forall i j, i ∈ vmids c -> j ∈ vmids c -> entry c i = entry c j -> entry c i <> 0 -> i = j
}.

Lemma find_loop_spec n i ptb table :
  (i + n <= length table)%nat ->
  (find_loop n i ptb table = Some (-1) /\ forall j, (i <= j < i + n)%nat -> table !!! j <> ptb) \/
  (exists j, (i <= j < i + n)%nat /\ find_loop n i ptb table = Some (Z.of_nat j) /\ table !!! j = ptb).
Proof.
  revert i. induction n as [|n IH]; intros i Hl; cbn [find_loop]; [left; split; [done|lia]|].
  destruct (lookup_lt_is_Some_2 table i ltac:(lia)) as [e He]. rewrite He. cbn [mbind option_bind].
  apply list_lookup_total_correct in He as Ht. destruct (Z.eqb_spec e ptb) as [->|Hne].
  - right. exists i. split; [lia|]. done.
  - destruct (IH (S i) ltac:(lia)) as [[E Hn]|(j & Hj & E & Ej)].
    + left. split; [done|]. intros j Hj. destruct (decide (j = i)) as [->|]; [congruence|]. apply Hn. lia.
    + right. exists j. split; [lia|done].
Qed.

Lemma entry_insert c c' i j x :
  ptb_assigned_to_vmid c' = <[i := x]> (ptb_assigned_to_vmid c) -> (i < length (ptb_assigned_to_vmid c))%nat ->
  entry c' j = if decide (j = i) then x else entry c j.
Proof.
  intros E Hi. unfold entry. rewrite E. destruct (decide (j = i)) as [->|].
  - by apply list_lookup_total_insert_eq.
  - by apply list_lookup_total_insert_ne.
Qed.

Lemma evict_loop_spec n i ord c :
  length (ptb_assigned_to_vmid c) = MAX_VMID -> (i + n <= MAX_VMID)%nat ->
  0 <= num_vmids_available c -> num_vmids_available c + Z.of_nat n < 2 ^ 32 ->
  let c' := evict_loop n i ord c in
  num_vmid c' = num_vmid c /\ length (ptb_assigned_to_vmid c') = MAX_VMID /\
  (forall j, entry c' j = if decide ((i <= j < i + n)%nat /\ in_use ord j = false) then 0 else entry c j) /\
  num_vmids_available c' = num_vmids_available c + sumZ (fun j => if in_use ord j then 0 else 1) (seq i n).
Proof.
  revert i c. induction n as [|n IH]; intros i c Hl Hi H0 Hn; cbn [evict_loop].
  { split_and!; try done; [|cbn; lia]. intros j. rewrite decide_False by lia. done. }
  cbv zeta.
  set (c1 := if Z.land ord _ =? 0 then clear_entry_from_vmid_table c i else c).
  assert (num_vmid c1 = num_vmid c /\ length (ptb_assigned_to_vmid c1) = MAX_VMID /\
    (forall j, entry c1 j = if decide (j = i /\ in_use ord j = false) then 0 else entry c j) /\
    num_vmids_available c1 = num_vmids_available c + if in_use ord i then 0 else 1) as (N1 & L1 & E1 & A1).
  { unfold c1, in_use, clear_entry_from_vmid_table. destruct (Nat.ltb_spec i MAX_VMID); [|lia].
    destruct (Z.land ord _ =? 0) eqn:Eb; cbn [negb num_vmid ptb_assigned_to_vmid num_vmids_available].
    - split_and!; [done|by rewrite length_insert| |rewrite wrap_small; lia].
      intros j. erewrite entry_insert; [|reflexivity|lia]. destruct (decide (j = i)) as [->|Hj].
      + by rewrite decide_True by (by rewrite Eb).
      + by rewrite decide_False by tauto.
    - split_and!; try done; [|lia]. intros j. destruct (decide _) as [[-> Hf]|]; [by rewrite Eb in Hf|done]. }
  clearbody c1. destruct (IH (S i) c1) as (N2 & L2 & E2 & A2); [done|lia|destruct (in_use ord i); lia|destruct (in_use ord i); lia|].
  split_and!; [congruence|done| |cbn [seq]; rewrite sumZ_cons; lia].
  intros j. rewrite E2, E1. destruct (in_use ord j) eqn:Eu; [by rewrite !decide_False by naive_solver|].
  repeat case_decide; try done; exfalso; destruct_and?; naive_solver lia.
Qed.

Lemma elem_vmids c i : i ∈ vmids c <-> (1 <= i < Z.to_nat (num_vmid c))%nat.
Proof. unfold vmids. rewrite elem_of_seq. lia. Qed.

(** Setting one entry of the range changes the count of free ones by that entry. *)
Lemma sum_update (f g : nat -> Z) l i :
  NoDup l -> i ∈ l -> (forall j, j ∈ l -> j <> i -> g j = f j) -> sumZ g l = sumZ f l - f i + g i.
Proof.
  intros Hnd. induction Hnd as [|x l Hx Hnd IH]; intros Hi Hfg; [by apply not_elem_of_nil in Hi|].
  rewrite !sumZ_cons. apply elem_of_cons in Hi as [->|Hi].
  - rewrite (sumZ_ext g f l); [lia|]. intros j Hj. apply Hfg; [set_solver|]. intros ->. done.
  - rewrite IH; [|done|intros; apply Hfg; set_solver]. rewrite (Hfg x) by set_solver. lia.
Qed.

Lemma sumZ_zero_all (f : nat -> Z) l : (forall j, j ∈ l -> 0 <= f j) -> sumZ f l = 0 -> forall j, j ∈ l -> f j = 0.
Proof.
  induction l as [|x l IH]; intros Hnn Hs j Hj; [by apply not_elem_of_nil in Hj|]. rewrite sumZ_cons in Hs.
  assert (0 <= sumZ f l) by (apply sumZ_nonneg; intros; apply Hnn; set_solver). pose proof (Hnn x ltac:(set_solver)).
  apply elem_of_cons in Hj as [->|Hj]; [lia|]. apply IH; [intros; apply Hnn; set_solver|lia|done].
Qed.

Lemma sum_bound (f : nat -> Z) l : (forall j, j ∈ l -> f j <= 1) -> sumZ f l <= Z.of_nat (length l).
Proof.
  induction l as [|x l IH]; intros H; [done|]. rewrite sumZ_cons. cbn [length].
  pose proof (H x ltac:(set_solver)). specialize (IH ltac:(intros; apply H; set_solver)). lia.
Qed.

Lemma is_zero_bounds x : 0 <= is_zero x <= 1.
Proof. unfold is_zero. destruct (x =? 0); lia. Qed.

Lemma avail_bounds c : vmid_ok c -> 0 <= num_vmids_available c < 16.
Proof.
  intros [Hn _ _ -> _]. unfold MAX_VMID in Hn. split; [apply sumZ_nonneg; intros; apply is_zero_bounds|].
  assert (sumZ (fun i => is_zero (entry c i)) (vmids c) <= Z.of_nat (length (vmids c))) by (apply sum_bound; intros; apply is_zero_bounds).
  unfold vmids in *. rewrite length_seq in *. lia.
Qed.

(** Evicting, when nothing is free, keeps the table consistent and frees exactly
    the VMIDs the hardware does not use. *)
Lemma evict_ok ord c :
  vmid_ok c -> num_vmids_available c = 0 ->
  vmid_ok (evict_vmids ord c) /\ num_vmid (evict_vmids ord c) = num_vmid c /\
  forall i, i ∈ vmids c -> entry c i <> 0 /\ entry (evict_vmids ord c) i = if in_use ord i then entry c i else 0.
Proof.
  intros Hok Hz. pose proof Hok as [Hn Hl H0 Ha Hu]. unfold evict_vmids.
  destruct (evict_loop_spec (Z.to_nat (num_vmid c) - 1) 1 ord c) as (N & L & E & A); [done|lia|lia|unfold MAX_VMID in Hn; lia|].
  set (c' := evict_loop _ _ _ _) in *. clearbody c'.
  assert (forall i, i ∈ vmids c -> entry c i <> 0) as Hnz.
  { intros i Hi Hi0. rewrite Hz in Ha. symmetry in Ha.
    pose proof (sumZ_zero_all _ _ ltac:(intros; apply is_zero_bounds) Ha i Hi) as H. unfold is_zero in H. by rewrite Hi0 in H. }
  assert (forall i, i ∈ vmids c -> entry c' i = if in_use ord i then entry c i else 0) as Hent.
  { intros i Hi%elem_vmids. rewrite E. destruct (in_use ord i); [by rewrite decide_False by naive_solver|]. rewrite decide_True; [done|lia]. }
  assert (vmids c' = vmids c) as Hv by (unfold vmids; by rewrite N).
  split; [|split; [done|intros i Hi; split; [by apply Hnz|by apply Hent]]].
  constructor; [by rewrite N|done| | |].
  - rewrite E, decide_False by lia. done.
  - rewrite A, Hz, Hv. cbn [Z.add]. fold (vmids c). apply sumZ_ext. intros i Hi. rewrite Hent by done.
    specialize (Hnz i Hi). unfold is_zero. destruct (in_use ord i); [|done]. by destruct (Z.eqb_spec (entry c i) 0).
  - rewrite Hv. intros i j Hi Hj. rewrite !Hent by done. destruct (in_use ord i), (in_use ord j); [by apply Hu|intros; congruence..].
Qed.

Lemma add_ok c i ptb :
  vmid_ok c -> i ∈ vmids c -> entry c i = 0 -> ptb <> 0 -> (forall j, j ∈ vmids c -> entry c j <> ptb) ->
  vmid_ok (add_ptb_to_table c i ptb) /\ forall j, entry (add_ptb_to_table c i ptb) j = if decide (j = i) then ptb else entry c j.
Proof.
  intros Hok Hi Hi0 Hp Hfresh. pose proof (avail_bounds c Hok) as Hab. pose proof Hok as [Hn Hl H0 Ha Hu].
  pose proof (proj1 (elem_vmids c i) Hi) as Hir. unfold add_ptb_to_table. destruct (Nat.ltb_spec i MAX_VMID); [|lia].
  set (c' := mkVmid _ _ _). assert (forall j, entry c' j = if decide (j = i) then ptb else entry c j) as Hent
    by (intros j; apply entry_insert; [done|lia]). split; [|done].
  assert (1 <= num_vmids_available c) as Hpos.
  { assert (is_zero (entry c i) <= num_vmids_available c) as Hle; [|rewrite Hi0 in Hle; done].
    rewrite Ha. rewrite (sum_update (fun j => if decide (j = i) then 0 else is_zero (entry c j)) (fun j => is_zero (entry c j)) (vmids c) i);
      [|apply NoDup_seq|done|intros j _ Hj; by rewrite decide_False].
    rewrite decide_True by done. pose proof (sumZ_nonneg (fun j => if decide (j = i) then 0 else is_zero (entry c j)) (vmids c)) as Hnn.
    assert (0 <= sumZ (fun j => if decide (j = i) then 0 else is_zero (entry c j)) (vmids c)); [|lia].
    apply Hnn. intros x _. pose proof (is_zero_bounds (entry c x)). destruct (decide _); lia. }
  constructor; change (vmids c') with (vmids c).
  - done.
  - cbn [c' ptb_assigned_to_vmid]. by rewrite length_insert.
  - rewrite Hent, decide_False by lia. done.
  - cbn [c' num_vmids_available]. rewrite wrap_small by lia.
    rewrite (sum_update (fun j => is_zero (entry c j)) (fun j => is_zero (entry c' j)) (vmids c) i);
      [|apply NoDup_seq|done|intros j _ Hj; by rewrite Hent, decide_False].
    rewrite Hent, decide_True, Hi0, <- Ha by done. unfold is_zero. destruct (Z.eqb_spec ptb 0); [done|]. cbn. lia.
  - intros j k Hj Hk. rewrite !Hent. destruct (decide (j = i)) as [->|], (decide (k = i)) as [->|]; try done.
    + intros E. exfalso. by apply (Hfresh k).
    + intros E. exfalso. by apply (Hfresh j).
    + by apply Hu.
Qed.

Lemma full_avail c : vmid_ok c -> (forall i, i ∈ vmids c -> entry c i <> 0) -> num_vmids_available c = 0.
Proof.
  intros [_ _ _ -> _] Hf. rewrite (sumZ_ext _ (fun _ => 0)); [clear; induction (vmids c); [done|by rewrite sumZ_cons]|].
  intros j Hj. unfold is_zero. destruct (Z.eqb_spec (entry c j) 0) as [Hj0|]; [|done]. by destruct (Hf j Hj).
Qed.

(** The table a new page table is entered into. *)
Lemma make_room_ok ord c :
  vmid_ok c ->
  let c1 := if num_vmids_available c =? 0 then evict_vmids ord c else c in
  vmid_ok c1 /\ num_vmid c1 = num_vmid c /\
  (forall i, i ∈ vmids c -> entry c1 i = entry c i \/ (entry c1 i = 0 /\ in_use ord i = false)) /\
  (forall i, i ∈ vmids c -> entry c1 i = 0 \/ in_use ord i = true \/ num_vmids_available c1 <> 0).
Proof.
  intros Hok c1. unfold c1. destruct (Z.eqb_spec (num_vmids_available c) 0) as [Hz|]; [|split_and!; try done; tauto].
  destruct (evict_ok ord c Hok Hz) as (Ho & N & He). split_and!; try done; intros i Hi; destruct (He i Hi) as [_ ->];
    destruct (in_use ord i); tauto.
Qed.

(** VMID assignment. From a consistent table, whatever VMIDs the hardware
    reports in use, a lookup gives VMID 0 to physical addresses; for a page table it
    returns a valid VMID that the table then assigns to exactly that page table,
    never taking a VMID in use away from another one and leaving the assignments of
    the other VMIDs in use alone; it fails (255) only when every VMID is assigned to
    other page tables and in use. The table stays consistent: the counter is the
    number of free VMIDs and no page table has two. *)
Theorem mod_vmid_get_for_ptb_correct ord ptb c :
  vmid_ok c ->
  exists r c' ctx, mod_vmid_get_for_ptb ord ptb c = Some (r, c', ctx) /\ vmid_ok c' /\ num_vmid c' = num_vmid c /\
    (ptb = 0 -> r = 0 /\ c' = c) /\
    (ptb <> 0 ->
     (r = 255 /\ forall i, i ∈ vmids c -> entry c i <> 0 /\ entry c i <> ptb /\ in_use ord i = true) \/
     (exists v, v ∈ vmids c /\ r = Z.of_nat v /\ entry c' v = ptb /\
        (entry c v <> 0 -> entry c v <> ptb -> in_use ord v = false) /\
        forall i, i ∈ vmids c -> i <> v -> in_use ord i = true -> entry c' i = entry c i)).
Proof.
  intros Hok. pose proof Hok as [Hn Hl H0 Ha Hu]. unfold mod_vmid_get_for_ptb.
  destruct (Z.eqb_spec ptb 0) as [->|Hp]; [eexists _, _, _; split; [done|]; split_and!; try done|].
  unfold MAX_VMID in *. unfold get_existing_vmid_for_ptb.
  destruct (find_loop_spec (Z.to_nat (num_vmid c)) 0 ptb (ptb_assigned_to_vmid c)) as [[E Hnone]|(v & Hv & E & Ev)]; [lia| |];
    rewrite E; cbn [mbind option_bind].
  2: { destruct (Z.eqb_spec (Z.of_nat v) (-1)); [lia|]. cbn [negb]. rewrite wrap_small by lia. eexists _, _, _. split; [done|].
    split_and!; try done. intros _. right. exists v. assert (v <> 0%nat) as Hv0 by (intros ->; unfold entry in H0; congruence).
    split_and!; try done. rewrite elem_vmids. lia. }
  cbn [Z.eqb negb Z.opp]. destruct (make_room_ok ord c Hok) as (Hok1 & N1 & Hent & Hev).
  set (c1 := if num_vmids_available c =? 0 then evict_vmids ord c else c) in *.
  assert (vmids c1 = vmids c) as Hvm by (unfold vmids; by rewrite N1).
  assert (forall i, i ∈ vmids c -> entry c1 i <> ptb) as Hfresh.
  { intros i Hi. destruct (Hent i Hi) as [->|[-> _]]; [|done]. apply elem_vmids in Hi. apply Hnone. lia. }
  clearbody c1. pose proof Hok1 as [Hn1 Hl1 _ Ha1 _]. unfold MAX_VMID, get_next_available_vmid in *.
  destruct (find_loop_spec (Z.to_nat (num_vmid c1) - 1) 1 0 (ptb_assigned_to_vmid c1)) as [[E2 Hfull]|(v & Hv & E2 & Ev)]; [lia| |];
    rewrite E2; cbn [mbind option_bind].
  - cbn [Z.eqb negb Z.opp]. eexists _, _, _. split; [done|]. split_and!; try done. intros _. left. split; [done|].
    intros i Hi. assert (entry c1 i <> 0) as Hi0 by (apply Hfull; rewrite elem_vmids in Hi; rewrite N1; lia).
    destruct (Hent i Hi) as [Ei|[Ei _]]; [|done]. rewrite <- Ei. split_and!; [done|by apply Hfresh|].
    destruct (Hev i Hi) as [?|[?|Hnz]]; [done|done|]. exfalso.
    apply Hnz, full_avail; [done|]. rewrite Hvm. intros j Hj. apply Hfull. rewrite elem_vmids in Hj. rewrite N1. lia.
  - destruct (Z.eqb_spec (Z.of_nat v) (-1)); [lia|]. cbn [negb]. rewrite Nat2Z.id, (wrap_small 8 (Z.of_nat v)) by lia.
    assert (v ∈ vmids c) as Hvc by (rewrite elem_vmids; rewrite N1 in Hv; lia).
    destruct (add_ok c1 v ptb) as (Hok2 & Hent2); [done|by rewrite Hvm|done|done|by rewrite Hvm|].
    eexists _, _, _. split; [done|]. split_and!; [done|unfold add_ptb_to_table; by case_match|done|].
    intros _. right. exists v. rewrite Hent2, decide_True by done. split_and!; try done.
    + intros Hv0 _. destruct (Hent v Hvc) as [Hsame|[_ ?]]; [|done]. unfold entry in *. congruence.
    + intros i Hi Hiv Hiu. rewrite Hent2, decide_False by done. destruct (Hent i Hi) as [->|[_ Hf]]; [done|congruence].
Qed.

Definition vmid0 : core_vmid := mkVmid 4 3 (replicate MAX_VMID 0).

Lemma mod_vmid_get_for_ptb_correct_witness :
  exists c' ctx, mod_vmid_get_for_ptb 0 4096 vmid0 = Some (1, c', ctx) /\ vmid_ok c'.
Proof.
  destruct (mod_vmid_get_for_ptb_correct 0 4096 vmid0) as (r & c' & ctx & E & Hok & _).
  - constructor; [unfold MAX_VMID; simpl; lia|reflexivity|reflexivity|reflexivity|].
    intros i j Hi%elem_vmids _ _ Hnz. exfalso. apply Hnz. simpl in Hi.
    destruct i as [|[|[|[|i]]]]; [reflexivity|reflexivity|reflexivity|reflexivity|lia].
  - assert (r = 1) as -> by (vm_compute in E; congruence). exists c', ctx. split; [exact E|exact Hok].
Defined.
