(* ===== verification/KfdEvents.v ===== *)
(** * KFD events: data and operations

    The event objects user mode waits on: a translation of
    src/src-tree/amd/amdkfd/kfd_events.c and kfd_events.h.

    Events and waiters are keys of two heaps of the process ([events],
    [waiters]); a key is never used again, so that an access to a freed object is
    a crash. A wait queue is the list of the waiters on it. The signal page is the
    list of its 64-bit slots, and an access past its end is a crash.

    What other code decides is an argument: [idr_alloc] (an interface with its
    documented behaviour), the outcome of memory allocations, the tasks that are
    asleep when a queue is woken ([asleep]: [wake_up_all] unlinks those entries, as
    [autoremove_wake_function] does), faults of user memory, and the time. Locks
    are not modelled; what other threads do while a waiter sleeps is an argument
    of [kfd_wait_on_events]. *)

From S2P Require Import Prelude.
From stdpp Require Import gmap list sorting.
From Stdlib Require Import ZArith Lia.

Local Open Scope Z_scope.
Local Open Scope st_scope.

Definition KFD_SIGNAL_EVENT_LIMIT : Z := 4096.
Definition KFD_FIRST_NONSIGNAL_EVENT_ID : Z := Z.shiftr (2 ^ 31 - 1) 1 + 1.
Definition KFD_LAST_NONSIGNAL_EVENT_ID : Z := 2 ^ 31 - 1.
Definition UNSIGNALED_EVENT_SLOT : Z := 2 ^ 64 - 1.
Definition KFD_EVENT_TIMEOUT_IMMEDIATE : Z := 0.
Definition KFD_EVENT_TIMEOUT_INFINITE : Z := 2 ^ 32 - 1.
Definition KFD_EVENT_INFINITE_TIMEOUT_MS : Z := 30000.
Definition KFD_EVENT_RESET_POLL_MS : Z := 2000.
Definition MAX_SCHEDULE_TIMEOUT : Z := 2 ^ 63 - 1.
Definition KFD_EVENT_TYPE_SIGNAL : Z := 0.
Definition KFD_EVENT_TYPE_HW_EXCEPTION : Z := 3.
Definition KFD_EVENT_TYPE_DEBUG : Z := 5.
Definition KFD_EVENT_TYPE_MEMORY : Z := 8.
Definition KFD_IOC_WAIT_RESULT_COMPLETE : Z := 0.
Definition KFD_IOC_WAIT_RESULT_TIMEOUT : Z := 1.
Definition KFD_IOC_WAIT_RESULT_FAIL : Z := 2.
Definition KFD_HW_EXCEPTION_GPU_HANG : Z := 0.
Definition KFD_HW_EXCEPTION_ECC : Z := 1.
Definition KFD_MEM_ERR_SRAM_ECC : Z := 1.
Definition KFD_MEM_ERR_POISON_CONSUMED : Z := 2.
Definition KFD_MMAP_TYPE_EVENTS : Z := Z.shiftl 2 62.
Definition PAGE_SHIFT : Z := 12.
Definition SIGBUS : Z := 7.
Definition SIGSEGV : Z := 11.
Definition SIGTERM : Z := 15.

(** struct kfd_hsa_memory_exception_data, with struct kfd_memory_exception_failure inlined *)
Record kfd_hsa_memory_exception_data := mkMemExc {
  NotPresent : Z;
  ReadOnly : Z;
  NoExecute : Z;
  imprecise : Z;
  va : Z;
  mem_gpu_id : Z;
  ErrorType : Z
}.

(** struct kfd_hsa_hw_exception_data *)
Record kfd_hsa_hw_exception_data := mkHwExc {
  reset_type : Z;
  reset_cause : Z;
  memory_lost : Z;
  hw_gpu_id : Z
}.

Definition mem_exc_zero : kfd_hsa_memory_exception_data := mkMemExc 0 0 0 0 0 0 0.
Definition hw_exc_zero : kfd_hsa_hw_exception_data := mkHwExc 0 0 0 0.

(** Addresses of struct kfd_event and of struct kfd_event_waiter. *)
Abbreviation eid := positive.
Abbreviation wid := positive.

(** struct kfd_event. Its union is two fields: every access to a member is guarded
    by the event's type, which never changes. *)
Record kfd_event := mkEvent {
  event_id : Z;
  event_age : Z;
  signaled : bool;
  auto_reset : bool;
  ev_type : Z;
  wq : list wid;
  user_signal_address : Z;
  memory_exception_data : kfd_hsa_memory_exception_data;
  hw_exception_data : kfd_hsa_hw_exception_data
}.

(** struct kfd_event_waiter *)
Record kfd_event_waiter := mkWaiter {
  w_event : option eid;
  activated : bool;
  event_age_enabled : bool
}.

(** struct kfd_signal_page; [slots] is the memory at [kernel_address]. *)
Record kfd_signal_page := mkPage {
  slots : list Z;
  user_address : Z;
  need_to_free_pages : bool
}.

(** The event-related fields of struct kfd_process and the heap they point to. *)
Record kfd_process := mkProcess {
  event_idr : gmap Z (option eid);
  events : gmap eid kfd_event;
  next_event : eid;
  waiters : gmap wid kfd_event_waiter;
  next_waiter : wid;
  signal_handle : Z;
  signal_page : option kfd_signal_page;
  signal_mapped_size : Z;
  signal_event_count : Z;
  signal_event_limit_reached : bool
}.

Definition set_event_idr (m : gmap Z (option eid)) (p : kfd_process) : kfd_process :=
  mkProcess m (events p) (next_event p) (waiters p) (next_waiter p) (signal_handle p) (signal_page p)
    (signal_mapped_size p) (signal_event_count p) (signal_event_limit_reached p).
Definition set_events (m : gmap eid kfd_event) (p : kfd_process) : kfd_process :=
  mkProcess (event_idr p) m (next_event p) (waiters p) (next_waiter p) (signal_handle p) (signal_page p)
    (signal_mapped_size p) (signal_event_count p) (signal_event_limit_reached p).
Definition set_waiters (m : gmap wid kfd_event_waiter) (p : kfd_process) : kfd_process :=
  mkProcess (event_idr p) (events p) (next_event p) m (next_waiter p) (signal_handle p) (signal_page p)
    (signal_mapped_size p) (signal_event_count p) (signal_event_limit_reached p).
Definition set_signal_page (pg : option kfd_signal_page) (size handle : Z) (p : kfd_process) : kfd_process :=
  mkProcess (event_idr p) (events p) (next_event p) (waiters p) (next_waiter p) handle pg
    size (signal_event_count p) (signal_event_limit_reached p).
Definition set_signal_event_count (n : Z) (p : kfd_process) : kfd_process :=
  mkProcess (event_idr p) (events p) (next_event p) (waiters p) (next_waiter p) (signal_handle p) (signal_page p)
    (signal_mapped_size p) n (signal_event_limit_reached p).
Definition set_limit_reached (b : bool) (p : kfd_process) : kfd_process :=
  mkProcess (event_idr p) (events p) (next_event p) (waiters p) (next_waiter p) (signal_handle p) (signal_page p)
    (signal_mapped_size p) (signal_event_count p) b.

Abbreviation EM := (stM kfd_process).

(** ** Heap accesses *)

Definition get_event (e : eid) : EM kfd_event :=
  p <- st_get ;; st_of_option (events p !! e).
Definition put_event (e : eid) (E : kfd_event) : EM unit :=
  st_mod (fun p => set_events (<[e := E]> (events p)) p).
Definition upd_event (e : eid) (f : kfd_event -> kfd_event) : EM unit :=
  E <- get_event e ;; put_event e (f E).
Definition get_waiter (w : wid) : EM kfd_event_waiter :=
  p <- st_get ;; st_of_option (waiters p !! w).
Definition upd_waiter (w : wid) (f : kfd_event_waiter -> kfd_event_waiter) : EM unit :=
  W <- get_waiter w ;; st_mod (fun p => set_waiters (<[w := f W]> (waiters p)) p).

(** [kzalloc] of an event: a zeroed object with an empty wait queue. *)
Definition alloc_event (type : Z) (auto sig : bool) (mem : kfd_hsa_memory_exception_data)
    (hw : kfd_hsa_hw_exception_data) : EM eid :=
  e <- st_gets next_event ;;
  st_mod (fun p => mkProcess (event_idr p) (<[e := mkEvent 0 0 sig auto type [] 0 mem hw]> (events p))
    (Pos.succ e) (waiters p) (next_waiter p) (signal_handle p) (signal_page p) (signal_mapped_size p)
    (signal_event_count p) (signal_event_limit_reached p)) ;;
  st_ret e.
Definition kfree_event (e : eid) : EM unit := st_mod (fun p => set_events (delete e (events p)) p).

(** [page_slots(p->signal_page)[id]], read and written. *)
Definition slot_read (id : Z) : EM Z :=
  pg <- st_gets signal_page ;;
  match pg with
  | None => st_bug
  | Some pg => if id <? 0 then st_bug else st_of_option (slots pg !! Z.to_nat id)
  end.
Definition slot_write (id v : Z) : EM unit :=
  pg <- st_gets signal_page ;;
  match pg with
  | None => st_bug
  | Some pg =>
      if (id <? 0) || (Z.of_nat (length (slots pg)) <=? id) then st_bug
      else st_mod (fun p => set_signal_page
             (Some (mkPage (<[Z.to_nat id := v]> (slots pg)) (user_address pg) (need_to_free_pages pg)))
             (signal_mapped_size p) (signal_handle p) p)
  end.

(** ** The id allocator

    [idr_alloc(idr, ptr, start, end)] is kernel code: it returns the id it linked,
    or a negative error. *)

Class IdrAlloc := idr_alloc : gmap Z (option eid) -> Z -> Z -> Z.

(** The largest id a request may get; an [end] that is not positive stands for the
    largest [int]. *)
Definition idr_max (end_ : Z) : Z := if end_ <=? 0 then 2 ^ 31 - 1 else end_ - 1.

Class IdrAllocSpec `{IdrAlloc} : Prop := {
  idr_alloc_unused m start end_ :
    0 <= start -> 0 <= idr_alloc m start end_ ->
    start <= idr_alloc m start end_ <= idr_max end_ /\ m !! idr_alloc m start end_ = None;
  idr_alloc_enospc m start end_ :
    idr_alloc m start end_ = - ENOSPC -> 0 <= start ->
    forall id, start <= id <= idr_max end_ -> is_Some (m !! id)
}.

(** The ids in use, in the order of [idr_for_each_entry]. *)
Definition idr_ids (m : gmap Z (option eid)) : list Z := merge_sort Z.le (map_to_list m).*1.

Section KfdEvents.
Context `{Idr : IdrAlloc}.

Definition idr_alloc_event (e : option eid) (start end_ : Z) : EM Z :=
  m <- st_gets event_idr ;;
  let id := idr_alloc m start end_ in
  if id <? 0 then st_ret id
  else st_mod (set_event_idr (<[id := e]> m)) ;; st_ret id.

(** [idr_find] *)
Definition lookup_event_by_id (id : Z) : EM (option eid) :=
  m <- st_gets event_idr ;; st_ret (match m !! id with Some o => o | None => None end).

(** [idr_for_each_entry] and [idr_for_each_entry_continue]: the body runs on the
    non-NULL entries of the ids listed. *)
Fixpoint idr_for_each (ids : list Z) (body : Z -> eid -> EM unit) : EM unit :=
  match ids with
  | [] => st_ret tt
  | id :: ids =>
      o <- lookup_event_by_id id ;;
      match o with
      | Some e => body id e ;; idr_for_each ids body
      | None => idr_for_each ids body
      end
  end.

(** ** Creation *)

Definition allocate_signal_page (ok_page ok_store : bool) : option kfd_signal_page :=
  if negb ok_page then None
  else if negb ok_store then None
  else Some (mkPage (replicate (Z.to_nat KFD_SIGNAL_EVENT_LIMIT) UNSIGNALED_EVENT_SLOT) 0 true).

(** The outcomes of the two allocations of [allocate_signal_page]. *)
Abbreviation page_ok := (bool * bool)%type.

(** The part of [allocate_event_notification_slot] that makes the page. *)
Definition ensure_signal_page (ok : page_ok) : EM bool :=
  pg <- st_gets signal_page ;;
  match pg with
  | Some _ => st_ret true
  | None =>
      let pg := allocate_signal_page (fst ok) (snd ok) in
      st_mod (fun p => set_signal_page pg (signal_mapped_size p) (signal_handle p) p) ;;
      match pg with
      | None => st_ret false
      | Some _ => st_mod (fun p => set_signal_page pg (256 * 8) (signal_handle p) p) ;; st_ret true
      end
  end.

(** An [int] read from [restore_id]. *)
Definition allocate_event_notification_slot (ok : page_ok) (e : eid) (restore_id : option Z) : EM Z :=
  have <- ensure_signal_page ok ;;
  if negb have then st_ret (- ENOMEM)
  else
    mapped <- st_gets signal_mapped_size ;;
    id <- (match restore_id with
           | Some r => idr_alloc_event (Some e) (s32 r) (s32 (s32 r + 1))
           | None => idr_alloc_event (Some e) 0 (s32 (mapped / 8))
           end) ;;
    if id <? 0 then st_ret id
    else
      upd_event e (fun E => mkEvent (u32 id) (event_age E) (signaled E) (auto_reset E) (ev_type E) (wq E)
                   (user_signal_address E) (memory_exception_data E) (hw_exception_data E)) ;;
      slot_write id UNSIGNALED_EVENT_SLOT ;;
      st_ret 0.

Definition create_signal_event (ok : page_ok) (e : eid) (restore_id : option Z) : EM Z :=
  p <- st_get ;;
  if negb (signal_mapped_size p =? 0) && (signal_event_count p =? signal_mapped_size p / 8) then
    st_mod (set_limit_reached true) ;; st_ret (- ENOSPC)
  else
    ret <- allocate_event_notification_slot ok e restore_id ;;
    if negb (ret =? 0) then st_ret ret
    else
      st_mod (fun p => set_signal_event_count (u64 (signal_event_count p + 1)) p) ;;
      pg <- st_gets signal_page ;;
      pg <- st_of_option pg ;;
      upd_event e (fun E => mkEvent (event_id E) (event_age E) (signaled E) (auto_reset E) (ev_type E) (wq E)
                   (u64 (user_address pg + 8 * event_id E)) (memory_exception_data E) (hw_exception_data E)) ;;
      st_ret 0.

Definition create_other_event (e : eid) (restore_id : option Z) : EM Z :=
  id <- (match restore_id with
         | Some r => idr_alloc_event (Some e) (s32 r) (s32 (s32 r + 1))
         | None => idr_alloc_event (Some e) KFD_FIRST_NONSIGNAL_EVENT_ID
                     (s32 (u32 (KFD_LAST_NONSIGNAL_EVENT_ID + 1)))
         end) ;;
  if id <? 0 then st_ret id
  else
    upd_event e (fun E => mkEvent (u32 id) (event_age E) (signaled E) (auto_reset E) (ev_type E) (wq E)
                 (user_signal_address E) (memory_exception_data E) (hw_exception_data E)) ;;
    st_ret 0.

(** What [kfd_event_init_process] leaves untouched in a new, zeroed process. *)
Definition process_zero : kfd_process := mkProcess ∅ ∅ 1 ∅ 1 0 None 0 0 false.

Definition kfd_event_init_process : EM Z :=
  st_mod (set_event_idr ∅) ;;
  st_mod (fun p => set_signal_page None (signal_mapped_size p) (signal_handle p) p) ;;
  st_mod (set_signal_event_count 1) ;;
  id <- idr_alloc_event None 0 1 ;;
  if id <? 0 then st_mod (set_event_idr ∅) ;; st_ret id
  else st_ret 0.

(** What [kfd_event_create] stores through its pointers. *)
Record create_out := mkCreateOut {
  co_event_id : Z;
  co_trigger_data : Z;
  co_page_offset : Z;
  co_slot_index : option Z
}.

Definition is_signal_type (type : Z) : bool := (type =? KFD_EVENT_TYPE_SIGNAL) || (type =? KFD_EVENT_TYPE_DEBUG).

Definition kfd_event_create (ok_ev : bool) (ok : page_ok) (event_type : Z) (auto : bool)
    : EM (Z * option create_out) :=
  if negb ok_ev then st_ret (- ENOMEM, None)
  else
    e <- alloc_event event_type auto false mem_exc_zero hw_exc_zero ;;
    ret <- (if is_signal_type event_type then create_signal_event ok e None
            else create_other_event e None) ;;
    if ret =? 0 then
      upd_event e (fun E => mkEvent (event_id E) 1 (signaled E) (auto_reset E) (ev_type E) (wq E)
                   (user_signal_address E) (memory_exception_data E) (hw_exception_data E)) ;;
      E <- get_event e ;;
      st_ret (0, Some (if is_signal_type event_type
                       then mkCreateOut (event_id E) (event_id E) KFD_MMAP_TYPE_EVENTS (Some (event_id E))
                       else mkCreateOut (event_id E) (event_id E) 0 None))
    else kfree_event e ;; st_ret (ret, None).

(** ** Destruction *)

(** [wake_up_all]: the entries of the tasks that were asleep are unlinked. *)
Definition wake_up_all (asleep : wid -> bool) (q : list wid) : list wid :=
  filter (fun w => asleep w = false) q.

Fixpoint for_waiters (q : list wid) (f : kfd_event_waiter -> kfd_event_waiter) : EM unit :=
  match q with
  | [] => st_ret tt
  | w :: q => upd_waiter w f ;; for_waiters q f
  end.

(** The waiters are woken; the queue itself goes with the event. *)
Definition destroy_event (e : eid) : EM unit :=
  E <- get_event e ;;
  for_waiters (wq E) (fun W => mkWaiter None (activated W) (event_age_enabled W)) ;;
  st_when (is_signal_type (ev_type E))
    (st_mod (fun p => set_signal_event_count (u64 (signal_event_count p - 1)) p)) ;;
  st_mod (fun p => set_event_idr (delete (event_id E) (event_idr p)) p) ;;
  kfree_event e.

Definition destroy_events : EM unit :=
  m <- st_gets event_idr ;;
  idr_for_each (idr_ids m) (fun _ e => destroy_event e) ;;
  st_mod (set_event_idr ∅).

(** [kfree(page)]; the pointer in the process is not cleared. *)
Definition shutdown_signal_page : EM bool :=
  pg <- st_gets signal_page ;;
  st_ret (match pg with Some pg => need_to_free_pages pg | None => false end).

(** The result says whether the backing pages are freed. *)
Definition kfd_event_free_process : EM bool := destroy_events ;; shutdown_signal_page.

Definition event_can_be_gpu_signaled (E : kfd_event) : bool :=
  (ev_type E =? KFD_EVENT_TYPE_SIGNAL) || (ev_type E =? KFD_EVENT_TYPE_DEBUG).
Definition event_can_be_cpu_signaled (E : kfd_event) : bool := ev_type E =? KFD_EVENT_TYPE_SIGNAL.

Definition kfd_event_destroy (event_id : Z) : EM Z :=
  ev <- lookup_event_by_id event_id ;;
  match ev with
  | Some e => destroy_event e ;; st_ret 0
  | None => st_ret (- EINVAL)
  end.

(** ** The signal page *)

(** [memset] of the first [KFD_SIGNAL_EVENT_LIMIT] slots of the buffer [mem]. *)
Definition memset_slots (mem : list Z) : option (list Z) :=
  let n := Z.to_nat KFD_SIGNAL_EVENT_LIMIT in
  if (length mem <? n)%nat then None else Some (replicate n UNSIGNALED_EVENT_SLOT ++ drop n mem).

(** [mem] is the content of the buffer, as 64-bit words. *)
Definition kfd_event_page_set (ok_page : bool) (mem : list Z) (size user_handle : Z) : EM Z :=
  pg <- st_gets signal_page ;;
  match pg with
  | Some _ => st_ret (- EBUSY)
  | None =>
      if negb ok_page then st_ret (- ENOMEM)
      else
        mem <- st_of_option (memset_slots mem) ;;
        st_mod (set_signal_page (Some (mkPage mem 0 false)) size user_handle) ;;
        st_ret 0
  end.

(** What the functions called by [kfd_kmap_event_page] return. *)
Record kmap_env := mkKmapEnv {
  km_pdd_found : bool;
  km_bind_err : Z;
  km_bo_found : bool;
  km_map_err : Z;
  km_content : list Z;
  km_size : Z;
  km_ok_page : bool
}.

(** The second component says whether the buffer stays mapped. *)
Definition kfd_kmap_event_page (env : kmap_env) (event_page_offset : Z) : EM (Z * bool) :=
  pg <- st_gets signal_page ;;
  match pg with
  | Some _ => st_ret (- EINVAL, false)
  | None =>
      if negb (km_pdd_found env) then st_ret (- EINVAL, false)
      else if negb (km_bind_err env =? 0) then st_ret (km_bind_err env, false)
      else if negb (km_bo_found env) then st_ret (- EINVAL, false)
      else if negb (km_map_err env =? 0) then st_ret (km_map_err env, false)
      else
        err <- kfd_event_page_set (km_ok_page env) (km_content env) (km_size env) event_page_offset ;;
        if negb (err =? 0) then st_ret (err, false) else st_ret (0, true)
  end.

(** [get_order(size)]: the order of the smallest block of pages of [size] bytes. *)
Definition get_order (size : Z) : Z :=
  let n := Z.shiftr (u64 (size - 1)) PAGE_SHIFT in if n =? 0 then 0 else Z.log2 n + 1.

(** [remap] is the result of [remap_pfn_range]. *)
Definition kfd_event_mmap (vm_start vm_end remap : Z) : EM Z :=
  if get_order (KFD_SIGNAL_EVENT_LIMIT * 8) <? get_order (u64 (vm_end - vm_start)) then st_ret (- EINVAL)
  else
    pg <- st_gets signal_page ;;
    match pg with
    | None => st_ret (- EINVAL)
    | Some pg =>
        st_mod (fun p => set_signal_page (Some (mkPage (slots pg) vm_start (need_to_free_pages pg)))
                  (signal_mapped_size p) (signal_handle p) p) ;;
        st_when (remap =? 0)
          (st_mod (fun p => set_signal_page (signal_page p) (u64 (vm_end - vm_start)) (signal_handle p) p)) ;;
        st_ret remap
    end.

(** ** Signaling *)

(** The event after [set_event]. *)
Definition event_set (asleep : wid -> bool) (E : kfd_event) : kfd_event :=
  let sig := negb (auto_reset E) || (match wq E with [] => true | _ => false end) in
  let age := u64 (event_age E + 1) in
  mkEvent (event_id E) (if age =? 0 then 2 else age) sig (auto_reset E) (ev_type E)
    (wake_up_all asleep (wq E)) (user_signal_address E) (memory_exception_data E) (hw_exception_data E).

Definition set_event (asleep : wid -> bool) (e : eid) : EM unit :=
  E <- get_event e ;;
  for_waiters (wq E) (fun W => mkWaiter (w_event W) true (event_age_enabled W)) ;;
  put_event e (event_set asleep E).

Definition kfd_set_event (asleep : wid -> bool) (event_id : Z) : EM Z :=
  ev <- lookup_event_by_id event_id ;;
  match ev with
  | None => st_ret (- EINVAL)
  | Some e =>
      E <- get_event e ;;
      if event_can_be_cpu_signaled E then set_event asleep e ;; st_ret 0 else st_ret (- EINVAL)
  end.

Definition reset_event (e : eid) : EM unit :=
  upd_event e (fun E => mkEvent (event_id E) (event_age E) false (auto_reset E) (ev_type E) (wq E)
               (user_signal_address E) (memory_exception_data E) (hw_exception_data E)).

Definition kfd_reset_event (event_id : Z) : EM Z :=
  ev <- lookup_event_by_id event_id ;;
  match ev with
  | None => st_ret (- EINVAL)
  | Some e =>
      E <- get_event e ;;
      if event_can_be_cpu_signaled E then reset_event e ;; st_ret 0 else st_ret (- EINVAL)
  end.

Definition acknowledge_signal (E : kfd_event) : EM unit := slot_write (event_id E) UNSIGNALED_EVENT_SLOT.

Definition set_event_from_interrupt (asleep : wid -> bool) (ev : option eid) : EM unit :=
  match ev with
  | None => st_ret tt
  | Some e =>
      E <- get_event e ;;
      if event_can_be_gpu_signaled E then acknowledge_signal E ;; set_event asleep e
      else st_ret tt
  end.

(** The loop over the ids that match a partial id; at most
    [KFD_SIGNAL_EVENT_LIMIT] rounds. *)
Fixpoint partial_id_loop (fuel : nat) (id stride : Z) : EM (option eid) :=
  match fuel with
  | O => st_bug
  | S fuel =>
      if KFD_SIGNAL_EVENT_LIMIT <=? id then st_ret None
      else
        v <- slot_read id ;;
        if v =? UNSIGNALED_EVENT_SLOT then partial_id_loop fuel (u32 (id + stride)) stride
        else
          ev <- lookup_event_by_id id ;;
          match ev with
          | Some e => st_ret (Some e)
          | None => partial_id_loop fuel (u32 (id + stride)) stride
          end
  end.

Definition lookup_signaled_event_by_partial_id (id bits : Z) : EM (option eid) :=
  pg <- st_gets signal_page ;;
  match pg with
  | None => st_ret None
  | Some _ =>
      if KFD_SIGNAL_EVENT_LIMIT <=? id then st_ret None
      else if (31 <? bits) || (KFD_SIGNAL_EVENT_LIMIT <=? u32 (Z.shiftl 1 bits)) then
        v <- slot_read id ;;
        if v =? UNSIGNALED_EVENT_SLOT then st_ret None else lookup_event_by_id id
      else partial_id_loop (Z.to_nat KFD_SIGNAL_EVENT_LIMIT + 1) id (u32 (Z.shiftl 1 bits))
  end.

(** The two exhaustive searches of [kfd_signal_event_interrupt]. *)
Definition interrupt_body (asleep : wid -> bool) (id : Z) (e : eid) : EM unit :=
  v <- slot_read id ;;
  if v =? UNSIGNALED_EVENT_SLOT then st_ret tt else set_event_from_interrupt asleep (Some e).

Definition interrupt_idr_walk (asleep : wid -> bool) : EM unit :=
  m <- st_gets event_idr ;;
  idr_for_each (filter (fun id => id < KFD_SIGNAL_EVENT_LIMIT) (idr_ids m)) (interrupt_body asleep).

Fixpoint interrupt_slot_walk (asleep : wid -> bool) (ids : list Z) : EM unit :=
  match ids with
  | [] => st_ret tt
  | id :: ids =>
      v <- slot_read id ;;
      (if v =? UNSIGNALED_EVENT_SLOT then st_ret tt
       else ev <- lookup_event_by_id id ;; set_event_from_interrupt asleep ev) ;;
      interrupt_slot_walk asleep ids
  end.

(** The ids [1 .. KFD_SIGNAL_EVENT_LIMIT - 1]. *)
Definition slot_ids : list Z := Z.of_nat <$> seq 1 (Z.to_nat KFD_SIGNAL_EVENT_LIMIT - 1).

(** [found]: the process of the pasid still exists. *)
Definition kfd_signal_event_interrupt (found : bool) (asleep : wid -> bool) (partial_id valid_id_bits : Z) : EM unit :=
  if negb found then st_ret tt
  else
    ev <- (if valid_id_bits =? 0 then st_ret None
           else lookup_signaled_event_by_partial_id partial_id valid_id_bits) ;;
    match ev with
    | Some e => set_event_from_interrupt asleep (Some e)
    | None =>
        p <- st_get ;;
        match signal_page p with
        | None => st_ret tt
        | Some _ =>
            if signal_event_count p <? KFD_SIGNAL_EVENT_LIMIT / 64 then interrupt_idr_walk asleep
            else interrupt_slot_walk asleep slot_ids
        end
    end.

(** ** Exceptions *)

Definition set_mem_exc (d : kfd_hsa_memory_exception_data) (E : kfd_event) : kfd_event :=
  mkEvent (event_id E) (event_age E) (signaled E) (auto_reset E) (ev_type E) (wq E)
    (user_signal_address E) d (hw_exception_data E).
Definition set_hw_exc (d : kfd_hsa_hw_exception_data) (E : kfd_event) : kfd_event :=
  mkEvent (event_id E) (event_age E) (signaled E) (auto_reset E) (ev_type E) (wq E)
    (user_signal_address E) (memory_exception_data E) d.

(** The ids [idr_for_each_entry_continue] visits from
    [KFD_FIRST_NONSIGNAL_EVENT_ID] on. *)
Definition nonsignal_ids (m : gmap Z (option eid)) : list Z :=
  filter (fun id => KFD_FIRST_NONSIGNAL_EVENT_ID <= id) (idr_ids m).

(** [found] records whether an event of the type was seen. *)
Fixpoint signal_by_type_loop (asleep : wid -> bool) (type : Z) (data : option kfd_hsa_memory_exception_data)
    (ids : list Z) (found : bool) : EM bool :=
  match ids with
  | [] => st_ret found
  | id :: ids =>
      o <- lookup_event_by_id id ;;
      match o with
      | None => signal_by_type_loop asleep type data ids found
      | Some e =>
          E <- get_event e ;;
          if ev_type E =? type then
            set_event asleep e ;;
            (match data with
             | Some d => st_when (ev_type E =? KFD_EVENT_TYPE_MEMORY) (upd_event e (set_mem_exc d))
             | None => st_ret tt
             end) ;;
            signal_by_type_loop asleep type data ids true
          else signal_by_type_loop asleep type data ids found
      end
  end.

(** The result lists the signals sent to the process. *)
Definition lookup_events_by_type_and_signal (send_sigterm : bool) (asleep : wid -> bool) (type : Z)
    (event_data : option kfd_hsa_memory_exception_data) : EM (list Z) :=
  m <- st_gets event_idr ;;
  found <- signal_by_type_loop asleep type event_data (nonsignal_ids m) false ;;
  st_ret ((if type =? KFD_EVENT_TYPE_MEMORY then [SIGSEGV] else [])
          ++ (if negb found && send_sigterm then [SIGTERM] else [])).

Definition kfd_signal_hw_exception_event (found send_sigterm : bool) (asleep : wid -> bool) : EM (list Z) :=
  if negb found then st_ret []
  else lookup_events_by_type_and_signal send_sigterm asleep KFD_EVENT_TYPE_HW_EXCEPTION None.

(** struct kfd_vm_fault_info *)
Record kfd_vm_fault_info := mkFault {
  page_addr : Z;
  prot_valid : bool;
  prot_write : bool;
  prot_exec : bool
}.

Definition vm_fault_data (user_gpu_id : Z) (info : option kfd_vm_fault_info) : kfd_hsa_memory_exception_data :=
  match info with
  | None => mkMemExc 0 0 0 1 0 (u32 user_gpu_id) 0
  | Some i => mkMemExc (Z.b2z (prot_valid i)) (Z.b2z (prot_write i)) (Z.b2z (prot_exec i)) 0
                (u64 (Z.shiftl (page_addr i) PAGE_SHIFT)) (u32 user_gpu_id) 0
  end.

(** [user_gpu_id] is the result of [kfd_process_get_user_gpu_id]. *)
Definition kfd_signal_vm_fault_event (asleep : wid -> bool) (user_gpu_id : Z) (info : option kfd_vm_fault_info)
    (data : option kfd_hsa_memory_exception_data) : EM unit :=
  if user_gpu_id =? - EINVAL then st_ret tt
  else
    let d := match data with Some d => d | None => vm_fault_data user_gpu_id info end in
    m <- st_gets event_idr ;;
    idr_for_each (nonsignal_ids m) (fun _ e =>
      E <- get_event e ;;
      st_when (ev_type E =? KFD_EVENT_TYPE_MEMORY)
        (upd_event e (set_mem_exc d) ;; set_event asleep e)).

(** The loop over the devices of the process, [(user_gpu_id of the pdd, user_gpu_id
    of its device)] each; eviction of the queues is not modelled. *)
Fixpoint kfd_signal_vm_fault_event_with_userptr (asleep : wid -> bool) (gpu_va : Z) (pdds : list (Z * Z)) : EM unit :=
  match pdds with
  | [] => st_ret tt
  | (pdd_gpu, gpu) :: pdds =>
      kfd_signal_vm_fault_event asleep gpu None (Some (mkMemExc 1 0 0 0 gpu_va (u32 pdd_gpu) 0)) ;;
      kfd_signal_vm_fault_event_with_userptr asleep gpu_va pdds
  end.

(** The body of the loops of [kfd_signal_reset_event] and
    [kfd_signal_poison_consumed_event]. *)
Definition signal_exceptions (asleep : wid -> bool) (hw : kfd_hsa_hw_exception_data)
    (mem : option kfd_hsa_memory_exception_data) : EM unit :=
  m <- st_gets event_idr ;;
  idr_for_each (nonsignal_ids m) (fun _ e =>
    E <- get_event e ;;
    st_when (ev_type E =? KFD_EVENT_TYPE_HW_EXCEPTION) (upd_event e (set_hw_exc hw) ;; set_event asleep e) ;;
    match mem with
    | Some d => st_when (ev_type E =? KFD_EVENT_TYPE_MEMORY) (upd_event e (set_mem_exc d) ;; set_event asleep e)
    | None => st_ret tt
    end).

(** What [kfd_signal_reset_event] reads of a process: [None] for a missing pdd. *)
Record reset_env := mkResetEnv {
  re_user_gpu_id : Z;
  re_pdd : option (bool * Z);
  re_fpriv_err : bool;
  re_asleep : wid -> bool
}.

(** One process of the table. *)
Definition reset_event_process (sram_ecc : bool) (detect_hang_count : Z) (env : reset_env) : EM unit :=
  if re_user_gpu_id env =? - EINVAL then st_ret tt
  else
    match re_pdd env with
    | None => st_ret tt
    | Some (has_reset_queue, queue_count) =>
        let hang := negb (detect_hang_count =? 0) in
        if hang && negb has_reset_queue && (0 <? queue_count) then st_ret tt
        else if hang && re_fpriv_err env then st_ret tt
        else
          let cause := if sram_ecc then KFD_HW_EXCEPTION_ECC else KFD_HW_EXCEPTION_GPU_HANG in
          let gpu := u32 (re_user_gpu_id env) in
          signal_exceptions (re_asleep env) (mkHwExc 0 cause 1 gpu)
            (if cause =? KFD_HW_EXCEPTION_ECC
             then Some (mkMemExc 0 0 0 1 0 gpu KFD_MEM_ERR_SRAM_ECC) else None)
    end.

Fixpoint kfd_signal_reset_event (sram_ecc : bool) (detect_hang_count : Z) (ps : list (reset_env * kfd_process))
    : option (list kfd_process) :=
  match ps with
  | [] => Some []
  | (env, p) :: ps =>
      match reset_event_process sram_ecc detect_hang_count env p,
            kfd_signal_reset_event sram_ecc detect_hang_count ps with
      | Some (_, p'), Some ps' => Some (p' :: ps')
      | _, _ => None
      end
  end.

Definition kfd_signal_poison_consumed_event (found : bool) (asleep : wid -> bool) (user_gpu_id : Z) : EM (list Z) :=
  if negb found then st_ret []
  else if user_gpu_id =? - EINVAL then st_ret []
  else
    signal_exceptions asleep (mkHwExc 0 KFD_HW_EXCEPTION_ECC 1 (u32 user_gpu_id))
      (Some (mkMemExc 0 0 0 1 0 (u32 user_gpu_id) KFD_MEM_ERR_POISON_CONSUMED)) ;;
    st_ret [SIGBUS].

(** ** Waiting *)

(** struct kfd_event_data, as read from user memory *)
Record kfd_event_data := mkEventData {
  ed_event_id : Z;
  last_event_age : Z
}.

(** [kcalloc] and [init_wait] of [n] waiters. *)
Fixpoint alloc_event_waiters (n : nat) : EM (list wid) :=
  match n with
  | O => st_ret []
  | S n =>
      w <- st_gets next_waiter ;;
      st_mod (fun p => mkProcess (event_idr p) (events p) (next_event p)
        (<[w := mkWaiter None false false]> (waiters p)) (Pos.succ w) (signal_handle p) (signal_page p)
        (signal_mapped_size p) (signal_event_count p) (signal_event_limit_reached p)) ;;
      ws <- alloc_event_waiters n ;;
      st_ret (w :: ws)
  end.

Definition init_event_waiter (w : wid) (d : kfd_event_data) : EM Z :=
  ev <- lookup_event_by_id (ed_event_id d) ;;
  match ev with
  | None => st_ret (- EINVAL)
  | Some e =>
      E <- get_event e ;;
      let age_on := (ev_type E =? KFD_EVENT_TYPE_SIGNAL) && negb (last_event_age d =? 0) in
      let act := signaled E || (age_on && negb (event_age E =? last_event_age d)) in
      upd_waiter w (fun W => mkWaiter (Some e) act (event_age_enabled W || age_on)) ;;
      put_event e (mkEvent (event_id E) (event_age E) (signaled E && negb (auto_reset E)) (auto_reset E)
        (ev_type E) (if act then wq E else w :: wq E) (user_signal_address E)
        (memory_exception_data E) (hw_exception_data E)) ;;
      st_ret 0
  end.

Fixpoint test_event_loop (all : bool) (num : Z) (count : Z) (ws : list wid) : EM Z :=
  match ws with
  | [] => st_ret (if count =? num then KFD_IOC_WAIT_RESULT_COMPLETE else KFD_IOC_WAIT_RESULT_TIMEOUT)
  | w :: ws =>
      W <- get_waiter w ;;
      match w_event W with
      | None => st_ret KFD_IOC_WAIT_RESULT_FAIL
      | Some _ =>
          if activated W then
            if negb all then st_ret KFD_IOC_WAIT_RESULT_COMPLETE
            else test_event_loop all num (count + 1) ws
          else test_event_loop all num count ws
      end
  end.

Definition test_event_condition (all : bool) (ws : list wid) : EM Z :=
  test_event_loop all (Z.of_nat (length ws)) 0 ws.

(** What is copied to user memory at an index of the array. *)
Inductive user_data : Type :=
| UMem (d : kfd_hsa_memory_exception_data)
| UHw (d : kfd_hsa_hw_exception_data)
| UAge (age : Z).

(** The member of the event [src] points to. *)
Inductive src_kind : Type := SrcMem | SrcHw | SrcAge.

Definition src_read (k : src_kind) (E : kfd_event) : user_data :=
  match k with
  | SrcMem => UMem (memory_exception_data E)
  | SrcHw => UHw (hw_exception_data E)
  | SrcAge => UAge (event_age E)
  end.

(** [dst], [src] and [size] survive from one round to the next, so an event without
    data of its own repeats the previous copy. [fault i]: writing the [i]-th
    element faults. *)
Fixpoint copy_signaled_loop (fault : nat -> bool) (i : nat) (cur : option (nat * eid * src_kind))
    (out : list (nat * user_data)) (ws : list wid) : EM (Z * list (nat * user_data)) :=
  match ws with
  | [] => st_ret (0, out)
  | w :: ws =>
      W <- get_waiter w ;;
      match w_event W with
      | None => st_ret (- EINVAL, out)
      | Some e =>
          if activated W then
            E <- get_event e ;;
            let cur := if ev_type E =? KFD_EVENT_TYPE_MEMORY then Some (i, e, SrcMem)
                       else if ev_type E =? KFD_EVENT_TYPE_HW_EXCEPTION then Some (i, e, SrcHw)
                       else if (ev_type E =? KFD_EVENT_TYPE_SIGNAL) && event_age_enabled W then Some (i, e, SrcAge)
                       else cur in
            match cur with
            | None => copy_signaled_loop fault (S i) cur out ws
            | Some (dst, src, k) =>
                if fault dst then st_ret (- EFAULT, out)
                else
                  E <- get_event src ;;
                  copy_signaled_loop fault (S i) cur (out ++ [(dst, src_read k E)]) ws
            end
          else copy_signaled_loop fault (S i) cur out ws
      end
  end.

Definition copy_signaled_event_data (fault : nat -> bool) (ws : list wid) : EM (Z * list (nat * user_data)) :=
  copy_signaled_loop fault 0 None [] ws.

(** [remove_wait_queue] *)
Definition unlink_waiter (w : wid) (E : kfd_event) : kfd_event :=
  mkEvent (event_id E) (event_age E) (signaled E) (auto_reset E) (ev_type E) (filter (fun x => x <> w) (wq E))
    (user_signal_address E) (memory_exception_data E) (hw_exception_data E).

Fixpoint free_waiters_loop (asleep : wid -> bool) (undo_auto_reset : bool) (ws : list wid) : EM unit :=
  match ws with
  | [] => st_ret tt
  | w :: ws =>
      W <- get_waiter w ;;
      (match w_event W with
       | None => st_ret tt
       | Some e =>
           upd_event e (unlink_waiter w) ;;
           E <- get_event e ;;
           st_when (undo_auto_reset && activated W && auto_reset E) (set_event asleep e)
       end) ;;
      free_waiters_loop asleep undo_auto_reset ws
  end.

Definition kfree_waiters (ws : list wid) : EM unit :=
  st_mod (fun p => set_waiters (foldr delete (waiters p) ws) p).

Definition free_waiters (asleep : wid -> bool) (undo_auto_reset : bool) (ws : list wid) : EM unit :=
  free_waiters_loop asleep undo_auto_reset ws ;; kfree_waiters ws.

(** The loop that initialises the waiters; [fault i]: reading the [i]-th element
    faults. *)
Fixpoint init_waiters_loop (fault : nat -> bool) (i : nat) (ws : list wid) (data : list kfd_event_data) : EM Z :=
  match ws, data with
  | w :: ws, d :: data =>
      if fault i then st_ret (- EFAULT)
      else
        ret <- init_event_waiter w d ;;
        if negb (ret =? 0) then st_ret ret else init_waiters_loop fault (S i) ws data
  | _, _ => st_ret 0
  end.

(** The end of [kfd_wait_on_events] from the label [out_unlock] on: the value
    returned and the wait result. *)
Definition wait_out_unlock (asleep : wid -> bool) (ret wait_result : Z) (ws : list wid) : EM (Z * Z) :=
  free_waiters asleep (ret =? - ERESTARTSYS) ws ;;
  st_ret (if negb (ret =? 0) then (ret, KFD_IOC_WAIT_RESULT_FAIL)
          else if wait_result =? KFD_IOC_WAIT_RESULT_FAIL then (- EIO, wait_result)
          else (ret, wait_result)).

(** ** What other threads, the device and user mode do meanwhile *)

Inductive ev_op : Type :=
| OpCreate (ok_ev : bool) (ok : page_ok) (type : Z) (auto : bool)
| OpDestroy (id : Z)
| OpSet (asleep : wid -> bool) (id : Z)
| OpReset (id : Z)
| OpInterrupt (found : bool) (asleep : wid -> bool) (partial_id valid_id_bits : Z)
| OpSlot (id v : Z)
| OpKmap (env : kmap_env) (offset : Z)
| OpMmap (vm_start vm_end remap : Z)
| OpHwException (found send_sigterm : bool) (asleep : wid -> bool)
| OpVmFault (asleep : wid -> bool) (gpu : Z) (info : option kfd_vm_fault_info) (data : option kfd_hsa_memory_exception_data)
| OpGpuReset (sram_ecc : bool) (detect_hang_count : Z) (env : reset_env)
| OpPoison (found : bool) (asleep : wid -> bool) (gpu : Z)
| OpWaitBegin (asleep : wid -> bool) (fault : nat -> bool) (data : list kfd_event_data)
| OpWaitEnd (asleep : wid -> bool) (ret wait_result : Z) (ws : list wid).

(** The first half of [kfd_wait_on_events] as a step of its own: the waiters stay,
    unless one cannot be initialised. *)
Definition wait_begin (fault : nat -> bool) (data : list kfd_event_data)
    : EM (Z * list wid) :=
  ws <- alloc_event_waiters (length data) ;;
  ret <- init_waiters_loop fault 0 ws data ;;
  st_ret (ret, ws).

Definition run_op (op : ev_op) : EM unit :=
  match op with
  | OpCreate ok_ev ok type auto => kfd_event_create ok_ev ok type auto ;; st_ret tt
  | OpDestroy id => kfd_event_destroy id ;; st_ret tt
  | OpSet asleep id => kfd_set_event asleep id ;; st_ret tt
  | OpReset id => kfd_reset_event id ;; st_ret tt
  | OpInterrupt found asleep i b => kfd_signal_event_interrupt found asleep i b
  | OpSlot id v => slot_write id v
  | OpKmap env off => kfd_kmap_event_page env off ;; st_ret tt
  | OpMmap s e r => kfd_event_mmap s e r ;; st_ret tt
  | OpHwException found term asleep => kfd_signal_hw_exception_event found term asleep ;; st_ret tt
  | OpVmFault asleep gpu info data => kfd_signal_vm_fault_event asleep gpu info data
  | OpGpuReset ecc hang env => reset_event_process ecc hang env
  | OpPoison found asleep gpu => kfd_signal_poison_consumed_event found asleep gpu ;; st_ret tt
  | OpWaitBegin asleep fault data =>
      r <- wait_begin fault data ;;
      if fst r =? 0 then st_ret tt
      else wait_out_unlock asleep (fst r) KFD_IOC_WAIT_RESULT_FAIL (snd r) ;; st_ret tt
  | OpWaitEnd asleep ret wr ws => wait_out_unlock asleep ret wr ws ;; st_ret tt
  end.

Fixpoint run_ops (ops : list ev_op) : EM unit :=
  match ops with
  | [] => st_ret tt
  | op :: ops => run_op op ;; run_ops ops
  end.

(** ** [kfd_wait_on_events] *)

(** One round of the loop: the pending signals, what happens during the sleep, what
    [schedule_timeout] returns, the value of [jiffies] afterwards and, per device,
    whether a reset is pending. *)
Record wait_round := mkRound {
  wr_fatal : bool;
  wr_signal : bool;
  wr_others : list ev_op;
  wr_left : Z;
  wr_jiffies : Z;
  wr_resets : list bool
}.

Definition time_after (a b : Z) : bool := s64 (b - a) <? 0.

Section Wait.
Variable msecs_to_jiffies : Z -> Z.
Variable jiffies_to_msecs : Z -> Z.

Definition user_timeout_to_jiffies (user_timeout_ms : Z) : Z :=
  if user_timeout_ms =? KFD_EVENT_TIMEOUT_IMMEDIATE then 0
  else if user_timeout_ms =? KFD_EVENT_TIMEOUT_INFINITE then MAX_SCHEDULE_TIMEOUT
  else s64 (msecs_to_jiffies (Z.min user_timeout_ms 0x7FFFFFFF) + 1).

(** [Some (ret, wait_result, user_timeout_ms)] when the loop is left, [None] when it
    is still waiting after the rounds given. *)
Fixpoint wait_loop (all : bool) (ws : list wid) (user_timeout_ms wait_start : Z) (timeout wait_result : Z)
    (rounds : list wait_round) : EM (option (Z * Z * Z)) :=
  match rounds with
  | [] => st_ret None
  | r :: rounds =>
      let infinite := user_timeout_ms =? KFD_EVENT_TIMEOUT_INFINITE in
      if wr_fatal r then st_ret (Some (- EINTR, wait_result, user_timeout_ms))
      else if wr_signal r then
        st_ret (Some (- ERESTARTSYS, wait_result,
          if negb (user_timeout_ms =? KFD_EVENT_TIMEOUT_IMMEDIATE) && negb infinite
          then u32 (jiffies_to_msecs (Z.max 0 (s64 (timeout - 1)))) else user_timeout_ms))
      else
        wait_result <- test_event_condition all ws ;;
        if negb (wait_result =? KFD_IOC_WAIT_RESULT_TIMEOUT) then st_ret (Some (0, wait_result, user_timeout_ms))
        else if timeout <=? 0 then st_ret (Some (0, wait_result, user_timeout_ms))
        else
          run_ops (wr_others r) ;;
          let timeout :=
            if infinite then timeout
            else let sleep := Z.min timeout (s64 (msecs_to_jiffies KFD_EVENT_RESET_POLL_MS)) in
                 s64 (timeout - (sleep - wr_left r)) in
          if existsb (fun x => x) (wr_resets r)
             || (infinite && time_after (wr_jiffies r)
                   (u64 (wait_start + msecs_to_jiffies KFD_EVENT_INFINITE_TIMEOUT_MS)))
          then st_ret (Some (- ETIME, wait_result, user_timeout_ms))
          else wait_loop all ws user_timeout_ms wait_start timeout wait_result rounds
  end.

(** What the call finds: memory, faults of user memory on reading and writing,
    [jiffies] when the loop starts, its rounds, what others do before the mutex is
    taken again, and which tasks sleep when the signals are given back. *)
Record wait_env := mkWaitEnv {
  we_ok_alloc : bool;
  we_fault_in : nat -> bool;
  we_fault_out : nat -> bool;
  we_start : Z;
  we_rounds : list wait_round;
  we_late : list ev_op;
  we_asleep : wid -> bool
}.

(** The value returned, [*wait_result], [*user_timeout_ms] and what was copied to
    user memory. *)
Record wait_ret := mkWaitRet {
  wt_ret : Z;
  wt_result : Z;
  wt_timeout : Z;
  wt_copied : list (nat * user_data)
}.

(** [None] as result: the call has not returned after the rounds given. *)
Definition kfd_wait_on_events (env : wait_env) (data : list kfd_event_data) (all : bool) (user_timeout_ms : Z)
    : EM (option wait_ret) :=
  let timeout := user_timeout_to_jiffies user_timeout_ms in
  if negb (we_ok_alloc env) then
    st_ret (Some (mkWaitRet (- ENOMEM) KFD_IOC_WAIT_RESULT_FAIL user_timeout_ms []))
  else
    b <- wait_begin (we_fault_in env) data ;;
    let ws := snd b in
    if negb (fst b =? 0) then
      r <- wait_out_unlock (we_asleep env) (fst b) KFD_IOC_WAIT_RESULT_FAIL ws ;;
      st_ret (Some (mkWaitRet (fst r) (snd r) user_timeout_ms []))
    else
      wait_result <- test_event_condition all ws ;;
      if wait_result =? KFD_IOC_WAIT_RESULT_COMPLETE then
        c <- copy_signaled_event_data (we_fault_out env) ws ;;
        r <- wait_out_unlock (we_asleep env) (fst c) wait_result ws ;;
        st_ret (Some (mkWaitRet (fst r) (snd r) user_timeout_ms (snd c)))
      else if wait_result =? KFD_IOC_WAIT_RESULT_FAIL then
        r <- wait_out_unlock (we_asleep env) 0 wait_result ws ;;
        st_ret (Some (mkWaitRet (fst r) (snd r) user_timeout_ms []))
      else
        l <- wait_loop all ws user_timeout_ms (we_start env) timeout wait_result (we_rounds env) ;;
        match l with
        | None => st_ret None
        | Some (ret, wait_result, user_timeout_ms) =>
            run_ops (we_late env) ;;
            c <- (if (ret =? 0) && (wait_result =? KFD_IOC_WAIT_RESULT_COMPLETE)
                  then copy_signaled_event_data (we_fault_out env) ws else st_ret (ret, [])) ;;
            r <- wait_out_unlock (we_asleep env) (fst c) wait_result ws ;;
            st_ret (Some (mkWaitRet (fst r) (snd r) user_timeout_ms (snd c)))
        end.
End Wait.

(** ** Checkpoint and restore *)

(** struct kfd_criu_event_priv_data *)
Record kfd_criu_event_priv_data := mkPriv {
  pv_user_handle : Z;
  pv_event_id : Z;
  pv_auto_reset : Z;
  pv_type : Z;
  pv_signaled : Z;
  pv_memory : kfd_hsa_memory_exception_data;
  pv_hw : kfd_hsa_hw_exception_data
}.

Definition sizeof_priv : Z := 64.

Definition priv_of_event (handle : Z) (E : kfd_event) : kfd_criu_event_priv_data :=
  mkPriv handle (event_id E) (Z.b2z (auto_reset E)) (ev_type E) (Z.b2z (signaled E))
    (if ev_type E =? KFD_EVENT_TYPE_MEMORY then memory_exception_data E else mem_exc_zero)
    (if ev_type E =? KFD_EVENT_TYPE_HW_EXCEPTION then hw_exception_data E else hw_exc_zero).

(** The loop of [kfd_criu_checkpoint_events]; only the first event stores the
    handle. *)
Fixpoint checkpoint_loop (ids : list Z) (first : bool) : EM (list kfd_criu_event_priv_data) :=
  match ids with
  | [] => st_ret []
  | id :: ids =>
      o <- lookup_event_by_id id ;;
      match o with
      | None => checkpoint_loop ids first
      | Some e =>
          E <- get_event e ;;
          p <- st_get ;;
          let h := match signal_page p with Some _ => if first then signal_handle p else 0 | None => 0 end in
          rest <- checkpoint_loop ids false ;;
          st_ret (priv_of_event h E :: rest)
      end
  end.

Fixpoint count_entries (ids : list Z) (n : Z) : EM Z :=
  match ids with
  | [] => st_ret n
  | id :: ids =>
      o <- lookup_event_by_id id ;;
      count_entries ids (match o with Some _ => u32 (n + 1) | None => n end)
  end.

Definition kfd_get_num_events : EM Z :=
  m <- st_gets event_idr ;; n <- count_entries (idr_ids m) 0 ;; st_ret (s32 n).

(** The value returned, what is copied out, and the new [*priv_data_offset]. *)
Definition kfd_criu_checkpoint_events (ok_alloc fault : bool) (priv_data_offset : Z)
    : EM (Z * list kfd_criu_event_priv_data * Z) :=
  n <- kfd_get_num_events ;;
  let num := u32 n in
  if num =? 0 then st_ret (0, [], priv_data_offset)
  else if negb ok_alloc then st_ret (- ENOMEM, [], priv_data_offset)
  else
    m <- st_gets event_idr ;;
    privs <- checkpoint_loop (idr_ids m) true ;;
    st_ret (if fault then - EFAULT else 0, if fault then [] else privs, u64 (priv_data_offset + num * sizeof_priv)).

(** What [kfd_criu_restore_event] finds: the two allocations, a fault of user
    memory, the outcomes of mapping the page and of allocating one. *)
Record restore_env := mkRestoreEnv {
  rs_ok_priv : bool;
  rs_ok_ev : bool;
  rs_fault : bool;
  rs_kmap : kmap_env;
  rs_page : page_ok
}.

(** [priv] is the record at the offset; the value returned and the new offset. An
    event of another type is neither linked nor freed. *)
Definition kfd_criu_restore_event (env : restore_env) (priv : kfd_criu_event_priv_data)
    (priv_data_offset max_priv_data_size : Z) : EM (Z * Z) :=
  if negb (rs_ok_priv env) then st_ret (- ENOMEM, priv_data_offset)
  else if negb (rs_ok_ev env) then st_ret (- ENOMEM, priv_data_offset)
  else if max_priv_data_size <? u64 (priv_data_offset + sizeof_priv) then st_ret (- EINVAL, priv_data_offset)
  else if rs_fault env then st_ret (- EFAULT, priv_data_offset)
  else
    let off := u64 (priv_data_offset + sizeof_priv) in
    km <- (if pv_user_handle priv =? 0 then st_ret (0, false)
           else kfd_kmap_event_page (rs_kmap env) (pv_user_handle priv)) ;;
    if negb (fst km =? 0) then st_ret (fst km, off)
    else
      let type := s32 (pv_type priv) in
      e <- alloc_event type (negb (pv_auto_reset priv =? 0)) (negb (pv_signaled priv =? 0))
             (if type =? KFD_EVENT_TYPE_MEMORY then pv_memory priv else mem_exc_zero)
             (if type =? KFD_EVENT_TYPE_HW_EXCEPTION then pv_hw priv else hw_exc_zero) ;;
      ret <- (if is_signal_type type then create_signal_event (rs_page env) e (Some (pv_event_id priv))
              else if (type =? KFD_EVENT_TYPE_MEMORY) || (type =? KFD_EVENT_TYPE_HW_EXCEPTION)
              then create_other_event e (Some (pv_event_id priv))
              else st_ret 0) ;;
      st_when (negb (ret =? 0)) (kfree_event e) ;;
      st_ret (ret, off).
End KfdEvents.
