(* ===== verification/KfdEventsInv.v ===== *)
(** * KFD events: the invariant and the elementary state changes

    [reg_ok]: the registry (ids, events, signal page, counter) is consistent;
    [queue_ok]: wait queues and waiters refer to each other. Every operation is
    run symbolically ([wp]) from a state that satisfies both. *)

From S2P Require Import Prelude KfdEvents.
From stdpp Require Import gmap list sorting.
From Stdlib Require Import ZArith Lia.

Local Open Scope Z_scope.
Local Open Scope st_scope.

(** ** The invariant *)

Definition sig_weight (_ : eid) (E : kfd_event) : Z := if is_signal_type (ev_type E) then 1 else 0.

(** The number of signal and debug events. *)
Definition nsig (p : kfd_process) : Z := msum sig_weight (events p).

(** The id of an event fits its type. *)
Definition id_ok (p : kfd_process) (E : kfd_event) : Prop :=
  if is_signal_type (ev_type E)
  then exists pg, signal_page p = Some pg /\ 0 < event_id E < Z.of_nat (length (slots pg))
  else KFD_FIRST_NONSIGNAL_EVENT_ID <= event_id E <= KFD_LAST_NONSIGNAL_EVENT_ID.

Definition page_ok (p : kfd_process) : Prop :=
  match signal_page p with
  | None => signal_mapped_size p = 0
  | Some pg => KFD_SIGNAL_EVENT_LIMIT <= Z.of_nat (length (slots pg)) < 2 ^ 30 /\
               8 <= signal_mapped_size p <= 8 * Z.of_nat (length (slots pg))
  end.

Record reg_ok (p : kfd_process) : Prop := mkReg {
  reg_zero : event_idr p !! 0 = Some None;
  reg_null id : event_idr p !! id = Some None -> id = 0;
  reg_idr id e : event_idr p !! id = Some (Some e) -> exists E, events p !! e = Some E /\ event_id E = id;
  reg_event e E : events p !! e = Some E -> event_idr p !! event_id E = Some (Some e);
  reg_id e E : events p !! e = Some E -> id_ok p E;
  reg_page : page_ok p;
  reg_fresh e E : events p !! e = Some E -> (e < next_event p)%positive;
  reg_count : signal_event_count p = u64 (1 + nsig p)
}.

(** [X]: waiters that are being freed, which need not be queued any more. *)
Record queue_okx (X : wid -> Prop) (p : kfd_process) : Prop := mkQueue {
  q_nodup e E : events p !! e = Some E -> NoDup (wq E);
  q_linked e E w : events p !! e = Some E -> w ∈ wq E ->
    exists W, waiters p !! w = Some W /\ w_event W = Some e;
  q_waits w W e : waiters p !! w = Some W -> w_event W = Some e ->
    exists E, events p !! e = Some E /\ (activated W = false -> ~ X w -> w ∈ wq E);
  q_signaled e E w W : events p !! e = Some E -> signaled E = true -> w ∈ wq E ->
    waiters p !! w = Some W -> activated W = true;
  q_fresh w W : waiters p !! w = Some W -> (w < next_waiter p)%positive
}.

Abbreviation queue_ok := (queue_okx (fun _ => False)).

Definition ev_wfx (X : wid -> Prop) (p : kfd_process) : Prop := reg_ok p /\ queue_okx X p.
Abbreviation ev_wf := (ev_wfx (fun _ => False)).

(** ** Running the accessors *)

Section Access.
Context `{Idr : IdrAlloc}.

Lemma wp_get_event e E Q p : events p !! e = Some E -> Q E p -> wp (get_event e) Q p.
Proof. intros H HQ. unfold get_event. wp_steps. by eapply wp_of_option. Qed.

Lemma wp_get_waiter w W Q p : waiters p !! w = Some W -> Q W p -> wp (get_waiter w) Q p.
Proof. intros H HQ. unfold get_waiter. wp_steps. by eapply wp_of_option. Qed.

Lemma wp_upd_event e f E Q p :
  events p !! e = Some E -> Q tt (set_events (<[e := f E]> (events p)) p) -> wp (upd_event e f) Q p.
Proof.
  intros H HQ. unfold upd_event, put_event. apply wp_bind. apply (wp_get_event _ _ _ _ H). by wp_steps.
Qed.

Lemma wp_upd_waiter w f W Q p :
  waiters p !! w = Some W -> Q tt (set_waiters (<[w := f W]> (waiters p)) p) -> wp (upd_waiter w f) Q p.
Proof. intros H HQ. unfold upd_waiter. apply wp_bind. apply (wp_get_waiter _ _ _ _ H). by wp_steps. Qed.

Lemma wp_lookup id Q p :
  Q (match event_idr p !! id with Some o => o | None => None end) p -> wp (lookup_event_by_id id) Q p.
Proof. intros HQ. unfold lookup_event_by_id. by wp_steps. Qed.

(** The result of updating every waiter of a list. *)
Definition upd_all (f : kfd_event_waiter -> kfd_event_waiter) (ws : list wid)
    (m : gmap wid kfd_event_waiter) : gmap wid kfd_event_waiter :=
  foldl (fun m w => alter f w m) m ws.

Lemma lookup_upd_all f ws m w :
  (forall W, f (f W) = f W) ->
  upd_all f ws m !! w = if decide (w ∈ ws) then f <$> m !! w else m !! w.
Proof.
  intros Hf. revert m. induction ws as [|x ws IH]; intros m; [by rewrite decide_False by set_solver|].
  simpl. rewrite IH. destruct (decide (w = x)) as [->|Hne].
  - rewrite lookup_alter_eq, (decide_True (P := x ∈ x :: ws)) by set_solver.
    destruct (decide (x ∈ ws)); [|done]. destruct (m !! x); simpl; [by rewrite Hf|done].
  - rewrite lookup_alter_ne by done. destruct (decide (w ∈ ws)).
    + by rewrite decide_True by set_solver.
    + by rewrite decide_False by set_solver.
Qed.

Lemma wp_for_waiters f ws Q p :
  (forall w, w ∈ ws -> is_Some (waiters p !! w)) ->
  Q tt (set_waiters (upd_all f ws (waiters p)) p) -> wp (for_waiters ws f) Q p.
Proof.
  revert p. induction ws as [|w ws IH]; intros p Hin HQ; simpl.
  - unfold wp, st_ret. simpl in HQ. by destruct p.
  - destruct (Hin w ltac:(set_solver)) as [W HW].
    apply wp_bind. apply (wp_upd_waiter _ _ _ _ _ HW). apply IH.
    + intros x Hx. simpl. destruct (decide (x = w)) as [->|]; [by rewrite lookup_insert_eq; eauto|].
      rewrite lookup_insert_ne by done. apply Hin. set_solver.
    + simpl in *. unfold set_waiters in HQ |- *. simpl in *.
      replace (<[w:=f W]> (waiters p)) with (alter f w (waiters p)); [done|].
      apply map_eq. intros i. destruct (decide (i = w)) as [->|].
      * by rewrite lookup_alter_eq, lookup_insert_eq, HW.
      * by rewrite lookup_alter_ne, lookup_insert_ne by done.
Qed.

(** ** Ids in use *)

Lemma elem_idr_ids (m : gmap Z (option eid)) id : id ∈ idr_ids m <-> is_Some (m !! id).
Proof.
  unfold idr_ids. rewrite merge_sort_Permutation. rewrite list_elem_of_fmap. split.
  - intros ([k o] & -> & H%elem_of_map_to_list). simpl. rewrite H. eauto.
  - intros [o H]. exists (id, o). split; [done|]. by apply elem_of_map_to_list.
Qed.

Lemma NoDup_idr_ids (m : gmap Z (option eid)) : NoDup (idr_ids m).
Proof. unfold idr_ids. rewrite merge_sort_Permutation. apply NoDup_fst_map_to_list. Qed.

Lemma idr_ids_sorted (m : gmap Z (option eid)) : StronglySorted Z.lt (idr_ids m).
Proof.
  pose proof (NoDup_idr_ids m) as Hn.
  assert (StronglySorted Z.le (idr_ids m)) as Hs by apply (StronglySorted_merge_sort Z.le).
  induction Hs as [|x l Hs IH Hf]; [constructor|]. inversion Hn; subst.
  constructor; [by apply IH|]. rewrite Forall_forall in Hf |- *. intros y Hy.
  specialize (Hf y Hy). assert (x <> y) by (by intros ->). lia.
Qed.

(** A loop over entries keeps what its body keeps. *)
Lemma wp_idr_for_each (I : kfd_process -> Prop) ids body p :
  (forall id e p, I p -> event_idr p !! id = Some (Some e) -> wp (body id e) (fun _ => I) p) ->
  I p -> wp (idr_for_each ids body) (fun _ => I) p.
Proof.
  intros Hb. revert p. induction ids as [|id ids IH]; intros p HI; simpl; [done|].
  apply wp_bind, wp_lookup. destruct (event_idr p !! id) as [[e|]|] eqn:E; [|by apply IH..].
  apply wp_bind. eapply wp_mono; [by apply Hb|]. intros [] p' HI'. by apply IH.
Qed.
End Access.

(** ** State changes that keep the invariant *)

(** The fields the registry depends on. *)
Definition same_reg (E E' : kfd_event) : Prop := event_id E' = event_id E /\ ev_type E' = ev_type E.

Lemma nsig_put p e E E' :
  events p !! e = Some E -> same_reg E E' -> nsig (set_events (<[e := E']> (events p)) p) = nsig p.
Proof.
  intros He [_ Ht]. unfold nsig. simpl. rewrite (msum_update sig_weight _ e E) by done.
  unfold sig_weight. rewrite Ht. lia.
Qed.

Lemma reg_ok_put p e E E' :
  reg_ok p -> events p !! e = Some E -> same_reg E E' -> reg_ok (set_events (<[e := E']> (events p)) p).
Proof.
  intros HR He Hs. pose proof (nsig_put p e E E' He Hs) as Hn. destruct HR, Hs as [Hi Ht]. constructor; simpl; try done.
  - intros id x Hx. destruct (reg_idr0 id x Hx) as (Ex & H1 & H2). destruct (decide (x = e)) as [->|].
    + exists E'. rewrite lookup_insert_eq. split; [done|]. congruence.
    + exists Ex. by rewrite lookup_insert_ne by done.
  - intros x Ex Hx. destruct (decide (x = e)) as [->|].
    + rewrite lookup_insert_eq in Hx. simplify_eq. rewrite Hi. eauto.
    + rewrite lookup_insert_ne in Hx by done. eauto.
  - intros x Ex Hx. destruct (decide (x = e)) as [->|].
    + rewrite lookup_insert_eq in Hx. simplify_eq. specialize (reg_id0 e E He). unfold id_ok in *. by rewrite Ht, Hi.
    + rewrite lookup_insert_ne in Hx by done. eapply reg_id0; eauto.
  - intros x Ex Hx. destruct (decide (x = e)) as [->|]; [eauto|].
    rewrite lookup_insert_ne in Hx by done. eauto.
  - by rewrite Hn.
Qed.

Lemma queue_ok_put X p e E E' :
  queue_okx X p -> events p !! e = Some E -> wq E' = wq E -> (signaled E' = true -> signaled E = true) ->
  queue_okx X (set_events (<[e := E']> (events p)) p).
Proof.
  intros [] He Hw Hs. constructor; simpl; try done.
  - intros x Ex [[<- <-]|[? ?]]%lookup_insert_Some; [rewrite Hw|]; eauto.
  - intros x Ex w [[<- <-]|[? ?]]%lookup_insert_Some; [rewrite Hw|]; eauto.
  - intros w W x HW Hx. destruct (q_waits0 w W x HW Hx) as (Ex & H1 & H2).
    destruct (decide (x = e)) as [->|].
    + exists E'. rewrite lookup_insert_eq, Hw. simplify_eq. done.
    + exists Ex. by rewrite lookup_insert_ne by done.
  - intros x Ex w W [[<- <-]|[? ?]]%lookup_insert_Some; [rewrite Hw|]; eauto.
Qed.

(** An update of an event that keeps its identity and its queue. *)
Lemma ev_wf_put X p e E E' :
  ev_wfx X p -> events p !! e = Some E -> same_reg E E' -> wq E' = wq E ->
  (signaled E' = true -> signaled E = true) -> ev_wfx X (set_events (<[e := E']> (events p)) p).
Proof. intros [] ? ? ? ?. split; [by eapply reg_ok_put|by eapply queue_ok_put]. Qed.

Lemma reg_ok_waiters p m : reg_ok (set_waiters m p) <-> reg_ok p.
Proof. split; intros []; by constructor. Qed.

(** The state after [set_event]. *)
Definition st_set_event (asleep : wid -> bool) (e : eid) (E : kfd_event) (p : kfd_process) : kfd_process :=
  set_events (<[e := event_set asleep E]> (events p))
    (set_waiters (upd_all (fun W => mkWaiter (w_event W) true (event_age_enabled W)) (wq E) (waiters p)) p).

Lemma wp_set_event `{Idr : IdrAlloc} X asleep e E Q p :
  queue_okx X p -> events p !! e = Some E -> Q tt (st_set_event asleep e E p) -> wp (set_event asleep e) Q p.
Proof.
  intros HQ He Hp. unfold set_event. apply wp_bind, (wp_get_event _ _ _ _ He). apply wp_bind.
  apply wp_for_waiters.
  - intros w Hw. destruct (q_linked _ _ HQ _ _ _ He Hw) as (W & -> & _). eauto.
  - unfold put_event. wp_steps. done.
Qed.

Lemma elem_wake asleep q w : w ∈ wake_up_all asleep q <-> asleep w = false /\ w ∈ q.
Proof. unfold wake_up_all. by rewrite list_elem_of_filter. Qed.

Definition activate (W : kfd_event_waiter) : kfd_event_waiter := mkWaiter (w_event W) true (event_age_enabled W).

Lemma st_set_event_waiter asleep e E p w :
  waiters (st_set_event asleep e E p) !! w
  = (if decide (w ∈ wq E) then activate <$> waiters p !! w else waiters p !! w).
Proof. unfold st_set_event. simpl. by rewrite lookup_upd_all. Qed.

(** A waiter after [set_event]: activated when it was on the queue. *)
Lemma st_set_event_waiter_inv asleep e E p w W' :
  waiters (st_set_event asleep e E p) !! w = Some W' ->
  exists W, waiters p !! w = Some W /\ w_event W' = w_event W /\
    (activated W' = false -> activated W = false /\ w ∉ wq E) /\ (w ∈ wq E -> activated W' = true).
Proof.
  rewrite st_set_event_waiter. destruct (decide (w ∈ wq E)) as [Hin|Hin]; intros H.
  - apply fmap_Some in H as (W & HW & ->). exists W. by split_and!.
  - exists W'. by split_and!.
Qed.

Lemma ev_wf_set X asleep e E p : ev_wfx X p -> events p !! e = Some E -> ev_wfx X (st_set_event asleep e E p).
Proof.
  intros [HR HQ] He. split.
  - unfold st_set_event. eapply (reg_ok_put (set_waiters _ p)); [by apply reg_ok_waiters|done|done].
  - pose proof (st_set_event_waiter_inv asleep e E p) as Hinv. pose proof (st_set_event_waiter asleep e E p) as Hlook.
    assert (forall x Ex, events (st_set_event asleep e E p) !! x = Some Ex ->
      exists E0, events p !! x = Some E0 /\ (forall w, w ∈ wq Ex -> w ∈ wq E0) /\ (x <> e -> Ex = E0) /\ (x = e -> E0 = E /\ Ex = event_set asleep E)) as Hev.
    { unfold st_set_event. simpl. intros x Ex [[<- <-]|[? ?]]%lookup_insert_Some.
      - exists E. split_and!; try done. intros w. simpl. rewrite elem_wake. tauto.
      - exists Ex. by split_and!. }
    destruct HQ. constructor.
    + intros x Ex Hx. destruct (Hev x Ex Hx) as (E0 & H0 & _ & Hne & Heq). destruct (decide (x = e)) as [->|].
      * destruct Heq as [-> ->]; [done|]. simpl. apply NoDup_filter. eauto.
      * rewrite (Hne ltac:(done)). eauto.
    + intros x Ex w Hx Hw. destruct (Hev x Ex Hx) as (E0 & H0 & Hsub & _).
      destruct (q_linked0 x E0 w H0 (Hsub w Hw)) as (W & HW & HWe). rewrite Hlook, HW.
      destruct (decide (w ∈ wq E)); simpl; eauto.
    + intros w W x HW Hx. destruct (Hinv w W HW) as (W0 & HW0 & Hwe & Hact & _).
      destruct (q_waits0 w W0 x HW0 ltac:(congruence)) as (Ex & HEx & Hq). unfold st_set_event. simpl.
      destruct (decide (x = e)) as [->|].
      * rewrite lookup_insert_eq. eexists. split; [done|]. intros Ha. destruct (Hact Ha). simplify_eq. naive_solver.
      * rewrite lookup_insert_ne by done. exists Ex. split; [done|]. intros Ha. destruct (Hact Ha). auto.
    + intros x Ex w W Hx Hs Hw HW. destruct (Hev x Ex Hx) as (E0 & H0 & Hsub & Hne & Heq).
      destruct (Hinv w W HW) as (W0 & HW0 & _ & Hact & Hin). destruct (decide (x = e)) as [->|].
      * destruct Heq as [-> ->]; [done|]. auto.
      * rewrite (Hne ltac:(done)) in *. destruct (activated W) eqn:Ha; [done|]. destruct (Hact eq_refl) as [Hb _].
        by rewrite (q_signaled0 x E0 w W0) in Hb.
    + intros w W HW. destruct (Hinv w W HW) as (W0 & HW0 & _). simpl. eauto.
Qed.

(** ** The signal page *)

(** The state after a write to a slot. *)
Definition st_slot (id v : Z) (p : kfd_process) : kfd_process :=
  match signal_page p with
  | Some pg => set_signal_page (Some (mkPage (<[Z.to_nat id := v]> (slots pg)) (user_address pg) (need_to_free_pages pg)))
                 (signal_mapped_size p) (signal_handle p) p
  | None => p
  end.

Definition page_slot (p : kfd_process) (id : Z) : option Z :=
  match signal_page p with Some pg => slots pg !! Z.to_nat id | None => None end.

Lemma wp_slot_write id v pg Q p :
  signal_page p = Some pg -> 0 <= id < Z.of_nat (length (slots pg)) -> Q tt (st_slot id v p) ->
  wp (slot_write id v) Q p.
Proof.
  intros Hp Hid HQ. unfold slot_write. wp_steps. rewrite Hp.
  destruct (Z.ltb_spec id 0); [lia|]. destruct (Z.leb_spec (Z.of_nat (length (slots pg))) id); [lia|]. simpl.
  wp_steps. unfold st_slot in HQ. by rewrite Hp in HQ.
Qed.

Lemma wp_slot_read id pg Q p :
  signal_page p = Some pg -> 0 <= id < Z.of_nat (length (slots pg)) ->
  (forall v, page_slot p id = Some v -> Q v p) -> wp (slot_read id) Q p.
Proof.
  intros Hp Hid HQ. unfold slot_read. wp_steps. rewrite Hp. destruct (Z.ltb_spec id 0); [lia|].
  destruct (lookup_lt_is_Some_2 (slots pg) (Z.to_nat id)) as [v Hv]; [lia|].
  eapply wp_of_option; [done|]. apply HQ. unfold page_slot. by rewrite Hp.
Qed.

Lemma ev_wf_slot id v p : ev_wf p -> ev_wf (st_slot id v p).
Proof.
  intros [HR HQ]. unfold st_slot. destruct (signal_page p) as [pg|] eqn:Hp; [|done]. split.
  - destruct HR. constructor; simpl; try done.
    + intros e E He. specialize (reg_id0 e E He). unfold id_ok in *. simpl.
      destruct (is_signal_type (ev_type E)); [|done]. destruct reg_id0 as (pg' & ? & ?). simplify_eq.
      eexists. split; [done|]. simpl. by rewrite length_insert.
    + unfold page_ok in *. simpl. rewrite Hp in reg_page0. by rewrite length_insert.
  - destruct HQ. by constructor.
Qed.

Lemma page_slot_write p id v pg id' :
  signal_page p = Some pg -> 0 <= id < Z.of_nat (length (slots pg)) -> 0 <= id' ->
  page_slot (st_slot id v p) id' = if decide (id' = id) then Some v else page_slot p id'.
Proof.
  intros Hp Hid Hid'. unfold page_slot, st_slot. rewrite Hp. simpl. destruct (decide (id' = id)) as [->|].
  - apply list_lookup_insert_eq. lia.
  - rewrite list_lookup_insert_ne by lia. done.
Qed.

(** A live signal event has its slot inside the page. *)
Lemma signal_event_page p e E :
  reg_ok p -> events p !! e = Some E -> is_signal_type (ev_type E) = true ->
  exists pg, signal_page p = Some pg /\ 0 < event_id E < Z.of_nat (length (slots pg)).
Proof. intros HR He Ht. pose proof (reg_id _ HR _ _ He) as H. unfold id_ok in H. by rewrite Ht in H. Qed.

(** ** Signaling from an interrupt *)

Definition st_interrupt (asleep : wid -> bool) (e : eid) (E : kfd_event) (p : kfd_process) : kfd_process :=
  if event_can_be_gpu_signaled E
  then st_set_event asleep e E (st_slot (event_id E) UNSIGNALED_EVENT_SLOT p)
  else p.

Lemma st_slot_events id v p : events (st_slot id v p) = events p.
Proof. unfold st_slot. by destruct (signal_page p). Qed.
Lemma st_slot_waiters id v p : waiters (st_slot id v p) = waiters p.
Proof. unfold st_slot. by destruct (signal_page p). Qed.
Lemma st_slot_idr id v p : event_idr (st_slot id v p) = event_idr p.
Proof. unfold st_slot. by destruct (signal_page p). Qed.

Lemma ev_wf_interrupt asleep e E p : ev_wf p -> events p !! e = Some E -> ev_wf (st_interrupt asleep e E p).
Proof.
  intros Hwf He. unfold st_interrupt. destruct (event_can_be_gpu_signaled E); [|done].
  apply ev_wf_set; [by apply ev_wf_slot|]. by rewrite st_slot_events.
Qed.

Section Ops.
Context `{Idr : IdrAlloc}.

Lemma wp_set_event_from_interrupt asleep e E Q p :
  ev_wf p -> events p !! e = Some E -> Q tt (st_interrupt asleep e E p) ->
  wp (set_event_from_interrupt asleep (Some e)) Q p.
Proof.
  intros Hwf He HQ. unfold set_event_from_interrupt. apply wp_bind, (wp_get_event _ _ _ _ He).
  unfold st_interrupt in HQ. destruct (event_can_be_gpu_signaled E) eqn:Ht; [|by wp_steps].
  destruct (signal_event_page p e E) as (pg & Hp & Hid); [apply Hwf|done|exact Ht|].
  apply wp_bind. unfold acknowledge_signal. eapply wp_slot_write; [done|lia|].
  apply (wp_set_event (fun _ => False) _ _ E); [by apply ev_wf_slot|by rewrite st_slot_events|done].
Qed.

Lemma wp_interrupt_body asleep id e E Q p :
  ev_wf p -> events p !! e = Some E -> is_Some (signal_page p) -> 0 <= id < KFD_SIGNAL_EVENT_LIMIT ->
  (forall v, page_slot p id = Some v ->
    Q tt (if v =? UNSIGNALED_EVENT_SLOT then p else st_interrupt asleep e E p)) ->
  wp (interrupt_body asleep id e) Q p.
Proof.
  intros Hwf He [pg Hp] Hid HQ. unfold interrupt_body. apply wp_bind.
  pose proof (reg_page _ (proj1 Hwf)) as Hpg. unfold page_ok in Hpg. rewrite Hp in Hpg.
  eapply wp_slot_read; [done|lia|]. intros v Hv. specialize (HQ v Hv).
  destruct (v =? UNSIGNALED_EVENT_SLOT); [by wp_steps|]. by eapply wp_set_event_from_interrupt.
Qed.

(** Ids are not negative. *)
Lemma idr_nonneg p id e : reg_ok p -> event_idr p !! id = Some (Some e) -> 0 < id.
Proof.
  intros HR H. destruct (reg_idr _ HR _ _ H) as (E & He & <-). pose proof (reg_id _ HR _ _ He) as Hi. unfold id_ok in Hi.
  destruct (is_signal_type (ev_type E)); [destruct Hi as (? & _ & ?); lia|].
  change KFD_FIRST_NONSIGNAL_EVENT_ID with (2 ^ 30) in Hi. lia.
Qed.

(** ** The two exhaustive searches *)

Definition slot_set (p : kfd_process) (id : Z) : bool :=
  match page_slot p id with Some v => negb (v =? UNSIGNALED_EVENT_SLOT) | None => false end.

(** What an exhaustive search does at one id. *)
Definition st_walk_id (asleep : wid -> bool) (p : kfd_process) (id : Z) : kfd_process :=
  match event_idr p !! id with
  | Some (Some e) =>
      match events p !! e with
      | Some E => if slot_set p id then st_interrupt asleep e E p else p
      | None => p
      end
  | _ => p
  end.

Lemma st_set_event_page asleep e E p : signal_page (st_set_event asleep e E p) = signal_page p.
Proof. done. Qed.

Lemma st_interrupt_idr asleep e E p : event_idr (st_interrupt asleep e E p) = event_idr p.
Proof. unfold st_interrupt. destruct (event_can_be_gpu_signaled E); [apply st_slot_idr|done]. Qed.

Lemma st_interrupt_page asleep e E p : is_Some (signal_page p) -> is_Some (signal_page (st_interrupt asleep e E p)).
Proof.
  intros [pg H]. unfold st_interrupt. destruct (event_can_be_gpu_signaled E); [|eauto].
  rewrite st_set_event_page. unfold st_slot. rewrite H. simpl. eauto.
Qed.

Lemma st_walk_id_keeps asleep p id :
  ev_wf p -> is_Some (signal_page p) ->
  ev_wf (st_walk_id asleep p id) /\ is_Some (signal_page (st_walk_id asleep p id)) /\
  event_idr (st_walk_id asleep p id) = event_idr p.
Proof.
  intros Hwf Hp. unfold st_walk_id. destruct (event_idr p !! id) as [[e|]|]; [|done..].
  destruct (events p !! e) as [E|] eqn:He; [|done]. destruct (slot_set p id); [|done].
  split_and!; [by apply ev_wf_interrupt|by apply st_interrupt_page|apply st_interrupt_idr].
Qed.

Definition st_walk (asleep : wid -> bool) (ids : list Z) (p : kfd_process) : kfd_process :=
  foldl (st_walk_id asleep) p ids.

Lemma st_walk_keeps asleep ids p :
  ev_wf p -> is_Some (signal_page p) ->
  ev_wf (st_walk asleep ids p) /\ is_Some (signal_page (st_walk asleep ids p)) /\
  event_idr (st_walk asleep ids p) = event_idr p.
Proof.
  revert p. induction ids as [|id ids IH]; intros p Hwf Hp; simpl; [done|].
  destruct (st_walk_id_keeps asleep p id Hwf Hp) as (H1 & H2 & <-). by apply IH.
Qed.

Lemma idr_walk_run asleep ids p :
  ev_wf p -> is_Some (signal_page p) -> (forall id, id ∈ ids -> 0 <= id < KFD_SIGNAL_EVENT_LIMIT) ->
  idr_for_each ids (interrupt_body asleep) p = Some (tt, st_walk asleep ids p).
Proof.
  revert p. induction ids as [|id ids IH]; intros p Hwf Hp Hin; simpl; [done|].
  destruct (st_walk_id_keeps asleep p id Hwf Hp) as (H1 & H2 & _). specialize (Hin id ltac:(set_solver)) as Hid.
  assert (forall id, id ∈ ids -> 0 <= id < KFD_SIGNAL_EVENT_LIMIT) as Hin' by (intros; apply Hin; set_solver).
  unfold lookup_event_by_id, st_bind at 1 2, st_gets, st_ret. unfold st_walk_id in *.
  destruct (event_idr p !! id) as [[e|]|] eqn:E; [|by apply IH..].
  destruct (reg_idr _ (proj1 Hwf) _ _ E) as (Ev & He & _). rewrite He in *.
  assert (wp (interrupt_body asleep id e)
    (fun _ p' => p' = if slot_set p id then st_interrupt asleep e Ev p else p) p) as W.
  { eapply wp_interrupt_body; [done..|]. intros v Hv. unfold slot_set. rewrite Hv. by destruct (v =? _). }
  apply wp_run in W as ([] & p' & Er & ->). rewrite (st_bind_run _ _ _ _ _ Er). by apply IH.
Qed.

Lemma slot_walk_run asleep ids p :
  ev_wf p -> is_Some (signal_page p) -> (forall id, id ∈ ids -> 0 <= id < KFD_SIGNAL_EVENT_LIMIT) ->
  interrupt_slot_walk asleep ids p = Some (tt, st_walk asleep ids p).
Proof.
  revert p. induction ids as [|id ids IH]; intros p Hwf Hp Hin; simpl; [done|].
  destruct (st_walk_id_keeps asleep p id Hwf Hp) as (H1 & H2 & _). specialize (Hin id ltac:(set_solver)) as Hid.
  assert (forall id, id ∈ ids -> 0 <= id < KFD_SIGNAL_EVENT_LIMIT) as Hin' by (intros; apply Hin; set_solver).
  enough (wp (st_bind (slot_read id) (fun v =>
      if v =? UNSIGNALED_EVENT_SLOT then st_ret tt
      else st_bind (lookup_event_by_id id) (set_event_from_interrupt asleep)))
    (fun _ p' => p' = st_walk_id asleep p id) p) as W.
  { apply wp_run in W as ([] & p' & Er & ->). specialize (IH _ H1 H2 Hin'). revert Er.
    unfold st_bind. destruct (slot_read id p) as [[v q]|]; [|done]. intros ->. done. }
  destruct Hp as [pg Hp]. pose proof (reg_page _ (proj1 Hwf)) as Hpg. unfold page_ok in Hpg. rewrite Hp in Hpg.
  apply wp_bind. eapply wp_slot_read; [done|lia|]. intros v Hv. unfold st_walk_id, slot_set. rewrite Hv.
  destruct (v =? UNSIGNALED_EVENT_SLOT) eqn:Hu; simpl.
  - wp_steps. destruct (event_idr p !! id) as [[e|]|]; try done. by destruct (events p !! e).
  - apply wp_bind, wp_lookup. destruct (event_idr p !! id) as [[e|]|] eqn:E; [|by simpl; wp_steps..].
    destruct (reg_idr _ (proj1 Hwf) _ _ E) as (Ev & He & _). rewrite He.
    by eapply wp_set_event_from_interrupt.
Qed.

(** The id belongs to an event. *)
Definition has_event (m : gmap Z (option eid)) (id : Z) : bool :=
  match m !! id with Some (Some _) => true | _ => false end.

(** Ids without an event are skipped. *)
Lemma st_walk_filter asleep ids p :
  ev_wf p -> is_Some (signal_page p) ->
  st_walk asleep ids p
  = st_walk asleep (filter (fun id => has_event (event_idr p) id = true) ids) p.
Proof.
  revert p. induction ids as [|id ids IH]; intros p Hwf Hp; [done|]. rewrite filter_cons.
  destruct (st_walk_id_keeps asleep p id Hwf Hp) as (H1 & H2 & H3). simpl.
  destruct (decide _) as [He|Hn]; simpl.
  - rewrite (IH _ H1 H2). by rewrite H3.
  - replace (st_walk_id asleep p id) with p; [by apply IH|].
    unfold st_walk_id. unfold has_event in Hn. by destruct (event_idr p !! id) as [[e|]|].
Qed.

Lemma sorted_lt_unique (l1 l2 : list Z) :
  StronglySorted Z.lt l1 -> StronglySorted Z.lt l2 -> (forall x, x ∈ l1 <-> x ∈ l2) -> l1 = l2.
Proof.
  intros H1 H2 Hx.
  assert (forall l, StronglySorted Z.lt l -> StronglySorted Z.le l /\ NoDup l) as Hw.
  { induction 1 as [|x l Hs [IH1 IH2] Hf]; [split; constructor|]. rewrite Forall_forall in Hf. split.
    - constructor; [done|]. apply Forall_forall. intros y Hy. specialize (Hf y Hy). lia.
    - constructor; [|done]. intros Hy. specialize (Hf x Hy). lia. }
  destruct (Hw l1 H1), (Hw l2 H2). apply (StronglySorted_unique Z.le); try done. by apply NoDup_Permutation.
Qed.

Lemma elem_slot_ids id : id ∈ slot_ids <-> 0 < id < KFD_SIGNAL_EVENT_LIMIT.
Proof.
  unfold slot_ids. rewrite list_elem_of_fmap. change (Z.to_nat KFD_SIGNAL_EVENT_LIMIT - 1)%nat with (Z.to_nat 4095).
  change KFD_SIGNAL_EVENT_LIMIT with 4096. split.
  - intros (n & -> & [? ?]%elem_of_seq). lia.
  - intros H. exists (Z.to_nat id). split; [lia|]. apply elem_of_seq. lia.
Qed.

Lemma seq_sorted (a n : nat) : StronglySorted Z.lt (Z.of_nat <$> seq a n).
Proof.
  revert a. induction n as [|n IH]; intros a; simpl; [constructor|]. constructor; [apply IH|].
  apply Forall_forall. intros y (m & -> & [? ?]%elem_of_seq)%list_elem_of_fmap. lia.
Qed.

(** The ids below the limit that have an event, in order: what both searches visit. *)
Lemma walk_ids_eq p :
  reg_ok p ->
  filter (fun id => has_event (event_idr p) id = true)
    (filter (fun id => id < KFD_SIGNAL_EVENT_LIMIT) (idr_ids (event_idr p)))
  = filter (fun id => has_event (event_idr p) id = true) slot_ids.
Proof.
  intros HR. apply sorted_lt_unique.
  - apply StronglySorted_filter, StronglySorted_filter, idr_ids_sorted.
  - apply StronglySorted_filter, seq_sorted.
  - intros id. rewrite !list_elem_of_filter, elem_slot_ids, elem_idr_ids. unfold has_event.
    destruct (event_idr p !! id) as [[e|]|] eqn:E; try naive_solver.
    pose proof (idr_nonneg p id e HR E). split; [tauto|]. intros [? [? ?]]. by split_and!; eauto.
Qed.

(** The event is signaled by a search over [ids]. *)
Definition hit (ids : list Z) (p : kfd_process) (E : kfd_event) : bool :=
  event_can_be_gpu_signaled E && slot_set p (event_id E) && bool_decide (event_id E ∈ ids).

(** The waiter is on the queue of such an event. *)
Definition woken (ids : list Z) (p : kfd_process) (w : wid) (W : kfd_event_waiter) : bool :=
  match w_event W with
  | Some e => match events p !! e with Some E => hit ids p E && bool_decide (w ∈ wq E) | None => false end
  | None => false
  end.

(** The slot belongs to such an event. *)
Definition acked (ids : list Z) (p : kfd_process) (id : Z) : bool :=
  match event_idr p !! id with
  | Some (Some e) => match events p !! e with Some E => hit ids p E | None => false end
  | _ => false
  end.

Record walked (asleep : wid -> bool) (ids : list Z) (p p' : kfd_process) : Prop := mkWalked {
  walked_event e E : events p !! e = Some E ->
    events p' !! e = Some (if hit ids p E then event_set asleep E else E);
  walked_dom e : events p !! e = None -> events p' !! e = None;
  walked_waiter w W : waiters p !! w = Some W ->
    waiters p' !! w = Some (if woken ids p w W then activate W else W);
  walked_slot id : 0 <= id -> page_slot p' id = if acked ids p id then Some UNSIGNALED_EVENT_SLOT else page_slot p id
}.

(** Two events never share an id. *)
Lemma event_id_inj p e1 E1 e2 E2 :
  reg_ok p -> events p !! e1 = Some E1 -> events p !! e2 = Some E2 -> event_id E1 = event_id E2 -> e1 = e2.
Proof.
  intros HR H1 H2 Hi. pose proof (reg_event _ HR _ _ H1). pose proof (reg_event _ HR _ _ H2). congruence.
Qed.

(** A waiter sits on the queue of its own event only. *)
Lemma queue_unique p w W e E :
  queue_ok p -> waiters p !! w = Some W -> events p !! e = Some E -> w ∈ wq E -> w_event W = Some e.
Proof. intros HQ HW He Hw. destruct (q_linked _ _ HQ _ _ _ He Hw) as (W' & ? & ?). congruence. Qed.

(** An id with nothing to do. *)
Lemma walked_skip asleep id ids p p' :
  reg_ok p -> (forall e E, events p !! e = Some E -> event_id E = id -> event_can_be_gpu_signaled E && slot_set p id = false) ->
  walked asleep ids p p' -> walked asleep (id :: ids) p p'.
Proof.
  intros HR Hno [].
  assert (forall e E, events p !! e = Some E -> hit (id :: ids) p E = hit ids p E) as Hh.
  { intros e E He. unfold hit. destruct (decide (event_id E = id)) as [Hi|Hi].
    - specialize (Hno e E He Hi). rewrite <- Hi in Hno. by rewrite Hno.
    - f_equal. apply bool_decide_ext. set_solver. }
  constructor.
  - intros e E He. rewrite (Hh e E He). auto.
  - done.
  - intros w W HW. rewrite (walked_waiter0 w W HW). unfold woken. destruct (w_event W) as [e|]; [|done].
    destruct (events p !! e) as [E|] eqn:He; [|done]. by rewrite (Hh e E He).
  - intros i Hi. rewrite (walked_slot0 i Hi). unfold acked. destruct (event_idr p !! i) as [[e|]|]; try done.
    destruct (events p !! e) as [E|] eqn:He; [|done]. by rewrite (Hh e E He).
Qed.

(** The step that signals the event [e]. *)
Lemma walked_signal asleep id ids p e E :
  ev_wf p -> id ∉ ids -> events p !! e = Some E -> event_id E = id ->
  event_can_be_gpu_signaled E = true -> slot_set p id = true ->
  forall p', walked asleep ids (st_interrupt asleep e E p) p' -> walked asleep (id :: ids) p p'.
Proof.
  intros Hwf Hid He Hi Ht Hs p'. destruct (signal_event_page p e E) as (pg & Hp & Hr); [apply Hwf|done|exact Ht|].
  set (p1 := st_interrupt asleep e E p). intros [He1 Hd1 Hw1 Hs1].
  assert (p1 = st_set_event asleep e E (st_slot id UNSIGNALED_EVENT_SLOT p)) as Ep1.
  { unfold p1, st_interrupt. by rewrite Ht, Hi. }
  assert (events p1 = <[e := event_set asleep E]> (events p)) as Hev by (rewrite Ep1; simpl; by rewrite st_slot_events).
  assert (event_idr p1 = event_idr p) as Hidr by apply st_interrupt_idr.
  assert (forall i, 0 <= i -> page_slot p1 i = if decide (i = id) then Some UNSIGNALED_EVENT_SLOT else page_slot p i) as Hsl.
  { intros i Hi'. rewrite Ep1. rewrite <- (page_slot_write p id UNSIGNALED_EVENT_SLOT pg i Hp) by lia. done. }
  assert (forall x X, x <> e -> events p !! x = Some X -> hit ids p1 X = hit (id :: ids) p X) as Hother.
  { intros x X Hx HX. assert (event_id X <> id) as Hne.
    { intros Hc. apply Hx. eapply event_id_inj; [apply Hwf|done|done|congruence]. }
    unfold hit. assert (slot_set p1 (event_id X) = slot_set p (event_id X)) as ->.
    { unfold slot_set. rewrite Hsl by (pose proof (idr_nonneg p _ _ (proj1 Hwf) (reg_event _ (proj1 Hwf) _ _ HX)); lia).
      by rewrite decide_False. }
    f_equal. apply bool_decide_ext. set_solver. }
  assert (hit (id :: ids) p E = true) as Hhit.
  { unfold hit. rewrite Ht, Hi, Hs. simpl. apply bool_decide_eq_true. set_solver. }
  assert (hit ids p1 (event_set asleep E) = false) as Hmiss.
  { unfold hit. simpl. rewrite Hi. rewrite (bool_decide_eq_false_2 (id ∈ ids)) by done. by rewrite andb_false_r. }
  constructor.
  - intros x X HX. destruct (decide (x = e)) as [->|Hx].
    + simplify_eq. rewrite Hhit. rewrite (He1 e (event_set asleep E)) by (rewrite Hev; apply lookup_insert_eq).
      by rewrite Hmiss.
    + rewrite <- (Hother x X Hx HX). apply He1. rewrite Hev. by rewrite lookup_insert_ne.
  - intros x Hx. apply Hd1. rewrite Hev, lookup_insert_ne; [done|]. congruence.
  - intros w W HW. assert (waiters p1 !! w = Some (if decide (w ∈ wq E) then activate W else W)) as HW1.
    { rewrite Ep1, st_set_event_waiter, st_slot_waiters, HW. by destruct (decide (w ∈ wq E)). }
    rewrite (Hw1 w _ HW1). unfold woken.
    destruct (decide (w ∈ wq E)) as [Hin|Hin]; simpl.
    + rewrite (queue_unique p w W e E (proj2 Hwf) HW He Hin). rewrite He, Hhit, bool_decide_eq_true_2 by done.
      simpl. rewrite Hev, lookup_insert_eq, Hmiss. done.
    + destruct (w_event W) as [x|] eqn:Hx; [|done]. rewrite Hev. destruct (decide (x = e)) as [->|Hne].
      * rewrite lookup_insert_eq, Hmiss, He. by rewrite (bool_decide_eq_false_2 (w ∈ wq E)), andb_false_r by done.
      * rewrite lookup_insert_ne by done. destruct (events p !! x) as [X|] eqn:HX; [|done]. by rewrite (Hother x X).
  - intros i Hi'. rewrite (Hs1 i Hi'), Hsl by done. unfold acked. rewrite Hidr. destruct (decide (i = id)) as [->|Hne].
    + assert (event_idr p !! id = Some (Some e)) as -> by (rewrite <- Hi; by apply (reg_event _ (proj1 Hwf))).
      by rewrite He, Hhit, Hev, lookup_insert_eq, Hmiss.
    + destruct (event_idr p !! i) as [[x|]|] eqn:Hx; try done.
      assert (x <> e) as Hxe. { intros ->. destruct (reg_idr _ (proj1 Hwf) _ _ Hx) as (? & ? & ?). congruence. }
      rewrite Hev, lookup_insert_ne by done. destruct (events p !! x) as [X|] eqn:HX; [|done]. by rewrite (Hother x X).
Qed.

Lemma st_walk_walked asleep ids p :
  NoDup ids -> ev_wf p -> is_Some (signal_page p) -> walked asleep ids p (st_walk asleep ids p).
Proof.
  intros Hn. revert p. induction Hn as [|id ids Hid Hn IH]; intros p Hwf Hp.
  - assert (forall E, hit [] p E = false) as Hh.
    { intros E. unfold hit. by rewrite (bool_decide_eq_false_2 (_ ∈ [])), andb_false_r by set_solver. }
    constructor; simpl.
    + intros e E He. by rewrite Hh.
    + done.
    + intros w W HW. unfold woken. destruct (w_event W) as [e|]; [|done]. destruct (events p !! e); [|done]. by rewrite Hh.
    + intros i _. unfold acked. destruct (event_idr p !! i) as [[e|]|]; try done. destruct (events p !! e); [|done]. by rewrite Hh.
  - simpl. destruct (st_walk_id_keeps asleep p id Hwf Hp) as (H1 & H2 & _). specialize (IH _ H1 H2).
    unfold st_walk_id in *. destruct (event_idr p !! id) as [[e|]|] eqn:Hi.
    2,3: apply walked_skip; [apply Hwf| |done]; intros x X HX Hx;
      pose proof (reg_event _ (proj1 Hwf) _ _ HX); congruence.
    destruct (reg_idr _ (proj1 Hwf) _ _ Hi) as (E & He & HE). rewrite He in *.
    destruct (event_can_be_gpu_signaled E && slot_set p id) eqn:Hb.
    + apply andb_true_iff in Hb as [Ht Hs]. rewrite Hs in *. by eapply walked_signal.
    + apply walked_skip; [apply Hwf| |].
      * intros x X HX Hx. assert (x = e) as -> by (eapply event_id_inj; [apply Hwf|done|done|congruence]). by simplify_eq.
      * apply andb_false_iff in Hb as [Hb|Hb]; [|by rewrite Hb in *].
        unfold st_interrupt in IH |- *. rewrite Hb in *. by destruct (slot_set p id).
Qed.

End Ops.
