(* ===== verification/KfdEventsOps.v ===== *)
(** * KFD events: the operations keep the invariant

    Creation, destruction, the signal page, signaling and the two halves of a wait
    are run from well-formed states; [ev_reachable] is what any sequence of them
    reaches. *)

From S2P Require Import Prelude KfdEvents KfdEventsInv.
From stdpp Require Import gmap list sorting.
From Stdlib Require Import ZArith Lia.

Local Open Scope Z_scope.
Local Open Scope st_scope.

(** ** Creation *)

(** A new event [E] linked under its id. *)
Definition st_add (e : eid) (E : kfd_event) (p : kfd_process) : kfd_process :=
  mkProcess (<[event_id E := Some e]> (event_idr p)) (<[e := E]> (events p)) (Pos.succ e) (waiters p)
    (next_waiter p) (signal_handle p) (signal_page p) (signal_mapped_size p)
    (if is_signal_type (ev_type E) then u64 (signal_event_count p + 1) else signal_event_count p)
    (signal_event_limit_reached p).

Lemma fresh_event p : reg_ok p -> events p !! next_event p = None.
Proof.
  intros HR. destruct (events p !! next_event p) as [E|] eqn:He; [|done].
  pose proof (reg_fresh _ HR _ _ He). lia.
Qed.

Lemma ev_wf_add E p :
  ev_wf p -> event_idr p !! event_id E = None -> id_ok p E -> wq E = [] -> ev_wf (st_add (next_event p) E p).
Proof.
  intros [HR HQ] Hid Hok Hwq. pose proof (fresh_event p HR) as Hf. set (e := next_event p) in *. split.
  - assert (nsig (st_add e E p) = sig_weight e E + nsig p) as Hn by (unfold nsig; simpl; by apply msum_insert).
    destruct HR. constructor; simpl.
    + rewrite lookup_insert_ne; [done|]. congruence.
    + intros id [[_ ?]|[_ ?]]%lookup_insert_Some; [done|auto].
    + intros id x [[<- [= <-]]|[Hne Hx]]%lookup_insert_Some.
      * exists E. by rewrite lookup_insert_eq.
      * destruct (reg_idr id x Hx) as (X & HX & ?). exists X. rewrite lookup_insert_ne; [done|]. congruence.
    + intros x X [[<- <-]|[Hne Hx]]%lookup_insert_Some; [by rewrite lookup_insert_eq|].
      rewrite lookup_insert_ne; [eauto|]. intros Hc. pose proof (reg_event _ _ Hx). congruence.
    + intros x X [[<- <-]|[Hne Hx]]%lookup_insert_Some; [done|]. by apply (reg_id x X).
    + done.
    + intros x X [[<- <-]|[Hne Hx]]%lookup_insert_Some; [lia|]. specialize (reg_fresh x X Hx). lia.
    + rewrite Hn. unfold sig_weight. destruct (is_signal_type (ev_type E)); rewrite reg_count; [|f_equal; lia].
      unfold wrap. rewrite Zplus_mod_idemp_l. f_equal. lia.
  - destruct HQ. constructor; simpl; try done.
    + intros x X [[<- <-]|[Hne Hx]]%lookup_insert_Some; [rewrite Hwq; constructor|eauto].
    + intros x X w [[<- <-]|[Hne Hx]]%lookup_insert_Some; [rewrite Hwq; set_solver|eauto].
    + intros w W x HW Hx. destruct (q_waits w W x HW Hx) as (X & HX & ?). exists X.
      rewrite lookup_insert_ne; [done|]. intros <-. congruence.
    + intros x X w W [[<- <-]|[Hne Hx]]%lookup_insert_Some; [rewrite Hwq; set_solver|eauto].
Qed.

(** A failed creation leaves an unused address. *)
Definition st_skip (p : kfd_process) : kfd_process :=
  mkProcess (event_idr p) (events p) (Pos.succ (next_event p)) (waiters p) (next_waiter p) (signal_handle p)
    (signal_page p) (signal_mapped_size p) (signal_event_count p) (signal_event_limit_reached p).

Lemma ev_wf_skip p : ev_wf p -> ev_wf (st_skip p).
Proof.
  intros [HR HQ]. split.
  - destruct HR. constructor; simpl; try done. intros e E He. specialize (reg_fresh e E He). lia.
  - by destruct HQ.
Qed.

Lemma ev_wf_limit b p : ev_wf p -> ev_wf (set_limit_reached b p).
Proof. intros [HR HQ]. split; [by destruct HR|by destruct HQ]. Qed.

(** A page where there was none; a mapped size within the page. *)
Lemma ev_wf_page pg size h p :
  ev_wf p -> (signal_page p = None \/ exists pg0, signal_page p = Some pg0 /\ length (slots pg0) = length (slots pg)) ->
  KFD_SIGNAL_EVENT_LIMIT <= Z.of_nat (length (slots pg)) < 2 ^ 30 ->
  8 <= size <= 8 * Z.of_nat (length (slots pg)) -> ev_wf (set_signal_page (Some pg) size h p).
Proof.
  intros [HR HQ] Hpg Hl Hs. split; [|by destruct HQ]. destruct HR. constructor; simpl; try done.
  intros e E He. specialize (reg_id e E He). unfold id_ok in *. simpl.
  destruct (is_signal_type (ev_type E)); [|done]. exists pg. split; [done|].
  destruct reg_id as (pg' & Hpg' & ?). destruct Hpg as [?|(pg0 & ? & Hlen)]; [congruence|].
  simplify_eq. lia.
Qed.

Lemma limit_replicate v : Z.of_nat (length (replicate (Z.to_nat KFD_SIGNAL_EVENT_LIMIT) (v : Z))) = KFD_SIGNAL_EVENT_LIMIT.
Proof. by rewrite length_replicate. Qed.

Section Create.
Context `{IdrSpec : IdrAllocSpec}.

Lemma wp_idr_alloc_event o start end_ Q p :
  0 <= start -> (forall id, id < 0 -> Q id p) ->
  (forall id, start <= id <= idr_max end_ -> event_idr p !! id = None ->
    Q id (set_event_idr (<[id := o]> (event_idr p)) p)) ->
  wp (idr_alloc_event o start end_) Q p.
Proof.
  intros Hs Hf Ht. unfold idr_alloc_event. wp_steps. pose proof (idr_alloc_unused (event_idr p) start end_ Hs) as Hu.
  set (id := idr_alloc (event_idr p) start end_) in *. destruct (Z.ltb_spec id 0) as [Hlt|Hge]; wp_steps; [by apply Hf|].
  destruct (Hu Hge). by apply Ht.
Qed.

(** [ensure_signal_page], which only touches the page. *)
Lemma wp_ensure_signal_page ok Q p :
  page_ok p ->
  (forall pg size, signal_page p = None \/ signal_page p = Some pg ->
     page_ok (set_signal_page (Some pg) size (signal_handle p) p) ->
     Q true (set_signal_page (Some pg) size (signal_handle p) p)) ->
  Q false p -> wp (ensure_signal_page ok) Q p.
Proof.
  intros Hok Ht Hf. unfold ensure_signal_page. wp_steps. destruct (signal_page p) as [pg|] eqn:Hp.
  - wp_steps. specialize (Ht pg (signal_mapped_size p) (or_intror eq_refl)).
    replace (set_signal_page (Some pg) (signal_mapped_size p) (signal_handle p) p) with p in Ht; [by apply Ht|].
    destruct p; simpl in *. by subst.
  - wp_steps. unfold allocate_signal_page. destruct (fst ok), (snd ok); cbn [negb]; wp_steps;
      [|by destruct p; simpl in *; subst..].
    apply (Ht _ (256 * 8)); [by left|]. unfold page_ok. cbn [slots signal_page set_signal_page signal_mapped_size].
    rewrite limit_replicate. by compute.
Qed.

(** What a creation promises. *)
Definition created (ty : Z) (auto : bool) (p : kfd_process) (r : Z * option create_out) (p' : kfd_process) : Prop :=
  waiters p' = waiters p /\
  match snd r with
  | None => fst r <> 0 /\ events p' = events p /\ event_idr p' = event_idr p
  | Some o =>
      fst r = 0 /\ exists e E, events p !! e = None /\ event_idr p !! event_id E = None /\
      events p' = <[e := E]> (events p) /\ event_idr p' = <[event_id E := Some e]> (event_idr p) /\
      ev_type E = ty /\ auto_reset E = auto /\ signaled E = false /\ event_age E = 1 /\ wq E = [] /\
      co_event_id o = event_id E /\ co_trigger_data o = event_id E /\
      (if is_signal_type ty
       then page_slot p' (event_id E) = Some UNSIGNALED_EVENT_SLOT /\
            co_slot_index o = Some (event_id E) /\ co_page_offset o = KFD_MMAP_TYPE_EVENTS
       else KFD_FIRST_NONSIGNAL_EVENT_ID <= event_id E)
  end.

Lemma u32_id id : 0 <= id < 2 ^ 31 -> u32 id = id.
Proof. intros. apply wrap_small. lia. Qed.

Lemma wp_create_other ty auto p :
  ev_wf p -> is_signal_type ty = false ->
  wp (e <- alloc_event ty auto false mem_exc_zero hw_exc_zero ;; r <- create_other_event e None ;; st_ret (e, r))
    (fun er p1 => fst er = next_event p /\
       ((snd er <> 0 /\ p1 = set_events (<[next_event p := mkEvent 0 0 false auto ty [] 0 mem_exc_zero hw_exc_zero]> (events p)) (st_skip p)) \/
        (snd er = 0 /\ exists id, event_idr p !! id = None /\ KFD_FIRST_NONSIGNAL_EVENT_ID <= id <= KFD_LAST_NONSIGNAL_EVENT_ID /\
          p1 = st_add (next_event p) (mkEvent id 0 false auto ty [] 0 mem_exc_zero hw_exc_zero) p))) p.
Proof.
  intros Hwf Hty. unfold alloc_event, create_other_event. wp_steps.
  change (s32 (u32 (KFD_LAST_NONSIGNAL_EVENT_ID + 1))) with (- 2 ^ 31). simpl.
  apply wp_idr_alloc_event; [by compute|..].
  - intros id Hlt. destruct (Z.ltb_spec id 0); [|lia]. wp_steps. split; [done|]. left. split; [simpl; lia|done].
  - intros id Hr Hn. change (idr_max (- 2 ^ 31)) with KFD_LAST_NONSIGNAL_EVENT_ID in Hr.
    change KFD_FIRST_NONSIGNAL_EVENT_ID with (2 ^ 30) in Hr |- *. change KFD_LAST_NONSIGNAL_EVENT_ID with (2 ^ 31 - 1) in Hr |- *.
    destruct (Z.ltb_spec id 0); [lia|].
    apply wp_bind. eapply wp_upd_event; [apply lookup_insert_eq|]. wp_steps. split; [done|]. right.
    split; [done|]. exists id. split_and!; [done|lia|lia|]. unfold st_add, set_events, set_event_idr. simpl.
    rewrite Hty, u32_id by lia. by rewrite insert_insert_eq.
Qed.

(** The state in which the slot of a new signal event is allocated. *)
Definition st_paged (pg : kfd_signal_page) (size : Z) (p : kfd_process) : kfd_process :=
  set_signal_page (Some pg) size (signal_handle p) p.

Lemma wp_create_signal ok ty auto p :
  ev_wf p -> is_signal_type ty = true ->
  wp (e <- alloc_event ty auto false mem_exc_zero hw_exc_zero ;; r <- create_signal_event ok e None ;; st_ret (e, r))
    (fun er p1 => fst er = next_event p /\
       ((snd er <> 0 /\ exists q, ev_wf q /\ events q = events p /\ event_idr q = event_idr p /\ waiters q = waiters p /\ next_event q = next_event p /\
           p1 = set_events (<[next_event p := mkEvent 0 0 false auto ty [] 0 mem_exc_zero hw_exc_zero]> (events p)) (st_skip q)) \/
        (snd er = 0 /\ exists pg size id addr, event_idr p !! id = None /\ 0 < id < Z.of_nat (length (slots pg)) /\
          ev_wf (st_paged pg size p) /\
          p1 = st_add (next_event p) (mkEvent id 0 false auto ty [] addr mem_exc_zero hw_exc_zero)
                 (st_slot id UNSIGNALED_EVENT_SLOT (st_paged pg size p))))) p.
Proof.
  intros Hwf Hty. unfold alloc_event, create_signal_event. wp_steps. simpl.
  destruct (negb _ && _); wp_steps.
  { split; [done|]. left. split; [done|]. exists (set_limit_reached true p). split_and!; try done. by apply ev_wf_limit. }
  unfold allocate_event_notification_slot. apply wp_bind, wp_ensure_signal_page.
  { exact (reg_page _ (proj1 Hwf)). }
  2: { simpl. wp_steps. split; [done|]. left. split; [done|]. by exists p. }
  simpl. intros pg size Hpg Hok.
  assert (ev_wf (st_paged pg size p)) as Hwfp.
  { unfold page_ok in Hok. cbn in Hok. apply ev_wf_page; [done| |lia|lia]. destruct Hpg as [?|?]; [by left|right; eauto]. }
  unfold page_ok in Hok. cbn [signal_page set_signal_page signal_mapped_size] in Hok. wp_steps. simpl.
  assert (0 < size / 8 <= Z.of_nat (length (slots pg))) as Hsz.
  { split; [apply Z.div_str_pos; lia|]. apply Z.div_le_upper_bound; lia. }
  rewrite (swrap_small 32 (size / 8)) by lia.
  apply wp_idr_alloc_event; [lia|..].
  - intros id Hlt. destruct (Z.ltb_spec id 0); [|lia]. wp_steps. destruct (Z.eqb_spec id 0); [lia|]. simpl. wp_steps.
    split; [done|]. left. split; [simpl; lia|]. by exists (st_paged pg size p).
  - intros id Hr Hn. unfold idr_max in Hr. simpl in Hn. destruct (Z.leb_spec (size / 8) 0); [lia|].
    assert (id <> 0) as Hid0. { intros ->. rewrite (reg_zero _ (proj1 Hwf)) in Hn. done. }
    destruct (Z.ltb_spec id 0); [lia|]. apply wp_bind. eapply wp_upd_event; [apply lookup_insert_eq|].
    apply wp_bind. eapply wp_slot_write; [done|lia|]. wp_steps. unfold st_slot. simpl. wp_steps.
    eapply wp_of_option; [done|]. wp_steps. eapply wp_upd_event; [apply lookup_insert_eq|]. wp_steps.
    split; [done|]. right. split; [done|]. exists pg, size, id. eexists. split_and!; [done|lia|lia|done|].
    unfold st_add, st_slot, st_paged, set_events, set_event_idr, set_signal_page. simpl.
    rewrite u32_id, Hty by lia. by rewrite !insert_insert_eq.
Qed.

(** A computation that starts by allocating an event, in the shape of the two
    lemmas above. *)
Lemma wp_alloc_create {B} ty auto (m : eid -> EM Z) (k : eid -> Z -> EM B) Q p :
  wp (e <- alloc_event ty auto false mem_exc_zero hw_exc_zero ;; r <- m e ;; st_ret (e, r))
    (fun er => wp (k (fst er) (snd er)) Q) p ->
  wp (e <- alloc_event ty auto false mem_exc_zero hw_exc_zero ;; r <- m e ;; k e r) Q p.
Proof.
  unfold wp, st_bind. destruct (alloc_event _ _ _ _ _ p) as [[e p1]|]; [|done]. by destruct (m e p1) as [[r p2]|].
Qed.

Lemma wp_create ok_ev ok ty auto p :
  ev_wf p -> wp (kfd_event_create ok_ev ok ty auto) (fun r p' => ev_wf p' /\ created ty auto p r p') p.
Proof.
  intros Hwf. pose proof (fresh_event p (proj1 Hwf)) as Hf. unfold kfd_event_create.
  destruct ok_ev; simpl; [|by wp_steps].
  assert (forall q E0, events q = events p -> delete (next_event p) (<[next_event p:=E0]> (events p)) = events q) as Hdel.
  { intros q E0 ->. by rewrite delete_insert_eq, delete_id. }
  apply (wp_alloc_create ty auto (fun e => if is_signal_type ty then create_signal_event ok e None else create_other_event e None)).
  assert (forall q r, r <> 0 -> ev_wf q -> events q = events p -> event_idr q = event_idr p -> waiters q = waiters p ->
    wp (kfree_event (next_event p) ;; st_ret (r, None : option create_out)) (fun r p' => ev_wf p' /\ created ty auto p r p')
      (set_events (<[next_event p := mkEvent 0 0 false auto ty [] 0 mem_exc_zero hw_exc_zero]> (events p)) (st_skip q))) as Hfail.
  { intros q r Hr Hq He Hi Hw. unfold kfree_event. wp_steps. simpl. rewrite (Hdel q) by done.
    split; [|by split_and!]. replace (set_events _ _) with (st_skip q) by done. by apply ev_wf_skip. }
  destruct (is_signal_type ty) eqn:Hty.
  - eapply wp_mono; [by apply wp_create_signal|].
    intros [e r] p1 [He [(Hr & q & Hq & ? & ? & ? & ? & ->)|(Hr & pg & size & id & addr & Hn & Hid & Hq & ->)]]; simpl in *; subst e.
    + destruct (Z.eqb_spec r 0); [done|]. by apply Hfail.
    + subst r. simpl. apply wp_bind. eapply wp_upd_event; [apply lookup_insert_eq|]. simpl.
      apply wp_bind. eapply wp_get_event; [apply lookup_insert_eq|]. wp_steps. simpl.
      set (E := mkEvent id 1 false auto ty [] addr mem_exc_zero hw_exc_zero).
      assert (page_slot (st_slot id UNSIGNALED_EVENT_SLOT (st_paged pg size p)) id = Some UNSIGNALED_EVENT_SLOT) as Hsl.
      { rewrite (page_slot_write _ _ _ pg) by (done || lia). by rewrite decide_True. }
      split; [|split; [done|]].
      * replace (set_events _ _) with (st_add (next_event p) E (st_slot id UNSIGNALED_EVENT_SLOT (st_paged pg size p))).
        2: { unfold st_add, set_events. simpl. by rewrite Hty, insert_insert_eq. }
        apply (ev_wf_add E (st_slot id UNSIGNALED_EVENT_SLOT (st_paged pg size p))); [by apply ev_wf_slot|done| |done].
        unfold id_ok. simpl. rewrite Hty. eexists. split; [done|]. simpl. by rewrite length_insert.
      * simpl. split; [done|]. exists (next_event p), E. rewrite insert_insert_eq. rewrite Hty. by split_and!.
  - eapply wp_mono; [by apply wp_create_other|].
    intros [e r] p1 [He [(Hr & ->)|(Hr & id & Hn & Hid & ->)]]; simpl in *; subst e.
    + destruct (Z.eqb_spec r 0); [done|]. by apply Hfail.
    + subst r. simpl. apply wp_bind. eapply wp_upd_event; [apply lookup_insert_eq|]. simpl.
      apply wp_bind. eapply wp_get_event; [apply lookup_insert_eq|]. wp_steps. simpl.
      set (E := mkEvent id 1 false auto ty [] 0 mem_exc_zero hw_exc_zero).
      split; [|split; [done|]].
      * replace (set_events _ _) with (st_add (next_event p) E p).
        2: { unfold st_add, set_events. simpl. by rewrite Hty, insert_insert_eq. }
        apply (ev_wf_add E p); [done|done| |done]. unfold id_ok. simpl. by rewrite Hty.
      * simpl. split; [done|]. exists (next_event p), E. rewrite insert_insert_eq, Hty. split_and!; (done || apply Hid).
Qed.
End Create.

(** ** Destruction *)

Definition orphan (W : kfd_event_waiter) : kfd_event_waiter := mkWaiter None (activated W) (event_age_enabled W).

(** The state after [destroy_event]. *)
Definition st_destroy (e : eid) (E : kfd_event) (p : kfd_process) : kfd_process :=
  mkProcess (delete (event_id E) (event_idr p)) (delete e (events p)) (next_event p)
    (upd_all orphan (wq E) (waiters p)) (next_waiter p) (signal_handle p) (signal_page p) (signal_mapped_size p)
    (if is_signal_type (ev_type E) then u64 (signal_event_count p - 1) else signal_event_count p)
    (signal_event_limit_reached p).

(** Every waiter that refers to the event is still on its queue. *)
Definition no_stale_waiter (p : kfd_process) (e : eid) (E : kfd_event) : Prop :=
  forall w W, waiters p !! w = Some W -> w_event W = Some e -> w ∈ wq E.

Lemma wp_destroy_event e E Q p :
  queue_ok p -> events p !! e = Some E -> Q tt (st_destroy e E p) -> wp (destroy_event e) Q p.
Proof.
  intros HQ He Hp. unfold destroy_event. apply wp_bind, (wp_get_event _ _ _ _ He).
  apply wp_bind, wp_for_waiters.
  { intros w Hw. destruct (q_linked _ _ HQ _ _ _ He Hw) as (W & -> & _). eauto. }
  apply wp_bind, wp_when; intros Hty; unfold kfree_event; wp_steps; unfold st_destroy in Hp; by rewrite Hty in Hp.
Qed.

Lemma st_destroy_waiter e E p w :
  waiters (st_destroy e E p) !! w = (if decide (w ∈ wq E) then orphan <$> waiters p !! w else waiters p !! w).
Proof. unfold st_destroy. simpl. by rewrite lookup_upd_all. Qed.

Lemma ev_wf_destroy e E p :
  ev_wf p -> events p !! e = Some E -> no_stale_waiter p e E -> ev_wf (st_destroy e E p).
Proof.
  intros [HR HQ] He Hst. split.
  - assert (nsig (st_destroy e E p) = nsig p - sig_weight e E) as Hn by (unfold nsig; simpl; by apply msum_delete).
    pose proof (event_id_inj p) as Hinj. destruct HR as [Hz Hnull Hidr Hev Hid Hpg Hfr Hc]. constructor; simpl.
    + rewrite lookup_delete_ne; [done|]. intros Hx. specialize (Hev e E He). rewrite Hx in Hev. congruence.
    + intros id [_ ?]%lookup_delete_Some. auto.
    + intros id x [Hne Hx]%lookup_delete_Some. destruct (Hidr id x Hx) as (X & HX & <-). exists X.
      rewrite lookup_delete_ne; [done|]. intros <-. congruence.
    + intros x X [Hne Hx]%lookup_delete_Some. rewrite lookup_delete_ne; [eauto|]. intros Hc'.
      pose proof (Hev x X Hx). pose proof (Hev e E He). congruence.
    + intros x X [Hne Hx]%lookup_delete_Some. by apply (Hid x X).
    + done.
    + intros x X [Hne Hx]%lookup_delete_Some. eauto.
    + rewrite Hn. unfold sig_weight. destruct (is_signal_type (ev_type E)); rewrite Hc; [|f_equal; lia].
      unfold wrap. rewrite Zminus_mod_idemp_l. f_equal. lia.
  - assert (forall w W', waiters (st_destroy e E p) !! w = Some W' ->
      (w ∈ wq E /\ w_event W' = None) \/ ((w ∉ wq E) /\ waiters p !! w = Some W')) as Hinv.
    { intros w W'. rewrite st_destroy_waiter. destruct (decide (w ∈ wq E)); [|by right].
      intros (W & _ & ->)%fmap_Some. by left. }
    assert (forall x X w, x <> e -> events p !! x = Some X -> w ∈ wq X -> w ∉ wq E) as Hdis.
    { intros x X w Hx HX Hw Hw'. destruct (q_linked _ _ HQ _ _ _ HX Hw) as (W1 & H1 & H2).
      destruct (q_linked _ _ HQ _ _ _ He Hw') as (W2 & H3 & H4). congruence. }
    destruct HQ as [Hnd Hl Hw Hs Hfr]. constructor; change (events (st_destroy e E p)) with (delete e (events p)).
    + intros x X [Hne Hx]%lookup_delete_Some. eauto.
    + intros x X w [Hne Hx]%lookup_delete_Some Hin. destruct (Hl x X w Hx Hin) as (W & HW & HWe).
      rewrite st_destroy_waiter, decide_False by eauto. eauto.
    + intros w W x HW Hx. destruct (Hinv w W HW) as [[_ Hc]|[Hni HW0]]; [congruence|].
      destruct (Hw w W x HW0 Hx) as (X & HX & Ha). exists X. split; [|done]. rewrite lookup_delete_ne; [done|].
      intros <-. eauto.
    + intros x X w W [Hne Hx]%lookup_delete_Some Hsg Hin HW.
      destruct (Hinv w W HW) as [[Hc _]|[_ HW0]]; [|eauto]. by destruct (Hdis x X w).
    + intros w W HW. simpl. rewrite st_destroy_waiter in HW. destruct (decide (w ∈ wq E)); [|eauto].
      apply fmap_Some in HW as (W0 & ? & _). eauto.
Qed.
