(* ===== verification/KfdEventsWait.v ===== *)
(** * KFD events: interrupts, exceptions, waits; the reachable states *)

From S2P Require Import Prelude KfdEvents KfdEventsInv KfdEventsOps.
From stdpp Require Import gmap list sorting.
From Stdlib Require Import ZArith Lia.

Local Open Scope Z_scope.
Local Open Scope st_scope.

(** ** Looking up a partial id *)

(** The slot is signaled and has an event. *)
Definition candidate (p : kfd_process) (id : Z) : bool := slot_set p id && has_event (event_idr p) id.

(** The first candidate among [id], [id + stride], ... below the limit. *)
Definition first_candidate (p : kfd_process) (id stride : Z) (r : option eid) : Prop :=
  match r with
  | Some e => exists k, 0 <= k /\ id + k * stride < KFD_SIGNAL_EVENT_LIMIT /\
      slot_set p (id + k * stride) = true /\ event_idr p !! (id + k * stride) = Some (Some e) /\
      (forall j, 0 <= j < k -> candidate p (id + j * stride) = false)
  | None => forall j, 0 <= j -> id + j * stride < KFD_SIGNAL_EVENT_LIMIT -> candidate p (id + j * stride) = false
  end.

Lemma first_candidate_next p id stride r :
  candidate p id = false -> first_candidate p (id + stride) stride r -> first_candidate p id stride r.
Proof.
  intros Hc. assert (forall j, id + stride + (j - 1) * stride = id + j * stride) as Hj by (intros; lia).
  destruct r as [e|]; simpl.
  - intros (k & Hk & Hlt & Hs & Hi & Hf). exists (k + 1). specialize (Hj (k + 1)). replace (k + 1 - 1) with k in Hj by lia.
    rewrite <- Hj. split_and!; [lia|done..|]. intros j Hjk. destruct (decide (j = 0)) as [->|].
    + by replace (id + 0 * stride) with id by lia.
    + replace (id + j * stride) with (id + stride + (j - 1) * stride) by lia. apply Hf. lia.
  - intros Hf j Hj0 Hlt. destruct (decide (j = 0)) as [->|].
    + by replace (id + 0 * stride) with id by lia.
    + replace (id + j * stride) with (id + stride + (j - 1) * stride) in * by lia. apply Hf; lia.
Qed.

Section Lookup.
Context `{Idr : IdrAlloc}.

Lemma wp_partial_loop fuel id stride Q p :
  ev_wf p -> is_Some (signal_page p) -> 0 <= id -> 1 <= stride <= KFD_SIGNAL_EVENT_LIMIT ->
  id <= 2 * KFD_SIGNAL_EVENT_LIMIT -> KFD_SIGNAL_EVENT_LIMIT - id < Z.of_nat fuel ->
  (0 < fuel)%nat ->
  (forall r, first_candidate p id stride r -> Q r p) -> wp (partial_id_loop fuel id stride) Q p.
Proof.
  intros Hwf Hp. change KFD_SIGNAL_EVENT_LIMIT with 4096. revert id Q.
  induction fuel as [|fuel IH]; intros id Q Hid Hst Hmax Hf Hpos HQ; [lia|]. simpl.
  destruct (Z.leb_spec KFD_SIGNAL_EVENT_LIMIT id) as [Hge|Hlt]; change KFD_SIGNAL_EVENT_LIMIT with 4096 in *.
  { wp_steps. apply HQ. simpl. change KFD_SIGNAL_EVENT_LIMIT with 4096. intros; nia. }
  assert (wp (partial_id_loop fuel (u32 (id + stride)) stride)
    (fun r p' => p' = p /\ first_candidate p (id + stride) stride r) p) as Hnext.
  { rewrite (wrap_small 32) by lia. apply IH; try lia. by intros r Hr. }
  destruct Hp as [pg Hp]. pose proof (reg_page _ (proj1 Hwf)) as Hpg. unfold page_ok in Hpg. rewrite Hp in Hpg.
  change KFD_SIGNAL_EVENT_LIMIT with 4096 in Hpg.
  apply wp_bind. eapply wp_slot_read; [done|lia|]. intros v Hv.
  assert (slot_set p id = negb (v =? UNSIGNALED_EVENT_SLOT)) as Hs by (unfold slot_set; by rewrite Hv).
  destruct (v =? UNSIGNALED_EVENT_SLOT) eqn:Hu; simpl in Hs.
  - eapply wp_mono; [exact Hnext|]. intros r p' [-> Hr]. apply HQ, first_candidate_next; [|done].
    unfold candidate. by rewrite Hs.
  - apply wp_bind, wp_lookup. destruct (event_idr p !! id) as [[e|]|] eqn:Hi.
    + wp_steps. apply HQ. exists 0. rewrite Z.mul_0_l, Z.add_0_r. split_and!; try done. lia.
    + eapply wp_mono; [exact Hnext|]. intros r p' [-> Hr]. apply HQ, first_candidate_next; [|done].
      unfold candidate, has_event. by rewrite Hi, andb_false_r.
    + eapply wp_mono; [exact Hnext|]. intros r p' [-> Hr]. apply HQ, first_candidate_next; [|done].
      unfold candidate, has_event. by rewrite Hi, andb_false_r.
Qed.

(** The stride of a partial id: a whole id is looked up alone. *)
Definition id_stride (bits : Z) : Z := if bits <=? 11 then 2 ^ bits else KFD_SIGNAL_EVENT_LIMIT.

Lemma wp_partial_id id bits Q p :
  ev_wf p -> 0 <= id -> 0 <= bits ->
  (forall r, (is_Some (signal_page p) -> first_candidate p id (id_stride bits) r) ->
    (signal_page p = None -> r = None) -> Q r p) ->
  wp (lookup_signaled_event_by_partial_id id bits) Q p.
Proof.
  intros Hwf Hid Hb HQ. unfold lookup_signaled_event_by_partial_id. wp_steps.
  destruct (signal_page p) as [pg|] eqn:Hp; [|wp_steps; apply HQ; [by intros []|done]].
  assert (is_Some (signal_page p)) as Hsp by eauto.
  pose proof (reg_page _ (proj1 Hwf)) as Hpg. unfold page_ok in Hpg. rewrite Hp in Hpg.
  destruct (Z.leb_spec KFD_SIGNAL_EVENT_LIMIT id) as [Hge|Hlt].
  { wp_steps. apply HQ; [|done]. intros _. simpl. unfold id_stride. intros j Hj Hc.
    destruct (Z.leb_spec bits 11); change KFD_SIGNAL_EVENT_LIMIT with 4096 in *; [|nia].
    assert (0 < 2 ^ bits) by (apply Z.pow_pos_nonneg; lia). nia. }
  rewrite Z.shiftl_1_l.
  assert ((31 <? bits) || (KFD_SIGNAL_EVENT_LIMIT <=? u32 (2 ^ bits)) = negb (bits <=? 11)) as ->.
  { destruct (Z.leb_spec bits 11).
    - assert (2 ^ bits <= 2 ^ 11) by (apply Z.pow_le_mono_r; lia). assert (0 < 2 ^ bits) by (apply Z.pow_pos_nonneg; lia).
      rewrite wrap_small by lia. simpl. apply orb_false_iff. change KFD_SIGNAL_EVENT_LIMIT with 4096. lia.
    - destruct (Z.ltb_spec 31 bits); [done|]. simpl. apply Z.leb_le.
      assert (2 ^ 12 <= 2 ^ bits) by (apply Z.pow_le_mono_r; lia). assert (2 ^ bits <= 2 ^ 31) by (apply Z.pow_le_mono_r; lia).
      rewrite wrap_small by lia. by change KFD_SIGNAL_EVENT_LIMIT with (2 ^ 12). }
  unfold id_stride in HQ. destruct (Z.leb_spec bits 11); cbn [negb].
  - assert (2 ^ bits <= 2 ^ 11) by (apply Z.pow_le_mono_r; lia). assert (0 < 2 ^ bits) by (apply Z.pow_pos_nonneg; lia).
    rewrite wrap_small by lia. change KFD_SIGNAL_EVENT_LIMIT with 4096 in *.
    apply wp_partial_loop; change KFD_SIGNAL_EVENT_LIMIT with 4096; try done; try lia. intros r Hr. by apply HQ.
  - change KFD_SIGNAL_EVENT_LIMIT with 4096 in *. apply wp_bind. eapply wp_slot_read; [done|lia|]. intros v Hv.
    assert (slot_set p id = negb (v =? UNSIGNALED_EVENT_SLOT)) as Hs by (unfold slot_set; by rewrite Hv).
    assert (forall b, candidate p id = b -> forall j, 0 <= j -> id + j * 4096 < 4096 -> candidate p (id + j * 4096) = b) as Hone.
    { intros b <- j Hj Hlt'. assert (j = 0) as -> by lia. f_equal. lia. }
    destruct (v =? UNSIGNALED_EVENT_SLOT); simpl in Hs.
    + wp_steps. apply HQ; [|done]. intros _. simpl. apply Hone. unfold candidate. by rewrite Hs.
    + apply wp_lookup. apply HQ; [|done]. intros _. destruct (event_idr p !! id) as [[e|]|] eqn:Hi; simpl.
      * exists 0. rewrite Z.mul_0_l, Z.add_0_r. change KFD_SIGNAL_EVENT_LIMIT with 4096. split_and!; try done. lia.
      * apply Hone. unfold candidate, has_event. by rewrite Hi, andb_false_r.
      * apply Hone. unfold candidate, has_event. by rewrite Hi, andb_false_r.
Qed.
End Lookup.

(** ** Interrupts *)

(** What [kfd_signal_event_interrupt] does to the process: the first event that
    matches the partial id, or every signaled event when there is none. *)
Definition interrupted (asleep : wid -> bool) (partial_id bits : Z) (p p' : kfd_process) : Prop :=
  match signal_page p with
  | None => p' = p
  | Some _ =>
      (exists e E, bits <> 0 /\ first_candidate p partial_id (id_stride bits) (Some e) /\ events p !! e = Some E /\
         p' = st_interrupt asleep e E p) \/
      ((bits = 0 \/ first_candidate p partial_id (id_stride bits) None) /\ p' = st_walk asleep slot_ids p)
  end.

Section Interrupt.
Context `{Idr : IdrAlloc}.

(** Both searches compute the same state. *)
Lemma idr_walk_slot_walk asleep p :
  ev_wf p -> is_Some (signal_page p) ->
  interrupt_idr_walk asleep p = Some (tt, st_walk asleep slot_ids p) /\
  interrupt_slot_walk asleep slot_ids p = Some (tt, st_walk asleep slot_ids p).
Proof.
  intros Hwf Hp. split.
  - unfold interrupt_idr_walk. unfold st_bind at 1, st_gets. rewrite idr_walk_run; [|done|done|].
    + do 2 f_equal. rewrite st_walk_filter by done. rewrite (st_walk_filter asleep slot_ids) by done.
      by rewrite walk_ids_eq by apply Hwf.
    + intros id [Hlt [o Hid]%elem_idr_ids]%list_elem_of_filter. split; [|done].
      destruct o as [e|]; [|by rewrite (reg_null _ (proj1 Hwf) id Hid)].
      pose proof (idr_nonneg p id e (proj1 Hwf) Hid). lia.
  - apply slot_walk_run; [done|done|]. intros id Hid%elem_slot_ids. lia.
Qed.

Lemma wp_interrupt asleep id bits p :
  ev_wf p -> 0 <= id -> 0 <= bits ->
  wp (kfd_signal_event_interrupt true asleep id bits) (fun _ p' => ev_wf p' /\ interrupted asleep id bits p p') p.
Proof.
  intros Hwf Hid Hb. unfold kfd_signal_event_interrupt. cbn [negb]. apply wp_bind.
  set (Q := fun ev => wp _ _).
  assert (forall r, (is_Some (signal_page p) -> bits <> 0 -> first_candidate p id (id_stride bits) r) ->
    (signal_page p = None \/ bits = 0 -> r = None) -> Q r p) as HQ.
  { intros r Hr Hnone. unfold Q, interrupted. destruct (signal_page p) as [pg|] eqn:Hp.
    - destruct r as [e|].
      + destruct (decide (bits = 0)) as [->|Hb0]; [by discriminate (Hnone (or_intror eq_refl))|].
        specialize (Hr ltac:(eauto) Hb0) as Hfc. destruct Hfc as (k & ? & ? & ? & Hi & ?).
        destruct (reg_idr _ (proj1 Hwf) _ _ Hi) as (E & He & _).
        apply (wp_set_event_from_interrupt _ _ E); [done|done|].
        split; [by apply ev_wf_interrupt|]. left. exists e, E. split_and!; [done|by apply Hr; eauto|done|done].
      + wp_steps. rewrite Hp. destruct (idr_walk_slot_walk asleep p Hwf ltac:(rewrite Hp; eauto)) as [H1 H2].
        destruct (st_walk_keeps asleep slot_ids p Hwf ltac:(rewrite Hp; eauto)) as (Hw & _).
        assert (bits = 0 \/ first_candidate p id (id_stride bits) None) as Hor.
        { destruct (decide (bits = 0)); [by left|right; apply Hr; eauto]. }
        destruct (_ <? _); unfold wp; [rewrite H1|rewrite H2]; (split; [done|right; done]).
    - rewrite (Hnone ltac:(by left)). wp_steps. rewrite Hp. by wp_steps. }
  destruct (Z.eqb_spec bits 0) as [->|Hb0].
  - wp_steps. apply HQ; [done|done].
  - apply wp_partial_id; [done..|]. intros r H1 H2. apply HQ; [by intros; apply H1|]. intros [?|?]; [auto|done].
Qed.
End Interrupt.

(** ** Exceptions *)

Section Exceptions.
Context `{Idr : IdrAlloc}.

(** Storing data in an event and signaling it. *)
Lemma wp_upd_set f asleep e E Q p :
  ev_wf p -> events p !! e = Some E -> same_reg E (f E) -> wq (f E) = wq E -> signaled (f E) = signaled E ->
  (forall p', ev_wf p' -> event_idr p' = event_idr p -> (exists E', events p' !! e = Some E' /\ ev_type E' = ev_type E) -> Q tt p') ->
  wp (upd_event e f ;; set_event asleep e) Q p.
Proof.
  intros Hwf He Hs Hq Hg HQ. apply wp_bind. eapply wp_upd_event; [done|].
  assert (ev_wf (set_events (<[e := f E]> (events p)) p)) as Hwf'.
  { eapply ev_wf_put; try done. by rewrite Hg. }
  assert (events (set_events (<[e := f E]> (events p)) p) !! e = Some (f E)) as He' by apply lookup_insert_eq.
  eapply wp_set_event; [apply Hwf'|exact He'|]. apply HQ; [by apply ev_wf_set|done|].
  exists (event_set asleep (f E)). unfold st_set_event. simpl. rewrite lookup_insert_eq. split; [done|apply Hs].
Qed.

Lemma wp_signal_exceptions asleep hw mem p :
  ev_wf p -> wp (signal_exceptions asleep hw mem) (fun _ => ev_wf) p.
Proof.
  intros Hwf. unfold signal_exceptions. wp_steps. apply wp_idr_for_each; [|done]. clear p Hwf. intros id e p Hwf Hi.
  destruct (reg_idr _ (proj1 Hwf) _ _ Hi) as (E & He & _). apply wp_bind, (wp_get_event _ _ _ _ He).
  assert (forall p', ev_wf p' -> (exists E', events p' !! e = Some E' /\ ev_type E' = ev_type E) ->
    wp (match mem with
        | Some d => st_when (ev_type E =? KFD_EVENT_TYPE_MEMORY) (upd_event e (set_mem_exc d) ;; set_event asleep e)
        | None => st_ret tt
        end) (fun _ => ev_wf) p') as Hmem.
  { intros p' Hp' (E' & He' & _). destruct mem as [d|]; [|by wp_steps]. apply wp_when; intros _; [|done].
    by apply (wp_upd_set _ _ _ E'). }
  apply wp_bind, wp_when; intros _; [|apply Hmem; eauto].
  apply (wp_upd_set _ _ _ E); try done. eauto.
Qed.

Lemma wp_vm_fault asleep gpu info data p :
  ev_wf p -> wp (kfd_signal_vm_fault_event asleep gpu info data) (fun _ => ev_wf) p.
Proof.
  intros Hwf. unfold kfd_signal_vm_fault_event. destruct (_ =? _); wp_steps; [done|].
  apply wp_idr_for_each; [|done]. clear p Hwf. intros id e p Hwf Hi.
  destruct (reg_idr _ (proj1 Hwf) _ _ Hi) as (E & He & _). apply wp_bind, (wp_get_event _ _ _ _ He).
  apply wp_when; intros _; [|done]. by apply (wp_upd_set _ _ _ E).
Qed.

Lemma wp_signal_by_type asleep type data ids found p :
  ev_wf p -> wp (signal_by_type_loop asleep type data ids found) (fun _ => ev_wf) p.
Proof.
  revert found p. induction ids as [|id ids IH]; intros found p Hwf; simpl; [by wp_steps|].
  apply wp_bind, wp_lookup. destruct (event_idr p !! id) as [[e|]|] eqn:Hi; [|by apply IH..].
  destruct (reg_idr _ (proj1 Hwf) _ _ Hi) as (E & He & _). apply wp_bind, (wp_get_event _ _ _ _ He).
  destruct (ev_type E =? type); [|by apply IH].
  apply wp_bind. eapply wp_set_event; [apply Hwf|done|].
  assert (ev_wf (st_set_event asleep e E p)) as Hwf' by by apply ev_wf_set.
  destruct data as [d|]; apply wp_bind; [|wp_steps; by apply IH]. apply wp_when; intros _; [|by apply IH].
  eapply wp_upd_event; [apply lookup_insert_eq|]. apply IH. by eapply ev_wf_put; [|apply lookup_insert_eq|..].
Qed.

Lemma wp_by_type_and_signal term asleep type data p :
  ev_wf p -> wp (lookup_events_by_type_and_signal term asleep type data) (fun _ => ev_wf) p.
Proof.
  intros Hwf. unfold lookup_events_by_type_and_signal. wp_steps.
  eapply wp_mono; [by apply wp_signal_by_type|]. intros found p' Hp'. by wp_steps.
Qed.

Lemma wp_reset_event_process ecc hang env p :
  ev_wf p -> wp (reset_event_process ecc hang env) (fun _ => ev_wf) p.
Proof.
  intros Hwf. unfold reset_event_process. destruct (_ =? - EINVAL); [by wp_steps|].
  destruct (re_pdd env) as [[h q]|]; [|by wp_steps]. destruct (_ && _ && _); [by wp_steps|].
  destruct (_ && _); [by wp_steps|]. by apply wp_signal_exceptions.
Qed.
End Exceptions.

(** ** The signal page *)

(** A buffer that holds a slot for every event id, as user mode allocates it. *)
Definition kmap_ok (env : kmap_env) : Prop :=
  KFD_SIGNAL_EVENT_LIMIT <= Z.of_nat (length (km_content env)) < 2 ^ 30 /\
  km_size env = 8 * Z.of_nat (length (km_content env)).

Lemma memset_slots_length mem mem' : memset_slots mem = Some mem' -> length mem' = length mem.
Proof.
  unfold memset_slots. generalize (Z.to_nat KFD_SIGNAL_EVENT_LIMIT). intros n.
  destruct (Nat.ltb_spec (length mem) n) as [|Hl]; [done|]. intros [= <-]. rewrite length_app, length_replicate, length_drop. lia.
Qed.

Section Page.
Context `{Idr : IdrAlloc}.

Lemma wp_kmap env off p :
  ev_wf p -> kmap_ok env -> wp (kfd_kmap_event_page env off) (fun _ => ev_wf) p.
Proof.
  intros Hwf [Hl Hs]. unfold kfd_kmap_event_page. wp_steps. destruct (signal_page p) as [pg|] eqn:Hp; [by wp_steps|].
  destruct (negb _); [by wp_steps|]. destruct (negb _); [by wp_steps|]. destruct (negb _); [by wp_steps|].
  destruct (negb _); [by wp_steps|]. apply wp_bind. unfold kfd_event_page_set. wp_steps. rewrite Hp.
  destruct (km_ok_page env); cbn [negb]; [|by wp_steps].
  destruct (memset_slots (km_content env)) as [mem|] eqn:Hm.
  - apply wp_bind. eapply wp_of_option; [done|]. wp_steps. apply memset_slots_length in Hm.
    apply ev_wf_page; [done|by left|..]; cbn [slots]; rewrite Hm; [done|].
    change KFD_SIGNAL_EVENT_LIMIT with 4096 in Hl. lia.
  - exfalso. unfold memset_slots in Hm. destruct (Nat.ltb_spec (length (km_content env)) (Z.to_nat KFD_SIGNAL_EVENT_LIMIT)); [|done].
    lia.
Qed.

Lemma get_order_le size : 0 < size < 2 ^ 64 -> get_order size <= 3 -> size <= 8 * KFD_SIGNAL_EVENT_LIMIT.
Proof.
  intros Hs. unfold get_order. rewrite wrap_small by lia. rewrite Z.shiftr_div_pow2 by done.
  change (2 ^ PAGE_SHIFT) with 4096. change (8 * KFD_SIGNAL_EVENT_LIMIT) with 32768.
  destruct (Z.eqb_spec ((size - 1) / 4096) 0) as [H0|H0]; intros Ho.
  - apply Z.div_small_iff in H0; lia.
  - assert ((size - 1) / 4096 < 2 ^ 3) as H8.
    { apply Z.log2_lt_pow2; [|lia]. pose proof (Z.div_pos (size - 1) 4096). lia. }
    pose proof (Z.div_mod (size - 1) 4096). pose proof (Z.mod_pos_bound (size - 1) 4096). lia.
Qed.

(** A VMA spans at least a page. *)
Definition vma_ok (vm_start vm_end : Z) : Prop := 0 <= vm_start /\ vm_start + 4096 <= vm_end < 2 ^ 64.

Lemma wp_mmap s e r p : ev_wf p -> vma_ok s e -> wp (kfd_event_mmap s e r) (fun _ => ev_wf) p.
Proof.
  intros Hwf [Hs He]. unfold kfd_event_mmap. change (get_order (KFD_SIGNAL_EVENT_LIMIT * 8)) with 3.
  rewrite wrap_small by lia. destruct (Z.ltb_spec 3 (get_order (e - s))) as [|Ho]; [by wp_steps|].
  pose proof (get_order_le (e - s) ltac:(lia) Ho) as Hsz. wp_steps.
  destruct (signal_page p) as [pg|] eqn:Hp; [|by wp_steps].
  pose proof (reg_page _ (proj1 Hwf)) as Hpg. unfold page_ok in Hpg. rewrite Hp in Hpg.
  destruct Hpg as [Hp1 Hp2].
  assert (ev_wf (set_signal_page (Some (mkPage (slots pg) s (need_to_free_pages pg))) (signal_mapped_size p) (signal_handle p) p)) as Hwf1.
  { apply ev_wf_page; [done|right; eauto|done|done]. }
  wp_steps. apply wp_when; intros Hr; wp_steps; [|done].
  apply (ev_wf_page (mkPage (slots pg) s (need_to_free_pages pg)) (e - s) (signal_handle p)
    (set_signal_page (Some (mkPage (slots pg) s (need_to_free_pages pg))) (signal_mapped_size p) (signal_handle p) p)).
  - done.
  - right. eauto.
  - done.
  - cbn [slots]. change KFD_SIGNAL_EVENT_LIMIT with 4096 in *. lia.
Qed.
End Page.

(** ** The halves of a wait *)

(** A waiter that refers to no event. *)
Lemma ev_wf_new_waiter p :
  ev_wf p ->
  ev_wf (mkProcess (event_idr p) (events p) (next_event p) (<[next_waiter p := mkWaiter None false false]> (waiters p))
    (Pos.succ (next_waiter p)) (signal_handle p) (signal_page p) (signal_mapped_size p) (signal_event_count p)
    (signal_event_limit_reached p)).
Proof.
  intros [HR HQ]. split; [by destruct HR|].
  assert (waiters p !! next_waiter p = None) as Hn.
  { destruct (waiters p !! next_waiter p) eqn:HW; [|done]. pose proof (q_fresh _ _ HQ _ _ HW). lia. }
  destruct HQ as [Hnd Hl Hw Hs Hf]. constructor; simpl; try done.
  - intros e E w He Hin. destruct (Hl e E w He Hin) as (W & HW & ?). exists W. rewrite lookup_insert_ne; [done|]. congruence.
  - intros w W e [[<- <-]|[? ?]]%lookup_insert_Some; [done|eauto].
  - intros e E w W He Hsg Hin [[<- <-]|[? ?]]%lookup_insert_Some; [|eauto].
    destruct (Hl e E _ He Hin) as (W & HW & ?). congruence.
  - intros w W [[<- <-]|[? HW]]%lookup_insert_Some; [lia|]. specialize (Hf w W HW). lia.
Qed.

(** The waiters [ws] are allocated, distinct, and the others are untouched. *)
Record allocated (ws : list wid) (p p' : kfd_process) : Prop := mkAllocated {
  al_nodup : NoDup ws;
  al_new w : w ∈ ws -> waiters p !! w = None /\ waiters p' !! w = Some (mkWaiter None false false);
  al_old w : w ∉ ws -> waiters p' !! w = waiters p !! w;
  al_events : events p' = events p;
  al_idr : event_idr p' = event_idr p
}.

Section Waits.
Context `{Idr : IdrAlloc}.

Lemma wp_alloc_waiters n p :
  ev_wf p -> wp (alloc_event_waiters n) (fun ws p' => ev_wf p' /\ length ws = n /\ allocated ws p p') p.
Proof.
  revert p. induction n as [|n IH]; intros p Hwf; simpl.
  - wp_steps. split_and!; [done|done|]. split; try done; [constructor|set_solver].
  - wp_steps. pose proof (ev_wf_new_waiter p Hwf) as Hwf1. set (p1 := mkProcess _ _ _ _ _ _ _ _ _ _) in *.
    assert (waiters p !! next_waiter p = None) as Hn.
    { destruct (waiters p !! next_waiter p) eqn:HW; [|done]. pose proof (q_fresh _ _ (proj2 Hwf) _ _ HW). lia. }
    eapply wp_mono; [by apply IH|]. intros ws p' (Hwf' & Hlen & [Hnd Hnew Hold He Hi]). wp_steps.
    assert (next_waiter p ∉ ws) as Hni.
    { intros Hin. destruct (Hnew _ Hin) as [Hc _]. simpl in Hc. by rewrite lookup_insert_eq in Hc. }
    split_and!; [done|simpl; by rewrite Hlen|]. split; try done.
    + by constructor.
    + intros w [->|Hw]%elem_of_cons.
      * split; [done|]. rewrite (Hold _ Hni). simpl. by rewrite lookup_insert_eq.
      * destruct (Hnew w Hw) as [H1 H2]. split; [|done]. simpl in H1. by rewrite lookup_insert_ne in H1 by congruence.
    + intros w [Hw1 Hw2]%not_elem_of_cons. rewrite (Hold w Hw2). simpl. by rewrite lookup_insert_ne.
Qed.

(** What [init_event_waiter] leaves: the waiter of a live event, queued unless it is
    activated at once. *)
Definition waits_for (p : kfd_process) (w : wid) (e : eid) : Prop :=
  exists W, waiters p !! w = Some W /\ w_event W = Some e.

Lemma ev_wf_init_waiter w e E act age sig p :
  ev_wf p -> waiters p !! w = Some (mkWaiter None false false) -> events p !! e = Some E ->
  (signaled E = true -> act = true) -> (sig = true -> signaled E = true) ->
  ev_wf (set_events (<[e := mkEvent (event_id E) (event_age E) sig (auto_reset E) (ev_type E)
            (if act then wq E else w :: wq E) (user_signal_address E) (memory_exception_data E) (hw_exception_data E)]> (events p))
          (set_waiters (<[w := mkWaiter (Some e) act age]> (waiters p)) p)).
Proof.
  intros [HR HQ] HW He Hact Hsig. split.
  { eapply (reg_ok_put (set_waiters _ p)); [by apply reg_ok_waiters|done|done]. }
  assert (forall x X, events p !! x = Some X -> w ∉ wq X) as Hni.
  { intros x X HX Hin. destruct (q_linked _ _ HQ _ _ _ HX Hin) as (W & ? & ?). simplify_eq. }
  destruct HQ as [Hnd Hl Hw Hs Hf]. constructor; simpl.
  - intros x X [[<- <-]|[Hne HX]]%lookup_insert_Some; [|eauto]. simpl. destruct act; [eauto|]. constructor; eauto.
  - intros x X v HX Hin. assert (v = w /\ x = e \/ v <> w /\ exists X0, events p !! x = Some X0 /\ v ∈ wq X0) as [[-> ->]|(Hv & X0 & HX0 & Hin0)].
    { apply lookup_insert_Some in HX as [[<- <-]|[Hne HX]]; simpl in Hin.
      - destruct (decide (v = w)); [by left|right]. split; [done|]. exists E. destruct act; set_solver.
      - right. split; [|eauto]. intros ->. by destruct (Hni x X). }
    + rewrite lookup_insert_eq. eauto.
    + rewrite lookup_insert_ne by done. eauto.
  - intros v V x [[<- <-]|[Hne HV]]%lookup_insert_Some; simpl.
    + intros [= <-]. rewrite lookup_insert_eq. eexists. split; [done|]. simpl. intros -> _. set_solver.
    + intros Hx. destruct (Hw v V x HV Hx) as (X & HX & Hq). destruct (decide (x = e)) as [->|].
      * rewrite lookup_insert_eq. eexists. split; [done|]. simpl. simplify_eq. destruct act; set_solver.
      * rewrite lookup_insert_ne by done. eauto.
  - intros x X v V [[<- <-]|[Hne HX]]%lookup_insert_Some Hsg Hin [[<- <-]|[Hne' HV]]%lookup_insert_Some; simpl in *.
    + destruct act; [done|]. by discriminate (Hact (Hsig Hsg)).
    + assert (v ∈ wq E) by (destruct act; set_solver). eauto.
    + by destruct (Hni x X).
    + eauto.
  - intros v V [[<- <-]|[Hne HV]]%lookup_insert_Some; eauto.
Qed.

Lemma wp_init_waiter w d p :
  ev_wf p -> waiters p !! w = Some (mkWaiter None false false) ->
  wp (init_event_waiter w d) (fun r p' => ev_wf p' /\ (forall v, v <> w -> waiters p' !! v = waiters p !! v) /\
    is_Some (waiters p' !! w) /\ event_idr p' = event_idr p /\ dom (events p') = dom (events p) /\
    (r = 0 -> exists e, event_idr p !! ed_event_id d = Some (Some e) /\ waits_for p' w e)) p.
Proof.
  intros Hwf HW. unfold init_event_waiter. apply wp_bind, wp_lookup.
  destruct (event_idr p !! ed_event_id d) as [[e|]|] eqn:Hi; [|by wp_steps; split_and!; eauto..].
  destruct (reg_idr _ (proj1 Hwf) _ _ Hi) as (E & He & _). apply wp_bind, (wp_get_event _ _ _ _ He). cbv zeta.
  apply wp_bind. eapply wp_upd_waiter; [done|]. unfold put_event. wp_steps. simpl. split_and!.
  - eapply ev_wf_init_waiter; try done; [by intros ->|]. by intros [? _]%andb_true_iff.
  - intros v Hv. by rewrite lookup_insert_ne.
  - rewrite lookup_insert_eq. eauto.
  - done.
  - rewrite dom_insert_lookup_L; [done|]. rewrite He. eauto.
  - intros _. exists e. split; [done|]. eexists. simpl. rewrite lookup_insert_eq. done.
Qed.

Lemma wp_init_waiters fault i ws data p :
  ev_wf p -> NoDup ws -> (forall w, w ∈ ws -> waiters p !! w = Some (mkWaiter None false false)) -> length ws = length data ->
  wp (init_waiters_loop fault i ws data) (fun r p' => ev_wf p' /\ (forall v, v ∉ ws -> waiters p' !! v = waiters p !! v) /\
    (forall w, w ∈ ws -> is_Some (waiters p' !! w)) /\ event_idr p' = event_idr p /\ dom (events p') = dom (events p) /\
    (r = 0 -> Forall2 (fun w d => exists e, event_idr p !! ed_event_id d = Some (Some e) /\ waits_for p' w e) ws data)) p.
Proof.
  intros Hwf Hnd. revert i data p Hwf. induction Hnd as [|w ws Hw Hnd IH]; intros i [|d data] p Hwf Hin Hlen; try done; simpl.
  - wp_steps. split_and!; try done. set_solver.
  - assert (forall w', w' ∈ w :: ws -> is_Some (waiters p !! w')) as Hsome by (intros w' Hw'; rewrite (Hin w' Hw'); eauto).
    destruct (fault i); [by wp_steps; split_and!|].
    apply wp_bind. eapply wp_mono; [apply wp_init_waiter; [done|apply Hin; set_solver]|].
    intros r p1 (Hwf1 & Hother & Hsw & Hidr & Hdom & Hr). destruct (Z.eqb_spec r 0) as [->|Hne]; cbn [negb].
    + eapply wp_mono; [apply IH; [done| |simpl in Hlen; lia]|].
      * intros v Hv. rewrite Hother; [apply Hin; set_solver|]. by intros ->.
      * intros r2 p2 (Hwf2 & Hother2 & Hs2 & Hidr2 & Hdom2 & Hr2). split_and!.
        -- done.
        -- intros v [Hv1 Hv2]%not_elem_of_cons. by rewrite Hother2, Hother.
        -- intros v [->|Hv]%elem_of_cons; [by rewrite Hother2|auto].
        -- congruence.
        -- congruence.
        -- intros ->. constructor.
           ++ destruct (Hr eq_refl) as (e & He & W & HW & HWe). exists e. split; [done|]. exists W. by rewrite Hother2.
           ++ rewrite <- Hidr. by apply Hr2.
    + wp_steps. split_and!; try done.
      * intros v [Hv1 Hv2]%not_elem_of_cons. by apply Hother.
      * intros v [->|Hv]%elem_of_cons; [done|]. rewrite Hother; [apply Hsome; set_solver|]. by intros ->.
Qed.

(** ** Freeing waiters *)

Lemma ev_wfx_weaken (X Y : wid -> Prop) p : (forall w, X w -> Y w) -> ev_wfx X p -> ev_wfx Y p.
Proof.
  intros HXY [HR HQ]. split; [done|]. destruct HQ as [Hnd Hl Hw Hs Hf]. constructor; try done.
  intros w W e HW He. destruct (Hw w W e HW He) as (E & HE & Hq). exists E. split; [done|]. auto.
Qed.

Lemma ev_wfx_unlink (X : wid -> Prop) w e E p :
  ev_wfx X p -> X w -> events p !! e = Some E -> ev_wfx X (set_events (<[e := unlink_waiter w E]> (events p)) p).
Proof.
  intros [HR HQ] HX He. split; [by eapply reg_ok_put|]. destruct HQ as [Hnd Hl Hw Hs Hf]. constructor; simpl.
  - intros x Y [[<- <-]|[Hne HY]]%lookup_insert_Some; [|eauto]. simpl. apply NoDup_filter. eauto.
  - intros x Y v [[<- <-]|[Hne HY]]%lookup_insert_Some; [|eauto]. simpl. rewrite elem_of_list_del. intros [_ ?]. eauto.
  - intros v V x HV Hx. destruct (Hw v V x HV Hx) as (Y & HY & Hq). destruct (decide (x = e)) as [->|].
    + rewrite lookup_insert_eq. eexists. split; [done|]. simpl. simplify_eq. rewrite elem_of_list_del.
      intros Ha Hnx. split; [|auto]. by intros ->.
    + rewrite lookup_insert_ne by done. eauto.
  - intros x Y v V [[<- <-]|[Hne HY]]%lookup_insert_Some; [|eauto]. simpl. rewrite elem_of_list_del. intros ? [_ ?]. eauto.
  - done.
Qed.

(** Events keep their identity, their queues only shrink. *)
Record shrunk (ws : list wid) (p p' : kfd_process) : Prop := mkShrunk {
  sh_event e E' : events p' !! e = Some E' ->
    exists E, events p !! e = Some E /\ same_reg E E' /\ auto_reset E' = auto_reset E /\
      (forall w, w ∈ wq E' -> w ∈ wq E) /\ (forall w, w ∈ ws -> w ∉ wq E');
  sh_dom : dom (events p') = dom (events p);
  sh_waiters : dom (waiters p') = dom (waiters p);
  sh_idr : event_idr p' = event_idr p
}.

Lemma shrunk_trans w ws p p1 p2 : shrunk [w] p p1 -> shrunk ws p1 p2 -> shrunk (w :: ws) p p2.
Proof.
  intros [H1 D1 W1 I1] [H2 D2 W2 I2]. constructor; try congruence.
  intros e E2 HE2. destruct (H2 e E2 HE2) as (E1 & HE1 & [Hi Ht] & Ha & Hs & Hn).
  destruct (H1 e E1 HE1) as (E & HE & [Hi' Ht'] & Ha' & Hs' & Hn'). exists E. split_and!; try congruence.
  - split; congruence.
  - auto.
  - intros v [->|Hv]%elem_of_cons; [|auto]. intros Hin. by apply (Hn' w); [set_solver|auto].
Qed.

Lemma st_set_event_shrunk asleep e E p w :
  events p !! e = Some E -> (forall x X, events p !! x = Some X -> w ∉ wq X) -> shrunk [w] p (st_set_event asleep e E p).
Proof.
  intros He Hw. constructor; simpl.
  - intros x X [[<- <-]|[Hne HX]]%lookup_insert_Some.
    + exists E. split_and!; try done; simpl.
      * intros v [_ ?]%elem_wake. done.
      * intros v ->%list_elem_of_singleton [_ Hin]%elem_wake. by apply (Hw e E).
    + exists X. split_and!; try done. intros v ->%list_elem_of_singleton. eauto.
  - apply dom_insert_lookup_L. eauto.
  - apply set_eq. intros v. rewrite !elem_of_dom.
    change (upd_all _ _ _ !! v) with (waiters (st_set_event asleep e E p) !! v).
    rewrite st_set_event_waiter. destruct (decide (v ∈ wq E)); [|done]. by rewrite fmap_is_Some.
  - done.
Qed.

Lemma wp_free_loop (X : wid -> Prop) asleep undo ws p :
  ev_wfx X p -> (forall w, w ∈ ws -> X w /\ is_Some (waiters p !! w)) ->
  wp (free_waiters_loop asleep undo ws) (fun _ p' => ev_wfx X p' /\ shrunk ws p p') p.
Proof.
  revert p. induction ws as [|w ws IH]; intros p Hwf Hin; simpl.
  { wp_steps. split; [done|]. constructor; try done. intros e E' HE'. exists E'. split_and!; try done. set_solver. }
  destruct (Hin w ltac:(set_solver)) as [HX [W HW]].
  apply wp_bind, (wp_get_waiter _ _ _ _ HW), wp_bind.
  assert (forall p1, ev_wfx X p1 -> shrunk [w] p p1 ->
    wp (free_waiters_loop asleep undo ws) (fun _ p' => ev_wfx X p' /\ shrunk (w :: ws) p p') p1) as Hrest.
  { intros p1 Hwf1 Hs1. eapply wp_mono; [apply IH; [done|]|].
    - intros v Hv. destruct (Hin v ltac:(set_solver)) as [? Hv']. split; [done|]. apply elem_of_dom.
      rewrite (sh_waiters _ _ _ Hs1). by apply elem_of_dom.
    - intros [] p2 [Hwf2 Hs2]. split; [done|]. by eapply shrunk_trans. }
  destruct (w_event W) as [e|] eqn:Hwe.
  - destruct (q_waits _ _ (proj2 Hwf) _ _ _ HW Hwe) as (E & He & _).
    apply wp_bind. eapply wp_upd_event; [done|].
    pose proof (ev_wfx_unlink X w e E p Hwf HX He) as Hwf1. set (p1 := set_events _ _) in *.
    assert (events p1 !! e = Some (unlink_waiter w E)) as He1 by apply lookup_insert_eq.
    assert (forall x Y, events p1 !! x = Some Y -> w ∉ wq Y) as Hni.
    { intros x Y HY Hin'. destruct (q_linked _ _ (proj2 Hwf1) _ _ _ HY Hin') as (W' & HW' & HWe').
      assert (x = e) as -> by (subst p1; simpl in HW'; congruence). rewrite He1 in HY. simplify_eq.
      simpl in Hin'. by apply elem_of_list_del in Hin' as [? _]. }
    assert (shrunk [w] p p1) as Hs1.
    { constructor; simpl; [| |done|done].
      - intros x Y HY. pose proof (Hni x Y HY) as Hno. apply lookup_insert_Some in HY as [[<- <-]|[Hne HY]].
        + exists E. split_and!; try done; simpl; [|by intros v ->%list_elem_of_singleton].
          intros v. rewrite elem_of_list_del. tauto.
        + exists Y. split_and!; try done. by intros v ->%list_elem_of_singleton.
      - apply dom_insert_lookup_L. eauto. }
    apply wp_bind, (wp_get_event _ _ _ _ He1). apply wp_when; intros _; [|by apply Hrest].
    eapply wp_set_event; [apply Hwf1|done|]. apply Hrest; [by apply ev_wf_set|].
    destruct (st_set_event_shrunk asleep e _ p1 w He1 Hni) as [A1 A2 A3 A4]. destruct Hs1 as [B1 B2 B3 B4].
    constructor; try congruence. intros x Y HY. destruct (A1 x Y HY) as (Y1 & HY1 & [? ?] & ? & ? & ?).
    destruct (B1 x Y1 HY1) as (Y2 & HY2 & [? ?] & ? & ? & ?). exists Y2. split_and!; try congruence; [|auto..].
    split; congruence.
  - wp_steps. apply Hrest; [done|]. constructor; try done. intros x Y HY. exists Y. split_and!; try done.
    intros v ->%list_elem_of_singleton Hc. destruct (q_linked _ _ (proj2 Hwf) _ _ _ HY Hc) as (? & ? & ?). congruence.
Qed.

Lemma lookup_foldr_del (ws : list wid) (m : gmap wid kfd_event_waiter) w :
  foldr delete m ws !! w = (if decide (w ∈ ws) then None else m !! w).
Proof.
  induction ws as [|x ws IH]; [by rewrite decide_False by set_solver|]. cbn [foldr].
  destruct (decide (w = x)) as [->|].
  - by rewrite lookup_delete_eq, decide_True by set_solver.
  - rewrite lookup_delete_ne, IH by done. destruct (decide (w ∈ ws)).
    + by rewrite decide_True by set_solver.
    + by rewrite decide_False by set_solver.
Qed.

(** The whole of [free_waiters]: the waiters are gone from the heap and from every
    queue. *)
Lemma wp_free_waiters asleep undo ws p :
  ev_wf p -> (forall w, w ∈ ws -> is_Some (waiters p !! w)) ->
  wp (free_waiters asleep undo ws) (fun _ p' => ev_wf p' /\ event_idr p' = event_idr p /\ dom (events p') = dom (events p) /\
    dom (waiters p') = dom (waiters p) ∖ list_to_set ws) p.
Proof.
  intros Hwf Hin. unfold free_waiters. apply wp_bind.
  eapply wp_mono; [apply (wp_free_loop (fun w => w ∈ ws)); [by eapply ev_wfx_weaken; [|done]|auto]|].
  intros [] p1 [[HR HQ] [Hev Hd Hw Hi]]. unfold kfree_waiters. wp_steps. simpl. split_and!; try done.
  - split; [by apply reg_ok_waiters|]. destruct HQ as [Qnd Ql Qw Qs Qf]. constructor; simpl.
    + done.
    + intros e E w He Hiw. destruct (Ql e E w He Hiw) as (W & HW & ?). exists W. split; [|done].
      rewrite lookup_foldr_del, decide_False; [done|]. intros Hws. destruct (Hev e E He) as (? & _ & _ & _ & _ & Hn). by apply (Hn w).
    + intros w W e. rewrite lookup_foldr_del. destruct (decide (w ∈ ws)); [done|]. intros HW He.
      destruct (Qw w W e HW He) as (E & HE & Hq). exists E. split; [done|]. auto.
    + intros e E w W He Hs Hiw. rewrite lookup_foldr_del. destruct (decide (w ∈ ws)); [done|]. eauto.
    + intros w W. rewrite lookup_foldr_del. destruct (decide (w ∈ ws)); [done|]. eauto.
  - rewrite <- Hw. apply set_eq. intros w. rewrite elem_of_difference, elem_of_list_to_set, !elem_of_dom, lookup_foldr_del.
    destruct (decide (w ∈ ws)); [|by tauto]. split; [by intros []|tauto].
Qed.
End Waits.
