(* ===== verification/KfdEventsReach.v ===== *)
(** * KFD events: the reachable states, and [kfd_wait_on_events] as a whole *)

From S2P Require Import Prelude KfdEvents KfdEventsInv KfdEventsOps KfdEventsWait.
From stdpp Require Import gmap list sorting.
From Stdlib Require Import ZArith Lia.

Local Open Scope Z_scope.
Local Open Scope st_scope.

(** What the callers of an operation guarantee: user mode and the device write
    inside the page, a buffer used as event page is large enough, a VMA spans a
    page, a task frees its own waiters, and no event is destroyed while a woken
    waiter still refers to it. *)
Definition op_ok (p : kfd_process) (op : ev_op) : Prop :=
  match op with
  | OpDestroy id => forall e E, event_idr p !! id = Some (Some e) -> events p !! e = Some E -> no_stale_waiter p e E
  | OpInterrupt _ _ id bits => 0 <= id /\ 0 <= bits
  | OpSlot id _ => exists pg, signal_page p = Some pg /\ 0 <= id < Z.of_nat (length (slots pg))
  | OpKmap env _ => kmap_ok env
  | OpMmap s e _ => vma_ok s e
  | OpWaitEnd _ _ _ ws => forall w, w ∈ ws -> is_Some (waiters p !! w)
  | _ => True
  end.

Section Reach.
Context `{IdrSpec : IdrAllocSpec}.

Lemma wp_wait_begin fault data p :
  ev_wf p ->
  wp (wait_begin fault data) (fun r p' => ev_wf p' /\ NoDup (snd r) /\ length (snd r) = length data /\
    (forall w, w ∈ snd r -> waiters p !! w = None /\ is_Some (waiters p' !! w)) /\
    dom (waiters p) ⊆ dom (waiters p') /\
    (fst r = 0 -> Forall2 (fun w d => exists e, event_idr p !! ed_event_id d = Some (Some e) /\ waits_for p' w e) (snd r) data)) p.
Proof.
  intros Hwf. unfold wait_begin. apply wp_bind. eapply wp_mono; [by apply wp_alloc_waiters|].
  intros ws p1 (Hwf1 & Hlen & [Hnd Hnew Hold He Hi]). apply wp_bind.
  eapply wp_mono; [apply wp_init_waiters; [done|done|apply Hnew|done]|].
  intros r p2 (Hwf2 & Hother & Hsome & Hidr & Hdom & Hr). wp_steps. simpl. split_and!; try done.
  - intros w Hw. split; [by apply Hnew|auto].
  - intros w [W HW]%elem_of_dom. apply elem_of_dom. destruct (decide (w ∈ ws)); [auto|].
    rewrite Hother, Hold by done. eauto.
  - by rewrite <- Hi.
Qed.

Lemma wp_out_unlock asleep ret wr ws p :
  ev_wf p -> (forall w, w ∈ ws -> is_Some (waiters p !! w)) ->
  wp (wait_out_unlock asleep ret wr ws) (fun r p' => ev_wf p' /\
    dom (waiters p') = dom (waiters p) ∖ list_to_set ws /\ event_idr p' = event_idr p /\
    r = (if negb (ret =? 0) then (ret, KFD_IOC_WAIT_RESULT_FAIL)
         else if wr =? KFD_IOC_WAIT_RESULT_FAIL then (- EIO, wr) else (ret, wr))) p.
Proof.
  intros Hwf Hin. unfold wait_out_unlock. apply wp_bind.
  eapply wp_mono; [by apply wp_free_waiters|]. intros [] p' (Hwf' & Hi & _ & Hw). wp_steps. done.
Qed.

Lemma wp_run_op op p : ev_wf p -> op_ok p op -> wp (run_op op) (fun _ => ev_wf) p.
Proof.
  intros Hwf Hop. destruct op; simpl in *.
  - apply wp_bind. eapply wp_mono; [by apply wp_create|]. intros r p' [? _]. by wp_steps.
  - apply wp_bind. unfold kfd_event_destroy. apply wp_bind, wp_lookup.
    destruct (event_idr p !! id) as [[e|]|] eqn:Hi; [|by wp_steps..].
    destruct (reg_idr _ (proj1 Hwf) _ _ Hi) as (E & He & _). apply wp_bind.
    apply (wp_destroy_event _ E); [apply Hwf|done|]. wp_steps. apply ev_wf_destroy; eauto.
  - apply wp_bind. unfold kfd_set_event. apply wp_bind, wp_lookup.
    destruct (event_idr p !! id) as [[e|]|] eqn:Hi; [|by wp_steps..].
    destruct (reg_idr _ (proj1 Hwf) _ _ Hi) as (E & He & _). apply wp_bind, (wp_get_event _ _ _ _ He).
    destruct (event_can_be_cpu_signaled E); [|by wp_steps]. apply wp_bind.
    eapply wp_set_event; [apply Hwf|done|]. wp_steps. by apply ev_wf_set.
  - apply wp_bind. unfold kfd_reset_event. apply wp_bind, wp_lookup.
    destruct (event_idr p !! id) as [[e|]|] eqn:Hi; [|by wp_steps..].
    destruct (reg_idr _ (proj1 Hwf) _ _ Hi) as (E & He & _). apply wp_bind, (wp_get_event _ _ _ _ He).
    destruct (event_can_be_cpu_signaled E); [|by wp_steps]. apply wp_bind.
    eapply wp_upd_event; [done|]. wp_steps. eapply ev_wf_put; [done|done|done|done|simpl; done].
  - destruct found; [|by wp_steps]. eapply wp_mono; [apply wp_interrupt; [done|apply Hop..]|]. by intros [] p' [? _].
  - destruct Hop as (pg & Hp & Hid). eapply wp_slot_write; [done|done|]. by apply ev_wf_slot.
  - apply wp_bind. eapply wp_mono; [by apply wp_kmap|]. intros r p' ?. by wp_steps.
  - apply wp_bind. eapply wp_mono; [by apply wp_mmap|]. intros r p' ?. by wp_steps.
  - apply wp_bind. unfold kfd_signal_hw_exception_event. destruct found; [|by wp_steps].
    eapply wp_mono; [by apply wp_by_type_and_signal|]. intros r p' ?. by wp_steps.
  - by apply wp_vm_fault.
  - by apply wp_reset_event_process.
  - apply wp_bind. unfold kfd_signal_poison_consumed_event. destruct found; [|by wp_steps].
    cbn [negb]. destruct (gpu =? - EINVAL); [by wp_steps|]. apply wp_bind.
    eapply wp_mono; [by apply wp_signal_exceptions|]. intros [] p' ?. by wp_steps.
  - apply wp_bind. eapply wp_mono; [by apply wp_wait_begin|]. intros [r ws] p' (Hwf' & _ & _ & Hws & _). simpl in *.
    destruct (r =? 0); [by wp_steps|]. apply wp_bind. eapply wp_mono; [apply wp_out_unlock; [done|by apply Hws]|].
    intros ? p'' (? & _). by wp_steps.
  - apply wp_bind. eapply wp_mono; [by apply wp_out_unlock|]. intros ? p' (? & _). by wp_steps.
Qed.

(** The states a process goes through. *)
Inductive ev_reachable : kfd_process -> Prop :=
| reach_init p : kfd_event_init_process process_zero = Some (0, p) -> ev_reachable p
| reach_step p op p' : ev_reachable p -> op_ok p op -> run_op op p = Some (tt, p') -> ev_reachable p'.

Lemma init_wf p : kfd_event_init_process process_zero = Some (0, p) -> ev_wf p.
Proof.
  intros Hi. assert (wp kfd_event_init_process (fun r p' => r = 0 -> ev_wf p') process_zero) as W.
  { unfold kfd_event_init_process. wp_steps. apply wp_idr_alloc_event; [done|..].
    - intros id Hlt. destruct (Z.ltb_spec id 0); [|lia]. wp_steps. intros ->. lia.
    - intros id Hr _. unfold idr_max in Hr. simpl in Hr. assert (id = 0) as -> by lia. simpl. wp_steps. intros _.
      split; [constructor; simpl|constructor; simpl]; try done.
      + intros id [[<- _]|[_ ?]]%lookup_insert_Some; done.
      + intros id e [[_ ?]|[_ ?]]%lookup_insert_Some; done. }
  unfold wp in W. rewrite Hi in W. by apply W.
Qed.

Lemma reachable_wf p : ev_reachable p -> ev_wf p.
Proof.
  induction 1 as [p Hi|p op p' _ IH Hop Hrun]; [by apply init_wf|].
  pose proof (wp_run_op op p IH Hop) as W. unfold wp in W. by rewrite Hrun in W.
Qed.
End Reach.

(** ** Operations that leave waiters allocated *)

Create HintDb keeps.

Definition waiters_kept (p p' : kfd_process) : Prop := dom (waiters p) ⊆ dom (waiters p').

Instance waiters_kept_preorder : PreOrder waiters_kept.
Proof. split; [intros p|intros p1 p2 p3]; unfold waiters_kept; set_solver. Qed.

(** The computation frees no waiter. *)
Abbreviation keeps := (respects waiters_kept).

Section Keeps.
Context `{Idr : IdrAlloc}.

Lemma keeps_upd_waiter w f : keeps (upd_waiter w f).
Proof.
  intros p b p'. unfold upd_waiter, get_waiter, st_bind, st_get, st_of_option. destruct (waiters p !! w); [|done].
  intros [= _ <-]. unfold waiters_kept. simpl. rewrite dom_insert_L. set_solver.
Qed.

Ltac keeps_step :=
  cbv beta; first
  [ assumption
  | lazymatch goal with
    | |- keeps (st_bind _ _) => apply (respects_bind waiters_kept); [|intros ?]
    | |- keeps (st_ret _) => apply (respects_ret waiters_kept)
    | |- keeps st_bug => apply respects_bug
    | |- keeps st_get => apply (respects_get waiters_kept)
    | |- keeps (st_gets _) => apply (respects_gets waiters_kept)
    | |- keeps (upd_waiter _ _) => apply keeps_upd_waiter
    | |- keeps (st_mod _) => apply respects_mod; intros ?; unfold waiters_kept; done
    | |- keeps (if ?c then _ else _) => destruct c
    | |- keeps (match ?x with _ => _ end) => destruct x
    | |- keeps (st_of_option ?o) => destruct o; simpl
    | |- keeps (st_when ?c _) => destruct c; simpl
    end ].
Ltac keeps_tac := repeat keeps_step.

Lemma keeps_for_waiters f ws : keeps (for_waiters ws f).
Proof. induction ws; simpl; keeps_tac. Qed.
Lemma keeps_upd_event e f : keeps (upd_event e f).
Proof. unfold upd_event, get_event, put_event. keeps_tac. Qed.
Lemma keeps_get_event e : keeps (get_event e).
Proof. unfold get_event. keeps_tac. Qed.
Lemma keeps_lookup id : keeps (lookup_event_by_id id).
Proof. unfold lookup_event_by_id. keeps_tac. Qed.
Lemma keeps_slot_read id : keeps (slot_read id).
Proof. unfold slot_read. keeps_tac. Qed.
Lemma keeps_slot_write id v : keeps (slot_write id v).
Proof. unfold slot_write. keeps_tac. Qed.

Lemma keeps_set_event asleep e : keeps (set_event asleep e).
Proof. unfold set_event, put_event. keeps_tac; [apply keeps_get_event|apply keeps_for_waiters]. Qed.
Lemma keeps_idr_alloc e s t : keeps (idr_alloc_event e s t).
Proof. unfold idr_alloc_event. keeps_tac. Qed.

Lemma keeps_idr_for_each ids body : (forall id e, keeps (body id e)) -> keeps (idr_for_each ids body).
Proof. intros Hb. induction ids; simpl; keeps_tac; [apply keeps_lookup|apply Hb]. Qed.

Hint Resolve keeps_for_waiters keeps_upd_event keeps_get_event keeps_lookup keeps_slot_read keeps_slot_write
  keeps_set_event keeps_idr_alloc : keeps.
Ltac keeps_auto := repeat (keeps_step || solve [auto with keeps]).

Lemma keeps_create ok_ev ok ty auto : keeps (kfd_event_create ok_ev ok ty auto).
Proof.
  unfold kfd_event_create, alloc_event, create_signal_event, create_other_event, allocate_event_notification_slot,
    ensure_signal_page, kfree_event.
  repeat (keeps_step || solve [eauto with keeps]).
Qed.

Lemma keeps_destroy_event e : keeps (destroy_event e).
Proof. unfold destroy_event, kfree_event. keeps_auto. Qed.

Lemma keeps_set_from_interrupt asleep ev : keeps (set_event_from_interrupt asleep ev).
Proof. unfold set_event_from_interrupt, acknowledge_signal. keeps_auto. Qed.

Lemma keeps_interrupt found asleep id bits : keeps (kfd_signal_event_interrupt found asleep id bits).
Proof.
  assert (forall ids, keeps (interrupt_slot_walk asleep ids)) as H1.
  { induction ids; simpl; keeps_auto. apply keeps_set_from_interrupt. }
  assert (forall fuel id stride, keeps (partial_id_loop fuel id stride)) as H2.
  { induction fuel; intros; simpl; keeps_auto; apply IHfuel. }
  unfold kfd_signal_event_interrupt, lookup_signaled_event_by_partial_id, interrupt_idr_walk.
  keeps_auto; try apply H2; try apply keeps_set_from_interrupt; try apply H1.
  apply keeps_idr_for_each. intros. unfold interrupt_body. keeps_auto. apply keeps_set_from_interrupt.
Qed.

Lemma keeps_exceptions asleep hw mem : keeps (signal_exceptions asleep hw mem).
Proof. unfold signal_exceptions. keeps_auto. apply keeps_idr_for_each. intros. keeps_auto. Qed.

Lemma keeps_signal_by_type asleep ty data ids found : keeps (signal_by_type_loop asleep ty data ids found).
Proof. revert found. induction ids; intros; simpl; keeps_auto; apply IHids. Qed.

(** Every operation but the end of another wait. *)
Lemma keeps_run_op op :
  match op with OpWaitBegin _ _ _ | OpWaitEnd _ _ _ _ => True | _ => keeps (run_op op) end.
Proof.
  destruct op; try done; simpl.
  - keeps_auto. apply keeps_create.
  - unfold kfd_event_destroy. keeps_auto. apply keeps_destroy_event.
  - unfold kfd_set_event. keeps_auto.
  - unfold kfd_reset_event, reset_event. keeps_auto.
  - apply keeps_interrupt.
  - auto with keeps.
  - unfold kfd_kmap_event_page, kfd_event_page_set. keeps_auto.
  - unfold kfd_event_mmap. keeps_auto.
  - unfold kfd_signal_hw_exception_event, lookup_events_by_type_and_signal. keeps_auto. apply keeps_signal_by_type.
  - unfold kfd_signal_vm_fault_event. keeps_auto. apply keeps_idr_for_each. intros. keeps_auto.
  - unfold reset_event_process. keeps_auto; apply keeps_exceptions.
  - unfold kfd_signal_poison_consumed_event. keeps_auto. apply keeps_exceptions.
Qed.
End Keeps.

(** ** Waiting *)

(** What [test_event_condition] reports of the waiters. *)
Definition waiter_is (p : kfd_process) (act : bool) (w : wid) : Prop :=
  exists W, waiters p !! w = Some W /\ is_Some (w_event W) /\ activated W = act.
Definition waiter_lost (p : kfd_process) (w : wid) : Prop :=
  exists W, waiters p !! w = Some W /\ w_event W = None.

Definition tested (all : bool) (ws : list wid) (p : kfd_process) (r : Z) : Prop :=
  (r = KFD_IOC_WAIT_RESULT_COMPLETE /\
     (if all then Forall (waiter_is p true) ws else ws = [] \/ Exists (waiter_is p true) ws)) \/
  (r = KFD_IOC_WAIT_RESULT_FAIL /\ Exists (waiter_lost p) ws) \/
  (r = KFD_IOC_WAIT_RESULT_TIMEOUT /\ ~ Exists (waiter_lost p) ws /\
     (if all then Exists (waiter_is p false) ws else Forall (waiter_is p false) ws)).

(** The other threads do not free the waiters [ws]. *)
Definition op_spares (ws : list wid) (op : ev_op) : Prop :=
  match op with OpWaitEnd _ _ _ ws' => forall w, w ∈ ws -> w ∉ ws' | _ => True end.

Section WaitWhole.
Context `{IdrSpec : IdrAllocSpec}.

(** The operations are allowed in the states they run in. *)
Fixpoint ops_ok (ws : list wid) (ops : list ev_op) (p : kfd_process) : Prop :=
  match ops with
  | [] => True
  | op :: ops => op_ok p op /\ op_spares ws op /\ forall p', run_op op p = Some (tt, p') -> ops_ok ws ops p'
  end.

(** The waiters [ws] are allocated. *)
Definition live (ws : list wid) (p : kfd_process) : Prop := forall w, w ∈ ws -> is_Some (waiters p !! w).

Lemma wp_run_op_live ws op p :
  ev_wf p -> op_ok p op -> op_spares ws op -> live ws p -> wp (run_op op) (fun _ p' => ev_wf p' /\ live ws p') p.
Proof.
  intros Hwf Hop Hsp Hl. pose proof (wp_run_op op p Hwf Hop) as W.
  assert (forall p', run_op op p = Some (tt, p') -> dom (waiters p) ⊆ dom (waiters p') -> live ws p') as Hdom.
  { intros p' _ Hd w Hw. apply elem_of_dom, Hd, elem_of_dom. auto. }
  unfold wp in W |- *. destruct (run_op op p) as [[[] p']|] eqn:Hr; [|done]. split; [done|].
  pose proof (keeps_run_op op) as Hk. destruct op; try (by apply (Hdom p'); [done|apply (Hk p tt p' Hr)]).
  - clear Hk. apply (Hdom p'); [done|].
    enough (wp (run_op (OpWaitBegin asleep fault data)) (fun _ q => dom (waiters p) ⊆ dom (waiters q)) p) as W'
      by (unfold wp in W'; by rewrite Hr in W').
    simpl. apply wp_bind. eapply wp_mono; [by apply wp_wait_begin|].
    intros [r ws'] p1 (Hwf1 & _ & _ & Hnew & Hsub & _). simpl in *. destruct (r =? 0); [by wp_steps|].
    apply wp_bind. eapply wp_mono; [apply wp_out_unlock; [done|by apply Hnew]|]. intros ? p2 (_ & Hd & _). wp_steps. rewrite Hd.
    intros w Hw. apply elem_of_difference. split; [by apply Hsub|]. rewrite elem_of_list_to_set. intros Hin.
    destruct (Hnew w Hin) as [Hn _]. apply elem_of_dom in Hw. rewrite Hn in Hw. by destruct Hw.
  - clear Hk. enough (wp (run_op (OpWaitEnd asleep ret wait_result ws0)) (fun _ q => live ws q) p) as W'
      by (unfold wp in W'; by rewrite Hr in W').
    simpl. apply wp_bind. eapply wp_mono; [by apply wp_out_unlock|]. intros ? p2 (_ & Hd & _). wp_steps.
    intros w Hw. apply elem_of_dom. rewrite Hd. apply elem_of_difference. split; [apply elem_of_dom; auto|].
    rewrite elem_of_list_to_set. by apply Hsp.
Qed.

Lemma wp_run_ops ws ops p :
  ev_wf p -> live ws p -> ops_ok ws ops p -> wp (run_ops ops) (fun _ p' => ev_wf p' /\ live ws p') p.
Proof.
  revert p. induction ops as [|op ops IH]; intros p Hwf Hl Hok; simpl; [by wp_steps|].
  destruct Hok as (Hop & Hsp & Hnext). pose proof (wp_run_op_live ws op p Hwf Hop Hsp Hl) as W. apply wp_bind.
  unfold wp at 1 in W. unfold wp at 1. destruct (run_op op p) as [[[] p']|] eqn:Hr; [|done]. destruct W. apply IH; auto.
Qed.

Lemma wp_test all ws p :
  live ws p -> wp (test_event_condition all ws) (fun r p' => p' = p /\ tested all ws p r) p.
Proof.
  intros Hl. unfold test_event_condition.
  assert (forall rest pre count, live rest p -> ws = pre ++ rest ->
    ~ Exists (waiter_lost p) pre ->
    (if all then 0 <= count <= Z.of_nat (length pre) /\
        (count = Z.of_nat (length pre) -> Forall (waiter_is p true) pre) /\
        (count <> Z.of_nat (length pre) -> Exists (waiter_is p false) pre)
     else count = 0 /\ Forall (waiter_is p false) pre) ->
    wp (test_event_loop all (Z.of_nat (length ws)) count rest) (fun r p' => p' = p /\ tested all ws p r) p) as Hloop.
  { induction rest as [|w rest IH]; intros pre count Hlr Hws Hnl Hc; simpl.
    - rewrite app_nil_r in Hws. subst pre. wp_steps. split; [done|]. destruct all.
      + destruct Hc as (Hr & Heq & Hne). destruct (Z.eqb_spec count (Z.of_nat (length ws))).
        * left. auto.
        * right. right. auto.
      + destruct Hc as [-> Hf]. destruct (Z.eqb_spec 0 (Z.of_nat (length ws))).
        * left. split; [done|]. left. destruct ws; [done|]. simpl in *. lia.
        * right. right. auto.
    - destruct (Hlr w ltac:(set_solver)) as [W HW]. apply wp_bind, (wp_get_waiter _ _ _ _ HW).
      assert (live rest p) as Hlr' by (intros v Hv; apply Hlr; set_solver).
      destruct (w_event W) as [e|] eqn:He.
      2: { wp_steps. split; [done|]. right. left. split; [done|]. subst ws. apply Exists_exists. exists w.
           split; [set_solver|]. by exists W. }
      assert (~ Exists (waiter_lost p) (pre ++ [w])) as Hnl'.
      { rewrite Exists_app. intros [?|Hx]; [done|]. apply Exists_cons in Hx as [(V & HV & ?)|Hx]; [congruence|].
        by apply Exists_nil in Hx. }
      assert (ws = (pre ++ [w]) ++ rest) as Hws' by (rewrite <- app_assoc; done).
      assert (forall b, activated W = b -> waiter_is p b w) as His by (intros b Hb; exists W; rewrite He; split_and!; eauto).
      assert (Z.of_nat (length (pre ++ [w])) = Z.of_nat (length pre) + 1) as Hlen by (rewrite length_app; simpl; lia).
      destruct (activated W) eqn:Ha; [destruct all; cbn [negb]|].
      + apply (IH (pre ++ [w])); try done. destruct Hc as (Hr & Heq & Hne). rewrite Hlen. split_and!; [lia|lia|..].
        * intros Hx. apply Forall_app. split; [apply Heq; lia|]. constructor; [by apply His|constructor].
        * intros Hx. apply Exists_app. left. apply Hne. lia.
      + wp_steps. split; [done|]. left. split; [done|]. right. apply Exists_exists. exists w. split; [subst ws; set_solver|auto].
      + apply (IH (pre ++ [w])); try done. destruct all.
        * destruct Hc as (Hr & Heq & Hne). rewrite Hlen. split_and!; [lia|lia|lia|]. intros _. apply Exists_app. right.
          constructor. by apply His.
        * destruct Hc as [-> Hf]. split; [done|]. apply Forall_app. split; [done|]. constructor; [by apply His|constructor]. }
  apply (Hloop ws []); try done.
  - by intros ?%Exists_nil.
  - destruct all; simpl; [|by split]. split_and!; [lia|lia|by constructor|lia].
Qed.

Lemma wp_copy_signaled fault i cur out ws p :
  ev_wf p -> live ws p -> (forall d src k, cur = Some (d, src, k) -> is_Some (events p !! src)) ->
  wp (copy_signaled_loop fault i cur out ws)
    (fun r p' => p' = p /\ (fst r = 0 \/ fst r = - EFAULT \/ fst r = - EINVAL /\ Exists (waiter_lost p) ws)) p.
Proof.
  intros Hwf. revert i cur out. induction ws as [|w ws IH]; intros i cur out Hl Hcur; simpl; [wp_steps; auto|].
  destruct (Hl w ltac:(set_solver)) as [W HW]. apply wp_bind, (wp_get_waiter _ _ _ _ HW).
  assert (live ws p) as Hl' by (intros v Hv; apply Hl; set_solver).
  assert (forall r (p' : kfd_process), p' = p /\ (fst r = 0 \/ fst r = - EFAULT \/ fst r = - EINVAL /\ Exists (waiter_lost p) ws) ->
    p' = p /\ (@fst Z (list (nat * user_data)) r = 0 \/ fst r = - EFAULT \/ fst r = - EINVAL /\ Exists (waiter_lost p) (w :: ws))) as Hw.
  { intros r p' [-> [?|[?|[? ?]]]]; split; [done|auto|done|auto|done|]. right. right. split; [done|]. by apply Exists_cons_tl. }
  destruct (w_event W) as [e|] eqn:He.
  - destruct (activated W); [|by eapply wp_mono; [apply IH|]].
    destruct (q_waits _ _ (proj2 Hwf) _ _ _ HW He) as (E & HE & _). apply wp_bind, (wp_get_event _ _ _ _ HE). cbv zeta.
    set (cur' := if _ =? _ then _ else _).
    assert (forall d src k, cur' = Some (d, src, k) -> is_Some (events p !! src)) as Hcur'.
    { subst cur'. intros d src k. destruct (_ =? _); [intros [= _ <- _]; eauto|].
      destruct (_ =? _); [intros [= _ <- _]; eauto|]. destruct (_ && _); [intros [= _ <- _]; eauto|eauto]. }
    destruct cur' as [[[d src] k]|] eqn:Hc; [|by eapply wp_mono; [apply IH|]].
    destruct (fault d); [by wp_steps; auto|].
    destruct (Hcur' d src k eq_refl) as [E' HE']. apply wp_bind, (wp_get_event _ _ _ _ HE').
    eapply wp_mono; [by apply IH|done].
  - wp_steps. split; [done|]. right. right. split; [done|]. constructor. by exists W.
Qed.

(** The operations of the rounds, and those that follow the loop wherever it is
    left, are allowed. *)
Fixpoint rounds_ok (ws : list wid) (late : list ev_op) (rounds : list wait_round) (p : kfd_process) : Prop :=
  ops_ok ws late p /\
  match rounds with
  | [] => True
  | r :: rounds => ops_ok ws (wr_others r) p /\
      forall p', run_ops (wr_others r) p = Some (tt, p') -> rounds_ok ws late rounds p'
  end.

Variable msecs_to_jiffies : Z -> Z.
Variable jiffies_to_msecs : Z -> Z.

Lemma rounds_ok_late ws late rounds p : rounds_ok ws late rounds p -> ops_ok ws late p.
Proof. destruct rounds; by intros [? ?]. Qed.

Lemma wp_wait_loop all ws ut start timeout wr late rounds p :
  ev_wf p -> live ws p -> rounds_ok ws late rounds p ->
  wp (wait_loop msecs_to_jiffies jiffies_to_msecs all ws ut start timeout wr rounds)
    (fun o p' => ev_wf p' /\ live ws p' /\ ops_ok ws late p' /\
       forall ret wr' ut', o = Some (ret, wr', ut') -> ret = 0 -> tested all ws p' wr') p.
Proof.
  revert timeout wr p. induction rounds as [|r rounds IH]; intros timeout wr p Hwf Hl Hok;
    pose proof (rounds_ok_late _ _ _ _ Hok) as Hlate; simpl.
  { wp_steps. split_and!; try done. }
  destruct (wr_fatal r); [wp_steps; split_and!; try done; by intros ? ? ? [= <- _ _]|].
  destruct (wr_signal r); [wp_steps; split_and!; try done; by intros ? ? ? [= <- _ _]|].
  apply wp_bind. eapply wp_mono; [by apply wp_test|]. intros res p0 [-> Ht].
  destruct (negb _); [wp_steps; split_and!; try done; by intros ? ? ? [= _ <- _]|].
  destruct (timeout <=? 0); [wp_steps; split_and!; try done; by intros ? ? ? [= _ <- _]|].
  destruct Hok as (_ & Hops & Hnext). apply wp_bind. pose proof (wp_run_ops ws _ p Hwf Hl Hops) as W.
  unfold wp at 1 in W. unfold wp at 1. destruct (run_ops (wr_others r) p) as [[[] p1]|] eqn:Hr; [|done].
  destruct W as [Hwf1 Hl1]. specialize (Hnext p1 eq_refl).
  destruct (_ || _); [|by apply IH]. pose proof (rounds_ok_late _ _ _ _ Hnext).
  wp_steps. split_and!; try done. by intros ? ? ? [= <- _ _].
Qed.

(** What a call of [kfd_wait_on_events] that returned promises of its waiters [ws]. *)
Definition wait_returned (all : bool) (ws : list wid) (r : wait_ret) (p' : kfd_process) : Prop :=
  (forall w, w ∈ ws -> waiters p' !! w = None) /\
  ((wt_ret r <> 0 /\ wt_result r = KFD_IOC_WAIT_RESULT_FAIL) \/
   (wt_ret r = 0 /\ wt_result r <> KFD_IOC_WAIT_RESULT_FAIL /\ exists q, ev_wf q /\ tested all ws q (wt_result r))).

(** The end of a call, from its last test on. *)
Lemma wp_wait_finish all asleep ret wr ws ut out q p :
  ev_wf p -> live ws p -> (ret = 0 -> ev_wf q /\ tested all ws q wr) ->
  wp (r <- wait_out_unlock asleep ret wr ws ;; st_ret (Some (mkWaitRet (fst r) (snd r) ut out)))
    (fun o p' => ev_wf p' /\ exists r, o = Some r /\ wait_returned all ws r p') p.
Proof.
  intros Hwf Hl Hq. apply wp_bind. eapply wp_mono; [by apply wp_out_unlock|].
  intros res p' (Hwf' & Hd & _ & ->). wp_steps. split; [done|]. eexists. split; [done|]. split.
  { intros w Hw. apply not_elem_of_dom. rewrite Hd. rewrite elem_of_difference, elem_of_list_to_set. tauto. }
  destruct (Z.eqb_spec ret 0) as [->|Hne]; cbn [negb]; [|by left].
  destruct (Z.eqb_spec wr KFD_IOC_WAIT_RESULT_FAIL) as [->|Hne]; simpl; [by left|]. right. split_and!; [done|done|].
  destruct (Hq eq_refl). eauto.
Qed.

Lemma wp_wait_copy all fault asleep ret wr ws ut q p :
  ev_wf p -> live ws p -> (ret = 0 -> ev_wf q /\ tested all ws q wr) -> ret = 0 ->
  wp (c <- copy_signaled_event_data fault ws ;;
      r <- wait_out_unlock asleep (fst c) wr ws ;; st_ret (Some (mkWaitRet (fst r) (snd r) ut (snd c))))
    (fun o p' => ev_wf p' /\ exists r, o = Some r /\ wait_returned all ws r p') p.
Proof.
  intros Hwf Hl Hq Hret. apply wp_bind. eapply wp_mono; [by apply wp_copy_signaled|].
  intros c p0 [-> _]. apply (wp_wait_finish all _ _ _ _ _ _ q); auto.
Qed.

Lemma wp_wait env data all ut p :
  ev_wf p ->
  (forall ws p1, wait_begin (we_fault_in env) data p = Some ((0, ws), p1) -> rounds_ok ws (we_late env) (we_rounds env) p1) ->
  wp (kfd_wait_on_events msecs_to_jiffies jiffies_to_msecs env data all ut)
    (fun o p' => ev_wf p' /\ forall r, o = Some r ->
       we_ok_alloc env = false \/
       exists r0 ws p1, wait_begin (we_fault_in env) data p = Some ((r0, ws), p1) /\ wait_returned all ws r p') p.
Proof.
  intros Hwf Hrounds. unfold kfd_wait_on_events. destruct (we_ok_alloc env); cbn [negb]; [|wp_steps; auto].
  apply wp_bind. pose proof (wp_wait_begin (we_fault_in env) data p Hwf) as W. unfold wp at 1 in W. unfold wp at 1.
  destruct (wait_begin _ _ p) as [[[r0 ws] p1]|] eqn:Hb; [|done]. destruct W as (Hwf1 & _ & _ & Hnew & _). simpl in *.
  assert (live ws p1) as Hl1 by (intros w Hw; by apply Hnew).
  assert (forall o p', (ev_wf p' /\ exists r, o = Some r /\ wait_returned all ws r p') ->
    ev_wf p' /\ forall r, o = Some r -> true = false \/
      exists r1 ws1 p2, Some (r0, ws, p1) = Some (r1, ws1, p2) /\ wait_returned all ws1 r p') as Hfin.
  { intros o p' (? & r & -> & ?). split; [done|]. intros ? [= <-]. right. eauto 10. }
  destruct (Z.eqb_spec r0 0) as [->|Hne]; cbn [negb].
  2: { eapply wp_mono; [by apply (wp_wait_finish all _ _ _ _ _ _ p1)|by apply Hfin]. }
  apply wp_bind. eapply wp_mono; [by apply wp_test|]. intros res q [-> Ht].
  destruct (Z.eqb_spec res KFD_IOC_WAIT_RESULT_COMPLETE) as [->|Hc].
  { eapply wp_mono; [by apply (wp_wait_copy all _ _ 0 _ _ _ p1)|by apply Hfin]. }
  destruct (Z.eqb_spec res KFD_IOC_WAIT_RESULT_FAIL) as [->|Hf].
  { eapply wp_mono; [by apply (wp_wait_finish all _ _ _ _ _ _ p1)|by apply Hfin]. }
  apply wp_bind. eapply wp_mono; [apply (wp_wait_loop _ _ _ _ _ _ (we_late env)); [done|done|by apply Hrounds]|].
  intros [[[ret wr] ut']|] p2 (Hwf2 & Hl2 & Hlate & Ht2); [|by wp_steps].
  apply wp_bind. eapply wp_mono; [by apply (wp_run_ops ws)|]. intros [] p3 [Hwf3 Hl3].
  assert (ret = 0 -> ev_wf p2 /\ tested all ws p2 wr) as Hq by (intros ->; split; [done|by apply (Ht2 0 wr ut')]).
  destruct ((ret =? 0) && (wr =? KFD_IOC_WAIT_RESULT_COMPLETE)) eqn:Hb2.
  - apply andb_true_iff in Hb2 as [->%Z.eqb_eq _]. eapply wp_mono; [by apply (wp_wait_copy all _ _ 0 _ _ _ p2)|by apply Hfin].
  - apply wp_bind, wp_ret. cbn [fst snd]. eapply wp_mono; [by apply (wp_wait_finish all _ _ _ _ _ _ p2)|by apply Hfin].
Qed.
End WaitWhole.
