(* ===== verification/KfdEventsProps.v ===== *)
(** * KFD events: the properties *)

From S2P Require Import Prelude KfdEvents KfdEventsInv KfdEventsOps KfdEventsWait KfdEventsReach.
From stdpp Require Import gmap list sorting.
From Stdlib Require Import ZArith Lia.

Local Open Scope Z_scope.
Local Open Scope st_scope.

(** ** An allocator of ids that takes the lowest free one *)

Fixpoint first_fit_scan (fuel : nat) (m : gmap Z (option eid)) (id max : Z) : Z :=
  match fuel with
  | O => - ENOSPC
  | S fuel =>
      if max <? id then - ENOSPC
      else match m !! id with None => id | Some _ => first_fit_scan fuel m (id + 1) max end
  end.

Definition first_fit : IdrAlloc := fun m start end_ => first_fit_scan (S (size m)) m start (idr_max end_).

Lemma first_fit_scan_unused fuel m id max :
  0 <= first_fit_scan fuel m id max ->
  id <= first_fit_scan fuel m id max <= max /\ m !! first_fit_scan fuel m id max = None.
Proof.
  revert id. induction fuel as [|fuel IH]; intros id; simpl; [done|].
  destruct (Z.ltb_spec max id); [done|]. destruct (m !! id) eqn:Hm; [|done].
  intros Hp. destruct (IH (id + 1) Hp). split; [lia|done].
Qed.

Lemma first_fit_scan_full fuel m id max :
  0 <= id -> first_fit_scan fuel m id max = - ENOSPC ->
  forall i, id <= i <= max -> i < id + Z.of_nat fuel -> is_Some (m !! i).
Proof.
  revert id. induction fuel as [|fuel IH]; intros id Hid; simpl; [intros; lia|].
  destruct (Z.ltb_spec max id); [intros; lia|]. destruct (m !! id) as [o|] eqn:Hm.
  - intros Hs i Hi Hlt. destruct (decide (i = id)) as [->|]; [eauto|]. apply (IH (id + 1)); try done; lia.
  - unfold ENOSPC. lia.
Qed.

Lemma first_fit_scan_ids fuel (m : gmap Z (option eid)) (id max : Z) :
  (forall i, id <= i < id + Z.of_nat fuel -> is_Some (m !! i)) -> (fuel <= size m)%nat.
Proof.
  intros Hall. assert ((list_to_set (seqZ id (Z.of_nat fuel)) : gset Z) ⊆ dom m) as Hsub.
  { intros i Hi. apply elem_of_list_to_set, elem_of_seqZ in Hi. by apply elem_of_dom, Hall. }
  apply subseteq_size in Hsub. rewrite size_list_to_set in Hsub by apply NoDup_seqZ.
  rewrite length_seqZ, Nat2Z.id in Hsub. by rewrite size_dom in Hsub.
Qed.

#[export] Instance first_fit_spec : IdrAllocSpec (H := first_fit).
Proof.
  constructor.
  - intros m start end_ Hs Hp. by apply first_fit_scan_unused.
  - intros m start end_ He Hs id Hid. unfold idr_alloc, first_fit in He.
    destruct (decide (id < start + Z.of_nat (S (size m)))) as [Hlt|Hge].
    + by eapply first_fit_scan_full.
    + exfalso. assert (S (size m) <= size m)%nat; [|lia]. apply (first_fit_scan_ids _ m start (idr_max end_)).
      intros i Hi. eapply first_fit_scan_full; [done|done|lia|lia].
Qed.

(** ** Concrete processes used below *)

Module Ex.
(** A process with an auto-reset signal event (id 1) and a memory event. *)
Definition run2 (m : EM unit) : option kfd_process :=
  match (kfd_event_init_process (Idr := first_fit) ;;
         kfd_event_create (Idr := first_fit) true (true, true) KFD_EVENT_TYPE_SIGNAL true ;;
         kfd_event_create (Idr := first_fit) true (true, true) KFD_EVENT_TYPE_MEMORY false ;; m) process_zero with
  | Some (_, p) => Some p
  | None => None
  end.
Definition proc : kfd_process := match run2 (st_ret tt) with Some p => p | None => process_zero end.
Definition all_asleep : wid -> bool := fun _ => true.
Definition mem_id : Z := KFD_FIRST_NONSIGNAL_EVENT_ID.
Definition hz250 (ms : Z) : Z := (ms + 3) / 4.
End Ex.

Lemma ex_proc_reachable : ev_reachable (H := first_fit) Ex.proc.
Proof.
  set (p0 := match kfd_event_init_process (Idr := first_fit) process_zero with Some (_, p) => p | None => process_zero end).
  assert (ev_reachable (H := first_fit) p0) as H0.
  { apply reach_init. vm_compute. reflexivity. }
  set (p1 := match run_op (Idr := first_fit) (OpCreate true (true, true) KFD_EVENT_TYPE_SIGNAL true) p0 with Some (_, p) => p | None => p0 end).
  assert (ev_reachable (H := first_fit) p1) as H1.
  { apply (reach_step p0 (OpCreate true (true, true) KFD_EVENT_TYPE_SIGNAL true)); [done|exact I|]. vm_compute. reflexivity. }
  apply (reach_step p1 (OpCreate true (true, true) KFD_EVENT_TYPE_MEMORY false)); [done|exact I|]. vm_compute. reflexivity.
Qed.

Lemma ex_proc_wf : ev_wf Ex.proc.
Proof. apply (reachable_wf (H := first_fit)). apply ex_proc_reachable. Qed.

Section Props.
Context `{IdrSpec : IdrAllocSpec}.

(** C25: in every state a process reaches by any sequence of operations its callers may
    issue ([op_ok]) - creation, destruction of events no woken waiter still refers to,
    signaling by the CPU, by interrupts and by exceptions, mapping the page, and waits
    of any number of threads - ids identify events, a signal event
    has its own slot inside the signal page, the counter of signal events is exact,
    a waiter that was not activated is queued on a live, unsignaled event (so no
    wake-up is lost), and no operation crashes. *)
Theorem ev_reachable_safe p :
  ev_reachable p ->
  (forall id e, event_idr p !! id = Some (Some e) <-> exists E, events p !! e = Some E /\ event_id E = id) /\
  (forall e E, events p !! e = Some E -> is_signal_type (ev_type E) = true ->
     exists pg, signal_page p = Some pg /\ 0 < event_id E < Z.of_nat (length (slots pg))) /\
  signal_event_count p = u64 (1 + nsig p) /\
  (forall w W e, waiters p !! w = Some W -> w_event W = Some e -> activated W = false ->
     exists E, events p !! e = Some E /\ w ∈ wq E /\ signaled E = false) /\
  (forall op, op_ok p op -> exists p', run_op op p = Some (tt, p')).
Proof.
  intros Hr. pose proof (reachable_wf p Hr) as Hwf. destruct Hwf as [HR HQ]. split_and!.
  - intros id e. split; [apply (reg_idr _ HR)|]. intros (E & He & <-). by apply (reg_event _ HR).
  - intros e E He Ht. by eapply signal_event_page.
  - by destruct HR.
  - intros w W e HW He Ha. destruct (q_waits _ _ HQ _ _ _ HW He) as (E & HE & Hq). exists E.
    specialize (Hq Ha ltac:(tauto)). split_and!; [done|done|]. destruct (signaled E) eqn:Hs; [|done].
    by rewrite (q_signaled _ _ HQ _ _ _ _ HE Hs Hq HW) in Ha.
  - intros op Hop. pose proof (wp_run_op op p (conj HR HQ) Hop) as W. apply wp_run in W as ([] & p' & ? & _). eauto.
Qed.

(** Creating an event succeeds with a fresh event of the type and mode asked for,
    unsignaled, with age 1 and no waiters, under an id no other event has (and, for
    a signal event, with its slot cleared and reported), or returns an error and
    leaves events and ids as they were. *)
Theorem kfd_event_create_correct ok_ev ok ty auto p :
  ev_reachable p ->
  exists r p', kfd_event_create ok_ev ok ty auto p = Some (r, p') /\ created ty auto p r p'.
Proof.
  intros Hr%reachable_wf. pose proof (wp_create ok_ev ok ty auto p Hr) as W.
  apply wp_run in W as (r & p' & ? & _ & ?). eauto.
Qed.

(** C26: the two exhaustive searches of an interrupt - over the id table and over the
    slots of the page - end in the same state, whichever the number of events
    selects. *)
Theorem interrupt_searches_agree asleep p :
  ev_reachable p -> is_Some (signal_page p) ->
  interrupt_idr_walk asleep p = interrupt_slot_walk asleep slot_ids p.
Proof. intros Hr%reachable_wf Hp. by destruct (idr_walk_slot_walk asleep p Hr Hp) as [-> ->]. Qed.


(** Setting a signal event from the CPU activates every waiter on its queue and
    advances its age; the event stays signaled exactly when it is not auto-reset or
    nobody was waiting. Other events and waiters do not change; another type of event
    or an unknown id is refused. *)
Theorem kfd_set_event_correct asleep id p :
  ev_reachable p ->
  exists r p', kfd_set_event asleep id p = Some (r, p') /\
  match event_idr p !! id with
  | Some (Some e) =>
      exists E, events p !! e = Some E /\
      if ev_type E =? KFD_EVENT_TYPE_SIGNAL then
        r = 0 /\
        (exists E', events p' = <[e := E']> (events p) /\ wq E' = filter (fun w => asleep w = false) (wq E) /\
           signaled E' = negb (auto_reset E) || bool_decide (wq E = []) /\
           (0 <= event_age E < 2 ^ 64 - 1 -> event_age E' = event_age E + 1)) /\
        (forall w W, waiters p !! w = Some W ->
           waiters p' !! w = Some (if decide (w ∈ wq E) then activate W else W))
      else r = - EINVAL /\ p' = p
  | _ => r = - EINVAL /\ p' = p
  end.
Proof.
  intros Hr%reachable_wf. unfold kfd_set_event.
  apply (wp_run _ (fun r p' => match event_idr p !! id with Some (Some e) => _ | _ => _ end)).
  apply wp_bind, wp_lookup. destruct (event_idr p !! id) as [[e|]|] eqn:Hi; [|by wp_steps..].
  destruct (reg_idr _ (proj1 Hr) _ _ Hi) as (E & He & _). apply wp_bind, (wp_get_event _ _ _ _ He).
  unfold event_can_be_cpu_signaled. destruct (ev_type E =? KFD_EVENT_TYPE_SIGNAL) eqn:Ht.
  - apply wp_bind. eapply wp_set_event; [apply Hr|done|]. wp_steps. exists E. rewrite Ht. split_and!; try done.
    + eexists. split; [done|]. simpl. split_and!; [done|by destruct (wq E)|].
      intros Hage. rewrite wrap_small by lia. destruct (Z.eqb_spec (event_age E + 1) 0); lia.
    + intros w W HW. rewrite st_set_event_waiter, HW. by destruct (decide (w ∈ wq E)).
  - wp_steps. exists E. by rewrite Ht.
Qed.


(** The sleeps of a wait with a limit add up to it before the rounds run out. A sleep
    returns early with [wr_left] of its time left, possibly all of it. *)
Fixpoint time_passes (poll timeout : Z) (rounds : list wait_round) : Prop :=
  match rounds with
  | [] => False
  | r :: rounds =>
      timeout <= 0 \/
      (0 <= wr_left r <= Z.min timeout poll /\ time_passes poll (timeout - (Z.min timeout poll - wr_left r)) rounds)
  end.

(** C28: waits end, as long as the other threads destroy no event under a woken waiter
    ([rounds_ok]): a wait without time limit by the first sleep that is over after its
    deadline; a wait with a limit as soon as the time it slept adds up to the limit,
    however often it is woken early. *)
Theorem wait_loop_terminates m2j j2m all ws ut start timeout wr rounds p :
  ev_wf p -> live ws p -> rounds_ok ws [] rounds p -> 0 <= timeout < 2 ^ 63 ->
  (if ut =? KFD_EVENT_TIMEOUT_INFINITE
   then Exists (fun r => time_after (wr_jiffies r) (u64 (start + m2j KFD_EVENT_INFINITE_TIMEOUT_MS)) = true) rounds
   else time_passes (s64 (m2j KFD_EVENT_RESET_POLL_MS)) timeout rounds) ->
  exists res p', wait_loop m2j j2m all ws ut start timeout wr rounds p = Some (Some res, p').
Proof.
  revert timeout wr p. induction rounds as [|r rounds IH]; intros timeout wr p Hwf Hl Hok Ht Hend.
  { destruct (ut =? _); [by apply Exists_nil in Hend|done]. }
  simpl. destruct (wr_fatal r); [eexists _, _; reflexivity|]. destruct (wr_signal r); [eexists _, _; reflexivity|].
  pose proof (wp_test all ws p Hl) as W. apply wp_run in W as (res & p0 & Htest & -> & _).
  rewrite (st_bind_run _ _ _ _ _ Htest). destruct (negb _); [eexists _, _; reflexivity|].
  destruct (Z.leb_spec timeout 0) as [|Hpos]; [eexists _, _; reflexivity|].
  destruct Hok as (_ & Hops & Hnext). pose proof (wp_run_ops ws _ p Hwf Hl Hops) as W.
  apply wp_run in W as ([] & p1 & Hrun & Hwf1 & Hl1). rewrite (st_bind_run _ _ _ _ _ Hrun).
  destruct (_ || _) eqn:Hstop; [eexists _, _; reflexivity|]. apply orb_false_iff in Hstop as [_ Hstop].
  destruct (ut =? KFD_EVENT_TIMEOUT_INFINITE).
  - simpl in Hstop. apply IH; auto. apply Exists_cons in Hend as [Hc|?]; [congruence|done].
  - destruct Hend as [?|[Hleft Hrest]]; [lia|].
    rewrite (swrap_small 64 (timeout - _)) by lia. apply IH; auto. lia.
Qed.

(** Two missing checks of the event page. A buffer too small for
    [KFD_SIGNAL_EVENT_LIMIT] slots is accepted and its initialisation writes past
    its end; and the signal of an event whose id is [KFD_SIGNAL_EVENT_LIMIT] or more,
    which a larger buffer allows, is never delivered by any interrupt. *)
Theorem event_page_size_bug :
  (forall env off p, signal_page p = None -> km_pdd_found env = true -> km_bind_err env = 0 -> km_bo_found env = true ->
     km_map_err env = 0 -> km_ok_page env = true -> Z.of_nat (length (km_content env)) < KFD_SIGNAL_EVENT_LIMIT ->
     kfd_kmap_event_page env off p = None) /\
  (forall p e E asleep partial_id bits p', ev_reachable p -> events p !! e = Some E ->
     KFD_SIGNAL_EVENT_LIMIT <= event_id E -> 0 <= partial_id -> 0 <= bits ->
     kfd_signal_event_interrupt true asleep partial_id bits p = Some (tt, p') -> events p' !! e = Some E).
Proof.
  split.
  - intros env off p Hp H1 H2 H3 H4 H5 Hl. unfold kfd_kmap_event_page. unfold st_bind at 1, st_gets. rewrite Hp, H1, H2, H3, H4.
    cbn [negb Z.eqb]. unfold kfd_event_page_set, st_bind, st_gets. rewrite Hp, H5. cbn [negb].
    unfold memset_slots. destruct (Nat.ltb_spec (length (km_content env)) (Z.to_nat KFD_SIGNAL_EVENT_LIMIT)); [done|lia].
  - intros p e E asleep partial_id bits p' Hr%reachable_wf He Hid Hpid Hb Hrun.
    pose proof (wp_interrupt asleep partial_id bits p Hr Hpid Hb) as W. unfold wp in W. rewrite Hrun in W.
    destruct W as [_ Hi]. unfold interrupted in Hi. destruct (signal_page p) as [pg|] eqn:Hp; [|by subst].
    destruct Hi as [(x & X & _ & (k & _ & Hlt & _ & Hx & _) & HX & ->)|[_ ->]].
    + destruct (reg_idr _ (proj1 Hr) _ _ Hx) as (X' & HX' & HidX). assert (X' = X) as -> by congruence.
      unfold st_interrupt. destruct (event_can_be_gpu_signaled X); [|done]. simpl.
      rewrite st_slot_events, lookup_insert_ne; [done|]. intros ->. simplify_eq. lia.
    + assert (walked asleep slot_ids p (st_walk asleep slot_ids p)) as Hw.
      { apply st_walk_walked; [apply NoDup_fmap_2; [apply _|apply NoDup_seq]|done|by rewrite Hp; eauto]. }
      rewrite (walked_event _ _ _ _ Hw e E He). unfold hit.
      rewrite (bool_decide_eq_false_2 (event_id E ∈ slot_ids)), andb_false_r; [done|]. rewrite elem_slot_ids. lia.
Qed.

(** Restoring a checkpoint trusts the event id it contains: for a signal event
    with an id past the end of the signal page, restoring writes outside the page. *)
Theorem criu_restore_slot_bug env priv off max pg p :
  reg_ok p -> signal_page p = Some pg -> signal_event_count p <> signal_mapped_size p / 8 ->
  rs_ok_priv env = true -> rs_ok_ev env = true -> rs_fault env = false -> u64 (off + sizeof_priv) <= max ->
  pv_user_handle priv = 0 -> pv_type priv = KFD_EVENT_TYPE_SIGNAL ->
  Z.of_nat (length (slots pg)) <= pv_event_id priv < 2 ^ 31 - 1 ->
  0 <= idr_alloc (event_idr p) (pv_event_id priv) (pv_event_id priv + 1) ->
  kfd_criu_restore_event env priv off max p = None.
Proof.
  intros HR Hp Hc H1 H2 H3 Hmax Hh Ht Hid Hal. unfold kfd_criu_restore_event. rewrite H1, H2, H3, Hh, Ht.
  destruct (Z.ltb_spec max (u64 (off + sizeof_priv))); [lia|]. cbn [negb Z.eqb].
  unfold alloc_event, create_signal_event, allocate_event_notification_slot, ensure_signal_page, idr_alloc_event.
  unfold st_bind, st_gets, st_get, st_mod, st_ret. simpl. rewrite Hp. simpl.
  destruct (Z.eqb_spec (signal_event_count p) (signal_mapped_size p / 8)); [done|]. rewrite andb_false_r. simpl. rewrite ?Hp.
  rewrite !(swrap_small 32 (pv_event_id priv)) by lia. rewrite (swrap_small 32 (pv_event_id priv + 1)) by lia.
  set (id := idr_alloc (event_idr p) (pv_event_id priv) (pv_event_id priv + 1)) in *.
  destruct (idr_alloc_unused (event_idr p) (pv_event_id priv) (pv_event_id priv + 1)) as [Hr _]; [lia|done|].
  fold id in Hr. unfold idr_max in Hr. destruct (Z.leb_spec (pv_event_id priv + 1) 0); [lia|].
  destruct (Z.ltb_spec id 0); [lia|]. destruct (Z.ltb_spec id 0); [lia|].
  unfold upd_event, get_event, put_event, slot_write, st_bind, st_gets, st_get, st_mod, st_of_option. simpl.
  rewrite lookup_insert_eq. unfold st_ret. simpl. rewrite ?Hp.
  destruct (Z.ltb_spec id 0); [lia|]. destruct (Z.leb_spec (Z.of_nat (length (slots pg))) id); [done|lia].
Qed.
End Props.

Lemma ev_reachable_safe_witness :
  exists p', run_op (Idr := first_fit) (OpSet Ex.all_asleep 1) Ex.proc = Some (tt, p').
Proof. apply (ev_reachable_safe Ex.proc ex_proc_reachable). exact I. Defined.

Lemma kfd_event_create_correct_witness :
  exists r p', kfd_event_create (Idr := first_fit) true (true, true) KFD_EVENT_TYPE_SIGNAL false Ex.proc = Some (r, p') /\
    created KFD_EVENT_TYPE_SIGNAL false Ex.proc r p'.
Proof. exact (kfd_event_create_correct true (true, true) KFD_EVENT_TYPE_SIGNAL false Ex.proc ex_proc_reachable). Defined.

Lemma interrupt_searches_agree_witness :
  interrupt_idr_walk Ex.all_asleep Ex.proc
  = interrupt_slot_walk Ex.all_asleep slot_ids Ex.proc.
Proof.
  apply (interrupt_searches_agree Ex.all_asleep Ex.proc ex_proc_reachable). vm_compute. eexists. reflexivity.
Defined.


Lemma kfd_set_event_correct_witness :
  exists r p', kfd_set_event Ex.all_asleep 1 Ex.proc = Some (r, p').
Proof.
  destruct (kfd_set_event_correct Ex.all_asleep 1 Ex.proc ex_proc_reachable) as (r & p' & H & _).
  exists r, p'. exact H.
Defined.

Module Ex2.
Definition no_fault : nat -> bool := fun _ => false.
(** An unbounded wait; the event is set during the sleep that ends just after the
    deadline of 30 s (7500 jiffies). *)
Definition late_round : wait_round := mkRound false false [OpSet Ex.all_asleep 1] 0 7501 [false].
Definition env (rounds : list wait_round) : wait_env := mkWaitEnv true no_fault no_fault 0 rounds [] Ex.all_asleep.
Definition wait (rounds : list wait_round) (timeout : Z) : EM (option wait_ret) :=
  kfd_wait_on_events (Idr := first_fit) Ex.hz250 Ex.hz250 (env rounds) [mkEventData 1 0] false timeout.
(** The event in the middle of a wait. *)
Definition waiting : kfd_process :=
  match run_op (Idr := first_fit) (OpWaitBegin Ex.all_asleep no_fault [mkEventData 1 0]) Ex.proc with
  | Some (_, p) => p
  | None => Ex.proc
  end.
End Ex2.

Lemma late_round_ok ws p : rounds_ok (H := first_fit) ws [] [Ex2.late_round] p.
Proof. repeat split. Qed.


Lemma ex_waiting_reachable : ev_reachable (H := first_fit) Ex2.waiting.
Proof.
  apply (reach_step Ex.proc (OpWaitBegin Ex.all_asleep Ex2.no_fault [mkEventData 1 0]));
    [apply ex_proc_reachable|exact I|]. vm_compute. reflexivity.
Qed.

Lemma ex_waiting_wf : ev_wf Ex2.waiting.
Proof. apply (reachable_wf (H := first_fit)). apply ex_waiting_reachable. Qed.

(** A wait of five jiffies that is woken at once and then sleeps to its end. *)
Definition early_rounds : list wait_round :=
  [mkRound false false [] 5 1 [false]; mkRound false false [] 0 6 [false]; mkRound false false [] 0 7 [false]].

Lemma early_rounds_ok ws p : rounds_ok (H := first_fit) ws [] early_rounds p.
Proof. repeat split. Qed.

Lemma wait_loop_terminates_witness :
  (exists res p', wait_loop (Idr := first_fit) Ex.hz250 Ex.hz250 false [1%positive] KFD_EVENT_TIMEOUT_INFINITE 0
    MAX_SCHEDULE_TIMEOUT KFD_IOC_WAIT_RESULT_TIMEOUT [Ex2.late_round] Ex2.waiting = Some (Some res, p')) /\
  (exists res p', wait_loop (Idr := first_fit) Ex.hz250 Ex.hz250 false [1%positive] 20 0
    5 KFD_IOC_WAIT_RESULT_TIMEOUT early_rounds Ex2.waiting = Some (Some res, p')).
Proof.
  assert (live [1%positive] Ex2.waiting) as Hl by (intros w ->%list_elem_of_singleton; vm_compute; eexists; reflexivity).
  split.
  - apply (wait_loop_terminates Ex.hz250 Ex.hz250 false [1%positive] KFD_EVENT_TIMEOUT_INFINITE 0
      MAX_SCHEDULE_TIMEOUT KFD_IOC_WAIT_RESULT_TIMEOUT [Ex2.late_round] Ex2.waiting);
      [exact ex_waiting_wf|exact Hl|apply late_round_ok|split; vm_compute; congruence|].
    simpl. apply Exists_cons_hd. vm_compute. reflexivity.
  - apply (wait_loop_terminates Ex.hz250 Ex.hz250 false [1%positive] 20 0 5 KFD_IOC_WAIT_RESULT_TIMEOUT
      early_rounds Ex2.waiting); [exact ex_waiting_wf|exact Hl|apply early_rounds_ok|lia|].
    change (20 =? KFD_EVENT_TIMEOUT_INFINITE) with false. cbv iota.
    change (s64 (Ex.hz250 KFD_EVENT_RESET_POLL_MS)) with (Ex.hz250 KFD_EVENT_RESET_POLL_MS).
    vm_compute. right. split; [split; discriminate|]. right. split; [split; discriminate|]. left. discriminate.
Defined.

(** The signaled flag of the event with an id. *)
Definition id_signaled (p : kfd_process) (id : Z) : option bool :=
  match event_idr p !! id with Some (Some e) => signaled <$> events p !! e | _ => None end.

(** A signal is lost: when an unbounded wait on an auto-reset event is ended by
    its 30 s deadline (or by a pending reset) in the round in which the event fires,
    the call returns -ETIME without looking at its waiters again, although the event
    was consumed for it; a later wait on the event times out. *)
Theorem wait_etime_loses_signal :
  match Ex2.wait [Ex2.late_round] KFD_EVENT_TIMEOUT_INFINITE Ex.proc with
  | Some (Some r, p') =>
      wt_ret r = - ETIME /\ wt_result r = KFD_IOC_WAIT_RESULT_FAIL /\ id_signaled p' 1 = Some false /\
      match Ex2.wait [mkRound false false [] 0 7502 [false]] KFD_EVENT_TIMEOUT_IMMEDIATE p' with
      | Some (Some r', _) => wt_ret r' = 0 /\ wt_result r' = KFD_IOC_WAIT_RESULT_TIMEOUT
      | _ => False
      end
  | _ => False
  end.
Proof. vm_compute. repeat split. Qed.

(** *** The event freed under a woken waiter *)

(** Freed events stay freed and waiters keep their event. *)
Definition stays_stale (p p' : kfd_process) : Prop :=
  (forall e, events p !! e = None -> events p' !! e = None) /\
  (forall w W, waiters p !! w = Some W -> exists W', waiters p' !! w = Some W' /\ w_event W' = w_event W).

#[local] Instance stays_stale_preorder : PreOrder stays_stale.
Proof.
  split; [split; eauto|]. intros p1 p2 p3 [E1 W1] [E2 W2]. split; [eauto|]. intros w W HW.
  destruct (W1 _ _ HW) as (W' & HW' & <-). by apply W2.
Qed.

Lemma stale_get_event e : respects stays_stale (get_event e).
Proof. intros p E p'. unfold get_event, st_bind, st_get, st_of_option. destruct (events p !! e); [|done]. by intros [= _ <-]. Qed.

Lemma stale_upd_event e f : respects stays_stale (upd_event e f).
Proof.
  intros p x p'. unfold upd_event, get_event, put_event, st_bind, st_get, st_of_option, st_mod.
  destruct (events p !! e) eqn:He; [|done]. intros [= _ <-]. split; simpl; [|eauto].
  intros e' He'. rewrite lookup_insert_ne; [done|congruence].
Qed.

Lemma stale_for_waiters ws f : (forall W, w_event (f W) = w_event W) -> respects stays_stale (for_waiters ws f).
Proof.
  intros Hf. induction ws as [|w ws IH]; simpl; [apply (respects_ret stays_stale)|].
  apply (respects_bind stays_stale); [|done]. intros p x p'.
  unfold upd_waiter, get_waiter, st_bind, st_get, st_of_option, st_mod. destruct (waiters p !! w) as [W|] eqn:HW; [|done].
  intros [= _ <-]. split; simpl; [done|]. intros v V HV. destruct (decide (v = w)) as [->|].
  - rewrite lookup_insert_eq. simplify_eq. eauto.
  - rewrite lookup_insert_ne by done. eauto.
Qed.

Lemma stale_set_event asleep e : respects stays_stale (set_event asleep e).
Proof.
  intros p x p'. unfold set_event, get_event, put_event, st_bind, st_get, st_of_option, st_ret, st_mod.
  destruct (events p !! e) as [E|] eqn:He; [|done].
  destruct (for_waiters (wq E) (fun W => mkWaiter (w_event W) true (event_age_enabled W)) p) as [[y p1]|] eqn:Ew; [|done].
  intros [= _ <-].
  apply stale_for_waiters in Ew as [H1 H2]; [|done]. split; simpl; [|done].
  intros e' He'. rewrite lookup_insert_ne; [by apply H1|congruence].
Qed.

(** Freeing the waiters of a wait locks the event of each of them. *)
Lemma free_waiters_stale asleep undo ws w W e p :
  w ∈ ws -> waiters p !! w = Some W -> w_event W = Some e -> events p !! e = None ->
  free_waiters_loop asleep undo ws p = None.
Proof.
  revert p W. induction ws as [|v ws IH]; intros p W Hin HW He Hfree; [by apply not_elem_of_nil in Hin|].
  simpl. unfold get_waiter, st_bind at 1 2, st_get, st_of_option. destruct (waiters p !! v) as [V|] eqn:HV; [|done].
  unfold st_ret. set (body := match w_event V with Some _ => _ | None => _ end).
  assert (respects stays_stale body) as Hb.
  { subst body. destruct (w_event V); [|apply (respects_ret stays_stale)].
    apply (respects_bind stays_stale); [apply stale_upd_event|]. intros _.
    apply (respects_bind stays_stale); [apply stale_get_event|]. intros E.
    apply (respects_when stays_stale), stale_set_event. }
  unfold st_bind. destruct (body p) as [[[] p1]|] eqn:Eb; [|done]. destruct (Hb _ _ _ Eb) as [H1 H2].
  apply elem_of_cons in Hin as [->|Hin].
  - exfalso. subst body. simplify_eq. rewrite He in Eb. revert Eb.
    unfold upd_event, get_event, st_bind at 1 2 3, st_get, st_of_option. by rewrite Hfree.
  - destruct (H2 _ _ HW) as (W' & HW' & Ew). eapply IH; [done|done|by rewrite Ew|by apply H1].
Qed.

(** C29: destroying an event between its signal and the return of a waiter is a use after
    free. In every state a process reaches, for every signal event and every waiter of a
    wait that is queued on it: when the waiter's task sleeps while the event is set, the
    wake-up unlinks it, the destruction of the event does not find it, and the end of the
    wait, whatever it returns, locks the freed event. When the task was running, the waiter
    is found and its wait ends with -EIO. *)
Theorem wait_destroy_use_after_free `{IdrSpec : IdrAllocSpec} p id e E w W asleep asleep' :
  ev_reachable p -> event_idr p !! id = Some (Some e) -> events p !! e = Some E ->
  ev_type E = KFD_EVENT_TYPE_SIGNAL -> waiters p !! w = Some W -> w_event W = Some e -> activated W = false ->
  exists p1, run_ops [OpSet asleep id; OpDestroy id] p = Some (tt, p1) /\
    if asleep w
    then forall ret wait_result ws, w ∈ ws -> wait_out_unlock asleep' ret wait_result ws p1 = None
    else forall all, test_event_condition all [w] p1 = Some (KFD_IOC_WAIT_RESULT_FAIL, p1) /\
      exists p2, wait_out_unlock asleep' 0 KFD_IOC_WAIT_RESULT_FAIL [w] p1
                 = Some ((- EIO, KFD_IOC_WAIT_RESULT_FAIL), p2).
Proof.
  intros Hr Hid He Hty HW Hwe Ha. pose proof (reachable_wf p Hr) as Hwf. pose proof Hwf as [HR HQ].
  destruct (q_waits _ _ HQ _ _ _ HW Hwe) as (E0 & HE0 & Hq). assert (E0 = E) as -> by congruence.
  specialize (Hq Ha ltac:(tauto)). set (p0 := st_set_event asleep e E p).
  assert (run_op (OpSet asleep id) p = Some (tt, p0)) as E1.
  { enough (wp (run_op (OpSet asleep id)) (fun _ q => q = p0) p) as Hs by (by apply wp_run in Hs as ([] & q & Hs & ->)).
    cbn [run_op]. apply wp_bind. unfold kfd_set_event. apply wp_bind, wp_lookup. rewrite Hid.
    apply wp_bind, (wp_get_event _ _ _ _ He). unfold event_can_be_cpu_signaled. rewrite (proj2 (Z.eqb_eq _ _) Hty).
    apply wp_bind. eapply wp_set_event; [done|done|]. by wp_steps. }
  assert (ev_reachable p0) as Hr0 by (apply (reach_step p (OpSet asleep id)); [done|exact I|done]).
  pose proof (reachable_wf p0 Hr0) as [_ HQ0].
  assert (events p0 !! e = Some (event_set asleep E)) as He0 by apply lookup_insert_eq.
  set (p1 := st_destroy e (event_set asleep E) p0).
  assert (run_op (OpDestroy id) p0 = Some (tt, p1)) as E2.
  { enough (wp (run_op (OpDestroy id)) (fun _ q => q = p1) p0) as Hs by (by apply wp_run in Hs as ([] & q & Hs & ->)).
    cbn [run_op]. apply wp_bind. unfold kfd_event_destroy. apply wp_bind, wp_lookup. change (event_idr p0) with (event_idr p).
    rewrite Hid. apply wp_bind. eapply wp_destroy_event; [done|done|]. by wp_steps. }
  exists p1. split.
  { cbn [run_ops]. rewrite (st_bind_run _ _ _ _ _ E1), (st_bind_run _ _ _ _ _ E2). done. }
  assert (waiters p0 !! w = Some (activate W)) as HW0.
  { unfold p0. by rewrite st_set_event_waiter, decide_True, HW by done. }
  assert (events p1 !! e = None) as Hfree by apply lookup_delete_eq.
  destruct (asleep w) eqn:Hs.
  - intros ret wait_result ws Hin. unfold wait_out_unlock, free_waiters. unfold st_bind at 1 2.
    rewrite (free_waiters_stale _ _ ws w (activate W) e); [done|done| |done|done].
    unfold p1. rewrite st_destroy_waiter, decide_False; [done|]. simpl. rewrite elem_wake. intros [? _]. congruence.
  - assert (waiters p1 !! w = Some (orphan (activate W))) as HW1.
    { unfold p1. rewrite st_destroy_waiter, decide_True, HW0; [done|]. simpl. by apply elem_wake. }
    intros all. unfold test_event_condition, wait_out_unlock, free_waiters. cbn [test_event_loop free_waiters_loop].
    unfold get_waiter, kfree_waiters, st_bind, st_get, st_of_option, st_ret, st_mod. rewrite HW1. simpl.
    split; [done|]. by eexists.
Qed.

Lemma wait_destroy_use_after_free_witness :
  exists p1, run_ops (Idr := first_fit) [OpSet Ex.all_asleep 1; OpDestroy 1] Ex2.waiting = Some (tt, p1) /\
    wait_out_unlock Ex.all_asleep 0 KFD_IOC_WAIT_RESULT_COMPLETE [1%positive] p1 = None.
Proof.
  destruct (wait_destroy_use_after_free (H := first_fit) Ex2.waiting 1 1%positive
    (match events Ex2.waiting !! 1%positive with Some E => E | None => mkEvent 0 0 false false 0 [] 0 mem_exc_zero hw_exc_zero end) 1%positive
    (match waiters Ex2.waiting !! 1%positive with Some W => W | None => mkWaiter None false false end)
    Ex.all_asleep Ex.all_asleep) as (p1 & H1 & H2); try (vm_compute; reflexivity).
  - exact ex_waiting_reachable.
  - exists p1. split; [exact H1|]. apply H2. apply list_elem_of_here.
Defined.

Lemma event_page_size_bug_witness :
  kfd_kmap_event_page (mkKmapEnv true 0 true 0 (replicate 512 0) 4096 true) 7 process_zero = None.
Proof.
  apply (proj1 (event_page_size_bug (H := first_fit))); reflexivity.
Defined.

Lemma criu_restore_slot_bug_witness :
  kfd_criu_restore_event (Idr := first_fit)
    (mkRestoreEnv true true false (mkKmapEnv true 0 true 0 [] 0 true) (true, true))
    (mkPriv 0 5000 0 KFD_EVENT_TYPE_SIGNAL 0 mem_exc_zero hw_exc_zero) 0 64 Ex.proc = None.
Proof.
  eapply (criu_restore_slot_bug (H := first_fit) _ _ _ _ (match signal_page Ex.proc with Some pg => pg | None => mkPage [] 0 false end));
    try reflexivity.
  - exact (proj1 ex_proc_wf).
  - vm_compute. discriminate.
  - split; [vm_compute; discriminate|reflexivity].
  - vm_compute. discriminate.
Defined.
