(* ===== verification/Gtt.v ===== *)
(** * The GTT suballocator of KFD

    A bitmap of equal chunks of one buffer, from which the queue descriptors are
    allocated: a translation of the functions kfd_gtt_sa_* of
    src/src-tree/amd/amdkfd/kfd_device.c, with their properties. The bitmap is the
    list of its bits; the outcomes of memory allocations are arguments. *)

From S2P Require Import Prelude.
From stdpp Require Import gmap list.
From Stdlib Require Import ZArith Lia.

Local Open Scope Z_scope.

(** The fields of struct kfd_dev the suballocator uses. *)
Record kfd_gtt := mkGtt {
  gtt_start_gpu_addr : Z;
  gtt_start_cpu_ptr : Z;
  gtt_sa_bitmap : list bool;
  gtt_sa_chunk_size : Z;
  gtt_sa_num_of_chunks : Z
}.

(** struct kfd_mem_obj *)
Record kfd_mem_obj := mkMemObj {
  range_start : Z;
  range_end : Z;
  gpu_addr : Z;
  cpu_ptr : Z
}.

Definition set_bitmap (bm : list bool) (k : kfd_gtt) : kfd_gtt :=
  mkGtt (gtt_start_gpu_addr k) (gtt_start_cpu_ptr k) bm (gtt_sa_chunk_size k) (gtt_sa_num_of_chunks k).

(** [find_next_zero_bit]: the index of the first clear bit from [start] on, [size]
    when there is none. *)
Fixpoint zero_scan (l : list bool) (i : Z) : Z :=
  match l with
  | [] => i
  | b :: l => if b then zero_scan l (i + 1) else i
  end.
Definition find_next_zero_bit (bm : list bool) (size start : Z) : Z :=
  if size <=? start then size else zero_scan (drop (Z.to_nat start) (take (Z.to_nat size) bm)) start.

(** [bitmap_set] and [bitmap_clear] *)
Definition bitmap_fill (v : bool) (bm : list bool) (start len : Z) : list bool :=
  imap (fun i b => if (start <=? Z.of_nat i) && (Z.of_nat i <? start + len) then v else b) bm.

(** [alloc_ok] is the outcome of [bitmap_zalloc]. *)
Definition kfd_gtt_sa_init (alloc_ok : bool) (gpu cpu buf_size chunk_size : Z) : Z * option kfd_gtt :=
  if buf_size <? chunk_size then (- EINVAL, None)
  else if buf_size =? 0 then (- EINVAL, None)
  else if chunk_size =? 0 then (- EINVAL, None)
  else if negb alloc_ok then (- ENOMEM, None)
  else (0, Some (mkGtt gpu cpu (replicate (Z.to_nat (buf_size / chunk_size)) false) chunk_size (buf_size / chunk_size))).

Definition kfd_gtt_sa_calc_gpu_addr (start_addr bit_num chunk_size : Z) : Z := u64 (start_addr + u32 (bit_num * chunk_size)).
Definition kfd_gtt_sa_calc_cpu_addr (start_addr bit_num chunk_size : Z) : Z := u64 (start_addr + u32 (bit_num * chunk_size)).

(** How the inner loop of [kfd_gtt_sa_allocate] is left. *)
Inductive extend_result : Type :=
| ExtDone (range_end : Z)
| ExtRestart (start_search : Z)
| ExtNoFree.

Fixpoint extend_loop (fuel : nat) (bm : list bool) (num chunk found cur_size : Z) : option extend_result :=
  match fuel with
  | O => None
  | S fuel =>
      let found := u32 (found + 1) in
      let e := find_next_zero_bit bm num found in
      if negb (e =? found) then Some (ExtRestart found)
      else if found =? num then Some ExtNoFree
      else
        let cur_size := if cur_size <=? chunk then 0 else cur_size - chunk in
        if 0 <? cur_size then extend_loop fuel bm num chunk found cur_size else Some (ExtDone e)
  end.

(** The search from the label [kfd_gtt_restart_search]: the first and the last chunk
    of the run found, [Some None] when there is none. *)
Fixpoint search_loop (fuel : nat) (bm : list bool) (num chunk size start_search : Z) : option (option (Z * Z)) :=
  match fuel with
  | O => None
  | S fuel =>
      let found := find_next_zero_bit bm num start_search in
      if found =? num then Some None
      else if size <=? chunk then Some (Some (found, found))
      else
        match extend_loop (S (Z.to_nat num)) bm num chunk found (size - chunk) with
        | None => None
        | Some ExtNoFree => Some None
        | Some (ExtRestart s) => search_loop fuel bm num chunk size s
        | Some (ExtDone e) => Some (Some (found, e))
        end
  end.

(** [alloc_ok] is the outcome of [kzalloc]; [None] as outer result: out of fuel. *)
Definition kfd_gtt_sa_allocate (alloc_ok : bool) (size : Z) (k : kfd_gtt) : option (Z * option kfd_mem_obj * kfd_gtt) :=
  let num := gtt_sa_num_of_chunks k in
  let chunk := gtt_sa_chunk_size k in
  if size =? 0 then Some (- EINVAL, None, k)
  else if u32 (num * chunk) <? size then Some (- ENOMEM, None, k)
  else if negb alloc_ok then Some (- ENOMEM, None, k)
  else
    match search_loop (S (Z.to_nat num)) (gtt_sa_bitmap k) num chunk size 0 with
    | None => None
    | Some None => Some (- ENOMEM, None, k)
    | Some (Some (s, e)) =>
        Some (0, Some (mkMemObj s e (kfd_gtt_sa_calc_gpu_addr (gtt_start_gpu_addr k) s chunk)
                                  (kfd_gtt_sa_calc_cpu_addr (gtt_start_cpu_ptr k) s chunk)),
              set_bitmap (bitmap_fill true (gtt_sa_bitmap k) s (u32 (e - s + 1))) k)
    end.

Definition kfd_gtt_sa_free (mem_obj : option kfd_mem_obj) (k : kfd_gtt) : Z * kfd_gtt :=
  match mem_obj with
  | None => (0, k)
  | Some o => (0, set_bitmap (bitmap_fill false (gtt_sa_bitmap k) (range_start o) (u32 (range_end o - range_start o + 1))) k)
  end.

(** ** Bits *)

Definition chunk_free (bm : list bool) (i : Z) : Prop := bm !! Z.to_nat i = Some false.

(** The chunks from [s] on, [n] of them, are free. *)
Definition run_free (bm : list bool) (s n : Z) : Prop :=
  0 <= s /\ s + n <= Z.of_nat (length bm) /\ forall i, s <= i < s + n -> chunk_free bm i.

(** The number of chunks of a request. *)
Definition chunks (chunk size : Z) : Z := (size + chunk - 1) / chunk.

Lemma lookup_fill v bm s n i :
  0 <= i -> bitmap_fill v bm s n !! Z.to_nat i
    = (if (s <=? i) && (i <? s + n) then (fun _ => v) <$> bm !! Z.to_nat i else bm !! Z.to_nat i).
Proof.
  intros Hi. unfold bitmap_fill. rewrite list_lookup_imap. rewrite Z2Nat.id by done.
  destruct (bm !! Z.to_nat i); simpl; by destruct (_ && _).
Qed.

Lemma length_fill v bm s n : length (bitmap_fill v bm s n) = length bm.
Proof. apply length_imap. Qed.

Lemma zero_scan_spec (l : list bool) i :
  i <= zero_scan l i <= i + Z.of_nat (length l) /\
  (forall j, i <= j < zero_scan l i -> l !! Z.to_nat (j - i) = Some true) /\
  (zero_scan l i < i + Z.of_nat (length l) -> l !! Z.to_nat (zero_scan l i - i) = Some false).
Proof.
  revert i. induction l as [|b l IH]; intros i; [simpl; split_and!; lia|]. simpl length. cbn [zero_scan].
  destruct b.
  - destruct (IH (i + 1)) as (H1 & H2 & H3).
    assert (forall j, i + 1 <= j -> (true :: l) !! Z.to_nat (j - i) = l !! Z.to_nat (j - (i + 1))) as Hs.
    { intros j Hj. replace (Z.to_nat (j - i)) with (S (Z.to_nat (j - (i + 1)))) by lia. done. }
    split_and!; [lia|lia|..].
    + intros j Hj. destruct (decide (j = i)) as [->|]; [by rewrite Z.sub_diag|]. rewrite Hs by lia. apply H2. lia.
    + intros Hlt. rewrite Hs by lia. apply H3. lia.
  - split_and!; [lia|lia|lia|]. intros _. by rewrite Z.sub_diag.
Qed.

Section Chunks.
Context (chunk : Z).
Hypothesis Hchunk : 0 < chunk.

Lemma chunks_step cur : chunk < cur -> chunks chunk (cur - chunk) = chunks chunk cur - 1.
Proof using Hchunk.
  intros H. unfold chunks. replace (cur - chunk + chunk - 1) with (cur + chunk - 1 + (-1) * chunk) by lia.
  rewrite Z.div_add by lia. lia.
Qed.
Lemma chunks_one cur : 0 < cur <= chunk -> chunks chunk cur = 1.
Proof using Hchunk. intros H. unfold chunks. symmetry. apply Z.div_unique with (cur - 1); lia. Qed.
Lemma chunks_pos cur : 0 < cur -> 1 <= chunks chunk cur.
Proof using Hchunk. intros H. unfold chunks. apply Z.div_le_lower_bound; lia. Qed.
End Chunks.

Section Search.
Context (bm : list bool) (num : Z).
Hypothesis Hnum : num = Z.of_nat (length bm).
Hypothesis Hmax : num < 2 ^ 32.

Lemma find_next_zero_spec start :
  0 <= start ->
  let f := find_next_zero_bit bm num start in
  f <= num /\ (start <= num -> start <= f) /\
  (forall j, start <= j < f -> ~ chunk_free bm j) /\ (f < num -> chunk_free bm f).
Proof.
  intros Hs. unfold find_next_zero_bit. cbv zeta. destruct (Z.leb_spec num start); [split_and!; lia|].
  rewrite take_ge by lia. destruct (zero_scan_spec (drop (Z.to_nat start) bm) start) as (H1 & H2 & H3).
  rewrite length_drop in *. assert (forall j, start <= j -> drop (Z.to_nat start) bm !! Z.to_nat (j - start) = bm !! Z.to_nat j) as Hd.
  { intros j Hj. rewrite lookup_drop. f_equal. lia. }
  split_and!; [lia|lia|..].
  - intros j Hj. unfold chunk_free. rewrite <- Hd by lia. rewrite H2 by lia. done.
  - intros Hlt. unfold chunk_free. rewrite <- Hd by lia. apply H3. lia.
Qed.

Context (chunk : Z).
Hypothesis Hchunk : 0 < chunk.

(** The inner loop looks at the chunks after [found] one by one. *)
Lemma extend_loop_spec fuel found cur :
  0 <= found < num -> 0 < cur -> num - found <= Z.of_nat fuel ->
  exists r, extend_loop fuel bm num chunk found cur = Some r /\
  match r with
  | ExtDone e => e = found + chunks chunk cur /\ e < num /\ forall i, found < i <= e -> chunk_free bm i
  | ExtRestart f => found < f <= found + chunks chunk cur /\ f < num /\ ~ chunk_free bm f /\ forall i, found < i < f -> chunk_free bm i
  | ExtNoFree => num <= found + chunks chunk cur
  end.
Proof.
  revert found cur. induction fuel as [|fuel IH]; intros found cur Hf Hc Hfuel; [lia|]. cbn [extend_loop].
  pose proof (chunks_pos chunk Hchunk cur Hc) as Hp. rewrite wrap_small by lia.
  destruct (find_next_zero_spec (found + 1) ltac:(lia)) as (H1 & H2 & H3 & H4). specialize (H2 ltac:(lia)).
  set (e := find_next_zero_bit bm num (found + 1)) in *.
  destruct (Z.eqb_spec e (found + 1)) as [He|He]; cbn [negb].
  2: { eexists. split; [done|]. simpl. split_and!; [lia|lia|lia|apply H3; lia|intros; lia]. }
  destruct (Z.eqb_spec (found + 1) num); [eexists; split; [done|]; simpl; lia|].
  assert (chunk_free bm (found + 1)) as Hfree by (rewrite <- He; apply H4; lia).
  destruct (Z.leb_spec cur chunk) as [Hle|Hgt].
  - cbn [Z.ltb Z.compare]. eexists. split; [done|]. simpl. rewrite chunks_one by lia. rewrite He. split_and!; [done|lia|].
    intros i Hi. by replace i with (found + 1) by lia.
  - destruct (Z.ltb_spec 0 (cur - chunk)); [|lia].
    destruct (IH (found + 1) (cur - chunk)) as (r & -> & Hr); [lia|lia|lia|]. rewrite chunks_step in Hr by done.
    exists r. split; [done|]. destruct r as [e'|f|].
    + destruct Hr as (-> & Hlt & Hall). split_and!; [lia|lia|]. intros i Hi.
      destruct (decide (i = found + 1)) as [->|]; [done|]. apply Hall. lia.
    + destruct Hr as (Hr & Hlt & Hno & Hall). split_and!; [lia|lia|done|done|]. intros i Hi.
      destruct (decide (i = found + 1)) as [->|]; [done|]. apply Hall. lia.
    + lia.
Qed.

(** The search finds the lowest run of free chunks that is long enough. *)
Lemma search_loop_spec fuel size start :
  0 < size -> 0 <= start -> num - start < Z.of_nat fuel -> (0 < fuel)%nat ->
  exists r, search_loop fuel bm num chunk size start = Some r /\
  match r with
  | Some (s, e) => e = s + chunks chunk size - 1 /\ start <= s /\ run_free bm s (chunks chunk size) /\
      forall s', start <= s' < s -> ~ run_free bm s' (chunks chunk size)
  | None => forall s', start <= s' -> ~ run_free bm s' (chunks chunk size)
  end.
Proof.
  intros Hsize. revert start. induction fuel as [|fuel IH]; intros start Hs Hfuel Hpos; [lia|]. cbn [search_loop].
  pose proof (chunks_pos chunk Hchunk size Hsize) as Hn. set (n := chunks chunk size) in *.
  destruct (find_next_zero_spec start Hs) as (H1 & H2 & H3 & H4). set (f := find_next_zero_bit bm num start) in *.
  assert (forall s', start <= s' < f -> ~ run_free bm s' n) as Hbefore.
  { intros s' Hs' (_ & _ & Hall). apply (H3 s'); [lia|]. apply Hall. lia. }
  destruct (Z.eqb_spec f num) as [Hf|Hf].
  { exists None. split; [done|]. intros s' Hs' Hrun. destruct (decide (s' < f)); [apply (Hbefore s'); [lia|done]|].
    destruct Hrun as (_ & Hlen & _). lia. }
  specialize (H4 ltac:(lia)). assert (start <= f) as Hsf.
  { destruct (decide (start <= num)); [auto|]. exfalso. unfold f, find_next_zero_bit in Hf. destruct (Z.leb_spec num start); lia. }
  destruct (Z.leb_spec size chunk) as [Hle|Hgt].
  { exists (Some (f, f)). split; [done|]. assert (n = 1) as -> by (apply chunks_one; lia). split_and!; [lia|lia|..].
    - split_and!; [lia|lia|]. intros i Hi. by replace i with f by lia.
    - intros s' Hs'. by apply Hbefore. }
  destruct (extend_loop_spec (S (Z.to_nat num)) f (size - chunk)) as (r & -> & Hr); [lia|lia|lia|].
  rewrite chunks_step in Hr by done. fold n in Hr. destruct r as [e|g|].
  - destruct Hr as (-> & Hlt & Hall). exists (Some (f, f + (n - 1))). split; [done|]. split_and!; [lia|lia|..].
    + split_and!; [lia|lia|]. intros i Hi. destruct (decide (i = f)) as [->|]; [done|]. apply Hall. lia.
    + intros s' Hs'. by apply Hbefore.
  - destruct Hr as (Hg & Hlt & Hno & Hall).
    assert (forall s', start <= s' < g -> ~ run_free bm s' n) as Hbefore'.
    { intros s' Hs' Hrun. destruct (decide (s' < f)); [apply (Hbefore s'); [lia|done]|]. apply Hno. apply Hrun. lia. }
    destruct (IH g) as (r & -> & Hr); [lia|lia|lia|]. exists r. split; [done|]. destruct r as [[s e]|].
    + destruct Hr as (-> & ? & ? & Hmin). split_and!; [done|lia|done|]. intros s' Hs'.
      destruct (decide (s' < g)); [apply Hbefore'; lia|apply Hmin; lia].
    + intros s' Hs'. destruct (decide (s' < g)); [apply Hbefore'; lia|apply Hr; lia].
  - exists None. split; [done|]. intros s' Hs' Hrun. destruct (decide (s' < f)); [apply (Hbefore s'); [lia|done]|].
    destruct Hrun as (_ & Hlen & _). lia.
Qed.
End Search.

(** ** The suballocator *)

Record gtt_ok (k : kfd_gtt) : Prop := mkGttOk {
  gtt_len : gtt_sa_num_of_chunks k = Z.of_nat (length (gtt_sa_bitmap k));
  gtt_chunk : 0 < gtt_sa_chunk_size k;
  gtt_size : gtt_sa_num_of_chunks k * gtt_sa_chunk_size k < 2 ^ 32
}.

Lemma gtt_num_max k : gtt_ok k -> gtt_sa_num_of_chunks k < 2 ^ 32.
Proof. intros []. nia. Qed.

Lemma gtt_ok_bitmap bm k : gtt_ok k -> length bm = length (gtt_sa_bitmap k) -> gtt_ok (set_bitmap bm k).
Proof. intros [] Hl. constructor; simpl; [by rewrite Hl|done..]. Qed.

(** C38: the allocator is first fit. A request gets the lowest run of free chunks
    that holds it, at the bus and CPU addresses of its first chunk, and exactly these
    chunks are marked; it fails, with nothing changed, only when the size is zero,
    memory is short or no run of free chunks is long enough. The search ends. *)
Theorem kfd_gtt_sa_allocate_correct alloc_ok size k :
  gtt_ok k -> 0 <= size < 2 ^ 32 ->
  exists ret o k', kfd_gtt_sa_allocate alloc_ok size k = Some (ret, o, k') /\
  let n := chunks (gtt_sa_chunk_size k) size in
  match o with
  | Some obj =>
      ret = 0 /\ 0 < size /\ run_free (gtt_sa_bitmap k) (range_start obj) n /\
      (forall s, 0 <= s < range_start obj -> ~ run_free (gtt_sa_bitmap k) s n) /\
      range_end obj = range_start obj + n - 1 /\
      gpu_addr obj = u64 (gtt_start_gpu_addr k + range_start obj * gtt_sa_chunk_size k) /\
      cpu_ptr obj = u64 (gtt_start_cpu_ptr k + range_start obj * gtt_sa_chunk_size k) /\
      k' = set_bitmap (bitmap_fill true (gtt_sa_bitmap k) (range_start obj) n) k
  | None =>
      k' = k /\ ((ret = - EINVAL /\ size = 0) \/
        (ret = - ENOMEM /\ (alloc_ok = false \/ forall s, ~ run_free (gtt_sa_bitmap k) s n)))
  end.
Proof.
  intros Hok Hs. pose proof (gtt_num_max k Hok) as Hnm. destruct Hok as [Hl Hc Hsz]. unfold kfd_gtt_sa_allocate.
  set (num := gtt_sa_num_of_chunks k) in *. set (chunk := gtt_sa_chunk_size k) in *. cbv zeta.
  destruct (Z.eqb_spec size 0) as [H0|H0]; [eexists _, _, _; split; [done|]; simpl; auto|].
  rewrite (wrap_small 32 (num * chunk)) by nia. destruct (Z.ltb_spec (num * chunk) size) as [Hbig|Hfit].
  { eexists _, _, _. split; [done|]. simpl. split; [done|]. right. split; [done|]. right. intros s (Hs0 & Hlen & _).
    assert (chunks chunk size * chunk >= size); [|nia]. unfold chunks.
    pose proof (Z.div_mod (size + chunk - 1) chunk). pose proof (Z.mod_pos_bound (size + chunk - 1) chunk). nia. }
  destruct alloc_ok; cbn [negb]; [|eexists _, _, _; split; [done|]; simpl; auto 6].
  destruct (search_loop_spec (gtt_sa_bitmap k) num Hl Hnm chunk Hc (S (Z.to_nat num)) size 0)
    as (r & -> & Hr); [lia|lia|lia|lia|].
  destruct r as [[s e]|].
  - destruct Hr as (-> & H1 & Hrun & Hmin). eexists _, _, _. split; [done|]. simpl.
    pose proof Hrun as (_ & Hlen & _). pose proof (chunks_pos chunk Hc size ltac:(lia)).
    unfold kfd_gtt_sa_calc_gpu_addr, kfd_gtt_sa_calc_cpu_addr. rewrite (wrap_small 32 (s * chunk)) by nia.
    replace (s + chunks chunk size - 1 - s + 1) with (chunks chunk size) by lia. rewrite (wrap_small 32 (chunks chunk size)) by lia.
    split_and!; try done; lia.
  - eexists _, _, _. split; [done|]. simpl. split; [done|]. right. split; [done|]. right. intros s Hrun.
    by apply (Hr s); [apply Hrun|].
Qed.

Lemma kfd_gtt_sa_allocate_correct_witness :
  exists ret o k', kfd_gtt_sa_allocate true 1200 (mkGtt 4096 0 [true; false; true; false; false; false; true] 512 7) = Some (ret, o, k').
Proof.
  destruct (kfd_gtt_sa_allocate_correct true 1200 (mkGtt 4096 0 [true; false; true; false; false; false; true] 512 7))
    as (ret & o & k' & H & _); [constructor; simpl; lia|lia|]. exists ret, o, k'. exact H.
Defined.

(** *** Sequences of allocations and frees *)

(** The device with the objects handed out and not yet freed. *)
Definition gtt_state : Type := kfd_gtt * list kfd_mem_obj.

Inductive gtt_reachable (gpu cpu buf_size chunk_size : Z) : gtt_state -> Prop :=
| gtt_init k :
    kfd_gtt_sa_init true gpu cpu buf_size chunk_size = (0, Some k) ->
    gtt_reachable gpu cpu buf_size chunk_size (k, [])
| gtt_alloc alloc_ok size k objs o k' :
    gtt_reachable gpu cpu buf_size chunk_size (k, objs) -> 0 <= size < 2 ^ 32 ->
    kfd_gtt_sa_allocate alloc_ok size k = Some (0, Some o, k') ->
    gtt_reachable gpu cpu buf_size chunk_size (k', o :: objs)
| gtt_free k objs1 o objs2 k' :
    gtt_reachable gpu cpu buf_size chunk_size (k, objs1 ++ o :: objs2) ->
    kfd_gtt_sa_free (Some o) k = (0, k') ->
    gtt_reachable gpu cpu buf_size chunk_size (k', objs1 ++ objs2).

Definition in_range (o : kfd_mem_obj) (i : Z) : Prop := range_start o <= i <= range_end o.

(** Two objects share no chunk. *)
Definition apart (o o' : kfd_mem_obj) : Prop := forall i, in_range o i -> ~ in_range o' i.

(** Every chunk is marked exactly when one object holds it, and only one does. *)
Record gtt_inv (st : gtt_state) : Prop := mkGttInv {
  gi_ok : gtt_ok (fst st);
  gi_obj o : o ∈ snd st -> 0 <= range_start o <= range_end o /\ range_end o < gtt_sa_num_of_chunks (fst st);
  gi_bit i : 0 <= i < gtt_sa_num_of_chunks (fst st) ->
    (chunk_free (gtt_sa_bitmap (fst st)) i <-> forall o, o ∈ snd st -> ~ in_range o i);
  gi_disjoint : ForallOrdPairs apart (snd st)
}.

(** Taking an object out of a list of pairwise disjoint ones. *)
Lemma apart_remove l1 o l2 :
  ForallOrdPairs apart (l1 ++ o :: l2) -> ForallOrdPairs apart (l1 ++ l2) /\ Forall (apart o) (l1 ++ l2).
Proof.
  induction l1 as [|x l1 IH]; simpl; intros H; inversion H as [|? ? Hx Hl]; subst; [done|].
  destruct (IH Hl) as [H1 H2]. apply Forall_app in Hx as [Hx1 Hx2]. apply Forall_cons in Hx2 as [Hxo Hx2]. split.
  - constructor; [by apply Forall_app|done].
  - constructor; [|done]. intros i Ho Hi. by apply (Hxo i).
Qed.

Lemma chunk_free_fill v bm s n i :
  0 <= i < Z.of_nat (length bm) ->
  chunk_free (bitmap_fill v bm s n) i <-> (if (s <=? i) && (i <? s + n) then v = false else chunk_free bm i).
Proof.
  intros Hi. unfold chunk_free. rewrite lookup_fill by lia. destruct (_ && _); [|done].
  destruct (lookup_lt_is_Some_2 bm (Z.to_nat i)) as [b ->]; [lia|]. simpl. split; [by intros [= ->]|by intros ->].
Qed.

Lemma gtt_inv_init gpu cpu buf_size chunk_size k :
  0 <= buf_size < 2 ^ 32 -> 0 <= chunk_size -> kfd_gtt_sa_init true gpu cpu buf_size chunk_size = (0, Some k) -> gtt_inv (k, []).
Proof.
  intros Hb Hc. unfold kfd_gtt_sa_init. destruct (Z.ltb_spec buf_size chunk_size); [done|].
  destruct (Z.eqb_spec buf_size 0); [done|]. destruct (Z.eqb_spec chunk_size 0); [done|]. intros [= <-].
  assert (0 <= buf_size / chunk_size) by (apply Z.div_pos; lia). constructor; simpl.
  - constructor; simpl; [rewrite length_replicate; lia|lia|]. pose proof (Z.mul_div_le buf_size chunk_size). lia.
  - set_solver.
  - intros i Hi. split; [set_solver|]. intros _. apply lookup_replicate. split; [done|lia].
  - constructor.
Qed.

Lemma gtt_inv_alloc alloc_ok size k objs o k' :
  gtt_inv (k, objs) -> 0 <= size < 2 ^ 32 -> kfd_gtt_sa_allocate alloc_ok size k = Some (0, Some o, k') ->
  gtt_inv (k', o :: objs).
Proof.
  intros [Hok Hobj Hbit Hdis] Hs Hal. simpl in *.
  destruct (kfd_gtt_sa_allocate_correct alloc_ok size k Hok Hs) as (ret & o' & k'' & Hal' & Hspec).
  rewrite Hal in Hal'. injection Hal' as <- <- <-. destruct Hspec as (_ & Hpos & Hrun & _ & Hend & _ & _ & ->).
  set (n := chunks (gtt_sa_chunk_size k) size) in *. assert (1 <= n) by (apply chunks_pos; [apply Hok|lia]).
  destruct Hrun as (Hs0 & Hlen & Hfree). pose proof (gtt_len _ Hok) as Hl.
  assert (forall x i, x ∈ objs -> in_range o i -> ~ in_range x i) as Hnew.
  { intros x i Hx Hi. unfold in_range in Hi. apply Hbit; [lia|apply Hfree; lia|done]. }
  constructor; simpl.
  - apply gtt_ok_bitmap; [done|apply length_fill].
  - intros x [->|Hx]%elem_of_cons; [lia|auto].
  - intros i Hi. rewrite chunk_free_fill by lia. destruct (Z.leb_spec (range_start o) i), (Z.ltb_spec i (range_start o + n)); simpl.
    2-4: rewrite Hbit by done; unfold in_range; setoid_rewrite elem_of_cons; split;
      [intros Hx x [->|?]; [lia|auto]|auto].
    split; [done|]. intros Hx. exfalso. apply (Hx o); [set_solver|]. unfold in_range. lia.
  - constructor; [|done]. apply Forall_forall. intros x Hx i Hi. by apply Hnew.
Qed.

Lemma gtt_inv_free k objs1 o objs2 :
  gtt_inv (k, objs1 ++ o :: objs2) -> gtt_inv (snd (kfd_gtt_sa_free (Some o) k), objs1 ++ objs2).
Proof.
  intros [Hok Hobj Hbit Hdis]. simpl in *. pose proof (gtt_len _ Hok) as Hl. pose proof (gtt_num_max _ Hok) as Hm.
  destruct (Hobj o ltac:(set_solver)) as [Ho1 Ho2]. rewrite wrap_small by lia.
  apply apart_remove in Hdis as [Hdis Hapart]. rewrite Forall_forall in Hapart. constructor; simpl.
  - apply gtt_ok_bitmap; [done|apply length_fill].
  - intros x Hx. apply Hobj. set_solver.
  - intros i Hi. rewrite chunk_free_fill by lia.
    destruct (Z.leb_spec (range_start o) i), (Z.ltb_spec i (range_start o + (range_end o - range_start o + 1))); simpl.
    + split; [|done]. intros _ x Hx. apply (Hapart x Hx). unfold in_range. lia.
    + rewrite Hbit by done. split; [intros Hx x ?; apply Hx; set_solver|]. intros Hx x.
      rewrite elem_of_app, elem_of_cons. intros [?|[->|?]]; [apply Hx; set_solver|unfold in_range; lia|apply Hx; set_solver].
    + rewrite Hbit by done. split; [intros Hx x ?; apply Hx; set_solver|]. intros Hx x.
      rewrite elem_of_app, elem_of_cons. intros [?|[->|?]]; [apply Hx; set_solver|unfold in_range; lia|apply Hx; set_solver].
    + lia.
  - done.
Qed.

Lemma gtt_reachable_inv gpu cpu buf_size chunk_size st :
  0 <= buf_size < 2 ^ 32 -> 0 <= chunk_size -> gtt_reachable gpu cpu buf_size chunk_size st -> gtt_inv st.
Proof.
  intros Hb Hc. induction 1 as [k Hi|alloc_ok size k objs o k' _ IH Hs Ha|k objs1 o objs2 k' _ IH Hf].
  - by eapply gtt_inv_init.
  - by eapply gtt_inv_alloc.
  - apply gtt_inv_free in IH. by rewrite Hf in IH.
Qed.

(** Whatever the sequence of allocations and frees, live objects never share a
    chunk and lie inside the buffer, and the bitmap marks exactly the chunks of the
    live objects; in particular freeing an object gives back its own chunks and
    nothing else, and once all objects are freed the bitmap is empty. *)
Theorem kfd_gtt_sa_reachable_safe gpu cpu buf_size chunk_size k objs :
  0 <= buf_size < 2 ^ 32 -> 0 <= chunk_size -> gtt_reachable gpu cpu buf_size chunk_size (k, objs) ->
  ForallOrdPairs apart objs /\
  (forall o, o ∈ objs -> 0 <= range_start o <= range_end o /\ range_end o < gtt_sa_num_of_chunks k) /\
  (forall i, 0 <= i < gtt_sa_num_of_chunks k ->
     gtt_sa_bitmap k !! Z.to_nat i = Some (bool_decide (Exists (fun o => in_range o i) objs))) /\
  (objs = [] -> gtt_sa_bitmap k = replicate (Z.to_nat (gtt_sa_num_of_chunks k)) false).
Proof.
  intros Hb Hc Hr%gtt_reachable_inv; [|done..]. destruct Hr as [Hok Hobj Hbit Hdis]. simpl in *.
  assert (forall i, 0 <= i < gtt_sa_num_of_chunks k ->
     gtt_sa_bitmap k !! Z.to_nat i = Some (bool_decide (Exists (fun o => in_range o i) objs))) as Hb'.
  { intros i Hi. destruct (lookup_lt_is_Some_2 (gtt_sa_bitmap k) (Z.to_nat i)) as [b Hlk];
      [pose proof (gtt_len _ Hok); lia|]. rewrite Hlk. f_equal. specialize (Hbit i Hi). unfold chunk_free in Hbit. rewrite Hlk in Hbit.
    destruct (bool_decide_reflect (Exists (fun o => in_range o i) objs)) as [He|Hn].
    - destruct b; [done|]. apply Exists_exists in He as (o & Ho & Hio). by destruct (proj1 Hbit eq_refl o Ho).
    - destruct b; [|done]. enough (Some true = Some false) by done. apply Hbit. intros o Ho Hio. apply Hn, Exists_exists. eauto. }
  split_and!; try done. intros ->. apply list_eq. intros i.
  pose proof (gtt_len _ Hok) as Hl. destruct (decide (Z.of_nat i < gtt_sa_num_of_chunks k)).
  - specialize (Hb' (Z.of_nat i) ltac:(lia)). rewrite Nat2Z.id in Hb'. rewrite Hb'. symmetry. apply lookup_replicate. split; [|lia].
    apply bool_decide_eq_false. by intros ?%Exists_nil.
  - rewrite !lookup_ge_None_2; [done|rewrite length_replicate; lia|lia].
Qed.

Lemma kfd_gtt_sa_reachable_safe_witness :
  exists k o, gtt_reachable 4096 0 4096 512 (k, [o]) /\ ForallOrdPairs apart [o].
Proof.
  eexists _, _. split.
  - eapply (gtt_alloc _ _ _ _ true 1000); [by apply gtt_init|lia|reflexivity].
  - eapply (kfd_gtt_sa_reachable_safe 4096 0 4096 512); [lia|lia|].
    eapply (gtt_alloc _ _ _ _ true 1000); [by apply gtt_init|lia|reflexivity].
Defined.
