(* ===== verification/Bytes.v ===== *)
(** * Bytes

    Integers as little-endian sequences of bytes and back, and the sum of bytes that the
    checksums of the driver compute. *)

From stdpp Require Import list.
From Stdlib Require Import ZArith Lia.
From S2P Require Import Prelude.

Abbreviation u16 := (wrap 16).
Abbreviation u8 := (wrap 8).

Definition is_byte (b : Z) : Prop := 0 <= b < 256.

(** The [n] low bytes of an integer, least significant first, and back. *)
Fixpoint le_split (n : nat) (z : Z) : list Z :=
  match n with
  | O => []
  | S n => z mod 256 :: le_split n (z / 256)
  end.

Fixpoint le_combine (l : list Z) : Z :=
  match l with
  | [] => 0
  | b :: l => b + 256 * le_combine l
  end.

Lemma length_le_split n z : length (le_split n z) = n.
Proof. revert z. induction n; intros; simpl; auto. Qed.

Lemma le_split_bytes n z : Forall is_byte (le_split n z).
Proof.
  revert z. induction n; intros; simpl; constructor; [|done].
  apply Z.mod_pos_bound. lia.
Qed.

Lemma le_combine_split n z : le_combine (le_split n z) = z mod 256 ^ Z.of_nat n.
Proof.
  revert z. induction n as [|n IH]; intros z.
  - cbn. by rewrite Z.mod_1_r.
  - cbn [le_split le_combine]. rewrite IH, Nat2Z.inj_succ, Z.pow_succ_r by lia.
    rewrite Z.rem_mul_r; lia.
Qed.

Lemma le_combine_range l : Forall is_byte l -> 0 <= le_combine l < 256 ^ Z.of_nat (length l).
Proof.
  induction 1 as [|b l Hb Hl IH]; [cbn; lia|].
  cbn [le_combine length]. rewrite Nat2Z.inj_succ, Z.pow_succ_r by lia.
  unfold is_byte in Hb. nia.
Qed.

Lemma le_split_combine l : Forall is_byte l -> le_split (length l) (le_combine l) = l.
Proof.
  induction 1 as [|b l Hb Hl IH]; [done|]. unfold is_byte in Hb. cbn [le_split le_combine length].
  replace (b + 256 * le_combine l) with (b + le_combine l * 256) by lia.
  rewrite Z.mod_add, Z.div_add, Z.mod_small, Z.div_small, Z.add_0_l by lia. by rewrite IH.
Qed.

(** The sum of bytes, as the checksum loops compute it in a [u8]. *)
Definition byte_sum (l : list Z) : Z := foldl (fun csum b => u8 (csum + b)) 0 l.

Lemma byte_sum_from c l : foldl (fun csum b => u8 (csum + b)) (u8 c) l = u8 (c + sumZ id l).
Proof.
  revert c. induction l as [|b l IH]; intros c; simpl.
  - by rewrite Z.add_0_r.
  - replace (u8 (u8 c + b)) with (u8 (c + b)) by (unfold wrap; by rewrite Zplus_mod_idemp_l).
    rewrite IH. unfold id. f_equal. lia.
Qed.

Lemma byte_sum_eq l : byte_sum l = u8 (sumZ id l).
Proof. apply (byte_sum_from 0 l). Qed.

