(* ===== verification/Eeprom.v ===== *)
(** * I2C EEPROM transfers: model of amd/amdgpu/amdgpu_eeprom.c

    The driver sees up to two EEPROM chips as one linear memory. A transfer is cut
    into I2C transactions: a write never crosses a page of the chip, because the
    chip's address counter rolls over inside the page, and no transaction exceeds
    the adapter's length limit. This file holds the linear memory of bytes
    ([bytes_at]), the model of the transfer code over
    any I2C bus ([I2cBus]), the documented behaviour of the chip ([At24]), the linear
    memory the rest of the driver relies on ([EepromDev], [EepromDevSpec]) and the
    proof that the transfer code implements the latter on top of the former. *)

From stdpp Require Import list.
From Stdlib Require Import ZArith Lia.
From S2P Require Import Prelude Bytes.
Open Scope st_scope.

(** ** A linear byte memory *)

Fixpoint bytes_at (m : Z -> Z) (a : Z) (n : nat) : list Z :=
  match n with
  | O => []
  | S n => m a :: bytes_at m (a + 1) n
  end.

Lemma length_bytes_at m a n : length (bytes_at m a n) = n.
Proof. revert a. induction n; intros; simpl; auto. Qed.

Lemma bytes_at_app m a n1 n2 :
  bytes_at m a (n1 + n2) = bytes_at m a n1 ++ bytes_at m (a + Z.of_nat n1) n2.
Proof.
  revert a. induction n1 as [|n1 IH]; intros a; simpl.
  - f_equal. lia.
  - rewrite IH. do 3 f_equal. lia.
Qed.

Lemma bytes_at_ext m m' a n :
  (forall x, a <= x < a + Z.of_nat n -> m x = m' x) -> bytes_at m a n = bytes_at m' a n.
Proof.
  revert a. induction n as [|n IH]; intros a H; simpl; [done|].
  rewrite H by lia. f_equal. apply IH. intros. apply H. lia.
Qed.

Lemma bytes_at_bytes m a n : (forall x, is_byte (m x)) -> Forall is_byte (bytes_at m a n).
Proof. intros H. revert a. induction n; intros; simpl; constructor; auto. Qed.

Lemma bytes_at_lookup m a n x :
  a <= x < a + Z.of_nat n -> bytes_at m a n !! Z.to_nat (x - a) = Some (m x).
Proof.
  revert a. induction n as [|n IH]; intros a H; [lia|]. simpl.
  destruct (Z.eq_dec x a) as [->|].
  - by rewrite Z.sub_diag.
  - replace (Z.to_nat (x - a)) with (S (Z.to_nat (x - (a + 1)))) by lia. simpl. apply IH. lia.
Qed.

(** A range inside a part of a range that is known. *)
Lemma bytes_at_eq_inv m a l x :
  bytes_at m a (length l) = l -> a <= x < a + Z.of_nat (length l) -> l !! Z.to_nat (x - a) = Some (m x).
Proof. intros E H. rewrite <- E. by apply bytes_at_lookup. Qed.

(** [m'] is [m] with [data] written at [a]. *)
Definition written (m m' : Z -> Z) (a : Z) (data : list Z) : Prop :=
  bytes_at m' a (length data) = data /\
  forall x, ~ a <= x < a + Z.of_nat (length data) -> m' x = m x.

(** [m'] differs from [m] only inside the range. *)
Definition frame (m m' : Z -> Z) (a n : Z) : Prop := forall x, ~ a <= x < a + n -> m' x = m x.

Lemma written_frame m m' a data : written m m' a data -> frame m m' a (Z.of_nat (length data)).
Proof. by intros [_ ?]. Qed.

Lemma written_nil m m' a : (forall x, m' x = m x) -> written m m' a [].
Proof. intros H. split; [done|]. intros x _. apply H. Qed.

Lemma frame_mono m m' a n a' n' : frame m m' a n -> a' <= a -> a + n <= a' + n' -> frame m m' a' n'.
Proof. intros H ? ? x Hx. apply H. lia. Qed.

Lemma frame_trans m m' m'' a n : frame m m' a n -> frame m' m'' a n -> frame m m'' a n.
Proof. intros H1 H2 x Hx. rewrite H2, H1; done. Qed.

Lemma bytes_at_frame m m' a n b k :
  frame m m' a n -> (b + Z.of_nat k <= a \/ a + n <= b) -> bytes_at m' b k = bytes_at m b k.
Proof. intros H Hd. apply bytes_at_ext. intros x Hx. apply H. lia. Qed.

(** Two adjacent writes are one. *)
Lemma written_app m m' m'' a l1 l2 :
  written m m' a l1 -> written m' m'' (a + Z.of_nat (length l1)) l2 -> written m m'' a (l1 ++ l2).
Proof.
  intros [B1 F1] [B2 F2]. split.
  - rewrite length_app, bytes_at_app, B2. f_equal. rewrite <- B1 at 2.
    apply bytes_at_ext. intros x Hx. apply F2. lia.
  - intros x Hx. rewrite length_app in Hx. rewrite F2, F1; [done|lia|lia].
Qed.

(** ** The I2C transactions *)

Record i2c_msg := I2cMsg {
  msg_addr : Z;          (* 7-bit device address *)
  msg_rd : bool;         (* I2C_M_RD *)
  msg_len : Z;
  msg_buf : list Z       (* the bytes sent; a read message carries none *)
}.

(** The adapter: runs the messages as one transaction, returns the number of messages
    executed or an error, and the bytes of the read message. *)
Class I2cBus (bus : Type) := i2c_transfer : list i2c_msg -> bus -> (Z * list Z) * bus.

Record i2c_adapter_quirks := Quirks { max_read_len : Z; max_write_len : Z }.

Definition EEPROM_PAGE_SIZE : Z := 256.
Definition EEPROM_PAGE_MASK : Z := 255.
Definition EEPROM_OFFSET_SIZE : Z := 2.
Definition U16_MAX : Z := 65535.

Definition MAKE_I2C_ADDR (aa : Z) : Z := Z.lor (Z.shiftl 10 3) (Z.land (Z.shiftr aa 16) 15).

(** A read stores its bytes in the caller's buffer. *)
Definition buf_store (buf : list Z) (pos : Z) (data : list Z) : list Z :=
  take (Z.to_nat pos) buf ++ data ++ drop (Z.to_nat pos + length data) buf.

Section Xfer.
Context {bus : Type} {B : I2cBus bus}.

Definition transfer (msgs : list i2c_msg) : stM bus (Z * list Z) := fun s => Some (i2c_transfer msgs s).

Definition xfer_msgs (read : bool) (eeprom_addr len : Z) (data : list Z) : list i2c_msg :=
  [I2cMsg (MAKE_I2C_ADDR eeprom_addr) false EEPROM_OFFSET_SIZE
     [Z.land (Z.shiftr eeprom_addr 8) 255; Z.land eeprom_addr 255];
   I2cMsg (MAKE_I2C_ADDR eeprom_addr) read len (if read then [] else data)].

Definition xfer_len (read : bool) (eeprom_addr buf_size : Z) : Z :=
  u16 (if read then Z.min U16_MAX buf_size
       else Z.min (EEPROM_PAGE_SIZE - Z.land eeprom_addr EEPROM_PAGE_MASK) buf_size).

(** [pos] is [eeprom_buf - p]. *)
Fixpoint xfer_loop (fuel : nat) (read : bool) (r pos eeprom_addr : Z) (buf : list Z) (buf_size : Z)
    : stM bus (Z * list Z) :=
  match fuel with
  | O => st_bug
  | S fuel =>
      if 0 <? buf_size then
        let len := xfer_len read eeprom_addr buf_size in
        x <- transfer (xfer_msgs read eeprom_addr len (take (Z.to_nat len) (drop (Z.to_nat pos) buf))) ;;
        let '(r, data) := x in
        let buf := if read then buf_store buf pos data else buf in
        if r =? 2 then
          xfer_loop fuel read r (pos + len) (u32 (eeprom_addr + len)) buf (u32 (buf_size - len))
        else st_ret (if r <? 0 then r else s32 pos, buf)
      else st_ret (if r <? 0 then r else s32 pos, buf)
  end.

Definition __amdgpu_eeprom_xfer (eeprom_addr : Z) (eeprom_buf : list Z) (buf_size : Z) (read : bool)
    : stM bus (Z * list Z) :=
  xfer_loop (S (Z.to_nat buf_size)) read 0 0 eeprom_addr eeprom_buf buf_size.

Fixpoint limit_loop (fuel : nat) (read : bool) (limit res pos eeprom_addr : Z) (buf : list Z) (buf_size : Z)
    : stM bus (Z * list Z) :=
  match fuel with
  | O => st_bug
  | S fuel =>
      if 0 <? buf_size then
        let ps := u16 (Z.min limit buf_size) in
        x <- __amdgpu_eeprom_xfer eeprom_addr (drop (Z.to_nat pos) buf) ps read ;;
        let '(r, rest) := x in
        let buf := take (Z.to_nat pos) buf ++ rest in
        if r <? 0 then st_ret (r, buf)
        else limit_loop fuel read limit (s32 (res + r)) (pos + ps) (u32 (eeprom_addr + ps)) buf
               (u32 (buf_size - ps))
      else st_ret (res, buf)
  end.

Definition amdgpu_eeprom_xfer (quirks : option i2c_adapter_quirks) (eeprom_addr : Z) (eeprom_buf : list Z)
    (buf_size : Z) (read : bool) : stM bus (Z * list Z) :=
  let limit := match quirks with
               | None => 0
               | Some q => if read then max_read_len q else max_write_len q
               end in
  if limit =? 0 then __amdgpu_eeprom_xfer eeprom_addr eeprom_buf buf_size read
  else if limit <=? EEPROM_OFFSET_SIZE then st_ret (- EINVAL, eeprom_buf)
  else limit_loop (S (Z.to_nat buf_size)) read (u16 (limit - EEPROM_OFFSET_SIZE)) 0 0 eeprom_addr
         eeprom_buf buf_size.

Definition amdgpu_eeprom_read (quirks : option i2c_adapter_quirks) (eeprom_addr : Z) (eeprom_buf : list Z)
    (bytes : Z) : stM bus (Z * list Z) :=
  amdgpu_eeprom_xfer quirks eeprom_addr eeprom_buf bytes true.

Definition amdgpu_eeprom_write (quirks : option i2c_adapter_quirks) (eeprom_addr : Z) (eeprom_buf : list Z)
    (bytes : Z) : stM bus Z :=
  x <- amdgpu_eeprom_xfer quirks eeprom_addr eeprom_buf bytes false ;; st_ret (fst x).
End Xfer.

(** ** The chip

    What the data sheets of the parts the code names (AT24CM02, M24M02) say of a
    transaction that addresses byte [hi * 65536 + b1 * 256 + b0]: a write inside one
    256-byte page stores the bytes there, a sequential read inside one 2-Mbit part
    returns them, and a transaction that fails may have stored any of its bytes but
    touches nothing else. *)

(** The range lies inside one of the two 2-Mbit parts of the 19-bit space. *)
Definition in_part (a n : Z) : Prop :=
  (0 <= a /\ a + n <= 2 ^ 18) \/ (2 ^ 18 <= a /\ a + n <= 2 ^ 19).

Class At24 (bus : Type) `{!I2cBus bus} := {
  cell : bus -> Z -> Z;
  cell_byte : forall s a, is_byte (cell s a);
  at24_rel : Prop;         (* no transaction fails *)
  at24_write : forall s hi b1 b0 data,
    0 <= hi < 8 -> is_byte b1 -> is_byte b0 -> Forall is_byte data ->
    0 < Z.of_nat (length data) -> b0 + Z.of_nat (length data) <= 256 ->
    let a := hi * 65536 + b1 * 256 + b0 in
    let '((r, _), s') := i2c_transfer [I2cMsg (80 + hi) false 2 [b1; b0];
                                       I2cMsg (80 + hi) false (Z.of_nat (length data)) data] s in
    r <= 2 /\ frame (cell s) (cell s') a (Z.of_nat (length data)) /\
    (r = 2 -> bytes_at (cell s') a (length data) = data) /\ (at24_rel -> r = 2);
  at24_read : forall s hi b1 b0 n,
    0 <= hi < 8 -> is_byte b1 -> is_byte b0 -> 0 < n < 65536 ->
    let a := hi * 65536 + b1 * 256 + b0 in
    in_part a n ->
    let '((r, data), s') := i2c_transfer [I2cMsg (80 + hi) false 2 [b1; b0]; I2cMsg (80 + hi) true n []] s in
    r <= 2 /\ (forall x, cell s' x = cell s x) /\ length data = Z.to_nat n /\
    (r = 2 -> data = bytes_at (cell s) a (Z.to_nat n)) /\ (at24_rel -> r = 2)
}.

(** ** The linear memory the rest of the driver sees *)

Class EepromDev (dev : Type) := {
  dev_read : Z -> list Z -> Z -> stM dev (Z * list Z);
  dev_write : Z -> list Z -> Z -> stM dev Z
}.

(** A read or write of [n] bytes returns at most [n]. When it returns [n] the bytes
    were transferred; otherwise a write may have changed bytes of its range only. *)
Class EepromDevSpec (dev : Type) `{!EepromDev dev} := {
  dev_cell : dev -> Z -> Z;
  dev_cell_byte : forall s a, is_byte (dev_cell s a);
  dev_rel : Prop;          (* no transfer fails *)
  dev_read_ok : forall s a buf n,
    0 <= n -> in_part a n -> n <= Z.of_nat (length buf) ->
    wp (dev_read a buf n) (fun x s' =>
      (forall y, dev_cell s' y = dev_cell s y) /\ length (snd x) = length buf /\ fst x <= n /\
      (fst x = n -> snd x = bytes_at (dev_cell s) a (Z.to_nat n) ++ drop (Z.to_nat n) buf) /\
      (dev_rel -> fst x = n)) s;
  dev_write_ok : forall s a buf n,
    0 <= n -> in_part a n -> n <= Z.of_nat (length buf) -> Forall is_byte buf ->
    wp (dev_write a buf n) (fun r s' =>
      frame (dev_cell s) (dev_cell s') a n /\ r <= n /\
      (r = n -> bytes_at (dev_cell s') a (Z.to_nat n) = take (Z.to_nat n) buf) /\
      (dev_rel -> r = n)) s
}.

Lemma in_part_sub a n b k : in_part a n -> a <= b -> b + k <= a + n -> in_part b k.
Proof. unfold in_part. lia. Qed.

Lemma in_part_range a n : in_part a n -> 0 <= n -> 0 <= a /\ a + n <= 2 ^ 19 /\ n <= 2 ^ 18.
Proof. unfold in_part. lia. Qed.

Section AddressBytes.
Context (a : Z).
Hypothesis Ha : 0 <= a < 2 ^ 19.

Lemma make_i2c_addr : MAKE_I2C_ADDR a = 80 + a / 65536 /\ 0 <= a / 65536 < 8.
Proof using Ha.
  unfold MAKE_I2C_ADDR. rewrite Z.shiftr_div_pow2 by lia. change (2 ^ 16) with 65536.
  assert (0 <= a / 65536 < 8) as H by (split; [apply Z.div_pos|apply Z.div_lt_upper_bound]; lia).
  split; [|done]. generalize dependent (a / 65536). intros hi H.
  assert (hi = 0 \/ hi = 1 \/ hi = 2 \/ hi = 3 \/ hi = 4 \/ hi = 5 \/ hi = 6 \/ hi = 7)
    as [->|[->|[->|[->|[->|[->|[->| ->]]]]]]] by lia; done.
Qed.

Lemma offset_bytes :
  Z.land (Z.shiftr a 8) 255 = a / 256 mod 256 /\ Z.land a 255 = a mod 256 /\
  a / 65536 * 65536 + a / 256 mod 256 * 256 + a mod 256 = a.
Proof using Ha.
  rewrite Z.shiftr_div_pow2 by lia. change (2 ^ 8) with 256. change 255 with (Z.ones 8).
  rewrite !Z.land_ones by lia. change (2 ^ 8) with 256. split_and!; [done..|].
  replace (a / 65536) with (a / 256 / 256) by (rewrite Z.div_div; [done|lia..]).
  pose proof (Z.div_mod a 256 ltac:(lia)). pose proof (Z.div_mod (a / 256) 256 ltac:(lia)). lia.
Qed.

(** The page rule: a write that stays in the page of [a]. *)
Lemma xfer_len_write n : 0 < n <= 2 ^ 18 -> xfer_len false a n = Z.min (256 - a mod 256) n.
Proof using Ha.
  intros Hn. unfold xfer_len, EEPROM_PAGE_SIZE, EEPROM_PAGE_MASK. destruct offset_bytes as (_ & -> & _).
  pose proof (Z.mod_pos_bound a 256). apply wrap_small. lia.
Qed.

Lemma xfer_len_read n : 0 < n <= 2 ^ 18 -> xfer_len true a n = Z.min U16_MAX n.
Proof using Ha. intros Hn. unfold xfer_len, U16_MAX. apply wrap_small. lia. Qed.
End AddressBytes.

Lemma s32_small x : 0 <= x < 2 ^ 31 -> s32 x = x.
Proof. intros. apply swrap_small; lia. Qed.

(** ** The transfer code on the chip *)
Section XferProofs.
Context {bus : Type} {B : I2cBus bus} {C : At24 bus}.

Lemma wp_transfer_read s a n data :
  0 < n < 65536 -> in_part a n ->
  wp (transfer (xfer_msgs true a n data)) (fun x s' =>
    fst x <= 2 /\ (forall y, cell s' y = cell s y) /\ length (snd x) = Z.to_nat n /\
    (fst x = 2 -> snd x = bytes_at (cell s) a (Z.to_nat n)) /\ (at24_rel -> fst x = 2)) s.
Proof.
  intros Hn Hp. assert (0 <= a < 2 ^ 19) as Ha by (apply in_part_range in Hp; lia).
  destruct (make_i2c_addr a Ha) as [E1 Hhi]. destruct (offset_bytes a Ha) as (E2 & E3 & E4).
  unfold transfer, wp, xfer_msgs. rewrite E1, E2, E3.
  pose proof (at24_read s (a / 65536) (a / 256 mod 256) (a mod 256) n Hhi) as H. cbv zeta in H.
  rewrite E4 in H. change EEPROM_OFFSET_SIZE with 2.
  destruct (i2c_transfer _ s) as [[r d] s'].
  apply H; [apply Z.mod_pos_bound; lia..|done|done].
Qed.

Lemma wp_transfer_write s a data :
  0 < Z.of_nat (length data) -> in_part a (Z.of_nat (length data)) -> Forall is_byte data ->
  a mod 256 + Z.of_nat (length data) <= 256 ->
  wp (transfer (xfer_msgs false a (Z.of_nat (length data)) data)) (fun x s' =>
    fst x <= 2 /\ frame (cell s) (cell s') a (Z.of_nat (length data)) /\
    (fst x = 2 -> bytes_at (cell s') a (length data) = data) /\ (at24_rel -> fst x = 2)) s.
Proof.
  intros Hn Hp Hb Hpage. assert (0 <= a < 2 ^ 19) as Ha by (apply in_part_range in Hp; lia).
  destruct (make_i2c_addr a Ha) as [E1 Hhi]. destruct (offset_bytes a Ha) as (E2 & E3 & E4).
  unfold transfer, wp, xfer_msgs. rewrite E1, E2, E3.
  pose proof (at24_write s (a / 65536) (a / 256 mod 256) (a mod 256) data Hhi) as H. cbv zeta in H.
  rewrite E4 in H. change EEPROM_OFFSET_SIZE with 2.
  destruct (i2c_transfer _ s) as [[r d] s'].
  apply H; [apply Z.mod_pos_bound; lia..|done|done|done].
Qed.

Lemma length_buf_store buf pos data :
  0 <= pos -> pos + Z.of_nat (length data) <= Z.of_nat (length buf) ->
  length (buf_store buf pos data) = length buf.
Proof. intros. unfold buf_store. rewrite !length_app, length_take, length_drop. lia. Qed.

Lemma take_buf_store buf pos data :
  0 <= pos -> pos + Z.of_nat (length data) <= Z.of_nat (length buf) ->
  take (Z.to_nat (pos + Z.of_nat (length data))) (buf_store buf pos data) = take (Z.to_nat pos) buf ++ data.
Proof.
  intros. unfold buf_store. rewrite app_assoc, take_app_le; [apply take_ge|];
    rewrite length_app, length_take; lia.
Qed.

Lemma drop_buf_store buf pos data k :
  0 <= pos -> pos + Z.of_nat (length data) <= Z.of_nat (length buf) ->
  (Z.to_nat pos + length data <= k)%nat -> drop k (buf_store buf pos data) = drop k buf.
Proof.
  intros. unfold buf_store. rewrite app_assoc, drop_app_ge by (rewrite length_app, length_take; lia).
  rewrite drop_drop. f_equal. rewrite length_app, length_take. lia.
Qed.

Lemma xfer_loop_read fuel r pos a buf n s :
  (Z.to_nat n < fuel)%nat -> 0 <= r -> 0 <= pos -> 0 <= n -> in_part a n ->
  pos + n <= Z.of_nat (length buf) -> pos + n < 2 ^ 31 ->
  wp (xfer_loop fuel true r pos a buf n) (fun x s' =>
    (forall y, cell s' y = cell s y) /\ length (snd x) = length buf /\ fst x <= pos + n /\
    (fst x = pos + n ->
     snd x = take (Z.to_nat pos) buf ++ bytes_at (cell s) a (Z.to_nat n) ++ drop (Z.to_nat (pos + n)) buf) /\
    (at24_rel -> fst x = pos + n)) s.
Proof.
  revert r pos a buf n s. induction fuel as [|fuel IH]; intros r pos a buf n s Hf Hr Hpos Hn Hp Hl Hb; [lia|].
  pose proof (in_part_range _ _ Hp Hn) as (Ha & Ha' & Hn').
  cbn [xfer_loop]. destruct (Z.ltb_spec 0 n).
  - rewrite xfer_len_read by lia. set (len := Z.min U16_MAX n). unfold U16_MAX in *. apply wp_bind.
    eapply wp_mono.
    { apply wp_transfer_read; [lia|]. eapply in_part_sub; [done|lia..]. }
    intros [r' data] s1 (Hr' & Hc & Hd & Hdata & Hrel). cbn [fst snd] in *. destruct (Z.eqb_spec r' 2) as [->|Hne].
    + rewrite !wrap_small by lia. eapply wp_mono.
      { apply (IH 2 (pos + len) (a + len) _ (n - len) s1); [lia..| | |lia].
        - eapply in_part_sub; [done|lia..].
        - rewrite length_buf_store; lia. }
      intros [q b] s2 (Hc2 & Hl2 & Hq & Hfull & Hrel2). cbn [fst snd] in *. split_and!.
      * intros y. by rewrite Hc2.
      * rewrite Hl2. apply length_buf_store; lia.
      * lia.
      * intros ->. rewrite Hfull by lia. replace (pos + len) with (pos + Z.of_nat (length data)) at 1 by lia.
        rewrite take_buf_store, drop_buf_store by lia. rewrite <- app_assoc, Hdata by done.
        replace (Z.to_nat n) with (Z.to_nat len + Z.to_nat (n - len))%nat by lia.
        rewrite bytes_at_app, Z2Nat.id, <- app_assoc by lia. do 3 f_equal.
        -- apply bytes_at_ext. intros; apply Hc.
        -- f_equal. lia.
      * intros R. specialize (Hrel2 R). lia.
    + apply wp_ret. cbn [fst snd]. split_and!; [done| | | |by intros ?%Hrel].
      * apply length_buf_store; lia.
      * destruct (Z.ltb_spec r' 0); [lia|]. rewrite s32_small; lia.
      * destruct (Z.ltb_spec r' 0); [lia|]. rewrite s32_small; lia.
  - apply wp_ret. cbn [fst snd]. destruct (Z.ltb_spec r 0); [lia|]. assert (n = 0) as -> by lia.
    rewrite s32_small by lia. split_and!; [done|done|lia| |lia]. intros _.
    by rewrite Z.add_0_r, Z2Nat.inj_0, app_nil_l, take_drop.
Qed.

Lemma xfer_loop_write fuel r pos a buf n s :
  (Z.to_nat n < fuel)%nat -> 0 <= r -> 0 <= pos -> 0 <= n -> in_part a n ->
  pos + n <= Z.of_nat (length buf) -> Forall is_byte buf -> pos + n < 2 ^ 31 ->
  wp (xfer_loop fuel false r pos a buf n) (fun x s' =>
    frame (cell s) (cell s') a n /\ snd x = buf /\ fst x <= pos + n /\
    (fst x = pos + n -> bytes_at (cell s') a (Z.to_nat n) = take (Z.to_nat n) (drop (Z.to_nat pos) buf)) /\
    (at24_rel -> fst x = pos + n)) s.
Proof.
  revert r pos a n s. induction fuel as [|fuel IH]; intros r pos a n s Hf Hr Hpos Hn Hp Hl Hby Hb; [lia|].
  pose proof (in_part_range _ _ Hp Hn) as (Ha & Ha' & Hn').
  cbn [xfer_loop]. destruct (Z.ltb_spec 0 n).
  - rewrite xfer_len_write by lia. set (len := Z.min (256 - a mod 256) n).
    pose proof (Z.mod_pos_bound a 256 ltac:(lia)). apply wp_bind.
    set (data := take (Z.to_nat len) (drop (Z.to_nat pos) buf)).
    assert (Z.of_nat (length data) = len) as Hd by (subst data; rewrite length_take, length_drop; lia).
    assert (length data = Z.to_nat len) as Hdn by lia.
    rewrite <- Hd at 1. eapply wp_mono.
    { apply wp_transfer_write; rewrite ?Hd; [lia| | |lia].
      - eapply in_part_sub; [done|lia..].
      - subst data. by apply Forall_take, Forall_drop. }
    intros [r' d] s1 (Hr' & Hfr & Hwr & Hrel). cbn [fst snd] in *. rewrite Hd in Hfr.
    destruct (Z.eqb_spec r' 2) as [->|Hne].
    + rewrite !wrap_small by lia. eapply wp_mono.
      { apply (IH 2 (pos + len) (a + len) (n - len) s1); [lia..| |lia|done|lia].
        eapply in_part_sub; [done|lia..]. }
      intros [q b] s2 (Hfr2 & -> & Hq & Hfull & Hrel2). cbn [fst snd] in *.
      split_and!; [|done|lia| |intros R; specialize (Hrel2 R); lia].
      * eapply frame_trans; (eapply frame_mono; [done|lia..]).
      * intros ->. specialize (Hfull ltac:(lia)). specialize (Hwr eq_refl). rewrite Hdn in Hwr.
        replace (Z.to_nat n) with (Z.to_nat len + Z.to_nat (n - len))%nat by lia.
        rewrite bytes_at_app, Z2Nat.id, Hfull by lia.
        rewrite (bytes_at_frame _ _ _ _ _ _ Hfr2) by lia. rewrite Hwr. subst data.
        rewrite <- take_take_drop, drop_drop. do 3 f_equal. lia.
    + apply wp_ret. cbn [fst snd]. split_and!; [by eapply frame_mono; [done|lia..]|done| | |by intros ?%Hrel];
        (destruct (Z.ltb_spec r' 0); [lia|]; rewrite s32_small; lia).
  - apply wp_ret. cbn [fst snd]. destruct (Z.ltb_spec r 0); [lia|]. assert (n = 0) as -> by lia.
    rewrite s32_small by lia. by split_and!; [|..|lia| |lia].
Qed.

Lemma wp_xfer_read s a buf n :
  0 <= n -> in_part a n -> n <= Z.of_nat (length buf) ->
  wp (__amdgpu_eeprom_xfer a buf n true) (fun x s' =>
    (forall y, cell s' y = cell s y) /\ length (snd x) = length buf /\ fst x <= n /\
    (fst x = n -> snd x = bytes_at (cell s) a (Z.to_nat n) ++ drop (Z.to_nat n) buf) /\ (at24_rel -> fst x = n)) s.
Proof.
  intros Hn Hp Hl. pose proof (in_part_range _ _ Hp Hn). unfold __amdgpu_eeprom_xfer.
  eapply wp_mono; [apply (xfer_loop_read _ 0 0); [lia..|done|lia|lia]|]. by cbn.
Qed.

Lemma wp_xfer_write s a buf n :
  0 <= n -> in_part a n -> n <= Z.of_nat (length buf) -> Forall is_byte buf ->
  wp (__amdgpu_eeprom_xfer a buf n false) (fun x s' =>
    frame (cell s) (cell s') a n /\ snd x = buf /\ fst x <= n /\
    (fst x = n -> bytes_at (cell s') a (Z.to_nat n) = take (Z.to_nat n) buf) /\ (at24_rel -> fst x = n)) s.
Proof.
  intros Hn Hp Hl Hb. pose proof (in_part_range _ _ Hp Hn). unfold __amdgpu_eeprom_xfer.
  eapply wp_mono; [apply (xfer_loop_write _ 0 0); [lia..|done|lia|done|lia]|]. by cbn.
Qed.

(** The loop over the adapter's length limit. A short transaction is not retried:
    it only leaves the total short. *)
Lemma limit_loop_read fuel limit res pos a buf n s :
  0 < limit < 2 ^ 16 ->
  (Z.to_nat n < fuel)%nat -> 0 <= res <= pos -> 0 <= n -> in_part a n ->
  pos + n <= Z.of_nat (length buf) -> pos + n < 2 ^ 31 ->
  wp (limit_loop fuel true limit res pos a buf n) (fun x s' =>
    (forall y, cell s' y = cell s y) /\ length (snd x) = length buf /\ fst x <= res + n /\
    (fst x = res + n ->
     snd x = take (Z.to_nat pos) buf ++ bytes_at (cell s) a (Z.to_nat n) ++ drop (Z.to_nat (pos + n)) buf) /\
    (at24_rel -> fst x = res + n)) s.
Proof.
  intros Hlim. revert res pos a buf n s.
  induction fuel as [|fuel IH]; intros res pos a buf n s Hf Hr Hn Hp Hl Hb; [lia|].
  pose proof (in_part_range _ _ Hp Hn) as (Ha & Ha' & Hn').
  cbn [limit_loop]. destruct (Z.ltb_spec 0 n).
  - rewrite (wrap_small 16) by lia. set (ps := Z.min limit n). apply wp_bind. eapply wp_mono.
    { apply (wp_xfer_read s a _ ps); [lia| |rewrite length_drop; lia]. eapply in_part_sub; [done|lia..]. }
    intros [r rest] s1 (Hc & Hl1 & Hr1 & Hfull1 & Hrel). cbn [fst snd] in *. rewrite length_drop in Hl1.
    set (buf1 := take (Z.to_nat pos) buf ++ rest).
    assert (length buf1 = length buf) as Hb1 by (subst buf1; rewrite length_app, length_take; lia).
    destruct (Z.ltb_spec r 0).
    + apply wp_ret. cbn [fst snd]. split_and!; [done|done|lia|lia|]. intros R. specialize (Hrel R). lia.
    + rewrite s32_small, !wrap_small by lia. eapply wp_mono.
      { apply (IH (res + r) (pos + ps) (a + ps) buf1 (n - ps) s1); [lia..| |lia|lia].
        eapply in_part_sub; [done|lia..]. }
      intros [q b] s2 (Hc2 & Hl2 & Hq & Hfull & Hrel2). cbn [fst snd] in *.
      split_and!; [intros y; by rewrite Hc2|lia|lia| |intros R; specialize (Hrel R); specialize (Hrel2 R); lia].
      intros ->.
      rewrite Hfull by lia. specialize (Hfull1 ltac:(lia)). subst buf1 rest.
      assert (Z.to_nat pos <= length buf)%nat by lia. rewrite drop_drop in *.
      rewrite take_app_ge, drop_app_ge by (rewrite length_take; lia).
      rewrite length_take, drop_app_ge, take_app_le by (rewrite ?length_bytes_at; lia).
      rewrite !length_bytes_at, drop_drop, (take_ge (bytes_at _ _ _)) by (rewrite ?length_bytes_at; lia).
      rewrite <- !app_assoc.
      replace (Z.to_nat n) with (Z.to_nat ps + Z.to_nat (n - ps))%nat by lia.
      rewrite bytes_at_app, Z2Nat.id, <- app_assoc by lia. do 2 f_equal.
      f_equal; [apply bytes_at_ext; intros; apply Hc|f_equal; lia].
  - apply wp_ret. cbn [fst snd]. assert (n = 0) as -> by lia. split_and!; [done|done|lia| |lia].
    intros _. by rewrite Z.add_0_r, Z2Nat.inj_0, app_nil_l, take_drop.
Qed.

Lemma limit_loop_write fuel limit res pos a buf n s :
  0 < limit < 2 ^ 16 ->
  (Z.to_nat n < fuel)%nat -> 0 <= res <= pos -> 0 <= n -> in_part a n ->
  pos + n <= Z.of_nat (length buf) -> Forall is_byte buf -> pos + n < 2 ^ 31 ->
  wp (limit_loop fuel false limit res pos a buf n) (fun x s' =>
    frame (cell s) (cell s') a n /\ fst x <= res + n /\
    (fst x = res + n -> bytes_at (cell s') a (Z.to_nat n) = take (Z.to_nat n) (drop (Z.to_nat pos) buf)) /\
    (at24_rel -> fst x = res + n)) s.
Proof.
  intros Hlim. revert res pos a n s.
  induction fuel as [|fuel IH]; intros res pos a n s Hf Hr Hn Hp Hl Hby Hb; [lia|].
  pose proof (in_part_range _ _ Hp Hn) as (Ha & Ha' & Hn').
  cbn [limit_loop]. destruct (Z.ltb_spec 0 n).
  - rewrite (wrap_small 16) by lia. set (ps := Z.min limit n). apply wp_bind. eapply wp_mono.
    { apply (wp_xfer_write s a _ ps); [lia| |rewrite length_drop; lia|by apply Forall_drop].
      eapply in_part_sub; [done|lia..]. }
    intros [r rest] s1 (Hfr & Hrest & Hr1 & Hwr & Hrel). cbn [fst snd] in *. subst rest. rewrite take_drop.
    destruct (Z.ltb_spec r 0).
    + apply wp_ret. cbn [fst snd]. split_and!; [eapply frame_mono; [done|lia..]|lia|lia|].
      intros R. specialize (Hrel R). lia.
    + rewrite s32_small, !wrap_small by lia. eapply wp_mono.
      { apply (IH (res + r) (pos + ps) (a + ps) (n - ps) s1); [lia..| |lia|done|lia].
        eapply in_part_sub; [done|lia..]. }
      intros [q b] s2 (Hfr2 & Hq & Hfull & Hrel2). cbn [fst snd] in *.
      split_and!; [|lia| |intros R; specialize (Hrel R); specialize (Hrel2 R); lia].
      * eapply frame_trans; (eapply frame_mono; [done|lia..]).
      * intros ->. specialize (Hfull ltac:(lia)). specialize (Hwr ltac:(lia)).
        replace (Z.to_nat n) with (Z.to_nat ps + Z.to_nat (n - ps))%nat by lia.
        rewrite bytes_at_app, Z2Nat.id, Hfull by lia.
        rewrite (bytes_at_frame _ _ _ _ _ _ Hfr2), Hwr by lia.
        rewrite <- take_take_drop, drop_drop. do 3 f_equal. lia.
  - apply wp_ret. cbn [fst snd]. assert (n = 0) as -> by lia. by split_and!; [|lia| |lia].
Qed.

Context (quirks : option i2c_adapter_quirks).
(** The limit the code applies to a transfer in this direction. *)
Definition quirk_limit (read : bool) : Z :=
  match quirks with None => 0 | Some q => if read then max_read_len q else max_write_len q end.
Hypothesis Hquirks : forall q, quirks = Some q -> 0 <= max_read_len q < 2 ^ 16 /\ 0 <= max_write_len q < 2 ^ 16.

Lemma wp_eeprom_read s a buf n :
  0 <= n -> in_part a n -> n <= Z.of_nat (length buf) ->
  wp (amdgpu_eeprom_read quirks a buf n) (fun x s' =>
    (forall y, cell s' y = cell s y) /\ length (snd x) = length buf /\ fst x <= n /\
    (fst x = n -> snd x = bytes_at (cell s) a (Z.to_nat n) ++ drop (Z.to_nat n) buf) /\
    (at24_rel /\ quirk_limit true ∉ [1; 2] -> fst x = n)) s.
Proof using Hquirks.
  intros Hn Hp Hl. pose proof (in_part_range _ _ Hp Hn). unfold amdgpu_eeprom_read, amdgpu_eeprom_xfer.
  assert (forall q, quirks = Some q -> 0 <= max_read_len q < 2 ^ 16) as Hq by (intros q E; by apply Hquirks).
  fold (quirk_limit true). set (limit := quirk_limit true).
  assert (0 <= limit < 2 ^ 16) by (subst limit; unfold quirk_limit; destruct quirks as [q|]; [by apply Hq|lia]).
  unfold EEPROM_OFFSET_SIZE. destruct (Z.eqb_spec limit 0).
  { eapply wp_mono; [by apply wp_xfer_read|]. naive_solver. }
  destruct (Z.leb_spec limit 2).
  - apply wp_ret. cbn [fst snd]. unfold EINVAL. split_and!; [done|done|lia|lia|].
    intros [_ []]. rewrite !elem_of_cons. lia.
  - rewrite (wrap_small 16) by lia.
    eapply wp_mono; [apply (limit_loop_read _ _ 0 0); [lia..|done|lia|lia]|]. cbn. naive_solver.
Qed.

Lemma wp_eeprom_write s a buf n :
  0 <= n -> in_part a n -> n <= Z.of_nat (length buf) -> Forall is_byte buf ->
  wp (amdgpu_eeprom_write quirks a buf n) (fun r s' =>
    frame (cell s) (cell s') a n /\ r <= n /\
    (r = n -> bytes_at (cell s') a (Z.to_nat n) = take (Z.to_nat n) buf) /\
    (at24_rel /\ quirk_limit false ∉ [1; 2] -> r = n)) s.
Proof using Hquirks.
  intros Hn Hp Hl Hb. pose proof (in_part_range _ _ Hp Hn). unfold amdgpu_eeprom_write, amdgpu_eeprom_xfer.
  assert (forall q, quirks = Some q -> 0 <= max_write_len q < 2 ^ 16) as Hq by (intros q E; by apply Hquirks).
  fold (quirk_limit false). set (limit := quirk_limit false).
  assert (0 <= limit < 2 ^ 16) by (subst limit; unfold quirk_limit; destruct quirks as [q|]; [by apply Hq|lia]).
  apply wp_bind. eapply wp_mono with (Q := fun x s' => frame (cell s) (cell s') a n /\ fst x <= n /\
    (fst x = n -> bytes_at (cell s') a (Z.to_nat n) = take (Z.to_nat n) buf) /\
    (at24_rel /\ quirk_limit false ∉ [1; 2] -> fst x = n)); [|by intros [r b] s1 ?].
  unfold EEPROM_OFFSET_SIZE. destruct (Z.eqb_spec limit 0).
  { eapply wp_mono; [by apply wp_xfer_write|]. naive_solver. }
  destruct (Z.leb_spec limit 2).
  - apply wp_ret. cbn [fst snd]. unfold EINVAL. split_and!; [done|lia|lia|].
    intros [_ []]. rewrite !elem_of_cons. lia.
  - rewrite (wrap_small 16) by lia.
    eapply wp_mono; [apply (limit_loop_write _ _ 0 0); [lia..|done|lia|done|lia]|]. cbn. naive_solver.
Qed.
End XferProofs.

(** The transfer code is a linear memory for its clients. *)
Instance eeprom_dev {bus} `{!I2cBus bus} (quirks : option i2c_adapter_quirks) : EepromDev bus := {
  dev_read := amdgpu_eeprom_read quirks;
  dev_write := amdgpu_eeprom_write quirks
}.

Definition quirks_ok (quirks : option i2c_adapter_quirks) : Prop :=
  forall q, quirks = Some q -> 0 <= max_read_len q < 2 ^ 16 /\ 0 <= max_write_len q < 2 ^ 16.

Definition eeprom_dev_spec {bus} {B : I2cBus bus} {C : At24 bus} quirks (Hq : quirks_ok quirks) :
    @EepromDevSpec bus (eeprom_dev quirks).
Proof.
  refine (@Build_EepromDevSpec bus (eeprom_dev quirks) cell cell_byte
    (at24_rel /\ (quirk_limit quirks true ∉ [1; 2]) /\ (quirk_limit quirks false ∉ [1; 2])) _ _); intros.
  - eapply wp_mono; [by apply (wp_eeprom_read quirks Hq)|]. naive_solver.
  - eapply wp_mono; [by apply (wp_eeprom_write quirks Hq)|]. naive_solver.
Defined.
