(* ===== verification/RasEeprom.v ===== *)
(** * The RAS bad page table: model of amd/amdgpu/amdgpu_ras_eeprom.c

    Retired pages survive a reboot in a table in EEPROM: a 20-byte header, from
    version 2.1 on a 256-byte block with the health of the GPU, then a ring of 24-byte
    records. The driver keeps a copy of the header and the position of the ring in
    [struct amdgpu_ras_eeprom_control]. This file translates the table's operations;
    EEPROM access goes through the interface [EepromDev], allocations that may fail
    are flags of the environment, and the device's properties are its fields. *)

From stdpp Require Import list strings.
From Stdlib Require Import ZArith Lia.
From S2P Require Import Prelude Bytes Eeprom.
Open Scope st_scope.

Definition RAS_TABLE_HEADER_SIZE : Z := 20.
Definition RAS_TABLE_RECORD_SIZE : Z := 24.
Definition RAS_TABLE_HDR_VAL : Z := 0x414d4452.
Definition RAS_TABLE_HDR_BAD : Z := 0x42414447.
Definition RAS_TBL_SIZE_BYTES : Z := 256 * 1024.
Definition RAS_HDR_START : Z := 0.
Definition RAS_RECORD_START : Z := RAS_HDR_START + RAS_TABLE_HEADER_SIZE.
Definition RAS_MAX_RECORD_COUNT : Z :=
  (RAS_TBL_SIZE_BYTES - RAS_TABLE_HEADER_SIZE) / RAS_TABLE_RECORD_SIZE.
Definition RAS_TABLE_V2_1_INFO_SIZE : Z := 256.
Definition RAS_TABLE_V2_1_INFO_START : Z := RAS_TABLE_HEADER_SIZE.
Definition RAS_RECORD_START_V2_1 : Z := RAS_HDR_START + RAS_TABLE_HEADER_SIZE + RAS_TABLE_V2_1_INFO_SIZE.
Definition RAS_MAX_RECORD_COUNT_V2_1 : Z :=
  (RAS_TBL_SIZE_BYTES - RAS_TABLE_HEADER_SIZE - RAS_TABLE_V2_1_INFO_SIZE) / RAS_TABLE_RECORD_SIZE.
Definition RAS_TABLE_VER_V1 : Z := 0x00010000.
Definition RAS_TABLE_VER_V2_1 : Z := 0x00021000.
Definition RAS_TABLE_VER_V3 : Z := 0x00030000.
Definition GPU_HEALTH_USABLE : Z := 0.
Definition GPU_RETIRED__ECC_REACH_THRESHOLD : Z := 2.
Definition EEPROM_I2C_MADDR_0 : Z := 0.
Definition EEPROM_I2C_MADDR_4 : Z := 0x40000.
Definition UMC_NPS_SHIFT : Z := 40.
Definition AMDGPU_NPS1_PARTITION_MODE : Z := 1.

Definition IP_VERSION (mj mn rv : Z) : Z := Z.lor (Z.lor (Z.shiftl mj 24) (Z.shiftl mn 16)) (Z.shiftl rv 8).
Definition IP_VERSION_MAJ (ver : Z) : Z := Z.shiftr ver 24.

(** ** Data *)

Record table_header := TableHeader {
  header : Z;
  version : Z;
  first_rec_offset : Z;
  tbl_size : Z;
  checksum : Z
}.

Record table_ras_info := TableRasInfo {
  rma_status : Z;
  health_percent : Z;
  ecc_page_threshold : Z;
  padding : list Z         (* 63 words *)
}.

Record eeprom_control := Control {
  tbl_hdr : table_header;
  tbl_rai : table_ras_info;
  i2c_address : Z;
  ras_header_offset : Z;
  ras_info_offset : Z;
  ras_record_offset : Z;
  ras_num_recs : Z;
  ras_num_bad_pages : Z;
  ras_num_mca_recs : Z;
  ras_num_pa_recs : Z;
  ras_fri : Z;
  ras_max_record_count : Z;
  bad_channel_bitmap : Z;
  is_eeprom_valid : bool
}.

(** [offset] is in a union with [address], [bank] with [cu]. *)
Record eeprom_table_record := TableRecord {
  offset : Z;
  retired_page : Z;
  ts : Z;
  err_type : Z;
  bank : Z;
  mem_channel : Z;
  mcumc_id : Z
}.

(** The table, the parts of [struct amdgpu_ras] it touches, and the EEPROM. *)
Record ras_state (dev : Type) := RasState {
  ctl : eeprom_control;
  is_rma : bool;
  update_channel_flag : bool;
  hw : dev
}.
Arguments RasState {dev}.
Arguments ctl {dev}.
Arguments is_rma {dev}.
Arguments update_channel_flag {dev}.
Arguments hw {dev}.

(** The device and the module's parameters; [kalloc_*] tell whether the allocation in
    the named function succeeds. *)
Record ras_env := RasEnv {
  mp1_version : Z;                       (* amdgpu_ip_version(adev, MP1_HWIP, 0) *)
  is_app_apu : bool;
  i2c_bus_ready : bool;                  (* the adapter and its algorithm exist *)
  rom_addr : option Z;                   (* amdgpu_atomfirmware_ras_rom_addr, with a VBIOS *)
  is_vega20 : bool;
  vbios_pn_has : string -> bool;         (* strnstr on the part number *)
  umc_version : Z;                       (* amdgpu_ip_version(adev, UMC_HWIP, 0) *)
  retire_unit : Z;
  query_mem_partition_mode : option Z;
  amdgpu_bad_page_threshold : Z;
  bad_page_cnt_threshold : Z;
  umc_ras_enabled : bool;                (* con->features & BIT(AMDGPU_RAS_BLOCK__UMC) *)
  kalloc_write_info : bool;
  kalloc_read_info : bool;
  kalloc_append : bool;
  kalloc_update : bool;
  kalloc_read : bool;
  kalloc_verify : bool
}.

(** Assignments to a field. *)
Definition set_header (x : Z) (h : table_header) : table_header :=
  TableHeader x (version h) (first_rec_offset h) (tbl_size h) (checksum h).
Definition set_version (x : Z) (h : table_header) : table_header :=
  TableHeader (header h) x (first_rec_offset h) (tbl_size h) (checksum h).
Definition set_first_rec_offset (x : Z) (h : table_header) : table_header :=
  TableHeader (header h) (version h) x (tbl_size h) (checksum h).
Definition set_tbl_size (x : Z) (h : table_header) : table_header :=
  TableHeader (header h) (version h) (first_rec_offset h) x (checksum h).
Definition set_checksum (x : Z) (h : table_header) : table_header :=
  TableHeader (header h) (version h) (first_rec_offset h) (tbl_size h) x.
Definition set_rma_status (x : Z) (r : table_ras_info) : table_ras_info :=
  TableRasInfo x (health_percent r) (ecc_page_threshold r) (padding r).
Definition set_health_percent (x : Z) (r : table_ras_info) : table_ras_info :=
  TableRasInfo (rma_status r) x (ecc_page_threshold r) (padding r).
Definition set_ecc_page_threshold (x : Z) (r : table_ras_info) : table_ras_info :=
  TableRasInfo (rma_status r) (health_percent r) x (padding r).
Definition set_tbl_hdr (x : table_header) (c : eeprom_control) : eeprom_control :=
  Control x (tbl_rai c) (i2c_address c) (ras_header_offset c) (ras_info_offset c) (ras_record_offset
    c) (ras_num_recs c) (ras_num_bad_pages c) (ras_num_mca_recs c) (ras_num_pa_recs c) (ras_fri c)
    (ras_max_record_count c) (bad_channel_bitmap c) (is_eeprom_valid c).
Definition set_tbl_rai (x : table_ras_info) (c : eeprom_control) : eeprom_control :=
  Control (tbl_hdr c) x (i2c_address c) (ras_header_offset c) (ras_info_offset c) (ras_record_offset
    c) (ras_num_recs c) (ras_num_bad_pages c) (ras_num_mca_recs c) (ras_num_pa_recs c) (ras_fri c)
    (ras_max_record_count c) (bad_channel_bitmap c) (is_eeprom_valid c).
Definition set_i2c_address (x : Z) (c : eeprom_control) : eeprom_control :=
  Control (tbl_hdr c) (tbl_rai c) x (ras_header_offset c) (ras_info_offset c) (ras_record_offset c)
    (ras_num_recs c) (ras_num_bad_pages c) (ras_num_mca_recs c) (ras_num_pa_recs c) (ras_fri c)
    (ras_max_record_count c) (bad_channel_bitmap c) (is_eeprom_valid c).
Definition set_ras_header_offset (x : Z) (c : eeprom_control) : eeprom_control :=
  Control (tbl_hdr c) (tbl_rai c) (i2c_address c) x (ras_info_offset c) (ras_record_offset c)
    (ras_num_recs c) (ras_num_bad_pages c) (ras_num_mca_recs c) (ras_num_pa_recs c) (ras_fri c)
    (ras_max_record_count c) (bad_channel_bitmap c) (is_eeprom_valid c).
Definition set_ras_info_offset (x : Z) (c : eeprom_control) : eeprom_control :=
  Control (tbl_hdr c) (tbl_rai c) (i2c_address c) (ras_header_offset c) x (ras_record_offset c)
    (ras_num_recs c) (ras_num_bad_pages c) (ras_num_mca_recs c) (ras_num_pa_recs c) (ras_fri c)
    (ras_max_record_count c) (bad_channel_bitmap c) (is_eeprom_valid c).
Definition set_ras_record_offset (x : Z) (c : eeprom_control) : eeprom_control :=
  Control (tbl_hdr c) (tbl_rai c) (i2c_address c) (ras_header_offset c) (ras_info_offset c) x
    (ras_num_recs c) (ras_num_bad_pages c) (ras_num_mca_recs c) (ras_num_pa_recs c) (ras_fri c)
    (ras_max_record_count c) (bad_channel_bitmap c) (is_eeprom_valid c).
Definition set_ras_num_recs (x : Z) (c : eeprom_control) : eeprom_control :=
  Control (tbl_hdr c) (tbl_rai c) (i2c_address c) (ras_header_offset c) (ras_info_offset c)
    (ras_record_offset c) x (ras_num_bad_pages c) (ras_num_mca_recs c) (ras_num_pa_recs c) (ras_fri
    c) (ras_max_record_count c) (bad_channel_bitmap c) (is_eeprom_valid c).
Definition set_ras_num_bad_pages (x : Z) (c : eeprom_control) : eeprom_control :=
  Control (tbl_hdr c) (tbl_rai c) (i2c_address c) (ras_header_offset c) (ras_info_offset c)
    (ras_record_offset c) (ras_num_recs c) x (ras_num_mca_recs c) (ras_num_pa_recs c) (ras_fri c)
    (ras_max_record_count c) (bad_channel_bitmap c) (is_eeprom_valid c).
Definition set_ras_num_mca_recs (x : Z) (c : eeprom_control) : eeprom_control :=
  Control (tbl_hdr c) (tbl_rai c) (i2c_address c) (ras_header_offset c) (ras_info_offset c)
    (ras_record_offset c) (ras_num_recs c) (ras_num_bad_pages c) x (ras_num_pa_recs c) (ras_fri c)
    (ras_max_record_count c) (bad_channel_bitmap c) (is_eeprom_valid c).
Definition set_ras_num_pa_recs (x : Z) (c : eeprom_control) : eeprom_control :=
  Control (tbl_hdr c) (tbl_rai c) (i2c_address c) (ras_header_offset c) (ras_info_offset c)
    (ras_record_offset c) (ras_num_recs c) (ras_num_bad_pages c) (ras_num_mca_recs c) x (ras_fri c)
    (ras_max_record_count c) (bad_channel_bitmap c) (is_eeprom_valid c).
Definition set_ras_fri (x : Z) (c : eeprom_control) : eeprom_control :=
  Control (tbl_hdr c) (tbl_rai c) (i2c_address c) (ras_header_offset c) (ras_info_offset c)
    (ras_record_offset c) (ras_num_recs c) (ras_num_bad_pages c) (ras_num_mca_recs c)
    (ras_num_pa_recs c) x (ras_max_record_count c) (bad_channel_bitmap c) (is_eeprom_valid c).
Definition set_ras_max_record_count (x : Z) (c : eeprom_control) : eeprom_control :=
  Control (tbl_hdr c) (tbl_rai c) (i2c_address c) (ras_header_offset c) (ras_info_offset c)
    (ras_record_offset c) (ras_num_recs c) (ras_num_bad_pages c) (ras_num_mca_recs c)
    (ras_num_pa_recs c) (ras_fri c) x (bad_channel_bitmap c) (is_eeprom_valid c).
Definition set_bad_channel_bitmap (x : Z) (c : eeprom_control) : eeprom_control :=
  Control (tbl_hdr c) (tbl_rai c) (i2c_address c) (ras_header_offset c) (ras_info_offset c)
    (ras_record_offset c) (ras_num_recs c) (ras_num_bad_pages c) (ras_num_mca_recs c)
    (ras_num_pa_recs c) (ras_fri c) (ras_max_record_count c) x (is_eeprom_valid c).
Definition set_is_eeprom_valid (x : bool) (c : eeprom_control) : eeprom_control :=
  Control (tbl_hdr c) (tbl_rai c) (i2c_address c) (ras_header_offset c) (ras_info_offset c)
    (ras_record_offset c) (ras_num_recs c) (ras_num_bad_pages c) (ras_num_mca_recs c)
    (ras_num_pa_recs c) (ras_fri c) (ras_max_record_count c) (bad_channel_bitmap c) x.

Definition set_retired_page (x : Z) (r : eeprom_table_record) : eeprom_table_record :=
  TableRecord (offset r) x (ts r) (err_type r) (bank r) (mem_channel r) (mcumc_id r).

(** ** Devices and addresses *)

Definition __is_ras_eeprom_supported (e : ras_env) : bool :=
  let v := mp1_version e in
  if (v =? IP_VERSION 11 0 2) || (v =? IP_VERSION 11 0 7) || (v =? IP_VERSION 13 0 0) ||
     (v =? IP_VERSION 13 0 2) || (v =? IP_VERSION 13 0 10) then true
  else if (v =? IP_VERSION 13 0 6) || (v =? IP_VERSION 13 0 12) || (v =? IP_VERSION 13 0 14) then
    negb (is_app_apu e)
  else false.

(** [Some addr]: the function stores [addr] in [control->i2c_address] and returns true. *)
Definition __get_eeprom_i2c_addr (e : ras_env) : option Z :=
  match rom_addr e with
  | Some i2c_addr => Some (u32 (Z.shiftl (Z.shiftr (Z.land i2c_addr 15) 1) 16))
  | None =>
      let v := mp1_version e in
      if v =? IP_VERSION 11 0 2 then
        Some (if is_vega20 e then EEPROM_I2C_MADDR_0
              else if vbios_pn_has e "D342"%string then EEPROM_I2C_MADDR_0
              else EEPROM_I2C_MADDR_4)
      else if v =? IP_VERSION 11 0 7 then Some EEPROM_I2C_MADDR_0
      else if v =? IP_VERSION 13 0 2 then
        Some (if vbios_pn_has e "D673"%string then EEPROM_I2C_MADDR_4 else EEPROM_I2C_MADDR_0)
      else if v =? IP_VERSION 13 0 0 then
        Some (if vbios_pn_has e "D707"%string then EEPROM_I2C_MADDR_0 else EEPROM_I2C_MADDR_4)
      else if (v =? IP_VERSION 13 0 6) || (v =? IP_VERSION 13 0 10) || (v =? IP_VERSION 13 0 12) ||
              (v =? IP_VERSION 13 0 14) then Some EEPROM_I2C_MADDR_4
      else None
  end.

(** ** Encodings *)

Definition __encode_table_header_to_buf (hdr : table_header) (buf : list Z) : list Z :=
  le_split 4 (header hdr) ++ le_split 4 (version hdr) ++ le_split 4 (first_rec_offset hdr) ++
  le_split 4 (tbl_size hdr) ++ le_split 4 (checksum hdr) ++ drop 20 buf.

(** The [i]-th 32-bit word of a buffer, from little endian. *)
Definition word_at (i : nat) (buf : list Z) : Z := le_combine (take 4 (drop (4 * i) buf)).

Definition __decode_table_header_from_buf (buf : list Z) : table_header :=
  TableHeader (word_at 0 buf) (word_at 1 buf) (word_at 2 buf) (word_at 3 buf) (word_at 4 buf).

Definition __encode_table_ras_info_to_buf (rai : table_ras_info) (buf : list Z) : list Z :=
  let tmp := Z.lor (Z.lor (Z.land (rma_status rai) 0xFF)
                          (Z.land (u32 (Z.shiftl (health_percent rai) 8)) 0xFF00))
                   (Z.land (u32 (Z.shiftl (ecc_page_threshold rai) 16)) 0xFFFF0000) in
  le_split 4 tmp ++ drop 4 buf.

Definition __decode_table_ras_info_from_buf (rai : table_ras_info) (buf : list Z) : table_ras_info :=
  let tmp := word_at 0 buf in
  set_ecc_page_threshold (Z.land (Z.shiftr tmp 16) 0xFFFF)
    (set_health_percent (Z.land (Z.shiftr tmp 8) 0xFF)
      (set_rma_status (Z.land tmp 0xFF) rai)).

Definition __encode_table_record_to_buf (record : eeprom_table_record) : list Z :=
  [u8 (err_type record)] ++ [bank record] ++ le_split 8 (ts record) ++
  le_split 6 (Z.land (offset record) 0xffffffffffff) ++ [mem_channel record] ++ [mcumc_id record] ++
  le_split 6 (Z.land (retired_page record) 0xffffffffffff).

(** [tmp] keeps its two upper bytes when six bytes are copied into it. *)
Definition __decode_table_record_from_buf (buf : list Z) : eeprom_table_record :=
  let tmp := take 8 (drop 2 buf) in
  let ts := le_combine tmp in
  let tmp := take 6 (drop 10 buf) ++ drop 6 tmp in
  let offset := Z.land (le_combine tmp) 0xffffffffffff in
  let tmp := take 6 (drop 18 buf) ++ drop 6 tmp in
  let retired_page := Z.land (le_combine tmp) 0xffffffffffff in
  TableRecord offset retired_page ts (nth 0 buf 0) (nth 1 buf 0) (nth 16 buf 0) (nth 17 buf 0).

(** The packed structures as they lie in the memory of a little-endian machine. *)
Definition header_bytes (hdr : table_header) : list Z :=
  le_split 4 (header hdr) ++ le_split 4 (version hdr) ++ le_split 4 (first_rec_offset hdr) ++
  le_split 4 (tbl_size hdr) ++ le_split 4 (checksum hdr).
Definition ras_info_bytes (rai : table_ras_info) : list Z :=
  le_split 1 (rma_status rai) ++ le_split 1 (health_percent rai) ++ le_split 2 (ecc_page_threshold rai) ++
  flat_map (le_split 4) (padding rai).

Definition __calc_hdr_byte_sum (control : eeprom_control) : Z :=
  byte_sum (take 16 (header_bytes (tbl_hdr control))).
Definition __calc_ras_info_byte_sum (control : eeprom_control) : Z :=
  byte_sum (ras_info_bytes (tbl_rai control)).

(** ** Operations on the table *)
Section Table.
Context {dev : Type} {D : EepromDev dev} (e : ras_env).

Abbreviation st := (ras_state dev).
Abbreviation M := (stM st).

Definition get_ctl : M eeprom_control := st_gets ctl.
Definition mod_ctl (f : eeprom_control -> eeprom_control) : M unit :=
  st_mod (fun s => RasState (f (ctl s)) (is_rma s) (update_channel_flag s) (hw s)).
Definition mod_hdr (f : table_header -> table_header) : M unit :=
  mod_ctl (fun c => set_tbl_hdr (f (tbl_hdr c)) c).
Definition mod_rai (f : table_ras_info -> table_ras_info) : M unit :=
  mod_ctl (fun c => set_tbl_rai (f (tbl_rai c)) c).
Definition set_is_rma (b : bool) : M unit :=
  st_mod (fun s => RasState (ctl s) b (update_channel_flag s) (hw s)).
Definition set_update_channel_flag (b : bool) : M unit :=
  st_mod (fun s => RasState (ctl s) (is_rma s) b (hw s)).

Definition on_hw {A} (m : stM dev A) : M A := fun s =>
  match m (hw s) with
  | Some (a, d) => Some (a, RasState (ctl s) (is_rma s) (update_channel_flag s) d)
  | None => None
  end.
Definition eeprom_write (addr : Z) (buf : list Z) (n : Z) : M Z := on_hw (dev_write addr buf n).
Definition eeprom_read (addr : Z) (buf : list Z) (n : Z) : M (Z * list Z) := on_hw (dev_read addr buf n).

(** [x % n] traps when [n] is zero. *)
Definition umod (x n : Z) : M Z := if n =? 0 then st_bug else st_ret (x mod n).

(** The common ending: a negative result is an error, a short transfer is [-EIO]. *)
Definition io_result (res size : Z) : Z := if res <? 0 then res else if res <? size then - EIO else 0.

Definition zeros (n : Z) : list Z := replicate (Z.to_nat n) 0.

Definition __write_table_header : M Z :=
  control <- get_ctl ;;
  let buf := __encode_table_header_to_buf (tbl_hdr control) (zeros RAS_TABLE_HEADER_SIZE) in
  res <- eeprom_write (u32 (i2c_address control + ras_header_offset control)) buf RAS_TABLE_HEADER_SIZE ;;
  st_ret (io_result res RAS_TABLE_HEADER_SIZE).

Definition __write_table_ras_info : M Z :=
  if negb (kalloc_write_info e) then st_ret (- ENOMEM)
  else
    control <- get_ctl ;;
    let buf := __encode_table_ras_info_to_buf (tbl_rai control) (zeros RAS_TABLE_V2_1_INFO_SIZE) in
    res <- eeprom_write (u32 (i2c_address control + ras_info_offset control)) buf RAS_TABLE_V2_1_INFO_SIZE ;;
    st_ret (io_result res RAS_TABLE_V2_1_INFO_SIZE).

Definition word_sum (w : Z) : Z := sumZ id (le_split 4 w).

Definition amdgpu_ras_eeprom_correct_header_tag (hdr_tag : Z) : M Z :=
  control <- get_ctl ;;
  let hdr := tbl_hdr control in
  let csum := u8 (- checksum hdr) in
  let csum := u8 (csum - word_sum (header hdr)) in
  let csum := u8 (csum + word_sum hdr_tag) in
  let csum := u8 (- csum) in
  mod_hdr (set_header hdr_tag) ;;
  mod_hdr (set_checksum csum) ;;
  __write_table_header.

Definition table_version : Z :=
  let v := umc_version e in
  if v =? IP_VERSION 8 10 0 then RAS_TABLE_VER_V2_1
  else if (v =? IP_VERSION 12 0 0) || (v =? IP_VERSION 12 5 0) then RAS_TABLE_VER_V3
  else RAS_TABLE_VER_V1.
Definition amdgpu_ras_set_eeprom_table_version : M unit := mod_hdr (set_version table_version).

(** Storing the checksum and writing the header, and from version 2.1 on the health
    block: the common end of a reset and of an update. *)
Definition write_checked (csum : Z) : M Z :=
  mod_hdr (set_checksum (u8 (- csum))) ;;
  res <- __write_table_header ;;
  control <- get_ctl ;;
  if (res =? 0) && (RAS_TABLE_VER_V1 <? version (tbl_hdr control)) then __write_table_ras_info
  else st_ret res.

Definition meta_sum (control : eeprom_control) (csum : Z) : Z :=
  let csum := u8 (csum + __calc_hdr_byte_sum control) in
  if RAS_TABLE_VER_V2_1 <=? version (tbl_hdr control) then u8 (csum + __calc_ras_info_byte_sum control)
  else csum.

Definition amdgpu_ras_eeprom_reset_table : M Z :=
  mod_hdr (set_header RAS_TABLE_HDR_VAL) ;;
  amdgpu_ras_set_eeprom_table_version ;;
  control <- get_ctl ;;
  (if RAS_TABLE_VER_V2_1 <=? version (tbl_hdr control) then
     mod_hdr (set_first_rec_offset RAS_RECORD_START_V2_1) ;;
     mod_hdr (set_tbl_size (RAS_TABLE_HEADER_SIZE + RAS_TABLE_V2_1_INFO_SIZE)) ;;
     mod_rai (set_rma_status GPU_HEALTH_USABLE) ;;
     mod_rai (set_health_percent 100) ;;
     mod_rai (set_ecc_page_threshold (u16 (bad_page_cnt_threshold e)))
   else
     mod_hdr (set_first_rec_offset RAS_RECORD_START) ;;
     mod_hdr (set_tbl_size RAS_TABLE_HEADER_SIZE)) ;;
  control <- get_ctl ;;
  res <- write_checked (meta_sum control 0) ;;
  mod_ctl (fun c => set_ras_fri 0 (set_ras_num_pa_recs 0 (set_ras_num_mca_recs 0
                      (set_ras_num_bad_pages 0 (set_ras_num_recs 0 c))))) ;;
  mod_ctl (set_bad_channel_bitmap 0) ;;
  set_update_channel_flag false ;;
  st_ret res.

Definition amdgpu_ras_eeprom_check_err_threshold (control : eeprom_control) : bool :=
  if negb (__is_ras_eeprom_supported e) || (amdgpu_bad_page_threshold e =? 0) then false
  else if negb (umc_ras_enabled e) then false
  else if header (tbl_hdr control) =? RAS_TABLE_HDR_BAD then
    if (amdgpu_bad_page_threshold e =? -1) || (amdgpu_bad_page_threshold e =? -2) then false else true
  else false.

Definition record_addr (control : eeprom_control) (fri : Z) : Z :=
  u32 (i2c_address control + u32 (ras_record_offset control + fri * RAS_TABLE_RECORD_SIZE)).

Definition __amdgpu_ras_eeprom_write (buf : list Z) (fri num : Z) : M Z :=
  control <- get_ctl ;;
  let buf_size := u32 (num * RAS_TABLE_RECORD_SIZE) in
  res <- eeprom_write (record_addr control fri) buf buf_size ;;
  st_ret (io_result res buf_size).

(** The channel of a record joins the set of bad channels. *)
Definition update_bad_channel (record : eeprom_table_record) : M unit :=
  control <- get_ctl ;;
  st_when ((mem_channel record <? 32) &&
           (Z.land (bad_channel_bitmap control) (Z.shiftl 1 (mem_channel record)) =? 0))
    (mod_ctl (fun c => set_bad_channel_bitmap
                         (Z.lor (bad_channel_bitmap c) (Z.shiftl 1 (mem_channel record))) c) ;;
     set_update_channel_flag true).

Fixpoint encode_records (record : list eeprom_table_record) : M (list Z) :=
  match record with
  | [] => st_ret []
  | r :: record =>
      update_bad_channel r ;;
      buf <- encode_records record ;;
      st_ret (__encode_table_record_to_buf r ++ buf)
  end.

(** Two writes: up to the end of the ring, and the rest from its start. *)
Definition write_wrapped (buf : list Z) (a g0 g1 : Z) : M Z :=
  res <- __amdgpu_ras_eeprom_write buf a g0 ;;
  if negb (res =? 0) then st_ret res
  else __amdgpu_ras_eeprom_write (drop (Z.to_nat (u32 (g0 * RAS_TABLE_RECORD_SIZE))) buf) 0 g1.

(** The write of [num] encoded records after the last one. [inl res] is the jump to
    [Out]; [inr (res, b)] falls through to the accounting, as the plain case does even
    when its write failed. *)
Definition append_write (buf : list Z) (num : Z) : M (Z + Z * Z) :=
  control <- get_ctl ;;
  let max := ras_max_record_count control in
  let fri := ras_fri control in
  let a := u32 (fri + ras_num_recs control) in
  let b := u32 (a + num - 1) in
  if b <? max then
    res <- __amdgpu_ras_eeprom_write buf a num ;;
    st_ret (inr (res, b))
  else if a <? max then
    let g0 := u32 (max - a) in
    bm <- umod b max ;;
    let g1 := u32 (bm + 1) in
    res <- write_wrapped buf a g0 g1 ;;
    if negb (res =? 0) then st_ret (inl res)
    else
      f <- umod g1 max ;;
      st_when (fri <? g1) (mod_ctl (set_ras_fri f)) ;;
      st_ret (inr (res, b))
  else
    a <- umod a max ;;
    b <- umod b max ;;
    if a <=? b then
      res <- __amdgpu_ras_eeprom_write buf a num ;;
      if negb (res =? 0) then st_ret (inl res)
      else
        f <- umod (u32 (b + 1)) max ;;
        st_when (fri <=? b) (mod_ctl (set_ras_fri f)) ;;
        st_ret (inr (res, b))
    else
      let g0 := u32 (max - a) in
      let g1 := u32 (b + 1) in
      res <- write_wrapped buf a g0 g1 ;;
      if negb (res =? 0) then st_ret (inl res)
      else
        f <- umod g1 max ;;
        mod_ctl (set_ras_fri f) ;;
        st_ret (inr (res, b)).

(** The counters after the records were written up to index [b]. *)
Definition append_account (num b : Z) : M unit :=
  control <- get_ctl ;;
  let max := ras_max_record_count control in
  n <- umod (u32 (max + b - ras_fri control)) max ;;
  mod_ctl (set_ras_num_recs (u32 (1 + n))) ;;
  (if IP_VERSION_MAJ (umc_version e) <? 12 then
     mod_ctl (fun c => set_ras_num_pa_recs (u32 (ras_num_pa_recs c + num)) c)
   else
     mod_ctl (fun c => set_ras_num_mca_recs (u32 (ras_num_mca_recs c + num)) c)) ;;
  mod_ctl (fun c => set_ras_num_bad_pages
                      (u32 (ras_num_pa_recs c + u32 (ras_num_mca_recs c * retire_unit e))) c).

Definition amdgpu_ras_eeprom_append_table (record : list eeprom_table_record) : M Z :=
  let num := Z.of_nat (length record) in
  if negb (kalloc_append e) then st_ret (- ENOMEM)
  else
    buf <- encode_records record ;;
    out <- append_write buf num ;;
    match out with
    | inl res => st_ret res
    | inr (res, b) => append_account num b ;; st_ret res
    end.

(** The tag and the health of a table that exceeds the threshold. *)
Definition update_tag : M unit :=
  control <- get_ctl ;;
  st_when (negb (amdgpu_bad_page_threshold e =? 0) &&
           (bad_page_cnt_threshold e <? ras_num_bad_pages control))
    (st_when (negb (amdgpu_bad_page_threshold e =? -1) && negb (amdgpu_bad_page_threshold e =? -2))
       (mod_hdr (set_header RAS_TABLE_HDR_BAD) ;;
        st_when (RAS_TABLE_VER_V2_1 <=? version (tbl_hdr control))
          (mod_rai (set_rma_status GPU_RETIRED__ECC_REACH_THRESHOLD) ;; mod_rai (set_health_percent 0)) ;;
        set_is_rma true)).

Definition table_size (control : eeprom_control) : Z :=
  if RAS_TABLE_VER_V2_1 <=? version (tbl_hdr control) then
    u32 (RAS_TABLE_HEADER_SIZE + RAS_TABLE_V2_1_INFO_SIZE + ras_num_recs control * RAS_TABLE_RECORD_SIZE)
  else u32 (RAS_TABLE_HEADER_SIZE + ras_num_recs control * RAS_TABLE_RECORD_SIZE).

(** A threshold of zero traps in the division. *)
Definition update_health : M unit :=
  control <- get_ctl ;;
  let threshold := bad_page_cnt_threshold e in
  st_when (negb (amdgpu_bad_page_threshold e =? 0) &&
           (RAS_TABLE_VER_V2_1 <=? version (tbl_hdr control)) &&
           (ras_num_bad_pages control <=? threshold))
    (BUG_ON (threshold =? 0) ;;
     mod_rai (set_health_percent (u8 (u32 ((threshold - ras_num_bad_pages control) * 100) / threshold)))).

Definition amdgpu_ras_eeprom_update_header : M Z :=
  update_tag ;;
  control <- get_ctl ;;
  mod_hdr (set_tbl_size (table_size control)) ;;
  mod_hdr (set_checksum 0) ;;
  let buf_size := u32 (ras_num_recs control * RAS_TABLE_RECORD_SIZE) in
  if negb (kalloc_update e) then st_ret (- ENOMEM)
  else
    x <- eeprom_read (u32 (i2c_address control + ras_record_offset control)) (zeros buf_size) buf_size ;;
    let '(res, buf) := x in
    if negb (io_result res buf_size =? 0) then st_ret (io_result res buf_size)
    else
      update_health ;;
      control <- get_ctl ;;
      write_checked (meta_sum control (byte_sum buf)).

Definition nps_bits : Z :=
  u64 (Z.shiftl (default AMDGPU_NPS1_PARTITION_MODE (query_mem_partition_mode e)) UMC_NPS_SHIFT).

(** Returns the result and the caller's array as the function leaves it. *)
Definition amdgpu_ras_eeprom_append (record : list eeprom_table_record) : M (Z * list eeprom_table_record) :=
  control <- get_ctl ;;
  let num := Z.of_nat (length record) in
  if negb (__is_ras_eeprom_supported e) then st_ret (0, record)
  else if num =? 0 then st_ret (- EINVAL, record)
  else if ras_max_record_count control <? num then st_ret (- EINVAL, record)
  else
    let record := map (fun r => set_retired_page (Z.lor (retired_page r) nps_bits) r) record in
    res <- amdgpu_ras_eeprom_append_table record ;;
    res <- (if res =? 0 then amdgpu_ras_eeprom_update_header else st_ret res) ;;
    st_ret (res, map (fun r => set_retired_page (Z.ldiff (retired_page r) nps_bits) r) record).

Definition __amdgpu_ras_eeprom_read (buf : list Z) (fri num : Z) : M (Z * list Z) :=
  control <- get_ctl ;;
  let buf_size := u32 (num * RAS_TABLE_RECORD_SIZE) in
  x <- eeprom_read (record_addr control fri) buf buf_size ;;
  st_ret (io_result (fst x) buf_size, snd x).

Fixpoint decode_records (num : nat) (buf : list Z) : M (list eeprom_table_record) :=
  match num with
  | O => st_ret []
  | S num =>
      let r := __decode_table_record_from_buf buf in
      update_bad_channel r ;;
      record <- decode_records num (drop 24 buf) ;;
      st_ret (r :: record)
  end.

(** Returns the result and, on success, the records read. *)
Definition amdgpu_ras_eeprom_read (num : Z) : M (Z * list eeprom_table_record) :=
  control <- get_ctl ;;
  if negb (__is_ras_eeprom_supported e) then st_ret (0, [])
  else if num =? 0 then st_ret (- EINVAL, [])
  else if ras_num_recs control <? num then st_ret (- EINVAL, [])
  else if negb (kalloc_read e) then st_ret (- ENOMEM, [])
  else
    let buf := zeros (num * RAS_TABLE_RECORD_SIZE) in
    let max := ras_max_record_count control in
    let fri := ras_fri control in
    let g0 := u32 (fri + num - 1) in
    g1 <- umod g0 max ;;
    let '(g0, g1) := if g0 <? max then (num, 0) else (u32 (max - fri), u32 (g1 + 1)) in
    x <- __amdgpu_ras_eeprom_read buf fri g0 ;;
    let '(res, buf) := x in
    if negb (res =? 0) then st_ret (res, [])
    else
      let n0 := Z.to_nat (u32 (g0 * RAS_TABLE_RECORD_SIZE)) in
      x <- (if g1 =? 0 then st_ret (0, drop n0 buf)
            else __amdgpu_ras_eeprom_read (drop n0 buf) 0 g1) ;;
      let '(res, rest) := x in
      if negb (res =? 0) then st_ret (res, [])
      else
        record <- decode_records (Z.to_nat num) (take n0 buf ++ rest) ;;
        st_ret (0, record).

Definition amdgpu_ras_eeprom_max_record_count : M Z :=
  amdgpu_ras_set_eeprom_table_version ;;
  control <- get_ctl ;;
  st_ret (if RAS_TABLE_VER_V2_1 <=? version (tbl_hdr control) then RAS_MAX_RECORD_COUNT_V2_1
          else RAS_MAX_RECORD_COUNT).

(** 0 for a good checksum, positive for a bad one, negative for an error. *)
Definition __verify_ras_table_checksum : M Z :=
  control <- get_ctl ;;
  let buf_size := s32 (table_size control) in
  if negb (kalloc_verify e) then st_ret (- ENOMEM)
  else
    x <- eeprom_read (u32 (i2c_address control + ras_header_offset control)) (zeros buf_size) buf_size ;;
    let '(res, buf) := x in
    if res <? buf_size then st_ret (if 0 <=? res then - EIO else res)
    else st_ret (byte_sum buf).

Definition __read_table_ras_info : M Z :=
  if negb (kalloc_read_info e) then st_ret (- ENOMEM)
  else
    control <- get_ctl ;;
    x <- eeprom_read (u32 (i2c_address control + ras_info_offset control)) (zeros RAS_TABLE_V2_1_INFO_SIZE)
           RAS_TABLE_V2_1_INFO_SIZE ;;
    let '(res, buf) := x in
    if res <? RAS_TABLE_V2_1_INFO_SIZE then st_ret (if 0 <=? res then - EIO else res)
    else
      mod_rai (fun rai => __decode_table_ras_info_from_buf rai buf) ;;
      st_ret (if res =? RAS_TABLE_V2_1_INFO_SIZE then 0 else res).

Definition amdgpu_ras_eeprom_init : M Z :=
  set_is_rma false ;;
  if negb (__is_ras_eeprom_supported e) then st_ret 0
  else if negb (i2c_bus_ready e) then st_ret (- ENOENT)
  else
    match __get_eeprom_i2c_addr e with
    | None => st_ret (- EINVAL)
    | Some addr =>
        mod_ctl (fun c => set_ras_info_offset RAS_TABLE_V2_1_INFO_START
                            (set_ras_header_offset RAS_HDR_START (set_i2c_address addr c))) ;;
        control <- get_ctl ;;
        x <- eeprom_read (u32 (i2c_address control + ras_header_offset control)) (zeros RAS_TABLE_HEADER_SIZE)
               RAS_TABLE_HEADER_SIZE ;;
        let '(res, buf) := x in
        if res <? RAS_TABLE_HEADER_SIZE then st_ret (if 0 <=? res then - EIO else res)
        else
          let hdr := __decode_table_header_from_buf buf in
          mod_hdr (fun _ => hdr) ;;
          if negb (header hdr =? RAS_TABLE_HDR_VAL) && negb (header hdr =? RAS_TABLE_HDR_BAD) then
            amdgpu_ras_eeprom_reset_table
          else
            let v := version hdr in
            if (v =? RAS_TABLE_VER_V2_1) || (v =? RAS_TABLE_VER_V3) || (v =? RAS_TABLE_VER_V1) then
              (if v =? RAS_TABLE_VER_V1 then
                 mod_ctl (fun c => set_ras_max_record_count RAS_MAX_RECORD_COUNT
                   (set_ras_record_offset RAS_RECORD_START
                     (set_ras_num_recs (u32 (tbl_size hdr - RAS_TABLE_HEADER_SIZE) / RAS_TABLE_RECORD_SIZE) c)))
               else
                 mod_ctl (fun c => set_ras_max_record_count RAS_MAX_RECORD_COUNT_V2_1
                   (set_ras_record_offset RAS_RECORD_START_V2_1
                     (set_ras_num_recs (u32 (tbl_size hdr - RAS_TABLE_HEADER_SIZE - RAS_TABLE_V2_1_INFO_SIZE)
                                        / RAS_TABLE_RECORD_SIZE) c)))) ;;
              control <- get_ctl ;;
              if ras_max_record_count control <? ras_num_recs control then st_ret (- EINVAL)
              else
                mod_ctl (fun c => set_ras_num_pa_recs 0 (set_ras_num_mca_recs 0 (set_ras_fri
                  (u32 (first_rec_offset hdr - ras_record_offset c) / RAS_TABLE_RECORD_SIZE) c))) ;;
                st_ret 0
            else st_ret (- EINVAL)
    end.

(** Reading the health block, when the version has one. *)
Definition check_info : M Z :=
  control <- get_ctl ;;
  if RAS_TABLE_VER_V2_1 <=? version (tbl_hdr control) then __read_table_ras_info else st_ret 0.

Definition amdgpu_ras_eeprom_check : M Z :=
  if negb (__is_ras_eeprom_supported e) then st_ret 0
  else if negb (i2c_bus_ready e) then st_ret (- ENOENT)
  else
    match __get_eeprom_i2c_addr e with
    | None => st_ret (- EINVAL)
    | Some addr =>
        mod_ctl (set_i2c_address addr) ;;
        mod_ctl (fun c => set_ras_num_bad_pages
                            (u32 (ras_num_pa_recs c + u32 (ras_num_mca_recs c * retire_unit e))) c) ;;
        control <- get_ctl ;;
        let tag := header (tbl_hdr control) in
        if tag =? RAS_TABLE_HDR_VAL then
          res <- check_info ;;
          if negb (res =? 0) then st_ret res
          else
            res <- __verify_ras_table_checksum ;;
            st_ret (if res <? 0 then res else 0)
        else if (tag =? RAS_TABLE_HDR_BAD) && negb (amdgpu_bad_page_threshold e =? 0) then
          res <- check_info ;;
          if negb (res =? 0) then st_ret res
          else
            res <- __verify_ras_table_checksum ;;
            if negb (res =? 0) then st_ret (- EINVAL)
            else if ras_num_bad_pages control <=? bad_page_cnt_threshold e then
              res <- amdgpu_ras_eeprom_correct_header_tag RAS_TABLE_HDR_VAL ;;
              st_ret (if res <? 0 then res else 0)
            else if (amdgpu_bad_page_threshold e =? -1) || (amdgpu_bad_page_threshold e =? -2) then st_ret 0
            else set_is_rma true ;; st_ret 0
        else st_ret 0
    end.

(** ** Saving the driver's list of bad pages (amdgpu_ras.c) *)

(** The appends of one record per retirement unit; [bps] is the rest of the array. *)
Fixpoint save_units (unit_num : nat) (bps : list eeprom_table_record) : M Z :=
  match unit_num with
  | O => st_ret 0
  | S n =>
      x <- amdgpu_ras_eeprom_append (take 1 bps) ;;
      if negb (fst x =? 0) then st_ret (- EIO)
      else save_units n (drop (Z.to_nat (retire_unit e)) bps)
  end.

(** [eh_data]: the pages the driver knows of, [None] before it keeps any. *)
Definition amdgpu_ras_save_bad_pages (eh_data : option (list eeprom_table_record)) : M Z :=
  control <- get_ctl ;;
  match eh_data with
  | None => st_ret 0
  | Some bps =>
      if negb (is_eeprom_valid control) then st_ret 0
      else
        let bad_page_num := s32 (ras_num_bad_pages control) in
        let save_count := s32 (Z.of_nat (length bps) - bad_page_num) in
        BUG_ON (retire_unit e =? 0) ;;
        let unit_num := s32 (u32 save_count / retire_unit e) in
        if 0 <? save_count then
          let new := drop (Z.to_nat bad_page_num) bps in
          if IP_VERSION_MAJ (umc_version e) <? 12 then
            x <- amdgpu_ras_eeprom_append (take (Z.to_nat save_count) new) ;;
            st_ret (if fst x =? 0 then 0 else - EIO)
          else save_units (Z.to_nat unit_num) new
        else st_ret 0
  end.

Definition amdgpu_ras_eeprom_check_and_recover (eh_data : option (list eeprom_table_record)) : M unit :=
  control <- get_ctl ;;
  if negb (__is_ras_eeprom_supported e) then st_ret tt
  else if negb (is_eeprom_valid control) then st_ret tt
  else
    res <- __verify_ras_table_checksum ;;
    if res =? 0 then st_ret tt
    else
      res <- amdgpu_ras_eeprom_reset_table ;;
      res <- (if res =? 0 then amdgpu_ras_save_bad_pages eh_data else st_ret 1) ;;
      res <- (if res =? 0 then __verify_ras_table_checksum else st_ret 1) ;;
      if res =? 0 then st_ret tt else mod_ctl (set_is_eeprom_valid false).
End Table.
