(* ===== verification/RasEepromInv.v ===== *)
(** * The RAS table: encodings, the ring and its abstraction

    The records in EEPROM form a ring of [ras_max_record_count] slots; [contents] is the
    list of encoded records in the order they were appended. This file proves the round
    trips of the encodings and the effect of the writes on the ring. *)

From stdpp Require Import list strings.
From Stdlib Require Import ZArith Lia.
From S2P Require Import Prelude Bytes Eeprom RasEeprom.
Open Scope st_scope.

#[local] Arguments bytes_at : simpl never.

(** ** Widths *)

Definition uint (w x : Z) : Prop := 0 <= x < 2 ^ w.

Record hdr_typed (h : table_header) : Prop := {
  ht_header : uint 32 (header h);
  ht_version : uint 32 (version h);
  ht_first : uint 32 (first_rec_offset h);
  ht_size : uint 32 (tbl_size h);
  ht_checksum : uint 32 (checksum h)
}.

Record rai_typed (r : table_ras_info) : Prop := {
  rt_rma : uint 8 (rma_status r);
  rt_health : uint 8 (health_percent r);
  rt_threshold : uint 16 (ecc_page_threshold r);
  rt_padding : length (padding r) = 63%nat /\ Forall (uint 32) (padding r)
}.

Record rec_typed (r : eeprom_table_record) : Prop := {
  ct_offset : uint 64 (offset r);
  ct_page : uint 64 (retired_page r);
  ct_ts : uint 64 (ts r);
  ct_err : uint 32 (err_type r);
  ct_bank : uint 8 (bank r);
  ct_channel : uint 8 (mem_channel r);
  ct_mcumc : uint 8 (mcumc_id r)
}.

(** ** Encodings *)

Lemma land_mask x w : 0 <= w -> Z.land x (2 ^ w - 1) = x mod 2 ^ w.
Proof. intros. rewrite <- Z.land_ones by done. f_equal. rewrite Z.ones_equiv. lia. Qed.

Lemma le_combine_app l1 l2 : le_combine (l1 ++ l2) = le_combine l1 + 256 ^ Z.of_nat (length l1) * le_combine l2.
Proof.
  induction l1 as [|b l IH]; [cbn; lia|]. cbn [app le_combine length].
  rewrite IH, Nat2Z.inj_succ, Z.pow_succ_r by lia. ring.
Qed.

Lemma take_app_exact {A} n (l1 l2 : list A) : length l1 = n -> take n (l1 ++ l2) = l1.
Proof. intros <-. apply take_app_length. Qed.
Lemma drop_app_exact {A} n (l1 l2 : list A) : length l1 = n -> drop n (l1 ++ l2) = l2.
Proof. intros <-. apply drop_app_length. Qed.

(** Reading one field of a packed sequence of little-endian fields. *)
Lemma field_le_split n x pre post :
  uint (8 * Z.of_nat n) x ->
  le_combine (take n (drop (length pre) (pre ++ le_split n x ++ post))) = x.
Proof.
  intros Hx. rewrite drop_app_length, take_app_exact by apply length_le_split.
  rewrite le_combine_split, Z.mod_small; [done|].
  unfold uint in Hx. rewrite Z.pow_mul_r in Hx by lia. exact Hx.
Qed.

Lemma decode_encode_header hdr buf :
  hdr_typed hdr -> __decode_table_header_from_buf (__encode_table_header_to_buf hdr buf) = hdr.
Proof.
  intros [H0 H1 H2 H3 H4]. destruct hdr as [h v f t c]. cbn [header version first_rec_offset tbl_size checksum] in *.
  unfold __decode_table_header_from_buf, __encode_table_header_to_buf, word_at.
  cbn [header version first_rec_offset tbl_size checksum]. f_equal.
  - apply (field_le_split 4 h []). done.
  - apply (field_le_split 4 v (le_split 4 h)). done.
  - apply (field_le_split 4 f (le_split 4 h ++ le_split 4 v)). done.
  - apply (field_le_split 4 t (le_split 4 h ++ le_split 4 v ++ le_split 4 f)). done.
  - apply (field_le_split 4 c (le_split 4 h ++ le_split 4 v ++ le_split 4 f ++ le_split 4 t)). done.
Qed.

Lemma encode_header_bytes hdr : __encode_table_header_to_buf hdr (zeros RAS_TABLE_HEADER_SIZE) = header_bytes hdr.
Proof. unfold __encode_table_header_to_buf, header_bytes. cbn [drop zeros]. by rewrite app_nil_r. Qed.

Lemma length_header_bytes hdr : length (header_bytes hdr) = 20%nat.
Proof. unfold header_bytes. by rewrite !length_app, !length_le_split. Qed.

Lemma header_bytes_bytes hdr : Forall is_byte (header_bytes hdr).
Proof. unfold header_bytes. rewrite !Forall_app. split_and!; apply le_split_bytes. Qed.

(** The packed word of the health block is the three fields side by side. *)
Lemma ras_info_word r :
  rai_typed r ->
  Z.lor (Z.lor (Z.land (rma_status r) 0xFF) (Z.land (u32 (Z.shiftl (health_percent r) 8)) 0xFF00))
    (Z.land (u32 (Z.shiftl (ecc_page_threshold r) 16)) 0xFFFF0000)
  = rma_status r + 256 * health_percent r + 65536 * ecc_page_threshold r.
Proof.
  intros [H1 H2 H3 _]. unfold uint in *. generalize dependent (rma_status r).
  generalize dependent (health_percent r). generalize dependent (ecc_page_threshold r). intros t Ht h Hh x Hx.
  rewrite !Z.shiftl_mul_pow2 by lia. rewrite !wrap_small by lia.
  change 0xFF with (2 ^ 8 - 1). rewrite land_mask, Z.mod_small by lia.
  replace (Z.land (h * 2 ^ 8) 0xFF00) with (Z.shiftl h 8).
  2:{ change 0xFF00 with (Z.shiftl (2 ^ 8 - 1) 8). rewrite <- Z.shiftl_mul_pow2, <- Z.shiftl_land by lia.
      by rewrite land_mask, Z.mod_small by lia. }
  replace (Z.land (t * 2 ^ 16) 0xFFFF0000) with (Z.shiftl t 16).
  2:{ change 0xFFFF0000 with (Z.shiftl (2 ^ 16 - 1) 16). rewrite <- Z.shiftl_mul_pow2, <- Z.shiftl_land by lia.
      by rewrite land_mask, Z.mod_small by lia. }
  assert (forall a b w, 0 <= w -> 0 <= a < 2 ^ w -> Z.lor a (Z.shiftl b w) = a + b * 2 ^ w) as Hor.
  { intros a b w Hw Ha. rewrite <- Z.lxor_lor, <- Z.add_nocarry_lxor, Z.shiftl_mul_pow2; [done|lia|..];
      (apply Z.bits_inj'; intros i Hi; rewrite Z.land_spec, Z.bits_0, Z.shiftl_spec by done;
       destruct (Z.ltb_spec i w);
       [rewrite (Z.testbit_neg_r b) by lia; apply andb_false_r|
        rewrite <- (Z.mod_small a (2 ^ w)), Z.mod_pow2_bits_high by lia; apply andb_false_l]). }
  rewrite (Hor x h 8), (Hor _ t 16) by lia. lia.
Qed.

Lemma encode_ras_info_bytes r :
  rai_typed r -> padding r = replicate 63 0 ->
  __encode_table_ras_info_to_buf r (zeros RAS_TABLE_V2_1_INFO_SIZE) = ras_info_bytes r.
Proof.
  intros Hr Hp. unfold __encode_table_ras_info_to_buf, ras_info_bytes. rewrite ras_info_word by done. rewrite Hp.
  destruct Hr as [H1 H2 H3 _]. unfold uint in *.
  generalize dependent (rma_status r). generalize dependent (health_percent r).
  generalize dependent (ecc_page_threshold r). intros t Ht h Hh x Hx.
  transitivity (([x mod 256; h mod 256; t mod 256; t / 256 mod 256] ++ replicate 252 0)); [|done].
  assert ((x + 256 * h + 65536 * t) mod 256 = x mod 256 /\ (x + 256 * h + 65536 * t) / 256 = h + 256 * t) as [E1 E2].
  { replace (x + 256 * h + 65536 * t) with (x + (h + 256 * t) * 256) by lia.
    rewrite Z.mod_add, Z.div_add, (Z.div_small x) by lia. done. }
  assert ((h + 256 * t) mod 256 = h mod 256 /\ (h + 256 * t) / 256 = t) as [E3 E4].
  { replace (h + 256 * t) with (h + t * 256) by lia. rewrite Z.mod_add, Z.div_add, (Z.div_small h) by lia. done. }
  cbn [le_split]. rewrite E1, E2, E3, E4. done.
Qed.

Lemma decode_encode_ras_info r0 r buf :
  rai_typed r ->
  __decode_table_ras_info_from_buf r0 (__encode_table_ras_info_to_buf r buf)
  = TableRasInfo (rma_status r) (health_percent r) (ecc_page_threshold r) (padding r0).
Proof.
  intros Hr. unfold __decode_table_ras_info_from_buf, __encode_table_ras_info_to_buf.
  rewrite ras_info_word by done. destruct Hr as [H1 H2 H3 _]. unfold uint in *.
  unfold word_at. change (4 * 0)%nat with 0%nat.
  rewrite drop_0, take_app_exact, le_combine_split, Z.mod_small by (rewrite ?length_le_split; lia).
  generalize dependent (rma_status r). generalize dependent (health_percent r).
  generalize dependent (ecc_page_threshold r). intros t Ht h Hh x Hx.
  unfold set_ecc_page_threshold, set_health_percent, set_rma_status. cbn [rma_status health_percent padding].
  rewrite !Z.shiftr_div_pow2 by lia. change 0xFF with (2 ^ 8 - 1). change 0xFFFF with (2 ^ 16 - 1).
  rewrite !land_mask by lia. f_equal.
  - replace (x + 256 * h + 65536 * t) with (x + (h + 256 * t) * 2 ^ 8) by lia.
    rewrite Z.mod_add, Z.mod_small; lia.
  - replace (x + 256 * h + 65536 * t) with (x + (h + 256 * t) * 2 ^ 8) by lia.
    rewrite Z.div_add, (Z.div_small x), Z.add_0_l by lia.
    replace (h + 256 * t) with (h + t * 2 ^ 8) by lia. rewrite Z.mod_add, Z.mod_small; lia.
  - replace (x + 256 * h + 65536 * t) with (x + 256 * h + t * 2 ^ 16) by lia.
    rewrite Z.div_add, (Z.div_small (x + 256 * h)), Z.add_0_l, Z.mod_small; lia.
Qed.

(** What a record keeps in 24 bytes: 48 bits of the address and of the page, 8 of the
    error type. *)
Definition record_norm (r : eeprom_table_record) : eeprom_table_record :=
  TableRecord (offset r mod 2 ^ 48) (retired_page r mod 2 ^ 48) (ts r) (err_type r mod 2 ^ 8)
    (bank r) (mem_channel r) (mcumc_id r).

Lemma length_encode_record r : length (__encode_table_record_to_buf r) = 24%nat.
Proof. unfold __encode_table_record_to_buf. by rewrite !length_app, !length_le_split. Qed.

Lemma encode_record_bytes r : rec_typed r -> Forall is_byte (__encode_table_record_to_buf r).
Proof.
  intros [_ _ _ _ H5 H6 H7]. unfold __encode_table_record_to_buf. rewrite !Forall_app, !Forall_singleton.
  split_and!; try apply le_split_bytes; [|assumption..]. apply wrap_range. lia.
Qed.

(** Six bytes copied over a longer value, then masked. *)
Lemma masked_copy x rest :
  Z.land (le_combine (le_split 6 x ++ rest)) 0xffffffffffff = x mod 2 ^ 48.
Proof.
  change 0xffffffffffff with (2 ^ 48 - 1). rewrite land_mask, le_combine_app, length_le_split by lia.
  rewrite le_combine_split. change (256 ^ Z.of_nat 6) with (2 ^ 48).
  rewrite (Z.mul_comm (2 ^ 48)), Z.mod_add, Z.mod_mod by lia. done.
Qed.

Lemma decode_encode_record r post :
  rec_typed r -> __decode_table_record_from_buf (__encode_table_record_to_buf r ++ post) = record_norm r.
Proof.
  intros [H1 H2 H3 H4 H5 H6 H7]. destruct r as [o p t er b ch mc].
  unfold __encode_table_record_to_buf, record_norm in *. cbn [offset retired_page ts err_type bank mem_channel mcumc_id] in *.
  change 0xffffffffffff with (2 ^ 48 - 1). rewrite !land_mask by lia.
  set (o' := o mod 2 ^ 48). set (p' := p mod 2 ^ 48).
  unfold __decode_table_record_from_buf.
  replace (take 8 (drop 2 _)) with (le_split 8 t) by done.
  replace (take 6 (drop 10 _)) with (le_split 6 o') by done.
  replace (take 6 (drop 18 _)) with (le_split 6 p') by done.
  cbv zeta. rewrite !masked_copy. f_equal.
  - subst o'. apply Z.mod_mod. lia.
  - subst p'. apply Z.mod_mod. lia.
  - rewrite le_combine_split. apply Z.mod_small. exact H3.
Qed.

(** ** The ring *)

Definition rec_addr (c : eeprom_control) (i : Z) : Z := i2c_address c + ras_record_offset c + i * 24.
Definition slot (c : eeprom_control) (m : Z -> Z) (i : Z) : list Z := bytes_at m (rec_addr c i) 24.

(** The layout of the table and the position of the ring. *)
Record geom (c : eeprom_control) : Prop := {
  g_part : in_part (i2c_address c) RAS_TBL_SIZE_BYTES;
  g_hdr : ras_header_offset c = 0;
  g_info : ras_info_offset c = 20;
  g_rec : ras_record_offset c = if RAS_TABLE_VER_V2_1 <=? version (tbl_hdr c) then 276 else 20;
  g_size : ras_record_offset c + 24 * ras_max_record_count c <= RAS_TBL_SIZE_BYTES;
  g_fri : 0 <= ras_fri c < ras_max_record_count c;
  g_num : 0 <= ras_num_recs c <= ras_max_record_count c;
  g_ring : ras_fri c = 0 \/ ras_num_recs c = ras_max_record_count c
}.

(** The encoded records, the oldest first. *)
Definition contents (c : eeprom_control) (m : Z -> Z) : list (list Z) :=
  (fun k => slot c m ((ras_fri c + k) mod ras_max_record_count c)) <$> seqZ 0 (ras_num_recs c).

(** The abstract table: a log that keeps its [n] most recent entries. *)
Definition last_n {A} (n : nat) (l : list A) : list A := drop (length l - n) l.
Definition log_append {A} (n : nat) (log new : list A) : list A := last_n n (log ++ new).

(** [l] is written into the ring from slot [a] on, modulo its size. *)
Definition ring_set (c : eeprom_control) (m m' : Z -> Z) (a : Z) (l : list (list Z)) : Prop :=
  forall i, 0 <= i < ras_max_record_count c ->
    slot c m' i = default (slot c m i) (l !! Z.to_nat ((i - a) mod ras_max_record_count c)).

Definition rec_frame (c : eeprom_control) (m m' : Z -> Z) : Prop :=
  frame m m' (rec_addr c 0) (24 * ras_max_record_count c).

Lemma length_contents c m : 0 <= ras_num_recs c -> Z.of_nat (length (contents c m)) = ras_num_recs c.
Proof. intros. unfold contents. rewrite length_fmap, length_seqZ. lia. Qed.

Lemma contents_lookup c m k :
  0 <= k < ras_num_recs c ->
  contents c m !! Z.to_nat k = Some (slot c m ((ras_fri c + k) mod ras_max_record_count c)).
Proof.
  intros. unfold contents. rewrite list_lookup_fmap, lookup_seqZ_lt by lia. simpl. do 3 f_equal. lia.
Qed.

(** The records of a contiguous write. *)
Lemma bytes_at_concat m a (L : list (list Z)) i x :
  Forall (fun r => length r = 24%nat) L ->
  bytes_at m a (24 * length L) = concat L -> L !! i = Some x ->
  bytes_at m (a + 24 * Z.of_nat i) 24 = x.
Proof.
  revert a i. induction L as [|r L IH]; intros a i HL E Hi; [done|].
  apply Forall_cons in HL as [Hr HL]. cbn [length concat] in E.
  replace (24 * S (length L))%nat with (24 + 24 * length L)%nat in E by lia.
  rewrite bytes_at_app in E. apply app_inj_1 in E as [E1 E2]; [|by rewrite length_bytes_at].
  destruct i as [|i]; simpl in Hi.
  - injection Hi as <-. replace (a + 24 * Z.of_nat 0) with a by lia. done.
  - rewrite <- (IH (a + Z.of_nat 24) i HL E2 Hi). f_equal. lia.
Qed.

Lemma take_concat_24 (L : list (list Z)) k :
  Forall (fun r => length r = 24%nat) L -> take (24 * k) (concat L) = concat (take k L).
Proof.
  revert k. induction L as [|r L IH]; intros k HL; [cbn [concat]; by rewrite !take_nil|].
  apply Forall_cons in HL as [Hr HL]. destruct k as [|k]; [done|]. cbn [concat take].
  replace (24 * S k)%nat with (24 + 24 * k)%nat by lia.
  rewrite take_app_ge by lia. rewrite Hr. replace (24 + 24 * k - 24)%nat with (24 * k)%nat by lia. by rewrite IH.
Qed.

Lemma drop_concat_24 (L : list (list Z)) k :
  Forall (fun r => length r = 24%nat) L -> drop (24 * k) (concat L) = concat (drop k L).
Proof.
  revert k. induction L as [|r L IH]; intros k HL; [cbn [concat]; by rewrite !drop_nil|].
  apply Forall_cons in HL as [Hr HL]. destruct k as [|k]; [done|]. cbn [concat drop].
  replace (24 * S k)%nat with (24 + 24 * k)%nat by lia.
  rewrite drop_app_ge by lia. rewrite Hr. replace (24 + 24 * k - 24)%nat with (24 * k)%nat by lia. by rewrite IH.
Qed.

Lemma length_concat_24 (L : list (list Z)) :
  Forall (fun r => length r = 24%nat) L -> length (concat L) = (24 * length L)%nat.
Proof. induction 1 as [|r L Hr _ IH]; [done|]. cbn [concat length]. rewrite length_app, IH, Hr. lia. Qed.

(** A contiguous write, seen in the ring. *)
Lemma ring_set_write c m m' a l :
  0 <= a -> a + Z.of_nat (length l) <= ras_max_record_count c ->
  Forall (fun r => length r = 24%nat) l ->
  frame m m' (rec_addr c a) (24 * Z.of_nat (length l)) ->
  bytes_at m' (rec_addr c a) (24 * length l) = concat l -> ring_set c m m' a l.
Proof.
  intros Ha Hal Hl Hfr Hw i Hi. unfold slot.
  destruct (Z.le_gt_cases a i).
  - rewrite (Z.mod_small (i - a)) by lia. destruct (l !! Z.to_nat (i - a)) as [x|] eqn:E; simpl.
    + rewrite <- (bytes_at_concat _ _ _ _ _ Hl Hw E). f_equal. unfold rec_addr. lia.
    + apply lookup_ge_None_1 in E. eapply bytes_at_frame; [exact Hfr|]. unfold rec_addr. lia.
  - replace ((i - a) mod _) with (i - a + ras_max_record_count c).
    2:{ apply Z.mod_unique with (-1); lia. }
    rewrite lookup_ge_None_2 by lia. simpl. eapply bytes_at_frame; [exact Hfr|]. unfold rec_addr. lia.
Qed.

(** A write that wraps around is two writes. *)
Lemma ring_set_wrap c m m' m'' a l1 l2 :
  0 <= a < ras_max_record_count c -> Z.of_nat (length l1) = ras_max_record_count c - a ->
  Z.of_nat (length l2) <= a ->
  ring_set c m m' a l1 -> ring_set c m' m'' 0 l2 -> ring_set c m m'' a (l1 ++ l2).
Proof.
  intros Ha H1 H2 R1 R2 i Hi. rewrite (R2 i Hi), (R1 i Hi), Z.sub_0_r, (Z.mod_small i) by lia.
  destruct (Z.le_gt_cases a i).
  - rewrite (Z.mod_small (i - a)) by lia. rewrite lookup_app_l by lia. by rewrite (lookup_ge_None_2 l2) by lia.
  - replace ((i - a) mod _) with (i - a + ras_max_record_count c).
    2:{ apply Z.mod_unique with (-1); lia. }
    rewrite (lookup_ge_None_2 l1) by lia. rewrite lookup_app_r by lia. simpl.
    do 2 f_equal. lia.
Qed.

(** The ring implements the log: when the records go after the last one and the first
    index moves past what they overwrite, the contents are the last [max] entries. *)
Lemma contents_append c c' m m' L :
  geom c -> 1 <= Z.of_nat (length L) <= ras_max_record_count c ->
  i2c_address c' = i2c_address c -> ras_record_offset c' = ras_record_offset c ->
  ras_max_record_count c' = ras_max_record_count c ->
  ras_num_recs c' = Z.min (ras_max_record_count c) (ras_num_recs c + Z.of_nat (length L)) ->
  ras_fri c' = (ras_fri c + Z.max 0 (ras_num_recs c + Z.of_nat (length L) - ras_max_record_count c))
               mod ras_max_record_count c ->
  ring_set c m m' (ras_fri c + ras_num_recs c) L ->
  contents c' m' = log_append (Z.to_nat (ras_max_record_count c)) (contents c m) L.
Proof.
  intros [_ _ _ _ _ Hf Hn Hring] Hk Ea Eo Em En Ef R. set (N := ras_max_record_count c) in *.
  set (k := Z.of_nat (length L)) in *. set (n := ras_num_recs c) in *. set (f := ras_fri c) in *.
  set (D := Z.max 0 (n + k - N)) in *.
  assert (length (contents c m) = Z.to_nat n) as Hlen by (pose proof (length_contents c m); lia).
  unfold log_append, last_n. apply list_eq. intros t. rewrite lookup_drop, length_app, Hlen.
  replace (Z.to_nat n + length L - Z.to_nat N)%nat with (Z.to_nat D) by lia.
  destruct (decide (Z.of_nat t < ras_num_recs c')) as [Ht|Ht].
  - rewrite <- (Nat2Z.id t) at 1. rewrite contents_lookup by lia. rewrite Em, Ef, Zplus_mod_idemp_l.
    replace (slot c' m' ((f + D + Z.of_nat t) mod N)) with (slot c m' ((f + D + Z.of_nat t) mod N))
      by (unfold slot, rec_addr; by rewrite Ea, Eo).
    rewrite R by (apply Z.mod_pos_bound; lia). fold N.
    rewrite Zminus_mod_idemp_l. replace (f + D + Z.of_nat t - (f + n)) with (D + Z.of_nat t - n) by lia.
    destruct (Z.le_gt_cases n (D + Z.of_nat t)).
    + rewrite (Z.mod_small (D + Z.of_nat t - n)) by lia. rewrite lookup_app_r by lia. rewrite Hlen.
      replace (Z.to_nat D + t - Z.to_nat n)%nat with (Z.to_nat (D + Z.of_nat t - n)) by lia.
      destruct (L !! _) eqn:E; [done|]. apply lookup_ge_None_1 in E. lia.
    + replace ((D + Z.of_nat t - n) mod N) with (D + Z.of_nat t - n + N).
      2:{ apply Z.mod_unique with (-1); lia. }
      rewrite (lookup_ge_None_2 L) by lia. cbn [default from_option]. rewrite lookup_app_l by lia.
      replace (Z.to_nat D + t)%nat with (Z.to_nat (D + Z.of_nat t)) by lia.
      rewrite contents_lookup by lia. fold f N. do 3 f_equal. lia.
  - rewrite !lookup_ge_None_2; [done| |].
    + rewrite length_app. lia.
    + pose proof (length_contents c' m'). lia.
Qed.
