(* ===== verification/RasEepromOps.v ===== *)
(** * The RAS table: its operations on any EEPROM

    Every operation is run symbolically against the interface [EepromDevSpec]: it never
    traps on a well-formed control structure, and when it reports success the EEPROM
    holds the abstract table it promises. *)

From stdpp Require Import list strings.
From Stdlib Require Import ZArith Lia.
From S2P Require Import Prelude Bytes Eeprom RasEeprom RasEepromInv.
Open Scope st_scope.

#[local] Arguments bytes_at : simpl never.

Definition known_version (v : Z) : Prop := v = RAS_TABLE_VER_V1 \/ v = RAS_TABLE_VER_V2_1 \/ v = RAS_TABLE_VER_V3.

Lemma known_version_v21 v : known_version v -> (RAS_TABLE_VER_V1 <? v) = (RAS_TABLE_VER_V2_1 <=? v).
Proof. by intros [->|[->| ->]]. Qed.

(** The version has the health block. *)
Abbreviation has_info c := (RAS_TABLE_VER_V2_1 <=? version (tbl_hdr c)).

(** What the records' operations leave alone. *)
Definition same_meta (c c' : eeprom_control) : Prop :=
  tbl_hdr c' = tbl_hdr c /\ tbl_rai c' = tbl_rai c /\ i2c_address c' = i2c_address c /\
  ras_header_offset c' = ras_header_offset c /\ ras_info_offset c' = ras_info_offset c /\
  ras_record_offset c' = ras_record_offset c /\ ras_max_record_count c' = ras_max_record_count c /\
  is_eeprom_valid c' = is_eeprom_valid c.

Lemma io_result_0 r n : 0 <= n -> r <= n -> io_result r n = 0 <-> r = n.
Proof.
  intros. unfold io_result, EIO. destruct (Z.ltb_spec r 0); [lia|]. destruct (Z.ltb_spec r n); lia.
Qed.

Lemma io_result_le r n : io_result r n <= 0.
Proof. unfold io_result, EIO. destruct (Z.ltb_spec r 0); [lia|]. destruct (Z.ltb_spec r n); lia. Qed.

Abbreviation mem s := (dev_cell (hw s)).

Section Access.
Context {dev : Type} {D : EepromDev dev} {Sp : EepromDevSpec dev}.
Implicit Types s : ras_state dev.

(** ** EEPROM access from the table's state *)

Lemma wp_on_hw {A} (m : stM dev A) Q s :
  wp m (fun a d => Q a (RasState (ctl s) (is_rma s) (update_channel_flag s) d)) (hw s) -> wp (on_hw m) Q s.
Proof. unfold wp, on_hw. by destruct (m (hw s)) as [[a d]|]. Qed.

Lemma wp_write s a buf n Q :
  0 <= n -> in_part a n -> n <= Z.of_nat (length buf) -> Forall is_byte buf ->
  (forall r d,
    frame (mem s) (dev_cell d) a n -> r <= n ->
    (r = n -> bytes_at (dev_cell d) a (Z.to_nat n) = take (Z.to_nat n) buf) -> (dev_rel -> r = n) ->
    Q r (RasState (ctl s) (is_rma s) (update_channel_flag s) d)) ->
  wp (eeprom_write a buf n) Q s.
Proof.
  intros Hn Hp Hl Hb HQ. apply wp_on_hw. eapply wp_mono; [by apply dev_write_ok|].
  intros r d (? & ? & ? & ?). by apply HQ.
Qed.

Lemma wp_read s a buf n Q :
  0 <= n -> in_part a n -> n <= Z.of_nat (length buf) ->
  (forall r buf' d,
    (forall y, dev_cell d y = mem s y) -> length buf' = length buf -> r <= n ->
    (r = n -> buf' = bytes_at (mem s) a (Z.to_nat n) ++ drop (Z.to_nat n) buf) -> (dev_rel -> r = n) ->
    Q (r, buf') (RasState (ctl s) (is_rma s) (update_channel_flag s) d)) ->
  wp (eeprom_read a buf n) Q s.
Proof.
  intros Hn Hp Hl HQ. apply wp_on_hw. eapply wp_mono; [by apply dev_read_ok|].
  intros [r b] d (? & ? & ? & ? & ?). by apply HQ.
Qed.

Lemma wp_umod x n Q s : 0 < n -> Q (x mod n) s -> wp (umod x n) Q s.
Proof. intros Hn HQ. unfold umod. destruct (Z.eqb_spec n 0); [lia|]. by apply wp_ret. Qed.

Lemma wp_get_ctl Q s : Q (ctl s) s -> wp get_ctl Q s.
Proof. done. Qed.
Lemma wp_mod_ctl f Q s :
  Q tt (RasState (f (ctl s)) (is_rma s) (update_channel_flag s) (hw s)) -> wp (mod_ctl f) Q s.
Proof. done. Qed.
Lemma wp_set_is_rma b Q s : Q tt (RasState (ctl s) b (update_channel_flag s) (hw s)) -> wp (set_is_rma b) Q s.
Proof. done. Qed.
Lemma wp_set_update_channel_flag b Q s :
  Q tt (RasState (ctl s) (is_rma s) b (hw s)) -> wp (set_update_channel_flag b) Q s.
Proof. done. Qed.

End Access.

(** One step of symbolic execution, the table's own accesses included. *)
Ltac ras_step :=
  lazymatch goal with
  | |- wp get_ctl _ _ => apply wp_get_ctl
  | |- wp (mod_ctl _) _ _ => apply wp_mod_ctl
  | |- wp (mod_hdr _) _ _ => apply wp_mod_ctl
  | |- wp (mod_rai _) _ _ => apply wp_mod_ctl
  | |- wp (set_is_rma _) _ _ => apply wp_set_is_rma
  | |- wp (set_update_channel_flag _) _ _ => apply wp_set_update_channel_flag
  | |- _ => wp_step
  end; cbn [ctl is_rma update_channel_flag hw].
Ltac ras_steps := repeat ras_step.

Section Ops.
Context {dev : Type} {D : EepromDev dev} {Sp : EepromDevSpec dev} (e : ras_env).
Implicit Types (s : ras_state dev) (c : eeprom_control).

(** ** Writes of records *)

Section Records.
Context (c : eeprom_control).
Hypothesis Hg : geom c.

Lemma geom_bounds :
  (i2c_address c = 0 \/ i2c_address c = 2 ^ 18) /\ 20 <= ras_record_offset c <= 276 /\
  1 <= ras_max_record_count c <= 10922.
Proof using Hg.
  destruct Hg as [Hp _ _ Hr Hs Hf Hn _]. unfold in_part, RAS_TBL_SIZE_BYTES in *.
  revert Hr. destruct (has_info c); intros; lia.
Qed.

Lemma record_addr_ok i : 0 <= i <= ras_max_record_count c -> record_addr c i = rec_addr c i.
Proof using Hg.
  intros. destruct geom_bounds as (? & ? & ?). unfold record_addr, rec_addr, RAS_TABLE_RECORD_SIZE.
  rewrite (wrap_small 32 (ras_record_offset c + i * 24)), wrap_small by lia. lia.
Qed.

Lemma rec_part i n : 0 <= i -> 0 <= n -> i + n <= ras_max_record_count c -> in_part (rec_addr c i) (24 * n).
Proof using Hg.
  intros. destruct geom_bounds as (? & ? & ?). destruct Hg as [Hp _ _ _ Hs _ _ _].
  eapply in_part_sub; [exact Hp|..]; unfold rec_addr, RAS_TBL_SIZE_BYTES in *; lia.
Qed.

Lemma rec_frame_sub m m' i n :
  0 <= i -> i + n <= ras_max_record_count c -> frame m m' (rec_addr c i) (24 * n) -> rec_frame c m m'.
Proof. intros ? ? H. eapply frame_mono; [exact H|unfold rec_addr; lia..]. Qed.

Lemma wp_record_write s L a k Q :
  ctl s = c -> Forall (fun r => length r = 24%nat /\ Forall is_byte r) L ->
  0 <= a -> 0 <= k <= Z.of_nat (length L) -> a + k <= ras_max_record_count c ->
  (forall res d,
    res <= 0 -> rec_frame c (mem s) (dev_cell d) ->
    (res = 0 -> ring_set c (mem s) (dev_cell d) a (take (Z.to_nat k) L)) -> (dev_rel -> res = 0) ->
    Q res (RasState c (is_rma s) (update_channel_flag s) d)) ->
  wp (__amdgpu_ras_eeprom_write (concat L) a k) Q s.
Proof using Hg.
  intros Hc HL Ha Hk Hak HQ. destruct geom_bounds as (? & ? & ?).
  assert (Forall (fun r => length r = 24%nat) L) as HL24 by (eapply Forall_impl; [exact HL|]; naive_solver).
  unfold __amdgpu_ras_eeprom_write, get_ctl, RAS_TABLE_RECORD_SIZE. wp_step. wp_step. rewrite Hc.
  wp_step. rewrite record_addr_ok, wrap_small by lia.
  apply wp_write; [lia| |rewrite length_concat_24 by done; lia| |].
  - replace (k * 24) with (24 * k) by lia. apply rec_part; lia.
  - apply Forall_concat. eapply Forall_impl; [exact HL|]. naive_solver.
  - intros r d Hfr Hr Hw Hrel. wp_step. rewrite Hc.
    replace (k * 24) with (24 * k) in * by lia. apply HQ.
    + apply io_result_le.
    + by apply (rec_frame_sub _ _ a k).
    + intros E. apply (io_result_0 r (24 * k)) in E; [|lia..]. specialize (Hw E).
      replace (Z.to_nat (24 * k)) with (24 * Z.to_nat k)%nat in Hw by lia.
      rewrite take_concat_24 in Hw by done.
      apply ring_set_write; rewrite ?length_take_le by lia; [lia|lia|by apply Forall_take| |].
      * replace (Z.of_nat (Z.to_nat k)) with k by lia. done.
      * exact Hw.
    + intros R. apply (io_result_0 r (24 * k)); [lia..|auto].
Qed.

Lemma wp_write_wrapped s L a Q :
  ctl s = c -> Forall (fun r => length r = 24%nat /\ Forall is_byte r) L ->
  0 <= a < ras_max_record_count c ->
  ras_max_record_count c < a + Z.of_nat (length L) -> Z.of_nat (length L) <= ras_max_record_count c ->
  (forall res d,
    res <= 0 -> rec_frame c (mem s) (dev_cell d) ->
    (res = 0 -> ring_set c (mem s) (dev_cell d) a L) -> (dev_rel -> res = 0) ->
    Q res (RasState c (is_rma s) (update_channel_flag s) d)) ->
  wp (write_wrapped (concat L) a (ras_max_record_count c - a)
        (a + Z.of_nat (length L) - ras_max_record_count c)) Q s.
Proof using Hg.
  intros Hc HL Ha Hw Hk HQ. destruct geom_bounds as (? & ? & ?). unfold write_wrapped.
  set (N := ras_max_record_count c) in *. set (k := Z.of_nat (length L)) in *.
  assert (Forall (fun r => length r = 24%nat) L) as HL24 by (eapply Forall_impl; [exact HL|]; naive_solver).
  wp_step. apply wp_record_write; [done|done|lia|lia|lia|]. intros res d Hres Hfr Hset Hrel.
  destruct (Z.eqb_spec res 0) as [->|Hne]; cbn [negb].
  2:{ wp_step. apply HQ; [done|done|done|]. intros R. by specialize (Hrel R). }
  unfold RAS_TABLE_RECORD_SIZE. rewrite wrap_small by lia.
  replace (Z.to_nat ((N - a) * 24)) with (24 * Z.to_nat (N - a))%nat by lia.
  rewrite drop_concat_24 by done.
  apply wp_record_write; [done|by apply Forall_drop|lia|rewrite length_drop; lia|lia|].
  intros res2 d2 Hres2 Hfr2 Hset2 Hrel2. apply HQ; [done| | |done].
  - by eapply frame_trans.
  - intros E. specialize (Hset2 E). specialize (Hset eq_refl).
    rewrite take_ge in Hset2 by (rewrite length_drop; lia).
    rewrite <- (take_drop (Z.to_nat (N - a)) L).
    eapply ring_set_wrap; [lia|rewrite length_take; lia|rewrite length_drop; lia|exact Hset|exact Hset2].
Qed.

(** The number of records and the first index after [k] more records. *)
Definition new_num (k : Z) : Z := Z.min (ras_max_record_count c) (ras_num_recs c + k).
Definition new_fri (k : Z) : Z :=
  (ras_fri c + Z.max 0 (ras_num_recs c + k - ras_max_record_count c)) mod ras_max_record_count c.

Definition out_res (out : Z + Z * Z) : Z := match out with inl res => res | inr (res, _) => res end.

(** After a successful write the index [b] of the last record gives the new count. *)
Definition counted (k b : Z) : Prop :=
  0 <= b < 3 * ras_max_record_count c /\
  (ras_max_record_count c + b - new_fri k) mod ras_max_record_count c = new_num k - 1.

(** The successful outcome of the write. *)
Definition appended (m m' : Z -> Z) (L : list (list Z)) (out : Z + Z * Z) (c' : eeprom_control) : Prop :=
  let k := Z.of_nat (length L) in
  exists b, out = inr (0, b) /\ c' = set_ras_fri (new_fri k) c /\
    ring_set c m m' (ras_fri c + ras_num_recs c) L /\ counted k b.

Lemma set_ras_fri_id c' : set_ras_fri (ras_fri c') c' = c'.
Proof. by destruct c'. Qed.

Lemma ring_set_mod m m' a L :
  ring_set c m m' (a mod ras_max_record_count c) L <-> ring_set c m m' a L.
Proof. unfold ring_set. split; intros H i Hi; rewrite H by done; by rewrite Zminus_mod_idemp_r. Qed.

Section Append.
Context (k : Z).
Hypothesis Hk : 1 <= k <= ras_max_record_count c.
Let N := ras_max_record_count c.
Let a := ras_fri c + ras_num_recs c.

(** The four cases of the comment in the code. *)
Lemma append_case0 : a + k - 1 < N -> new_fri k = ras_fri c /\ counted k (a + k - 1).
Proof using Hg Hk.
  intros H. destruct Hg as [_ _ _ _ _ Hf Hn Hring]. unfold counted, new_fri, new_num. subst a N.
  rewrite Z.max_l, Z.add_0_r, Z.mod_small, Z.min_r by lia. split_and!; [done|lia|lia|].
  symmetry. apply Z.mod_unique with 1; lia.
Qed.

Lemma append_case1 :
  a < N <= a + k - 1 ->
  ras_fri c = 0 /\ (a + k - 1) mod N + 1 = a + k - N /\ (a + k - N) mod N = new_fri k /\ counted k (a + k - 1).
Proof using Hg Hk.
  intros H. destruct Hg as [_ _ _ _ _ Hf Hn Hring]. unfold counted, new_fri, new_num. subst a N.
  assert (ras_fri c = 0) as E by lia. rewrite E in *. split_and!; [done| | |lia|lia|].
  - rewrite <- (Z.mod_unique (0 + ras_num_recs c + k - 1) (ras_max_record_count c) 1
      (ras_num_recs c + k - 1 - ras_max_record_count c)); lia.
  - f_equal. lia.
  - rewrite Z.max_r, (Z.mod_small (0 + _)), Z.min_l by lia. symmetry. apply Z.mod_unique with 1; lia.
Qed.

Lemma append_full : N <= a -> ras_num_recs c = N /\ a mod N = ras_fri c.
Proof using Hg Hk.
  intros H. destruct Hg as [_ _ _ _ _ Hf Hn Hring]. subst a N. split; [lia|].
  symmetry. apply Z.mod_unique with 1; lia.
Qed.

Lemma append_case2 :
  N <= a ->
  let b := (a + k - 1) mod N in
  (ras_fri c <= b <-> ras_fri c + k - 1 < N) /\ b + 1 = ras_fri c + k - (if ras_fri c + k - 1 <? N then 0 else N) /\
  (b + 1) mod N = new_fri k /\ counted k b.
Proof using Hg Hk.
  intros H. destruct (append_full H) as [En Ea]. cbv zeta. unfold counted, new_fri, new_num.
  destruct Hg as [_ _ _ _ _ Hf Hn Hring]. subst a N. rewrite En in *.
  assert ((ras_fri c + ras_max_record_count c + k - 1) mod ras_max_record_count c
    = ras_fri c + k - 1 - (if ras_fri c + k - 1 <? ras_max_record_count c then 0 else ras_max_record_count c)) as Eb.
  { symmetry. destruct (Z.ltb_spec (ras_fri c + k - 1) (ras_max_record_count c));
      [apply Z.mod_unique with 1|apply Z.mod_unique with 2]; lia. }
  rewrite Eb. rewrite Z.max_r, Z.min_l by lia.
  replace (ras_fri c + (ras_max_record_count c + k - ras_max_record_count c)) with (ras_fri c + k) by lia.
  destruct (Z.ltb_spec (ras_fri c + k - 1) (ras_max_record_count c)) as [Hlt|Hge].
  - split_and!; [lia|lia|f_equal; lia|lia|lia|].
    rewrite Zminus_mod_idemp_r. symmetry. apply Z.mod_unique with 0; lia.
  - split_and!; [lia|lia| |lia|lia|].
    + symmetry. replace (ras_fri c + k) with (ras_fri c + k - ras_max_record_count c + 1 * ras_max_record_count c) by lia.
      rewrite Z.mod_add by lia. f_equal. lia.
    + rewrite Zminus_mod_idemp_r. symmetry. apply Z.mod_unique with (-1); lia.
Qed.
End Append.

Lemma wp_append_write s L Q :
  ctl s = c -> Forall (fun r => length r = 24%nat /\ Forall is_byte r) L ->
  1 <= Z.of_nat (length L) <= ras_max_record_count c ->
  (forall out s',
    rec_frame c (mem s) (mem s') -> (dev_rel -> out_res out = 0) ->
    (out_res out = 0 -> appended (mem s) (mem s') L out (ctl s')) ->
    (out_res out <> 0 -> ctl s' = c /\ forall res b, out = inr (res, b) ->
       new_fri (Z.of_nat (length L)) = ras_fri c /\ counted (Z.of_nat (length L)) b) ->
    is_rma s' = is_rma s -> Q out s') ->
  wp (append_write (concat L) (Z.of_nat (length L))) Q s.
Proof using Hg.
  intros Hc HL Hk HQ. destruct geom_bounds as (_ & _ & HN). pose proof Hg as [_ _ _ _ _ Hf Hn Hring].
  unfold append_write, get_ctl. do 2 wp_step. rewrite Hc.
  rewrite (wrap_small 32 (ras_fri c + ras_num_recs c)), wrap_small by lia.
  set (k := Z.of_nat (length L)) in *. set (a := ras_fri c + ras_num_recs c) in *.
  destruct (Z.ltb_spec (a + k - 1) (ras_max_record_count c)) as [H0|H0].
  { destruct (append_case0 k Hk H0) as [Ef Hb]. wp_step.
    apply wp_record_write; [done|done|lia|lia|lia|]. intros res d Hres Hfr Hset Hrel. wp_step.
    apply HQ; cbn [out_res hw ctl is_rma]; [done|done| | |done].
    - intros ->. unfold appended. cbv zeta. fold k. exists (a + k - 1). rewrite Ef, set_ras_fri_id. split_and!; [done|done| |apply Hb..].
      specialize (Hset eq_refl). rewrite take_ge in Hset by lia. exact Hset.
    - intros _. split; [done|]. intros r b [= -> <-]. fold k. done. }
  destruct (Z.ltb_spec a (ras_max_record_count c)) as [H1|H1].
  { destruct (append_case1 k Hk ltac:(lia)) as (Ef & Eg & Efri & Hb).
    wp_step. apply wp_umod; [lia|]. fold a in Eg, Efri, Hb. rewrite Eg, !wrap_small by lia. wp_step.
    replace (a + k - ras_max_record_count c) with (a + Z.of_nat (length L) - ras_max_record_count c) at 1 by lia.
    apply wp_write_wrapped; [done|done|lia|lia|lia|]. intros res d Hres Hfr Hset Hrel.
    destruct (Z.eqb_spec res 0) as [->|Hne]; cbn [negb].
    2:{ wp_step. apply HQ; cbn [out_res]; [done|done|by intros|by split|done]. }
    wp_step. apply wp_umod; [lia|]. wp_step. rewrite Ef.
    destruct (Z.ltb_spec 0 (a + k - ras_max_record_count c)) as [Hlt|Hlt]; [|lia]. cbn [st_when]. ras_steps.
    apply HQ; cbn [out_res hw ctl is_rma]; [done|done| |done|done].
    intros _. unfold appended. cbv zeta. fold k. exists (a + k - 1). rewrite Efri. split_and!; [done|done|by apply Hset|apply Hb..]. }
  destruct (append_full k Hk H1) as [En Ea]. destruct (append_case2 k Hk H1) as (Hle & Eb & Efri & Hb).
  fold a in Ea, Hle, Eb, Efri, Hb. set (b := (a + k - 1) mod ras_max_record_count c) in *.
  wp_step. apply wp_umod; [lia|]. wp_step. apply wp_umod; [lia|]. rewrite Ea. fold b.
  assert (0 <= b < ras_max_record_count c) as Hbr by (apply Z.mod_pos_bound; lia).
  rewrite !(wrap_small 32 (b + 1)), wrap_small by lia.
  destruct (Z.leb_spec (ras_fri c) b) as [H2|H2].
  { rewrite (proj2 (Z.ltb_lt _ _)) in Eb by tauto. wp_step.
    apply wp_record_write; [done|done|lia|lia|lia|]. intros res d Hres Hfr Hset Hrel.
    destruct (Z.eqb_spec res 0) as [->|Hne]; cbn [negb].
    2:{ wp_step. apply HQ; cbn [out_res]; [done|done|by intros|by split|done]. }
    wp_step. apply wp_umod; [lia|]. wp_step. cbn [st_when]. ras_steps.
    apply HQ; cbn [out_res hw ctl is_rma]; [done|done| |done|done].
    intros _. unfold appended. cbv zeta. fold k. exists b. rewrite Efri. split_and!; [done|done| |apply Hb..].
    apply (proj1 (ring_set_mod _ _ a L)). rewrite Ea. specialize (Hset eq_refl). rewrite take_ge in Hset by lia. exact Hset. }
  rewrite (proj2 (Z.ltb_ge _ _)) in Eb by (apply Z.nlt_ge; intros ?%Hle; lia). wp_step.
  rewrite Eb. replace (ras_fri c + k - ras_max_record_count c)
    with (ras_fri c + Z.of_nat (length L) - ras_max_record_count c) by lia.
  apply wp_write_wrapped; [done|done|lia|lia|lia|]. intros res d Hres Hfr Hset Hrel.
  destruct (Z.eqb_spec res 0) as [->|Hne]; cbn [negb].
  2:{ wp_step. apply HQ; cbn [out_res]; [done|done|by intros|by split|done]. }
  wp_step. apply wp_umod; [lia|]. ras_steps.
  apply HQ; cbn [out_res hw ctl is_rma]; [done|done| |done|done].
  intros _. unfold appended. cbv zeta. fold k. exists b. rewrite <- Efri, Eb. split_and!; [done|done| |apply Hb..].
  apply (proj1 (ring_set_mod _ _ a L)). rewrite Ea. by apply Hset.
Qed.
End Records.

(** ** Appending *)

(** The set of channels, with those of the records added. *)
Definition channels (bitmap : Z) (records : list eeprom_table_record) : Z :=
  foldl (fun bm r => if mem_channel r <? 32 then Z.lor bm (Z.shiftl 1 (mem_channel r)) else bm) bitmap records.

Lemma lor_bit_set bm i : 0 <= i -> Z.land bm (Z.shiftl 1 i) <> 0 -> Z.lor bm (Z.shiftl 1 i) = bm.
Proof.
  intros Hi H. rewrite Z.shiftl_mul_pow2, Z.mul_1_l in * by done.
  assert (Z.testbit bm i = true) as Hb.
  { destruct (Z.testbit bm i) eqn:E; [done|]. exfalso. apply H. apply Z.bits_inj'. intros j Hj.
    rewrite Z.land_spec, Z.pow2_bits_eqb, Z.bits_0 by lia. destruct (Z.eqb_spec i j) as [->|]; [|apply andb_false_r].
    by rewrite E. }
  apply Z.bits_inj'. intros j Hj. rewrite Z.lor_spec, Z.pow2_bits_eqb by lia.
  destruct (Z.eqb_spec i j) as [<-|]; [by rewrite Hb|apply orb_false_r].
Qed.

Lemma set_bitmap_set x y c : set_bad_channel_bitmap x (set_bad_channel_bitmap y c) = set_bad_channel_bitmap x c.
Proof. done. Qed.

Lemma wp_update_bad_channel r Q s :
  uint 8 (mem_channel r) ->
  (forall uf, Q tt (RasState (set_bad_channel_bitmap (channels (bad_channel_bitmap (ctl s)) [r]) (ctl s))
                      (is_rma s) uf (hw s))) ->
  wp (update_bad_channel r) Q s.
Proof.
  intros Hr HQ. unfold update_bad_channel, uint in *. ras_steps. unfold channels in HQ. cbn [foldl] in HQ.
  destruct (Z.ltb_spec (mem_channel r) 32); cbn [andb].
  - destruct (Z.eqb_spec (Z.land (bad_channel_bitmap (ctl s)) (Z.shiftl 1 (mem_channel r))) 0) as [E|E].
    + cbn [st_when]. ras_steps. apply HQ.
    + cbn [st_when]. ras_steps. rewrite lor_bit_set in HQ by (done || lia).
      specialize (HQ (update_channel_flag s)). by destruct s as [[] ? ? ?].
  - cbn [st_when]. ras_steps. specialize (HQ (update_channel_flag s)). by destruct s as [[] ? ? ?].
Qed.

Lemma wp_encode_records recs Q s :
  Forall rec_typed recs ->
  (forall uf, Q (concat (map __encode_table_record_to_buf recs))
     (RasState (set_bad_channel_bitmap (channels (bad_channel_bitmap (ctl s)) recs) (ctl s)) (is_rma s) uf (hw s))) ->
  wp (encode_records recs) Q s.
Proof.
  intros Hr. revert Q s. induction Hr as [|r recs Hr _ IH]; intros Q s HQ; cbn [encode_records].
  - wp_step. specialize (HQ (update_channel_flag s)). by destruct s as [[] ? ? ?].
  - wp_step. apply wp_update_bad_channel; [apply Hr|]. intros uf. wp_step. apply IH. intros uf'.
    wp_step. cbn [ctl is_rma hw bad_channel_bitmap set_bad_channel_bitmap]. rewrite set_bitmap_set. apply HQ.
Qed.

(** The counters of records by kind. *)
Definition counts (c : eeprom_control) : Z * Z := (ras_num_pa_recs c, ras_num_mca_recs c).
Definition counts_add (k : Z) (pm : Z * Z) : Z * Z :=
  if IP_VERSION_MAJ (umc_version e) <? 12 then (u32 (fst pm + k), snd pm) else (fst pm, u32 (snd pm + k)).
Definition bad_pages (pm : Z * Z) : Z := u32 (fst pm + u32 (snd pm * retire_unit e)).

(** What an append promises of the control structure and the memory. *)
Record log_appended (c : eeprom_control) (m : Z -> Z) (recs : list eeprom_table_record)
    (c' : eeprom_control) (m' : Z -> Z) : Prop := {
  la_meta : same_meta c c';
  la_log : contents c' m' = log_append (Z.to_nat (ras_max_record_count c)) (contents c m)
                              (map __encode_table_record_to_buf recs);
  la_num : ras_num_recs c' = Z.min (ras_max_record_count c) (ras_num_recs c + Z.of_nat (length recs));
  la_counts : counts c' = counts_add (Z.of_nat (length recs)) (counts c);
  la_bad : ras_num_bad_pages c' = bad_pages (counts c');
  la_channels : bad_channel_bitmap c' = channels (bad_channel_bitmap c) recs
}.

Lemma wp_append_account c0 c1 k b Q s :
  geom c0 -> 1 <= k <= ras_max_record_count c0 -> ctl s = c1 ->
  ras_max_record_count c1 = ras_max_record_count c0 -> ras_fri c1 = new_fri c0 k -> counted c0 k b ->
  (forall c', same_meta c1 c' -> ras_fri c' = ras_fri c1 -> ras_num_recs c' = new_num c0 k ->
     counts c' = counts_add k (counts c1) -> ras_num_bad_pages c' = bad_pages (counts c') ->
     bad_channel_bitmap c' = bad_channel_bitmap c1 ->
     Q tt (RasState c' (is_rma s) (update_channel_flag s) (hw s))) ->
  wp (append_account e k b) Q s.
Proof.
  intros Hg Hk Hc Em Ef [Hb Hcnt] HQ. destruct (geom_bounds c0 Hg) as (_ & _ & HN).
  assert (0 <= new_fri c0 k < ras_max_record_count c0) by (apply Z.mod_pos_bound; lia).
  unfold append_account. ras_steps. rewrite Hc, Em, Ef. apply wp_umod; [lia|].
  rewrite (wrap_small 32 (_ + b - _)), Hcnt, wrap_small by (unfold new_num; destruct Hg; lia).
  replace (1 + (new_num c0 k - 1)) with (new_num c0 k) by lia.
  unfold counts_add, bad_pages, counts in HQ. cbn [fst snd] in HQ.
  ras_steps. destruct (IP_VERSION_MAJ (umc_version e) <? 12); ras_steps; subst c1; apply HQ; try done;
    unfold same_meta; by split_and!.
Qed.

(** A table whose records changed but not its layout. *)
Lemma geom_moved c c' :
  geom c -> same_meta c c' -> 0 <= ras_fri c' < ras_max_record_count c ->
  0 <= ras_num_recs c' <= ras_max_record_count c ->
  (ras_fri c' = 0 \/ ras_num_recs c' = ras_max_record_count c) -> geom c'.
Proof.
  intros [] (E1 & E2 & E3 & E4 & E5 & E6 & E7 & E8) ? ? ?. constructor; rewrite ?E1, ?E3, ?E4, ?E5, ?E6, ?E7; done.
Qed.

Lemma new_pos c k :
  geom c -> 1 <= k <= ras_max_record_count c ->
  0 <= new_fri c k < ras_max_record_count c /\ 0 <= new_num c k <= ras_max_record_count c /\
  (new_fri c k = 0 \/ new_num c k = ras_max_record_count c).
Proof.
  intros [_ _ _ _ _ Hf Hn Hr] Hk. unfold new_num. split_and!; [| |lia|lia|].
  1,2: apply Z.mod_pos_bound; lia.
  unfold new_fri. destruct (Z.le_gt_cases (ras_num_recs c + k) (ras_max_record_count c)); [|lia].
  left. rewrite Z.max_l, Z.add_0_r, Z.mod_small; lia.
Qed.

Lemma encoded_records recs :
  Forall rec_typed recs ->
  Forall (fun r => length r = 24%nat /\ Forall is_byte r) (map __encode_table_record_to_buf recs).
Proof.
  induction 1; simpl; constructor; [|done]. split; [apply length_encode_record|by apply encode_record_bytes].
Qed.

Lemma wp_append_table c recs Q s :
  ctl s = c -> geom c -> Forall rec_typed recs ->
  1 <= Z.of_nat (length recs) <= ras_max_record_count c ->
  (forall res s',
    rec_frame c (mem s) (mem s') -> same_meta c (ctl s') -> geom (ctl s') ->
    (dev_rel -> kalloc_append e = true -> res = 0) ->
    (res = 0 -> log_appended c (mem s) recs (ctl s') (mem s')) -> is_rma s' = is_rma s -> Q res s') ->
  wp (amdgpu_ras_eeprom_append_table e recs) Q s.
Proof.
  intros Hc Hg Hrec Hk HQ. unfold amdgpu_ras_eeprom_append_table.
  destruct (kalloc_append e) eqn:Ekc; cbn [negb].
  2:{ wp_step. rewrite <- Hc in *. apply HQ; [|by unfold same_meta|done|done|done|done].
      intros x Hx. done. }
  wp_step. apply wp_encode_records; [done|]. intros uf. wp_step. rewrite Hc.
  set (c1 := set_bad_channel_bitmap (channels (bad_channel_bitmap c) recs) c).
  assert (geom c1) as Hg1 by (destruct Hg; by constructor).
  set (L := map __encode_table_record_to_buf recs).
  assert (length L = length recs) as EL by apply length_map. rewrite <- EL in *.
  apply wp_append_write with (c := c1); [done|done|by apply encoded_records|exact Hk|].
  intros out s' Hfr Hrel Hok Hbad Erma. cbn [hw is_rma] in *. pose proof (new_pos c1 (Z.of_nat (length L)) Hg1 Hk) as (P1 & P2 & P3).
  destruct out as [res|[res b]]; cbn [out_res] in *.
  { wp_step. destruct (Z.eqb_spec res 0) as [->|Hne]; [by destruct (Hok eq_refl) as (? & ? & _)|].
    destruct (Hbad Hne) as [Ec _]. apply HQ; [done| | |by auto|done|done]; rewrite Ec; [by unfold same_meta|done]. }
  destruct (Z.eqb_spec res 0) as [->|Hne].
  - destruct (Hok eq_refl) as (b' & [= <-] & Ec & Hset & Hcnt). wp_step.
    eapply wp_append_account with (c0 := c1); [done|exact Hk|exact Ec|done|done|exact Hcnt|].
    intros c' Hm Ef En Ecnt Ebad Ech. wp_step.
    assert (same_meta c c') as Hm' by exact Hm.
    apply HQ; [exact Hfr|exact Hm'| |done| |exact Erma].
    + cbn [ctl]. eapply geom_moved; [exact Hg|exact Hm'|rewrite Ef; exact P1|rewrite En; exact P2|rewrite Ef, En; exact P3].
    + intros _. cbn [ctl hw]. constructor; [done| |rewrite <- EL; exact En|rewrite <- EL; exact Ecnt|done|exact Ech].
      destruct Hm as (_ & _ & M1 & _ & _ & M2 & M3 & _).
      apply (contents_append c c'); [done|exact Hk|done|done|done|exact En|exact Ef|exact Hset].
  - destruct (Hbad Hne) as [Ec Hb]. specialize (Hb res b eq_refl). wp_step.
    (* the plain case counts the records before it reports its failure *)
    destruct Hb as [Ef0 Hcnt].
    eapply wp_append_account with (c0 := c1); [done|exact Hk|exact Ec|done|by rewrite Ef0|exact Hcnt|].
    intros c' Hm Ef En Ecnt Ebad Ech. wp_step.
    assert (same_meta c c') as Hm' by exact Hm.
    apply HQ; [exact Hfr|exact Hm'| |by auto|done|exact Erma]. cbn [ctl]. rewrite <- Ef0 in Ef.
    eapply geom_moved; [exact Hg|exact Hm'|rewrite Ef; exact P1|rewrite En; exact P2|rewrite Ef, En; exact P3].
Qed.
End Ops.
