(* ===== verification/RasEepromHdr.v ===== *)
(** * The RAS table: header, checksum, and what the EEPROM holds

    [stored c m]: the EEPROM [m] holds the table the control structure [c] describes,
    with a good checksum. Resetting, updating and retagging the table establish it; the
    checksum test and a reload rely on it. *)

From stdpp Require Import list strings.
From Stdlib Require Import ZArith Lia.
From S2P Require Import Prelude Bytes Eeprom RasEeprom RasEepromInv RasEepromOps.
Open Scope st_scope.

#[local] Arguments bytes_at : simpl never.

(** The parts of the control structure that do not depend on the EEPROM. *)
Record meta_ok (c : eeprom_control) : Prop := {
  mo_geom : geom c;
  mo_version : known_version (version (tbl_hdr c));
  mo_tag : header (tbl_hdr c) = RAS_TABLE_HDR_VAL \/ header (tbl_hdr c) = RAS_TABLE_HDR_BAD;
  mo_first : first_rec_offset (tbl_hdr c) = ras_record_offset c;
  mo_hdr : hdr_typed (tbl_hdr c);
  mo_rai : rai_typed (tbl_rai c);
  mo_padding : padding (tbl_rai c) = replicate 63 0
}.

Definition info_bytes (c : eeprom_control) : list Z := if has_info c then ras_info_bytes (tbl_rai c) else [].
Definition meta_bytes (c : eeprom_control) : list Z := header_bytes (tbl_hdr c) ++ info_bytes c.

Record stored (c : eeprom_control) (m : Z -> Z) : Prop := {
  so_meta : meta_ok c;
  so_size : tbl_size (tbl_hdr c) = table_size c;
  so_csum : is_byte (checksum (tbl_hdr c));
  so_bytes : bytes_at m (i2c_address c) (Z.to_nat (ras_record_offset c)) = meta_bytes c;
  so_sum : byte_sum (bytes_at m (i2c_address c) (Z.to_nat (table_size c))) = 0
}.

(** ** Sizes and sums *)

Lemma length_ras_info_bytes r : length (padding r) = 63%nat -> length (ras_info_bytes r) = 256%nat.
Proof.
  intros H. unfold ras_info_bytes. rewrite !length_app, !length_le_split.
  assert (length (flat_map (le_split 4) (padding r)) = (4 * length (padding r))%nat) as ->; [|lia].
  induction (padding r) as [|p l IH] in |- *; [done|]. cbn [flat_map length].
  rewrite length_app, length_le_split, IH. lia.
Qed.

Lemma ras_info_bytes_bytes r : Forall is_byte (ras_info_bytes r).
Proof.
  unfold ras_info_bytes. rewrite !Forall_app. split_and!; [apply le_split_bytes..|].
  induction (padding r) as [|p l IH]; [constructor|]. cbn [flat_map]. rewrite Forall_app.
  split; [apply le_split_bytes|done].
Qed.

Section Meta.
Context (c : eeprom_control).
Hypothesis Hg : geom c.

Lemma table_size_eq : table_size c = ras_record_offset c + 24 * ras_num_recs c.
Proof using Hg.
  destruct (geom_bounds c Hg) as (_ & _ & HN). destruct Hg as [_ _ _ Hr _ _ Hn _].
  unfold table_size, RAS_TABLE_HEADER_SIZE, RAS_TABLE_V2_1_INFO_SIZE, RAS_TABLE_RECORD_SIZE.
  revert Hr. destruct (has_info c); intros ->; rewrite wrap_small; lia.
Qed.

Lemma length_meta_bytes : rai_typed (tbl_rai c) -> length (meta_bytes c) = Z.to_nat (ras_record_offset c).
Proof using Hg.
  intros Hr. unfold meta_bytes, info_bytes. rewrite length_app, length_header_bytes, (g_rec c Hg).
  destruct (has_info c); [|done]. rewrite length_ras_info_bytes by apply Hr. done.
Qed.

(** The table is its header, its health block and its records. *)
Lemma table_bytes m :
  bytes_at m (i2c_address c) (Z.to_nat (table_size c))
  = bytes_at m (i2c_address c) (Z.to_nat (ras_record_offset c))
    ++ bytes_at m (rec_addr c 0) (Z.to_nat (24 * ras_num_recs c)).
Proof using Hg.
  destruct (geom_bounds c Hg) as (_ & Hro & _). destruct Hg as [_ _ _ _ _ _ Hn _]. rewrite table_size_eq.
  replace (Z.to_nat (ras_record_offset c + 24 * ras_num_recs c))
    with (Z.to_nat (ras_record_offset c) + Z.to_nat (24 * ras_num_recs c))%nat by lia.
  rewrite bytes_at_app. do 2 f_equal. unfold rec_addr. lia.
Qed.
End Meta.

Lemma u8_add_l x y : u8 (u8 x + y) = u8 (x + y).
Proof. unfold wrap. by rewrite Zplus_mod_idemp_l. Qed.
Lemma u8_add_r x y : u8 (x + u8 y) = u8 (x + y).
Proof. unfold wrap. by rewrite Zplus_mod_idemp_r. Qed.
Lemma u8_opp x : u8 (- u8 x) = u8 (- x).
Proof. unfold wrap. rewrite <- !Z.sub_0_l. by rewrite Zminus_mod_idemp_r. Qed.

(** Congruence modulo 256, with the quotients explicit. *)
Lemma u8_eq x : exists q, u8 x = x + 256 * q.
Proof. exists (- (x / 256)). unfold wrap. change (2 ^ 8) with 256. rewrite Z.mod_eq by lia. lia. Qed.
Lemma u8_cong x y q : x = y + 256 * q -> u8 x = u8 y.
Proof. intros ->. unfold wrap. change (2 ^ 8) with 256. rewrite Z.mul_comm. by rewrite Z.mod_add. Qed.

Lemma sum_le_split_byte x : is_byte x -> sumZ id (le_split 4 x) = x.
Proof.
  intros Hx. unfold is_byte in Hx. cbn [le_split].
  rewrite (Z.mod_small x), (Z.div_small x) by lia. rewrite !Z.div_0_l, Z.mod_0_l by lia. unfold sumZ. cbn. unfold id. lia.
Qed.

Lemma sum_header_bytes h :
  sumZ id (header_bytes h) = sumZ id (take 16 (header_bytes h)) + sumZ id (le_split 4 (checksum h)).
Proof.
  rewrite <- (take_drop 16 (header_bytes h)) at 1. rewrite sumZ_app. do 2 f_equal.
Qed.

Lemma meta_sum_eq c cs :
  meta_sum c cs = u8 (cs + sumZ id (take 16 (header_bytes (tbl_hdr c))) + sumZ id (info_bytes c)).
Proof.
  unfold meta_sum, info_bytes, __calc_hdr_byte_sum, __calc_ras_info_byte_sum. rewrite !byte_sum_eq.
  destruct (has_info c).
  - by rewrite (u8_add_r cs), u8_add_r, u8_add_l.
  - change (sumZ id []) with 0. by rewrite u8_add_r, Z.add_0_r.
Qed.

(** The checksum makes the bytes of the table add up to zero. *)
Lemma checksum_zero c recs :
  let c' := set_tbl_hdr (set_checksum (u8 (- meta_sum c (byte_sum recs))) (tbl_hdr c)) c in
  byte_sum (meta_bytes c' ++ recs) = 0.
Proof.
  intros c'. rewrite byte_sum_eq. unfold meta_bytes. rewrite !sumZ_app, sum_header_bytes.
  change (take 16 (header_bytes (tbl_hdr c'))) with (take 16 (header_bytes (tbl_hdr c))).
  change (info_bytes c') with (info_bytes c). unfold c'. cbn [tbl_hdr set_tbl_hdr checksum set_checksum].
  rewrite sum_le_split_byte by (apply wrap_range; lia). rewrite meta_sum_eq, u8_opp, byte_sum_eq.
  set (H := sumZ id (take 16 _)). set (I := sumZ id (info_bytes c)). set (R := sumZ id recs).
  replace (H + u8 (- (u8 R + H + I)) + I + R) with (u8 (- (u8 R + H + I)) + (H + I + R)) by lia.
  rewrite u8_add_l. replace (- (u8 R + H + I) + (H + I + R)) with (R + (- u8 R)) by lia.
  rewrite <- u8_add_r, u8_opp, u8_add_r. by rewrite Z.add_opp_diag_r.
Qed.

(** Changing a header word and correcting the checksum by the difference. *)
Lemma retag_sum h tag csum post :
  uint 32 tag -> is_byte (checksum h) ->
  csum = u8 (- u8 (u8 (u8 (- checksum h) - word_sum (header h)) + word_sum tag)) ->
  byte_sum (header_bytes h ++ post) = 0 ->
  byte_sum (header_bytes (set_checksum csum (set_header tag h)) ++ post) = 0.
Proof.
  intros _ Hc -> H. rewrite byte_sum_eq in H |- *. rewrite !sumZ_app in *. unfold header_bytes in *.
  cbn [header version first_rec_offset tbl_size checksum set_checksum set_header]. rewrite !sumZ_app in *.
  rewrite (sum_le_split_byte (checksum h)) in H by done.
  rewrite (sum_le_split_byte (u8 _)) by (apply wrap_range; lia). unfold word_sum.
  set (A := sumZ id (le_split 4 (header h))) in *. set (T := sumZ id (le_split 4 tag)).
  set (V := sumZ id (le_split 4 (version h))) in *. set (F := sumZ id (le_split 4 (first_rec_offset h))) in *.
  set (Z0 := sumZ id (le_split 4 (tbl_size h))) in *. set (P := sumZ id post) in *.
  rewrite <- H. destruct (u8_eq (- checksum h)) as [q1 E1]. rewrite E1.
  destruct (u8_eq (- checksum h + 256 * q1 - A)) as [q2 E2]. rewrite E2.
  destruct (u8_eq (- checksum h + 256 * q1 - A + 256 * q2 + T)) as [q3 E3]. rewrite E3.
  match goal with |- context [u8 (- ?x)] => destruct (u8_eq (- x)) as [q4 E4] end. rewrite E4.
  apply (u8_cong _ _ (- q1 - q2 - q3 + q4)). lia.
Qed.

Lemma encode_info_ok r :
  length (__encode_table_ras_info_to_buf r (zeros RAS_TABLE_V2_1_INFO_SIZE)) = 256%nat /\
  Forall is_byte (__encode_table_ras_info_to_buf r (zeros RAS_TABLE_V2_1_INFO_SIZE)).
Proof.
  unfold __encode_table_ras_info_to_buf. rewrite length_app, length_le_split, Forall_app. split_and!.
  - done.
  - apply le_split_bytes.
  - change (drop 4 _) with (replicate 252 0). apply Forall_replicate. unfold is_byte. lia.
Qed.

Section HeaderOps.
Context {dev : Type} {D : EepromDev dev} {Sp : EepromDevSpec dev} (e : ras_env).
Implicit Types (s : ras_state dev) (c : eeprom_control).

(** ** Writing the header and the health block *)

(** The address of the table and the offsets of its first parts, as initialisation
    sets them. *)
Definition addr_ok c : Prop :=
  in_part (i2c_address c) RAS_TBL_SIZE_BYTES /\ ras_header_offset c = 0 /\ ras_info_offset c = 20.

Lemma geom_addr c : geom c -> addr_ok c.
Proof. by intros []. Qed.

Lemma addr_range c : addr_ok c -> i2c_address c = 0 \/ i2c_address c = 2 ^ 18.
Proof. intros [Hp _]. unfold in_part, RAS_TBL_SIZE_BYTES in Hp. lia. Qed.

Lemma wp_write_table_header c s Q :
  addr_ok c -> ctl s = c ->
  (forall res d,
    res <= 0 -> frame (mem s) (dev_cell d) (i2c_address c) 20 ->
    (res = 0 -> bytes_at (dev_cell d) (i2c_address c) 20 = header_bytes (tbl_hdr c)) -> (dev_rel -> res = 0) ->
    Q res (RasState c (is_rma s) (update_channel_flag s) d)) ->
  wp __write_table_header Q s.
Proof.
  intros Hg Hc HQ. pose proof (addr_range c Hg) as Ha. destruct Hg as (Hp & Hh & _).
  unfold __write_table_header. ras_steps. rewrite Hc, encode_header_bytes, Hh, Z.add_0_r. unfold RAS_TABLE_HEADER_SIZE.
  rewrite wrap_small by lia.
  apply wp_write; [lia| |by rewrite length_header_bytes|apply header_bytes_bytes|].
  { eapply in_part_sub; [exact Hp|..]; unfold RAS_TBL_SIZE_BYTES; lia. }
  intros r d Hfr Hr Hw Hrel. wp_step. rewrite Hc. apply HQ; [apply io_result_le|done| |].
  - intros E. apply (io_result_0 r 20) in E; [|lia..]. specialize (Hw E).
    change (Z.to_nat 20) with 20%nat in Hw. rewrite Hw. apply take_ge. by rewrite length_header_bytes.
  - intros R. apply (io_result_0 r 20); [lia..|auto].
Qed.

Lemma wp_write_table_ras_info c s Q :
  addr_ok c -> ctl s = c ->
  (forall res d,
    frame (mem s) (dev_cell d) (i2c_address c + 20) 256 ->
    (res = 0 -> bytes_at (dev_cell d) (i2c_address c + 20) 256
                = __encode_table_ras_info_to_buf (tbl_rai c) (zeros RAS_TABLE_V2_1_INFO_SIZE)) ->
    (dev_rel -> kalloc_write_info e = true -> res = 0) ->
    Q res (RasState c (is_rma s) (update_channel_flag s) d)) ->
  wp (__write_table_ras_info e) Q s.
Proof.
  intros Hg Hc HQ. pose proof (addr_range c Hg) as Ha. destruct Hg as (Hp & _ & Hi). unfold __write_table_ras_info.
  destruct (kalloc_write_info e); cbn [negb].
  2:{ wp_step. specialize (HQ (- ENOMEM) (hw s)). rewrite <- Hc in *. destruct s. by apply HQ. }
  destruct (encode_info_ok (tbl_rai c)) as [Hlen Hby].
  ras_steps. rewrite Hc, Hi, wrap_small by lia. change RAS_TABLE_V2_1_INFO_SIZE with 256 in *.
  apply wp_write; [done| |rewrite Hlen; done|exact Hby|].
  { eapply in_part_sub; [exact Hp|..]; unfold RAS_TBL_SIZE_BYTES; lia. }
  intros r d Hfr Hr Hw Hrel. wp_step. rewrite Hc. apply HQ; [done| |].
  - intros E. apply (io_result_0 r 256) in E; [|lia..]. specialize (Hw E).
    change (Z.to_nat 256) with 256%nat in Hw. rewrite Hw. apply take_ge. rewrite Hlen. lia.
  - intros R _. apply (io_result_0 r 256); [lia..|auto].
Qed.

(** The two writes leave the table's first bytes as the control structure says. *)
Lemma wp_write_checked c cs s Q :
  let c' := set_tbl_hdr (set_checksum (u8 (- cs)) (tbl_hdr c)) c in
  geom c -> known_version (version (tbl_hdr c)) -> rai_typed (tbl_rai c) -> padding (tbl_rai c) = replicate 63 0 ->
  ctl s = c ->
  (forall res d,
    frame (mem s) (dev_cell d) (i2c_address c) (ras_record_offset c) ->
    (res = 0 -> bytes_at (dev_cell d) (i2c_address c) (Z.to_nat (ras_record_offset c)) = meta_bytes c') ->
    (dev_rel -> kalloc_write_info e = true -> res = 0) ->
    Q res (RasState c' (is_rma s) (update_channel_flag s) d)) ->
  wp (write_checked e cs) Q s.
Proof.
  intros c' Hg Hkv Hrai Hpad Hc HQ. destruct (geom_bounds c Hg) as (Ha & _ & _).
  pose proof (g_rec c Hg) as Hro. pose proof (known_version_v21 _ Hkv) as Hv.
  assert (geom c') as Hg' by (destruct Hg; by constructor).
  unfold write_checked. ras_steps. rewrite Hc. fold c'.
  apply wp_write_table_header with (c := c'); [by apply geom_addr|done|]. intros res d _ Hfr Hw Hrel.
  cbn [hw is_rma update_channel_flag] in *. ras_steps.
  change (i2c_address c') with (i2c_address c) in *. change (version (tbl_hdr c')) with (version (tbl_hdr c)).
  rewrite Hv. unfold meta_bytes, info_bytes in HQ. change (version (tbl_hdr c')) with (version (tbl_hdr c)) in HQ.
  destruct (Z.eqb_spec res 0) as [->|Hne]; cbn [andb].
  2:{ wp_step. apply HQ; [|done|].
      - eapply frame_mono; [exact Hfr|lia|]. revert Hro. destruct (has_info c); intros; lia.
      - intros R. by specialize (Hrel R). }
  specialize (Hw eq_refl). destruct (has_info c); rewrite Hro in *.
  - apply wp_write_table_ras_info with (c := c'); [by apply geom_addr|done|]. intros res d2 Hfr2 Hw2 Hrel2.
    cbn [hw is_rma update_channel_flag] in *. change (i2c_address c') with (i2c_address c) in *. apply HQ; [| |done].
    + eapply frame_trans; (eapply frame_mono; [eassumption|lia..]).
    + intros E. specialize (Hw2 E). change (Z.to_nat 276) with (20 + 256)%nat. rewrite bytes_at_app.
      change (Z.of_nat 20) with 20. rewrite Hw2. f_equal.
      * rewrite <- Hw. eapply bytes_at_frame; [exact Hfr2|]. lia.
      * by apply encode_ras_info_bytes.
  - wp_step. apply HQ; [done| |done]. intros _. by rewrite app_nil_r.
Qed.

(** ** The checksum test *)

Lemma wp_verify c s Q :
  geom c -> ctl s = c ->
  (forall res d,
    (forall y, dev_cell d y = mem s y) ->
    (0 <= res -> res = byte_sum (bytes_at (mem s) (i2c_address c) (Z.to_nat (table_size c)))) ->
    (dev_rel -> kalloc_verify e = true -> 0 <= res) ->
    Q res (RasState c (is_rma s) (update_channel_flag s) d)) ->
  wp (__verify_ras_table_checksum e) Q s.
Proof.
  intros Hg Hc HQ. destruct (geom_bounds c Hg) as (Ha & Hro & HN). pose proof (table_size_eq c Hg) as Et.
  pose proof (g_size c Hg) as Hs. pose proof (g_num c Hg) as Hn. unfold RAS_TBL_SIZE_BYTES in Hs.
  unfold __verify_ras_table_checksum. ras_steps. rewrite Hc, (g_hdr c Hg), Z.add_0_r.
  rewrite s32_small, wrap_small by lia.
  destruct (kalloc_verify e); cbn [negb].
  2:{ wp_step. specialize (HQ (- ENOMEM) (hw s)). rewrite <- Hc in *. destruct s. apply HQ; [done|by unfold ENOMEM|done]. }
  wp_step. assert (length (zeros (table_size c)) = Z.to_nat (table_size c)) as Hlz by apply length_replicate.
  apply wp_read; [lia| |lia|].
  { eapply in_part_sub; [exact (g_part c Hg)|..]; unfold RAS_TBL_SIZE_BYTES; lia. }
  intros r buf d Hc' Hl Hr Hw Hrel. cbv beta iota. rewrite Hc. destruct (Z.ltb_spec r (table_size c)); wp_step.
  - unfold EIO. apply HQ; [done| |].
    + destruct (Z.leb_spec 0 r); lia.
    + intros R. specialize (Hrel R). lia.
  - apply HQ; [done| |].
    + intros _. rewrite Hw by lia. by rewrite drop_ge, app_nil_r by lia.
    + intros _ _. rewrite byte_sum_eq. apply wrap_range. lia.
Qed.
End HeaderOps.
