(* ===== verification/RasEepromTop.v ===== *)
(** * The RAS table: reset, append, read, reload

    The operations the rest of the driver calls, each run on any EEPROM that satisfies
    [EepromDevSpec]. *)

From stdpp Require Import list strings.
From Stdlib Require Import ZArith Lia.
From S2P Require Import Prelude Bytes Eeprom RasEeprom RasEepromInv RasEepromOps RasEepromHdr.
Open Scope st_scope.

#[local] Arguments bytes_at : simpl never.

(** Two control structures that differ in tag, size, checksum and health only. *)
Record same_records (c c' : eeprom_control) : Prop := {
  sr_addr : i2c_address c' = i2c_address c;
  sr_hdr : ras_header_offset c' = ras_header_offset c;
  sr_info : ras_info_offset c' = ras_info_offset c;
  sr_off : ras_record_offset c' = ras_record_offset c;
  sr_num : ras_num_recs c' = ras_num_recs c;
  sr_bad : ras_num_bad_pages c' = ras_num_bad_pages c;
  sr_counts : counts c' = counts c;
  sr_fri : ras_fri c' = ras_fri c;
  sr_max : ras_max_record_count c' = ras_max_record_count c;
  sr_channels : bad_channel_bitmap c' = bad_channel_bitmap c;
  sr_valid : is_eeprom_valid c' = is_eeprom_valid c;
  sr_version : version (tbl_hdr c') = version (tbl_hdr c);
  sr_first : first_rec_offset (tbl_hdr c') = first_rec_offset (tbl_hdr c)
}.

Lemma same_records_refl c : same_records c c.
Proof. by constructor. Qed.

Lemma same_records_trans c1 c2 c3 : same_records c1 c2 -> same_records c2 c3 -> same_records c1 c3.
Proof. intros [] []. constructor; congruence. Qed.

Lemma geom_same c c' : same_records c c' -> geom c -> geom c'.
Proof.
  intros [E1 E2 E3 E4 E5 E6 E7 E8 E9 E10 E11 E12 E13] [].
  constructor; rewrite ?E1, ?E2, ?E3, ?E4, ?E5, ?E8, ?E9, ?E12; done.
Qed.

Lemma table_size_same c c' : same_records c c' -> table_size c' = table_size c.
Proof. intros Hs. unfold table_size. by rewrite (sr_version _ _ Hs), (sr_num _ _ Hs). Qed.

Lemma contents_ext c c' m m' :
  i2c_address c' = i2c_address c -> ras_record_offset c' = ras_record_offset c ->
  ras_num_recs c' = ras_num_recs c -> ras_fri c' = ras_fri c -> ras_max_record_count c' = ras_max_record_count c ->
  0 < ras_max_record_count c ->
  (forall i, 0 <= i < ras_max_record_count c -> slot c m' i = slot c m i) -> contents c' m' = contents c m.
Proof.
  intros E1 E2 E3 E4 E5 HN Hs. unfold contents. rewrite E3, E4, E5. apply list_fmap_ext. intros i k _.
  rewrite <- Hs by (apply Z.mod_pos_bound; lia). unfold slot, rec_addr. by rewrite E1, E2.
Qed.

(** Writing the header and the health block leaves the records. *)
Lemma contents_meta_frame c c' m m' :
  geom c -> same_records c c' -> frame m m' (i2c_address c) (ras_record_offset c) -> contents c' m' = contents c m.
Proof.
  intros Hg [] Hfr. destruct (geom_bounds c Hg) as (_ & _ & HN). apply contents_ext; [done..|lia|].
  intros i Hi. eapply bytes_at_frame; [exact Hfr|]. unfold rec_addr. lia.
Qed.

(** Configurations the driver sets up: a nonzero threshold when retirement is on. *)
Definition thr_ok (e : ras_env) : Prop := amdgpu_bad_page_threshold e <> 0 -> 0 < bad_page_cnt_threshold e.

(** The table exceeds a threshold the user set. *)
Definition over (e : ras_env) (c : eeprom_control) : bool :=
  negb (amdgpu_bad_page_threshold e =? 0) && (bad_page_cnt_threshold e <? ras_num_bad_pages c) &&
  negb (amdgpu_bad_page_threshold e =? -1) && negb (amdgpu_bad_page_threshold e =? -2).

Section Update.
Context {dev : Type} {D : EepromDev dev} {Sp : EepromDevSpec dev} (e : ras_env).
Implicit Types (s : ras_state dev) (c : eeprom_control).

Lemma wp_BUG_ON (b : bool) Q s : b = false -> Q tt s -> wp (BUG_ON b) Q s.
Proof. by intros ->. Qed.

Lemma wp_update_tag c s Q :
  meta_ok c -> ctl s = c ->
  (forall c', meta_ok c' -> same_records c c' ->
     header (tbl_hdr c') = (if over e c then RAS_TABLE_HDR_BAD else header (tbl_hdr c)) ->
     Q tt (RasState c' (over e c || is_rma s) (update_channel_flag s) (hw s))) ->
  wp (update_tag e) Q s.
Proof.
  intros Hm Hc HQ. unfold update_tag, over in *. ras_steps. rewrite Hc.
  assert (s = RasState c (is_rma s) (update_channel_flag s) (hw s)) as Es by (rewrite <- Hc; by destruct s).
  destruct (negb (amdgpu_bad_page_threshold e =? 0) && (bad_page_cnt_threshold e <? ras_num_bad_pages c)) eqn:E1;
    cbn [st_when andb] in *.
  2:{ ras_steps. rewrite Es. apply HQ; [done|apply same_records_refl|done]. }
  destruct (amdgpu_bad_page_threshold e =? -1); cbn [negb st_when andb] in *.
  { ras_steps. rewrite Es. apply HQ; [done|apply same_records_refl|done]. }
  destruct (amdgpu_bad_page_threshold e =? -2); cbn [negb st_when andb] in *.
  { ras_steps. rewrite Es. apply HQ; [done|apply same_records_refl|done]. }
  ras_steps. rewrite Hc. destruct Hm as [Hg Hv Ht Hf Hh Hr Hp].
  assert (forall c', same_records c c' -> hdr_typed (tbl_hdr c') -> rai_typed (tbl_rai c') ->
    header (tbl_hdr c') = RAS_TABLE_HDR_BAD -> padding (tbl_rai c') = padding (tbl_rai c) -> meta_ok c') as Hok.
  { intros c' Hs' H1 H2 H3 H4. constructor; [by eapply geom_same| | | |done|done|congruence].
    - by rewrite (sr_version _ _ Hs').
    - by right.
    - by rewrite (sr_first _ _ Hs'), (sr_off _ _ Hs'). }
  assert (hdr_typed (set_header RAS_TABLE_HDR_BAD (tbl_hdr c))) as Hh' by (destruct Hh; by constructor).
  destruct (has_info c); cbn [st_when]; ras_steps; apply HQ; try done; try (by constructor);
    apply Hok; try done; try (by constructor). destruct Hr. by constructor.
Qed.

Lemma meta_ok_health c h : meta_ok c -> uint 8 h -> meta_ok (set_tbl_rai (set_health_percent h (tbl_rai c)) c).
Proof. intros [[] ? ? ? ? [] ?] ?. constructor; try done; by constructor. Qed.

Lemma meta_ok_size c x y :
  meta_ok c -> uint 32 x -> uint 32 y -> meta_ok (set_tbl_hdr (set_checksum y (set_tbl_size x (tbl_hdr c))) c).
Proof. intros [[] ? ? ? [] ? ?] ? ?. constructor; try done; by constructor. Qed.

Lemma wp_update_health c s Q :
  thr_ok e -> meta_ok c -> ctl s = c ->
  (forall c', meta_ok c' -> same_records c c' -> tbl_hdr c' = tbl_hdr c ->
     Q tt (RasState c' (is_rma s) (update_channel_flag s) (hw s))) ->
  wp (update_health e) Q s.
Proof.
  intros Ht Hm Hc HQ. unfold update_health. ras_steps. rewrite Hc.
  destruct (_ && _) eqn:E; cbn [st_when].
  - apply andb_true_iff in E as [[E1%negb_true_iff E2]%andb_true_iff E3].
    apply Z.eqb_neq in E1. specialize (Ht E1). wp_step. apply wp_BUG_ON; [lia|]. ras_steps. rewrite Hc.
    apply HQ; [|by constructor|done]. apply meta_ok_health; [done|]. apply wrap_range. lia.
  - ras_steps. rewrite <- Hc in *. specialize (HQ (ctl s) Hm (same_records_refl _) eq_refl). by destruct s.
Qed.

(** ** Updating the header *)
Lemma wp_update_header c s Q :
  thr_ok e -> meta_ok c -> ctl s = c ->
  (forall res s',
    same_records c (ctl s') -> meta_ok (ctl s') ->
    frame (mem s) (mem s') (i2c_address c) (ras_record_offset c) ->
    header (tbl_hdr (ctl s')) = (if over e c then RAS_TABLE_HDR_BAD else header (tbl_hdr c)) ->
    is_rma s' = over e c || is_rma s ->
    (res = 0 -> stored (ctl s') (mem s')) ->
    (dev_rel -> kalloc_update e = true -> kalloc_write_info e = true -> res = 0) -> Q res s') ->
  wp (amdgpu_ras_eeprom_update_header e) Q s.
Proof.
  intros Ht Hm Hc HQ. unfold amdgpu_ras_eeprom_update_header. wp_step.
  apply (wp_update_tag c); [done|done|]. intros c1 Hm1 Hs1 Etag. ras_steps.
  set (c2 := set_tbl_hdr _ _).
  assert (meta_ok c2) as Hm2.
  { apply (meta_ok_size c1 (table_size c1) 0); [done| |by unfold uint]. unfold uint, table_size.
    destruct (has_info c1); apply wrap_range; lia. }
  assert (same_records c c2) as Hs2 by (eapply same_records_trans; [exact Hs1|by constructor]).
  destruct (kalloc_update e) eqn:Ekc; cbn [negb].
  2:{ wp_step. apply HQ; cbn [ctl hw is_rma]; [done|done|done|done|done|done|done]. }
  pose proof (mo_geom c1 Hm1) as Hg1. destruct (geom_bounds c1 Hg1) as (Ha & Hro & HN).
  pose proof (g_num c1 Hg1) as Hn. pose proof (g_size c1 Hg1) as Hsz. unfold RAS_TBL_SIZE_BYTES in Hsz.
  unfold RAS_TABLE_RECORD_SIZE. rewrite !wrap_small by lia. wp_step.
  set (n := ras_num_recs c1 * 24). assert (length (zeros n) = Z.to_nat n) as Hlz by apply length_replicate.
  apply wp_read; [lia| |lia|].
  { eapply in_part_sub; [exact (g_part c1 Hg1)|..]; unfold RAS_TBL_SIZE_BYTES; lia. }
  intros r buf d Hcell Hl Hr Hw Hrel. cbv beta iota. cbn [ctl hw is_rma update_channel_flag] in *.
  destruct (Z.eqb_spec (io_result r n) 0) as [Eio|Eio]; cbn [negb].
  2:{ wp_step. apply HQ; cbn [ctl hw is_rma]; [done|done|intros x _; apply Hcell|done|done|done|].
      intros R. destruct Eio. apply io_result_0; [lia..|auto]. }
  apply (io_result_0 r n) in Eio; [|lia..]. wp_step. apply (wp_update_health c2); [done|done|done|].
  intros c3 Hm3 Hs3 Eh3. ras_steps. apply (wp_write_checked e c3); [apply Hm3..|done|].
  intros res d2 Hfr Hmeta Hrel2. cbn [ctl hw is_rma update_channel_flag] in *.
  set (c4 := set_tbl_hdr (set_checksum _ (tbl_hdr c3)) c3) in *.
  assert (same_records c c4) as Hs4.
  { eapply same_records_trans; [exact Hs2|]. eapply same_records_trans; [exact Hs3|]. by constructor. }
  assert (meta_ok c4) as Hm4.
  { assert (uint 32 (u8 (- meta_sum c3 (byte_sum buf)))) by (pose proof (wrap_range 8 (- meta_sum c3 (byte_sum buf))); unfold uint; lia).
    destruct Hm3 as [[] ? ? ? [] ? ?]. constructor; try done; by constructor. }
  assert (i2c_address c3 = i2c_address c /\ ras_record_offset c3 = ras_record_offset c) as [Ea Eo]
    by (destruct Hs2, Hs3; split; congruence).
  rewrite Ea, Eo in *.
  assert (frame (mem s) (dev_cell d2) (i2c_address c) (ras_record_offset c)) as Hfr'.
  { intros x Hx. rewrite (Hfr x Hx). apply Hcell. }
  apply HQ; cbn [ctl hw is_rma]; [done|done|exact Hfr'| |done| |auto].
  - change (header (tbl_hdr c4)) with (header (tbl_hdr c3)). rewrite Eh3. exact Etag.
  - intros E. specialize (Hmeta E). constructor; [done| |apply wrap_range; lia| |].
    + change (tbl_size (tbl_hdr c4)) with (tbl_size (tbl_hdr c3)). rewrite Eh3.
      transitivity (table_size c1); [done|]. rewrite (table_size_same _ _ Hs4). by apply table_size_same.
    + rewrite (sr_addr _ _ Hs4), (sr_off _ _ Hs4). exact Hmeta.
    + rewrite table_bytes by apply Hm4. rewrite (sr_addr _ _ Hs4), (sr_off _ _ Hs4), Hmeta.
      replace (bytes_at (dev_cell d2) (rec_addr c4 0) (Z.to_nat (24 * ras_num_recs c4))) with buf.
      * apply checksum_zero.
      * rewrite Hw by done. rewrite drop_ge, app_nil_r by lia.
        assert (ras_num_recs c4 = ras_num_recs c1) as En by (destruct Hs4, Hs1; congruence).
        replace (rec_addr c4 0) with (i2c_address c1 + ras_record_offset c1).
        2:{ unfold rec_addr. destruct Hs4, Hs1. lia. }
        replace (24 * ras_num_recs c4) with n by lia. symmetry.
        eapply bytes_at_frame; [exact Hfr'|]. destruct Hs1. lia.
Qed.
End Update.

(** ** Reading the records *)

Lemma bytes_slots c m i k :
  bytes_at m (rec_addr c i) (24 * k) = concat (map (slot c m) (seqZ i (Z.of_nat k))).
Proof.
  revert i. induction k as [|k IH]; intros i; [done|]. rewrite seqZ_cons by lia. cbn [map concat].
  replace (24 * S k)%nat with (24 + 24 * k)%nat by lia. rewrite bytes_at_app. unfold slot at 1. f_equal.
  replace (Z.pred (Z.of_nat (S k))) with (Z.of_nat k) by lia. rewrite <- IH. f_equal. unfold rec_addr. lia.
Qed.

Lemma decode_app l post :
  length l = 24%nat -> __decode_table_record_from_buf (l ++ post) = __decode_table_record_from_buf l.
Proof. intros H. do 24 (destruct l as [|? l]; [discriminate|]). destruct l; [done|discriminate]. Qed.

Lemma slot_bytes c m i : (forall a, is_byte (m a)) -> Forall is_byte (slot c m i).
Proof. apply bytes_at_bytes. Qed.

Lemma map_seqZ_shift {A} (g h : Z -> A) o j n :
  (forall k, j <= k < j + n -> h k = g (o + k)) -> h <$> seqZ j n = map g (seqZ (o + j) n).
Proof.
  intros H. rewrite <- fmap_add_seqZ. change (map g) with (fmap (M := list) g). rewrite <- list_fmap_compose.
  apply list_fmap_ext. intros i k [-> ?]%lookup_seqZ. simpl. apply H. lia.
Qed.

(** The oldest [num] records, as the two runs of slots the code reads. *)
Lemma contents_runs c m num :
  geom c -> 0 <= num <= ras_num_recs c ->
  take (Z.to_nat num) (contents c m) =
  if ras_fri c + num <=? ras_max_record_count c then map (slot c m) (seqZ (ras_fri c) num)
  else map (slot c m) (seqZ (ras_fri c) (ras_max_record_count c - ras_fri c)) ++
       map (slot c m) (seqZ 0 (ras_fri c + num - ras_max_record_count c)).
Proof.
  intros [_ _ _ _ _ Hf Hn _] Hnum. unfold contents. set (N := ras_max_record_count c) in *.
  replace (ras_num_recs c) with (num + (ras_num_recs c - num)) by lia. rewrite seqZ_app by lia.
  rewrite fmap_app, take_app_exact by (rewrite length_fmap, length_seqZ; lia).
  destruct (Z.leb_spec (ras_fri c + num) N).
  - rewrite (map_seqZ_shift (slot c m) _ (ras_fri c)), Z.add_0_r; [done|].
    intros k Hk. by rewrite Z.mod_small by lia.
  - replace num with ((N - ras_fri c) + (ras_fri c + num - N)) at 1 by lia. rewrite seqZ_app by lia.
    rewrite fmap_app. f_equal.
    + rewrite (map_seqZ_shift (slot c m) _ (ras_fri c)), Z.add_0_r; [done|].
      intros k Hk. by rewrite Z.mod_small by lia.
    + rewrite (map_seqZ_shift (slot c m) _ (ras_fri c - N)); [do 2 f_equal; lia|].
      intros k Hk. f_equal. symmetry. apply Z.mod_unique with 1; lia.
Qed.

(** What the reads leave in the table's state. *)
Definition after_read (c c' : eeprom_control) : Prop := exists bm, c' = set_bad_channel_bitmap bm c.

Section Read.
Context {dev : Type} {D : EepromDev dev} {Sp : EepromDevSpec dev} (e : ras_env).
Implicit Types (s : ras_state dev) (c : eeprom_control).

Lemma wp_decode_records L Q s :
  Forall (fun r => length r = 24%nat /\ Forall is_byte r) L ->
  (forall uf, Q (map __decode_table_record_from_buf L)
     (RasState (set_bad_channel_bitmap
                  (channels (bad_channel_bitmap (ctl s)) (map __decode_table_record_from_buf L)) (ctl s))
        (is_rma s) uf (hw s))) ->
  wp (decode_records (length L) (concat L)) Q s.
Proof.
  intros HL. revert Q s. induction HL as [|r L [Hr Hb] _ IH]; intros Q s HQ; cbn [decode_records length].
  - wp_step. specialize (HQ (update_channel_flag s)). by destruct s as [[] ? ? ?].
  - cbn [concat]. rewrite decode_app by done. wp_step. apply wp_update_bad_channel.
    { unfold uint. change (2 ^ 8) with 256. fold (is_byte (mem_channel (__decode_table_record_from_buf r))).
      cbn [mem_channel __decode_table_record_from_buf].
      rewrite Forall_forall in Hb. apply Hb. apply list_elem_of_In, nth_In. lia. }
    intros uf. wp_step. rewrite drop_app_exact by done. apply IH. intros uf'.
    wp_step. cbn [ctl is_rma hw bad_channel_bitmap set_bad_channel_bitmap]. rewrite set_bitmap_set. apply HQ.
Qed.

Lemma wp_record_read c i k buf Q s :
  geom c -> ctl s = c -> 0 <= i -> 0 <= k -> i + k <= ras_max_record_count c -> 24 * k <= Z.of_nat (length buf) ->
  (forall res buf' d,
    (forall y, dev_cell d y = mem s y) -> length buf' = length buf ->
    (res = 0 -> buf' = concat (map (slot c (mem s)) (seqZ i k)) ++ drop (Z.to_nat (24 * k)) buf) ->
    (dev_rel -> res = 0) -> Q (res, buf') (RasState c (is_rma s) (update_channel_flag s) d)) ->
  wp (__amdgpu_ras_eeprom_read buf i k) Q s.
Proof.
  intros Hg Hc Hi Hk Hik Hb HQ. destruct (geom_bounds c Hg) as (_ & _ & HN).
  unfold __amdgpu_ras_eeprom_read, RAS_TABLE_RECORD_SIZE. ras_steps. rewrite Hc.
  rewrite record_addr_ok, wrap_small by (done || lia).
  apply wp_read; [lia| |lia|].
  { replace (k * 24) with (24 * k) by lia. apply rec_part; [done|lia..]. }
  intros r buf' d Hcell Hl Hr Hw Hrel. wp_step. cbn [fst snd]. rewrite Hc. apply HQ; [done|done| |].
  - intros E. apply (io_result_0 r (k * 24)) in E; [|lia..]. rewrite Hw by done.
    replace (k * 24) with (24 * k) by lia. f_equal.
    replace (Z.to_nat (24 * k)) with (24 * Z.to_nat k)%nat by lia. rewrite bytes_slots. by rewrite Z2Nat.id by lia.
  - intros R. apply (io_result_0 r (k * 24)); [lia..|auto].
Qed.

Lemma slots_24 c m l :
  (forall a, is_byte (m a)) -> Forall (fun r => length r = 24%nat /\ Forall is_byte r) (map (slot c m) l).
Proof.
  intros H. induction l; simpl; constructor; [|done]. split; [apply length_bytes_at|by apply slot_bytes].
Qed.

Lemma length_concat_slots c m i k : 0 <= k -> length (concat (map (slot c m) (seqZ i k))) = Z.to_nat (24 * k).
Proof.
  intros. rewrite length_concat_24.
  - rewrite length_map, length_seqZ. lia.
  - induction (seqZ i k); simpl; constructor; [apply length_bytes_at|done].
Qed.

Lemma wp_ras_read c num Q s :
  __is_ras_eeprom_supported e = true -> geom c -> ctl s = c -> 1 <= num <= ras_num_recs c ->
  (forall res recs s',
    after_read c (ctl s') -> (forall y, mem s' y = mem s y) -> is_rma s' = is_rma s ->
    (res = 0 -> recs = map __decode_table_record_from_buf (take (Z.to_nat num) (contents c (mem s)))) ->
    (res <> 0 -> recs = []) -> (dev_rel -> kalloc_read e = true -> res = 0) -> Q (res, recs) s') ->
  wp (amdgpu_ras_eeprom_read e num) Q s.
Proof.
  intros Hsup Hg Hc Hnum HQ. destruct (geom_bounds c Hg) as (_ & _ & HN).
  pose proof (g_fri c Hg) as Hf. pose proof (g_num c Hg) as Hn.
  assert (after_read c c) as Hid by (exists (bad_channel_bitmap c); by destruct c).
  unfold amdgpu_ras_eeprom_read. ras_steps. rewrite Hsup, Hc. cbn [negb].
  rewrite (proj2 (Z.eqb_neq num 0)), (proj2 (Z.ltb_ge _ _)) by lia.
  destruct (kalloc_read e) eqn:Ek; cbn [negb].
  2:{ wp_step. apply HQ; [by rewrite Hc|done|done|done|done|done]. }
  wp_step. apply wp_umod; [lia|]. unfold RAS_TABLE_RECORD_SIZE. rewrite !(wrap_small 32 (ras_fri c + num - 1)) by lia.
  pose proof (contents_runs c (mem s) num Hg ltac:(lia)) as Hruns.
  assert (Z.of_nat (length (zeros (num * 24))) = num * 24) as Hlz by (unfold zeros; rewrite length_replicate; lia).
  assert (Forall (fun r => length r = 24%nat /\ Forall is_byte r) (take (Z.to_nat num) (contents c (mem s)))) as H24
    by (rewrite Hruns; destruct (_ <=? _); rewrite ?Forall_app; repeat split; apply slots_24, dev_cell_byte).
  assert (length (take (Z.to_nat num) (contents c (mem s))) = Z.to_nat num) as HlT
    by (pose proof (length_contents c (mem s)); rewrite length_take; lia).
  (* the decoding, once the buffer holds the records *)
  assert (forall s1 buf, ctl s1 = c -> (forall y, mem s1 y = mem s y) -> is_rma s1 = is_rma s ->
    buf = concat (take (Z.to_nat num) (contents c (mem s))) ->
    wp (st_bind (decode_records (Z.to_nat num) buf) (fun record => st_ret (0, record))) Q s1) as Hdec.
  { intros s1 buf Hc1 Hm1 Hr1 ->. wp_step. rewrite <- HlT at 1. apply wp_decode_records; [done|]. intros uf. wp_step.
    apply HQ; cbn [ctl hw is_rma]; [|done|done|done|done|done]. rewrite Hc1. by eexists. }
  destruct (Z.ltb_spec (ras_fri c + num - 1) (ras_max_record_count c)).
  - rewrite (proj2 (Z.leb_le _ _)) in Hruns by lia. wp_step.
    apply (wp_record_read c); [done|done|lia|lia|lia|lia|]. intros res buf d Hcell Hl Hw Hrel. cbv beta iota.
    destruct (Z.eqb_spec res 0) as [->|Hne]; cbn [negb].
    2:{ wp_step. apply HQ; cbn [ctl hw is_rma]; [done|done|done|done|done|auto]. }
    wp_step. cbn [Z.eqb]. wp_step. cbn [Z.eqb negb]. apply Hdec; [done|done|done|].
    rewrite take_drop, Hw by done. rewrite drop_ge, app_nil_r by lia. by rewrite Hruns.
  - rewrite (proj2 (Z.leb_gt _ _)) in Hruns by lia.
    rewrite <- (Z.mod_unique (ras_fri c + num - 1) (ras_max_record_count c) 1
      (ras_fri c + num - 1 - ras_max_record_count c)) by lia.
    rewrite !wrap_small by lia. replace (ras_fri c + num - 1 - ras_max_record_count c + 1)
      with (ras_fri c + num - ras_max_record_count c) by lia.
    set (g0 := ras_max_record_count c - ras_fri c) in *. set (g1 := ras_fri c + num - ras_max_record_count c) in *.
    wp_step. apply (wp_record_read c); [done|done|lia|lia|lia|lia|]. intros res buf d Hcell Hl Hw Hrel. cbv beta iota.
    destruct (Z.eqb_spec res 0) as [->|Hne]; cbn [negb].
    2:{ wp_step. apply HQ; cbn [ctl hw is_rma]; [done|done|done|done|done|auto]. }
    wp_step. rewrite (proj2 (Z.eqb_neq g1 0)) by lia.
    apply (wp_record_read c); [done|done|lia|lia|lia|rewrite length_drop; lia|].
    intros res2 buf2 d2 Hcell2 Hl2 Hw2 Hrel2. cbv beta iota. cbn [hw] in *.
    destruct (Z.eqb_spec res2 0) as [->|Hne]; cbn [negb].
    2:{ wp_step. apply HQ; cbn [ctl hw is_rma]; [done| |done|done|done|auto]. intros y. by rewrite Hcell2. }
    apply Hdec; [done|intros y; cbn [hw]; by rewrite Hcell2|done|].
    rewrite Hw2, Hw by done. rewrite length_drop in Hl2.
    rewrite take_app_exact by (rewrite length_concat_slots; lia).
    rewrite (drop_app_exact (Z.to_nat (g0 * 24))) by (rewrite length_concat_slots; lia).
    rewrite drop_drop, drop_ge by lia. rewrite app_nil_r, Hruns, concat_app. f_equal.
    f_equal. apply map_ext_in. intros i _. apply bytes_at_ext. intros y _. apply Hcell.
Qed.
End Read.
