(* ===== verification/RasEepromApi.v ===== *)
(** * The RAS table: append, reset, retag and reload *)

From stdpp Require Import list strings.
From Stdlib Require Import ZArith Lia.
From S2P Require Import Prelude Bytes Eeprom RasEeprom RasEepromInv RasEepromOps RasEepromHdr RasEepromTop.
Open Scope st_scope.

#[local] Arguments bytes_at : simpl never.

Section Api.
Context {dev : Type} {D : EepromDev dev} {Sp : EepromDevSpec dev} (e : ras_env).
Implicit Types (s : ras_state dev) (c : eeprom_control).

(** A record as it is stored: with the partition mode in its page number. *)
Definition tag_record (r : eeprom_table_record) : eeprom_table_record :=
  set_retired_page (Z.lor (retired_page r) (nps_bits e)) r.
Definition untag_record (r : eeprom_table_record) : eeprom_table_record :=
  set_retired_page (Z.ldiff (retired_page r) (nps_bits e)) r.

Lemma lor_range w x y : 0 <= w -> uint w x -> uint w y -> uint w (Z.lor x y).
Proof.
  unfold uint. intros Hw Hx Hy. rewrite <- (Z.mod_small x (2 ^ w)), <- (Z.mod_small y (2 ^ w)) by done.
  rewrite <- !Z.land_ones, <- Z.land_lor_distr_l, Z.land_ones by done. apply Z.mod_pos_bound. lia.
Qed.

Lemma tag_record_typed r : rec_typed r -> rec_typed (tag_record r).
Proof.
  intros []. constructor; try done. cbn [retired_page tag_record set_retired_page].
  apply lor_range; [lia|done|]. apply wrap_range. lia.
Qed.

(** The effect of a successful append. *)
Record append_ok c (m : Z -> Z) (recs : list eeprom_table_record) c' (m' : Z -> Z) : Prop := {
  ao_stored : stored c' m';
  ao_log : contents c' m' = log_append (Z.to_nat (ras_max_record_count c)) (contents c m)
             (map (fun r => __encode_table_record_to_buf (tag_record r)) recs);
  ao_num : ras_num_recs c' = Z.min (ras_max_record_count c) (ras_num_recs c + Z.of_nat (length recs));
  ao_counts : counts c' = counts_add e (Z.of_nat (length recs)) (counts c);
  ao_bad : ras_num_bad_pages c' = bad_pages e (counts c');
  ao_max : ras_max_record_count c' = ras_max_record_count c;
  ao_tag : header (tbl_hdr c') = if over e c' then RAS_TABLE_HDR_BAD else header (tbl_hdr c)
}.

Lemma meta_ok_moved c c' : meta_ok c -> same_meta c c' -> geom c' -> meta_ok c'.
Proof.
  intros [] (E1 & E2 & _ & _ & _ & E6 & _) Hg. constructor; rewrite ?E1, ?E2, ?E6; done.
Qed.

Lemma channels_tag bm recs : channels bm (map tag_record recs) = channels bm recs.
Proof. unfold channels. revert bm. induction recs as [|r recs IH]; intros bm; [done|]. apply IH. Qed.

Lemma wp_ras_append c recs Q s :
  __is_ras_eeprom_supported e = true -> thr_ok e -> meta_ok c -> ctl s = c -> Forall rec_typed recs ->
  1 <= Z.of_nat (length recs) <= ras_max_record_count c ->
  (forall res s',
    meta_ok (ctl s') -> (res = 0 -> append_ok c (mem s) recs (ctl s') (mem s')) ->
    (dev_rel -> kalloc_append e = true -> kalloc_update e = true -> kalloc_write_info e = true -> res = 0) ->
    Q (res, map (fun r => untag_record (tag_record r)) recs) s') ->
  wp (amdgpu_ras_eeprom_append e recs) Q s.
Proof.
  intros Hsup Ht Hm Hc Hrec Hlen HQ. unfold amdgpu_ras_eeprom_append. ras_steps. rewrite Hsup, Hc. cbn [negb].
  rewrite (proj2 (Z.eqb_neq _ 0)), (proj2 (Z.ltb_ge _ _)) by lia. wp_step.
  change (map (fun r => set_retired_page (Z.lor (retired_page r) (nps_bits e)) r) recs) with (map tag_record recs).
  assert (Forall rec_typed (map tag_record recs)) as Hrec'
    by (clear -Hrec; induction Hrec; simpl; constructor; [by apply tag_record_typed|done]).
  apply (wp_append_table e c); [done|apply Hm|done|by rewrite length_map|].
  intros res1 s1 Hfr1 Hsm Hg1 Hrel1 Hok1 _. pose proof (meta_ok_moved _ _ Hm Hsm Hg1) as Hm1. wp_step.
  destruct (Z.eqb_spec res1 0) as [->|Hne].
  2:{ do 2 wp_step. rewrite map_map. apply HQ; [done|done|]. intros R K1 _ _. by destruct Hne; apply Hrel1. }
  destruct (Hok1 eq_refl) as [_ Elog Enum Ecnt Ebad Ech].
  apply (wp_update_header e (ctl s1)); [done|done|done|].
  intros res s2 Hs2 Hm2 Hfr2 Etag _ Hst Hrel2. wp_step. rewrite map_map.
  assert (ras_max_record_count (ctl s1) = ras_max_record_count c) as EN by (destruct Hsm; tauto).
  assert (tbl_hdr (ctl s1) = tbl_hdr c) as Eh by (destruct Hsm; tauto).
  apply HQ; [done| |auto]. intros E. specialize (Hst E). rewrite length_map in *. constructor; [done| | | | | |].
  - rewrite (contents_meta_frame _ _ _ _ Hg1 Hs2 Hfr2), Elog. by rewrite map_map.
  - by rewrite (sr_num _ _ Hs2).
  - by rewrite (sr_counts _ _ Hs2).
  - by rewrite (sr_bad _ _ Hs2), (sr_counts _ _ Hs2).
  - by rewrite (sr_max _ _ Hs2).
  - rewrite Etag, Eh. unfold over. by rewrite (sr_bad _ _ Hs2).
Qed.

(** ** Reset *)

(** The layout of the version the reset writes is the layout already in use. *)
Definition reset_layout c : Prop :=
  ras_record_offset c = if RAS_TABLE_VER_V2_1 <=? table_version e then 276 else 20.

Lemma table_version_known : known_version (table_version e).
Proof. unfold table_version, known_version. repeat case_match; auto. Qed.

Lemma wp_reset c Q s :
  geom c -> reset_layout c -> rai_typed (tbl_rai c) -> padding (tbl_rai c) = replicate 63 0 -> ctl s = c ->
  (forall res s',
    meta_ok (ctl s') -> ras_num_recs (ctl s') = 0 -> ras_fri (ctl s') = 0 ->
    ras_max_record_count (ctl s') = ras_max_record_count c -> ras_num_bad_pages (ctl s') = 0 ->
    header (tbl_hdr (ctl s')) = RAS_TABLE_HDR_VAL -> version (tbl_hdr (ctl s')) = table_version e ->
    i2c_address (ctl s') = i2c_address c ->
    (res = 0 -> stored (ctl s') (mem s')) -> (dev_rel -> kalloc_write_info e = true -> res = 0) -> Q res s') ->
  wp (amdgpu_ras_eeprom_reset_table e) Q s.
Proof.
  intros Hg Hlay Hr Hp Hc HQ. destruct (geom_bounds c Hg) as (Ha & Hro & HN).
  unfold amdgpu_ras_eeprom_reset_table, amdgpu_ras_set_eeprom_table_version. ras_steps. rewrite Hc.
  cbn [tbl_hdr set_tbl_hdr version set_version set_header].
  pose proof table_version_known as Hv. unfold reset_layout in Hlay.
  assert (uint 32 (table_version e)) as Hv32 by (destruct Hv as [->|[->| ->]]; done).
  (* the control structure before the checksum *)
  set (v := table_version e) in *.
  set (start := if RAS_TABLE_VER_V2_1 <=? v then 276 else 20) in *.
  set (rai := if RAS_TABLE_VER_V2_1 <=? v then
    TableRasInfo GPU_HEALTH_USABLE 100 (u16 (bad_page_cnt_threshold e)) (padding (tbl_rai c)) else tbl_rai c).
  assert (forall Q', (forall ck, Q' tt (RasState
     (set_tbl_rai rai (set_tbl_hdr (TableHeader RAS_TABLE_HDR_VAL v start start ck) c))
     (is_rma s) (update_channel_flag s) (hw s))) ->
    wp (if RAS_TABLE_VER_V2_1 <=? v then
     mod_hdr (set_first_rec_offset RAS_RECORD_START_V2_1) ;;
     mod_hdr (set_tbl_size (RAS_TABLE_HEADER_SIZE + RAS_TABLE_V2_1_INFO_SIZE)) ;;
     mod_rai (set_rma_status GPU_HEALTH_USABLE) ;;
     mod_rai (set_health_percent 100) ;;
     mod_rai (set_ecc_page_threshold (u16 (bad_page_cnt_threshold e)))
   else
     mod_hdr (set_first_rec_offset RAS_RECORD_START) ;;
     mod_hdr (set_tbl_size RAS_TABLE_HEADER_SIZE)) Q'
    (RasState (set_tbl_hdr (set_version v (set_header RAS_TABLE_HDR_VAL (tbl_hdr c))) c)
       (is_rma s) (update_channel_flag s) (hw s))) as Hset.
  { intros Q' HQ'. subst start rai. destruct (RAS_TABLE_VER_V2_1 <=? v); ras_steps;
      specialize (HQ' (checksum (tbl_hdr c))); destruct c as [[] [] ? ? ? ? ? ? ? ? ? ? ? ?]; exact HQ'. }
  apply Hset. intros ck. clear Hset. ras_steps.
  set (c1 := set_tbl_rai rai _).
  assert (rai_typed rai /\ padding rai = replicate 63 0) as [Hr1 Hp1].
  { subst rai. destruct (RAS_TABLE_VER_V2_1 <=? v); [|done]. split; [|done].
    destruct Hr. constructor; [done|done|apply wrap_range; lia|done]. }
  assert (uint 32 start) as Hst32 by (subst start; destruct (RAS_TABLE_VER_V2_1 <=? v); done).
  assert (geom c1) as Hg1 by (destruct Hg; by constructor).
  apply (wp_write_checked e c1); [done|done|done|done|done|].
  intros res d Hfr Hmeta Hrel. cbn [hw is_rma update_channel_flag] in *. ras_steps.
  set (c2 := set_tbl_hdr _ c1) in *. set (c3 := set_bad_channel_bitmap 0 _).
  assert (geom c3) as Hg3.
  { destruct Hg1 as [G1 G2 G3 G4 G5 G6 G7 G8]. constructor; [done|done|done|done|done| | |by left].
    - change (0 <= 0 < ras_max_record_count c). lia.
    - change (0 <= 0 <= ras_max_record_count c). lia. }
  assert (is_byte (checksum (tbl_hdr c3))) as Hck by (apply wrap_range; lia).
  assert (meta_ok c3) as Hm3.
  { constructor; try done.
    - by left.
    - constructor; try done. unfold is_byte, uint in *. lia. }
  assert (table_size c3 = start) as Ets.
  { rewrite (table_size_eq c3 Hg3). change (ras_record_offset c) with (ras_record_offset c) in Hlay.
    change (ras_num_recs c3) with 0. change (ras_record_offset c3) with (ras_record_offset c). lia. }
  apply HQ; [done..| |exact Hrel]. intros E. specialize (Hmeta E). cbn [ctl hw].
  constructor; [done|by rewrite Ets|done|exact Hmeta|].
  rewrite (table_bytes c3 Hg3). change (ras_num_recs c3) with 0. rewrite app_nil_r.
  change (i2c_address c3) with (i2c_address c1). change (ras_record_offset c3) with (ras_record_offset c1).
  rewrite Hmeta, <- (app_nil_r (meta_bytes c2)). apply (checksum_zero c1 []).
Qed.

(** ** Correcting the tag *)

Lemma wp_correct_tag c tag Q s :
  stored c (mem s) -> ctl s = c -> tag = RAS_TABLE_HDR_VAL \/ tag = RAS_TABLE_HDR_BAD ->
  (forall res s',
    same_records c (ctl s') -> header (tbl_hdr (ctl s')) = tag -> is_rma s' = is_rma s -> res <= 0 ->
    frame (mem s) (mem s') (i2c_address c) (ras_record_offset c) ->
    (res = 0 -> stored (ctl s') (mem s')) -> (dev_rel -> res = 0) -> Q res s') ->
  wp (amdgpu_ras_eeprom_correct_header_tag tag) Q s.
Proof.
  intros [Hm Hsz Hck Hby Hsum] Hc Htag HQ. pose proof (mo_geom c Hm) as Hg.
  destruct (geom_bounds c Hg) as (Ha & Hro & _).
  unfold amdgpu_ras_eeprom_correct_header_tag. ras_steps. rewrite Hc.
  set (csum := u8 (- u8 _)). set (c1 := set_tbl_hdr _ _).
  assert (same_records c c1) as Hs1 by by constructor.
  assert (uint 32 tag) as Htag32 by (destruct Htag as [->| ->]; done).
  assert (is_byte csum) as Hcs by (apply wrap_range; lia).
  assert (meta_ok c1) as Hm1.
  { destruct Hm as [[] ? ? ? [] ? ?]. constructor; [by constructor|done|done|done| |done|done].
    constructor; try done. unfold is_byte, uint in *. cbn [tbl_hdr checksum c1 set_tbl_hdr set_checksum]. lia. }
  apply (wp_write_table_header c1); [apply geom_addr, Hm1|done|]. intros res d Hle Hfr Hw Hrel.
  cbn [hw is_rma update_channel_flag] in *. change (i2c_address c1) with (i2c_address c) in *.
  apply HQ; cbn [ctl hw]; [done|done|done|done| | |done].
  { eapply frame_mono; [exact Hfr|lia..]. }
  intros E. specialize (Hw E).
  assert (bytes_at (dev_cell d) (i2c_address c) (Z.to_nat (ras_record_offset c)) = meta_bytes c1) as Hby1.
  { replace (Z.to_nat (ras_record_offset c)) with (20 + Z.to_nat (ras_record_offset c - 20))%nat in * by lia.
    rewrite bytes_at_app in Hby |- *. unfold meta_bytes in *. change (info_bytes c1) with (info_bytes c).
    apply app_inj_1 in Hby as [_ Hinfo]; [|by rewrite length_bytes_at, length_header_bytes].
    rewrite Hw, <- Hinfo. f_equal. eapply bytes_at_frame; [exact Hfr|]. lia. }
  constructor; [done| |done|exact Hby1|].
  - by rewrite (table_size_same _ _ Hs1).
  - rewrite table_bytes in Hsum |- * by (apply Hm || apply Hm1).
    change (i2c_address c1) with (i2c_address c). change (ras_record_offset c1) with (ras_record_offset c).
    change (rec_addr c1 0) with (rec_addr c 0). change (ras_num_recs c1) with (ras_num_recs c).
    rewrite Hby1. rewrite Hby in Hsum. unfold meta_bytes in *. change (info_bytes c1) with (info_bytes c).
    rewrite <- app_assoc in *. rewrite (bytes_at_frame _ _ _ _ _ _ Hfr) by (unfold rec_addr; lia).
    by apply retag_sum with (h := tbl_hdr c).
Qed.

(** ** Initialisation *)

(** The capacity initialisation gives to a table of this version. *)
Definition capacity c : Z := if has_info c then RAS_MAX_RECORD_COUNT_V2_1 else RAS_MAX_RECORD_COUNT.

(** The control structure after a reload of the table [c] describes. *)
Record reloaded c c' : Prop := {
  rl_hdr : tbl_hdr c' = tbl_hdr c;
  rl_addr : i2c_address c' = i2c_address c;
  rl_hoff : ras_header_offset c' = 0;
  rl_ioff : ras_info_offset c' = 20;
  rl_off : ras_record_offset c' = ras_record_offset c;
  rl_num : ras_num_recs c' = ras_num_recs c;
  rl_max : ras_max_record_count c' = ras_max_record_count c;
  rl_fri : ras_fri c' = 0
}.

Lemma reloaded_geom c c' : geom c -> reloaded c c' -> geom c'.
Proof.
  intros [] [E1 E2 E3 E4 E5 E6 E7 E8]. constructor; rewrite ?E1, ?E2, ?E3, ?E4, ?E5, ?E6, ?E7, ?E8; try done; [lia|by left].
Qed.

(** A reload starts reading at slot 0: a ring that had wrapped is rotated. *)
Lemma reloaded_contents c c' m :
  geom c -> reloaded c c' ->
  let k := Z.to_nat (ras_max_record_count c - ras_fri c) in
  contents c' m = drop k (contents c m) ++ take k (contents c m).
Proof.
  intros Hg Hl k. pose proof (reloaded_geom c c' Hg Hl) as Hg'. destruct (geom_bounds c Hg) as (_ & _ & HN).
  pose proof (contents_runs c' m (ras_num_recs c') Hg' ltac:(destruct Hg'; lia)) as R'.
  pose proof (contents_runs c m (ras_num_recs c) Hg ltac:(destruct Hg; lia)) as R.
  rewrite take_ge in R by (pose proof (length_contents c m); destruct Hg; lia).
  rewrite take_ge in R' by (pose proof (length_contents c' m); destruct Hg'; lia).
  destruct Hg as [_ _ _ _ _ Hf Hn Hring], Hl as [E1 E2 E3 E4 E5 E6 E7 E8].
  assert (forall l, map (slot c' m) l = map (slot c m) l) as Eslot.
  { intros l. apply map_ext. intros i. unfold slot, rec_addr. by rewrite E2, E5. }
  rewrite E6, E7, E8, (proj2 (Z.leb_le _ _)), Eslot in R' by lia.
  destruct (decide (ras_fri c = 0)) as [Ef|Ef].
  - rewrite Ef, (proj2 (Z.leb_le _ _)) in R by lia. rewrite R', R. subst k.
    rewrite drop_ge, take_ge by (rewrite length_map, length_seqZ; lia). done.
  - destruct Hring as [?|En]; [done|]. rewrite (proj2 (Z.leb_gt _ _)) in R by lia. rewrite R, R'. subst k.
    rewrite drop_app_exact, take_app_exact by (rewrite length_map, length_seqZ; lia).
    rewrite <- map_app. f_equal. rewrite En.
    replace (ras_fri c + ras_max_record_count c - ras_max_record_count c) with (ras_fri c) by lia.
    rewrite <- (seqZ_app 0 (ras_fri c)) by lia. f_equal. lia.
Qed.

Lemma wp_init c Q s :
  __is_ras_eeprom_supported e = true -> i2c_bus_ready e = true ->
  __get_eeprom_i2c_addr e = Some (i2c_address c) ->
  stored c (mem s) -> ras_max_record_count c = capacity c ->
  (forall res s',
    (forall y, mem s' y = mem s y) -> is_rma s' = false -> (res = 0 -> reloaded c (ctl s')) ->
    tbl_rai (ctl s') = tbl_rai (ctl s) -> (dev_rel -> res = 0) -> Q res s') ->
  wp (amdgpu_ras_eeprom_init e) Q s.
Proof.
  intros Hsup Hbus Haddr [Hm Hsz Hck Hby Hsum] Hcap HQ. pose proof (mo_geom c Hm) as Hg.
  destruct (geom_bounds c Hg) as (Ha & Hro & HN). pose proof (table_size_eq c Hg) as Ets.
  unfold amdgpu_ras_eeprom_init. wp_step. ras_step. rewrite Hsup, Hbus, Haddr. cbn [negb]. ras_steps.
  cbn [i2c_address ras_header_offset set_ras_info_offset set_ras_header_offset set_i2c_address].
  unfold RAS_HDR_START, RAS_TABLE_HEADER_SIZE. rewrite Z.add_0_r, wrap_small by lia.
  apply wp_read; [lia| |by unfold zeros|].
  { eapply in_part_sub; [exact (g_part c Hg)|..]; unfold RAS_TBL_SIZE_BYTES; lia. }
  intros r buf d Hcell Hl Hr Hw Hrel. cbv beta iota. cbn [hw ctl is_rma update_channel_flag] in *.
  destruct (Z.ltb_spec r 20).
  { wp_step. apply HQ; cbn [hw ctl is_rma]; [done|done| |done|].
    - destruct (Z.leb_spec 0 r); unfold EIO; lia.
    - intros R. specialize (Hrel R). lia. }
  assert (buf = header_bytes (tbl_hdr c)) as ->.
  { rewrite Hw by lia. change (drop (Z.to_nat 20) (zeros 20)) with (@nil Z). rewrite app_nil_r.
    replace (Z.to_nat (ras_record_offset c)) with (20 + Z.to_nat (ras_record_offset c - 20))%nat in Hby by lia.
    rewrite bytes_at_app in Hby. unfold meta_bytes in Hby.
    apply app_inj_1 in Hby as [Hh _]; [done|by rewrite length_bytes_at, length_header_bytes]. }
  rewrite <- encode_header_bytes, decode_encode_header by apply Hm. wp_step. ras_step.
  assert (negb (header (tbl_hdr c) =? RAS_TABLE_HDR_VAL) && negb (header (tbl_hdr c) =? RAS_TABLE_HDR_BAD) = false) as ->
    by (destruct (mo_tag c Hm) as [->| ->]; done).
  pose proof (mo_version c Hm) as Hv. pose proof (mo_first c Hm) as Hfirst. pose proof (g_rec c Hg) as Hrec.
  pose proof (g_num c Hg) as Hn. unfold capacity in Hcap. rewrite Hsz, Ets, Hfirst.
  assert ((version (tbl_hdr c) =? RAS_TABLE_VER_V1) = negb (has_info c)) as EV1
    by (destruct Hv as [->|[->| ->]]; done).
  assert (((version (tbl_hdr c) =? RAS_TABLE_VER_V2_1) || (version (tbl_hdr c) =? RAS_TABLE_VER_V3) ||
           (version (tbl_hdr c) =? RAS_TABLE_VER_V1)) = true) as -> by (destruct Hv as [->|[->| ->]]; done).
  rewrite EV1. unfold RAS_TABLE_HEADER_SIZE, RAS_TABLE_V2_1_INFO_SIZE, RAS_TABLE_RECORD_SIZE.
  assert (forall x, u32 (24 * x) / 24 = x \/ ~ 0 <= x <= 10922) as Hdiv.
  { intros x. destruct (decide (0 <= x <= 10922)); [left|by right].
    rewrite wrap_small by lia. rewrite Z.mul_comm. apply Z.div_mul. lia. }
  destruct (Hdiv (ras_num_recs c)) as [Hdn|]; [|lia].
  destruct (has_info c) eqn:Einfo; cbn [negb]; rewrite Hrec in *; ras_steps;
    cbn [ctl is_rma hw update_channel_flag set_tbl_hdr set_ras_max_record_count set_ras_record_offset
         set_ras_num_recs ras_max_record_count ras_num_recs ras_record_offset].
  - replace (276 + 24 * ras_num_recs c - 20 - 256) with (24 * ras_num_recs c) by lia. rewrite Hdn.
    rewrite (proj2 (Z.ltb_ge _ _)) by lia. ras_steps.
    apply HQ; cbn [hw ctl is_rma]; [done|done| |done|done]. intros _.
    by constructor; cbn; rewrite ?Hcap, ?Hrec.
  - replace (20 + 24 * ras_num_recs c - 20) with (24 * ras_num_recs c) by lia. rewrite Hdn.
    rewrite (proj2 (Z.ltb_ge _ _)) by lia. ras_steps.
    apply HQ; cbn [hw ctl is_rma]; [done|done| |done|done]. intros _.
    by constructor; cbn; rewrite ?Hcap, ?Hrec.
Qed.

(** ** Initialisation of a blank EEPROM *)

Lemma wp_write_checked_any cs c Q s :
  addr_ok c -> ctl s = c ->
  (forall res d, (dev_rel -> kalloc_write_info e = true -> res = 0) ->
     Q res (RasState (set_tbl_hdr (set_checksum (u8 (- cs)) (tbl_hdr c)) c) (is_rma s) (update_channel_flag s) d)) ->
  wp (write_checked e cs) Q s.
Proof.
  intros Ha Hc HQ. unfold write_checked. ras_steps. rewrite Hc.
  apply (wp_write_table_header (set_tbl_hdr (set_checksum (u8 (- cs)) (tbl_hdr c)) c)); [done|done|].
  intros res d _ _ _ Hrel. ras_steps. destruct (_ && _) eqn:E.
  - eapply wp_write_table_ras_info; [|done|intros; by apply HQ]. done.
  - wp_step. apply HQ. auto.
Qed.

(** A reset never sets the place and the number of the records. *)
Lemma wp_reset_any c Q s :
  addr_ok c -> ctl s = c ->
  (forall res s', ras_max_record_count (ctl s') = ras_max_record_count c ->
     ras_record_offset (ctl s') = ras_record_offset c -> ras_num_recs (ctl s') = 0 ->
     (dev_rel -> kalloc_write_info e = true -> res = 0) -> Q res s') ->
  wp (amdgpu_ras_eeprom_reset_table e) Q s.
Proof.
  intros Ha Hc HQ. unfold amdgpu_ras_eeprom_reset_table, amdgpu_ras_set_eeprom_table_version. ras_steps.
  rewrite Hc. destruct (_ <=? _); ras_steps; (eapply wp_write_checked_any; [|done|intros res d Hrel; ras_steps; by apply HQ]); done.
Qed.

Lemma wp_init_blank addr Q s :
  __is_ras_eeprom_supported e = true -> i2c_bus_ready e = true ->
  __get_eeprom_i2c_addr e = Some addr -> in_part addr RAS_TBL_SIZE_BYTES ->
  word_at 0 (bytes_at (mem s) addr 20) <> RAS_TABLE_HDR_VAL ->
  word_at 0 (bytes_at (mem s) addr 20) <> RAS_TABLE_HDR_BAD ->
  (forall res s', ras_max_record_count (ctl s') = ras_max_record_count (ctl s) ->
     (dev_rel -> kalloc_write_info e = true -> res = 0) -> Q res s') ->
  wp (amdgpu_ras_eeprom_init e) Q s.
Proof.
  intros Hsup Hbus Haddr Hp Hv Hb HQ. unfold amdgpu_ras_eeprom_init. wp_step. ras_step.
  rewrite Hsup, Hbus, Haddr. cbn [negb]. ras_steps.
  cbn [i2c_address ras_header_offset set_ras_info_offset set_ras_header_offset set_i2c_address].
  unfold RAS_HDR_START, RAS_TABLE_HEADER_SIZE.
  assert (addr = 0 \/ addr = 2 ^ 18) by (unfold in_part, RAS_TBL_SIZE_BYTES in Hp; lia).
  rewrite Z.add_0_r, wrap_small by lia. apply wp_read; [lia| |by unfold zeros|].
  { eapply in_part_sub; [exact Hp|..]; unfold RAS_TBL_SIZE_BYTES; lia. }
  intros r buf d Hcell Hl Hr Hw Hrel. cbv beta iota. cbn [hw ctl is_rma update_channel_flag] in *.
  destruct (Z.ltb_spec r 20); [wp_step; apply HQ; [done|intros R; specialize (Hrel R); lia]|]. wp_step. ras_step.
  rewrite Hw by lia. change (drop (Z.to_nat 20) (zeros 20)) with (@nil Z). rewrite app_nil_r.
  change (Z.to_nat 20) with 20%nat. cbn [header __decode_table_header_from_buf].
  rewrite (proj2 (Z.eqb_neq _ _) Hv), (proj2 (Z.eqb_neq _ _) Hb). cbn [negb andb].
  eapply wp_reset_any; [|done|intros res s' E _ _ Hrel'; by apply HQ]. done.
Qed.

(** ** The check of a loaded table *)

(** The control structure [c'] was loaded from the table [c]; its health block may not
    have been read yet. *)
Record loaded c c' : Prop := {
  ld_addr : i2c_address c' = i2c_address c;
  ld_off : ras_record_offset c' = ras_record_offset c;
  ld_num : ras_num_recs c' = ras_num_recs c;
  ld_max : ras_max_record_count c' = ras_max_record_count c;
  ld_hdr : tbl_hdr c' = tbl_hdr c;
  ld_geom : geom c';
  ld_info : has_info c = false -> rai_typed (tbl_rai c');
  ld_padding : padding (tbl_rai c') = replicate 63 0
}.

Lemma reloaded_loaded c c' :
  geom c -> reloaded c c' -> rai_typed (tbl_rai c') -> padding (tbl_rai c') = replicate 63 0 -> loaded c c'.
Proof. intros Hg Hl Hr Hp. pose proof (reloaded_geom _ _ Hg Hl). destruct Hl. by constructor. Qed.

Definition with_rai c (rai : table_ras_info) : eeprom_control := set_tbl_rai rai c.

(** Once the health block is read the control structure describes the EEPROM again. *)
Lemma loaded_stored c c' m rai :
  stored c m -> loaded c c' ->
  (has_info c = true -> rai = tbl_rai c) -> (has_info c = false -> rai = tbl_rai c') ->
  stored (with_rai c' rai) m.
Proof.
  intros [Hm Hsz Hck Hby Hsum] Hl H1 H2. destruct Hl as [Ea Eo En Ex Eh Hg Hri Hpad]. set (c2 := with_rai c' rai).
  assert (geom c2) as Hg2 by (destruct Hg; by constructor).
  assert (has_info c2 = has_info c) as Ei by (cbn; by rewrite Eh).
  assert (rai_typed rai /\ padding rai = replicate 63 0) as [Hr Hp].
  { destruct (has_info c) eqn:E.
    - rewrite (H1 eq_refl). split; apply Hm.
    - rewrite (H2 eq_refl). split; [by apply Hri|done]. }
  assert (meta_bytes c2 = meta_bytes c) as Emb.
  { unfold meta_bytes, info_bytes. rewrite Ei. cbn [tbl_hdr tbl_rai c2 with_rai set_tbl_rai]. rewrite Eh. f_equal.
    destruct (has_info c) eqn:E; [by rewrite (H1 eq_refl)|done]. }
  assert (table_size c2 = table_size c) as Ets.
  { rewrite !table_size_eq by (done || apply Hm). cbn [ras_record_offset ras_num_recs c2 with_rai set_tbl_rai]. by rewrite Eo, En. }
  constructor; rewrite ?Ets, ?Emb; cbn [i2c_address ras_record_offset tbl_hdr c2 with_rai set_tbl_rai];
    rewrite ?Ea, ?Eo, ?Eh; try done.
  destruct Hm. constructor; cbn [tbl_hdr tbl_rai ras_record_offset c2 with_rai set_tbl_rai]; rewrite ?Eh, ?Eo; done.
Qed.

Lemma wp_check_info c Q s :
  stored c (mem s) -> loaded c (ctl s) ->
  (forall res s',
    (forall y, mem s' y = mem s y) -> is_rma s' = is_rma s ->
    (res <> 0 -> ctl s' = ctl s) ->
    (res = 0 -> exists rai, ctl s' = with_rai (ctl s) rai /\ stored (ctl s') (mem s')) ->
    (dev_rel -> kalloc_read_info e = true -> res = 0) -> Q res s') ->
  wp (check_info e) Q s.
Proof.
  intros Hst Hl HQ. pose proof (ld_addr _ _ Hl) as Ea. pose proof (ld_geom _ _ Hl) as Hg.
  pose proof (so_meta _ _ Hst) as Hm. destruct (geom_bounds _ Hg) as (Ha & Hro & _).
  unfold check_info. ras_steps. rewrite (ld_hdr _ _ Hl).
  assert (forall s', (forall y, mem s' y = mem s y) -> forall rai,
    (has_info c = true -> rai = tbl_rai c) -> (has_info c = false -> rai = tbl_rai (ctl s)) ->
    stored (with_rai (ctl s) rai) (mem s')) as Hok.
  { intros s' Hy rai H1 H2. assert (stored (with_rai (ctl s) rai) (mem s)) as [K1 K2 K3 K4 K5] by by eapply loaded_stored.
    constructor; try done.
    - rewrite <- K4. apply bytes_at_ext. auto.
    - rewrite <- K5. f_equal. apply bytes_at_ext. auto. }
  destruct (has_info c) eqn:Einfo.
  2:{ wp_step. apply HQ; [done|done|done| |done]. intros _. exists (tbl_rai (ctl s)).
      assert (ctl s = with_rai (ctl s) (tbl_rai (ctl s))) as Es by (by destruct (ctl s)).
      split; [done|]. rewrite Es at 1. by apply Hok. }
  unfold __read_table_ras_info. destruct (kalloc_read_info e); cbn [negb].
  2:{ wp_step. apply HQ; done. }
  ras_steps. rewrite (g_info _ Hg). unfold RAS_TABLE_V2_1_INFO_SIZE. rewrite wrap_small by lia.
  apply wp_read; [lia| |by unfold zeros|].
  { eapply in_part_sub; [exact (g_part _ Hg)|..]; unfold RAS_TBL_SIZE_BYTES; lia. }
  intros r buf d Hcell Hlen Hr Hw Hrel. cbv beta iota. destruct (Z.ltb_spec r 256).
  { assert ((if 0 <=? r then - EIO else r) <> 0) by (unfold EIO; destruct (Z.leb_spec 0 r); lia).
    wp_step. apply HQ; cbn [ctl hw is_rma]; [done|done|done|done|]. intros R. specialize (Hrel R). lia. }
  ras_steps. assert (r = 256) as -> by lia. cbn [Z.eqb Pos.eqb].
  assert (buf = ras_info_bytes (tbl_rai c)) as ->.
  { rewrite Hw by done. change (drop (Z.to_nat 256) (zeros 256)) with (@nil Z). rewrite app_nil_r, Ea.
    pose proof (so_bytes _ _ Hst) as Hby. pose proof (g_rec _ (mo_geom _ Hm)) as Erec. rewrite Einfo in Erec.
    rewrite Erec in Hby. change (Z.to_nat 276) with (20 + 256)%nat in Hby. rewrite bytes_at_app in Hby.
    unfold meta_bytes, info_bytes in Hby. rewrite Einfo in Hby.
    apply app_inj_1 in Hby as [_ Hi]; [done|by rewrite length_bytes_at, length_header_bytes]. }
  rewrite <- encode_ras_info_bytes, decode_encode_ras_info by apply Hm. set (rai := TableRasInfo _ _ _ _).
  apply HQ; cbn [ctl hw is_rma]; [done|done|done| |done]. intros _. exists rai. split; [done|].
  apply (Hok (RasState (ctl s) (is_rma s) (update_channel_flag s) d)); [done| |done]. intros _. subst rai.
  rewrite (ld_padding _ _ Hl), <- (mo_padding _ Hm). by destruct (tbl_rai c).
Qed.

(** What the check decides from the tag and the number [nb] of bad pages. *)
Definition check_tag (nb tag : Z) : Z :=
  if (tag =? RAS_TABLE_HDR_BAD) && (nb <=? bad_page_cnt_threshold e) then RAS_TABLE_HDR_VAL else tag.
Definition check_rma (nb tag : Z) (rma : bool) : bool :=
  if (tag =? RAS_TABLE_HDR_BAD) && (bad_page_cnt_threshold e <? nb) &&
     negb ((amdgpu_bad_page_threshold e =? -1) || (amdgpu_bad_page_threshold e =? -2)) then true else rma.

Record check_ok c c' (m m' : Z -> Z) : Prop := {
  ck_stored : stored c' m';
  ck_contents : contents c' m' = contents c m;
  ck_tag : header (tbl_hdr c') = check_tag (bad_pages e (counts c)) (header (tbl_hdr c))
}.

(** Reading the health block and testing the checksum, before either branch goes on. *)
Lemma wp_info_verify c (k : Z -> stM (ras_state dev) Z) Q s :
  stored c (mem s) -> loaded c (ctl s) ->
  (forall res s', res <> 0 -> ~ (dev_rel /\ kalloc_read_info e = true) -> Q res s') ->
  (forall res s',
    stored (ctl s') (mem s') -> (exists rai, ctl s' = with_rai (ctl s) rai) ->
    (forall y, mem s' y = mem s y) -> is_rma s' = is_rma s ->
    res = 0 \/ res < 0 /\ ~ (dev_rel /\ kalloc_verify e = true) -> wp (k res) Q s') ->
  wp (st_bind (check_info e) (fun res => if negb (res =? 0) then st_ret res
        else st_bind (__verify_ras_table_checksum e) k)) Q s.
Proof.
  intros Hst Hl Hfail Hk. wp_step. apply (wp_check_info c); [done|done|].
  intros res s1 Hm1 Hr1 _ Hok Hrel. destruct (Z.eqb_spec res 0) as [->|Hne]; cbn [negb].
  2:{ wp_step. apply Hfail; [done|]. intros [R K]. by destruct Hne; apply Hrel. }
  destruct (Hok eq_refl) as (rai & Erai & Hst1). wp_step.
  apply (wp_verify e (ctl s1)); [apply Hst1|done|]. intros res d Hcell Hsum Hrelv.
  apply Hk; cbn [ctl hw is_rma]; [|by exists rai|intros y; by rewrite Hcell|done|].
  - destruct Hst1 as [K1 K2 K3 K4 K5]. constructor; try done.
    + rewrite <- K4. apply bytes_at_ext. auto.
    + rewrite <- K5. f_equal. apply bytes_at_ext. auto.
  - destruct (Z.le_gt_cases 0 res) as [H0|H0].
    + left. rewrite Hsum by done. apply Hst1.
    + right. split; [done|]. intros [R K]. specialize (Hrelv R K). lia.
Qed.

Lemma wp_check c Q s :
  __is_ras_eeprom_supported e = true -> i2c_bus_ready e = true ->
  __get_eeprom_i2c_addr e = Some (i2c_address c) -> amdgpu_bad_page_threshold e <> 0 ->
  stored c (mem s) -> loaded c (ctl s) ->
  (forall res s',
    (res = 0 -> check_ok (ctl s) (ctl s') (mem s) (mem s') /\
       is_rma s' = check_rma (bad_pages e (counts (ctl s))) (header (tbl_hdr c)) (is_rma s)) ->
    (dev_rel -> kalloc_read_info e = true -> kalloc_verify e = true -> res = 0) -> Q res s') ->
  wp (amdgpu_ras_eeprom_check e) Q s.
Proof.
  intros Hsup Hbus Haddr Hthr Hst Hl HQ. unfold amdgpu_ras_eeprom_check. rewrite Hsup, Hbus, Haddr. cbn [negb].
  ras_steps. set (c0 := ctl s) in *. set (nb := u32 (_ + _)). set (c1 := set_ras_num_bad_pages _ _).
  assert (nb = bad_pages e (counts c0)) as Enb by done.
  assert (loaded c c1) as Hl1.
  { destruct Hl as [? ? ? ? ? [G1 G2 G3 G4 G5 G6 G7 G8] ? ?]. constructor; try done. constructor; try done.
    cbn [i2c_address c1 set_ras_num_bad_pages set_i2c_address]. rewrite <- ld_addr0. done. }
  assert (forall m, contents c1 m = contents c0 m) as Ec1.
  { intros m. unfold contents. apply list_fmap_ext. intros i k _. unfold slot, rec_addr.
    cbn [i2c_address ras_record_offset c1 set_ras_num_bad_pages set_i2c_address]. by rewrite (ld_addr _ _ Hl). }
  assert (header (tbl_hdr c1) = header (tbl_hdr c)) as Etag by (cbn; by rewrite (ld_hdr _ _ Hl)).
  assert (0 <= nb) as Hnb by (apply wrap_range; lia).
  assert (forall rai m', (forall y, m' y = mem s y) -> contents (with_rai c1 rai) m' = contents c0 (mem s)) as Econt.
  { intros rai m' Hy. rewrite <- Ec1. destruct (geom_bounds _ (ld_geom _ _ Hl1)) as (_ & _ & ?).
    apply contents_ext; [done..|lia|]. intros i _. apply bytes_at_ext. auto. }
  rewrite Etag. destruct (Z.eqb_spec (header (tbl_hdr c)) RAS_TABLE_HDR_VAL) as [EV|EV].
  { apply (wp_info_verify c); [done|done| |].
    - intros res s' Hne Hn. apply HQ; [done|]. intros. by destruct Hn.
    - intros res s' Hst' [rai Erai] Hy Hrma Hres. wp_step. cbn [ctl hw is_rma] in *.
      destruct Hres as [->|[Hneg Hn]].
      2:{ rewrite (proj2 (Z.ltb_lt _ _)) by done. apply HQ; [lia|]. intros. by destruct Hn. }
      apply HQ; [|done]. intros _. split; [constructor; [done| |]|].
      + rewrite Erai. by apply Econt.
      + rewrite Erai. cbn [tbl_hdr with_rai set_tbl_rai]. rewrite Etag. unfold check_tag. rewrite (ld_hdr _ _ Hl), EV. done.
      + rewrite Hrma. unfold check_rma. rewrite EV. done. }
  assert (header (tbl_hdr c) = RAS_TABLE_HDR_BAD) as EB by (destruct (mo_tag _ (so_meta _ _ Hst)); done).
  rewrite EB. rewrite (proj2 (Z.eqb_neq _ _) Hthr). cbn [negb andb]. rewrite Z.eqb_refl.
  apply (wp_info_verify c); [done|done| |].
  - intros res s' Hne Hn. apply HQ; [done|]. intros. by destruct Hn.
  - intros res s' Hst' [rai Erai] Hy Hrma Hres. cbn [ctl hw is_rma] in *.
    destruct Hres as [->|[Hneg Hn]].
    2:{ rewrite (proj2 (Z.eqb_neq _ _)) by lia. cbn [negb]. wp_step. apply HQ; [done|]. intros. by destruct Hn. }
    cbn [Z.eqb negb]. change (ras_num_bad_pages c1) with nb.
    assert (check_tag nb RAS_TABLE_HDR_BAD = if nb <=? bad_page_cnt_threshold e then RAS_TABLE_HDR_VAL else RAS_TABLE_HDR_BAD) as Ect by done.
    assert (check_rma nb RAS_TABLE_HDR_BAD (is_rma s) = if (bad_page_cnt_threshold e <? nb) &&
      negb ((amdgpu_bad_page_threshold e =? -1) || (amdgpu_bad_page_threshold e =? -2)) then true else is_rma s) as Ecr by done.
    assert (header (tbl_hdr (ctl s')) = RAS_TABLE_HDR_BAD) as EB' by (rewrite Erai; cbn; rewrite (ld_hdr _ _ Hl); done).
    rewrite Z.ltb_antisym in Ecr.
    destruct (nb <=? bad_page_cnt_threshold e); cbn [negb andb] in Ecr.
    + wp_step. apply (wp_correct_tag (ctl s')); [done|done|by left|]. intros res s2 Hs2 Et2 Hrma2 Hle Hfr2 Hst2 Hrel2. wp_step.
      destruct (Z.eq_dec res 0) as [->|Hne].
      2:{ rewrite (proj2 (Z.ltb_lt _ _)) by lia. apply HQ; [done|]. intros R _ _. auto. }
      apply HQ; [|done]. intros _. rewrite ?EB, <- ?Enb, Ecr, Hrma2, Hrma. split; [constructor|done].
      * by apply Hst2.
      * rewrite (contents_meta_frame _ _ _ _ (mo_geom _ (so_meta _ _ Hst')) Hs2 Hfr2), Erai. by apply Econt.
      * rewrite (ld_hdr _ _ Hl), EB, <- Enb, Ect. exact Et2.
    + destruct ((amdgpu_bad_page_threshold e =? -1) || _); cbn [negb] in Ecr; ras_steps; (apply HQ; [|done]; intros _);
        (split; [constructor; [done|rewrite Erai; by apply Econt|]|]); cbn [ctl is_rma];
        rewrite ?(ld_hdr _ _ Hl), ?EB, <- ?Enb, ?Ect, ?Ecr, ?Hrma, ?EB'; done.
Qed.
End Api.
