(* ===== verification/RasUpgrade.v ===== *)
(** * The RAS table: formatting an old table in the new version

    [amdgpu_ras_eeprom_reset_table] writes a header of the version the device wants, but
    leaves [ras_record_offset] where the old version has its records. This file follows
    the format action of [amdgpu_ras_init_badpage_info] on a version 1 table of a device
    that wants version 3: the reset, the records that are saved again, and what the next
    boot reads. *)

From stdpp Require Import list strings.
From Stdlib Require Import ZArith Lia.
From S2P Require Import Prelude Bytes Eeprom RasEeprom RasEepromInv RasEepromOps RasEepromHdr RasEepromTop RasEepromApi.
Open Scope st_scope.

#[local] Arguments bytes_at : simpl never.

(** The place of the records in a table of version 1. *)
Record v1_layout (c : eeprom_control) : Prop := {
  vl_addr : addr_ok c;
  vl_rec : ras_record_offset c = RAS_RECORD_START;
  vl_max : 10 <= ras_max_record_count c <= RAS_MAX_RECORD_COUNT
}.

(** The control structure while the records of a version 3 table go to the place of
    version 1; [m0] is the EEPROM before the reset. *)
Record misplaced (m0 : Z -> Z) (c : eeprom_control) (m : Z -> Z) : Prop := {
  mp_layout : v1_layout c;
  mp_fri : ras_fri c = 0;
  mp_num : 0 <= ras_num_recs c <= 10;
  mp_version : version (tbl_hdr c) = RAS_TABLE_VER_V3;
  mp_tag : header (tbl_hdr c) = RAS_TABLE_HDR_VAL \/ header (tbl_hdr c) = RAS_TABLE_HDR_BAD;
  mp_first : first_rec_offset (tbl_hdr c) = 276;
  mp_size : tbl_size (tbl_hdr c) = 276 + 24 * ras_num_recs c;
  mp_csum : uint 32 (checksum (tbl_hdr c));
  mp_bytes : bytes_at m (i2c_address c) 20 = header_bytes (tbl_hdr c);
  mp_frame : frame m0 m (i2c_address c) 276
}.

(** The same control structure but for tag, checksum, health and the set of channels. *)
Record retouched (c c' : eeprom_control) : Prop := {
  rc_tag : header (tbl_hdr c') = header (tbl_hdr c) \/ header (tbl_hdr c') = RAS_TABLE_HDR_BAD;
  rc_version : version (tbl_hdr c') = version (tbl_hdr c);
  rc_first : first_rec_offset (tbl_hdr c') = first_rec_offset (tbl_hdr c);
  rc_size : tbl_size (tbl_hdr c') = tbl_size (tbl_hdr c);
  rc_csum : checksum (tbl_hdr c') = checksum (tbl_hdr c);
  rc_addr : i2c_address c' = i2c_address c;
  rc_hoff : ras_header_offset c' = ras_header_offset c;
  rc_ioff : ras_info_offset c' = ras_info_offset c;
  rc_off : ras_record_offset c' = ras_record_offset c;
  rc_num : ras_num_recs c' = ras_num_recs c;
  rc_fri : ras_fri c' = ras_fri c;
  rc_max : ras_max_record_count c' = ras_max_record_count c;
  rc_valid : is_eeprom_valid c' = is_eeprom_valid c
}.

Lemma retouched_refl c : retouched c c.
Proof. constructor; auto. Qed.

Lemma retouched_layout c c' : retouched c c' -> v1_layout c -> v1_layout c'.
Proof.
  intros [] [(A1 & A2 & A3) R M]. constructor; [|congruence|congruence].
  unfold addr_ok. split_and!; congruence.
Qed.

Lemma u8_uint32 x : uint 32 (u8 x).
Proof. pose proof (wrap_range 8 x). unfold uint. lia. Qed.

Section Upgrade.
Context {dev : Type} {D : EepromDev dev} {Sp : EepromDevSpec dev} (e : ras_env).
Implicit Types (s : ras_state dev) (c : eeprom_control).
Hypothesis Hsup : __is_ras_eeprom_supported e = true.
Hypothesis Hthr : thr_ok e.
Hypothesis Hnew : table_version e = RAS_TABLE_VER_V3.
Hypothesis Humc : (IP_VERSION_MAJ (umc_version e) <? 12) = false.

(** Header and health block of a version 3 table take its first 276 bytes. *)
Lemma wp_write_checked_v3 c cs s Q :
  let c' := set_tbl_hdr (set_checksum (u8 (- cs)) (tbl_hdr c)) c in
  addr_ok c -> version (tbl_hdr c) = RAS_TABLE_VER_V3 -> ctl s = c ->
  (forall res d,
    frame (mem s) (dev_cell d) (i2c_address c) 276 ->
    (res = 0 -> bytes_at (dev_cell d) (i2c_address c) 20 = header_bytes (tbl_hdr c')) ->
    (dev_rel -> kalloc_write_info e = true -> res = 0) ->
    Q res (RasState c' (is_rma s) (update_channel_flag s) d)) ->
  wp (write_checked e cs) Q s.
Proof using Sp.
  intros c' Ha Hv Hc HQ. assert (addr_ok c') as Ha' by done.
  unfold write_checked. ras_steps. rewrite Hc. fold c'.
  apply (wp_write_table_header c'); [done|done|]. intros res d _ Hfr Hw Hrel. cbn [hw is_rma update_channel_flag] in *.
  change (i2c_address c') with (i2c_address c) in *. ras_steps. change (version (tbl_hdr c')) with (version (tbl_hdr c)).
  rewrite Hv. destruct (Z.eqb_spec res 0) as [->|Hne]; cbn [andb].
  2:{ wp_step. apply HQ; [by eapply frame_mono; [exact Hfr|lia..]|done|]. intros R. by specialize (Hrel R). }
  change (RAS_TABLE_VER_V1 <? RAS_TABLE_VER_V3) with true. cbv iota.
  apply (wp_write_table_ras_info e c'); [done|done|]. intros res d2 Hfr2 _ Hrel2. cbn [hw is_rma update_channel_flag] in *.
  change (i2c_address c') with (i2c_address c) in *. apply HQ; [| |done].
  - eapply frame_trans; (eapply frame_mono; [eassumption|lia..]).
  - intros _. rewrite <- (Hw eq_refl). eapply bytes_at_frame; [exact Hfr2|]. lia.
Qed.

(** ** The reset *)
Lemma wp_reset_v1 c s Q :
  v1_layout c -> ctl s = c ->
  (forall res s',
    is_eeprom_valid (ctl s') = is_eeprom_valid c -> ras_num_bad_pages (ctl s') = 0 ->
    i2c_address (ctl s') = i2c_address c ->
    (res = 0 -> misplaced (mem s) (ctl s') (mem s') /\ ras_num_recs (ctl s') = 0) ->
    (dev_rel -> kalloc_write_info e = true -> res = 0) -> Q res s') ->
  wp (amdgpu_ras_eeprom_reset_table e) Q s.
Proof using Sp Hnew.
  intros [Ha Hr Hm] Hc HQ. unfold amdgpu_ras_eeprom_reset_table, amdgpu_ras_set_eeprom_table_version. ras_steps.
  rewrite Hc, Hnew. cbn [tbl_hdr set_tbl_hdr version set_version set_header].
  change (RAS_TABLE_VER_V2_1 <=? RAS_TABLE_VER_V3) with true. cbv iota. ras_steps.
  set (c1 := set_tbl_rai _ _). apply (wp_write_checked_v3 c1); [done|done|done|].
  intros res d Hfr Hw Hrel. cbn [hw is_rma update_channel_flag] in *. ras_steps.
  generalize dependent (meta_sum c1 0). intros cs Hw.
  apply HQ; cbn [ctl hw]; [reflexivity|reflexivity|reflexivity| |exact Hrel]. intros E. split; [|reflexivity].
  constructor; try reflexivity; [by constructor|split; discriminate|by left| |exact (Hw E)|exact Hfr].
  apply u8_uint32.
Qed.

(** ** Saving one record *)

Lemma wp_update_tag_v3 c s Q :
  ctl s = c ->
  (forall c' rma, retouched c c' -> Q tt (RasState c' rma (update_channel_flag s) (hw s))) -> wp (update_tag e) Q s.
Proof using Sp.
  intros Hc HQ. unfold update_tag. ras_steps. rewrite Hc.
  assert (Q tt s) as Hid by (specialize (HQ c (is_rma s) (retouched_refl c)); subst c; by destruct s).
  destruct (_ && _); cbn [st_when]; [|by ras_steps]. destruct (_ && _); cbn [st_when]; [|by ras_steps].
  ras_steps. destruct (_ <=? _); cbn [st_when]; ras_steps; apply HQ; rewrite Hc; constructor; auto.
Qed.

Lemma wp_update_health_v3 c s Q :
  ctl s = c ->
  (forall c', retouched c c' -> tbl_hdr c' = tbl_hdr c -> Q tt (RasState c' (is_rma s) (update_channel_flag s) (hw s))) ->
  wp (update_health e) Q s.
Proof using Sp Hthr.
  intros Hc HQ. unfold update_health. ras_steps. rewrite Hc. destruct (_ && _) eqn:E; cbn [st_when].
  - apply andb_true_iff in E as [[E1%negb_true_iff _]%andb_true_iff _]. apply Z.eqb_neq in E1. specialize (Hthr E1).
    wp_step. apply wp_BUG_ON; [lia|]. ras_steps. rewrite Hc. apply HQ; [constructor; auto|done].
  - ras_steps. specialize (HQ c (retouched_refl c) eq_refl). subst c. by destruct s.
Qed.

(** The header that follows a write of records, whatever those are. *)
Lemma wp_update_header_v3 m0 c s Q :
  v1_layout c -> ras_fri c = 0 -> 0 <= ras_num_recs c <= 10 -> version (tbl_hdr c) = RAS_TABLE_VER_V3 ->
  header (tbl_hdr c) = RAS_TABLE_HDR_VAL \/ header (tbl_hdr c) = RAS_TABLE_HDR_BAD ->
  first_rec_offset (tbl_hdr c) = 276 -> frame m0 (mem s) (i2c_address c) 276 -> ctl s = c ->
  (forall res s',
    is_eeprom_valid (ctl s') = is_eeprom_valid c -> i2c_address (ctl s') = i2c_address c ->
    (res = 0 -> misplaced m0 (ctl s') (mem s') /\ ras_num_recs (ctl s') = ras_num_recs c) ->
    (dev_rel -> kalloc_update e = true -> kalloc_write_info e = true -> res = 0) -> Q res s') ->
  wp (amdgpu_ras_eeprom_update_header e) Q s.
Proof using Sp Hthr.
  intros Hl Hf Hn Hv Ht Hfirst Hm0 Hc HQ. unfold amdgpu_ras_eeprom_update_header. wp_step.
  apply (wp_update_tag_v3 c); [done|]. intros c1 rma Hc1. ras_steps.
  pose proof (retouched_layout _ _ Hc1 Hl) as Hl1. pose proof (addr_range _ (vl_addr _ Hl1)) as Ha1.
  assert (table_size c1 = 276 + 24 * ras_num_recs c) as Ets.
  { unfold table_size, RAS_TABLE_HEADER_SIZE, RAS_TABLE_V2_1_INFO_SIZE, RAS_TABLE_RECORD_SIZE.
    rewrite (rc_version _ _ Hc1), Hv, (rc_num _ _ Hc1). change (RAS_TABLE_VER_V2_1 <=? RAS_TABLE_VER_V3) with true. cbv iota.
    rewrite wrap_small; lia. }
  rewrite Ets. set (c2 := set_tbl_hdr _ _).
  destruct (kalloc_update e); cbn [negb].
  2:{ wp_step. apply HQ; cbn [ctl hw]; [apply Hc1|apply Hc1|done|done]. }
  rewrite (rc_num _ _ Hc1), (vl_rec _ Hl1). unfold RAS_TABLE_RECORD_SIZE, RAS_RECORD_START, RAS_HDR_START, RAS_TABLE_HEADER_SIZE.
  rewrite !wrap_small by lia. wp_step. set (n := ras_num_recs c * 24).
  assert (length (zeros n) = Z.to_nat n) as Hlz by apply length_replicate.
  apply wp_read; [lia| |lia|].
  { eapply in_part_sub; [apply (vl_addr _ Hl1)|..]; unfold RAS_TBL_SIZE_BYTES; lia. }
  intros r buf d Hcell _ Hr _ Hrel. cbv beta iota. cbn [ctl hw is_rma update_channel_flag] in *.
  destruct (Z.eqb_spec (io_result r n) 0) as [Eio|Eio]; cbn [negb].
  2:{ wp_step. apply HQ; cbn [ctl hw]; [apply Hc1|apply Hc1|done|].
      intros R. destruct Eio. apply io_result_0; [lia..|auto]. }
  wp_step. apply (wp_update_health_v3 c2); [done|]. intros c3 Hc3 Eh3. ras_steps.
  assert (v1_layout c3) as Hl3 by (eapply retouched_layout; [exact Hc3|]; destruct Hl1; by constructor).
  apply (wp_write_checked_v3 c3); [apply Hl3|by rewrite Eh3; cbn; rewrite (rc_version _ _ Hc1)|done|].
  intros res d2 Hfr Hw Hrel2. cbn [ctl hw is_rma update_channel_flag] in *.
  assert (i2c_address c3 = i2c_address c) as Ea by (rewrite (rc_addr _ _ Hc3); apply Hc1).
  assert (ras_num_recs c3 = ras_num_recs c) as En by (rewrite (rc_num _ _ Hc3); apply Hc1).
  apply HQ; cbn [ctl hw].
  - change (is_eeprom_valid c3 = is_eeprom_valid c). rewrite (rc_valid _ _ Hc3). apply Hc1.
  - exact Ea.
  - intros E. split; [|exact En]. specialize (Hw E). rewrite Ea in *.
    constructor; cbn [tbl_hdr set_tbl_hdr ras_fri ras_num_recs i2c_address header version first_rec_offset tbl_size checksum set_checksum];
      rewrite ?Eh3, ?En, ?Ea; cbn [tbl_hdr c2 set_tbl_hdr header version first_rec_offset tbl_size set_checksum set_tbl_size];
      rewrite ?(rc_version _ _ Hc1), ?(rc_first _ _ Hc1).
    + destruct Hl3. by constructor.
    + rewrite (rc_fri _ _ Hc3). cbn. by rewrite (rc_fri _ _ Hc1).
    + done.
    + done.
    + destruct (rc_tag _ _ Hc1) as [->| ->]; [done|by right].
    + done.
    + done.
    + apply u8_uint32.
    + cbn [tbl_hdr set_tbl_hdr] in Hw. rewrite Eh3 in Hw. exact Hw.
    + eapply frame_trans; [exact Hm0|]. intros x Hx. rewrite (Hfr x Hx). apply Hcell.
  - auto.
Qed.

Lemma wp_append_misplaced m0 c r s Q :
  misplaced m0 c (mem s) -> ras_num_recs c < 10 -> ctl s = c -> rec_typed r ->
  (forall res recs s',
    is_eeprom_valid (ctl s') = is_eeprom_valid c -> i2c_address (ctl s') = i2c_address c ->
    (res = 0 -> misplaced m0 (ctl s') (mem s') /\ ras_num_recs (ctl s') = ras_num_recs c + 1) ->
    (dev_rel -> kalloc_append e = true -> kalloc_update e = true -> kalloc_write_info e = true -> res = 0) ->
    Q (res, recs) s') ->
  wp (amdgpu_ras_eeprom_append e [r]) Q s.
Proof using Sp Hsup Hthr Humc.
  intros [Hl Hf Hn Hv Ht Hfirst Hsz Hck Hby Hm0] Hlt Hc Hr HQ. pose proof (vl_max _ Hl) as Hmax.
  assert (ras_max_record_count c < 2 ^ 32 - 16) as Hmax2 by (change RAS_MAX_RECORD_COUNT with 10921 in Hmax; lia).
  pose proof (addr_range _ (vl_addr _ Hl)) as Ha. pose proof (vl_rec _ Hl) as Hoff. change RAS_RECORD_START with 20 in Hoff.
  unfold amdgpu_ras_eeprom_append. ras_steps. rewrite Hsup, Hc. cbn [negb length]. change (Z.of_nat 1) with 1.
  rewrite (proj2 (Z.eqb_neq 1 0)), (proj2 (Z.ltb_ge _ _)) by lia. wp_step. cbn [map].
  set (t := set_retired_page _ r). assert (rec_typed t) as Ht' by (by apply tag_record_typed).
  unfold amdgpu_ras_eeprom_append_table. destruct (kalloc_append e) eqn:Ek; cbn [negb].
  2:{ do 2 wp_step. change (- ENOMEM =? 0) with false. cbv iota. do 2 wp_step.
      apply HQ; [by rewrite Hc|by rewrite Hc|done|done]. }
  wp_step. apply wp_encode_records; [by constructor|]. intros uf. rewrite Hc. set (c1 := set_bad_channel_bitmap _ c).
  cbn [map concat length]. rewrite app_nil_r. change (Z.of_nat 1) with 1.
  wp_step. unfold append_write. ras_steps.
  change (ras_max_record_count c1) with (ras_max_record_count c). change (ras_fri c1) with (ras_fri c).
  change (ras_num_recs c1) with (ras_num_recs c). rewrite Hf, Z.add_0_l.
  rewrite (wrap_small 32 (ras_num_recs c)) by lia. rewrite (wrap_small 32 (ras_num_recs c + 1 - 1)) by lia.
  rewrite (proj2 (Z.ltb_lt _ _)) by lia. wp_step. unfold __amdgpu_ras_eeprom_write, record_addr, RAS_TABLE_RECORD_SIZE. ras_steps.
  change (i2c_address c1) with (i2c_address c). change (ras_record_offset c1) with (ras_record_offset c). rewrite Hoff.
  rewrite (wrap_small 32 (20 + _)), (wrap_small 32 (i2c_address c + _)), wrap_small by lia.
  apply wp_write; [lia| |rewrite length_encode_record; lia|by apply encode_record_bytes|].
  { eapply in_part_sub; [apply (vl_addr _ Hl)|..]; unfold RAS_TBL_SIZE_BYTES; lia. }
  intros w d Hfr Hw _ Hrel. ras_steps. unfold append_account. ras_steps.
  change (ras_max_record_count c1) with (ras_max_record_count c). change (ras_fri c1) with (ras_fri c). rewrite Hf.
  apply wp_umod; [lia|]. rewrite (wrap_small 32 (_ + _ - 0)) by lia.
  rewrite <- (Z.mod_unique (ras_max_record_count c + (ras_num_recs c + 1 - 1) - 0) (ras_max_record_count c) 1 (ras_num_recs c)) by lia.
  rewrite Humc. ras_steps. set (c2 := set_ras_num_bad_pages _ _).
  destruct (Z.eqb_spec (io_result w (1 * 24)) 0) as [Eio|Eio].
  2:{ do 2 wp_step. apply HQ; cbn [ctl hw]; [done|done|done|].
      intros R. destruct Eio. apply io_result_0; [lia..|auto]. }
  assert (ras_num_recs c2 = ras_num_recs c + 1) as En2.
  { change (ras_num_recs c2) with (u32 (1 + ras_num_recs c)). rewrite wrap_small; lia. }
  apply (wp_update_header_v3 m0 c2); [|exact Hf|rewrite En2; lia|exact Hv|exact Ht|exact Hfirst| |done|].
  - destruct Hl. by constructor.
  - change (i2c_address c2) with (i2c_address c). eapply frame_trans; [exact Hm0|].
    eapply frame_mono; [exact Hfr|lia..].
  - intros res s2 H1 H2 H3 H4. wp_step. apply HQ; [exact H1|exact H2| |auto]. intros E.
    destruct (H3 E) as [? ->]. split; [done|exact En2].
Qed.

(** ** Saving the pages again *)

Lemma wp_save_units_misplaced m0 k bps c s Q :
  misplaced m0 c (mem s) -> ctl s = c -> ras_num_recs c + Z.of_nat k <= 10 -> 1 <= retire_unit e ->
  Forall rec_typed bps -> Z.of_nat k * retire_unit e <= Z.of_nat (length bps) ->
  (forall res s',
    i2c_address (ctl s') = i2c_address c ->
    (res = 0 -> misplaced m0 (ctl s') (mem s') /\ ras_num_recs (ctl s') = ras_num_recs c + Z.of_nat k) ->
    (dev_rel -> kalloc_append e = true -> kalloc_update e = true -> kalloc_write_info e = true -> res = 0) -> Q res s') ->
  wp (save_units e k bps) Q s.
Proof using Sp Hsup Hthr Humc.
  revert bps c s Q. induction k as [|k IH]; intros bps c s Q Hm Hc Hk Hu Hty Hlen HQ; cbn [save_units].
  { wp_step. apply HQ; [by rewrite Hc| |done]. intros _. rewrite Hc. split; [done|lia]. }
  destruct bps as [|r bps]; [simpl in Hlen; lia|]. wp_step. cbn [take].
  apply (wp_append_misplaced m0 c); [done|lia|done|by apply Forall_inv in Hty|].
  intros res recs s1 _ Ea Hok Hrel. cbn [fst]. destruct (Z.eqb_spec res 0) as [->|Hne]; cbn [negb].
  2:{ wp_step. apply HQ; [done|done|]. intros R K1 K2 K3. by destruct Hne; apply Hrel. }
  destruct (Hok eq_refl) as [Hm1 En]. apply (IH _ (ctl s1)); [done|done|lia|done|by apply Forall_drop| |].
  - rewrite length_drop. lia.
  - intros res s2 Ea2 Hok2 Hrel2. apply HQ; [congruence| |done]. intros E. destruct (Hok2 E) as [? ->]. split; [done|lia].
Qed.

(** ** The next boot *)

Lemma wp_init_misplaced m0 c s Q :
  i2c_bus_ready e = true -> __get_eeprom_i2c_addr e = Some (i2c_address c) -> misplaced m0 c (mem s) ->
  (forall res s',
    (forall y, mem s' y = mem s y) ->
    (res = 0 -> geom (ctl s') /\ i2c_address (ctl s') = i2c_address c /\ ras_record_offset (ctl s') = 276 /\
       ras_fri (ctl s') = 0 /\ ras_num_recs (ctl s') = ras_num_recs c) ->
    (dev_rel -> res = 0) -> Q res s') ->
  wp (amdgpu_ras_eeprom_init e) Q s.
Proof using Sp Hsup.
  intros Hbus Haddr [Hl Hf Hn Hv Ht Hfirst Hsz Hck Hby Hm0] HQ. pose proof (addr_range _ (vl_addr _ Hl)) as Ha.
  unfold amdgpu_ras_eeprom_init. wp_step. ras_step. rewrite Hsup, Hbus, Haddr. cbn [negb]. ras_steps.
  cbn [i2c_address ras_header_offset set_ras_info_offset set_ras_header_offset set_i2c_address].
  unfold RAS_HDR_START, RAS_TABLE_HEADER_SIZE. rewrite Z.add_0_r, wrap_small by lia.
  apply wp_read; [lia| |by unfold zeros|].
  { eapply in_part_sub; [apply (vl_addr _ Hl)|..]; unfold RAS_TBL_SIZE_BYTES; lia. }
  intros r buf d Hcell _ Hr Hw Hrel. cbv beta iota. cbn [hw ctl is_rma update_channel_flag] in *.
  destruct (Z.ltb_spec r 20).
  { wp_step. apply HQ; cbn [hw ctl]; [done| |].
    - destruct (Z.leb_spec 0 r); unfold EIO; lia.
    - intros R. specialize (Hrel R). lia. }
  assert (buf = header_bytes (tbl_hdr c)) as ->.
  { rewrite Hw by lia. change (drop (Z.to_nat 20) (zeros 20)) with (@nil Z). by rewrite app_nil_r. }
  assert (hdr_typed (tbl_hdr c)) as Hty.
  { constructor; [destruct Ht as [->| ->]; done|by rewrite Hv|by rewrite Hfirst|rewrite Hsz; unfold uint; lia|done]. }
  rewrite <- encode_header_bytes, decode_encode_header by done. wp_step. ras_step.
  assert (negb (header (tbl_hdr c) =? RAS_TABLE_HDR_VAL) && negb (header (tbl_hdr c) =? RAS_TABLE_HDR_BAD) = false) as ->
    by (destruct Ht as [->| ->]; done).
  rewrite Hv, Hsz, Hfirst.
  change ((RAS_TABLE_VER_V3 =? RAS_TABLE_VER_V2_1) || (RAS_TABLE_VER_V3 =? RAS_TABLE_VER_V3) ||
          (RAS_TABLE_VER_V3 =? RAS_TABLE_VER_V1)) with true.
  change (RAS_TABLE_VER_V3 =? RAS_TABLE_VER_V1) with false. cbv iota. ras_steps.
  unfold RAS_TABLE_HEADER_SIZE, RAS_TABLE_V2_1_INFO_SIZE, RAS_TABLE_RECORD_SIZE.
  cbn [ras_max_record_count ras_num_recs set_ras_max_record_count set_ras_record_offset set_ras_num_recs].
  replace (276 + 24 * ras_num_recs c - 20 - 256) with (ras_num_recs c * 24) by lia.
  rewrite wrap_small, Z.div_mul by lia.
  change RAS_MAX_RECORD_COUNT_V2_1 with 10911. rewrite (proj2 (Z.ltb_ge 10911 _)) by lia. ras_steps.
  apply HQ; cbn [hw ctl]; [done| |done]. intros _. split_and!; try done.
  constructor; cbn; try done; [apply (vl_addr _ Hl)|by rewrite Hv|lia|by left].
Qed.
End Upgrade.
