(* ===== verification/RasEepromProps.v ===== *)
(** * EEPROM and RAS table: properties

    The theorems of the transfer code and of the bad page table, with a concrete chip
    on which their hypotheses hold. *)

From stdpp Require Import list strings sets.
From Stdlib Require Import ZArith Lia.
From S2P Require Import Prelude Bytes Eeprom RasEeprom RasEepromInv RasEepromOps RasEepromHdr RasEepromTop RasEepromApi RasUpgrade.
Open Scope st_scope.

#[local] Arguments bytes_at : simpl never.

(** ** A concrete chip

    The memory of the two parts, with the page roll-over of the data sheet. *)
Module Chip.

Definition chip : Type := Z -> Z.

(** A write of at most a page: the address counter wraps inside the page. *)
Definition page_write (m : chip) (a : Z) (data : list Z) : chip := fun x =>
  let off := (x - a) mod 256 in
  if (x / 256 =? a / 256) && (off <? Z.of_nat (length data)) then nth (Z.to_nat off) data 0 else m x.

Definition chip_cell (m : chip) (a : Z) : Z := m a mod 256.

Definition chip_transfer (msgs : list i2c_msg) (m : chip) : (Z * list Z) * chip :=
  match msgs with
  | [I2cMsg dev false _ [b1; b0]; I2cMsg _ rd n data] =>
      let a := (dev - 80) * 65536 + b1 * 256 + b0 in
      if rd then ((2, bytes_at (chip_cell m) a (Z.to_nat n)), m)
      else ((2, []), page_write m a data)
  | _ => ((- EIO, []), m)
  end.

#[export] Instance chip_bus : I2cBus chip := chip_transfer.

Lemma page_write_linear m a data :
  0 <= a -> a mod 256 + Z.of_nat (length data) <= 256 -> Forall is_byte data ->
  frame (chip_cell m) (chip_cell (page_write m a data)) a (Z.of_nat (length data)) /\
  bytes_at (chip_cell (page_write m a data)) a (length data) = data.
Proof.
  intros Ha Hp Hb. pose proof (Z.div_mod a 256 ltac:(lia)) as Ea. pose proof (Z.mod_pos_bound a 256 ltac:(lia)) as Hm.
  split.
  - intros x Hx. unfold chip_cell, page_write. cbv zeta.
    destruct (Z.eqb_spec (x / 256) (a / 256)) as [E|E]; cbn [andb]; [|done].
    pose proof (Z.div_mod x 256 ltac:(lia)). pose proof (Z.mod_pos_bound x 256 ltac:(lia)).
    destruct (Z.le_gt_cases a x).
    + rewrite (Z.mod_small (x - a)) by lia. destruct (Z.ltb_spec (x - a) (Z.of_nat (length data))); [lia|done].
    + rewrite <- (Z.mod_unique (x - a) 256 (-1) (x - a + 256)) by lia.
      destruct (Z.ltb_spec (x - a + 256) (Z.of_nat (length data))); [lia|done].
  - apply list_eq. intros i. destruct (decide (i < length data)%nat) as [Hi|Hi].
    + replace i with (Z.to_nat (a + Z.of_nat i - a)) at 1 by lia. rewrite bytes_at_lookup by lia.
      unfold chip_cell, page_write. cbv zeta.
      replace (a + Z.of_nat i - a) with (Z.of_nat i) by lia. rewrite (Z.mod_small (Z.of_nat i)) by lia.
      replace ((a + Z.of_nat i) / 256) with (a / 256) by (apply Z.div_unique with (a mod 256 + Z.of_nat i); lia).
      rewrite Z.eqb_refl, (proj2 (Z.ltb_lt _ _)) by lia. cbn [andb]. rewrite Nat2Z.id.
      destruct (lookup_lt_is_Some_2 data i Hi) as [b Eb]. rewrite Eb, (nth_lookup_Some data i 0 b Eb). f_equal.
      apply Z.mod_small. rewrite Forall_lookup in Hb. by apply (Hb i).
    + rewrite !lookup_ge_None_2; [done|lia|rewrite length_bytes_at; lia].
Qed.

#[export] Program Instance chip_at24 : At24 chip := {|
  cell := chip_cell;
  at24_rel := True
|}.
Next Obligation. intros s a. apply Z.mod_pos_bound. lia. Qed.
Next Obligation.
  intros s hi b1 b0 data Hhi H1 H0 Hd Hn Hp a. unfold i2c_transfer, chip_bus, chip_transfer.
  replace (80 + hi - 80) with hi by lia. fold a. unfold is_byte in *.
  assert (a mod 256 = b0) as Ea by (subst a; symmetry; apply Z.mod_unique with (hi * 256 + b1); lia).
  destruct (page_write_linear s a data) as [Hf Hw]; [subst a; lia|rewrite Ea; lia|done|].
  split_and!; [lia|done|done|done].
Qed.
Next Obligation.
  intros s hi b1 b0 n Hhi H1 H0 Hn a Hp. unfold i2c_transfer, chip_bus, chip_transfer.
  replace (80 + hi - 80) with hi by lia. fold a. split_and!; [lia|done|apply length_bytes_at|done|done].
Qed.

Lemma no_quirks : quirks_ok None.
Proof. done. Qed.

(** The table's device: the transfer code on this chip, the adapter without limits. *)
#[export] Instance chip_dev : EepromDev chip := eeprom_dev None.
#[export] Instance chip_dev_spec : EepromDevSpec chip := eeprom_dev_spec None no_quirks.

Lemma chip_rel : dev_rel (dev := chip).
Proof. split_and!; [done|set_solver..]. Qed.
End Chip.
Import Chip.

(** ** The log *)

Lemma last_n_app {A} n (l b : list A) : last_n n (last_n n l ++ b) = last_n n (l ++ b).
Proof.
  unfold last_n. set (k := (length l - n)%nat).
  replace (l ++ b) with (take k l ++ (drop k l ++ b)) by (by rewrite app_assoc, take_drop).
  rewrite (drop_app_ge (take k l)) by (rewrite length_take, !length_app, length_take, length_drop; lia).
  f_equal. rewrite !length_app, length_take, length_drop. lia.
Qed.

Lemma log_append_app {A} n (log a b : list A) : log_append n (log_append n log a) b = log_append n log (a ++ b).
Proof. unfold log_append. by rewrite last_n_app, app_assoc. Qed.

Lemma log_append_nil {A} n (log : list A) : (length log <= n)%nat -> log_append n log [] = log.
Proof. intros. unfold log_append, last_n. rewrite app_nil_r. by replace (length log - n)%nat with 0%nat by lia. Qed.

Lemma map_last_n {A B} (f : A -> B) n l : map f (last_n n l) = last_n n (map f l).
Proof. unfold last_n. rewrite length_map. symmetry. apply skipn_map. Qed.

Lemma wp_elim {S A} (m : stM S A) Q s a s' : wp m Q s -> m s = Some (a, s') -> Q a s'.
Proof. unfold wp. intros H E. by rewrite E in H. Qed.

Lemma stored_ext c bm m m' : stored c m -> (forall y, m' y = m y) -> stored (set_bad_channel_bitmap bm c) m'.
Proof.
  intros [K1 K2 K3 K4 K5] Hy. constructor; [|done|done| |].
  - destruct K1 as [[] ? ? ? ? ? ?]. by constructor.
  - etransitivity; [|exact K4]. apply bytes_at_ext. auto.
  - etransitivity; [|exact K5]. f_equal. apply bytes_at_ext. auto.
Qed.

Section Traces.
Context {dev : Type} {D : EepromDev dev} {Sp : EepromDevSpec dev} (e : ras_env).
Implicit Types (s : ras_state dev) (c : eeprom_control).
Hypothesis Hsup : __is_ras_eeprom_supported e = true.
Hypothesis Hthr : thr_ok e.

(** Appends one after the other, up to the first that fails. *)
Fixpoint append_all (batches : list (list eeprom_table_record)) : stM (ras_state dev) Z :=
  match batches with
  | [] => st_ret 0
  | b :: bs => x <- amdgpu_ras_eeprom_append e b ;; if fst x =? 0 then append_all bs else st_ret (fst x)
  end.

Definition batch_ok (max : Z) (b : list eeprom_table_record) : Prop :=
  Forall rec_typed b /\ 1 <= Z.of_nat (length b) <= max.

Definition allocs_ok : Prop :=
  kalloc_append e = true /\ kalloc_update e = true /\ kalloc_write_info e = true /\ kalloc_read e = true.

Lemma wp_append_all bs c s :
  meta_ok c -> ctl s = c -> Forall (batch_ok (ras_max_record_count c)) bs ->
  wp (append_all bs) (fun res s' =>
    (res = 0 -> meta_ok (ctl s') /\ ras_max_record_count (ctl s') = ras_max_record_count c /\
       (bs <> [] -> 0 < ras_num_recs (ctl s')) /\
       contents (ctl s') (mem s') = log_append (Z.to_nat (ras_max_record_count c)) (contents c (mem s))
         (map (fun r => __encode_table_record_to_buf (tag_record e r)) (concat bs))) /\
    (dev_rel -> allocs_ok -> res = 0)) s.
Proof using Hsup Hthr.
  revert c s. induction bs as [|b bs IH]; intros c s Hm Hc Hbs; cbn [append_all].
  - wp_step. split; [intros _|done]. rewrite Hc. split_and!; [done|done|done|].
    cbn [concat map]. rewrite log_append_nil; [done|]. pose proof (length_contents c (mem s)). destruct (mo_geom c Hm). lia.
  - apply Forall_cons in Hbs as [[Hty Hlen] Hbs]. wp_step. apply (wp_ras_append e c); [done..|].
    intros res s1 Hm1 Hok Hrel. cbn [fst]. destruct (Z.eqb_spec res 0) as [->|Hne].
    2:{ wp_step. split; [done|]. intros R (K1 & K2 & K3 & _). by apply Hrel. }
    destruct (Hok eq_refl) as [_ Elog Enum _ _ Emax _]. rewrite <- Emax in Hbs.
    eapply wp_mono; [by apply (IH (ctl s1))|]. intros res2 s2 [Hpost Hrel2]. split; [|done].
    intros E. destruct (Hpost E) as (P1 & P2 & P3 & P4). rewrite Emax in P2, P4.
    split_and!; [done|done| |].
    + intros _. destruct bs as [|b' bs']; [|by apply P3].
      assert (length (contents (ctl s2) (mem s2)) = length (contents (ctl s1) (mem s1))) as El.
      { rewrite P4. cbn [concat map]. rewrite log_append_nil; [done|].
        pose proof (length_contents (ctl s1) (mem s1)). destruct (mo_geom _ Hm1). lia. }
      pose proof (length_contents (ctl s1) (mem s1)). pose proof (length_contents (ctl s2) (mem s2)).
      destruct (mo_geom _ Hm1), (mo_geom _ P1), (mo_geom _ Hm). lia.
    + rewrite P4, Elog, log_append_app. by rewrite <- map_app.
Qed.

(** ** Reachable tables *)

(** Initialisation and the check look for the table where it is. *)
Definition table_found c : Prop := i2c_bus_ready e = true /\ __get_eeprom_i2c_addr e = Some (i2c_address c).

Inductive ras_reach : ras_state dev -> Prop :=
| reach_reset s s' :
    geom (ctl s) -> reset_layout e (ctl s) -> rai_typed (tbl_rai (ctl s)) ->
    padding (tbl_rai (ctl s)) = replicate 63 0 ->
    amdgpu_ras_eeprom_reset_table e s = Some (0, s') -> ras_reach s'
| reach_append s s' recs recs' :
    ras_reach s -> Forall rec_typed recs ->
    amdgpu_ras_eeprom_append e recs s = Some ((0, recs'), s') -> ras_reach s'
| reach_read s s' num x :
    ras_reach s -> 0 <= num -> amdgpu_ras_eeprom_read e num s = Some (x, s') -> ras_reach s'
| reach_tag s s' tag :
    ras_reach s -> tag = RAS_TABLE_HDR_VAL \/ tag = RAS_TABLE_HDR_BAD ->
    amdgpu_ras_eeprom_correct_header_tag tag s = Some (0, s') -> ras_reach s'
| reach_verify s s' r :
    ras_reach s -> __verify_ras_table_checksum e s = Some (r, s') -> ras_reach s'
| reach_check s s' :
    ras_reach s -> table_found (ctl s) -> amdgpu_bad_page_threshold e <> 0 ->
    amdgpu_ras_eeprom_check e s = Some (0, s') -> ras_reach s'
| reach_reload s s1 s' :
    ras_reach s -> table_found (ctl s) -> amdgpu_bad_page_threshold e <> 0 ->
    ras_max_record_count (ctl s) = capacity (ctl s) ->
    amdgpu_ras_eeprom_init e s = Some (0, s1) -> amdgpu_ras_eeprom_check e s1 = Some (0, s') -> ras_reach s'
| reach_save s s' bps :
    ras_reach s -> Forall rec_typed bps ->
    amdgpu_ras_save_bad_pages e (Some bps) s = Some (0, s') -> ras_reach s'.

Lemma append_in_range recs s recs' s' :
  amdgpu_ras_eeprom_append e recs s = Some ((0, recs'), s') ->
  1 <= Z.of_nat (length recs) <= ras_max_record_count (ctl s).
Proof using Hsup.
  unfold amdgpu_ras_eeprom_append, get_ctl, st_gets, st_bind at 1. rewrite Hsup. cbn [negb].
  destruct (Z.eqb_spec (Z.of_nat (length recs)) 0); [done|].
  destruct (Z.ltb_spec (ras_max_record_count (ctl s)) (Z.of_nat (length recs))); [done|]. lia.
Qed.

Lemma read_stored s num x s' :
  stored (ctl s) (mem s) -> 0 <= num -> amdgpu_ras_eeprom_read e num s = Some (x, s') -> stored (ctl s') (mem s').
Proof using Hsup.
  intros Hst Hnum E. destruct (decide (1 <= num <= ras_num_recs (ctl s))) as [Hr|Hr].
  - pose proof (wp_ras_read e (ctl s) num (fun _ s' => stored (ctl s') (mem s')) s Hsup (mo_geom _ (so_meta _ _ Hst))
      eq_refl Hr) as Hwp.
    eapply (wp_elim _ _ _ _ _ (Hwp ltac:(clear -Hst; intros res recs s1 [bm ->] Hy _ _ _ _; by eapply stored_ext)) E).
  - unfold amdgpu_ras_eeprom_read, get_ctl, st_gets, st_bind at 1 in E. rewrite Hsup in E. cbn [negb] in E.
    destruct (Z.eqb_spec num 0); [by injection E as <- <-|].
    rewrite (proj2 (Z.ltb_lt _ _)) in E by lia. by injection E as <- <-.
Qed.

Lemma append_stored recs s recs' s' :
  stored (ctl s) (mem s) -> Forall rec_typed recs ->
  amdgpu_ras_eeprom_append e recs s = Some ((0, recs'), s') -> stored (ctl s') (mem s').
Proof using Hsup Hthr.
  intros Hst Hty E. pose proof (append_in_range _ _ _ _ E) as Hlen.
  refine (wp_elim _ (fun x s' => fst x = 0 -> stored (ctl s') (mem s')) _ _ _ _ E eq_refl).
  apply (wp_ras_append e (ctl s)); [done|done|apply Hst|done|done|done|]. intros res s1 _ Hok _ Er. by apply Hok.
Qed.

Lemma save_units_stored k bps s s' :
  stored (ctl s) (mem s) -> Forall rec_typed bps -> save_units e k bps s = Some (0, s') -> stored (ctl s') (mem s').
Proof using Hsup Hthr.
  revert bps s. induction k as [|k IH]; intros bps s Hst Hty; cbn [save_units]; [by intros [= <-]|].
  unfold st_bind. destruct (amdgpu_ras_eeprom_append e (take 1 bps) s) as [[[res recs] s1]|] eqn:Ea; [|done]. cbn [fst].
  destruct (Z.eqb_spec res 0) as [->|]; cbn [negb]; [|done]. apply IH; [|by apply Forall_drop].
  eapply append_stored; [done| |done]. by apply Forall_take.
Qed.

Lemma save_stored bps s s' :
  stored (ctl s) (mem s) -> Forall rec_typed bps ->
  amdgpu_ras_save_bad_pages e (Some bps) s = Some (0, s') -> stored (ctl s') (mem s').
Proof using Hsup Hthr.
  intros Hst Hty. unfold amdgpu_ras_save_bad_pages, get_ctl, st_gets. unfold st_bind at 1.
  destruct (negb _); [by intros [= <-]|]. unfold st_bind at 1, BUG_ON. destruct (retire_unit e =? 0); [done|].
  cbv beta iota zeta. unfold st_ret at 1. destruct (0 <? _); [|by intros [= <-]].
  assert (forall k, Forall rec_typed (drop k bps)) as Hd by (intros; by apply Forall_drop).
  destruct (_ <? 12); [|by apply save_units_stored]. unfold st_bind.
  destruct (amdgpu_ras_eeprom_append e _ s) as [[[res recs] s1]|] eqn:Ea; [|done]. cbn [fst].
  destruct (Z.eqb_spec res 0) as [->|]; [|done]. intros [= <-]. eapply append_stored; [done| |done]. by apply Forall_take.
Qed.

Lemma stored_mem c m m' : stored c m -> (forall y, m' y = m y) -> stored c m'.
Proof.
  intros [K1 K2 K3 K4 K5] Hy. constructor; try done.
  - rewrite <- K4. apply bytes_at_ext. auto.
  - rewrite <- K5. f_equal. apply bytes_at_ext. auto.
Qed.

Lemma check_stored c s s' :
  stored c (mem s) -> loaded c (ctl s) -> table_found c -> amdgpu_bad_page_threshold e <> 0 ->
  amdgpu_ras_eeprom_check e s = Some (0, s') -> stored (ctl s') (mem s').
Proof using Hsup.
  intros Hst Hl [Hb Ha] Ht E. refine (wp_elim _ (fun res s' => res = 0 -> stored (ctl s') (mem s')) _ _ _ _ E eq_refl).
  apply (wp_check e c); [done..|]. intros res s1 Hok _ Er. by apply Hok.
Qed.

Lemma reload_stored s s1 s' :
  stored (ctl s) (mem s) -> table_found (ctl s) -> amdgpu_bad_page_threshold e <> 0 ->
  ras_max_record_count (ctl s) = capacity (ctl s) ->
  amdgpu_ras_eeprom_init e s = Some (0, s1) -> amdgpu_ras_eeprom_check e s1 = Some (0, s') -> stored (ctl s') (mem s').
Proof using Hsup.
  intros Hst Hf Ht Hcap Ei Ec.
  assert (stored (ctl s) (mem s1) /\ loaded (ctl s) (ctl s1)) as [Hst1 Hl].
  { refine (wp_elim _ (fun res s' => res = 0 -> stored (ctl s) (mem s') /\ loaded (ctl s) (ctl s')) _ _ _ _ Ei eq_refl).
    apply (wp_init e (ctl s)); [done|apply Hf|apply Hf|done|done|]. intros res s2 Hy _ Hok Hrai _ Er.
    split; [by eapply stored_mem|]. pose proof (so_meta _ _ Hst) as Hm.
    apply reloaded_loaded; [apply Hm|by apply Hok|rewrite Hrai; apply Hm..]. }
  by eapply check_stored.
Qed.

Lemma stored_loaded c m : stored c m -> loaded c c.
Proof. intros [[] _ _ _ _]. by constructor. Qed.

Lemma reach_stored s : ras_reach s -> stored (ctl s) (mem s).
Proof using Hsup Hthr.
  induction 1 as [s s' Hg Hl Hr Hp E|s s' recs recs' _ IH Hty E|s s' num x _ IH Hn E|s s' tag _ IH Ht E|s s' r _ IH E
    |s s' _ IH Hf Ht E|s s1 s' _ IH Hf Ht Hcap E1 E2|s s' bps _ IH Hty E].
  - refine (wp_elim _ (fun res s' => res = 0 -> stored (ctl s') (mem s')) _ _ _ _ E eq_refl).
    by apply (wp_reset e (ctl s)).
  - by eapply append_stored.
  - by eapply read_stored.
  - refine (wp_elim _ (fun res s' => res = 0 -> stored (ctl s') (mem s')) _ _ _ _ E eq_refl).
    by apply (wp_correct_tag (ctl s)).
  - refine (wp_elim _ (fun _ s' => stored (ctl s') (mem s')) _ _ _ _ E).
    apply (wp_verify e (ctl s)); [apply IH|done|]. intros res d Hy _ _. cbn [ctl hw].
    by eapply stored_mem.
  - eapply check_stored; [done|by eapply stored_loaded|done..].
  - by eapply reload_stored.
  - by eapply save_stored.
Qed.
End Traces.

(** ** An example device *)
Module Ex.

Definition env : ras_env := {|
  mp1_version := IP_VERSION 13 0 2; is_app_apu := false; i2c_bus_ready := true; rom_addr := None;
  is_vega20 := false; vbios_pn_has := fun _ => false; umc_version := IP_VERSION 8 10 0; retire_unit := 1;
  query_mem_partition_mode := Some 4; amdgpu_bad_page_threshold := 5; bad_page_cnt_threshold := 5;
  umc_ras_enabled := true; kalloc_write_info := true; kalloc_read_info := true; kalloc_append := true;
  kalloc_update := true; kalloc_read := true; kalloc_verify := true
|}.

(** A control structure as it is after the table was loaded, before a reset. *)
Definition control : eeprom_control :=
  Control (TableHeader 0 RAS_TABLE_VER_V2_1 0 0 0) (TableRasInfo 0 0 0 (replicate 63 0))
    0 0 20 276 0 0 0 0 0 RAS_MAX_RECORD_COUNT_V2_1 0 true.

Definition blank : ras_state chip := RasState control false false (fun _ => 255).
Definition fresh : ras_state chip :=
  match amdgpu_ras_eeprom_reset_table env blank with Some (_, s) => s | None => blank end.

Definition rec (page : Z) : eeprom_table_record := TableRecord (page * 4096) page 1700000000 1 2 3 4.

Lemma control_ok :
  geom control /\ reset_layout env control /\ rai_typed (tbl_rai control) /\
  padding (tbl_rai control) = replicate 63 0.
Proof.
  split_and!; [|done| |done].
  - by constructor; try done; left.
  - constructor; try done. split; [done|]. apply Forall_replicate. by split.
Qed.

Lemma fresh_ok :
  amdgpu_ras_eeprom_reset_table env blank = Some (0, fresh) /\
  stored (ctl fresh) (mem fresh) /\ ras_num_recs (ctl fresh) = 0 /\ ras_max_record_count (ctl fresh) = 10911 /\
  i2c_address (ctl fresh) = 0.
Proof.
  destruct control_ok as (H1 & H2 & H3 & H4).
  assert (wp (amdgpu_ras_eeprom_reset_table env) (fun res s => res = 0 /\ stored (ctl s) (mem s) /\
    ras_num_recs (ctl s) = 0 /\ ras_max_record_count (ctl s) = 10911 /\ i2c_address (ctl s) = 0) blank) as H.
  { apply (wp_reset env control); [done..|]. intros res s Hm Hn Hf Hx _ _ _ Ha Hst Hrel.
    assert (res = 0) as E by (apply Hrel; [apply chip_rel|done]). by split_and!; [|apply Hst|..]. }
  unfold fresh. apply wp_run in H as (r & s & E & -> & H). by rewrite E.
Qed.

Lemma rec_ok page : 0 <= page < 2 ^ 40 -> rec_typed (rec page).
Proof. intros. constructor; unfold uint; cbn; lia. Qed.

Lemma env_ok : __is_ras_eeprom_supported env = true /\ thr_ok env /\ allocs_ok env.
Proof. split_and!; [done|done|by split_and!]. Qed.
End Ex.

(** ** The transfer code *)

(** On every chip that behaves like its data sheet and through every adapter limit, a
    write followed by a read of the same bytes terminates, changes nothing outside the
    range, never reports more bytes than asked for, and when both report all bytes the
    read returns what was written, although the write is cut at every page and limit.
    When no transaction fails and the adapter's limits allow any data, both report all. *)
Theorem eeprom_write_read {bus} {B : I2cBus bus} {C : At24 bus} quirks s a data :
  let n := Z.of_nat (length data) in
  quirks_ok quirks -> Forall is_byte data -> in_part a n ->
  wp (w <- amdgpu_eeprom_write quirks a data n ;;
      x <- amdgpu_eeprom_read quirks a (zeros n) n ;;
      st_ret (w, x))
    (fun y s' =>
      let '(w, (r, buf)) := y in
      frame (cell s) (cell s') a n /\ w <= n /\ r <= n /\ (w = n -> r = n -> buf = data) /\
      (at24_rel -> quirk_limit quirks true ∉ [1; 2] -> quirk_limit quirks false ∉ [1; 2] -> w = n /\ r = n)) s.
Proof.
  intros n Hq Hd Hp. assert (Z.of_nat (length (zeros n)) = n) as Hz by (unfold zeros; rewrite length_replicate; lia).
  wp_step. eapply wp_mono; [apply (wp_eeprom_write quirks Hq); [lia|done|lia|done]|].
  intros w s1 (Hfr & Hw & Hwr & Hrel). wp_step.
  eapply wp_mono; [apply (wp_eeprom_read quirks Hq); [lia|done|lia]|].
  intros [r buf] s2 (Hcell & Hl & Hr & Hrd & Hrel2). cbn [fst snd] in *. wp_step. split_and!; [|done|done| |].
  - intros x Hx. by rewrite Hcell, Hfr.
  - intros Ew Er. rewrite Hrd, Hwr by done. subst n. rewrite drop_ge, app_nil_r, take_ge by lia. done.
  - intros R L1 L2. split; [by apply Hrel|by apply Hrel2].
Qed.

Lemma eeprom_write_read_witness :
  let data := map Z.of_nat (seq 0 40) in
  wp (w <- amdgpu_eeprom_write (bus := Chip.chip) (Some (Quirks 18 18)) 246 data 40 ;;
      x <- amdgpu_eeprom_read (Some (Quirks 18 18)) 246 (zeros 40) 40 ;;
      st_ret (w, x)) (fun y _ => y = (40, (40, data))) (fun _ => 255).
Proof.
  intros data. eapply wp_mono.
  - apply (eeprom_write_read (bus := Chip.chip) (Some (Quirks 18 18)) (fun _ => 255) 246 data).
    + intros q [= <-]. by split.
    + repeat constructor; lia.
    + left. split; [lia|]. cbn. lia.
  - intros [w [r buf]] s' (_ & _ & _ & Hbuf & Hrel).
    destruct Hrel as [Ew Er]; [done|set_solver|set_solver|]. rewrite (Hbuf Ew Er), Ew, Er. done.
Defined.

(** ** Encodings *)

(** C32: the header, the health block and a record survive encoding and decoding. The health
    block is decoded into whatever block [old] was there before: its status, health and
    threshold are those that were encoded, only the padding stays. A record keeps 48 bits
    of its address and page and 8 bits of its error type, so one whose fields fit is kept
    whole. *)
Theorem table_encodings_roundtrip hdr old rai r :
  hdr_typed hdr -> rai_typed rai -> rec_typed r ->
  __decode_table_header_from_buf (__encode_table_header_to_buf hdr (zeros RAS_TABLE_HEADER_SIZE)) = hdr /\
  __decode_table_ras_info_from_buf old (__encode_table_ras_info_to_buf rai (zeros RAS_TABLE_V2_1_INFO_SIZE))
  = TableRasInfo (rma_status rai) (health_percent rai) (ecc_page_threshold rai) (padding old) /\
  __decode_table_record_from_buf (__encode_table_record_to_buf r) = record_norm r /\
  (offset r < 2 ^ 48 -> retired_page r < 2 ^ 48 -> err_type r < 2 ^ 8 ->
   __decode_table_record_from_buf (__encode_table_record_to_buf r) = r).
Proof.
  intros Hh Hi Hr.
  assert (__decode_table_record_from_buf (__encode_table_record_to_buf r) = record_norm r) as E
    by (rewrite <- (app_nil_r (__encode_table_record_to_buf r)); by apply decode_encode_record).
  split_and!; [by apply decode_encode_header|by apply decode_encode_ras_info|done|].
  intros H1 H2 H3. rewrite E. destruct Hr as [[] [] _ [] _ _ _], r as [o p t er b ch mc].
  unfold record_norm. cbn [offset retired_page ts err_type bank mem_channel mcumc_id] in *.
  by rewrite !Z.mod_small by lia.
Qed.

Lemma table_encodings_roundtrip_witness :
  __decode_table_ras_info_from_buf (TableRasInfo 9 9 9 [])
    (__encode_table_ras_info_to_buf (TableRasInfo 2 40 300 (replicate 63 0)) (zeros RAS_TABLE_V2_1_INFO_SIZE))
  = TableRasInfo 2 40 300 [] /\
  __decode_table_record_from_buf (__encode_table_record_to_buf (Ex.rec 77)) = Ex.rec 77.
Proof.
  assert (rai_typed (TableRasInfo 2 40 300 (replicate 63 0))) as Hrai.
  { constructor; try done. split; [done|]. apply Forall_replicate. by split. }
  destruct (table_encodings_roundtrip (TableHeader 1 2 3 4 5) (TableRasInfo 9 9 9 []) (TableRasInfo 2 40 300 (replicate 63 0))
    (Ex.rec 77)) as (_ & Hi & _ & Hr); [by constructor|exact Hrai|by apply Ex.rec_ok|].
  split; [exact Hi|]. by apply Hr.
Defined.

(** ** The log *)

(** C30: the table is a log that keeps the most recent records: after any sequence of
    appends, of any sizes the table allows and wrapping around its end as often as it
    may, reading all records returns the last [ras_max_record_count] of the old records
    followed by the new ones, in order, each with the partition mode added. The
    operations never trap, and return 0 when neither the EEPROM nor an allocation
    fails. *)
Theorem appends_then_read {dev} {D : EepromDev dev} {Sp : EepromDevSpec dev} e bs (s : ras_state dev) :
  __is_ras_eeprom_supported e = true -> thr_ok e -> meta_ok (ctl s) -> bs <> [] ->
  Forall (batch_ok (ras_max_record_count (ctl s))) bs ->
  wp (r <- append_all e bs ;;
      control <- get_ctl ;;
      x <- (if r =? 0 then amdgpu_ras_eeprom_read e (ras_num_recs control) else st_ret (r, [])) ;;
      st_ret (r, x))
    (fun y _ =>
      let '(r, (q, recs)) := y in
      (r = 0 -> q = 0 ->
       recs = log_append (Z.to_nat (ras_max_record_count (ctl s)))
                (map __decode_table_record_from_buf (contents (ctl s) (mem s)))
                (map (fun r => record_norm (tag_record e r)) (concat bs))) /\
      (dev_rel -> allocs_ok e -> r = 0 /\ q = 0)) s.
Proof.
  intros Hsup Hthr Hm Hne Hbs. wp_step. eapply wp_mono; [by apply (wp_append_all e Hsup Hthr bs (ctl s))|].
  intros r s1 [Hok Hrel]. ras_steps. destruct (Z.eqb_spec r 0) as [->|Hr].
  2:{ ras_steps. split; [done|]. intros R K. by specialize (Hrel R K). }
  destruct (Hok eq_refl) as (Hm1 & Ex1 & Hpos & Elog). specialize (Hpos Hne).
  apply (wp_ras_read e (ctl s1)); [done|apply Hm1|done|lia|].
  intros q recs s2 _ _ _ Hrecs _ Hrel2. wp_step. split.
  - intros _ Eq. rewrite (Hrecs Eq), take_ge, Elog.
    2:{ pose proof (length_contents (ctl s1) (mem s1)). lia. }
    unfold log_append. rewrite map_last_n, map_app, map_map. do 2 f_equal. apply map_ext_in. intros x Hx.
    rewrite <- (app_nil_r (__encode_table_record_to_buf _)). apply decode_encode_record, tag_record_typed.
    apply in_concat in Hx as (b & Hb & Hx). rewrite Forall_forall in Hbs.
    destruct (Hbs b) as [Hty _]; [by apply list_elem_of_In|]. rewrite Forall_forall in Hty. apply Hty. by apply list_elem_of_In.
  - intros R (K1 & K2 & K3 & K4). split; [done|by apply Hrel2].
Qed.

Lemma appends_then_read_witness :
  wp (r <- append_all Ex.env [[Ex.rec 7; Ex.rec 8]; [Ex.rec 9]] ;;
      control <- get_ctl ;;
      x <- (if r =? 0 then amdgpu_ras_eeprom_read Ex.env (ras_num_recs control) else st_ret (r, [])) ;;
      st_ret (r, x))
    (fun y _ => y = (0, (0, map (tag_record Ex.env) [Ex.rec 7; Ex.rec 8; Ex.rec 9]))) Ex.fresh.
Proof.
  destruct Ex.fresh_ok as (_ & Hst & En & Ex & _). destruct Ex.env_ok as (H1 & H2 & H3). eapply wp_mono.
  - apply (appends_then_read Ex.env [[Ex.rec 7; Ex.rec 8]; [Ex.rec 9]] Ex.fresh); [done|done|apply Hst|done|].
    rewrite Ex. repeat constructor; cbn; try lia; by apply Ex.rec_ok.
  - intros [r [q recs]] s' [Hrecs Hrel]. destruct Hrel as [-> ->]; [apply Chip.chip_rel|done|].
    rewrite Hrecs by done. rewrite Ex.
    replace (contents (ctl Ex.fresh) (mem Ex.fresh)) with (@nil (list Z)) by (unfold contents; by rewrite En).
    vm_compute. done.
Defined.

(** C31: take a reset of a well-formed control structure whose records lie where the
    version that the reset writes has them ([reset_layout]; C34 is about the others), and
    after it any successful appends, saves of bad pages, tag corrections, checks and
    reloads (an initialisation and a check), and any reads and checksum tests. In every
    state reached this way the EEPROM holds exactly the header and health block of the
    control structure, the table's bytes add up to zero, and so the checksum test never
    reports a bad table: it returns 0 or an I/O error. *)
Theorem ras_reach_safe {dev} {D : EepromDev dev} {Sp : EepromDevSpec dev} e (s : ras_state dev) :
  __is_ras_eeprom_supported e = true -> thr_ok e -> ras_reach e s ->
  stored (ctl s) (mem s) /\ 0 <= ras_num_recs (ctl s) <= ras_max_record_count (ctl s) /\
  wp (__verify_ras_table_checksum e) (fun res _ =>
    res <= 0 /\ (dev_rel -> kalloc_verify e = true -> res = 0)) s.
Proof.
  intros Hsup Hthr Hr. pose proof (reach_stored e Hsup Hthr s Hr) as Hst. split_and!; [done| | |].
  1,2: apply Hst.
  apply (wp_verify e (ctl s)); [apply Hst|done|]. intros res d _ Hsum Hrel. rewrite (so_sum _ _ Hst) in Hsum.
  split; [lia|]. intros R K. apply Hsum. auto.
Qed.

Lemma ras_reach_safe_witness :
  wp (__verify_ras_table_checksum Ex.env) (fun res _ => res = 0) Ex.fresh.
Proof.
  destruct Ex.control_ok as (H1 & H2 & H3 & H4). destruct Ex.fresh_ok as (E & _). destruct Ex.env_ok as (K1 & K2 & _).
  destruct (ras_reach_safe Ex.env Ex.fresh K1 K2) as (_ & _ & H).
  - by apply (reach_reset Ex.env Ex.blank).
  - eapply wp_mono; [exact H|]. intros res s' [_ Hrel]. apply Hrel; [apply Chip.chip_rel|done].
Defined.

(** An append, with its bookkeeping: on success the EEPROM holds the table, the counters
    count the new records, the tag says whether the threshold is exceeded; on failure the
    control structure still describes a table. The caller's records come back without
    the partition mode's bits. *)
Theorem append_correct {dev} {D : EepromDev dev} {Sp : EepromDevSpec dev} e recs (s : ras_state dev) :
  __is_ras_eeprom_supported e = true -> thr_ok e -> meta_ok (ctl s) -> Forall rec_typed recs ->
  1 <= Z.of_nat (length recs) <= ras_max_record_count (ctl s) ->
  wp (amdgpu_ras_eeprom_append e recs) (fun x s' =>
    meta_ok (ctl s') /\ snd x = map (fun r => untag_record e (tag_record e r)) recs /\
    (fst x = 0 -> append_ok e (ctl s) (mem s) recs (ctl s') (mem s')) /\
    (dev_rel -> allocs_ok e -> fst x = 0)) s.
Proof.
  intros Hsup Hthr Hm Hty Hlen. apply (wp_ras_append e (ctl s)); [done..|]. intros res s' Hm' Hok Hrel.
  split_and!; [done|done|done|]. intros R (K1 & K2 & K3 & _). by apply Hrel.
Qed.

(** ** Reloading *)

(** C33: initialisation from an EEPROM that holds a table reads the header back: the
    version, the layout, the number of records and the capacity are those of the table,
    the device is not marked as retired and nothing is written. The position of the ring
    is not in the header: reading starts at slot 0, so a table that had wrapped comes
    back rotated, and its oldest record is no longer the first. *)
Theorem init_reloads_table {dev} {D : EepromDev dev} {Sp : EepromDevSpec dev} e c (s : ras_state dev) :
  __is_ras_eeprom_supported e = true -> i2c_bus_ready e = true ->
  __get_eeprom_i2c_addr e = Some (i2c_address c) ->
  stored c (mem s) -> ras_max_record_count c = capacity c ->
  wp (amdgpu_ras_eeprom_init e) (fun res s' =>
    (forall y, mem s' y = mem s y) /\ is_rma s' = false /\ (dev_rel -> res = 0) /\
    (res = 0 ->
     reloaded c (ctl s') /\
     let k := Z.to_nat (ras_max_record_count c - ras_fri c) in
     contents (ctl s') (mem s') = drop k (contents c (mem s)) ++ take k (contents c (mem s)))) s.
Proof.
  intros H1 H2 H3 Hst Hcap. apply (wp_init e c); [done..|]. intros res s' Hy Hrma Hok _ Hrel.
  split_and!; [done|done|done|]. intros E. specialize (Hok E). split; [done|]. cbv zeta.
  pose proof (mo_geom _ (so_meta _ _ Hst)) as Hg. rewrite <- (reloaded_contents c (ctl s') (mem s) Hg Hok).
  destruct (geom_bounds _ (reloaded_geom _ _ Hg Hok)) as (_ & _ & ?).
  apply contents_ext; [done..|lia|]. intros i _. apply bytes_at_ext. auto.
Qed.

Lemma init_reloads_table_witness :
  wp (amdgpu_ras_eeprom_init Ex.env) (fun res s' => res = 0 /\ reloaded (ctl Ex.fresh) (ctl s')) Ex.fresh.
Proof.
  destruct Ex.fresh_ok as (_ & Hst & _ & Ex & Ea). eapply wp_mono.
  - apply (init_reloads_table Ex.env (ctl Ex.fresh) Ex.fresh); [done|done|by rewrite Ea|done|].
    rewrite Ex. vm_compute. done.
  - intros res s' (_ & _ & Hrel & Hok). assert (res = 0) as E by (apply Hrel, Chip.chip_rel).
    split; [done|]. by apply Hok.
Defined.

(** The check of a loaded table reads the health block and tests the checksum, after
    which the control structure describes the EEPROM and the records are untouched. A
    table marked as bad gets its good tag back exactly when the number of bad pages no
    longer exceeds the threshold; otherwise the device is retired exactly when the user
    set the threshold. *)
Theorem check_verdict {dev} {D : EepromDev dev} {Sp : EepromDevSpec dev} e c (s : ras_state dev) :
  __is_ras_eeprom_supported e = true -> i2c_bus_ready e = true ->
  __get_eeprom_i2c_addr e = Some (i2c_address c) -> amdgpu_bad_page_threshold e <> 0 ->
  stored c (mem s) -> loaded c (ctl s) ->
  wp (amdgpu_ras_eeprom_check e) (fun res s' =>
    let nb := bad_pages e (counts (ctl s)) in
    let tag := header (tbl_hdr c) in
    (dev_rel -> kalloc_read_info e = true -> kalloc_verify e = true -> res = 0) /\
    (res = 0 ->
     stored (ctl s') (mem s') /\ contents (ctl s') (mem s') = contents (ctl s) (mem s) /\
     header (tbl_hdr (ctl s')) = check_tag e nb tag /\ is_rma s' = check_rma e nb tag (is_rma s))) s.
Proof.
  intros H1 H2 H3 H4 Hst Hl. apply (wp_check e c); [done..|]. intros res s' Hok Hrel. cbv zeta.
  split; [done|]. intros E. destruct (Hok E) as [[K1 K2 K3] Hrma]. by rewrite (ld_hdr _ _ Hl) in K3.
Qed.

Lemma check_verdict_witness :
  wp (amdgpu_ras_eeprom_check Ex.env) (fun res s' => res = 0 /\ stored (ctl s') (mem s')) Ex.fresh.
Proof.
  destruct Ex.fresh_ok as (_ & Hst & _ & Ex & Ea). eapply wp_mono.
  - apply (check_verdict Ex.env (ctl Ex.fresh) Ex.fresh); [done|done|by rewrite Ea|done|done|].
    destruct Hst as [[] _ _ _ _]. by constructor.
  - intros res s' [Hrel Hok]. assert (res = 0) as E by (apply Hrel; [apply Chip.chip_rel|done|done]).
    split; [done|]. by apply Hok.
Defined.

(** ** Defects *)

(** Initialisation of a blank EEPROM creates a table and reports success, but leaves
    the capacity and the place of the records unset: on a driver that was just loaded
    every append is then refused with -EINVAL until the next initialisation. *)
Theorem blank_init_cannot_append {dev} {D : EepromDev dev} {Sp : EepromDevSpec dev} e addr recs (s : ras_state dev) :
  __is_ras_eeprom_supported e = true -> i2c_bus_ready e = true ->
  __get_eeprom_i2c_addr e = Some addr -> in_part addr RAS_TBL_SIZE_BYTES ->
  word_at 0 (bytes_at (mem s) addr 20) <> RAS_TABLE_HDR_VAL ->
  word_at 0 (bytes_at (mem s) addr 20) <> RAS_TABLE_HDR_BAD ->
  ras_max_record_count (ctl s) = 0 ->
  wp (r <- amdgpu_ras_eeprom_init e ;;
      x <- amdgpu_ras_eeprom_append e recs ;;
      st_ret (r, fst x))
    (fun y _ => (dev_rel -> kalloc_write_info e = true -> fst y = 0) /\ snd y = - EINVAL) s.
Proof.
  intros Hsup Hbus Haddr Hp Hv Hb Hz. wp_step. apply (wp_init_blank e addr); [done..|]. intros r s1 Ex Hrel.
  wp_step. unfold amdgpu_ras_eeprom_append. ras_steps. rewrite Hsup, Ex, Hz. cbn [negb].
  destruct (Z.eqb_spec (Z.of_nat (length recs)) 0); [by ras_steps|].
  rewrite (proj2 (Z.ltb_lt _ _)) by lia. by ras_steps.
Qed.

Lemma blank_init_cannot_append_witness :
  let s : ras_state chip :=
    RasState (Control (TableHeader 0 0 0 0 0) (TableRasInfo 0 0 0 (replicate 63 0)) 0 0 0 0 0 0 0 0 0 0 0 false)
      false false (fun _ => 255) in
  wp (r <- amdgpu_ras_eeprom_init Ex.env ;;
      x <- amdgpu_ras_eeprom_append Ex.env [Ex.rec 7] ;;
      st_ret (r, fst x)) (fun y _ => y = (0, - EINVAL)) s.
Proof.
  intros s. eapply wp_mono.
  - apply (blank_init_cannot_append Ex.env 0 [Ex.rec 7] s); [done|done|done|by left|by vm_compute|by vm_compute|done].
  - intros [r x] s' [Hr Hx]. cbn [fst snd] in *. rewrite Hx, Hr; [done|apply chip_rel|done].
Defined.

(** A failed write of records that fit behind the last one is reported, but the records
    are counted all the same: the next append goes behind bytes that were never written,
    and the next header covers them. *)
Theorem append_failed_write_counts {dev} {D : EepromDev dev} e recs (s s1 : ras_state dev) buf r d :
  kalloc_append e = true -> geom (ctl s) -> 1 <= Z.of_nat (length recs) ->
  ras_fri (ctl s) + ras_num_recs (ctl s) + Z.of_nat (length recs) <= ras_max_record_count (ctl s) ->
  encode_records recs s = Some (buf, s1) -> ras_max_record_count (ctl s1) = ras_max_record_count (ctl s) ->
  ras_fri (ctl s1) = ras_fri (ctl s) -> ras_num_recs (ctl s1) = ras_num_recs (ctl s) ->
  dev_write (record_addr (ctl s1) (ras_fri (ctl s) + ras_num_recs (ctl s))) buf
    (24 * Z.of_nat (length recs)) (hw s1) = Some (r, d) -> r < 0 ->
  exists s', amdgpu_ras_eeprom_append_table e recs s = Some (r, s') /\
    ras_num_recs (ctl s') = ras_num_recs (ctl s) + Z.of_nat (length recs).
Proof.
  intros Hk Hg Hn Hfit Henc Emax Efri Enum Hw Hr. destruct (geom_bounds _ Hg) as (_ & _ & HN).
  pose proof (g_fri _ Hg) as Hf. pose proof (g_num _ Hg) as Hnn. set (k := Z.of_nat (length recs)) in *.
  enough (wp (amdgpu_ras_eeprom_append_table e recs) (fun res s' =>
    res = r /\ ras_num_recs (ctl s') = ras_num_recs (ctl s) + k) s) as H.
  { apply wp_run in H as (a & s' & E & -> & H). by exists s'. }
  unfold amdgpu_ras_eeprom_append_table. rewrite Hk. cbn [negb]. wp_step. unfold wp at 1. rewrite Henc.
  wp_step. unfold append_write. ras_steps. rewrite Emax, Efri, Enum. fold k.
  rewrite (wrap_small 32 (ras_fri (ctl s) + ras_num_recs (ctl s))), wrap_small by lia.
  rewrite (proj2 (Z.ltb_lt _ _)) by lia. wp_step. unfold __amdgpu_ras_eeprom_write. ras_steps.
  unfold RAS_TABLE_RECORD_SIZE. rewrite wrap_small by lia. apply wp_on_hw. unfold wp at 1.
  replace (k * 24) with (24 * k) by lia. rewrite Hw. ras_steps. unfold append_account. ras_steps.
  rewrite Emax, Efri. apply wp_umod; [lia|]. ras_steps.
  rewrite (wrap_small 32 (ras_max_record_count (ctl s) + _ - _)) by lia.
  rewrite <- (Z.mod_unique (ras_max_record_count (ctl s) + (ras_fri (ctl s) + ras_num_recs (ctl s) + k - 1) - ras_fri (ctl s))
    (ras_max_record_count (ctl s)) 1 (ras_num_recs (ctl s) + k - 1)) by lia.
  rewrite wrap_small by lia.
  destruct (_ <? 12); ras_steps; (split; [unfold io_result; by rewrite (proj2 (Z.ltb_lt _ _))|cbn; lia]).
Qed.

(** ** The upgrade of an old table *)

Lemma v3_umc e : table_version e = RAS_TABLE_VER_V3 -> (IP_VERSION_MAJ (umc_version e) <? 12) = false.
Proof.
  unfold table_version. destruct (umc_version e =? IP_VERSION 8 10 0); [done|].
  destruct (_ || _) eqn:E; [|done]. intros _. apply orb_true_iff in E as [->%Z.eqb_eq| ->%Z.eqb_eq]; done.
Qed.

(** C34: formatting a version 1 table as version 3 loses the records although every call
    succeeds. On a device that wants version 3, with a control structure in the layout of
    version 1, reset the table and save the bad pages the driver knows, up to ten
    retirement units of them (the format action of amdgpu_ras_init_badpage_info). The
    reset leaves [ras_record_offset] at the old place, inside the health block that is
    written next: what a later initialisation and read return, one record for each unit
    saved, are the bytes the EEPROM had at the new place before, and do not depend on the
    pages. No call traps, and none fails when neither the EEPROM nor an allocation does. *)
Theorem v1_upgrade_loses_records {dev} {D : EepromDev dev} {Sp : EepromDevSpec dev} e bps (s : ras_state dev) :
  let n := Z.of_nat (length bps) / retire_unit e in
  __is_ras_eeprom_supported e = true -> thr_ok e -> i2c_bus_ready e = true ->
  __get_eeprom_i2c_addr e = Some (i2c_address (ctl s)) -> table_version e = RAS_TABLE_VER_V3 ->
  v1_layout (ctl s) -> is_eeprom_valid (ctl s) = true ->
  1 <= retire_unit e -> Forall rec_typed bps -> Z.of_nat (length bps) < 2 ^ 31 -> 1 <= n <= 10 ->
  wp (r <- amdgpu_ras_eeprom_reset_table e ;;
      if negb (r =? 0) then st_ret None
      else
        r <- amdgpu_ras_save_bad_pages e (Some bps) ;;
        if negb (r =? 0) then st_ret None
        else
          r <- amdgpu_ras_eeprom_init e ;;
          if negb (r =? 0) then st_ret None
          else
            control <- get_ctl ;;
            x <- amdgpu_ras_eeprom_read e (ras_num_recs control) ;;
            st_ret (if fst x =? 0 then Some (snd x) else None))
    (fun y _ =>
      (forall recs, y = Some recs ->
         recs = (fun i => __decode_table_record_from_buf (bytes_at (mem s) (i2c_address (ctl s) + 276 + i * 24) 24)) <$> seqZ 0 n) /\
      (dev_rel -> allocs_ok e -> y <> None)) s.
Proof.
  intros n Hsup Hthr Hbus Haddr Hnew Hl Hval Hu Hty Hlen Hn. pose proof (v3_umc e Hnew) as Humc.
  wp_step. apply (wp_reset_v1 e Hnew (ctl s)); [done|done|]. intros r s1 Hv1 Hb1 Ea1 Hok1 Hrel1.
  destruct (Z.eqb_spec r 0) as [->|Hne]; cbn [negb].
  2:{ wp_step. split; [done|]. intros R (_ & _ & K & _). by destruct Hne; apply Hrel1. }
  destruct (Hok1 eq_refl) as [Hm1 En1]. clear Hok1 Hrel1. wp_step.
  unfold amdgpu_ras_save_bad_pages. ras_steps. rewrite Hv1, Hval, Hb1. cbn [negb].
  rewrite (swrap_small 32 0), Z.sub_0_r, (swrap_small 32 (Z.of_nat _)), (wrap_small 32) by lia.
  assert (0 <= n < 2 ^ 31) by lia. wp_step. apply wp_BUG_ON; [lia|]. fold n. rewrite swrap_small by lia.
  assert (0 < Z.of_nat (length bps)) by (destruct bps; [exfalso; subst n; simpl in Hn; rewrite Z.div_0_l in Hn; lia|simpl; lia]).
  rewrite (proj2 (Z.ltb_lt _ _)), Humc, drop_0 by done.
  apply (wp_save_units_misplaced e Hsup Hthr Humc (mem s) _ bps (ctl s1)); [done|done|lia|done|done| |].
  { rewrite Z2Nat.id by lia. subst n. rewrite Z.mul_comm. apply Z.mul_div_le. lia. }
  intros r s2 Ea2 Hok2 Hrel2. destruct (Z.eqb_spec r 0) as [->|Hne]; cbn [negb].
  2:{ wp_step. split; [done|]. intros R (K1 & K2 & K3 & _). by destruct Hne; apply Hrel2. }
  destruct (Hok2 eq_refl) as [Hm2 En2]. rewrite En1, Z2Nat.id in En2 by lia. clear Hok2 Hrel2.
  assert (i2c_address (ctl s2) = i2c_address (ctl s)) as Ea by congruence. wp_step.
  apply (wp_init_misplaced e Hsup (mem s) (ctl s2)); [done|by rewrite Ea|done|]. intros r s3 Hy Hok3 Hrel3.
  destruct (Z.eqb_spec r 0) as [->|Hne]; cbn [negb].
  2:{ wp_step. split; [done|]. intros R _. by destruct Hne; apply Hrel3. }
  destruct (Hok3 eq_refl) as (Hg & Ea3 & Eo3 & Ef3 & En3). ras_steps.
  apply (wp_ras_read e (ctl s3)); [done|done|done|lia|]. intros res recs s4 _ _ _ Hrecs _ Hrel4. wp_step. cbn [fst snd].
  destruct (Z.eqb_spec res 0) as [->|Hne].
  2:{ split; [done|]. intros R (_ & _ & _ & K). by destruct Hne; apply Hrel4. }
  split; [|done]. intros recs' [= <-]. rewrite (Hrecs eq_refl), En3, En2, Z.add_0_l.
  rewrite take_ge by (pose proof (length_contents (ctl s3) (mem s3)); lia).
  unfold contents. rewrite En3, En2, Z.add_0_l, Ef3. change (map ?f ?l) with (f <$> l). rewrite <- list_fmap_compose.
  apply list_fmap_ext. intros i k [-> Hk]%lookup_seqZ. simpl. f_equal.
  destruct (geom_bounds _ Hg) as (_ & _ & HN). pose proof (g_num _ Hg) as Hnum.
  rewrite Z.add_0_l, Z.mod_small by lia. unfold slot, rec_addr. rewrite Ea3, Eo3, Ea. apply bytes_at_ext. intros y Hyr.
  rewrite Hy. apply (mp_frame _ _ _ Hm2). rewrite Ea. lia.
Qed.

(** A device of the new kind (UMC 12), two pages to save. *)
Definition env12 : ras_env := {|
  mp1_version := IP_VERSION 13 0 6; is_app_apu := false; i2c_bus_ready := true; rom_addr := None;
  is_vega20 := false; vbios_pn_has := fun _ => false; umc_version := IP_VERSION 12 0 0; retire_unit := 1;
  query_mem_partition_mode := None; amdgpu_bad_page_threshold := 100; bad_page_cnt_threshold := 100;
  umc_ras_enabled := true; kalloc_write_info := true; kalloc_read_info := true; kalloc_append := true;
  kalloc_update := true; kalloc_read := true; kalloc_verify := true
|}.
Definition old_control : eeprom_control :=
  Control (TableHeader RAS_TABLE_HDR_VAL RAS_TABLE_VER_V1 20 68 0) (TableRasInfo 0 0 0 (replicate 63 0))
    EEPROM_I2C_MADDR_4 0 20 20 2 2 0 2 0 RAS_MAX_RECORD_COUNT 0 true.
Definition old_table : ras_state chip := RasState old_control false false (fun _ => 255).

Lemma v1_upgrade_loses_records_witness :
  wp (r <- amdgpu_ras_eeprom_reset_table env12 ;;
      if negb (r =? 0) then st_ret None
      else
        r <- amdgpu_ras_save_bad_pages env12 (Some [Ex.rec 77; Ex.rec 78]) ;;
        if negb (r =? 0) then st_ret None
        else
          r <- amdgpu_ras_eeprom_init env12 ;;
          if negb (r =? 0) then st_ret None
          else
            control <- get_ctl ;;
            x <- amdgpu_ras_eeprom_read env12 (ras_num_recs control) ;;
            st_ret (if fst x =? 0 then Some (snd x) else None))
    (fun y _ => y = Some (replicate 2 (TableRecord (2 ^ 48 - 1) (2 ^ 48 - 1) (2 ^ 64 - 1) 255 255 255 255))) old_table.
Proof.
  eapply wp_mono.
  - apply (v1_upgrade_loses_records env12 [Ex.rec 77; Ex.rec 78] old_table); try done.
    + constructor; [split_and!; [by right|done|done]|done|by split].
    + repeat constructor; cbn; lia.
  - intros y _ [Hrecs Hrel]. destruct y as [recs|]; [|by destruct Hrel; [apply chip_rel|by split_and!|]].
    rewrite (Hrecs recs eq_refl). vm_compute. done.
Defined.
