(* ===== verification/Hdcp.v ===== *)
(** * HDCP: data and helpers of the content protection module

    Model of amd/display/modules/inc/mod_hdcp.h and of the helpers in
    amd/display/modules/hdcp/hdcp.h. One [mod_hdcp] describes a link: its connection,
    its displays, the messages and verdicts of the authentication in progress and the
    state of the state machine. The two unions of the C structure (messages and
    transition inputs of HDCP 1 and HDCP 2) are kept apart: every field is reset or
    written before the other protocol reads its bytes. The state of a computation also
    holds the event context and the output the caller passed, and the world outside:
    the DDC functions and the trusted application. *)

From stdpp Require Import list.
From Stdlib Require Import ZArith Lia.
From S2P Require Import Prelude Bytes.
Open Scope st_scope.

(** ** Enumerations *)

Inductive mod_hdcp_status : Type :=
| MOD_HDCP_STATUS_SUCCESS
| MOD_HDCP_STATUS_FAILURE
| MOD_HDCP_STATUS_RESET_NEEDED
| MOD_HDCP_STATUS_DISPLAY_OUT_OF_BOUND
| MOD_HDCP_STATUS_DISPLAY_NOT_FOUND
| MOD_HDCP_STATUS_INVALID_STATE
| MOD_HDCP_STATUS_NOT_IMPLEMENTED
| MOD_HDCP_STATUS_INTERNAL_POLICY_FAILURE
| MOD_HDCP_STATUS_UPDATE_TOPOLOGY_FAILURE
| MOD_HDCP_STATUS_CREATE_PSP_SERVICE_FAILURE
| MOD_HDCP_STATUS_DESTROY_PSP_SERVICE_FAILURE
| MOD_HDCP_STATUS_HDCP1_CREATE_SESSION_FAILURE
| MOD_HDCP_STATUS_HDCP1_DESTROY_SESSION_FAILURE
| MOD_HDCP_STATUS_HDCP1_VALIDATE_ENCRYPTION_FAILURE
| MOD_HDCP_STATUS_HDCP1_NOT_HDCP_REPEATER
| MOD_HDCP_STATUS_HDCP1_NOT_CAPABLE
| MOD_HDCP_STATUS_HDCP1_R0_PRIME_PENDING
| MOD_HDCP_STATUS_HDCP1_VALIDATE_RX_FAILURE
| MOD_HDCP_STATUS_HDCP1_BKSV_REVOKED
| MOD_HDCP_STATUS_HDCP1_KSV_LIST_NOT_READY
| MOD_HDCP_STATUS_HDCP1_VALIDATE_KSV_LIST_FAILURE
| MOD_HDCP_STATUS_HDCP1_KSV_LIST_REVOKED
| MOD_HDCP_STATUS_HDCP1_ENABLE_ENCRYPTION_FAILURE
| MOD_HDCP_STATUS_HDCP1_ENABLE_STREAM_ENCRYPTION_FAILURE
| MOD_HDCP_STATUS_HDCP1_MAX_CASCADE_EXCEEDED_FAILURE
| MOD_HDCP_STATUS_HDCP1_MAX_DEVS_EXCEEDED_FAILURE
| MOD_HDCP_STATUS_HDCP1_DEVICE_COUNT_MISMATCH_FAILURE
| MOD_HDCP_STATUS_HDCP1_LINK_INTEGRITY_FAILURE
| MOD_HDCP_STATUS_HDCP1_REAUTH_REQUEST_ISSUED
| MOD_HDCP_STATUS_HDCP1_LINK_MAINTENANCE_FAILURE
| MOD_HDCP_STATUS_HDCP1_INVALID_BKSV
| MOD_HDCP_STATUS_DDC_FAILURE
| MOD_HDCP_STATUS_INVALID_OPERATION
| MOD_HDCP_STATUS_HDCP2_NOT_CAPABLE
| MOD_HDCP_STATUS_HDCP2_CREATE_SESSION_FAILURE
| MOD_HDCP_STATUS_HDCP2_DESTROY_SESSION_FAILURE
| MOD_HDCP_STATUS_HDCP2_PREP_AKE_INIT_FAILURE
| MOD_HDCP_STATUS_HDCP2_AKE_CERT_PENDING
| MOD_HDCP_STATUS_HDCP2_H_PRIME_PENDING
| MOD_HDCP_STATUS_HDCP2_PAIRING_INFO_PENDING
| MOD_HDCP_STATUS_HDCP2_VALIDATE_AKE_CERT_FAILURE
| MOD_HDCP_STATUS_HDCP2_AKE_CERT_REVOKED
| MOD_HDCP_STATUS_HDCP2_VALIDATE_H_PRIME_FAILURE
| MOD_HDCP_STATUS_HDCP2_VALIDATE_PAIRING_INFO_FAILURE
| MOD_HDCP_STATUS_HDCP2_PREP_LC_INIT_FAILURE
| MOD_HDCP_STATUS_HDCP2_L_PRIME_PENDING
| MOD_HDCP_STATUS_HDCP2_VALIDATE_L_PRIME_FAILURE
| MOD_HDCP_STATUS_HDCP2_PREP_EKS_FAILURE
| MOD_HDCP_STATUS_HDCP2_ENABLE_ENCRYPTION_FAILURE
| MOD_HDCP_STATUS_HDCP2_RX_ID_LIST_NOT_READY
| MOD_HDCP_STATUS_HDCP2_VALIDATE_RX_ID_LIST_FAILURE
| MOD_HDCP_STATUS_HDCP2_RX_ID_LIST_REVOKED
| MOD_HDCP_STATUS_HDCP2_ENABLE_STREAM_ENCRYPTION_FAILURE
| MOD_HDCP_STATUS_HDCP2_STREAM_READY_PENDING
| MOD_HDCP_STATUS_HDCP2_VALIDATE_STREAM_READY_FAILURE
| MOD_HDCP_STATUS_HDCP2_PREPARE_STREAM_MANAGEMENT_FAILURE
| MOD_HDCP_STATUS_HDCP2_REAUTH_REQUEST
| MOD_HDCP_STATUS_HDCP2_REAUTH_LINK_INTEGRITY_FAILURE
| MOD_HDCP_STATUS_HDCP2_DEVICE_COUNT_MISMATCH_FAILURE
| MOD_HDCP_STATUS_UNSUPPORTED_PSP_VER_FAILURE.

(** Comparisons with [MOD_HDCP_STATUS_SUCCESS] and the two statuses the code tests. *)
Definition success (s : mod_hdcp_status) : bool :=
  match s with MOD_HDCP_STATUS_SUCCESS => true | _ => false end.
Definition reset_needed (s : mod_hdcp_status) : bool :=
  match s with MOD_HDCP_STATUS_RESET_NEEDED => true | _ => false end.
Definition not_implemented (s : mod_hdcp_status) : bool :=
  match s with MOD_HDCP_STATUS_NOT_IMPLEMENTED => true | _ => false end.

Inductive state_id : Type :=
| HDCP_UNINITIALIZED
| HDCP_INITIALIZED
| HDCP_CP_NOT_DESIRED
| H1_A0_WAIT_FOR_ACTIVE_RX
| H1_A1_EXCHANGE_KSVS
| H1_A2_COMPUTATIONS_A3_VALIDATE_RX_A6_TEST_FOR_REPEATER
| H1_A45_AUTHENTICATED
| H1_A8_WAIT_FOR_READY
| H1_A9_READ_KSV_LIST
| D1_A0_DETERMINE_RX_HDCP_CAPABLE
| D1_A1_EXCHANGE_KSVS
| D1_A23_WAIT_FOR_R0_PRIME
| D1_A2_COMPUTATIONS_A3_VALIDATE_RX_A5_TEST_FOR_REPEATER
| D1_A4_AUTHENTICATED
| D1_A6_WAIT_FOR_READY
| D1_A7_READ_KSV_LIST
| H2_A0_KNOWN_HDCP2_CAPABLE_RX
| H2_A1_SEND_AKE_INIT
| H2_A1_VALIDATE_AKE_CERT
| H2_A1_SEND_NO_STORED_KM
| H2_A1_READ_H_PRIME
| H2_A1_READ_PAIRING_INFO_AND_VALIDATE_H_PRIME
| H2_A1_SEND_STORED_KM
| H2_A1_VALIDATE_H_PRIME
| H2_A2_LOCALITY_CHECK
| H2_A3_EXCHANGE_KS_AND_TEST_FOR_REPEATER
| H2_ENABLE_ENCRYPTION
| H2_A5_AUTHENTICATED
| H2_A6_WAIT_FOR_RX_ID_LIST
| H2_A78_VERIFY_RX_ID_LIST_AND_SEND_ACK
| H2_A9_SEND_STREAM_MANAGEMENT
| H2_A9_VALIDATE_STREAM_READY
| D2_A0_DETERMINE_RX_HDCP_CAPABLE
| D2_A1_SEND_AKE_INIT
| D2_A1_VALIDATE_AKE_CERT
| D2_A1_SEND_NO_STORED_KM
| D2_A1_READ_H_PRIME
| D2_A1_READ_PAIRING_INFO_AND_VALIDATE_H_PRIME
| D2_A1_SEND_STORED_KM
| D2_A1_VALIDATE_H_PRIME
| D2_A2_LOCALITY_CHECK
| D2_A34_EXCHANGE_KS_AND_TEST_FOR_REPEATER
| D2_SEND_CONTENT_STREAM_TYPE
| D2_ENABLE_ENCRYPTION
| D2_A5_AUTHENTICATED
| D2_A6_WAIT_FOR_RX_ID_LIST
| D2_A78_VERIFY_RX_ID_LIST_AND_SEND_ACK
| D2_A9_SEND_STREAM_MANAGEMENT
| D2_A9_VALIDATE_STREAM_READY.

Inductive mod_hdcp_event : Type :=
| MOD_HDCP_EVENT_CALLBACK
| MOD_HDCP_EVENT_WATCHDOG_TIMEOUT
| MOD_HDCP_EVENT_CPIRQ.

Definition is_callback (e : mod_hdcp_event) : bool :=
  match e with MOD_HDCP_EVENT_CALLBACK => true | _ => false end.
Definition is_watchdog (e : mod_hdcp_event) : bool :=
  match e with MOD_HDCP_EVENT_WATCHDOG_TIMEOUT => true | _ => false end.
Definition is_cpirq (e : mod_hdcp_event) : bool :=
  match e with MOD_HDCP_EVENT_CPIRQ => true | _ => false end.

Inductive mod_hdcp_operation_mode : Type := MOD_HDCP_MODE_OFF | MOD_HDCP_MODE_DEFAULT | MOD_HDCP_MODE_DP.

Inductive mod_hdcp_display_state : Type :=
| MOD_HDCP_DISPLAY_INACTIVE
| MOD_HDCP_DISPLAY_ACTIVE
| MOD_HDCP_DISPLAY_ENCRYPTION_ENABLED.

Inductive mod_hdcp_encryption_status : Type :=
| MOD_HDCP_ENCRYPTION_STATUS_HDCP_OFF
| MOD_HDCP_ENCRYPTION_STATUS_HDCP1_ON
| MOD_HDCP_ENCRYPTION_STATUS_HDCP2_TYPE0_ON
| MOD_HDCP_ENCRYPTION_STATUS_HDCP2_TYPE1_ON
| MOD_HDCP_ENCRYPTION_STATUS_HDCP2_ON.

Definition MAX_NUM_OF_DISPLAYS : Z := 6.
Definition MAX_NUM_OF_ATTEMPTS : Z := 4.
Definition MAX_NUM_OF_ERROR_TRACE : Z := 10.
Definition MOD_HDCP_DISPLAY_DISABLE_AUTHENTICATION : Z := 1.
Definition MOD_HDCP_FORCE_TYPE_MAX : Z := 0.
Definition MOD_HDCP_FORCE_TYPE_0 : Z := 1.
Definition MOD_HDCP_FORCE_TYPE_1 : Z := 2.

Inductive trans_input_result : Type := UNKNOWN | PASS | FAIL.

Definition passed (r : trans_input_result) : bool := match r with PASS => true | _ => false end.
Definition failed (r : trans_input_result) : bool := match r with FAIL => true | _ => false end.
Definition unknown (r : trans_input_result) : bool := match r with UNKNOWN => true | _ => false end.

(** The fields of [mod_hdcp_transition_input_hdcp1] and [..._hdcp2]. *)
Inductive input_field : Type :=
| in1_bksv_read | in1_bksv_validation | in1_create_session | in1_an_write | in1_aksv_write | in1_ainfo_write
| in1_bcaps_read | in1_r0p_read | in1_rx_validation | in1_encryption | in1_link_maintenance | in1_ready_check
| in1_bstatus_read | in1_max_cascade_check | in1_max_devs_check | in1_device_count_check | in1_ksvlist_read
| in1_vp_read | in1_ksvlist_vp_validation | in1_hdcp_capable_dp | in1_binfo_read_dp | in1_r0p_available_dp
| in1_link_integrity_check | in1_reauth_request_check | in1_stream_encryption_dp
| in2_hdcp2version_read | in2_hdcp2_capable_check | in2_create_session | in2_ake_init_prepare | in2_ake_init_write
| in2_rxstatus_read | in2_ake_cert_available | in2_ake_cert_read | in2_ake_cert_validation | in2_stored_km_write
| in2_no_stored_km_write | in2_h_prime_available | in2_h_prime_read | in2_pairing_available | in2_pairing_info_read
| in2_h_prime_validation | in2_lc_init_prepare | in2_lc_init_write | in2_l_prime_available_poll | in2_l_prime_read
| in2_l_prime_validation | in2_eks_prepare | in2_eks_write | in2_enable_encryption | in2_reauth_request_check
| in2_rx_id_list_read | in2_device_count_check | in2_rx_id_list_validation | in2_repeater_auth_ack_write
| in2_prepare_stream_manage | in2_stream_manage_write | in2_stream_ready_available | in2_stream_ready_read
| in2_stream_ready_validation | in2_rx_caps_read_dp | in2_content_stream_type_write | in2_link_integrity_check_dp
| in2_stream_encryption_dp.

(** The fields of [mod_hdcp_message_hdcp1] and [..._hdcp2], each an array of bytes; the
    16-bit ones are little-endian. *)
Inductive msg_field : Type :=
| m1_an | m1_aksv | m1_ainfo | m1_bksv | m1_r0p | m1_bcaps | m1_bstatus | m1_ksvlist | m1_ksvlist_size | m1_vp
| m1_binfo_dp
| m2_hdcp2version_hdmi | m2_rxcaps_dp | m2_rxstatus | m2_ake_init | m2_ake_cert | m2_ake_no_stored_km
| m2_ake_stored_km | m2_ake_h_prime | m2_ake_pairing_info | m2_lc_init | m2_lc_l_prime | m2_ske_eks | m2_rx_id_list
| m2_rx_id_list_size | m2_repeater_auth_ack | m2_repeater_auth_stream_manage | m2_stream_manage_size
| m2_repeater_auth_stream_ready | m2_rxstatus_dp | m2_content_stream_type_dp.

#[global] Instance input_field_eq_dec : EqDecision input_field.
Proof. solve_decision. Defined.
#[global] Instance msg_field_eq_dec : EqDecision msg_field.
Proof. solve_decision. Defined.
#[global] Instance state_id_eq_dec : EqDecision state_id.
Proof. solve_decision. Defined.

Definition msg_size (f : msg_field) : Z :=
  match f with
  | m1_an => 8 | m1_aksv => 5 | m1_ainfo => 1 | m1_bksv => 5 | m1_r0p => 2 | m1_bcaps => 1 | m1_bstatus => 2
  | m1_ksvlist => 635 | m1_ksvlist_size => 2 | m1_vp => 20 | m1_binfo_dp => 2
  | m2_hdcp2version_hdmi => 1 | m2_rxcaps_dp => 3 | m2_rxstatus => 2 | m2_ake_init => 12 | m2_ake_cert => 534
  | m2_ake_no_stored_km => 129 | m2_ake_stored_km => 33 | m2_ake_h_prime => 33 | m2_ake_pairing_info => 17
  | m2_lc_init => 9 | m2_lc_l_prime => 33 | m2_ske_eks => 25 | m2_rx_id_list => 177 | m2_rx_id_list_size => 2
  | m2_repeater_auth_ack => 17 | m2_repeater_auth_stream_manage => 68 | m2_stream_manage_size => 2
  | m2_repeater_auth_stream_ready => 33 | m2_rxstatus_dp => 1 | m2_content_stream_type_dp => 2
  end.

(** ** Structures *)

Record mod_hdcp_display_adjustment := DisplayAdj { adj_disable : Z; adj_reserved : Z }.

Record mod_hdcp_display := Display {
  d_state : mod_hdcp_display_state;
  d_index : Z;
  d_controller : Z;
  d_dig_fe : Z;
  d_stream_enc_idx : Z;
  d_vc_id : Z;
  d_adjust : mod_hdcp_display_adjustment
}.

Record link_adjustment_hdcp1 := LinkAdj1 {
  disable1 : bool;
  postpone_encryption : bool;
  min_auth_retries_wa : Z;
  reserved1 : Z
}.

Record link_adjustment_hdcp2 := LinkAdj2 {
  disable2 : bool;
  force_type : Z;
  force_no_stored_km : bool;
  increase_h_prime_timeout : bool;
  force_sw_locality_check : bool;
  reserved2 : Z
}.

Record mod_hdcp_link_adjustment := LinkAdj {
  auth_delay : Z;
  adj_hdcp1 : link_adjustment_hdcp1;
  adj_hdcp2 : link_adjustment_hdcp2
}.

#[global] Instance display_adjustment_eq_dec : EqDecision mod_hdcp_display_adjustment.
Proof. solve_decision. Defined.
#[global] Instance link_adjustment_hdcp1_eq_dec : EqDecision link_adjustment_hdcp1.
Proof. solve_decision. Defined.
#[global] Instance link_adjustment_hdcp2_eq_dec : EqDecision link_adjustment_hdcp2.
Proof. solve_decision. Defined.
#[global] Instance link_adjustment_eq_dec : EqDecision mod_hdcp_link_adjustment.
Proof. solve_decision. Defined.

Record mod_hdcp_displayport := Displayport {
  dp_rev : Z;
  assr_enabled : bool;
  mst_enabled : bool;
  dp2_enabled : bool;
  usb4_enabled : bool
}.

Record mod_hdcp_link := Link {
  mode : mod_hdcp_operation_mode;
  dig_be : Z;
  ddc_line : Z;
  link_enc_idx : Z;
  phy_idx : Z;
  dio_output_id : Z;
  hdcp_supported_informational : Z;
  dp : mod_hdcp_displayport;
  adjust : mod_hdcp_link_adjustment
}.

(** [has_atomic_i2c] and [has_atomic_aux]: the function pointers are set. *)
Record mod_hdcp_config := Config {
  dtm_v3_supported : bool;
  has_atomic_i2c : bool;
  has_atomic_aux : bool;
  lc_enable_sw_fallback : bool
}.

(** [trace]: the first [error_count] entries of the error array. *)
Record mod_hdcp_connection := Connection {
  link : mod_hdcp_link;
  is_repeater : bool;
  is_km_stored : bool;
  is_hdcp1_revoked : bool;
  is_hdcp2_revoked : bool;
  trace : list (mod_hdcp_status * state_id);
  hdcp1_retry_count : Z;
  hdcp2_retry_count : Z
}.

Record mod_hdcp_authentication := Auth {
  auth_id : Z;
  msg : msg_field -> list Z;
  trans_input : input_field -> trans_input_result;
  stream_management_retry_count : Z
}.

Record mod_hdcp := Hdcp {
  config : mod_hdcp_config;
  connection : mod_hdcp_connection;
  displays : list mod_hdcp_display;
  auth : mod_hdcp_authentication;
  current_state : state_id;
  stay_count : Z
}.

Record mod_hdcp_event_context := EventCtx {
  event : mod_hdcp_event;
  rx_id_list_ready : bool;
  unexpected_event : bool
}.

Record mod_hdcp_output := Output {
  callback_needed : bool;
  callback_stop : bool;
  watchdog_timer_needed : bool;
  watchdog_timer_stop : bool;
  callback_delay : Z;
  watchdog_timer_delay : Z;
  auth_complete : bool
}.

(** [memset(..., 0, ...)] *)
Definition adj1_zero : link_adjustment_hdcp1 := LinkAdj1 false false 0 0.
Definition adj2_zero : link_adjustment_hdcp2 := LinkAdj2 false 0 false false false 0.
Definition link_zero : mod_hdcp_link :=
  Link MOD_HDCP_MODE_OFF 0 0 0 0 0 0 (Displayport 0 false false false false) (LinkAdj 0 adj1_zero adj2_zero).
Definition connection_zero : mod_hdcp_connection := Connection link_zero false false false false [] 0 0.
Definition msg_zero (f : msg_field) : list Z := replicate (Z.to_nat (msg_size f)) 0.
Definition auth_zero : mod_hdcp_authentication := Auth 0 msg_zero (fun _ => UNKNOWN) 0.
Definition display_zero : mod_hdcp_display := Display MOD_HDCP_DISPLAY_INACTIVE 0 0 0 0 0 (DisplayAdj 0 0).
Definition config_zero : mod_hdcp_config := Config false false false false.
Definition hdcp_zero : mod_hdcp :=
  Hdcp config_zero connection_zero (replicate (Z.to_nat MAX_NUM_OF_DISPLAYS) display_zero) auth_zero
    HDCP_UNINITIALIZED 0.
Definition output_zero : mod_hdcp_output := Output false false false false 0 0 false.

(** Assignments to single fields. *)
Definition set_connection (c : mod_hdcp_connection) (h : mod_hdcp) : mod_hdcp :=
  Hdcp (config h) c (displays h) (auth h) (current_state h) (stay_count h).
Definition set_displays (l : list mod_hdcp_display) (h : mod_hdcp) : mod_hdcp :=
  Hdcp (config h) (connection h) l (auth h) (current_state h) (stay_count h).
Definition set_auth (a : mod_hdcp_authentication) (h : mod_hdcp) : mod_hdcp :=
  Hdcp (config h) (connection h) (displays h) a (current_state h) (stay_count h).
Definition set_state (s : state_id) (n : Z) (h : mod_hdcp) : mod_hdcp :=
  Hdcp (config h) (connection h) (displays h) (auth h) s n.

Definition set_link (l : mod_hdcp_link) (c : mod_hdcp_connection) : mod_hdcp_connection :=
  Connection l (is_repeater c) (is_km_stored c) (is_hdcp1_revoked c) (is_hdcp2_revoked c) (trace c)
    (hdcp1_retry_count c) (hdcp2_retry_count c).
Definition set_rx (repeater km_stored : bool) (c : mod_hdcp_connection) : mod_hdcp_connection :=
  Connection (link c) repeater km_stored (is_hdcp1_revoked c) (is_hdcp2_revoked c) (trace c)
    (hdcp1_retry_count c) (hdcp2_retry_count c).
Definition set_revoked (r1 r2 : bool) (c : mod_hdcp_connection) : mod_hdcp_connection :=
  Connection (link c) (is_repeater c) (is_km_stored c) r1 r2 (trace c) (hdcp1_retry_count c) (hdcp2_retry_count c).
Definition set_trace (t : list (mod_hdcp_status * state_id)) (c : mod_hdcp_connection) : mod_hdcp_connection :=
  Connection (link c) (is_repeater c) (is_km_stored c) (is_hdcp1_revoked c) (is_hdcp2_revoked c) t
    (hdcp1_retry_count c) (hdcp2_retry_count c).
Definition set_retries (n1 n2 : Z) (c : mod_hdcp_connection) : mod_hdcp_connection :=
  Connection (link c) (is_repeater c) (is_km_stored c) (is_hdcp1_revoked c) (is_hdcp2_revoked c) (trace c) n1 n2.

Definition set_adjust (a : mod_hdcp_link_adjustment) (l : mod_hdcp_link) : mod_hdcp_link :=
  Link (mode l) (dig_be l) (ddc_line l) (link_enc_idx l) (phy_idx l) (dio_output_id l)
    (hdcp_supported_informational l) (dp l) a.
Definition set_adj1 (f : link_adjustment_hdcp1 -> link_adjustment_hdcp1) (a : mod_hdcp_link_adjustment)
    : mod_hdcp_link_adjustment := LinkAdj (auth_delay a) (f (adj_hdcp1 a)) (adj_hdcp2 a).
Definition set_adj2 (f : link_adjustment_hdcp2 -> link_adjustment_hdcp2) (a : mod_hdcp_link_adjustment)
    : mod_hdcp_link_adjustment := LinkAdj (auth_delay a) (adj_hdcp1 a) (f (adj_hdcp2 a)).
Definition set_disable1 (a : link_adjustment_hdcp1) : link_adjustment_hdcp1 :=
  LinkAdj1 true (postpone_encryption a) (min_auth_retries_wa a) (reserved1 a).
Definition set_postpone (a : link_adjustment_hdcp1) : link_adjustment_hdcp1 :=
  LinkAdj1 (disable1 a) true (min_auth_retries_wa a) (reserved1 a).
Definition set_disable2 (a : link_adjustment_hdcp2) : link_adjustment_hdcp2 :=
  LinkAdj2 true (force_type a) (force_no_stored_km a) (increase_h_prime_timeout a) (force_sw_locality_check a)
    (reserved2 a).
Definition set_force_type (t : Z) (a : link_adjustment_hdcp2) : link_adjustment_hdcp2 :=
  LinkAdj2 (disable2 a) t (force_no_stored_km a) (increase_h_prime_timeout a) (force_sw_locality_check a)
    (reserved2 a).
Definition set_force_no_stored_km (a : link_adjustment_hdcp2) : link_adjustment_hdcp2 :=
  LinkAdj2 (disable2 a) (force_type a) true (increase_h_prime_timeout a) (force_sw_locality_check a) (reserved2 a).
Definition set_force_sw_locality_check (a : link_adjustment_hdcp2) : link_adjustment_hdcp2 :=
  LinkAdj2 (disable2 a) (force_type a) (force_no_stored_km a) (increase_h_prime_timeout a) true (reserved2 a).

Definition set_display_state (s : mod_hdcp_display_state) (d : mod_hdcp_display) : mod_hdcp_display :=
  Display s (d_index d) (d_controller d) (d_dig_fe d) (d_stream_enc_idx d) (d_vc_id d) (d_adjust d).
Definition set_display_adjust (a : mod_hdcp_display_adjustment) (d : mod_hdcp_display) : mod_hdcp_display :=
  Display (d_state d) (d_index d) (d_controller d) (d_dig_fe d) (d_stream_enc_idx d) (d_vc_id d) a.

(** A structure as a function of its fields, with one field assigned. *)
Definition upd {F A} `{EqDecision F} (k : F) (v : A) (f : F -> A) : F -> A :=
  fun x => if decide (x = k) then v else f x.

Lemma upd_same {F A} `{EqDecision F} (k : F) (v : A) (f : F -> A) : upd k v f k = v.
Proof. unfold upd. by rewrite decide_True. Qed.
Lemma upd_other {F A} `{EqDecision F} (k x : F) (v : A) (f : F -> A) : x <> k -> upd k v f x = f x.
Proof. intros. unfold upd. by rewrite decide_False. Qed.

Definition set_msg (k : msg_field) (v : list Z) (a : mod_hdcp_authentication) : mod_hdcp_authentication :=
  Auth (auth_id a) (upd k v (msg a)) (trans_input a) (stream_management_retry_count a).
Definition set_input (k : input_field) (v : trans_input_result) (a : mod_hdcp_authentication)
    : mod_hdcp_authentication :=
  Auth (auth_id a) (msg a) (upd k v (trans_input a)) (stream_management_retry_count a).
Definition set_auth_id (n : Z) (a : mod_hdcp_authentication) : mod_hdcp_authentication :=
  Auth n (msg a) (trans_input a) (stream_management_retry_count a).
Definition set_stream_retry (n : Z) (a : mod_hdcp_authentication) : mod_hdcp_authentication :=
  Auth (auth_id a) (msg a) (trans_input a) n.

(** ** Predicates (hdcp.h) *)

Definition is_dp_hdcp (h : mod_hdcp) : bool :=
  match mode (link (connection h)) with MOD_HDCP_MODE_DP => true | _ => false end.
Definition is_dp_mst_hdcp (h : mod_hdcp) : bool := is_dp_hdcp h && mst_enabled (dp (link (connection h))).
Definition is_hdmi_dvi_sl_hdcp (h : mod_hdcp) : bool :=
  match mode (link (connection h)) with MOD_HDCP_MODE_DEFAULT => true | _ => false end.

(** The number of a state, as the C enumerations chain them. *)
Definition state_num (s : state_id) : Z :=
  match s with
  | HDCP_UNINITIALIZED => 0 | HDCP_INITIALIZED => 1 | HDCP_CP_NOT_DESIRED => 2
  | H1_A0_WAIT_FOR_ACTIVE_RX => 3 | H1_A1_EXCHANGE_KSVS => 4
  | H1_A2_COMPUTATIONS_A3_VALIDATE_RX_A6_TEST_FOR_REPEATER => 5 | H1_A45_AUTHENTICATED => 6
  | H1_A8_WAIT_FOR_READY => 7 | H1_A9_READ_KSV_LIST => 8
  | D1_A0_DETERMINE_RX_HDCP_CAPABLE => 9 | D1_A1_EXCHANGE_KSVS => 10 | D1_A23_WAIT_FOR_R0_PRIME => 11
  | D1_A2_COMPUTATIONS_A3_VALIDATE_RX_A5_TEST_FOR_REPEATER => 12 | D1_A4_AUTHENTICATED => 13
  | D1_A6_WAIT_FOR_READY => 14 | D1_A7_READ_KSV_LIST => 15
  | H2_A0_KNOWN_HDCP2_CAPABLE_RX => 16 | H2_A1_SEND_AKE_INIT => 17 | H2_A1_VALIDATE_AKE_CERT => 18
  | H2_A1_SEND_NO_STORED_KM => 19 | H2_A1_READ_H_PRIME => 20
  | H2_A1_READ_PAIRING_INFO_AND_VALIDATE_H_PRIME => 21 | H2_A1_SEND_STORED_KM => 22 | H2_A1_VALIDATE_H_PRIME => 23
  | H2_A2_LOCALITY_CHECK => 24 | H2_A3_EXCHANGE_KS_AND_TEST_FOR_REPEATER => 25 | H2_ENABLE_ENCRYPTION => 26
  | H2_A5_AUTHENTICATED => 27 | H2_A6_WAIT_FOR_RX_ID_LIST => 28 | H2_A78_VERIFY_RX_ID_LIST_AND_SEND_ACK => 29
  | H2_A9_SEND_STREAM_MANAGEMENT => 30 | H2_A9_VALIDATE_STREAM_READY => 31
  | D2_A0_DETERMINE_RX_HDCP_CAPABLE => 32 | D2_A1_SEND_AKE_INIT => 33 | D2_A1_VALIDATE_AKE_CERT => 34
  | D2_A1_SEND_NO_STORED_KM => 35 | D2_A1_READ_H_PRIME => 36
  | D2_A1_READ_PAIRING_INFO_AND_VALIDATE_H_PRIME => 37 | D2_A1_SEND_STORED_KM => 38 | D2_A1_VALIDATE_H_PRIME => 39
  | D2_A2_LOCALITY_CHECK => 40 | D2_A34_EXCHANGE_KS_AND_TEST_FOR_REPEATER => 41 | D2_SEND_CONTENT_STREAM_TYPE => 42
  | D2_ENABLE_ENCRYPTION => 43 | D2_A5_AUTHENTICATED => 44 | D2_A6_WAIT_FOR_RX_ID_LIST => 45
  | D2_A78_VERIFY_RX_ID_LIST_AND_SEND_ACK => 46 | D2_A9_SEND_STREAM_MANAGEMENT => 47
  | D2_A9_VALIDATE_STREAM_READY => 48
  end.

Definition HDCP1_STATE_START : Z := state_num HDCP_CP_NOT_DESIRED.
Definition HDCP1_STATE_END : Z := state_num H1_A9_READ_KSV_LIST.
Definition HDCP1_DP_STATE_END : Z := state_num D1_A7_READ_KSV_LIST.
Definition HDCP2_STATE_END : Z := state_num H2_A9_VALIDATE_STREAM_READY.
Definition HDCP2_DP_STATE_END : Z := state_num D2_A9_VALIDATE_STREAM_READY.

Definition state_between (first last : Z) (h : mod_hdcp) : bool :=
  (first <? state_num (current_state h)) && (state_num (current_state h) <=? last).
Definition is_in_hdcp1_states : mod_hdcp -> bool := state_between HDCP1_STATE_START HDCP1_STATE_END.
Definition is_in_hdcp1_dp_states : mod_hdcp -> bool := state_between HDCP1_STATE_END HDCP1_DP_STATE_END.
Definition is_in_hdcp2_states : mod_hdcp -> bool := state_between HDCP1_DP_STATE_END HDCP2_STATE_END.
Definition is_in_hdcp2_dp_states : mod_hdcp -> bool := state_between HDCP2_STATE_END HDCP2_DP_STATE_END.

Definition is_in_authenticated_states (h : mod_hdcp) : bool :=
  match current_state h with
  | D1_A4_AUTHENTICATED | H1_A45_AUTHENTICATED | D2_A5_AUTHENTICATED | H2_A5_AUTHENTICATED => true
  | _ => false
  end.
Definition is_hdcp1 (h : mod_hdcp) : bool := is_in_hdcp1_states h || is_in_hdcp1_dp_states h.
Definition is_hdcp2 (h : mod_hdcp) : bool := is_in_hdcp2_states h || is_in_hdcp2_dp_states h.
Definition is_in_cp_not_desired_state (h : mod_hdcp) : bool :=
  match current_state h with HDCP_CP_NOT_DESIRED => true | _ => false end.
Definition is_in_initialized_state (h : mod_hdcp) : bool :=
  match current_state h with HDCP_INITIALIZED => true | _ => false end.

Definition is_display_active (d : mod_hdcp_display) : bool :=
  match d_state d with MOD_HDCP_DISPLAY_INACTIVE => false | _ => true end.
Definition is_display_encryption_enabled (d : mod_hdcp_display) : bool :=
  match d_state d with MOD_HDCP_DISPLAY_ENCRYPTION_ENABLED => true | _ => false end.

Definition get_active_display_count (h : mod_hdcp) : Z :=
  Z.of_nat (length (filter (fun d => is_display_active d = true) (displays h))).

(** The position of the first display that satisfies a test: the pointers the code
    passes around point into [displays]. *)
Fixpoint find_display (p : mod_hdcp_display -> bool) (l : list mod_hdcp_display) (i : nat) : option nat :=
  match l with
  | [] => None
  | d :: l => if p d then Some i else find_display p l (S i)
  end.
Definition get_first_active_display (h : mod_hdcp) : option nat := find_display is_display_active (displays h) 0.
Definition get_active_display_at_index (h : mod_hdcp) (index : Z) : option nat :=
  find_display (fun d => (d_index d =? index) && is_display_active d) (displays h) 0.
Definition get_empty_display_container (h : mod_hdcp) : option nat :=
  find_display (fun d => negb (is_display_active d)) (displays h) 0.

(** ** The state of a computation *)

Record hst (W : Type) := Hst {
  hd : mod_hdcp;
  ctx : mod_hdcp_event_context;
  outp : mod_hdcp_output;
  world : W
}.
Arguments Hst {W} hd ctx outp world.
Arguments hd {W} h.
Arguments ctx {W} h.
Arguments outp {W} h.
Arguments world {W} h.

Section Ops.
Context {W : Type}.
Abbreviation M := (stM (hst W)).

Definition get_hd : M mod_hdcp := st_gets hd.
Definition mod_hd (f : mod_hdcp -> mod_hdcp) : M unit := st_mod (fun s => Hst (f (hd s)) (ctx s) (outp s) (world s)).
Definition mod_out (f : mod_hdcp_output -> mod_hdcp_output) : M unit :=
  st_mod (fun s => Hst (hd s) (ctx s) (f (outp s)) (world s)).
Definition mod_ctx (f : mod_hdcp_event_context -> mod_hdcp_event_context) : M unit :=
  st_mod (fun s => Hst (hd s) (f (ctx s)) (outp s) (world s)).
Definition mod_conn (f : mod_hdcp_connection -> mod_hdcp_connection) : M unit :=
  mod_hd (fun h => set_connection (f (connection h)) h).
Definition mod_auth (f : mod_hdcp_authentication -> mod_hdcp_authentication) : M unit :=
  mod_hd (fun h => set_auth (f (auth h)) h).
Definition mod_adjust (f : mod_hdcp_link_adjustment -> mod_hdcp_link_adjustment) : M unit :=
  mod_conn (fun c => set_link (set_adjust (f (adjust (link c))) (link c)) c).
Definition mod_display (i : nat) (f : mod_hdcp_display -> mod_hdcp_display) : M unit :=
  mod_hd (fun h => set_displays (alter f i (displays h)) h).
Definition on_world {A} (f : W -> A * W) : M A := fun s =>
  let '(a, w) := f (world s) in Some (a, Hst (hd s) (ctx s) (outp s) w).
Definition get_input (k : input_field) : M trans_input_result := st_gets (fun s => trans_input (auth (hd s)) k).

(** ** Transition helpers (hdcp.h) *)

Definition set_state_id (id : state_id) : M unit :=
  mod_hd (set_state id 0) ;;
  mod_out (fun o => Output (callback_needed o) true (watchdog_timer_needed o) true (callback_delay o)
                      (watchdog_timer_delay o) (auth_complete o)).

Definition increment_stay_counter : M unit :=
  mod_hd (fun h => set_state (current_state h) (u32 (stay_count h + 1)) h).

Definition fail_and_restart_in_ms (time : Z) : M mod_hdcp_status :=
  mod_out (fun o => Output true (callback_stop o) false (watchdog_timer_stop o) time 0 (auth_complete o)) ;;
  st_ret MOD_HDCP_STATUS_RESET_NEEDED.

(** The argument is a [uint16_t]. *)
Definition callback_in_ms (time : Z) : M unit :=
  mod_out (fun o => Output true (callback_stop o) (watchdog_timer_needed o) (watchdog_timer_stop o) (wrap 16 time)
                      (watchdog_timer_delay o) (auth_complete o)).

Definition set_watchdog_in_ms (time : Z) : M unit :=
  mod_out (fun o => Output (callback_needed o) (callback_stop o) true (watchdog_timer_stop o) (callback_delay o)
                      time (auth_complete o)).

Definition set_auth_complete : M unit :=
  mod_out (fun o => Output (callback_needed o) (callback_stop o) (watchdog_timer_needed o) (watchdog_timer_stop o)
                      (callback_delay o) (watchdog_timer_delay o) true).

Definition reset_retry_counts : M unit := mod_conn (set_retries 0 0).

(** [func] is called, its verdict is kept in the field [flag] of the transition input. *)
Definition mod_hdcp_execute_and_set (func : M mod_hdcp_status) (flag : input_field) : M mod_hdcp_status :=
  status <- func ;;
  r <- get_input flag ;;
  (if success status && negb (passed r) then mod_auth (set_input flag PASS)
   else if negb (success status) && negb (failed r) then mod_auth (set_input flag FAIL)
   else st_ret tt) ;;
  st_ret status.

(** [if (!...) goto out;]: go on only after success. *)
Definition or_out (m : M mod_hdcp_status) (k : M mod_hdcp_status) : M mod_hdcp_status :=
  status <- m ;; if success status then k else st_ret status.

(** The guard at the head of every execution: other events are not expected. *)
Definition expects (ok : mod_hdcp_event -> bool) (k : M mod_hdcp_status) : M mod_hdcp_status :=
  c <- st_gets ctx ;;
  if ok (event c) then k
  else mod_ctx (fun c => EventCtx (event c) (rx_id_list_ready c) true) ;; st_ret MOD_HDCP_STATUS_SUCCESS.
End Ops.

Notation "m >>? k" := (or_out m k) (at level 60, right associativity) : st_scope.
