(* ===== verification/HdcpIo.v ===== *)
(** * HDCP: the display data channel

    Model of amd/display/modules/hdcp/hdcp_ddc.c, with the interface to the world outside
    the module. The functions of the display data
    channel and the submission of a command to the secure processor are the operations
    of [HdcpWorld]; a submission that is not executed leaves the shared buffer as the
    caller cleared it. An access outside an array of the message structure is a crash. *)

From stdpp Require Import list.
From Stdlib Require Import ZArith Lia.
From S2P Require Import Prelude Bytes Hdcp.
Open Scope st_scope.

(** ** Commands of the trusted applications (hdcp_psp.h) *)

Record msg_desc := MsgDesc { msg_id : Z; msg_len : Z }.

(** Input of the HDCP 2 message command: what to prepare, what to process. *)
Record process_prepare_in := ProcessPrepare {
  pp_session : Z;
  prepare_msg1_id : Z;
  prepare_msg2_id : Z;
  process_msg1 : msg_desc;
  process_msg2 : msg_desc;
  process_msg3 : msg_desc;
  receiver_message : list Z
}.

Inductive ta_hdcp_cmd : Type :=
| TA_HDCP1_CREATE_SESSION (display_handle : Z)
| TA_HDCP1_DESTROY_SESSION (session_handle : Z)
| TA_HDCP1_FIRST_PART_AUTHENTICATION (session_handle : Z) (bksv : list Z) (r0_prime bcaps : Z)
| TA_HDCP1_SECOND_PART_AUTHENTICATION (session_handle ksv_list_size : Z) (ksv_list v_prime : list Z) (bstatus_binfo : Z)
| TA_HDCP1_ENABLE_ENCRYPTION (session_handle : Z)
| TA_HDCP1_ENABLE_DP_STREAM_ENCRYPTION (session_handle display_handle : Z)
| TA_HDCP1_GET_ENCRYPTION_STATUS (session_handle : Z)
| TA_HDCP2_CREATE_SESSION_V2 (display_handle negotiate_content_type : Z)
| TA_HDCP2_DESTROY_SESSION (session_handle : Z)
| TA_HDCP2_PREPARE_PROCESS_AUTHENTICATION_MSG_V2 (m : process_prepare_in)
| TA_HDCP2_SET_ENCRYPTION (session_handle : Z)
| TA_HDCP2_ENABLE_DP_STREAM_ENCRYPTION (session_handle display_handle : Z).

(** The status and the output messages of the shared buffer. *)
Record ta_hdcp_out := TaOut {
  hdcp_status : Z;
  session_handle : Z;
  ainfo_primary : Z;
  aksv_primary : list Z;
  an_primary : list Z;
  authentication_status : Z;
  protection_level : Z;
  process_msg1_status : Z;
  process_msg2_status : Z;
  out_is_km_stored : Z;
  out_is_repeater : Z;
  prepare_msg1_size : Z;
  transmitter_message : list Z
}.

Definition TA_HDCP_STATUS__SUCCESS : Z := 0.
Definition TA_HDCP_AUTHENTICATION_STATUS__HDCP1_FIRST_PART_COMPLETE : Z := 2.
Definition TA_HDCP_AUTHENTICATION_STATUS__HDCP1_AUTHENTICATED : Z := 4.
Definition TA_HDCP_AUTHENTICATION_STATUS__HDCP1_KSV_REVOKED : Z := 10.
Definition TA_HDCP2_MSG_AUTHENTICATION_STATUS__SUCCESS : Z := 0.
Definition TA_HDCP2_MSG_AUTHENTICATION_STATUS__RECEIVERID_REVOKED : Z := 112.
Definition TA_HDCP_HDCP2_MSG_ID__NULL_MESSAGE : Z := 1.
Definition TA_HDCP_HDCP2_MSG_ID__AKE_INIT : Z := 2.
Definition TA_HDCP_HDCP2_MSG_ID__AKE_SEND_CERT : Z := 3.
Definition TA_HDCP_HDCP2_MSG_ID__AKE_NO_STORED_KM : Z := 4.
Definition TA_HDCP_HDCP2_MSG_ID__AKE_STORED_KM : Z := 5.
Definition TA_HDCP_HDCP2_MSG_ID__AKE_SEND_H_PRIME : Z := 7.
Definition TA_HDCP_HDCP2_MSG_ID__AKE_SEND_PAIRING_INFO : Z := 8.
Definition TA_HDCP_HDCP2_MSG_ID__LC_INIT : Z := 9.
Definition TA_HDCP_HDCP2_MSG_ID__LC_SEND_L_PRIME : Z := 10.
Definition TA_HDCP_HDCP2_MSG_ID__SKE_SEND_EKS : Z := 11.
Definition TA_HDCP_HDCP2_MSG_ID__REPEATERAUTH_SEND_RECEIVERID_LIST : Z := 12.
Definition TA_HDCP_HDCP2_MSG_ID__REPEATERAUTH_SEND_ACK : Z := 15.
Definition TA_HDCP_HDCP2_MSG_ID__REPEATERAUTH_STREAM_MANAGE : Z := 16.
Definition TA_HDCP_HDCP2_MSG_ID__REPEATERAUTH_STREAM_READY : Z := 17.
Definition TA_HDCP_HDCP2_MSG_ID__SIGNAL_CONTENT_STREAM_TYPE_DP : Z := 129.
Definition TA_HDCP_HDCP2_MSG_ID_MAX_SIZE__AKE_SEND_CERT : Z := 534.
Definition TA_HDCP_HDCP2_MSG_ID_MAX_SIZE__AKE_SEND_H_PRIME : Z := 33.
Definition TA_HDCP_HDCP2_MSG_ID_MAX_SIZE__AKE_SEND_PAIRING_INFO : Z := 17.
Definition TA_HDCP_HDCP2_MSG_ID_MAX_SIZE__LC_SEND_L_PRIME : Z := 33.
Definition TA_HDCP__HDCP2_TX_BUF_MAX_SIZE : Z := 129 + 33 + 6.
Definition TA_DTM_STATUS__SUCCESS : Z := 0.
Definition TA_DTM_STATUS__GENERIC_FAILURE : Z := 1.

(** The buffer after [memset(hdcp_cmd, 0, sizeof(...))]. *)
Definition ta_out_zero : ta_hdcp_out :=
  TaOut 0 0 0 (replicate 5 0) (replicate 8 0) 0 0 0 0 0 0 0
    (replicate (Z.to_nat TA_HDCP__HDCP2_TX_BUF_MAX_SIZE) 0).

(** A topology update: the display and its state, with the description of its
    connection when it is added. *)
Inductive ta_dtm_cmd : Type :=
| TA_DTM_REMOVE_V2 (display_handle : Z)
| TA_DTM_REMOVE_V3 (display_handle : Z)
| TA_DTM_ADD_V2 (display : mod_hdcp_display) (l : mod_hdcp_link)
| TA_DTM_ADD_V3 (display : mod_hdcp_display) (l : mod_hdcp_link).

(** ** The world outside

    A read returns whether it succeeded and the bytes it stored; the secure processor
    returns the buffer it wrote, or [None] when the command was not executed. *)
Class HdcpWorld (W : Type) := {
  read_dpcd : Z -> Z -> W -> (bool * list Z) * W;
  read_i2c : Z -> Z -> Z -> W -> (bool * list Z) * W;
  write_dpcd : Z -> list Z -> W -> bool * W;
  write_i2c : Z -> list Z -> W -> bool * W;
  atomic_write_poll_read_i2c : list Z -> Z -> list Z -> Z -> Z -> W -> (bool * list Z) * W;
  atomic_write_poll_read_aux : Z -> list Z -> Z -> Z -> W -> (bool * list Z) * W;
  psp_ta_invoke_hdcp : ta_hdcp_cmd -> W -> option ta_hdcp_out * W;
  psp_ta_invoke_dtm : ta_dtm_cmd -> W -> option Z * W;
  sriov_vf : W -> bool;
  hdcp_ta_initialized : W -> bool;
  dtm_ta_initialized : W -> bool
}.

(** ** Addresses (hdcp_ddc.c) *)

Inductive ddc_message_id : Type :=
| READ_BKSV | READ_RI_R0 | WRITE_AKSV | WRITE_AINFO | WRITE_AN
| READ_VH_0 | READ_VH_1 | READ_VH_2 | READ_VH_3 | READ_VH_4
| READ_BCAPS | READ_BSTATUS | READ_KSV_FIFO | READ_BINFO
| HDCP2VERSION | RX_CAPS | WRITE_AKE_INIT | READ_AKE_SEND_CERT | WRITE_AKE_NO_STORED_KM | WRITE_AKE_STORED_KM
| READ_AKE_SEND_H_PRIME | READ_AKE_SEND_PAIRING_INFO | WRITE_LC_INIT | READ_LC_SEND_L_PRIME | WRITE_SKE_SEND_EKS
| READ_REPEATER_AUTH_SEND_RECEIVERID_LIST | READ_REPEATER_AUTH_SEND_RECEIVERID_LIST_PART2
| WRITE_REPEATER_AUTH_SEND_ACK | WRITE_REPEATER_AUTH_STREAM_MANAGE | READ_REPEATER_AUTH_STREAM_READY
| READ_RXSTATUS | WRITE_CONTENT_STREAM_TYPE.

Definition hdcp_i2c_offsets (m : ddc_message_id) : Z :=
  match m with
  | READ_BKSV => 0x0 | READ_RI_R0 => 0x8 | WRITE_AKSV => 0x10 | WRITE_AINFO => 0x15 | WRITE_AN => 0x18
  | READ_VH_0 => 0x20 | READ_VH_1 => 0x24 | READ_VH_2 => 0x28 | READ_VH_3 => 0x2C | READ_VH_4 => 0x30
  | READ_BCAPS => 0x40 | READ_BSTATUS => 0x41 | READ_KSV_FIFO => 0x43 | READ_BINFO => 0xFF | HDCP2VERSION => 0x50
  | RX_CAPS => 0
  | WRITE_AKE_INIT | WRITE_AKE_NO_STORED_KM | WRITE_AKE_STORED_KM | WRITE_LC_INIT | WRITE_SKE_SEND_EKS
  | WRITE_REPEATER_AUTH_SEND_ACK | WRITE_REPEATER_AUTH_STREAM_MANAGE => 0x60
  | READ_AKE_SEND_CERT | READ_AKE_SEND_H_PRIME | READ_AKE_SEND_PAIRING_INFO | READ_LC_SEND_L_PRIME
  | READ_REPEATER_AUTH_SEND_RECEIVERID_LIST | READ_REPEATER_AUTH_SEND_RECEIVERID_LIST_PART2
  | READ_REPEATER_AUTH_STREAM_READY => 0x80
  | READ_RXSTATUS => 0x70 | WRITE_CONTENT_STREAM_TYPE => 0x0
  end.

Definition hdcp_dpcd_addrs (m : ddc_message_id) : Z :=
  match m with
  | READ_BKSV => 0x68000 | READ_RI_R0 => 0x68005 | WRITE_AKSV => 0x68007 | WRITE_AINFO => 0x6803B
  | WRITE_AN => 0x6800c | READ_VH_0 => 0x68014 | READ_VH_1 => 0x68018 | READ_VH_2 => 0x6801c | READ_VH_3 => 0x68020
  | READ_VH_4 => 0x68024 | READ_BCAPS => 0x68028 | READ_BSTATUS => 0x68029 | READ_KSV_FIFO => 0x6802c
  | READ_BINFO => 0x6802a | HDCP2VERSION => 0 | RX_CAPS => 0x6921d | WRITE_AKE_INIT => 0x69000
  | READ_AKE_SEND_CERT => 0x6900b | WRITE_AKE_NO_STORED_KM => 0x69220 | WRITE_AKE_STORED_KM => 0x692a0
  | READ_AKE_SEND_H_PRIME => 0x692c0 | READ_AKE_SEND_PAIRING_INFO => 0x692e0 | WRITE_LC_INIT => 0x692f0
  | READ_LC_SEND_L_PRIME => 0x692f8 | WRITE_SKE_SEND_EKS => 0x69318
  | READ_REPEATER_AUTH_SEND_RECEIVERID_LIST => 0x69330
  | READ_REPEATER_AUTH_SEND_RECEIVERID_LIST_PART2 => 0x69340 | WRITE_REPEATER_AUTH_SEND_ACK => 0x693e0
  | WRITE_REPEATER_AUTH_STREAM_MANAGE => 0x693f0 | READ_REPEATER_AUTH_STREAM_READY => 0x69473
  | READ_RXSTATUS => 0x69493 | WRITE_CONTENT_STREAM_TYPE => 0x69494
  end.

Definition HDCP_I2C_ADDR : Z := 0x3a.
Definition KSV_READ_SIZE : Z := 0xf.
Definition HDCP_MAX_AUX_TRANSACTION_SIZE : Z := 16.
Definition HDCP_BUF_SIZE : Z := 2025.
Definition HDCP_2_2_AKE_SEND_CERT : Z := 3.
Definition HDCP_2_2_AKE_SEND_HPRIME : Z := 7.
Definition HDCP_2_2_AKE_SEND_PAIRING_INFO : Z := 8.
Definition HDCP_2_2_LC_SEND_LPRIME : Z := 10.
Definition HDCP_2_2_REP_SEND_RECVID_LIST : Z := 12.
Definition HDCP_2_2_REP_STREAM_READY : Z := 17.
Definition HDCP_2_2_DEV_COUNT_LO (x : Z) : Z := Z.shiftr (Z.land x 0xF0) 4.
Definition HDCP_2_2_DEV_COUNT_HI (x : Z) : Z := Z.land x 1.
Definition DP_CP_IRQ : Z := 4.
Definition DP_DEVICE_SERVICE_IRQ_VECTOR : Z := 0x201.
Definition DP_DEVICE_SERVICE_IRQ_VECTOR_ESI0 : Z := 0x2003.

(** ** Messages as arrays of bytes *)

(** [memcpy(l + off, bs, length bs)] *)
Definition splice (off : nat) (bs l : list Z) : list Z := take off l ++ bs ++ drop (off + length bs) l.

Definition in_field (f : msg_field) (off n : Z) : bool := (0 <=? off) && (0 <=? n) && (off + n <=? msg_size f).

Definition status_of (success : bool) : mod_hdcp_status :=
  if success then MOD_HDCP_STATUS_SUCCESS else MOD_HDCP_STATUS_DDC_FAILURE.

Section Io.
Context {W : Type} `{!HdcpWorld W}.
Abbreviation M := (stM (hst W)).

Definition get_msg (f : msg_field) : M (list Z) := st_gets (fun s => msg (auth (hd s)) f).
Definition get_int (f : msg_field) : M Z := st_gets (fun s => le_combine (msg (auth (hd s)) f)).
Definition get_byte (f : msg_field) (i : nat) : M Z := st_gets (fun s => nth i (msg (auth (hd s)) f) 0).

(** The bytes that arrived for a request of [n] bytes at [f + off]. *)
Definition msg_store (f : msg_field) (off n : Z) (bs : list Z) : M unit :=
  if in_field f off n then
    mod_auth (fun a => set_msg f (splice (Z.to_nat off) (u8 <$> take (Z.to_nat n) bs) (msg a f)) a)
  else st_bug.
Definition msg_load (f : msg_field) (off n : Z) : M (list Z) :=
  if in_field f off n then st_gets (fun s => take (Z.to_nat n) (drop (Z.to_nat off) (msg (auth (hd s)) f)))
  else st_bug.
Definition put_msg (f : msg_field) (bs : list Z) : M unit :=
  mod_auth (set_msg f (u8 <$> resize (Z.to_nat (msg_size f)) 0 bs)).
Definition put_int (f : msg_field) (z : Z) : M unit :=
  mod_auth (set_msg f (le_split (Z.to_nat (msg_size f)) z)).

(** ** The display data channel (hdcp_ddc.c) *)

(** The loops advance by at least one byte inside the array or end in a crash: the
    size of the array is enough fuel. *)
Definition io_fuel (f : msg_field) : nat := S (Z.to_nat (msg_size f)).

(** [read] on DisplayPort, and the repeated [read] at one address. *)
Fixpoint read_loop (fuel : nat) (addr : Z) (f : msg_field) (off data_offset buf_len : Z) : M bool :=
  if buf_len =? 0 then st_ret true else
  match fuel with
  | O => st_bug
  | S fuel =>
    let cur_size := Z.min buf_len HDCP_MAX_AUX_TRANSACTION_SIZE in
    r <- on_world (read_dpcd (u32 (addr + data_offset)) cur_size) ;;
    msg_store f (off + data_offset) cur_size (snd r) ;;
    if fst r then read_loop fuel addr f off (data_offset + cur_size) (buf_len - cur_size) else st_ret false
  end.

Definition read (m : ddc_message_id) (f : msg_field) (off buf_len : Z) : M mod_hdcp_status :=
  h <- get_hd ;;
  if is_dp_hdcp h then
    success <- read_loop (io_fuel f) (hdcp_dpcd_addrs m) f off 0 buf_len ;; st_ret (status_of success)
  else
    r <- on_world (read_i2c HDCP_I2C_ADDR (hdcp_i2c_offsets m) buf_len) ;;
    msg_store f off buf_len (snd r) ;;
    st_ret (status_of (fst r)).

Fixpoint read_repeatedly_loop (fuel : nat) (m : ddc_message_id) (f : msg_field) (data_offset buf_len read_size : Z)
    (status : mod_hdcp_status) : M mod_hdcp_status :=
  if buf_len =? 0 then st_ret status else
  match fuel with
  | O => st_bug
  | S fuel =>
    let cur_size := Z.min buf_len read_size in
    status <- read m f data_offset cur_size ;;
    if success status
    then read_repeatedly_loop fuel m f (data_offset + cur_size) (buf_len - cur_size) read_size status
    else st_ret status
  end.
Definition read_repeatedly (m : ddc_message_id) (f : msg_field) (buf_len read_size : Z) : M mod_hdcp_status :=
  read_repeatedly_loop (io_fuel f) m f 0 buf_len read_size MOD_HDCP_STATUS_DDC_FAILURE.

Fixpoint write_loop (fuel : nat) (addr : Z) (f : msg_field) (off data_offset buf_len : Z) : M bool :=
  if buf_len =? 0 then st_ret true else
  match fuel with
  | O => st_bug
  | S fuel =>
    let cur_size := Z.min buf_len HDCP_MAX_AUX_TRANSACTION_SIZE in
    bs <- msg_load f (off + data_offset) cur_size ;;
    success <- on_world (write_dpcd (u32 (addr + data_offset)) bs) ;;
    if success : bool then write_loop fuel addr f off (data_offset + cur_size) (buf_len - cur_size) else st_ret false
  end.

(** The I2C write goes through [hdcp->buf], which holds the offset and the message. *)
Definition write (m : ddc_message_id) (f : msg_field) (off buf_len : Z) : M mod_hdcp_status :=
  h <- get_hd ;;
  if is_dp_hdcp h then
    success <- write_loop (io_fuel f) (hdcp_dpcd_addrs m) f off 0 buf_len ;; st_ret (status_of success)
  else
    bs <- msg_load f off buf_len ;;
    BUG_ON (HDCP_BUF_SIZE <? buf_len + 1) ;;
    success <- on_world (write_i2c HDCP_I2C_ADDR (hdcp_i2c_offsets m :: bs)) ;;
    st_ret (status_of success).

(** A message: on DisplayPort its first byte, the message id, is not transferred. *)
Definition read_msg (m : ddc_message_id) (f : msg_field) (id : Z) : M mod_hdcp_status :=
  h <- get_hd ;;
  if is_dp_hdcp h then msg_store f 0 1 [id] ;; read m f 1 (msg_size f - 1) else read m f 0 (msg_size f).
Definition write_msg (m : ddc_message_id) (f : msg_field) : M mod_hdcp_status :=
  h <- get_hd ;;
  if is_dp_hdcp h then write m f 1 (msg_size f - 1) else write m f 0 (msg_size f).

Definition mod_hdcp_read_bksv : M mod_hdcp_status := read READ_BKSV m1_bksv 0 (msg_size m1_bksv).
Definition mod_hdcp_read_bcaps : M mod_hdcp_status := read READ_BCAPS m1_bcaps 0 (msg_size m1_bcaps).
Definition mod_hdcp_read_bstatus : M mod_hdcp_status :=
  h <- get_hd ;;
  if is_dp_hdcp h then read READ_BSTATUS m1_bstatus 0 1 else read READ_BSTATUS m1_bstatus 0 (msg_size m1_bstatus).
Definition mod_hdcp_read_r0p : M mod_hdcp_status := read READ_RI_R0 m1_r0p 0 (msg_size m1_r0p).
Definition mod_hdcp_read_ksvlist : M mod_hdcp_status :=
  h <- get_hd ;;
  size <- get_int m1_ksvlist_size ;;
  if is_dp_hdcp h then read_repeatedly READ_KSV_FIFO m1_ksvlist size KSV_READ_SIZE
  else read READ_KSV_FIFO m1_ksvlist 0 size.
Definition mod_hdcp_read_vp : M mod_hdcp_status :=
  read READ_VH_0 m1_vp 0 4 >>? read READ_VH_1 m1_vp 4 4 >>? read READ_VH_2 m1_vp 8 4 >>?
  read READ_VH_3 m1_vp 12 4 >>? read READ_VH_4 m1_vp 16 4.
Definition mod_hdcp_read_binfo : M mod_hdcp_status :=
  h <- get_hd ;;
  if is_dp_hdcp h then read READ_BINFO m1_binfo_dp 0 (msg_size m1_binfo_dp)
  else st_ret MOD_HDCP_STATUS_INVALID_OPERATION.
Definition mod_hdcp_write_aksv : M mod_hdcp_status := write WRITE_AKSV m1_aksv 0 (msg_size m1_aksv).
Definition mod_hdcp_write_ainfo : M mod_hdcp_status := write WRITE_AINFO m1_ainfo 0 (msg_size m1_ainfo).
Definition mod_hdcp_write_an : M mod_hdcp_status := write WRITE_AN m1_an 0 (msg_size m1_an).

Definition mod_hdcp_read_hdcp2version : M mod_hdcp_status :=
  h <- get_hd ;;
  if is_dp_hdcp h then st_ret MOD_HDCP_STATUS_INVALID_OPERATION
  else read HDCP2VERSION m2_hdcp2version_hdmi 0 (msg_size m2_hdcp2version_hdmi).
Definition mod_hdcp_read_rxcaps : M mod_hdcp_status :=
  h <- get_hd ;;
  if negb (is_dp_hdcp h) then st_ret MOD_HDCP_STATUS_INVALID_OPERATION
  else read RX_CAPS m2_rxcaps_dp 0 (msg_size m2_rxcaps_dp).
Definition mod_hdcp_read_rxstatus : M mod_hdcp_status :=
  h <- get_hd ;;
  if is_dp_hdcp h then read READ_RXSTATUS m2_rxstatus_dp 0 1
  else read READ_RXSTATUS m2_rxstatus 0 (msg_size m2_rxstatus).
Definition mod_hdcp_read_ake_cert : M mod_hdcp_status :=
  read_msg READ_AKE_SEND_CERT m2_ake_cert HDCP_2_2_AKE_SEND_CERT.
Definition mod_hdcp_read_h_prime : M mod_hdcp_status :=
  read_msg READ_AKE_SEND_H_PRIME m2_ake_h_prime HDCP_2_2_AKE_SEND_HPRIME.
Definition mod_hdcp_read_pairing_info : M mod_hdcp_status :=
  read_msg READ_AKE_SEND_PAIRING_INFO m2_ake_pairing_info HDCP_2_2_AKE_SEND_PAIRING_INFO.
Definition mod_hdcp_read_l_prime : M mod_hdcp_status :=
  read_msg READ_LC_SEND_L_PRIME m2_lc_l_prime HDCP_2_2_LC_SEND_LPRIME.

Definition mod_hdcp_read_rx_id_list : M mod_hdcp_status :=
  h <- get_hd ;;
  if is_dp_hdcp h then
    msg_store m2_rx_id_list 0 1 [HDCP_2_2_REP_SEND_RECVID_LIST] ;;
    status <- read READ_REPEATER_AUTH_SEND_RECEIVERID_LIST m2_rx_id_list 1 HDCP_MAX_AUX_TRANSACTION_SIZE ;;
    if success status then
      let bytes_read := HDCP_MAX_AUX_TRANSACTION_SIZE in
      b1 <- get_byte m2_rx_id_list 1 ;;
      b2 <- get_byte m2_rx_id_list 2 ;;
      let device_count := HDCP_2_2_DEV_COUNT_LO b2 + Z.shiftl (HDCP_2_2_DEV_COUNT_HI b1) 4 in
      let rx_id_list_size := Z.min (21 + 5 * device_count) (msg_size m2_rx_id_list - 1) in
      read READ_REPEATER_AUTH_SEND_RECEIVERID_LIST_PART2 m2_rx_id_list (1 + bytes_read)
        ((rx_id_list_size - 1) / HDCP_MAX_AUX_TRANSACTION_SIZE * HDCP_MAX_AUX_TRANSACTION_SIZE)
    else st_ret status
  else
    size <- get_int m2_rx_id_list_size ;;
    read READ_REPEATER_AUTH_SEND_RECEIVERID_LIST m2_rx_id_list 0 size.

Definition mod_hdcp_read_stream_ready : M mod_hdcp_status :=
  read_msg READ_REPEATER_AUTH_STREAM_READY m2_repeater_auth_stream_ready HDCP_2_2_REP_STREAM_READY.

Definition mod_hdcp_write_ake_init : M mod_hdcp_status := write_msg WRITE_AKE_INIT m2_ake_init.
Definition mod_hdcp_write_no_stored_km : M mod_hdcp_status := write_msg WRITE_AKE_NO_STORED_KM m2_ake_no_stored_km.
Definition mod_hdcp_write_stored_km : M mod_hdcp_status := write_msg WRITE_AKE_STORED_KM m2_ake_stored_km.
Definition mod_hdcp_write_lc_init : M mod_hdcp_status := write_msg WRITE_LC_INIT m2_lc_init.
Definition mod_hdcp_write_eks : M mod_hdcp_status := write_msg WRITE_SKE_SEND_EKS m2_ske_eks.
Definition mod_hdcp_write_repeater_auth_ack : M mod_hdcp_status :=
  write_msg WRITE_REPEATER_AUTH_SEND_ACK m2_repeater_auth_ack.
(** The length is an [uint32_t]: the 16-bit size 0 becomes the length 0xffffffff. *)
Definition mod_hdcp_write_stream_manage : M mod_hdcp_status :=
  h <- get_hd ;;
  size <- get_int m2_stream_manage_size ;;
  if is_dp_hdcp h then write WRITE_REPEATER_AUTH_STREAM_MANAGE m2_repeater_auth_stream_manage 1 (u32 (size - 1))
  else write WRITE_REPEATER_AUTH_STREAM_MANAGE m2_repeater_auth_stream_manage 0 size.
Definition mod_hdcp_write_content_type : M mod_hdcp_status :=
  h <- get_hd ;;
  if is_dp_hdcp h
  then write WRITE_CONTENT_STREAM_TYPE m2_content_stream_type_dp 1 (msg_size m2_content_stream_type_dp - 1)
  else st_ret MOD_HDCP_STATUS_INVALID_OPERATION.

Definition mod_hdcp_clear_cp_irq_status : M mod_hdcp_status :=
  h <- get_hd ;;
  if is_dp_hdcp h then
    let cp_irq_addrs := if 0x14 <=? dp_rev (dp (link (connection h)))
                        then DP_DEVICE_SERVICE_IRQ_VECTOR_ESI0 else DP_DEVICE_SERVICE_IRQ_VECTOR in
    success <- on_world (write_dpcd cp_irq_addrs [DP_CP_IRQ]) ;; st_ret (status_of success)
  else st_ret MOD_HDCP_STATUS_INVALID_OPERATION.

Definition write_stall_read_lc_fw_aux : M bool :=
  lc <- msg_load m2_lc_init 1 (msg_size m2_lc_init - 1) ;;
  msg_store m2_lc_l_prime 0 1 [HDCP_2_2_LC_SEND_LPRIME] ;;
  r <- on_world (atomic_write_poll_read_aux (hdcp_dpcd_addrs WRITE_LC_INIT) lc
         (hdcp_dpcd_addrs READ_LC_SEND_L_PRIME) (msg_size m2_lc_l_prime - 1)) ;;
  msg_store m2_lc_l_prime 1 (msg_size m2_lc_l_prime - 1) (snd r) ;;
  st_ret (fst r).
Definition write_poll_read_lc_fw_i2c : M bool :=
  let expected_rxstatus := [msg_size m2_lc_l_prime; 0] in
  lc <- msg_load m2_lc_init 0 (msg_size m2_lc_init) ;;
  r <- on_world (atomic_write_poll_read_i2c (hdcp_i2c_offsets WRITE_LC_INIT :: lc)
         (hdcp_i2c_offsets READ_RXSTATUS) expected_rxstatus
         (hdcp_i2c_offsets READ_LC_SEND_L_PRIME) (msg_size m2_lc_l_prime)) ;;
  msg_store m2_lc_l_prime 0 (msg_size m2_lc_l_prime) (snd r) ;;
  st_ret (fst r).
Definition mod_hdcp_write_poll_read_lc_fw : M mod_hdcp_status :=
  h <- get_hd ;;
  success <- (if is_dp_hdcp h then write_stall_read_lc_fw_aux else write_poll_read_lc_fw_i2c) ;;
  st_ret (status_of success).
End Io.
