(* ===== verification/HdcpPsp.v ===== *)
(** * HDCP: the trusted application

    Model of amd/display/modules/hdcp/hdcp_psp.c, with psp_hdcp_invoke and psp_dtm_invoke
    of amd/amdgpu/amdgpu_psp.c. Every function clears the shared buffer, fills in a
    command, submits it without looking at the result of the submission and reads the
    buffer back. Arrays of the buffer have fixed sizes ([resize]). *)

From stdpp Require Import list.
From Stdlib Require Import ZArith Lia.
From S2P Require Import Prelude Bytes Hdcp HdcpIo.
Open Scope st_scope.

Section Psp.
Context {W : Type} `{!HdcpWorld W}.
Abbreviation M := (stM (hst W)).

(** Not executed: the buffer keeps the zeros of the [memset]. *)
Definition psp_hdcp_invoke (cmd : ta_hdcp_cmd) (w : W) : ta_hdcp_out * W :=
  if sriov_vf w then (ta_out_zero, w)
  else if negb (hdcp_ta_initialized w) then (ta_out_zero, w)
  else let '(r, w) := psp_ta_invoke_hdcp cmd w in (default ta_out_zero r, w).

(** The status of the topology buffer is a failure before the submission. *)
Definition psp_dtm_invoke (cmd : ta_dtm_cmd) (w : W) : Z * W :=
  if sriov_vf w then (TA_DTM_STATUS__GENERIC_FAILURE, w)
  else if negb (dtm_ta_initialized w) then (TA_DTM_STATUS__GENERIC_FAILURE, w)
  else let '(r, w) := psp_ta_invoke_dtm cmd w in (default TA_DTM_STATUS__GENERIC_FAILURE r, w).

Definition ta (cmd : Z -> ta_hdcp_cmd) : M ta_hdcp_out :=
  h <- get_hd ;; on_world (psp_hdcp_invoke (cmd (auth_id (auth h)))).
Definition ta_ok (o : ta_hdcp_out) : bool := hdcp_status o =? TA_HDCP_STATUS__SUCCESS.

Definition display_at (i : nat) : M mod_hdcp_display :=
  h <- get_hd ;; st_of_option (displays h !! i).

(** ** Display topology *)

Definition remove_display_from_topology_v2 (index : Z) : M mod_hdcp_status :=
  h <- get_hd ;;
  match get_active_display_at_index h index with
  | None => st_ret MOD_HDCP_STATUS_DISPLAY_NOT_FOUND
  | Some i =>
    d <- display_at i ;;
    dtm_status <- on_world (psp_dtm_invoke (TA_DTM_REMOVE_V2 (d_index d))) ;;
    if negb (dtm_status =? TA_DTM_STATUS__SUCCESS) then st_ret MOD_HDCP_STATUS_UPDATE_TOPOLOGY_FAILURE
    else mod_display i (set_display_state MOD_HDCP_DISPLAY_ACTIVE) ;; st_ret MOD_HDCP_STATUS_SUCCESS
  end.

Definition remove_display_from_topology_v3 (index : Z) : M mod_hdcp_status :=
  h <- get_hd ;;
  match get_active_display_at_index h index with
  | None => st_ret MOD_HDCP_STATUS_DISPLAY_NOT_FOUND
  | Some i =>
    d <- display_at i ;;
    dtm_status <- on_world (psp_dtm_invoke (TA_DTM_REMOVE_V3 (d_index d))) ;;
    if negb (dtm_status =? TA_DTM_STATUS__SUCCESS) then
      status <- remove_display_from_topology_v2 index ;;
      st_when (negb (success status)) (mod_display i (set_display_state MOD_HDCP_DISPLAY_INACTIVE)) ;;
      st_ret status
    else mod_display i (set_display_state MOD_HDCP_DISPLAY_ACTIVE) ;; st_ret MOD_HDCP_STATUS_SUCCESS
  end.

Definition add_display_to_topology_v2 (i : nat) : M mod_hdcp_status :=
  initialized <- st_gets (fun s => dtm_ta_initialized (world s)) ;;
  if negb initialized then
    mod_display i (set_display_state MOD_HDCP_DISPLAY_INACTIVE) ;; st_ret MOD_HDCP_STATUS_FAILURE
  else
    h <- get_hd ;;
    d <- display_at i ;;
    dtm_status <- on_world (psp_dtm_invoke (TA_DTM_ADD_V2 d (link (connection h)))) ;;
    if negb (dtm_status =? TA_DTM_STATUS__SUCCESS) then
      mod_display i (set_display_state MOD_HDCP_DISPLAY_INACTIVE) ;; st_ret MOD_HDCP_STATUS_UPDATE_TOPOLOGY_FAILURE
    else st_ret MOD_HDCP_STATUS_SUCCESS.

Definition add_display_to_topology_v3 (i : nat) : M mod_hdcp_status :=
  initialized <- st_gets (fun s => dtm_ta_initialized (world s)) ;;
  if negb initialized then
    mod_display i (set_display_state MOD_HDCP_DISPLAY_INACTIVE) ;; st_ret MOD_HDCP_STATUS_FAILURE
  else
    h <- get_hd ;;
    d <- display_at i ;;
    dtm_status <- on_world (psp_dtm_invoke (TA_DTM_ADD_V3 d (link (connection h)))) ;;
    if negb (dtm_status =? TA_DTM_STATUS__SUCCESS) then
      status <- add_display_to_topology_v2 i ;;
      st_when (negb (success status)) (mod_display i (set_display_state MOD_HDCP_DISPLAY_INACTIVE)) ;;
      st_ret status
    else st_ret MOD_HDCP_STATUS_SUCCESS.

Definition mod_hdcp_remove_display_from_topology (index : Z) : M mod_hdcp_status :=
  h <- get_hd ;;
  if dtm_v3_supported (config h) then remove_display_from_topology_v3 index
  else remove_display_from_topology_v2 index.

Definition mod_hdcp_add_display_to_topology (i : nat) : M mod_hdcp_status :=
  h <- get_hd ;;
  if dtm_v3_supported (config h) then add_display_to_topology_v3 i else add_display_to_topology_v2 i.

(** ** HDCP 1 *)

(** The first active display is dereferenced without a check. *)
Definition mod_hdcp_hdcp1_create_session : M mod_hdcp_status :=
  initialized <- st_gets (fun s => hdcp_ta_initialized (world s)) ;;
  if negb initialized then st_ret MOD_HDCP_STATUS_FAILURE else
  h <- get_hd ;;
  i <- st_of_option (get_first_active_display h) ;;
  d <- display_at i ;;
  o <- ta (fun _ => TA_HDCP1_CREATE_SESSION (d_index d)) ;;
  mod_auth (set_auth_id (session_handle o)) ;;
  if negb (ta_ok o) then st_ret MOD_HDCP_STATUS_HDCP1_CREATE_SESSION_FAILURE
  else
    put_msg m1_ainfo [ainfo_primary o] ;;
    put_msg m1_aksv (aksv_primary o) ;;
    put_msg m1_an (an_primary o) ;;
    st_ret MOD_HDCP_STATUS_SUCCESS.

(** Both destroy functions end the encryption of every display. *)
Definition disable_encryption (d : mod_hdcp_display) : mod_hdcp_display :=
  if is_display_encryption_enabled d then set_display_state MOD_HDCP_DISPLAY_ACTIVE d else d.

Definition mod_hdcp_hdcp1_destroy_session : M mod_hdcp_status :=
  o <- ta TA_HDCP1_DESTROY_SESSION ;;
  if negb (ta_ok o) then st_ret MOD_HDCP_STATUS_HDCP1_DESTROY_SESSION_FAILURE
  else mod_hd (fun h => set_displays (disable_encryption <$> displays h) h) ;; st_ret MOD_HDCP_STATUS_SUCCESS.

Definition mod_hdcp_hdcp1_validate_rx : M mod_hdcp_status :=
  bksv <- get_msg m1_bksv ;;
  r0p <- get_int m1_r0p ;;
  bcaps <- get_int m1_bcaps ;;
  o <- ta (fun id => TA_HDCP1_FIRST_PART_AUTHENTICATION id bksv r0p bcaps) ;;
  if negb (ta_ok o) then st_ret MOD_HDCP_STATUS_HDCP1_VALIDATE_RX_FAILURE
  else if authentication_status o =? TA_HDCP_AUTHENTICATION_STATUS__HDCP1_FIRST_PART_COMPLETE then
    mod_conn (fun c => set_rx true (is_km_stored c) c) ;; st_ret MOD_HDCP_STATUS_SUCCESS
  else if authentication_status o =? TA_HDCP_AUTHENTICATION_STATUS__HDCP1_AUTHENTICATED then
    mod_conn (fun c => set_rx false (is_km_stored c) c) ;; st_ret MOD_HDCP_STATUS_SUCCESS
  else if authentication_status o =? TA_HDCP_AUTHENTICATION_STATUS__HDCP1_KSV_REVOKED then
    mod_conn (fun c => set_revoked true (is_hdcp2_revoked c) c) ;; st_ret MOD_HDCP_STATUS_HDCP1_BKSV_REVOKED
  else st_ret MOD_HDCP_STATUS_HDCP1_VALIDATE_RX_FAILURE.

Definition mod_hdcp_hdcp1_enable_encryption : M mod_hdcp_status :=
  h <- get_hd ;;
  match get_first_active_display h with
  | None => st_ret MOD_HDCP_STATUS_DISPLAY_NOT_FOUND
  | Some i =>
    o <- ta TA_HDCP1_ENABLE_ENCRYPTION ;;
    if negb (ta_ok o) then st_ret MOD_HDCP_STATUS_HDCP1_ENABLE_ENCRYPTION_FAILURE
    else
      st_when (negb (is_dp_mst_hdcp h)) (mod_display i (set_display_state MOD_HDCP_DISPLAY_ENCRYPTION_ENABLED)) ;;
      st_ret MOD_HDCP_STATUS_SUCCESS
  end.

Definition mod_hdcp_hdcp1_validate_ksvlist_vp : M mod_hdcp_status :=
  h <- get_hd ;;
  size <- get_int m1_ksvlist_size ;;
  ksvlist <- msg_load m1_ksvlist 0 size ;;
  vp <- get_msg m1_vp ;;
  bstatus_binfo <- get_int (if is_dp_hdcp h then m1_binfo_dp else m1_bstatus) ;;
  o <- ta (fun id => TA_HDCP1_SECOND_PART_AUTHENTICATION id size ksvlist vp bstatus_binfo) ;;
  if ta_ok o && (authentication_status o =? TA_HDCP_AUTHENTICATION_STATUS__HDCP1_AUTHENTICATED)
  then st_ret MOD_HDCP_STATUS_SUCCESS
  else if authentication_status o =? TA_HDCP_AUTHENTICATION_STATUS__HDCP1_KSV_REVOKED then
    mod_conn (fun c => set_revoked true (is_hdcp2_revoked c) c) ;; st_ret MOD_HDCP_STATUS_HDCP1_KSV_LIST_REVOKED
  else st_ret MOD_HDCP_STATUS_HDCP1_VALIDATE_KSV_LIST_FAILURE.

(** The stream encryption loops: [i] counts up to the number of displays, [n] down. A
    display that needs no authentication or is not just active is skipped. *)
Fixpoint enable_stream_loop (cmd : Z -> Z -> ta_hdcp_cmd) (failure : mod_hdcp_status) (n i : nat)
    : M mod_hdcp_status :=
  match n with
  | O => st_ret MOD_HDCP_STATUS_SUCCESS
  | S n =>
    d <- display_at i ;;
    match d_state d with
    | MOD_HDCP_DISPLAY_ACTIVE =>
      if negb (adj_disable (d_adjust d) =? 0) then enable_stream_loop cmd failure n (S i)
      else
        o <- ta (fun id => cmd id (d_index d)) ;;
        if negb (ta_ok o) then st_ret failure
        else
          mod_display i (set_display_state MOD_HDCP_DISPLAY_ENCRYPTION_ENABLED) ;;
          enable_stream_loop cmd failure n (S i)
    | _ => enable_stream_loop cmd failure n (S i)
    end
  end.

Definition mod_hdcp_hdcp1_enable_dp_stream_encryption : M mod_hdcp_status :=
  enable_stream_loop TA_HDCP1_ENABLE_DP_STREAM_ENCRYPTION MOD_HDCP_STATUS_HDCP1_ENABLE_STREAM_ENCRYPTION_FAILURE
    (Z.to_nat MAX_NUM_OF_DISPLAYS) 0.

Definition mod_hdcp_hdcp1_link_maintenance : M mod_hdcp_status :=
  o <- ta TA_HDCP1_GET_ENCRYPTION_STATUS ;;
  st_ret (if negb (ta_ok o) || negb (protection_level o =? 1)
          then MOD_HDCP_STATUS_HDCP1_LINK_MAINTENANCE_FAILURE else MOD_HDCP_STATUS_SUCCESS).

(** ** HDCP 2 *)

Definition negotiate_content_type (force_type : Z) : Z :=
  if force_type =? MOD_HDCP_FORCE_TYPE_0 then 1
  else if force_type =? MOD_HDCP_FORCE_TYPE_1 then 2
  else if force_type =? MOD_HDCP_FORCE_TYPE_MAX then 3 else 0.

Definition mod_hdcp_hdcp2_create_session : M mod_hdcp_status :=
  initialized <- st_gets (fun s => hdcp_ta_initialized (world s)) ;;
  if negb initialized then st_ret MOD_HDCP_STATUS_FAILURE else
  h <- get_hd ;;
  match get_first_active_display h with
  | None => st_ret MOD_HDCP_STATUS_DISPLAY_NOT_FOUND
  | Some i =>
    d <- display_at i ;;
    o <- ta (fun _ => TA_HDCP2_CREATE_SESSION_V2 (d_index d)
               (negotiate_content_type (force_type (adj_hdcp2 (adjust (link (connection h))))))) ;;
    if negb (ta_ok o) then st_ret MOD_HDCP_STATUS_HDCP2_CREATE_SESSION_FAILURE
    else mod_auth (set_auth_id (session_handle o)) ;; st_ret MOD_HDCP_STATUS_SUCCESS
  end.

Definition mod_hdcp_hdcp2_destroy_session : M mod_hdcp_status :=
  o <- ta TA_HDCP2_DESTROY_SESSION ;;
  if negb (ta_ok o) then st_ret MOD_HDCP_STATUS_HDCP2_DESTROY_SESSION_FAILURE
  else mod_hd (fun h => set_displays (disable_encryption <$> displays h) h) ;; st_ret MOD_HDCP_STATUS_SUCCESS.

Definition null_msg : msg_desc := MsgDesc TA_HDCP_HDCP2_MSG_ID__NULL_MESSAGE 0.
Definition hdcp2_message_init (id : Z) : process_prepare_in :=
  ProcessPrepare id TA_HDCP_HDCP2_MSG_ID__NULL_MESSAGE TA_HDCP_HDCP2_MSG_ID__NULL_MESSAGE null_msg null_msg null_msg [].

(** Prepare the messages [m1] and [m2], process the messages [p1] and [p2] in [rx]. *)
Definition ta_message (m1 m2 : Z) (p1 p2 : msg_desc) (rx : list Z) : M ta_hdcp_out :=
  ta (fun id =>
    let i := hdcp2_message_init id in
    TA_HDCP2_PREPARE_PROCESS_AUTHENTICATION_MSG_V2 (ProcessPrepare (pp_session i) m1 m2 p1 p2 (process_msg3 i) rx)).
Abbreviation NULL_MESSAGE := TA_HDCP_HDCP2_MSG_ID__NULL_MESSAGE.

Definition msg1_ok (o : ta_hdcp_out) : bool := process_msg1_status o =? TA_HDCP2_MSG_AUTHENTICATION_STATUS__SUCCESS.

(** [memcpy(f, &transmitter_message[off], sizeof(f))] *)
Definition put_transmitted (f : msg_field) (off : nat) (o : ta_hdcp_out) : M unit :=
  put_msg f (drop off (resize (Z.to_nat TA_HDCP__HDCP2_TX_BUF_MAX_SIZE) 0 (transmitter_message o))).

Definition mod_hdcp_hdcp2_prepare_ake_init : M mod_hdcp_status :=
  o <- ta_message TA_HDCP_HDCP2_MSG_ID__AKE_INIT NULL_MESSAGE null_msg null_msg [] ;;
  if negb (ta_ok o) then st_ret MOD_HDCP_STATUS_HDCP2_PREP_AKE_INIT_FAILURE
  else put_transmitted m2_ake_init 0 o ;; st_ret MOD_HDCP_STATUS_SUCCESS.

(** What the TA says of the receiver: its verdict, [revoked] and [failure] otherwise. *)
Definition set_receiver (o : ta_hdcp_out) (revoked failure : mod_hdcp_status) : M mod_hdcp_status :=
  if msg1_ok o then
    mod_conn (set_rx (negb (out_is_repeater o =? 0)) (negb (out_is_km_stored o =? 0))) ;;
    st_ret MOD_HDCP_STATUS_SUCCESS
  else if process_msg1_status o =? TA_HDCP2_MSG_AUTHENTICATION_STATUS__RECEIVERID_REVOKED then
    mod_conn (fun c => set_revoked (is_hdcp1_revoked c) true c) ;; st_ret revoked
  else st_ret failure.

Definition mod_hdcp_hdcp2_validate_ake_cert : M mod_hdcp_status :=
  cert <- get_msg m2_ake_cert ;;
  o <- ta_message TA_HDCP_HDCP2_MSG_ID__AKE_NO_STORED_KM TA_HDCP_HDCP2_MSG_ID__AKE_STORED_KM
         (MsgDesc TA_HDCP_HDCP2_MSG_ID__AKE_SEND_CERT TA_HDCP_HDCP2_MSG_ID_MAX_SIZE__AKE_SEND_CERT) null_msg cert ;;
  if negb (ta_ok o) then st_ret MOD_HDCP_STATUS_HDCP2_VALIDATE_AKE_CERT_FAILURE
  else
    put_transmitted m2_ake_no_stored_km 0 o ;;
    put_transmitted m2_ake_stored_km (Z.to_nat (msg_size m2_ake_no_stored_km)) o ;;
    set_receiver o MOD_HDCP_STATUS_HDCP2_AKE_CERT_REVOKED MOD_HDCP_STATUS_HDCP2_VALIDATE_AKE_CERT_FAILURE.

Definition mod_hdcp_hdcp2_validate_h_prime : M mod_hdcp_status :=
  h <- get_hd ;;
  h_prime <- get_msg m2_ake_h_prime ;;
  pairing <- get_msg m2_ake_pairing_info ;;
  let stored := is_km_stored (connection h) in
  o <- ta_message NULL_MESSAGE NULL_MESSAGE
         (MsgDesc TA_HDCP_HDCP2_MSG_ID__AKE_SEND_H_PRIME TA_HDCP_HDCP2_MSG_ID_MAX_SIZE__AKE_SEND_H_PRIME)
         (if stored then null_msg
          else MsgDesc TA_HDCP_HDCP2_MSG_ID__AKE_SEND_PAIRING_INFO TA_HDCP_HDCP2_MSG_ID_MAX_SIZE__AKE_SEND_PAIRING_INFO)
         (h_prime ++ if stored then [] else pairing) ;;
  st_ret (if negb (ta_ok o) then MOD_HDCP_STATUS_HDCP2_VALIDATE_H_PRIME_FAILURE
          else if negb (msg1_ok o) then MOD_HDCP_STATUS_HDCP2_VALIDATE_H_PRIME_FAILURE
          else if negb stored && negb (process_msg2_status o =? TA_HDCP2_MSG_AUTHENTICATION_STATUS__SUCCESS)
          then MOD_HDCP_STATUS_HDCP2_VALIDATE_PAIRING_INFO_FAILURE
          else MOD_HDCP_STATUS_SUCCESS).

Definition mod_hdcp_hdcp2_prepare_lc_init : M mod_hdcp_status :=
  o <- ta_message TA_HDCP_HDCP2_MSG_ID__LC_INIT NULL_MESSAGE null_msg null_msg [] ;;
  if negb (ta_ok o) then st_ret MOD_HDCP_STATUS_HDCP2_PREP_LC_INIT_FAILURE
  else put_transmitted m2_lc_init 0 o ;; st_ret MOD_HDCP_STATUS_SUCCESS.

Definition mod_hdcp_hdcp2_validate_l_prime : M mod_hdcp_status :=
  l_prime <- get_msg m2_lc_l_prime ;;
  o <- ta_message NULL_MESSAGE NULL_MESSAGE
         (MsgDesc TA_HDCP_HDCP2_MSG_ID__LC_SEND_L_PRIME TA_HDCP_HDCP2_MSG_ID_MAX_SIZE__LC_SEND_L_PRIME) null_msg l_prime ;;
  st_ret (if negb (ta_ok o) || negb (msg1_ok o) then MOD_HDCP_STATUS_HDCP2_VALIDATE_L_PRIME_FAILURE
          else MOD_HDCP_STATUS_SUCCESS).

Definition mod_hdcp_hdcp2_prepare_eks : M mod_hdcp_status :=
  h <- get_hd ;;
  o <- ta_message TA_HDCP_HDCP2_MSG_ID__SKE_SEND_EKS
         (if is_dp_hdcp h then TA_HDCP_HDCP2_MSG_ID__SIGNAL_CONTENT_STREAM_TYPE_DP else NULL_MESSAGE)
         null_msg null_msg [] ;;
  if negb (ta_ok o) then st_ret MOD_HDCP_STATUS_HDCP2_PREP_EKS_FAILURE
  else
    put_transmitted m2_ske_eks 0 o ;;
    st_when (is_dp_hdcp h) (put_transmitted m2_content_stream_type_dp (Z.to_nat (msg_size m2_ske_eks)) o) ;;
    st_ret MOD_HDCP_STATUS_SUCCESS.

Definition mod_hdcp_hdcp2_enable_encryption : M mod_hdcp_status :=
  h <- get_hd ;;
  match get_first_active_display h with
  | None => st_ret MOD_HDCP_STATUS_DISPLAY_NOT_FOUND
  | Some i =>
    o <- ta TA_HDCP2_SET_ENCRYPTION ;;
    if negb (ta_ok o) then st_ret MOD_HDCP_STATUS_HDCP2_ENABLE_ENCRYPTION_FAILURE
    else
      st_when (negb (is_dp_mst_hdcp h)) (mod_display i (set_display_state MOD_HDCP_DISPLAY_ENCRYPTION_ENABLED)) ;;
      st_ret MOD_HDCP_STATUS_SUCCESS
  end.

Definition mod_hdcp_hdcp2_validate_rx_id_list : M mod_hdcp_status :=
  rx <- get_msg m2_rx_id_list ;;
  o <- ta_message TA_HDCP_HDCP2_MSG_ID__REPEATERAUTH_SEND_ACK NULL_MESSAGE
         (MsgDesc TA_HDCP_HDCP2_MSG_ID__REPEATERAUTH_SEND_RECEIVERID_LIST (msg_size m2_rx_id_list)) null_msg rx ;;
  if negb (ta_ok o) then st_ret MOD_HDCP_STATUS_HDCP2_VALIDATE_RX_ID_LIST_FAILURE
  else
    put_transmitted m2_repeater_auth_ack 0 o ;;
    set_receiver o MOD_HDCP_STATUS_HDCP2_RX_ID_LIST_REVOKED MOD_HDCP_STATUS_HDCP2_VALIDATE_RX_ID_LIST_FAILURE.

(** The buffer is cleared once, before the loop; its status is 0 whenever the loop goes on. *)
Definition mod_hdcp_hdcp2_enable_dp_stream_encryption : M mod_hdcp_status :=
  enable_stream_loop TA_HDCP2_ENABLE_DP_STREAM_ENCRYPTION MOD_HDCP_STATUS_HDCP2_ENABLE_STREAM_ENCRYPTION_FAILURE
    (Z.to_nat MAX_NUM_OF_DISPLAYS) 0.

Definition mod_hdcp_hdcp2_prepare_stream_management : M mod_hdcp_status :=
  o <- ta_message TA_HDCP_HDCP2_MSG_ID__REPEATERAUTH_STREAM_MANAGE NULL_MESSAGE null_msg null_msg [] ;;
  if negb (ta_ok o) then st_ret MOD_HDCP_STATUS_HDCP2_PREPARE_STREAM_MANAGEMENT_FAILURE
  else
    put_int m2_stream_manage_size (prepare_msg1_size o) ;;
    put_transmitted m2_repeater_auth_stream_manage 0 o ;;
    st_ret MOD_HDCP_STATUS_SUCCESS.

Definition mod_hdcp_hdcp2_validate_stream_ready : M mod_hdcp_status :=
  ready <- get_msg m2_repeater_auth_stream_ready ;;
  o <- ta_message NULL_MESSAGE NULL_MESSAGE
         (MsgDesc TA_HDCP_HDCP2_MSG_ID__REPEATERAUTH_STREAM_READY (msg_size m2_repeater_auth_stream_ready)) null_msg
         ready ;;
  st_ret (if ta_ok o && msg1_ok o then MOD_HDCP_STATUS_SUCCESS
          else MOD_HDCP_STATUS_HDCP2_VALIDATE_STREAM_READY_FAILURE).
End Psp.
