(* ===== verification/Hdcp1.v ===== *)
(** * HDCP 1: execution and transition

    Model of amd/display/modules/hdcp/hdcp1_execution.c and hdcp1_transition.c: what the
    state machine does in each HDCP 1 state on an event, and which state it enters. *)

From stdpp Require Import list.
From Stdlib Require Import ZArith Lia.
From S2P Require Import Prelude Bytes Hdcp HdcpIo HdcpPsp.
Open Scope st_scope.

(** Bits of the registers (kernel headers). *)
Definition DP_BSTATUS_READY : Z := 1.
Definition DP_BSTATUS_R0_PRIME_READY : Z := 2.
Definition DP_BSTATUS_LINK_FAILURE : Z := 4.
Definition DP_BSTATUS_REAUTH_REQ : Z := 8.
Definition DP_BCAPS_HDCP_CAPABLE : Z := 1.
Definition DRM_HDCP_DDC_BCAPS_KSV_FIFO_READY : Z := 32.
Definition DRM_HDCP_MAX_CASCADE_EXCEEDED (x : Z) : Z := Z.land x 8.
Definition DRM_HDCP_MAX_DEVICE_EXCEEDED (x : Z) : Z := Z.land x 128.
Definition DRM_HDCP_NUM_DOWNSTREAM (x : Z) : Z := Z.land x 0x7f.

(** [n &= n - 1] until [n] is 0: an integer of 64 bits has at most 64 bits to clear. *)
Fixpoint count_bits (fuel : nat) (n count : Z) : Z :=
  match fuel with
  | O => count
  | S fuel => if n =? 0 then count else count_bits fuel (Z.land n (n - 1)) (u8 (count + 1))
  end.

(** [x & bit ? SUCCESS : failure] and its converse. *)
Definition if_set (x : Z) (failure : mod_hdcp_status) : mod_hdcp_status :=
  if negb (x =? 0) then MOD_HDCP_STATUS_SUCCESS else failure.
Definition if_clear (x : Z) (failure : mod_hdcp_status) : mod_hdcp_status :=
  if negb (x =? 0) then failure else MOD_HDCP_STATUS_SUCCESS.

Section Hdcp1.
Context {W : Type} `{!HdcpWorld W}.
Abbreviation M := (stM (hst W)).

(** ** Checks *)

Definition validate_bksv : M mod_hdcp_status :=
  n <- get_int m1_bksv ;;
  st_ret (if count_bits 64 n 0 =? 20 then MOD_HDCP_STATUS_SUCCESS else MOD_HDCP_STATUS_HDCP1_INVALID_BKSV).

Definition check_ksv_ready : M mod_hdcp_status :=
  h <- get_hd ;;
  bstatus <- get_int m1_bstatus ;;
  bcaps <- get_int m1_bcaps ;;
  st_ret (if is_dp_hdcp h
          then if_set (Z.land bstatus DP_BSTATUS_READY) MOD_HDCP_STATUS_HDCP1_KSV_LIST_NOT_READY
          else if_set (Z.land bcaps DRM_HDCP_DDC_BCAPS_KSV_FIFO_READY) MOD_HDCP_STATUS_HDCP1_KSV_LIST_NOT_READY).

Definition check_hdcp_capable_dp : M mod_hdcp_status :=
  bcaps <- get_int m1_bcaps ;;
  st_ret (if_set (Z.land bcaps DP_BCAPS_HDCP_CAPABLE) MOD_HDCP_STATUS_HDCP1_NOT_CAPABLE).

Definition check_r0p_available_dp : M mod_hdcp_status :=
  h <- get_hd ;;
  bstatus <- get_int m1_bstatus ;;
  st_ret (if is_dp_hdcp h
          then if_set (Z.land bstatus DP_BSTATUS_R0_PRIME_READY) MOD_HDCP_STATUS_HDCP1_R0_PRIME_PENDING
          else MOD_HDCP_STATUS_INVALID_OPERATION).

Definition check_link_integrity_dp : M mod_hdcp_status :=
  bstatus <- get_int m1_bstatus ;;
  st_ret (if_clear (Z.land bstatus DP_BSTATUS_LINK_FAILURE) MOD_HDCP_STATUS_HDCP1_LINK_INTEGRITY_FAILURE).

Definition check_no_reauthentication_request_dp : M mod_hdcp_status :=
  bstatus <- get_int m1_bstatus ;;
  st_ret (if_clear (Z.land bstatus DP_BSTATUS_REAUTH_REQ) MOD_HDCP_STATUS_HDCP1_REAUTH_REQUEST_ISSUED).

(** What describes the devices below a repeater: BINFO on DisplayPort, BSTATUS otherwise. *)
Definition get_binfo : M Z :=
  h <- get_hd ;; get_int (if is_dp_hdcp h then m1_binfo_dp else m1_bstatus).

Definition check_no_max_cascade : M mod_hdcp_status :=
  binfo <- get_binfo ;;
  st_ret (if_clear (DRM_HDCP_MAX_CASCADE_EXCEEDED (Z.shiftr binfo 8))
            MOD_HDCP_STATUS_HDCP1_MAX_CASCADE_EXCEEDED_FAILURE).

Definition check_no_max_devs : M mod_hdcp_status :=
  binfo <- get_binfo ;;
  st_ret (if_clear (DRM_HDCP_MAX_DEVICE_EXCEEDED binfo) MOD_HDCP_STATUS_HDCP1_MAX_DEVS_EXCEEDED_FAILURE).

Definition get_device_count : M Z := binfo <- get_binfo ;; st_ret (DRM_HDCP_NUM_DOWNSTREAM binfo).

Definition check_device_count : M mod_hdcp_status :=
  count <- get_device_count ;;
  h <- get_hd ;;
  st_ret (if count =? 0 then MOD_HDCP_STATUS_HDCP1_DEVICE_COUNT_MISMATCH_FAILURE
          else if 1 + count <? get_active_display_count h then MOD_HDCP_STATUS_HDCP1_DEVICE_COUNT_MISMATCH_FAILURE
          else MOD_HDCP_STATUS_SUCCESS).

(** ** Execution *)

Definition wait_for_active_rx : M mod_hdcp_status :=
  expects is_callback (
    mod_hdcp_execute_and_set mod_hdcp_read_bksv in1_bksv_read >>?
    mod_hdcp_execute_and_set mod_hdcp_read_bcaps in1_bcaps_read).

Definition exchange_ksvs : M mod_hdcp_status :=
  expects is_callback (
    mod_hdcp_execute_and_set mod_hdcp_hdcp1_create_session in1_create_session >>?
    mod_hdcp_execute_and_set mod_hdcp_write_an in1_an_write >>?
    mod_hdcp_execute_and_set mod_hdcp_write_aksv in1_aksv_write >>?
    mod_hdcp_execute_and_set mod_hdcp_read_bksv in1_bksv_read >>?
    mod_hdcp_execute_and_set validate_bksv in1_bksv_validation >>?
    (ainfo <- get_int m1_ainfo ;;
     if negb (ainfo =? 0) then mod_hdcp_execute_and_set mod_hdcp_write_ainfo in1_ainfo_write
     else st_ret MOD_HDCP_STATUS_SUCCESS)).

Definition computations_validate_rx_test_for_repeater : M mod_hdcp_status :=
  expects is_callback (
    mod_hdcp_execute_and_set mod_hdcp_read_r0p in1_r0p_read >>?
    mod_hdcp_execute_and_set mod_hdcp_hdcp1_validate_rx in1_rx_validation >>?
    (h <- get_hd ;;
     if is_repeater (connection h) then
       if negb (postpone_encryption (adj_hdcp1 (adjust (link (connection h)))))
       then mod_hdcp_execute_and_set mod_hdcp_hdcp1_enable_encryption in1_encryption
       else st_ret MOD_HDCP_STATUS_SUCCESS
     else
       mod_hdcp_execute_and_set mod_hdcp_hdcp1_enable_encryption in1_encryption >>?
       (if is_dp_mst_hdcp h
        then mod_hdcp_execute_and_set mod_hdcp_hdcp1_enable_dp_stream_encryption in1_stream_encryption_dp
        else st_ret MOD_HDCP_STATUS_SUCCESS))).

Definition authenticated : M mod_hdcp_status :=
  expects is_callback (mod_hdcp_execute_and_set mod_hdcp_hdcp1_link_maintenance in1_link_maintenance).

Definition wait_for_ready : M mod_hdcp_status :=
  expects (fun e => is_callback e || is_cpirq e || is_watchdog e) (
    (h <- get_hd ;;
     if is_dp_hdcp h then
       mod_hdcp_execute_and_set mod_hdcp_read_bstatus in1_bstatus_read >>?
       mod_hdcp_execute_and_set check_link_integrity_dp in1_link_integrity_check >>?
       mod_hdcp_execute_and_set check_no_reauthentication_request_dp in1_reauth_request_check
     else mod_hdcp_execute_and_set mod_hdcp_read_bcaps in1_bcaps_read) >>?
    mod_hdcp_execute_and_set check_ksv_ready in1_ready_check).

Definition read_ksv_list : M mod_hdcp_status :=
  expects is_callback (
    (h <- get_hd ;;
     if is_dp_hdcp h then mod_hdcp_execute_and_set mod_hdcp_read_binfo in1_binfo_read_dp
     else mod_hdcp_execute_and_set mod_hdcp_read_bstatus in1_bstatus_read) >>?
    mod_hdcp_execute_and_set check_no_max_cascade in1_max_cascade_check >>?
    mod_hdcp_execute_and_set check_no_max_devs in1_max_devs_check >>?
    mod_hdcp_execute_and_set check_device_count in1_device_count_check >>?
    (device_count <- get_device_count ;;
     put_int m1_ksvlist_size (device_count * 5) ;;
     mod_hdcp_execute_and_set mod_hdcp_read_ksvlist in1_ksvlist_read) >>?
    mod_hdcp_execute_and_set mod_hdcp_read_vp in1_vp_read >>?
    mod_hdcp_execute_and_set mod_hdcp_hdcp1_validate_ksvlist_vp in1_ksvlist_vp_validation >>?
    (e <- get_input in1_encryption ;;
     if negb (passed e) then mod_hdcp_execute_and_set mod_hdcp_hdcp1_enable_encryption in1_encryption
     else st_ret MOD_HDCP_STATUS_SUCCESS) >>?
    (h <- get_hd ;;
     if is_dp_mst_hdcp h
     then mod_hdcp_execute_and_set mod_hdcp_hdcp1_enable_dp_stream_encryption in1_stream_encryption_dp
     else st_ret MOD_HDCP_STATUS_SUCCESS)).

Definition determine_rx_hdcp_capable_dp : M mod_hdcp_status :=
  expects is_callback (
    mod_hdcp_execute_and_set mod_hdcp_read_bcaps in1_bcaps_read >>?
    mod_hdcp_execute_and_set check_hdcp_capable_dp in1_hdcp_capable_dp).

Definition wait_for_r0_prime_dp : M mod_hdcp_status :=
  expects (fun e => is_cpirq e || is_watchdog e) (
    mod_hdcp_execute_and_set mod_hdcp_read_bstatus in1_bstatus_read >>?
    mod_hdcp_execute_and_set check_r0p_available_dp in1_r0p_available_dp).

Definition authenticated_dp : M mod_hdcp_status :=
  expects is_cpirq (
    mod_hdcp_execute_and_set mod_hdcp_read_bstatus in1_bstatus_read ;;
    mod_hdcp_execute_and_set check_link_integrity_dp in1_link_integrity_check ;;
    mod_hdcp_execute_and_set check_no_reauthentication_request_dp in1_reauth_request_check).

Definition mod_hdcp_hdcp1_execution : M mod_hdcp_status :=
  h <- get_hd ;;
  match current_state h with
  | H1_A0_WAIT_FOR_ACTIVE_RX => wait_for_active_rx
  | H1_A1_EXCHANGE_KSVS => exchange_ksvs
  | H1_A2_COMPUTATIONS_A3_VALIDATE_RX_A6_TEST_FOR_REPEATER => computations_validate_rx_test_for_repeater
  | H1_A45_AUTHENTICATED => authenticated
  | H1_A8_WAIT_FOR_READY => wait_for_ready
  | H1_A9_READ_KSV_LIST => read_ksv_list
  | _ => st_ret MOD_HDCP_STATUS_INVALID_STATE
  end.

Definition mod_hdcp_hdcp1_dp_execution : M mod_hdcp_status :=
  h <- get_hd ;;
  match current_state h with
  | D1_A0_DETERMINE_RX_HDCP_CAPABLE => determine_rx_hdcp_capable_dp
  | D1_A1_EXCHANGE_KSVS => exchange_ksvs
  | D1_A23_WAIT_FOR_R0_PRIME => wait_for_r0_prime_dp
  | D1_A2_COMPUTATIONS_A3_VALIDATE_RX_A5_TEST_FOR_REPEATER => computations_validate_rx_test_for_repeater
  | D1_A4_AUTHENTICATED => authenticated_dp
  | D1_A6_WAIT_FOR_READY => wait_for_ready
  | D1_A7_READ_KSV_LIST => read_ksv_list
  | _ => st_ret MOD_HDCP_STATUS_INVALID_STATE
  end.

(** ** Transition *)

(** Requests to the caller and the state to enter; the transition then succeeds. *)
Definition goto_state (id : state_id) : M mod_hdcp_status := set_state_id id ;; st_ret MOD_HDCP_STATUS_SUCCESS.
Definition goto_authenticated (id : state_id) : M mod_hdcp_status :=
  set_state_id id ;; set_auth_complete ;; st_ret MOD_HDCP_STATUS_SUCCESS.
Definition stay : M mod_hdcp_status := increment_stay_counter ;; st_ret MOD_HDCP_STATUS_SUCCESS.

Definition mod_hdcp_hdcp1_transition : M mod_hdcp_status :=
  h <- get_hd ;;
  c <- st_gets ctx ;;
  let input k := trans_input (auth h) k in
  let conn := connection h in
  let not_passed k := negb (passed (input k)) in
  match current_state h with
  | H1_A0_WAIT_FOR_ACTIVE_RX =>
    if not_passed in1_bksv_read || not_passed in1_bcaps_read then callback_in_ms 500 ;; stay
    else callback_in_ms 0 ;; goto_state H1_A1_EXCHANGE_KSVS
  | H1_A1_EXCHANGE_KSVS =>
    if not_passed in1_create_session then mod_adjust (set_adj1 set_disable1) ;; fail_and_restart_in_ms 0
    else if not_passed in1_an_write || not_passed in1_aksv_write || not_passed in1_bksv_read ||
            not_passed in1_bksv_validation || failed (input in1_ainfo_write)
    then fail_and_restart_in_ms 0
    else callback_in_ms 300 ;; goto_state H1_A2_COMPUTATIONS_A3_VALIDATE_RX_A6_TEST_FOR_REPEATER
  | H1_A2_COMPUTATIONS_A3_VALIDATE_RX_A6_TEST_FOR_REPEATER =>
    if not_passed in1_bcaps_read || not_passed in1_r0p_read then fail_and_restart_in_ms 0
    else if not_passed in1_rx_validation then fail_and_restart_in_ms 1000
    else if negb (is_repeater conn) && not_passed in1_encryption then fail_and_restart_in_ms 0
    else if is_repeater conn then
      callback_in_ms 0 ;; set_watchdog_in_ms 5000 ;; goto_state H1_A8_WAIT_FOR_READY
    else callback_in_ms 0 ;; goto_authenticated H1_A45_AUTHENTICATED
  | H1_A45_AUTHENTICATED =>
    if failed (input in1_link_maintenance) then fail_and_restart_in_ms 0
    else callback_in_ms 500 ;; stay
  | H1_A8_WAIT_FOR_READY =>
    if not_passed in1_ready_check then
      if is_watchdog (event c) then mod_adjust (set_adj1 set_postpone) ;; fail_and_restart_in_ms 0
      else callback_in_ms 500 ;; stay
    else callback_in_ms 0 ;; goto_state H1_A9_READ_KSV_LIST
  | H1_A9_READ_KSV_LIST =>
    if not_passed in1_bstatus_read || not_passed in1_max_cascade_check || not_passed in1_max_devs_check ||
       not_passed in1_device_count_check || not_passed in1_ksvlist_read || not_passed in1_vp_read ||
       not_passed in1_ksvlist_vp_validation || not_passed in1_encryption
    then fail_and_restart_in_ms 0
    else callback_in_ms 0 ;; goto_authenticated H1_A45_AUTHENTICATED
  | _ => fail_and_restart_in_ms 0
  end.

Definition mod_hdcp_hdcp1_dp_transition : M mod_hdcp_status :=
  h <- get_hd ;;
  c <- st_gets ctx ;;
  let input k := trans_input (auth h) k in
  let conn := connection h in
  let not_passed k := negb (passed (input k)) in
  match current_state h with
  | D1_A0_DETERMINE_RX_HDCP_CAPABLE =>
    if not_passed in1_bcaps_read then fail_and_restart_in_ms 0
    else if not_passed in1_hdcp_capable_dp then mod_adjust (set_adj1 set_disable1) ;; fail_and_restart_in_ms 0
    else callback_in_ms 0 ;; goto_state D1_A1_EXCHANGE_KSVS
  | D1_A1_EXCHANGE_KSVS =>
    if not_passed in1_create_session then mod_adjust (set_adj1 set_disable1) ;; fail_and_restart_in_ms 0
    else if not_passed in1_an_write || not_passed in1_aksv_write || not_passed in1_bksv_read ||
            not_passed in1_bksv_validation || failed (input in1_ainfo_write)
    then fail_and_restart_in_ms 0
    else set_watchdog_in_ms 100 ;; goto_state D1_A23_WAIT_FOR_R0_PRIME
  | D1_A23_WAIT_FOR_R0_PRIME =>
    if not_passed in1_bstatus_read then fail_and_restart_in_ms 0
    else if not_passed in1_r0p_available_dp then
      if is_watchdog (event c) then fail_and_restart_in_ms 0 else stay
    else callback_in_ms 0 ;; goto_state D1_A2_COMPUTATIONS_A3_VALIDATE_RX_A5_TEST_FOR_REPEATER
  | D1_A2_COMPUTATIONS_A3_VALIDATE_RX_A5_TEST_FOR_REPEATER =>
    if not_passed in1_r0p_read then fail_and_restart_in_ms 0
    else if not_passed in1_rx_validation then
      if (stay_count h <? 2) && negb (is_hdcp1_revoked conn) then callback_in_ms 0 ;; stay
      else fail_and_restart_in_ms 1000
    else if (negb (is_repeater conn) && not_passed in1_encryption) ||
            (negb (is_repeater conn) && is_dp_mst_hdcp h && not_passed in1_stream_encryption_dp)
    then fail_and_restart_in_ms 0
    else if hdcp1_retry_count conn <? min_auth_retries_wa (adj_hdcp1 (adjust (link conn)))
    then fail_and_restart_in_ms 200
    else if is_repeater conn then set_watchdog_in_ms 5000 ;; goto_state D1_A6_WAIT_FOR_READY
    else goto_authenticated D1_A4_AUTHENTICATED
  | D1_A4_AUTHENTICATED =>
    if failed (input in1_link_integrity_check) || failed (input in1_reauth_request_check)
    then fail_and_restart_in_ms 0
    else st_ret MOD_HDCP_STATUS_SUCCESS
  | D1_A6_WAIT_FOR_READY =>
    if failed (input in1_link_integrity_check) || failed (input in1_reauth_request_check)
    then fail_and_restart_in_ms 0
    else if not_passed in1_ready_check then
      if is_watchdog (event c) then mod_adjust (set_adj1 set_postpone) ;; fail_and_restart_in_ms 0 else stay
    else callback_in_ms 0 ;; goto_state D1_A7_READ_KSV_LIST
  | D1_A7_READ_KSV_LIST =>
    if not_passed in1_binfo_read_dp || not_passed in1_max_cascade_check || not_passed in1_max_devs_check
    then fail_and_restart_in_ms 0
    else if not_passed in1_device_count_check then
      mod_adjust (set_adj1 set_postpone) ;; fail_and_restart_in_ms 1000
    else if not_passed in1_ksvlist_read || not_passed in1_vp_read then fail_and_restart_in_ms 0
    else if not_passed in1_ksvlist_vp_validation then
      if (stay_count h <? 2) && negb (is_hdcp1_revoked conn) then callback_in_ms 0 ;; stay
      else fail_and_restart_in_ms 0
    else if not_passed in1_encryption || (is_dp_mst_hdcp h && not_passed in1_stream_encryption_dp)
    then fail_and_restart_in_ms 0
    else goto_authenticated D1_A4_AUTHENTICATED
  | _ => fail_and_restart_in_ms 0
  end.
End Hdcp1.
