(* ===== verification/Hdcp2.v ===== *)
(** * HDCP 2: execution and transition

    Model of amd/display/modules/hdcp/hdcp2_execution.c and hdcp2_transition.c: what the
    state machine does in each HDCP 2 state on an event, and which state it enters. *)

From stdpp Require Import list.
From Stdlib Require Import ZArith Lia.
From S2P Require Import Prelude Bytes Hdcp HdcpIo HdcpPsp Hdcp1.
Open Scope st_scope.

(** Bits of the registers (kernel headers). *)
Definition HDCP_2_2_HDMI_RXSTATUS_MSG_SZ_HI (x : Z) : Z := Z.land x 3.
Definition HDCP_2_2_HDMI_RXSTATUS_READY (x : Z) : Z := Z.land x 4.
Definition HDCP_2_2_HDMI_RXSTATUS_REAUTH_REQ (x : Z) : Z := Z.land x 8.
Definition HDCP_2_2_DP_RXSTATUS_READY (x : Z) : Z := Z.land x 1.
Definition HDCP_2_2_DP_RXSTATUS_H_PRIME (x : Z) : Z := Z.land x 2.
Definition HDCP_2_2_DP_RXSTATUS_PAIRING (x : Z) : Z := Z.land x 4.
Definition HDCP_2_2_DP_RXSTATUS_REAUTH_REQ (x : Z) : Z := Z.land x 8.
Definition HDCP_2_2_DP_RXSTATUS_LINK_FAILED (x : Z) : Z := Z.land x 16.
Definition HDCP_2_2_RX_CAPS_VERSION_VAL : Z := 2.
Definition HDCP_2_2_DP_HDCP_CAPABLE (x : Z) : Z := Z.land x 2.
Definition HDCP_2_2_HDMI_SUPPORT_MASK : Z := 4.

Section Hdcp2.
Context {W : Type} `{!HdcpWorld W}.
Abbreviation M := (stM (hst W)).

(** ** Checks *)

Definition get_hdmi_rxstatus_msg_size (rxstatus : list Z) : Z :=
  Z.lor (Z.shiftl (HDCP_2_2_HDMI_RXSTATUS_MSG_SZ_HI (nth 1 rxstatus 0)) 8) (nth 0 rxstatus 0).

Definition check_receiver_id_list_ready : M mod_hdcp_status :=
  h <- get_hd ;;
  dp <- get_int m2_rxstatus_dp ;;
  rxstatus <- get_msg m2_rxstatus ;;
  let is_ready := if is_dp_hdcp h then negb (HDCP_2_2_DP_RXSTATUS_READY dp =? 0)
                  else negb (HDCP_2_2_HDMI_RXSTATUS_READY (nth 1 rxstatus 0) =? 0) &&
                       negb (get_hdmi_rxstatus_msg_size rxstatus =? 0) in
  st_ret (if is_ready then MOD_HDCP_STATUS_SUCCESS else MOD_HDCP_STATUS_HDCP2_RX_ID_LIST_NOT_READY).

Definition check_hdcp2_capable : M mod_hdcp_status :=
  h <- get_hd ;;
  caps <- get_msg m2_rxcaps_dp ;;
  version <- get_int m2_hdcp2version_hdmi ;;
  st_ret (if is_dp_hdcp h then
            if (nth 0 caps 0 =? HDCP_2_2_RX_CAPS_VERSION_VAL) && negb (HDCP_2_2_DP_HDCP_CAPABLE (nth 2 caps 0) =? 0)
            then MOD_HDCP_STATUS_SUCCESS else MOD_HDCP_STATUS_HDCP2_NOT_CAPABLE
          else if_set (Z.land version HDCP_2_2_HDMI_SUPPORT_MASK) MOD_HDCP_STATUS_HDCP2_NOT_CAPABLE).

Definition check_reauthentication_request : M mod_hdcp_status :=
  h <- get_hd ;;
  dp <- get_int m2_rxstatus_dp ;;
  rxstatus <- get_msg m2_rxstatus ;;
  st_ret (if is_dp_hdcp h
          then if_clear (HDCP_2_2_DP_RXSTATUS_REAUTH_REQ dp) MOD_HDCP_STATUS_HDCP2_REAUTH_REQUEST
          else if_clear (HDCP_2_2_HDMI_RXSTATUS_REAUTH_REQ (nth 1 rxstatus 0)) MOD_HDCP_STATUS_HDCP2_REAUTH_REQUEST).

Definition check_link_integrity_failure_dp : M mod_hdcp_status :=
  dp <- get_int m2_rxstatus_dp ;;
  st_ret (if_clear (HDCP_2_2_DP_RXSTATUS_LINK_FAILED dp) MOD_HDCP_STATUS_HDCP2_REAUTH_LINK_INTEGRITY_FAILURE).

(** The size announced in RxStatus is the size of the message [f]. *)
Definition size_announced (f : msg_field) (pending : mod_hdcp_status) : M mod_hdcp_status :=
  rxstatus <- get_msg m2_rxstatus ;;
  st_ret (if get_hdmi_rxstatus_msg_size rxstatus =? msg_size f then MOD_HDCP_STATUS_SUCCESS else pending).

Definition check_ake_cert_available : M mod_hdcp_status :=
  h <- get_hd ;;
  if is_dp_hdcp h then st_ret MOD_HDCP_STATUS_SUCCESS
  else mod_hdcp_read_rxstatus >>? size_announced m2_ake_cert MOD_HDCP_STATUS_HDCP2_AKE_CERT_PENDING.

Definition check_h_prime_available : M mod_hdcp_status :=
  mod_hdcp_read_rxstatus >>?
  (h <- get_hd ;;
   if is_dp_hdcp h then
     dp <- get_int m2_rxstatus_dp ;;
     st_ret (if_set (HDCP_2_2_DP_RXSTATUS_H_PRIME dp) MOD_HDCP_STATUS_HDCP2_H_PRIME_PENDING)
   else size_announced m2_ake_h_prime MOD_HDCP_STATUS_HDCP2_H_PRIME_PENDING).

Definition check_pairing_info_available : M mod_hdcp_status :=
  mod_hdcp_read_rxstatus >>?
  (h <- get_hd ;;
   if is_dp_hdcp h then
     dp <- get_int m2_rxstatus_dp ;;
     st_ret (if_set (HDCP_2_2_DP_RXSTATUS_PAIRING dp) MOD_HDCP_STATUS_HDCP2_PAIRING_INFO_PENDING)
   else size_announced m2_ake_pairing_info MOD_HDCP_STATUS_HDCP2_PAIRING_INFO_PENDING).

(** Up to five polls; the last status is returned. *)
Fixpoint poll_l_prime_loop (num_polls : nat) (status : mod_hdcp_status) : M mod_hdcp_status :=
  match num_polls with
  | O => st_ret status
  | S num_polls =>
    status <- mod_hdcp_read_rxstatus ;;
    if negb (success status) then st_ret status
    else
      status <- size_announced m2_lc_l_prime MOD_HDCP_STATUS_HDCP2_L_PRIME_PENDING ;;
      if success status then st_ret status else poll_l_prime_loop num_polls status
  end.
Definition poll_l_prime_available : M mod_hdcp_status :=
  h <- get_hd ;;
  if is_dp_hdcp h then st_ret MOD_HDCP_STATUS_INVALID_OPERATION
  else poll_l_prime_loop 5 MOD_HDCP_STATUS_FAILURE.

Definition check_stream_ready_available : M mod_hdcp_status :=
  h <- get_hd ;;
  if is_dp_hdcp h then st_ret MOD_HDCP_STATUS_INVALID_OPERATION
  else mod_hdcp_read_rxstatus >>?
       size_announced m2_repeater_auth_stream_ready MOD_HDCP_STATUS_HDCP2_STREAM_READY_PENDING.

Definition get_device_count : M Z :=
  b1 <- get_byte m2_rx_id_list 1 ;;
  b2 <- get_byte m2_rx_id_list 2 ;;
  st_ret (HDCP_2_2_DEV_COUNT_LO b2 + Z.shiftl (HDCP_2_2_DEV_COUNT_HI b1) 4).

Definition check_device_count : M mod_hdcp_status :=
  count <- get_device_count ;;
  h <- get_hd ;;
  st_ret (if count =? 0 then MOD_HDCP_STATUS_HDCP1_DEVICE_COUNT_MISMATCH_FAILURE
          else if 1 + count <? get_active_display_count h then MOD_HDCP_STATUS_HDCP2_DEVICE_COUNT_MISMATCH_FAILURE
          else MOD_HDCP_STATUS_SUCCESS).

(** ** Execution *)

Definition process_rxstatus : M mod_hdcp_status :=
  mod_hdcp_execute_and_set mod_hdcp_read_rxstatus in2_rxstatus_read >>?
  mod_hdcp_execute_and_set check_reauthentication_request in2_reauth_request_check >>?
  (h <- get_hd ;;
   if is_dp_hdcp h then mod_hdcp_execute_and_set check_link_integrity_failure_dp in2_link_integrity_check_dp
   else st_ret MOD_HDCP_STATUS_SUCCESS) >>?
  (h <- get_hd ;;
   if is_repeater (connection h) then
     ready <- check_receiver_id_list_ready ;;
     if success ready then
       mod_ctx (fun c => EventCtx (event c) true (unexpected_event c)) ;;
       rxstatus <- get_msg m2_rxstatus ;;
       put_int m2_rx_id_list_size (if is_dp_hdcp h then msg_size m2_rx_id_list
                                   else get_hdmi_rxstatus_msg_size rxstatus) ;;
       st_ret MOD_HDCP_STATUS_SUCCESS
     else st_ret MOD_HDCP_STATUS_SUCCESS
   else st_ret MOD_HDCP_STATUS_SUCCESS).

Definition known_hdcp2_capable_rx : M mod_hdcp_status :=
  expects is_callback (
    mod_hdcp_execute_and_set mod_hdcp_read_hdcp2version in2_hdcp2version_read >>?
    mod_hdcp_execute_and_set check_hdcp2_capable in2_hdcp2_capable_check).

Definition send_ake_init : M mod_hdcp_status :=
  expects is_callback (
    mod_hdcp_execute_and_set mod_hdcp_hdcp2_create_session in2_create_session >>?
    mod_hdcp_execute_and_set mod_hdcp_hdcp2_prepare_ake_init in2_ake_init_prepare >>?
    mod_hdcp_execute_and_set mod_hdcp_write_ake_init in2_ake_init_write).

Definition validate_ake_cert : M mod_hdcp_status :=
  expects (fun e => is_callback e || is_watchdog e) (
    (h <- get_hd ;;
     if is_hdmi_dvi_sl_hdcp h then mod_hdcp_execute_and_set check_ake_cert_available in2_ake_cert_available
     else st_ret MOD_HDCP_STATUS_SUCCESS) >>?
    mod_hdcp_execute_and_set mod_hdcp_read_ake_cert in2_ake_cert_read >>?
    mod_hdcp_execute_and_set mod_hdcp_hdcp2_validate_ake_cert in2_ake_cert_validation).

Definition send_no_stored_km : M mod_hdcp_status :=
  expects is_callback (mod_hdcp_execute_and_set mod_hdcp_write_no_stored_km in2_no_stored_km_write).

Definition any_event (e : mod_hdcp_event) : bool := is_callback e || is_cpirq e || is_watchdog e.

Definition read_h_prime : M mod_hdcp_status :=
  expects any_event (
    mod_hdcp_execute_and_set check_h_prime_available in2_h_prime_available >>?
    mod_hdcp_execute_and_set mod_hdcp_read_h_prime in2_h_prime_read).

Definition read_pairing_info_and_validate_h_prime : M mod_hdcp_status :=
  expects any_event (
    mod_hdcp_execute_and_set check_pairing_info_available in2_pairing_available >>?
    mod_hdcp_execute_and_set mod_hdcp_read_pairing_info in2_pairing_info_read >>?
    mod_hdcp_execute_and_set mod_hdcp_hdcp2_validate_h_prime in2_h_prime_validation).

Definition send_stored_km : M mod_hdcp_status :=
  expects is_callback (mod_hdcp_execute_and_set mod_hdcp_write_stored_km in2_stored_km_write).

Definition validate_h_prime : M mod_hdcp_status :=
  expects any_event (
    mod_hdcp_execute_and_set check_h_prime_available in2_h_prime_available >>?
    mod_hdcp_execute_and_set mod_hdcp_read_h_prime in2_h_prime_read >>?
    mod_hdcp_execute_and_set mod_hdcp_hdcp2_validate_h_prime in2_h_prime_validation).

Definition locality_check_sw : M mod_hdcp_status :=
  mod_hdcp_execute_and_set mod_hdcp_write_lc_init in2_lc_init_write >>?
  (h <- get_hd ;;
   if is_dp_hdcp h then st_ret MOD_HDCP_STATUS_SUCCESS
   else mod_hdcp_execute_and_set poll_l_prime_available in2_l_prime_available_poll) >>?
  mod_hdcp_execute_and_set mod_hdcp_read_l_prime in2_l_prime_read.

Definition locality_check_fw : M mod_hdcp_status :=
  mod_hdcp_execute_and_set mod_hdcp_write_poll_read_lc_fw in2_l_prime_read.

Definition locality_check : M mod_hdcp_status :=
  h <- get_hd ;;
  let use_fw := has_atomic_i2c (config h) && has_atomic_aux (config h) &&
                negb (force_sw_locality_check (adj_hdcp2 (adjust (link (connection h))))) in
  expects is_callback (
    mod_hdcp_execute_and_set mod_hdcp_hdcp2_prepare_lc_init in2_lc_init_prepare >>?
    (if use_fw then locality_check_fw else locality_check_sw) >>?
    mod_hdcp_execute_and_set mod_hdcp_hdcp2_validate_l_prime in2_l_prime_validation).

Definition exchange_ks_and_test_for_repeater : M mod_hdcp_status :=
  expects is_callback (
    mod_hdcp_execute_and_set mod_hdcp_hdcp2_prepare_eks in2_eks_prepare >>?
    mod_hdcp_execute_and_set mod_hdcp_write_eks in2_eks_write).

(** [rest], after the RxStatus of an HDMI receiver has been looked at; a CP_IRQ is only
    looked at. *)
Definition with_rxstatus (rest : M mod_hdcp_status) : M mod_hdcp_status :=
  c <- st_gets ctx ;;
  if is_cpirq (event c) then process_rxstatus
  else
    h <- get_hd ;;
    if is_hdmi_dvi_sl_hdcp h then
      process_rxstatus >>?
      (c <- st_gets ctx ;; if rx_id_list_ready c then st_ret MOD_HDCP_STATUS_SUCCESS else rest)
    else rest.

Definition enable_encryption : M mod_hdcp_status :=
  expects (fun e => is_callback e || is_cpirq e) (with_rxstatus (
    mod_hdcp_execute_and_set mod_hdcp_hdcp2_enable_encryption in2_enable_encryption >>?
    (h <- get_hd ;;
     if is_dp_mst_hdcp h
     then mod_hdcp_execute_and_set mod_hdcp_hdcp2_enable_dp_stream_encryption in2_stream_encryption_dp
     else st_ret MOD_HDCP_STATUS_SUCCESS))).

Definition authenticated : M mod_hdcp_status :=
  expects (fun e => is_callback e || is_cpirq e) process_rxstatus.

Definition wait_for_rx_id_list : M mod_hdcp_status :=
  expects any_event (
    process_rxstatus >>?
    (c <- st_gets ctx ;;
     st_ret (if rx_id_list_ready c then MOD_HDCP_STATUS_SUCCESS else MOD_HDCP_STATUS_HDCP2_RX_ID_LIST_NOT_READY))).

Definition verify_rx_id_list_and_send_ack : M mod_hdcp_status :=
  expects (fun e => is_callback e || is_cpirq e) (
    c <- st_gets ctx ;;
    if is_cpirq (event c) then process_rxstatus
    else
      mod_hdcp_execute_and_set mod_hdcp_read_rx_id_list in2_rx_id_list_read >>?
      mod_hdcp_execute_and_set check_device_count in2_device_count_check >>?
      mod_hdcp_execute_and_set mod_hdcp_hdcp2_validate_rx_id_list in2_rx_id_list_validation >>?
      mod_hdcp_execute_and_set mod_hdcp_write_repeater_auth_ack in2_repeater_auth_ack_write).

Definition send_stream_management : M mod_hdcp_status :=
  expects (fun e => is_callback e || is_cpirq e) (with_rxstatus (
    mod_hdcp_execute_and_set mod_hdcp_hdcp2_prepare_stream_management in2_prepare_stream_manage >>?
    mod_hdcp_execute_and_set mod_hdcp_write_stream_manage in2_stream_manage_write)).

Definition validate_stream_ready : M mod_hdcp_status :=
  expects any_event (with_rxstatus (
    (h <- get_hd ;;
     if is_hdmi_dvi_sl_hdcp h
     then mod_hdcp_execute_and_set check_stream_ready_available in2_stream_ready_available
     else st_ret MOD_HDCP_STATUS_SUCCESS) >>?
    mod_hdcp_execute_and_set mod_hdcp_read_stream_ready in2_stream_ready_read >>?
    mod_hdcp_execute_and_set mod_hdcp_hdcp2_validate_stream_ready in2_stream_ready_validation)).

Definition determine_rx_hdcp_capable_dp : M mod_hdcp_status :=
  expects is_callback (
    mod_hdcp_execute_and_set mod_hdcp_read_rxcaps in2_rx_caps_read_dp >>?
    mod_hdcp_execute_and_set check_hdcp2_capable in2_hdcp2_capable_check).

Definition send_content_stream_type_dp : M mod_hdcp_status :=
  expects (fun e => is_callback e || is_cpirq e) (
    process_rxstatus >>?
    mod_hdcp_execute_and_set mod_hdcp_write_content_type in2_content_stream_type_write).

Definition mod_hdcp_hdcp2_execution : M mod_hdcp_status :=
  h <- get_hd ;;
  match current_state h with
  | H2_A0_KNOWN_HDCP2_CAPABLE_RX => known_hdcp2_capable_rx
  | H2_A1_SEND_AKE_INIT => send_ake_init
  | H2_A1_VALIDATE_AKE_CERT => validate_ake_cert
  | H2_A1_SEND_NO_STORED_KM => send_no_stored_km
  | H2_A1_READ_H_PRIME => read_h_prime
  | H2_A1_READ_PAIRING_INFO_AND_VALIDATE_H_PRIME => read_pairing_info_and_validate_h_prime
  | H2_A1_SEND_STORED_KM => send_stored_km
  | H2_A1_VALIDATE_H_PRIME => validate_h_prime
  | H2_A2_LOCALITY_CHECK => locality_check
  | H2_A3_EXCHANGE_KS_AND_TEST_FOR_REPEATER => exchange_ks_and_test_for_repeater
  | H2_ENABLE_ENCRYPTION => enable_encryption
  | H2_A5_AUTHENTICATED => authenticated
  | H2_A6_WAIT_FOR_RX_ID_LIST => wait_for_rx_id_list
  | H2_A78_VERIFY_RX_ID_LIST_AND_SEND_ACK => verify_rx_id_list_and_send_ack
  | H2_A9_SEND_STREAM_MANAGEMENT => send_stream_management
  | H2_A9_VALIDATE_STREAM_READY => validate_stream_ready
  | _ => st_ret MOD_HDCP_STATUS_INVALID_STATE
  end.

Definition mod_hdcp_hdcp2_dp_execution : M mod_hdcp_status :=
  h <- get_hd ;;
  match current_state h with
  | D2_A0_DETERMINE_RX_HDCP_CAPABLE => determine_rx_hdcp_capable_dp
  | D2_A1_SEND_AKE_INIT => send_ake_init
  | D2_A1_VALIDATE_AKE_CERT => validate_ake_cert
  | D2_A1_SEND_NO_STORED_KM => send_no_stored_km
  | D2_A1_READ_H_PRIME => read_h_prime
  | D2_A1_READ_PAIRING_INFO_AND_VALIDATE_H_PRIME => read_pairing_info_and_validate_h_prime
  | D2_A1_SEND_STORED_KM => send_stored_km
  | D2_A1_VALIDATE_H_PRIME => validate_h_prime
  | D2_A2_LOCALITY_CHECK => locality_check
  | D2_A34_EXCHANGE_KS_AND_TEST_FOR_REPEATER => exchange_ks_and_test_for_repeater
  | D2_SEND_CONTENT_STREAM_TYPE => send_content_stream_type_dp
  | D2_ENABLE_ENCRYPTION => enable_encryption
  | D2_A5_AUTHENTICATED => authenticated
  | D2_A6_WAIT_FOR_RX_ID_LIST => wait_for_rx_id_list
  | D2_A78_VERIFY_RX_ID_LIST_AND_SEND_ACK => verify_rx_id_list_and_send_ack
  | D2_A9_SEND_STREAM_MANAGEMENT => send_stream_management
  | D2_A9_VALIDATE_STREAM_READY => validate_stream_ready
  | _ => st_ret MOD_HDCP_STATUS_INVALID_STATE
  end.

(** ** Transition *)

Definition retry_stream_management (id : state_id) : M mod_hdcp_status :=
  mod_auth (fun a => set_stream_retry (u8 (stream_management_retry_count a + 1)) a) ;;
  callback_in_ms 0 ;; goto_state id.

Definition mod_hdcp_hdcp2_transition : M mod_hdcp_status :=
  h <- get_hd ;;
  c <- st_gets ctx ;;
  let input k := trans_input (auth h) k in
  let conn := connection h in
  let adj := adj_hdcp2 (adjust (link conn)) in
  let not_passed k := negb (passed (input k)) in
  match current_state h with
  | H2_A0_KNOWN_HDCP2_CAPABLE_RX =>
    if not_passed in2_hdcp2version_read || not_passed in2_hdcp2_capable_check then
      mod_adjust (set_adj2 set_disable2) ;; callback_in_ms 0 ;; goto_state HDCP_INITIALIZED
    else callback_in_ms 0 ;; goto_state H2_A1_SEND_AKE_INIT
  | H2_A1_SEND_AKE_INIT =>
    if not_passed in2_create_session || not_passed in2_ake_init_prepare then
      mod_adjust (set_adj2 set_disable2) ;; fail_and_restart_in_ms 0
    else if not_passed in2_ake_init_write then fail_and_restart_in_ms 0
    else set_watchdog_in_ms 100 ;; callback_in_ms 0 ;; goto_state H2_A1_VALIDATE_AKE_CERT
  | H2_A1_VALIDATE_AKE_CERT =>
    if not_passed in2_ake_cert_available then
      if is_watchdog (event c) then fail_and_restart_in_ms 1000 else callback_in_ms 10 ;; stay
    else if not_passed in2_ake_cert_read || not_passed in2_ake_cert_validation then fail_and_restart_in_ms 0
    else if is_km_stored conn && negb (force_no_stored_km adj) then callback_in_ms 0 ;; goto_state H2_A1_SEND_STORED_KM
    else callback_in_ms 0 ;; goto_state H2_A1_SEND_NO_STORED_KM
  | H2_A1_SEND_NO_STORED_KM =>
    if not_passed in2_no_stored_km_write then fail_and_restart_in_ms 0
    else
      set_watchdog_in_ms (if increase_h_prime_timeout adj then 2000 else 1000) ;;
      callback_in_ms 0 ;; goto_state H2_A1_READ_H_PRIME
  | H2_A1_READ_H_PRIME =>
    if not_passed in2_h_prime_available then
      if is_watchdog (event c) then fail_and_restart_in_ms 1000 else callback_in_ms 100 ;; stay
    else if not_passed in2_h_prime_read then fail_and_restart_in_ms 0
    else set_watchdog_in_ms 200 ;; callback_in_ms 0 ;; goto_state H2_A1_READ_PAIRING_INFO_AND_VALIDATE_H_PRIME
  | H2_A1_READ_PAIRING_INFO_AND_VALIDATE_H_PRIME =>
    if not_passed in2_pairing_available then
      if is_watchdog (event c) then fail_and_restart_in_ms 0 else callback_in_ms 20 ;; stay
    else if not_passed in2_pairing_info_read || not_passed in2_h_prime_validation then fail_and_restart_in_ms 0
    else callback_in_ms 0 ;; goto_state H2_A2_LOCALITY_CHECK
  | H2_A1_SEND_STORED_KM =>
    if not_passed in2_stored_km_write then fail_and_restart_in_ms 0
    else set_watchdog_in_ms 200 ;; callback_in_ms 0 ;; goto_state H2_A1_VALIDATE_H_PRIME
  | H2_A1_VALIDATE_H_PRIME =>
    if not_passed in2_h_prime_available then
      if is_watchdog (event c) then fail_and_restart_in_ms 1000 else callback_in_ms 20 ;; stay
    else if not_passed in2_h_prime_read then fail_and_restart_in_ms 0
    else if not_passed in2_h_prime_validation then
      mod_adjust (set_adj2 set_force_no_stored_km) ;; fail_and_restart_in_ms 0
    else callback_in_ms 0 ;; goto_state H2_A2_LOCALITY_CHECK
  | H2_A2_LOCALITY_CHECK =>
    let use_fw := has_atomic_i2c (config h) && negb (force_sw_locality_check adj) in
    if (10 <? stay_count h) || not_passed in2_lc_init_prepare || (negb use_fw && not_passed in2_lc_init_write) ||
       (negb use_fw && not_passed in2_l_prime_available_poll)
    then fail_and_restart_in_ms 0
    else if not_passed in2_l_prime_read then
      if use_fw && lc_enable_sw_fallback (config h) then
        mod_adjust (set_adj2 set_force_sw_locality_check) ;; callback_in_ms 0 ;; st_ret MOD_HDCP_STATUS_SUCCESS
      else fail_and_restart_in_ms 0
    else if not_passed in2_l_prime_validation then callback_in_ms 0 ;; stay
    else callback_in_ms 0 ;; goto_state H2_A3_EXCHANGE_KS_AND_TEST_FOR_REPEATER
  | H2_A3_EXCHANGE_KS_AND_TEST_FOR_REPEATER =>
    if not_passed in2_eks_prepare || not_passed in2_eks_write then fail_and_restart_in_ms 0
    else if is_repeater conn then
      set_watchdog_in_ms 3000 ;; callback_in_ms 0 ;; goto_state H2_A6_WAIT_FOR_RX_ID_LIST
    else callback_in_ms 210 ;; goto_state H2_ENABLE_ENCRYPTION
  | H2_ENABLE_ENCRYPTION =>
    if not_passed in2_rxstatus_read || not_passed in2_reauth_request_check then fail_and_restart_in_ms 0
    else if rx_id_list_ready c && is_repeater conn then
      callback_in_ms 0 ;; goto_state H2_A78_VERIFY_RX_ID_LIST_AND_SEND_ACK
    else if not_passed in2_enable_encryption then fail_and_restart_in_ms 0
    else callback_in_ms 0 ;; goto_authenticated H2_A5_AUTHENTICATED
  | H2_A5_AUTHENTICATED =>
    if failed (input in2_rxstatus_read) || failed (input in2_reauth_request_check) then fail_and_restart_in_ms 0
    else if rx_id_list_ready c && is_repeater conn then
      callback_in_ms 0 ;; goto_state H2_A78_VERIFY_RX_ID_LIST_AND_SEND_ACK
    else callback_in_ms 500 ;; stay
  | H2_A6_WAIT_FOR_RX_ID_LIST =>
    if not_passed in2_rxstatus_read || not_passed in2_reauth_request_check then fail_and_restart_in_ms 0
    else if negb (rx_id_list_ready c) then
      if is_watchdog (event c) then fail_and_restart_in_ms 100 else callback_in_ms 300 ;; stay
    else callback_in_ms 0 ;; goto_state H2_A78_VERIFY_RX_ID_LIST_AND_SEND_ACK
  | H2_A78_VERIFY_RX_ID_LIST_AND_SEND_ACK =>
    if not_passed in2_rxstatus_read || not_passed in2_reauth_request_check || not_passed in2_rx_id_list_read ||
       not_passed in2_device_count_check || not_passed in2_rx_id_list_validation ||
       not_passed in2_repeater_auth_ack_write
    then fail_and_restart_in_ms 0
    else callback_in_ms 0 ;; goto_state H2_A9_SEND_STREAM_MANAGEMENT
  | H2_A9_SEND_STREAM_MANAGEMENT =>
    if not_passed in2_rxstatus_read || not_passed in2_reauth_request_check then fail_and_restart_in_ms 0
    else if rx_id_list_ready c && is_repeater conn then
      callback_in_ms 0 ;; goto_state H2_A78_VERIFY_RX_ID_LIST_AND_SEND_ACK
    else if not_passed in2_prepare_stream_manage || not_passed in2_stream_manage_write then fail_and_restart_in_ms 0
    else set_watchdog_in_ms 100 ;; callback_in_ms 0 ;; goto_state H2_A9_VALIDATE_STREAM_READY
  | H2_A9_VALIDATE_STREAM_READY =>
    if not_passed in2_rxstatus_read || not_passed in2_reauth_request_check then fail_and_restart_in_ms 0
    else if rx_id_list_ready c && is_repeater conn then
      callback_in_ms 0 ;; goto_state H2_A78_VERIFY_RX_ID_LIST_AND_SEND_ACK
    else if not_passed in2_stream_ready_available then
      if is_watchdog (event c) then retry_stream_management H2_A9_SEND_STREAM_MANAGEMENT
      else callback_in_ms 10 ;; stay
    else if not_passed in2_stream_ready_read || not_passed in2_stream_ready_validation then
      if 10 <? stream_management_retry_count (auth h) then fail_and_restart_in_ms 0
      else retry_stream_management H2_A9_SEND_STREAM_MANAGEMENT
    else callback_in_ms 200 ;; goto_state H2_ENABLE_ENCRYPTION
  | _ => fail_and_restart_in_ms 0
  end.

Definition mod_hdcp_hdcp2_dp_transition : M mod_hdcp_status :=
  h <- get_hd ;;
  c <- st_gets ctx ;;
  let input k := trans_input (auth h) k in
  let conn := connection h in
  let adj := adj_hdcp2 (adjust (link conn)) in
  let not_passed k := negb (passed (input k)) in
  let link_lost := not_passed in2_rxstatus_read || not_passed in2_reauth_request_check ||
                   not_passed in2_link_integrity_check_dp in
  match current_state h with
  | D2_A0_DETERMINE_RX_HDCP_CAPABLE =>
    if not_passed in2_rx_caps_read_dp || not_passed in2_hdcp2_capable_check then
      mod_adjust (set_adj2 set_disable2) ;; callback_in_ms 0 ;; goto_state HDCP_INITIALIZED
    else callback_in_ms 0 ;; goto_state D2_A1_SEND_AKE_INIT
  | D2_A1_SEND_AKE_INIT =>
    if not_passed in2_create_session || not_passed in2_ake_init_prepare then
      mod_adjust (set_adj2 set_disable2) ;; fail_and_restart_in_ms 0
    else if not_passed in2_ake_init_write then fail_and_restart_in_ms 0
    else callback_in_ms 100 ;; goto_state D2_A1_VALIDATE_AKE_CERT
  | D2_A1_VALIDATE_AKE_CERT =>
    if not_passed in2_ake_cert_read || not_passed in2_ake_cert_validation then fail_and_restart_in_ms 0
    else if is_km_stored conn && negb (force_no_stored_km adj) then callback_in_ms 0 ;; goto_state D2_A1_SEND_STORED_KM
    else callback_in_ms 0 ;; goto_state D2_A1_SEND_NO_STORED_KM
  | D2_A1_SEND_NO_STORED_KM =>
    if not_passed in2_no_stored_km_write then fail_and_restart_in_ms 0
    else
      set_watchdog_in_ms (if increase_h_prime_timeout adj then 2000 else 1000) ;; goto_state D2_A1_READ_H_PRIME
  | D2_A1_READ_H_PRIME =>
    if not_passed in2_h_prime_available then
      if is_watchdog (event c) then fail_and_restart_in_ms 1000 else stay
    else if not_passed in2_h_prime_read then fail_and_restart_in_ms 0
    else set_watchdog_in_ms 200 ;; goto_state D2_A1_READ_PAIRING_INFO_AND_VALIDATE_H_PRIME
  | D2_A1_READ_PAIRING_INFO_AND_VALIDATE_H_PRIME =>
    if not_passed in2_pairing_available then
      if is_watchdog (event c) then fail_and_restart_in_ms 0 else stay
    else if not_passed in2_pairing_info_read || not_passed in2_h_prime_validation then fail_and_restart_in_ms 0
    else callback_in_ms 0 ;; goto_state D2_A2_LOCALITY_CHECK
  | D2_A1_SEND_STORED_KM =>
    if not_passed in2_stored_km_write then fail_and_restart_in_ms 0
    else set_watchdog_in_ms 200 ;; goto_state D2_A1_VALIDATE_H_PRIME
  | D2_A1_VALIDATE_H_PRIME =>
    if not_passed in2_h_prime_available then
      if is_watchdog (event c) then fail_and_restart_in_ms 1000 else stay
    else if not_passed in2_h_prime_read then fail_and_restart_in_ms 0
    else if not_passed in2_h_prime_validation then
      mod_adjust (set_adj2 set_force_no_stored_km) ;; fail_and_restart_in_ms 0
    else callback_in_ms 0 ;; goto_state D2_A2_LOCALITY_CHECK
  | D2_A2_LOCALITY_CHECK =>
    let use_fw := has_atomic_aux (config h) && negb (force_sw_locality_check adj) in
    if (10 <? stay_count h) || not_passed in2_lc_init_prepare || (negb use_fw && not_passed in2_lc_init_write)
    then fail_and_restart_in_ms 0
    else if not_passed in2_l_prime_read then
      if use_fw && lc_enable_sw_fallback (config h) then
        mod_adjust (set_adj2 set_force_sw_locality_check) ;; callback_in_ms 0 ;; st_ret MOD_HDCP_STATUS_SUCCESS
      else fail_and_restart_in_ms 0
    else if not_passed in2_l_prime_validation then callback_in_ms 0 ;; stay
    else callback_in_ms 0 ;; goto_state D2_A34_EXCHANGE_KS_AND_TEST_FOR_REPEATER
  | D2_A34_EXCHANGE_KS_AND_TEST_FOR_REPEATER =>
    if not_passed in2_eks_prepare || not_passed in2_eks_write then fail_and_restart_in_ms 0
    else if is_repeater conn then set_watchdog_in_ms 3000 ;; goto_state D2_A6_WAIT_FOR_RX_ID_LIST
    else callback_in_ms 1 ;; goto_state D2_SEND_CONTENT_STREAM_TYPE
  | D2_SEND_CONTENT_STREAM_TYPE =>
    if link_lost || not_passed in2_content_stream_type_write then fail_and_restart_in_ms 0
    else callback_in_ms 210 ;; goto_state D2_ENABLE_ENCRYPTION
  | D2_ENABLE_ENCRYPTION =>
    if link_lost then fail_and_restart_in_ms 0
    else if rx_id_list_ready c && is_repeater conn then
      callback_in_ms 0 ;; goto_state D2_A78_VERIFY_RX_ID_LIST_AND_SEND_ACK
    else if not_passed in2_enable_encryption || (is_dp_mst_hdcp h && not_passed in2_stream_encryption_dp)
    then fail_and_restart_in_ms 0
    else goto_authenticated D2_A5_AUTHENTICATED
  | D2_A5_AUTHENTICATED =>
    if failed (input in2_rxstatus_read) || failed (input in2_reauth_request_check) then fail_and_restart_in_ms 100
    else if failed (input in2_link_integrity_check_dp) then
      st_when (1 <=? hdcp2_retry_count conn) (mod_adjust (set_adj2 (set_force_type MOD_HDCP_FORCE_TYPE_0))) ;;
      fail_and_restart_in_ms 0
    else if rx_id_list_ready c && is_repeater conn then
      callback_in_ms 0 ;; goto_state D2_A78_VERIFY_RX_ID_LIST_AND_SEND_ACK
    else stay
  | D2_A6_WAIT_FOR_RX_ID_LIST =>
    if link_lost then fail_and_restart_in_ms 0
    else if negb (rx_id_list_ready c) then
      if is_watchdog (event c) then fail_and_restart_in_ms 0 else stay
    else callback_in_ms 0 ;; goto_state D2_A78_VERIFY_RX_ID_LIST_AND_SEND_ACK
  | D2_A78_VERIFY_RX_ID_LIST_AND_SEND_ACK =>
    if link_lost || not_passed in2_rx_id_list_read || not_passed in2_device_count_check ||
       not_passed in2_rx_id_list_validation || not_passed in2_repeater_auth_ack_write
    then fail_and_restart_in_ms 0
    else callback_in_ms 0 ;; goto_state D2_A9_SEND_STREAM_MANAGEMENT
  | D2_A9_SEND_STREAM_MANAGEMENT =>
    if link_lost then fail_and_restart_in_ms 0
    else if rx_id_list_ready c then callback_in_ms 0 ;; goto_state D2_A78_VERIFY_RX_ID_LIST_AND_SEND_ACK
    else if not_passed in2_prepare_stream_manage || not_passed in2_stream_manage_write then
      if is_callback (event c) then fail_and_restart_in_ms 0 else stay
    else callback_in_ms 100 ;; goto_state D2_A9_VALIDATE_STREAM_READY
  | D2_A9_VALIDATE_STREAM_READY =>
    if link_lost then fail_and_restart_in_ms 0
    else if rx_id_list_ready c then callback_in_ms 0 ;; goto_state D2_A78_VERIFY_RX_ID_LIST_AND_SEND_ACK
    else if not_passed in2_stream_ready_read || not_passed in2_stream_ready_validation then
      if 10 <? stream_management_retry_count (auth h) then fail_and_restart_in_ms 0
      else if is_callback (event c) then retry_stream_management D2_A9_SEND_STREAM_MANAGEMENT
      else stay
    else callback_in_ms 200 ;; goto_state D2_ENABLE_ENCRYPTION
  | _ => fail_and_restart_in_ms 0
  end.
End Hdcp2.
