(* ===== verification/HdcpTop.v ===== *)
(** * HDCP: the interface of the module

    Model of amd/display/modules/hdcp/hdcp.c: the event handler that executes a state,
    takes a transition and resets the authentication when needed, and the operations on
    displays and on the connection. *)

From stdpp Require Import list.
From Stdlib Require Import ZArith Lia.
From S2P Require Import Prelude Bytes Hdcp HdcpIo HdcpPsp Hdcp1 Hdcp2.
Open Scope st_scope.

Inductive signal_type : Type :=
| SIGNAL_TYPE_NONE | SIGNAL_TYPE_DVI_SINGLE_LINK | SIGNAL_TYPE_DVI_DUAL_LINK | SIGNAL_TYPE_HDMI_TYPE_A
| SIGNAL_TYPE_LVDS | SIGNAL_TYPE_RGB | SIGNAL_TYPE_DISPLAY_PORT | SIGNAL_TYPE_DISPLAY_PORT_MST | SIGNAL_TYPE_EDP
| SIGNAL_TYPE_VIRTUAL.

Definition mod_hdcp_signal_type_to_operation_mode (signal : signal_type) : mod_hdcp_operation_mode :=
  match signal with
  | SIGNAL_TYPE_DVI_SINGLE_LINK | SIGNAL_TYPE_HDMI_TYPE_A => MOD_HDCP_MODE_DEFAULT
  | SIGNAL_TYPE_EDP | SIGNAL_TYPE_DISPLAY_PORT | SIGNAL_TYPE_DISPLAY_PORT_MST => MOD_HDCP_MODE_DP
  | _ => MOD_HDCP_MODE_OFF
  end.

(** What a query returns; [link], [display] and [trace] are those of the connection. *)
Record mod_hdcp_display_query := Query {
  q_display : mod_hdcp_display;
  q_link : mod_hdcp_link;
  q_trace : list (mod_hdcp_status * state_id);
  encryption_status : mod_hdcp_encryption_status
}.

Section Top.
Context {W : Type} `{!HdcpWorld W}.
Abbreviation M := (stM (hst W)).

(** The retry counters are [uint8_t]. *)
Definition push_error_status (status : mod_hdcp_status) : M unit :=
  mod_hd (fun h =>
    let c := connection h in
    let c := if Z.of_nat (length (trace c)) <? MAX_NUM_OF_ERROR_TRACE
             then set_trace (trace c ++ [(status, current_state h)]) c else c in
    set_connection
      (if is_hdcp1 h then
         let n := u8 (hdcp1_retry_count c + 1) in
         let c := set_retries n (hdcp2_retry_count c) c in
         if n =? MAX_NUM_OF_ATTEMPTS
         then set_link (set_adjust (set_adj1 set_disable1 (adjust (link c))) (link c)) c else c
       else if is_hdcp2 h then
         let n := u8 (hdcp2_retry_count c + 1) in
         let c := set_retries (hdcp1_retry_count c) n c in
         if n =? MAX_NUM_OF_ATTEMPTS
         then set_link (set_adjust (set_adj2 set_disable2 (adjust (link c))) (link c)) c else c
       else c) h).

Definition push_unless_success (status : mod_hdcp_status) : M unit :=
  if success status then st_ret tt else push_error_status status.

(** A display on the link needs authentication. *)
Definition is_auth_needed (h : mod_hdcp) : bool :=
  existsb (fun d => is_display_active d && negb (adj_disable (d_adjust d) =? MOD_HDCP_DISPLAY_DISABLE_AUTHENTICATION))
    (displays h).
Definition is_cp_desired_hdcp1 (h : mod_hdcp) : bool :=
  is_auth_needed h && negb (disable1 (adj_hdcp1 (adjust (link (connection h))))) && negb (is_hdcp1_revoked (connection h)).
Definition is_cp_desired_hdcp2 (h : mod_hdcp) : bool :=
  is_auth_needed h && negb (disable2 (adj_hdcp2 (adjust (link (connection h))))) && negb (is_hdcp2_revoked (connection h)).

Definition execution : M mod_hdcp_status :=
  h <- get_hd ;;
  if is_in_initialized_state h then
    expects is_callback (
      mod_auth (fun a => Auth (auth_id a) (msg a) (fun _ => UNKNOWN) (stream_management_retry_count a)) ;;
      st_ret MOD_HDCP_STATUS_SUCCESS)
  else if is_in_cp_not_desired_state h then expects is_callback (st_ret MOD_HDCP_STATUS_SUCCESS)
  else if is_in_hdcp1_states h then mod_hdcp_hdcp1_execution
  else if is_in_hdcp1_dp_states h then mod_hdcp_hdcp1_dp_execution
  else if is_in_hdcp2_states h then mod_hdcp_hdcp2_execution
  else if is_in_hdcp2_dp_states h then mod_hdcp_hdcp2_dp_execution
  else expects (fun _ => false) (st_ret MOD_HDCP_STATUS_SUCCESS).

(** From the initialized state: HDCP 2 first, then HDCP 1, then nothing to do. *)
Definition start (hdcp2 hdcp1 : state_id) : M mod_hdcp_status :=
  h <- get_hd ;;
  callback_in_ms 0 ;;
  if is_cp_desired_hdcp2 h then goto_state hdcp2
  else if is_cp_desired_hdcp1 h then goto_state hdcp1
  else goto_authenticated HDCP_CP_NOT_DESIRED.

Definition transition : M mod_hdcp_status :=
  c <- st_gets ctx ;;
  if unexpected_event c then st_ret MOD_HDCP_STATUS_SUCCESS else
  h <- get_hd ;;
  if is_in_initialized_state h then
    if is_dp_hdcp h then start D2_A0_DETERMINE_RX_HDCP_CAPABLE D1_A0_DETERMINE_RX_HDCP_CAPABLE
    else if is_hdmi_dvi_sl_hdcp h then start H2_A0_KNOWN_HDCP2_CAPABLE_RX H1_A0_WAIT_FOR_ACTIVE_RX
    else callback_in_ms 0 ;; goto_authenticated HDCP_CP_NOT_DESIRED
  else if is_in_cp_not_desired_state h then stay
  else if is_in_hdcp1_states h then mod_hdcp_hdcp1_transition
  else if is_in_hdcp1_dp_states h then mod_hdcp_hdcp1_dp_transition
  else if is_in_hdcp2_states h then mod_hdcp_hdcp2_transition
  else if is_in_hdcp2_dp_states h then mod_hdcp_hdcp2_dp_transition
  else st_ret MOD_HDCP_STATUS_INVALID_STATE.

(** [memset(&hdcp->auth, 0, ...)], [memset(&hdcp->state, 0, ...)] and the initialized state. *)
Definition clear_authentication : M unit :=
  mod_hd (set_auth auth_zero) ;; mod_hd (set_state HDCP_UNINITIALIZED 0) ;; set_state_id HDCP_INITIALIZED.

Definition stop_requests : M unit :=
  mod_out (fun o => Output (callback_needed o) true (watchdog_timer_needed o) true (callback_delay o)
                      (watchdog_timer_delay o) (auth_complete o)).

(** A failed HDCP 1 destroy is ignored; after a failed HDCP 2 destroy nothing is reset. *)
Definition reset_authentication : M mod_hdcp_status :=
  h <- get_hd ;;
  status <-
    (if is_hdcp1 h then
       (if negb (unknown (trans_input (auth h) in1_create_session))
        then mod_hdcp_hdcp1_destroy_session else st_ret MOD_HDCP_STATUS_SUCCESS) ;;
       clear_authentication ;; st_ret MOD_HDCP_STATUS_SUCCESS
     else if is_hdcp2 h then
       status <- (if passed (trans_input (auth h) in2_create_session)
                  then mod_hdcp_hdcp2_destroy_session else st_ret MOD_HDCP_STATUS_SUCCESS) ;;
       if success status then clear_authentication ;; st_ret MOD_HDCP_STATUS_SUCCESS
       else
         mod_out (fun o => Output false (callback_stop o) false (watchdog_timer_stop o) (callback_delay o)
                             (watchdog_timer_delay o) (auth_complete o)) ;;
         st_ret status
     else if is_in_cp_not_desired_state h then clear_authentication ;; st_ret MOD_HDCP_STATUS_SUCCESS
     else st_ret MOD_HDCP_STATUS_SUCCESS) ;;
  stop_requests ;;
  st_ret status.

Definition reset_connection : M mod_hdcp_status :=
  mod_out (fun _ => output_zero) ;;
  reset_authentication >>?
  (h <- get_hd ;;
   (match current_state h with HDCP_UNINITIALIZED => st_ret tt | _ => set_state_id HDCP_UNINITIALIZED end) ;;
   mod_conn (fun _ => connection_zero) ;;
   st_ret MOD_HDCP_STATUS_SUCCESS).

(** [i]: the position of the display. *)
Definition update_display_adjustments (i : nat) (adj : mod_hdcp_display_adjustment) : M mod_hdcp_status :=
  h <- get_hd ;;
  d <- display_at i ;;
  let set_disable v := mod_display i (fun d => set_display_adjust (DisplayAdj v (adj_reserved (d_adjust d))) d) in
  status <-
    (if is_in_authenticated_states h && is_dp_mst_hdcp h && (adj_disable (d_adjust d) =? 1) && (adj_disable adj =? 0)
     then
       set_disable 0 ;;
       status <- (if is_hdcp1 h then mod_hdcp_hdcp1_enable_dp_stream_encryption
                  else if is_hdcp2 h then mod_hdcp_hdcp2_enable_dp_stream_encryption
                  else st_ret MOD_HDCP_STATUS_NOT_IMPLEMENTED) ;;
       st_when (negb (success status)) (set_disable 1) ;;
       st_ret status
     else st_ret MOD_HDCP_STATUS_NOT_IMPLEMENTED) ;;
  d <- display_at i ;;
  st_ret (if success status && negb (bool_decide (adj = d_adjust d)) then MOD_HDCP_STATUS_NOT_IMPLEMENTED else status).

Definition mod_hdcp_setup (cfg : mod_hdcp_config) : M mod_hdcp_status :=
  mod_out (fun _ => output_zero) ;;
  mod_hd (fun h => Hdcp cfg (connection h) (displays h) (auth h) (current_state h) (stay_count h)) ;;
  status <- reset_connection ;;
  push_unless_success status ;;
  st_ret status.

Definition mod_hdcp_teardown : M mod_hdcp_status :=
  mod_out (fun _ => output_zero) ;;
  status <- reset_connection ;;
  (if success status then mod_hd (fun _ => hdcp_zero) else push_error_status status) ;;
  st_ret status.

(** The delay is the product of two [int]s, passed as a [uint16_t]. *)
Definition auth_delay_ms (h : mod_hdcp) : Z := auth_delay (adjust (link (connection h))) * 1000.

Definition restart_counters : M unit := reset_retry_counts ;; mod_conn (set_trace []).

Definition mod_hdcp_add_display (l : mod_hdcp_link) (d : mod_hdcp_display) : M mod_hdcp_status :=
  mod_out (fun _ => output_zero) ;;
  h <- get_hd ;;
  status <-
    match d_state d with
    | MOD_HDCP_DISPLAY_ACTIVE =>
      match get_active_display_at_index h (d_index d), get_empty_display_container h with
      | Some _, _ => st_ret MOD_HDCP_STATUS_SUCCESS
      | None, None => st_ret MOD_HDCP_STATUS_DISPLAY_OUT_OF_BOUND
      | None, Some i =>
        reset_authentication >>?
        (restart_counters ;;
         mod_conn (set_link l) ;;
         mod_display i (fun _ => d) ;;
         mod_hdcp_add_display_to_topology i >>?
         (h <- get_hd ;;
          (match current_state h with HDCP_INITIALIZED => st_ret tt | _ => set_state_id HDCP_INITIALIZED end) ;;
          callback_in_ms (auth_delay_ms h) ;;
          st_ret MOD_HDCP_STATUS_SUCCESS))
      end
    | _ => st_ret MOD_HDCP_STATUS_SUCCESS
    end ;;
  push_unless_success status ;;
  st_ret status.

Definition mod_hdcp_remove_display (index : Z) : M mod_hdcp_status :=
  mod_out (fun _ => output_zero) ;;
  h <- get_hd ;;
  status <-
    match get_active_display_at_index h index with
    | None => st_ret MOD_HDCP_STATUS_SUCCESS
    | Some i =>
      reset_authentication >>?
      (restart_counters ;;
       mod_hdcp_remove_display_from_topology index >>?
       (mod_display i (fun _ => display_zero) ;;
        h <- get_hd ;;
        (match current_state h with
         | HDCP_UNINITIALIZED => st_ret tt
         | _ => callback_in_ms (auth_delay_ms h)
         end) ;;
        st_ret MOD_HDCP_STATUS_SUCCESS))
    end ;;
  push_unless_success status ;;
  st_ret status.

(** Comparisons are [memcmp]s of structures without padding. *)
Definition mod_hdcp_update_display (index : Z) (link_adjust : mod_hdcp_link_adjustment)
    (display_adjust : mod_hdcp_display_adjustment) : M mod_hdcp_status :=
  mod_out (fun _ => output_zero) ;;
  h <- get_hd ;;
  status <-
    match get_active_display_at_index h index with
    | None => st_ret MOD_HDCP_STATUS_DISPLAY_NOT_FOUND
    | Some i =>
      d <- display_at i ;;
      let same_link := bool_decide (link_adjust = adjust (link (connection h))) in
      let same_display := bool_decide (display_adjust = d_adjust d) in
      if same_link && same_display then st_ret MOD_HDCP_STATUS_SUCCESS else
      status <- (if same_link && negb same_display then update_display_adjustments i display_adjust
                 else st_ret MOD_HDCP_STATUS_NOT_IMPLEMENTED) ;;
      if negb (not_implemented status) then st_ret status else
      reset_authentication >>?
      (restart_counters ;;
       mod_adjust (fun _ => link_adjust) ;;
       mod_display i (set_display_adjust display_adjust) ;;
       h <- get_hd ;;
       (match current_state h with HDCP_UNINITIALIZED => st_ret tt | _ => callback_in_ms 100 end) ;;
       st_ret MOD_HDCP_STATUS_SUCCESS)
    end ;;
  push_unless_success status ;;
  st_ret status.

Definition mod_hdcp_reset_connection : M mod_hdcp_status :=
  status <- reset_connection ;; push_unless_success status ;; st_ret status.

Definition mod_hdcp_process_event (e : mod_hdcp_event) : M mod_hdcp_status :=
  mod_out (fun _ => output_zero) ;;
  mod_ctx (fun _ => EventCtx e false false) ;;
  exec_status <- execution ;;
  trans_status <- transition ;;
  status <-
    (if success trans_status then st_ret MOD_HDCP_STATUS_SUCCESS
     else
       let status := if success exec_status then MOD_HDCP_STATUS_INTERNAL_POLICY_FAILURE else exec_status in
       push_error_status status ;; st_ret status) ;;
  (if reset_needed trans_status then
     reset_status <- reset_authentication ;; push_unless_success reset_status
   else st_ret tt) ;;
  if is_cpirq e then
    status <- mod_hdcp_clear_cp_irq_status ;; push_unless_success status ;; st_ret status
  else st_ret status.
End Top.

(** The query reads the state only. *)
Definition mod_hdcp_query_display (h : mod_hdcp) (index : Z) : mod_hdcp_display_query + mod_hdcp_status :=
  match get_active_display_at_index h index ≫= (fun i => displays h !! i) with
  | None => inr MOD_HDCP_STATUS_DISPLAY_NOT_FOUND
  | Some d =>
    let l := link (connection h) in
    let enc :=
      if is_display_encryption_enabled d then
        if is_hdcp1 h then MOD_HDCP_ENCRYPTION_STATUS_HDCP1_ON
        else if is_hdcp2 h then
          if force_type (adj_hdcp2 (adjust l)) =? MOD_HDCP_FORCE_TYPE_0 then MOD_HDCP_ENCRYPTION_STATUS_HDCP2_TYPE0_ON
          else if force_type (adj_hdcp2 (adjust l)) =? MOD_HDCP_FORCE_TYPE_1
          then MOD_HDCP_ENCRYPTION_STATUS_HDCP2_TYPE1_ON
          else MOD_HDCP_ENCRYPTION_STATUS_HDCP2_ON
        else MOD_HDCP_ENCRYPTION_STATUS_HDCP_OFF
      else MOD_HDCP_ENCRYPTION_STATUS_HDCP_OFF in
    inl (Query d l (trace (connection h)) enc)
  end.
