(* ===== verification/HdcpFrame.v ===== *)
(** * HDCP: what an execution may change

    Every function of the display data channel and of the trusted application, and the
    execution of every state, stays within a permission: the verdicts it may write,
    whether it may learn that the receiver is a repeater and whether it may turn
    encryption on. *)

From stdpp Require Import list.
From Stdlib Require Import ZArith Lia.
From S2P Require Import Prelude Bytes Hdcp HdcpIo HdcpPsp Hdcp1 Hdcp2 HdcpTop.
Open Scope st_scope.

Record permission := May { may_set : list input_field; may_repeater : bool; may_encrypt : bool }.

(** Displays keep their places; only the encryption of an active display changes. *)
Definition same_display (d d' : mod_hdcp_display) : Prop :=
  is_display_active d' = is_display_active d /\ d_index d' = d_index d /\ d_adjust d' = d_adjust d.

#[global] Instance same_display_preorder : PreOrder same_display.
Proof. split; [done|]. intros d1 d2 d3 (? & ? & ?) (? & ? & ?). unfold same_display. by repeat split; etrans. Qed.

Section Frame.
Context {W : Type} `{!HdcpWorld W}.
Abbreviation M := (stM (hst W)).

Record allowed (p : permission) (s s' : hst W) : Prop := {
  al_config : config (hd s') = config (hd s);
  al_link : link (connection (hd s')) = link (connection (hd s));
  al_retry1 : hdcp1_retry_count (connection (hd s')) = hdcp1_retry_count (connection (hd s));
  al_retry2 : hdcp2_retry_count (connection (hd s')) = hdcp2_retry_count (connection (hd s));
  al_state : current_state (hd s') = current_state (hd s);
  al_event : event (ctx s') = event (ctx s);
  al_flags : forall k, k ∉ may_set p -> trans_input (auth (hd s')) k = trans_input (auth (hd s)) k;
  al_repeater : may_repeater p = false -> is_repeater (connection (hd s')) = is_repeater (connection (hd s));
  al_displays : Forall2 same_display (displays (hd s)) (displays (hd s'));
  al_encrypt : may_encrypt p = false -> displays (hd s') = displays (hd s)
}.

#[export] Instance allowed_preorder p : PreOrder (allowed p).
Proof.
  split.
  - intros s. by split.
  - intros s1 s2 s3 [?????? F1 R1 D1 E1] [?????? F2 R2 D2 E2]. split; try (etrans; [eassumption|done]).
    + intros k Hk. by rewrite F2, F1.
    + intros. by rewrite R2, R1.
    + intros. by rewrite E2, E1.
Qed.

Lemma allowed_same p s s' :
  config (hd s') = config (hd s) -> link (connection (hd s')) = link (connection (hd s)) ->
  hdcp1_retry_count (connection (hd s')) = hdcp1_retry_count (connection (hd s)) ->
  hdcp2_retry_count (connection (hd s')) = hdcp2_retry_count (connection (hd s)) ->
  current_state (hd s') = current_state (hd s) -> event (ctx s') = event (ctx s) ->
  trans_input (auth (hd s')) = trans_input (auth (hd s)) ->
  (may_repeater p = false -> is_repeater (connection (hd s')) = is_repeater (connection (hd s))) ->
  displays (hd s') = displays (hd s) -> allowed p s s'.
Proof. intros ? ? ? ? ? ? Ht ? Hd. split; try done; [by rewrite Ht|by rewrite Hd]. Qed.

Abbreviation stays p := (respects (allowed p)).

Lemma stays_on_world p {A} (f : W -> A * W) : stays p (on_world f).
Proof. intros s a s'. unfold on_world. destruct (f (world s)). intros [= <- <-]. by apply allowed_same. Qed.

Lemma stays_set_flag p k v : k ∈ may_set p -> stays p (mod_auth (set_input k v)).
Proof.
  intros Hin. apply respects_mod. intros s. split; try done. intros j Hj. simpl. apply upd_other. by intros ->.
Qed.

Lemma stays_exec p func flag :
  stays p func -> bool_decide (flag ∈ may_set p) = true -> stays p (mod_hdcp_execute_and_set func flag).
Proof.
  intros Hf Hin%bool_decide_eq_true. unfold mod_hdcp_execute_and_set.
  apply respects_bind; [apply _|done|]. intros status. apply respects_bind; [apply _|by apply respects_gets; apply _|].
  intros r. apply respects_bind; [apply _| |intros; by apply respects_ret; apply _].
  destruct (_ && _); [by apply stays_set_flag|]. destruct (_ && _); [by apply stays_set_flag|]. apply respects_ret, _.
Qed.

Lemma stays_msg p f g : stays p (mod_auth (fun a => set_msg f (g a) a)).
Proof. apply respects_mod. intros s. by apply allowed_same. Qed.
Lemma stays_ctx p r u : stays p (mod_ctx (fun c => EventCtx (event c) (r c) (u c))).
Proof. apply respects_mod. intros s. by apply allowed_same. Qed.
Lemma stays_auth_id p n : stays p (mod_auth (set_auth_id n)).
Proof. apply respects_mod. intros s. by apply allowed_same. Qed.
Lemma stays_revoked p r1 r2 : stays p (mod_conn (fun c => set_revoked (r1 c) (r2 c) c)).
Proof. apply respects_mod. intros s. by apply allowed_same. Qed.
Lemma stays_rx p r k : may_repeater p = true -> stays p (mod_conn (fun c => set_rx (r c) (k c) c)).
Proof. intros Hp. apply respects_mod. intros s. apply allowed_same; try done. intros. congruence. Qed.

(** Turning on the encryption of an active display. *)
Lemma allowed_encrypt p (s : hst W) i d :
  may_encrypt p = true -> displays (hd s) !! i = Some d -> is_display_active d = true ->
  forall u s', mod_display i (set_display_state MOD_HDCP_DISPLAY_ENCRYPTION_ENABLED) s = Some (u, s') -> allowed p s s'.
Proof.
  intros Hp Hd Ha u s' [= _ <-]. split; try done; [|intros; congruence]. simpl.
  apply Forall2_same_length_lookup_2; [by rewrite length_alter|].
  intros j x y Hx Hy. destruct (decide (i = j)) as [<-|]; [|rewrite list_lookup_alter_ne in Hy by done; by simplify_eq].
  rewrite list_lookup_alter_eq, Hx in Hy. simplify_eq/=. by split.
Qed.

Lemma find_display_lookup q l i j :
  find_display q l i = Some j -> exists d, l !! (j - i)%nat = Some d /\ q d = true /\ (i <= j)%nat.
Proof.
  revert i. induction l as [|d l IH]; intros i; simpl; [done|]. destruct (q d) eqn:E.
  - intros [= <-]. exists d. by rewrite Nat.sub_diag.
  - intros (d' & H1 & H2 & H3)%IH. exists d'. replace (j - i)%nat with (S (j - S i)) by lia. auto with lia.
Qed.

Lemma first_active_lookup h i :
  get_first_active_display h = Some i -> exists d, displays h !! i = Some d /\ is_display_active d = true.
Proof. intros (d & Hd & ? & _)%find_display_lookup. rewrite Nat.sub_0_r in Hd. eauto. Qed.

(** ** The tactic: walk through a computation *)

End Frame.

Abbreviation stays p := (respects (allowed p)).

Ltac stay_leaf :=
  lazymatch goal with
  | |- respects _ (on_world _) => apply stays_on_world
  | |- respects _ (mod_hdcp_execute_and_set _ _) => apply stays_exec; [|reflexivity]
  | |- respects _ (mod_auth (fun a => set_msg _ _ a)) => apply stays_msg
  | |- respects _ (mod_auth (set_msg _ _)) => apply stays_msg
  | |- respects _ (mod_auth (set_auth_id _)) => apply stays_auth_id
  | |- respects _ (mod_ctx _) => apply stays_ctx
  | |- respects _ (mod_conn (fun c => set_revoked _ _ c)) => apply stays_revoked
  | |- respects _ (mod_conn (fun c => set_rx _ _ c)) => apply stays_rx; reflexivity
  | |- respects _ (mod_conn (set_rx ?a ?b)) => apply (stays_rx _ (fun _ => a) (fun _ => b)); reflexivity
  | |- _ => first [assumption | solve [auto with hdcp nocore]]
  end.
Ltac stay_step := frame_step ltac:(idtac; stay_leaf).
Ltac stay := repeat stay_step.
Create HintDb hdcp.

Section Frames.
Context {W : Type} `{!HdcpWorld W}.
Implicit Types p : permission.

Lemma stays_read_loop p fuel addr f off o n : stays p (read_loop (W:=W) fuel addr f off o n).
Proof. revert o n. induction fuel as [|fuel IH]; intros o n; cbn [read_loop]; stay. Qed.
#[local] Hint Resolve stays_read_loop : hdcp.
Lemma stays_read p m f off n : stays p (read (W:=W) m f off n).
Proof. stay. Qed.
Lemma stays_repeatedly_loop p fuel m f o n r st : stays p (read_repeatedly_loop (W:=W) fuel m f o n r st).
Proof. revert o n st. induction fuel as [|fuel IH]; intros o n st; cbn [read_repeatedly_loop]; stay. Qed.
Lemma stays_write_loop p fuel addr f off o n : stays p (write_loop (W:=W) fuel addr f off o n).
Proof. revert o n. induction fuel as [|fuel IH]; intros o n; cbn [write_loop]; stay. Qed.
Lemma stays_poll_loop p n st : stays p (poll_l_prime_loop (W:=W) n st).
Proof. revert st. induction n as [|n IH]; intros st; cbn [poll_l_prime_loop]; stay. Qed.

Lemma stays_stream_loop p cmd failure n i :
  may_encrypt p = true -> stays p (enable_stream_loop (W:=W) cmd failure n i).
Proof.
  intros Hp. revert i. induction n as [|n IH]; intros i; cbn [enable_stream_loop]; [stay|].
  intros s a s'. unfold display_at, st_bind at 1, get_hd, st_bind, st_gets, st_of_option.
  destruct (displays (hd s) !! i) as [d|] eqn:Hd; [|done]. cbn [st_ret].
  destruct (d_state d) eqn:Es; [by apply IH| |by apply IH]. destruct (negb _); [by apply IH|].
  unfold ta, st_bind at 1. unfold st_bind, get_hd, st_gets, on_world. destruct (psp_hdcp_invoke _ _) as [o w].
  destruct (negb (ta_ok o)); [intros [= _ <-]; by apply allowed_same|].
  intros E. set (s1 := Hst (hd s) (ctx s) (outp s) w) in *. destruct (mod_display _ _ s1) as [[u s2]|] eqn:E2; [|done].
  transitivity s1; [by apply allowed_same|]. transitivity s2; [|by eapply IH].
  apply (allowed_encrypt p s1 i d Hp Hd) in E2; [done|]. unfold is_display_active. by rewrite Es.
Qed.

(** Both functions that turn on the encryption of the first active display. *)
Lemma stays_first_active p cmd (none failure : mod_hdcp_status) :
  may_encrypt p = true ->
  stays p (h <- get_hd (W:=W) ;;
    match get_first_active_display h with
    | None => st_ret none
    | Some i =>
      o <- ta cmd ;;
      if negb (ta_ok o) then st_ret failure
      else
        st_when (negb (is_dp_mst_hdcp h)) (mod_display i (set_display_state MOD_HDCP_DISPLAY_ENCRYPTION_ENABLED)) ;;
        st_ret MOD_HDCP_STATUS_SUCCESS
    end).
Proof.
  intros Hp s a s'. unfold st_bind at 1, get_hd, st_gets.
  destruct (get_first_active_display (hd s)) as [i|] eqn:Hi; [|intros [= _ <-]; by apply allowed_same].
  destruct (first_active_lookup _ _ Hi) as (d & Hd & Ha).
  unfold ta, get_hd, st_gets, on_world, st_bind. destruct (psp_hdcp_invoke _ _) as [o w].
  destruct (negb (ta_ok o)); [intros [= _ <-]; by apply allowed_same|].
  set (s1 := Hst (hd s) (ctx s) (outp s) w). destruct (negb _); simpl; [|intros [= _ <-]; by apply allowed_same].
  intros [= _ <-]. transitivity s1; [by apply allowed_same|]. by eapply allowed_encrypt.
Qed.
Lemma stays_encryption1 p : may_encrypt p = true -> stays p (mod_hdcp_hdcp1_enable_encryption (W:=W)).
Proof. apply stays_first_active. Qed.
Lemma stays_encryption2 p : may_encrypt p = true -> stays p (mod_hdcp_hdcp2_enable_encryption (W:=W)).
Proof. apply stays_first_active. Qed.
End Frames.

#[export] Hint Resolve stays_read_loop stays_repeatedly_loop stays_write_loop stays_poll_loop : hdcp.
#[export] Hint Extern 1 (respects (allowed _) (enable_stream_loop _ _ _ _)) =>
  apply stays_stream_loop; reflexivity : hdcp.
#[export] Hint Extern 1 (respects (allowed _) mod_hdcp_hdcp1_enable_encryption) =>
  apply stays_encryption1; reflexivity : hdcp.
#[export] Hint Extern 1 (respects (allowed _) mod_hdcp_hdcp2_enable_encryption) =>
  apply stays_encryption2; reflexivity : hdcp.

(** ** The verdicts the execution of a state may write *)

Definition rxstatus_verdicts : list input_field :=
  [in2_rxstatus_read; in2_reauth_request_check; in2_link_integrity_check_dp].

Definition writes (s : state_id) : list input_field :=
  match s with
  | HDCP_UNINITIALIZED | HDCP_INITIALIZED | HDCP_CP_NOT_DESIRED => []
  | H1_A0_WAIT_FOR_ACTIVE_RX => [in1_bksv_read; in1_bcaps_read]
  | H1_A1_EXCHANGE_KSVS | D1_A1_EXCHANGE_KSVS =>
    [in1_create_session; in1_an_write; in1_aksv_write; in1_bksv_read; in1_bksv_validation; in1_ainfo_write]
  | H1_A2_COMPUTATIONS_A3_VALIDATE_RX_A6_TEST_FOR_REPEATER
  | D1_A2_COMPUTATIONS_A3_VALIDATE_RX_A5_TEST_FOR_REPEATER =>
    [in1_r0p_read; in1_rx_validation; in1_encryption; in1_stream_encryption_dp]
  | H1_A45_AUTHENTICATED => [in1_link_maintenance]
  | H1_A8_WAIT_FOR_READY | D1_A6_WAIT_FOR_READY =>
    [in1_bstatus_read; in1_link_integrity_check; in1_reauth_request_check; in1_bcaps_read; in1_ready_check]
  | H1_A9_READ_KSV_LIST | D1_A7_READ_KSV_LIST =>
    [in1_binfo_read_dp; in1_bstatus_read; in1_max_cascade_check; in1_max_devs_check; in1_device_count_check;
     in1_ksvlist_read; in1_vp_read; in1_ksvlist_vp_validation; in1_encryption; in1_stream_encryption_dp]
  | D1_A0_DETERMINE_RX_HDCP_CAPABLE => [in1_bcaps_read; in1_hdcp_capable_dp]
  | D1_A23_WAIT_FOR_R0_PRIME => [in1_bstatus_read; in1_r0p_available_dp]
  | D1_A4_AUTHENTICATED => [in1_bstatus_read; in1_link_integrity_check; in1_reauth_request_check]
  | H2_A0_KNOWN_HDCP2_CAPABLE_RX => [in2_hdcp2version_read; in2_hdcp2_capable_check]
  | D2_A0_DETERMINE_RX_HDCP_CAPABLE => [in2_rx_caps_read_dp; in2_hdcp2_capable_check]
  | H2_A1_SEND_AKE_INIT | D2_A1_SEND_AKE_INIT => [in2_create_session; in2_ake_init_prepare; in2_ake_init_write]
  | H2_A1_VALIDATE_AKE_CERT | D2_A1_VALIDATE_AKE_CERT =>
    [in2_ake_cert_available; in2_ake_cert_read; in2_ake_cert_validation]
  | H2_A1_SEND_NO_STORED_KM | D2_A1_SEND_NO_STORED_KM => [in2_no_stored_km_write]
  | H2_A1_READ_H_PRIME | D2_A1_READ_H_PRIME => [in2_h_prime_available; in2_h_prime_read]
  | H2_A1_READ_PAIRING_INFO_AND_VALIDATE_H_PRIME | D2_A1_READ_PAIRING_INFO_AND_VALIDATE_H_PRIME =>
    [in2_pairing_available; in2_pairing_info_read; in2_h_prime_validation]
  | H2_A1_SEND_STORED_KM | D2_A1_SEND_STORED_KM => [in2_stored_km_write]
  | H2_A1_VALIDATE_H_PRIME | D2_A1_VALIDATE_H_PRIME =>
    [in2_h_prime_available; in2_h_prime_read; in2_h_prime_validation]
  | H2_A2_LOCALITY_CHECK | D2_A2_LOCALITY_CHECK =>
    [in2_lc_init_prepare; in2_lc_init_write; in2_l_prime_available_poll; in2_l_prime_read; in2_l_prime_validation]
  | H2_A3_EXCHANGE_KS_AND_TEST_FOR_REPEATER | D2_A34_EXCHANGE_KS_AND_TEST_FOR_REPEATER =>
    [in2_eks_prepare; in2_eks_write]
  | D2_SEND_CONTENT_STREAM_TYPE => in2_content_stream_type_write :: rxstatus_verdicts
  | H2_ENABLE_ENCRYPTION | D2_ENABLE_ENCRYPTION =>
    in2_enable_encryption :: in2_stream_encryption_dp :: rxstatus_verdicts
  | H2_A5_AUTHENTICATED | D2_A5_AUTHENTICATED | H2_A6_WAIT_FOR_RX_ID_LIST | D2_A6_WAIT_FOR_RX_ID_LIST =>
    rxstatus_verdicts
  | H2_A78_VERIFY_RX_ID_LIST_AND_SEND_ACK | D2_A78_VERIFY_RX_ID_LIST_AND_SEND_ACK =>
    in2_rx_id_list_read :: in2_device_count_check :: in2_rx_id_list_validation :: in2_repeater_auth_ack_write ::
    rxstatus_verdicts
  | H2_A9_SEND_STREAM_MANAGEMENT | D2_A9_SEND_STREAM_MANAGEMENT =>
    in2_prepare_stream_manage :: in2_stream_manage_write :: rxstatus_verdicts
  | H2_A9_VALIDATE_STREAM_READY | D2_A9_VALIDATE_STREAM_READY =>
    in2_stream_ready_available :: in2_stream_ready_read :: in2_stream_ready_validation :: rxstatus_verdicts
  end.

(** The states in which the trusted application may tell that the receiver is a repeater. *)
Definition learns_repeater (s : state_id) : bool :=
  match s with
  | H1_A2_COMPUTATIONS_A3_VALIDATE_RX_A6_TEST_FOR_REPEATER
  | D1_A2_COMPUTATIONS_A3_VALIDATE_RX_A5_TEST_FOR_REPEATER
  | H2_A1_VALIDATE_AKE_CERT | D2_A1_VALIDATE_AKE_CERT
  | H2_A78_VERIFY_RX_ID_LIST_AND_SEND_ACK | D2_A78_VERIFY_RX_ID_LIST_AND_SEND_ACK => true
  | _ => false
  end.

(** The states in which encryption may be turned on. *)
Definition encrypts (s : state_id) : bool :=
  match s with
  | H1_A2_COMPUTATIONS_A3_VALIDATE_RX_A6_TEST_FOR_REPEATER
  | D1_A2_COMPUTATIONS_A3_VALIDATE_RX_A5_TEST_FOR_REPEATER
  | H1_A9_READ_KSV_LIST | D1_A7_READ_KSV_LIST | H2_ENABLE_ENCRYPTION | D2_ENABLE_ENCRYPTION => true
  | _ => false
  end.

Definition permit (s : state_id) : permission := May (writes s) (learns_repeater s) (encrypts s).

(** The execution of a state, as one function of the state. *)
Definition exec_of {W} `{!HdcpWorld W} (st : state_id) : stM (hst W) mod_hdcp_status :=
  match st with
  | HDCP_UNINITIALIZED => expects (fun _ => false) (st_ret MOD_HDCP_STATUS_SUCCESS)
  | HDCP_INITIALIZED =>
    expects is_callback (
      mod_auth (fun a => Auth (auth_id a) (msg a) (fun _ => UNKNOWN) (stream_management_retry_count a)) ;;
      st_ret MOD_HDCP_STATUS_SUCCESS)
  | HDCP_CP_NOT_DESIRED => expects is_callback (st_ret MOD_HDCP_STATUS_SUCCESS)
  | H1_A0_WAIT_FOR_ACTIVE_RX => wait_for_active_rx
  | H1_A1_EXCHANGE_KSVS | D1_A1_EXCHANGE_KSVS => exchange_ksvs
  | H1_A2_COMPUTATIONS_A3_VALIDATE_RX_A6_TEST_FOR_REPEATER
  | D1_A2_COMPUTATIONS_A3_VALIDATE_RX_A5_TEST_FOR_REPEATER => computations_validate_rx_test_for_repeater
  | H1_A45_AUTHENTICATED => Hdcp1.authenticated
  | H1_A8_WAIT_FOR_READY | D1_A6_WAIT_FOR_READY => wait_for_ready
  | H1_A9_READ_KSV_LIST | D1_A7_READ_KSV_LIST => read_ksv_list
  | D1_A0_DETERMINE_RX_HDCP_CAPABLE => Hdcp1.determine_rx_hdcp_capable_dp
  | D1_A23_WAIT_FOR_R0_PRIME => wait_for_r0_prime_dp
  | D1_A4_AUTHENTICATED => authenticated_dp
  | H2_A0_KNOWN_HDCP2_CAPABLE_RX => known_hdcp2_capable_rx
  | D2_A0_DETERMINE_RX_HDCP_CAPABLE => Hdcp2.determine_rx_hdcp_capable_dp
  | H2_A1_SEND_AKE_INIT | D2_A1_SEND_AKE_INIT => send_ake_init
  | H2_A1_VALIDATE_AKE_CERT | D2_A1_VALIDATE_AKE_CERT => validate_ake_cert
  | H2_A1_SEND_NO_STORED_KM | D2_A1_SEND_NO_STORED_KM => send_no_stored_km
  | H2_A1_READ_H_PRIME | D2_A1_READ_H_PRIME => read_h_prime
  | H2_A1_READ_PAIRING_INFO_AND_VALIDATE_H_PRIME | D2_A1_READ_PAIRING_INFO_AND_VALIDATE_H_PRIME =>
    read_pairing_info_and_validate_h_prime
  | H2_A1_SEND_STORED_KM | D2_A1_SEND_STORED_KM => send_stored_km
  | H2_A1_VALIDATE_H_PRIME | D2_A1_VALIDATE_H_PRIME => validate_h_prime
  | H2_A2_LOCALITY_CHECK | D2_A2_LOCALITY_CHECK => locality_check
  | H2_A3_EXCHANGE_KS_AND_TEST_FOR_REPEATER | D2_A34_EXCHANGE_KS_AND_TEST_FOR_REPEATER =>
    exchange_ks_and_test_for_repeater
  | D2_SEND_CONTENT_STREAM_TYPE => send_content_stream_type_dp
  | H2_ENABLE_ENCRYPTION | D2_ENABLE_ENCRYPTION => enable_encryption
  | H2_A5_AUTHENTICATED | D2_A5_AUTHENTICATED => Hdcp2.authenticated
  | H2_A6_WAIT_FOR_RX_ID_LIST | D2_A6_WAIT_FOR_RX_ID_LIST => wait_for_rx_id_list
  | H2_A78_VERIFY_RX_ID_LIST_AND_SEND_ACK | D2_A78_VERIFY_RX_ID_LIST_AND_SEND_ACK => verify_rx_id_list_and_send_ack
  | H2_A9_SEND_STREAM_MANAGEMENT | D2_A9_SEND_STREAM_MANAGEMENT => send_stream_management
  | H2_A9_VALIDATE_STREAM_READY | D2_A9_VALIDATE_STREAM_READY => validate_stream_ready
  end.

Section Executions.
Context {W : Type} `{!HdcpWorld W}.

Lemma execution_of (s : hst W) : execution s = exec_of (current_state (hd s)) s.
Proof. destruct s as [[cfg conn ds au st n] c o w]. destruct st; reflexivity. Qed.

Lemma stays_exec_of st : st <> HDCP_INITIALIZED -> stays (permit st) (exec_of (W:=W) st).
Proof. intros Hi. destruct st; try done; unfold exec_of; stay. Qed.
End Executions.
