(* ===== verification/HdcpInv.v ===== *)
(** * HDCP: the verdicts behind every state

    For each state the verdicts that must have passed before the state machine is in it;
    that executions and transitions keep them, and what a transition does to the rest of
    the link. *)

From stdpp Require Import sets list.
From Stdlib Require Import ZArith Lia.
From S2P Require Import Prelude Bytes Hdcp HdcpIo HdcpPsp Hdcp1 Hdcp2 HdcpTop HdcpFrame.
Open Scope st_scope.

(** ** Required verdicts *)

Definition ksvs_exchanged : list input_field :=
  [in1_create_session; in1_an_write; in1_aksv_write; in1_bksv_read; in1_bksv_validation].
Definition rx_validated : list input_field := in1_r0p_read :: in1_rx_validation :: ksvs_exchanged.
Definition ksv_list_validated : list input_field :=
  [in1_max_cascade_check; in1_max_devs_check; in1_device_count_check; in1_ksvlist_read; in1_vp_read;
   in1_ksvlist_vp_validation].

Definition session_created : list input_field := [in2_create_session; in2_ake_init_prepare; in2_ake_init_write].
Definition cert_validated : list input_field := in2_ake_cert_read :: in2_ake_cert_validation :: session_created.
Definition h_prime_validated : list input_field :=
  in2_h_prime_available :: in2_h_prime_read :: in2_h_prime_validation :: cert_validated.
Definition locality_checked : list input_field :=
  in2_lc_init_prepare :: in2_l_prime_read :: in2_l_prime_validation :: h_prime_validated.
Definition keys_exchanged : list input_field := in2_eks_prepare :: in2_eks_write :: locality_checked.
Definition rx_id_list_validated : list input_field :=
  [in2_rx_id_list_read; in2_device_count_check; in2_rx_id_list_validation; in2_repeater_auth_ack_write].
Definition stream_managed : list input_field := [in2_prepare_stream_manage; in2_stream_manage_write].
Definition stream_ready : list input_field := [in2_stream_ready_read; in2_stream_ready_validation].

Definition required (s : state_id) : list input_field :=
  match s with
  | HDCP_UNINITIALIZED | HDCP_INITIALIZED | HDCP_CP_NOT_DESIRED | H1_A0_WAIT_FOR_ACTIVE_RX
  | D1_A0_DETERMINE_RX_HDCP_CAPABLE | H2_A0_KNOWN_HDCP2_CAPABLE_RX | D2_A0_DETERMINE_RX_HDCP_CAPABLE => []
  | H1_A1_EXCHANGE_KSVS => [in1_bcaps_read]
  | D1_A1_EXCHANGE_KSVS => [in1_bcaps_read; in1_hdcp_capable_dp]
  | H1_A2_COMPUTATIONS_A3_VALIDATE_RX_A6_TEST_FOR_REPEATER | D1_A23_WAIT_FOR_R0_PRIME
  | D1_A2_COMPUTATIONS_A3_VALIDATE_RX_A5_TEST_FOR_REPEATER => ksvs_exchanged
  | H1_A8_WAIT_FOR_READY | D1_A6_WAIT_FOR_READY => rx_validated
  | H1_A9_READ_KSV_LIST | D1_A7_READ_KSV_LIST => in1_ready_check :: rx_validated
  | H1_A45_AUTHENTICATED | D1_A4_AUTHENTICATED => in1_encryption :: rx_validated
  | H2_A1_SEND_AKE_INIT | D2_A1_SEND_AKE_INIT => [in2_hdcp2_capable_check]
  | H2_A1_VALIDATE_AKE_CERT | D2_A1_VALIDATE_AKE_CERT => session_created
  | H2_A1_SEND_NO_STORED_KM | D2_A1_SEND_NO_STORED_KM | H2_A1_SEND_STORED_KM | D2_A1_SEND_STORED_KM => cert_validated
  | H2_A1_READ_H_PRIME | D2_A1_READ_H_PRIME => in2_no_stored_km_write :: cert_validated
  | H2_A1_READ_PAIRING_INFO_AND_VALIDATE_H_PRIME | D2_A1_READ_PAIRING_INFO_AND_VALIDATE_H_PRIME =>
    in2_h_prime_available :: in2_h_prime_read :: in2_no_stored_km_write :: cert_validated
  | H2_A1_VALIDATE_H_PRIME | D2_A1_VALIDATE_H_PRIME => in2_stored_km_write :: cert_validated
  | H2_A2_LOCALITY_CHECK | D2_A2_LOCALITY_CHECK => h_prime_validated
  | H2_A3_EXCHANGE_KS_AND_TEST_FOR_REPEATER | D2_A34_EXCHANGE_KS_AND_TEST_FOR_REPEATER => locality_checked
  | H2_A6_WAIT_FOR_RX_ID_LIST | D2_A6_WAIT_FOR_RX_ID_LIST | H2_A78_VERIFY_RX_ID_LIST_AND_SEND_ACK
  | D2_A78_VERIFY_RX_ID_LIST_AND_SEND_ACK | D2_SEND_CONTENT_STREAM_TYPE
  | H2_ENABLE_ENCRYPTION | D2_ENABLE_ENCRYPTION => keys_exchanged
  | H2_A9_SEND_STREAM_MANAGEMENT | D2_A9_SEND_STREAM_MANAGEMENT => rx_id_list_validated ++ keys_exchanged
  | H2_A9_VALIDATE_STREAM_READY | D2_A9_VALIDATE_STREAM_READY =>
    stream_managed ++ rx_id_list_validated ++ keys_exchanged
  | H2_A5_AUTHENTICATED | D2_A5_AUTHENTICATED => in2_enable_encryption :: keys_exchanged
  end.

(** What a repeater has to pass besides. *)
Definition required_repeater (s : state_id) : list input_field :=
  match s with
  | H1_A45_AUTHENTICATED | D1_A4_AUTHENTICATED => ksv_list_validated
  | D2_SEND_CONTENT_STREAM_TYPE | H2_ENABLE_ENCRYPTION | D2_ENABLE_ENCRYPTION
  | H2_A5_AUTHENTICATED | D2_A5_AUTHENTICATED =>
    rx_id_list_validated ++ stream_managed ++ stream_ready
  | _ => []
  end.

(** What multi-stream transport requires besides. *)
Definition required_mst (s : state_id) : list input_field :=
  match s with
  | D1_A4_AUTHENTICATED => [in1_stream_encryption_dp]
  | D2_A5_AUTHENTICATED => [in2_stream_encryption_dp]
  | _ => []
  end.

Definition all_passed (h : mod_hdcp) (l : list input_field) : Prop :=
  Forall (fun k => trans_input (auth h) k = PASS) l.

Definition verdicts_ok (h : mod_hdcp) : Prop :=
  all_passed h (required (current_state h)) /\
  (is_repeater (connection h) = true -> all_passed h (required_repeater (current_state h))) /\
  (is_dp_mst_hdcp h = true -> all_passed h (required_mst (current_state h))).

(** No execution writes a verdict that its state requires. *)
Lemma required_kept st k : k ∈ required st ++ required_repeater st ++ required_mst st -> k ∉ writes st.
Proof.
  intros Hk Hw. assert (forallb (fun k => bool_decide (k ∉ writes st))
    (required st ++ required_repeater st ++ required_mst st) = true) as H by (by destruct st).
  rewrite forallb_forall in H. apply list_elem_of_In in Hk. apply H in Hk. by apply bool_decide_eq_true in Hk.
Qed.

Lemma repeater_kept st : learns_repeater st = true -> required_repeater st = [].
Proof. by destruct st. Qed.

Section Inv.
Context {W : Type} `{!HdcpWorld W}.
Implicit Types s : hst W.

Lemma all_passed_allowed p s s' l :
  allowed p s s' -> (forall k, k ∈ l -> k ∉ may_set p) -> all_passed (hd s) l -> all_passed (hd s') l.
Proof. unfold all_passed. rewrite !Forall_forall. intros Ha Hk H k Hl. rewrite (al_flags _ _ _ Ha); auto. Qed.

Lemma verdicts_allowed s s' :
  allowed (permit (current_state (hd s))) s s' -> verdicts_ok (hd s) -> verdicts_ok (hd s').
Proof.
  intros Ha (H1 & H2 & H3). unfold verdicts_ok. rewrite (al_state _ _ _ Ha).
  pose proof (required_kept (current_state (hd s))) as Hk. split_and!.
  - eapply all_passed_allowed; [done| |done]. intros. apply Hk. set_solver.
  - intros Hr. destruct (learns_repeater (current_state (hd s))) eqn:El.
    { rewrite repeater_kept by done. constructor. }
    rewrite (al_repeater _ _ _ Ha El) in Hr. eapply all_passed_allowed; [done| |auto]. intros. apply Hk. set_solver.
  - intros Hm. unfold is_dp_mst_hdcp, is_dp_hdcp in *. rewrite (al_link _ _ _ Ha) in Hm.
    eapply all_passed_allowed; [done| |auto]. intros. apply Hk. set_solver.
Qed.

(** ** Transitions *)

Abbreviation disabled1 h := (disable1 (adj_hdcp1 (adjust (link (connection h))))).
Abbreviation disabled2 h := (disable2 (adj_hdcp2 (adjust (link (connection h))))).

Record steps (s : hst W) (a : mod_hdcp_status) (s' : hst W) : Prop := {
  tr_flags : trans_input (auth (hd s')) = trans_input (auth (hd s));
  tr_displays : displays (hd s') = displays (hd s);
  tr_retry1 : hdcp1_retry_count (connection (hd s')) = hdcp1_retry_count (connection (hd s));
  tr_retry2 : hdcp2_retry_count (connection (hd s')) = hdcp2_retry_count (connection (hd s));
  tr_mode : mode (link (connection (hd s'))) = mode (link (connection (hd s)));
  tr_disable1 : disabled1 (hd s) = true -> disabled1 (hd s') = true;
  tr_disable2 : disabled2 (hd s) = true -> disabled2 (hd s') = true;
  tr_failed : success a = false -> current_state (hd s') = current_state (hd s);
  tr_start1 : current_state (hd s) = HDCP_INITIALIZED -> is_hdcp1 (hd s') = true -> is_cp_desired_hdcp1 (hd s) = true;
  tr_start2 : current_state (hd s) = HDCP_INITIALIZED -> is_hdcp2 (hd s') = true -> is_cp_desired_hdcp2 (hd s) = true;
  tr_same1 : current_state (hd s) <> HDCP_INITIALIZED -> is_hdcp1 (hd s') = is_hdcp1 (hd s);
  tr_same2 : current_state (hd s) <> HDCP_INITIALIZED ->
    is_hdcp2 (hd s') = is_hdcp2 (hd s) \/ (is_hdcp2 (hd s') = false /\ disabled2 (hd s') = true);
  tr_msg : msg (auth (hd s')) = msg (auth (hd s))
}.
End Inv.

(** Symbolic execution: one binding, one condition or one definition at a time. *)
Ltac hwp_step :=
  lazymatch goal with
  | |- wp ?m _ _ =>
    lazymatch m with
    | st_bind _ _ => apply wp_bind
    | st_ret _ => apply wp_ret
    | st_mod _ => apply wp_mod
    | st_gets _ => apply wp_gets
    | st_get => apply wp_get
    | (if ?b then _ else _) => let E := fresh "E" in destruct b eqn:E
    | _ => let h := head_of m in unfold h
    end
  end; cbv beta zeta; cbn [hd ctx current_state].
Ltac hwp := repeat hwp_step.

Section Transitions.
Context {W : Type} `{!HdcpWorld W}.
Implicit Types s : hst W.

(** The transition of a state, as one function of the state. *)
Definition trans_of (st : state_id) : stM (hst W) mod_hdcp_status :=
  match st with
  | HDCP_UNINITIALIZED => st_ret MOD_HDCP_STATUS_INVALID_STATE
  | HDCP_INITIALIZED =>
    h <- get_hd ;;
    if is_dp_hdcp h then start D2_A0_DETERMINE_RX_HDCP_CAPABLE D1_A0_DETERMINE_RX_HDCP_CAPABLE
    else if is_hdmi_dvi_sl_hdcp h then start H2_A0_KNOWN_HDCP2_CAPABLE_RX H1_A0_WAIT_FOR_ACTIVE_RX
    else callback_in_ms 0 ;; goto_authenticated HDCP_CP_NOT_DESIRED
  | HDCP_CP_NOT_DESIRED => stay
  | _ =>
    if (state_num st <=? HDCP1_STATE_END) then mod_hdcp_hdcp1_transition
    else if (state_num st <=? HDCP1_DP_STATE_END) then mod_hdcp_hdcp1_dp_transition
    else if (state_num st <=? HDCP2_STATE_END) then mod_hdcp_hdcp2_transition
    else mod_hdcp_hdcp2_dp_transition
  end.

Lemma transition_of s :
  transition s = (if unexpected_event (ctx s) then st_ret MOD_HDCP_STATUS_SUCCESS else trans_of (current_state (hd s))) s.
Proof.
  destruct s as [[cfg conn ds au st n] [e r u] o w]. destruct u; [done|]. destruct st; reflexivity.
Qed.

Lemma wp_transition s (Q : mod_hdcp_status -> hst W -> Prop) :
  Q MOD_HDCP_STATUS_SUCCESS s -> wp (trans_of (current_state (hd s))) Q s -> wp transition Q s.
Proof. intros H1 H2. unfold wp. rewrite transition_of. by destruct (unexpected_event (ctx s)). Qed.

Lemma steps_refl s : steps s MOD_HDCP_STATUS_SUCCESS s.
Proof. destruct s as [[cfg conn ds au st n] c o w]. split; cbn; auto; intros -> E; by vm_compute in E. Qed.

Lemma transition_steps s : wp transition (steps s) s.
Proof.
  apply wp_transition; [apply steps_refl|]. destruct s as [[cfg conn ds au st n] c o w]. cbn [current_state hd].
  destruct st; unfold trans_of; simpl (state_num _ <=? _); cbv iota; hwp; split; cbn; try done; auto.
Qed.

Lemma negb_passed r : negb (passed r) = false -> r = PASS.
Proof. by destruct r. Qed.

Ltac unfold_verdicts :=
  unfold stream_ready, stream_managed, rx_id_list_validated, keys_exchanged, locality_checked, h_prime_validated,
    cert_validated, session_created, ksv_list_validated, rx_validated, ksvs_exchanged in *; cbn in *.

(** The verdicts of a state, from the conditions of the branch that enters it. *)
Ltac verdicts := repeat (match goal with
  | H : _ || _ = false |- _ => apply orb_false_iff in H as []
  | H : negb (passed _) = false |- _ => apply negb_passed in H
  | H : negb ?b = false |- _ => apply negb_false_iff in H
  | H : Forall _ (_ :: _) |- _ => apply Forall_cons in H as []
  | H : ?b = ?v, H' : ?b && _ = false |- _ => rewrite H in H'; cbn in H'
  | H : ?b = ?v, H' : negb ?b && _ = false |- _ => rewrite H in H'; cbn in H'
  | H : ?b = true -> Forall _ _, H' : ?b = true |- _ => specialize (H H')
  | |- Forall _ (_ :: _) => apply Forall_cons; split
  | |- Forall _ [] => apply Forall_nil; exact I
  end); try assumption; try congruence.

Lemma transition_verdicts s : verdicts_ok (hd s) -> wp transition (fun _ s' => verdicts_ok (hd s')) s.
Proof.
  intros Hv. apply wp_transition; [done|]. destruct s as [[cfg conn ds au st n] c o w].
  cbn [current_state hd] in *. destruct Hv as (H1 & H2 & H3). unfold verdicts_ok, all_passed in *. cbn in H1, H2, H3.
  destruct st; unfold trans_of; simpl (state_num _ <=? _); cbv iota; hwp; try (by split).
  all: split; [|split; intros]; unfold is_dp_mst_hdcp, is_dp_hdcp in *; cbn in *; unfold_verdicts; verdicts.
Qed.
End Transitions.
