(* ===== verification/HdcpReach.v ===== *)
(** * HDCP: the reachable links

    The operations of the module keep the verdicts behind every state, a display on
    every link that is being authenticated, and the bounds of the retry counters. *)

From stdpp Require Import sets list.
From Stdlib Require Import ZArith Lia.
From S2P Require Import Prelude Bytes Hdcp HdcpIo HdcpPsp Hdcp1 Hdcp2 HdcpTop HdcpFrame HdcpInv.
Open Scope st_scope.

Abbreviation disabled1 h := (disable1 (adj_hdcp1 (adjust (link (connection h))))).
Abbreviation disabled2 h := (disable2 (adj_hdcp2 (adjust (link (connection h))))).

(** An authentication is in progress or complete. *)
Definition in_auth (h : mod_hdcp) : bool := is_hdcp1 h || is_hdcp2 h.

Lemma is_hdcp1_state h h' : current_state h' = current_state h -> is_hdcp1 h' = is_hdcp1 h.
Proof. unfold is_hdcp1, is_in_hdcp1_states, is_in_hdcp1_dp_states, state_between. by intros ->. Qed.
Lemma is_hdcp2_state h h' : current_state h' = current_state h -> is_hdcp2 h' = is_hdcp2 h.
Proof. unfold is_hdcp2, is_in_hdcp2_states, is_in_hdcp2_dp_states, state_between. by intros ->. Qed.
Lemma in_auth_state h h' : current_state h' = current_state h -> in_auth h' = in_auth h.
Proof. intros E. unfold in_auth. by rewrite (is_hdcp1_state _ _ E), (is_hdcp2_state _ _ E). Qed.

Definition reset_state (st : state_id) : state_id :=
  match st with HDCP_UNINITIALIZED => HDCP_UNINITIALIZED | _ => HDCP_INITIALIZED end.

Lemma reset_state_idle h st : current_state h = reset_state st -> in_auth h = false.
Proof.
  unfold in_auth, is_hdcp1, is_hdcp2, is_in_hdcp1_states, is_in_hdcp1_dp_states, is_in_hdcp2_states,
    is_in_hdcp2_dp_states, state_between. intros ->. by destruct st.
Qed.

Lemma reset_state_busy h :
  is_hdcp1 h || is_hdcp2 h || is_in_cp_not_desired_state h = true -> reset_state (current_state h) = HDCP_INITIALIZED.
Proof. destruct h as [cfg conn ds au st n]. by destruct st. Qed.
Lemma reset_state_same h :
  is_hdcp1 h || is_hdcp2 h || is_in_cp_not_desired_state h = false -> reset_state (current_state h) = current_state h.
Proof. destruct h as [cfg conn ds au st n]. by destruct st. Qed.

Section Reset.
Context {W : Type} `{!HdcpWorld W}.
Implicit Types s : hst W.

Lemma wp_on_world {A} (f : W -> A * W) (Q : A -> hst W -> Prop) s :
  (forall a w, f (world s) = (a, w) -> Q a (Hst (hd s) (ctx s) (outp s) w)) -> wp (on_world f) Q s.
Proof. intros H. unfold wp, on_world. destruct (f (world s)) eqn:E. auto. Qed.

Lemma disable_encryption_same ds : Forall2 same_display ds (disable_encryption <$> ds).
Proof.
  induction ds as [|d ds IH]; simpl; constructor; [|done]. unfold disable_encryption, is_display_encryption_enabled.
  unfold same_display, is_display_active. destruct (d_state d) eqn:E; simpl; by rewrite ?E.
Qed.

Record resets (s : hst W) (a : mod_hdcp_status) (s' : hst W) : Prop := {
  re_config : config (hd s') = config (hd s);
  re_conn : connection (hd s') = connection (hd s);
  re_displays : Forall2 same_display (displays (hd s)) (displays (hd s'));
  re_done : success a = true -> current_state (hd s') = reset_state (current_state (hd s));
  re_failed : success a = false -> is_hdcp2 (hd s) = true /\ hd s' = hd s
}.

Lemma clear_resets s s1 :
  hd s1 = hd s \/ hd s1 = set_displays (disable_encryption <$> displays (hd s)) (hd s) ->
  is_hdcp1 (hd s) || is_hdcp2 (hd s) || is_in_cp_not_desired_state (hd s) = true ->
  wp (clear_authentication ;; st_ret MOD_HDCP_STATUS_SUCCESS)
     (fun status => wp (stop_requests ;; st_ret status) (resets s)) s1.
Proof.
  intros Hs Hb. hwp. assert (connection (hd s1) = connection (hd s) /\ config (hd s1) = config (hd s) /\
    Forall2 same_display (displays (hd s)) (displays (hd s1))) as (H1 & H2 & H3).
  { destruct Hs as [->| ->]; simpl; split_and!; try done. apply disable_encryption_same. }
  split; simpl; try done. intros _. by rewrite reset_state_busy.
Qed.

Lemma wp_destroy1 (Q : mod_hdcp_status -> hst W -> Prop) s :
  (forall a w, Q a (Hst (hd s) (ctx s) (outp s) w)) ->
  (forall w, Q MOD_HDCP_STATUS_SUCCESS
     (Hst (set_displays (disable_encryption <$> displays (hd s)) (hd s)) (ctx s) (outp s) w)) ->
  wp mod_hdcp_hdcp1_destroy_session Q s.
Proof.
  intros H1 H2. unfold mod_hdcp_hdcp1_destroy_session, ta. hwp_step. hwp_step. hwp_step. hwp_step.
  apply wp_on_world. intros o w _. hwp; auto.
Qed.
Lemma wp_destroy2 (Q : mod_hdcp_status -> hst W -> Prop) s :
  (forall w, Q MOD_HDCP_STATUS_HDCP2_DESTROY_SESSION_FAILURE (Hst (hd s) (ctx s) (outp s) w)) ->
  (forall w, Q MOD_HDCP_STATUS_SUCCESS
     (Hst (set_displays (disable_encryption <$> displays (hd s)) (hd s)) (ctx s) (outp s) w)) ->
  wp mod_hdcp_hdcp2_destroy_session Q s.
Proof.
  intros H1 H2. unfold mod_hdcp_hdcp2_destroy_session, ta. hwp_step. hwp_step. hwp_step. hwp_step.
  apply wp_on_world. intros o w _. hwp; auto.
Qed.

Lemma reset_resets s : wp reset_authentication (resets s) s.
Proof.
  unfold reset_authentication. apply wp_bind, wp_gets, wp_bind.
  destruct (is_hdcp1 (hd s)) eqn:E1; [|destruct (is_hdcp2 (hd s)) eqn:E2].
  - apply wp_bind. destruct (negb _).
    + apply wp_destroy1; intros; apply clear_resets; simpl; auto; by rewrite E1.
    + apply wp_ret, clear_resets; [auto|by rewrite E1].
  - apply wp_bind. destruct (passed _).
    + apply wp_destroy2; intros; simpl.
      * hwp. by split.
      * apply clear_resets; simpl; auto. by rewrite E1, E2.
    + apply wp_ret. simpl. apply clear_resets; [auto|by rewrite E1, E2].
  - destruct (is_in_cp_not_desired_state (hd s)) eqn:E3.
    + apply clear_resets; [auto|by rewrite E1, E2, E3].
    + hwp. split; simpl; try done. intros _. rewrite reset_state_same; [done|by rewrite E1, E2, E3].
Qed.
End Reset.

(** ** The invariant *)

Abbreviation retry1 h := (hdcp1_retry_count (connection h)).
Abbreviation retry2 h := (hdcp2_retry_count (connection h)).

Record link_inv (h : mod_hdcp) : Prop := {
  li_displays : length (displays h) = Z.to_nat MAX_NUM_OF_DISPLAYS;
  li_verdicts : verdicts_ok h;
  li_active : in_auth h = true -> Exists (fun d => is_display_active d = true) (displays h);
  li_retry1 : 0 <= retry1 h /\ (disabled1 h = true \/ retry1 h < MAX_NUM_OF_ATTEMPTS);
  li_retry2 : 0 <= retry2 h /\ (disabled2 h = true \/ retry2 h < MAX_NUM_OF_ATTEMPTS)
}.

Lemma verdicts_idle h : in_auth h = false -> verdicts_ok h.
Proof. destruct h as [cfg conn ds au st n]. destruct st; try done; intros _; split_and!; constructor. Qed.

Definition same_active (d d' : mod_hdcp_display) : Prop := is_display_active d' = is_display_active d.

#[global] Instance same_active_preorder : PreOrder same_active.
Proof. split; [done|]. unfold same_active. intros d1 d2 d3 -> ->. done. Qed.

Lemma same_display_active ds ds' : Forall2 same_display ds ds' -> Forall2 same_active ds ds'.
Proof. intros H. eapply Forall2_impl; [done|]. by intros d d' []. Qed.

Lemma Exists_same_active ds ds' :
  Forall2 same_active ds ds' ->
  Exists (fun d => is_display_active d = true) ds -> Exists (fun d => is_display_active d = true) ds'.
Proof.
  induction 1 as [|d d' ds ds' Ha _ IH]; intros H; inversion H; subst; [left|right; auto].
  by rewrite Ha.
Qed.

(** Displays, state and counters kept, verdicts as required. *)
Lemma link_inv_keep h h' :
  link_inv h -> Forall2 same_active (displays h) (displays h') -> (in_auth h' = true -> in_auth h = true) ->
  verdicts_ok h' -> retry1 h' = retry1 h -> retry2 h' = retry2 h ->
  (disabled1 h = true -> disabled1 h' = true) -> (disabled2 h = true -> disabled2 h' = true) -> link_inv h'.
Proof.
  intros [Hl Hv Ha H1 H2] Hd Hi Hv' E1 E2 D1 D2. split; rewrite ?E1, ?E2; try done.
  - by rewrite <- (Forall2_length _ _ _ Hd).
  - intros. eapply Exists_same_active; eauto.
  - split; [apply H1|]. destruct H1 as [_ [?|?]]; auto.
  - split; [apply H2|]. destruct H2 as [_ [?|?]]; auto.
Qed.

(** ** Attempts

    What is left of the attempts at each protocol: none once it is disabled. The attempt
    in progress is counted as used. *)

Inductive protocol := Hdcp1 | Hdcp2.

Definition running (p : protocol) (h : mod_hdcp) : bool :=
  match p with Hdcp1 => is_hdcp1 h | Hdcp2 => is_hdcp2 h end.
Definition disabled (p : protocol) (h : mod_hdcp) : bool :=
  match p with Hdcp1 => disabled1 h | Hdcp2 => disabled2 h end.
Definition retries (p : protocol) (h : mod_hdcp) : Z :=
  match p with Hdcp1 => retry1 h | Hdcp2 => retry2 h end.

Definition budget (p : protocol) (h : mod_hdcp) : Z :=
  if disabled p h then 0 else MAX_NUM_OF_ATTEMPTS - retries p h.
Definition attempts_left (p : protocol) (h : mod_hdcp) : Z :=
  budget p h - (if running p h && negb (disabled p h) then 1 else 0).

(** An event that leaves the initialized state for an authentication starts an attempt. *)
Definition starts (p : protocol) (h h' : mod_hdcp) : Z :=
  if is_in_initialized_state h && running p h' then 1 else 0.

Lemma running_auth p h : running p h = true -> in_auth h = true.
Proof. unfold in_auth. by destruct p; simpl; intros ->; rewrite ?orb_true_r. Qed.
Lemma running_idle p h : in_auth h = false -> running p h = false.
Proof. destruct (running p h) eqn:E; [|done]. by rewrite (running_auth _ _ E). Qed.
Lemma running_state p h h' : current_state h' = current_state h -> running p h' = running p h.
Proof. intros E. destruct p; simpl; [by apply is_hdcp1_state|by apply is_hdcp2_state]. Qed.
Lemma li_retries p h : link_inv h -> 0 <= retries p h /\ (disabled p h = true \/ retries p h < MAX_NUM_OF_ATTEMPTS).
Proof. destruct p; [apply li_retry1|apply li_retry2]. Qed.

Section Steps.
Context {W : Type} `{!HdcpWorld W}.
Implicit Types s : hst W.

Lemma exec_inv s :
  link_inv (hd s) ->
  wlp execution (fun _ s' => link_inv (hd s') /\ (forall p, attempts_left p (hd s') = attempts_left p (hd s)) /\
    current_state (hd s') = current_state (hd s)) s.
Proof.
  intros Hi a s'. rewrite execution_of. destruct (decide (current_state (hd s) = HDCP_INITIALIZED)) as [E|E].
  - rewrite E. revert a s'. apply wlp_wp. unfold exec_of. hwp; [|by auto]. simpl. split_and!; [|done|done].
    eapply (link_inv_keep (hd s)); try done. apply verdicts_idle.
    rewrite (in_auth_state (hd s)) by done. by apply (reset_state_idle _ HDCP_INITIALIZED).
  - intros H. apply (stays_exec_of _ E) in H. split_and!; [|..].
    + eapply link_inv_keep; [done|apply same_display_active, H| |by eapply verdicts_allowed, Hi|apply H|apply H| |].
      * rewrite (in_auth_state _ _ (al_state _ _ _ H)). done.
      * by rewrite (al_link _ _ _ H).
      * by rewrite (al_link _ _ _ H).
    + intros p. unfold attempts_left, budget. rewrite (running_state p _ _ (al_state _ _ _ H)).
      destruct p; simpl; by rewrite (al_link _ _ _ H), ?(al_retry1 _ _ _ H), ?(al_retry2 _ _ _ H).
    + apply H.
Qed.

Lemma auth_needed_active h : is_auth_needed h = true -> Exists (fun d => is_display_active d = true) (displays h).
Proof.
  unfold is_auth_needed. rewrite existsb_exists. intros (d & Hd & [? _]%andb_true_iff).
  apply Exists_exists. exists d. by rewrite list_elem_of_In.
Qed.

Lemma is_hdcp12 h : is_hdcp1 h = true -> is_hdcp2 h = true -> False.
Proof. destruct h as [cfg conn ds au st n]. by destruct st. Qed.

Lemma wp_and {A} (m : stM (hst W) A) Q Q' s : wp m Q s -> wp m Q' s -> wp m (fun a s' => Q a s' /\ Q' a s') s.
Proof. unfold wp. by destruct (m s) as [[? ?]|]. Qed.

Lemma desired1 h : is_cp_desired_hdcp1 h = true -> is_auth_needed h = true /\ disabled1 h = false.
Proof. unfold is_cp_desired_hdcp1. rewrite !andb_true_iff, !negb_true_iff. tauto. Qed.
Lemma desired2 h : is_cp_desired_hdcp2 h = true -> is_auth_needed h = true /\ disabled2 h = false.
Proof. unfold is_cp_desired_hdcp2. rewrite !andb_true_iff, !negb_true_iff. tauto. Qed.

Lemma initialized_idle h : current_state h = HDCP_INITIALIZED -> is_hdcp1 h = false /\ is_hdcp2 h = false.
Proof. destruct h as [cfg conn ds au st n]. by destruct st. Qed.
Lemma is_initialized h : is_in_initialized_state h = bool_decide (current_state h = HDCP_INITIALIZED).
Proof. destruct h as [cfg conn ds au st n]. by destruct st. Qed.

(** What a step of the transition does to one protocol. *)
Lemma steps_running p s a s' :
  steps s a s' ->
  retries p (hd s') = retries p (hd s) /\ (disabled p (hd s) = true -> disabled p (hd s') = true) /\
  (current_state (hd s) = HDCP_INITIALIZED -> running p (hd s') = true -> disabled p (hd s) = false) /\
  (current_state (hd s) <> HDCP_INITIALIZED ->
     running p (hd s') = running p (hd s) \/ (running p (hd s') = false /\ disabled p (hd s') = true)).
Proof.
  intros [_ _ R1 R2 _ D1 D2 _ S1 S2 M1 M2 _]. destruct p; simpl; split_and!; try done; intros H; auto.
  - intros Hr. by apply desired1, S1.
  - intros Hr. by apply desired2, S2.
Qed.

(** A step of the transition uses up the attempt that it starts. *)
Lemma steps_attempts p s a s' :
  link_inv (hd s) -> steps s a s' -> attempts_left p (hd s') + starts p (hd s) (hd s') <= attempts_left p (hd s).
Proof.
  intros Hi Hst. destruct (li_retries p _ Hi) as [B1 B2]. destruct (steps_running p _ _ _ Hst) as (R & D & S & M).
  unfold attempts_left, budget, starts, MAX_NUM_OF_ATTEMPTS in *. rewrite R, is_initialized. case_bool_decide as Es.
  - destruct (initialized_idle _ Es) as [I1 I2]. assert (running p (hd s) = false) as -> by (by destruct p).
    specialize (S Es). destruct (running p (hd s')), (disabled p (hd s)), (disabled p (hd s')); simpl in *;
      try lia; try (by discriminate (S eq_refl)); try (by discriminate (D eq_refl)); destruct B2; (lia || discriminate).
  - destruct (M Es) as [->|[-> Hd]]; [|rewrite Hd]; destruct (running p (hd s)), (disabled p (hd s));
      try rewrite (D eq_refl); try destruct (disabled p (hd s')); simpl; destruct B2; (lia || discriminate).
Qed.

Lemma trans_inv s :
  link_inv (hd s) ->
  wp transition (fun a s' => link_inv (hd s') /\
    (forall p, attempts_left p (hd s') + starts p (hd s) (hd s') <= attempts_left p (hd s)) /\
    (success a = false -> current_state (hd s') = current_state (hd s))) s.
Proof.
  intros Hi. eapply wp_mono; [apply wp_and; [apply transition_steps|apply transition_verdicts, Hi]|].
  intros a s' [Hst Hv]. pose proof (fun p => steps_attempts p _ _ _ Hi Hst). destruct Hst as [Hf Hd R1 R2 Hm D1 D2 Hst S1 S2 M1 M2 _].
  split_and!; [|done|done]. destruct (decide (current_state (hd s) = HDCP_INITIALIZED)) as [E|E].
  - destruct Hi as [Hl _ _ H1 H2]. split; rewrite ?R1, ?R2, ?Hd; try done.
    + intros Ha. apply auth_needed_active. unfold in_auth in Ha. apply orb_true_iff in Ha as [Ha|Ha];
        [apply S1 in Ha; [by apply desired1 in Ha as []|done]|apply S2 in Ha; [by apply desired2 in Ha as []|done]].
    + split; [apply H1|]. destruct H1 as [_ [?|?]]; auto.
    + split; [apply H2|]. destruct H2 as [_ [?|?]]; auto.
  - eapply link_inv_keep; eauto; [by rewrite Hd|]. unfold in_auth. rewrite (M1 E).
    destruct (M2 E) as [->|[-> _]]; [done|]. destruct (is_hdcp1 (hd s)); done.
Qed.

(** What an error that is recorded changes. *)
Record pushes (h h' : mod_hdcp) : Prop := {
  pu_state : current_state h' = current_state h;
  pu_displays : displays h' = displays h;
  pu_auth : auth h' = auth h;
  pu_inv : link_inv h';
  pu_left : forall p, attempts_left p h' <= attempts_left p h;
  pu_budget : forall p, budget p h' <= budget p h;
  pu_closes : in_auth h = true -> forall p, budget p h' <= attempts_left p h
}.

(** A counter that is pushed once more: it disables its protocol when it reaches the maximum. *)
Lemma counter_push (d : bool) n :
  0 <= n /\ (d = true \/ n < 4) ->
  0 <= u8 (n + 1) /\ (d = true \/ (d = false /\ u8 (n + 1) = n + 1 /\ n + 1 <= 4)).
Proof.
  intros [H0 H]. split; [apply wrap_range; lia|]. destruct d; [auto|]. right. destruct H; [done|].
  rewrite wrap_small by lia. lia.
Qed.

Lemma wp_push status (Q : unit -> hst W -> Prop) s :
  link_inv (hd s) -> (forall h', pushes (hd s) h' -> Q tt (Hst h' (ctx s) (outp s) (world s))) ->
  wp (push_error_status status) Q s.
Proof.
  intros Hi HQ. apply wp_mod, HQ. clear HQ. destruct s as [h c o w]. cbn [hd ctx outp world].
  pose proof (li_retry1 _ Hi) as B1. pose proof (li_retry2 _ Hi) as B2. pose proof (is_hdcp12 h) as Hx.
  set (c1 := if _ <? _ then _ else _).
  assert (link c1 = link (connection h) /\ is_repeater c1 = is_repeater (connection h) /\
    hdcp1_retry_count c1 = retry1 h /\ hdcp2_retry_count c1 = retry2 h) as (L & R & C1 & C2)
    by (subst c1; by destruct (_ <? _)).
  clearbody c1. rewrite C1, C2. unfold MAX_NUM_OF_ATTEMPTS in *.
  set (h' := set_connection _ h).
  assert (current_state h' = current_state h) as Es by done.
  assert (verdicts_ok h') as Hv.
  { destruct (li_verdicts _ Hi) as (V1 & V2 & V3). unfold verdicts_ok, all_passed, is_dp_mst_hdcp, is_dp_hdcp in *.
    rewrite Es. subst h'. simpl. destruct (is_hdcp1 h), (is_hdcp2 h); repeat destruct (_ =? _); simpl; rewrite ?R, ?L; done. }
  assert (link_inv h' /\ forall p, attempts_left p h' <= attempts_left p h /\ budget p h' <= budget p h /\
    (in_auth h = true -> budget p h' <= attempts_left p h)) as [? Hp]; [|split; try done; intros; by apply Hp].
  destruct Hi as [Hl _ Ha _ _].
  unfold attempts_left, budget, in_auth, MAX_NUM_OF_ATTEMPTS in *.
  cbn [hd] in *. pose proof (counter_push _ _ B1) as P1. pose proof (counter_push _ _ B2) as P2.
  split; [split; try done|intros []; simpl]; rewrite ?(is_hdcp1_state _ _ Es), ?(is_hdcp2_state _ _ Es); unfold MAX_NUM_OF_ATTEMPTS; subst h'; simpl;
    destruct (is_hdcp1 h), (is_hdcp2 h); try (by exfalso; auto);
    repeat match goal with |- context [?x =? 4] => destruct (Z.eqb_spec x 4) end; simpl; rewrite ?L, ?C1, ?C2;
    destruct (disabled1 h), (disabled2 h); simpl; intuition (try discriminate; lia).
Qed.

Lemma wp_push_unless status (Q : unit -> hst W -> Prop) s :
  link_inv (hd s) -> (success status = true -> Q tt s) ->
  (forall h', success status = false -> pushes (hd s) h' -> Q tt (Hst h' (ctx s) (outp s) (world s))) ->
  wp (push_unless_success status) Q s.
Proof.
  intros Hi H1 H2. unfold push_unless_success. destruct (success status); [by apply wp_ret, H1|].
  apply wp_push; auto.
Qed.

Lemma attempts_idle p h : in_auth h = false -> attempts_left p h = budget p h.
Proof. intros E. unfold attempts_left. rewrite (running_idle p h E). simpl. lia. Qed.

Lemma reset_inv s a s' : link_inv (hd s) -> resets s a s' -> link_inv (hd s').
Proof.
  intros Hi [Hc Hk Hd H1 H2]. destruct (success a) eqn:Ea.
  - assert (in_auth (hd s') = false) as Hidle by (eapply reset_state_idle; eauto).
    eapply link_inv_keep; [done|by apply same_display_active|by rewrite Hidle|by apply verdicts_idle|by rewrite Hk..].
  - destruct (H2 eq_refl) as [_ ->]. done.
Qed.

Lemma resets_done s a s' : resets s a s' -> success a = true -> in_auth (hd s') = false /\ forall p, budget p (hd s') = budget p (hd s).
Proof.
  intros [Hc Hk Hd H1 H2] Ha. split; [eapply reset_state_idle; eauto|]. intros p. unfold budget. destruct p; simpl; by rewrite Hk.
Qed.

(** The end of an event: the reset of a failed authentication. *)
Lemma fail_inv status s :
  link_inv (hd s) ->
  wp (push_error_status status) (fun _ => wp (reset_status <- reset_authentication ;; push_unless_success reset_status)
     (fun _ s' => link_inv (hd s') /\ forall p, attempts_left p (hd s') <= attempts_left p (hd s) /\
        (running p (hd s') = true -> running p (hd s) = true))) s.
Proof.
  intros Hi. apply wp_push; [done|]. intros h1 P1. apply wp_bind.
  eapply wp_mono; [apply reset_resets|]. intros a s2 R.
  assert (link_inv (hd s2)) as Hi2 by (eapply reset_inv; [|done]; apply P1). apply wp_push_unless; [done|..].
  - intros Ha. destruct (resets_done _ _ _ R Ha) as [E1 E2]. split; [done|]. intros p.
    split; [|by rewrite (running_idle _ _ E1)].
    rewrite (attempts_idle _ _ E1), E2. simpl. destruct (in_auth (hd s)) eqn:Es; [by apply P1|].
    rewrite (attempts_idle _ _ Es). apply P1.
  - intros h3 Ha P3. destruct (re_failed _ _ _ R Ha) as [E1 E2]. simpl in E1, E2. rewrite E2 in P3. split; [apply P3|]. intros p. split.
    + simpl. etrans; [apply P3|]. apply P1.
    + simpl. rewrite (running_state p _ _ (pu_state _ _ P3)), (running_state p _ _ (pu_state _ _ P1)). done.
Qed.

Lemma clear_irq_keeps s : wp mod_hdcp_clear_cp_irq_status (fun _ s' => hd s' = hd s) s.
Proof.
  unfold mod_hdcp_clear_cp_irq_status. apply wp_bind, wp_gets. destruct (is_dp_hdcp (hd s)); [|by apply wp_ret].
  apply wp_bind, wp_on_world. intros. by apply wp_ret.
Qed.

Lemma starts_mono p h h1 h2 : (running p h2 = true -> running p h1 = true) -> starts p h h2 <= starts p h h1.
Proof.
  unfold starts. destruct (is_in_initialized_state h); simpl; [|lia].
  destruct (running p h2), (running p h1); intros H; lia.
Qed.

Lemma process_event_inv e s :
  link_inv (hd s) ->
  wlp (mod_hdcp_process_event e) (fun _ s' => link_inv (hd s') /\
    forall p, attempts_left p (hd s') + starts p (hd s) (hd s') <= attempts_left p (hd s)) s.
Proof.
  intros Hi. unfold mod_hdcp_process_event, mod_out, mod_ctx. wlp_step. wlp_step. wlp_step. wlp_step. wlp_step.
  eapply wlp_mono; [by apply exec_inv|]. intros ex s1 (Hi1 & A1 & S1). cbn [hd] in *. apply wlp_wp, wp_bind.
  eapply wp_mono; [by apply trans_inv|]. intros tr s2 (Hi2 & A2 & S2).
  assert (forall p, starts p (hd s1) (hd s2) = starts p (hd s) (hd s2)) as Est
    by (intros p; unfold starts; by rewrite !is_initialized, S1).
  set (Q := fun (_ : mod_hdcp_status) (s' : hst W) => link_inv (hd s') /\ _).
  assert (forall s3 st, link_inv (hd s3) ->
    (forall p, attempts_left p (hd s3) <= attempts_left p (hd s2) /\ (running p (hd s3) = true -> running p (hd s2) = true)) ->
    wp (if is_cpirq e then status <- mod_hdcp_clear_cp_irq_status ;; push_unless_success status ;; st_ret status
        else st_ret st) Q s3) as Hend.
  { intros s3 st Hi3 A3.
    assert (forall p, attempts_left p (hd s3) + starts p (hd s) (hd s3) <= attempts_left p (hd s)) as B3.
    { intros p. destruct (A3 p) as [A I]. pose proof (starts_mono p (hd s) _ _ I). specialize (A1 p). specialize (A2 p).
      rewrite Est in A2. lia. }
    destruct (is_cpirq e); [|by apply wp_ret].
    apply wp_bind. eapply wp_mono; [apply clear_irq_keeps|]. intros status s4 E4. apply wp_bind.
    rewrite <- E4 in Hi3, B3. apply wp_push_unless; [done|intros _; by apply wp_ret|].
    intros h' _ P. apply wp_ret. split; [apply P|]. intros p. simpl. pose proof (pu_left _ _ P p).
    pose proof (starts_mono p (hd s) (hd s4) h' ltac:(by rewrite (running_state p _ _ (pu_state _ _ P)))).
    specialize (B3 p). lia. }
  apply wp_bind. destruct (success tr) eqn:Etr.
  { apply wp_ret, wp_bind. replace (reset_needed tr) with false by (by destruct tr). apply wp_ret. by apply Hend. }
  apply wp_bind. destruct (reset_needed tr).
  - eapply wp_mono; [by apply fail_inv|]. intros [] s3 H3. apply wp_ret, wp_bind. eapply wp_mono; [exact H3|].
    intros [] s4 []. by apply Hend.
  - apply wp_push; [done|]. intros h' P. apply wp_ret, wp_bind, wp_ret. apply Hend; simpl; [apply P|].
    intros p. split; [apply P|]. by rewrite (running_state p _ _ (pu_state _ _ P)).
Qed.
End Steps.

(** ** Operations on displays and on the connection *)

Lemma link_inv_idle h :
  in_auth h = false -> length (displays h) = Z.to_nat MAX_NUM_OF_DISPLAYS -> retry1 h = 0 -> retry2 h = 0 -> link_inv h.
Proof.
  intros Hi Hl H1 H2. split; rewrite ?H1, ?H2; unfold MAX_NUM_OF_ATTEMPTS; [done|by apply verdicts_idle|by rewrite Hi|lia..].
Qed.

Section Displays.
Context {W : Type} `{!HdcpWorld W}.
Implicit Types s : hst W.

(** What the topology functions change: displays, in place. *)
Definition topology (s s' : hst W) : Prop :=
  exists ds, hd s' = set_displays ds (hd s) /\ length ds = length (displays (hd s)) /\
    (existsb is_display_encryption_enabled (displays (hd s)) = false -> existsb is_display_encryption_enabled ds = false).

#[local] Instance topology_preorder : PreOrder topology.
Proof.
  split.
  - intros s. exists (displays (hd s)). by destruct s as [[]].
  - intros s1 s2 s3 (ds & E & L & F) (ds' & E' & L' & F'). exists ds'. rewrite E', L', E. split_and!; [done..|].
    rewrite E in F'. by auto.
Qed.

Lemma encrypting_alter f i ds :
  (forall d, is_display_encryption_enabled (f d) = false) ->
  existsb is_display_encryption_enabled ds = false -> existsb is_display_encryption_enabled (alter f i ds) = false.
Proof.
  intros Hf. revert i. induction ds as [|d ds IH]; intros i; [by destruct i|]. simpl. rewrite orb_false_iff.
  intros [H1 H2]. destruct i as [|i]; simpl; rewrite orb_false_iff; split; auto. by apply (IH i).
Qed.

Lemma topology_display i st :
  is_display_encryption_enabled (Display st 0 0 0 0 0 (DisplayAdj 0 0)) = false ->
  respects topology (mod_display (W:=W) i (set_display_state st)).
Proof.
  intros Hst. apply respects_mod. intros s. exists (alter (set_display_state st) i (displays (hd s))). rewrite length_alter.
  split_and!; [done..|]. by apply encrypting_alter.
Qed.
Lemma topology_world {A} (f : W -> A * W) : respects topology (on_world f).
Proof. intros s a s'. unfold on_world. destruct (f (world s)). intros [= _ <-]. exists (displays (hd s)). by destruct s as [[]]. Qed.

Ltac topology_step := frame_step ltac:(first [apply topology_world | apply topology_display; reflexivity]).

Lemma topology_add i : respects topology (mod_hdcp_add_display_to_topology (W:=W) i).
Proof. repeat topology_step. Qed.
Lemma topology_remove index : respects topology (mod_hdcp_remove_display_from_topology (W:=W) index).
Proof. repeat topology_step. Qed.

(** Only the displays change, and none is added or lost. *)
Record adjusts (s s' : hst W) : Prop := {
  ad_link : link (connection (hd s')) = link (connection (hd s));
  ad_repeater : is_repeater (connection (hd s')) = is_repeater (connection (hd s));
  ad_retry1 : retry1 (hd s') = retry1 (hd s);
  ad_retry2 : retry2 (hd s') = retry2 (hd s);
  ad_state : current_state (hd s') = current_state (hd s);
  ad_flags : forall k, trans_input (auth (hd s')) k = trans_input (auth (hd s)) k;
  ad_displays : Forall2 same_active (displays (hd s)) (displays (hd s'))
}.

#[local] Instance adjusts_preorder : PreOrder adjusts.
Proof.
  split; [by split|]. intros s1 s2 s3 [] []. split; try congruence. by etrans.
Qed.

Lemma adjusts_adjust i adj : respects adjusts (mod_display (W:=W) i (fun d => set_display_adjust (adj d) d)).
Proof.
  apply respects_mod. intros s. split; try done. simpl.
  apply Forall2_same_length_lookup_2; [by rewrite length_alter|].
  intros j x y Hx Hy. destruct (decide (i = j)) as [<-|]; [|rewrite list_lookup_alter_ne in Hy by done; by simplify_eq].
  rewrite list_lookup_alter_eq, Hx in Hy. by simplify_eq/=.
Qed.

Lemma adjusts_stream cmd failure n i : respects adjusts (enable_stream_loop (W:=W) cmd failure n i).
Proof.
  intros s a s' H. apply (stays_stream_loop (May [] false true)) in H as [? ? ? ? ? ? F R D _]; [|done].
  split; try done; [by apply R| |by apply same_display_active]. intros k. apply F. apply not_elem_of_nil.
Qed.

Lemma verdicts_adjusts s s' : adjusts s s' -> verdicts_ok (hd s) -> verdicts_ok (hd s').
Proof.
  intros [L R _ _ S F _] (H1 & H2 & H3). unfold verdicts_ok, all_passed, is_dp_mst_hdcp, is_dp_hdcp in *.
  rewrite L, R, S. assert (forall l, Forall (fun k => trans_input (auth (hd s)) k = PASS) l ->
    Forall (fun k => trans_input (auth (hd s')) k = PASS) l) as Hf; [|by auto].
  intros l Hl. eapply Forall_impl; [exact Hl|]. intros k. by rewrite F.
Qed.
Lemma adjusts_inv s s' : adjusts s s' -> link_inv (hd s) -> link_inv (hd s').
Proof.
  intros Ha Hi. pose proof (verdicts_adjusts _ _ Ha (li_verdicts _ Hi)). destruct Ha as [L R R1 R2 S F D].
  eapply link_inv_keep; eauto; rewrite ?L; try done. by rewrite (in_auth_state _ _ S).
Qed.

Lemma adjusts_display_at i : respects adjusts (display_at (W:=W) i).
Proof.
  intros s a s'. unfold display_at, get_hd, st_bind, st_gets, st_of_option.
  destruct (displays (hd s) !! i); [|done]. intros [= _ <-]. reflexivity.
Qed.

Lemma update_adjustments_inv i adj : respects adjusts (update_display_adjustments (W:=W) i adj).
Proof.
  unfold update_display_adjustments.
  repeat (cbv beta zeta; frame_step ltac:(first [apply adjusts_adjust | apply adjusts_stream | apply adjusts_display_at])).
Qed.

(** ** Every operation keeps the invariant *)

Abbreviation keeps m := (forall s, link_inv (hd s) -> wlp m (fun _ s' => link_inv (hd s')) s).

Lemma wlp_respects {A} (R : relation (hst W)) (m : stM (hst W) A) s (Q : A -> hst W -> Prop) :
  respects R m -> (forall a s', R s s' -> Q a s') -> wlp m Q s.
Proof. intros H HQ a s' E. eapply HQ, H, E. Qed.

Lemma keeps_finish (m : stM (hst W) mod_hdcp_status) s :
  wlp m (fun _ s' => link_inv (hd s')) s ->
  wlp (status <- m ;; push_unless_success status ;; st_ret status) (fun _ s' => link_inv (hd s')) s.
Proof.
  intros H. apply wlp_bind. eapply wlp_mono; [exact H|]. intros status s' Hi. apply wlp_wp, wp_bind, wp_push_unless; [done|..].
  - intros _. by apply wp_ret.
  - intros h' _ P. apply wp_ret, P.
Qed.

(** After a successful reset the link is idle, whatever the operation does next. *)
Lemma wlp_reset k s :
  link_inv (hd s) ->
  (forall s', in_auth (hd s') = false -> length (displays (hd s')) = Z.to_nat MAX_NUM_OF_DISPLAYS ->
    link_inv (hd s') -> wlp k (fun _ s' => link_inv (hd s')) s') ->
  wlp (reset_authentication >>? k) (fun _ s' => link_inv (hd s')) s.
Proof.
  intros Hi Hk. unfold or_out. apply wlp_bind. eapply wlp_mono; [apply wlp_wp, reset_resets|]. intros a s' R.
  pose proof (reset_inv _ _ _ Hi R) as Hi'. destruct (success a) eqn:Ea; [|by apply wlp_wp, wp_ret].
  apply Hk; [|apply Hi'|done]. by apply (resets_done _ _ _ R).
Qed.

Lemma idle_state h h' : current_state h' = current_state h -> in_auth h = false -> in_auth h' = false.
Proof. intros E. by rewrite (in_auth_state _ _ E). Qed.

Lemma keeps_reset_connection : keeps reset_connection.
Proof.
  intros s Hi. unfold reset_connection, mod_out. wlp_step. wlp_step. apply wlp_reset; [done|]. intros s' Ha Hl _.
  apply wlp_wp. unfold get_hd, mod_conn, mod_hd, set_state_id, mod_hd. hwp_step. hwp_step. hwp_step.
  destruct (current_state (hd s')) eqn:Es; hwp; apply link_inv_idle; simpl; try done.
Qed.

Lemma keeps_setup cfg : keeps (mod_hdcp_setup cfg).
Proof.
  intros s Hi. unfold mod_hdcp_setup, mod_out, mod_hd. wlp_step. wlp_step. wlp_step. wlp_step.
  apply keeps_finish, keeps_reset_connection. by destruct Hi.
Qed.
Lemma keeps_mod_reset_connection : keeps mod_hdcp_reset_connection.
Proof. intros s Hi. by apply keeps_finish, keeps_reset_connection. Qed.

Lemma link_inv_zero : link_inv hdcp_zero.
Proof. by apply link_inv_idle. Qed.

Lemma keeps_teardown : keeps mod_hdcp_teardown.
Proof.
  intros s Hi. unfold mod_hdcp_teardown, mod_out. wlp_step. wlp_step. apply wlp_bind.
  eapply wlp_mono; [by apply keeps_reset_connection|]. intros status s' Hi'. apply wlp_wp, wp_bind. destruct (success status).
  - apply wp_mod, wp_ret, link_inv_zero.
  - apply wp_push; [done|]. intros h' P. apply wp_ret, P.
Qed.

Lemma keeps_add l d : keeps (mod_hdcp_add_display l d).
Proof.
  intros s Hi. unfold mod_hdcp_add_display, mod_out, get_hd. wlp_step. wlp_step. wlp_step. wlp_step. apply keeps_finish.
  destruct (d_state d); try (by apply wlp_wp, wp_ret). destruct (get_active_display_at_index _ _); [by apply wlp_wp, wp_ret|].
  destruct (get_empty_display_container _) as [i|]; [|by apply wlp_wp, wp_ret]. apply wlp_reset; [done|]. intros s' Ha Hl _.
  unfold restart_counters, reset_retry_counts, mod_conn, mod_display, mod_hd. do 8 wlp_step. unfold or_out. wlp_step.
  eapply wlp_respects; [apply topology_add|]. intros a s2 (ds & E & L & _). cbn in E, L. rewrite length_alter in L.
  destruct (success a); apply wlp_wp; hwp; [|rewrite E; apply link_inv_idle; simpl; [by apply (idle_state (hd s'))|congruence|done..]].
  destruct (current_state (hd s2)) eqn:Es; hwp; rewrite E; (apply link_inv_idle; simpl; [|congruence|done..]); try done;
    by apply (idle_state (hd s')).
Qed.

Lemma keeps_remove index : keeps (mod_hdcp_remove_display index).
Proof.
  intros s Hi. unfold mod_hdcp_remove_display, mod_out, get_hd. wlp_step. wlp_step. wlp_step. wlp_step. apply keeps_finish.
  destruct (get_active_display_at_index _ _) as [i|]; [|by apply wlp_wp, wp_ret]. apply wlp_reset; [done|]. intros s' Ha Hl _.
  unfold restart_counters, reset_retry_counts, mod_conn, mod_display, mod_hd. do 4 wlp_step. unfold or_out. wlp_step.
  eapply wlp_respects; [apply topology_remove|]. intros a s2 (ds & E & L & _). cbn in E, L.
  destruct (success a); apply wlp_wp; hwp;
    [destruct (current_state _); hwp|]; rewrite E; (apply link_inv_idle; simpl; rewrite ?length_alter; try done;
      first [by apply (idle_state (hd s'))|congruence]).
Qed.

Lemma keeps_update index la da : keeps (mod_hdcp_update_display index la da).
Proof.
  intros s Hi. unfold mod_hdcp_update_display, mod_out, get_hd. wlp_step. wlp_step. wlp_step. wlp_step. apply keeps_finish.
  destruct (get_active_display_at_index _ _) as [i|]; [|by apply wlp_wp, wp_ret]. apply wlp_bind.
  eapply wlp_respects; [apply adjusts_display_at|]. intros d s1 A1. cbv zeta. destruct (_ && _).
  { apply wlp_wp, wp_ret. by apply (adjusts_inv _ _ A1). }
  apply wlp_bind. eapply (wlp_respects adjusts); [destruct (_ && _); [apply update_adjustments_inv|apply (respects_ret adjusts)]|].
  intros a s2 A2. pose proof (adjusts_inv _ _ A2 (adjusts_inv _ _ A1 Hi)) as Hi2.
  destruct (negb _); [by apply wlp_wp, wp_ret|]. apply wlp_reset; [done|]. intros s' Ha Hl _. apply wlp_wp. hwp.
  destruct (current_state _); hwp; (apply link_inv_idle; simpl; rewrite ?length_alter; try done;
    by apply (idle_state (hd s'))).
Qed.
End Displays.

(** ** Reachable links

    Any sequence of calls, with any world, context and output at each of them. *)

Inductive hdcp_op : Type :=
| OpSetup (cfg : mod_hdcp_config)
| OpTeardown
| OpAdd (l : mod_hdcp_link) (d : mod_hdcp_display)
| OpRemove (index : Z)
| OpUpdate (index : Z) (la : mod_hdcp_link_adjustment) (da : mod_hdcp_display_adjustment)
| OpReset
| OpEvent (e : mod_hdcp_event).

Section Reach.
Context {W : Type} `{!HdcpWorld W}.
Implicit Types s : hst W.

Definition run_op (op : hdcp_op) : stM (hst W) mod_hdcp_status :=
  match op with
  | OpSetup cfg => mod_hdcp_setup cfg
  | OpTeardown => mod_hdcp_teardown
  | OpAdd l d => mod_hdcp_add_display l d
  | OpRemove index => mod_hdcp_remove_display index
  | OpUpdate index la da => mod_hdcp_update_display index la da
  | OpReset => mod_hdcp_reset_connection
  | OpEvent e => mod_hdcp_process_event e
  end.

Inductive hdcp_reach : mod_hdcp -> Prop :=
| reach_zero : hdcp_reach hdcp_zero
| reach_step op s a s' : hdcp_reach (hd s) -> run_op op s = Some (a, s') -> hdcp_reach (hd s').

Lemma run_op_inv op s : link_inv (hd s) -> wlp (run_op op) (fun _ s' => link_inv (hd s')) s.
Proof.
  intros Hi. destruct op; simpl.
  - by apply keeps_setup.
  - by apply keeps_teardown.
  - by apply keeps_add.
  - by apply keeps_remove.
  - by apply keeps_update.
  - by apply keeps_mod_reset_connection.
  - eapply wlp_mono; [by apply process_event_inv|]. by intros a s' [].
Qed.

Lemma reach_inv h : hdcp_reach h -> link_inv h.
Proof. induction 1 as [|op s a s' _ IH E]; [apply link_inv_zero|]. by eapply run_op_inv. Qed.

(** Events until the next call of another operation, with the attempts they start at
    HDCP 1 and at HDCP 2. *)
Fixpoint attempts (es : list mod_hdcp_event) : stM (hst W) (Z * Z) :=
  match es with
  | [] => st_ret (0, 0)
  | e :: es =>
    h <- get_hd ;;
    mod_hdcp_process_event e ;;
    h' <- get_hd ;;
    n <- attempts es ;;
    st_ret (starts Hdcp1 h h' + fst n, starts Hdcp2 h h' + snd n)
  end.

Lemma attempts_bounded es s :
  link_inv (hd s) -> wlp (attempts es) (fun n s' => link_inv (hd s') /\
    fst n + attempts_left Hdcp1 (hd s') <= attempts_left Hdcp1 (hd s) /\
    snd n + attempts_left Hdcp2 (hd s') <= attempts_left Hdcp2 (hd s)) s.
Proof.
  revert s. induction es as [|e es IH]; intros s Hi; cbn [attempts]; unfold get_hd.
  - wlp_step. simpl. split; [done|lia].
  - wlp_step. wlp_step. apply wlp_bind. eapply wlp_mono; [by apply process_event_inv|]. intros a s1 [Hi1 A1].
    wlp_step. wlp_step. apply wlp_bind. eapply wlp_mono; [by apply IH|]. intros n s2 [Hi2 A2]. wlp_step.
    split; [done|]. pose proof (A1 Hdcp1). pose proof (A1 Hdcp2). simpl. lia.
Qed.

Lemma attempts_left_range p h : link_inv h -> 0 <= attempts_left p h <= MAX_NUM_OF_ATTEMPTS.
Proof.
  intros Hi. destruct (li_retries p h Hi) as [L H]. unfold attempts_left, budget, MAX_NUM_OF_ATTEMPTS in *.
  destruct (disabled p h), (running p h); simpl; intuition (try discriminate; lia).
Qed.
End Reach.
