(* ===== verification/HdcpEnc.v ===== *)
(** * HDCP: encryption only behind a validated receiver

    A display is marked as encrypted only in states whose verdicts include the validation
    of the receiver, provided the trusted application destroys an HDCP 1 session when it
    is asked to. *)

From stdpp Require Import sets list.
From Stdlib Require Import ZArith Lia.
From S2P Require Import Prelude Bytes Hdcp HdcpIo HdcpPsp Hdcp1 Hdcp2 HdcpTop HdcpFrame HdcpInv HdcpReach.
Open Scope st_scope.

(** A destroy command that the trusted application answers succeeds. *)
Class TaDestroys (W : Type) `{!HdcpWorld W} : Prop :=
  ta_destroys : forall id (w : W) o w',
    psp_ta_invoke_hdcp (TA_HDCP1_DESTROY_SESSION id) w = (Some o, w') -> ta_ok o = true.

Definition encrypting (h : mod_hdcp) : bool := existsb is_display_encryption_enabled (displays h).

(** The states that require the verdict on the receiver. *)
Definition validated_state (st : state_id) : bool :=
  bool_decide (Forall (.∈ required st) rx_validated) || bool_decide (Forall (.∈ required st) keys_exchanged).

Definition enc_ok (h : mod_hdcp) : Prop := encrypting h = false \/ validated_state (current_state h) = true.

Definition rx_state (st : state_id) : bool :=
  match st with
  | H1_A2_COMPUTATIONS_A3_VALIDATE_RX_A6_TEST_FOR_REPEATER
  | D1_A2_COMPUTATIONS_A3_VALIDATE_RX_A5_TEST_FOR_REPEATER => true
  | _ => false
  end.

(** The receiver of HDCP 1 has just been validated: encryption may be on before the
    transition has left the state. *)
Definition rx_checked (h : mod_hdcp) : Prop :=
  rx_state (current_state h) = true /\ all_passed h [in1_r0p_read; in1_rx_validation].

Definition enc_mid (h : mod_hdcp) : Prop := enc_ok h \/ rx_checked h.

Section Enc.
Context {W : Type} `{!HdcpWorld W}.
Implicit Types s : hst W.

Definition ctx_same s s' : Prop := ctx s' = ctx s.
#[local] Instance ctx_same_preorder : PreOrder ctx_same.
Proof. split; [done|]. unfold ctx_same. intros s1 s2 s3 -> ->. done. Qed.

Lemma ctx_same_world {A} (f : W -> A * W) : respects ctx_same (on_world f).
Proof. intros s a s'. unfold on_world. destruct (f (world s)). by intros [= _ <-]. Qed.
Lemma ctx_same_hd f : respects ctx_same (mod_hd (W:=W) f).
Proof. by apply respects_mod. Qed.

Ltac same_ctx := repeat frame_step ltac:(first [assumption | apply ctx_same_world | apply ctx_same_hd]).

Lemma ctx_same_read_loop fuel addr f off o n : respects ctx_same (read_loop (W:=W) fuel addr f off o n).
Proof. revert o n. induction fuel as [|fuel IH]; intros o n; cbn [read_loop]; same_ctx. apply IH. Qed.
Lemma ctx_same_stream cmd failure n i : respects ctx_same (enable_stream_loop (W:=W) cmd failure n i).
Proof. revert i. induction n as [|n IH]; intros i; cbn [enable_stream_loop]; same_ctx; apply IH. Qed.

(** The flag of a function that succeeds has passed. *)
Lemma exec_passed func flag s :
  wlp (mod_hdcp_execute_and_set (W:=W) func flag)
    (fun a s' => success a = true -> trans_input (auth (hd s')) flag = PASS) s.
Proof.
  unfold mod_hdcp_execute_and_set. apply wlp_bind. intros status s1 _. apply wlp_wp. hwp; simpl; try (by rewrite upd_same);
    intros Hs; rewrite Hs in *; simpl in *; destruct (trans_input _ _) eqn:Ht; try done.
Qed.

Lemma wlp_and {A} (m : stM (hst W) A) Q Q' s : wlp m Q s -> wlp m Q' s -> wlp m (fun a s' => Q a s' /\ Q' a s') s.
Proof. intros H1 H2 a s' E. by split; [apply H1|apply H2]. Qed.

(** One checked step, within a permission. *)
Lemma wlp_checked p func flag s k (Q : mod_hdcp_status -> hst W -> Prop) :
  stays p func -> respects ctx_same func -> bool_decide (flag ∈ may_set p) = true ->
  (forall a s', allowed p s s' -> ctx s' = ctx s -> success a = false -> Q a s') ->
  (forall s', allowed p s s' -> ctx s' = ctx s -> trans_input (auth (hd s')) flag = PASS -> wlp k Q s') ->
  wlp (mod_hdcp_execute_and_set func flag >>? k) Q s.
Proof.
  intros Hp Hc Hin H1 H2. unfold or_out. apply wlp_bind.
  assert (respects ctx_same (mod_hdcp_execute_and_set func flag)) as Hc' by (unfold mod_hdcp_execute_and_set; same_ctx).
  intros a s' E. pose proof (stays_exec p _ _ Hp Hin _ _ _ E) as A. pose proof (exec_passed _ _ _ _ _ E) as F.
  apply Hc' in E. destruct (success a) eqn:Ea; [by apply H2, F|]. apply wlp_wp, wp_ret. by apply H1.
Qed.

Lemma encrypting_same s s' p : allowed p s s' -> may_encrypt p = false -> encrypting (hd s') = encrypting (hd s).
Proof. intros A Hp. unfold encrypting. by rewrite (al_encrypt _ _ _ A Hp). Qed.

Lemma all_passed_cons h k l : trans_input (auth h) k = PASS -> all_passed h l -> all_passed h (k :: l).
Proof. intros. by apply Forall_cons. Qed.

(** The execution that validates an HDCP 1 receiver turns encryption on last. *)
Lemma computations_enc s :
  encrypting (hd s) = false -> unexpected_event (ctx s) = false ->
  wlp computations_validate_rx_test_for_repeater (fun _ s' => encrypting (hd s') = false \/
    (all_passed (hd s') [in1_r0p_read; in1_rx_validation] /\ unexpected_event (ctx s') = false)) s.
Proof.
  intros He Hu. unfold computations_validate_rx_test_for_repeater, expects. wlp_step. wlp_step.
  destruct (is_callback _); [|unfold mod_ctx; wlp_step; wlp_step; wlp_step; by left].
  apply (wlp_checked (May [in1_r0p_read] false false)); [stay|same_ctx; apply ctx_same_read_loop|done|..].
  { intros a s1 A _ _. left. by rewrite (encrypting_same _ _ _ A). }
  intros s1 A1 C1 F1. apply (wlp_checked (May [in1_rx_validation] true false)); [stay|same_ctx|done|..].
  { intros a s2 A2 _ _. left. by rewrite (encrypting_same _ _ _ A2), (encrypting_same _ _ _ A1). }
  intros s2 A2 C2 F2. set (k := st_bind _ _).
  assert (stays (May [in1_encryption; in1_stream_encryption_dp] false true) k) as Hk by (subst k; stay).
  assert (respects ctx_same k) as Hc.
  { subst k. unfold or_out. same_ctx; apply ctx_same_stream. }
  intros a s3 E. right. pose proof (Hk _ _ _ E) as A3. apply Hc in E. split.
  - eapply all_passed_allowed; [exact A3|intros k' [<-|[<-|[]]]%list_elem_of_In; by apply (bool_decide_eq_true_1 _)|].
    apply all_passed_cons; [|apply all_passed_cons; [done|constructor]].
    rewrite (al_flags _ _ _ A2); [done|]. by apply (bool_decide_eq_true_1 _).
  - unfold ctx_same in *. congruence.
Qed.

Lemma encrypts_validated st : encrypts st = true -> validated_state st = true \/ rx_state st = true.
Proof. destruct st; try done; intros _; by vm_compute; auto. Qed.

Lemma exec_enc s :
  enc_ok (hd s) -> unexpected_event (ctx s) = false -> 
  wlp execution (fun _ s' => enc_ok (hd s') \/ (rx_checked (hd s') /\ unexpected_event (ctx s') = false)) s.
Proof.
  intros He Hu a s' H. rewrite execution_of in H. destruct (decide (current_state (hd s) = HDCP_INITIALIZED)) as [E|E].
  - rewrite E in H. revert a s' H. apply wlp_wp. unfold exec_of. hwp; left; exact He.
  - pose proof (stays_exec_of _ E _ _ _ H) as A. destruct He as [He|He]; [|left; right; by rewrite (al_state _ _ _ A)].
    destruct (encrypts (current_state (hd s))) eqn:Ee; [|left; left; by rewrite (encrypting_same _ _ _ A)].
    destruct (encrypts_validated _ Ee) as [Hv|Hx]; [left; right; by rewrite (al_state _ _ _ A)|].
    assert (computations_validate_rx_test_for_repeater s = Some (a, s')) as H'
      by (rewrite <- H; by destruct (current_state (hd s))).
    destruct (computations_enc s He Hu _ _ H') as [?|[? ?]]; [by left; left|right].
    split; [split; [by rewrite (al_state _ _ _ A)|done]|done].
Qed.

(** From a state with a validated receiver the transition goes to one, or asks for a reset. *)
Lemma transition_validated s :
  validated_state (current_state (hd s)) = true \/ (rx_checked (hd s) /\ unexpected_event (ctx s) = false) ->
  wp transition (fun a s' => if success a then validated_state (current_state (hd s')) = true
                             else reset_needed a = true) s.
Proof.
  intros Hs. unfold wp. rewrite transition_of. destruct (unexpected_event (ctx s)) eqn:Eu; [by destruct Hs as [?|[_ ?]]|].
  fold (wp (trans_of (current_state (hd s))) (fun a s' => if success a then validated_state (current_state (hd s')) = true
    else reset_needed a = true) s).
  destruct s as [[cfg conn ds au st n] c o w]. unfold rx_checked, all_passed in Hs. cbn [current_state hd] in *.
  destruct st; try (exfalso; destruct Hs as [Hs|[[Hs _] _]]; [by vm_compute in Hs|done]);
    unfold trans_of; simpl (state_num _ <=? _); cbv iota; hwp; simpl; try reflexivity.
  all: destruct Hs as [Hs|[[_ Hp] _]]; [by vm_compute in Hs|].
  all: rewrite !Forall_cons in Hp; destruct Hp as (P1 & P2 & _); simpl in *; rewrite ?P1, ?P2 in *; done.
Qed.

Lemma transition_enc s :
  enc_ok (hd s) \/ (rx_checked (hd s) /\ unexpected_event (ctx s) = false) ->
  wp transition (fun a s' => if success a then enc_ok (hd s')
                             else enc_mid (hd s') /\ (encrypting (hd s') = false \/ reset_needed a = true)) s.
Proof.
  intros He. destruct (encrypting (hd s)) eqn:Ee.
  - assert (validated_state (current_state (hd s)) = true \/ (rx_checked (hd s) /\ unexpected_event (ctx s) = false)) as Hs.
    { destruct He as [[?|?]|?]; auto. congruence. }
    eapply wp_mono; [apply wp_and; [apply transition_steps|apply transition_validated, Hs]|].
    intros a s' [T V]. destruct (success a) eqn:Ea; [by right|]. split; [|by right].
    pose proof (tr_failed _ _ _ T Ea) as Es. unfold enc_mid, enc_ok, rx_checked, all_passed in *.
    rewrite Es, (tr_flags _ _ _ T). destruct Hs as [?|[? _]]; auto.
  - eapply wp_mono; [apply transition_steps|]. intros a s' T.
    assert (encrypting (hd s') = false) as Ee' by (unfold encrypting in *; by rewrite (tr_displays _ _ _ T)).
    destruct (success a); [by left|]. split; [by left; left|by left].
Qed.

(** ** Reset *)

Definition session_flag (h : mod_hdcp) : input_field := if is_hdcp1 h then in1_create_session else in2_create_session.

Lemma enc_session h :
  link_inv h -> enc_mid h -> encrypting h = true ->
  in_auth h = true /\ trans_input (auth h) (session_flag h) = PASS /\ (is_hdcp2 h = true -> enc_ok h).
Proof.
  intros [_ [V _] _ _ _] He Ee. assert (validated_state (current_state h) = true \/ rx_state (current_state h) = true) as Hs.
  { destruct He as [[?|?]|[? _]]; auto. congruence. }
  unfold all_passed in V. rewrite Forall_forall in V.
  destruct h as [cfg conn ds au st n]. unfold enc_ok, session_flag in *. cbn [current_state auth] in *.
  destruct st; try (exfalso; destruct Hs as [Hs|Hs]; [by vm_compute in Hs|done]); split_and!; try done;
    try (apply V; by apply (bool_decide_eq_true_1 _)); intros _; right; by vm_compute.
Qed.

Lemma encrypting_disabled ds : existsb is_display_encryption_enabled (disable_encryption <$> ds) = false.
Proof.
  induction ds as [|d ds IH]; simpl; [done|]. rewrite orb_false_iff. split; [|done].
  unfold disable_encryption, is_display_encryption_enabled. destruct (d_state d) eqn:E; simpl; by rewrite ?E.
Qed.

Context `{!TaDestroys W}.

Lemma ta_destroys_ok id w : ta_ok (fst (psp_hdcp_invoke (TA_HDCP1_DESTROY_SESSION id) w)) = true.
Proof.
  unfold psp_hdcp_invoke. destruct (sriov_vf w); [done|]. destruct (negb _); [done|].
  destruct (psp_ta_invoke_hdcp _ w) as [[o|] w'] eqn:E; [|done]. by apply (ta_destroys _ _ _ _ E).
Qed.

Lemma wp_destroy1_ok (Q : mod_hdcp_status -> hst W -> Prop) s :
  (forall a s', encrypting (hd s') = false -> Q a s') -> wp mod_hdcp_hdcp1_destroy_session Q s.
Proof.
  intros HQ. unfold mod_hdcp_hdcp1_destroy_session, ta. hwp_step. hwp_step. hwp_step. hwp_step.
  apply wp_on_world. intros o w E. pose proof (ta_destroys_ok (auth_id (auth (hd s))) (world s)) as Hok.
  rewrite E in Hok. simpl in Hok. rewrite Hok. simpl. hwp. apply HQ, encrypting_disabled.
Qed.

(** A reset ends every encryption, or nothing changes. *)
Lemma reset_enc s :
  link_inv (hd s) -> enc_mid (hd s) ->
  wp reset_authentication (fun a s' => if success a then encrypting (hd s') = false
                                       else hd s' = hd s /\ enc_ok (hd s)) s.
Proof.
  intros Hi He. set (Q := fun (a : mod_hdcp_status) (s' : hst W) => _).
  assert (forall s1, encrypting (hd s1) = false -> wp (clear_authentication ;; st_ret MOD_HDCP_STATUS_SUCCESS)
     (fun status => wp (stop_requests ;; st_ret status) Q) s1) as Hclear by (intros s1 H1; hwp; exact H1).
  pose proof (enc_session _ Hi He) as Hs. unfold session_flag, in_auth in Hs.
  unfold reset_authentication. apply wp_bind, wp_gets, wp_bind.
  destruct (is_hdcp1 (hd s)) eqn:E1; [|destruct (is_hdcp2 (hd s)) eqn:E2].
  - apply wp_bind. destruct (trans_input (auth (hd s)) in1_create_session) eqn:Ec; simpl;
      [apply wp_ret, Hclear|by apply wp_destroy1_ok..]. destruct (encrypting (hd s)); [by destruct Hs as (_ & ? & _)|done].
  - apply wp_bind. destruct (trans_input (auth (hd s)) in2_create_session) eqn:Ec; simpl;
      try (apply wp_ret, Hclear; destruct (encrypting (hd s)); [by destruct Hs as (_ & ? & _)|done]).
    apply wp_destroy2; intros w; simpl; [|apply Hclear, encrypting_disabled].
    hwp. split; [done|]. destruct (encrypting (hd s)) eqn:Ee; [by apply Hs|by left].
  - assert (encrypting (hd s) = false) as Ee by (destruct (encrypting (hd s)); [by destruct Hs|done]).
    destruct (is_in_cp_not_desired_state (hd s)); [by apply Hclear|]. hwp. exact Ee.
Qed.

(** ** Events *)

Lemma pushes_enc_ok h h' : pushes h h' -> enc_ok h -> enc_ok h'.
Proof. intros P. unfold enc_ok, encrypting. by rewrite (pu_state _ _ P), (pu_displays _ _ P). Qed.
Lemma pushes_enc_mid h h' : pushes h h' -> enc_mid h -> enc_mid h'.
Proof.
  intros P [?|?]; [left; by eapply pushes_enc_ok|right]. unfold rx_checked, all_passed in *.
  by rewrite (pu_state _ _ P), (pu_auth _ _ P).
Qed.

Definition safe_link (h : mod_hdcp) : Prop := link_inv h /\ enc_ok h.

Lemma wp_push_unless_safe status (Q : unit -> hst W -> Prop) s :
  safe_link (hd s) -> (forall s', safe_link (hd s') -> Q tt s') -> wp (push_unless_success status) Q s.
Proof.
  intros [Hi He] HQ. apply wp_push_unless; [done|intros _; by apply HQ|]. intros h' _ P. apply HQ.
  split; [apply P|by eapply pushes_enc_ok].
Qed.

Lemma wp_reset_safe (Q : mod_hdcp_status -> hst W -> Prop) s :
  link_inv (hd s) -> enc_mid (hd s) ->
  (forall a s', safe_link (hd s') -> (success a = true -> in_auth (hd s') = false /\ encrypting (hd s') = false) -> Q a s') ->
  wp reset_authentication Q s.
Proof.
  intros Hi He HQ. eapply wp_mono; [apply wp_and; [apply reset_resets|by apply reset_enc]|]. intros a s' [R E].
  pose proof (reset_inv _ _ _ Hi R). apply HQ; [split; [done|]|].
  - destruct (success a); [by left|]. by destruct E as [-> ?].
  - intros Ha. rewrite Ha in E. split; [by apply (resets_done _ _ _ R)|done].
Qed.

Lemma process_event_safe e s : safe_link (hd s) -> wlp (mod_hdcp_process_event e) (fun _ s' => safe_link (hd s')) s.
Proof.
  intros [Hi He]. unfold mod_hdcp_process_event, mod_out, mod_ctx. wlp_step. wlp_step. wlp_step. wlp_step. apply wlp_bind.
  eapply wlp_mono; [apply wlp_and; [by apply exec_inv|by apply exec_enc]|]. intros ex s1 [(Hi1 & _ & _) He1].
  apply wlp_wp, wp_bind. eapply wp_mono; [apply wp_and; [by apply trans_inv|by apply transition_enc]|].
  intros tr s2 [(Hi2 & _ & _) He2].
  assert (forall s3 st, safe_link (hd s3) ->
    wp (if is_cpirq e then status <- mod_hdcp_clear_cp_irq_status ;; push_unless_success status ;; st_ret status
        else st_ret st) (fun _ s' => safe_link (hd s')) s3) as Hend.
  { intros s3 st H3. destruct (is_cpirq e); [|by apply wp_ret]. apply wp_bind. eapply wp_mono; [apply clear_irq_keeps|].
    intros status s4 E4. apply wp_bind, wp_push_unless_safe; [by rewrite E4|]. intros. by apply wp_ret. }
  apply wp_bind. destruct (success tr) eqn:Etr.
  { apply wp_ret, wp_bind. replace (reset_needed tr) with false by (by destruct tr). apply wp_ret. by apply Hend. }
  destruct He2 as [He2 Hr]. apply wp_bind, wp_push; [done|]. intros h' P. apply wp_ret, wp_bind.
  destruct (reset_needed tr).
  - apply wp_bind, wp_reset_safe; [apply P|by eapply pushes_enc_mid|]. intros a s3 H3 _.
    apply wp_push_unless_safe; [done|]. intros. by apply Hend.
  - destruct Hr as [Hr|?]; [|done]. apply wp_ret, Hend. split; [apply P|]. left. unfold encrypting in *. simpl.
    by rewrite (pu_displays _ _ P).
Qed.

(** ** Operations *)

Definition quiet s s' : Prop := encrypting (hd s) = false -> encrypting (hd s') = false.
#[local] Instance quiet_preorder : PreOrder quiet.
Proof. split; [by intros s H|]. unfold quiet. intros s1 s2 s3. auto. Qed.

Lemma quiet_hd f : (forall h, displays (f h) = displays h) -> respects quiet (mod_hd (W:=W) f).
Proof. intros Hf. apply respects_mod. intros s. unfold quiet, encrypting. simpl. by rewrite Hf. Qed.
Lemma quiet_out f : respects quiet (mod_out (W:=W) f).
Proof. apply respects_mod. by intros s H. Qed.
Lemma quiet_display i f :
  (forall d, is_display_encryption_enabled (f d) = false) -> respects quiet (mod_display (W:=W) i f).
Proof. intros Hf. apply respects_mod. intros s H. by apply encrypting_alter. Qed.
Lemma quiet_adjust i adj : respects quiet (mod_display (W:=W) i (set_display_adjust adj)).
Proof.
  apply respects_mod. intros s. unfold quiet, encrypting. simpl. revert i.
  induction (displays (hd s)) as [|d ds IH]; intros i; [by destruct i|]. simpl. rewrite orb_false_iff. intros [H1 H2].
  destruct i as [|i]; simpl; rewrite orb_false_iff; split; auto. by apply (IH i).
Qed.
Lemma quiet_topology m : respects topology m -> respects quiet (m : stM (hst W) mod_hdcp_status).
Proof. intros H s a s' (ds & E & _ & F)%H. unfold quiet, encrypting. by rewrite E. Qed.

Ltac quiet := repeat frame_step ltac:(first
  [ apply quiet_out | apply quiet_adjust | apply quiet_topology, topology_add | apply quiet_topology, topology_remove
  | apply quiet_hd; done | apply quiet_display; done ]).

Abbreviation keeps_enc m := (forall s, safe_link (hd s) -> wlp m (fun _ s' => enc_ok (hd s')) s).

Lemma enc_finish (m : stM (hst W) mod_hdcp_status) s :
  wlp m (fun _ s' => enc_ok (hd s')) s ->
  wlp (status <- m ;; push_unless_success status ;; st_ret status) (fun _ s' => enc_ok (hd s')) s.
Proof.
  intros H. apply wlp_bind. eapply wlp_mono; [exact H|]. intros status s' He. apply wlp_wp, wp_bind.
  unfold push_unless_success. destruct (success status); [by apply wp_ret, wp_ret|]. by apply wp_mod, wp_ret.
Qed.

Lemma enc_reset k : respects quiet k -> keeps_enc (reset_authentication >>? k).
Proof.
  intros Hk s [Hi He]. unfold or_out. apply wlp_bind, wlp_wp, wp_reset_safe; [done|by left|]. intros a s' [_ H1] H2.
  destruct (success a); [|by apply wlp_wp, wp_ret]. intros b s2 E. left. eapply Hk; [exact E|]. by apply H2.
Qed.

Lemma enc_reset_connection : keeps_enc reset_connection.
Proof. intros s Hs. unfold reset_connection, mod_out. wlp_step. wlp_step. apply enc_reset; [quiet|done]. Qed.

Lemma wlp_display_at {A} i (k : mod_hdcp_display -> stM (hst W) A) (Q : A -> hst W -> Prop) s :
  (forall d, wlp (k d) Q s) -> wlp (st_bind (display_at i) k) Q s.
Proof.
  intros Hk. apply wlp_bind. intros d s2. unfold display_at, get_hd, st_bind, st_gets, st_of_option.
  destruct (displays (hd s) !! i); [|done]. intros [= <- <-]. apply Hk.
Qed.

Lemma update_adjustments_enc i adj : keeps_enc (update_display_adjustments (W:=W) i adj).
Proof.
  intros s [Hi He]. destruct (is_in_authenticated_states (hd s)) eqn:Ea.
  - eapply wlp_respects; [apply update_adjustments_inv|]. intros a s' A. right. rewrite (ad_state _ _ A).
    destruct s as [[cfg conn ds au st n] c o w]. destruct st; try done; by vm_compute.
  - unfold update_display_adjustments, get_hd. wlp_step. wlp_step. rewrite Ea. cbn [andb]. apply wlp_display_at. intros d.
    cbv zeta. wlp_step. wlp_step. apply wlp_display_at. intros d'. by wlp_step.
Qed.

Lemma enc_setup cfg : keeps_enc (mod_hdcp_setup cfg).
Proof.
  intros s Hs. unfold mod_hdcp_setup, mod_out, mod_hd. do 4 wlp_step. apply enc_finish, enc_reset_connection.
  destruct Hs as [[] ?]. by split.
Qed.
Lemma enc_teardown : keeps_enc mod_hdcp_teardown.
Proof.
  intros s Hs. unfold mod_hdcp_teardown, mod_out. do 3 wlp_step. eapply wlp_mono; [by apply enc_reset_connection|].
  intros status s' He. apply wlp_wp, wp_bind. destruct (success status); [apply wp_mod, wp_ret; by left|by apply wp_mod, wp_ret].
Qed.
Lemma enc_add l d : keeps_enc (mod_hdcp_add_display l d).
Proof.
  intros s Hs. unfold mod_hdcp_add_display, mod_out, get_hd. do 4 wlp_step. apply enc_finish.
  assert (forall a, wlp (st_ret a) (fun (_ : mod_hdcp_status) (s' : hst W) => enc_ok (hd s'))
    (Hst (hd s) (ctx s) output_zero (world s))) as Hret by (intros; apply wlp_wp, wp_ret, Hs).
  destruct (d_state d) eqn:Ed; [done| |done]. assert (is_display_encryption_enabled d = false) as Ee
    by (unfold is_display_encryption_enabled; by rewrite Ed).
  destruct (get_active_display_at_index _ _); [done|]. destruct (get_empty_display_container _); [|done].
  apply enc_reset; [|done]. quiet.
Qed.
Lemma enc_remove index : keeps_enc (mod_hdcp_remove_display index).
Proof.
  intros s Hs. unfold mod_hdcp_remove_display, mod_out, get_hd. do 4 wlp_step. apply enc_finish.
  destruct (get_active_display_at_index _ _); [|by apply wlp_wp, wp_ret, Hs]. apply enc_reset; [quiet|done].
Qed.
Lemma enc_update index la da : keeps_enc (mod_hdcp_update_display index la da).
Proof.
  intros s Hs. unfold mod_hdcp_update_display, mod_out, get_hd. do 4 wlp_step. apply enc_finish.
  destruct (get_active_display_at_index _ _) as [i|]; [|by apply wlp_wp, wp_ret, Hs]. apply wlp_display_at. intros d.
  cbv zeta. destruct (_ && _); [by apply wlp_wp, wp_ret, Hs|]. apply wlp_bind. set (s1 := Hst _ _ _ _).
  assert (wlp (if bool_decide (la = adjust (link (connection (hd s1)))) && negb (bool_decide (da = d_adjust d))
    then update_display_adjustments i da else st_ret MOD_HDCP_STATUS_NOT_IMPLEMENTED)
    (fun _ s' => safe_link (hd s')) s1) as H1.
  { destruct (_ && _); [|by apply wlp_wp, wp_ret]. apply wlp_and; [|by apply update_adjustments_enc].
    eapply wlp_respects; [apply update_adjustments_inv|]. intros a s2 A. eapply adjusts_inv; [exact A|apply Hs]. }
  eapply wlp_mono; [exact H1|]. intros a s2 H2. destruct (negb (not_implemented a)); [by apply wlp_wp, wp_ret, H2|].
  apply enc_reset; [quiet|done].
Qed.

Lemma run_op_safe op s : safe_link (hd s) -> wlp (run_op op) (fun _ s' => safe_link (hd s')) s.
Proof.
  intros Hs. apply wlp_and; [apply run_op_inv, Hs|]. destruct op; simpl; [by apply enc_setup|by apply enc_teardown
    |by apply enc_add|by apply enc_remove|by apply enc_update| |].
  - by apply enc_finish, enc_reset_connection.
  - eapply wlp_mono; [by apply process_event_safe|]. by intros a s' [].
Qed.

Lemma reach_safe h : hdcp_reach h -> safe_link h.
Proof.
  induction 1 as [|op s a s' _ IH E]; [split; [apply link_inv_zero|by left]|]. by eapply run_op_safe.
Qed.

(** The verdicts behind an encrypted display. *)
Lemma encrypted_verdicts h :
  safe_link h -> encrypting h = true ->
  (is_hdcp1 h = true /\ all_passed h rx_validated) \/ (is_hdcp2 h = true /\ all_passed h keys_exchanged).
Proof.
  intros [Hi [He|He]] Ee; [congruence|]. destruct (li_verdicts _ Hi) as [V _]. unfold all_passed in *.
  rewrite Forall_forall in V. assert (forall l, bool_decide (Forall (.∈ required (current_state h)) l) = true ->
    Forall (fun k => trans_input (auth h) k = PASS) l) as Hl.
  { intros l Hb%bool_decide_eq_true_1. eapply Forall_impl; [exact Hb|]. auto. }
  unfold validated_state in He. destruct h as [cfg conn ds au st n]. cbn [current_state auth] in *.
  destruct st; try (by vm_compute in He);
    first [by left; split; [done|apply Hl; vm_compute] | by right; split; [done|apply Hl; vm_compute]].
Qed.
End Enc.
