(* ===== verification/HdcpSafe.v ===== *)
(** * HDCP: no access outside the messages

    Under what the HDCP 2.2 specification says of RxStatus and of the stream management
    message, no operation reads or writes outside an array of the message structure,
    follows a pointer to no display or runs a loop without end. *)

From stdpp Require Import sets list.
From Stdlib Require Import ZArith Lia.
From S2P Require Import Prelude Bytes Hdcp HdcpIo HdcpPsp Hdcp1 Hdcp2 HdcpTop HdcpFrame HdcpInv HdcpReach.
Open Scope st_scope.

(** The receiver ID list an HDMI receiver announces fits its largest message. *)
Definition rxstatus_ok (rxstatus : list Z) : Prop :=
  HDCP_2_2_HDMI_RXSTATUS_READY (nth 1 rxstatus 0) <> 0 ->
  0 <= get_hdmi_rxstatus_msg_size rxstatus <= msg_size m2_rx_id_list.

Class HdcpPeers (W : Type) `{!HdcpWorld W} : Prop := {
  rxstatus_read : forall (w : W) bs w',
    read_i2c HDCP_I2C_ADDR (hdcp_i2c_offsets READ_RXSTATUS) 2 w = ((true, bs), w') ->
    exists b0 b1, bs = [b0; b1] /\ is_byte b0 /\ is_byte b1 /\ rxstatus_ok bs;
  stream_manage_prepared : forall m (w : W),
    prepare_msg1_id m = TA_HDCP_HDCP2_MSG_ID__REPEATERAUTH_STREAM_MANAGE ->
    let o := fst (psp_hdcp_invoke (TA_HDCP2_PREPARE_PROCESS_AUTHENTICATION_MSG_V2 m) w) in
    ta_ok o = true -> 1 <= prepare_msg1_size o <= msg_size m2_repeater_auth_stream_manage
}.

(** The sizes that are kept in the messages. *)
Definition sizes_ok (a : mod_hdcp_authentication) : Prop :=
  0 <= le_combine (msg a m1_ksvlist_size) <= msg_size m1_ksvlist /\
  0 <= le_combine (msg a m2_rx_id_list_size) <= msg_size m2_rx_id_list.

(** [rx]: RxStatus has just been read; [sm]: a stream management message has been prepared. *)
Record mem_ok (rx sm : bool) (h : mod_hdcp) : Prop := {
  mo_len : length (displays h) = Z.to_nat MAX_NUM_OF_DISPLAYS;
  mo_active : Exists (fun d => is_display_active d = true) (displays h);
  mo_sizes : sizes_ok (auth h);
  mo_rx : rx = true -> is_dp_hdcp h = false -> rxstatus_ok (msg (auth h) m2_rxstatus);
  mo_sm : sm = true -> 1 <= le_combine (msg (auth h) m2_stream_manage_size) <= msg_size m2_repeater_auth_stream_manage
}.

(** The messages such a state depends on. *)
Definition guarded (rx sm : bool) (f : msg_field) : bool :=
  match f with
  | m1_ksvlist_size | m2_rx_id_list_size => true
  | m2_rxstatus => rx
  | m2_stream_manage_size => sm
  | _ => false
  end.

Lemma in_field_true f off n : 0 <= off -> 0 <= n -> off + n <= msg_size f -> in_field f off n = true.
Proof. intros. unfold in_field. rewrite !andb_true_iff, !Z.leb_le. lia. Qed.
Lemma in_field_inv f off n : in_field f off n = true -> 0 <= off /\ 0 <= n /\ off + n <= msg_size f.
Proof. unfold in_field. rewrite !andb_true_iff, !Z.leb_le. lia. Qed.

(** ** Runs that end and keep a property of the link *)

Section Runs.
Context {W : Type} `{!HdcpWorld W}.
Abbreviation M := (stM (hst W)).

Definition runs {A} (P : mod_hdcp -> Prop) (m : M A) : Prop :=
  forall s, P (hd s) -> wp m (fun _ s' => P (hd s')) s.

Variable P : mod_hdcp -> Prop.

Lemma total_ret {A} (a : A) : runs P (st_ret a).
Proof. intros s H. by apply wp_ret. Qed.
Lemma total_gets {A} (f : hst W -> A) : runs P (st_gets f).
Proof. intros s H. by apply wp_gets. Qed.
Lemma total_bind {A B} (m : M A) (k : A -> M B) : runs P m -> (forall a, runs P (k a)) -> runs P (st_bind m k).
Proof. intros H1 H2 s H. apply wp_bind. eapply wp_mono; [by apply H1|]. intros a s'. apply H2. Qed.
Lemma total_when c (m : M unit) : runs P m -> runs P (st_when c m).
Proof. intros H. destruct c; [done|apply total_ret]. Qed.
Lemma total_or m k : runs P m -> runs P k -> runs P (m >>? k).
Proof. intros H1 H2. apply total_bind; [done|]. intros a. destruct (success a); [done|apply total_ret]. Qed.
Lemma total_let {A B} (a : A) (k : A -> M B) : runs P (k a) -> runs P (st_bind (st_ret a) k).
Proof. intros H s Hs. apply wp_bind, wp_ret. by apply H. Qed.
Lemma total_world {A} (f : W -> A * W) : runs P (on_world f).
Proof. intros s H. apply wp_on_world. by intros. Qed.
Lemma total_ctx f : runs P (mod_ctx f).
Proof. intros s H. by apply wp_mod. Qed.
Lemma total_out f : runs P (mod_out f).
Proof. intros s H. by apply wp_mod. Qed.
End Runs.

Abbreviation safe_run rx sm := (runs (mem_ok rx sm)).

Section Keeps.
Context {W : Type} `{!HdcpWorld W}.
Abbreviation M := (stM (hst W)).
Implicit Types s : hst W.

Variables rx sm : bool.
Abbreviation total := (runs (W:=W) (mem_ok rx sm)).

Lemma total_auth f :
  (forall a k, guarded rx sm k = true -> msg (f a) k = msg a k) -> total (mod_auth f).
Proof.
  intros Hf s [Hl Ha [H1 H2] Hr Hs]. apply wp_mod. split; [done|done|..]; simpl.
  - unfold sizes_ok. by rewrite !Hf by done.
  - intros ->. rewrite Hf by done. auto.
  - intros ->. rewrite Hf by done. auto.
Qed.
Lemma total_msg f g : guarded rx sm f = false -> total (mod_auth (fun a => set_msg f (g a) a)).
Proof. intros Hf. apply total_auth. intros a k Hk. simpl. apply upd_other. intros ->. congruence. Qed.
Lemma total_input k v : total (mod_auth (set_input k v)).
Proof. by apply total_auth. Qed.
Lemma total_auth_id n : total (mod_auth (set_auth_id n)).
Proof. by apply total_auth. Qed.
Lemma total_conn f : (forall c, link (f c) = link c) -> total (mod_conn f).
Proof. intros Hf s [? ? ? Hr ?]. apply wp_mod. split; try done. unfold is_dp_hdcp in *. simpl. by rewrite Hf. Qed.

Lemma total_execute func flag : total func -> total (mod_hdcp_execute_and_set func flag).
Proof.
  intros Hf. unfold mod_hdcp_execute_and_set, get_input. apply total_bind; [done|]. intros a. apply total_bind; [apply total_gets|].
  intros r. apply total_bind; [|intros; apply total_ret]. destruct (_ && _); [apply total_input|].
  destruct (_ && _); [apply total_input|apply total_ret].
Qed.

Lemma total_store f off n bs : in_field f off n = true -> guarded rx sm f = false -> total (msg_store f off n bs).
Proof. intros Hi Hf. unfold msg_store. rewrite Hi. by apply total_msg. Qed.
Lemma total_load f off n : in_field f off n = true -> total (msg_load f off n).
Proof. intros Hi. unfold msg_load. rewrite Hi. apply total_gets. Qed.
Lemma total_put f bs : guarded rx sm f = false -> total (put_msg f bs).
Proof. intros Hf. by apply (total_msg f (fun _ => _)). Qed.

(** ** Transfers *)

Lemma total_read_loop fuel addr f off o n :
  (Z.to_nat n < fuel)%nat -> guarded rx sm f = false -> 0 <= off -> 0 <= o -> 0 <= n -> off + o + n <= msg_size f ->
  total (read_loop fuel addr f off o n).
Proof.
  intros Hfuel Hf. revert o n Hfuel. induction fuel as [|fuel IH]; intros o n Hfuel Hoff Ho Hn Hsz; [lia|].
  cbn [read_loop]. destruct (Z.eqb_spec n 0) as [|Hn0]; [apply total_ret|]. unfold HDCP_MAX_AUX_TRANSACTION_SIZE.
  apply total_bind; [apply total_world|]. intros r. apply total_bind; [apply total_store; [apply in_field_true; lia|done]|].
  intros _. destruct (fst r); [apply IH; lia|apply total_ret].
Qed.

Lemma total_read m f off n : in_field f off n = true -> guarded rx sm f = false -> total (read m f off n).
Proof.
  intros Hi Hf. pose proof (in_field_inv _ _ _ Hi). unfold read, get_hd. apply total_bind; [apply total_gets|]. intros h.
  destruct (is_dp_hdcp h).
  - apply total_bind; [|intros; apply total_ret]. apply total_read_loop; try done; unfold io_fuel; lia.
  - apply total_bind; [apply total_world|]. intros r. apply total_bind; [by apply total_store|intros; apply total_ret].
Qed.

Lemma total_repeatedly_loop fuel m f o n r st :
  (Z.to_nat n < fuel)%nat -> guarded rx sm f = false -> 0 <= o -> 0 <= n -> 0 < r -> o + n <= msg_size f ->
  total (read_repeatedly_loop fuel m f o n r st).
Proof.
  intros Hfuel Hf. revert o n st Hfuel. induction fuel as [|fuel IH]; intros o n st Hfuel Ho Hn Hr Hsz; [lia|].
  cbn [read_repeatedly_loop]. destruct (Z.eqb_spec n 0) as [|Hn0]; [apply total_ret|].
  apply total_bind; [apply total_read; [apply in_field_true; lia|done]|]. intros a.
  destruct (success a); [apply IH; lia|apply total_ret].
Qed.

Lemma total_write_loop fuel addr f off o n :
  (Z.to_nat n < fuel)%nat -> 0 <= off -> 0 <= o -> 0 <= n -> off + o + n <= msg_size f ->
  total (write_loop fuel addr f off o n).
Proof.
  revert o n. induction fuel as [|fuel IH]; intros o n Hfuel Hoff Ho Hn Hsz; [lia|].
  cbn [write_loop]. destruct (Z.eqb_spec n 0) as [|Hn0]; [apply total_ret|]. unfold HDCP_MAX_AUX_TRANSACTION_SIZE.
  apply total_bind; [apply total_load, in_field_true; lia|]. intros bs. apply total_bind; [apply total_world|].
  intros r. destruct r; [apply IH; lia|apply total_ret].
Qed.

Lemma msg_size_buf f : 0 <= msg_size f < HDCP_BUF_SIZE.
Proof. by destruct f. Qed.

Lemma total_write m f off n : in_field f off n = true -> total (write m f off n).
Proof.
  intros Hi. pose proof (in_field_inv _ _ _ Hi). pose proof (msg_size_buf f). unfold write, get_hd.
  apply total_bind; [apply total_gets|]. intros h. destruct (is_dp_hdcp h).
  - apply total_bind; [|intros; apply total_ret]. apply total_write_loop; unfold io_fuel; lia.
  - apply total_bind; [by apply total_load|]. intros bs. apply total_bind.
    + unfold BUG_ON. destruct (Z.ltb_spec HDCP_BUF_SIZE (n + 1)); [lia|apply total_ret].
    + intros _. apply total_bind; [apply total_world|intros; apply total_ret].
Qed.
End Keeps.

Ltac total_leaf :=
  lazymatch goal with
  | |- runs _ ?m =>
    lazymatch m with
    | on_world _ => apply total_world
    | mod_hdcp_execute_and_set _ _ => apply total_execute
    | mod_auth (set_auth_id _) => apply total_auth_id
    | mod_conn _ => by apply total_conn
    | mod_ctx _ => apply total_ctx
    | mod_out _ => apply total_out
    | msg_store _ _ _ _ => apply total_store; reflexivity
    | msg_load _ _ _ => apply total_load; reflexivity
    | read _ _ _ _ => apply total_read; reflexivity
    | write _ _ _ _ => apply total_write; reflexivity
    | put_msg _ _ => apply total_put; reflexivity
    | _ => first [assumption | solve [auto with hdcp_safe nocore]]
    end
  end.
Ltac total_step :=
  lazymatch goal with
  | |- runs _ ?m =>
    lazymatch m with
    | st_bind _ _ => first [total_leaf | apply total_bind; [|intros ?]]
    | _ >>? _ => first [total_leaf | apply total_or]
    | st_when _ _ => apply total_when
    | st_ret _ => apply total_ret
    | st_gets _ => apply total_gets
    | match ?x with _ => _ end => destruct x
    | _ => first [total_leaf | let h := head_of m in unfold h]
    end
  end.
Ltac total := repeat total_step.
Create HintDb hdcp_safe.

Section Functions.
Context {W : Type} `{!HdcpWorld W}.
Abbreviation M := (stM (hst W)).
Implicit Types s : hst W.

(** ** Displays *)

Lemma find_display_exists l i :
  Exists (fun d => is_display_active d = true) l -> exists j, find_display is_display_active l i = Some j.
Proof.
  intros H. revert i. induction H as [d l Hd|d l _ IH]; intros i; simpl; [rewrite Hd; eauto|].
  destruct (is_display_active d); eauto.
Qed.

Lemma first_active rx sm h :
  mem_ok rx sm h -> exists i d, get_first_active_display h = Some i /\ displays h !! i = Some d /\ is_display_active d = true.
Proof.
  intros H. destruct (find_display_exists _ 0 (mo_active _ _ _ H)) as [i Hi].
  destruct (first_active_lookup _ _ Hi) as (d & ? & ?). eauto.
Qed.

Lemma Exists_encrypt i ds :
  Exists (fun d => is_display_active d = true) ds ->
  Exists (fun d => is_display_active d = true)
    (alter (set_display_state MOD_HDCP_DISPLAY_ENCRYPTION_ENABLED) i ds).
Proof.
  intros H. revert i. induction H as [d l Hd|d l _ IH]; intros [|i]; simpl; [by left|by left|by left|right; by apply (IH i)].
Qed.

Lemma total_encrypt rx sm i :
  safe_run rx sm (mod_display (W:=W) i (set_display_state MOD_HDCP_DISPLAY_ENCRYPTION_ENABLED)).
Proof. intros s []. apply wp_mod. split; simpl; try done; [by rewrite length_alter|by apply Exists_encrypt]. Qed.

Lemma total_display_at (P : mod_hdcp -> Prop) i :
  (forall h, P h -> length (displays h) = Z.to_nat MAX_NUM_OF_DISPLAYS) ->
  (i < Z.to_nat MAX_NUM_OF_DISPLAYS)%nat -> runs P (display_at (W:=W) i).
Proof.
  intros HP Hi s H. pose proof (HP _ H) as Hl. unfold display_at, get_hd. apply wp_bind, wp_gets.
  destruct (lookup_lt_is_Some_2 (displays (hd s)) i ltac:(by rewrite Hl)) as [d Hd]. by eapply wp_of_option.
Qed.

Lemma total_stream_loop (P : mod_hdcp -> Prop) cmd failure n i :
  (forall h, P h -> length (displays h) = Z.to_nat MAX_NUM_OF_DISPLAYS) ->
  (forall i, runs P (mod_display (W:=W) i (set_display_state MOD_HDCP_DISPLAY_ENCRYPTION_ENABLED))) ->
  (i + n <= Z.to_nat MAX_NUM_OF_DISPLAYS)%nat -> runs P (enable_stream_loop (W:=W) cmd failure n i).
Proof.
  intros HP Hd. revert i. induction n as [|n IH]; intros i Hi; cbn [enable_stream_loop]; [apply total_ret|].
  apply total_bind; [apply total_display_at; [done|lia]|]. intros d. destruct (d_state d); [apply IH; lia| |apply IH; lia].
  destruct (negb _); [apply IH; lia|]. apply total_bind; [total|]. intros o. destruct (negb _); [apply total_ret|].
  apply total_bind; [apply Hd|]. intros _. apply IH. lia.
Qed.
Lemma total_streams1 rx sm : safe_run rx sm (mod_hdcp_hdcp1_enable_dp_stream_encryption (W:=W)).
Proof. apply total_stream_loop; [apply mo_len|apply total_encrypt|done]. Qed.
Lemma total_streams2 rx sm : safe_run rx sm (mod_hdcp_hdcp2_enable_dp_stream_encryption (W:=W)).
Proof. apply total_stream_loop; [apply mo_len|apply total_encrypt|done]. Qed.

(** A continuation that needs the first active display has one. *)
Lemma total_first_active {A} rx sm (k : mod_hdcp -> M A) :
  (forall h i d, get_first_active_display h = Some i -> (i < Z.to_nat MAX_NUM_OF_DISPLAYS)%nat -> displays h !! i = Some d ->
    safe_run rx sm (k h)) ->
  safe_run rx sm (h <- get_hd ;; k h).
Proof.
  intros Hk s H. apply wp_bind, wp_gets. destruct (first_active _ _ _ H) as (i & d & H1 & H2 & _).
  eapply Hk; eauto. rewrite <- (mo_len _ _ _ H). by eapply lookup_lt_Some.
Qed.

Lemma total_create1 : safe_run false false (mod_hdcp_hdcp1_create_session (W:=W)).
Proof.
  unfold mod_hdcp_hdcp1_create_session. do 2 total_step; [total|]. apply total_first_active. intros h i d E Hi _.
  rewrite E. apply total_let, total_bind; [by apply total_display_at; [apply mo_len|]|]. intros d'. total.
Qed.
Lemma total_create2 : safe_run false false (mod_hdcp_hdcp2_create_session (W:=W)).
Proof.
  unfold mod_hdcp_hdcp2_create_session. do 2 total_step; [total|]. apply total_first_active. intros h i d E Hi _.
  rewrite E. apply total_bind; [by apply total_display_at; [apply mo_len|]|]. intros d'. total.
Qed.
#[local] Hint Resolve total_encrypt total_streams1 total_streams2 total_create1 total_create2 : hdcp_safe.
Lemma total_encryption1 : safe_run false false (mod_hdcp_hdcp1_enable_encryption (W:=W)).
Proof. total. Qed.
Lemma total_encryption2 rx : safe_run rx false (mod_hdcp_hdcp2_enable_encryption (W:=W)).
Proof. total. Qed.

(** ** Sizes *)

Lemma le_split_value z : 0 <= z < 65536 -> le_combine (le_split 2 z) = z.
Proof. intros. rewrite le_combine_split. apply Z.mod_small. done. Qed.

Lemma total_size {A} f lo hi rx sm (k : Z -> M A) :
  (forall h, mem_ok rx sm h -> lo <= le_combine (msg (auth h) f) <= hi) ->
  (forall n, lo <= n <= hi -> safe_run rx sm (k n)) -> safe_run rx sm (n <- get_int f ;; k n).
Proof. intros Hf Hk s H. apply wp_bind, wp_gets. by apply Hk; [apply Hf|]. Qed.

Lemma total_read_ksvlist : safe_run false false (mod_hdcp_read_ksvlist (W:=W)).
Proof.
  unfold mod_hdcp_read_ksvlist. total_step; [total|]. apply (total_size _ 0 (msg_size m1_ksvlist)); [intros h H; apply H|].
  intros n Hn. destruct (is_dp_hdcp _).
  - apply total_repeatedly_loop; try done; unfold io_fuel, KSV_READ_SIZE; lia.
  - apply total_read; [|done]. apply in_field_true; lia.
Qed.
Lemma total_validate_ksvlist : safe_run false false (mod_hdcp_hdcp1_validate_ksvlist_vp (W:=W)).
Proof.
  unfold mod_hdcp_hdcp1_validate_ksvlist_vp. total_step; [total|].
  apply (total_size _ 0 (msg_size m1_ksvlist)); [intros h H; apply H|]. intros n Hn. apply total_bind; [|intros; total].
  apply total_load, in_field_true; lia.
Qed.
Lemma total_put_ksvlist_size n :
  0 <= n <= msg_size m1_ksvlist -> safe_run false false (put_int (W:=W) m1_ksvlist_size n).
Proof.
  intros Hn s [Hl Ha [H1 H2] Hr Hs]. apply wp_mod. split; try done. split; [|done]. cbn [msg_size] in Hn.
  change (0 <= le_combine (le_split 2 n) <= 635). rewrite le_split_value; lia.
Qed.
Lemma land_range x m n : 0 <= n -> m = Z.ones n -> 0 <= Z.land x m <= m.
Proof.
  intros Hn ->. rewrite Z.land_ones by done. pose proof (Z.mod_pos_bound x (2 ^ n) ltac:(apply Z.pow_pos_nonneg; lia)).
  rewrite Z.ones_equiv. lia.
Qed.

Lemma total_read_rx_id_list : safe_run false false (mod_hdcp_read_rx_id_list (W:=W)).
Proof.
  unfold mod_hdcp_read_rx_id_list. total_step; [total|]. destruct (is_dp_hdcp _).
  - do 2 (total_step; [total|]). destruct (success _); [|total]. cbv zeta.
    unfold get_byte. apply total_bind; [total|]. intros b1. apply total_bind; [total|]. intros b2.
    unfold HDCP_2_2_DEV_COUNT_LO, HDCP_2_2_DEV_COUNT_HI, HDCP_MAX_AUX_TRANSACTION_SIZE.
    apply total_read; [|done].
    assert (0 <= Z.shiftr (Z.land b2 240) 4) by (apply Z.shiftr_nonneg, Z.land_nonneg; lia).
    assert (0 <= Z.shiftl (Z.land b1 1) 4) by (apply Z.shiftl_nonneg, Z.land_nonneg; lia).
    set (c := Z.shiftr _ 4 + _). assert (0 <= c) by (subst c; lia). clearbody c.
    apply in_field_true; cbn [msg_size]; [lia|apply Z.mul_nonneg_nonneg; [apply Z.div_pos|]; lia|].
    pose proof (Z.div_lt_upper_bound (Z.min (21 + 5 * c) (177 - 1) - 1) 16 11 ltac:(lia) ltac:(lia)). lia.
  - apply (total_size _ 0 (msg_size m2_rx_id_list)); [intros h H; apply H|]. intros n Hn.
    apply total_read; [apply in_field_true; lia|done].
Qed.

Lemma total_write_stream_manage rx : safe_run rx true (mod_hdcp_write_stream_manage (W:=W)).
Proof.
  unfold mod_hdcp_write_stream_manage. total_step; [total|].
  apply (total_size _ 1 (msg_size m2_repeater_auth_stream_manage)); [intros h H; by apply H|]. cbn [msg_size].
  intros n Hn. destruct (is_dp_hdcp _); apply total_write, in_field_true; cbn [msg_size]; try lia;
    unfold wrap; rewrite Z.mod_small; lia.
Qed.

(** ** What a successful function establishes *)

Lemma mem_ok_weaken rx sm h : mem_ok rx sm h -> mem_ok false false h.
Proof. intros []. by split. Qed.

Lemma wp_execute (rx sm : mod_hdcp_status -> bool) func flag s :
  wp func (fun a s' => mem_ok (rx a) (sm a) (hd s')) s ->
  wp (mod_hdcp_execute_and_set func flag) (fun a s' => mem_ok (rx a) (sm a) (hd s')) s.
Proof.
  intros H. unfold mod_hdcp_execute_and_set. apply wp_bind. eapply wp_mono; [exact H|]. intros a s1 H1. cbv beta in H1.
  apply wp_bind, wp_gets, wp_bind. eapply (wp_mono _ (fun _ s' => mem_ok (rx a) (sm a) (hd s'))); [|intros; by apply wp_ret].
  destruct (_ && _); [by apply total_input|]. destruct (_ && _); [by apply total_input|by apply wp_ret].
Qed.

Context `{!HdcpPeers W}.

Lemma read_rxstatus_ok s :
  mem_ok false false (hd s) -> wp mod_hdcp_read_rxstatus (fun a s' => mem_ok (success a) false (hd s')) s.
Proof.
  intros H. unfold mod_hdcp_read_rxstatus. apply wp_bind, wp_gets. destruct (is_dp_hdcp (hd s)) eqn:Ed.
  - assert (forall h, mem_ok false false h -> is_dp_hdcp h = true -> mem_ok true false h) as Hdp
      by (intros h [] E; split; try done; congruence).
    set (m := read _ _ _ _). assert (safe_run false false m) as Hm by (by apply total_read).
    assert (stays (May [] false false) m) as Hs by (subst m; stay).
    apply wp_run. destruct (proj1 (wp_run _ _ _) (Hm s H)) as (a & s' & E & H'). exists a, s'. split; [done|].
    destruct (success a); [|done]. apply Hdp; [done|]. apply Hs in E. unfold is_dp_hdcp in *. by rewrite (al_link _ _ _ E).
  - unfold read. apply wp_bind, wp_gets. rewrite Ed. apply wp_bind, wp_on_world. intros [ok bs] w E. cbn [snd fst msg_size].
    unfold msg_store. simpl (in_field _ _ _). cbv iota. apply wp_bind. unfold mod_auth, mod_hd. apply wp_mod, wp_ret.
    destruct H as [Hl Ha [H1 H2] _ _]. split; try done; simpl. destruct ok; [|done]. intros _ _.
    destruct (rxstatus_read _ _ _ E) as (b0 & b1 & -> & B0 & B1 & Hok). unfold upd. simpl.
    unfold is_byte in *. rewrite !wrap_small by lia. exact Hok.
Qed.

(** The size of the receiver ID list, from an RxStatus that says it is ready. *)
Lemma total_rx_id_list_size :
  safe_run true false (
    h <- get_hd (W:=W) ;;
    if is_repeater (connection h) then
      ready <- check_receiver_id_list_ready ;;
      if success ready then
        mod_ctx (fun c => EventCtx (event c) true (unexpected_event c)) ;;
        rxstatus <- get_msg m2_rxstatus ;;
        put_int m2_rx_id_list_size (if is_dp_hdcp h then msg_size m2_rx_id_list
                                    else get_hdmi_rxstatus_msg_size rxstatus) ;;
        st_ret MOD_HDCP_STATUS_SUCCESS
      else st_ret MOD_HDCP_STATUS_SUCCESS
    else st_ret MOD_HDCP_STATUS_SUCCESS).
Proof.
  intros s H. apply wp_bind, wp_gets. destruct (is_repeater _); [|by apply wp_ret].
  unfold check_receiver_id_list_ready. hwp; try done. destruct H as [Hl Ha [H1 H2] Hr Hs].
  set (n := if is_dp_hdcp _ then _ else _). assert (0 <= n <= 177) as Hn.
  { subst n. destruct (is_dp_hdcp (hd s)) eqn:Ed; [simpl; lia|]. apply Hr; try done.
    intros E0. by rewrite E0 in E. }
  clearbody n. split; try done. split; [done|]. change (0 <= le_combine (le_split 2 n) <= 177). rewrite le_split_value; lia.
Qed.

Lemma total_rest {A} rx sm (m : M A) s :
  safe_run rx sm m -> mem_ok rx sm (hd s) -> wp m (fun _ s' => mem_ok false false (hd s')) s.
Proof. intros Hm H. eapply wp_mono; [by apply Hm|]. intros a s'. apply mem_ok_weaken. Qed.

Lemma total_process_rxstatus : safe_run false false (process_rxstatus (W:=W)).
Proof.
  intros s H. unfold process_rxstatus, or_out at 1. apply wp_bind.
  eapply wp_mono; [apply (wp_execute success (fun _ => false)), read_rxstatus_ok, H|]. intros a s1 H1. cbv beta in H1.
  destruct (success a); [|by apply wp_ret]. apply (total_rest true false); [|done]. unfold or_out.
  do 2 (total_step; [total|]; destruct (success _); [|total]). apply total_rx_id_list_size.
Qed.

Lemma prepare_stream_ok s :
  mem_ok false false (hd s) ->
  wp mod_hdcp_hdcp2_prepare_stream_management (fun a s' => mem_ok false (success a) (hd s')) s.
Proof.
  intros H. unfold mod_hdcp_hdcp2_prepare_stream_management, ta_message, ta. do 2 apply wp_bind. apply wp_gets, wp_on_world.
  intros o w E. destruct (ta_ok o) eqn:Eo; simpl (negb _); cbv iota; [|by apply wp_ret].
  assert (1 <= prepare_msg1_size o <= 68) as Hn.
  { match type of E with psp_hdcp_invoke (_ ?m) _ = _ =>
      pose proof (stream_manage_prepared m (world s) eq_refl) as L end. cbv zeta in L. rewrite E in L. auto. }
  apply wp_bind. destruct H as [Hl Ha Hs _ _].
  assert (forall s1, mem_ok false true (hd s1) -> wp (put_transmitted m2_repeater_auth_stream_manage 0 o ;;
    st_ret MOD_HDCP_STATUS_SUCCESS) (fun a s' => mem_ok false (success a) (hd s')) s1) as Hrest.
  { intros s1 H1. apply wp_bind. eapply wp_mono; [apply (total_put false true); done|]. intros. by apply wp_ret. }
  apply wp_mod, Hrest. split; try done. intros _. change (1 <= le_combine (le_split 2 (prepare_msg1_size o)) <= 68).
  rewrite le_split_value; lia.
Qed.

Lemma total_stream_management k1 k2 :
  safe_run false false (mod_hdcp_execute_and_set mod_hdcp_hdcp2_prepare_stream_management k1 >>?
    mod_hdcp_execute_and_set (W:=W) mod_hdcp_write_stream_manage k2).
Proof.
  intros s H. unfold or_out. apply wp_bind.
  eapply wp_mono; [apply (wp_execute (fun _ => false) success), prepare_stream_ok, H|]. intros a s1 H1. cbv beta in H1.
  destruct (success a); [|by apply wp_ret]. apply (total_rest false true); [|done].
  apply total_execute, total_write_stream_manage.
Qed.

Lemma total_ksv_list_size :
  safe_run false false (device_count <- Hdcp1.get_device_count (W:=W) ;; put_int m1_ksvlist_size (device_count * 5) ;;
    mod_hdcp_execute_and_set mod_hdcp_read_ksvlist in1_ksvlist_read).
Proof.
  intros s H. unfold Hdcp1.get_device_count, get_binfo. hwp_step. hwp_step. hwp_step. hwp_step. hwp_step. hwp_step.
  hwp_step. hwp_step. match goal with |- wp (st_bind (put_int _ (?n * 5)) _) _ _ =>
    assert (0 <= n <= 127) as Hn by (apply (land_range _ _ 7); [lia|done]); revert Hn; generalize n end.
  intros n Hn. revert s H. apply total_bind; [apply total_put_ksvlist_size; cbn [msg_size]; lia|].
  intros _. apply total_execute, total_read_ksvlist.
Qed.

Lemma total_poll n st : safe_run false false (poll_l_prime_loop (W:=W) n st).
Proof. revert st. induction n as [|n IH]; intros st; cbn [poll_l_prime_loop]; total. Qed.
End Functions.

#[export] Hint Resolve total_encryption1 total_encryption2 total_streams1 total_streams2 total_create1 total_create2
  total_read_ksvlist total_validate_ksvlist total_read_rx_id_list total_process_rxstatus total_stream_management
  total_ksv_list_size total_poll : hdcp_safe.

Section Executions.
Context {W : Type} `{!HdcpWorld W} `{!HdcpPeers W}.
Implicit Types s : hst W.

Lemma total_exec_of st :
  in_auth (Hdcp config_zero connection_zero [] auth_zero st 0) = true -> safe_run false false (exec_of (W:=W) st).
Proof. intros Hi. destruct st; try done; unfold exec_of; total. Qed.

(** ** Events *)

Lemma sizes_msg a a' : msg a' = msg a -> sizes_ok a -> sizes_ok a'.
Proof. unfold sizes_ok. by intros ->. Qed.
Lemma sizes_zero : sizes_ok auth_zero.
Proof. by vm_compute. Qed.

Lemma exec_total s :
  link_inv (hd s) -> sizes_ok (auth (hd s)) -> wp execution (fun _ s' => sizes_ok (auth (hd s'))) s.
Proof.
  intros Hi Hs. unfold wp. rewrite execution_of. fold (wp (exec_of (current_state (hd s))) (fun _ s' => sizes_ok (auth (hd s'))) s).
  destruct (in_auth (hd s)) eqn:Ea.
  - eapply wp_mono; [apply total_exec_of|intros a s'; apply mo_sizes].
    + by rewrite (in_auth_state (hd s)).
    + split; try done; apply Hi. done.
  - destruct s as [[cfg conn ds au st n] c o w]. cbn [hd current_state auth] in *.
    destruct st; try done; unfold exec_of; hwp; exact Hs.
Qed.

Lemma reset_sizes s : sizes_ok (auth (hd s)) -> wp reset_authentication (fun _ s' => sizes_ok (auth (hd s'))) s.
Proof.
  intros Hs. unfold reset_authentication. apply wp_bind, wp_gets, wp_bind.
  destruct (is_hdcp1 (hd s)); [|destruct (is_hdcp2 (hd s))].
  - apply wp_bind. destruct (negb _); [apply wp_destroy1; intros|]; hwp; apply sizes_zero.
  - apply wp_bind. destruct (passed _); [apply wp_destroy2; intros; simpl|]; hwp; try done; apply sizes_zero.
  - hwp; try done; apply sizes_zero.
Qed.

Lemma event_total e s :
  link_inv (hd s) -> sizes_ok (auth (hd s)) -> wp (mod_hdcp_process_event e) (fun _ s' => sizes_ok (auth (hd s'))) s.
Proof.
  intros Hi Hs. unfold mod_hdcp_process_event, mod_out, mod_ctx. do 5 hwp_step.
  eapply wp_mono; [by apply exec_total|]. intros ex s1 H1. apply wp_bind.
  eapply wp_mono; [apply transition_steps|]. intros tr s2 T. apply (sizes_msg _ _ (tr_msg _ _ _ T)) in H1.
  assert (forall st, runs (fun h => sizes_ok (auth h)) (push_error_status (W:=W) st)) as Hpush by (intros st s3 H3; by apply wp_mod).
  assert (forall st, runs (fun h => sizes_ok (auth h)) (push_unless_success (W:=W) st)) as Hpu.
  { intros st. unfold push_unless_success. destruct (success st); [apply total_ret|done]. }
  assert (runs (fun h => sizes_ok (auth h)) (reset_authentication (W:=W))) as Hr by (intros s3; apply reset_sizes).
  lazymatch goal with |- wp ?m _ _ => assert (runs (fun h => sizes_ok (auth h)) m) as Hm; [|by apply Hm] end.
  cbv zeta. total.
Qed.

(** ** Operations *)

Definition roomy (h : mod_hdcp) : Prop :=
  length (displays h) = Z.to_nat MAX_NUM_OF_DISPLAYS /\ sizes_ok (auth h).

Lemma total_get {A} (P : mod_hdcp -> Prop) (k : mod_hdcp -> stM (hst W) A) :
  (forall h, P h -> runs P (k h)) -> runs P (h <- get_hd ;; k h).
Proof. intros H s Hs. apply wp_bind, wp_gets. by apply H. Qed.

Lemma roomy_hd f :
  (forall h, length (displays (f h)) = length (displays h)) -> (forall h, auth (f h) = auth h) ->
  runs roomy (mod_hd (W:=W) f).
Proof. intros H1 H2 s [Hl Hs]. apply wp_mod. split; simpl; [by rewrite H1|by rewrite H2]. Qed.
Lemma roomy_display i f : runs roomy (mod_display (W:=W) i f).
Proof. apply roomy_hd; [|done]. intros h. apply length_alter. Qed.
Lemma roomy_push st : runs roomy (push_unless_success (W:=W) st).
Proof. unfold push_unless_success. destruct (success st); [apply total_ret|by apply roomy_hd]. Qed.
Lemma roomy_reset : runs roomy (reset_authentication (W:=W)).
Proof.
  intros s [Hl Hs]. eapply wp_mono; [apply wp_and; [apply reset_resets|by apply reset_sizes]|]. intros a s' [R S].
  split; [|done]. rewrite <- Hl. symmetry. eapply Forall2_length, R.
Qed.

Lemma find_bound q h i :
  roomy h -> find_display q (displays h) 0 = Some i -> (i < Z.to_nat MAX_NUM_OF_DISPLAYS)%nat.
Proof.
  intros [<- _] (d & Hd & _)%find_display_lookup. rewrite Nat.sub_0_r in Hd. by eapply lookup_lt_Some.
Qed.
Lemma roomy_at i : (i < Z.to_nat MAX_NUM_OF_DISPLAYS)%nat -> runs roomy (display_at (W:=W) i).
Proof. apply total_display_at. by intros h []. Qed.
Lemma roomy_streams cmd failure :
  runs roomy (enable_stream_loop (W:=W) cmd failure (Z.to_nat MAX_NUM_OF_DISPLAYS) 0).
Proof. apply total_stream_loop; [by intros h []|intros; apply roomy_display|lia]. Qed.
End Executions.

Ltac room_step :=
  lazymatch goal with
  | |- runs _ (st_bind get_hd _) => apply total_get; intros ? ?
  | |- runs _ (match ?x with _ => _ end) => destruct x eqn:?
  | |- runs _ (display_at _) => apply roomy_at; first [assumption | by eapply find_bound; eauto]
  | |- runs _ reset_authentication => apply roomy_reset
  | |- runs _ (push_unless_success _) => apply roomy_push
  | |- runs _ (mod_display _ _) => apply roomy_display
  | |- runs _ (mod_hd _) => by apply roomy_hd
  | |- runs _ (enable_stream_loop _ _ _ _) => apply roomy_streams
  | |- _ => total_step
  end.
Ltac room := repeat (cbv beta zeta; room_step).

Section Operations.
Context {W : Type} `{!HdcpWorld W} `{!HdcpPeers W}.
Implicit Types s : hst W.

Lemma roomy_add i : (i < Z.to_nat MAX_NUM_OF_DISPLAYS)%nat -> runs roomy (mod_hdcp_add_display_to_topology (W:=W) i).
Proof. intros Hi. room. Qed.
Lemma roomy_remove index : runs roomy (mod_hdcp_remove_display_from_topology (W:=W) index).
Proof. room. Qed.
Lemma roomy_update i adj :
  (i < Z.to_nat MAX_NUM_OF_DISPLAYS)%nat -> runs roomy (update_display_adjustments (W:=W) i adj).
Proof. intros Hi. unfold update_display_adjustments. room. Qed.

Lemma roomy_zero : runs roomy (mod_hd (W:=W) (fun _ => hdcp_zero)).
Proof. intros s _. apply wp_mod. split; [done|apply sizes_zero]. Qed.

Lemma op_roomy op : match op with OpEvent _ => True | _ => runs roomy (run_op (W:=W) op) end.
Proof.
  destruct op; try done; unfold run_op, mod_hdcp_setup, mod_hdcp_teardown, mod_hdcp_add_display, mod_hdcp_remove_display,
    mod_hdcp_update_display; repeat (cbv beta zeta; first
      [ apply roomy_zero | apply roomy_remove | apply roomy_add; by eapply find_bound; eauto
      | apply roomy_update; by eapply find_bound; eauto | room_step ]).
Qed.

Definition safe_state (h : mod_hdcp) : Prop := link_inv h /\ sizes_ok (auth h).

Lemma run_op_total op s : safe_state (hd s) -> wp (run_op op) (fun _ s' => safe_state (hd s')) s.
Proof.
  intros [Hi Hs]. assert (wp (run_op op) (fun _ s' => sizes_ok (auth (hd s'))) s) as H.
  { pose proof (op_roomy op) as R. destruct op; try (eapply wp_mono; [apply R; split; [apply Hi|done]|by intros a s' []]).
    by apply event_total. }
  apply wp_run in H as (a & s' & E & H'). apply wp_run. exists a, s'. split; [done|]. split; [|done]. by eapply run_op_inv.
Qed.

Lemma reach_state h : hdcp_reach h -> safe_state h.
Proof.
  induction 1 as [|op s a s' _ IH E]; [split; [apply link_inv_zero|apply sizes_zero]|].
  pose proof (run_op_total op s IH) as H. unfold wp in H. by rewrite E in H.
Qed.
End Operations.
