(* ===== verification/HdcpProps.v ===== *)
(** * HDCP: the properties of the content protection module

    What holds of every link that any sequence of calls can reach, with scripts of calls
    against simple simulated receivers and trusted applications as witnesses. *)

From stdpp Require Import sets list.
From Stdlib Require Import ZArith Lia.
From S2P Require Import Prelude Bytes Hdcp HdcpIo HdcpPsp Hdcp1 Hdcp2 HdcpTop HdcpFrame HdcpInv HdcpReach HdcpEnc HdcpSafe.
Open Scope st_scope.

(** ** Scripts

    Calls with the world at the time of each of them, from an uninitialised link. *)

Section Script.
Context {W : Type} `{!HdcpWorld W}.

Fixpoint run_script (l : list (hdcp_op * W)) (h : mod_hdcp) : option mod_hdcp :=
  match l with
  | [] => Some h
  | (op, w) :: l =>
    match run_op op (Hst h (EventCtx MOD_HDCP_EVENT_CALLBACK false false) output_zero w) with
    | Some (_, s) => run_script l (hd s)
    | None => None
    end
  end.

Definition script_ends (l : list (hdcp_op * W)) (check : mod_hdcp -> bool) : bool :=
  match run_script l hdcp_zero with Some h => check h | None => false end.

Lemma run_script_reach l h h' : hdcp_reach (W:=W) h -> run_script l h = Some h' -> hdcp_reach (W:=W) h'.
Proof.
  revert h. induction l as [|[op w] l IH]; intros h Hr; simpl; [by intros [= <-]|].
  destruct (run_op op _) as [[a s]|] eqn:E; [|done]. apply IH. by eapply reach_step; [|exact E].
Qed.

Lemma script_reach l check : script_ends l check = true -> exists h, hdcp_reach (W:=W) h /\ check h = true.
Proof.
  unfold script_ends. destruct (run_script l hdcp_zero) as [h|] eqn:E; [|done]. intros Hc. exists h. split; [|done].
  eapply run_script_reach; [apply reach_zero|exact E].
Qed.
End Script.

(** A simulated world: registers of the receiver and answers of the trusted application,
    which do not depend on time; the world itself selects among variants of them. *)
Section Sim.
Context {V : Type}.
Variables (dpcd : V -> Z -> list Z) (i2c : V -> Z -> list Z) (ta_answer : V -> ta_hdcp_cmd -> option ta_hdcp_out).

Definition sim_world : HdcpWorld V := {|
  read_dpcd addr n v := ((true, take (Z.to_nat n) (dpcd v addr ++ replicate (Z.to_nat n) 5)), v);
  read_i2c _ off n v := ((true, take (Z.to_nat n) (i2c v off ++ replicate (Z.to_nat n) 5)), v);
  write_dpcd _ _ v := (true, v);
  write_i2c _ _ v := (true, v);
  atomic_write_poll_read_i2c _ _ _ _ n v := ((true, replicate (Z.to_nat n) 5), v);
  atomic_write_poll_read_aux _ _ _ n v := ((true, replicate (Z.to_nat n) 5), v);
  psp_ta_invoke_hdcp c v := (ta_answer v c, v);
  psp_ta_invoke_dtm _ v := (Some TA_DTM_STATUS__SUCCESS, v);
  sriov_vf _ := false;
  hdcp_ta_initialized _ := true;
  dtm_ta_initialized _ := true
|}.
End Sim.

Definition sim_link (m : mod_hdcp_operation_mode) (no_hdcp2 : bool) : mod_hdcp_link :=
  Link m 0 0 0 0 0 0 (Displayport 0x14 false false false false)
    (LinkAdj 2 adj1_zero (LinkAdj2 no_hdcp2 0 false false false 0)).
Definition sim_display : mod_hdcp_display := Display MOD_HDCP_DISPLAY_ACTIVE 3 0 0 0 0 (DisplayAdj 0 0).
Definition cb {V} (v : V) : hdcp_op * V := (OpEvent MOD_HDCP_EVENT_CALLBACK, v).
Definition irq {V} (v : V) : hdcp_op * V := (OpEvent MOD_HDCP_EVENT_CPIRQ, v).
Definition add {V} (m : mod_hdcp_operation_mode) (no_hdcp2 : bool) (v : V) : hdcp_op * V :=
  (OpAdd (sim_link m no_hdcp2) sim_display, v).

(** A trusted application that accepts everything, for a receiver that is a repeater or not. *)
Definition accept (repeater : Z) : ta_hdcp_out :=
  TaOut 0 7 0 (replicate 5 1) (replicate 8 2) 4 1 0 0 0 repeater 10 (replicate 168 9).

(** A DisplayPort receiver of HDCP 2. *)
Definition dp2_registers (addr : Z) : list Z :=
  if addr =? 0x6921d then [2; 0; 2] else if addr =? 0x69493 then [6] else [].
#[local] Instance dp2_world : HdcpWorld unit :=
  sim_world (fun _ => dp2_registers) (fun _ _ => [0; 0]) (fun _ _ => Some (accept 0)).
Definition dp2_script : list (hdcp_op * unit) :=
  add MOD_HDCP_MODE_DP false tt :: replicate 6 (cb tt) ++ [irq tt; irq tt] ++ replicate 5 (cb tt).

#[local] Instance encryption_status_eq_dec : EqDecision mod_hdcp_encryption_status.
Proof. solve_decision. Defined.
Definition is_state (st : state_id) (h : mod_hdcp) : bool := bool_decide (current_state h = st).
Definition query_status (h : mod_hdcp) (index : Z) : option mod_hdcp_encryption_status :=
  match mod_hdcp_query_display h index with inl q => Some (encryption_status q) | inr _ => None end.

#[local] Instance dp2_destroys : TaDestroys unit.
Proof. by intros id w o w' [= <- _]. Qed.
#[local] Instance dp2_peers : HdcpPeers unit.
Proof.
  split.
  - intros w bs w' [= <- _]. exists 0, 0. by split_and!; try (unfold is_byte; lia).
  - intros m w _ o _. subst o. simpl. lia.
Qed.

Lemma dp2_reaches :
  exists h, hdcp_reach (W:=unit) h /\
    (is_state D2_A5_AUTHENTICATED h && is_in_authenticated_states h &&
     bool_decide (query_status h 3 = Some MOD_HDCP_ENCRYPTION_STATUS_HDCP2_ON)) = true.
Proof. apply (script_reach dp2_script). vm_compute. reflexivity. Qed.

(** ** Authentication *)

(** C19: on every reachable link, whatever the receiver and the trusted application do, an
    authenticated state stands behind its verdicts: HDCP 1 has read and validated the
    receiver's keys and turned encryption on, and validated the KSV list of a repeater;
    HDCP 2 has validated certificate, H', L' and exchanged the session key before turning
    encryption on, and for a repeater validated the receiver ID list and managed the
    streams; multi-stream links have encrypted their streams. *)
Theorem hdcp_authenticated_verified {W} `{!HdcpWorld W} h :
  hdcp_reach (W:=W) h -> is_in_authenticated_states h = true ->
  (is_hdcp1 h = true /\ all_passed h (in1_encryption :: rx_validated) /\
    (is_repeater (connection h) = true -> all_passed h ksv_list_validated) /\
    (is_dp_mst_hdcp h = true -> current_state h = D1_A4_AUTHENTICATED ->
      trans_input (auth h) in1_stream_encryption_dp = PASS)) \/
  (is_hdcp2 h = true /\ all_passed h (in2_enable_encryption :: keys_exchanged) /\
    (is_repeater (connection h) = true -> all_passed h (rx_id_list_validated ++ stream_managed ++ stream_ready)) /\
    (is_dp_mst_hdcp h = true -> current_state h = D2_A5_AUTHENTICATED ->
      trans_input (auth h) in2_stream_encryption_dp = PASS)).
Proof.
  intros Hr Ha. destruct (li_verdicts _ (reach_inv _ Hr)) as (V & R & M). destruct h as [cfg conn ds au st n].
  destruct st; try done; [left|left|right|right]; split_and!; try done; intros Hm E; try discriminate; by apply M, Forall_inv in Hm.
Qed.

Lemma hdcp_authenticated_verified_witness :
  exists h, current_state h = D2_A5_AUTHENTICATED /\ trans_input (auth h) in2_ake_cert_validation = PASS.
Proof.
  destruct dp2_reaches as (h & Hr & Hc). apply andb_true_iff in Hc as [[Hs Ha]%andb_true_iff _].
  apply bool_decide_eq_true in Hs. exists h. split; [done|].
  destruct (hdcp_authenticated_verified h Hr Ha) as [(H1 & _)|(_ & H2 & _)].
  - destruct h as [cfg conn ds au st n]. simpl in Hs. subst st. discriminate H1.
  - unfold all_passed in H2. rewrite Forall_forall in H2. apply H2. by apply (bool_decide_eq_true_1 _).
Defined.

(** C20: provided the trusted application destroys a session when it is asked to, a query
    never reports a display as encrypted unless its receiver passed: for HDCP 1 the keys
    and R0', for HDCP 2 certificate, H', locality check and key exchange. *)
Theorem hdcp_encrypted_display_verified {W} `{!HdcpWorld W} `{!TaDestroys W} h index q :
  hdcp_reach (W:=W) h -> mod_hdcp_query_display h index = inl q ->
  match encryption_status q with
  | MOD_HDCP_ENCRYPTION_STATUS_HDCP_OFF => True
  | MOD_HDCP_ENCRYPTION_STATUS_HDCP1_ON => all_passed h rx_validated
  | _ => all_passed h keys_exchanged
  end.
Proof.
  intros Hr. unfold mod_hdcp_query_display. destruct (get_active_display_at_index h index) as [i|]; [|done]. simpl.
  destruct (displays h !! i) as [d|] eqn:Ed; [|done]. intros [= <-]. simpl.
  destruct (is_display_encryption_enabled d) eqn:Ee; [|done].
  assert (encrypting h = true) as He.
  { unfold encrypting. apply existsb_exists. exists d. split; [|done]. by apply list_elem_of_lookup_2, list_elem_of_In in Ed. }
  destruct (encrypted_verdicts h (reach_safe h Hr) He) as [[E1 H]|[E2 H]].
  - by rewrite E1.
  - destruct (is_hdcp1 h) eqn:E1; [by exfalso; eapply is_hdcp12|]. rewrite E2. by repeat destruct (_ =? _).
Qed.

Lemma hdcp_encrypted_display_verified_witness :
  exists h, query_status h 3 = Some MOD_HDCP_ENCRYPTION_STATUS_HDCP2_ON /\
    trans_input (auth h) in2_l_prime_validation = PASS.
Proof.
  destruct dp2_reaches as (h & Hr & Hc). apply andb_true_iff in Hc as [_ Hq]. apply bool_decide_eq_true in Hq.
  exists h. split; [done|]. unfold query_status in Hq. destruct (mod_hdcp_query_display h 3) as [q|] eqn:E; [|discriminate Hq].
  pose proof (hdcp_encrypted_display_verified h 3 q Hr E) as H. injection Hq as Hq. rewrite Hq in H.
  unfold all_passed in H. rewrite Forall_forall in H. apply H. by apply (bool_decide_eq_true_1 _).
Defined.

(** C22: however many events arrive between two calls that change the displays or the
    connection, at most four authentications are started with HDCP 1 and at most four with
    HDCP 2: for each protocol no more than the attempts that are left to it, which are
    never more than [MAX_NUM_OF_ATTEMPTS]. *)
Theorem hdcp_attempts_bounded {W} `{!HdcpWorld W} es s n1 n2 s' :
  hdcp_reach (W:=W) (hd s) -> attempts es s = Some ((n1, n2), s') ->
  n1 <= attempts_left Hdcp1 (hd s) <= MAX_NUM_OF_ATTEMPTS /\
  n2 <= attempts_left Hdcp2 (hd s) <= MAX_NUM_OF_ATTEMPTS.
Proof.
  intros Hr E. pose proof (reach_inv _ Hr) as Hi. destruct (attempts_bounded es s Hi _ _ E) as (Hi' & N1 & N2).
  simpl in N1, N2. pose proof (fun p => attempts_left_range p _ Hi) as H. pose proof (fun p => attempts_left_range p _ Hi') as H'.
  pose proof (H Hdcp1). pose proof (H Hdcp2). pose proof (H' Hdcp1). pose proof (H' Hdcp2). lia.
Qed.

(** A receiver that is capable of both protocols but fails every validation. *)
Definition stubborn_registers (addr : Z) : list Z :=
  if addr =? 0x6921d then [2; 0; 2] else if addr =? 0x68028 then [1] else [].
Definition reject : ta_hdcp_out := TaOut 0 7 0 (replicate 5 1) (replicate 8 2) 0 0 1 1 0 0 10 (replicate 168 9).
#[local] Instance stubborn_world : HdcpWorld bool :=
  sim_world (fun _ => stubborn_registers) (fun _ _ => []) (fun _ _ => Some reject).
Definition stubborn_start : hst bool :=
  Hst (default hdcp_zero (run_script [add MOD_HDCP_MODE_DP false true] hdcp_zero))
    (EventCtx MOD_HDCP_EVENT_CALLBACK false false) output_zero true.

(** Sixty callbacks use up all attempts, four with each protocol. *)
Lemma hdcp_attempts_bounded_witness :
  match attempts (replicate 60 MOD_HDCP_EVENT_CALLBACK) stubborn_start with
  | Some ((n1, n2), _) => n1 = 4 /\ n2 = 4 /\
      n1 <= attempts_left Hdcp1 (hd stubborn_start) <= MAX_NUM_OF_ATTEMPTS /\
      n2 <= attempts_left Hdcp2 (hd stubborn_start) <= MAX_NUM_OF_ATTEMPTS
  | None => False
  end.
Proof.
  assert (fst <$> attempts (replicate 60 MOD_HDCP_EVENT_CALLBACK) stubborn_start = Some (4, 4)) as Hn
    by (vm_compute; reflexivity).
  destruct (attempts (replicate 60 MOD_HDCP_EVENT_CALLBACK) stubborn_start) as [[[n1 n2] s']|] eqn:E; [|discriminate Hn].
  injection Hn as Hn1 Hn2. split; [exact Hn1|]. split; [exact Hn2|].
  apply (hdcp_attempts_bounded (replicate 60 MOD_HDCP_EVENT_CALLBACK) stubborn_start n1 n2 s'); [|exact E].
  eapply (run_script_reach [add MOD_HDCP_MODE_DP false true]); [apply reach_zero|].
  unfold stubborn_start. cbn [hd]. destruct (run_script _ hdcp_zero) eqn:Er; [reflexivity|].
  assert (script_ends [add MOD_HDCP_MODE_DP false true] (fun _ => true) = true) as H by (vm_compute; reflexivity).
  unfold script_ends in H. rewrite Er in H. discriminate H.
Defined.

(** ** Memory *)

(** C21: with a receiver that announces no receiver ID list longer than the largest one, and a
    trusted application whose stream management message fits its buffer, no call on a
    reachable link ever reads or writes outside a message, dereferences a display that is
    not there or loops forever: every operation returns. *)
Theorem hdcp_operations_return {W} `{!HdcpWorld W} `{!HdcpPeers W} op s :
  hdcp_reach (W:=W) (hd s) -> exists status s', run_op op s = Some (status, s').
Proof.
  intros Hr. pose proof (run_op_total op s (reach_state _ Hr)) as H. apply wp_run in H as (a & s' & E & _). eauto.
Qed.

Lemma hdcp_operations_return_witness :
  exists h w status s', current_state h = D2_A5_AUTHENTICATED /\
    run_op (W:=unit) (OpEvent MOD_HDCP_EVENT_CPIRQ) (Hst h (EventCtx MOD_HDCP_EVENT_CALLBACK false false) output_zero w) =
      Some (status, s').
Proof.
  destruct dp2_reaches as (h & Hr & Hc). apply andb_true_iff in Hc as [[Hs _]%andb_true_iff _].
  apply bool_decide_eq_true in Hs. exists h, tt.
  destruct (hdcp_operations_return (OpEvent MOD_HDCP_EVENT_CPIRQ)
    (Hst h (EventCtx MOD_HDCP_EVENT_CALLBACK false false) output_zero tt) Hr) as (a & s' & E).
  exists a, s'. split; [exact Hs|exact E].
Defined.

(** An HDMI repeater of HDCP 2; the world is the content of RxStatus. *)
Definition hdmi2_registers (rxstatus : list Z) (off : Z) : list Z :=
  if off =? 0x50 then [4] else if off =? 0x70 then rxstatus else [].
#[local] Instance hdmi2_world : HdcpWorld (list Z) :=
  sim_world (fun _ _ => []) hdmi2_registers (fun _ _ => Some (accept 1)).
Definition hdmi2_script : list (hdcp_op * list Z) :=
  [add MOD_HDCP_MODE_DEFAULT false []; cb []; cb []; cb []; cb [0x16; 2]; cb []; cb [33; 0]; cb [17; 0]; cb [33; 0];
   cb []; cb [0xff; 7]].

(** C24: the condition on the receiver is needed: an HDMI repeater that is otherwise valid and
    announces a receiver ID list of 1023 bytes makes the next callback write past the 177
    bytes of [rx_id_list]. *)
Theorem hdmi_rx_id_list_overflow :
  exists s : hst (list Z),
    hdcp_reach (W:=list Z) (hd s) /\ current_state (hd s) = H2_A78_VERIFY_RX_ID_LIST_AND_SEND_ACK /\
    le_combine (msg (auth (hd s)) m2_rx_id_list_size) = 1023 /\
    mod_hdcp_process_event MOD_HDCP_EVENT_CALLBACK s = None.
Proof.
  destruct (script_reach hdmi2_script (fun h => is_state H2_A78_VERIFY_RX_ID_LIST_AND_SEND_ACK h &&
    (le_combine (msg (auth h) m2_rx_id_list_size) =? 1023) &&
    match run_op (OpEvent MOD_HDCP_EVENT_CALLBACK) (Hst h (EventCtx MOD_HDCP_EVENT_CALLBACK false false) output_zero [])
    with None => true | Some _ => false end)) as (h & Hr & Hc); [vm_compute; reflexivity|].
  apply andb_true_iff in Hc as [[Hs Hn]%andb_true_iff Hx]. apply bool_decide_eq_true in Hs. apply Z.eqb_eq in Hn.
  exists (Hst h (EventCtx MOD_HDCP_EVENT_CALLBACK false false) output_zero []). split_and!; try done.
  simpl in Hx. by destruct (mod_hdcp_process_event _ _).
Qed.

(** ** Where the module trusts too much *)

#[local] Instance silent_world : HdcpWorld nat :=
  sim_world (fun _ => dp2_registers) (fun _ _ => []) (fun _ _ => None).
Definition silent_script : list (hdcp_op * nat) :=
  add MOD_HDCP_MODE_DP false 0%nat :: replicate 6 (cb 0%nat) ++ [irq 0%nat; irq 0%nat] ++ replicate 5 (cb 0%nat).

(** C23: a submission to the trusted application that is not executed counts as success for
    every validation of HDCP 2 (not of HDCP 1): the cleared buffer reads as the success
    codes. An application that never executes a command, behind a receiver that knows no
    secret, takes the link to the authenticated state with the display reported as
    encrypted. *)
Theorem hdcp2_fails_open :
  (forall {W} `{!HdcpWorld W} (s : hst W),
    (forall cmd, fst (psp_hdcp_invoke cmd (world s)) = ta_out_zero) ->
    Forall (fun m => wp m (fun a _ => a = MOD_HDCP_STATUS_SUCCESS) s)
      [mod_hdcp_hdcp2_validate_ake_cert; mod_hdcp_hdcp2_validate_h_prime; mod_hdcp_hdcp2_validate_l_prime;
       mod_hdcp_hdcp2_validate_rx_id_list; mod_hdcp_hdcp2_validate_stream_ready] /\
    wp mod_hdcp_hdcp1_validate_rx (fun a _ => a = MOD_HDCP_STATUS_HDCP1_VALIDATE_RX_FAILURE) s) /\
  (forall cmd (w : nat), psp_ta_invoke_hdcp cmd w = (None, w)) /\
  exists h, hdcp_reach (W:=nat) h /\ current_state h = D2_A5_AUTHENTICATED /\
    query_status h 3 = Some MOD_HDCP_ENCRYPTION_STATUS_HDCP2_ON.
Proof.
  split_and!; [|done|].
  - intros W HW s Hs. assert (forall {A} (cmd : Z -> ta_hdcp_cmd) (k : ta_hdcp_out -> stM (hst W) A) Q s',
      world s' = world s -> (forall w, wp (k ta_out_zero) Q (Hst (hd s') (ctx s') (outp s') w)) ->
      wp (st_bind (ta cmd) k) Q s') as Hta.
    { intros A cmd k Q s' E H. unfold ta. do 2 apply wp_bind. apply wp_gets, wp_on_world. intros o w Eo.
      rewrite E in Eo. specialize (Hs (cmd (auth_id (auth (hd s'))))). rewrite Eo in Hs. simpl in Hs. rewrite Hs. apply H. }
    split; [|unfold mod_hdcp_hdcp1_validate_rx; repeat (apply wp_bind, wp_gets); apply Hta; [done|]; intros w; by apply wp_ret].
    repeat apply Forall_cons_2; [..|done];
      unfold mod_hdcp_hdcp2_validate_ake_cert, mod_hdcp_hdcp2_validate_h_prime, mod_hdcp_hdcp2_validate_l_prime,
        mod_hdcp_hdcp2_validate_rx_id_list, mod_hdcp_hdcp2_validate_stream_ready, ta_message;
      repeat (apply wp_bind, wp_gets); apply Hta; try done; intros w; simpl; hwp; try done.
    by destruct (is_km_stored _).
  - destruct (script_reach silent_script (fun h => is_state D2_A5_AUTHENTICATED h &&
      bool_decide (query_status h 3 = Some MOD_HDCP_ENCRYPTION_STATUS_HDCP2_ON))) as (h & Hr & Hc); [vm_compute; reflexivity|].
    apply andb_true_iff in Hc as [Hs Hq]. apply bool_decide_eq_true in Hs, Hq. by exists h.
Qed.

(** A DisplayPort receiver of HDCP 1 and a trusted application that refuses to destroy a
    session; the world tells whether the receiver reports a lost link. *)
Definition dp1_registers (lost : bool) (addr : Z) : list Z :=
  if addr =? 0x68028 then [1] else if addr =? 0x68000 then [255; 255; 15; 0; 0]
  else if addr =? 0x68029 then [if lost then 4 else 2] else [].
Definition keeps_sessions (cmd : ta_hdcp_cmd) : ta_hdcp_out :=
  match cmd with
  | TA_HDCP1_DESTROY_SESSION _ => TaOut 1 0 0 [] [] 0 0 0 0 0 0 0 []
  | _ => accept 0
  end.
Definition dp1_world : HdcpWorld bool := sim_world dp1_registers (fun _ _ => []) (fun _ c => Some (keeps_sessions c)).
Definition dp1_script : list (hdcp_op * bool) :=
  [add MOD_HDCP_MODE_DP true false; cb false; cb false; cb false; irq false; cb false; irq true; cb true].

(** The condition on the trusted application is needed: an HDCP 1 session that it fails
    to destroy leaves the display marked as encrypted, and the next authentication, with
    no verdict on the receiver yet, is reported as HDCP 1 encryption that is on. *)
Theorem hdcp1_destroy_failure_stale :
  exists h, @hdcp_reach bool dp1_world h /\ current_state h = D1_A0_DETERMINE_RX_HDCP_CAPABLE /\
    query_status h 3 = Some MOD_HDCP_ENCRYPTION_STATUS_HDCP1_ON /\ trans_input (auth h) in1_rx_validation = UNKNOWN.
Proof.
  destruct (@script_reach bool dp1_world dp1_script (fun h => is_state D1_A0_DETERMINE_RX_HDCP_CAPABLE h &&
    bool_decide (query_status h 3 = Some MOD_HDCP_ENCRYPTION_STATUS_HDCP1_ON) &&
    unknown (trans_input (auth h) in1_rx_validation))) as (h & Hr & Hc); [vm_compute; reflexivity|].
  apply andb_true_iff in Hc as [[Hs Hq]%andb_true_iff Hu]. apply bool_decide_eq_true in Hs, Hq.
  exists h. split_and!; try done. by destruct (trans_input (auth h) in1_rx_validation).
Qed.

(** A DisplayPort repeater of HDCP 2; the world is its RxStatus and the byte that fills the
    receiver ID list it presents. *)
Definition repeater_registers (v : Z * Z) (addr : Z) : list Z :=
  if addr =? 0x6921d then [2; 0; 2] else if addr =? 0x69493 then [fst v]
  else if addr =? 0x69330 then replicate 16 (snd v) else [].
#[local] Instance repeater_world : HdcpWorld (Z * Z) :=
  sim_world repeater_registers (fun _ _ => []) (fun _ _ => Some (accept 1)).
Definition repeater_script : list (hdcp_op * (Z * Z)) :=
  add MOD_HDCP_MODE_DP false (6, 17) :: replicate 6 (cb (6, 17)) ++ [irq (6, 17); irq (6, 17); cb (6, 17); cb (6, 17)] ++
  irq (1, 17) :: replicate 4 (cb (0, 17)).
Definition new_list_script : list (hdcp_op * (Z * Z)) :=
  [irq (1, 33); irq (0, 33); cb (0, 33); cb (0, 33); cb (0, 33)].

(** The verdicts on a receiver ID list outlive it: an authenticated repeater announces
    that its topology changed, a second CP_IRQ arrives before the callback that would read
    the new list, and the link goes on to the authenticated state with the old list, never
    reading or validating the new one. *)
Theorem rx_id_list_change_missed :
  exists h h',
    hdcp_reach (W:=Z * Z) h /\ current_state h = D2_A5_AUTHENTICATED /\
    run_script new_list_script h = Some h' /\ current_state h' = D2_A5_AUTHENTICATED /\
    query_status h' 3 = Some MOD_HDCP_ENCRYPTION_STATUS_HDCP2_ON /\
    take 16 (drop 1 (msg (auth h') m2_rx_id_list)) = repeater_registers (0, 17) 0x69330.
Proof.
  set (ok h' := is_state D2_A5_AUTHENTICATED h' && bool_decide (query_status h' 3 = Some MOD_HDCP_ENCRYPTION_STATUS_HDCP2_ON) &&
    bool_decide (take 16 (drop 1 (msg (auth h') m2_rx_id_list)) = repeater_registers (0, 17) 0x69330)).
  destruct (script_reach repeater_script (fun h => is_state D2_A5_AUTHENTICATED h &&
    match run_script new_list_script h with Some h' => ok h' | None => false end)) as (h & Hr & Hc); [vm_compute; reflexivity|].
  apply andb_true_iff in Hc as [Hs Hc]. destruct (run_script new_list_script h) as [h'|] eqn:E; [|done]. unfold ok in Hc.
  apply andb_true_iff in Hc as [[Hs' Hq]%andb_true_iff Hl]. apply bool_decide_eq_true in Hs, Hs', Hq, Hl. by exists h, h'.
Qed.
