(* ===== verification/Spsc.v ===== *)
(** * The lock-free queue of a scheduling entity (include/drm/spsc_queue.h)

    One producer (the thread that submits jobs, under the entity's lock of its
    driver) and one consumer (the scheduler's worker) share a linked list without a
    lock. The model is a small-step machine: every access of the shared memory by
    [spsc_queue_push] and [spsc_queue_pop] is one step, and the steps of the two
    threads interleave in any order. Memory is sequentially consistent, so the
    barriers of the code are not visible.

    A node is in memory from the push until the pop that returned it has ended, after
    which its job may be freed: an access to a node that is not in memory is a crash.

    The file shows that the machine refines a FIFO queue, and how the counter lags
    behind it. *)
From Stdlib Require Import ZArith Lia.
From stdpp Require Import base gmap list.
From S2P Require Import Prelude.
Local Open Scope Z_scope.

(** ** Data *)

Definition node := positive.

(** The addresses [tail] may hold: [&queue->head] or [&node->next]. *)
Inductive slot := SHead | SNext (n : node).

#[global] Instance slot_eq_dec : EqDecision slot.
Proof. solve_decision. Defined.

(** [struct spsc_queue], with the [next] fields of the nodes in memory. *)
Record spsc_queue := Spsc {
  head : option node;
  tail : slot;
  job_count : Z;
  next : gmap node (option node)
}.

Definition set_head (v : option node) (m : spsc_queue) : spsc_queue :=
  Spsc v (tail m) (job_count m) (next m).
Definition set_tail (t : slot) (m : spsc_queue) : spsc_queue :=
  Spsc (head m) t (job_count m) (next m).
Definition set_count (c : Z) (m : spsc_queue) : spsc_queue :=
  Spsc (head m) (tail m) c (next m).
Definition set_next (x : gmap node (option node)) (m : spsc_queue) : spsc_queue :=
  Spsc (head m) (tail m) (job_count m) x.

(** Reading and writing through a [struct spsc_node **]. *)
Definition rd (m : spsc_queue) (s : slot) : option (option node) :=
  match s with SHead => Some (head m) | SNext n => next m !! n end.
Definition wr (m : spsc_queue) (s : slot) (v : option node) : option spsc_queue :=
  match s with
  | SHead => Some (set_head v m)
  | SNext n => match next m !! n with
               | Some _ => Some (set_next (<[n := v]> (next m)) m)
               | None => None
               end
  end.

Definition atomic_inc (c : Z) : Z := s32 (c + 1).
Definition atomic_dec (c : Z) : Z := s32 (c - 1).

Definition spsc_queue_init : spsc_queue := Spsc None SHead 0 ∅.
Definition spsc_queue_peek (m : spsc_queue) : option node := head m.
Definition spsc_queue_count (m : spsc_queue) : Z := job_count m.

(** ** The two threads *)

(** Where the producer is in [spsc_queue_push]: before the exchange of [tail], before
    the write through the old tail, before the counter. *)
Inductive producer :=
  | PIdle
  | PXchg (n : node)
  | PLink (n : node) (tl : slot)
  | PInc (n : node) (tl : slot).

(** Where the consumer is in [spsc_queue_pop]: before it reads [next], before it
    writes [head], before the compare-and-exchange of [tail], at the read and at the
    write of the waiting loop, before the counter. *)
Inductive consumer :=
  | CIdle
  | CNext (n : node)
  | CHead (n : node) (nx : option node)
  | CCmpxchg (n : node)
  | CSpin (n : node)
  | CSpinW (n : node) (nx : option node)
  | CDec (n : node).

(** What a step shows: the moments at which a push and a pop take effect, and what
    the operations return. *)
Inductive label :=
  | LTau
  | LEnq (n : node) (first : bool)
  | LPushed (n : node) (first : bool)
  | LDeq (n : node)
  | LEmpty
  | LPeek (r : option node)
  | LPopped (n : node).

(** The first step of a push; the caller owns a node that is not in any queue. *)
Definition push_begin (n : node) (m : spsc_queue) : option (spsc_queue * producer) :=
  if decide (is_Some (next m !! n)) then None
  else Some (set_next (<[n := None]> (next m)) m, PXchg n).

Definition push_step (m : spsc_queue) (p : producer)
    : option (spsc_queue * producer * label) :=
  match p with
  | PIdle => None
  | PXchg n => Some (set_tail (SNext n) m, PLink n (tail m), LTau)
  | PLink n tl =>
      match wr m tl (Some n) with
      | Some m' => Some (m', PInc n tl, LEnq n (bool_decide (tl = SHead)))
      | None => None
      end
  | PInc n tl =>
      Some (set_count (atomic_inc (job_count m)) m, PIdle, LPushed n (bool_decide (tl = SHead)))
  end.

(** A step of a pop; from [CIdle], its first one. *)
Definition pop_step (m : spsc_queue) (c : consumer)
    : option (spsc_queue * consumer * label) :=
  match c with
  | CIdle =>
      match head m with
      | None => Some (m, CIdle, LEmpty)
      | Some n => Some (m, CNext n, LDeq n)
      end
  | CNext n =>
      match rd m (SNext n) with
      | Some nx => Some (m, CHead n nx, LTau)
      | None => None
      end
  | CHead n nx =>
      Some (set_head nx m, match nx with None => CCmpxchg n | Some _ => CDec n end, LTau)
  | CCmpxchg n =>
      if decide (tail m = SNext n)
      then Some (set_tail SHead m, CDec n, LTau)
      else Some (m, CSpin n, LTau)
  | CSpin n =>
      match rd m (SNext n) with
      | Some nx => Some (m, CSpinW n nx, LTau)
      | None => None
      end
  | CSpinW n nx =>
      Some (set_head nx m, match nx with None => CSpin n | Some _ => CDec n end, LTau)
  | CDec n =>
      Some (set_next (delete n (next m)) (set_count (atomic_dec (job_count m)) m), CIdle, LPopped n)
  end.

(** ** The machine *)

Record qstate := Q { q_mem : spsc_queue; q_prod : producer; q_cons : consumer }.

Definition qinit : qstate := Q spsc_queue_init PIdle CIdle.

Inductive qstep : qstate -> label -> qstate -> Prop :=
  | qstep_begin m c n m' p' :
      push_begin n m = Some (m', p') -> qstep (Q m PIdle c) LTau (Q m' p' c)
  | qstep_push m p c m' p' l :
      push_step m p = Some (m', p', l) -> qstep (Q m p c) l (Q m' p' c)
  | qstep_pop m p c m' c' l :
      pop_step m c = Some (m', c', l) -> qstep (Q m p c) l (Q m' p c')
  | qstep_peek m p :
      qstep (Q m p CIdle) (LPeek (spsc_queue_peek m)) (Q m p CIdle).

Inductive qrun : qstate -> list label -> qstate -> Prop :=
  | qrun_nil s : qrun s [] s
  | qrun_snoc s tr s1 l s2 : qrun s tr s1 -> qstep s1 l s2 -> qrun s (tr ++ [l]) s2.

(** A thread about to access a node that is not in memory. *)
Definition qcrashes (s : qstate) : bool :=
  match q_prod s with
  | PIdle => false
  | p => match push_step (q_mem s) p with Some _ => false | None => true end
  end ||
  match pop_step (q_mem s) (q_cons s) with Some _ => false | None => true end.

(** ** The specification: a FIFO queue

    [fifo tr] replays the effects of a trace on a list; [None] when one of them is not
    what a queue would answer. *)
Definition fifo_step (o : option (list node)) (l : label) : option (list node) :=
  match o with
  | None => None
  | Some q =>
      match l with
      | LEnq n _ => Some (q ++ [n])
      | LDeq n => match q with
                  | x :: q' => if decide (x = n) then Some q' else None
                  | [] => None
                  end
      | LEmpty => match q with [] => Some q | _ => None end
      | LPeek r => if decide (r = hd_error q) then Some q else None
      | LTau | LPushed _ _ | LPopped _ => Some q
      end
  end.

Definition fifo (tr : list label) : option (list node) := foldl fifo_step (Some []) tr.

(** The nodes pushed, in the order the pushes took effect, and the nodes returned. *)
Definition enq_of (l : label) : list node := match l with LEnq n _ => [n] | _ => [] end.
Definition popped_of (l : label) : list node := match l with LPopped n => [n] | _ => [] end.

(** ** The invariant *)

(** The nodes linked behind a slot are exactly [q]. *)
Fixpoint chain (m : spsc_queue) (s : slot) (q : list node) : Prop :=
  match q with
  | [] => rd m s = Some None
  | n :: q' => rd m s = Some (Some n) /\ chain m (SNext n) q'
  end.

(** The last slot of a chain. *)
Fixpoint last_slot (s : slot) (q : list node) : slot :=
  match q with [] => s | n :: q' => last_slot (SNext n) q' end.

(** The node the consumer holds, and the slot the queue hangs from. *)
Definition held (c : consumer) : list node :=
  match c with
  | CIdle => []
  | CNext n | CHead n _ | CCmpxchg n | CSpin n | CSpinW n _ | CDec n => [n]
  end.
Definition root (c : consumer) : slot :=
  match c with
  | CIdle | CDec _ => SHead
  | CNext n | CHead n _ | CCmpxchg n | CSpin n | CSpinW n _ => SNext n
  end.

(** The node the producer owns and has not linked. *)
Definition pending (p : producer) : list node :=
  match p with PXchg n | PLink n _ => [n] | _ => [] end.

(** What [tail] is, by the position of the producer; [t] is the end of the chain. *)
Definition tail_ok (m : spsc_queue) (p : producer) (t : slot) : Prop :=
  match p with
  | PIdle | PInc _ _ => tail m = t
  | PXchg n => tail m = t /\ next m !! n = Some None
  | PLink n tl => tail m = SNext n /\ next m !! n = Some None /\ tl = t
  end.

(** What the consumer has read or written so far. *)
Definition cons_ok (m : spsc_queue) (c : consumer) (q : list node) : Prop :=
  match c with
  | CNext n => head m = Some n
  | CHead n nx => head m = Some n /\ (is_Some nx -> nx = hd_error q)
  | CCmpxchg n => head m = None
  | CSpin n => tail m <> SNext n
  | CSpinW n nx => tail m <> SNext n /\ (is_Some nx -> nx = hd_error q)
  | CIdle | CDec _ => True
  end.

(** By how much the counter is ahead of the queue: a pop that has taken its node but
    not counted it; a push that has linked its node but not counted it. *)
Definition uncounted_pop (c : consumer) : Z := Z.of_nat (length (held c)).
Definition uncounted_push (p : producer) : Z := match p with PInc _ _ => 1 | _ => 0 end.

Record qinv (s : qstate) (q : list node) : Prop := QInv {
  qi_nodup : NoDup (held (q_cons s) ++ q ++ pending (q_prod s));
  qi_live : forall n, is_Some (next (q_mem s) !! n) <->
              n ∈ held (q_cons s) ++ q ++ pending (q_prod s);
  qi_chain : chain (q_mem s) (root (q_cons s)) q;
  qi_tail : tail_ok (q_mem s) (q_prod s) (last_slot (root (q_cons s)) q);
  qi_cons : cons_ok (q_mem s) (q_cons s) q;
  qi_count : job_count (q_mem s) =
    s32 (Z.of_nat (length q) + uncounted_pop (q_cons s) - uncounted_push (q_prod s))
}.

(** ** Chains *)

Definition slots (s : slot) (q : list node) : list slot := s :: map SNext q.

Lemma elem_of_slots s q n : SNext n ∈ slots s q <-> s = SNext n \/ n ∈ q.
Proof.
  unfold slots. rewrite elem_of_cons, list_elem_of_fmap. split.
  - intros [->|(x & [= ->] & ?)]; auto.
  - intros [->|?]; [by left|right; by exists n].
Qed.

Lemma last_slot_elem s q : last_slot s q ∈ slots s q.
Proof.
  revert s. induction q as [|n q IH]; intros s; simpl; [by left|].
  right. apply IH.
Qed.

Lemma last_slot_snoc s q n : last_slot s (q ++ [n]) = SNext n.
Proof. revert s. induction q as [|x q IH]; intros s; simpl; auto. Qed.

Lemma last_slot_nil s q : last_slot s q = s -> NoDup (slots s q) -> q = [].
Proof.
  destruct q as [|n q]; [done|]. simpl. intros E Hn. exfalso.
  apply NoDup_cons in Hn as [Hs _]. apply Hs. rewrite <- E. apply last_slot_elem.
Qed.

Lemma chain_frame m m' s q :
  chain m s q -> (forall t, t ∈ slots s q -> rd m' t = rd m t) -> chain m' s q.
Proof.
  revert s. induction q as [|n q IH]; intros s; simpl.
  - intros <- H. apply H. by left.
  - intros [<- Hc] H. split; [apply H; by left|]. apply IH; [done|].
    intros t Ht. apply H. by right.
Qed.

Lemma chain_snoc m m' s q n :
  chain m s q -> NoDup (slots s q) -> SNext n ∉ slots s q -> rd m (SNext n) = Some None ->
  rd m' (last_slot s q) = Some (Some n) ->
  (forall t, t <> last_slot s q -> rd m' t = rd m t) ->
  chain m' s (q ++ [n]).
Proof.
  revert s. induction q as [|x q IH]; intros s; simpl; intros Hc Hnd Hn He Hl Hf.
  - split; [done|]. rewrite <- He. apply (Hf (SNext n)). intros <-. apply Hn. by left.
  - destruct Hc as [Hs Hc]. inversion Hnd as [|? ? Hx Hnd']; subst. split.
    + rewrite Hf; [done|]. intros ->. apply Hx. apply last_slot_elem.
    + apply IH; try done. intros H. apply Hn. by right.
Qed.

Lemma chain_hd m s q : chain m s q -> rd m s = Some (hd_error q).
Proof. destruct q; simpl; [done|by intros [? _]]. Qed.

Lemma rd_wr m s v m' t :
  wr m s v = Some m' -> rd m' t = if decide (t = s) then Some v else rd m t.
Proof.
  destruct s as [|n]; simpl.
  - intros [= <-]. by destruct t.
  - destruct (next m !! n) eqn:E; [|done]. intros [= <-].
    destruct t as [|x]; simpl; [done|]. case_decide; simplify_eq; [by simplify_map_eq|].
    rewrite lookup_insert_ne; [done|congruence].
Qed.

Lemma wr_frame m s v m' :
  wr m s v = Some m' -> tail m' = tail m /\ job_count m' = job_count m /\
    forall n, is_Some (next m' !! n) <-> is_Some (next m !! n).
Proof.
  destruct s as [|x]; simpl; [by intros [= <-]|].
  destruct (next m !! x) eqn:E; [|done]. intros [= <-]. split_and!; [done..|].
  intros n. simpl. destruct (decide (n = x)) as [->|]; simplify_map_eq; [|done].
  split; eauto.
Qed.

Lemma wr_some m s v : is_Some (rd m s) -> is_Some (wr m s v).
Proof. destruct s as [|n]; simpl; [eauto|]. intros [x ->]. eauto. Qed.

Lemma chain_last m s q : chain m s q -> rd m (last_slot s q) = Some None.
Proof. revert s. induction q as [|n q IH]; intros s; simpl; [done|]. intros [_ ?]; auto. Qed.

(** ** The slots of the invariant *)

Lemma qinv_slots s q : qinv s q -> NoDup (slots (root (q_cons s)) q).
Proof.
  intros [Hn _ _ _ _ _]. unfold slots. constructor.
  - intros H. apply list_elem_of_fmap in H as (x & E & Hx).
    destruct (q_cons s); simpl in *; simplify_eq; inversion Hn; subst; set_solver.
  - apply NoDup_fmap_2; [intros ? ? [=]; done|]. apply NoDup_app in Hn as (_ & _ & Hn).
    by apply NoDup_app in Hn as (? & _ & _).
Qed.

(** The node being pushed is not a slot of the queue. *)
Lemma qinv_pending_slot s q n :
  qinv s q -> pending (q_prod s) = [n] -> SNext n ∉ slots (root (q_cons s)) q.
Proof.
  intros [Hn _ _ _ _ _] E. rewrite E in Hn. rewrite elem_of_slots.
  apply NoDup_app in Hn as (_ & H1 & Hn). apply NoDup_app in Hn as (_ & H2 & _).
  intros [Hr|Hq]; [|specialize (H2 _ Hq); set_solver].
  destruct (q_cons s); simpl in *; simplify_eq; apply (H1 n); set_solver.
Qed.

(** ** Every step keeps the invariant and is a step of the FIFO queue *)

Lemma qinv_init : qinv qinit [].
Proof.
  constructor; simpl; try done; [constructor|].
  intros n. rewrite lookup_empty. split; [intros [? ?]; done|set_solver].
Qed.

Lemma qinv_begin m c n m' p' q :
  qinv (Q m PIdle c) q -> push_begin n m = Some (m', p') -> qinv (Q m' p' c) q.
Proof.
  unfold push_begin. case_decide as Hfresh; [done|]. intros [Hn Hl Hc Ht Ho Hk] [= <- <-].
  simpl in *. rewrite Hl in Hfresh. rewrite app_nil_r in *.
  constructor; simpl in *; try done.
  - rewrite app_assoc. apply NoDup_app. split_and!; [done| |apply NoDup_singleton]. set_solver.
  - intros x. rewrite lookup_insert_is_Some, Hl. set_solver.
  - eapply chain_frame; [done|]. intros [|x] Hx; simpl; [done|].
    apply elem_of_slots in Hx. rewrite lookup_insert_ne; [done|]. intros <-. apply Hfresh.
    destruct Hx as [Hr|?]; [|set_solver]. destruct c; simpl in *; simplify_eq; set_solver.
  - split; [done|]. by simplify_map_eq.
Qed.

Lemma qinv_push m p c m' p' l q :
  qinv (Q m p c) q -> push_step m p = Some (m', p', l) ->
  exists q', fifo_step (Some q) l = Some q' /\ qinv (Q m' p' c) q'.
Proof.
  intros HI. destruct p as [|n|n tl|n tl]; simpl; [done|..].
  - intros [= <- <- <-]. exists q. split; [done|]. destruct HI as [Hn Hl Hc [Ht He] Ho Hk].
    constructor; simpl in *; try done.
    + eapply chain_frame; [done|]. by intros [].
    + apply NoDup_app in Hn as (_ & Hn & _).
      destruct c as [|x|x nx|x|x|x nx|x]; simpl in *; try done;
        [|destruct Ho; split; [|done]]; intros [= ->]; apply (Hn x); set_solver.
  - destruct (wr m tl (Some n)) as [m1|] eqn:Ew; [|done]. intros [= <- <- <-].
    exists (q ++ [n]). split; [done|].
    pose proof (qinv_slots _ _ HI) as Hs. pose proof (qinv_pending_slot _ _ n HI eq_refl) as Hp.
    destruct HI as [Hn Hl Hc (Ht & He & Htl) Ho Hk]. simpl in *.
    destruct (wr_frame _ _ _ _ Ew) as (Et & Ek & En).
    constructor; simpl in *.
    + by rewrite app_nil_r.
    + intros x. rewrite En, Hl. by rewrite app_nil_r.
    + eapply (chain_snoc m); try done.
      * rewrite (rd_wr _ _ _ _ _ Ew), Htl. by case_decide.
      * intros t Hne. rewrite (rd_wr _ _ _ _ _ Ew). case_decide; congruence.
    + by rewrite last_slot_snoc, Et.
    + assert (Hh : tl <> SHead -> head m1 = head m).
      { intros Hne. pose proof (rd_wr _ _ _ _ SHead Ew) as Hr. simpl in Hr.
        case_decide; [by subst|]. by simplify_eq. }
      assert (Hroot : root c <> SHead -> tl <> SHead).
      { intros Hr ->. symmetry in Htl. destruct q; simpl in Htl; [done|].
        pose proof (last_slot_elem (SNext n0) q) as Hin.
        rewrite Htl in Hin. unfold slots in Hin. apply elem_of_cons in Hin as [|Hin]; [done|].
        apply list_elem_of_fmap in Hin as (? & ? & ?). done. }
      destruct c; simpl in *; rewrite ?Hh by (by apply Hroot); try done.
      * destruct Ho as [? Ho]. split; [done|]. intros Hx. rewrite Ho in Hx |- * by done. by destruct q; [destruct Hx|].
      * by rewrite Et.
      * destruct Ho as [? Ho]. split; [by rewrite Et|].
        intros Hx. rewrite Ho in Hx |- * by done. by destruct q; [destruct Hx|].
    + rewrite Ek, Hk, length_app. simpl. f_equal. lia.
  - intros [= <- <- <-]. exists q. split; [done|]. destruct HI as [Hn Hl Hc Ht Ho Hk].
    constructor; simpl in *; try done.
    + eapply chain_frame; [done|]. by intros [].
    + unfold atomic_inc. rewrite Hk, swrap_add_l. f_equal. lia.
Qed.

(** A step of the consumer that writes [head], or only reads, keeps the queue. *)
Lemma qinv_pop_move m p c q v c' :
  qinv (Q m p c) q -> held c' = held c -> chain (set_head v m) (root c') q ->
  last_slot (root c') q = last_slot (root c) q -> cons_ok (set_head v m) c' q ->
  qinv (Q (set_head v m) p c') q.
Proof.
  intros [Hn Hl Hc Ht Ho Hk] Eh Hc' El Ho'. constructor; simpl in *; rewrite ?Eh, ?El; try done.
  unfold uncounted_pop in *. by rewrite Eh.
Qed.

Lemma qinv_pop_read m p c q c' :
  qinv (Q m p c) q -> held c' = held c -> root c' = root c -> cons_ok m c' q ->
  qinv (Q m p c') q.
Proof.
  intros [Hn Hl Hc Ht Ho Hk] Eh Er Ho'. constructor; simpl in *; rewrite ?Eh, ?Er; try done.
  unfold uncounted_pop in *. by rewrite Eh.
Qed.

(** Writing [head] does not touch a chain that hangs from a node. *)
Lemma chain_set_head m v s q : s <> SHead -> chain m s q -> chain (set_head v m) s q.
Proof.
  intros Hs Hc. eapply chain_frame; [done|]. intros [|x] Hx; simpl; [|done].
  unfold slots in Hx. apply elem_of_cons in Hx as [|Hx]; [congruence|].
  apply list_elem_of_fmap in Hx as (? & ? & ?). done.
Qed.

(** Publishing the successor it has read, the consumer hangs the queue from [head]. *)
Lemma chain_rehang m n x q :
  chain m (SNext n) q -> Some x = hd_error q -> chain (set_head (Some x) m) SHead q.
Proof.
  destruct q as [|y q]; [done|]. simpl. intros [_ Hc] [= <-]. split; [done|].
  by apply chain_set_head.
Qed.

Lemma last_slot_head s s' q : q <> [] -> last_slot s q = last_slot s' q.
Proof. by destruct q. Qed.

Lemma qinv_pop_begin m p c' m' l q :
  qinv (Q m p CIdle) q -> pop_step m CIdle = Some (m', c', l) ->
  exists q', fifo_step (Some q) l = Some q' /\ qinv (Q m' p c') q'.
Proof.
  intros HI. pose proof (chain_hd _ _ _ (qi_chain _ _ HI)) as Hh. simpl in Hh |- *.
  destruct q as [|n q]; simplify_eq/=; rewrite Hh; intros [= <- <- <-]; [by exists []|].
  exists q. rewrite decide_True by done. split; [done|].
  destruct HI as [Hn Hl Hc Ht Ho Hk]. simpl in *. constructor; simpl in *; try done.
  - by destruct Hc.
  - rewrite Hk. unfold uncounted_pop. simpl. f_equal. lia.
Qed.

Lemma qinv_pop_cmpxchg m p n q :
  qinv (Q m p (CCmpxchg n)) q -> tail m = SNext n -> qinv (Q (set_tail SHead m) p (CDec n)) q.
Proof.
  intros HI Et. pose proof (qinv_slots _ _ HI) as Hs.
  assert (Hp : forall x tl, p <> PLink x tl).
  { intros x tl ->. pose proof (qinv_pending_slot _ _ x HI eq_refl) as Hp.
    destruct HI as [_ _ _ (Ht & _) _ _]. simpl in *. apply Hp.
    rewrite elem_of_slots. left. congruence. }
  destruct HI as [Hn Hl Hc Ht Ho Hk]. simpl in *.
  assert (El : last_slot (SNext n) q = SNext n).
  { destruct p; simpl in Ht; dest; try congruence. }
  apply last_slot_nil in El; [|done]. subst q.
  constructor; simpl in *; try done; [by rewrite Ho|].
  destruct p; simpl in *; try done; [by destruct Ht|by destruct (Hp n0 tl)].
Qed.

Lemma qinv_pop_end m p n q :
  qinv (Q m p (CDec n)) q ->
  qinv (Q (set_next (delete n (next m)) (set_count (atomic_dec (job_count m)) m)) p CIdle) q.
Proof.
  intros HI. destruct HI as [Hn Hl Hc Ht Ho Hk]. simpl in *.
  apply NoDup_cons in Hn as [Hx Hn]. constructor; simpl in *; try done.
  - intros x. rewrite lookup_delete_is_Some, Hl. set_solver.
  - eapply chain_frame; [done|]. intros [|x] Hs; simpl; [done|].
    apply elem_of_slots in Hs. rewrite lookup_delete_ne; [done|]. intros ->. set_solver.
  - destruct p; simpl in *; try done; rewrite lookup_delete_ne by set_solver; done.
  - unfold atomic_dec. rewrite <- Z.add_opp_r, Hk, swrap_add_l. f_equal.
    unfold uncounted_pop. simpl. lia.
Qed.

Lemma qinv_pop m p c m' c' l q :
  qinv (Q m p c) q -> pop_step m c = Some (m', c', l) ->
  exists q', fifo_step (Some q) l = Some q' /\ qinv (Q m' p c') q'.
Proof.
  intros HI E. destruct c as [|n|n nx|n|n|n nx|n]; [by eapply qinv_pop_begin|..];
    exists q; pose proof (qi_chain _ _ HI) as Hc; pose proof (qi_cons _ _ HI) as Ho;
    simpl in E, Hc, Ho.
  - destruct (next m !! n) as [nx|] eqn:En; [|done]. simplify_eq/=. split; [done|].
    apply (qinv_pop_read _ _ (CNext n)); simpl; try done. split; [done|].
    apply chain_hd in Hc. simpl in Hc. congruence.
  - simplify_eq/=. split; [done|]. apply (qinv_pop_move _ _ (CHead n nx)); try done;
      destruct nx as [x|]; simpl; try done; destruct Ho as [_ Ho];
      [by eapply chain_rehang; eauto|by apply chain_set_head|].
    apply last_slot_head. intros ->. by specialize (Ho ltac:(eauto)).
  - case_decide; simplify_eq/=; split; try done; [by apply qinv_pop_cmpxchg|].
    by apply (qinv_pop_read _ _ (CCmpxchg n)).
  - destruct (next m !! n) as [nx|] eqn:En; [|done]. simplify_eq/=. split; [done|].
    apply (qinv_pop_read _ _ (CSpin n)); simpl; try done. split; [done|].
    apply chain_hd in Hc. simpl in Hc. congruence.
  - simplify_eq/=. split; [done|]. apply (qinv_pop_move _ _ (CSpinW n nx)); try done;
      destruct nx as [x|]; simpl; try done; destruct Ho as [? Ho];
      [by eapply chain_rehang; eauto|by apply chain_set_head| |done].
    apply last_slot_head. intros ->. by specialize (Ho ltac:(eauto)).
  - simplify_eq/=. split; [done|]. by apply qinv_pop_end.
Qed.

Lemma qinv_step s l s' q :
  qinv s q -> qstep s l s' -> exists q', fifo_step (Some q) l = Some q' /\ qinv s' q'.
Proof.
  intros HI Hs. destruct Hs as [m c n m' p' E|m p c m' p' l E|m p c m' c' l E|m p].
  - exists q. split; [done|]. by eapply qinv_begin.
  - by eapply qinv_push.
  - by eapply qinv_pop.
  - exists q. split; [|done]. pose proof (chain_hd _ _ _ (qi_chain _ _ HI)) as Hh.
    simpl in *. unfold spsc_queue_peek. rewrite decide_True; [done|]. congruence.
Qed.

Lemma qrun_inv tr s : qrun qinit tr s -> exists q, fifo tr = Some q /\ qinv s q.
Proof.
  intros Hr. remember qinit as s0 eqn:E. induction Hr as [s|s tr s1 l s2 Hr IH Hs]; subst.
  - exists []. split; [done|apply qinv_init].
  - destruct (IH eq_refl) as (q & Eq & HI). destruct (qinv_step _ _ _ _ HI Hs) as (q' & Eq' & HI').
    exists q'. split; [|done]. unfold fifo in *. by rewrite foldl_app, Eq.
Qed.
