(* ===== verification/SpscProps.v ===== *)
(** * Properties of the entity queue, and of the worker that sleeps on it

    First the queue alone: it is a FIFO queue under every interleaving, it never
    touches a freed node, a pop waits for at most one step of the producer. Then the
    queue with its two clients: [drm_sched_entity_push_job] wakes the scheduler's
    worker when its push was the first, and the worker sleeps when
    [drm_sched_entity_is_ready] says that there is no job or that it waits for a
    dependency, and when [drm_sched_can_queue] says that there are no credits. *)
From Stdlib Require Import ZArith Lia.
From stdpp Require Import base gmap list.
From S2P Require Import Prelude Spsc.
Local Open Scope Z_scope.

(** ** The queue *)

Definition enqueued (tr : list label) : list node := flat_map enq_of tr.
Definition popped (tr : list label) : list node := flat_map popped_of tr.

(** What each step adds to the two histories. *)
Lemma step_histories s l s' q q' :
  qinv s q -> qstep s l s' -> fifo_step (Some q) l = Some q' ->
  popped_of l ++ held (q_cons s') ++ q' = held (q_cons s) ++ q ++ enq_of l.
Proof.
  intros HI Hs Hq. destruct Hs as [m c n m' p' E|m p c m' p' l E|m p c m' c' l E|m p]; simpl in *.
  - simplify_eq. by rewrite app_nil_r.
  - destruct p as [|n|n tl|n tl]; simplify_eq/=; rewrite ?app_nil_r; try done.
    destruct (wr m tl (Some n)); by simplify_eq/=.
  - destruct c as [|n|n nx|n|n|n nx|n]; simpl in E; repeat case_match; simplify_eq/=;
      repeat case_match; simplify_eq/=; by rewrite ?app_nil_r.
  - case_decide; simplify_eq. by rewrite app_nil_r.
Qed.

Lemma run_histories tr s q :
  qrun qinit tr s -> fifo tr = Some q -> popped tr ++ held (q_cons s) ++ q = enqueued tr.
Proof.
  intros Hr. revert q. remember qinit as s0 eqn:E0.
  induction Hr as [s|s tr s1 l s2 Hr IH Hs]; intros q Eq; subst.
  - by injection Eq as <-.
  - destruct (qrun_inv _ _ Hr) as (q1 & Eq1 & HI).
    unfold fifo in Eq. rewrite foldl_app in Eq. fold (fifo tr) in Eq. rewrite Eq1 in Eq.
    pose proof (step_histories _ _ _ _ _ HI Hs Eq) as Hh. specialize (IH eq_refl _ Eq1).
    unfold popped, enqueued in *. rewrite !flat_map_app, <- IH. simpl.
    rewrite !app_nil_r, <- !app_assoc. by rewrite Hh.
Qed.

Lemma held_live m p c n q :
  qinv (Q m p c) q -> held c = [n] -> is_Some (next m !! n).
Proof. intros HI E. apply (qi_live _ _ HI). simpl. rewrite E. set_solver. Qed.

Lemma qinv_no_crash s q : qinv s q -> qcrashes s = false.
Proof.
  destruct s as [m p c]. intros HI. unfold qcrashes. simpl. apply orb_false_iff. split.
  - destruct p as [|n|n tl|n tl]; simpl; try done.
    pose proof (chain_last _ _ _ (qi_chain _ _ HI)) as Hl.
    destruct (qi_tail _ _ HI) as (_ & _ & Ht). simpl in *.
    destruct (wr_some m tl (Some n)) as [m' ->]; [|done]. rewrite Ht, Hl. eauto.
  - destruct c as [|n|n nx|n|n|n nx|n]; simpl; try done; [by destruct (head m)|..];
      try (destruct (held_live _ _ _ n _ HI eq_refl) as [x ->]); try done; by case_decide.
Qed.

(** The consumer alone: [k] of its steps. *)
Fixpoint pop_steps (k : nat) (s : qstate) : option qstate :=
  match k with
  | O => Some s
  | S k' => match pop_step (q_mem s) (q_cons s) with
            | Some (m', c', _) => pop_steps k' (Q m' (q_prod s) c')
            | None => None
            end
  end.

(** A producer that is not between its exchange and its write. *)
Definition linked (p : producer) : bool := match p with PLink _ _ => false | _ => true end.

(** How many steps a pop needs at most when the node it may wait for is linked. *)
Definition pop_rest (c : consumer) : nat :=
  match c with
  | CIdle => 0 | CDec _ => 1 | CSpinW _ (Some _) => 2 | CSpin _ => 3
  | CSpinW _ None => 4 | CCmpxchg _ => 4 | CHead _ _ => 5 | CNext _ => 6
  end%nat.

(** While the consumer waits and every node is linked, there is a node to find. *)
Lemma spin_nonempty m p c q :
  qinv (Q m p c) q -> linked p = true -> tail m <> root c -> q <> [].
Proof.
  intros HI Hp Ht ->. pose proof (qi_tail _ _ HI) as H. simpl in H.
  destruct p; simpl in *; dest; done.
Qed.

Lemma pop_progress m p c q :
  qinv (Q m p c) q -> linked p = true -> c <> CIdle ->
  exists m' c' l, pop_step m c = Some (m', c', l) /\ (pop_rest c' < pop_rest c)%nat.
Proof.
  intros HI Hp Hc. pose proof (chain_hd _ _ _ (qi_chain _ _ HI)) as Hh.
  pose proof (qi_cons _ _ HI) as Ho.
  destruct c as [|n|n nx|n|n|n nx|n]; simpl in *; try done.
  - rewrite Hh. do 3 eexists. split; [done|]. simpl. lia.
  - do 3 eexists. split; [done|]. destruct nx; simpl; lia.
  - case_decide; do 3 eexists; (split; [done|]); simpl; lia.
  - rewrite Hh. do 3 eexists. split; [done|].
    destruct q; [by destruct (spin_nonempty _ _ _ _ HI Hp Ho)|]. simpl. lia.
  - do 3 eexists. split; [done|]. destruct nx; simpl; lia.
  - do 3 eexists. split; [done|]. simpl. lia.
Qed.

Lemma pop_finishes k m p c q :
  qinv (Q m p c) q -> linked p = true -> (pop_rest c <= k)%nat ->
  exists j m', (j <= k)%nat /\ pop_steps j (Q m p c) = Some (Q m' p CIdle).
Proof.
  revert m c q. induction k as [|k IH]; intros m c q HI Hp Hk;
    (destruct (decide (pop_rest c = 0%nat)) as [E|E];
     [exists 0%nat, m; split; [lia|]; by destruct c as [| | | | |? []|]|]); [lia|].
  assert (Hc : c <> CIdle) by (by intros ->).
  destruct (pop_progress _ _ _ _ HI Hp Hc) as (m1 & c1 & l & E1 & Hr).
  destruct (qinv_pop _ _ _ _ _ _ _ HI E1) as (q1 & _ & HI1).
  destruct (IH m1 c1 q1 HI1 Hp ltac:(lia)) as (j & m' & Hj & Ej).
  exists (S j), m'. split; [lia|]. simpl. by rewrite E1.
Qed.

(** Executing a schedule: which thread moves next. *)
Inductive qaction := ABegin (n : node) | APush | APop | APeek.

Definition qact (s : qstate) (a : qaction) : option (qstate * label) :=
  match a with
  | ABegin n =>
      match q_prod s, push_begin n (q_mem s) with
      | PIdle, Some (m', p') => Some (Q m' p' (q_cons s), LTau)
      | _, _ => None
      end
  | APush => match push_step (q_mem s) (q_prod s) with
             | Some (m', p', l) => Some (Q m' p' (q_cons s), l)
             | None => None
             end
  | APop => match pop_step (q_mem s) (q_cons s) with
            | Some (m', c', l) => Some (Q m' (q_prod s) c', l)
            | None => None
            end
  | APeek => match q_cons s with
             | CIdle => Some (s, LPeek (spsc_queue_peek (q_mem s)))
             | _ => None
             end
  end.

Fixpoint qexec (acts : list qaction) (tr : list label) (s : qstate)
    : option (list label * qstate) :=
  match acts with
  | [] => Some (tr, s)
  | a :: acts' => match qact s a with
                  | Some (s', l) => qexec acts' (tr ++ [l]) s'
                  | None => None
                  end
  end.

Lemma qact_step s a s' l : qact s a = Some (s', l) -> qstep s l s'.
Proof.
  destruct s as [m p c], a; simpl; intros E; repeat case_match; simplify_eq; by econstructor.
Qed.

Lemma qexec_run acts tr s tr' s' :
  qrun qinit tr s -> qexec acts tr s = Some (tr', s') -> qrun qinit tr' s'.
Proof.
  revert tr s. induction acts as [|a acts IH]; intros tr s Hr; simpl; [by intros [= <- <-]|].
  destruct (qact s a) as [[s1 l]|] eqn:E; [|done]. apply IH.
  econstructor; [done|]. by eapply qact_step.
Qed.

(** C11: the queue under every interleaving of one producer and one consumer. The trace
    of the effects is one of a FIFO queue [q] (refinement; a pop or peek answers NULL
    only when [q] is empty, a peek shows its first node); the nodes returned so far,
    the one being popped and the queue are the nodes pushed, in order: none is lost,
    repeated or reordered; no thread touches a freed node; and [job_count] is the
    length of the queue plus a pop not yet counted minus a push not yet counted. *)
Theorem spsc_refines_fifo tr s :
  qrun qinit tr s ->
  exists q, fifo tr = Some q /\
    popped tr ++ held (q_cons s) ++ q = enqueued tr /\
    qcrashes s = false /\
    (q_cons s = CIdle -> spsc_queue_peek (q_mem s) = hd_error q) /\
    spsc_queue_count (q_mem s) =
      s32 (Z.of_nat (length q) + uncounted_pop (q_cons s) - uncounted_push (q_prod s)).
Proof.
  intros Hr. destruct (qrun_inv _ _ Hr) as (q & Eq & HI). exists q. split_and!; try done.
  - by apply run_histories.
  - by eapply qinv_no_crash.
  - intros Ec. pose proof (chain_hd _ _ _ (qi_chain _ _ HI)) as Hh. rewrite Ec in Hh.
    simpl in Hh. unfold spsc_queue_peek. congruence.
  - apply (qi_count _ _ HI).
Qed.

(** Two pushes and a pop that has read the first link, with a third push linked but not
    counted. *)
Definition demo_schedule : list qaction :=
  [ABegin 1; APush; APush; APush; ABegin 2; APush; APush; APush; APop; APop;
   ABegin 3; APush; APush]%positive.

Lemma spsc_refines_fifo_witness :
  exists tr s, qexec demo_schedule [] qinit = Some (tr, s) /\ enqueued tr = [1; 2; 3]%positive /\
    exists q, fifo tr = Some q /\ popped tr ++ held (q_cons s) ++ q = enqueued tr.
Proof.
  destruct (qexec demo_schedule [] qinit) as [[tr s]|] eqn:E; [|vm_compute in E; discriminate].
  destruct (spsc_refines_fifo tr s) as (q & Hq & Hh & _); [exact (qexec_run _ _ _ _ _ (qrun_nil _) E)|].
  exists tr, s. split; [reflexivity|]. split; [vm_compute in E; injection E as <- _; reflexivity|].
  exists q. split; assumption.
Defined.

(** A pop ends. From every reachable state the consumer is back after at most six of
    its own steps, as soon as the producer has done the one write it may have left
    between its exchange of [tail] and the link; the producer never waits at all. *)
Theorem spsc_pop_returns tr s :
  qrun qinit tr s ->
  exists m p, (if linked (q_prod s) then (m, p) = (q_mem s, q_prod s)
               else exists l, push_step (q_mem s) (q_prod s) = Some (m, p, l)) /\
    exists k m', (k <= 6)%nat /\ pop_steps k (Q m p (q_cons s)) = Some (Q m' p CIdle).
Proof.
  intros Hr. destruct (qrun_inv _ _ Hr) as (q & _ & HI). destruct s as [m p c]. simpl in *.
  assert (Hk : (pop_rest c <= 6)%nat) by (destruct c as [| | | | |? []|]; simpl; lia).
  destruct (linked p) eqn:Hp; [exists m, p; split; [done|]; by eapply pop_finishes|].
  pose proof (qinv_no_crash _ _ HI) as Hn. destruct p as [| |n tl|]; try done.
  unfold qcrashes in Hn. cbn [q_prod q_mem] in Hn.
  destruct (push_step m (PLink n tl)) as [[[m1 p1] l]|] eqn:E; [|done].
  destruct (qinv_push _ _ _ _ _ _ _ HI E) as (q1 & _ & HI1).
  exists m1, p1. split; [by exists l|]. eapply pop_finishes; [done| |done].
  simpl in E. by destruct (wr m tl (Some n)); simplify_eq.
Qed.

Lemma spsc_pop_returns_witness :
  exists tr s, qexec demo_schedule [] qinit = Some (tr, s) /\ q_cons s <> CIdle /\
    exists m p, (if linked (q_prod s) then (m, p) = (q_mem s, q_prod s)
                 else exists l, push_step (q_mem s) (q_prod s) = Some (m, p, l)) /\
      exists k m', (k <= 6)%nat /\ pop_steps k (Q m p (q_cons s)) = Some (Q m' p CIdle).
Proof.
  destruct (qexec demo_schedule [] qinit) as [[tr s]|] eqn:E; [|vm_compute in E; discriminate].
  exists tr, s. split; [reflexivity|]. split; [vm_compute in E; injection E as _ <-; discriminate|].
  apply (spsc_pop_returns tr s). exact (qexec_run _ _ _ _ _ (qrun_nil _) E).
Defined.

(** ** The producer and the worker of the scheduler

    [drm_sched_entity_push_job] pushes; when its push was the first, it puts the entity
    on the run queue and queues the worker. The worker (drm_sched_run_job_work) leaves
    the pending state and looks for an entity: it may take another one, give up because
    the job of a ready entity does not fit into the credits that are left, or find this
    entity ready. Then it peeks, registers a callback on the first dependency of the job
    that has not signaled and queues itself again, or pops the job, adds its credits and
    queues itself again. A job that ends gives its credits back and queues the work that
    frees it, which queues the worker. The other entities, the dependencies of the jobs and
    the fences are the environment: which of them acts is an argument of the action. The
    scheduler is not paused for a recovery. *)

Definition drm_sched_entity_is_ready (m : spsc_queue) (dependency : bool) : bool :=
  if spsc_queue_count m =? 0 then false else if dependency then false else true.

(** A dependency of a job: a fence of the same entity, a fence of the same scheduler that
    can be pipelined, or any other. *)
Inductive dep_kind := DepOwn | DepSched | DepOther.

(** The callback of the entity: [drm_sched_entity_clear_dep] or [drm_sched_entity_wakeup]. *)
Inductive dep_cb := CbClear | CbWakeup.

(** [WSelect] and [WReady]: before the two reads of [drm_sched_entity_is_ready], the counter
    and the dependency;
    [WCanQueue]: before the credits are read; [WRest]: this entity was not ready, others may
    be; [WPeek], [WNextDep], [WAddCb], [WPop]: in [drm_sched_entity_pop_job]; [WOther]: running
    a job of another entity; [WRequeue]: about to queue itself. *)
Inductive worker :=
  WIdle | WSelect | WReady | WCanQueue | WRest | WPeek | WNextDep | WAddCb (k : dep_kind) | WPop | WOther | WRequeue.

(** [w_waking]: a first push has returned and its caller has not queued the worker yet.
    [w_work]: the work item is pending. [w_dep]: [entity->dependency] is set; [w_cb]: the
    callback that is registered; [w_depwake]: [drm_sched_entity_wakeup] has cleared the
    dependency and not queued the worker yet. [w_jobs]: the credits of the jobs in flight,
    whose sum is [credit_count]; [w_free]: the work that frees a job is pending;
    [w_blocked]: the last selection ended for lack of credits. *)
Record wstate := W {
  w_q : qstate; w_waking : bool; w_work : bool; w_worker : worker;
  w_dep : bool; w_cb : option dep_cb; w_depwake : bool;
  w_jobs : list Z; w_free : bool; w_blocked : bool
}.

Definition winit : wstate := W qinit false false WIdle false None false [] false false.

Definition credit_count (w : wstate) : Z := sumZ id (w_jobs w).

Definition set_q (s : qstate) (w : wstate) : wstate :=
  W s (w_waking w) (w_work w) (w_worker w) (w_dep w) (w_cb w) (w_depwake w) (w_jobs w) (w_free w) (w_blocked w).
Definition set_waking (b : bool) (w : wstate) : wstate :=
  W (w_q w) b (w_work w) (w_worker w) (w_dep w) (w_cb w) (w_depwake w) (w_jobs w) (w_free w) (w_blocked w).
Definition set_work (b : bool) (w : wstate) : wstate :=
  W (w_q w) (w_waking w) b (w_worker w) (w_dep w) (w_cb w) (w_depwake w) (w_jobs w) (w_free w) (w_blocked w).
Definition set_worker (k : worker) (w : wstate) : wstate :=
  W (w_q w) (w_waking w) (w_work w) k (w_dep w) (w_cb w) (w_depwake w) (w_jobs w) (w_free w) (w_blocked w).
Definition set_dep (b : bool) (w : wstate) : wstate :=
  W (w_q w) (w_waking w) (w_work w) (w_worker w) b (w_cb w) (w_depwake w) (w_jobs w) (w_free w) (w_blocked w).
Definition set_cb (o : option dep_cb) (w : wstate) : wstate :=
  W (w_q w) (w_waking w) (w_work w) (w_worker w) (w_dep w) o (w_depwake w) (w_jobs w) (w_free w) (w_blocked w).
Definition set_depwake (b : bool) (w : wstate) : wstate :=
  W (w_q w) (w_waking w) (w_work w) (w_worker w) (w_dep w) (w_cb w) b (w_jobs w) (w_free w) (w_blocked w).
Definition set_jobs (l : list Z) (w : wstate) : wstate :=
  W (w_q w) (w_waking w) (w_work w) (w_worker w) (w_dep w) (w_cb w) (w_depwake w) l (w_free w) (w_blocked w).
Definition set_free (b : bool) (w : wstate) : wstate :=
  W (w_q w) (w_waking w) (w_work w) (w_worker w) (w_dep w) (w_cb w) (w_depwake w) (w_jobs w) b (w_blocked w).
Definition set_blocked (b : bool) (w : wstate) : wstate :=
  W (w_q w) (w_waking w) (w_work w) (w_worker w) (w_dep w) (w_cb w) (w_depwake w) (w_jobs w) (w_free w) b.

Inductive waction :=
  | XBegin (n : node) | XPush | XWake          (* drm_sched_entity_push_job *)
  | XOther                                     (* the worker is queued for another reason *)
  | XStart | XSelect | XReady | XCanQueue      (* the worker looks at this entity *)
  | XOtherEntity (credits : Z) | XNone         (* it looks at another one, or finds none *)
  | XPeek | XNextDep (d : option dep_kind) | XAddCb (signaled : bool) | XPop | XRequeue
  | XFire | XKillFire | XDepWake               (* the dependency signals *)
  | XDone (job : nat) | XFree.                 (* a job ends and is freed *)

#[global] Instance waction_eq_dec : EqDecision waction.
Proof. unfold EqDecision, Decision. repeat decide equality. Defined.

Lemma qinv_size s q : qinv s q -> Z.of_nat (length q) <= Z.of_nat (size (next (q_mem s))).
Proof.
  intros [Hn Hl _ _ _ _]. apply NoDup_app in Hn as (_ & _ & Hn). apply NoDup_app in Hn as (Hn & _ & _).
  rewrite <- size_dom, <- (size_list_to_set (C := gset node) q Hn).
  apply inj_le, subseteq_size. intros x Hx. apply elem_of_list_to_set in Hx.
  apply elem_of_dom, Hl. set_solver.
Qed.

Section Worker.
Context (credit_limit : Z) (credits : node -> Z).

(** A job takes its credits, but no more than the limit. *)
Definition job_credits (c : Z) : Z := Z.min c credit_limit.
Definition fits (c : Z) (w : wstate) : bool := job_credits c <=? credit_limit - credit_count w.

Definition drm_sched_can_queue (w : wstate) : bool :=
  match spsc_queue_peek (q_mem (w_q w)) with
  | None => false
  | Some n => fits (credits n) w
  end.

Definition wact (w : wstate) (a : waction) : option wstate :=
  match a, w_worker w with
  | XBegin n, _ =>
      if w_waking w then None
      else match qact (w_q w) (ABegin n) with
           | Some (s', _) => Some (set_q s' w)
           | None => None
           end
  | XPush, _ =>
      match qact (w_q w) APush with
      | Some (s', l) =>
          Some (set_q s' (set_waking (match l with LPushed _ true => true | _ => w_waking w end) w))
      | None => None
      end
  | XWake, _ => if w_waking w then Some (set_waking false (set_work true w)) else None
  | XOther, _ => Some (set_work true w)
  | XStart, WIdle => if w_work w then Some (set_work false (set_blocked false (set_worker WSelect w))) else None
  | XSelect, WSelect =>
      Some (set_worker (if spsc_queue_count (q_mem (w_q w)) =? 0 then WRest else WReady) w)
  | XReady, WReady => Some (set_worker (if w_dep w then WRest else WCanQueue) w)
  | XCanQueue, WCanQueue =>
      Some (if drm_sched_can_queue w then set_worker WPeek w else set_worker WIdle (set_blocked true w))
  | XOtherEntity c, (WSelect | WRest) =>
      Some (if fits c w then set_worker WOther (set_jobs (w_jobs w ++ [job_credits c]) w)
            else set_worker WIdle (set_blocked true w))
  | XNone, WRest => Some (set_worker WIdle w)
  | XPeek, WPeek =>
      Some (set_worker (match spsc_queue_peek (q_mem (w_q w)) with None => WRequeue | Some _ => WNextDep end) w)
  | XNextDep None, WNextDep => Some (set_worker WPop (set_dep false w))
  | XNextDep (Some k), WNextDep => Some (set_worker (WAddCb k) (set_dep true w))
  | XAddCb signaled, WAddCb k =>
      Some (match k with
            | DepOwn => set_worker WNextDep w
            | DepSched => if signaled then set_worker WNextDep w else set_worker WRequeue (set_cb (Some CbClear) w)
            | DepOther => if signaled then set_worker WNextDep w else set_worker WRequeue (set_cb (Some CbWakeup) w)
            end)
  | XPop, WPop =>
      match qact (w_q w) APop with
      | Some (s', l) =>
          let w := set_q s' w in
          Some (match l with
                | LPopped n => set_worker WRequeue (set_jobs (w_jobs w ++ [job_credits (credits n)]) w)
                | LEmpty => set_worker WRequeue w
                | _ => w
                end)
      | None => None
      end
  | XRequeue, (WRequeue | WOther) => Some (set_worker WIdle (set_work true w))
  | XFire, wk =>
      match w_cb w, wk with
      | Some CbWakeup, _ => Some (set_depwake true (set_dep false (set_cb None w)))
      | Some CbClear, WOther => Some (set_dep false (set_cb None w))
      | _, _ => None
      end
  | XKillFire, _ =>
      match w_cb w with Some CbClear => Some (set_dep false (set_cb None w)) | _ => None end
  | XDepWake, _ => if w_depwake w then Some (set_depwake false (set_work true w)) else None
  | XDone i, _ =>
      match w_jobs w !! i with
      | Some _ => Some (set_free true (set_jobs (delete i (w_jobs w)) w))
      | None => None
      end
  | XFree, _ => if w_free w then Some (set_free false (set_work true w)) else None
  | _, _ => None
  end.

(** The two defects of this part of the scheduler. The worker reads the counter while a
    push that will not wake it has linked its node and not counted it; or the scheduled
    fence that a dependency waits for is signaled by the killing of its job and not by the
    worker. *)
Definition late_look (w : wstate) (a : waction) : bool :=
  match a, w_worker w, q_prod (w_q w) with
  | XSelect, WSelect, PInc _ (SNext _) => true
  | XKillFire, _, _ => true
  | _, _, _ => false
  end.

(** Fewer than 2^31 nodes in memory, so that the counter does not wrap. *)
Definition roomy (w : wstate) : Prop := Z.of_nat (size (next (q_mem (w_q w)))) < 2 ^ 31.

(** The reachable states; the flag says whether one of the defects happened on the way. *)
Inductive wreach : bool -> wstate -> Prop :=
  | wreach_init : wreach false winit
  | wreach_act b w a w' :
      wreach b w -> roomy w -> wact w a = Some w' -> wreach (b || late_look w a) w'.

(** The worker will look at the queue, or queue itself. *)
Definition awake (k : worker) : bool := match k with WIdle | WRest => false | _ => true end.

(** Someone will look at the queue again: the worker itself; the first push, which queues
    it; the callback of the dependency; or the end of a job in flight. *)
Definition watched (w : wstate) : Prop :=
  w_work w = true \/ awake (w_worker w) = true \/
  w_waking w = true \/ (exists n, q_prod (w_q w) = PInc n SHead) \/
  is_Some (w_cb w) \/ w_depwake w = true \/
  (w_blocked w = true /\ 0 < credit_count w) \/ w_free w = true.

(** Being inside the loop over the dependencies. *)
Definition in_deps (k : worker) : bool := match k with WNextDep | WAddCb _ => true | _ => false end.

Record winv (b : bool) (w : wstate) (q : list node) : Prop := WInv {
  wi_q : qinv (w_q w) q;
  wi_cons : q_cons (w_q w) <> CIdle -> w_worker w = WPop;
  wi_waking : w_waking w = true -> q_prod (w_q w) = PIdle;
  wi_dep : b = false -> w_dep w = true -> is_Some (w_cb w) \/ in_deps (w_worker w) = true;
  wi_watched : b = false -> q <> [] -> watched w
}.

(** A push is watched from the moment it links its node: by itself when it is the first,
    else by whoever watched the node before it, or by the pop it links behind. *)
Lemma winv_push b w w' q : winv b w q -> wact w XPush = Some w' -> exists q', winv b w' q'.
Proof using.
  intros [HI Hc Hw Hd Hq] E. destruct w as [[m p c] waking work wk dep cb dw jobs fr bl]. simpl in *.
  destruct (push_step m p) as [[[m1 p1] l]|] eqn:Ep; [|done]. injection E as <-.
  destruct (qinv_push _ _ _ _ _ _ _ HI Ep) as (q1 & Eq & HI1). exists q1. split; simpl; try done.
  - destruct p as [|n|n tl|n tl]; simpl in Ep; simplify_eq/=; try done.
    + intros ->. by specialize (Hw eq_refl).
    + destruct (wr m tl (Some n)); simplify_eq/=. intros ->. by specialize (Hw eq_refl).
  - intros Hb Hne. unfold watched in *. simpl in *. destruct p as [|n|n tl|n tl]; simpl in Ep; simplify_eq/=.
    + destruct (Hq eq_refl Hne) as [?|[?|[?|[[? ?]|?]]]]; clear Hq Hd; simplify_eq; tauto.
    + destruct (wr m tl (Some n)) as [m1'|]; simplify_eq/=.
      destruct (qi_tail _ _ HI) as (_ & _ & Ht). simpl in Ht. destruct tl as [|x]; [by eauto 10|]. destruct q as [|y q].
      * right; left. rewrite Hc; [done|]. by intros ->.
      * destruct (Hq eq_refl ltac:(done)) as [?|[?|[?|[[? ?]|?]]]]; clear Hq Hd; simplify_eq; tauto.
    + destruct (Hq eq_refl Hne) as [?|[?|[?|[[? ?]|?]]]]; clear Hq Hd; simplify_eq;
        repeat case_match; try case_bool_decide; simplify_eq; tauto.
Qed.

Lemma winv_pop b w w' q : winv b w q -> wact w XPop = Some w' -> exists q', winv b w' q'.
Proof using.
  intros [HI Hc Hw Hd Hq] E. destruct w as [[m p c] waking work wk dep cb dw jobs fr bl]. simpl in *.
  destruct wk; try done. destruct (pop_step m c) as [[[m1 c1] l]|] eqn:Ep; [|done].
  destruct (qinv_pop _ _ _ _ _ _ _ HI Ep) as (q1 & Eq & HI1). exists q1.
  assert (c1 <> CIdle -> match l with LPopped _ | LEmpty => False | _ => True end) as Hl
    by (intros Hn; destruct c; simpl in Ep; repeat case_match; simplify_eq/=; done).
  injection E as <-. destruct l; split; simpl in *; auto; try done; try (intros Hn; by destruct (Hl Hn));
    (intros _ _; right; left; done).
Qed.

(** The counter is read as zero although a job is queued only while the push of that job
    is not finished; without a late look that push is a first one. *)
Lemma winv_select b w w' q :
  winv b w q -> roomy w -> wact w XSelect = Some w' -> winv (b || late_look w XSelect) w' q.
Proof using.
  intros [HI Hc Hw Hd Hq] Hroom E. destruct w as [[m p c] waking work wk dep cb dw jobs fr bl]. simpl in *.
  destruct wk; try done. injection E as <-. split; simpl; try done.
  - intros Hn. by specialize (Hc Hn).
  - intros [-> _]%orb_false_iff Hdep. destruct (Hd eq_refl Hdep); [by left|done].
  - intros Hb Hne. apply orb_false_iff in Hb as [-> Hl].
    destruct (Z.eqb_spec (spsc_queue_count m) 0) as [Er|_]; [|by right; left].
    assert (c = CIdle) as ->. { destruct c; try done; by specialize (Hc ltac:(done)). }
    unfold spsc_queue_count in Er. pose proof (qi_count _ _ HI) as Hk.
    pose proof (qinv_size _ _ HI) as Hs. unfold roomy in Hroom. simpl in *.
    assert (Hq1 : 1 <= Z.of_nat (length q)) by (destruct q; [done|simpl; lia]).
    unfold uncounted_pop in Hk. simpl in Hk.
    rewrite swrap_small in Hk by (destruct p; simpl; lia).
    destruct p as [|n|n tl|n tl]; simpl in Hk; try lia.
    destruct tl; [|done]. unfold watched. simpl. eauto 10.
Qed.

(** A job that does not fit waits for one in flight. *)
Lemma fits_false c w : fits c w = false -> 0 < credit_count w.
Proof using. unfold fits, job_credits. intros H%Z.leb_gt. lia. Qed.

(** The look at the credits: an empty queue needs no worker, a job that does not fit has
    one in flight before it. *)
Lemma winv_can_queue b w w' q : winv b w q -> wact w XCanQueue = Some w' -> winv b w' q.
Proof using.
  intros [HI Hc Hw Hd Hq] E. destruct w as [[m p c] waking work wk dep cb dw jobs fr bl]. simpl in *.
  destruct wk; try done. injection E as <-. unfold drm_sched_can_queue. simpl.
  assert (c = CIdle) as ->. { destruct c; try done; by specialize (Hc ltac:(done)). }
  pose proof (chain_hd _ _ _ (qi_chain _ _ HI)) as Hh. simpl in Hh. injection Hh as Hh.
  unfold spsc_queue_peek. rewrite Hh.
  destruct q as [|n q]; simpl; [|destruct (fits _ _) eqn:Ef].
  - by split.
  - by split.
  - split; simpl; try done. intros _ _. apply fits_false in Ef. unfold watched, credit_count in *. simpl in *. tauto.
Qed.

Lemma winv_begin b w n w' q : winv b w q -> wact w (XBegin n) = Some w' -> winv b w' q.
Proof using.
  intros [HI Hc Hw Hd Hq] E. destruct w as [[m p c] waking work wk dep cb dw jobs fr bl]. simpl in *.
  destruct waking; [done|]. destruct p; try done.
  destruct (push_begin n m) as [[m1 p1]|] eqn:Ep; [|done]. injection E as <-.
  split; simpl; try done; [by eapply qinv_begin|]. intros Hb Hne.
  destruct (Hq Hb Hne) as [?|[?|[?|[[? ?]|?]]]]; clear Hq Hd; unfold watched; simpl in *; try done; tauto.
Qed.

(** The look at another entity. *)
Lemma winv_other_entity b w c w' q : winv b w q -> wact w (XOtherEntity c) = Some w' -> winv b w' q.
Proof using.
  intros [HI Hc Hw Hd Hq] E. destruct w as [s waking work wk dep cb dw jobs fr bl]. simpl in *.
  assert (Hk : wk = WSelect \/ wk = WRest) by (destruct wk; auto; done).
  assert (Some (if fits c (W s waking work wk dep cb dw jobs fr bl)
    then W s waking work WOther dep cb dw (jobs ++ [job_credits c]) fr bl
    else W s waking work WIdle dep cb dw jobs fr true) = Some w') as E' by (destruct Hk as [-> | ->]; exact E).
  clear E. injection E' as <-.
  assert (Hcons : q_cons s = CIdle).
  { destruct (q_cons s) eqn:Ec; try done; destruct Hk as [-> | ->]; by specialize (Hc ltac:(done)). }
  assert (Hdep : b = false -> dep = true -> is_Some cb).
  { intros Hb Ed. destruct (Hd Hb Ed) as [?|Hi]; [done|]. destruct Hk as [-> | ->]; done. }
  destruct (fits _ _) eqn:Ef; split; simpl; try done; try (by rewrite Hcons); auto.
  - intros _ _. by right; left.
  - intros _ _. apply fits_false in Ef. unfold watched, credit_count in *. simpl in *. tauto.
Qed.

(** What keeps the queue and queues the worker, or leaves it awake. *)
Lemma winv_awake b s waking work wk dep cb dw jobs fr bl waking' work' wk' dep' cb' dw' jobs' fr' bl' q :
  winv b (W s waking work wk dep cb dw jobs fr bl) q -> wk' = wk \/ wk <> WPop ->
  (waking' = true -> waking = true) ->
  (b = false -> dep' = true -> is_Some cb' \/ in_deps wk' = true) ->
  work' = true \/ awake wk' = true -> winv b (W s waking' work' wk' dep' cb' dw' jobs' fr' bl') q.
Proof using.
  intros [HI Hc Hw Hd Hq] Hp Hwk Hdep Hwork. split; simpl in *; auto.
  - intros Hn. specialize (Hc Hn). destruct Hp as [-> |]; [done|]. by destruct (Hc : wk = WPop).
  - intros _ _. unfold watched. simpl. tauto.
Qed.

(** What leaves the queue and only changes who watches it. *)
Lemma winv_watch b s waking work wk dep cb dw jobs fr bl dep' cb' dw' jobs' fr' wk' q :
  winv b (W s waking work wk dep cb dw jobs fr bl) q -> wk' = wk \/ wk <> WPop ->
  (b = false -> dep' = true -> is_Some cb' \/ in_deps wk' = true) ->
  (b = false -> watched (W s waking work wk dep cb dw jobs fr bl) ->
   watched (W s waking work wk' dep' cb' dw' jobs' fr' bl)) ->
  winv b (W s waking work wk' dep' cb' dw' jobs' fr' bl) q.
Proof using.
  intros [HI Hc Hw Hd Hq] Hp Hdep Hwatch. split; simpl in *; auto.
  intros Hn. specialize (Hc Hn). destruct Hp as [-> |]; [done|]. by destruct (Hc : wk = WPop).
Qed.

Ltac wact_case E := simpl in E; repeat case_match; simplify_eq/=.

Lemma winv_act b w a w' q :
  winv b w q -> roomy w -> wact w a = Some w' -> exists q', winv (b || late_look w a) w' q'.
Proof using.
  intros HV Hroom E. pose proof (wi_dep _ _ _ HV) as Hd.
  destruct (decide (a = XSelect)) as [->|Hs]; [by exists q; apply winv_select|].
  destruct (decide (a = XKillFire)) as [->|Hk].
  { exists q. simpl. rewrite orb_true_r. destruct HV as [HI Hc Hw _ _].
    destruct w as [s waking work wk dep cb dw jobs fr bl]. wact_case E. by split. }
  assert (late_look w a = false) as -> by (by destruct a). rewrite orb_false_r.
  destruct (decide (a = XPush)) as [->|Hp]; [by eapply winv_push|].
  destruct (decide (a = XPop)) as [->|Ho]; [by eapply winv_pop|].
  exists q. destruct a; try done; [by eapply winv_begin|..]; try (by eapply winv_can_queue);
    try (by eapply winv_other_entity); destruct w as [s waking work wk dep cb dw jobs fr bl]; wact_case E;
    try (eapply winv_awake; [exact HV|by auto|done|by auto|by auto]).
  - eapply winv_watch; [exact HV|by auto|by auto|]. intros Hb _.
    destruct (Hd Hb eq_refl) as [[k Hcb]|]; [|done]. simpl in Hcb. subst cb. unfold watched. simpl. eauto 10.
  - eapply winv_watch; [exact HV|by auto|by auto|done].
  - eapply winv_watch; [exact HV|by auto|done|]. intros _ _. unfold watched. simpl. tauto.
  - eapply winv_watch; [exact HV|by auto|by auto|]. intros _ _. unfold watched. simpl. tauto.
Qed.

Lemma wreach_inv b w : wreach b w -> exists q, winv b w q.
Proof using.
  induction 1 as [|b w a w' _ [q HV] Hroom E]; [|by eapply winv_act].
  exists []. split; simpl; try done. apply qinv_init.
Qed.

Fixpoint wexec (acts : list waction) (w : wstate) : option wstate :=
  match acts with
  | [] => Some w
  | a :: acts' => match wact w a with Some w' => wexec acts' w' | None => None end
  end.

(** Executing a schedule from a reachable state; [roomy] is checked on the way. *)
Fixpoint wcheck (acts : list waction) (b : bool) (w : wstate) : option (bool * wstate) :=
  match acts with
  | [] => Some (b, w)
  | a :: acts' =>
      if Z.of_nat (size (next (q_mem (w_q w)))) <? 2 ^ 31
      then match wact w a with Some w' => wcheck acts' (b || late_look w a) w' | None => None end
      else None
  end.

Lemma wcheck_reach acts b w b' w' : wreach b w -> wcheck acts b w = Some (b', w') -> wreach b' w'.
Proof using.
  revert b w. induction acts as [|a acts IH]; intros b w Hr; simpl; [by intros [= <- <-]|].
  destruct (Z.ltb_spec (Z.of_nat (size (next (q_mem (w_q w))))) (2 ^ 31)) as [Hs|]; [|done].
  destruct (wact w a) as [w1|] eqn:E; [|done]. apply IH. by econstructor.
Qed.

(** The worker sleeps, nothing is about to queue it, and no push will be a first one. *)
Definition stranded (w : wstate) : Prop :=
  w_work w = false /\ w_worker w = WIdle /\ w_waking w = false /\
  tail (q_mem (w_q w)) <> SHead /\
  match q_prod (w_q w) with PLink _ tl | PInc _ tl => tl <> SHead | _ => True end /\
  w_cb w = None /\ w_depwake w = false /\ w_jobs w = [] /\ w_free w = false.

Lemma wr_tail m s v m' : wr m s v = Some m' -> tail m' = tail m.
Proof using. intros H. by destruct (wr_frame _ _ _ _ H). Qed.

Lemma stranded_stays w a w' : stranded w -> a <> XOther -> wact w a = Some w' -> stranded w'.
Proof using.
  intros (H1 & H2 & H3 & H4 & H5 & H6 & H7 & H8 & H9) Ha E.
  destruct w as [[m p c] waking work wk dep cb dw jobs fr bl]. simpl in *. subst.
  destruct a; simpl in E; try done.
  - destruct p; try done. unfold push_begin in E. case_decide; [done|]. by injection E as <-.
  - destruct p as [|n|n tl|n tl]; simpl in E; [done|..].
    + by injection E as <-.
    + destruct (wr m tl (Some n)) as [m1|] eqn:Ew; [|done]. injection E as <-.
      unfold stranded. simpl. rewrite (wr_tail _ _ _ _ Ew). by destruct tl.
    + injection E as <-. unfold stranded. simpl. by rewrite bool_decide_eq_false_2.
  - by destruct d.
Qed.

Lemma stranded_exec acts w w' :
  stranded w -> XOther ∉ acts -> wexec acts w = Some w' -> stranded w'.
Proof using.
  revert w. induction acts as [|a acts IH]; intros w Hs Ho; simpl; [by intros [= <-]|].
  destruct (wact w a) as [w1|] eqn:E; [|done]. apply IH; [|set_solver].
  eapply stranded_stays; [done| |done]. set_solver.
Qed.

(** C12: no queued job is forgotten. In every state that the submitter, the worker, the
    fences of the dependencies, the other entities and the jobs in flight can reach, a
    job at the head of the queue has someone who will look at it: the worker is pending,
    or running and before its look at the counter or about to queue itself; or the push
    that was the first is about to queue it; or a callback is registered on the
    dependency the entity waits for, or has run and is about to queue the worker; or the
    worker gave up for lack of credits and jobs that hold credits are in flight; or the
    work that frees a finished job is pending, which queues the worker. Two things are
    excluded, both of them defects: the worker reads the counter in the window of a push
    that has linked its node but not counted it, and the scheduled fence of a dependency
    is signaled by the killing of its job. The scheduler is not paused for a recovery. *)
Theorem wakeup_not_lost w :
  wreach false w -> spsc_queue_peek (q_mem (w_q w)) <> None ->
  w_work w = true \/ awake (w_worker w) = true \/
  (w_waking w = true \/ exists n, q_prod (w_q w) = PInc n SHead) \/
  (is_Some (w_cb w) \/ w_depwake w = true) \/
  (w_blocked w = true /\ 0 < credit_count w) \/ w_free w = true.
Proof using.
  intros Hr Hh. destruct (wreach_inv _ _ Hr) as [q [HI Hc Hw Hd Hq]].
  destruct w as [[m p c] waking work wk dep cb dw jobs fr bl]. simpl in *.
  assert (c = CIdle \/ c <> CIdle) as [->|Hn] by (destruct c; auto); [|right; left; by rewrite Hc].
  pose proof (chain_hd _ _ _ (qi_chain _ _ HI)) as Hk. simpl in Hk. unfold spsc_queue_peek in Hh.
  assert (watched (W (Q m p CIdle) waking work wk dep cb dw jobs fr bl)) as Hx.
  { apply Hq; [done|]. intros ->. by simplify_eq/=. }
  unfold watched in Hx. simpl in Hx. tauto.
Qed.
End Worker.

(** The first of two jobs that need three of four credits each is in flight, and the worker
    gave up on the second. *)
Definition blocked_schedule : list waction :=
  [XBegin 1; XPush; XPush; XPush; XWake; XBegin 2; XPush; XPush; XPush;
   XStart; XSelect; XReady; XCanQueue; XPeek; XNextDep None; XPop; XPop; XPop; XPop; XRequeue;
   XStart; XSelect; XReady; XCanQueue]%positive.

Lemma wakeup_not_lost_witness :
  exists w, wcheck 4 (fun _ => 3) blocked_schedule false winit = Some (false, w) /\
    w_work w = false /\ w_worker w = WIdle /\ credit_count w = 3 /\
    (w_work w = true \/ awake (w_worker w) = true \/
     (w_waking w = true \/ exists n, q_prod (w_q w) = PInc n SHead) \/
     (is_Some (w_cb w) \/ w_depwake w = true) \/
     (w_blocked w = true /\ 0 < credit_count w) \/ w_free w = true).
Proof.
  destruct (wcheck 4 (fun _ => 3) blocked_schedule false winit) as [[b w]|] eqn:E; [|vm_compute in E; discriminate].
  pose proof (wcheck_reach _ _ _ _ _ _ _ (wreach_init _ _) E) as Hr. vm_compute in E. injection E as <- <-.
  eexists. split; [reflexivity|]. split; [reflexivity|]. split; [reflexivity|]. split; [reflexivity|].
  apply (wakeup_not_lost 4 (fun _ => 3)); [exact Hr|discriminate].
Defined.

(** The schedule of the defect: a job is queued and the worker popping it; a second push
    links its job behind it before the pop looks at the link, and stops before the
    counter; the worker ends its pop, the job runs, ends and is freed; the worker starts
    again, reads 0 and sleeps; the second push counts its job and, not being the first,
    wakes nobody. *)
Definition lost_schedule : list waction :=
  [XBegin 1; XPush; XPush; XPush; XWake; XStart; XSelect; XReady; XCanQueue; XPeek; XNextDep None;
   XBegin 2; XPush; XPush;
   XPop; XPop; XPop; XPop; XDone 0; XFree; XRequeue; XStart; XSelect; XNone;
   XPush]%positive.

(** C13: a wake-up is lost: a state is reachable in which a job is queued and counted, its
    entity is ready, it fits into the credits, both threads are idle, the worker is not
    pending and no job is in flight; no later push changes that (only an event from
    elsewhere, such as a job of another entity). *)
Theorem wakeup_lost :
  exists w, wreach 1 (fun _ => 1) true w /\ spsc_queue_peek (q_mem (w_q w)) = Some 2%positive /\
    drm_sched_entity_is_ready (q_mem (w_q w)) (w_dep w) = true /\
    drm_sched_can_queue 1 (fun _ => 1) w = true /\ w_jobs w = [] /\
    q_prod (w_q w) = PIdle /\ q_cons (w_q w) = CIdle /\
    forall acts w', XOther ∉ acts -> wexec 1 (fun _ => 1) acts w = Some w' ->
      w_work w' = false /\ w_worker w' = WIdle.
Proof.
  destruct (wcheck 1 (fun _ => 1) lost_schedule false winit) as [[b w]|] eqn:E; [|by vm_compute in E].
  pose proof (wcheck_reach _ _ _ _ _ _ _ (wreach_init _ _) E) as Hr.
  vm_compute in E. injection E as <- <-. eexists. split; [apply Hr|].
  repeat (split; [reflexivity|]). intros acts w' Ho Hx.
  apply stranded_exec in Hx as (? & ? & _); [done| |done]. by split_and!.
Qed.
