(* ===== verification/Sched.v ===== *)
(** * The GPU scheduler: data and operations

    A translation of src/src-tree/scheduler (sched_main.c, sched_entity.c, sched_fence.c
    and sched_internal.h). Clients submit jobs to entities; an entity waits on a run
    queue of a scheduler, one queue per priority; the scheduler's worker selects an
    entity, waits for the dependencies of its first job and hands it to the driver,
    within a budget of credits; when the hardware fence of a job signals, the job's
    finished fence does and the job is freed.

    Schedulers, entities, jobs and fences are keys of heaps. A job's two fences are
    [FSched j] and [FFin j]; every other fence, such as the one [run_job] returns, is an
    [FExt]. Signalling a fence runs its callbacks. The functions run one after the other:
    locks are not modelled, and the job queue of an entity is the list that [Spsc] shows
    the lock-free queue to be. References to fences are counted in a ledger that nothing
    reads. The driver's callbacks are arguments: what [run_job] returns, the fences
    [prepare_job] returns, the time, allocation failures.

    The variant with HAVE_STRUCT_XARRAY and without HAVE_DMA_FENCE_OPS_SET_DEADLINE is
    modelled (the deadlines are hints to the driver). *)
From Stdlib Require Import ZArith Lia.
From stdpp Require Import base gmap list.
From S2P Require Import Prelude.
Local Open Scope Z_scope.
Local Open Scope st_scope.

Definition MAX_SCHEDULE_TIMEOUT : Z := 2 ^ 63 - 1.
Definition DRM_SCHED_PRIORITY_KERNEL : Z := 0.
Definition DRM_SCHED_PRIORITY_HIGH : Z := 1.
Definition DRM_SCHED_PRIORITY_COUNT : Z := 4.
Definition ESRCH : Z := 3.
Definition ECANCELED : Z := 125.

(** ** Data *)

(** Addresses of schedulers, entities and jobs. *)
Abbreviation sid := positive.
Abbreviation eid := positive.
Abbreviation jid := positive.

(** A pointer to a struct dma_fence: [&s_fence->scheduled] and [&s_fence->finished] of a
    job, or a fence from elsewhere. *)
Inductive fref := FSched (j : jid) | FFin (j : jid) | FExt (n : positive).

(** The callbacks the scheduler registers: drm_sched_job_done_cb,
    drm_sched_entity_clear_dep, drm_sched_entity_wakeup, drm_sched_entity_kill_jobs_cb. *)
Inductive fence_cb := CbDone (j : jid) | CbClearDep (e : eid) | CbWakeup (e : eid) | CbKill (j : jid).

#[global] Instance fref_eq_dec : EqDecision fref.
Proof. solve_decision. Defined.
#[global] Instance fref_countable : Countable fref.
Proof.
  refine (inj_countable'
    (fun f => match f with FSched j => inl (inl j) | FFin j => inl (inr j) | FExt n => inr n end)
    (fun c => match c with inl (inl j) => FSched j | inl (inr j) => FFin j | inr n => FExt n end) _).
  by intros [].
Defined.
#[global] Instance fence_cb_eq_dec : EqDecision fence_cb.
Proof. solve_decision. Defined.

(** struct dma_fence: what the scheduler uses of it. [f_cbs]: the callbacks in the
    order they were added; [f_dont_pipeline]: the flag DRM_SCHED_FENCE_DONT_PIPELINE. *)
Record dma_fence := mkFence {
  f_context : Z;
  f_seqno : Z;
  f_error : Z;
  f_signaled : bool;
  f_cbs : list fence_cb;
  f_dont_pipeline : bool
}.

Definition set_f_error (v : Z) (x : dma_fence) : dma_fence :=
  mkFence (f_context x) (f_seqno x) v (f_signaled x) (f_cbs x) (f_dont_pipeline x).
Definition set_f_signaled (v : bool) (x : dma_fence) : dma_fence :=
  mkFence (f_context x) (f_seqno x) (f_error x) v (f_cbs x) (f_dont_pipeline x).
Definition set_f_cbs (v : list fence_cb) (x : dma_fence) : dma_fence :=
  mkFence (f_context x) (f_seqno x) (f_error x) (f_signaled x) v (f_dont_pipeline x).

(** struct drm_sched_fence, but for its two fences, which are in the heap of fences.
    *)
Record drm_sched_fence := mkSfence {
  fence_sched : option sid;
  parent : option positive
}.

Definition set_parent (v : option positive) (x : drm_sched_fence) : drm_sched_fence :=
  mkSfence (fence_sched x) v.

(** struct drm_sched_job; its [s_fence] is the scheduler fence with the same key.
    [cb_linked]: the node of [cb] is on a fence. *)
Record drm_sched_job := mkJob {
  job_id : Z;
  submit_ts : Z;
  j_sched : option sid;
  j_entity : option eid;
  s_priority : Z;
  credits : Z;
  last_dependency : nat;
  karma : Z;
  dependencies : list (option fref);
  cb_linked : bool
}.

Definition set_job_id (v : Z) (x : drm_sched_job) : drm_sched_job :=
  mkJob v (submit_ts x) (j_sched x) (j_entity x) (s_priority x) (credits x)
    (last_dependency x) (karma x) (dependencies x) (cb_linked x).
Definition set_submit_ts (v : Z) (x : drm_sched_job) : drm_sched_job :=
  mkJob (job_id x) v (j_sched x) (j_entity x) (s_priority x) (credits x)
    (last_dependency x) (karma x) (dependencies x) (cb_linked x).
Definition set_j_sched (v : option sid) (x : drm_sched_job) : drm_sched_job :=
  mkJob (job_id x) (submit_ts x) v (j_entity x) (s_priority x) (credits x)
    (last_dependency x) (karma x) (dependencies x) (cb_linked x).
Definition set_j_entity (v : option eid) (x : drm_sched_job) : drm_sched_job :=
  mkJob (job_id x) (submit_ts x) (j_sched x) v (s_priority x) (credits x)
    (last_dependency x) (karma x) (dependencies x) (cb_linked x).
Definition set_credits (v : Z) (x : drm_sched_job) : drm_sched_job :=
  mkJob (job_id x) (submit_ts x) (j_sched x) (j_entity x) (s_priority x) v
    (last_dependency x) (karma x) (dependencies x) (cb_linked x).
Definition set_last_dependency (v : nat) (x : drm_sched_job) : drm_sched_job :=
  mkJob (job_id x) (submit_ts x) (j_sched x) (j_entity x) (s_priority x) (credits x) v
    (karma x) (dependencies x) (cb_linked x).
Definition set_karma (v : Z) (x : drm_sched_job) : drm_sched_job :=
  mkJob (job_id x) (submit_ts x) (j_sched x) (j_entity x) (s_priority x) (credits x)
    (last_dependency x) v (dependencies x) (cb_linked x).
Definition set_dependencies (v : list (option fref)) (x : drm_sched_job) : drm_sched_job :=
  mkJob (job_id x) (submit_ts x) (j_sched x) (j_entity x) (s_priority x) (credits x)
    (last_dependency x) (karma x) v (cb_linked x).
Definition set_cb_linked (v : bool) (x : drm_sched_job) : drm_sched_job :=
  mkJob (job_id x) (submit_ts x) (j_sched x) (j_entity x) (s_priority x) (credits x)
    (last_dependency x) (karma x) (dependencies x) v.

(** struct drm_sched_entity. [e_linked]: the node [list] is on a run queue;
    [rb_linked]: [rb_tree_node] is in its tree. *)
Record drm_sched_entity := mkEntity {
  e_linked : bool;
  e_rq : option (sid * nat);
  sched_list : option (list sid);
  num_sched_list : nat;
  priority : Z;
  job_queue : list jid;
  fence_seq : Z;
  fence_context : Z;
  dependency : option fref;
  guilty : option positive;
  last_scheduled : option fref;
  last_user : option positive;
  stopped : bool;
  entity_idle : bool;
  oldest_job_waiting : Z;
  rb_linked : bool
}.

Definition set_e_linked (v : bool) (x : drm_sched_entity) : drm_sched_entity :=
  mkEntity v (e_rq x) (sched_list x) (num_sched_list x) (priority x) (job_queue x)
    (fence_seq x) (fence_context x) (dependency x) (guilty x) (last_scheduled x)
    (last_user x) (stopped x) (entity_idle x) (oldest_job_waiting x) (rb_linked x).
Definition set_e_rq (v : option (sid * nat)) (x : drm_sched_entity) : drm_sched_entity :=
  mkEntity (e_linked x) v (sched_list x) (num_sched_list x) (priority x) (job_queue x)
    (fence_seq x) (fence_context x) (dependency x) (guilty x) (last_scheduled x)
    (last_user x) (stopped x) (entity_idle x) (oldest_job_waiting x) (rb_linked x).
Definition set_sched_list (v : option (list sid)) (x : drm_sched_entity) : drm_sched_entity :=
  mkEntity (e_linked x) (e_rq x) v (num_sched_list x) (priority x) (job_queue x)
    (fence_seq x) (fence_context x) (dependency x) (guilty x) (last_scheduled x)
    (last_user x) (stopped x) (entity_idle x) (oldest_job_waiting x) (rb_linked x).
Definition set_num_sched_list (v : nat) (x : drm_sched_entity) : drm_sched_entity :=
  mkEntity (e_linked x) (e_rq x) (sched_list x) v (priority x) (job_queue x)
    (fence_seq x) (fence_context x) (dependency x) (guilty x) (last_scheduled x)
    (last_user x) (stopped x) (entity_idle x) (oldest_job_waiting x) (rb_linked x).
Definition set_priority (v : Z) (x : drm_sched_entity) : drm_sched_entity :=
  mkEntity (e_linked x) (e_rq x) (sched_list x) (num_sched_list x) v (job_queue x)
    (fence_seq x) (fence_context x) (dependency x) (guilty x) (last_scheduled x)
    (last_user x) (stopped x) (entity_idle x) (oldest_job_waiting x) (rb_linked x).
Definition set_job_queue (v : list jid) (x : drm_sched_entity) : drm_sched_entity :=
  mkEntity (e_linked x) (e_rq x) (sched_list x) (num_sched_list x) (priority x) v
    (fence_seq x) (fence_context x) (dependency x) (guilty x) (last_scheduled x)
    (last_user x) (stopped x) (entity_idle x) (oldest_job_waiting x) (rb_linked x).
Definition set_fence_seq (v : Z) (x : drm_sched_entity) : drm_sched_entity :=
  mkEntity (e_linked x) (e_rq x) (sched_list x) (num_sched_list x) (priority x)
    (job_queue x) v (fence_context x) (dependency x) (guilty x) (last_scheduled x)
    (last_user x) (stopped x) (entity_idle x) (oldest_job_waiting x) (rb_linked x).
Definition set_dependency (v : option fref) (x : drm_sched_entity) : drm_sched_entity :=
  mkEntity (e_linked x) (e_rq x) (sched_list x) (num_sched_list x) (priority x)
    (job_queue x) (fence_seq x) (fence_context x) v (guilty x) (last_scheduled x)
    (last_user x) (stopped x) (entity_idle x) (oldest_job_waiting x) (rb_linked x).
Definition set_last_scheduled (v : option fref) (x : drm_sched_entity) : drm_sched_entity :=
  mkEntity (e_linked x) (e_rq x) (sched_list x) (num_sched_list x) (priority x)
    (job_queue x) (fence_seq x) (fence_context x) (dependency x) (guilty x) v (last_user
    x) (stopped x) (entity_idle x) (oldest_job_waiting x) (rb_linked x).
Definition set_last_user (v : option positive) (x : drm_sched_entity) : drm_sched_entity :=
  mkEntity (e_linked x) (e_rq x) (sched_list x) (num_sched_list x) (priority x)
    (job_queue x) (fence_seq x) (fence_context x) (dependency x) (guilty x)
    (last_scheduled x) v (stopped x) (entity_idle x) (oldest_job_waiting x) (rb_linked
    x).
Definition set_stopped (v : bool) (x : drm_sched_entity) : drm_sched_entity :=
  mkEntity (e_linked x) (e_rq x) (sched_list x) (num_sched_list x) (priority x)
    (job_queue x) (fence_seq x) (fence_context x) (dependency x) (guilty x)
    (last_scheduled x) (last_user x) v (entity_idle x) (oldest_job_waiting x) (rb_linked
    x).
Definition set_entity_idle (v : bool) (x : drm_sched_entity) : drm_sched_entity :=
  mkEntity (e_linked x) (e_rq x) (sched_list x) (num_sched_list x) (priority x)
    (job_queue x) (fence_seq x) (fence_context x) (dependency x) (guilty x)
    (last_scheduled x) (last_user x) (stopped x) v (oldest_job_waiting x) (rb_linked x).
Definition set_oldest_job_waiting (v : Z) (x : drm_sched_entity) : drm_sched_entity :=
  mkEntity (e_linked x) (e_rq x) (sched_list x) (num_sched_list x) (priority x)
    (job_queue x) (fence_seq x) (fence_context x) (dependency x) (guilty x)
    (last_scheduled x) (last_user x) (stopped x) (entity_idle x) v (rb_linked x).
Definition set_rb_linked (v : bool) (x : drm_sched_entity) : drm_sched_entity :=
  mkEntity (e_linked x) (e_rq x) (sched_list x) (num_sched_list x) (priority x)
    (job_queue x) (fence_seq x) (fence_context x) (dependency x) (guilty x)
    (last_scheduled x) (last_user x) (stopped x) (entity_idle x) (oldest_job_waiting x)
    v.

(** struct drm_sched_rq. [rb_tree_root]: the tree in its order. *)
Record drm_sched_rq := mkRq {
  rq_entities : list eid;
  rb_tree_root : list eid;
  current_entity : option eid
}.

Definition set_rq_entities (v : list eid) (x : drm_sched_rq) : drm_sched_rq :=
  mkRq v (rb_tree_root x) (current_entity x).
Definition set_rb_tree_root (v : list eid) (x : drm_sched_rq) : drm_sched_rq :=
  mkRq (rq_entities x) v (current_entity x).
Definition set_current_entity (v : option eid) (x : drm_sched_rq) : drm_sched_rq :=
  mkRq (rq_entities x) (rb_tree_root x) v.

(** struct drm_gpu_scheduler. [work_run_job], [work_free_job]: the work items are
    queued; [work_tdr]: the delay the timeout work was armed with; [sched_rq]: the array
    of run queues, [rq_valid]: it is allocated. [score] is a pointer. *)
Record drm_gpu_scheduler := mkSched {
  credit_limit : Z;
  credit_count : Z;
  timeout : Z;
  sched_rq : list drm_sched_rq;
  rq_valid : bool;
  job_id_count : Z;
  work_run_job : bool;
  work_free_job : bool;
  work_tdr : option Z;
  pending_list : list jid;
  hang_limit : Z;
  score : positive;
  ready : bool;
  free_guilty : bool;
  pause_submit : bool
}.

Definition set_credit_count (v : Z) (x : drm_gpu_scheduler) : drm_gpu_scheduler :=
  mkSched (credit_limit x) v (timeout x) (sched_rq x) (rq_valid x) (job_id_count x)
    (work_run_job x) (work_free_job x) (work_tdr x) (pending_list x) (hang_limit x)
    (score x) (ready x) (free_guilty x) (pause_submit x).
Definition set_timeout (v : Z) (x : drm_gpu_scheduler) : drm_gpu_scheduler :=
  mkSched (credit_limit x) (credit_count x) v (sched_rq x) (rq_valid x) (job_id_count
    x) (work_run_job x) (work_free_job x) (work_tdr x) (pending_list x) (hang_limit x)
    (score x) (ready x) (free_guilty x) (pause_submit x).
Definition set_sched_rq (v : list drm_sched_rq) (x : drm_gpu_scheduler) : drm_gpu_scheduler :=
  mkSched (credit_limit x) (credit_count x) (timeout x) v (rq_valid x) (job_id_count
    x) (work_run_job x) (work_free_job x) (work_tdr x) (pending_list x) (hang_limit x)
    (score x) (ready x) (free_guilty x) (pause_submit x).
Definition set_rq_valid (v : bool) (x : drm_gpu_scheduler) : drm_gpu_scheduler :=
  mkSched (credit_limit x) (credit_count x) (timeout x) (sched_rq x) v (job_id_count
    x) (work_run_job x) (work_free_job x) (work_tdr x) (pending_list x) (hang_limit x)
    (score x) (ready x) (free_guilty x) (pause_submit x).
Definition set_job_id_count (v : Z) (x : drm_gpu_scheduler) : drm_gpu_scheduler :=
  mkSched (credit_limit x) (credit_count x) (timeout x) (sched_rq x) (rq_valid x) v
    (work_run_job x) (work_free_job x) (work_tdr x) (pending_list x) (hang_limit x)
    (score x) (ready x) (free_guilty x) (pause_submit x).
Definition set_work_run_job (v : bool) (x : drm_gpu_scheduler) : drm_gpu_scheduler :=
  mkSched (credit_limit x) (credit_count x) (timeout x) (sched_rq x) (rq_valid x)
    (job_id_count x) v (work_free_job x) (work_tdr x) (pending_list x) (hang_limit x)
    (score x) (ready x) (free_guilty x) (pause_submit x).
Definition set_work_free_job (v : bool) (x : drm_gpu_scheduler) : drm_gpu_scheduler :=
  mkSched (credit_limit x) (credit_count x) (timeout x) (sched_rq x) (rq_valid x)
    (job_id_count x) (work_run_job x) v (work_tdr x) (pending_list x) (hang_limit x)
    (score x) (ready x) (free_guilty x) (pause_submit x).
Definition set_work_tdr (v : option Z) (x : drm_gpu_scheduler) : drm_gpu_scheduler :=
  mkSched (credit_limit x) (credit_count x) (timeout x) (sched_rq x) (rq_valid x)
    (job_id_count x) (work_run_job x) (work_free_job x) v (pending_list x) (hang_limit
    x) (score x) (ready x) (free_guilty x) (pause_submit x).
Definition set_pending_list (v : list jid) (x : drm_gpu_scheduler) : drm_gpu_scheduler :=
  mkSched (credit_limit x) (credit_count x) (timeout x) (sched_rq x) (rq_valid x)
    (job_id_count x) (work_run_job x) (work_free_job x) (work_tdr x) v (hang_limit x)
    (score x) (ready x) (free_guilty x) (pause_submit x).
Definition set_ready (v : bool) (x : drm_gpu_scheduler) : drm_gpu_scheduler :=
  mkSched (credit_limit x) (credit_count x) (timeout x) (sched_rq x) (rq_valid x)
    (job_id_count x) (work_run_job x) (work_free_job x) (work_tdr x) (pending_list x)
    (hang_limit x) (score x) v (free_guilty x) (pause_submit x).
Definition set_free_guilty (v : bool) (x : drm_gpu_scheduler) : drm_gpu_scheduler :=
  mkSched (credit_limit x) (credit_count x) (timeout x) (sched_rq x) (rq_valid x)
    (job_id_count x) (work_run_job x) (work_free_job x) (work_tdr x) (pending_list x)
    (hang_limit x) (score x) (ready x) v (pause_submit x).
Definition set_pause_submit (v : bool) (x : drm_gpu_scheduler) : drm_gpu_scheduler :=
  mkSched (credit_limit x) (credit_count x) (timeout x) (sched_rq x) (rq_valid x)
    (job_id_count x) (work_run_job x) (work_free_job x) (work_tdr x) (pending_list x)
    (hang_limit x) (score x) (ready x) (free_guilty x) v.

(** The objects and the pointers between them. [refs]: how many references the
    scheduler took of each fence, less those it dropped; [scores], [guilties]: the
    counters [score] and [guilty] point to; [kill_works]: jobs whose [work] is queued;
    [freed]: the calls of free_job. *)
Record world := mkWorld {
  fences : gmap fref dma_fence;
  refs : gmap fref Z;
  sfences : gmap jid drm_sched_fence;
  jobs : gmap jid drm_sched_job;
  entities : gmap eid drm_sched_entity;
  scheds : gmap sid drm_gpu_scheduler;
  scores : gmap positive Z;
  guilties : gmap positive Z;
  kill_works : list jid;
  freed : list jid
}.

Definition set_fences (v : gmap fref dma_fence) (x : world) : world :=
  mkWorld v (refs x) (sfences x) (jobs x) (entities x) (scheds x) (scores x) (guilties
    x) (kill_works x) (freed x).
Definition set_refs (v : gmap fref Z) (x : world) : world :=
  mkWorld (fences x) v (sfences x) (jobs x) (entities x) (scheds x) (scores x)
    (guilties x) (kill_works x) (freed x).
Definition set_sfences (v : gmap jid drm_sched_fence) (x : world) : world :=
  mkWorld (fences x) (refs x) v (jobs x) (entities x) (scheds x) (scores x) (guilties
    x) (kill_works x) (freed x).
Definition set_jobs (v : gmap jid drm_sched_job) (x : world) : world :=
  mkWorld (fences x) (refs x) (sfences x) v (entities x) (scheds x) (scores x)
    (guilties x) (kill_works x) (freed x).
Definition set_entities (v : gmap eid drm_sched_entity) (x : world) : world :=
  mkWorld (fences x) (refs x) (sfences x) (jobs x) v (scheds x) (scores x) (guilties
    x) (kill_works x) (freed x).
Definition set_scheds (v : gmap sid drm_gpu_scheduler) (x : world) : world :=
  mkWorld (fences x) (refs x) (sfences x) (jobs x) (entities x) v (scores x) (guilties
    x) (kill_works x) (freed x).
Definition set_scores (v : gmap positive Z) (x : world) : world :=
  mkWorld (fences x) (refs x) (sfences x) (jobs x) (entities x) (scheds x) v (guilties
    x) (kill_works x) (freed x).
Definition set_guilties (v : gmap positive Z) (x : world) : world :=
  mkWorld (fences x) (refs x) (sfences x) (jobs x) (entities x) (scheds x) (scores x)
    v (kill_works x) (freed x).
Definition set_kill_works (v : list jid) (x : world) : world :=
  mkWorld (fences x) (refs x) (sfences x) (jobs x) (entities x) (scheds x) (scores x)
    (guilties x) v (freed x).
Definition set_freed (v : list jid) (x : world) : world :=
  mkWorld (fences x) (refs x) (sfences x) (jobs x) (entities x) (scheds x) (scores x)
    (guilties x) (kill_works x) v.

Abbreviation SM := (stM world).

(** ** Heap accesses; an access through NULL or to a freed object is a crash *)

Definition get_fence (f : fref) : SM dma_fence := w <- st_get ;; st_of_option (fences w !! f).
Definition upd_fence (f : fref) (g : dma_fence -> dma_fence) : SM unit :=
  F <- get_fence f ;; st_mod (fun w => set_fences (<[f := g F]> (fences w)) w).
Definition get_sfence (j : jid) : SM drm_sched_fence := w <- st_get ;; st_of_option (sfences w !! j).
Definition upd_sfence (j : jid) (g : drm_sched_fence -> drm_sched_fence) : SM unit :=
  S <- get_sfence j ;; st_mod (fun w => set_sfences (<[j := g S]> (sfences w)) w).
Definition get_job (j : jid) : SM drm_sched_job := w <- st_get ;; st_of_option (jobs w !! j).
Definition upd_job (j : jid) (g : drm_sched_job -> drm_sched_job) : SM unit :=
  J <- get_job j ;; st_mod (fun w => set_jobs (<[j := g J]> (jobs w)) w).
Definition get_entity (e : eid) : SM drm_sched_entity :=
  w <- st_get ;; st_of_option (entities w !! e).
Definition upd_entity (e : eid) (g : drm_sched_entity -> drm_sched_entity) : SM unit :=
  E <- get_entity e ;; st_mod (fun w => set_entities (<[e := g E]> (entities w)) w).
Definition get_sched (s : sid) : SM drm_gpu_scheduler :=
  w <- st_get ;; st_of_option (scheds w !! s).
Definition upd_sched (s : sid) (g : drm_gpu_scheduler -> drm_gpu_scheduler) : SM unit :=
  S <- get_sched s ;; st_mod (fun w => set_scheds (<[s := g S]> (scheds w)) w).
(** A run queue: [sched->sched_rq[i]]. *)
Definition get_rq (q : sid * nat) : SM drm_sched_rq :=
  S <- get_sched (fst q) ;; st_of_option (sched_rq S !! snd q).
Definition upd_rq (q : sid * nat) (g : drm_sched_rq -> drm_sched_rq) : SM unit :=
  Rq <- get_rq q ;; upd_sched (fst q) (fun S => set_sched_rq (<[snd q := g Rq]> (sched_rq S)) S).
(** [atomic_add(n, sched->score)] *)
Definition add_score (s : sid) (n : Z) : SM unit :=
  S <- get_sched s ;; w <- st_get ;; v <- st_of_option (scores w !! score S) ;;
  st_mod (fun w => set_scores (<[score S := s32 (v + n)]> (scores w)) w).

Fixpoint st_iter {A} (f : A -> SM unit) (l : list A) : SM unit :=
  match l with [] => st_ret tt | x :: l' => f x ;; st_iter f l' end.

(** ** Fences: what the kernel's dma_fence does *)

Definition ref_of (w : world) (f : fref) : Z := default 0 (refs w !! f).
Definition add_ref (n : Z) (f : fref) : SM unit :=
  st_mod (fun w => set_refs (<[f := ref_of w f + n]> (refs w)) w).
(** Both accept NULL. *)
Definition dma_fence_get (f : option fref) : SM unit :=
  match f with Some f => add_ref 1 f | None => st_ret tt end.
Definition dma_fence_put (f : option fref) : SM unit :=
  match f with Some f => add_ref (-1) f | None => st_ret tt end.

Definition dma_fence_is_signaled (f : fref) : SM bool :=
  F <- get_fence f ;; st_ret (f_signaled F).

(** 0, or -ENOENT when the fence has signaled already. *)
Definition dma_fence_add_callback (f : fref) (c : fence_cb) : SM Z :=
  F <- get_fence f ;;
  if f_signaled F then st_ret (- ENOENT)
  else
    upd_fence f (fun F => set_f_cbs (f_cbs F ++ [c]) F) ;;
    match c with
    | CbDone j => upd_job j (set_cb_linked true)
    | _ => st_ret tt
    end ;;
    st_ret 0.

(** Whether the callback was still on the fence. *)
Definition dma_fence_remove_callback_job (n : positive) (j : jid) : SM bool :=
  J <- get_job j ;;
  if cb_linked J then
    upd_fence (FExt n) (fun F => set_f_cbs (filter (fun c => c <> CbDone j) (f_cbs F)) F) ;;
    upd_job j (set_cb_linked false) ;; st_ret true
  else st_ret false.
Definition dma_fence_remove_callback_entity (f : fref) (e : eid) : SM unit :=
  upd_fence f (fun F => set_f_cbs
    (filter (fun c => c <> CbClearDep e /\ c <> CbWakeup e) (f_cbs F)) F).

Definition dma_fence_set_error (f : fref) (err : Z) : SM unit := upd_fence f (set_f_error err).

(** ** Work items *)

Definition drm_sched_run_job_queue (s : sid) : SM unit :=
  S <- get_sched s ;;
  if pause_submit S then st_ret tt else upd_sched s (set_work_run_job true).

Definition __drm_sched_run_free_queue (s : sid) : SM unit :=
  S <- get_sched s ;;
  if pause_submit S then st_ret tt else upd_sched s (set_work_free_job true).

Definition drm_sched_run_free_queue (s : sid) : SM unit :=
  S <- get_sched s ;;
  match pending_list S with
  | j :: _ =>
      d <- dma_fence_is_signaled (FFin j) ;;
      if d then __drm_sched_run_free_queue s else st_ret tt
  | [] => st_ret tt
  end.

Definition drm_sched_wakeup (s : sid) : SM unit := drm_sched_run_job_queue s.

Definition drm_sched_start_timeout (s : sid) : SM unit :=
  S <- get_sched s ;;
  if negb (timeout S =? MAX_SCHEDULE_TIMEOUT) && negb (bool_decide (pending_list S = []))
  then upd_sched s (set_work_tdr (Some (timeout S))) else st_ret tt.

Definition drm_sched_tdr_queue_imm (s : sid) : SM unit :=
  upd_sched s (set_timeout 0) ;; drm_sched_start_timeout s.

Definition drm_sched_fault (s : sid) : SM unit := upd_sched s (set_work_tdr (Some 0)).

(** [expires]: when the armed timer would have fired; [now]: jiffies. Both are unsigned
    long; [time_after] compares their difference as a signed number. *)
Definition time_after (a b : Z) : bool := s64 (b - a) <? 0.
Definition drm_sched_suspend_timeout (s : sid) (expires now : Z) : SM Z :=
  S <- get_sched s ;;
  upd_sched s (set_work_tdr (Some MAX_SCHEDULE_TIMEOUT)) ;;
  if bool_decide (is_Some (work_tdr S)) && time_after expires now
  then st_ret (u64 (expires - now)) else st_ret (timeout S).

Definition drm_sched_resume_timeout (s : sid) (remaining : Z) : SM unit :=
  S <- get_sched s ;;
  match pending_list S with
  | [] => upd_sched s (set_work_tdr None)
  | _ => upd_sched s (set_work_tdr (Some remaining))
  end.

(** ** Run queues *)

Section Policy.
(** [drm_sched_policy == DRM_SCHED_POLICY_FIFO], a module parameter. *)
Context (fifo : bool).

Definition drm_sched_entity_compare_before (w : world) (a b : eid) : bool :=
  match entities w !! a, entities w !! b with
  | Some A, Some B => oldest_job_waiting A <? oldest_job_waiting B
  | _, _ => false
  end.

Definition drm_sched_rq_remove_fifo_locked (e : eid) (q : sid * nat) : SM unit :=
  E <- get_entity e ;;
  if rb_linked E then
    upd_rq q (fun R => set_rb_tree_root (filter (fun x => x <> e) (rb_tree_root R)) R) ;;
    upd_entity e (set_rb_linked false)
  else st_ret tt.

(** [rb_add_cached] puts the new node behind those that are not greater. *)
Definition drm_sched_rq_update_fifo_locked (e : eid) (q : sid * nat) (ts : Z) : SM unit :=
  drm_sched_rq_remove_fifo_locked e q ;;
  upd_entity e (set_oldest_job_waiting ts) ;;
  w <- st_get ;;
  upd_rq q (fun R => set_rb_tree_root
    (insert_before (drm_sched_entity_compare_before w e) e (rb_tree_root R)) R) ;;
  upd_entity e (set_rb_linked true).

Definition drm_sched_rq_init : drm_sched_rq := mkRq [] [] None.

Definition drm_sched_rq_add_entity (q : sid * nat) (e : eid) : SM unit :=
  E <- get_entity e ;;
  if e_linked E then st_ret tt
  else
    add_score (fst q) 1 ;;
    upd_rq q (fun R => set_rq_entities (rq_entities R ++ [e]) R) ;;
    upd_entity e (set_e_linked true).

Definition drm_sched_rq_remove_entity (q : sid * nat) (e : eid) : SM unit :=
  E <- get_entity e ;;
  if negb (e_linked E) then st_ret tt
  else
    add_score (fst q) (-1) ;;
    upd_rq q (fun R => set_rq_entities (filter (fun x => x <> e) (rq_entities R)) R) ;;
    upd_entity e (set_e_linked false) ;;
    upd_rq q (fun R => if decide (current_entity R = Some e) then set_current_entity None R else R) ;;
    (if fifo then drm_sched_rq_remove_fifo_locked e q else st_ret tt).

(** ** Selection *)

Definition drm_sched_entity_queue_peek (E : drm_sched_entity) : option jid :=
  hd_error (job_queue E).

Definition drm_sched_entity_is_ready (E : drm_sched_entity) : bool :=
  negb (Z.of_nat (length (job_queue E)) =? 0) && bool_decide (dependency E = None).

(** [check_sub_overflow] leaves the difference modulo 2^32. *)
Definition drm_sched_available_credits (S : drm_gpu_scheduler) : Z :=
  u32 (credit_limit S - credit_count S).

Definition drm_sched_can_queue (s : sid) (e : eid) : SM bool :=
  E <- get_entity e ;;
  match drm_sched_entity_queue_peek E with
  | None => st_ret false
  | Some j =>
      S <- get_sched s ;; J <- get_job j ;;
      (if credits J >? credit_limit S then upd_job j (set_credits (credit_limit S)) else st_ret tt) ;;
      J' <- get_job j ;;
      st_ret (drm_sched_available_credits S >=? credits J')
  end.

(** What a selection returns: an entity, the error pointer -ENOSPC, or NULL. *)
Inductive selection := SelEntity (e : eid) | SelNoSpace | SelNone.

(** The body of the three loops, for a ready entity. *)
Definition select_ready (s : sid) (i : nat) (e : eid) (current : bool) : SM selection :=
  b <- drm_sched_can_queue s e ;;
  if negb b then st_ret SelNoSpace
  else
    (if current then upd_rq (s, i) (set_current_entity (Some e)) else st_ret tt) ;;
    upd_entity e (set_entity_idle false) ;;
    st_ret (SelEntity e).

(** [list_for_each_entry], up to [last] included when the loop has that break. *)
Fixpoint select_loop (s : sid) (i : nat) (current : bool) (last : option eid) (l : list eid)
    : SM selection :=
  match l with
  | [] => st_ret SelNone
  | e :: l' =>
      E <- get_entity e ;;
      if drm_sched_entity_is_ready E then select_ready s i e current
      else if decide (last = Some e) then st_ret SelNone
      else select_loop s i current last l'
  end.

(** The part of a list behind a node. *)
Fixpoint after (e : eid) (l : list eid) : list eid :=
  match l with [] => [] | x :: l' => if decide (x = e) then l' else after e l' end.

Definition drm_sched_rq_select_entity_rr (s : sid) (i : nat) : SM selection :=
  R <- get_rq (s, i) ;;
  r <- match current_entity R with
       | Some c => select_loop s i true None (after c (rq_entities R))
       | None => st_ret SelNone
       end ;;
  match r with
  | SelNone => select_loop s i true (current_entity R) (rq_entities R)
  | _ => st_ret r
  end.

Definition drm_sched_rq_select_entity_fifo (s : sid) (i : nat) : SM selection :=
  R <- get_rq (s, i) ;; select_loop s i false None (rb_tree_root R).

(** The run queues from index [i] on; with none at all the code would return an
    uninitialised pointer. *)
Fixpoint select_rqs (s : sid) (i n : nat) : SM selection :=
  match n with
  | O => st_ret SelNone
  | S n' =>
      r <- (if fifo then drm_sched_rq_select_entity_fifo s i
            else drm_sched_rq_select_entity_rr s i) ;;
      match r with SelNone => select_rqs s (S i) n' | _ => st_ret r end
  end.
Definition drm_sched_select_entity (s : sid) : SM (option eid) :=
  S <- get_sched s ;;
  BUG_ON (bool_decide (sched_rq S = [])) ;;
  r <- select_rqs s 0 (length (sched_rq S)) ;;
  st_ret (match r with SelEntity e => Some e | _ => None end).

(** ** Signalling *)

(** A fence to wait for in place of [f]: the finished fence of a job whose scheduled
    fence [f] is, when it is still alive ([dma_fence_get_rcu]). The reference moves. *)
Definition kill_dependency (alive : jid -> bool) (f : fref) : SM (option fref) :=
  match f with
  | FSched k =>
      let f' := if alive k then Some (FFin k) else None in
      dma_fence_get f' ;; dma_fence_put (Some (FSched k)) ;; st_ret f'
  | _ => st_ret (Some f)
  end.

(** [xa_for_each] over the dependencies from index [i] on; true when a callback was
    added, so that the function returns and is called again by that fence. *)
Fixpoint kill_deps_loop (alive : jid -> bool) (j : jid) (i : nat) (l : list (option fref)) : SM bool :=
  match l with
  | [] => st_ret false
  | None :: l' => kill_deps_loop alive j (S i) l'
  | Some f :: l' =>
      f' <- kill_dependency alive f ;;
      upd_job j (fun J => set_dependencies (<[i := None]> (dependencies J)) J) ;;
      match f' with
      | Some g =>
          r <- dma_fence_add_callback g (CbKill j) ;;
          if r =? 0 then st_ret true
          else dma_fence_put f' ;; kill_deps_loop alive j (S i) l'
      | None => dma_fence_put f' ;; kill_deps_loop alive j (S i) l'
      end
  end.

Definition drm_sched_entity_kill_jobs_cb (alive : jid -> bool) (f : option fref) (j : jid) : SM unit :=
  dma_fence_put f ;;
  J <- get_job j ;;
  b <- kill_deps_loop alive j 0 (dependencies J) ;;
  if b then st_ret tt else st_mod (fun w => set_kill_works (kill_works w ++ [j]) w).

Definition drm_sched_entity_clear_dep (f : fref) (e : eid) : SM unit :=
  upd_entity e (set_dependency None) ;; dma_fence_put (Some f).

Definition drm_sched_entity_wakeup (f : fref) (e : eid) : SM unit :=
  drm_sched_entity_clear_dep f e ;;
  E <- get_entity e ;; q <- st_of_option (e_rq E) ;; drm_sched_wakeup (fst q).

(** The callbacks of a fence the scheduler signals itself. [run_job] returns a fence of
    the hardware, so that none of them completes a job. *)
Definition run_own_cb (alive : jid -> bool) (f : fref) (c : fence_cb) : SM unit :=
  match c with
  | CbDone _ => st_bug
  | CbClearDep e => drm_sched_entity_clear_dep f e
  | CbWakeup e => drm_sched_entity_wakeup f e
  | CbKill j => drm_sched_entity_kill_jobs_cb alive (Some f) j
  end.

(** [dma_fence_signal]: once; the callbacks leave the fence before they run. *)
Definition dma_fence_signal_with (run : fref -> fence_cb -> SM unit) (f : fref) : SM unit :=
  F <- get_fence f ;;
  if f_signaled F then st_ret tt
  else
    upd_fence f (fun F => set_f_cbs [] (set_f_signaled true F)) ;;
    st_iter (run f) (f_cbs F).

Section Signals.
Context (alive : jid -> bool).

Definition dma_fence_signal_own (f : fref) : SM unit :=
  dma_fence_signal_with (run_own_cb alive) f.

Definition drm_sched_fence_scheduled (j : jid) (p : option positive) : SM unit :=
  match p with
  | Some n => dma_fence_get (Some (FExt n)) ;; upd_sfence j (set_parent (Some n))
  | None => st_ret tt
  end ;;
  dma_fence_signal_own (FSched j).

Definition drm_sched_fence_finished (j : jid) (result : Z) : SM unit :=
  (if result =? 0 then st_ret tt else dma_fence_set_error (FFin j) result) ;;
  dma_fence_signal_own (FFin j).

Definition drm_sched_job_done (j : jid) (result : Z) : SM unit :=
  J <- get_job j ;; SF <- get_sfence j ;; s <- st_of_option (fence_sched SF) ;;
  upd_sched s (fun S => set_credit_count (s32 (credit_count S - credits J)) S) ;;
  add_score s (-1) ;;
  dma_fence_get (Some (FFin j)) ;;
  drm_sched_fence_finished j result ;;
  dma_fence_put (Some (FFin j)) ;;
  __drm_sched_run_free_queue s.

Definition drm_sched_job_done_cb (f : fref) (j : jid) : SM unit :=
  F <- get_fence f ;; drm_sched_job_done j (f_error F).

(** The callbacks of any other fence; a node leaves the list before its function runs. *)
Definition run_ext_cb (f : fref) (c : fence_cb) : SM unit :=
  match c with
  | CbDone j => upd_job j (set_cb_linked false) ;; drm_sched_job_done_cb f j
  | _ => run_own_cb alive f c
  end.

(** The owner of a fence (the interrupt handler of a ring) signals it, with an error
    when [err] is not 0. *)
Definition signal_ext (n : positive) (err : Z) : SM unit :=
  F <- get_fence (FExt n) ;;
  (if f_signaled F || (err =? 0) then st_ret tt else dma_fence_set_error (FExt n) err) ;;
  dma_fence_signal_with run_ext_cb (FExt n).

(** A job that was not armed frees its fence, an armed one drops its reference; the
    release functions the last reference runs are not modelled. *)
Definition drm_sched_job_cleanup (j : jid) : SM unit :=
  J <- get_job j ;; SF <- get_sfence j ;;
  match fence_sched SF with
  | Some _ => dma_fence_put (Some (FFin j))
  | None => st_mod (fun w => set_sfences (delete j (sfences w)) w)
  end ;;
  st_iter dma_fence_put (dependencies J).
(** [free_job] of the driver: it cleans the job up and frees it. *)
Definition free_job (j : jid) : SM unit :=
  drm_sched_job_cleanup j ;;
  st_mod (fun w => set_freed (freed w ++ [j]) (set_jobs (delete j (jobs w)) w)).

Definition drm_sched_entity_kill_jobs_work (j : jid) : SM unit :=
  drm_sched_fence_scheduled j None ;;
  drm_sched_fence_finished j (- ESRCH) ;;
  free_job j.

(** ** Dependencies of a job *)

(** Sequence numbers of one context: compared modulo 2^32 when both fit in 32 bits. *)
Definition __dma_fence_is_later (f1 f2 : Z) : bool :=
  if negb (Z.shiftr f1 32 =? 0) || negb (Z.shiftr f2 32 =? 0) then f1 >? f2
  else s32 (u32 f1 - u32 f2) >? 0.
Definition dma_fence_is_later (F1 F2 : dma_fence) : bool :=
  __dma_fence_is_later (f_seqno F1) (f_seqno F2).
#[global] Arguments __dma_fence_is_later : simpl never.
#[global] Arguments dma_fence_is_later : simpl never.

(** The first entry of the same context. *)
Fixpoint find_context (w : world) (c : Z) (i : nat) (l : list (option fref)) : option (nat * fref) :=
  match l with
  | [] => None
  | Some f :: l' =>
      match fences w !! f with
      | Some F => if f_context F =? c then Some (i, f) else find_context w c (S i) l'
      | None => find_context w c (S i) l'
      end
  | None :: l' => find_context w c (S i) l'
  end.

(** [xa_alloc]: the lowest free index. *)
Fixpoint xa_alloc (f : fref) (l : list (option fref)) : list (option fref) :=
  match l with
  | [] => [Some f]
  | None :: l' => Some f :: l'
  | Some g :: l' => Some g :: xa_alloc f l'
  end.

(** [ret]: what [xa_alloc] returns, 0 or -ENOMEM. *)
Definition drm_sched_job_add_dependency (ret : Z) (j : jid) (fence : option fref) : SM Z :=
  match fence with
  | None => st_ret 0
  | Some f =>
      J <- get_job j ;; F <- get_fence f ;; w <- st_get ;;
      match find_context w (f_context F) 0 (dependencies J) with
      | Some (i, entry) =>
          G <- get_fence entry ;;
          (if dma_fence_is_later F G then
             dma_fence_put (Some entry) ;;
             upd_job j (fun J => set_dependencies (<[i := Some f]> (dependencies J)) J)
           else dma_fence_put fence) ;;
          st_ret 0
      | None =>
          (if ret =? 0 then upd_job j (fun J => set_dependencies (xa_alloc f (dependencies J)) J)
           else dma_fence_put fence) ;;
          st_ret ret
      end
  end.

(** [fs]: the fences of the reservation object that match the usage, with the result
    [xa_alloc] has for each. *)
Fixpoint drm_sched_job_add_resv_dependencies (j : jid) (fs : list (fref * Z)) : SM Z :=
  match fs with
  | [] => st_ret 0
  | (f, ret) :: fs' =>
      dma_fence_get (Some f) ;;
      r <- drm_sched_job_add_dependency ret j (Some f) ;;
      if r =? 0 then drm_sched_job_add_resv_dependencies j fs'
      else dma_fence_put (Some f) ;; st_ret r
  end.

(** [found]: what [drm_syncobj_find_fence] returns, an error or a fence with a reference. *)
Definition drm_sched_job_add_syncobj_dependency (j : jid) (found : Z + fref) (ret : Z) : SM Z :=
  match found with
  | inl err => st_ret err
  | inr f => drm_sched_job_add_dependency ret j (Some f)
  end.

(** [fences_of]: the fences of the object's reservation that match a usage. *)
Definition drm_sched_job_add_implicit_dependencies (j : jid) (fences_of : bool -> list (fref * Z))
    (write : bool) : SM Z :=
  drm_sched_job_add_resv_dependencies j (fences_of write).

Definition drm_sched_job_has_dependency (J : drm_sched_job) (f : fref) : bool :=
  existsb (fun g => bool_decide (g = Some f)) (dependencies J).

(** [prep]: the fences [prepare_job] still returns, with a reference each. *)
Definition drm_sched_job_dependency (j : jid) (prep : list fref) : SM (option fref * list fref) :=
  J <- get_job j ;;
  match dependencies J !! last_dependency J with
  | Some (Some f) =>
      upd_job j (fun J => set_last_dependency (S (last_dependency J)) J) ;;
      dma_fence_get (Some f) ;; st_ret (Some f, prep)
  | _ =>
      match prep with
      | [] => st_ret (None, [])
      | f :: prep' => dma_fence_get (Some f) ;; st_ret (Some f, prep')
      end
  end.

Definition to_drm_sched_fence (f : fref) : option jid :=
  match f with FSched j | FFin j => Some j | FExt _ => None end.

Definition drm_sched_entity_add_dependency_cb (e : eid) : SM bool :=
  E <- get_entity e ;; q <- st_of_option (e_rq E) ;; f <- st_of_option (dependency E) ;;
  F <- get_fence f ;;
  if (f_context F =? fence_context E) || (f_context F =? fence_context E + 1)
  then dma_fence_put (dependency E) ;; st_ret false
  else
    same <- match to_drm_sched_fence f with
            | Some k =>
                SF <- get_sfence k ;;
                st_ret (if (f_error F =? 0) && bool_decide (fence_sched SF = Some (fst q)) &&
                           negb (f_dont_pipeline F)
                        then Some k else None)
            | None => st_ret None
            end ;;
    match same with
    | Some k =>
        dma_fence_get (Some (FSched k)) ;;
        dma_fence_put (dependency E) ;;
        upd_entity e (set_dependency (Some (FSched k))) ;;
        r <- dma_fence_add_callback (FSched k) (CbClearDep e) ;;
        if r =? 0 then st_ret true
        else dma_fence_put (Some (FSched k)) ;; st_ret false
    | None =>
        r <- dma_fence_add_callback f (CbWakeup e) ;;
        if r =? 0 then st_ret true
        else dma_fence_put (dependency E) ;; st_ret false
    end.

(** ** Entities *)

(** [sl]: the array of schedulers, [None] for NULL; [context]: what
    [dma_fence_context_alloc] returns. A priority no run queue exists for becomes the
    lowest one. *)
Definition drm_sched_entity_init (e : eid) (prio : Z) (sl : option (list sid)) (num : nat)
    (g : option positive) (context : Z) : SM Z :=
  match sl with
  | None => st_ret (- EINVAL)
  | Some l =>
      if negb (bool_decide (num = 0%nat)) && bool_decide (hd_error l = None) then st_ret (- EINVAL)
      else
        E <- match num, l with
             | S _, s :: _ =>
                 S <- get_sched s ;;
                 let num_rqs := Z.of_nat (length (sched_rq S)) in
                 let p := if prio >=? num_rqs
                          then Z.max (s32 num_rqs - 1) DRM_SCHED_PRIORITY_KERNEL else prio in
                 if negb (rq_valid S) then st_ret (prio, None)
                 else st_of_option (sched_rq S !! Z.to_nat p) ;; st_ret (p, Some (s, Z.to_nat p))
             | _, _ => st_ret (prio, None)
             end ;;
        st_mod (fun w => set_entities
          (<[e := mkEntity false (snd E) (if (1 <? num)%nat then sl else None) num (fst E) [] 0
                    context None g None None false true 0 false]> (entities w)) w) ;;
        st_ret 0
  end.

Definition drm_sched_entity_modify_sched (e : eid) (sl : option (list sid)) (num : nat) : SM unit :=
  upd_entity e (fun E => set_num_sched_list num (set_sched_list sl E)).

Definition drm_sched_entity_set_priority (e : eid) (p : Z) : SM unit :=
  upd_entity e (set_priority p).

Definition drm_sched_entity_is_idle (E : drm_sched_entity) : bool :=
  negb (e_linked E) || (Z.of_nat (length (job_queue E)) =? 0) || stopped E.

Definition drm_sched_entity_error (e : eid) : SM Z :=
  E <- get_entity e ;;
  match last_scheduled E with
  | Some f => F <- get_fence f ;; st_ret (f_error F)
  | None => st_ret 0
  end.

(** The least loaded scheduler that is ready; scores are compared as unsigned numbers. *)
Fixpoint pick_loop (w : world) (l : list sid) (best : option sid) (min_score : Z) : SM (option sid) :=
  match l with
  | [] => st_ret best
  | s :: l' =>
      S <- get_sched s ;;
      if negb (ready S) then pick_loop w l' best min_score
      else
        v <- st_of_option (scores w !! score S) ;;
        if u32 v <? min_score then pick_loop w l' (Some s) (u32 v)
        else pick_loop w l' best min_score
  end.
Definition drm_sched_pick_best (l : list sid) : SM (option sid) :=
  w <- st_get ;; pick_loop w l None (2 ^ 32 - 1).

Definition drm_sched_entity_select_rq (e : eid) : SM unit :=
  E <- get_entity e ;;
  match sched_list E with
  | None => st_ret tt
  | Some l =>
      if negb (Z.of_nat (length (job_queue E)) =? 0) then st_ret tt
      else
        busy <- match last_scheduled E with
                | Some f => b <- dma_fence_is_signaled f ;; st_ret (negb b)
                | None => st_ret false
                end ;;
        if busy then st_ret tt
        else
          s <- drm_sched_pick_best (take (num_sched_list E) l) ;;
          rq <- match s with
                | Some s => S <- get_sched s ;;
                            st_of_option (sched_rq S !! Z.to_nat (priority E)) ;;
                            st_ret (Some (s, Z.to_nat (priority E)))
                | None => st_ret None
                end ;;
          (if decide (rq = e_rq E) then st_ret tt
           else
             match e_rq E with
             | Some q => drm_sched_rq_remove_entity q e
             | None => BUG_ON (e_linked E)
             end ;;
             upd_entity e (set_e_rq rq)) ;;
          (if decide (num_sched_list E = 1%nat) then upd_entity e (set_sched_list None) else st_ret tt)
  end.

(** ** Jobs *)

(** [alloc]: whether the scheduler fence could be allocated. *)
Definition drm_sched_job_init (j : jid) (e : eid) (cr : Z) (alloc : bool) : SM Z :=
  E <- get_entity e ;;
  match e_rq E with
  | None => st_ret (- ENOENT)
  | Some _ =>
      if cr =? 0 then st_ret (- EINVAL)
      else if negb alloc then st_ret (- ENOMEM)
      else
        st_mod (fun w => set_jobs (<[j := mkJob 0 0 None (Some e) 0 cr 0 0 [] false]> (jobs w)) w) ;;
        st_mod (fun w => set_sfences (<[j := mkSfence None None]> (sfences w)) w) ;;
        st_ret 0
  end.

Definition drm_sched_fence_init (j : jid) (e : eid) : SM unit :=
  E <- get_entity e ;; q <- st_of_option (e_rq E) ;;
  upd_sfence j (fun SF => mkSfence (Some (fst q)) (parent SF)) ;;
  upd_entity e (set_fence_seq (s32 (fence_seq E + 1))) ;;
  let seq := u32 (fence_seq E + 1) in
  st_mod (fun w => set_refs (<[FFin j := 1]> (<[FSched j := 1]> (refs w))) w) ;;
  st_mod (fun w => set_fences
    (<[FFin j := mkFence (fence_context E + 1) seq 0 false [] false]>
     (<[FSched j := mkFence (fence_context E) seq 0 false [] false]> (fences w))) w).

Definition drm_sched_job_arm (j : jid) : SM unit :=
  J <- get_job j ;; e <- st_of_option (j_entity J) ;;
  drm_sched_entity_select_rq e ;;
  E <- get_entity e ;; q <- st_of_option (e_rq E) ;;
  S <- get_sched (fst q) ;;
  upd_sched (fst q) (set_job_id_count (s64 (job_id_count S + 1))) ;;
  upd_job j (fun J => mkJob (u64 (job_id_count S + 1)) (submit_ts J) (Some (fst q)) (j_entity J)
    (priority E) (credits J) (last_dependency J) (karma J) (dependencies J) (cb_linked J)) ;;
  drm_sched_fence_init j e.

(** [ts]: the time; [user]: the group leader of the submitting task. *)
Definition drm_sched_entity_push_job (j : jid) (ts : Z) (user : positive) : SM unit :=
  J <- get_job j ;; e <- st_of_option (j_entity J) ;;
  E <- get_entity e ;; q <- st_of_option (e_rq E) ;;
  add_score (fst q) 1 ;;
  upd_entity e (set_last_user (Some user)) ;;
  upd_job j (set_submit_ts ts) ;;
  let first := bool_decide (job_queue E = []) in
  upd_entity e (fun E => set_job_queue (job_queue E ++ [j]) E) ;;
  if first then
    if stopped E then st_ret tt
    else
      drm_sched_rq_add_entity q e ;;
      (if fifo then drm_sched_rq_update_fifo_locked e q ts else st_ret tt) ;;
      drm_sched_wakeup (fst q)
  else st_ret tt.

(** The dependency loop of drm_sched_entity_pop_job; true when nothing is left to wait
    for. One more round than there are fences is enough. *)
Fixpoint dependency_loop (n : nat) (e : eid) (j : jid) (prep : list fref) : SM bool :=
  match n with
  | O => st_bug
  | S n' =>
      r <- drm_sched_job_dependency j prep ;;
      upd_entity e (set_dependency (fst r)) ;;
      match fst r with
      | None => st_ret true
      | Some _ =>
          b <- drm_sched_entity_add_dependency_cb e ;;
          if b then st_ret false else dependency_loop n' e j (snd r)
      end
  end.

Definition drm_sched_entity_pop_job (e : eid) (prep : list fref) : SM (option jid) :=
  E <- get_entity e ;;
  match drm_sched_entity_queue_peek E with
  | None => st_ret None
  | Some j =>
      J <- get_job j ;;
      ok <- dependency_loop (S (length (dependencies J) + length prep)) e j prep ;;
      if negb ok then st_ret None
      else
        match guilty E with
        | Some g =>
            w <- st_get ;; v <- st_of_option (guilties w !! g) ;;
            (if v =? 0 then st_ret tt else dma_fence_set_error (FFin j) (- ECANCELED))
        | None => st_ret tt
        end ;;
        dma_fence_put (last_scheduled E) ;;
        dma_fence_get (Some (FFin j)) ;;
        upd_entity e (set_last_scheduled (Some (FFin j))) ;;
        upd_entity e (fun E => set_job_queue (tl (job_queue E)) E) ;;
        E' <- get_entity e ;;
        (if fifo then
           match drm_sched_entity_queue_peek E' with
           | Some k =>
               K <- get_job k ;; q <- st_of_option (e_rq E') ;;
               drm_sched_rq_update_fifo_locked e q (submit_ts K)
           | None => st_ret tt
           end
         else st_ret tt) ;;
        upd_job j (set_j_entity None) ;;
        st_ret (Some j)
  end.

(** ** The workers of a scheduler *)

(** What [run_job] returns: a fence, with a reference, NULL or an error pointer. *)
Inductive run_result := RFence (n : positive) | RNull | RErr (err : Z).

Definition run_fence (r : run_result) : option positive :=
  match r with RFence n => Some n | _ => None end.

Definition drm_sched_job_begin (j : jid) : SM unit :=
  J <- get_job j ;; s <- st_of_option (j_sched J) ;;
  upd_sched s (fun S => set_pending_list (pending_list S ++ [j]) S) ;;
  drm_sched_start_timeout s.

(** What follows [run_job]: its fence completes the job, at once when it has signaled. *)
Definition run_job_complete (j : jid) (r : run_result) : SM unit :=
  match r with
  | RFence n =>
      dma_fence_put (Some (FExt n)) ;;
      c <- dma_fence_add_callback (FExt n) (CbDone j) ;;
      if c =? - ENOENT then F <- get_fence (FExt n) ;; drm_sched_job_done j (f_error F)
      else st_ret tt
  | RNull => drm_sched_job_done j 0
  | RErr err => drm_sched_job_done j err
  end.

(** [prep], [r]: what [prepare_job] and [run_job] return. *)
Definition drm_sched_run_job_work (s : sid) (prep : list fref) (r : run_result) : SM unit :=
  upd_sched s (set_work_run_job false) ;;
  oe <- drm_sched_select_entity s ;;
  match oe with
  | None => st_ret tt
  | Some e =>
      oj <- drm_sched_entity_pop_job e prep ;;
      match oj with
      | None => upd_entity e (set_entity_idle true) ;; drm_sched_run_job_queue s
      | Some j =>
          J <- get_job j ;;
          upd_sched s (fun S => set_credit_count (s32 (credit_count S + credits J)) S) ;;
          drm_sched_job_begin j ;;
          dma_fence_get (option_map FExt (run_fence r)) ;;
          upd_entity e (set_entity_idle true) ;;
          drm_sched_fence_scheduled j (run_fence r) ;;
          run_job_complete j r ;;
          drm_sched_run_job_queue s
      end
  end.

(** Timestamps of fences are not modelled. *)
Definition drm_sched_get_finished_job (s : sid) : SM (option jid) :=
  S <- get_sched s ;;
  match pending_list S with
  | [] => st_ret None
  | j :: rest =>
      d <- dma_fence_is_signaled (FFin j) ;;
      if negb d then st_ret None
      else
        upd_sched s (fun S => set_work_tdr None (set_pending_list rest S)) ;;
        match rest with [] => st_ret tt | _ => drm_sched_start_timeout s end ;;
        st_ret (Some j)
  end.

Definition drm_sched_free_job_work (s : sid) : SM unit :=
  upd_sched s (set_work_free_job false) ;;
  oj <- drm_sched_get_finished_job s ;;
  match oj with Some j => free_job j | None => st_ret tt end ;;
  drm_sched_run_free_queue s ;;
  drm_sched_run_job_queue s.

(** [timedout_job]: the driver's handler; whether the device is gone (ENODEV). *)
Definition drm_sched_job_timedout (timedout_job : jid -> SM bool) (s : sid) : SM unit :=
  S <- get_sched s ;;
  enodev <- match pending_list S with
            | j :: rest =>
                upd_sched s (set_pending_list rest) ;;
                b <- timedout_job j ;;
                S' <- get_sched s ;;
                (if free_guilty S' then free_job j ;; upd_sched s (set_free_guilty false)
                 else st_ret tt) ;;
                st_ret b
            | [] => st_ret false
            end ;;
  if enodev then st_ret tt else drm_sched_start_timeout s.

(** ** Reset *)

Definition drm_sched_wqueue_ready (S : drm_gpu_scheduler) : bool := ready S.

Definition drm_sched_wqueue_stop (s : sid) : SM unit :=
  upd_sched s (fun S => set_work_free_job false (set_work_run_job false (set_pause_submit true S))).

Definition drm_sched_wqueue_start (s : sid) : SM unit :=
  upd_sched s (fun S => set_work_free_job true (set_work_run_job true (set_pause_submit false S))).

(** One round of the loop of drm_sched_stop. A job whose completion has begun is waited
    for: its finished fence has signaled when the callback is gone. *)
Definition stop_job (s : sid) (bad : option jid) (j : jid) : SM unit :=
  J <- get_job j ;; SF <- get_sfence j ;;
  removed <- match parent SF with
             | Some n => dma_fence_remove_callback_job n j
             | None => st_ret false
             end ;;
  if removed then
    dma_fence_put (option_map FExt (parent SF)) ;;
    upd_sfence j (set_parent None) ;;
    upd_sched s (fun S => set_credit_count (s32 (credit_count S - credits J)) S)
  else
    upd_sched s (fun S => set_pending_list (filter (fun x => x <> j) (pending_list S)) S) ;;
    d <- dma_fence_is_signaled (FFin j) ;;
    BUG_ON (negb d) ;;
    (if decide (bad = Some j) then upd_sched s (set_free_guilty true) else free_job j).

Definition drm_sched_stop (s : sid) (bad : option jid) : SM unit :=
  drm_sched_wqueue_stop s ;;
  match bad with
  | Some j =>
      J <- get_job j ;;
      if decide (j_sched J = Some s)
      then upd_sched s (fun S => set_pending_list (j :: pending_list S) S) else st_ret tt
  | None => st_ret tt
  end ;;
  S <- get_sched s ;;
  st_iter (stop_job s bad) (rev (pending_list S)) ;;
  upd_sched s (set_work_tdr None).

Definition start_job (s : sid) (errno : Z) (j : jid) : SM unit :=
  J <- get_job j ;; SF <- get_sfence j ;;
  upd_sched s (fun S => set_credit_count (s32 (credit_count S + credits J)) S) ;;
  match parent SF with
  | None => drm_sched_job_done j (if errno =? 0 then - ECANCELED else errno)
  | Some n =>
      c <- dma_fence_add_callback (FExt n) (CbDone j) ;;
      if c =? 0 then st_ret tt
      else
        F <- get_fence (FExt n) ;;
        drm_sched_job_done j (if f_error F =? 0 then errno else f_error F)
  end.

Definition drm_sched_start (s : sid) (errno : Z) : SM unit :=
  S <- get_sched s ;;
  st_iter (start_job s errno) (pending_list S) ;;
  drm_sched_start_timeout s ;;
  drm_sched_wqueue_start s.

(** [rs]: what [run_job] returns for each pending job, NULL when it is exhausted. *)
Fixpoint resubmit_loop (s : sid) (found : option Z) (l : list jid) (rs : list run_result) : SM unit :=
  match l with
  | [] => st_ret tt
  | j :: l' =>
      J <- get_job j ;; F <- get_fence (FSched j) ;; S <- get_sched s ;;
      let found' := match found with
                    | Some c => Some c
                    | None => if karma J >? hang_limit S then Some (f_context F) else None
                    end in
      (if decide (found' = Some (f_context F)) then dma_fence_set_error (FFin j) (- ECANCELED)
       else st_ret tt) ;;
      match default RNull (hd_error rs) with
      | RFence n => upd_sfence j (set_parent (Some n)) ;; dma_fence_get (Some (FExt n))
      | RNull => upd_sfence j (set_parent None)
      | RErr err => dma_fence_set_error (FFin j) err ;; upd_sfence j (set_parent None)
      end ;;
      resubmit_loop s found' l' (tl rs)
  end.
Definition drm_sched_resubmit_jobs (s : sid) (rs : list run_result) : SM unit :=
  S <- get_sched s ;; resubmit_loop s None (pending_list S) rs.

(** The entity a fence context belongs to, marked guilty; whether it was on the queue. *)
Fixpoint karma_loop (c : Z) (l : list eid) : SM bool :=
  match l with
  | [] => st_ret false
  | e :: l' =>
      E <- get_entity e ;;
      if c =? fence_context E then
        match guilty E with
        | Some g => st_mod (fun w => set_guilties (<[g := 1]> (guilties w)) w)
        | None => st_ret tt
        end ;;
        st_ret true
      else karma_loop c l'
  end.
Fixpoint karma_rqs (c : Z) (rqs : list drm_sched_rq) : SM unit :=
  match rqs with
  | [] => st_ret tt
  | R :: rqs' => b <- karma_loop c (rq_entities R) ;; if b then st_ret tt else karma_rqs c rqs'
  end.
Definition drm_sched_increase_karma (bad : jid) : SM unit :=
  J <- get_job bad ;;
  if s_priority J =? DRM_SCHED_PRIORITY_KERNEL then st_ret tt
  else
    upd_job bad (fun J => set_karma (s32 (karma J + 1)) J) ;;
    F <- get_fence (FSched bad) ;;
    s <- st_of_option (j_sched J) ;; S <- get_sched s ;;
    karma_rqs (f_context F) (drop (Z.to_nat DRM_SCHED_PRIORITY_HIGH) (sched_rq S)).

(** ** The end of an entity *)

(** The loop over the queued jobs: each waits for the one before it. *)
Fixpoint kill_loop (l : list jid) (prev : option fref) : SM (option fref) :=
  match l with
  | [] => st_ret prev
  | j :: l' =>
      dma_fence_get (Some (FFin j)) ;;
      ok <- match prev with
            | Some p => r <- dma_fence_add_callback p (CbKill j) ;; st_ret (r =? 0)
            | None => st_ret false
            end ;;
      (if ok then st_ret tt
       else dma_fence_put prev ;; drm_sched_entity_kill_jobs_cb alive None j) ;;
      kill_loop l' (Some (FFin j))
  end.

Definition drm_sched_entity_kill (e : eid) : SM unit :=
  E <- get_entity e ;;
  match e_rq E with
  | None => st_ret tt
  | Some q =>
      upd_entity e (set_stopped true) ;;
      drm_sched_rq_remove_entity q e ;;
      BUG_ON (negb (entity_idle E)) ;;
      dma_fence_get (last_scheduled E) ;;
      upd_entity e (set_job_queue []) ;;
      prev <- kill_loop (job_queue E) (last_scheduled E) ;;
      dma_fence_put prev
  end.

(** [left]: what the wait returned, for a task that is exiting; [current]: its group
    leader; [sigkill]: it is exiting because of SIGKILL. *)
Definition drm_sched_entity_flush (e : eid) (timeo left : Z) (current : positive) (exiting sigkill : bool)
    : SM Z :=
  E <- get_entity e ;;
  match e_rq E with
  | None => st_ret 0
  | Some _ =>
      let ret := if exiting && negb (timeo =? 0) then left else timeo in
      (if decide (last_user E = Some current) then upd_entity e (set_last_user None) else st_ret tt) ;;
      (if (bool_decide (last_user E = None) || bool_decide (last_user E = Some current)) &&
          exiting && sigkill
       then drm_sched_entity_kill e else st_ret tt) ;;
      st_ret ret
  end.

Definition drm_sched_entity_fini (e : eid) : SM unit :=
  drm_sched_entity_kill e ;;
  E <- get_entity e ;;
  match dependency E with
  | Some f =>
      dma_fence_remove_callback_entity f e ;; dma_fence_put (Some f) ;;
      upd_entity e (set_dependency None)
  | None => st_ret tt
  end ;;
  dma_fence_put (last_scheduled E) ;;
  upd_entity e (set_last_scheduled None).

Definition drm_sched_entity_destroy (e : eid) (timeo left : Z) (current : positive) (exiting sigkill : bool)
    : SM unit :=
  drm_sched_entity_flush e timeo left current exiting sigkill ;; drm_sched_entity_fini e.
End Signals.
End Policy.

(** ** Initialisation *)

(** [num]: args->num_rqs; [sc]: args->score, its own counter [s] when NULL; [wq_ok], [rq_ok]: the outcomes of the allocations. *)
Definition drm_sched_init (s : sid) (limit timeo hang num : Z) (sc : option positive)
    (wq_ok arr_ok : bool) (rq_ok : nat -> bool) : SM Z :=
  S <- get_sched s ;;
  let own := match sc with Some p => p | None => s end in
  let S1 := mkSched limit (credit_count S) timeo (sched_rq S) (rq_valid S) (job_id_count S)
    (work_run_job S) (work_free_job S) (work_tdr S) (pending_list S) hang own (ready S)
    (free_guilty S) (pause_submit S) in
  upd_sched s (fun _ => S1) ;;
  if num >? DRM_SCHED_PRIORITY_COUNT then st_ret (- EINVAL)
  else if rq_valid S then st_ret 0
  else if negb wq_ok || negb arr_ok || negb (forallb rq_ok (seq 0 (Z.to_nat num)))
  then st_ret (- ENOMEM)
  else
    upd_sched s (fun S => mkSched limit 0 timeo (replicate (Z.to_nat num) drm_sched_rq_init) true 0
      false false None [] hang own true (free_guilty S) false) ;;
    st_mod (fun w => set_scores (<[s := 0]> (scores w)) w) ;;
    st_ret 0.

Definition drm_sched_fini (s : sid) : SM unit :=
  drm_sched_wqueue_stop s ;;
  S <- get_sched s ;;
  st_iter (fun e => upd_entity e (set_stopped true)) (concat (map rq_entities (sched_rq S))) ;;
  upd_sched s (fun S => set_rq_valid false (set_sched_rq [] (set_ready false (set_work_tdr None S)))).
