(* ===== verification/SchedOps.v ===== *)
(** * The GPU scheduler in operation

    The operations that reach a scheduler from outside, each run to its end: a client
    creates and ends entities and submits jobs, the workers run, fences signal, the
    driver resets a hung ring. [sreach] are the states such operations lead to from
    schedulers that have just been initialised. *)
From Stdlib Require Import ZArith Lia.
From stdpp Require Import base gmap list.
From S2P Require Import Prelude Sched.
Local Open Scope Z_scope.
Local Open Scope st_scope.

Section Ops.
Context (fifo : bool) (alive : jid -> bool).

(** A submission: the job is initialised, its dependencies are added, it is armed and
    pushed under the client's lock. *)
Definition submit (e : eid) (j : jid) (cr : Z) (alloc : bool) (deps : list (fref * Z)) (ts : Z)
    (user : positive) : SM Z :=
  r <- drm_sched_job_init j e cr alloc ;;
  if negb (r =? 0) then st_ret r
  else
    r <- drm_sched_job_add_resv_dependencies j deps ;;
    if negb (r =? 0) then drm_sched_job_cleanup j ;;
      st_mod (fun w => set_jobs (delete j (jobs w)) w) ;; st_ret r
    else
      drm_sched_job_arm fifo j ;; drm_sched_entity_push_job fifo j ts user ;; st_ret 0.

(** The recovery of a driver: stop, submit the unfinished jobs again, start. *)
Definition recover (s : sid) (bad : option jid) (rs : list run_result) (errno : Z) : SM unit :=
  drm_sched_stop s bad ;;
  drm_sched_resubmit_jobs s rs ;;
  drm_sched_start alive s errno.

(** What a driver does when a job has timed out. *)
Definition timedout_job (s : sid) (rs : list run_result) (errno : Z) (j : jid) : SM bool :=
  drm_sched_increase_karma j ;; recover s (Some j) rs errno ;; st_ret false.

Inductive sop :=
  | OFence (n : positive) (context seqno : Z)
  | OEntity (e : eid) (prio : Z) (l : option (list sid)) (num : nat) (g : option positive) (context : Z)
  | OSubmit (e : eid) (j : jid) (cr : Z) (alloc : bool) (deps : list (fref * Z)) (ts : Z) (user : positive)
  | ORun (s : sid) (prep : list fref) (r : run_result)
  | OFree (s : sid)
  | OSignal (n : positive) (err : Z)
  | OKillWork
  | OFlush (e : eid) (timeo left : Z) (current : positive) (exiting sigkill : bool)
  | OFini (e : eid)
  | OPriority (e : eid) (p : Z)
  | OModify (e : eid) (l : option (list sid)) (num : nat)
  | ORecover (s : sid) (rs : list run_result) (errno : Z)
  | OTimedout (s : sid) (rs : list run_result) (errno : Z)
  | OPause (s : sid)
  | OResume (s : sid).

Definition run_sop (o : sop) : SM unit :=
  match o with
  | OFence n c q =>
      st_mod (fun w => set_fences (<[FExt n := mkFence c q 0 false [] false]> (fences w)) w)
  | OEntity e p l num g c => drm_sched_entity_init e p l num g c ;; st_ret tt
  | OSubmit e j cr alloc deps ts user => submit e j cr alloc deps ts user ;; st_ret tt
  | ORun s prep r => drm_sched_run_job_work fifo alive s prep r
  | OFree s => drm_sched_free_job_work s
  | OSignal n err => signal_ext alive n err
  | OKillWork =>
      w <- st_get ;;
      match kill_works w with
      | [] => st_ret tt
      | j :: l => st_mod (set_kill_works l) ;; drm_sched_entity_kill_jobs_work alive j
      end
  | OFlush e t l c x k => drm_sched_entity_flush fifo alive e t l c x k ;; st_ret tt
  | OFini e => drm_sched_entity_fini fifo alive e
  | OPriority e p => drm_sched_entity_set_priority e p
  | OModify e l num => drm_sched_entity_modify_sched e l num
  | ORecover s rs errno => recover s None rs errno
  | OTimedout s rs errno => drm_sched_job_timedout (timedout_job s rs errno) s
  | OPause s => drm_sched_wqueue_stop s
  | OResume s => drm_sched_wqueue_start s
  end.

(** When an operation may happen: new objects are new, a credit count is a u32, a work
    item runs when it is queued. *)
Definition sop_ok (w : world) (o : sop) : bool :=
  match o with
  | OFence n _ _ => bool_decide (fences w !! FExt n = None)
  | OEntity e _ _ _ _ _ => bool_decide (entities w !! e = None)
  | OSubmit e j cr _ _ _ _ =>
      bool_decide (jobs w !! j = None) && bool_decide (sfences w !! j = None) &&
      bool_decide (fences w !! FFin j = None) && bool_decide (fences w !! FSched j = None) &&
      (0 <=? cr) && (cr <? 2 ^ 32)
  | ORun s _ _ => match scheds w !! s with Some x => work_run_job x | None => false end
  | OFree s => match scheds w !! s with Some x => work_free_job x | None => false end
  | _ => true
  end.
End Ops.

(** Schedulers that have been initialised, and nothing else. *)
Definition booted (S : drm_gpu_scheduler) : Prop :=
  credit_count S = 0 /\ 0 <= credit_limit S < 2 ^ 32 /\ pending_list S = [] /\
  free_guilty S = false /\ Forall (fun R => R = mkRq [] [] None) (sched_rq S).
Record boot (w : world) : Prop := Boot {
  boot_fences : fences w = ∅;
  boot_sfences : sfences w = ∅;
  boot_jobs : jobs w = ∅;
  boot_entities : entities w = ∅;
  boot_kill : kill_works w = [];
  boot_scheds : forall s S, scheds w !! s = Some S -> booted S
}.

Inductive sreach (fifo : bool) : world -> Prop :=
  | sreach_boot w : boot w -> sreach fifo w
  | sreach_op w alive o w' :
      sreach fifo w -> sop_ok w o = true -> run_sop fifo alive o w = Some (tt, w') -> sreach fifo w'.

(** Executing a list of operations. *)
Fixpoint sexec (fifo : bool) (l : list sop) (w : world) : option world :=
  match l with
  | [] => Some w
  | o :: l' =>
      if sop_ok w o then
        match run_sop fifo (fun _ => true) o w with
        | Some (_, w') => sexec fifo l' w'
        | None => None
        end
      else None
  end.

Lemma sexec_reach fifo l w w' : sreach fifo w -> sexec fifo l w = Some w' -> sreach fifo w'.
Proof.
  revert w. induction l as [|o l IH]; intros w Hr; simpl; [by intros [= <-]|].
  destruct (sop_ok w o) eqn:Eo; [|done].
  destruct (run_sop fifo _ o w) as [[[] w1]|] eqn:E; [|done]. apply IH. by econstructor.
Qed.

(** One scheduler with the four run queues, as drm_sched_init leaves it. *)
Definition sched0 (limit : Z) : drm_gpu_scheduler :=
  mkSched limit 0 1000 (replicate 4 (mkRq [] [] None)) true 0 false false None [] 0 1 true false false.
Definition world0 (limit : Z) : world :=
  mkWorld ∅ ∅ ∅ ∅ ∅ {[1%positive := sched0 limit]} {[1%positive := 0]} ∅ [] [].

Lemma boot_world0 limit : 0 <= limit < 2 ^ 32 -> boot (world0 limit).
Proof.
  intros Hl. split; try done. intros s S Hs. simpl in Hs.
  apply lookup_singleton_Some in Hs as [<- <-]. split_and!; simpl; try done; try lia.
  by repeat constructor.
Qed.
