(* ===== verification/SchedInv.v ===== *)
(** * The GPU scheduler: the invariant of credits, queues and callbacks

    [cinv x w]: the credits a scheduler counts are those of the jobs whose completion
    callback waits on a hardware fence, at most its limit; a queued job belongs to the
    scheduler its entity is queued on; a callback on a fence is one that may run. [x] is
    a job between being counted and getting its callback.

    The invariant reads only some fields ([view]); computations that keep the view keep
    it ([respects same_view]), and a tactic walks through them. *)
From Stdlib Require Import ZArith Lia.
From stdpp Require Import base gmap list.
From S2P Require Import Prelude Sched SchedOps.
Local Open Scope Z_scope.
Local Open Scope st_scope.

(** ** What the invariant reads *)

Definition job_cb (c : fence_cb) : bool := match c with CbDone _ | CbKill _ => true | _ => false end.

Definition jv (J : drm_sched_job) := (cb_linked J, credits J, j_sched J, j_entity J).
Definition ev (E : drm_sched_entity) := (job_queue E, e_rq E, e_linked E, rb_linked E).
Definition rv (R : drm_sched_rq) := (rq_entities R, rb_tree_root R).
Definition sv (S : drm_gpu_scheduler) :=
  (credit_count S, credit_limit S, pending_list S, map rv (sched_rq S), free_guilty S).
Definition fv (F : dma_fence) := (f_signaled F, List.filter job_cb (f_cbs F)).

Definition same_view (w w' : world) : Prop :=
  jv <$> jobs w = jv <$> jobs w' /\ ev <$> entities w = ev <$> entities w' /\
  sv <$> scheds w = sv <$> scheds w' /\ fv <$> fences w = fv <$> fences w' /\
  sfences w = sfences w' /\ kill_works w = kill_works w'.

#[global] Instance same_view_preorder : PreOrder same_view.
Proof.
  split; [by intros w|]. intros w1 w2 w3 (?&?&?&?&?&?) (?&?&?&?&?&?).
  repeat split; etrans; eauto.
Qed.

Lemma fmap_insert_same {K} `{Countable K} {A B} (f : A -> B) (m : gmap K A) k x y :
  m !! k = Some x -> f y = f x -> f <$> m = f <$> <[k := y]> m.
Proof.
  intros Hk E. rewrite fmap_insert, E. symmetry. apply insert_id. by rewrite lookup_fmap, Hk.
Qed.

Section Leaves.
Lemma same_upd_fence f g : (forall F, fv (g F) = fv F) -> respects same_view (upd_fence f g).
Proof.
  intros H w u w'. unfold upd_fence, get_fence, st_bind, st_get, st_of_option, st_mod.
  destruct (fences w !! f) eqn:E; [|done]. intros [= _ <-]. repeat split; by eapply fmap_insert_same.
Qed.
Lemma same_upd_job j g : (forall J, jv (g J) = jv J) -> respects same_view (upd_job j g).
Proof.
  intros H w u w'. unfold upd_job, get_job, st_bind, st_get, st_of_option, st_mod.
  destruct (jobs w !! j) eqn:E; [|done]. intros [= _ <-]. repeat split; by eapply fmap_insert_same.
Qed.
Lemma same_upd_entity e g : (forall E, ev (g E) = ev E) -> respects same_view (upd_entity e g).
Proof.
  intros H w u w'. unfold upd_entity, get_entity, st_bind, st_get, st_of_option, st_mod.
  destruct (entities w !! e) eqn:E; [|done]. intros [= _ <-]. repeat split; by eapply fmap_insert_same.
Qed.
Lemma same_upd_sched s g : (forall S, sv (g S) = sv S) -> respects same_view (upd_sched s g).
Proof.
  intros H w u w'. unfold upd_sched, get_sched, st_bind, st_get, st_of_option, st_mod.
  destruct (scheds w !! s) eqn:E; [|done]. intros [= _ <-]. repeat split; by eapply fmap_insert_same.
Qed.
Lemma same_upd_rq q g : (forall R, rv (g R) = rv R) -> respects same_view (upd_rq q g).
Proof.
  intros H w u w'. unfold upd_rq, get_rq, upd_sched, get_sched, st_bind, st_get, st_of_option, st_mod,
    st_ret, st_bug.
  destruct (scheds w !! q.1) as [S|] eqn:E; [|done].
  destruct (sched_rq S !! q.2) as [R|] eqn:ER; [|done]. rewrite E. intros [= _ <-].
  repeat split. eapply fmap_insert_same; [done|]. unfold sv. simpl. do 2 f_equal.
  etrans; [apply (list_fmap_insert rv)|]. rewrite H. apply list_insert_id.
  by rewrite list_lookup_fmap, ER.
Qed.
Lemma same_refs f : respects same_view (st_mod (fun w => set_refs (f w) w)).
Proof. by apply respects_mod. Qed.
Lemma same_scores f : respects same_view (st_mod (fun w => set_scores (f w) w)).
Proof. by apply respects_mod. Qed.
Lemma same_guilties f : respects same_view (st_mod (fun w => set_guilties (f w) w)).
Proof. by apply respects_mod. Qed.
Lemma same_of_option {A} (o : option A) : respects same_view (st_of_option o).
Proof. destruct o; intros w x w'; unfold st_of_option, st_ret, st_bug; [by intros [= _ <-]|done]. Qed.
End Leaves.

(** ** Computations that keep the view *)

Lemma fv_add_cb c F : job_cb c = false -> fv (set_f_cbs (f_cbs F ++ [c]) F) = fv F.
Proof. intros H. unfold fv. simpl. rewrite List.filter_app. simpl. by rewrite H, app_nil_r. Qed.

Create HintDb sched.

Ltac same_leaf :=
  first
    [ assumption
    | apply same_of_option | apply same_refs | apply same_scores | apply same_guilties
    | apply same_upd_fence; intros; reflexivity
    | apply same_upd_fence; intros; apply fv_add_cb; reflexivity
    | apply same_upd_job; intros; reflexivity
    | apply same_upd_entity; intros; reflexivity
    | apply same_upd_sched; intros; reflexivity
    | apply same_upd_rq; intros; reflexivity
    | solve [auto with sched nocore] ].
Ltac same_step := frame_step ltac:(idtac; same_leaf).
Ltac same := repeat same_step.

Lemma same_run_job_queue s : respects same_view (drm_sched_run_job_queue s).
Proof. same. Qed.
Lemma same_run_free_queue_ s : respects same_view (__drm_sched_run_free_queue s).
Proof. same. Qed.
Lemma same_run_free_queue s : respects same_view (drm_sched_run_free_queue s).
Proof. same. Qed.
Lemma same_start_timeout s : respects same_view (drm_sched_start_timeout s).
Proof. same. Qed.
Lemma same_add_score s n : respects same_view (add_score s n).
Proof. same. Qed.
Lemma same_fence_get f : respects same_view (dma_fence_get f).
Proof. same. Qed.
Lemma same_fence_put f : respects same_view (dma_fence_put f).
Proof. same. Qed.
Lemma same_set_error f err : respects same_view (dma_fence_set_error f err).
Proof. same. Qed.
Lemma same_entity_wakeup f e : respects same_view (drm_sched_entity_wakeup f e).
Proof. same. Qed.
Lemma same_puts l : respects same_view (st_iter dma_fence_put l).
Proof. induction l as [|f l IH]; simpl; same. Qed.
#[export] Hint Resolve same_run_job_queue same_run_free_queue_ same_run_free_queue same_start_timeout
  same_add_score same_fence_get same_fence_put same_set_error same_entity_wakeup same_puts : sched.

Lemma same_add_dependency_cb e : respects same_view (drm_sched_entity_add_dependency_cb e).
Proof. same. Qed.
#[export] Hint Resolve same_add_dependency_cb : sched.
Lemma same_dependency_loop n e j prep : respects same_view (dependency_loop n e j prep).
Proof. revert prep. induction n as [|n IH]; intros prep; simpl; same. Qed.
Lemma same_add_dependency ret j f : respects same_view (drm_sched_job_add_dependency ret j f).
Proof. same. Qed.
Lemma same_add_resv j fs : respects same_view (drm_sched_job_add_resv_dependencies j fs).
Proof.
  induction fs as [|[f r] fs IH]; cbn [drm_sched_job_add_resv_dependencies]; [same|]. pose proof (same_add_dependency r j (Some f)). same.
Qed.
Lemma same_karma_rqs c rqs : respects same_view (karma_rqs c rqs).
Proof.
  assert (H : forall l, respects same_view (karma_loop c l)).
  { induction l as [|e l IH]; simpl; same. }
  induction rqs as [|R rqs IH]; simpl; same.
Qed.
#[export] Hint Resolve same_dependency_loop same_add_resv same_karma_rqs : sched.
Lemma same_increase_karma j : respects same_view (drm_sched_increase_karma j).
Proof. same. Qed.
Lemma same_pick_best l : respects same_view (drm_sched_pick_best l).
Proof.
  assert (H : forall w b m, respects same_view (pick_loop w l b m)).
  { induction l as [|s l IH]; intros w b m; simpl; same. }
  same.
Qed.
#[export] Hint Resolve same_increase_karma same_pick_best : sched.

(** ** The invariant *)

(** The finished fence of a job has not signaled. *)
Definition unfinished (w : world) (j : jid) : Prop :=
  forall F, fences w !! FFin j = Some F -> f_signaled F = false.
Definition queued (w : world) (j : jid) : Prop :=
  exists e E, entities w !! e = Some E /\ j ∈ job_queue E.
Definition is_pending (w : world) (j : jid) : Prop :=
  exists s S, scheds w !! s = Some S /\ j ∈ pending_list S.
Definition linked (w : world) (j : jid) : Prop :=
  exists J, jobs w !! j = Some J /\ cb_linked J = true.
(** A job that was armed, and one that was taken off its queue when its entity was
    killed. *)
Definition armed (w : world) (j : jid) : Prop :=
  exists SF s, sfences w !! j = Some SF /\ fence_sched SF = Some s.
Definition killed (w : world) (j : jid) : Prop :=
  ~ linked w j /\ ~ queued w j /\ ~ is_pending w j /\ armed w j.
(** The job was armed for scheduler [s]. *)
Definition armed_for (w : world) (j : jid) (J : drm_sched_job) (s : sid) : Prop :=
  j_sched J = Some s /\ exists SF, sfences w !! j = Some SF /\ fence_sched SF = Some s.

Definition done_job (c : fence_cb) : option jid := match c with CbDone j => Some j | _ => None end.

Record jinv (w : world) : Prop := JInv {
  (** a job whose callback is on a fence has left its queue and is not finished *)
  ji_linked j J : jobs w !! j = Some J -> cb_linked J = true ->
    j_entity J = None /\ unfinished w j /\ (exists s, armed_for w j J s) /\
    exists SF n, sfences w !! j = Some SF /\ parent SF = Some n;
  (** a queued job is armed for the scheduler its entity is on *)
  ji_queue e E j : entities w !! e = Some E -> j ∈ job_queue E ->
    exists J q, jobs w !! j = Some J /\ cb_linked J = false /\ j_entity J = Some e /\
      unfinished w j /\ e_rq E = Some q /\ armed_for w j J (fst q);
  ji_queue_nodup e E : entities w !! e = Some E -> NoDup (job_queue E);
  ji_pending s S j : scheds w !! s = Some S -> j ∈ pending_list S ->
    exists J, jobs w !! j = Some J /\ j_entity J = None /\ armed_for w j J s;
  ji_pending_nodup s S : scheds w !! s = Some S -> NoDup (pending_list S);
  (** callbacks *)
  ji_done f F j : fences w !! f = Some F -> CbDone j ∈ f_cbs F ->
    linked w j /\ exists n SF, f = FExt n /\ sfences w !! j = Some SF /\ parent SF = Some n;
  ji_done_nodup f F : fences w !! f = Some F -> NoDup (omap done_job (f_cbs F));
  ji_kill f F j : fences w !! f = Some F -> CbKill j ∈ f_cbs F -> killed w j;
  ji_kill_works j : j ∈ kill_works w -> killed w j;
  (** run queues *)
  ji_rq s S i R e : scheds w !! s = Some S -> sched_rq S !! i = Some R ->
    e ∈ rq_entities R \/ e ∈ rb_tree_root R ->
    exists E, entities w !! e = Some E /\ e_rq E = Some (s, i) /\ e_linked E = true /\
      (e ∈ rb_tree_root R -> rb_linked E = true)
}.

(** The credits of the jobs of [s] that are on the hardware. *)
Definition counted (x : option jid) (s : sid) (j : jid) (J : drm_sched_job) : Z :=
  if (cb_linked J || bool_decide (x = Some j)) && bool_decide (j_sched J = Some s)
  then credits J else 0.
Definition inflight (x : option jid) (w : world) (s : sid) : Z := msum (counted x s) (jobs w).

Record credit_ok (x : option jid) (w : world) : Prop := CreditOk {
  co_job j J : jobs w !! j = Some J -> 0 <= credits J;
  co_sched s S : scheds w !! s = Some S ->
    credit_count S = s32 (inflight x w s) /\ inflight x w s <= credit_limit S < 2 ^ 32
}.

Definition cinv (x : option jid) (w : world) : Prop := credit_ok x w /\ jinv w.

(** ** The invariant depends on the view only *)

Lemma fmap_lookup_l {K} `{Countable K} {A B} (f : A -> B) (m m' : gmap K A) k x :
  f <$> m = f <$> m' -> m !! k = Some x -> exists y, m' !! k = Some y /\ f y = f x.
Proof.
  intros E Hk. assert (H' : (f <$> m') !! k = Some (f x)) by (by rewrite <- E, lookup_fmap, Hk).
  rewrite lookup_fmap in H'. destruct (m' !! k) as [y|]; simplify_eq/=. eauto.
Qed.
Lemma fmap_lookup_r {K} `{Countable K} {A B} (f : A -> B) (m m' : gmap K A) k x :
  f <$> m = f <$> m' -> m' !! k = Some x -> exists y, m !! k = Some y /\ f y = f x.
Proof. intros E. by apply fmap_lookup_l. Qed.

Lemma msum_fmap {A B} (g : A -> B) (f : jid -> B -> Z) (m : gmap jid A) :
  msum f (g <$> m) = msum (fun k v => f k (g v)) m.
Proof.
  induction m as [|k v m Hk IH] using map_ind; [by rewrite fmap_empty, !msum_empty|].
  rewrite fmap_insert, !msum_insert, IH; [done|done|]. by rewrite lookup_fmap, Hk.
Qed.

Definition vcounted (x : option jid) (s : sid) (j : jid) (v : bool * Z * option sid * option eid) : Z :=
  let '(l, c, s', _) := v in
  if (l || bool_decide (x = Some j)) && bool_decide (s' = Some s) then c else 0.

Lemma inflight_view x w s : inflight x w s = msum (vcounted x s) (jv <$> jobs w).
Proof. unfold inflight. by rewrite msum_fmap. Qed.

Lemma credit_ok_view x w w' : same_view w w' -> credit_ok x w -> credit_ok x w'.
Proof.
  intros (Ej & _ & Es & _) [Hj Hs]. split.
  - intros j J' HJ'. destruct (fmap_lookup_r _ _ _ _ _ Ej HJ') as (J & HJ & E).
    injection E as _ Ec _ _. rewrite <- Ec. by eapply Hj.
  - intros s S' HS'. destruct (fmap_lookup_r _ _ _ _ _ Es HS') as (S & HS & E).
    injection E as E1 E2 _ _ _. rewrite !inflight_view, <- Ej, <- !inflight_view, <- E1, <- E2.
    by apply Hs.
Qed.

(** What [jinv] reads: not the credits and their counts. *)
Definition jvj (J : drm_sched_job) := (cb_linked J, j_sched J, j_entity J).
Definition svj (S : drm_gpu_scheduler) := (pending_list S, map rv (sched_rq S)).
Record same_j (w w' : world) : Prop := SameJ {
  sj_jobs : jvj <$> jobs w = jvj <$> jobs w';
  sj_entities : ev <$> entities w = ev <$> entities w';
  sj_scheds : svj <$> scheds w = svj <$> scheds w';
  sj_fences : fv <$> fences w = fv <$> fences w';
  sj_sfences : sfences w = sfences w';
  sj_kill : kill_works w = kill_works w'
}.

(** Equal views give equal coarser views. *)
Lemma fmap_coarser {A B C} (f : A -> B) (g : B -> C) (m m' : gmap positive A) :
  f <$> m = f <$> m' -> (fun x => g (f x)) <$> m = (fun x => g (f x)) <$> m'.
Proof.
  intros E. change (fun x => g (f x)) with (g ∘ f). by rewrite !map_fmap_compose, E.
Qed.

Lemma same_view_j w w' : same_view w w' -> same_j w w'.
Proof.
  intros (Ej & Ee & Es & Ef & Esf & Ek). split; try done.
  - apply (fmap_coarser jv (fun '(l, _, s, e) => (l, s, e)) _ _ Ej).
  - apply (fmap_coarser sv (fun '(_, _, p, r, _) => (p, r)) _ _ Es).
Qed.

Lemma fv_elem F F' c : fv F = fv F' -> job_cb c = true -> c ∈ f_cbs F -> c ∈ f_cbs F'.
Proof.
  intros E Hc Hin. injection E as _ E.
  assert (H : List.In c (List.filter job_cb (f_cbs F))).
  { apply filter_In. split; [by apply list_elem_of_In|done]. }
  rewrite E in H. apply filter_In in H as [H _]. by apply list_elem_of_In.
Qed.
Lemma fv_dones F F' : fv F = fv F' -> omap done_job (f_cbs F) = omap done_job (f_cbs F').
Proof.
  assert (H : forall l, omap done_job l = omap done_job (List.filter job_cb l)).
  { induction l as [|[] l IH]; csimpl; by rewrite ?IH. }
  intros E. injection E as _ E. by rewrite H, E, <- H.
Qed.

Section Transfer.
Context {w w' : world} (HS : same_j w w').

Lemma tr_job j J' : jobs w' !! j = Some J' ->
  exists J, jobs w !! j = Some J /\ jvj J = jvj J'.
Proof using HS. apply (fmap_lookup_r _ _ _ _ _ (sj_jobs _ _ HS)). Qed.
Lemma tr_job_r j J : jobs w !! j = Some J -> exists J', jobs w' !! j = Some J' /\ jvj J' = jvj J.
Proof using HS. apply (fmap_lookup_l _ _ _ _ _ (sj_jobs _ _ HS)). Qed.
Lemma tr_entity e E' : entities w' !! e = Some E' ->
  exists E, entities w !! e = Some E /\ ev E = ev E'.
Proof using HS. apply (fmap_lookup_r _ _ _ _ _ (sj_entities _ _ HS)). Qed.
Lemma tr_sched s S' : scheds w' !! s = Some S' ->
  exists S, scheds w !! s = Some S /\ svj S = svj S'.
Proof using HS. apply (fmap_lookup_r _ _ _ _ _ (sj_scheds _ _ HS)). Qed.
Lemma tr_fence f F' : fences w' !! f = Some F' ->
  exists F, fences w !! f = Some F /\ fv F = fv F'.
Proof using HS. apply (fmap_lookup_r _ _ _ _ _ (sj_fences _ _ HS)). Qed.

Lemma tr_unfinished j : unfinished w j -> unfinished w' j.
Proof using HS.
  intros H F' HF'. destruct (tr_fence _ _ HF') as (F & HF & E). injection E as <- _. by apply H.
Qed.
Lemma tr_armed j J J' s : jvj J = jvj J' -> armed_for w j J s -> armed_for w' j J' s.
Proof using HS.
  intros E (H1 & H2). injection E as _ E _. split; [by rewrite <- E|]. by rewrite <- (sj_sfences _ _ HS).
Qed.
Lemma tr_linked j : linked w j -> linked w' j.
Proof using HS.
  intros (J & HJ & Hl). destruct (tr_job_r _ _ HJ) as (J' & HJ' & E). exists J'.
  injection E as E _ _. split; [done|congruence].
Qed.
Lemma tr_killed j : killed w j -> killed w' j.
Proof using HS.
  intros (Hl & Hq & Hp & Ha). split_and!.
  - intros (J' & HJ' & Hl'). destruct (tr_job _ _ HJ') as (J & HJ & E). apply Hl. exists J.
    injection E as E _ _. split; [done|congruence].
  - intros (e & E' & HE' & Hj). destruct (tr_entity _ _ HE') as (E & HE & Ev). apply Hq.
    exists e, E. injection Ev as Ev _ _ _. split; [done|congruence].
  - intros (s & S' & HS' & Hj). destruct (tr_sched _ _ HS') as (S & HSs & Ev). apply Hp.
    exists s, S. injection Ev as Ev _. split; [done|congruence].
  - unfold armed. by rewrite <- (sj_sfences _ _ HS).
Qed.

Lemma tr_rq S S' i R' : svj S = svj S' -> sched_rq S' !! i = Some R' ->
  exists R, sched_rq S !! i = Some R /\ rv R = rv R'.
Proof using Type.
  intros E HR. injection E as _ E.
  assert (H : map rv (sched_rq S') !! i = Some (rv R')) by (by rewrite list_lookup_fmap, HR).
  rewrite <- E, list_lookup_fmap in H. destruct (sched_rq S !! i) as [R|]; [|done].
  exists R. split; [done|]. simpl in H. congruence.
Qed.

Lemma jinv_view : jinv w -> jinv w'.
Proof using HS.
  intros HI. split.
  - intros j J' HJ' Hl. destruct (tr_job _ _ HJ') as (J & HJ & E). pose proof E as E0.
    injection E as E1 _ E3. destruct (ji_linked _ HI j J HJ) as (H1 & H2 & (s & H3) & H4);
      [congruence|]. rewrite <- (sj_sfences _ _ HS). split_and!; [congruence|by apply tr_unfinished| |done].
    exists s. by eapply tr_armed.
  - intros e E' j HE' Hj. destruct (tr_entity _ _ HE') as (E & HE & Ev). injection Ev as E1 E2 _ _.
    rewrite <- E1 in Hj. destruct (ji_queue _ HI e E j HE Hj) as (J & q & HJ & H1 & H2 & H3 & H4 & H5).
    destruct (tr_job_r _ _ HJ) as (J' & HJ' & Ej). exists J', q. pose proof Ej as Ej0.
    injection Ej as F1 F2 F3. split_and!; try congruence; [by apply tr_unfinished|]. by eapply tr_armed.
  - intros e E' HE'. destruct (tr_entity _ _ HE') as (E & HE & Ev). injection Ev as <- _ _ _.
    by eapply (ji_queue_nodup _ HI).
  - intros s S' j HS' Hj. destruct (tr_sched _ _ HS') as (S & HSs & Ev). injection Ev as E1 _.
    rewrite <- E1 in Hj. destruct (ji_pending _ HI s S j HSs Hj) as (J & HJ & H1 & H2).
    destruct (tr_job_r _ _ HJ) as (J' & HJ' & Ej). exists J'. pose proof Ej as Ej0.
    injection Ej as F1 F2 F3. split_and!; try congruence. by eapply tr_armed.
  - intros s S' HS'. destruct (tr_sched _ _ HS') as (S & HSs & Ev). injection Ev as <- _.
    by eapply (ji_pending_nodup _ HI).
  - intros f F' j HF' Hc. destruct (tr_fence _ _ HF') as (F & HF & E).
    rewrite <- (sj_sfences _ _ HS).
    destruct (ji_done _ HI f F j HF) as [H1 H2]; [by eapply fv_elem|]. split; [by apply tr_linked|done].
  - intros f F' HF'. destruct (tr_fence _ _ HF') as (F & HF & E).
    rewrite <- (fv_dones _ _ E). by eapply (ji_done_nodup _ HI).
  - intros f F' j HF' Hc. destruct (tr_fence _ _ HF') as (F & HF & E).
    apply tr_killed, (ji_kill _ HI f F); [done|by eapply fv_elem].
  - intros j Hj. rewrite <- (sj_kill _ _ HS) in Hj. by apply tr_killed, (ji_kill_works _ HI).
  - intros s S' i R' e HS' HR' He. destruct (tr_sched _ _ HS') as (S & HSs & Ev).
    destruct (tr_rq _ _ _ _ Ev HR') as (R & HR & Er). injection Er as Er1 Er2.
    rewrite <- Er1, <- Er2 in *.
    destruct (ji_rq _ HI s S i R e HSs HR He) as (E & HE & H1 & H2 & H3).
    destruct (fmap_lookup_l _ _ _ _ _ (sj_entities _ _ HS) HE) as (E' & HE' & Ee).
    injection Ee as F1 F2 F3 F4. exists E'. rewrite F2, F3, F4. done.
Qed.
End Transfer.

Lemma cinv_view x w w' : same_view w w' -> cinv x w -> cinv x w'.
Proof.
  intros H [Hc Hj]. split; [by eapply credit_ok_view|]. apply (jinv_view (same_view_j _ _ H) Hj).
Qed.
