(* ===== verification/SchedStep.v ===== *)
(** * The GPU scheduler: elementary changes of the invariant

    What each change of a fence, a job, an entity or a scheduler needs to keep [cinv],
    and the computations that make up the workers: signalling a fence, completing,
    killing and freeing a job. *)
From Stdlib Require Import ZArith Lia.
From stdpp Require Import base gmap list.
From S2P Require Import Prelude Sched SchedOps SchedInv.
Local Open Scope Z_scope.
Local Open Scope st_scope.

(** ** Fences *)

(** A callback that may be on fence [f]. *)
Definition cb_ok (w : world) (f : fref) (c : fence_cb) : Prop :=
  match c with
  | CbDone j => linked w j /\ exists n SF, f = FExt n /\ sfences w !! j = Some SF /\ parent SF = Some n
  | CbKill j => killed w j
  | _ => True
  end.

Lemma jinv_fence w f F' :
  jinv w ->
  (f_signaled F' = true ->
     (exists F, fences w !! f = Some F /\ f_signaled F = true) \/
     forall j, f = FFin j -> ~ linked w j /\ ~ queued w j) ->
  (forall c, c ∈ f_cbs F' -> (exists F, fences w !! f = Some F /\ c ∈ f_cbs F) \/ cb_ok w f c) ->
  NoDup (omap done_job (f_cbs F')) ->
  jinv (set_fences (<[f := F']> (fences w)) w).
Proof.
  intros HI Hs Hc Hn.
  assert (Hu : forall j, unfinished w j -> (linked w j \/ queued w j) ->
    unfinished (set_fences (<[f := F']> (fences w)) w) j).
  { intros j Hu Hq F. simpl. rewrite lookup_insert_Some. intros [[-> <-]|[_ HF]]; [|by apply Hu].
    destruct (f_signaled F') eqn:E; [|done]. destruct (Hs eq_refl) as [(F & HF & Es)|Hf].
    - rewrite <- Es. by apply Hu.
    - destruct (Hf j eq_refl). tauto. }
  split; simpl; try apply HI.
  - intros j J HJ Hl. destruct (ji_linked _ HI j J HJ Hl) as (? & ? & ? & ?).
    split_and!; try done. apply Hu; [done|]. left. by exists J.
  - intros e E j HE Hj. destruct (ji_queue _ HI e E j HE Hj) as (J & q & ? & ? & ? & ? & ?).
    exists J, q. split_and!; try tauto. apply Hu; [done|]. right. by exists e, E.
  - intros f0 F0 j. rewrite lookup_insert_Some. intros [[<- <-]|[_ HF]] Hin; [|by eapply (ji_done _ HI)].
    destruct (Hc _ Hin) as [(F & HF & Hin')|Hok]; [by eapply (ji_done _ HI)|done].
  - intros f0 F0. rewrite lookup_insert_Some. intros [[<- <-]|[_ HF]]; [done|by eapply (ji_done_nodup _ HI)].
  - intros f0 F0 j. rewrite lookup_insert_Some. intros [[<- <-]|[_ HF]] Hin; [|by eapply (ji_kill _ HI)].
    destruct (Hc _ Hin) as [(F & HF & Hin')|Hok]; [by eapply (ji_kill _ HI)|done].
Qed.

Lemma cinv_fence x w f F' :
  cinv x w ->
  (f_signaled F' = true ->
     (exists F, fences w !! f = Some F /\ f_signaled F = true) \/
     forall j, f = FFin j -> ~ linked w j /\ ~ queued w j) ->
  (forall c, c ∈ f_cbs F' -> (exists F, fences w !! f = Some F /\ c ∈ f_cbs F) \/ cb_ok w f c) ->
  NoDup (omap done_job (f_cbs F')) ->
  cinv x (set_fences (<[f := F']> (fences w)) w).
Proof. intros [[H1 H2] HI] Hs Hc Hn. split; [by split|by apply jinv_fence]. Qed.

Lemma cinv_kill_work x w j : cinv x w -> killed w j -> cinv x (set_kill_works (kill_works w ++ [j]) w).
Proof.
  intros [[H1 H2] HI] Hk. split; [by split|]. split; try apply HI. simpl.
  intros k [Hk'|Hk']%elem_of_app; [by apply (ji_kill_works _ HI)|]. set_solver.
Qed.

(** ** What signalling a fence of the scheduler leaves alone *)

(** Jobs, entities and schedulers, as far as the invariant reads them, but for the credits
    counted. *)
Definition svc (S : drm_gpu_scheduler) :=
  (credit_limit S, pending_list S, map rv (sched_rq S), free_guilty S).
Definition same_core (w w' : world) : Prop :=
  jv <$> jobs w = jv <$> jobs w' /\ ev <$> entities w = ev <$> entities w' /\
  svc <$> scheds w = svc <$> scheds w' /\ sfences w = sfences w'.

#[global] Instance same_core_preorder : PreOrder same_core.
Proof.
  split; [by intros w|]. intros w1 w2 w3 (?&?&?&?) (?&?&?&?). repeat split; etrans; eauto.
Qed.

Lemma same_view_core w w' : same_view w w' -> same_core w w'.
Proof.
  intros (?&?&Es&_&?&_). split_and!; try done.
  apply (fmap_coarser sv (fun '(_, l, p, r, g) => (l, p, r, g)) _ _ Es).
Qed.
Lemma respects_core {A} (m : SM A) : respects same_view m -> respects same_core m.
Proof. intros H w a w' E. by eapply same_view_core, H. Qed.

Lemma core_upd_fence f g : respects same_core (upd_fence f g).
Proof.
  intros w u w'. unfold upd_fence, get_fence, st_bind, st_get, st_of_option, st_mod.
  destruct (fences w !! f) eqn:E; [|done]. by intros [= _ <-].
Qed.
Lemma core_credit s g : (forall S, svc (g S) = svc S) -> respects same_core (upd_sched s g).
Proof.
  intros H w u w'. unfold upd_sched, get_sched, st_bind, st_get, st_of_option, st_mod.
  destruct (scheds w !! s) eqn:E; [|done]. intros [= _ <-]. repeat split; by eapply fmap_insert_same.
Qed.
Lemma core_kill_works f : respects same_core (st_mod (fun w => set_kill_works (f w) w)).
Proof. by apply respects_mod. Qed.

Ltac core_leaf :=
  first [ assumption | apply core_upd_fence | apply core_kill_works
        | apply core_credit; intros; reflexivity
        | apply respects_core; same_leaf | solve [auto with schedcore nocore] ].
Create HintDb schedcore.
Ltac core := repeat frame_step ltac:(idtac; core_leaf).

Section Signals.
Context (alive : jid -> bool).

Lemma core_kill_deps j i l : respects same_core (kill_deps_loop alive j i l).
Proof. revert i. induction l as [|[f|] l IH]; intros i; simpl; core; auto. Qed.
Hint Resolve core_kill_deps : schedcore.
Lemma core_signal_own f : respects same_core (dma_fence_signal_own alive f).
Proof.
  assert (H : forall g l, respects same_core (st_iter (run_own_cb alive g) l)).
  { intros g l. induction l as [|c l IH]; simpl; core. }
  core.
Qed.
Hint Resolve core_signal_own : schedcore.
End Signals.
#[export] Hint Resolve core_kill_deps core_signal_own : schedcore.

Section Core.
Context {w w' : world} (HS : same_core w w').
Lemma core_linked j : linked w' j <-> linked w j.
Proof using HS.
  destruct HS as (Ej & _). split; intros (J & HJ & Hl).
  - destruct (fmap_lookup_r _ _ _ _ _ Ej HJ) as (J' & ? & E). injection E as E _ _ _.
    exists J'. split; [done|congruence].
  - destruct (fmap_lookup_l _ _ _ _ _ Ej HJ) as (J' & ? & E). injection E as E _ _ _.
    exists J'. split; [done|congruence].
Qed.
Lemma core_queued j : queued w' j <-> queued w j.
Proof using HS.
  destruct HS as (_ & Ee & _). split; intros (e & E & HE & Hq).
  - destruct (fmap_lookup_r _ _ _ _ _ Ee HE) as (E' & ? & Ev). injection Ev as Ev _ _ _.
    exists e, E'. split; [done|congruence].
  - destruct (fmap_lookup_l _ _ _ _ _ Ee HE) as (E' & ? & Ev). injection Ev as Ev _ _ _.
    exists e, E'. split; [done|congruence].
Qed.
Lemma core_pending j : is_pending w' j <-> is_pending w j.
Proof using HS.
  destruct HS as (_ & _ & Es & _). split; intros (s & S & HSs & Hq).
  - destruct (fmap_lookup_r _ _ _ _ _ Es HSs) as (S' & ? & Ev). injection Ev as _ Ev _ _.
    exists s, S'. split; [done|congruence].
  - destruct (fmap_lookup_l _ _ _ _ _ Es HSs) as (S' & ? & Ev). injection Ev as _ Ev _ _.
    exists s, S'. split; [done|congruence].
Qed.
Lemma core_killed j : killed w' j <-> killed w j.
Proof using HS.
  unfold killed, armed. rewrite core_linked, core_queued, core_pending. by destruct HS as (_ & _ & _ & <-).
Qed.
Lemma core_cb_ok f c : cb_ok w f c -> cb_ok w' f c.
Proof using HS.
  destruct c; simpl; try done; [|by rewrite core_killed]. rewrite core_linked.
  by destruct HS as (_ & _ & _ & <-).
Qed.
End Core.

(** ** Symbolic execution with frames *)

Lemma wlp_frame {A} (R : world -> world -> Prop) (m : SM A) (Q : A -> world -> Prop) w :
  respects R m -> (forall a w', R w w' -> Q a w') -> wlp m Q w.
Proof. intros Hm HQ a w' E. apply HQ. by eapply Hm. Qed.

Lemma wlp_frame_bind {A B} (R : world -> world -> Prop) (m : SM A) (k : A -> SM B) Q w :
  respects R m -> (forall a w', R w w' -> wlp (k a) Q w') -> wlp (st_bind m k) Q w.
Proof. intros Hm Hk. apply wlp_bind. by eapply wlp_frame. Qed.

Lemma wlp_keep {A} x (m : SM A) w :
  respects same_view m -> cinv x w -> wlp m (fun _ => cinv x) w.
Proof. intros Hm Hc. eapply wlp_frame; [done|]. intros _ w' H. by eapply cinv_view. Qed.

Lemma wlp_get_fence f Q w :
  (forall F, fences w !! f = Some F -> Q F w) -> wlp (get_fence f) Q w.
Proof.
  intros H a w'. unfold get_fence, st_bind, st_get, st_of_option, st_ret, st_bug.
  destruct (fences w !! f) eqn:E; [|done]. intros [= <- <-]. by apply H.
Qed.
Lemma wlp_get_job j Q w : (forall J, jobs w !! j = Some J -> Q J w) -> wlp (get_job j) Q w.
Proof.
  intros H a w'. unfold get_job, st_bind, st_get, st_of_option, st_ret, st_bug.
  destruct (jobs w !! j) eqn:E; [|done]. intros [= <- <-]. by apply H.
Qed.
Lemma wlp_get_sfence j Q w : (forall J, sfences w !! j = Some J -> Q J w) -> wlp (get_sfence j) Q w.
Proof.
  intros H a w'. unfold get_sfence, st_bind, st_get, st_of_option, st_ret, st_bug.
  destruct (sfences w !! j) eqn:E; [|done]. intros [= <- <-]. by apply H.
Qed.
Lemma wlp_get_entity e Q w : (forall E, entities w !! e = Some E -> Q E w) -> wlp (get_entity e) Q w.
Proof.
  intros H a w'. unfold get_entity, st_bind, st_get, st_of_option, st_ret, st_bug.
  destruct (entities w !! e) eqn:E; [|done]. intros [= <- <-]. by apply H.
Qed.
Lemma wlp_get_sched s Q w : (forall S, scheds w !! s = Some S -> Q S w) -> wlp (get_sched s) Q w.
Proof.
  intros H a w'. unfold get_sched, st_bind, st_get, st_of_option, st_ret, st_bug.
  destruct (scheds w !! s) eqn:E; [|done]. intros [= <- <-]. by apply H.
Qed.
Lemma wlp_of_option {A} (o : option A) (Q : A -> world -> Prop) w :
  (forall a, o = Some a -> Q a w) -> wlp (st_of_option o) Q w.
Proof.
  intros H a w'. unfold st_of_option, st_ret, st_bug. destruct o; [|done]. intros [= <- <-]. by apply H.
Qed.
Lemma wlp_upd_fence f g (Q : unit -> world -> Prop) w :
  (forall F, fences w !! f = Some F -> Q tt (set_fences (<[f := g F]> (fences w)) w)) ->
  wlp (upd_fence f g) Q w.
Proof. intros H. apply wlp_bind, wlp_get_fence. intros F HF. apply wlp_wp, wp_mod. auto. Qed.
Lemma wlp_upd_job j g (Q : unit -> world -> Prop) w :
  (forall J, jobs w !! j = Some J -> Q tt (set_jobs (<[j := g J]> (jobs w)) w)) ->
  wlp (upd_job j g) Q w.
Proof. intros H. apply wlp_bind, wlp_get_job. intros F HF. apply wlp_wp, wp_mod. auto. Qed.
Lemma wlp_upd_sfence j g (Q : unit -> world -> Prop) w :
  (forall J, sfences w !! j = Some J -> Q tt (set_sfences (<[j := g J]> (sfences w)) w)) ->
  wlp (upd_sfence j g) Q w.
Proof. intros H. apply wlp_bind, wlp_get_sfence. intros F HF. apply wlp_wp, wp_mod. auto. Qed.
Lemma wlp_upd_entity e g (Q : unit -> world -> Prop) w :
  (forall E, entities w !! e = Some E -> Q tt (set_entities (<[e := g E]> (entities w)) w)) ->
  wlp (upd_entity e g) Q w.
Proof. intros H. apply wlp_bind, wlp_get_entity. intros F HF. apply wlp_wp, wp_mod. auto. Qed.
Lemma wlp_upd_sched s g (Q : unit -> world -> Prop) w :
  (forall S, scheds w !! s = Some S -> Q tt (set_scheds (<[s := g S]> (scheds w)) w)) ->
  wlp (upd_sched s g) Q w.
Proof. intros H. apply wlp_bind, wlp_get_sched. intros F HF. apply wlp_wp, wp_mod. auto. Qed.
Lemma wlp_upd_rq q g (Q : unit -> world -> Prop) w :
  (forall S R, scheds w !! fst q = Some S -> sched_rq S !! snd q = Some R ->
     Q tt (set_scheds (<[fst q := set_sched_rq (<[snd q := g R]> (sched_rq S)) S]> (scheds w)) w)) ->
  wlp (upd_rq q g) Q w.
Proof.
  intros H. apply wlp_bind, wlp_bind, wlp_get_sched. intros S HS. apply wlp_of_option. intros R HR.
  apply wlp_upd_sched. intros S' HS'. simplify_eq. by apply H.
Qed.

Ltac wstep :=
  lazymatch goal with
  | |- wlp (st_bind _ _) _ _ => apply wlp_bind
  | |- wlp (st_ret _) _ _ => apply wlp_wp, wp_ret
  | |- wlp st_get _ _ => apply wlp_wp, wp_get
  | |- wlp (st_mod _) _ _ => apply wlp_wp, wp_mod
  | |- wlp st_bug _ _ => intros ? ? [=]
  | |- wlp (BUG_ON ?c) _ _ => destruct c eqn:?; cbn [BUG_ON]
  | |- wlp (get_fence _) _ _ => apply wlp_get_fence; intros ? ?
  | |- wlp (get_job _) _ _ => apply wlp_get_job; intros ? ?
  | |- wlp (get_sfence _) _ _ => apply wlp_get_sfence; intros ? ?
  | |- wlp (get_entity _) _ _ => apply wlp_get_entity; intros ? ?
  | |- wlp (get_sched _) _ _ => apply wlp_get_sched; intros ? ?
  | |- wlp (st_of_option _) _ _ => apply wlp_of_option; intros ? ?
  | |- wlp (upd_fence _ _) _ _ => apply wlp_upd_fence; intros ? ?
  | |- wlp (upd_job _ _) _ _ => apply wlp_upd_job; intros ? ?
  | |- wlp (upd_sfence _ _) _ _ => apply wlp_upd_sfence; intros ? ?
  | |- wlp (upd_entity _ _) _ _ => apply wlp_upd_entity; intros ? ?
  | |- wlp (upd_sched _ _) _ _ => apply wlp_upd_sched; intros ? ?
  | |- wlp (upd_rq _ _) _ _ => apply wlp_upd_rq; intros ? ? ? ?
  end; cbv beta.

Lemma wlp_true {A} (m : SM A) (Q : A -> world -> Prop) w : (forall a w', Q a w') -> wlp m Q w.
Proof. intros H a w' _. apply H. Qed.

(** ** Signalling a fence of the scheduler *)

Section Signal.
Context (alive : jid -> bool).

Lemma omap_done_kill l j : omap done_job (l ++ [CbKill j]) = omap done_job l.
Proof. rewrite omap_app. csimpl. by rewrite app_nil_r. Qed.

Lemma cinv_add_kill x w g j :
  cinv x w -> killed w j -> wlp (dma_fence_add_callback g (CbKill j)) (fun _ => cinv x) w.
Proof.
  intros Hc Hk. unfold dma_fence_add_callback. do 2 wstep. destruct (f_signaled F) eqn:Es; [by wstep|].
  do 2 wstep. do 3 wstep. apply cinv_fence; [done|..]; simplify_eq/=.
  - intros ?. congruence.
  - intros c [Hin|Hin]%elem_of_app; [left; eauto|right]. by apply list_elem_of_singleton in Hin as ->.
  - rewrite omap_done_kill. eapply (ji_done_nodup _ (proj2 Hc)); eauto.
Qed.

Lemma cinv_kill_deps x w j i l :
  cinv x w -> killed w j ->
  wlp (kill_deps_loop alive j i l) (fun _ w' => cinv x w' /\ killed w' j) w.
Proof.
  revert w i. induction l as [|[f|] l IH]; intros w i Hc Hk; simpl; [by wstep|..]; [|by apply IH].
  apply (wlp_frame_bind same_view); [same|]. intros f' w1 H1.
  apply (wlp_frame_bind same_view); [same|]. intros _ w2 H2.
  pose proof (transitivity H1 H2) as H12. clear H1 H2.
  assert (Hc2 : cinv x w2) by (by eapply cinv_view).
  assert (Hk2 : killed w2 j) by (by rewrite (core_killed (same_view_core _ _ H12))).
  destruct f' as [g|].
  - wstep. intros r w3 E3.
    assert (Hk3 : killed w3 j).
    { rewrite (core_killed (w := w2)); [done|]. assert (respects same_core (dma_fence_add_callback g (CbKill j))) as Hr by core.
      by eapply Hr. }
    pose proof (cinv_add_kill _ _ g j Hc2 Hk2 _ _ E3) as Hc3. cbv beta in Hc3.
    case_match; [by wstep|]. apply (wlp_frame_bind same_view); [same|]. intros _ w4 H4.
    apply IH; [by eapply cinv_view|]. by rewrite (core_killed (same_view_core _ _ H4)).
  - apply (wlp_frame_bind same_view); [same|]. intros _ w4 H4.
    apply IH; [by eapply cinv_view|]. by rewrite (core_killed (same_view_core _ _ H4)).
Qed.

Lemma cinv_kill_jobs_cb x w f j :
  cinv x w -> killed w j -> wlp (drm_sched_entity_kill_jobs_cb alive f j) (fun _ => cinv x) w.
Proof.
  intros Hc Hk. unfold drm_sched_entity_kill_jobs_cb.
  apply (wlp_frame_bind same_view); [same|]. intros _ w1 H1.
  assert (Hc1 : cinv x w1) by (by eapply cinv_view).
  assert (Hk1 : killed w1 j) by (by rewrite (core_killed (same_view_core _ _ H1))).
  do 2 wstep. wstep. eapply wlp_mono; [by apply cinv_kill_deps|]. intros b w2 [Hc2 Hk2]. cbv beta.
  destruct b; wstep; [done|]. by apply cinv_kill_work.
Qed.

Lemma cinv_own_cbs x f l w :
  cinv x w -> (forall c, c ∈ l -> cb_ok w f c) ->
  wlp (st_iter (run_own_cb alive f) l) (fun _ => cinv x) w.
Proof.
  revert w. induction l as [|c l IH]; intros w Hc Hl; simpl; [by wstep|].
  wstep. intros u w1 E1. apply IH.
  - destruct c; simpl in E1; [done|..].
    + eapply wlp_keep in E1; [exact E1|same|done].
    + eapply wlp_keep in E1; [exact E1|same|done].
    + eapply cinv_kill_jobs_cb in E1; [exact E1|done|]. apply (Hl (CbKill j)). set_solver.
  - intros c' Hc'. eapply core_cb_ok; [|apply Hl; set_solver].
    assert (respects same_core (run_own_cb alive f c)) as Hr by core. by eapply Hr.
Qed.

(** Signalling: the finished fence of a job only when the job is neither queued nor on
    the hardware. *)
Lemma cinv_signal_own x f w :
  cinv x w -> (forall j, f = FFin j -> ~ linked w j /\ ~ queued w j) ->
  wlp (dma_fence_signal_own alive f) (fun _ => cinv x) w.
Proof.
  intros Hc Hf. unfold dma_fence_signal_own, dma_fence_signal_with. do 2 wstep.
  destruct (f_signaled F) eqn:Es; [by wstep|]. do 2 wstep. simplify_eq. apply cinv_own_cbs.
  - apply cinv_fence; simpl; [done|by right|intros c Hin; set_solver|constructor].
  - intros c Hin. assert (Hok : cb_ok w f c).
    { destruct c; simpl; [by eapply (ji_done _ (proj2 Hc))|done|done|by eapply (ji_kill _ (proj2 Hc))]. }
    eapply core_cb_ok; [|exact Hok]. by repeat split.
Qed.

(** Other fences keep their state, and no fence gets the callback of a job. *)
Definition own_step (f : fref) (w w' : world) : Prop :=
  (forall g, g <> f -> f_signaled <$> fences w !! g = f_signaled <$> fences w' !! g) /\
  (forall g G' j, fences w' !! g = Some G' -> CbDone j ∈ f_cbs G' ->
     exists G, fences w !! g = Some G /\ CbDone j ∈ f_cbs G).

#[export] Instance own_step_preorder f : PreOrder (own_step f).
Proof.
  split; [split; eauto|]. intros w1 w2 w3 [H1 D1] [H2 D2]. split.
  - intros g Hg. by rewrite H1, H2.
  - intros g G j HG Hj. destruct (D2 g G j HG Hj) as (G2 & HG2 & Hj2). by apply (D1 g G2 j).
Qed.

Lemma same_view_own f w w' : same_view w w' -> own_step f w w'.
Proof.
  intros (_ & _ & _ & Ef & _). split.
  - intros g _. pose proof (f_equal (fun m => m !! g) Ef) as E. cbv beta in E.
    rewrite !lookup_fmap in E. destruct (fences w !! g), (fences w' !! g); simplify_eq/=; congruence.
  - intros g G' j HG Hj. destruct (fmap_lookup_r _ _ _ _ _ Ef HG) as (G & HG0 & E). exists G.
    split; [done|]. by eapply fv_elem.
Qed.
Lemma respects_own {A} f (m : SM A) : respects same_view m -> respects (own_step f) m.
Proof. intros H w a w' E. by eapply same_view_own, H. Qed.
Lemma own_upd_fence f g h :
  (g = f \/ forall F, f_signaled (h F) = f_signaled F) ->
  (forall F j, CbDone j ∈ f_cbs (h F) -> CbDone j ∈ f_cbs F) ->
  respects (own_step f) (upd_fence g h).
Proof.
  intros H Hd w u w'. unfold upd_fence, get_fence, st_bind, st_get, st_of_option, st_mod.
  destruct (fences w !! g) eqn:E; [|done]. intros [= _ <-]. split.
  - intros k Hk. simpl. destruct (decide (g = k)) as [->|]; [|by rewrite lookup_insert_ne].
    rewrite lookup_insert_eq, E. simpl. destruct H as [->|H]; [done|by rewrite H].
  - intros k G' j. simpl. rewrite lookup_insert_Some. intros [[<- <-]|[_ HG]] Hj; eauto.
Qed.
Lemma own_kill_works f h : respects (own_step f) (st_mod (fun w => set_kill_works (h w) w)).
Proof. apply respects_mod. split; eauto. Qed.

Local Ltac own := repeat frame_step ltac:(idtac; first
  [ assumption
  | apply own_upd_fence; [(left; reflexivity) || (right; intros; reflexivity)|simpl; set_solver]
  | apply own_kill_works | apply respects_own; same_leaf | solve [auto] ]).

Lemma own_kill_deps f j i l : respects (own_step f) (kill_deps_loop alive j i l).
Proof. revert i. induction l as [|[g|] l IH]; intros i; simpl; own; auto. Qed.
Lemma own_own_cb f g c : respects (own_step f) (run_own_cb alive g c).
Proof. pose proof (own_kill_deps f) as Hk. own. Qed.
Lemma own_signal_own f : respects (own_step f) (dma_fence_signal_own alive f).
Proof.
  assert (H : forall g l, respects (own_step f) (st_iter (run_own_cb alive g) l)).
  { pose proof (own_own_cb f) as Hk. intros g l. induction l as [|c l IH]; simpl; own. }
  own.
Qed.
Lemma own_credit f s g : respects (own_step f) (upd_sched s g).
Proof.
  intros w u w'. unfold upd_sched, get_sched, st_bind, st_get, st_of_option, st_mod.
  destruct (scheds w !! s); [|done]. intros [= _ <-]. split; eauto.
Qed.
Lemma own_job_done j r : respects (own_step (FFin j)) (drm_sched_job_done alive j r).
Proof.
  pose proof (own_signal_own (FFin j)) as Hs. pose proof (own_credit (FFin j)) as Hc. own.
Qed.

Lemma own_unfinished f j w w' : own_step f w w' -> f <> FFin j -> unfinished w j -> unfinished w' j.
Proof.
  intros [Hs _] Hf Hu F' HF'. specialize (Hs (FFin j) ltac:(done)). rewrite HF' in Hs.
  destruct (fences w !! FFin j) as [F|] eqn:E; [|done]. injection Hs as <-. by apply Hu.
Qed.
End Signal.

(** ** Credits *)

Lemma inflight_some w s j J :
  jobs w !! j = Some J -> cb_linked J = false ->
  inflight (Some j) w s =
    inflight None w s + (if bool_decide (j_sched J = Some s) then credits J else 0).
Proof.
  intros HJ Hl. unfold inflight. rewrite (msum_change (counted None s) (counted (Some j) s) _ j J HJ).
  - unfold counted. rewrite Hl, (bool_decide_eq_true_2 (Some j = Some j)) by done. simpl. lia.
  - intros k K Hk HK. unfold counted. by rewrite (bool_decide_eq_false_2 (Some j = Some k)) by congruence.
Qed.

(** A change of one scheduler's count, for the [x] before and after. *)
Lemma cinv_count x x' w s S n :
  cinv x w -> scheds w !! s = Some S ->
  (forall s', s' <> s -> inflight x' w s' = inflight x w s') ->
  inflight x' w s = inflight x w s + n -> inflight x w s + n <= credit_limit S ->
  cinv x' (set_scheds (<[s := set_credit_count (s32 (credit_count S + n)) S]> (scheds w)) w).
Proof.
  intros [[H1 H2] HI] HS Ho Hn Hl. split; [split|].
  - done.
  - intros s' S'. unfold inflight in *. simpl. rewrite lookup_insert_Some. intros [[<- <-]|[Hne HS']].
    + destruct (H2 s S HS) as [E ?]. simpl. rewrite E, swrap_add_l, Hn. split; [done|lia].
    + rewrite Ho by done. by apply H2.
  - eapply jinv_view; [|done]. split; try done. simpl. by eapply fmap_insert_same.
Qed.

Lemma count_up w s S j J :
  cinv None w -> jobs w !! j = Some J -> cb_linked J = false -> j_sched J = Some s ->
  scheds w !! s = Some S -> inflight None w s + credits J <= credit_limit S ->
  cinv (Some j) (set_scheds (<[s := set_credit_count (s32 (credit_count S + credits J)) S]> (scheds w)) w).
Proof.
  intros Hc HJ Hl Hs HS Hn. apply (cinv_count None); try done.
  - intros s' Hne. rewrite (inflight_some w s' j J) by done.
    rewrite bool_decide_eq_false_2 by congruence. lia.
  - rewrite (inflight_some w s j J) by done. by rewrite bool_decide_eq_true_2.
Qed.

Lemma count_down w s S j J :
  cinv (Some j) w -> jobs w !! j = Some J -> cb_linked J = false -> j_sched J = Some s ->
  scheds w !! s = Some S ->
  cinv None (set_scheds (<[s := set_credit_count (s32 (credit_count S - credits J)) S]> (scheds w)) w).
Proof.
  intros Hc HJ Hl Hs HS. rewrite <- Z.add_opp_r. apply (cinv_count (Some j)); try done.
  - intros s' Hne. rewrite (inflight_some w s' j J) by done.
    rewrite bool_decide_eq_false_2 by congruence. lia.
  - rewrite (inflight_some w s j J) by done. rewrite bool_decide_eq_true_2 by done. lia.
  - pose proof (co_sched _ _ (proj1 Hc) s S HS) as [_ ?].
    pose proof (co_job _ _ (proj1 Hc) j J HJ). lia.
Qed.

(** ** The callback of a job *)

(** The invariant when the callback of [j] is taken off or put on, together with the
    credits of its scheduler. *)
Lemma inflight_relink x x' w s j J b :
  jobs w !! j = Some J -> (cb_linked J || bool_decide (x = Some j)) = (b || bool_decide (x' = Some j)) ->
  (forall k, k <> j -> x = Some k <-> x' = Some k) ->
  inflight x' (set_jobs (<[j := set_cb_linked b J]> (jobs w)) w) s = inflight x w s.
Proof.
  intros HJ Hb Hx. unfold inflight. simpl.
  rewrite (msum_update _ _ _ J) by done.
  rewrite (msum_change (counted x s) (counted x' s) _ j J HJ).
  - unfold counted. simpl. rewrite <- Hb. lia.
  - intros k K Hk HK. unfold counted. erewrite bool_decide_ext; [done|]. by apply Hx.
Qed.

Lemma cinv_unlink w j J :
  cinv None w -> jobs w !! j = Some J -> cb_linked J = true ->
  (forall f F, fences w !! f = Some F -> CbDone j ∉ f_cbs F) ->
  cinv (Some j) (set_jobs (<[j := set_cb_linked false J]> (jobs w)) w).
Proof.
  intros [[H1 H2] HI] HJ Hl Hf.
  assert (Hlk : forall k, linked (set_jobs (<[j := set_cb_linked false J]> (jobs w)) w) k <->
    k <> j /\ linked w k).
  { intros k. unfold linked. simpl. split.
    - intros (K & HK & Hk). apply lookup_insert_Some in HK as [[<- <-]|[Hne HK]]; [done|]. eauto.
    - intros (Hne & K & HK & Hk). exists K. rewrite lookup_insert_ne by done. done. }
  assert (Hkill : forall k, killed w k -> killed (set_jobs (<[j := set_cb_linked false J]> (jobs w)) w) k).
  { intros k (Hk1 & Hk2). split; [|done]. rewrite Hlk. tauto. }
  split; [split|split]; simpl.
  - intros k K. rewrite lookup_insert_Some. intros [[<- <-]|[_ HK]]; [by apply (H1 j J)|by eapply H1].
  - intros s S HS. rewrite (inflight_relink None (Some j) w s j J false); [by apply H2|done| |].
    + rewrite Hl. simpl. by rewrite bool_decide_eq_true_2.
    + intros k Hk. split; congruence.
  - intros k K. rewrite lookup_insert_Some. intros [[<- <-]|[_ HK]]; [done|by apply (ji_linked _ HI)].
  - intros e E k HE Hk. destruct (ji_queue _ HI e E k HE Hk) as (K & q & HK & Hl' & ?).
    destruct (decide (j = k)) as [->|Hne]; [congruence|]. exists K, q. by rewrite lookup_insert_ne.
  - apply HI.
  - intros s S k HS Hk. destruct (ji_pending _ HI s S k HS Hk) as (K & HK & H3 & H4).
    destruct (decide (j = k)) as [->|Hne]; [|exists K; by rewrite lookup_insert_ne].
    rewrite lookup_insert_eq. simplify_eq. eexists. split; [done|]. done.
  - apply HI.
  - intros f F k HF Hk. destruct (ji_done _ HI f F k HF Hk) as [H3 H4]. split; [|done].
    rewrite Hlk. split; [|done]. intros ->. by apply (Hf f F).
  - apply HI.
  - intros f F k HF Hk. by eapply Hkill, (ji_kill _ HI).
  - intros k Hk. by apply Hkill, (ji_kill_works _ HI).
  - apply HI.
Qed.

Lemma cinv_link_job w j J s :
  cinv (Some j) w -> jobs w !! j = Some J -> cb_linked J = false -> j_entity J = None ->
  unfinished w j -> armed_for w j J s -> is_pending w j ->
  (exists SF n, sfences w !! j = Some SF /\ parent SF = Some n) ->
  cinv None (set_jobs (<[j := set_cb_linked true J]> (jobs w)) w).
Proof.
  intros [[H1 H2] HI] HJ Hl He Hu Ha Hp Hpar.
  set (w1 := set_jobs (<[j := set_cb_linked true J]> (jobs w)) w).
  assert (Hlk : forall k, linked w k -> linked w1 k).
  { intros k (K & HK & Hk). destruct (decide (k = j)) as [->|Hne]; [congruence|].
    exists K. simpl. by rewrite lookup_insert_ne. }
  assert (Hkill : forall k, killed w k -> killed w1 k).
  { intros k (Hk1 & Hk2 & Hk3 & Hk4). split; [|done]. intros (K & HK & Hk). simpl in HK.
    apply lookup_insert_Some in HK as [[<- <-]|[Hne HK]]; [done|]. apply Hk1. by exists K. }
  split; [split|split]; simpl.
  - intros k K. rewrite lookup_insert_Some. intros [[<- <-]|[_ HK]]; [by apply (H1 j J)|by eapply H1].
  - intros s' S HS. unfold w1. rewrite (inflight_relink (Some j) None w s' j J true); [by apply H2|done| |].
    + by rewrite Hl, bool_decide_eq_true_2.
    + intros k Hk. split; congruence.
  - intros k K. rewrite lookup_insert_Some. intros [[<- <-]|[_ HK]]; [|by apply (ji_linked _ HI)].
    intros _. split_and!; try done. by exists s.
  - intros e E k HE Hk. destruct (ji_queue _ HI e E k HE Hk) as (K & q & HK & H3 & H4 & ?).
    destruct (decide (j = k)) as [->|Hne]; [congruence|]. exists K, q. by rewrite lookup_insert_ne.
  - apply HI.
  - intros s' S k HS Hk. destruct (ji_pending _ HI s' S k HS Hk) as (K & HK & H3 & H4).
    destruct (decide (j = k)) as [->|Hne]; [|exists K; by rewrite lookup_insert_ne].
    rewrite lookup_insert_eq. simplify_eq. eexists. split; [done|]. done.
  - apply HI.
  - intros f F k HF Hk. destruct (ji_done _ HI f F k HF Hk) as [H3 H4]. split; [by apply Hlk|done].
  - apply HI.
  - intros f F k HF Hk. by eapply Hkill, (ji_kill _ HI).
  - intros k Hk. by apply Hkill, (ji_kill_works _ HI).
  - apply HI.
Qed.

Lemma omap_done_snoc l j : omap done_job (l ++ [CbDone j]) = omap done_job l ++ [j].
Proof. by rewrite omap_app. Qed.
Lemma elem_dones (l : list fence_cb) j : j ∈ omap done_job l -> CbDone j ∈ l.
Proof.
  rewrite list_elem_of_omap. intros (c & Hc & E). by destruct c; simplify_eq/=.
Qed.

(** Putting the callback of a pending job on its hardware fence: it is on the fence, or
    the fence has signaled and nothing changed. *)
Lemma cinv_add_done w n j J s SF :
  cinv (Some j) w -> jobs w !! j = Some J -> cb_linked J = false -> j_entity J = None ->
  unfinished w j -> armed_for w j J s -> is_pending w j ->
  sfences w !! j = Some SF -> parent SF = Some n ->
  wlp (dma_fence_add_callback (FExt n) (CbDone j))
    (fun r w' => (r = 0 /\ cinv None w' \/ r = - ENOENT /\ w' = w)) w.
Proof.
  intros Hc HJ Hl He Hu Ha Hp HSF Hpar. unfold dma_fence_add_callback. do 2 wstep.
  destruct (f_signaled F) eqn:Es; [wstep; by right|]. do 2 wstep. do 2 wstep. wstep. left. split; [done|].
  simpl in *. simplify_eq.
  pose proof (cinv_link_job w j J s Hc HJ Hl He Hu Ha Hp ltac:(eauto)) as Hc1.
  refine (cinv_fence None (set_jobs (<[j := set_cb_linked true J]> (jobs w)) w) (FExt n)
    (set_f_cbs (f_cbs F ++ [CbDone j]) F) Hc1 _ _ _); simpl; [congruence|..].
  - intros c [Hin|Hin]%elem_of_app; [left; eauto|right]. apply list_elem_of_singleton in Hin as ->.
    split; [|by exists n, SF]. exists (set_cb_linked true J). simpl. by rewrite lookup_insert_eq.
  - rewrite omap_done_snoc. apply NoDup_app. split_and!; [by eapply (ji_done_nodup _ (proj2 Hc))| |apply NoDup_singleton].
    intros k Hk ->%list_elem_of_singleton. apply elem_dones in Hk.
    destruct (ji_done _ (proj2 Hc) _ _ _ H Hk) as [(K & HK & Hk') _]. congruence.
Qed.

Section Done.
Context (alive : jid -> bool).

Lemma core_job_done j r : respects same_core (drm_sched_job_done alive j r).
Proof. core. Qed.

Lemma cinv_job_done r w j J s :
  cinv (Some j) w -> jobs w !! j = Some J -> cb_linked J = false -> ~ queued w j ->
  armed_for w j J s ->
  wlp (drm_sched_job_done alive j r) (fun _ => cinv None) w.
Proof.
  intros Hc HJ Hl Hq (Hs & SF & HSF & Hfs). unfold drm_sched_job_done.
  do 2 wstep. do 2 wstep. do 2 wstep. simplify_eq. do 2 wstep. simplify_eq.
  match goal with H : scheds w !! s = Some ?S0 |- _ =>
    pose proof (count_down w s S0 j J Hc HJ Hl Hs H) as Hc1 end.
  match type of Hc1 with cinv _ ?w1 => set (w1' := w1) in * end.
  assert (Hn : ~ linked w1' j /\ ~ queued w1' j).
  { split; [|done]. intros (K & HK & Hk). simpl in HK. congruence. }
  apply (wlp_frame_bind same_view); [same|]. intros _ w2 H2.
  apply (wlp_frame_bind same_view); [same|]. intros _ w3 H3.
  unfold drm_sched_fence_finished. rewrite <- (core_linked (same_view_core _ _ (transitivity H2 H3))) in Hn.
  rewrite <- (core_queued (same_view_core _ _ (transitivity H2 H3))) in Hn.
  pose proof (cinv_view _ _ _ (transitivity H2 H3) Hc1) as Hc3. clear Hc1 H2 H3.
  wstep. apply (wlp_frame_bind same_view); [same|]. intros _ w4 H4.
  rewrite <- (core_linked (same_view_core _ _ H4)), <- (core_queued (same_view_core _ _ H4)) in Hn.
  eapply wlp_mono; [apply cinv_signal_own; [by eapply cinv_view|]|].
  { intros k [= <-]. done. }
  intros u w5 Hc5. cbv beta in Hc5 |- *. eapply wlp_keep; [same|done].
Qed.

(** ** Signalling a fence of the hardware *)

(** What completing a job leaves of the others. *)
Lemma done_cb_frame f j J w :
  jobs w !! j = Some J ->
  wlp (run_ext_cb alive f (CbDone j)) (fun _ w' =>
    same_core (set_jobs (<[j := set_cb_linked false J]> (jobs w)) w) w' /\
    own_step (FFin j) w w') w.
Proof.
  intros HJ. simpl. do 2 wstep. simplify_eq. unfold drm_sched_job_done_cb. do 2 wstep.
  intros u w' E. split; [by eapply core_job_done|].
  etrans; [|by eapply own_job_done]. split; eauto.
Qed.

Lemma cinv_done_cb f w j :
  cinv None w -> linked w j -> (forall g G, fences w !! g = Some G -> CbDone j ∉ f_cbs G) ->
  wlp (run_ext_cb alive f (CbDone j)) (fun _ => cinv None) w.
Proof.
  intros Hc (J & HJ & Hl) Hd. simpl. do 2 wstep. simplify_eq. unfold drm_sched_job_done_cb. do 2 wstep.
  destruct (ji_linked _ (proj2 Hc) j J HJ Hl) as (He & _ & (s & Hs & Ha) & _).
  eapply (cinv_job_done _ _ j (set_cb_linked false J) s).
  - by apply cinv_unlink.
  - simpl. by rewrite lookup_insert_eq.
  - done.
  - intros (e & E & HE & Hq). destruct (ji_queue _ (proj2 Hc) e E j HE Hq) as (K & q & HK & Hk & _).
    congruence.
  - split; [done|]. destruct Ha as (SF & HSF & Hf). by exists SF.
Qed.

(** The callbacks behind it are still in order. *)
Lemma cb_ok_unlink f w j J c :
  jobs w !! j = Some J -> done_job c <> Some j -> cb_ok w f c ->
  cb_ok (set_jobs (<[j := set_cb_linked false J]> (jobs w)) w) f c.
Proof.
  intros HJ Hj. destruct c as [k| | |k]; simpl in *; try done.
  - intros [(K & HK & Hk) H]. split; [|done]. exists K. simpl. rewrite lookup_insert_ne by congruence. done.
  - intros (H1 & H2). split; [|done]. intros (K & HK & Hk). simpl in HK.
    apply lookup_insert_Some in HK as [[<- <-]|[_ HK]]; [done|]. apply H1. by exists K.
Qed.

Lemma cinv_ext_cbs f l w :
  cinv None w -> (forall c, c ∈ l -> cb_ok w f c) -> NoDup (omap done_job l) ->
  (forall j, CbDone j ∈ l -> forall g G, fences w !! g = Some G -> CbDone j ∉ f_cbs G) ->
  wlp (st_iter (run_ext_cb alive f) l) (fun _ => cinv None) w.
Proof.
  revert w. induction l as [|c l IH]; intros w Hc Hl Hn Hd; simpl; [by wstep|]. wstep.
  destruct (done_job c) as [j|] eqn:Ej.
  - destruct c as [k| | |]; simplify_eq/=. destruct (Hl (CbDone j) ltac:(set_solver)) as [Hlj _].
    pose proof Hlj as (J & HJ & HlJ). csimpl in Hn. apply NoDup_cons in Hn as [Hj Hn].
    intros u w1 E1. destruct (done_cb_frame f j J w HJ _ _ E1) as [Hcore Hown].
    apply IH; [|  |done|].
    + eapply cinv_done_cb in E1; [exact E1|done|done|]. apply Hd. set_solver.
    + intros c Hin. eapply (core_cb_ok Hcore), cb_ok_unlink; [done| |apply Hl; set_solver].
      intros Ec. apply Hj. apply list_elem_of_omap. by exists c.
    + intros k Hk g G HG Hin. destruct (proj2 Hown g G k HG Hin) as (G0 & HG0 & Hin0).
      by eapply (Hd k); [set_solver|..].
  - intros u w1 E1. assert (E2 : run_own_cb alive f c w = Some (u, w1)) by (by destruct c).
    assert (respects same_core (run_own_cb alive f c)) as Hr by core.
    apply IH.
    + assert (Hw : wlp (st_iter (run_own_cb alive f) [c]) (fun _ => cinv None) w).
      { apply cinv_own_cbs; [done|]. intros c' ->%list_elem_of_singleton. apply Hl. set_solver. }
      apply (Hw tt w1). simpl. unfold st_bind. by rewrite E2.
    + intros c' Hin. eapply core_cb_ok; [by eapply Hr|]. apply Hl. set_solver.
    + destruct c; by csimpl in Hn.
    + intros k Hk g G HG Hin. destruct (own_own_cb alive (FExt 1) f c w u w1 E2) as [_ Ho].
      destruct (Ho g G k HG Hin) as (G0 & HG0 & Hin0). by eapply (Hd k); [set_solver|..].
Qed.

Lemma cinv_signal_ext n err w :
  cinv None w -> wlp (signal_ext alive n err) (fun _ => cinv None) w.
Proof.
  intros Hc. unfold signal_ext. do 2 wstep. apply (wlp_frame_bind same_view); [same|].
  intros _ w1 H1. pose proof (cinv_view _ _ _ H1 Hc) as Hc1. clear Hc H1 H F w. rename w1 into w, Hc1 into Hc.
  unfold dma_fence_signal_with. do 2 wstep. destruct (f_signaled F) eqn:Es; [by wstep|].
  do 2 wstep. simplify_eq. pose proof (proj2 Hc) as HI. apply cinv_ext_cbs.
  - apply cinv_fence; simpl; [done|by right|intros c Hin; set_solver|constructor].
  - intros c Hin. assert (Hok : cb_ok w (FExt n) c).
    { destruct c; simpl; [by eapply (ji_done _ HI)|done|done|by eapply (ji_kill _ HI)]. }
    eapply core_cb_ok; [|exact Hok]. by repeat split.
  - by eapply (ji_done_nodup _ HI).
  - intros j Hin g G. simpl. rewrite lookup_insert_Some. intros [[<- <-]|[Hne HG]]; [set_solver|].
    intros Hg. destruct (ji_done _ HI _ _ _ H Hin) as (_ & n1 & SF1 & E1 & HSF1 & Hp1).
    destruct (ji_done _ HI _ _ _ HG Hg) as (_ & n2 & SF2 & E2 & HSF2 & Hp2). congruence.
Qed.
End Done.
