(* ===== verification/SchedRq.v ===== *)
(** * The GPU scheduler: run queues and selection

    Putting an entity on a run queue, taking it off, moving it in the tree of waiting
    times: what these operations change ([rq_step]) and that they keep the invariant. *)
From Stdlib Require Import ZArith Lia.
From stdpp Require Import base gmap list.
From S2P Require Import Prelude Sched SchedOps SchedInv SchedStep.
Local Open Scope Z_scope.
Local Open Scope st_scope.

(** ** Where an entity is *)

Definition on_rq (w : world) (e : eid) (q : sid * nat) : Prop :=
  exists S R, scheds w !! fst q = Some S /\ sched_rq S !! snd q = Some R /\ e ∈ rq_entities R.
Definition on_tree (w : world) (e : eid) (q : sid * nat) : Prop :=
  exists S R, scheds w !! fst q = Some S /\ sched_rq S !! snd q = Some R /\ e ∈ rb_tree_root R.

(** Everything but the place of [e] on the run queue [q] is unchanged. *)
Definition svq (S : drm_gpu_scheduler) :=
  (credit_count S, credit_limit S, pending_list S, free_guilty S).
Definition evq (E : drm_sched_entity) := (job_queue E, e_rq E).

Record rq_step (e : eid) (q : sid * nat) (w w' : world) : Prop := RqStep {
  rs_jobs : jobs w = jobs w';
  rs_fences : fences w = fences w';
  rs_sfences : sfences w = sfences w';
  rs_kill : kill_works w = kill_works w';
  rs_scheds : svq <$> scheds w = svq <$> scheds w';
  rs_entities : evq <$> entities w = evq <$> entities w';
  rs_others e' : e' <> e -> ev <$> entities w !! e' = ev <$> entities w' !! e';
  rs_on_rq e' q' : e' <> e \/ q' <> q -> on_rq w e' q' <-> on_rq w' e' q';
  rs_on_tree e' q' : e' <> e \/ q' <> q -> on_tree w e' q' <-> on_tree w' e' q'
}.

#[export] Instance rq_step_preorder e q : PreOrder (rq_step e q).
Proof.
  split; [by intros w; split|]. intros w1 w2 w3 [A1 A2 A3 A4 A5 A6 A7 A8 A9] [B1 B2 B3 B4 B5 B6 B7 B8 B9].
  split; try congruence.
  - intros e' He. by rewrite A7, B7.
  - intros e' q' Hq. by rewrite A8, B8.
  - intros e' q' Hq. by rewrite A9, B9.
Qed.

Lemma rqs_entity e q g :
  (forall E, evq (g E) = evq E) -> respects (rq_step e q) (upd_entity e g).
Proof.
  intros H w u w'. unfold upd_entity, get_entity, st_bind, st_get, st_of_option, st_mod.
  destruct (entities w !! e) as [E|] eqn:HE; [|done]. intros [= _ <-]. split; try done; simpl.
  - by eapply fmap_insert_same.
  - intros e' He. by rewrite lookup_insert_ne.
Qed.

Lemma on_upd_rq w q g S R (P : drm_sched_rq -> list eid) e' q' :
  scheds w !! fst q = Some S -> sched_rq S !! snd q = Some R ->
  (exists S1 R1, <[fst q := set_sched_rq (<[snd q := g R]> (sched_rq S)) S]> (scheds w) !! fst q' = Some S1 /\
     sched_rq S1 !! snd q' = Some R1 /\ e' ∈ P R1) <->
  (if decide (q' = q) then e' ∈ P (g R)
   else exists S1 R1, scheds w !! fst q' = Some S1 /\ sched_rq S1 !! snd q' = Some R1 /\ e' ∈ P R1).
Proof.
  intros HS HR. destruct q as [s i], q' as [s' i']. simpl in *. case_decide as Hd.
  - simplify_eq. rewrite lookup_insert_eq. split.
    + intros (S1 & R1 & [= <-] & H1 & H2). simpl in H1. rewrite list_lookup_insert_eq in H1; [by simplify_eq|].
      by apply lookup_lt_Some in HR.
    + intros H. do 2 eexists. split; [done|]. simpl. split; [|done].
      apply list_lookup_insert_eq. by apply lookup_lt_Some in HR.
  - destruct (decide (s' = s)) as [->|Hne]; [|by rewrite lookup_insert_ne].
    rewrite lookup_insert_eq. split.
    + intros (S1 & R1 & [= <-] & H1 & H2). simpl in H1. rewrite list_lookup_insert_ne in H1 by congruence.
      by exists S, R1.
    + intros (S1 & R1 & H0 & H1 & H2). simplify_eq. do 2 eexists. split; [done|]. simpl.
      rewrite list_lookup_insert_ne by congruence. done.
Qed.

Lemma rqs_rq e q g :
  (forall R e', e' <> e -> (e' ∈ rq_entities (g R) <-> e' ∈ rq_entities R) /\
                           (e' ∈ rb_tree_root (g R) <-> e' ∈ rb_tree_root R)) ->
  respects (rq_step e q) (upd_rq q g).
Proof.
  intros H w u w' E. apply (wlp_upd_rq q g (fun _ => rq_step e q w) w) in E; [done|].
  intros S R HS HR. split; try done; simpl.
  - by eapply fmap_insert_same.
  - intros e' q' Hq. unfold on_rq. simpl. rewrite (on_upd_rq w q g S R) by done. case_decide as Hd; [|done].
    subst. destruct Hq as [He|]; [|done]. destruct (H R e' He) as [-> _]. split; [|eauto].
    intros (S1 & R1 & H1 & H2 & H3). by simplify_eq.
  - intros e' q' Hq. unfold on_tree. simpl. rewrite (on_upd_rq w q g S R) by done. case_decide as Hd; [|done].
    subst. destruct Hq as [He|]; [|done]. destruct (H R e' He) as [_ ->]. split; [|eauto].
    intros (S1 & R1 & H1 & H2 & H3). by simplify_eq.
Qed.

Lemma rqs_scores e q f : respects (rq_step e q) (st_mod (fun w => set_scores (f w) w)).
Proof. by apply respects_mod. Qed.
Lemma rqs_of_option e q {A} (o : option A) : respects (rq_step e q) (st_of_option o).
Proof. destruct o; intros w x w'; unfold st_of_option, st_ret, st_bug; [by intros [= _ <-]|done]. Qed.

Lemma filter_ne_iff (e e' : eid) (l : list eid) : e' <> e -> e' ∈ filter (fun x => x <> e) l <-> e' ∈ l.
Proof. intros. rewrite list_elem_of_filter. tauto. Qed.

Ltac rqs := repeat frame_step ltac:(idtac; first
  [ assumption | apply rqs_scores | apply rqs_of_option
  | apply rqs_entity; intros; reflexivity
  | apply rqs_rq; intros; simpl; repeat case_decide; rewrite ?filter_ne_iff, ?elem_of_insert_before by done; set_solver
  | solve [auto] ]).

Lemma rqs_remove_fifo e q : respects (rq_step e q) (drm_sched_rq_remove_fifo_locked e q).
Proof. rqs. Qed.
Lemma rqs_update_fifo e q ts : respects (rq_step e q) (drm_sched_rq_update_fifo_locked e q ts).
Proof. pose proof (rqs_remove_fifo e q). rqs. Qed.
Lemma rqs_add_entity e q : respects (rq_step e q) (drm_sched_rq_add_entity q e).
Proof. rqs. Qed.
Lemma rqs_remove_entity fifo e q : respects (rq_step e q) (drm_sched_rq_remove_entity fifo q e).
Proof. pose proof (rqs_remove_fifo e q). rqs. Qed.

(** ** The invariant *)

Lemma jinv_on_rq w e q :
  jinv w -> on_rq w e q \/ on_tree w e q ->
  exists E, entities w !! e = Some E /\ e_rq E = Some q /\ e_linked E = true /\
    (on_tree w e q -> rb_linked E = true).
Proof.
  intros HI Hon. destruct q as [s i].
  assert (exists S R, scheds w !! s = Some S /\ sched_rq S !! i = Some R /\
    (e ∈ rq_entities R \/ e ∈ rb_tree_root R)) as (S & R & HS & HR & He).
  { destruct Hon as [(S & R & ? & ? & ?)|(S & R & ? & ? & ?)]; exists S, R; auto. }
  destruct (ji_rq _ HI s S i R e HS HR He) as (E & ? & ? & ? & Ht). exists E. split_and!; try done.
  intros (S1 & R1 & HS1 & HR1 & Hin). simpl in *. simplify_eq. auto.
Qed.

(** The invariant after the place of [e] on its run queue [q] changed. *)
Lemma cinv_rq_step x e q w w' E E' :
  rq_step e q w w' -> cinv x w ->
  entities w !! e = Some E -> e_rq E = Some q -> entities w' !! e = Some E' ->
  (on_rq w' e q \/ on_tree w' e q -> e_linked E' = true) ->
  (on_tree w' e q -> rb_linked E' = true) -> cinv x w'.
Proof.
  intros Hst [[H1 H2] HI] HE Hq HE' Hl Hr.
  assert (Hent : forall e' X', entities w' !! e' = Some X' -> exists X, entities w !! e' = Some X /\ evq X = evq X').
  { intros e' X'. apply (fmap_lookup_r _ _ _ _ _ (rs_entities _ _ _ _ Hst)). }
  assert (Hsc : forall s S', scheds w' !! s = Some S' -> exists S, scheds w !! s = Some S /\ svq S = svq S').
  { intros s S'. apply (fmap_lookup_r _ _ _ _ _ (rs_scheds _ _ _ _ Hst)). }
  assert (Hqd : forall j, queued w' j -> queued w j).
  { intros j (e' & X' & HX' & Hj). destruct (Hent _ _ HX') as (X & HX & Ev). exists e', X.
    injection Ev as -> _. done. }
  assert (Hpd : forall j, is_pending w' j -> is_pending w j).
  { intros j (s & S' & HS' & Hj). destruct (Hsc _ _ HS') as (S & HS & Ev). exists s, S.
    injection Ev as _ _ -> _. done. }
  assert (Hk : forall j, killed w j -> killed w' j).
  { intros j (K1 & K2 & K3 & K4). unfold killed, linked, armed.
    rewrite <- (rs_jobs _ _ _ _ Hst), <- (rs_sfences _ _ _ _ Hst).
    split_and!; [done|by intros ?%Hqd|by intros ?%Hpd|done]. }
  destruct Hst as [Ej Ef Esf Ek _ _ Ho Hrq Htr].
  unfold armed_for, unfinished, linked in *.
  split; [split|split]; unfold inflight, armed_for, unfinished, linked in *; rewrite <- ?Ej, <- ?Ef, <- ?Esf, <- ?Ek.
  - done.
  - intros s S' HS'. destruct (Hsc _ _ HS') as (S & HS & Ev). injection Ev as <- <- _ _. by apply H2.
  - apply HI.
  - intros e' X' j HX' Hj. destruct (Hent _ _ HX') as (X & HX & Ev). injection Ev as Ev1 Ev2.
    rewrite <- Ev1 in Hj. rewrite <- Ev2. by apply (ji_queue _ HI e' X).
  - intros e' X' HX'. destruct (Hent _ _ HX') as (X & HX & Ev). injection Ev as <- _.
    by eapply (ji_queue_nodup _ HI).
  - intros s S' j HS' Hj. destruct (Hsc _ _ HS') as (S & HS & Ev). injection Ev as _ _ Ev _.
    rewrite <- Ev in Hj. by eapply (ji_pending _ HI).
  - intros s S' HS'. destruct (Hsc _ _ HS') as (S & HS & Ev). injection Ev as _ _ <- _.
    by eapply (ji_pending_nodup _ HI).
  - apply HI.
  - apply HI.
  - intros f F j HF Hj. by eapply Hk, (ji_kill _ HI).
  - intros j Hj. by apply Hk, (ji_kill_works _ HI).
  - intros s S i R e' HS HR He'.
    assert (Hon : on_rq w' e' (s, i) \/ on_tree w' e' (s, i)).
    { destruct He'; [left|right]; by exists S, R. }
    assert (Htree : e' ∈ rb_tree_root R -> on_tree w' e' (s, i)) by (intros; by exists S, R).
    destruct (decide (e' = e /\ (s, i) = q)) as [[-> <-]|Hne].
    + destruct (Hent _ _ HE') as (X & HX & Ev). injection Ev as _ Ev. simplify_eq.
      exists E'. split_and!; auto. congruence.
    + assert (Hne' : e' <> e \/ (s, i) <> q) by (destruct (decide (e' = e)); tauto).
      rewrite <- Hrq, <- Htr in Hon by done.
      destruct (jinv_on_rq _ _ _ HI Hon) as (X & HX & Hx1 & Hx2 & Hx3).
      destruct (decide (e' = e)) as [->|Hee]; [simplify_eq; naive_solver|].
      specialize (Ho _ Hee). rewrite HX in Ho. simpl in Ho.
      destruct (entities w' !! e') as [X'|] eqn:HX'; [|done]. injection Ho as _ E2 E3 E4.
      exists X'. split_and!; [done|congruence|congruence|]. intros Hin. rewrite <- E4.
      apply Hx3. apply Htr; [done|]. auto.
Qed.

(** ** The operations *)

Lemma on_rq_here w q S R e : scheds w !! fst q = Some S -> sched_rq S !! snd q = Some R ->
  on_rq w e q <-> e ∈ rq_entities R.
Proof.
  intros HS HR. split; [|by exists S, R]. intros (S1 & R1 & H1 & H2 & H3). by simplify_eq.
Qed.
Lemma on_tree_here w q S R e : scheds w !! fst q = Some S -> sched_rq S !! snd q = Some R ->
  on_tree w e q <-> e ∈ rb_tree_root R.
Proof.
  intros HS HR. split; [|by exists S, R]. intros (S1 & R1 & H1 & H2 & H3). by simplify_eq.
Qed.

(** The place of [e] after a change of its run queue. *)
Lemma on_rq_upd w q g S R e : scheds w !! fst q = Some S -> sched_rq S !! snd q = Some R ->
  on_rq (set_scheds (<[fst q := set_sched_rq (<[snd q := g R]> (sched_rq S)) S]> (scheds w)) w) e q
    <-> e ∈ rq_entities (g R).
Proof. intros HS HR. unfold on_rq. simpl. rewrite (on_upd_rq w q g S R) by done. by case_decide. Qed.
Lemma on_tree_upd w q g S R e : scheds w !! fst q = Some S -> sched_rq S !! snd q = Some R ->
  on_tree (set_scheds (<[fst q := set_sched_rq (<[snd q := g R]> (sched_rq S)) S]> (scheds w)) w) e q
    <-> e ∈ rb_tree_root (g R).
Proof. intros HS HR. unfold on_tree. simpl. rewrite (on_upd_rq w q g S R) by done. by case_decide. Qed.

(** The entity has left the tree. *)
Lemma remove_fifo_spec e q w E :
  entities w !! e = Some E -> (on_tree w e q -> rb_linked E = true) ->
  wlp (drm_sched_rq_remove_fifo_locked e q) (fun _ w' =>
    (exists E', entities w' !! e = Some E' /\ e_linked E' = e_linked E /\ rb_linked E' = false) /\
    (on_rq w' e q <-> on_rq w e q) /\ ~ on_tree w' e q) w.
Proof.
  intros HE Ht. unfold drm_sched_rq_remove_fifo_locked. do 2 wstep. simplify_eq.
  destruct (rb_linked E) eqn:Er.
  - do 2 wstep. wstep. simpl in *. simplify_eq. split_and!.
    + eexists. rewrite lookup_insert_eq. done.
    + rewrite (on_rq_here w q S R) by done.
      pose proof (on_rq_upd w q (fun R => set_rb_tree_root (filter (fun x => x <> e) (rb_tree_root R)) R) S R e) as Hu.
      by apply Hu.
    + pose proof (on_tree_upd w q (fun R => set_rb_tree_root (filter (fun x => x <> e) (rb_tree_root R)) R) S R e) as Hu.
      intros Hin. apply Hu in Hin; [|done..]. simpl in Hin. apply list_elem_of_filter in Hin. tauto.
  - wstep. split_and!; [eauto|done|]. intros Hin. by specialize (Ht Hin).
Qed.

Lemma cinv_update_fifo x e q ts w E :
  cinv x w -> entities w !! e = Some E -> e_rq E = Some q -> e_linked E = true ->
  wlp (drm_sched_rq_update_fifo_locked e q ts) (fun _ => cinv x) w.
Proof.
  intros Hc HE Hq Hl u w' E1. pose proof (rqs_update_fifo e q ts w u w' E1) as Hst.
  assert (Hf : exists E', entities w' !! e = Some E' /\ e_linked E' = true /\ rb_linked E' = true).
  { revert u w' E1 Hst. change (wlp (drm_sched_rq_update_fifo_locked e q ts) (fun _ w' => rq_step e q w w' ->
      exists E', entities w' !! e = Some E' /\ e_linked E' = true /\ rb_linked E' = true) w).
    unfold drm_sched_rq_update_fifo_locked. wstep.
    eapply wlp_mono; [apply (remove_fifo_spec e q w E HE)|].
    { intros Ht. destruct (jinv_on_rq w e q (proj2 Hc) (or_intror Ht)) as (E0 & ? & _ & _ & ?). simplify_eq; auto. }
    intros u1 w1 ((E2 & HE2 & Hl2 & _) & _). cbv beta. do 2 wstep. do 2 wstep. do 2 wstep.
    simpl in *. wstep. simpl in *. rewrite lookup_insert_eq in *. simplify_eq/=.
    intros _. eexists. split; [done|]. simpl. split; [congruence|done]. }
  destruct Hf as (E' & HE' & Hl' & Hr'). by eapply cinv_rq_step.
Qed.

Lemma cinv_add_entity x e q w E :
  cinv x w -> entities w !! e = Some E -> e_rq E = Some q ->
  wlp (drm_sched_rq_add_entity q e) (fun _ w' => cinv x w' /\
    exists E', entities w' !! e = Some E' /\ evq E' = evq E /\ e_linked E' = true) w.
Proof.
  intros Hc HE Hq u w' E1. pose proof (rqs_add_entity e q w u w' E1) as Hst.
  assert (Hf : exists E', entities w' !! e = Some E' /\ e_linked E' = true /\
    rb_linked E' = rb_linked E /\ (on_tree w' e q -> on_tree w e q)).
  { revert u w' E1 Hst. change (wlp (drm_sched_rq_add_entity q e) (fun _ w' => rq_step e q w w' ->
      exists E', entities w' !! e = Some E' /\ e_linked E' = true /\
        rb_linked E' = rb_linked E /\ (on_tree w' e q -> on_tree w e q)) w).
    unfold drm_sched_rq_add_entity. do 2 wstep. simplify_eq.
    destruct (e_linked E) eqn:El; [wstep; eauto|]. unfold add_score.
    repeat wstep. intros _. simpl in *. simplify_eq. eexists. split; [apply lookup_insert_eq|]. simpl. split_and!; [done..|].
    intros Ht. match goal with HS : scheds w !! q.1 = Some ?S1, HR : sched_rq ?S1 !! q.2 = Some ?R1 |- _ =>
      apply (on_tree_here w q S1 R1); [done..|];
      by apply (on_tree_upd w q (fun R => set_rq_entities (rq_entities R ++ [e]) R) S1 R1 e) end. }
  destruct Hf as (E' & HE' & Hl' & Hr' & Ht'). split.
  - eapply cinv_rq_step; try done. intros Ht. rewrite Hr'.
    destruct (jinv_on_rq w e q (proj2 Hc) (or_intror (Ht' Ht))) as (E0 & ? & _ & _ & H). simplify_eq; auto.
  - exists E'. split_and!; try done.
    pose proof (rs_entities _ _ _ _ Hst) as He. destruct (fmap_lookup_l _ _ _ _ _ He HE) as (E2 & ? & ?).
    congruence.
Qed.

(** Off the list; still in the tree if it was. *)
Lemma unlist_spec e q w E (k : SM unit) (Q : unit -> world -> Prop) :
  entities w !! e = Some E ->
  (forall w', (exists E', entities w' !! e = Some E' /\ rb_linked E' = rb_linked E) ->
     ~ on_rq w' e q -> (on_tree w' e q -> on_tree w e q) -> wlp k Q w') ->
  wlp (add_score (fst q) (-1) ;;
       upd_rq q (fun R => set_rq_entities (filter (fun x => x <> e) (rq_entities R)) R) ;;
       upd_entity e (set_e_linked false) ;;
       upd_rq q (fun R => if decide (current_entity R = Some e) then set_current_entity None R else R) ;;
       k) Q w.
Proof.
  intros HE Hk. wstep. apply (wlp_frame same_view); [same|]. intros _ w1 H1.
  assert (HE1 : exists E1, entities w1 !! e = Some E1 /\ ev E1 = ev E).
  { destruct H1 as (_ & He & _). by apply (fmap_lookup_l _ _ _ _ _ He). }
  assert (Ht1 : on_tree w1 e q -> on_tree w e q).
  { intros (S1 & R1 & HS1 & HR1 & Hin). destruct H1 as (_ & _ & Hs & _).
    destruct (fmap_lookup_r _ _ _ _ _ Hs HS1) as (S & HS & Ev).
    assert (svj S = svj S1) as Ej by (injection Ev; unfold svj; congruence).
    destruct (tr_rq S S1 _ _ Ej HR1) as (R & HR & Er). exists S, R. injection Er as _ Er.
    split_and!; [done..|congruence]. }
  destruct HE1 as (E1 & HE1 & Ev1). injection Ev1 as _ _ _ Ev1.
  do 2 wstep. do 2 wstep. do 2 wstep. simpl in *. simplify_eq.
  match goal with HS : scheds w1 !! q.1 = Some ?S, HR : sched_rq ?S !! q.2 = Some ?R,
      HS2 : <[_ := _]> _ !! _ = Some ?S2, HR2 : sched_rq ?S2 !! _ = Some ?R2 |- _ =>
    rewrite lookup_insert_eq in HS2; injection HS2 as <-; simpl in HR2;
    rewrite list_lookup_insert_eq in HR2 by (by eapply lookup_lt_Some); injection HR2 as <-;
    rename S into S0, R into R0, HS into HS0, HR into HR0 end.
  apply Hk; [exists (set_e_linked false E1); simpl; by rewrite lookup_insert_eq|..].
  - intros (S1 & R1 & HS1 & HR1 & Hin). simpl in *. rewrite lookup_insert_eq in HS1. simplify_eq/=.
    rewrite list_lookup_insert_eq in HR1 by (rewrite length_insert; by eapply lookup_lt_Some).
    simplify_eq. case_decide; simpl in Hin; apply list_elem_of_filter in Hin; tauto.
  - intros (S1 & R1 & HS1 & HR1 & Hin). simpl in *. rewrite lookup_insert_eq in HS1. simplify_eq/=.
    rewrite list_lookup_insert_eq in HR1 by (rewrite length_insert; by eapply lookup_lt_Some).
    simplify_eq. apply Ht1. exists S0, R0. split_and!; [done|done|]. by case_decide.
Qed.

(** The entity is nowhere. *)
Lemma cinv_remove_entity fifo x e q w E :
  cinv x w -> entities w !! e = Some E -> e_rq E = Some q ->
  (fifo = false -> ~ on_tree w e q) ->
  wlp (drm_sched_rq_remove_entity fifo q e) (fun _ w' => cinv x w' /\ rq_step e q w w' /\
    forall q', ~ on_rq w' e q' /\ ~ on_tree w' e q') w.
Proof.
  intros Hc HE Hq Hrr u w' E1. pose proof (rqs_remove_entity fifo e q w u w' E1) as Hst.
  assert (Hf : exists E', entities w' !! e = Some E' /\ ~ on_rq w' e q /\ ~ on_tree w' e q).
  { revert u w' E1 Hst. change (wlp (drm_sched_rq_remove_entity fifo q e) (fun _ w' => rq_step e q w w' ->
      exists E', entities w' !! e = Some E' /\ ~ on_rq w' e q /\ ~ on_tree w' e q) w).
    unfold drm_sched_rq_remove_entity. do 2 wstep. simplify_eq.
    destruct (e_linked E) eqn:El; cbn [negb].
    - eapply unlist_spec; [done|]. intros w1 (E1 & HE1 & Hr1) Hn1 Ht1. destruct fifo.
      + eapply wlp_mono; [apply (remove_fifo_spec e q w1 E1 HE1)|].
        { intros Ht. rewrite Hr1. destruct (jinv_on_rq w e q (proj2 Hc) (or_intror (Ht1 Ht)))
            as (E0 & ? & _ & _ & H). simplify_eq; auto. }
        intros u2 w2 ((E2 & HE2 & _) & Hr2 & Ht2) _. exists E2. by rewrite Hr2.
      + wstep. intros _. exists E1. split_and!; [done..|]. intros Ht. by apply Hrr, Ht1.
    - wstep. intros _. exists E. split; [done|].
      split; intros Hon; [apply or_introl with (B := on_tree w e q) in Hon|apply or_intror with (A := on_rq w e q) in Hon];
        destruct (jinv_on_rq w e q (proj2 Hc) Hon) as (E2 & ? & _ & ? & _); congruence. }
  destruct Hf as (E' & HE' & Hn & Ht). split_and!; [|done|].
  - eapply cinv_rq_step; try done. tauto.
  - intros q'. destruct (decide (q' = q)) as [->|Hne]; [done|].
    rewrite <- (rs_on_rq _ _ _ _ Hst), <- (rs_on_tree _ _ _ _ Hst) by auto.
    split; intros Hon; [apply or_introl with (B := on_tree w e q') in Hon|apply or_intror with (A := on_rq w e q') in Hon];
      destruct (jinv_on_rq w e q' (proj2 Hc) Hon) as (E2 & ? & ? & _); congruence.
Qed.
