(* ===== verification/SchedRun.v ===== *)
(** * The GPU scheduler: the workers keep the invariant

    Selecting an entity, taking its first job, handing it to the driver; freeing a
    finished job. *)
From Stdlib Require Import ZArith Lia.
From stdpp Require Import base gmap list.
From S2P Require Import Prelude Sched SchedOps SchedInv SchedStep SchedRq.
Local Open Scope Z_scope.
Local Open Scope st_scope.

(** ** Selection *)

Lemma inflight_nonneg x w s : credit_ok x w -> 0 <= inflight x w s.
Proof.
  intros [H _]. apply msum_nonneg. intros j J HJ. unfold counted. case_match; [by eapply H|lia].
Qed.

Lemma u32_sub_s32 a x : 0 <= a - x < 2 ^ 32 -> u32 (a - s32 x) = a - x.
Proof.
  intros H. unfold swrap, wrap.
  replace (a - ((x + 2 ^ (32 - 1)) mod 2 ^ 32 - 2 ^ (32 - 1)))
    with (a + 2 ^ (32 - 1) - (x + 2 ^ (32 - 1)) mod 2 ^ 32) by lia.
  rewrite Zminus_mod_idemp_r. replace (a + 2 ^ (32 - 1) - (x + 2 ^ (32 - 1))) with (a - x) by lia.
  by apply Z.mod_small.
Qed.

(** The budget that is left. *)
Lemma available_credits w s S :
  credit_ok None w -> scheds w !! s = Some S ->
  drm_sched_available_credits S = credit_limit S - inflight None w s.
Proof.
  intros Hc HS. pose proof (inflight_nonneg None w s Hc). destruct (co_sched _ _ Hc s S HS) as [E ?].
  unfold drm_sched_available_credits. rewrite E. apply u32_sub_s32. lia.
Qed.

(** Truncating the credits of a job that is not counted. *)
Lemma cinv_truncate w j J v :
  cinv None w -> jobs w !! j = Some J -> cb_linked J = false -> 0 <= v ->
  cinv None (set_jobs (<[j := set_credits v J]> (jobs w)) w).
Proof.
  intros [[H1 H2] HI] HJ Hl Hv. split; [split|].
  - intros k K. simpl. rewrite lookup_insert_Some. intros [[<- <-]|[_ HK]]; [done|by eapply H1].
  - intros s S HS. unfold inflight. simpl. rewrite (msum_update _ _ _ J) by done.
    assert (counted None s j J = 0) as -> by (unfold counted; by rewrite Hl).
    assert (counted None s j (set_credits v J) = 0) as -> by (unfold counted; simpl; by rewrite Hl).
    rewrite Z.sub_0_r, Z.add_0_r. by apply H2.
  - eapply jinv_view; [|done]. split; try done. simpl. by eapply fmap_insert_same.
Qed.

(** A ready entity of [s] whose first job fits into the budget. *)
Definition selected (w : world) (s : sid) (e : eid) : Prop :=
  exists E i j J S, entities w !! e = Some E /\ e_rq E = Some (s, i) /\ e_linked E = true /\
    hd_error (job_queue E) = Some j /\ jobs w !! j = Some J /\ scheds w !! s = Some S /\
    inflight None w s + credits J <= credit_limit S.

Lemma hd_elem {A} (l : list A) x : hd_error l = Some x -> x ∈ l.
Proof. destruct l; simpl; [done|]. intros [= ->]. set_solver. Qed.

Lemma can_queue_spec w s e E i :
  cinv None w -> entities w !! e = Some E -> e_rq E = Some (s, i) -> e_linked E = true ->
  wlp (drm_sched_can_queue s e) (fun b w' => cinv None w' /\ (b = true -> selected w' s e)) w.
Proof.
  intros Hc HE Hq Hl. unfold drm_sched_can_queue. do 2 wstep. simplify_eq.
  unfold drm_sched_entity_queue_peek. destruct (hd_error (job_queue E)) as [j|] eqn:Hj; [|by wstep].
  destruct (ji_queue _ (proj2 Hc) e E j HE (hd_elem _ _ Hj)) as (J & q & HJ & Hlj & _ & _ & Hq' & _).
  do 2 wstep. do 2 wstep. simplify_eq. rewrite Z.gtb_ltb.
  pose proof (inflight_nonneg None w s (proj1 Hc)) as H0.
  pose proof (co_sched _ _ (proj1 Hc) s S H) as [_ Hlim].
  destruct (Z.ltb_spec (credit_limit S) (credits J)).
  - do 2 wstep. do 2 wstep. wstep. simpl in *. simplify_eq. rewrite lookup_insert_eq in *. simplify_eq/=.
    pose proof (cinv_truncate w j J (credit_limit S) Hc HJ Hlj ltac:(lia)) as Hc1. split; [done|].
    rewrite Z.geb_leb. intros Hle%Z.leb_le.
    rewrite (available_credits (set_jobs (<[j := set_credits (credit_limit S) J]> (jobs w)) w) s S) in Hle
      by (done || apply Hc1).
    exists E, i, j, (set_credits (credit_limit S) J), S. simpl. rewrite lookup_insert_eq. split_and!; try done. lia.
  - do 2 wstep. do 2 wstep. wstep. simplify_eq. split; [done|]. rewrite Z.geb_leb. intros Hle%Z.leb_le.
    rewrite (available_credits w s S) in Hle by (done || apply Hc).
    exists E, i, j, J, S. split_and!; try done. lia.
Qed.

Lemma selected_view w w' s e : same_view w w' -> selected w s e -> selected w' s e.
Proof.
  intros Hv (E & i & j & J & S & HE & H1 & H2 & H3 & HJ & HS & H4).
  pose proof Hv as (Ej & Ee & Es & _).
  destruct (fmap_lookup_l _ _ _ _ _ Ee HE) as (E' & HE' & Ev).
  destruct (fmap_lookup_l _ _ _ _ _ Ej HJ) as (J' & HJ' & Jv).
  destruct (fmap_lookup_l _ _ _ _ _ Es HS) as (S' & HS' & Sv).
  injection Ev as Ev1 Ev2 Ev3 _. injection Jv as _ Jv _ _. injection Sv as _ Sv _ _ _.
  exists E', i, j, J', S'. rewrite !inflight_view, <- Ej, <- !inflight_view.
  split_and!; congruence.
Qed.

Lemma select_ready_spec w s i e c E :
  cinv None w -> entities w !! e = Some E -> e_rq E = Some (s, i) -> e_linked E = true ->
  wlp (select_ready s i e c) (fun r w' => cinv None w' /\
    match r with SelEntity e' => selected w' s e' | SelNone => False | SelNoSpace => True end) w.
Proof.
  intros Hc HE Hq Hl. unfold select_ready. wstep. eapply wlp_mono; [by eapply can_queue_spec|].
  intros b w1 [Hc1 Hs1]. cbv beta. destruct b; cbn [negb]; [|by wstep].
  assert (respects same_view ((if c then upd_rq (s, i) (set_current_entity (Some e)) else st_ret tt) ;;
    upd_entity e (set_entity_idle false))) as Hr by same.
  intros r w2. unfold st_bind.
  destruct ((if c then upd_rq (s, i) (set_current_entity (Some e)) else st_ret tt) w1) as [[[] w3]|] eqn:E3; [|done].
  destruct (upd_entity e (set_entity_idle false) w3) as [[[] w4]|] eqn:E4; [|done]. intros [= <- <-].
  assert (Hv : same_view w1 w4) by (apply (Hr w1 tt w4); unfold st_bind; by rewrite E3).
  split; [by eapply cinv_view|]. eapply selected_view; eauto.
Qed.

(** A selection in vain changes nothing. *)
Definition selection_post (w : world) (s : sid) (r : selection) (w' : world) : Prop :=
  cinv None w' /\
  match r with SelEntity e' => selected w' s e' | SelNone => w' = w | SelNoSpace => True end.

Lemma select_loop_spec w s i c last l :
  cinv None w -> (forall e, e ∈ l -> on_rq w e (s, i) \/ on_tree w e (s, i)) ->
  wlp (select_loop s i c last l) (selection_post w s) w.
Proof.
  induction l as [|e l IH]; intros Hc Hl; simpl; [by wstep|]. do 2 wstep.
  destruct (jinv_on_rq _ _ _ (proj2 Hc) (Hl e ltac:(set_solver))) as (E' & HE' & Hq & Hli & _). simplify_eq.
  case_match.
  - eapply wlp_mono; [by eapply select_ready_spec|]. intros r w1 [Hc1 Hr]. split; [done|]. by destruct r.
  - case_decide; [by wstep|]. apply IH; [done|]. set_solver.
Qed.

Lemma elem_of_after e c l : e ∈ after c l -> e ∈ l.
Proof. induction l as [|x l IH]; simpl; [done|]. case_decide; set_solver. Qed.

Lemma select_rr_spec w s i :
  cinv None w -> wlp (drm_sched_rq_select_entity_rr s i) (selection_post w s) w.
Proof.
  intros Hc. unfold drm_sched_rq_select_entity_rr, get_rq. do 3 wstep. wstep. simpl in *.
  assert (Hon : forall e, e ∈ rq_entities a -> on_rq w e (s, i) \/ on_tree w e (s, i)).
  { intros e He. left. by exists S, a. }
  wstep. eapply (wlp_mono _ (selection_post w s)).
  - destruct (current_entity a) as [c|]; [|by wstep]. apply select_loop_spec; [done|].
    intros e He. by eapply Hon, elem_of_after.
  - intros r w1 [Hc1 Hr]. destruct r; [by wstep|by wstep|]. subst w1. by apply select_loop_spec.
Qed.

Lemma select_fifo_spec w s i :
  cinv None w -> wlp (drm_sched_rq_select_entity_fifo s i) (selection_post w s) w.
Proof.
  intros Hc. unfold drm_sched_rq_select_entity_fifo, get_rq. do 3 wstep. wstep. simpl in *.
  apply select_loop_spec; [done|]. intros e He. right. by exists S, a.
Qed.

Lemma select_entity_spec fifo w s :
  cinv None w -> wlp (drm_sched_select_entity fifo s) (fun oe w' =>
    cinv None w' /\ match oe with Some e => selected w' s e | None => True end) w.
Proof.
  intros Hc. unfold drm_sched_select_entity. do 2 wstep. wstep. wstep; [by wstep|]. wstep. wstep.
  assert (H0 : forall i n, wlp (select_rqs fifo s i n) (selection_post w s) w).
  { intros i n. revert i. induction n as [|n IH]; intros i; simpl; [by wstep|]. wstep.
    eapply (wlp_mono _ (selection_post w s)); [destruct fifo; [by apply select_fifo_spec|by apply select_rr_spec]|].
    intros r w1 [Hc1 Hr]. destruct r; [by wstep|by wstep|]. subst w1. apply IH. }
  eapply wlp_mono; [apply H0|]. intros r w1 [Hc1 Hr]. wstep. split; [done|]. by destruct r.
Qed.

(** ** Taking a job off its queue *)

(** No fence and no work item is going to kill the job. *)
Definition unmarked (w : world) (j : jid) : Prop :=
  (forall f F, fences w !! f = Some F -> CbKill j ∉ f_cbs F) /\ j ∉ kill_works w.

(** A job of [s] on its way from the queue to the hardware, for which there are credits. *)
Definition taken (w : world) (s : sid) (j : jid) (o : option eid) : Prop :=
  exists J S, jobs w !! j = Some J /\ cb_linked J = false /\ j_entity J = o /\
    unfinished w j /\ armed_for w j J s /\ ~ is_pending w j /\ unmarked w j /\
    scheds w !! s = Some S /\ inflight None w s + credits J <= credit_limit S.

Lemma queued_unmarked w j : jinv w -> queued w j -> unmarked w j.
Proof.
  intros HI Hq. split.
  - intros f F HF Hin. destruct (ji_kill _ HI f F j HF Hin) as (_ & ? & _). done.
  - intros Hin. destruct (ji_kill_works _ HI j Hin) as (_ & ? & _). done.
Qed.
Lemma queued_not_pending w j : jinv w -> queued w j -> ~ is_pending w j.
Proof.
  intros HI (e & E & HE & Hj) (s & S & HS & Hp).
  destruct (ji_queue _ HI e E j HE Hj) as (J & q & HJ & _ & He & _).
  destruct (ji_pending _ HI s S j HS Hp) as (J' & HJ' & He' & _). congruence.
Qed.

Lemma selected_taken w s e :
  cinv None w -> selected w s e ->
  exists E j i, entities w !! e = Some E /\ e_rq E = Some (s, i) /\ e_linked E = true /\
    hd_error (job_queue E) = Some j /\ taken w s j (Some e).
Proof.
  intros [_ HI] (E & i & j & J & S & HE & Hq & Hl & Hj & HJ & HS & Hb). exists E, j, i. split_and!; try done.
  assert (Hqd : queued w j) by (exists e, E; split; [done|by apply hd_elem]).
  destruct (ji_queue _ HI e E j HE (hd_elem _ _ Hj)) as (J' & q & HJ' & H1 & H2 & H3 & H4 & H5). simplify_eq.
  exists J, S. split_and!; try done; [by apply queued_not_pending|by apply queued_unmarked].
Qed.

Lemma unmarked_view w w' j : same_view w w' -> unmarked w j -> unmarked w' j.
Proof.
  intros (_ & _ & _ & Ef & _ & Ek) [H1 H2]. split; [|by rewrite <- Ek].
  intros f F' HF' Hin. destruct (fmap_lookup_r _ _ _ _ _ Ef HF') as (F & HF & Ev).
  apply (H1 f F HF). by eapply fv_elem.
Qed.
Lemma taken_view w w' s j o : same_view w w' -> taken w s j o -> taken w' s j o.
Proof.
  intros Hv (J & S & HJ & H1 & H2 & H3 & H4 & H5 & H6 & HS & H7).
  pose proof Hv as (Ej & _ & Es & _). pose proof (same_view_j _ _ Hv) as Hvj.
  destruct (fmap_lookup_l _ _ _ _ _ Ej HJ) as (J' & HJ' & Jv).
  destruct (fmap_lookup_l _ _ _ _ _ Es HS) as (S' & HS' & Sv).
  injection Jv as Jv1 Jv2 Jv3 Jv4. injection Sv as _ Sv _ _ _.
  exists J', S'. split_and!; try congruence.
  - by eapply tr_unfinished.
  - eapply tr_armed; [done| |done]. unfold jvj. congruence.
  - by rewrite (core_pending (same_view_core _ _ Hv)).
  - by eapply unmarked_view.
  - rewrite !inflight_view, <- Ej, <- !inflight_view. lia.
Qed.

Lemma rq_step_queued e q w w' j : rq_step e q w w' -> queued w' j <-> queued w j.
Proof.
  intros Hst. pose proof (rs_entities _ _ _ _ Hst) as He. split; intros (e' & E & HE & Hj).
  - destruct (fmap_lookup_r _ _ _ _ _ He HE) as (E' & HE' & Ev). injection Ev as Ev _.
    exists e', E'. split; [done|congruence].
  - destruct (fmap_lookup_l _ _ _ _ _ He HE) as (E' & HE' & Ev). injection Ev as Ev _.
    exists e', E'. split; [done|congruence].
Qed.
Lemma taken_rq_step e q w w' s j o : rq_step e q w w' -> taken w s j o -> taken w' s j o.
Proof.
  intros Hst (J & S & HJ & H1 & H2 & H3 & H4 & H5 & H6 & HS & H7).
  destruct (fmap_lookup_l _ _ _ _ _ (rs_scheds _ _ _ _ Hst) HS) as (S' & HS' & Sv).
  injection Sv as _ Sv _ _. exists J, S'.
  unfold unfinished, armed_for, unmarked, inflight in *.
  rewrite <- (rs_jobs _ _ _ _ Hst), <- (rs_fences _ _ _ _ Hst), <- (rs_sfences _ _ _ _ Hst),
    <- (rs_kill _ _ _ _ Hst). split_and!; try done; try apply H4; try apply H6; try lia.
  intros (s' & S1 & HS1 & Hp). apply H5.
  destruct (fmap_lookup_r _ _ _ _ _ (rs_scheds _ _ _ _ Hst) HS1) as (S2 & HS2 & Sv2).
  injection Sv2 as _ _ Sv2 _. exists s', S2. split; [done|congruence].
Qed.

(** Jobs may leave a queue. *)
Lemma cinv_shrink x w e E l :
  cinv x w -> entities w !! e = Some E -> l `sublist_of` job_queue E ->
  cinv x (set_entities (<[e := set_job_queue l E]> (entities w)) w).
Proof.
  intros [[H1 H2] HI] HE Hsub.
  assert (Hq : forall j, queued (set_entities (<[e := set_job_queue l E]> (entities w)) w) j -> queued w j).
  { intros j (e' & E' & HE' & Hj). simpl in HE'. apply lookup_insert_Some in HE' as [[<- <-]|[_ HE']];
      [|by exists e', E']. exists e, E. split; [done|]. simpl in Hj. eapply sublist_subseteq; eauto. }
  assert (Hk : forall j, killed w j -> killed (set_entities (<[e := set_job_queue l E]> (entities w)) w) j).
  { intros j (K1 & K2 & K3 & K4). split_and!; [done|by intros ?%Hq|done|done]. }
  split; [by split|]. split; simpl; try apply HI.
  - intros e' E' j. rewrite lookup_insert_Some. intros [[<- <-]|[_ HE']] Hj; [|by apply (ji_queue _ HI)].
    simpl in Hj. destruct (ji_queue _ HI e E j HE) as (J & q & ?); [eapply sublist_subseteq; eauto|].
    by exists J, q.
  - intros e' E'. rewrite lookup_insert_Some. intros [[<- <-]|[_ HE']]; [|by eapply (ji_queue_nodup _ HI)].
    simpl. eapply sublist_NoDup; [|done]. by eapply (ji_queue_nodup _ HI).
  - intros f F j HF Hin. by eapply Hk, (ji_kill _ HI).
  - intros j Hj. by apply Hk, (ji_kill_works _ HI).
  - intros s S i R e' HS HR He'. destruct (ji_rq _ HI s S i R e' HS HR He') as (E' & HE' & ?).
    destruct (decide (e' = e)) as [->|]; [|exists E'; by rewrite lookup_insert_ne].
    simplify_eq. exists (set_job_queue l E). by rewrite lookup_insert_eq.
Qed.

(** A job that has left its queue forgets its entity. *)
Lemma cinv_forget_entity x w j J :
  cinv x w -> jobs w !! j = Some J -> cb_linked J = false -> ~ queued w j ->
  cinv x (set_jobs (<[j := set_j_entity None J]> (jobs w)) w).
Proof.
  intros [[H1 H2] HI] HJ Hl Hq.
  assert (Hlk : forall k, linked (set_jobs (<[j := set_j_entity None J]> (jobs w)) w) k <-> linked w k).
  { intros k. unfold linked. simpl. destruct (decide (k = j)) as [->|]; [|by rewrite lookup_insert_ne].
    rewrite lookup_insert_eq, HJ. split; intros (K & [= <-] & Hk); simpl in *; congruence. }
  assert (Hk : forall k, killed w k -> killed (set_jobs (<[j := set_j_entity None J]> (jobs w)) w) k).
  { intros k (K1 & K2 & K3 & K4). split_and!; [by rewrite Hlk|done|done|done]. }
  split; [split|split]; simpl; try apply HI.
  - intros k K. rewrite lookup_insert_Some. intros [[<- <-]|[_ HK]]; [by apply (H1 j J)|by eapply H1].
  - intros s S HS. unfold inflight. simpl. rewrite (msum_update _ _ _ J) by done.
    assert (counted x s j (set_j_entity None J) = counted x s j J) as -> by done.
    rewrite Z.sub_add. by apply H2.
  - intros k K. rewrite lookup_insert_Some. intros [[<- <-]|[_ HK]]; [simpl; congruence|by apply (ji_linked _ HI)].
  - intros e E k HE Hk'. destruct (ji_queue _ HI e E k HE Hk') as (K & q & HK & ?).
    exists K, q. rewrite lookup_insert_ne; [done|]. intros <-. apply Hq. by exists e, E.
  - intros s S k HS Hp. destruct (ji_pending _ HI s S k HS Hp) as (K & HK & ? & ?).
    destruct (decide (j = k)) as [<-|]; [|exists K; by rewrite lookup_insert_ne].
    simplify_eq. exists (set_j_entity None J). rewrite lookup_insert_eq. done.
  - intros f F k HF Hin. rewrite Hlk. by eapply (ji_done _ HI).
  - intros f F k HF Hin. by eapply Hk, (ji_kill _ HI).
  - intros k Hin. by apply Hk, (ji_kill_works _ HI).
Qed.

Definition pop_post (s : sid) (oj : option jid) (w' : world) : Prop :=
  cinv None w' /\ match oj with Some j => taken w' s j None /\ ~ queued w' j | None => True end.

(** The last step: the job forgets its entity. *)
Lemma forget_spec w s j e :
  cinv None w -> taken w s j (Some e) -> ~ queued w j ->
  wlp (upd_job j (set_j_entity None) ;; st_ret (Some j)) (pop_post s) w.
Proof.
  intros Hc (J & S & HJ & T1 & T2 & T3 & T4 & T5 & T6 & HS & T7) Hq. do 2 wstep. wstep. simplify_eq.
  split; [by apply cinv_forget_entity|]. split; [|done].
  exists (set_j_entity None J), S. simpl. rewrite lookup_insert_eq. split_and!; try done.
  unfold inflight in *. simpl. rewrite (msum_update _ _ _ J) by done.
  assert (counted None s j (set_j_entity None J) = counted None s j J) as -> by done. lia.
Qed.

(** Once the first job has left the queue, it is queued nowhere. *)
Lemma head_unqueued w e E j s :
  jinv w -> entities w !! e = Some E -> hd_error (job_queue E) = Some j -> taken w s j (Some e) ->
  ~ queued (set_entities (<[e := set_job_queue (tl (job_queue E)) E]> (entities w)) w) j.
Proof.
  intros HI HE Hj (J & S & HJ & _ & He & _) (e' & E' & HE' & Hin). simpl in HE'.
  apply lookup_insert_Some in HE' as [[<- <-]|[Hne HE']].
  - pose proof (ji_queue_nodup _ HI e E HE) as Hn. simpl in Hin.
    destruct (job_queue E); simplify_eq/=. by apply NoDup_cons in Hn as [? _].
  - destruct (ji_queue _ HI e' E' j HE' Hin) as (J' & ? & HJ' & _ & He' & _). congruence.
Qed.

Lemma pop_job_spec fifo w s e prep :
  cinv None w -> selected w s e ->
  wlp (drm_sched_entity_pop_job fifo e prep) (pop_post s) w.
Proof.
  intros Hc Hsel. destruct (selected_taken w s e Hc Hsel) as (E & j & i & HE & Hq & Hl & Hj & Ht).
  unfold drm_sched_entity_pop_job. do 2 wstep. simplify_eq. unfold drm_sched_entity_queue_peek at 1.
  rewrite Hj. do 2 wstep.
  apply (wlp_frame_bind same_view); [same|]. intros ok w1 H1.
  destruct ok; cbn [negb]; [|wstep; split; [by eapply cinv_view|done]].
  apply (wlp_frame_bind same_view); [same|]. intros _ w2 H2.
  apply (wlp_frame_bind same_view); [same|]. intros _ w3 H3.
  apply (wlp_frame_bind same_view); [same|]. intros _ w4 H4.
  apply (wlp_frame_bind same_view); [same|]. intros _ w5 H5.
  assert (Hv : same_view w w5) by (do 4 (etrans; [eassumption|]); done). clear H1 H2 H3 H4.
  pose proof (cinv_view _ _ _ Hv Hc) as Hc5. pose proof (taken_view _ _ _ _ _ Hv Ht) as Ht5.
  destruct (fmap_lookup_l _ _ _ _ _ (proj1 (proj2 Hv)) HE) as (E5 & HE5 & Ev). injection Ev as Ev1 Ev2 Ev3 _.
  rewrite <- Ev1, <- Ev2, <- Ev3 in *. clear dependent w w1 w2 w3 w4 E. rename w5 into w, E5 into E.
  do 2 wstep. simplify_eq.
  assert (Htl : tl (job_queue E) `sublist_of` job_queue E) by (destruct (job_queue E); simpl; auto using sublist_cons).
  pose proof (cinv_shrink None w e E _ Hc5 HE5 Htl) as Hc6.
  pose proof (head_unqueued w e E j s (proj2 Hc5) HE5 Hj Ht5) as Hnq.
  set (w6 := set_entities _ w) in *.
  assert (Ht6 : taken w6 s j (Some e)) by exact Ht5.
  do 2 wstep. simpl in *. rewrite lookup_insert_eq in *. simplify_eq/=.
  wstep. destruct fifo; [|wstep; by eapply forget_spec].
  destruct (drm_sched_entity_queue_peek _) as [k|]; [|wstep; by eapply forget_spec].
  do 2 wstep. do 2 wstep. simpl in *. simplify_eq.
  intros u w7 E7. eapply forget_spec.
  - eapply cinv_update_fifo in E7; [exact E7|done|apply lookup_insert_eq|done|done].
  - eapply taken_rq_step; [by eapply rqs_update_fifo|done].
  - rewrite (rq_step_queued e (s, i) w6 w7); [done|]. by eapply rqs_update_fifo.
Qed.

(** ** Handing a job to the driver *)

Lemma cinv_add_pending x w s S j J l :
  cinv x w -> scheds w !! s = Some S -> jobs w !! j = Some J -> j_entity J = None ->
  armed_for w j J s -> ~ is_pending w j -> unmarked w j -> l ≡ₚ j :: pending_list S ->
  cinv x (set_scheds (<[s := set_pending_list l S]> (scheds w)) w).
Proof.
  intros [[H1 H2] HI] HS HJ He Ha Hp [Hm1 Hm2] Hl.
  set (w' := set_scheds _ w).
  assert (Hpd : forall k, is_pending w' k -> k = j \/ is_pending w k).
  { intros k (s' & S' & HS' & Hk). simpl in HS'. apply lookup_insert_Some in HS' as [[<- <-]|[_ HS']].
    - simpl in Hk. rewrite Hl in Hk. apply elem_of_cons in Hk as [->|Hk]; [by left|right; by exists s, S].
    - right. by exists s', S'. }
  assert (Hk : forall k, k <> j -> killed w k -> killed w' k).
  { intros k Hne (K1 & K2 & K3 & K4). split_and!; [done|done| |done]. intros [?|?]%Hpd; done. }
  split; [split|split]; simpl; try apply HI; try done.
  - intros s' S'. rewrite lookup_insert_Some. intros [[<- <-]|[_ HS']]; [by apply (H2 s S)|by apply H2].
  - intros s' S' k. rewrite lookup_insert_Some. intros [[<- <-]|[_ HS']] Hin; [|by eapply (ji_pending _ HI)].
    simpl in Hin. rewrite Hl in Hin. apply elem_of_cons in Hin as [->|Hin]; [by exists J|by eapply (ji_pending _ HI)].
  - intros s' S'. rewrite lookup_insert_Some. intros [[<- <-]|[_ HS']]; [|by eapply (ji_pending_nodup _ HI)].
    simpl. rewrite Hl. constructor; [|by eapply (ji_pending_nodup _ HI)]. intros Hin. apply Hp. by exists s, S.
  - intros f F k HF Hin. apply Hk; [|by eapply (ji_kill _ HI)]. intros ->. by apply (Hm1 f F).
  - intros k Hin. apply Hk; [|by apply (ji_kill_works _ HI)]. by intros ->.
  - intros s' S' i R e'. rewrite lookup_insert_Some.
    intros [[<- <-]|[_ HS']] HR; [by apply (ji_rq _ HI s S)|by apply (ji_rq _ HI s' S')].
Qed.

Lemma cinv_set_parent x w j SF p :
  cinv x w -> sfences w !! j = Some SF -> ~ linked w j ->
  cinv x (set_sfences (<[j := set_parent p SF]> (sfences w)) w).
Proof.
  intros [[H1 H2] HI] HSF Hl.
  assert (Ha : forall k K s, armed_for w k K s -> armed_for (set_sfences (<[j := set_parent p SF]> (sfences w)) w) k K s).
  { intros k K s (Hs & SF' & HSF' & Hf). split; [done|]. simpl.
    destruct (decide (k = j)) as [->|]; [|exists SF'; by rewrite lookup_insert_ne].
    simplify_eq. exists (set_parent p SF). by rewrite lookup_insert_eq. }
  assert (Hk : forall k, killed w k -> killed (set_sfences (<[j := set_parent p SF]> (sfences w)) w) k).
  { intros k (K1 & K2 & K3 & SF' & s & HSF' & Hs). split_and!; [done..|].
    destruct (decide (k = j)) as [->|]; [|exists SF', s; simpl; by rewrite lookup_insert_ne].
    simplify_eq. exists (set_parent p SF), s. simpl. by rewrite lookup_insert_eq. }
  split; [by split|]. split; simpl; try apply HI.
  - intros k K HK Hlk. destruct (ji_linked _ HI k K HK Hlk) as (? & ? & (s & ?) & SF' & n & ? & ?).
    split_and!; try done; [exists s; by apply Ha|]. exists SF', n. rewrite lookup_insert_ne; [done|].
    intros <-. apply Hl. by exists K.
  - intros e E k HE Hin. destruct (ji_queue _ HI e E k HE Hin) as (J & q & ? & ? & ? & ? & ? & ?).
    exists J, q. split_and!; try done. by apply Ha.
  - intros s S k HS Hin. destruct (ji_pending _ HI s S k HS Hin) as (J & ? & ? & ?).
    exists J. split_and!; try done. by apply Ha.
  - intros f F k HF Hin. destruct (ji_done _ HI f F k HF Hin) as (Hlk & n & SF' & ? & ? & ?).
    split; [done|]. exists n, SF'. rewrite lookup_insert_ne; [done|]. intros <-. done.
  - intros f F k HF Hin. by eapply Hk, (ji_kill _ HI).
  - intros k Hin. by apply Hk, (ji_kill_works _ HI).
Qed.

(** A job the scheduler has begun, without its callback. *)
Definition begun (w : world) (s : sid) (j : jid) (p : option positive) : Prop :=
  exists J SF, jobs w !! j = Some J /\ cb_linked J = false /\ j_entity J = None /\
    unfinished w j /\ armed_for w j J s /\ is_pending w j /\ ~ queued w j /\
    sfences w !! j = Some SF /\ (is_Some p -> parent SF = p).

Lemma begun_core w w' s j p f :
  same_core w w' -> own_step f w w' -> f <> FFin j -> begun w s j p -> begun w' s j p.
Proof.
  intros Hco Hown Hf (J & SF & HJ & B1 & B2 & B3 & B4 & B5 & B6 & HSF & B7).
  pose proof Hco as (Ej & _ & _ & Esf).
  destruct (fmap_lookup_l _ _ _ _ _ Ej HJ) as (J' & HJ' & Jv). injection Jv as Jv1 _ Jv3 Jv4.
  exists J', SF. unfold armed_for. rewrite <- Esf, (core_pending Hco), (core_queued Hco), Jv3.
  split_and!; try congruence; try done; [by eapply own_unfinished|apply B4..].
Qed.
Lemma begun_view w w' s j p : same_view w w' -> begun w s j p -> begun w' s j p.
Proof.
  intros Hv. apply (begun_core _ _ _ _ _ (FExt 1)); [by apply same_view_core|by apply same_view_own|done].
Qed.

Lemma job_begin_spec x w s j :
  cinv x w -> taken w s j None -> ~ queued w j ->
  wlp (drm_sched_job_begin j) (fun _ w' => cinv x w' /\ begun w' s j None) w.
Proof.
  intros Hc (J & S & HJ & T1 & T2 & T3 & T4 & T5 & T6 & HS & T7) Hq. unfold drm_sched_job_begin.
  do 2 wstep. do 2 wstep. do 2 wstep. simplify_eq. pose proof T4 as (Hs & SF & HSF & Hf). simplify_eq.
  apply (wlp_frame same_view); [same|]. intros _ w1 H1. split.
  - eapply cinv_view; [done|]. eapply cinv_add_pending; eauto. by rewrite Permutation_app_comm.
  - eapply begun_view; [done|]. exists J, SF. split_and!; try done.
    eexists _, _. simpl. rewrite lookup_insert_eq. split; [done|]. simpl. set_solver.
Qed.

Section Run.
Context (alive : jid -> bool).

Lemma fence_scheduled_spec x w s j p :
  cinv x w -> begun w s j None ->
  wlp (drm_sched_fence_scheduled alive j p) (fun _ w' => cinv x w' /\ begun w' s j p) w.
Proof.
  intros Hc Hb. unfold drm_sched_fence_scheduled. wstep.
  eapply (wlp_mono _ (fun _ w' => cinv x w' /\ begun w' s j p)).
  - destruct p as [n|]; [|by wstep].
    apply (wlp_frame_bind same_view); [same|]. intros _ w1 H1.
    pose proof (cinv_view _ _ _ H1 Hc) as Hc1.
    destruct (begun_view _ _ _ _ _ H1 Hb) as (J & SF & HJ & B1 & B2 & B3 & B4 & B5 & B6 & HSF & B7).
    apply wlp_upd_sfence. intros SF' HSF'. assert (SF' = SF) as -> by congruence. split.
    + apply cinv_set_parent; [done|done|]. intros (K & HK & Hk). congruence.
    + exists J, (set_parent (Some n) SF). simpl. rewrite lookup_insert_eq. split_and!; try done.
      destruct B4 as (Hs & SF' & HSF1 & Hf). assert (SF' = SF) as -> by congruence. split; [done|].
      exists (set_parent (Some n) SF). simpl. by rewrite lookup_insert_eq.
  - intros u w1 [Hc1 Hb1]. cbv beta. intros u2 w2 E2. split.
    + eapply cinv_signal_own in E2; [exact E2|done|done].
    + eapply (begun_core w1 w2 s j p (FSched j)); [by eapply core_signal_own|by eapply own_signal_own|done|done].
Qed.

Lemma begun_done r w s j p :
  cinv (Some j) w -> begun w s j p -> wlp (drm_sched_job_done alive j r) (fun _ => cinv None) w.
Proof. intros Hc (J & SF & HJ & B1 & B2 & B3 & B4 & B5 & B6 & HSF & B7). by eapply cinv_job_done. Qed.

(** The callback goes on the hardware fence, or the job is done. *)
Lemma begun_complete w s j n (k : Z -> SM unit) :
  cinv (Some j) w -> begun w s j (Some n) ->
  (forall w', cinv None w' -> wlp (k 0) (fun _ => cinv None) w') ->
  wlp (k (- ENOENT)) (fun _ => cinv None) w ->
  wlp (st_bind (dma_fence_add_callback (FExt n) (CbDone j)) k) (fun _ => cinv None) w.
Proof.
  intros Hc (J & SF & HJ & B1 & B2 & B3 & B4 & B5 & B6 & HSF & B7) Hk0 Hk1. wstep.
  eapply wlp_mono; [eapply (cinv_add_done w n j J s SF); eauto|].
  intros c w' [[-> Hc']|[-> ->]]; [by apply Hk0|done].
Qed.

Lemma run_job_complete_spec w s j r :
  cinv (Some j) w -> begun w s j (run_fence r) ->
  wlp (run_job_complete alive j r) (fun _ => cinv None) w.
Proof.
  intros Hc Hb. unfold run_job_complete. destruct r as [n| |err]; [|by eapply begun_done..].
  apply (wlp_frame_bind same_view); [same|]. intros _ w1 H1.
  pose proof (cinv_view _ _ _ H1 Hc) as Hc1. pose proof (begun_view _ _ _ _ _ H1 Hb) as Hb1.
  eapply begun_complete; [done|done|intros w2 Hc2; cbv beta; change (0 =? - ENOENT) with false; cbv iota; by wstep|].
  cbv beta. rewrite Z.eqb_refl. do 2 wstep. by eapply begun_done.
Qed.

Lemma run_job_work_spec fifo w s prep r :
  cinv None w -> wlp (drm_sched_run_job_work fifo alive s prep r) (fun _ => cinv None) w.
Proof.
  intros Hc. unfold drm_sched_run_job_work.
  apply (wlp_frame_bind same_view); [same|]. intros _ w1 H1. pose proof (cinv_view _ _ _ H1 Hc) as Hc1.
  wstep. eapply wlp_mono; [by apply select_entity_spec|]. intros oe w2 [Hc2 Hs2]. cbv beta.
  destruct oe as [e|]; [|by wstep].
  wstep. eapply wlp_mono; [by apply pop_job_spec|]. intros oj w3 [Hc3 Hs3]. cbv beta.
  destruct oj as [j|]; [|eapply wlp_keep; [same|done]]. destruct Hs3 as [Ht3 Hq3].
  pose proof Ht3 as (J & S & HJ & T1 & T2 & T3 & T4 & T5 & T6 & HS & T7).
  do 2 wstep. do 2 wstep. simplify_eq.
  pose proof (count_up w3 s S j J Hc3 HJ T1 (proj1 T4) HS T7) as Hc4.
  wstep. eapply wlp_mono; [apply (job_begin_spec (Some j) _ s); [done| |done]|].
  { exists J, (set_credit_count (s32 (credit_count S + credits J)) S). simpl. rewrite lookup_insert_eq.
    split_and!; try done. intros (s' & S' & HS' & Hp). apply T5. simpl in HS'.
    apply lookup_insert_Some in HS' as [[<- <-]|[_ HS']]; [by exists s, S|by exists s', S']. }
  intros u w5 [Hc5 Hb5]. cbv beta.
  apply (wlp_frame_bind same_view); [same|]. intros _ w6 H6.
  apply (wlp_frame_bind same_view); [same|]. intros _ w7 H7.
  pose proof (transitivity H6 H7) as H67.
  wstep. eapply wlp_mono; [eapply (fence_scheduled_spec (Some j) w7 s j (run_fence r));
    [by eapply cinv_view|by eapply begun_view]|].
  intros u8 w8 [Hc8 Hb8]. cbv beta. wstep. eapply wlp_mono; [by eapply run_job_complete_spec|].
  intros u9 w9 Hc9. cbv beta. eapply wlp_keep; [same|done].
Qed.
End Run.
