(* ===== verification/SchedFree.v ===== *)
(** * The GPU scheduler: jobs end

    Freeing a finished job, killing the jobs of an entity, and the recovery of a hung
    scheduler keep the invariant. *)
From Stdlib Require Import ZArith Lia.
From stdpp Require Import base gmap list.
From S2P Require Import Prelude Sched SchedOps SchedInv SchedStep SchedRq SchedRun.
Local Open Scope Z_scope.
Local Open Scope st_scope.

(** ** Freeing *)

(** A job nobody holds. *)
Definition loose (w : world) (j : jid) : Prop := ~ linked w j /\ ~ queued w j /\ ~ is_pending w j.

Lemma killed_loose w j : killed w j -> loose w j.
Proof. by intros (? & ? & ? & _). Qed.
Lemma loose_core w w' j : same_core w w' -> loose w j -> loose w' j.
Proof. intros H. unfold loose. by rewrite (core_linked H), (core_queued H), (core_pending H). Qed.

Lemma msum_off (f : jid -> drm_sched_job -> Z) m m' j :
  (forall k, k <> j -> m' !! k = m !! k) ->
  (forall v, m !! j = Some v -> f j v = 0) -> (forall v, m' !! j = Some v -> f j v = 0) -> msum f m' = msum f m.
Proof.
  assert (Hd : forall m, (forall v, m !! j = Some v -> f j v = 0) -> msum f (delete j m) = msum f m).
  { intros n Hn. destruct (n !! j) as [v|] eqn:E; [|by rewrite delete_id].
    rewrite (msum_delete _ _ _ v), Hn by done. lia. }
  intros Hk H1 H2. rewrite <- (Hd m), <- (Hd m') by done. f_equal. apply map_eq. intros k.
  destruct (decide (k = j)) as [->|Hne]; [by rewrite !lookup_delete_eq|].
  rewrite !lookup_delete_ne by congruence. by apply Hk.
Qed.

(** A job nobody holds may change or go. *)
Lemma cinv_off_job w j m fr :
  cinv None w -> loose w j -> (forall k, k <> j -> m !! k = jobs w !! k) ->
  (forall J, m !! j = Some J -> cb_linked J = false /\ 0 <= credits J) ->
  cinv None (set_freed fr (set_jobs m w)).
Proof.
  intros [[H1 H2] HI] (Hl & Hq & Hp) Hm Hj. set (w' := set_freed fr _).
  assert (Hlk : forall k, linked w' k <-> linked w k).
  { intros k. destruct (decide (k = j)) as [->|Hne]; [|unfold linked; simpl; by rewrite Hm].
    split; [|done]. intros (K & HK & Hk). destruct (Hj K HK). congruence. }
  assert (Hk : forall k, killed w k -> killed w' k).
  { intros k (K1 & K2 & K3 & K4). split_and!; try done. by rewrite Hlk. }
  split; [split|split]; simpl; try apply HI.
  - intros k K HK. destruct (decide (k = j)) as [->|Hne]; [by apply Hj|]. rewrite Hm in HK by done. by eapply H1.
  - intros s S HS. unfold inflight. simpl. rewrite (msum_off _ (jobs w) m j); [by apply H2|done|..].
    + intros J HJ. unfold counted. destruct (cb_linked J) eqn:E; [|done]. destruct Hl. by exists J.
    + intros J HJ. unfold counted. by rewrite (proj1 (Hj J HJ)).
  - intros k K HK Hk'. assert (k <> j) by (intros ->; destruct (Hj K HK); congruence).
    rewrite Hm in HK by done. by apply (ji_linked _ HI).
  - intros e E k HE Hin. destruct (ji_queue _ HI e E k HE Hin) as (K & q & HK & ?). exists K, q.
    rewrite Hm; [done|]. intros ->. apply Hq. by exists e, E.
  - intros s S k HS Hin. destruct (ji_pending _ HI s S k HS Hin) as (K & HK & ?). exists K.
    rewrite Hm; [done|]. intros ->. apply Hp. by exists s, S.
  - intros f F k HF Hin. destruct (ji_done _ HI f F k HF Hin) as [? ?]. split; [by apply Hlk|done].
  - intros f F k HF Hin. by eapply Hk, (ji_kill _ HI).
  - intros k Hin. by apply Hk, (ji_kill_works _ HI).
Qed.

Lemma cinv_del_job w j fr :
  cinv None w -> loose w j -> cinv None (set_freed fr (set_jobs (delete j (jobs w)) w)).
Proof.
  intros Hc Hl. apply (cinv_off_job w j); [done|done|intros k Hne; by apply lookup_delete_ne|].
  intros J. by rewrite lookup_delete_eq.
Qed.

(** So may its fence, as long as a job that was killed stays armed. *)
Lemma cinv_off_sfence w j m :
  cinv None w -> loose w j -> (forall k, k <> j -> m !! k = sfences w !! k) ->
  (armed w j -> armed (set_sfences m w) j) -> cinv None (set_sfences m w).
Proof.
  intros [Hc HI] (Hl & Hq & Hp) Hm Hj. set (w' := set_sfences _ w).
  assert (Ha : forall k K s, k <> j -> armed_for w k K s -> armed_for w' k K s).
  { intros k K s Hne (Hs & SF' & HSF' & Hf). split; [done|]. exists SF'. simpl. by rewrite Hm. }
  assert (Hk : forall k, killed w k -> killed w' k).
  { intros k (K1 & K2 & K3 & K4). split_and!; try done. destruct (decide (k = j)) as [->|Hne]; [by apply Hj|].
    unfold armed. simpl. by rewrite Hm. }
  split; [destruct Hc; by split|]. split; simpl; try apply HI.
  - intros k K HK Hlk. destruct (ji_linked _ HI k K HK Hlk) as (? & ? & (s & ?) & SF' & n & ? & ?).
    assert (k <> j) by (intros ->; apply Hl; by exists K).
    split_and!; try done; [exists s; by apply Ha|]. exists SF', n. by rewrite Hm.
  - intros e E k HE Hin. destruct (ji_queue _ HI e E k HE Hin) as (J & q & ? & ? & ? & ? & ? & ?).
    exists J, q. split_and!; try done. apply Ha; [|done]. intros ->. apply Hq. by exists e, E.
  - intros s S k HS Hin. destruct (ji_pending _ HI s S k HS Hin) as (J & ? & ? & ?).
    exists J. split_and!; try done. apply Ha; [|done]. intros ->. apply Hp. by exists s, S.
  - intros f F k HF Hin. destruct (ji_done _ HI f F k HF Hin) as (Hlk & n & SF' & ? & ? & ?).
    split; [done|]. exists n, SF'. rewrite Hm; [done|]. intros ->. done.
  - intros f F k HF Hin. by eapply Hk, (ji_kill _ HI).
  - intros k Hin. by apply Hk, (ji_kill_works _ HI).
Qed.

(** The fence of a job that was never armed. *)
Lemma cinv_del_sfence w j SF :
  cinv None w -> loose w j -> sfences w !! j = Some SF -> fence_sched SF = None ->
  cinv None (set_sfences (delete j (sfences w)) w).
Proof.
  intros Hc Hl HSF Hn. apply (cinv_off_sfence w j); [done|done|intros k Hne; by apply lookup_delete_ne|].
  intros (SF' & s & HSF' & Hs). congruence.
Qed.

Lemma job_cleanup_spec w j :
  cinv None w -> loose w j ->
  wlp (drm_sched_job_cleanup j) (fun _ w' => cinv None w' /\ loose w' j) w.
Proof.
  intros Hc Hl. unfold drm_sched_job_cleanup. do 2 wstep. do 2 wstep. wstep.
  eapply (wlp_mono _ (fun _ w' => cinv None w' /\ loose w' j)).
  - destruct (fence_sched J0) eqn:E.
    + apply (wlp_frame same_view); [same|]. intros _ w1 H1. split; [by eapply cinv_view|].
      eapply loose_core; [by apply same_view_core|done].
    + wstep. split; [|done]. by eapply cinv_del_sfence.
  - intros u w1 [Hc1 Hl1]. apply (wlp_frame same_view); [same|]. intros _ w2 H2. split; [by eapply cinv_view|].
    eapply loose_core; [by apply same_view_core|done].
Qed.

Lemma free_job_spec w j : cinv None w -> loose w j -> wlp (free_job j) (fun _ => cinv None) w.
Proof.
  intros Hc Hl. unfold free_job. wstep. eapply wlp_mono; [by apply job_cleanup_spec|].
  intros u w1 [Hc1 Hl1]. wstep. by apply cinv_del_job.
Qed.

(** ** The pending list *)

Lemma cinv_shrink_pending w s S l :
  cinv None w -> scheds w !! s = Some S -> l `sublist_of` pending_list S ->
  cinv None (set_scheds (<[s := set_pending_list l S]> (scheds w)) w).
Proof.
  intros [[H1 H2] HI] HS Hsub. set (w' := set_scheds _ w).
  assert (Hp : forall k, is_pending w' k -> is_pending w k).
  { intros k (s' & S' & HS' & Hin). simpl in HS'. apply lookup_insert_Some in HS' as [[<- <-]|[_ HS']];
      [|by exists s', S']. exists s, S. split; [done|]. simpl in Hin. eapply sublist_subseteq; eauto. }
  assert (Hk : forall k, killed w k -> killed w' k).
  { intros k (K1 & K2 & K3 & K4). split_and!; try done. by intros ?%Hp. }
  split; [split|split]; simpl; try apply HI; try done.
  - intros s' S'. rewrite lookup_insert_Some. intros [[<- <-]|[_ HS']]; [by apply (H2 s S)|by apply H2].
  - intros s' S' k. rewrite lookup_insert_Some. intros [[<- <-]|[_ HS']] Hin; [|by eapply (ji_pending _ HI)].
    simpl in Hin. eapply (ji_pending _ HI); [done|]. eapply sublist_subseteq; eauto.
  - intros s' S'. rewrite lookup_insert_Some. intros [[<- <-]|[_ HS']]; [|by eapply (ji_pending_nodup _ HI)].
    simpl. eapply sublist_NoDup; [|done]. by eapply (ji_pending_nodup _ HI).
  - intros f F k HF Hin. by eapply Hk, (ji_kill _ HI).
  - intros k Hin. by apply Hk, (ji_kill_works _ HI).
  - intros s' S' i R e'. rewrite lookup_insert_Some.
    intros [[<- <-]|[_ HS']] HR; [by apply (ji_rq _ HI s S)|by apply (ji_rq _ HI s' S')].
Qed.

(** A pending job is pending once, and not queued. *)
Lemma pending_not_queued w j : jinv w -> is_pending w j -> ~ queued w j.
Proof. intros HI Hp Hq. by eapply queued_not_pending. Qed.

Lemma removed_not_pending w s S j l :
  jinv w -> scheds w !! s = Some S -> j ∈ pending_list S -> j ∉ l ->
  ~ is_pending (set_scheds (<[s := set_pending_list l S]> (scheds w)) w) j.
Proof.
  intros HI HS Hj Hn (s' & S' & HS' & Hin). simpl in HS'.
  apply lookup_insert_Some in HS' as [[<- <-]|[Hne HS']]; [done|].
  destruct (ji_pending _ HI s S j HS Hj) as (J & HJ & _ & Ha & _).
  destruct (ji_pending _ HI s' S' j HS' Hin) as (J' & HJ' & _ & Ha' & _). congruence.
Qed.

Lemma finished_not_linked w j F :
  jinv w -> fences w !! FFin j = Some F -> f_signaled F = true -> ~ linked w j.
Proof.
  intros HI HF Hs (J & HJ & Hl). destruct (ji_linked _ HI j J HJ Hl) as (_ & Hu & _).
  specialize (Hu F HF). congruence.
Qed.

Lemma get_finished_job_spec w s :
  cinv None w ->
  wlp (drm_sched_get_finished_job s) (fun oj w' => cinv None w' /\
    match oj with Some j => loose w' j | None => True end) w.
Proof.
  intros Hc. unfold drm_sched_get_finished_job. do 2 wstep.
  destruct (pending_list S) as [|j l] eqn:Ep; [by wstep|]. unfold dma_fence_is_signaled.
  do 3 wstep. wstep. destruct (f_signaled F) eqn:Es; cbn [negb]; [|by wstep]. do 2 wstep. simplify_eq.
  assert (Hsub : l `sublist_of` pending_list S) by (rewrite Ep; by apply sublist_cons).
  pose proof (cinv_shrink_pending w s S l Hc H Hsub) as Hc1.
  pose proof (ji_pending_nodup _ (proj2 Hc) s S H) as Hnd. rewrite Ep in Hnd. apply NoDup_cons in Hnd as [Hj _].
  assert (Hin : j ∈ pending_list S) by (rewrite Ep; set_solver).
  assert (Hloose : loose (set_scheds (<[s := set_pending_list l S]> (scheds w)) w) j).
  { split_and!.
    - by apply (finished_not_linked w j F (proj2 Hc)).
    - apply (pending_not_queued w j (proj2 Hc)). by exists s, S.
    - by apply removed_not_pending; [apply Hc|..]. }
  set (w1 := set_scheds _ w) in Hc1, Hloose.
  match goal with |- wlp _ _ ?w2 => assert (Hv : same_view w1 w2)
    by (repeat split; simpl; by rewrite !fmap_insert) end.
  wstep. apply (wlp_frame same_view); [same|]. intros _ w3 H3. pose proof (transitivity Hv H3) as H13. wstep.
  split; [by eapply cinv_view|]. eapply loose_core; [by apply same_view_core|done].
Qed.

Lemma free_job_work_spec w s : cinv None w -> wlp (drm_sched_free_job_work s) (fun _ => cinv None) w.
Proof.
  intros Hc. unfold drm_sched_free_job_work.
  apply (wlp_frame_bind same_view); [same|]. intros _ w1 H1.
  wstep. eapply wlp_mono; [apply get_finished_job_spec; by eapply cinv_view|]. intros oj w2 [Hc2 Hl2].
  wstep. eapply (wlp_mono _ (fun _ => cinv None)).
  - destruct oj as [j|]; [by apply free_job_spec|by wstep].
  - intros u w3 Hc3. eapply wlp_keep; [same|done].
Qed.

(** ** Killing *)

Section Kill.
Context (alive : jid -> bool).

Lemma kill_jobs_work_spec w j :
  cinv None w -> killed w j -> wlp (drm_sched_entity_kill_jobs_work alive j) (fun _ => cinv None) w.
Proof.
  intros Hc Hk. unfold drm_sched_entity_kill_jobs_work, drm_sched_fence_scheduled, drm_sched_fence_finished.
  wstep. wstep. wstep. intros u w1 E1.
  assert (Hco1 : same_core w w1) by (by eapply core_signal_own).
  eapply cinv_signal_own in E1; [|done|done]. cbv beta in E1.
  assert (Hk1 : killed w1 j) by (by rewrite (core_killed Hco1)).
  wstep. wstep. apply (wlp_frame same_view); [same|]. intros _ w2 H2.
  assert (Hk2 : killed w2 j) by (by rewrite (core_killed (same_view_core _ _ H2))).
  pose proof (cinv_view _ _ _ H2 E1) as Hc2. intros u3 w3 E3.
  assert (Hco3 : same_core w2 w3) by (by eapply core_signal_own).
  eapply cinv_signal_own in E3; [|done|]; cbv beta in E3.
  - apply free_job_spec; [done|]. apply killed_loose. by rewrite (core_killed Hco3).
  - intros k [= <-]. destruct Hk2 as (? & ? & _). done.
Qed.

Lemma core_kill_jobs_cb f j : respects same_core (drm_sched_entity_kill_jobs_cb alive f j).
Proof. core. Qed.

Lemma kill_loop_spec l prev w :
  cinv None w -> (forall j, j ∈ l -> killed w j) -> wlp (kill_loop alive l prev) (fun _ => cinv None) w.
Proof.
  revert prev w. induction l as [|j l IH]; intros prev w Hc Hl; simpl; [by wstep|].
  apply (wlp_frame_bind same_view); [same|]. intros _ w1 H1. pose proof (cinv_view _ _ _ H1 Hc) as Hc1.
  assert (Hl1 : forall k, k ∈ j :: l -> killed w1 k).
  { intros k Hk. rewrite (core_killed (same_view_core _ _ H1)). by apply Hl. }
  clear dependent w. wstep.
  eapply (wlp_mono _ (fun _ w2 => cinv None w2 /\ same_core w1 w2)).
  - destruct prev as [p|]; [|by wstep]. wstep. intros r w2 E2.
    assert (respects same_core (dma_fence_add_callback p (CbKill j))) as Hr by core.
    pose proof (Hr _ _ _ E2) as Hco. eapply cinv_add_kill in E2; [|done|apply Hl1; set_solver].
    wstep. done.
  - intros ok w2 [Hc2 Hco2]. wstep.
    eapply (wlp_mono _ (fun _ w3 => cinv None w3 /\ same_core w2 w3)).
    + destruct ok; [by wstep|]. apply (wlp_frame_bind same_view); [same|]. intros _ w3 H3. intros u4 w4 E4.
      assert (Hco4 : same_core w3 w4) by (by eapply core_kill_jobs_cb).
      split; [|etrans; [by apply same_view_core|done]].
      eapply cinv_kill_jobs_cb in E4; [exact E4|by eapply cinv_view|].
      rewrite (core_killed (same_view_core _ _ H3)), (core_killed Hco2). apply Hl1. set_solver.
    + intros u w3 [Hc3 Hco3]. apply IH; [done|]. intros k Hk.
      rewrite (core_killed Hco3), (core_killed Hco2). apply Hl1. set_solver.
Qed.

(** The jobs of a queue that is emptied. *)
Lemma emptied_killed w e E j :
  jinv w -> entities w !! e = Some E -> j ∈ job_queue E ->
  killed (set_entities (<[e := set_job_queue [] E]> (entities w)) w) j.
Proof.
  intros HI HE Hj. destruct (ji_queue _ HI e E j HE Hj) as (J & q & HJ & Hl & He & _ & _ & _ & SF & HSF & Hf).
  split_and!.
  - intros (K & HK & Hk). simpl in HK. congruence.
  - intros (e' & E' & HE' & Hin). simpl in HE'. apply lookup_insert_Some in HE' as [[<- <-]|[Hne HE']]; [set_solver|].
    destruct (ji_queue _ HI e' E' j HE' Hin) as (J' & q' & HJ' & _ & He' & _). congruence.
  - apply (queued_not_pending w j HI). by exists e, E.
  - by exists SF, (fst q).
Qed.

Lemma entity_kill_spec fifo w e :
  cinv None w -> (fifo = false -> forall e q, ~ on_tree w e q) ->
  wlp (drm_sched_entity_kill fifo alive e) (fun _ => cinv None) w.
Proof.
  intros Hc Hrr. unfold drm_sched_entity_kill. do 2 wstep. destruct (e_rq E) as [q|] eqn:Eq; [|by wstep].
  do 2 wstep. simplify_eq. match goal with |- wlp _ _ ?w1 => assert (Hv : same_view w w1)
    by (repeat split; by eapply fmap_insert_same) end.
  match type of Hv with same_view _ ?w1 => set (w1' := w1) in * end.
  pose proof (cinv_view _ _ _ Hv Hc) as Hc1. wstep.
  eapply wlp_mono; [eapply (cinv_remove_entity fifo None e q w1' (set_stopped true E)); [done|apply lookup_insert_eq|done|]|].
  { intros Hf. exact (Hrr Hf e q). }
  intros u w2 (Hc2 & Hst & _). cbv beta. wstep. wstep; [by wstep|]. wstep.
  apply (wlp_frame_bind same_view); [same|]. intros _ w3 H3. pose proof (cinv_view _ _ _ H3 Hc2) as Hc3.
  do 2 wstep. rename E0 into E3, H0 into HE3.
  assert (Hq3 : job_queue E3 = job_queue E).
  { destruct (fmap_lookup_r _ _ _ _ _ (proj1 (proj2 H3)) HE3) as (E2 & HE2 & Ev). injection Ev as Ev _ _ _.
    destruct (fmap_lookup_r _ _ _ _ _ (rs_entities _ _ _ _ Hst) HE2) as (E1 & HE1 & Ev1). injection Ev1 as Ev1 _.
    simpl in HE1. rewrite lookup_insert_eq in HE1. simplify_eq/=. congruence. }
  rewrite <- Hq3. wstep. eapply wlp_mono; [apply kill_loop_spec|].
  - apply cinv_shrink; [done|done|apply sublist_nil_l].
  - intros j Hj. apply emptied_killed; [apply Hc3|done|done].
  - intros p w4 Hc4. eapply wlp_keep; [same|done].
Qed.
End Kill.
