(* ===== verification/SchedRecover.v ===== *)
(** * The GPU scheduler: recovery

    Stopping a scheduler takes the callbacks of its jobs off the hardware fences and
    their credits back; starting it puts both back, within the same budget. *)
From Stdlib Require Import ZArith Lia.
From stdpp Require Import base gmap list.
From S2P Require Import Prelude Sched SchedOps SchedInv SchedStep SchedRq SchedRun SchedFree.
Local Open Scope Z_scope.
Local Open Scope st_scope.

(** ** What a change of one job leaves of the others *)

Record apart (j : jid) (w w' : world) : Prop := Apart {
  ap_jobs k : k <> j -> jv <$> jobs w !! k = jv <$> jobs w' !! k;
  ap_sfences k : k <> j -> sfences w !! k = sfences w' !! k;
  ap_unfinished k : k <> j -> unfinished w k -> unfinished w' k;
  ap_pending s k : k <> j ->
    (exists S, scheds w !! s = Some S /\ k ∈ pending_list S) <->
    (exists S, scheds w' !! s = Some S /\ k ∈ pending_list S);
  ap_queued k : queued w' k <-> queued w k;
  ap_limit : credit_limit <$> scheds w = credit_limit <$> scheds w'
}.

#[export] Instance apart_preorder j : PreOrder (apart j).
Proof.
  split; [by intros w; split|]. intros w1 w2 w3 [A1 A2 A3 A4 A5 A6] [B1 B2 B3 B4 B5 B6]. split.
  - intros k Hk. by rewrite A1, B1.
  - intros k Hk. by rewrite A2, B2.
  - intros k Hk Hu. by apply B3, A3.
  - intros s k Hk. by rewrite A4, B4.
  - intros k. by rewrite B5, A5.
  - congruence.
Qed.

Lemma core_pending_at w w' s k : same_core w w' ->
  (exists S, scheds w !! s = Some S /\ k ∈ pending_list S) <->
  (exists S, scheds w' !! s = Some S /\ k ∈ pending_list S).
Proof.
  intros (_ & _ & Es & _). split; intros (S & HS & Hk).
  - destruct (fmap_lookup_l _ _ _ _ _ Es HS) as (S' & ? & Ev). injection Ev as _ Ev _ _.
    exists S'. split; [done|congruence].
  - destruct (fmap_lookup_r _ _ _ _ _ Es HS) as (S' & ? & Ev). injection Ev as _ Ev _ _.
    exists S'. split; [done|congruence].
Qed.

Lemma apart_core j w w' : same_core w w' -> own_step (FFin j) w w' -> apart j w w'.
Proof.
  intros Hco Hown. split.
  - intros k _. destruct Hco as (Ej & _). by rewrite <- !lookup_fmap, Ej.
  - intros k _. by destruct Hco as (_ & _ & _ & ->).
  - intros k Hk. eapply own_unfinished; [done|congruence].
  - intros s k _. by apply core_pending_at.
  - intros k. apply (core_queued Hco).
  - destruct Hco as (_ & _ & Es & _). apply (fmap_coarser svc (fun '(l, _, _, _) => l) _ _ Es).
Qed.
Lemma apart_view j w w' : same_view w w' -> apart j w w'.
Proof. intros Hv. apply apart_core; [by apply same_view_core|by apply same_view_own]. Qed.
Lemma respects_apart {A} j (m : SM A) : respects same_view m -> respects (apart j) m.
Proof. intros H w a w' E. by eapply apart_view, H. Qed.

Lemma apart_upd_job j g : respects (apart j) (upd_job j g).
Proof.
  intros w u w' E. eapply (wlp_upd_job j g (fun _ => apart j w)) in E; [done|]. intros J HJ.
  split; try done. intros k Hk. simpl. by rewrite lookup_insert_ne.
Qed.
Lemma apart_upd_sfence j g : respects (apart j) (upd_sfence j g).
Proof.
  intros w u w' E. eapply (wlp_upd_sfence j g (fun _ => apart j w)) in E; [done|]. intros J HJ.
  split; try done. intros k Hk. simpl. by rewrite lookup_insert_ne.
Qed.
Lemma apart_upd_ext j n g : respects (apart j) (upd_fence (FExt n) g).
Proof.
  intros w u w' E. eapply (wlp_upd_fence (FExt n) g (fun _ => apart j w)) in E; [done|]. intros F HF.
  split; try done. intros k Hk Hu F'. simpl. rewrite lookup_insert_ne by done. apply Hu.
Qed.
Lemma apart_upd_sched j s g :
  (forall S, credit_limit (g S) = credit_limit S) ->
  (forall S k, k <> j -> k ∈ pending_list (g S) <-> k ∈ pending_list S) ->
  respects (apart j) (upd_sched s g).
Proof.
  intros Hl Hp w u w' E. eapply (wlp_upd_sched s g (fun _ => apart j w)) in E; [done|]. intros S HS.
  split; try done; simpl; [|by eapply fmap_insert_same].
  intros s' k Hk. destruct (decide (s' = s)) as [->|]; [|by rewrite lookup_insert_ne].
  rewrite lookup_insert_eq, HS. split; intros (S' & [= <-] & Hin).
  - eexists. split; [done|]. by rewrite Hp.
  - eexists. split; [done|]. by rewrite Hp in Hin.
Qed.
Lemma apart_del_job j fr : respects (apart j) (st_mod (fun w => set_freed (fr w) (set_jobs (delete j (jobs w)) w))).
Proof. apply respects_mod. intros w. split; try done. intros k Hk. simpl. by rewrite lookup_delete_ne. Qed.
Lemma apart_del_sfence j : respects (apart j) (st_mod (fun w => set_sfences (delete j (sfences w)) w)).
Proof. apply respects_mod. intros w. split; try done. intros k Hk. simpl. by rewrite lookup_delete_ne. Qed.

Lemma apart_job_done alive j r : respects (apart j) (drm_sched_job_done alive j r).
Proof.
  intros w u w' E. apply apart_core; [by eapply core_job_done|by eapply own_job_done].
Qed.

Ltac apart := repeat frame_step ltac:(idtac; first
  [ assumption | apply apart_upd_job | apply apart_upd_sfence | apply apart_upd_ext
  | apply apart_job_done | apply apart_del_job | apply apart_del_sfence
  | apply respects_apart; same_leaf
  | apply apart_upd_sched; intros; simpl; rewrite ?filter_ne_iff by done; (reflexivity || set_solver) ]).

Lemma apart_stop_job s bad j : respects (apart j) (stop_job s bad j).
Proof. apart. Qed.
Lemma apart_start_job alive s errno j : respects (apart j) (start_job alive s errno j).
Proof. apart. Qed.

(** What it means for a job that was stopped. *)
Lemma apart_begun j k w w' s p : apart j w w' -> k <> j -> begun w s k p -> begun w' s k p.
Proof.
  intros Ha Hk (J & SF & HJ & B1 & B2 & B3 & B4 & B5 & B6 & HSF & B7).
  pose proof (ap_jobs _ _ _ Ha k Hk) as Ej. rewrite HJ in Ej. simpl in Ej.
  destruct (jobs w' !! k) as [J'|] eqn:HJ'; [|done]. injection Ej as Jv1 _ Jv3 Jv4.
  pose proof (ap_sfences _ _ _ Ha k Hk) as Esf. rewrite HSF in Esf.
  exists J', SF. split_and!; try congruence.
  - by apply (ap_unfinished _ _ _ Ha).
  - destruct B4 as (Hs & SF' & HSF' & Hf). split; [congruence|]. exists SF. simplify_eq. by split.
  - destruct B5 as (s' & S & HS & Hin). exists s'. apply (ap_pending _ _ _ Ha s' k Hk). by exists S.
  - by rewrite (ap_queued _ _ _ Ha).
  - done.
Qed.
Lemma apart_loose j k w w' : apart j w w' -> k <> j -> loose w k -> loose w' k.
Proof.
  intros Ha Hk (L1 & L2 & L3). split_and!.
  - intros (K & HK & Hl). pose proof (ap_jobs _ _ _ Ha k Hk) as Ej. rewrite HK in Ej.
    destruct (jobs w !! k) as [K'|] eqn:HK'; [|done]. injection Ej as Ej _ _ _. apply L1. exists K'. split; [done|congruence].
  - by rewrite (ap_queued _ _ _ Ha).
  - intros (s & Hs). apply L3. exists s. by apply (ap_pending _ _ _ Ha s k Hk).
Qed.

(** ** The budget of the jobs that were stopped *)

Definition credit_of (w : world) (j : jid) : Z := match jobs w !! j with Some J => credits J | None => 0 end.

Lemma apart_credit j k w w' : apart j w w' -> k <> j -> credit_of w' k = credit_of w k.
Proof.
  intros Ha Hk. pose proof (ap_jobs _ _ _ Ha k Hk) as Ej. unfold credit_of.
  destruct (jobs w !! k), (jobs w' !! k); simplify_eq/=; [congruence|done].
Qed.

(** The credits of the jobs of a list that are not in [U]. *)
Definition but (w : world) (U : list jid) (k : jid) : Z := if decide (k ∈ U) then 0 else credit_of w k.

Lemma sumZ_but_cons w j U l :
  NoDup l -> j ∈ l -> j ∉ U -> sumZ (but w U) l = sumZ (but w (j :: U)) l + credit_of w j.
Proof.
  induction l as [|k l IH]; intros Hn Hj HU; [set_solver|]. apply NoDup_cons in Hn as [Hk Hn].
  rewrite !sumZ_cons. destruct (decide (k = j)) as [->|Hne].
  - assert (but w U j = credit_of w j) as -> by (unfold but; by rewrite decide_False).
    assert (but w (j :: U) j = 0) as -> by (unfold but; rewrite decide_True; [done|set_solver]).
    rewrite (sumZ_ext (but w U) (but w (j :: U)) l); [lia|]. intros x Hx. unfold but.
    assert (x <> j) by (by intros ->). case_decide; case_decide; set_solver.
  - rewrite IH by set_solver. assert (but w (j :: U) k = but w U k) as ->; [|lia].
    unfold but. case_decide; case_decide; set_solver.
Qed.

Lemma sumZ_but_filter w j U l : sumZ (but w (j :: U)) (filter (fun x => x <> j) l) = sumZ (but w (j :: U)) l.
Proof.
  induction l as [|k l IH]; [done|]. rewrite filter_cons, sumZ_cons. case_decide as Hk; [by rewrite sumZ_cons, IH|].
  rewrite IH. unfold but at 2. rewrite decide_True; [lia|]. set_solver.
Qed.

Lemma sumZ_but_apart w w' j U l : apart j w w' -> sumZ (but w' (j :: U)) l = sumZ (but w (j :: U)) l.
Proof.
  intros Ha. apply sumZ_ext. intros k _. unfold but. case_decide as Hk; [done|].
  apply (apart_credit j); [done|]. set_solver.
Qed.

(** The credits in flight, without and with one job. *)
Lemma inflight_split w s j :
  inflight None w s = msum (vcounted None s) (delete j (jv <$> jobs w)) +
    match jobs w !! j with Some J => counted None s j J | None => 0 end.
Proof.
  rewrite inflight_view. destruct (jobs w !! j) as [J|] eqn:HJ.
  - rewrite (msum_delete _ (jv <$> jobs w) j (jv J)) by (by rewrite lookup_fmap, HJ).
    change (vcounted None s j (jv J)) with (counted None s j J). lia.
  - rewrite delete_id by (by rewrite lookup_fmap, HJ). lia.
Qed.

Lemma apart_rest j w w' : apart j w w' -> delete j (jv <$> jobs w) = delete j (jv <$> jobs w').
Proof.
  intros Ha. apply map_eq. intros k. destruct (decide (k = j)) as [->|Hk]; [by rewrite !lookup_delete_eq|].
  rewrite !lookup_delete_ne, !lookup_fmap by done. by apply (ap_jobs _ _ _ Ha).
Qed.

Lemma counted_unlinked w s j :
  ~ linked w j -> match jobs w !! j with Some J => counted None s j J | None => 0 end = 0.
Proof.
  intros Hl. destruct (jobs w !! j) as [J|] eqn:HJ; [|done]. unfold counted.
  destruct (cb_linked J) eqn:E; [|done]. destruct Hl. by exists J.
Qed.

Lemma apart_inflight j w w' s :
  apart j w w' -> ~ linked w j -> ~ linked w' j -> inflight None w' s = inflight None w s.
Proof.
  intros Ha H1 H2. rewrite (inflight_split w s j), (inflight_split w' s j), (apart_rest _ _ _ Ha).
  by rewrite !counted_unlinked.
Qed.

(** ** Stopping *)

Lemma omap_sublist {A B} (f : A -> option B) (l k : list A) :
  l `sublist_of` k -> omap f l `sublist_of` omap f k.
Proof.
  induction 1 as [|x l k _ IH|x l k _ IH]; csimpl; [constructor|..]; destruct (f x); auto;
    by constructor.
Qed.

(** Taking the callback of a running job off its hardware fence. *)
Lemma remove_callback_spec w n j J SF :
  cinv None w -> jobs w !! j = Some J -> cb_linked J = true -> sfences w !! j = Some SF -> parent SF = Some n ->
  wlp (dma_fence_remove_callback_job n j) (fun r w' => r = true /\ cinv (Some j) w' /\
    jobs w' = <[j := set_cb_linked false J]> (jobs w) /\ scheds w' = scheds w /\ sfences w' = sfences w /\
    entities w' = entities w /\ (unfinished w j -> unfinished w' j)) w.
Proof.
  intros Hc HJ Hl HSF Hp. unfold dma_fence_remove_callback_job. do 2 wstep. simplify_eq. rewrite Hl.
  do 2 wstep. do 2 wstep. wstep. simpl in *. simplify_eq.
  split_and!; try done; [|intros Hu F'; simpl; rewrite lookup_insert_ne by done; apply Hu].
  refine (cinv_unlink (set_fences (<[FExt n := _]> (fences w)) w) j J _ HJ Hl _).
  - apply cinv_fence; simpl; [done|intros Hs; left; eauto| |].
    + intros c Hin. left. exists F. split; [done|]. by apply list_elem_of_filter in Hin as [_ ?].
    + eapply sublist_NoDup; [by eapply (ji_done_nodup _ (proj2 Hc))|].
      apply omap_sublist, sublist_filter.
  - intros f G. simpl. rewrite lookup_insert_Some. intros [[<- <-]|[Hne HG]] Hin.
    + simpl in Hin. apply list_elem_of_filter in Hin. tauto.
    + destruct (ji_done _ (proj2 Hc) f G j HG Hin) as (_ & n' & SF' & -> & HSF' & Hp'). congruence.
Qed.

Lemma free_job_gone j w : wlp (free_job j) (fun _ w' => jobs w' !! j = None) w.
Proof. unfold free_job. wstep. apply wlp_true. intros _ w'. wstep. simpl. apply lookup_delete_eq. Qed.
Lemma free_job_scheds j w : wlp (free_job j) (fun _ w' => scheds w' = scheds w) w.
Proof.
  assert (Hput : forall f w, wlp (dma_fence_put f) (fun _ w' => scheds w' = scheds w) w).
  { intros [f|] w0; unfold dma_fence_put, add_ref; by wstep. }
  assert (Hputs : forall l w, wlp (st_iter dma_fence_put l) (fun _ w' => scheds w' = scheds w) w).
  { induction l as [|f l IH]; intros w0; simpl; [by wstep|]. wstep. eapply wlp_mono; [apply Hput|].
    intros u1 w1 E1. eapply wlp_mono; [apply IH|]. intros u2 w2 E2. cbv beta in *. congruence. }
  unfold free_job, drm_sched_job_cleanup. wstep. do 2 wstep. do 2 wstep. wstep.
  eapply (wlp_mono _ (fun _ w' => scheds w' = scheds w)); [case_match; [apply Hput|by wstep]|].
  intros u w1 E1. eapply wlp_mono; [apply Hputs|]. intros u2 w2 E2. wstep. simpl. cbv beta in *. congruence.
Qed.

(** A job after [stop_job]: without its callback and its credits, to be started again; or
    off the list. *)
Definition stop_post (s : sid) (bad : option jid) (j : jid) (w : world) (S : drm_gpu_scheduler) (w' : world) : Prop :=
  cinv None w' /\ exists S', scheds w' !! s = Some S' /\
  ((begun w' s j None /\ pending_list S' = pending_list S /\
      inflight None w' s + credit_of w' j = inflight None w s /\ free_guilty S' = free_guilty S) \/
   (pending_list S' = filter (fun x => x <> j) (pending_list S) /\
      inflight None w' s = inflight None w s /\
      (bad <> Some j -> free_guilty S' = free_guilty S) /\ (bad = Some j -> loose w' j))).

Lemma stop_job_halt s bad j w S J SF n :
  cinv None w -> scheds w !! s = Some S -> j ∈ pending_list S ->
  jobs w !! j = Some J -> cb_linked J = true -> sfences w !! j = Some SF -> parent SF = Some n ->
  wlp (stop_job s bad j) (fun _ => stop_post s bad j w S) w.
Proof.
  intros Hc HS Hj HJ Hl HSF Hp. pose proof (proj2 Hc) as HI.
  destruct (ji_linked _ HI j J HJ Hl) as (He & Hu & (s0 & Ha) & _).
  destruct (ji_pending _ HI s S j HS Hj) as (J1 & HJ1 & _ & Hs & _).
  assert (Hpd : is_pending w j) by (by exists s, S).
  pose proof (pending_not_queued w j HI Hpd) as Hq.
  assert (s0 = s) as -> by (destruct Ha; congruence). intros u w' E'.
  pose proof (apart_stop_job s bad j w u w' E') as Hap. revert u w' E' Hap.
  change (wlp (stop_job s bad j) (fun _ w' => apart j w w' -> stop_post s bad j w S w') w).
  unfold stop_job. do 2 wstep. do 2 wstep. simplify_eq. rewrite Hp. wstep.
  eapply wlp_mono; [eapply (remove_callback_spec w n j J SF); eauto|].
  intros r w1 (-> & Hc1 & Ej1 & Es1 & Ef1 & Ee1 & Hu1). cbv iota beta.
  apply (wlp_frame_bind same_view); [same|]. intros _ w2 H2. pose proof (cinv_view _ _ _ H2 Hc1) as Hc2.
  assert (Hj2 : exists J2, jobs w2 !! j = Some J2 /\ jv J2 = jv (set_cb_linked false J)).
  { destruct H2 as (Ej & _). apply (fmap_lookup_l _ _ _ _ _ Ej). by rewrite Ej1, lookup_insert_eq. }
  destruct Hj2 as (J2 & HJ2 & Jv). injection Jv as Jv1 Jv2 Jv3 Jv4.
  assert (HS2 : exists S2, scheds w2 !! s = Some S2 /\ sv S2 = sv S).
  { destruct H2 as (_ & _ & Es & _). apply (fmap_lookup_l _ _ _ _ _ Es). by rewrite Es1. }
  destruct HS2 as (S2 & HS2 & Sv). injection Sv as _ _ Sv3 _ Sv5.
  assert (HSF2 : sfences w2 !! j = Some SF) by (destruct H2 as (_&_&_&_&Esf&_); congruence).
  assert (Hu2 : unfinished w2 j) by (eapply tr_unfinished; [by apply same_view_j|by apply Hu1]).
  assert (Hq2 : ~ queued w2 j).
  { rewrite (core_queued (same_view_core _ _ H2)). unfold queued. by rewrite Ee1. }
  wstep. apply wlp_upd_sfence. intros X HX. assert (X = SF) as -> by congruence.
  apply wlp_upd_sched. simpl. intros Y HY. assert (Y = S2) as -> by congruence. intros Hap.
  pose proof (cinv_set_parent (Some j) w2 j _ None Hc2 HSF2) as Hc3.
  assert (Hnl : ~ linked w2 j) by (intros (K & HK & Hk); congruence). specialize (Hc3 Hnl).
  rewrite <- Jv2. split; [refine (count_down _ s S2 j J2 Hc3 HJ2 _ _ HS2); congruence|].
  eexists. simpl. rewrite lookup_insert_eq. split; [done|]. left. simpl. split_and!; try congruence.
  - eexists J2, _. simpl. rewrite lookup_insert_eq. split_and!; try done; try congruence.
    + split; [congruence|]. eexists. simpl. rewrite lookup_insert_eq. split; [done|]. simpl.
      destruct Ha as (_ & SF' & HSF' & Hf). congruence.
    + eexists s, _. simpl. rewrite lookup_insert_eq. split; [done|]. simpl. congruence.
  - rewrite (inflight_split w s j), HJ. erewrite (inflight_split _ s j). simpl. rewrite HJ2.
    pose proof (apart_rest _ _ _ Hap) as Er. simpl in Er. rewrite <- Er.
    assert (counted None s j J2 = 0) as -> by (unfold counted; by rewrite Jv1).
    assert (counted None s j J = credits J) as ->.
    { unfold counted. rewrite Hl. simpl. by rewrite bool_decide_eq_true_2 by apply Ha. }
    unfold credit_of. simpl. rewrite HJ2. lia.
Qed.

Lemma stop_job_remove s bad j w S J :
  cinv None w -> scheds w !! s = Some S -> j ∈ pending_list S ->
  jobs w !! j = Some J -> cb_linked J = false ->
  wlp (stop_job s bad j) (fun _ => stop_post s bad j w S) w.
Proof.
  intros Hc HS Hj HJ Hl. pose proof (proj2 Hc) as HI.
  assert (Hnl : ~ linked w j) by (intros (K & HK & Hk); congruence).
  assert (Hpd : is_pending w j) by (by exists s, S).
  intros u w' E'. pose proof (apart_stop_job s bad j w u w' E') as Hap. revert u w' E' Hap.
  change (wlp (stop_job s bad j) (fun _ w' => apart j w w' -> stop_post s bad j w S w') w).
  unfold stop_job. do 2 wstep. do 2 wstep. simplify_eq. wstep.
  eapply (wlp_mono _ (fun r w' => r = false /\ w' = w)).
  { case_match; [|by wstep]. unfold dma_fence_remove_callback_job. do 2 wstep. simplify_eq. rewrite Hl. by wstep. }
  intros r w0 [-> ->]. cbv iota beta. wstep. apply wlp_upd_sched. intros X HX.
  assert (X = S) as -> by congruence. clear HX.
  pose proof (cinv_shrink_pending w s S _ Hc HS (sublist_filter (fun x => x <> j) (pending_list S))) as Hc1.
  set (w1 := set_scheds _ w) in *.
  assert (Hloose : loose w1 j).
  { split_and!; [done|by apply (pending_not_queued w)|]. apply removed_not_pending; try done.
    rewrite list_elem_of_filter. tauto. }
  assert (HS1 : scheds w1 !! s = Some (set_pending_list (filter (fun x => x <> j) (pending_list S)) S))
    by (by simpl; rewrite lookup_insert_eq).
  wstep. unfold dma_fence_is_signaled. wstep. wstep. wstep. wstep. wstep; [by wstep|]. wstep.
  case_decide as Hb.
  - apply wlp_upd_sched. intros X HX. assert (X = set_pending_list (filter (fun x => x <> j) (pending_list S)) S) as -> by congruence.
    intros Hap. split.
    + destruct Hc1 as [[C1 C2] C3]. split; [split|].
      * done.
      * intros s' S'. simpl. rewrite lookup_insert_Some. intros [[<- <-]|[_ HS']]; [by apply (C2 s _ HS1)|by apply C2].
      * eapply jinv_view; [|done]. split; try done. simpl. by eapply fmap_insert_same.
    + eexists. simpl. rewrite lookup_insert_eq. split; [done|]. right. split_and!; [done|done|done|]. intros _.
      destruct Hloose as (L1 & L2 & L3). split_and!; [done|done|]. intros (s' & S' & HS' & Hin). simpl in HS'.
      apply L3. apply lookup_insert_Some in HS' as [[<- <-]|[Hne HS']]; [by eexists s, _|]. by exists s', S'.
  - intros u w2 E2 Hap. pose proof (free_job_gone j w1 _ _ E2) as Hg. pose proof (free_job_scheds j w1 _ _ E2) as Es.
    cbv beta in Hg, Es. eapply free_job_spec in E2; [|done|done]. cbv beta in E2. split; [done|].
    eexists. rewrite Es. split; [done|]. right. split_and!; [done| |done|done].
    apply (apart_inflight j w w2 s Hap Hnl). intros (K & HK & _). congruence.
Qed.

Lemma stop_job_spec s bad j w S :
  cinv None w -> scheds w !! s = Some S -> j ∈ pending_list S ->
  wlp (stop_job s bad j) (fun _ => stop_post s bad j w S) w.
Proof.
  intros Hc HS Hj. destruct (ji_pending _ (proj2 Hc) s S j HS Hj) as (J & HJ & _).
  destruct (cb_linked J) eqn:Hl; [|by eapply stop_job_remove].
  destruct (ji_linked _ (proj2 Hc) j J HJ Hl) as (_ & _ & _ & SF & n & HSF & Hp).
  by eapply stop_job_halt.
Qed.

(** While the loop has the jobs [U] to visit: the others on the list have been stopped,
    and there is room for them. *)
Definition stop_inv (s : sid) (bad : option jid) (U : list jid) (w : world) : Prop :=
  cinv None w /\ exists S, scheds w !! s = Some S /\
    (forall k, k ∈ U -> k ∈ pending_list S) /\
    (forall k, k ∈ pending_list S -> (k ∉ U) -> begun w s k None) /\
    inflight None w s + sumZ (but w U) (pending_list S) <= credit_limit S /\
    (free_guilty S = true -> (exists k, bad = Some k /\ ~ (k ∈ U) /\ loose w k)).

Lemma apart_limit j w w' s S S' :
  apart j w w' -> scheds w !! s = Some S -> scheds w' !! s = Some S' -> credit_limit S' = credit_limit S.
Proof.
  intros Ha HS HS'. destruct (fmap_lookup_l _ _ _ _ _ (ap_limit _ _ _ Ha) HS) as (X & HX & E). congruence.
Qed.

Lemma stop_step s bad j U w :
  NoDup (j :: U) -> stop_inv s bad (j :: U) w -> wlp (stop_job s bad j) (fun _ => stop_inv s bad U) w.
Proof.
  intros [HjU HU]%NoDup_cons (Hc & S & HS & I1 & I2 & I3 & I4) u w' E.
  pose proof (apart_stop_job s bad j w u w' E) as Hap.
  assert (Hj : j ∈ pending_list S) by (apply I1; set_solver).
  pose proof (ji_pending_nodup _ (proj2 Hc) s S HS) as Hnd.
  eapply stop_job_spec in E; [|done|done|done]. destruct E as (Hc' & S' & HS' & Hcase). split; [done|].
  exists S'. rewrite (apart_limit _ _ _ _ _ _ Hap HS HS'). split; [done|].
  assert (Hbeg : forall k, k ∈ pending_list S -> k <> j -> (k ∉ U) -> begun w' s k None).
  { intros k Hk Hne HkU. apply (apart_begun j k w); [done..|]. apply I2; set_solver. }
  assert (Hguilty : free_guilty S = true -> (exists k, bad = Some k /\ ~ (k ∈ U) /\ loose w' k)).
  { intros Hf. destruct (I4 Hf) as (k & -> & Hk & Hl). exists k. split_and!; [done|set_solver|].
    apply (apart_loose j k w); [done|set_solver|done]. }
  destruct Hcase as [(Hb & Ep & Ei & Eg)|(Ep & Ei & Eg1 & Eg2)]; rewrite Ep.
  - split_and!.
    + intros k Hk. apply I1. set_solver.
    + intros k Hk HkU. destruct (decide (k = j)) as [->|]; [done|by apply Hbeg].
    + rewrite (sumZ_but_cons w' j) by done. rewrite (sumZ_but_apart w w') by done. lia.
    + by rewrite Eg.
  - split_and!.
    + intros k Hk. rewrite list_elem_of_filter. split; [by intros ->|]. apply I1. set_solver.
    + intros k [Hne Hk]%list_elem_of_filter HkU. by apply Hbeg.
    + rewrite (sumZ_ext _ (but w' (j :: U))).
      * rewrite sumZ_but_filter, (sumZ_but_apart w w') by done. lia.
      * intros k [Hne Hk]%list_elem_of_filter. unfold but. case_decide; case_decide; set_solver.
    + intros Hf. destruct (decide (bad = Some j)) as [Hb|Hb]; [|apply Hguilty; by rewrite <- Eg1].
      exists j. split_and!; [done|done|by apply Eg2].
Qed.

Lemma stop_loop s bad U w :
  NoDup U -> stop_inv s bad U w -> wlp (st_iter (stop_job s bad) U) (fun _ => stop_inv s bad []) w.
Proof.
  revert w. induction U as [|j U IH]; intros w Hn Hi; simpl; [by wstep|]. wstep.
  eapply wlp_mono; [by apply stop_step|]. intros u w1 Hi1. apply IH; [|done]. by apply NoDup_cons in Hn as [_ ?].
Qed.

(** ** After the stop, resubmission, start *)

Lemma stop_inv_view s bad w w' : same_view w w' -> stop_inv s bad [] w -> stop_inv s bad [] w'.
Proof.
  intros Hv (Hc & S & HS & I1 & I2 & I3 & I4). split; [by eapply cinv_view|].
  pose proof Hv as (Ej & _ & Es & _). destruct (fmap_lookup_l _ _ _ _ _ Es HS) as (S' & HS' & Sv).
  injection Sv as _ Sv2 Sv3 _ Sv5. exists S'. rewrite Sv2, Sv3, Sv5. split_and!; try done.
  - intros k Hk HU. eapply begun_view; [done|]. by apply I2.
  - rewrite (sumZ_ext _ (but w [])).
    + by rewrite !inflight_view, <- Ej, <- !inflight_view.
    + intros k _. unfold but. case_decide; [done|]. unfold credit_of.
      pose proof (f_equal (fun m => m !! k) Ej) as Ek. cbv beta in Ek. rewrite !lookup_fmap in Ek.
      destruct (jobs w !! k), (jobs w' !! k); simplify_eq/=; [congruence|done].
  - intros Hf. destruct (I4 Hf) as (k & -> & Hk & Hl). exists k. split_and!; try done.
    eapply loose_core; [by apply same_view_core|done].
Qed.

(** ** Flags that other operations leave alone: the mark of a guilty job, and the trees
    when the policy is round robin. *)

Definition flags (fifo : bool) (S : drm_gpu_scheduler) :=
  (free_guilty S, if fifo then [] else map rb_tree_root (sched_rq S)).
Definition same_flags (fifo : bool) (w w' : world) : Prop :=
  flags fifo <$> scheds w = flags fifo <$> scheds w'.
#[export] Instance same_flags_preorder fifo : PreOrder (same_flags fifo).
Proof. split; [by intros w|]. intros w1 w2 w3 H1 H2. unfold same_flags in *. congruence. Qed.

Lemma flags_core fifo w w' : same_core w w' -> same_flags fifo w w'.
Proof.
  intros (_ & _ & Es & _).
  pose proof (fmap_coarser svc (fun '(_, _, r, g) => (g, if fifo then [] else map snd r)) _ _ Es) as E.
  unfold same_flags. revert E. unfold svc, flags, rv. destruct fifo; [done|]. intros E.
  assert (Hm : forall S, map rb_tree_root (sched_rq S) =
    map snd (map (fun R => (rq_entities R, rb_tree_root R)) (sched_rq S))) by (intros; by rewrite map_map).
  erewrite (map_fmap_ext _ _ (scheds w)); [erewrite (map_fmap_ext _ _ (scheds w')); [exact E|]|];
    intros s S _; simpl; by rewrite Hm.
Qed.
Lemma respects_flags {A} fifo (m : SM A) : respects same_core m -> respects (same_flags fifo) m.
Proof. intros H w a w' E. by eapply flags_core, H. Qed.
Lemma flags_mod fifo f : (forall w, scheds (f w) = scheds w) -> respects (same_flags fifo) (st_mod f).
Proof. intros H. apply respects_mod. intros w. unfold same_flags. by rewrite H. Qed.
Lemma flags_upd_job fifo j g : respects (same_flags fifo) (upd_job j g).
Proof. intros w u w' E. by eapply (wlp_upd_job j g (fun _ => same_flags fifo w)) in E. Qed.
Lemma flags_upd_sfence fifo j g : respects (same_flags fifo) (upd_sfence j g).
Proof. intros w u w' E. by eapply (wlp_upd_sfence j g (fun _ => same_flags fifo w)) in E. Qed.
Lemma flags_upd_entity fifo j g : respects (same_flags fifo) (upd_entity j g).
Proof. intros w u w' E. by eapply (wlp_upd_entity j g (fun _ => same_flags fifo w)) in E. Qed.
Lemma flags_upd_sched fifo s g :
  (forall S, flags fifo (g S) = flags fifo S) -> respects (same_flags fifo) (upd_sched s g).
Proof.
  intros H w u w' E. eapply (wlp_upd_sched s g (fun _ => same_flags fifo w)) in E; [done|].
  intros S HS. by eapply fmap_insert_same.
Qed.
Lemma flags_upd_rq fifo q g :
  fifo = true \/ (forall R, rb_tree_root (g R) = rb_tree_root R) -> respects (same_flags fifo) (upd_rq q g).
Proof.
  intros H w u w' E. eapply (wlp_upd_rq q g (fun _ => same_flags fifo w)) in E; [done|].
  intros S R HS HR. eapply fmap_insert_same; [done|]. unfold flags. simpl.
  destruct fifo; [done|]. f_equal. destruct H as [|H]; [done|].
  etrans; [apply (list_fmap_insert rb_tree_root)|]. rewrite H. apply list_insert_id.
  by rewrite list_lookup_fmap, HR.
Qed.
Create HintDb schedflags.
Ltac flags_tac := repeat frame_step ltac:(idtac; first
  [ assumption | apply flags_upd_job | apply flags_upd_sfence | apply flags_upd_entity
  | apply flags_upd_sched; intros; reflexivity
  | apply flags_upd_rq; right; intros; simpl; repeat case_decide; reflexivity
  | apply flags_upd_rq; left; reflexivity
  | apply flags_mod; intros; reflexivity
  | apply respects_flags; core_leaf
  | solve [auto with schedflags nocore] ]).

Lemma flags_job_done fifo alive j r : respects (same_flags fifo) (drm_sched_job_done alive j r).
Proof. apply respects_flags, core_job_done. Qed.
#[export] Hint Resolve flags_job_done : schedflags.
Lemma flags_start_job fifo alive s errno j : respects (same_flags fifo) (start_job alive s errno j).
Proof. flags_tac. Qed.

(** The credits a job asks for do not change either. *)
Definition same_credits (w w' : world) : Prop := credits <$> jobs w = credits <$> jobs w'.
#[export] Instance same_credits_preorder : PreOrder same_credits.
Proof. split; [by intros w|]. intros w1 w2 w3 H1 H2. unfold same_credits in *. congruence. Qed.
Lemma credits_core w w' : same_core w w' -> same_credits w w'.
Proof. intros (Ej & _). apply (fmap_coarser jv (fun '(_, c, _, _) => c) _ _ Ej). Qed.
Lemma respects_credits {A} (m : SM A) : respects same_core m -> respects same_credits m.
Proof. intros H w a w' E. by eapply credits_core, H. Qed.
Lemma credits_link j b : respects same_credits (upd_job j (set_cb_linked b)).
Proof.
  intros w u w' E. eapply (wlp_upd_job j _ (fun _ => same_credits w)) in E; [done|].
  intros J HJ. by eapply fmap_insert_same.
Qed.
Lemma credits_start_job alive s errno j : respects same_credits (start_job alive s errno j).
Proof.
  pose proof (respects_credits _ (core_job_done alive j (if errno =? 0 then - ECANCELED else errno))) as H1.
  pose proof (fun r => respects_credits _ (core_job_done alive j r)) as H2.
  repeat frame_step ltac:(idtac; first [apply H2 | apply credits_link | apply respects_credits; core_leaf]).
Qed.

Lemma stop_inv_parent s bad w j SF p :
  stop_inv s bad [] w -> sfences w !! j = Some SF -> ~ linked w j ->
  stop_inv s bad [] (set_sfences (<[j := set_parent p SF]> (sfences w)) w).
Proof.
  intros (Hc & S & HS & I1 & I2 & I3 & I4) HSF Hl. split; [by apply cinv_set_parent|]. exists S.
  split_and!; try done. intros k Hk HU.
  destruct (I2 k Hk HU) as (K & SFk & B1 & B2 & B3 & B4 & (B5 & SF5 & HSF5 & B5') & B6 & B7 & HSFk & B8).
  destruct (decide (k = j)) as [->|Hne].
  - exists K, (set_parent p SF). simpl. rewrite lookup_insert_eq. split_and!; try done.
    split; [done|]. exists (set_parent p SF). simpl. rewrite lookup_insert_eq. simplify_eq. done.
  - exists K, SFk. simpl. rewrite lookup_insert_ne by done. split_and!; try done.
    split; [done|]. exists SF5. simpl. by rewrite lookup_insert_ne.
Qed.

Lemma begun_unlinked w s j p : begun w s j p -> ~ linked w j.
Proof. intros (J & SF & HJ & Hl & _) (K & HK & Hk). congruence. Qed.

Lemma resubmit_spec s bad found l rs w :
  stop_inv s bad [] w ->
  (forall S k, scheds w !! s = Some S -> k ∈ l -> k ∈ pending_list S) ->
  wlp (resubmit_loop s found l rs) (fun _ => stop_inv s bad []) w.
Proof.
  revert found rs w. induction l as [|j l IH]; intros found rs w Hi Hl; simpl; [by wstep|].
  do 2 wstep. do 2 wstep. do 2 wstep. rename S into S0, H1 into HS0.
  assert (Hnl : ~ linked w j).
  { destruct Hi as (_ & S & HS & _ & I2 & _). apply (begun_unlinked w s j None), I2; [|set_solver].
    apply (Hl S); [done|set_solver]. }
  apply (wlp_frame_bind same_view); [same|]. intros _ w1 H1v.
  pose proof (stop_inv_view _ _ _ _ H1v Hi) as Hi1.
  assert (Hnl1 : ~ linked w1 j) by (by rewrite (core_linked (same_view_core _ _ H1v))).
  assert (Hl1 : forall S k, scheds w1 !! s = Some S -> k ∈ l -> k ∈ pending_list S).
  { intros S k HS Hk. destruct (fmap_lookup_r _ _ _ _ _ (proj1 (proj2 (proj2 H1v))) HS) as (S' & HS' & Sv).
    injection Sv as _ _ Sv _ _. rewrite <- Sv. apply Hl; [done|set_solver]. }
  clear Hi Hl Hnl. wstep.
  eapply (wlp_mono _ (fun _ w2 => stop_inv s bad [] w2 /\ forall S k, scheds w2 !! s = Some S -> k ∈ l -> k ∈ pending_list S)).
  - destruct (default RNull (hd_error rs)) as [n| |err].
    + wstep. apply wlp_upd_sfence. intros SF HSF. apply (wlp_frame same_view); [same|]. intros _ w3 H3.
      split; [eapply stop_inv_view; [done|by apply stop_inv_parent]|].
      intros S k HS Hk. destruct (fmap_lookup_r _ _ _ _ _ (proj1 (proj2 (proj2 H3))) HS) as (S' & HS' & Sv).
      injection Sv as _ _ Sv _ _. rewrite <- Sv. by apply Hl1.
    + apply wlp_upd_sfence. intros SF HSF. split; [by apply stop_inv_parent|done].
    + apply (wlp_frame_bind same_view); [same|]. intros _ w3 H3.
      apply wlp_upd_sfence. intros SF HSF. split.
      * apply stop_inv_parent; [by eapply stop_inv_view|done|by rewrite (core_linked (same_view_core _ _ H3))].
      * intros S k HS Hk. destruct (fmap_lookup_r _ _ _ _ _ (proj1 (proj2 (proj2 H3))) HS) as (S' & HS' & Sv).
        injection Sv as _ _ Sv _ _. rewrite <- Sv. by apply Hl1.
  - intros u w2 [Hi2 Hl2]. by apply IH.
Qed.

(** While the jobs [U] are still to be started. *)
Definition start_inv (s : sid) (bad : option jid) (U : list jid) (w : world) : Prop :=
  cinv None w /\ exists S, scheds w !! s = Some S /\ (forall k, k ∈ U -> begun w s k None) /\
    inflight None w s + sumZ (credit_of w) U <= credit_limit S /\
    (free_guilty S = true -> (exists k, bad = Some k /\ ~ (k ∈ U) /\ loose w k)).

Lemma start_job_spec alive s errno j w S J :
  cinv None w -> begun w s j None -> jobs w !! j = Some J -> scheds w !! s = Some S ->
  inflight None w s + credits J <= credit_limit S ->
  wlp (start_job alive s errno j) (fun _ => cinv None) w.
Proof.
  intros Hc Hb HJ HS Hle. pose proof Hb as (J' & SF & HJ' & B1 & B2 & B3 & B4 & B5 & B6 & HSF & B7).
  assert (J' = J) as -> by congruence.
  unfold start_job. wstep. apply wlp_get_job. intros X HX. assert (X = J) as -> by congruence. clear HX.
  wstep. apply wlp_get_sfence. intros X HX. assert (X = SF) as -> by congruence. clear HX.
  wstep. apply wlp_upd_sched. intros X HX. assert (X = S) as -> by congruence. clear HX.
  pose proof (count_up w s S j J Hc HJ B1 (proj1 B4) HS Hle) as Hc1.
  set (w1 := set_scheds _ w) in *.
  assert (Hb1 : forall p, (is_Some p -> parent SF = p) -> begun w1 s j p).
  { intros p Hp. exists J, SF. split_and!; try done. destruct B5 as (s' & S' & HS' & Hin).
    destruct (decide (s' = s)) as [->|]; [|exists s', S'; simpl; by rewrite lookup_insert_ne].
    eexists s, _. simpl. rewrite lookup_insert_eq. split; [done|]. simplify_eq. done. }
  destruct (parent SF) as [n|] eqn:Ep; [|by eapply begun_done, Hb1].
  eapply begun_complete; [done|by apply Hb1|intros w2 Hc2; cbv beta; rewrite Z.eqb_refl; by wstep|].
  cbv beta. change (- ENOENT =? 0) with false. cbv iota. do 2 wstep. by eapply begun_done, (Hb1 None).
Qed.

Lemma flags_guilty fifo w w' s S S' :
  same_flags fifo w w' -> scheds w !! s = Some S -> scheds w' !! s = Some S' -> free_guilty S' = free_guilty S.
Proof.
  intros Hf HS HS'. destruct (fmap_lookup_l _ _ _ _ _ Hf HS) as (X & HX & E). injection E as E _. congruence.
Qed.

Lemma start_step alive s errno bad j U w :
  NoDup (j :: U) -> start_inv s bad (j :: U) w ->
  wlp (start_job alive s errno j) (fun _ => start_inv s bad U) w.
Proof.
  intros [HjU HU]%NoDup_cons (Hc & S & HS & I1 & I2 & I3) u w' E.
  pose proof (apart_start_job alive s errno j w u w' E) as Hap.
  pose proof (flags_start_job true alive s errno j w u w' E) as Hfl.
  pose proof (credits_start_job alive s errno j w u w' E) as Hcr.
  pose proof (I1 j ltac:(set_solver)) as Hb. pose proof Hb as (J & SF & HJ & Hl & _).
  assert (Hpos : 0 <= sumZ (credit_of w) U).
  { apply sumZ_nonneg. intros k _. unfold credit_of. destruct (jobs w !! k) eqn:EK; [|lia].
    by eapply (co_job _ _ (proj1 Hc)). }
  rewrite sumZ_cons in I2. unfold credit_of at 1 in I2. rewrite HJ in I2.
  assert (Hc' : cinv None w') by (eapply start_job_spec in E; eauto; lia). split; [done|].
  assert (is_Some (scheds w' !! s)) as [S' HS'].
  { destruct (fmap_lookup_l _ _ _ _ _ Hfl HS) as (X & ? & _). eauto. }
  exists S'. rewrite (apart_limit _ _ _ _ _ _ Hap HS HS'), (flags_guilty _ _ _ _ _ _ Hfl HS HS').
  split_and!; [done|..].
  - intros k Hk. apply (apart_begun j k w); [done|by intros ->|]. apply I1. set_solver.
  - rewrite (sumZ_ext _ (credit_of w)); [|intros k Hk; apply (apart_credit j); [done|by intros ->]].
    rewrite (inflight_split w' s j), <- (apart_rest _ _ _ Hap).
    rewrite (inflight_split w s j), counted_unlinked in I2 by (by eapply begun_unlinked).
    destruct (fmap_lookup_l _ _ _ _ _ Hcr HJ) as (J' & HJ' & Ec). rewrite HJ'.
    assert (counted None s j J' <= credits J'); [|lia]. unfold counted.
    pose proof (co_job _ _ (proj1 Hc') j J' HJ'). case_match; lia.
  - intros Hf. destruct (I3 Hf) as (k & -> & Hk & Hlk). exists k. split_and!; [done|set_solver|].
    apply (apart_loose j k w); [done|set_solver|done].
Qed.

Lemma start_loop alive s errno bad U w :
  NoDup U -> start_inv s bad U w ->
  wlp (st_iter (start_job alive s errno) U) (fun _ => start_inv s bad []) w.
Proof.
  revert w. induction U as [|j U IH]; intros w Hn Hi; simpl; [by wstep|]. wstep.
  eapply wlp_mono; [by apply start_step|]. intros u w1 Hi1. apply IH; [|done]. by apply NoDup_cons in Hn as [_ ?].
Qed.

(** What is left after the recovery. *)
Definition recovered (s : sid) (bad : option jid) (w : world) : Prop :=
  cinv None w /\ exists S, scheds w !! s = Some S /\
    (free_guilty S = true -> (exists k, bad = Some k /\ loose w k)).

Lemma recovered_view s bad w w' : same_view w w' -> recovered s bad w -> recovered s bad w'.
Proof.
  intros Hv (Hc & S & HS & I). split; [by eapply cinv_view|].
  destruct (fmap_lookup_l _ _ _ _ _ (proj1 (proj2 (proj2 Hv))) HS) as (S' & HS' & Sv).
  injection Sv as _ _ _ _ Sv. exists S'. split; [done|]. rewrite Sv. intros Hf.
  destruct (I Hf) as (k & -> & Hl). exists k. split; [done|]. eapply loose_core; [by apply same_view_core|done].
Qed.

Lemma start_spec alive s errno bad w :
  stop_inv s bad [] w -> wlp (drm_sched_start alive s errno) (fun _ => recovered s bad) w.
Proof.
  intros (Hc & S & HS & I1 & I2 & I3 & I4). unfold drm_sched_start. wstep. apply wlp_get_sched. intros X HX.
  assert (X = S) as -> by congruence. wstep.
  pose proof (ji_pending_nodup _ (proj2 Hc) s S HS) as Hnd.
  eapply wlp_mono; [apply (start_loop alive s errno bad); [done|]|].
  - split; [done|]. exists S. split_and!; [done|intros k Hk; apply I2; set_solver| |].
    + rewrite (sumZ_ext _ (but w [])); [done|]. intros k _. unfold but. rewrite decide_False; [done|set_solver].
    + intros Hf. destruct (I4 Hf) as (k & -> & _ & Hl). exists k. split_and!; [done| |done].
      intros Hin. destruct Hl as (_ & _ & Hl). apply Hl. by exists s, S.
  - intros u w1 (Hc1 & S1 & HS1 & _ & _ & I5). apply (wlp_frame same_view); [same|]. intros _ w2 H2.
    eapply recovered_view; [done|]. split; [done|]. exists S1. split; [done|]. intros Hf.
    destruct (I5 Hf) as (k & -> & _ & Hl). by exists k.
Qed.

Lemma elem_of_rev (k : jid) l : k ∈ rev l <-> k ∈ l.
Proof. by rewrite <- Permutation_rev. Qed.

Lemma stop_start_inv s bad w S :
  cinv None w -> scheds w !! s = Some S -> free_guilty S = false ->
  stop_inv s bad (rev (pending_list S)) w.
Proof.
  intros Hc HS Hf. split; [done|]. exists S. split_and!; [done| | | |congruence].
  - intros k Hk. by rewrite elem_of_rev in Hk.
  - intros k Hk []. by rewrite elem_of_rev.
  - rewrite (sumZ_ext _ (fun _ => 0)).
    + assert (sumZ (fun _ => 0) (pending_list S) = 0) as ->.
      { induction (pending_list S) as [|x l IH]; [done|]. rewrite sumZ_cons. lia. }
      destruct (co_sched _ _ (proj1 Hc) s S HS). lia.
    + intros k Hk. unfold but. rewrite decide_True; [done|]. by rewrite elem_of_rev.
Qed.

Lemma stop_spec_none s w S :
  cinv None w -> scheds w !! s = Some S -> free_guilty S = false ->
  wlp (drm_sched_stop s None) (fun _ => stop_inv s None []) w.
Proof.
  intros Hc HS Hf. unfold drm_sched_stop.
  apply (wlp_frame_bind same_view); [same|]. intros _ w1 H1. pose proof (cinv_view _ _ _ H1 Hc) as Hc1.
  destruct (fmap_lookup_l _ _ _ _ _ (proj1 (proj2 (proj2 H1))) HS) as (S1 & HS1 & Sv). injection Sv as _ _ _ _ Sv.
  wstep. wstep. wstep. apply wlp_get_sched. intros X HX. assert (X = S1) as -> by congruence. wstep.
  eapply wlp_mono; [apply stop_loop, stop_start_inv; try done|].
  - rewrite <- Permutation_rev. by eapply (ji_pending_nodup _ (proj2 Hc1)).
  - congruence.
  - intros u w2 Hi. apply (wlp_frame same_view); [same|]. intros _ w3 H3. by eapply stop_inv_view.
Qed.

(** A job that was taken off the pending list to be handled. *)
Definition handled (w : world) (s : sid) (j : jid) : Prop :=
  exists J, jobs w !! j = Some J /\ j_entity J = None /\ armed_for w j J s /\ ~ is_pending w j /\ unmarked w j.

Lemma handled_view w w' s j : same_view w w' -> handled w s j -> handled w' s j.
Proof.
  intros Hv (J & HJ & H1 & H2 & H3 & H4). pose proof Hv as (Ej & _).
  destruct (fmap_lookup_l _ _ _ _ _ Ej HJ) as (J' & HJ' & Jv). injection Jv as Jv1 Jv2 Jv3 Jv4.
  exists J'. split_and!; [done|congruence| |by rewrite (core_pending (same_view_core _ _ Hv))|by eapply unmarked_view].
  eapply tr_armed; [by apply same_view_j| |done]. unfold jvj. congruence.
Qed.

Lemma stop_spec_some s w S j :
  cinv None w -> scheds w !! s = Some S -> free_guilty S = false -> handled w s j ->
  wlp (drm_sched_stop s (Some j)) (fun _ => stop_inv s (Some j) []) w.
Proof.
  intros Hc HS Hf Hh. unfold drm_sched_stop.
  apply (wlp_frame_bind same_view); [same|]. intros _ w1 H1. pose proof (cinv_view _ _ _ H1 Hc) as Hc1.
  destruct (fmap_lookup_l _ _ _ _ _ (proj1 (proj2 (proj2 H1))) HS) as (S1 & HS1 & Sv). injection Sv as _ _ _ _ Sv.
  destruct (handled_view _ _ _ _ H1 Hh) as (J & HJ & A1 & A2 & A3 & A4).
  wstep. wstep. apply wlp_get_job. intros X HX. assert (X = J) as -> by congruence.
  rewrite decide_True by apply A2. apply wlp_upd_sched. intros Y HY. assert (Y = S1) as -> by congruence.
  pose proof (cinv_add_pending None w1 s S1 j J (j :: pending_list S1) Hc1 HS1 HJ A1 A2 A3 A4 ltac:(done)) as Hc2.
  set (w2 := set_scheds _ w1) in *.
  assert (HS2 : scheds w2 !! s = Some (set_pending_list (j :: pending_list S1) S1)) by (by simpl; rewrite lookup_insert_eq).
  wstep. apply wlp_get_sched. intros Z HZ. assert (Z = set_pending_list (j :: pending_list S1) S1) as -> by congruence.
  wstep. eapply wlp_mono; [apply stop_loop, stop_start_inv; try done|].
  - rewrite <- Permutation_rev. by eapply (ji_pending_nodup _ (proj2 Hc2)).
  - simpl. congruence.
  - intros u w3 Hi. apply (wlp_frame same_view); [same|]. intros _ w4 H4. by eapply stop_inv_view.
Qed.

Section Recover.
Context (alive : jid -> bool).

Lemma resubmit_start_spec s bad rs errno w :
  stop_inv s bad [] w ->
  wlp (drm_sched_resubmit_jobs s rs ;; drm_sched_start alive s errno) (fun _ => recovered s bad) w.
Proof.
  intros Hi. wstep. unfold drm_sched_resubmit_jobs. wstep. apply wlp_get_sched. intros S HS.
  eapply wlp_mono; [apply (resubmit_spec s bad); [done|]|].
  - intros S' k HS' Hk. by simplify_eq.
  - intros u w1 Hi1. by apply start_spec.
Qed.

Lemma recover_spec s rs errno w S :
  cinv None w -> scheds w !! s = Some S -> free_guilty S = false ->
  wlp (recover alive s None rs errno) (fun _ => recovered s None) w.
Proof.
  intros Hc HS Hf. unfold recover. wstep. eapply wlp_mono; [by eapply stop_spec_none|].
  intros u w1 Hi. by apply resubmit_start_spec.
Qed.

Lemma timedout_job_spec s rs errno w S j :
  cinv None w -> scheds w !! s = Some S -> free_guilty S = false -> handled w s j ->
  wlp (timedout_job alive s rs errno j) (fun _ => recovered s (Some j)) w.
Proof.
  intros Hc HS Hf Hh. unfold timedout_job. apply (wlp_frame_bind same_view); [same|]. intros _ w1 H1.
  destruct (fmap_lookup_l _ _ _ _ _ (proj1 (proj2 (proj2 H1))) HS) as (S1 & HS1 & Sv). injection Sv as _ _ _ _ Sv.
  wstep. unfold recover. wstep. eapply wlp_mono.
  - eapply stop_spec_some; [by eapply cinv_view|done|congruence|by eapply handled_view].
  - intros u w2 Hi. eapply wlp_mono; [by apply (resubmit_start_spec s (Some j))|]. intros u3 w3 Hr. by wstep.
Qed.

(** The mark of a guilty job is not part of the invariant. *)
Lemma cinv_guilty x w s S b :
  cinv x w -> scheds w !! s = Some S ->
  cinv x (set_scheds (<[s := set_free_guilty b S]> (scheds w)) w).
Proof.
  intros [[H1 H2] HI] HS. split.
  - split; [done|]. intros s0 S0. simpl. rewrite lookup_insert_Some.
    intros [[<- <-]|[_ ?]]; [apply (H2 s S HS)|by apply H2].
  - refine (jinv_view _ HI). split; try done. simpl. by eapply fmap_insert_same.
Qed.

(** The timeout handler as a whole; afterwards no job is marked guilty. *)
Definition settled (s : sid) (w : world) : Prop :=
  cinv None w /\ exists S, scheds w !! s = Some S /\ free_guilty S = false.

Lemma settled_view s w w' : same_view w w' -> settled s w -> settled s w'.
Proof.
  intros Hv (Hc & S & HS & Hf). split; [by eapply cinv_view|].
  destruct (fmap_lookup_l _ _ _ _ _ (proj1 (proj2 (proj2 Hv))) HS) as (S' & HS' & Sv).
  injection Sv as _ _ _ _ Sv. exists S'. split; [done|congruence].
Qed.

Lemma timedout_free s w j (b : bool) :
  recovered s (Some j) w ->
  wlp (S' <- get_sched s ;;
       (if free_guilty S' then free_job j ;; upd_sched s (set_free_guilty false) else st_ret tt) ;;
       st_ret b) (fun _ => settled s) w.
Proof.
  intros (Hc & S & HS & Hg). wstep. apply wlp_get_sched. intros Z HZ. assert (Z = S) as -> by congruence.
  wstep. destruct (free_guilty S) eqn:Ef.
  - destruct (Hg eq_refl) as (k & [= <-] & Hl). wstep. eapply wlp_mono; [by apply free_job_spec|].
    intros u w1 Hc1. apply wlp_upd_sched. intros S1 HS1. wstep. split; [by apply cinv_guilty|].
    eexists. simpl. by rewrite lookup_insert_eq.
  - wstep. wstep. split; [done|]. by exists S.
Qed.

Lemma job_timedout_spec s rs errno w S :
  cinv None w -> scheds w !! s = Some S -> free_guilty S = false ->
  wlp (drm_sched_job_timedout (timedout_job alive s rs errno) s) (fun _ => settled s) w.
Proof.
  intros Hc HS Hf. unfold drm_sched_job_timedout. wstep. apply wlp_get_sched. intros X HX.
  assert (X = S) as -> by congruence. wstep. eapply (wlp_mono _ (fun _ => settled s)).
  - destruct (pending_list S) as [|j l] eqn:Ep; [wstep; split; [done|by exists S]|].
    wstep. apply wlp_upd_sched. intros Y HY. assert (Y = S) as -> by congruence.
    assert (Hsub : l `sublist_of` pending_list S) by (rewrite Ep; by apply sublist_cons).
    assert (Hj : j ∈ pending_list S) by (rewrite Ep; set_solver).
    pose proof (ji_pending_nodup _ (proj2 Hc) s S HS) as Hnd. rewrite Ep in Hnd. apply NoDup_cons in Hnd as [Hjl _].
    pose proof (cinv_shrink_pending w s S l Hc HS Hsub) as Hc1.
    assert (Hh : handled (set_scheds (<[s := set_pending_list l S]> (scheds w)) w) s j).
    { destruct (ji_pending _ (proj2 Hc) s S j HS Hj) as (J & HJ & A1 & A2). exists J. split_and!; try done.
      - by apply removed_not_pending; [apply Hc|..].
      - split; [|intros Hin; destruct (ji_kill_works _ (proj2 Hc) j Hin) as (_ & _ & Hp & _)]; [|apply Hp; by exists s, S].
        intros f F HF Hin. destruct (ji_kill _ (proj2 Hc) f F j HF Hin) as (_ & _ & Hp & _). apply Hp. by exists s, S. }
    wstep. eapply (wlp_mono _ (fun _ => recovered s (Some j))); [|intros b w2 Hr; by apply timedout_free].
    eapply (timedout_job_spec s rs errno _ (set_pending_list l S)); [done|simpl; by rewrite lookup_insert_eq|done|done].
  - intros b w1 Hs. destruct b; [by wstep|]. apply (wlp_frame same_view); [same|]. intros _ w2 H2.
    by eapply settled_view.
Qed.
End Recover.
