(* ===== verification/SchedReach.v ===== *)
(** * The GPU scheduler: the invariant holds in every state it reaches

    What the operations of [SchedOps] that the other files do not treat keep of [cinv]:
    submitting a job, choosing its run queue, entities that begin and end; and the
    induction over the operations. *)
From Stdlib Require Import ZArith Lia.
From stdpp Require Import base gmap list.
From S2P Require Import Prelude Sched SchedOps SchedInv SchedStep SchedRq SchedRun SchedFree SchedRecover.
Local Open Scope Z_scope.
Local Open Scope st_scope.

(** ** Between operations no job is marked guilty, and the trees are used by the FIFO
    policy only *)

Definition calm_sched (fifo : bool) (S : drm_gpu_scheduler) : Prop :=
  free_guilty S = false /\ (fifo = false -> forall R, R ∈ sched_rq S -> rb_tree_root R = []).
Definition calm (fifo : bool) (w : world) : Prop :=
  forall s S, scheds w !! s = Some S -> calm_sched fifo S.

Lemma calm_flags fifo S S' : flags fifo S = flags fifo S' -> calm_sched fifo S -> calm_sched fifo S'.
Proof.
  unfold flags. intros E [H1 H2]. injection E as E1 E2. split; [congruence|]. intros -> R' HR'.
  assert (Hin : rb_tree_root R' ∈ map rb_tree_root (sched_rq S')) by (by apply (list_elem_of_fmap_2 rb_tree_root)).
  rewrite <- E2 in Hin. apply (list_elem_of_fmap_1 rb_tree_root) in Hin as (R & -> & HR). by apply H2.
Qed.
Lemma calm_same fifo w w' : same_flags fifo w w' -> calm fifo w -> calm fifo w'.
Proof.
  intros Hf Hw s S' HS'. destruct (fmap_lookup_r _ _ _ _ _ Hf HS') as (S & HS & E).
  eapply calm_flags; [done|by eapply Hw].
Qed.
Lemma calm_tree fifo w : calm fifo w -> fifo = false -> forall e q, ~ on_tree w e q.
Proof.
  intros Hw Hf e q (S & R & HS & HR & He). destruct (Hw _ _ HS) as [_ H].
  rewrite (H Hf R) in He; [set_solver|]. by eapply list_elem_of_lookup_2.
Qed.

(** Operations that recover one scheduler may leave a mark on it. *)
Definition flags_at (fifo : bool) (s s' : sid) (S : drm_gpu_scheduler) :=
  (if decide (s' = s) then false else free_guilty S, snd (flags fifo S)).
Definition flags_but (fifo : bool) (s : sid) (w w' : world) : Prop :=
  forall s', flags_at fifo s s' <$> scheds w !! s' = flags_at fifo s s' <$> scheds w' !! s'.
#[export] Instance flags_but_preorder fifo s : PreOrder (flags_but fifo s).
Proof. split; [by intros w s'|]. intros w1 w2 w3 H1 H2 s'. by rewrite H1. Qed.

Lemma flags_but_same fifo s w w' : same_flags fifo w w' -> flags_but fifo s w w'.
Proof.
  intros H s'. assert (E : (flags fifo <$> scheds w) !! s' = (flags fifo <$> scheds w') !! s') by (by rewrite H).
  rewrite !lookup_fmap in E. unfold flags in E. destruct (scheds w !! s'), (scheds w' !! s'); simpl in *; try done.
  injection E as E1 E2. unfold flags_at. simpl. by rewrite E1, E2.
Qed.
Lemma respects_but {A} fifo s (m : SM A) : respects (same_flags fifo) m -> respects (flags_but fifo s) m.
Proof. intros H w a w' E. by eapply flags_but_same, H. Qed.
Lemma but_upd_sched fifo s g :
  (forall S, snd (flags fifo (g S)) = snd (flags fifo S)) -> respects (flags_but fifo s) (upd_sched s g).
Proof.
  intros H w u w' E. eapply (wlp_upd_sched s g (fun _ => flags_but fifo s w)) in E; [done|].
  intros S HS s'. simpl. destruct (decide (s' = s)) as [->|Hne]; [|by rewrite lookup_insert_ne by congruence].
  rewrite HS, lookup_insert_eq. simpl. unfold flags_at. rewrite !decide_True by done. by rewrite H.
Qed.
Lemma calm_but fifo s w w' :
  flags_but fifo s w w' -> calm fifo w ->
  (forall S, scheds w' !! s = Some S -> free_guilty S = false) -> calm fifo w'.
Proof.
  intros Hf Hw Hs s' S' HS'. pose proof (Hf s') as E. rewrite HS' in E.
  destruct (scheds w !! s') as [S|] eqn:HS; [|done]. simpl in E. injection E as E1 E2.
  refine (calm_flags fifo (set_free_guilty (free_guilty S') S) S' _ _).
  - unfold flags in *. simpl in *. by rewrite E2.
  - destruct (Hw _ _ HS) as [Hg Ht]. split; [|done]. simpl. destruct (decide (s' = s)) as [->|Hne]; [by apply Hs|].
    congruence.
Qed.

(** ** Which operations leave the flags alone *)

Lemma flags_remove_entity fifo q e : respects (same_flags fifo) (drm_sched_rq_remove_entity fifo q e).
Proof. destruct fifo; unfold drm_sched_rq_remove_entity; cbv iota; flags_tac. Qed.
Lemma flags_add_entity fifo q e : respects (same_flags fifo) (drm_sched_rq_add_entity q e).
Proof. flags_tac. Qed.
Lemma flags_update_fifo fifo q e ts :
  respects (same_flags fifo) (if fifo then drm_sched_rq_update_fifo_locked e q ts else st_ret tt).
Proof. destruct fifo; cbv iota; flags_tac. Qed.
Lemma flags_select_loop fifo s i c last l : respects (same_flags fifo) (select_loop s i c last l).
Proof. revert last. induction l as [|e l IH]; intros last; simpl; flags_tac. Qed.
#[export] Hint Resolve flags_remove_entity flags_add_entity flags_update_fifo flags_select_loop : schedflags.
Lemma flags_select_rqs fifo s i n : respects (same_flags fifo) (select_rqs fifo s i n).
Proof. revert i. induction n as [|n IH]; intros i; simpl; flags_tac. Qed.
Lemma flags_kill_loop fifo alive l prev : respects (same_flags fifo) (kill_loop alive l prev).
Proof. revert prev. induction l as [|j l IH]; intros prev; simpl; flags_tac. Qed.
Lemma flags_resubmit fifo s found l rs : respects (same_flags fifo) (resubmit_loop s found l rs).
Proof. revert found rs. induction l as [|j l IH]; intros found rs; simpl; flags_tac. Qed.
#[export] Hint Resolve flags_select_rqs flags_kill_loop flags_resubmit : schedflags.
Lemma flags_start_loop fifo alive s errno l : respects (same_flags fifo) (st_iter (start_job alive s errno) l).
Proof. induction l as [|j l IH]; simpl; flags_tac. Qed.
Lemma flags_ext_cbs fifo alive f l : respects (same_flags fifo) (st_iter (run_ext_cb alive f) l).
Proof. induction l as [|c l IH]; simpl; flags_tac. Qed.
#[export] Hint Resolve flags_start_loop flags_ext_cbs : schedflags.
Lemma flags_pop_job fifo e prep : respects (same_flags fifo) (drm_sched_entity_pop_job fifo e prep).
Proof. flags_tac. Qed.
Lemma flags_kill fifo alive e : respects (same_flags fifo) (drm_sched_entity_kill fifo alive e).
Proof. flags_tac. Qed.
Lemma flags_select_rq fifo e : respects (same_flags fifo) (drm_sched_entity_select_rq fifo e).
Proof. flags_tac. Qed.
#[export] Hint Resolve flags_pop_job flags_kill flags_select_rq : schedflags.

Definition recovers (o : sop) : option sid :=
  match o with ORecover s _ _ | OTimedout s _ _ => Some s | _ => None end.

Lemma flags_run_sop fifo alive o :
  recovers o = None -> respects (same_flags fifo) (run_sop fifo alive o).
Proof. destruct o; cbn [recovers run_sop]; intros [=]; flags_tac. Qed.

Ltac but_tac := repeat frame_step ltac:(idtac; first
  [ assumption
  | apply but_upd_sched; intros; reflexivity
  | apply respects_but; solve [flags_tac]
  | solve [auto with schedbut nocore] ]).
Create HintDb schedbut.

Lemma but_stop_job fifo s bad j : respects (flags_but fifo s) (stop_job s bad j).
Proof. but_tac. Qed.
#[export] Hint Resolve but_stop_job : schedbut.
Lemma but_stop_loop fifo s bad l : respects (flags_but fifo s) (st_iter (stop_job s bad) l).
Proof. induction l as [|j l IH]; simpl; but_tac. Qed.
#[export] Hint Resolve but_stop_loop : schedbut.
Lemma but_recover fifo alive s bad rs errno : respects (flags_but fifo s) (recover alive s bad rs errno).
Proof. but_tac. Qed.
#[export] Hint Resolve but_recover : schedbut.
Lemma but_timedout fifo alive s rs errno :
  respects (flags_but fifo s) (drm_sched_job_timedout (timedout_job alive s rs errno) s).
Proof. but_tac. Qed.

(** ** Submission *)

(** A job that was initialised and not pushed yet. *)
Definition fresh (w : world) (j : jid) (e : eid) : Prop :=
  loose w j /\ unmarked w j /\ exists J, jobs w !! j = Some J /\ j_entity J = Some e.

Lemma fresh_view w w' j e : same_view w w' -> fresh w j e -> fresh w' j e.
Proof.
  intros Hv (Hl & Hu & J & HJ & He). split_and!; [by eapply loose_core, Hl; apply same_view_core|by eapply unmarked_view|].
  destruct (fmap_lookup_l _ _ _ _ _ (proj1 Hv) HJ) as (J' & HJ' & Jv). injection Jv as _ _ _ Jv.
  exists J'. split; [done|congruence].
Qed.
Lemma fresh_rq_step e0 q w w' j e : rq_step e0 q w w' -> fresh w j e -> fresh w' j e.
Proof.
  intros Hs ((H1 & H2 & H3) & (H4 & H5) & J & HJ & He).
  split_and!; [split_and!|split|exists J; by rewrite <- (rs_jobs _ _ _ _ Hs)].
  - unfold linked. by rewrite <- (rs_jobs _ _ _ _ Hs).
  - by rewrite (rq_step_queued _ _ _ _ _ Hs).
  - intros (s & S' & HS' & Hj). apply H3.
    destruct (fmap_lookup_r _ _ _ _ _ (rs_scheds _ _ _ _ Hs) HS') as (S & HS & E). injection E as _ _ E _.
    exists s, S. split; [done|congruence].
  - by rewrite <- (rs_fences _ _ _ _ Hs).
  - by rewrite <- (rs_kill _ _ _ _ Hs).
Qed.

(** An object that does not exist is nowhere. *)
Lemma absent_loose w j : jinv w -> jobs w !! j = None -> loose w j.
Proof.
  intros HI Hj. split_and!.
  - intros (J & HJ & _). congruence.
  - intros (e & E & HE & Hin). destruct (ji_queue _ HI e E j HE Hin) as (J & q & HJ & _). congruence.
  - intros (s & S & HS & Hin). destruct (ji_pending _ HI s S j HS Hin) as (J & HJ & _). congruence.
Qed.
Lemma absent_unmarked w j : jinv w -> sfences w !! j = None -> unmarked w j.
Proof.
  intros HI Hj. assert (H : ~ killed w j) by (intros (_ & _ & _ & SF & s & HSF & _); congruence).
  split; [intros f F HF Hin; apply H; by eapply (ji_kill _ HI)|intros Hin; apply H; by apply (ji_kill_works _ HI)].
Qed.

Lemma job_init_spec w j e cr alloc :
  cinv None w -> jobs w !! j = None -> sfences w !! j = None -> 0 <= cr ->
  wlp (drm_sched_job_init j e cr alloc) (fun r w' =>
    if r =? 0 then cinv None w' /\ fresh w' j e else w' = w) w.
Proof.
  intros Hc HJ HSF Hcr. pose proof (absent_loose w j (proj2 Hc) HJ) as Hl.
  pose proof (absent_unmarked w j (proj2 Hc) HSF) as Hu.
  unfold drm_sched_job_init. do 2 wstep. destruct (e_rq E); [|by wstep].
  destruct (cr =? 0); [by wstep|]. destruct alloc; cbn [negb]; cbv iota; [|by wstep]. do 4 wstep. wstep.
  set (J := mkJob _ _ _ _ _ _ _ _ _ _).
  assert (Hc1 : cinv None (set_jobs (<[j := J]> (jobs w)) w)).
  { change (set_jobs (<[j := J]> (jobs w)) w) with (set_freed (freed w) (set_jobs (<[j := J]> (jobs w)) w)).
    apply (cinv_off_job w j); [done|done|intros k Hne; by rewrite lookup_insert_ne by congruence|].
    intros J'. rewrite lookup_insert_eq. intros [= <-]. by simpl. }
  assert (Hl1 : loose (set_jobs (<[j := J]> (jobs w)) w) j).
  { destruct Hl as (_ & ? & ?). split_and!; try done. intros (J' & HJ' & Hlk). simpl in HJ'.
    rewrite lookup_insert_eq in HJ'. simplify_eq. }
  split; [|split; [done|split; [done|]]].
  - apply (cinv_off_sfence (set_jobs (<[j := J]> (jobs w)) w) j); [done|done| |].
    + intros k Hne. simpl. by rewrite lookup_insert_ne by congruence.
    + intros (SF & s & HSF' & _). simpl in HSF'. congruence.
  - exists J. simpl. by rewrite lookup_insert_eq.
Qed.

(** An entity without jobs that is on no run queue may move to another one. *)
Lemma cinv_move x w e E q :
  cinv x w -> entities w !! e = Some E -> job_queue E = [] ->
  (forall q', ~ on_rq w e q' /\ ~ on_tree w e q') ->
  cinv x (set_entities (<[e := set_e_rq q E]> (entities w)) w).
Proof.
  intros [[H1 H2] HI] HE Hq Hno. split; [by split|].
  assert (Hqu : forall k, queued (set_entities (<[e := set_e_rq q E]> (entities w)) w) k -> queued w k).
  { intros k (e' & E' & HE' & Hk). simpl in HE'. apply lookup_insert_Some in HE' as [[<- <-]|[_ HE']]; [|by exists e', E'].
    simpl in Hk. rewrite Hq in Hk. set_solver. }
  assert (Hk : forall k, killed w k -> killed (set_entities (<[e := set_e_rq q E]> (entities w)) w) k).
  { intros k (K1 & K2 & K3 & K4). split_and!; try done. by intros ?%Hqu. }
  split; simpl; try apply HI.
  - intros e' E' k HE' Hin. apply lookup_insert_Some in HE' as [[<- <-]|[_ HE']]; [simpl in Hin; rewrite Hq in Hin; set_solver|].
    by apply (ji_queue _ HI e').
  - intros e' E' HE'. apply lookup_insert_Some in HE' as [[<- <-]|[_ HE']]; [simpl; rewrite Hq; constructor|].
    by apply (ji_queue_nodup _ HI e').
  - intros f F k HF Hin. by eapply Hk, (ji_kill _ HI).
  - intros k Hin. by apply Hk, (ji_kill_works _ HI).
  - intros s S i R e' HS HR He'. destruct (ji_rq _ HI s S i R e' HS HR He') as (E' & HE' & ?).
    exists E'. rewrite lookup_insert_ne; [done|]. intros <-. destruct (Hno (s, i)) as [N1 N2].
    destruct He'; [apply N1|apply N2]; by exists S, R.
Qed.

(** Computations that only read. *)
Lemma eq_of_option {A} (o : option A) : respects (@eq world) (st_of_option o).
Proof. destruct o; intros w x w'; unfold st_of_option, st_ret, st_bug; [by intros [= _ <-]|done]. Qed.
Ltac reads := repeat frame_step ltac:(idtac; first [assumption|apply eq_of_option|solve [auto]]).
Lemma eq_pick_best l : respects (@eq world) (drm_sched_pick_best l).
Proof.
  assert (H : forall w b m, respects eq (pick_loop w l b m)).
  { induction l as [|s l IH]; intros w b m; simpl; reads. }
  reads.
Qed.

(** The part of drm_sched_entity_select_rq that leaves the old run queue. *)
Lemma move_spec fifo w e E q j :
  cinv None w -> calm fifo w -> fresh w j e -> entities w !! e = Some E -> job_queue E = [] ->
  wlp (match e_rq E with
       | Some q' => drm_sched_rq_remove_entity fifo q' e
       | None => BUG_ON (e_linked E)
       end ;; upd_entity e (set_e_rq q)) (fun _ w' => cinv None w' /\ fresh w' j e) w.
Proof.
  intros Hc Hw Hf HE Hq. wstep.
  assert (Hgo : forall w1, cinv None w1 -> fresh w1 j e -> (forall q', ~ on_rq w1 e q' /\ ~ on_tree w1 e q') ->
    (forall E1, entities w1 !! e = Some E1 -> job_queue E1 = []) ->
    wlp (upd_entity e (set_e_rq q)) (fun _ w' => cinv None w' /\ fresh w' j e) w1).
  { intros w1 Hc1 Hf1 Hno Hq1. apply wlp_upd_entity. intros E1 HE1. split; [by apply cinv_move; auto|].
    destruct Hf1 as ((L1 & L2 & L3) & Hu & Hj). split; [|done]. split_and!; try done.
    intros (e' & E' & HE' & Hin). apply L2. simpl in HE'. apply lookup_insert_Some in HE' as [[<- <-]|[_ HE']]; [|by exists e', E'].
    by exists e, E1. }
  destruct (e_rq E) as [q'|] eqn:Eq.
  - eapply wlp_mono; [eapply (cinv_remove_entity fifo None e q' w E); [done|done|done|]|].
    + intros Hff. by apply (calm_tree fifo).
    + intros u w1 (Hc1 & Hst & Hno). apply Hgo; [done|by eapply fresh_rq_step|done|].
      intros E1 HE1. destruct (fmap_lookup_r _ _ _ _ _ (rs_entities _ _ _ _ Hst) HE1) as (E0 & HE0 & Ev).
      injection Ev as Ev _. simplify_eq. congruence.
  - wstep; [by wstep|]. wstep. apply Hgo; [done|done| |intros E1 HE1; by simplify_eq].
    intros q'. assert (H : ~ (on_rq w e q' \/ on_tree w e q')); [|tauto].
    intros Hon. destruct (jinv_on_rq w e q' (proj2 Hc) Hon) as (E1 & HE1 & Hq1 & _). congruence.
Qed.

Lemma select_rq_spec fifo w e j :
  cinv None w -> calm fifo w -> fresh w j e ->
  wlp (drm_sched_entity_select_rq fifo e) (fun _ w' => cinv None w' /\ fresh w' j e) w.
Proof.
  intros Hc Hw Hf. unfold drm_sched_entity_select_rq. do 2 wstep. rename H into HE.
  destruct (sched_list E) as [l|]; [|by wstep].
  destruct (Z.of_nat (length (job_queue E)) =? 0) eqn:En; cbn [negb]; cbv iota; [|by wstep].
  assert (Hq : job_queue E = []) by (destruct (job_queue E); [done|simpl in En; lia]). clear En.
  apply (wlp_frame_bind eq); [reads|]. intros busy w1 <-. destruct busy; [by wstep|].
  apply (wlp_frame_bind eq); [apply eq_pick_best|]. intros os w1 <-.
  apply (wlp_frame_bind eq); [reads|]. intros rq w1 <-. wstep.
  eapply (wlp_mono _ (fun _ w' => cinv None w' /\ fresh w' j e)).
  - destruct (decide (rq = e_rq E)); [by wstep|]. by apply move_spec.
  - intros u w1 [Hc1 Hf1]. destruct (decide _); [|by wstep].
    apply (wlp_frame same_view); [same|]. intros _ w2 H2. split; [by eapply cinv_view|by eapply fresh_view].
Qed.

(** A job that is armed for the scheduler of its entity's run queue. *)
Definition armed_on (w : world) (j : jid) (e : eid) (q : sid * nat) : Prop :=
  fresh w j e /\ unfinished w j /\
  exists J E, jobs w !! j = Some J /\ entities w !! e = Some E /\ e_rq E = Some q /\ armed_for w j J (fst q).

Lemma armed_on_view w w' j e q : same_view w w' -> armed_on w j e q -> armed_on w' j e q.
Proof.
  intros Hv (Hf & Hu & J & E & HJ & HE & Hq & Ha). pose proof Hv as (Ej & Ee & _).
  destruct (fmap_lookup_l _ _ _ _ _ Ej HJ) as (J' & HJ' & Jv). injection Jv as Jv1 Jv2 Jv3 Jv4.
  destruct (fmap_lookup_l _ _ _ _ _ Ee HE) as (E' & HE' & Ev). injection Ev as _ Ev _ _.
  split; [by eapply fresh_view|]. split; [by eapply tr_unfinished; [apply same_view_j|]|].
  exists J', E'. split_and!; [done|done|congruence|].
  eapply tr_armed; [by apply same_view_j| |done]. unfold jvj. congruence.
Qed.

(** A fence without callbacks that has not signaled. *)
Lemma cinv_new_fence x w f c n : cinv x w -> cinv x (set_fences (<[f := mkFence c n 0 false [] false]> (fences w)) w).
Proof. intros Hc. apply cinv_fence; [done|done| |constructor]. intros c0 Hin. simpl in Hin. set_solver. Qed.

Lemma fence_init_spec w j e q :
  cinv None w -> fresh w j e ->
  (exists J E, jobs w !! j = Some J /\ entities w !! e = Some E /\ e_rq E = Some q /\ j_sched J = Some (fst q)) ->
  wlp (drm_sched_fence_init j e) (fun _ w' => cinv None w' /\ armed_on w' j e q) w.
Proof.
  intros Hc Hf (J & E & HJ & HE & Hq & Hs). unfold drm_sched_fence_init.
  wstep. apply wlp_get_entity. intros X HX. assert (X = E) as -> by congruence. wstep. rewrite Hq. apply wlp_of_option. intros q0 [= <-].
  wstep. apply wlp_upd_sfence. intros SF HSF. destruct Hf as (Hl & Hu & Hj).
  set (w1 := set_sfences _ w).
  assert (Hc1 : cinv None w1).
  { apply (cinv_off_sfence w j); [done|done|intros k Hne; by rewrite lookup_insert_ne by congruence|].
    intros _. exists (mkSfence (Some (fst q)) (parent SF)), (fst q). simpl. by rewrite lookup_insert_eq. }
  apply (wlp_frame_bind same_view); [same|]. intros _ w2 H2. apply (wlp_frame_bind same_view); [same|]. intros _ w3 H3.
  pose proof (transitivity H2 H3) as Hv. pose proof (cinv_view _ _ _ Hv Hc1) as Hc3.
  assert (Hf3 : fresh w3 j e) by (by eapply (fresh_view w1)).
  wstep. split; [exact (cinv_new_fence _ _ (FFin j) _ _ (cinv_new_fence _ w3 (FSched j) _ _ Hc3))|]. split; [|split].
  - destruct Hf3 as (Hl3 & (Hu3 & Hk3) & Hj3). split_and!; [done|split; [|done]|done].
    intros f F. simpl. rewrite !lookup_insert_Some. intros [[_ <-]|[_ [[_ <-]|[_ HF]]]]; simpl; [set_solver|set_solver|by eapply Hu3].
  - intros F. simpl. rewrite lookup_insert_eq. by intros [= <-].
  - pose proof Hv as (Ej & Ee & _ & _ & Esf & _).
    destruct (fmap_lookup_l _ _ _ _ _ Ej HJ) as (J' & HJ' & Jv). injection Jv as _ _ Jv _.
    destruct (fmap_lookup_l _ _ _ _ _ Ee HE) as (E' & HE' & Ev). injection Ev as _ Ev _ _.
    exists J', E'. split_and!; [done|done|congruence|]. split; [congruence|]. simpl. rewrite <- Esf. simpl.
    eexists. by rewrite lookup_insert_eq.
Qed.

Lemma job_arm_spec fifo w j e :
  cinv None w -> calm fifo w -> fresh w j e ->
  wlp (drm_sched_job_arm fifo j) (fun _ w' => cinv None w' /\ exists q, armed_on w' j e q) w.
Proof.
  intros Hc Hw Hf. unfold drm_sched_job_arm. pose proof Hf as (_ & _ & J & HJ & He).
  wstep. apply wlp_get_job. intros X HX. assert (X = J) as -> by congruence. rewrite He. wstep. apply wlp_of_option. intros e0 [= <-].
  wstep. eapply wlp_mono; [by apply select_rq_spec|]. intros u w1 [Hc1 Hf1].
  wstep. apply wlp_get_entity. intros E HE. wstep. wstep. rename a into q, H into Hq.
  apply (wlp_frame_bind eq); [reads|]. intros S w1' <-.
  apply (wlp_frame_bind same_view); [same|]. intros _ w2 H2. pose proof (cinv_view _ _ _ H2 Hc1) as Hc2.
  pose proof (fresh_view _ _ _ _ H2 Hf1) as Hf2.
  destruct (fmap_lookup_l _ _ _ _ _ (proj1 (proj2 H2)) HE) as (E2 & HE2 & Ev). injection Ev as _ Ev _ _.
  wstep. apply wlp_upd_job. intros J2 HJ2. destruct Hf2 as ((L1 & L2 & L3) & Hu & J2' & HJ2' & Hj). simplify_eq.
  assert (Hlk : cb_linked J2' = false).
  { destruct (cb_linked J2') eqn:El; [|done]. destruct L1. by exists J2'. }
  set (J3 := mkJob _ _ _ _ _ _ _ _ _ _).
  eapply wlp_mono; [eapply (fence_init_spec _ j e q)|intros u3 w3 [Hc3 Ha3]; split; [done|by exists q]].
  - change (set_jobs (<[j := J3]> (jobs w2)) w2) with (set_freed (freed w2) (set_jobs (<[j := J3]> (jobs w2)) w2)).
    apply (cinv_off_job w2 j); [done|done|intros k Hne; by rewrite lookup_insert_ne by congruence|].
    intros J4. rewrite lookup_insert_eq. intros [= <-]. split; [done|]. simpl. exact (co_job _ _ (proj1 Hc2) j _ HJ2').
  - split; [|split; [done|]].
    + split_and!; try done. intros (J4 & HJ4 & Hl4). simpl in HJ4. rewrite lookup_insert_eq in HJ4. simplify_eq/=. congruence.
    + exists J3. simpl. by rewrite lookup_insert_eq.
  - exists J3, E2. simpl. rewrite lookup_insert_eq. split_and!; [done|done|congruence|done].
Qed.

Lemma cinv_enqueue w j e q E :
  cinv None w -> armed_on w j e q -> entities w !! e = Some E ->
  cinv None (set_entities (<[e := set_job_queue (job_queue E ++ [j]) E]> (entities w)) w).
Proof.
  intros [[H1 H2] HI] (((L1 & L2 & L3) & (Hm1 & Hm2) & J' & HJ' & He) & Hu & J & E' & HJ & HE' & Hq & Ha) HE.
  assert (E' = E) as -> by congruence. assert (J' = J) as -> by congruence. clear HE' HJ'.
  assert (Hlk : cb_linked J = false) by (destruct (cb_linked J) eqn:El; [|done]; destruct L1; by exists J).
  set (w' := set_entities _ w).
  assert (Hk : forall k, k <> j -> killed w k -> killed w' k).
  { intros k Hne (K1 & K2 & K3 & K4). split_and!; try done. intros (e' & E' & HE' & Hin). simpl in HE'. apply K2.
    apply lookup_insert_Some in HE' as [[<- <-]|[_ HE']]; [|by exists e', E'].
    exists e, E. split; [done|]. simpl in Hin. set_solver. }
  split; [by split|]. split; simpl; try apply HI.
  - intros e' E' k HE' Hin. apply lookup_insert_Some in HE' as [[<- <-]|[_ HE']]; [|by apply (ji_queue _ HI e')].
    simpl in Hin. apply elem_of_app in Hin as [Hin|Hin]; [by apply (ji_queue _ HI e E)|].
    apply list_elem_of_singleton in Hin as ->. exists J, q. by split_and!.
  - intros e' E' HE'. apply lookup_insert_Some in HE' as [[<- <-]|[_ HE']]; [|by apply (ji_queue_nodup _ HI e')].
    simpl. apply NoDup_app. split_and!; [by apply (ji_queue_nodup _ HI e)| |apply NoDup_singleton].
    intros k Hin ->%list_elem_of_singleton. apply L2. by exists e, E.
  - intros f F k HF Hin. apply Hk; [|by eapply (ji_kill _ HI)]. intros ->. by eapply Hm1.
  - intros k Hin. apply Hk; [|by apply (ji_kill_works _ HI)]. intros ->. done.
  - intros s S i R e' HS HR He'. destruct (ji_rq _ HI s S i R e' HS HR He') as (E' & HE' & A1 & A2 & A3).
    destruct (decide (e' = e)) as [->|Hne]; [|exists E'; by rewrite lookup_insert_ne by congruence].
    simplify_eq. eexists. by rewrite lookup_insert_eq.
Qed.

Lemma push_job_spec fifo w j e q ts user :
  cinv None w -> armed_on w j e q ->
  wlp (drm_sched_entity_push_job fifo j ts user) (fun _ => cinv None) w.
Proof.
  intros Hc Ha. pose proof Ha as (Hf & Hu & J & E & HJ & HE & Hq & _). destruct Hf as (_ & _ & J' & HJ' & He).
  simplify_eq. unfold drm_sched_entity_push_job.
  wstep. apply wlp_get_job. intros X HX. simplify_eq. wstep. rewrite He. apply wlp_of_option. intros e0 [= <-].
  wstep. apply wlp_get_entity. intros X HX. simplify_eq. wstep. rewrite Hq. apply wlp_of_option. intros q0 [= <-].
  apply (wlp_frame_bind same_view); [same|]. intros _ w1 H1.
  apply (wlp_frame_bind same_view); [same|]. intros _ w2 H2.
  apply (wlp_frame_bind same_view); [same|]. intros _ w3 H3.
  pose proof (transitivity H1 (transitivity H2 H3)) as Hv.
  pose proof (cinv_view _ _ _ Hv Hc) as Hc3. pose proof (armed_on_view _ _ _ _ _ Hv Ha) as Ha3.
  destruct (fmap_lookup_l _ _ _ _ _ (proj1 (proj2 Hv)) HE) as (E3 & HE3 & Ev). injection Ev as _ Ev2 _ _.
  wstep. apply wlp_upd_entity. intros X HX. simplify_eq.
  pose proof (cinv_enqueue w3 j e q E3 Hc3 Ha3 HE3) as Hc4.
  destruct (bool_decide _); [|by wstep]. destruct (stopped E); [by wstep|]. wstep.
  eapply wlp_mono; [eapply (cinv_add_entity None e q); [done|apply lookup_insert_eq|simpl; congruence]|].
  intros u w5 (Hc5 & E5 & HE5 & Eq5 & Hl5). injection Eq5 as _ Eq5. cbv beta. wstep.
  eapply (wlp_mono _ (fun _ => cinv None)); [|intros u6 w6 Hc6; eapply wlp_keep; [same|done]].
  destruct fifo; [|by wstep]. eapply cinv_update_fifo; [done|done| |done]. simpl in Eq5. congruence.
Qed.

Lemma submit_spec fifo w e j cr alloc deps ts user :
  cinv None w -> calm fifo w -> jobs w !! j = None -> sfences w !! j = None -> 0 <= cr ->
  wlp (submit fifo e j cr alloc deps ts user) (fun _ => cinv None) w.
Proof.
  intros Hc Hw HJ HSF Hcr. unfold submit. wstep. intros r w1 E1.
  assert (Hw1 : calm fifo w1).
  { assert (Hr : respects (same_flags fifo) (drm_sched_job_init j e cr alloc)) by flags_tac.
    eapply calm_same; [by eapply Hr|done]. }
  eapply job_init_spec in E1; [|done..]. cbv beta in E1. destruct (r =? 0) eqn:Er; cbn [negb]; cbv iota; [|by wstep; subst].
  destruct E1 as [Hc1 Hf1]. apply (wlp_frame_bind same_view); [same|]. intros r2 w2 H2.
  pose proof (cinv_view _ _ _ H2 Hc1) as Hc2. pose proof (fresh_view _ _ _ _ H2 Hf1) as Hf2.
  assert (Hw2 : calm fifo w2) by (eapply calm_same; [by apply flags_core, same_view_core|done]).
  destruct (r2 =? 0); cbn [negb]; cbv iota.
  - wstep. eapply wlp_mono; [by apply job_arm_spec|]. intros u w3 (Hc3 & q & Ha3). cbv beta. wstep.
    eapply wlp_mono; [by eapply push_job_spec|]. intros u4 w4 Hc4. by wstep.
  - wstep. eapply wlp_mono; [apply job_cleanup_spec; [done|apply Hf2]|]. intros u w3 [Hc3 Hl3]. cbv beta. wstep. wstep. wstep.
    exact (cinv_del_job w3 j (freed w3) Hc3 Hl3).
Qed.

(** ** Entities *)

Lemma cinv_new_entity x w e E :
  cinv x w -> entities w !! e = None -> job_queue E = [] ->
  cinv x (set_entities (<[e := E]> (entities w)) w).
Proof.
  intros [[H1 H2] HI] HN Hq. set (w' := set_entities _ w).
  assert (Hk : forall k, killed w k -> killed w' k).
  { intros k (K1 & K2 & K3 & K4). split_and!; try done. intros (e' & E' & HE' & Hin). simpl in HE'. apply K2.
    apply lookup_insert_Some in HE' as [[<- <-]|[_ HE']]; [rewrite Hq in Hin; set_solver|by exists e', E']. }
  split; [by split|]. split; simpl; try apply HI.
  - intros e' E' k HE' Hin. apply lookup_insert_Some in HE' as [[<- <-]|[_ HE']]; [rewrite Hq in Hin; set_solver|].
    by apply (ji_queue _ HI e').
  - intros e' E' HE'. apply lookup_insert_Some in HE' as [[<- <-]|[_ HE']]; [rewrite Hq; constructor|].
    by apply (ji_queue_nodup _ HI e').
  - intros f F k HF Hin. by eapply Hk, (ji_kill _ HI).
  - intros k Hin. by apply Hk, (ji_kill_works _ HI).
  - intros s S i R e' HS HR He'. destruct (ji_rq _ HI s S i R e' HS HR He') as (E' & HE' & ?).
    exists E'. rewrite lookup_insert_ne; [done|]. intros <-. congruence.
Qed.

Lemma entity_init_spec w e prio sl num g context :
  cinv None w -> entities w !! e = None ->
  wlp (drm_sched_entity_init e prio sl num g context) (fun _ => cinv None) w.
Proof.
  intros Hc HN. unfold drm_sched_entity_init. destruct sl as [l|]; [|by wstep].
  destruct (negb _ && _); [by wstep|]. apply (wlp_frame_bind eq); [reads|]. intros [p rq] w1 <-.
  do 2 wstep. wstep. by apply cinv_new_entity.
Qed.

Lemma fv_remove_entity e F :
  fv (set_f_cbs (filter (fun c => c <> CbClearDep e /\ c <> CbWakeup e) (f_cbs F)) F) = fv F.
Proof.
  unfold fv. simpl. f_equal. induction (f_cbs F) as [|c l IH]; [done|].
  rewrite filter_cons. case_decide as Hd; simpl; [by rewrite IH|]. rewrite IH.
  destruct c; try done; destruct Hd; by split.
Qed.
Lemma same_remove_callback_entity f e : respects same_view (dma_fence_remove_callback_entity f e).
Proof. apply same_upd_fence. intros F. apply fv_remove_entity. Qed.
#[export] Hint Resolve same_remove_callback_entity : sched.

Section Ends.
Context (fifo : bool) (alive : jid -> bool).

Lemma entity_fini_spec w e :
  cinv None w -> calm fifo w -> wlp (drm_sched_entity_fini fifo alive e) (fun _ => cinv None) w.
Proof using Type.
  intros Hc Hw. unfold drm_sched_entity_fini. wstep.
  eapply wlp_mono; [apply entity_kill_spec; [done|by apply calm_tree]|].
  intros u w1 Hc1. eapply wlp_keep; [same|done].
Qed.

Lemma entity_flush_spec w e t l c ex k :
  cinv None w -> calm fifo w ->
  wlp (drm_sched_entity_flush fifo alive e t l c ex k) (fun _ => cinv None) w.
Proof using Type.
  intros Hc Hw. unfold drm_sched_entity_flush. do 2 wstep. destruct (e_rq E); [|by wstep].
  apply (wlp_frame_bind same_view); [same|]. intros _ w1 H1. pose proof (cinv_view _ _ _ H1 Hc) as Hc1.
  wstep. eapply (wlp_mono _ (fun _ => cinv None)); [|intros u w2 Hc2; by wstep].
  case_match; [|by wstep]. apply entity_kill_spec; [done|]. apply calm_tree.
  eapply calm_same; [by apply flags_core, same_view_core|done].
Qed.
End Ends.

Lemma cinv_fewer_works x w j l :
  cinv x w -> kill_works w = j :: l -> cinv x (set_kill_works l w) /\ killed (set_kill_works l w) j.
Proof.
  intros [[H1 H2] HI] Hk. split; [|apply (ji_kill_works _ HI); rewrite Hk; set_solver].
  split; [by split|]. split; simpl; try apply HI. intros k Hin. apply (ji_kill_works _ HI). rewrite Hk. set_solver.
Qed.

(** ** Every state that is reached *)

Definition sinv (fifo : bool) (w : world) : Prop := cinv None w /\ calm fifo w.

Lemma boot_sinv fifo w : boot w -> sinv fifo w.
Proof.
  intros [Bf Bs Bj Be Bk Bb]. split.
  - split; split; rewrite ?Bf, ?Bs, ?Bj, ?Be, ?Bk; try set_solver.
    + intros s S HS. destruct (Bb s S HS) as (H1 & H2 & _). unfold inflight. rewrite Bj, msum_empty, H1.
      split; [done|lia].
    + intros s S j HS. destruct (Bb s S HS) as (_ & _ & -> & _). set_solver.
    + intros s S HS. destruct (Bb s S HS) as (_ & _ & -> & _). constructor.
    + intros s S i R e HS HR. destruct (Bb s S HS) as (_ & _ & _ & _ & Hall).
      rewrite Forall_forall in Hall. rewrite (Hall R) by (by eapply list_elem_of_lookup_2). simpl. set_solver.
  - intros s S HS. destruct (Bb s S HS) as (_ & _ & _ & Hg & Hall). split; [done|]. intros _ R HR.
    rewrite Forall_forall in Hall. by rewrite (Hall R HR).
Qed.

Section Step.
Context (fifo : bool) (alive : jid -> bool).

Lemma cinv_run_sop o w :
  recovers o = None -> sinv fifo w -> sop_ok w o = true -> wlp (run_sop fifo alive o) (fun _ => cinv None) w.
Proof using Type.
  intros Ho [Hc Hw] Hok.
  assert (Hret : forall A (m : SM A), wlp m (fun _ => cinv None) w -> wlp (m ;; st_ret tt) (fun _ => cinv None) w).
  { intros A m Hm. wstep. eapply wlp_mono; [done|]. intros a w' H. by wstep. }
  destruct o; simpl in Ho, Hok; try done; cbn [run_sop].
  - wstep. by apply cinv_new_fence.
  - apply Hret, entity_init_spec; [done|]. by apply bool_decide_eq_true in Hok.
  - rewrite !andb_true_iff, !bool_decide_eq_true in Hok. destruct Hok as (((((H1 & H2) & _) & _) & H3) & _).
    apply Hret, submit_spec; try done. lia.
  - by apply run_job_work_spec.
  - by apply free_job_work_spec.
  - by apply cinv_signal_ext.
  - do 2 wstep. destruct (kill_works w) as [|j l] eqn:Ek; [by wstep|].
    destruct (cinv_fewer_works _ _ _ _ Hc Ek) as [Hc1 Hk1]. do 2 wstep. by apply kill_jobs_work_spec.
  - by apply Hret, entity_flush_spec.
  - by apply entity_fini_spec.
  - eapply wlp_keep; [same|done].
  - eapply wlp_keep; [same|done].
  - eapply wlp_keep; [same|done].
  - eapply wlp_keep; [same|done].
Qed.

Lemma sinv_recovers o s w w' :
  recovers o = Some s -> sinv fifo w -> run_sop fifo alive o w = Some (tt, w') -> sinv fifo w'.
Proof using Type.
  intros Ho [Hc Hw] E.
  assert (Hs : flags_but fifo s w w' /\ settled s w').
  { destruct o; simpl in Ho; simplify_eq; cbn [run_sop] in E.
    - split; [by eapply but_recover|]. destruct (scheds w !! s) as [S|] eqn:HS.
      + eapply recover_spec in E; [|done|done|by apply (Hw s)]. destruct E as (Hc' & S' & HS' & Hg).
        split; [done|]. exists S'. split; [done|]. destruct (free_guilty S') eqn:Ef; [|done].
        by destruct (Hg eq_refl) as (k & [=] & _).
      + exfalso. revert E. unfold recover, drm_sched_stop, drm_sched_wqueue_stop, upd_sched, get_sched, st_bind, st_get.
        simpl. by rewrite HS.
    - split; [by eapply but_timedout|]. destruct (scheds w !! s) as [S|] eqn:HS.
      + eapply job_timedout_spec in E; [exact E|done|done|by apply (Hw s)].
      + exfalso. revert E. unfold drm_sched_job_timedout, get_sched, st_bind, st_get. simpl. by rewrite HS. }
  destruct Hs as (Hf & Hc' & S & HS & Hg). split; [done|]. eapply calm_but; [done|done|]. intros S' HS'. congruence.
Qed.
End Step.

Lemma sreach_sinv fifo w : sreach fifo w -> sinv fifo w.
Proof.
  induction 1 as [w Hb|w alive o w' _ IH Hok E]; [by apply boot_sinv|].
  destruct (recovers o) as [s|] eqn:Ho; [by eapply sinv_recovers|]. split.
  - by eapply cinv_run_sop in E.
  - eapply calm_same; [by eapply flags_run_sop|apply IH].
Qed.
