(* ===== verification/SchedFair.v ===== *)
(** * The GPU scheduler: the order of the run queues

    Every entity is at most once on the list and in the tree of its run queue, and the
    tree is ordered by the time since which the entity's oldest job waits; so in every
    state that is reached. *)
From Stdlib Require Import ZArith Lia.
From stdpp Require Import base gmap list sorting.
From S2P Require Import Prelude Sched SchedOps SchedInv SchedStep SchedRq SchedRun SchedRecover SchedReach.
Local Open Scope Z_scope.
Local Open Scope st_scope.

Definition rq_at (w : world) (q : sid * nat) : option drm_sched_rq :=
  match scheds w !! fst q with Some x => sched_rq x !! snd q | None => None end.

(** The time an entity is sorted by. *)
Definition waiting (w : world) (e : eid) : Z :=
  match entities w !! e with Some E => oldest_job_waiting E | None => 0 end.

Record rq_ok (w : world) (q : sid * nat) (R : drm_sched_rq) : Prop := RqOk {
  ro_list : NoDup (rq_entities R);
  ro_tree : NoDup (rb_tree_root R);
  ro_sorted : StronglySorted (fun a b => waiting w a <= waiting w b) (rb_tree_root R);
  ro_on_list e : e ∈ rq_entities R ->
    exists E, entities w !! e = Some E /\ e_rq E = Some q /\ e_linked E = true;
  ro_on_tree e : e ∈ rb_tree_root R ->
    exists E, entities w !! e = Some E /\ e_rq E = Some q /\ rb_linked E = true
}.
Definition rqinv (w : world) : Prop := forall q R, rq_at w q = Some R -> rq_ok w q R.

(** ** What the order depends on *)

Definition eo (E : drm_sched_entity) := (e_rq E, e_linked E, rb_linked E, oldest_job_waiting E).
Definition so (S : drm_gpu_scheduler) := map rv (sched_rq S).
Definition same_order (w w' : world) : Prop :=
  eo <$> entities w = eo <$> entities w' /\ so <$> scheds w = so <$> scheds w'.
#[export] Instance same_order_preorder : PreOrder same_order.
Proof. split; [by intros w|]. intros w1 w2 w3 [? ?] [? ?]. split; etrans; eauto. Qed.

Lemma waiting_same w w' e : eo <$> entities w = eo <$> entities w' -> waiting w e = waiting w' e.
Proof.
  intros H. assert (E : (eo <$> entities w) !! e = (eo <$> entities w') !! e) by (by rewrite H).
  rewrite !lookup_fmap in E. unfold waiting, eo in *. by destruct (entities w !! e), (entities w' !! e); simplify_eq/=.
Qed.

(** Sortedness depends on the keys of the elements only. *)
Lemma sorted_ext {A} (f g : A -> Z) (l : list A) :
  (forall a, a ∈ l -> f a = g a) ->
  StronglySorted (fun a b => f a <= f b) l -> StronglySorted (fun a b => g a <= g b) l.
Proof.
  intros He Hs. induction Hs as [|a l Hs IH Hf]; constructor; [apply IH; set_solver|].
  rewrite Forall_forall in Hf |- *. intros b Hb. rewrite <- !He by set_solver. by apply Hf.
Qed.

Lemma rq_at_same w w' q R' :
  so <$> scheds w = so <$> scheds w' -> rq_at w' q = Some R' -> exists R, rq_at w q = Some R /\ rv R = rv R'.
Proof.
  unfold rq_at. intros H HR'. destruct (scheds w' !! fst q) as [S'|] eqn:HS'; [|done].
  destruct (fmap_lookup_r _ _ _ _ _ H HS') as (S & HS & E). rewrite HS. unfold so in E.
  assert (Hr : map rv (sched_rq S') !! snd q = Some (rv R')) by (by rewrite list_lookup_fmap, HR').
  rewrite <- E, list_lookup_fmap in Hr. destruct (sched_rq S !! snd q) as [R|]; [|done].
  exists R. split; [done|]. simpl in Hr. congruence.
Qed.

Lemma rqinv_same w w' : same_order w w' -> rqinv w -> rqinv w'.
Proof.
  intros [He Hs] HI q R' HR'. destruct (rq_at_same _ _ _ _ Hs HR') as (R & HR & Ev). injection Ev as E1 E2.
  destruct (HI q R HR) as [H1 H2 H3 H4 H5]. rewrite E1, E2 in *. split; try done.
  - eapply sorted_ext; [|done]. intros a _. by apply waiting_same.
  - intros e Hin. destruct (H4 e Hin) as (E & HE & A1 & A2).
    destruct (fmap_lookup_l _ _ _ _ _ He HE) as (E' & HE' & Ev). injection Ev as ? ? ? ?.
    exists E'. split_and!; congruence.
  - intros e Hin. destruct (H5 e Hin) as (E & HE & A1 & A2).
    destruct (fmap_lookup_l _ _ _ _ _ He HE) as (E' & HE' & Ev). injection Ev as ? ? ? ?.
    exists E'. split_and!; congruence.
Qed.

(** ** Computations that leave the order alone *)

Lemma ord_mod f : (forall w, scheds (f w) = scheds w /\ entities (f w) = entities w) -> respects same_order (st_mod f).
Proof. intros H. apply respects_mod. intros w. destruct (H w) as [E1 E2]. split; by rewrite ?E1, ?E2. Qed.
Lemma ord_upd_job j g : respects same_order (upd_job j g).
Proof. intros w u w' E. by eapply (wlp_upd_job j g (fun _ => same_order w)) in E. Qed.
Lemma ord_upd_fence j g : respects same_order (upd_fence j g).
Proof. intros w u w' E. by eapply (wlp_upd_fence j g (fun _ => same_order w)) in E. Qed.
Lemma ord_upd_sfence j g : respects same_order (upd_sfence j g).
Proof. intros w u w' E. by eapply (wlp_upd_sfence j g (fun _ => same_order w)) in E. Qed.
Lemma ord_upd_entity e g : (forall E, eo (g E) = eo E) -> respects same_order (upd_entity e g).
Proof.
  intros H w u w' E. eapply (wlp_upd_entity e g (fun _ => same_order w)) in E; [done|].
  intros X HX. split; [|done]. by eapply fmap_insert_same.
Qed.
Lemma ord_upd_sched s g : (forall S, so (g S) = so S) -> respects same_order (upd_sched s g).
Proof.
  intros H w u w' E. eapply (wlp_upd_sched s g (fun _ => same_order w)) in E; [done|].
  intros X HX. split; [done|]. by eapply fmap_insert_same.
Qed.
Lemma ord_upd_rq q g : (forall R, rv (g R) = rv R) -> respects same_order (upd_rq q g).
Proof.
  intros H w u w' E. eapply (wlp_upd_rq q g (fun _ => same_order w)) in E; [done|].
  intros S R HS HR. split; [done|]. eapply fmap_insert_same; [done|]. unfold so. simpl.
  etrans; [apply (list_fmap_insert rv)|]. rewrite H. apply list_insert_id. by rewrite list_lookup_fmap, HR.
Qed.
Lemma ord_of_option {A} (o : option A) : respects same_order (st_of_option o).
Proof. destruct o; intros w x w'; unfold st_of_option, st_ret, st_bug; [by intros [= _ <-]|done]. Qed.

(** What keeps the invariant. *)
Definition kept (w w' : world) : Prop := rqinv w -> rqinv w'.
#[export] Instance kept_preorder : PreOrder kept.
Proof. unfold kept. split; [intros w; tauto|intros w1 w2 w3; tauto]. Qed.
Lemma respects_kept {A} (m : SM A) : respects same_order m -> respects kept m.
Proof. intros H w a w' E HI. eapply rqinv_same; [by eapply H|done]. Qed.

Create HintDb schedord.
Ltac ord_leaf := first
  [ assumption | apply ord_upd_job | apply ord_upd_fence | apply ord_upd_sfence | apply ord_of_option
  | apply ord_upd_entity; intros; reflexivity | apply ord_upd_sched; intros; reflexivity
  | apply ord_upd_rq; intros; reflexivity
  | apply ord_mod; intros; split; reflexivity
  | solve [auto with schedord nocore] ].
Ltac ord := repeat frame_step ltac:(idtac; ord_leaf).
Ltac kept := repeat frame_step ltac:(idtac; first
  [ assumption | solve [auto with schedkept nocore] | apply respects_kept; ord_leaf ]).
Create HintDb schedkept.

(** ** Changes of one entity on its own run queue *)

Lemma rqinv_local w w' e q E E' :
  rqinv w -> entities w !! e = Some E -> e_rq E = Some q -> entities w' = <[e := E']> (entities w) ->
  (forall q', q' <> q -> rq_at w' q' = rq_at w q') -> (forall R', rq_at w' q = Some R' -> rq_ok w' q R') ->
  rqinv w'.
Proof.
  intros HI HE Hq He Hs Hhere q' R' HR'. destruct (decide (q' = q)) as [->|Hne]; [by apply Hhere|].
  rewrite Hs in HR' by done. destruct (HI q' R' HR') as [H1 H2 H3 H4 H5].
  assert (Hl : forall x, x ∈ rq_entities R' -> x <> e).
  { intros x Hx ->. destruct (H4 e Hx) as (E0 & HE0 & ? & _). congruence. }
  assert (Ht : forall x, x ∈ rb_tree_root R' -> x <> e).
  { intros x Hx ->. destruct (H5 e Hx) as (E0 & HE0 & ? & _). congruence. }
  split; try done.
  - eapply sorted_ext; [|done]. intros a Ha. unfold waiting. rewrite He, lookup_insert_ne; [done|].
    symmetry. by apply Ht.
  - intros x Hx. rewrite He, lookup_insert_ne by (symmetry; by apply Hl). by apply H4.
  - intros x Hx. rewrite He, lookup_insert_ne by (symmetry; by apply Ht). by apply H5.
Qed.

Lemma rq_at_upd w q (g : drm_sched_rq -> drm_sched_rq) S R q' :
  scheds w !! fst q = Some S -> sched_rq S !! snd q = Some R ->
  rq_at (set_scheds (<[fst q := set_sched_rq (<[snd q := g R]> (sched_rq S)) S]> (scheds w)) w) q' =
    if decide (q' = q) then Some (g R) else rq_at w q'.
Proof.
  intros HS HR. unfold rq_at. simpl. case_decide as Hd.
  - subst q'. rewrite lookup_insert_eq. simpl. rewrite list_lookup_insert_eq; [done|]. by eapply lookup_lt_Some.
  - destruct (decide (fst q' = fst q)) as [E1|E1]; [|by rewrite lookup_insert_ne by congruence].
    rewrite E1, lookup_insert_eq, HS. simpl. rewrite list_lookup_insert_ne; [done|].
    intros E2. apply Hd. destruct q, q'; simpl in *; congruence.
Qed.

Lemma sorted_filter {A} (R : A -> A -> Prop) (P : A -> Prop) `{!forall x, Decision (P x)} (l : list A) :
  StronglySorted R l -> StronglySorted R (filter P l).
Proof.
  induction 1 as [|a l Hs IH Hf]; [constructor|]. rewrite filter_cons. case_decide; [|done].
  constructor; [done|]. rewrite Forall_forall in Hf |- *. intros b [_ Hb]%list_elem_of_filter. by apply Hf.
Qed.

Lemma remove_fifo_order w e q E :
  rqinv w -> entities w !! e = Some E -> e_rq E = Some q ->
  wlp (drm_sched_rq_remove_fifo_locked e q) (fun _ w' => rqinv w' /\
    exists E', entities w' !! e = Some E' /\ e_rq E' = Some q /\ rb_linked E' = false) w.
Proof.
  intros HI HE Hq. unfold drm_sched_rq_remove_fifo_locked. wstep. apply wlp_get_entity. intros X HX.
  assert (X = E) as -> by congruence. destruct (rb_linked E) eqn:Er.
  - wstep. apply wlp_upd_rq. intros S R HS HR. apply wlp_upd_entity. cbn [entities set_scheds]. intros X HX'.
    assert (X = E) as -> by congruence. set (w' := set_entities _ _).
    assert (Hat : forall q', rq_at w' q' = if decide (q' = q)
      then Some (set_rb_tree_root (filter (fun x => x <> e) (rb_tree_root R)) R) else rq_at w q').
    { intros q'. by apply (rq_at_upd w q (fun R => set_rb_tree_root (filter (fun x => x <> e) (rb_tree_root R)) R)). }
    assert (HR0 : rq_at w q = Some R) by (unfold rq_at; by rewrite HS).
    split.
    + eapply (rqinv_local w w' e q E); [done|done|done|reflexivity|intros q' Hne; by rewrite Hat, decide_False|].
      intros R'. rewrite Hat, decide_True by done. intros [= <-]. destruct (HI q R HR0) as [H1 H2 H3 H4 H5]. split; simpl.
      * done.
      * by apply NoDup_filter.
      * eapply (sorted_ext (waiting w)); [|by apply sorted_filter]. intros a [Ha _]%list_elem_of_filter.
        unfold waiting. simpl. by rewrite lookup_insert_ne by congruence.
      * intros x Hx. destruct (decide (x = e)) as [->|Hne]; [|rewrite lookup_insert_ne by congruence; by apply H4].
        rewrite lookup_insert_eq. eexists. split; [done|]. destruct (H4 e Hx) as (E0 & ? & ? & ?). by simplify_eq.
      * intros x [Hne Hx]%list_elem_of_filter. rewrite lookup_insert_ne by congruence. by apply H5.
    + eexists. simpl. rewrite lookup_insert_eq. done.
  - wstep. split; [done|]. by exists E.
Qed.

#[export] Instance waiting_le_trans w : Transitive (fun a b : eid => waiting w a <= waiting w b).
Proof. intros a b c H1 H2. lia. Qed.

Lemma update_fifo_order w e q E ts :
  rqinv w -> entities w !! e = Some E -> e_rq E = Some q ->
  wlp (drm_sched_rq_update_fifo_locked e q ts) (fun _ => rqinv) w.
Proof.
  intros HI HE Hq. unfold drm_sched_rq_update_fifo_locked. wstep.
  eapply wlp_mono; [by eapply remove_fifo_order|]. intros u w1 (HI1 & E1 & HE1 & Hq1 & Hr1). cbv beta.
  wstep. apply wlp_upd_entity. intros X HX. assert (X = E1) as -> by congruence. clear HX. wstep. wstep.
  set (w2 := set_entities _ w1). wstep. apply wlp_upd_rq. intros S R HS HR. simpl in HS.
  apply wlp_upd_entity. cbn [entities set_scheds set_entities]. unfold w2 at 1. cbn [entities set_entities].
  intros X. rewrite lookup_insert_eq. intros [= <-].
  set (ins := insert_before (drm_sched_entity_compare_before w2 e) e). set (w' := set_entities _ _).
  assert (Hat : forall q', rq_at w' q' = if decide (q' = q)
    then Some (set_rb_tree_root (ins (rb_tree_root R)) R) else rq_at w1 q').
  { intros q'. by apply (rq_at_upd w2 q (fun R => set_rb_tree_root (ins (rb_tree_root R)) R)). }
  assert (HR0 : rq_at w1 q = Some R) by (unfold rq_at; by rewrite HS). destruct (HI1 q R HR0) as [H1 H2 H3 H4 H5].
  assert (Hnot : e ∉ rb_tree_root R).
  { intros Hin. destruct (H5 e Hin) as (E0 & ? & _ & ?). congruence. }
  assert (Hee : entities w' = <[e := set_rb_linked true (set_oldest_job_waiting ts E1)]> (entities w1)).
  { simpl. by rewrite insert_insert_eq. }
  eapply (rqinv_local w1 w' e q E1); [done|done|done|exact Hee|intros q' Hne; by rewrite Hat, decide_False|].
  intros R'. rewrite Hat, decide_True by done. intros [= <-]. split; cbn [rq_entities rb_tree_root set_rb_tree_root].
  - done.
  - by apply NoDup_insert_before.
  - assert (Hk : forall a, a ∈ rb_tree_root R -> waiting w' a = waiting w1 a /\
      drm_sched_entity_compare_before w2 e a = (ts <? waiting w1 a)).
    { intros a Ha. unfold waiting, drm_sched_entity_compare_before. rewrite Hee. simpl. assert (a <> e) by (by intros ->).
      rewrite lookup_insert_eq, !lookup_insert_ne by congruence. destruct (H5 a Ha) as (A & HA & _). by rewrite HA. }
    assert (Hwe : waiting w' e = ts) by (unfold waiting; by rewrite Hee, lookup_insert_eq).
    apply StronglySorted_insert_before; [apply waiting_le_trans|..].
    + intros a Ha. destruct (Hk a Ha) as [-> ->]. rewrite Hwe. lia.
    + intros a Ha. destruct (Hk a Ha) as [-> ->]. rewrite Hwe. lia.
    + eapply (sorted_ext (waiting w1)); [|done]. intros a Ha. by destruct (Hk a Ha) as [-> _].
  - intros x Hx. rewrite Hee. destruct (decide (x = e)) as [->|Hne]; [|rewrite lookup_insert_ne by congruence; by apply H4].
    rewrite lookup_insert_eq. eexists. split; [done|]. destruct (H4 e Hx) as (E0 & ? & ? & ?). by simplify_eq.
  - intros x [->|Hx]%elem_of_insert_before; rewrite Hee; [rewrite lookup_insert_eq; by eexists|].
    rewrite lookup_insert_ne by (intros ->; done). by apply H5.
Qed.

Lemma add_entity_order w e q E :
  rqinv w -> entities w !! e = Some E -> e_rq E = Some q ->
  wlp (drm_sched_rq_add_entity q e) (fun _ w' => rqinv w' /\
    exists E', entities w' !! e = Some E' /\ e_rq E' = Some q) w.
Proof.
  intros HI HE Hq. unfold drm_sched_rq_add_entity. wstep. apply wlp_get_entity. intros X HX.
  assert (X = E) as -> by congruence. destruct (e_linked E) eqn:El; [wstep; split; [done|by exists E]|].
  apply (wlp_frame_bind (fun w w' => entities w' = entities w /\ scheds w' = scheds w)).
  { intros w0 u w1 E1. unfold add_score, get_sched, st_bind, st_get, st_of_option, st_mod, st_ret, st_bug in E1.
    repeat case_match; by simplify_eq/=. }
  intros _ w1 [Ee Es]. wstep. apply wlp_upd_rq. rewrite Es. intros S R HS HR. apply wlp_upd_entity.
  cbn [entities set_scheds]. rewrite Ee. intros X HX'. assert (X = E) as -> by congruence. set (w' := set_entities _ _).
  assert (Hat : forall q', rq_at w' q' = if decide (q' = q)
    then Some (set_rq_entities (rq_entities R ++ [e]) R) else rq_at w q').
  { intros q'. by apply (rq_at_upd w q (fun R => set_rq_entities (rq_entities R ++ [e]) R)). }
  assert (HR0 : rq_at w q = Some R) by (unfold rq_at; by rewrite HS). destruct (HI q R HR0) as [H1 H2 H3 H4 H5].
  split; [|eexists; simpl; rewrite lookup_insert_eq; done].
  eapply (rqinv_local w w' e q E); [done|done|done|reflexivity|intros q' Hne; by rewrite Hat, decide_False|].
  intros R'. rewrite Hat, decide_True by done. intros [= <-]. split; simpl.
  - apply NoDup_app. split_and!; [done| |apply NoDup_singleton]. intros x Hx ->%list_elem_of_singleton.
    destruct (H4 e Hx) as (E0 & ? & _ & ?). congruence.
  - done.
  - eapply (sorted_ext (waiting w)); [|done]. intros a Ha. unfold waiting. simpl.
    destruct (decide (a = e)) as [->|Hne]; [rewrite lookup_insert_eq; by rewrite HE|by rewrite lookup_insert_ne by congruence].
  - intros x Hx. destruct (decide (x = e)) as [->|Hne]; [rewrite lookup_insert_eq; by eexists|].
    rewrite lookup_insert_ne by congruence. apply H4. set_solver.
  - intros x Hx. destruct (decide (x = e)) as [->|Hne]; [|rewrite lookup_insert_ne by congruence; by apply H5].
    rewrite lookup_insert_eq. eexists. split; [done|]. destruct (H5 e Hx) as (E0 & ? & ? & ?). by simplify_eq.
Qed.

(** The part of drm_sched_rq_remove_entity that both policies have. *)
Lemma unlist_order w e q E (k : SM unit) Q :
  rqinv w -> entities w !! e = Some E -> e_rq E = Some q ->
  (forall w' E', rqinv w' -> entities w' !! e = Some E' -> e_rq E' = Some q -> wlp k Q w') ->
  wlp (add_score (fst q) (-1) ;;
       upd_rq q (fun R => set_rq_entities (filter (fun x => x <> e) (rq_entities R)) R) ;;
       upd_entity e (set_e_linked false) ;;
       upd_rq q (fun R => if decide (current_entity R = Some e) then set_current_entity None R else R) ;;
       k) Q w.
Proof.
  intros HI HE Hq Hk. apply (wlp_frame_bind (fun w w' => entities w' = entities w /\ scheds w' = scheds w)).
  { intros w0 u w1 E1. unfold add_score, get_sched, st_bind, st_get, st_of_option, st_mod, st_ret, st_bug in E1.
    repeat case_match; by simplify_eq/=. }
  intros _ w1 [Ee Es]. wstep. apply wlp_upd_rq. rewrite Es. intros S R HS HR. wstep. apply wlp_upd_entity.
  cbn [entities set_scheds]. rewrite Ee. intros X HX'. assert (X = E) as -> by congruence. set (w2 := set_entities _ _).
  assert (Hat : forall q', rq_at w2 q' = if decide (q' = q)
    then Some (set_rq_entities (filter (fun x => x <> e) (rq_entities R)) R) else rq_at w q').
  { intros q'. by apply (rq_at_upd w q (fun R => set_rq_entities (filter (fun x => x <> e) (rq_entities R)) R)). }
  assert (HR0 : rq_at w q = Some R) by (unfold rq_at; by rewrite HS). destruct (HI q R HR0) as [H1 H2 H3 H4 H5].
  assert (HI2 : rqinv w2).
  { eapply (rqinv_local w w2 e q E); [done|done|done|reflexivity|intros q' Hne; by rewrite Hat, decide_False|].
    intros R'. rewrite Hat, decide_True by done. intros [= <-]. split; simpl.
    - by apply NoDup_filter.
    - done.
    - eapply (sorted_ext (waiting w)); [|done]. intros a Ha. unfold waiting. simpl.
      destruct (decide (a = e)) as [->|Hne]; [rewrite lookup_insert_eq; by rewrite HE|by rewrite lookup_insert_ne by congruence].
    - intros x [Hne Hx]%list_elem_of_filter. rewrite lookup_insert_ne by congruence. by apply H4.
    - intros x Hx. destruct (decide (x = e)) as [->|Hne]; [|rewrite lookup_insert_ne by congruence; by apply H5].
      rewrite lookup_insert_eq. eexists. split; [done|]. destruct (H5 e Hx) as (E0 & ? & ? & ?). by simplify_eq. }
  apply (wlp_frame_bind same_order); [apply ord_upd_rq; intros; by case_decide|]. intros _ w3 H3'.
  pose proof H3' as [Oe Os].
  assert (HE2 : entities w2 !! e = Some (set_e_linked false E)) by (simpl; by rewrite lookup_insert_eq).
  destruct (fmap_lookup_l _ _ _ _ _ Oe HE2) as (E3 & HE3 & Ev). injection Ev as V1 V2 V3 V4.
  apply (Hk w3 E3); [by eapply rqinv_same|done|simpl in V1; congruence].
Qed.

Lemma remove_entity_order fifo w e q E :
  rqinv w -> entities w !! e = Some E -> e_rq E = Some q ->
  wlp (drm_sched_rq_remove_entity fifo q e) (fun _ => rqinv) w.
Proof.
  intros HI HE Hq. unfold drm_sched_rq_remove_entity. wstep. apply wlp_get_entity. intros X HX.
  assert (X = E) as -> by congruence. destruct (e_linked E); cbn [negb]; cbv iota; [|by wstep].
  eapply unlist_order; [done..|]. intros w1 E1 HI1 HE1 Hq1. destruct fifo; [|by wstep].
  eapply wlp_mono; [by eapply remove_fifo_order|]. by intros u w2 [? _].
Qed.

(** ** Every state that is reached *)

Lemma move_order w e E q :
  rqinv w -> entities w !! e = Some E -> (forall q', ~ on_rq w e q' /\ ~ on_tree w e q') ->
  rqinv (set_entities (<[e := set_e_rq q E]> (entities w)) w).
Proof.
  intros HI HE Hno q' R HR. change (rq_at w q' = Some R) in HR. destruct (HI q' R HR) as [H1 H2 H3 H4 H5].
  assert (Hn : ~ (e ∈ rq_entities R) /\ ~ (e ∈ rb_tree_root R)).
  { unfold rq_at in HR. destruct (scheds w !! fst q') as [S|] eqn:HS; [|done]. destruct (Hno q') as [N1 N2].
    split; intros Hin; [apply N1|apply N2]; by exists S, R. }
  destruct Hn as [N1 N2]. split; try done.
  - eapply (sorted_ext (waiting w)); [|done]. intros a Ha. unfold waiting. simpl.
    rewrite lookup_insert_ne; [done|]. by intros <-.
  - intros x Hx. simpl. rewrite lookup_insert_ne; [by apply H4|]. by intros <-.
  - intros x Hx. simpl. rewrite lookup_insert_ne; [by apply H5|]. by intros <-.
Qed.

(** The loops. *)
Lemma ord_puts l : respects same_order (st_iter dma_fence_put l).
Proof. induction l as [|f l IH]; simpl; ord. Qed.
Lemma ord_kill_deps alive j i l : respects same_order (kill_deps_loop alive j i l).
Proof. revert i. induction l as [|o l IH]; intros i; simpl; ord. Qed.
#[export] Hint Resolve ord_puts ord_kill_deps : schedord.
Lemma ord_own_cbs alive f l : respects same_order (st_iter (run_own_cb alive f) l).
Proof. induction l as [|c l IH]; simpl; ord. Qed.
#[export] Hint Resolve ord_own_cbs : schedord.
Lemma ord_signal_own alive f : respects same_order (dma_fence_signal_own alive f).
Proof. ord. Qed.
#[export] Hint Resolve ord_signal_own : schedord.
Lemma ord_ext_cbs alive f l : respects same_order (st_iter (run_ext_cb alive f) l).
Proof. induction l as [|c l IH]; simpl; ord. Qed.
Lemma ord_select_loop s i c last l : respects same_order (select_loop s i c last l).
Proof. revert last. induction l as [|e l IH]; intros last; simpl; ord. Qed.
Lemma ord_dependency_loop n e j prep : respects same_order (dependency_loop n e j prep).
Proof. revert prep. induction n as [|n IH]; intros prep; simpl; ord. Qed.
Lemma ord_add_dependency ret j f : respects same_order (drm_sched_job_add_dependency ret j f).
Proof. ord. Qed.
Lemma ord_add_resv j fs : respects same_order (drm_sched_job_add_resv_dependencies j fs).
Proof.
  induction fs as [|[f r] fs IH]; cbn [drm_sched_job_add_resv_dependencies]; [ord|]. pose proof (ord_add_dependency r j (Some f)). ord.
Qed.
Lemma ord_kill_loop alive l prev : respects same_order (kill_loop alive l prev).
Proof. revert prev. induction l as [|j l IH]; intros prev; simpl; ord. Qed.
Lemma ord_resubmit s found l rs : respects same_order (resubmit_loop s found l rs).
Proof. revert found rs. induction l as [|j l IH]; intros found rs; simpl; ord. Qed.
Lemma ord_start_loop alive s errno l : respects same_order (st_iter (start_job alive s errno) l).
Proof. induction l as [|j l IH]; simpl; ord. Qed.
Lemma ord_stop_loop s bad l : respects same_order (st_iter (stop_job s bad) l).
Proof. induction l as [|j l IH]; simpl; ord. Qed.
Lemma ord_karma_rqs c rqs : respects same_order (karma_rqs c rqs).
Proof.
  assert (H : forall l, respects same_order (karma_loop c l)).
  { induction l as [|e l IH]; simpl; ord. }
  induction rqs as [|R rqs IH]; simpl; ord.
Qed.
#[export] Hint Resolve ord_ext_cbs ord_select_loop ord_dependency_loop ord_add_resv ord_kill_loop
  ord_resubmit ord_start_loop ord_stop_loop ord_karma_rqs : schedord.
Lemma ord_select_rqs fifo s i n : respects same_order (select_rqs fifo s i n).
Proof. revert i. induction n as [|n IH]; intros i; simpl; ord. Qed.
#[export] Hint Resolve ord_select_rqs : schedord.

(** From a frame to an assertion. *)
Lemma wlp_order {A B} (m : SM A) (k : A -> SM B) Q w :
  respects same_order m -> rqinv w ->
  (forall a w', rqinv w' -> same_order w w' -> wlp (k a) Q w') -> wlp (st_bind m k) Q w.
Proof. intros Hm HI Hk. apply (wlp_frame_bind same_order); [done|]. intros a w' H. apply Hk; [by eapply rqinv_same|done]. Qed.
Lemma wlp_order_end {A} (m : SM A) w : respects kept m -> rqinv w -> wlp m (fun _ => rqinv) w.
Proof. intros Hm HI. apply (wlp_frame kept); [done|]. intros _ w' H. by apply H. Qed.

Ltac kstep := apply wlp_order; [solve [ord]|assumption|]; intros ? ? ? _.

Lemma kept_wlp {A} (m : SM A) : (forall w, rqinv w -> wlp m (fun _ => rqinv) w) -> respects kept m.
Proof. intros H w a w' E HI. by apply (H w HI a w' E). Qed.

Lemma kept_pop_job fifo e prep : respects kept (drm_sched_entity_pop_job fifo e prep).
Proof.
  apply kept_wlp. intros w HI. unfold drm_sched_entity_pop_job. do 2 wstep.
  destruct (drm_sched_entity_queue_peek E) as [j|]; [|by wstep]. do 2 kstep.
  match goal with |- context [negb ?b] => destruct b end; cbn [negb]; cbv iota; [|by wstep].
  do 5 kstep. wstep. apply wlp_get_entity. intros E' HE'. wstep. eapply (wlp_mono _ (fun _ => rqinv)).
  - destruct fifo; [|by wstep]. destruct (drm_sched_entity_queue_peek E'); [|by wstep].
    do 2 wstep. do 2 wstep. by eapply update_fifo_order.
  - intros u w1 HI1. apply wlp_order_end; [|done]. apply respects_kept. ord.
Qed.

Lemma kept_kill fifo alive e : respects kept (drm_sched_entity_kill fifo alive e).
Proof.
  apply kept_wlp. intros w HI. unfold drm_sched_entity_kill. do 2 wstep. destruct (e_rq E) as [q|] eqn:Eq; [|by wstep].
  apply wlp_order; [ord|done|]. intros _ w1 HI1 [Oe _].
  destruct (fmap_lookup_l _ _ _ _ _ Oe H) as (E1 & HE1 & Ev). injection Ev as V _ _ _.
  wstep. eapply wlp_mono; [eapply remove_entity_order; [done|done|congruence]|].
  intros u w2 HI2. apply wlp_order_end; [|done]. apply respects_kept. ord.
Qed.
#[export] Hint Resolve kept_pop_job kept_kill : schedkept.

Lemma push_job_order fifo w j e q ts user :
  rqinv w -> armed_on w j e q -> wlp (drm_sched_entity_push_job fifo j ts user) (fun _ => rqinv) w.
Proof.
  intros HI ((_ & _ & J' & HJ' & He) & _ & J & E & HJ & HE & Hq & _). simplify_eq. unfold drm_sched_entity_push_job.
  wstep. apply wlp_get_job. intros X HX. simplify_eq. wstep. rewrite He. apply wlp_of_option. intros e0 [= <-].
  wstep. apply wlp_get_entity. intros X HX. simplify_eq. wstep. rewrite Hq. apply wlp_of_option. intros q0 [= <-].
  apply wlp_order; [ord|done|]. intros _ w1 HI1 O1. apply wlp_order; [ord|done|]. intros _ w2 HI2 O2.
  apply wlp_order; [ord|done|]. intros _ w3 HI3 O3. apply wlp_order; [ord|done|]. intros _ w4 HI4 O4.
  destruct (transitivity O1 (transitivity O2 (transitivity O3 O4))) as [Oe _].
  destruct (fmap_lookup_l _ _ _ _ _ Oe HE) as (E4 & HE4 & Ev). injection Ev as V _ _ _.
  destruct (bool_decide _); [|by wstep]. destruct (stopped E); [by wstep|]. wstep.
  eapply wlp_mono; [eapply (add_entity_order w4 e q E4); [done|done|congruence]|]. intros u w5 (HI5 & E5 & HE5 & Hq5). wstep.
  eapply (wlp_mono _ (fun _ => rqinv)).
  - destruct fifo; [by eapply update_fifo_order|by wstep].
  - intros u6 w6 HI6. apply wlp_order_end; [|done]. apply respects_kept. ord.
Qed.

Lemma wlp_both {A} (m : SM A) P Q w :
  wlp m P w -> wlp m Q w -> wlp m (fun a w' => P a w' /\ Q a w') w.
Proof. intros H1 H2 a w' E. by split; [apply H1|apply H2]. Qed.

Lemma select_rq_order fifo w e :
  rqinv w -> cinv None w -> calm fifo w -> wlp (drm_sched_entity_select_rq fifo e) (fun _ => rqinv) w.
Proof.
  intros HI Hc Hw. unfold drm_sched_entity_select_rq. do 2 wstep. rename H into HE.
  destruct (sched_list E) as [l|]; [|by wstep].
  destruct (Z.of_nat (length (job_queue E)) =? 0) eqn:En; cbn [negb]; cbv iota; [|by wstep].
  apply (wlp_frame_bind eq); [reads|]. intros busy w1 <-. destruct busy; [by wstep|].
  apply (wlp_frame_bind eq); [apply eq_pick_best|]. intros os w1 <-.
  apply (wlp_frame_bind eq); [reads|]. intros rq w1 <-. wstep.
  eapply (wlp_mono _ (fun _ => rqinv)); [|intros u w1 HI1; apply wlp_order_end; [apply respects_kept; ord|done]].
  destruct (decide (rq = e_rq E)); [by wstep|]. wstep.
  eapply (wlp_mono _ (fun _ w1 => rqinv w1 /\ forall q', ~ on_rq w1 e q' /\ ~ on_tree w1 e q')).
  - destruct (e_rq E) as [q'|] eqn:Eq.
    + eapply wlp_mono; [apply wlp_both; [by eapply remove_entity_order|eapply (cinv_remove_entity fifo None e q' w E)]|].
      * done.
      * done.
      * done.
      * intros Hff. by apply (calm_tree fifo).
      * by intros u w1 (? & _ & _ & ?).
    + wstep; [by wstep|]. wstep. split; [done|].
      intros q'. assert (H : ~ (on_rq w e q' \/ on_tree w e q')); [|tauto].
      intros Hon. destruct (jinv_on_rq w e q' (proj2 Hc) Hon) as (E1 & HE1 & Hq1 & _). congruence.
  - intros u w1 [HI1 Hno]. apply wlp_upd_entity. intros E1 HE1. by apply move_order.
Qed.

Lemma arm_order fifo w j e :
  rqinv w -> cinv None w -> calm fifo w -> fresh w j e -> wlp (drm_sched_job_arm fifo j) (fun _ => rqinv) w.
Proof.
  intros HI Hc Hw (_ & _ & J & HJ & He). unfold drm_sched_job_arm.
  wstep. apply wlp_get_job. intros X HX. simplify_eq. wstep. rewrite He. apply wlp_of_option. intros e0 [= <-].
  wstep. eapply wlp_mono; [by apply select_rq_order|]. intros u w1 HI1.
  apply wlp_order_end; [|done]. apply respects_kept. ord.
Qed.

Lemma submit_order fifo w e j cr alloc deps ts user :
  rqinv w -> cinv None w -> calm fifo w -> jobs w !! j = None -> sfences w !! j = None -> 0 <= cr ->
  wlp (submit fifo e j cr alloc deps ts user) (fun _ => rqinv) w.
Proof.
  intros HI Hc Hw HJ HSF Hcr. unfold submit. wstep. intros r w1 E1.
  assert (Hw1 : calm fifo w1).
  { assert (Hr : respects (same_flags fifo) (drm_sched_job_init j e cr alloc)) by flags_tac.
    eapply calm_same; [by eapply Hr|done]. }
  assert (HI1 : rqinv w1).
  { assert (Hr : respects same_order (drm_sched_job_init j e cr alloc)) by ord. by eapply rqinv_same; [eapply Hr|]. }
  eapply job_init_spec in E1; [|done..]. cbv beta in E1. destruct (r =? 0) eqn:Er; cbn [negb]; cbv iota; [|by wstep; subst].
  destruct E1 as [Hc1 Hf1]. wstep. eapply wlp_mono; [apply wlp_both; [|apply (wlp_frame same_view); [same|]]|].
  { apply wlp_order_end; [|exact HI1]. apply respects_kept. ord. }
  { intros a2 w2 H2. exact H2. }
  intros r2 w2 [HI2 H2].
  pose proof (cinv_view _ _ _ H2 Hc1) as Hc2. pose proof (fresh_view _ _ _ _ H2 Hf1) as Hf2.
  assert (Hw2 : calm fifo w2) by (eapply calm_same; [by apply flags_core, same_view_core|done]).
  destruct (r2 =? 0); cbn [negb]; cbv iota; [|apply wlp_order_end; [apply respects_kept; ord|done]].
  wstep. eapply wlp_mono; [apply wlp_both; [by eapply arm_order|by apply job_arm_spec]|].
  intros u w3 (HI3 & _ & q & Ha3). wstep. eapply wlp_mono; [by eapply push_job_order|]. intros u4 w4 HI4. by wstep.
Qed.

Lemma new_entity_order w e E :
  rqinv w -> entities w !! e = None -> rqinv (set_entities (<[e := E]> (entities w)) w).
Proof.
  intros HI HN q R HR. change (rq_at w q = Some R) in HR. destruct (HI q R HR) as [H1 H2 H3 H4 H5].
  assert (N1 : forall x, x ∈ rq_entities R -> e <> x) by (intros x Hx <-; destruct (H4 e Hx) as (? & ? & _); congruence).
  assert (N2 : forall x, x ∈ rb_tree_root R -> e <> x) by (intros x Hx <-; destruct (H5 e Hx) as (? & ? & _); congruence).
  split; try done.
  - eapply (sorted_ext (waiting w)); [|done]. intros a Ha. unfold waiting. simpl. rewrite lookup_insert_ne; auto.
  - intros x Hx. simpl. rewrite lookup_insert_ne; auto.
  - intros x Hx. simpl. rewrite lookup_insert_ne; auto.
Qed.

Lemma entity_init_order w e prio sl num g context :
  rqinv w -> entities w !! e = None ->
  wlp (drm_sched_entity_init e prio sl num g context) (fun _ => rqinv) w.
Proof.
  intros HI HN. unfold drm_sched_entity_init. destruct sl as [l|]; [|by wstep].
  destruct (negb _ && _); [by wstep|]. apply (wlp_frame_bind eq); [reads|]. intros [p rq] w1 <-.
  do 2 wstep. wstep. by apply new_entity_order.
Qed.

Lemma rqinv_run_sop fifo alive o w :
  sinv fifo w -> rqinv w -> sop_ok w o = true -> wlp (run_sop fifo alive o) (fun _ => rqinv) w.
Proof.
  intros [Hc Hw] HI Hok.
  assert (Hret : forall A (m : SM A), wlp m (fun _ => rqinv) w -> wlp (m ;; st_ret tt) (fun _ => rqinv) w).
  { intros A m Hm. wstep. eapply wlp_mono; [done|]. intros a w' H. by wstep. }
  destruct o; simpl in Hok; cbn [run_sop].
  2: { apply Hret, entity_init_order; [done|]. by apply bool_decide_eq_true in Hok. }
  2: { rewrite !andb_true_iff, !bool_decide_eq_true in Hok. destruct Hok as (((((H1 & H2) & _) & _) & H3) & _).
       apply Hret, submit_order; try done. lia. }
  all: apply wlp_order_end; [kept|done].
Qed.

Lemma sreach_rqinv fifo w : sreach fifo w -> rqinv w.
Proof.
  induction 1 as [w Hb|w alive o w' Hr IH Hok E].
  - intros q R. unfold rq_at. destruct (scheds w !! fst q) as [S|] eqn:HS; [|done]. intros HR.
    destruct (boot_scheds _ Hb _ _ HS) as (_ & _ & _ & _ & Hall). rewrite Forall_forall in Hall.
    rewrite (Hall R) by (by eapply list_elem_of_lookup_2). split; simpl; try constructor; set_solver.
  - pose proof (sreach_sinv _ _ Hr) as Hs. by eapply rqinv_run_sop in E.
Qed.
