(* ===== verification/SchedProps.v ===== *)
(** * The GPU scheduler: what its operations guarantee

    Over all states that are reached: the credits, the references between queues, jobs
    and fences, the choice of the next entity under both policies. Then the choice of a
    scheduler for an entity, the dependencies of a job, and the defects the model shows. *)
From Stdlib Require Import ZArith Lia.
From stdpp Require Import base gmap list sorting.
From S2P Require Import Prelude Sched SchedOps SchedInv SchedStep SchedRq SchedRun SchedFree SchedRecover SchedReach SchedFair.
Local Open Scope Z_scope.
Local Open Scope st_scope.

(** Two entities with a job each on one scheduler; the first job is on the hardware. *)
Definition demo_jobs : list sop :=
  let A : eid := 1%positive in let B : eid := 2%positive in let s : sid := 1%positive in
  [OEntity A 1 (Some [s]) 1 None 10; OEntity B 1 (Some [s]) 1 None 20; OFence 1%positive 50 1;
   OSubmit A 1%positive 2 true [] 100 7%positive; OSubmit B 2%positive 1 true [] 101 8%positive].
Definition demo_run : list sop := demo_jobs ++ [ORun 1%positive [] (RFence 1%positive)].

Lemma demo_reach fifo l w : sexec fifo l (world0 4) = Some w -> sreach fifo w.
Proof. apply sexec_reach, sreach_boot, boot_world0. lia. Qed.

(** ** Credits and references *)

(** C6: in every state the scheduler reaches, through submissions, runs, completions,
    kills, timeouts and resets in any order, the atomic counter of a scheduler is the sum
    of the credits of exactly those of its jobs whose completion callback waits on a
    hardware fence; that sum never exceeds the limit, and the credits computed as
    available (a subtraction in 32 bits that may wrap) are the limit minus it. *)
Theorem sched_credits_exact fifo w s S :
  sreach fifo w -> scheds w !! s = Some S ->
  0 <= inflight None w s <= credit_limit S /\
  credit_count S = s32 (inflight None w s) /\
  drm_sched_available_credits S = credit_limit S - inflight None w s.
Proof.
  intros Hr HS. destruct (sreach_sinv _ _ Hr) as [[Hc _] _]. pose proof (inflight_nonneg None w s Hc).
  pose proof (available_credits w s S Hc HS). destruct (co_sched _ _ Hc s S HS). split_and!; [lia..|done|done].
Qed.

Lemma sched_credits_exact_witness :
  exists w S, sexec true demo_run (world0 4) = Some w /\ scheds w !! 1%positive = Some S /\
    credit_count S = 2 /\ drm_sched_available_credits S = credit_limit S - inflight None w 1%positive.
Proof.
  destruct (sexec true demo_run (world0 4)) as [w|] eqn:E; [|vm_compute in E; discriminate].
  pose proof (demo_reach _ _ _ E) as Hr. exists w. vm_compute in E. injection E as <-. eexists.
  split; [reflexivity|]. split; [reflexivity|]. split; [reflexivity|].
  apply (sched_credits_exact true _ _ _ Hr). reflexivity.
Defined.

(** What holds of the jobs on a queue, on a pending list and on a fence. *)
Definition queued_ok (w : world) (e : eid) (E : drm_sched_entity) (j : jid) : Prop :=
  exists J s i, jobs w !! j = Some J /\ j_entity J = Some e /\ cb_linked J = false /\
    e_rq E = Some (s, i) /\ armed_for w j J s /\ unfinished w j /\ ~ is_pending w j.
Definition pending_ok (w : world) (s : sid) (j : jid) : Prop :=
  exists J, jobs w !! j = Some J /\ j_entity J = None /\ armed_for w j J s /\ ~ queued w j.
Definition waited_ok (w : world) (f : fref) (j : jid) : Prop :=
  exists J SF n, jobs w !! j = Some J /\ cb_linked J = true /\ unfinished w j /\
    sfences w !! j = Some SF /\ f = FExt n /\ parent SF = Some n.

(** C7: in every state that is reached nothing points at a freed job, and every job is in
    one place. A queued job exists, was armed for the scheduler its entity is on, has not
    finished, is in no other entity's queue and on no pending list; a job on a pending
    list exists and belongs to that scheduler; a completion callback on a fence belongs
    to an unfinished job whose parent fence it is; queues, pending lists and callback
    lists have no duplicates. *)
Theorem sched_refs_live fifo w :
  sreach fifo w ->
  (forall e E, entities w !! e = Some E -> NoDup (job_queue E) /\
     forall j, j ∈ job_queue E -> queued_ok w e E j) /\
  (forall s S, scheds w !! s = Some S -> NoDup (pending_list S) /\
     forall j, j ∈ pending_list S -> pending_ok w s j) /\
  (forall f F, fences w !! f = Some F -> NoDup (omap done_job (f_cbs F)) /\
     forall j, CbDone j ∈ f_cbs F -> waited_ok w f j).
Proof.
  intros Hr. destruct (sreach_sinv _ _ Hr) as [[_ HI] _]. split_and!.
  - intros e E HE. split; [by apply (ji_queue_nodup _ HI e)|]. intros j Hj.
    destruct (ji_queue _ HI e E j HE Hj) as (J & [s i] & HJ & H1 & H2 & H3 & H4 & H5).
    exists J, s, i. split_and!; try done. apply queued_not_pending; [done|]. by exists e, E.
  - intros s S HS. split; [by apply (ji_pending_nodup _ HI s)|]. intros j Hj.
    destruct (ji_pending _ HI s S j HS Hj) as (J & HJ & H1 & H2). exists J. split_and!; try done.
    apply pending_not_queued; [done|]. by exists s, S.
  - intros f F HF. split; [by apply (ji_done_nodup _ HI f)|]. intros j Hj.
    destruct (ji_done _ HI f F j HF Hj) as ((J & HJ & Hl) & n & SF & -> & HSF & Hp).
    destruct (ji_linked _ HI j J HJ Hl) as (_ & Hu & _). by exists J, SF, n.
Qed.

Lemma sched_refs_live_witness :
  exists w E, sexec true demo_run (world0 4) = Some w /\ entities w !! 2%positive = Some E /\
    job_queue E = [2%positive] /\ queued_ok w 2%positive E 2%positive.
Proof.
  destruct (sexec true demo_run (world0 4)) as [w|] eqn:E; [|vm_compute in E; discriminate].
  destruct (sched_refs_live true w (demo_reach _ _ _ E)) as [Hq _]. exists w. vm_compute in E. injection E as <-. eexists.
  split; [reflexivity|]. split; [reflexivity|]. split; [reflexivity|]. eapply Hq; [reflexivity|]. by left.
Defined.

(** ** The choice of an entity *)

Definition ready_at (w : world) (e : eid) : bool :=
  match entities w !! e with Some E => drm_sched_entity_is_ready E | None => false end.

(** The list from behind [c] round to [c] itself. *)
Fixpoint upto (c : eid) (l : list eid) : list eid :=
  match l with [] => [] | x :: l' => x :: if decide (x = c) then [] else upto c l' end.
Definition rotation (c : option eid) (l : list eid) : list eid :=
  match c with Some c => after c l ++ upto c l | None => l end.

(** The entities of a run queue in the order the policy looks at them. *)
Definition candidates (fifo : bool) (R : drm_sched_rq) : list eid :=
  if fifo then rb_tree_root R else rotation (current_entity R) (rq_entities R).

(** The first ready entity, run queues of higher priority first. *)
Fixpoint choice (fifo : bool) (w : world) (i : nat) (rqs : list drm_sched_rq) : option (nat * eid) :=
  match rqs with
  | [] => None
  | R :: rqs' =>
      match List.find (ready_at w) (candidates fifo R) with
      | Some e => Some (i, e)
      | None => choice fifo w (S i) rqs'
      end
  end.

Lemma get_entity_at w e E : entities w !! e = Some E -> get_entity e w = Some (E, w).
Proof. intros HE. unfold get_entity, st_bind, st_get. by rewrite HE. Qed.
Lemma get_rq_at w q R : rq_at w q = Some R -> get_rq q w = Some (R, w).
Proof.
  unfold rq_at, get_rq, get_sched, st_bind, st_get. intros HR. destruct (scheds w !! fst q) as [S|]; [|done].
  simpl. unfold st_ret. by rewrite HR.
Qed.

Lemma select_loop_find w s i c last l :
  (forall e, e ∈ l -> is_Some (entities w !! e)) ->
  select_loop s i c last l w =
    match List.find (ready_at w) (match last with Some x => upto x l | None => l end) with
    | Some e => select_ready s i e c w
    | None => Some (SelNone, w)
    end.
Proof.
  induction l as [|e l IH]; intros Hl; [by destruct last|].
  destruct (Hl e ltac:(set_solver)) as [E HE]. cbn [select_loop].
  unfold st_bind at 1. rewrite (get_entity_at w e E HE).
  assert (Hr : ready_at w e = drm_sched_entity_is_ready E) by (unfold ready_at; by rewrite HE).
  assert (Hf : match last with Some x => upto x (e :: l) | None => e :: l end =
    e :: match last with Some x => if decide (e = x) then [] else upto x l | None => l end) by (by destruct last).
  rewrite Hf. cbn [List.find]. rewrite Hr. destruct (drm_sched_entity_is_ready E); [done|].
  destruct last as [x|].
  - destruct (decide (Some x = Some e)) as [He|Hne]; [rewrite decide_True by congruence; done|].
    rewrite decide_False by congruence. apply IH. set_solver.
  - apply IH. set_solver.
Qed.

Lemma find_app {A} (p : A -> bool) l1 l2 :
  List.find p (l1 ++ l2) = match List.find p l1 with Some x => Some x | None => List.find p l2 end.
Proof. induction l1 as [|x l1 IH]; simpl; [done|]. by destruct (p x). Qed.
Lemma upto_incl c l e : e ∈ upto c l -> e ∈ l.
Proof. induction l as [|x l IH]; simpl; [done|]. case_decide; set_solver. Qed.

(** One run queue. *)
Lemma select_rq_find (fifo : bool) w s i R :
  rqinv w -> rq_at w (s, i) = Some R ->
  (if fifo then drm_sched_rq_select_entity_fifo s i else drm_sched_rq_select_entity_rr s i) w =
    match List.find (ready_at w) (candidates fifo R) with
    | Some e => select_ready s i e (negb fifo) w
    | None => Some (SelNone, w)
    end.
Proof.
  intros HI HR. destruct (HI _ _ HR) as [_ _ _ H4 H5]. destruct fifo; cbn [candidates negb].
  - unfold drm_sched_rq_select_entity_fifo. unfold st_bind. rewrite (get_rq_at _ _ _ HR).
    rewrite select_loop_find; [done|]. intros e He. destruct (H5 e He) as (E & -> & _). eauto.
  - unfold drm_sched_rq_select_entity_rr. unfold st_bind at 1. rewrite (get_rq_at _ _ _ HR).
    assert (Hl : forall e, e ∈ rq_entities R -> is_Some (entities w !! e)).
    { intros e He. destruct (H4 e He) as (E & -> & _). eauto. }
    unfold rotation. destruct (current_entity R) as [c|]; [|unfold st_bind, st_ret; by rewrite select_loop_find].
    unfold st_bind. rewrite select_loop_find by (intros e He; apply Hl; by eapply elem_of_after).
    rewrite find_app. destruct (List.find (ready_at w) (after c (rq_entities R))) as [e|] eqn:Ef.
    + destruct (select_ready s i e true w) as [[r w']|] eqn:Es; [|done].
      assert (r <> SelNone); [|by destruct r].
      revert Es. unfold select_ready, st_bind, st_ret. repeat case_match; intros; by simplify_eq.
    + by rewrite select_loop_find.
Qed.

Lemma select_rqs_choice fifo w s S rqs i :
  rqinv w -> scheds w !! s = Some S -> rqs = drop i (sched_rq S) ->
  select_rqs fifo s i (length rqs) w =
    match choice fifo w i rqs with
    | Some (k, e) => select_ready s k e (negb fifo) w
    | None => Some (SelNone, w)
    end.
Proof.
  intros HI HS. revert i. induction rqs as [|R rqs IH]; intros i Ed; [done|]. cbn [length select_rqs choice].
  assert (HR : sched_rq S !! i = Some R) by (rewrite <- (Nat.add_0_r i), <- lookup_drop, <- Ed; done).
  unfold st_bind. rewrite (select_rq_find fifo w s i R); [|done|unfold rq_at; simpl; by rewrite HS].
  destruct (List.find _ _) as [e|] eqn:Ef.
  - destruct (select_ready s i e (negb fifo) w) as [[r w']|] eqn:Es; [|done].
    assert (r <> SelNone); [|by destruct r].
    revert Es. unfold select_ready, st_bind, st_ret. repeat case_match; intros; by simplify_eq.
  - apply IH. by rewrite <- Nat.add_1_r, <- drop_drop, <- Ed.
Qed.

(** C8: which entity runs next, in every state that is reached: drm_sched_select_entity is
    the first ready entity, run queues of higher priority first, and within one run queue
    in the order of the policy: the tree of waiting times, or the list rotated so that it
    begins behind the entity chosen last and ends with it. That entity is returned when
    the credits suffice for its next job; with no ready entity nothing is returned and
    nothing changes. *)
Theorem select_entity_order fifo w s S :
  sreach fifo w -> scheds w !! s = Some S -> sched_rq S <> [] ->
  drm_sched_select_entity fifo s w =
    match choice fifo w 0 (sched_rq S) with
    | Some (i, e) =>
        (r <- select_ready s i e (negb fifo) ;;
         st_ret (match r with SelEntity e' => Some e' | _ => None end)) w
    | None => Some (None, w)
    end.
Proof.
  intros Hr HS Hne. pose proof (sreach_rqinv _ _ Hr) as HI. unfold drm_sched_select_entity.
  assert (Hg : get_sched s w = Some (S, w)) by (unfold get_sched, st_bind, st_get; by rewrite HS).
  unfold st_bind at 1. rewrite Hg. rewrite bool_decide_false by done. unfold st_bind.
  cbn [BUG_ON]. unfold st_ret at 1. rewrite (select_rqs_choice fifo w s S (sched_rq S) 0); [|done|done|done].
  destruct (choice fifo w 0 (sched_rq S)) as [[i e]|]; done.
Qed.

Lemma select_entity_order_witness :
  exists w S, sexec false demo_run (world0 4) = Some w /\ scheds w !! 1%positive = Some S /\
    choice false w 0 (sched_rq S) = Some (1%nat, 2%positive) /\
    drm_sched_select_entity false 1%positive w =
      (r <- select_ready 1%positive 1 2%positive true ;;
       st_ret (match r with SelEntity e' => Some e' | _ => None end)) w.
Proof.
  destruct (sexec false demo_run (world0 4)) as [w|] eqn:E; [|vm_compute in E; discriminate].
  pose proof (demo_reach _ _ _ E) as Hr. exists w. vm_compute in E. injection E as <-. eexists.
  split; [reflexivity|]. split; [reflexivity|]. split; [reflexivity|].
  rewrite (select_entity_order false _ 1%positive _ Hr eq_refl ltac:(discriminate)). vm_compute. reflexivity.
Defined.

(** ** Fairness *)

Lemma after_upto c l : exists a b, l = a ++ b /\ upto c l = a /\ after c l = b.
Proof.
  induction l as [|x l (a & b & -> & Ha & Hb)]; [by exists [], []|]. simpl. case_decide.
  - by exists [x], (a ++ b).
  - exists (x :: a), b. by rewrite Ha, Hb.
Qed.
Lemma split_at c (l : list eid) a b : l = a ++ c :: b -> c ∉ a -> upto c l = a ++ [c] /\ after c l = b.
Proof.
  intros -> Hc. induction a as [|x a IH]; simpl; [by rewrite !decide_True|].
  rewrite !decide_False by (intros ->; set_solver). destruct IH as [-> ->]; [set_solver|done].
Qed.

(** Rotating to an entity of the rotation. *)
Lemma rotation_next c l p e t :
  NoDup l -> rotation c l = p ++ e :: t -> rotation (Some e) l = t ++ p ++ [e].
Proof.
  intros Hn Hr. unfold rotation in *.
  assert (Hgo : forall a b, l = a ++ b -> b ++ a = p ++ e :: t -> after e l ++ upto e l = t ++ p ++ [e]).
  { intros a b -> Hb. apply app_eq_inv in Hb as [(k & -> & Hk)|(k & -> & Hk)].
    - destruct k as [|x k]; simpl in Hk; [subst a; simpl|injection Hk as <- ->].
      + rewrite app_nil_r, !decide_True by done. by rewrite <- app_assoc.
      + destruct (split_at e (a ++ p ++ e :: k) (a ++ p) k) as [-> ->]; [by rewrite <- app_assoc| |by rewrite <- !app_assoc].
        rewrite app_assoc in Hn. apply NoDup_app in Hn as (_ & Hd & _). intros Hin. apply (Hd e Hin). set_solver.
    - subst a. rewrite <- app_assoc in *. simpl in *.
      destruct (split_at e (k ++ e :: t ++ b) k (t ++ b)) as [-> ->]; [done| |by rewrite <- !app_assoc].
      apply NoDup_app in Hn as (_ & Hd & _). intros Hin. apply (Hd e Hin). set_solver. }
  destruct c as [c|].
  - destruct (after_upto c l) as (a & b & Hl & Ha & Hb). rewrite Ha, Hb in Hr. by apply (Hgo a b).
  - apply (Hgo l []); [by rewrite app_nil_r|done].
Qed.
Lemma rotation_elem c l x : x ∈ rotation c l <-> x ∈ l.
Proof.
  unfold rotation. destruct c as [c|]; [|done]. destruct (after_upto c l) as (a & b & -> & -> & ->). set_solver.
Qed.
Lemma rotation_length c l : length (rotation c l) = length l.
Proof.
  unfold rotation. destruct c as [c|]; [|done]. destruct (after_upto c l) as (a & b & -> & -> & ->).
  rewrite !length_app. lia.
Qed.

(** Consecutive choices on run queue [i] of a scheduler, at which its list is [l] and [x]
    is ready. Each begins with the current entity the choice before it left ([c] for the
    first); otherwise the world may change in any way in between. *)
Inductive rr_rounds (fifo : bool) (s : sid) (i : nat) (l : list eid) (x : eid) : option eid -> list eid -> Prop :=
  | rr_end c : rr_rounds fifo s i l x c []
  | rr_round c w R e w' R' es :
      sreach fifo w -> rq_at w (s, i) = Some R -> rq_entities R = l -> current_entity R = c ->
      ready_at w x = true -> drm_sched_rq_select_entity_rr s i w = Some (SelEntity e, w') ->
      rq_at w' (s, i) = Some R' -> rr_rounds fifo s i l x (current_entity R') es ->
      rr_rounds fifo s i l x c (e :: es).

Lemma find_split {A} (p : A -> bool) l e :
  List.find p l = Some e -> exists a b, l = a ++ e :: b /\ p e = true /\ forall x, x ∈ a -> p x = false.
Proof.
  induction l as [|y l IH]; simpl; [done|]. destruct (p y) eqn:Ep.
  - intros [= ->]. exists [], l. split_and!; [done|done|]. set_solver.
  - intros Hf. destruct (IH Hf) as (a & b & -> & H1 & H2). exists (y :: a), b. split_and!; [done|done|].
    intros x [->|Hx]%elem_of_cons; [done|by apply H2].
Qed.

Lemma select_ready_entity s i e c w e' w' : select_ready s i e c w = Some (SelEntity e', w') -> e' = e.
Proof. unfold select_ready, st_bind, st_ret. repeat case_match; intros; by simplify_eq. Qed.

(** The entity chosen becomes the current one. *)
Lemma select_ready_current w s i e e' w' R' :
  select_ready s i e true w = Some (SelEntity e', w') -> rq_at w' (s, i) = Some R' -> current_entity R' = Some e'.
Proof.
  intros Hs. pose proof (select_ready_entity _ _ _ _ _ _ _ Hs) as ->. revert R'.
  assert (H : wlp (select_ready s i e true) (fun r w' => r = SelEntity e ->
    forall R', rq_at w' (s, i) = Some R' -> current_entity R' = Some e) w); [|by apply (H _ _ Hs)].
  unfold select_ready. wstep. intros b w1 _. destruct b; cbn [negb]; cbv iota; [|by wstep].
  wstep. apply wlp_upd_rq. intros S R HS HR. wstep. apply wlp_upd_entity. intros E HE. wstep. intros _ R' HR'.
  change (rq_at (set_scheds (<[fst (s, i) := set_sched_rq (<[snd (s, i) := set_current_entity (Some e) R]> (sched_rq S)) S]>
    (scheds w1)) w1) (s, i) = Some R') in HR'.
  rewrite (rq_at_upd w1 (s, i) (set_current_entity (Some e)) S R), decide_True in HR' by done. by simplify_eq.
Qed.

Lemma rr_rounds_rank fifo s i l x c es k :
  rr_rounds fifo s i l x c es -> rotation c l !! k = Some x -> (k < length es)%nat -> x ∈ es.
Proof.
  intros Hr. revert k. induction Hr as [c|c w R e w' R' es Hw HR Hl Hc Hx Hs HR' Hes IH]; intros k Hk Hlen; cbn [length] in *; [lia|].
  destruct (decide (e = x)) as [->|Hne]; [set_solver|]. apply elem_of_cons. right.
  pose proof (sreach_rqinv _ _ Hw) as HI. pose proof (select_rq_find false w s i R HI HR) as Hf. cbv iota in Hf.
  rewrite Hs in Hf. unfold candidates in Hf. rewrite Hl, Hc in Hf.
  destruct (List.find (ready_at w) (rotation c l)) as [e0|] eqn:Ef; [|done].
  assert (e0 = e) as -> by (symmetry; by eapply select_ready_entity).
  assert (Hcur : current_entity R' = Some e) by (by eapply select_ready_current). rewrite Hcur in IH.
  destruct (find_split _ _ _ Ef) as (p & t & Er & _ & Hp).
  assert (Hn : NoDup l) by (rewrite <- Hl; apply (HI _ _ HR)).
  rewrite Er in Hk. apply lookup_app_Some in Hk as [Hk|[Hge Hk]].
  { apply list_elem_of_lookup_2 in Hk. by rewrite Hp in Hx. }
  destruct (k - length p)%nat as [|m] eqn:Em; simpl in Hk; [congruence|].
  apply (IH m); [|lia]. rewrite (rotation_next c l p e t Hn Er). apply lookup_app_Some. by left.
Qed.

(** C9: round robin lets nobody wait for longer than one round: whatever happens in
    between, as long as the list of the run queue and its current entity do not change,
    an entity of the list that is ready at each choice is among any [length l]
    consecutive choices; the choices themselves move the current entity. *)
Theorem rr_bounded_wait fifo s i l x c es :
  x ∈ l -> rr_rounds fifo s i l x c es -> (length l <= length es)%nat -> x ∈ es.
Proof.
  intros Hx Hr Hlen. apply (rotation_elem c) in Hx. apply list_elem_of_lookup in Hx as [k Hk].
  eapply rr_rounds_rank; [done|done|]. pose proof (lookup_lt_Some _ _ _ Hk). rewrite rotation_length in *. lia.
Qed.

Lemma rr_bounded_wait_witness : exists es, rr_rounds false 1%positive 1 [1%positive; 2%positive] 2%positive None es /\
  2%positive ∈ es.
Proof.
  destruct (sexec false demo_jobs (world0 4)) as [w|] eqn:E; [|vm_compute in E; discriminate].
  destruct (sexec false demo_run (world0 4)) as [w1|] eqn:E1; [|vm_compute in E1; discriminate].
  pose proof (demo_reach _ _ _ E) as Hr. pose proof (demo_reach _ _ _ E1) as Hr1.
  assert (H : rr_rounds false 1%positive 1 [1%positive; 2%positive] 2%positive None [1%positive; 2%positive]).
  { vm_compute in E, E1. injection E as <-. injection E1 as <-.
    eapply rr_round; [exact Hr|reflexivity|reflexivity|reflexivity|reflexivity|vm_compute; reflexivity|reflexivity|].
    eapply rr_round; [exact Hr1|reflexivity|reflexivity|reflexivity|reflexivity|vm_compute; reflexivity|reflexivity|].
    apply rr_end. }
  exists [1%positive; 2%positive]. split; [exact H|]. eapply rr_bounded_wait; [|exact H|simpl; lia]. set_solver.
Defined.

(** C10: the FIFO policy serves the entity that has waited longest: in every state that is
    reached the tree of a run queue is ordered by waiting time and holds no entity twice,
    and the entity chosen is ready and no ready entity of the tree waits for longer; when
    none is chosen, none is ready. *)
Theorem fifo_oldest_first fifo w s i R r w' :
  sreach fifo w -> rq_at w (s, i) = Some R ->
  drm_sched_rq_select_entity_fifo s i w = Some (r, w') ->
  NoDup (rb_tree_root R) /\
  StronglySorted (fun a b => waiting w a <= waiting w b) (rb_tree_root R) /\
  match r with
  | SelEntity e => e ∈ rb_tree_root R /\ ready_at w e = true /\
      forall x, x ∈ rb_tree_root R -> ready_at w x = true -> waiting w e <= waiting w x
  | SelNoSpace => exists e, e ∈ rb_tree_root R /\ ready_at w e = true /\
      forall x, x ∈ rb_tree_root R -> ready_at w x = true -> waiting w e <= waiting w x
  | SelNone => w' = w /\ forall x, x ∈ rb_tree_root R -> ready_at w x = false
  end.
Proof.
  intros Hr HR Hs. pose proof (sreach_rqinv _ _ Hr) as HI. destruct (HI _ _ HR) as [_ H2 H3 _ _].
  split; [done|]. split; [done|]. pose proof (select_rq_find true w s i R HI HR) as Hf. cbv iota in Hf.
  rewrite Hs in Hf. cbn [candidates negb] in Hf.
  assert (Hold : forall e, List.find (ready_at w) (rb_tree_root R) = Some e ->
    e ∈ rb_tree_root R /\ ready_at w e = true /\
    forall x, x ∈ rb_tree_root R -> ready_at w x = true -> waiting w e <= waiting w x).
  { intros e Ef. destruct (find_split _ _ _ Ef) as (a & b & Er & He & Ha). rewrite Er in *. split_and!; [set_solver|done|].
    intros x [Hx|[->|Hx]%elem_of_cons]%elem_of_app Hrx; [by rewrite Ha in Hrx|done|].
    apply StronglySorted_app in H3 as (_ & _ & H3). inversion H3 as [|? ? _ Hall]; subst.
    rewrite Forall_forall in Hall. by apply Hall. }
  destruct (List.find (ready_at w) (rb_tree_root R)) as [e|] eqn:Ef.
  - destruct r as [e'| |]; [|by exists e; apply Hold|].
    + symmetry in Hf. apply select_ready_entity in Hf as ->. by apply Hold.
    + symmetry in Hf. revert Hf. unfold select_ready, st_bind, st_ret. repeat case_match; intros; by simplify_eq.
  - simplify_eq. split; [done|]. intros x Hx. destruct (ready_at w x) eqn:Hrx; [|done].
    apply list_elem_of_In in Hx. by rewrite (List.find_none _ _ Ef x Hx) in Hrx.
Qed.

Lemma fifo_oldest_first_witness :
  exists w w', sexec true demo_jobs (world0 4) = Some w /\
    drm_sched_rq_select_entity_fifo 1%positive 1 w = Some (SelEntity 1%positive, w') /\
    forall x, x ∈ [1%positive; 2%positive] -> ready_at w x = true -> waiting w 1%positive <= waiting w x.
Proof.
  destruct (sexec true demo_jobs (world0 4)) as [w|] eqn:E; [|vm_compute in E; discriminate].
  destruct (drm_sched_rq_select_entity_fifo 1%positive 1 w) as [[r w']|] eqn:Es;
    [|vm_compute in E; injection E as <-; vm_compute in Es; discriminate].
  assert (Hw : r = SelEntity 1%positive /\ exists R, rq_at w (1%positive, 1%nat) = Some R /\
    rb_tree_root R = [1%positive; 2%positive]).
  { vm_compute in E. injection E as <-. vm_compute in Es. injection Es as <- _.
    split; [reflexivity|]. eexists. split; reflexivity. }
  destruct Hw as (-> & R & HR & Ht).
  destruct (fifo_oldest_first true w 1%positive 1 R _ w' (demo_reach _ _ _ E) HR Es) as (_ & _ & _ & _ & H).
  exists w, w'. split; [reflexivity|]. split; [exact Es|]. rewrite <- Ht. exact H.
Defined.

(** ** The choice of a scheduler *)

Definition is_ready (w : world) (s : sid) : bool :=
  match scheds w !! s with Some x => ready x | None => false end.
Definition load (w : world) (s : sid) : Z :=
  match scheds w !! s with Some x => u32 (default 0 (scores w !! score x)) | None => 0 end.
Definition known (w : world) (s : sid) : Prop :=
  exists S v, scheds w !! s = Some S /\ scores w !! score S = Some v.

Lemma pick_loop_least w l best m :
  (forall s, s ∈ l -> known w s) ->
  exists r, pick_loop w l best m w = Some (r, w) /\
    match r with
    | Some s => (best = Some s /\ (forall x, x ∈ l -> is_ready w x = true -> m <= load w x)) \/
                (s ∈ l /\ is_ready w s = true /\ load w s < m /\
                 forall x, x ∈ l -> is_ready w x = true -> load w s <= load w x)
    | None => best = None /\ forall x, x ∈ l -> is_ready w x = true -> m <= load w x
    end.
Proof.
  revert best m. induction l as [|s l IH]; intros best m Hk.
  { exists best. split; [done|]. destruct best; cbv iota; [left|]; (split; [done|]); intros x Hx; by apply elem_of_nil in Hx. }
  destruct (Hk s ltac:(set_solver)) as (S & v & HS & Hv).
  assert (Hg : get_sched s w = Some (S, w)) by (unfold get_sched, st_bind, st_get; by rewrite HS).
  assert (Hrs : is_ready w s = ready S) by (unfold is_ready; by rewrite HS).
  assert (Hls : load w s = u32 v) by (unfold load; by rewrite HS, Hv).
  assert (Hl : forall x, x ∈ l -> known w x) by set_solver.
  cbn [pick_loop]. unfold st_bind at 1. rewrite Hg. destruct (ready S); cbn [negb]; cbv iota.
  - unfold st_bind, st_of_option, st_ret. rewrite Hv. destruct (Z.ltb_spec (u32 v) m) as [Hlt|Hge].
    + destruct (IH (Some s) (u32 v) Hl) as (r & Er & Hr). exists r. split; [done|].
      destruct r as [t|]; [|by destruct Hr]. right. destruct Hr as [[[= <-] Hr]|(H1 & H2 & H3 & H4)].
      * split_and!; [set_solver|congruence|lia|]. intros x [->|Hx]%elem_of_cons Hrx; [lia|]. rewrite Hls. by apply Hr.
      * split_and!; [set_solver|done|lia|]. intros x [->|Hx]%elem_of_cons Hrx; [lia|by apply H4].
    + destruct (IH best m Hl) as (r & Er & Hr). exists r. split; [done|]. destruct r as [t|].
      * destruct Hr as [[H1 Hr]|(H1 & H2 & H3 & H4)]; [left|right].
        -- split; [done|]. intros x [->|Hx]%elem_of_cons Hrx; [lia|by apply Hr].
        -- split_and!; [set_solver|done|done|]. intros x [->|Hx]%elem_of_cons Hrx; [lia|by apply H4].
      * destruct Hr as [H1 Hr]. split; [done|]. intros x [->|Hx]%elem_of_cons Hrx; [lia|by apply Hr].
  - destruct (IH best m Hl) as (r & Er & Hr). exists r. split; [done|]. destruct r as [t|].
    + destruct Hr as [[H1 Hr]|(H1 & H2 & H3 & H4)]; [left|right].
      * split; [done|]. intros x [->|Hx]%elem_of_cons Hrx; [congruence|by apply Hr].
      * split_and!; [set_solver|done|done|]. intros x [->|Hx]%elem_of_cons Hrx; [congruence|by apply H4].
    + destruct Hr as [H1 Hr]. split; [done|]. intros x [->|Hx]%elem_of_cons Hrx; [congruence|by apply Hr].
Qed.

(** C16: drm_sched_pick_best reads only, and returns a scheduler of the list that is ready
    and has the least score (as an unsigned number) of those that are ready; NULL when no
    scheduler is ready, or only ones whose score is UINT_MAX, which the comparison with
    the initial minimum can never take. *)
Theorem pick_best_least w l :
  (forall s, s ∈ l -> known w s) ->
  exists r, drm_sched_pick_best l w = Some (r, w) /\
    match r with
    | Some s => s ∈ l /\ is_ready w s = true /\
        forall x, x ∈ l -> is_ready w x = true -> load w s <= load w x
    | None => forall x, x ∈ l -> is_ready w x = true -> load w x = 2 ^ 32 - 1
    end.
Proof.
  intros Hk. destruct (pick_loop_least w l None (2 ^ 32 - 1) Hk) as (r & Er & Hr). exists r. split; [done|].
  destruct r as [s|].
  - destruct Hr as [[[=] _]|(H1 & H2 & _ & H4)]. done.
  - destruct Hr as [_ Hr]. intros x Hx Hrx. specialize (Hr x Hx Hrx).
    assert (load w x < 2 ^ 32); [|lia]. unfold load. destruct (scheds w !! x); [|lia]. by apply wrap_range.
Qed.

Lemma pick_best_least_witness :
  exists r, drm_sched_pick_best [1%positive] (world0 4) = Some (r, world0 4) /\
    match r with
    | Some s => is_ready (world0 4) s = true
    | None => load (world0 4) 1%positive = 2 ^ 32 - 1
    end.
Proof.
  destruct (pick_best_least (world0 4) [1%positive]) as (r & Er & Hr).
  - intros s Hs. apply list_elem_of_singleton in Hs as ->. exists (sched0 4), 0. split; reflexivity.
  - exists r. split; [exact Er|]. destruct r as [s|]; [apply Hr|]. apply Hr; [set_solver|reflexivity].
Defined.

(** ** Dependencies *)

Definition context_of (w : world) (o : option fref) : option Z :=
  match o with Some g => f_context <$> fences w !! g | None => None end.
Definition contexts (w : world) (l : list (option fref)) : list Z := omap (context_of w) l.

Lemma find_context_some w c k l i g :
  find_context w c k l = Some (i, g) ->
  exists n G, i = (k + n)%nat /\ l !! n = Some (Some g) /\ fences w !! g = Some G /\ f_context G = c.
Proof.
  revert k. induction l as [|o l IH]; intros k; simpl; [done|].
  assert (Hgo : find_context w c (S k) l = Some (i, g) -> exists n G, i = (k + n)%nat /\
    (o :: l) !! n = Some (Some g) /\ fences w !! g = Some G /\ f_context G = c).
  { intros Hf. destruct (IH _ Hf) as (n & G & -> & H1 & H2 & H3). exists (S n), G. split_and!; [lia|done..]. }
  destruct o as [h|]; [|done]. destruct (fences w !! h) as [H|] eqn:Eh; [|done].
  destruct (Z.eqb_spec (f_context H) c) as [Ec|]; [|done]. intros [= <- <-]. exists O, H. split_and!; [lia|done..].
Qed.
Lemma find_context_none w c k l : find_context w c k l = None -> c ∉ contexts w l.
Proof.
  revert k. induction l as [|o l IH]; intros k; simpl; [set_solver|]. unfold contexts in *. csimpl.
  destruct o as [h|]; simpl; [|apply IH]. destruct (fences w !! h) as [H|]; simpl; [|apply IH].
  destruct (Z.eqb_spec (f_context H) c) as [|Hne]; [done|]. intros Hf. apply IH in Hf. set_solver.
Qed.
Lemma xa_alloc_perm f l : exists l', xa_alloc f l ≡ₚ Some f :: l' /\ forall (h : fref), Some h ∈ l' <-> Some h ∈ l.
Proof.
  induction l as [|[g|] l (l' & IH & Hl')]; simpl; [by exists []|..].
  - exists (Some g :: l'). split; [by rewrite IH; constructor|]. intros h. rewrite !elem_of_cons. by rewrite Hl'.
  - exists l. split; [done|]. intros h. set_solver.
Qed.
Lemma xa_alloc_contexts w f l c :
  context_of w (Some f) = Some c -> contexts w (xa_alloc f l) ≡ₚ c :: contexts w l.
Proof.
  unfold contexts. intros Hc. simpl in Hc. induction l as [|[g|] l IH]; csimpl.
  - by rewrite Hc.
  - destruct (f_context <$> fences w !! g); [|done]. rewrite IH. constructor.
  - by rewrite Hc.
Qed.
Lemma insert_contexts w (l : list (option fref)) i g f :
  l !! i = Some (Some g) -> context_of w (Some f) = context_of w (Some g) ->
  contexts w (<[i := Some f]> l) = contexts w l.
Proof.
  unfold contexts. revert i. induction l as [|o l IH]; intros [|i] Hi Hc; simplify_eq/=; csimpl; [by rewrite Hc|].
  by rewrite IH.
Qed.

Lemma __is_later_irrefl n : __dma_fence_is_later n n = false.
Proof. unfold __dma_fence_is_later. rewrite Z.sub_diag. case_match; [lia|done]. Qed.

(** What a job waits for after a fence was added. *)
Definition covers (w : world) (F : dma_fence) (l : list (option fref)) : Prop :=
  exists g G, Some g ∈ l /\ fences w !! g = Some G /\ f_context G = f_context F /\
    dma_fence_is_later F G = false.

(** C15: drm_sched_job_add_dependency keeps at most one fence per fence context, the latest.
    Afterwards the job waits for the new fence or for one of its context that is not
    earlier; every older dependency is still there or was replaced by the new fence, of
    the same context and later; nothing else was added; and on failure the list is
    unchanged and the error returned. *)
Theorem add_dependency_latest ret w j f J F :
  jobs w !! j = Some J -> fences w !! f = Some F -> NoDup (contexts w (dependencies J)) ->
  exists r w' J', drm_sched_job_add_dependency ret j (Some f) w = Some (r, w') /\
    jobs w' !! j = Some J' /\ fences w' = fences w /\
    NoDup (contexts w (dependencies J')) /\
    (r = 0 -> covers w F (dependencies J')) /\
    (r <> 0 -> r = ret /\ dependencies J' = dependencies J) /\
    (forall h H, Some h ∈ dependencies J -> fences w !! h = Some H ->
       Some h ∈ dependencies J' \/
       (Some f ∈ dependencies J' /\ f_context H = f_context F /\ dma_fence_is_later F H = true)) /\
    (forall h, Some h ∈ dependencies J' -> h = f \/ Some h ∈ dependencies J).
Proof.
  intros HJ HF Hn.
  assert (Hself : dma_fence_is_later F F = false) by (apply __is_later_irrefl).
  unfold drm_sched_job_add_dependency, get_job, get_fence, upd_job, get_job, dma_fence_put, add_ref.
  unfold st_bind, st_get, st_of_option, st_ret, st_mod. rewrite HJ, HF.
  destruct (find_context w (f_context F) 0 (dependencies J)) as [[i g]|] eqn:Ef.
  - destruct (find_context_some _ _ _ _ _ _ Ef) as (n & G & -> & Hi & HG & Hc). cbn [Nat.add]. rewrite HG.
    destruct (dma_fence_is_later F G) eqn:El; cbv iota beta; cbn [jobs set_refs]; rewrite ?HJ.
    + do 3 eexists. split; [done|]. cbn [jobs set_jobs fences set_refs]. rewrite lookup_insert_eq.
      split_and!; [done|done|..]; cbn [dependencies set_dependencies].
      * rewrite (insert_contexts w _ n g f); [done|done|]. simpl. rewrite HF, HG. simpl. congruence.
      * intros _. exists f, F. split_and!; try done. apply list_elem_of_lookup_2 with n. apply list_lookup_insert_eq.
        by eapply lookup_lt_Some.
      * done.
      * intros h H Hh HH. apply list_elem_of_lookup in Hh as [m Hm]. destruct (decide (m = n)) as [->|Hne].
        -- right. simplify_eq. split_and!; try done. apply list_elem_of_lookup_2 with n.
           apply list_lookup_insert_eq. by eapply lookup_lt_Some.
        -- left. apply list_elem_of_lookup_2 with m. by rewrite list_lookup_insert_ne.
      * intros h Hh. apply list_elem_of_lookup in Hh as [m Hm]. destruct (decide (m = n)) as [->|Hne].
        -- rewrite list_lookup_insert_eq in Hm by (by eapply lookup_lt_Some). left. congruence.
        -- rewrite list_lookup_insert_ne in Hm by done. right. by apply list_elem_of_lookup_2 with m.
    + do 3 eexists. split; [done|]. cbn [jobs fences set_refs]. split_and!; try done; [|by left|by right].
      intros _. exists g, G. split_and!; try done. by apply list_elem_of_lookup_2 with n.
  - destruct (Z.eqb_spec ret 0) as [->|Hr]; cbv iota beta; cbn [jobs set_refs]; rewrite ?HJ.
    + do 3 eexists. split; [done|]. cbn [jobs set_jobs fences set_refs]. rewrite lookup_insert_eq.
      destruct (xa_alloc_perm f (dependencies J)) as (l' & Hp & Hl').
      assert (Hel : forall h, Some h ∈ xa_alloc f (dependencies J) <-> h = f \/ Some h ∈ dependencies J).
      { intros h. rewrite Hp, elem_of_cons, Hl'. naive_solver. }
      split_and!; [done|done|..]; cbn [dependencies set_dependencies].
      * rewrite (xa_alloc_contexts w f _ (f_context F)) by (simpl; by rewrite HF).
        constructor; [by eapply find_context_none|done].
      * intros _. exists f, F. split_and!; try done. apply Hel. by left.
      * done.
      * intros h H Hh _. left. apply Hel. by right.
      * intros h. apply Hel.
    + do 3 eexists. split; [done|]. cbn [jobs fences set_refs]. split_and!; [done|done|done|intros; lia|done|by left|by right].
Qed.

Lemma add_dependency_latest_witness :
  exists w J, sexec true demo_run (world0 4) = Some w /\ jobs w !! 2%positive = Some J /\
    exists r w' J', drm_sched_job_add_dependency 0 2%positive (Some (FExt 1%positive)) w = Some (r, w') /\
      jobs w' !! 2%positive = Some J' /\ NoDup (contexts w (dependencies J')).
Proof.
  destruct (sexec true demo_run (world0 4)) as [w|] eqn:E; [|vm_compute in E; discriminate].
  exists w. vm_compute in E. injection E as <-. eexists. split; [reflexivity|]. split; [reflexivity|].
  edestruct (add_dependency_latest 0) as (r & w' & J' & H1 & H2 & _ & H3 & _);
    [| | |exists r, w', J'; split; [exact H1|split; [exact H2|exact H3]]];
    [reflexivity|reflexivity|]. constructor.
Defined.

(** ** Defects *)

(** Two entities of one scheduler; the job of the second depends on the job of the first.
    The worker notes the dependency, as one on the scheduled fence since both jobs run on
    the same scheduler; then the first entity ends and its job is killed. *)
Definition kill_schedule : list sop :=
  let A : eid := 1%positive in let B : eid := 2%positive in let s : sid := 1%positive in
  let job1 : jid := 1%positive in let job2 : jid := 2%positive in
  [OEntity A 2 (Some [s]) 1 None 10; OEntity B 1 (Some [s]) 1 None 20;
   OSubmit A job1 1 true [] 100 7%positive; OSubmit B job2 1 true [(FFin job1, 0)] 101 8%positive;
   ORun s [] RNull; OFini A; ORun s [] RNull; OKillWork].

(** C14: a job can wait for ever for a job that was killed. A state is reached in which both
    fences of the killed job have signaled, the job that depended on it is at the head of
    its queue with no dependency left, all credits are free and no work item, timeout or
    killing is outstanding: clearing a dependency on a scheduled fence does not wake the
    scheduler, which the killed job's entity never ran through. Submitting one more job
    to the waiting entity does not wake it either. The score of the scheduler is 3 with
    one entity and one job left: a killed job is never taken off it. *)
Theorem killed_dependency_stalls :
  exists w S F G, sreach true w /\ scheds w !! 1%positive = Some S /\
    fences w !! FSched 1%positive = Some F /\ f_signaled F = true /\
    fences w !! FFin 1%positive = Some G /\ f_signaled G = true /\
    ready_at w 2%positive = true /\ on_rq w 2%positive (1%positive, 1%nat) /\
    drm_sched_available_credits S = credit_limit S /\
    work_run_job S = false /\ work_free_job S = false /\ work_tdr S = None /\ kill_works w = [] /\
    scores w !! score S = Some 3 /\
    exists w' S', submit true 2%positive 3%positive 1 true [] 102 8%positive w = Some (0, w') /\
      scheds w' !! 1%positive = Some S' /\ work_run_job S' = false.
Proof.
  destruct (sexec true kill_schedule (world0 4)) as [w|] eqn:E; [|vm_compute in E; discriminate].
  assert (Hr : sreach true w).
  { refine (sexec_reach _ _ _ _ _ E). apply sreach_boot, boot_world0. lia. }
  assert (Hs : exists w', submit true 2%positive 3%positive 1 true [] 102 8%positive w = Some (0, w') /\
    work_run_job <$> scheds w' !! 1%positive = Some false).
  { vm_compute in E. injection E as <-. eexists. split; vm_compute; reflexivity. }
  exists w. vm_compute in E. injection E as <-. do 3 eexists.
  split; [exact Hr|]. do 6 (split; [reflexivity|]).
  split; [do 2 eexists; split; [reflexivity|split; [reflexivity|]]; cbn; set_solver|].
  do 6 (split; [reflexivity|]). destruct Hs as (w' & Es & Hw'). exists w'.
  destruct (scheds w' !! 1%positive) as [S'|] eqn:Ew; [|discriminate]. exists S'. split; [exact Es|].
  split; [reflexivity|]. by simplify_eq/=.
Qed.

(** Reading schedulers none of which is ready. *)
Lemma pick_loop_none w l m :
  (forall s, s ∈ l -> exists S, scheds w !! s = Some S /\ ready S = false) ->
  pick_loop w l None m w = Some (None, w).
Proof.
  induction l as [|s l IH]; intros H; [done|]. destruct (H s ltac:(set_solver)) as (S & HS & Hf). cbn [pick_loop].
  assert (Hg : get_sched s w = Some (S, w)) by (unfold get_sched, st_bind, st_get; by rewrite HS).
  unfold st_bind at 1. rewrite Hg, Hf. cbn [negb]. apply IH. set_solver.
Qed.

(** C17: arming a job for an idle entity none of whose schedulers is ready dereferences a
    NULL run queue: drm_sched_pick_best has none to return, drm_sched_entity_select_rq
    stores that, and drm_sched_job_arm reads the scheduler through it. The check in
    drm_sched_job_init comes too early to prevent it. *)
Theorem job_arm_null_rq fifo w j J e E l :
  jobs w !! j = Some J -> j_entity J = Some e -> entities w !! e = Some E ->
  sched_list E = Some l -> job_queue E = [] -> last_scheduled E = None -> e_linked E = false ->
  (forall s, s ∈ take (num_sched_list E) l -> exists S, scheds w !! s = Some S /\ ready S = false) ->
  (exists w' E', drm_sched_entity_select_rq fifo e w = Some (tt, w') /\
     entities w' !! e = Some E' /\ e_rq E' = None) /\
  drm_sched_job_arm fifo j w = None.
Proof.
  intros HJ He HE Hl Hq Hs Hk Hall.
  assert (Hsel : exists w' E', drm_sched_entity_select_rq fifo e w = Some (tt, w') /\
     entities w' !! e = Some E' /\ e_rq E' = None).
  { unfold drm_sched_entity_select_rq. unfold st_bind at 1. rewrite (get_entity_at w e E HE), Hl, Hq, Hs. simpl.
    unfold drm_sched_pick_best. unfold st_bind, st_ret, st_get. rewrite (pick_loop_none w _ _ Hall).
    destruct (decide (None = e_rq E)) as [Hn|Hn].
    - case_decide; [|by exists w, E]. unfold upd_entity, get_entity, st_bind, st_get, st_mod. rewrite HE. simpl.
      do 2 eexists. split; [done|]. simpl. rewrite lookup_insert_eq. split; [done|]. by simpl.
    - destruct (e_rq E) as [q|] eqn:Eq; [|done]. unfold drm_sched_rq_remove_entity. unfold st_bind at 1.
      rewrite (get_entity_at w e E HE), Hk. cbn [negb]. unfold st_ret, upd_entity. unfold st_bind.
      rewrite (get_entity_at w e E HE). unfold st_mod. case_decide.
      + unfold get_entity, st_bind, st_get. simpl. rewrite lookup_insert_eq. simpl.
        do 2 eexists. split; [done|]. simpl. rewrite lookup_insert_eq. done.
      + do 2 eexists. split; [done|]. simpl. rewrite lookup_insert_eq. done. }
  split; [done|]. destruct Hsel as (w' & E' & H1 & H2 & H3). unfold drm_sched_job_arm. unfold st_bind at 1.
  assert (Hj : get_job j w = Some (J, w)) by (unfold get_job, st_bind, st_get; by rewrite HJ).
  rewrite Hj, He. unfold st_bind, st_of_option, st_ret. rewrite H1. rewrite (get_entity_at w' e E' H2), H3. done.
Qed.

(** A scheduler that is not ready, an entity that may use it, and a new job. *)
Definition unready_world : world :=
  mkWorld ∅ ∅ {[1%positive := mkSfence None None]}
    {[1%positive := mkJob 0 0 None (Some 1%positive) 0 1 0 0 [] false]}
    {[1%positive := mkEntity false (Some (1%positive, 1%nat)) (Some [1%positive; 1%positive]) 2 1 [] 0 10
        None None None None false true 0 false]}
    {[1%positive := set_ready false (sched0 4)]} {[1%positive := 0]} ∅ [] [].
Lemma job_arm_null_rq_witness : drm_sched_job_arm true 1%positive unready_world = None.
Proof.
  eapply (job_arm_null_rq true unready_world 1%positive); try reflexivity. cbn. intros s Hs.
  assert (s = 1%positive) as -> by set_solver. eexists. split; reflexivity.
Defined.

(** C18: when a dependency from a reservation object cannot be stored, its fence loses a
    reference nobody took: drm_sched_job_add_dependency has dropped the one taken for it,
    and drm_sched_job_add_resv_dependencies drops another. *)
Theorem resv_error_drops_reference w j J f F err :
  jobs w !! j = Some J -> fences w !! f = Some F ->
  find_context w (f_context F) 0 (dependencies J) = None -> err <> 0 ->
  exists w', drm_sched_job_add_resv_dependencies j [(f, err)] w = Some (err, w') /\
    ref_of w' f = ref_of w f - 1 /\ forall g, g <> f -> ref_of w' g = ref_of w g.
Proof.
  intros HJ HF Hc Herr.
  assert (Hfc : forall w2, fences w2 = fences w -> forall c k l, find_context w2 c k l = find_context w c k l).
  { intros w2 E c k l. revert k. induction l as [|[g|] l IH]; intros k; simpl; [done| |apply IH]. rewrite E, IH. done. }
  cbn [drm_sched_job_add_resv_dependencies]. unfold drm_sched_job_add_dependency, dma_fence_get, dma_fence_put, add_ref.
  unfold get_job, get_fence, st_bind, st_get, st_of_option, st_ret, st_mod. cbn [jobs set_refs]. rewrite HJ. cbn [fences set_refs]. rewrite HF.
  assert (He : (err =? 0) = false) by lia. rewrite Hfc, Hc by done. rewrite He. cbv iota beta. rewrite He. cbv iota beta.
  eexists. split; [done|]. unfold ref_of. cbn [refs set_refs]. split.
  - rewrite !lookup_insert_eq. simpl. lia.
  - intros g Hg. by rewrite !lookup_insert_ne by congruence.
Qed.

Lemma resv_error_drops_reference_witness :
  exists w w', sexec true demo_run (world0 4) = Some w /\
    drm_sched_job_add_resv_dependencies 2%positive [(FExt 1%positive, - ENOMEM)] w = Some (- ENOMEM, w') /\
    ref_of w' (FExt 1%positive) = ref_of w (FExt 1%positive) - 1.
Proof.
  destruct (sexec true demo_run (world0 4)) as [w|] eqn:E; [|vm_compute in E; discriminate].
  exists w. vm_compute in E. injection E as <-.
  edestruct (resv_error_drops_reference) as (w' & H1 & H2 & _);
    [| | | |exists w'; split; [reflexivity|split; [exact H1|exact H2]]]; [reflexivity|reflexivity|reflexivity|discriminate].
Defined.
